(* ===== verification/_CoqProject ===== *)
-Q . S2P
Prelude.v
Go.v
Strings.v
Protocol.v
Messages.v
Registry.v
Server.v
ServerProofs.v
ServerGuarantees.v
Scenario.v
Client.v
ClientProofs.v
Handshake.v
ClientGuarantees.v
Relay.v
RelayProofs.v
RelayGuarantees.v
RelayCopy.v
PMTU.v
Usage.v
UsageCounters.v
UsageQueue.v
Metering.v
Journal.v
Admission.v
Node.v
NodeGuarantees.v
Route.v
RouteProofs.v
Generations.v
GenerationsProofs.v
GenerationsGuarantees.v
RouteTable.v
RotationMessages.v
Rotation.v
RotationProofs.v
RotationGuarantees.v
RotationScenario.v
Utf8.v
JSON.v
JSONProofs.v
StrictJSON.v
StrictJSONProofs.v
CanonicalJSON.v
StreamFrames.v
StreamFramesProofs.v
Carrier.v
CarrierProofs.v
CarrierGuarantees.v
CarrierClient.v
PreviewAdmission.v
PreviewAdmissionProofs.v
DurableAdmission.v
DurableAdmissionProofs.v
TLSCert.v
TLSCertProofs.v
TLSCertGuarantees.v
SignalProtocol.v
SignalProtocolProofs.v
Signaling.v
SignalingProofs.v
SignalingLiveness.v
SignalingGuarantees.v
StrictDecode.v
Trust.v
Verifier.v
VerifierGuarantees.v
Ingress.v
IngressProofs.v
HTTP.v
PrivateAccess.v
Policy.v
PolicyProofs.v
PolicyGuarantees.v
Replicas.v
ReplicasGuarantees.v
PreviewRegistry.v
PreviewRegistryProofs.v
PreviewRegistryGuarantees.v
PreviewWorker.v
