(* ===== verification/Prelude.v ===== *)
(** * paperboat-tunnel: verification development

    This library models the core of paperboat-tunnel, the edge of a tunnel service, and
    proves what makes it correct.  Connectors (hosts behind a firewall) keep a control
    session and a multiplexed data carrier to an edge node; the control plane gives them
    configuration generations; the edge matches public requests to routes, authorizes them,
    opens streams over the carrier of the connector that owns the route, relays peer
    connections and bills what they forward.

    ** Parts, files and sources

    Paths are under [src/internal].  A struct is a [Record] whose fields carry a prefix, an
    update is written [s <| f := v |>]; a method is a [Definition] of the same name.  A
    method that holds its mutex throughout is one function on the state.  A method that
    releases it (to call a runtime, to wait in a [select]) is cut into its locked sections,
    and the run of a component is a relation in which sections of different calls
    interleave.  Clock readings, answers of callbacks and the state of a context are
    arguments.  An error result is [option err] or a sum; [err] keeps the code, reason and
    retry flag that callers test.  What is shared by pointer lives in a heap.  Each part is a
    Module; its invariants and theorems are in Modules [...Proofs] and [...Guarantees], in
    the same file or in one of that name.

    - Prelude, Go, Strings, Utf8: record updates, hint databases and tactics; times and
      durations, machine-width integers, [strconv], [strings], [base64], [unicode/utf8].
    - Protocol, Messages: [connectorprotocol/protocol.go], errors, grammars and every
      control message with its [Validate].
    - Registry, Server, ServerProofs, ServerGuarantees, Scenario: the session registry and
      [ServerSession] of [connectorprotocol/session.go].
    - Client, ClientProofs, ClientGuarantees: [ClientSession] of the same file.
    - Handshake: both ends composed; bootstrap and update reach a common ready generation.
    - RotationMessages, Rotation, RotationProofs, RotationGuarantees, RotationScenario:
      [connectorprotocol/rotation.go], the credential rotation coordinator over a store
      interface, and its in-memory store.
    - JSON, JSONProofs, StrictJSON, StrictJSONProofs, CanonicalJSON, StrictDecode: the part
      of [encoding/json] the source uses, the duplicate-key guard, the secret-field guard and
      the canonical form of [protocol.go], and the decoder of [strictjson/strict.go].
    - StreamFrames, StreamFramesProofs: stream prefaces, private-access frames and carrier
      certificate names ([data_stream.go], [access_stream.go], [carrier_identity.go]).
    - Carrier, CarrierProofs, CarrierGuarantees, CarrierClient: both ends of the data
      carrier, [datacarrier/carrier.go] and [access_stream.go].
    - PreviewAdmission, PreviewAdmissionProofs, DurableAdmission, DurableAdmissionProofs:
      [datacarrier/admission.go] and [durable_admission.go], which carriers and streams the
      edge lets in for previews and for durable routes.
    - TLSCert, TLSCertProofs, TLSCertGuarantees: [tlscert/registry.go] and
      [distribution.go], the certificates of the edge and the messages that install them.
    - SignalProtocol, SignalProtocolProofs: [peersignalingprotocol/validator.go] and the
      frames of [peersignalinghttp/substrate.go].
    - Signaling, SignalingProofs, SignalingLiveness, SignalingGuarantees:
      [peersignaling/service.go], sessions of two peers with their goroutines as steps.
    - Route, RouteProofs, Generations, GenerationsProofs, GenerationsGuarantees, RouteTable:
      [route/matcher.go] and [route/route.go], rule validation and matching, route
      generations with leases and draining, the attachment table.
    - Relay, RelayProofs, RelayGuarantees, RelayCopy: [peerrelay/manager.go] and [meter.go].
    - PMTU: [relaypmtu/frame.go].
    - Usage, UsageCounters, UsageQueue, Metering: [usage/counter.go], [meter.go], [sign.go],
      and the composition of the relay with the meter.
    - Journal: [operation/journal.go] and [edgeerrors/errors.go].
    - Admission: [admission/admission.go] and [runid.go].
    - Node, NodeGuarantees: [node/state.go], [manager.go], [health.go].
    - Trust, Verifier, VerifierGuarantees: [auth/snapshot.go] and [auth/verifier.go], the
      keys and revocation lists an edge holds and the five classes of signed credentials.
    - Ingress, IngressProofs: [connectorprotocol/ingress.go], [control/ingress_authority.go]
      and [edgehttp/ingress_limits.go], decisions about public routes, their cache, and the
      limits and metering of what uses them.
    - HTTP, PrivateAccess, Policy, PolicyProofs, PolicyGuarantees: the gateway of the edge,
      [edgehttp/policy.go], [route_matcher.go], [browser_access.go],
      [private_connection.go], [private_access_stream.go], with the clients
      [control/browser_access.go] and [private_access_grant.go].
    - Replicas, ReplicasGuarantees: [edgehttp/durable_carrier_transport.go], the carriers
      that serve durable routes and the choice of one.
    - PreviewRegistry, PreviewRegistryProofs, PreviewRegistryGuarantees:
      [edgehttp/preview_carrier_transport.go] and [preview_carrier_alias.go], the preview
      routes with their custom host names and the streams opened over them.
    - PreviewWorker: [control/preview_carrier.go] and [runtime/preview_carrier.go], the
      documents of the control plane about previews, and the worker and handler that bring
      the two registries of the edge in line with them.

    ** What the theorems show

    Sessions: invariants of both ends over all interleavings, readiness only on proof,
    configurations neither lost nor served before activation, served generations monotone,
    and the refinement of the abstract cutover by the two ends together.  Rotation: old
    credentials are revoked only when every target is ready on its new one, the store is
    ahead of memory, and a restart resumes exactly.  JSON: the guards are equivalent to a
    reference reader, the canonical form is canonical, everything terminates.  Carrier: both
    ends account for every permit and link, serve a request once, and carry only prefaces
    that were checked.  Carrier admission: an acknowledged pull installs exactly its
    admissions, generations do not go back, and a stream passes only for an open, unexpired
    admission of its identity and route.  Certificates: the registry invariant, what a
    client is served, continuity of service, and that only authenticated messages change it.
    Signaling: the validator is the summary of the accepted history, messages arrive once and
    in order, a credential attaches once, and every grant is returned.  Routes: the chosen
    rule is the unique most specific one, generations only advance, one host has one owner,
    forced drains complete.  Relay and usage: reported bytes are the forwarded bytes, within
    limits, once.  Admission and journal: a credential admits one request, an admitted
    request was authorised.  Node: streams are accounted and drains complete.  Credentials:
    an accepted one is signed by a trusted key for its one purpose, and a revocation reaches
    whoever attached with it.  Gateway: a restricted route is served only with a decision
    about this viewer or on a connection the control plane granted, and no origin sees a
    header or cookie of the edge; limits on ingress hold exactly and what is billed is what
    was carried.  Durable carriers: a stream is opened only on a ready replica that serves
    the route, whatever the order of the map.  Previews: a host resolves exactly to the
    route it belongs to, a registration is replaced only by a newer one, a stream is bound
    to its carrier and decision; a round of the worker keeps exactly the routes it should,
    reports exactly the commands it pulled, and a handler serves exactly the admissions that
    are open.
    A few theorems and examples state runs in which the code does not do what it means to;
    they are the findings of the manifest.

    ** Interfaces between parts

    Class [PayloadCodec] (hashing and canonical JSON for messages) is discharged by the
    model of JSON in CanonicalJSON; [RotationPersistence] by the in-memory store;
    [TrustSource], what the verifier asks of its keys, by the snapshot and by a static key
    map; [SignalValidator] by the validator of signaling messages; [RateLimiter] is the
    contract of the token buckets of ingress; class [Admits] lets the carrier's accounting be
    proved once for both ends; [Writer] and [ConformingWriter] state the contract of
    [io.Writer]; [RangeOrder] is the order of a [range] over a map, any permutation.
    [TextLib], [RotationLib], [SecretLib], [X509Lib], [CertLib], [ICELib], [AddrLib],
    [URLLib], [IPLib] and [FoldLib] hold what comes from packages outside the repository
    (IDNA, Unicode case mapping, URL and address parsing, SHA-256, Ed25519, PEM and X.509,
    ICE candidates), with the few facts used of them as hypotheses of the theorems that need
    them.

    ** Fuel and bounds

    Recursion is structural except for a few loops.  [TrimSpace] runs with the length of its
    text; the JSON readers with twice the length of the text plus two, which is proved
    never to run out, and the guard of StrictDecode with the same bound; the write loop of a
    preface with one round per byte plus one, proved enough for any conforming writer; the
    binary search of Replicas with one more than the length of its list; the walk over a certificate chain
    with eight rounds, since a ninth certificate is an error.  Counters of the code that can
    overflow are kept at their width (saturation of usage counters, 64-bit generations and
    credential times); lengths and permit counts are [Z] and stay within proved limits.

    ** Not modelled

    Telemetry, metrics and logging; sockets, TLS, QUIC, HTTP servers, reverse proxies and
    the yamux adapter; the HTTP requests of the control clients; timers, start and stop
    signals of workers and process supervision; configuration files and command lines; file
    and SQL storage; ACME and X.509 operations; cryptographic primitives, which are
    parameters.  Their code moves bytes or calls libraries and keeps no state of its own that
    the parts above depend on. *)
From Stdlib Require Export ZArith Lia Strings.Byte.
From stdpp Require Export prelude gmap strings fin_maps list.

#[global] Open Scope string_scope.
#[global] Open Scope list_scope.
#[global] Open Scope Z_scope.

(** ** Functional update of record fields

    A Go assignment [s.state = v] is written [s <| state := v |>].  A record
    type declares its eta-expansion once (instance of [Eta]); the update of a
    field is then found by replacing the projection inside that expansion. *)

Class Eta (R : Type) := eta_expand : R → R.

Class Update {R T : Type} (proj : R → T) := update : (T → T) → R → R.
Arguments update {R T} proj {_} f r /.

Ltac solve_update :=
  lazymatch goal with
  | |- @Update ?R ?T ?proj =>
      let i := constr:(_ : Eta R) in
      let body := eval cbv delta [eta_expand] in (@eta_expand R i) in
      let body := eval hnf in body in
      lazymatch eval pattern proj in body with
      | ?k _ => let u := eval cbv beta in (fun (f : T → T) => k (fun r => f (proj r)))
                in exact u
      end
  end.

#[export] Hint Extern 0 (Update _) => solve_update : typeclass_instances.

Declare Scope record_scope.
Delimit Scope record_scope with rec.
#[warnings="-postfix-notation-not-level-1"]
Notation "r '<|' p ':=' v '|>'" := (update p (λ _, v) r)
  (at level 12, left associativity, format "r  <| p  :=  v |>") : record_scope.
#[global] Open Scope record_scope.

(** ** Proof automation of the development *)

(** Preservation lemmas of the component invariants. *)
Create HintDb paperboat.

(** [cases] splits every [match] and [if] of the goal and of the hypotheses,
    reducing record projections in between. *)
Ltac split_match :=
  match goal with
  | |- context [match ?x with _ => _ end] => destruct x eqn:?
  | H : context [match ?x with _ => _ end] |- _ => destruct x eqn:?
  end.

Ltac cases := repeat (split_match; cbn in *; simplify_eq).

(** [bools] turns boolean guards into propositions, without creating
    disjunctions; [bools_or] does that too. *)
Ltac bools_step :=
  match goal with
  | H : (_ && _)%bool = true |- _ => apply andb_true_iff in H as [? ?]
  | H : (_ || _)%bool = false |- _ => apply orb_false_iff in H as [? ?]
  | H : negb _ = true |- _ => apply negb_true_iff in H
  | H : negb _ = false |- _ => apply negb_false_iff in H
  | H : bool_decide _ = true |- _ => apply bool_decide_eq_true in H
  | H : bool_decide _ = false |- _ => apply bool_decide_eq_false in H
  | H : (_ =? _)%Z = true |- _ => apply Z.eqb_eq in H
  | H : (_ =? _)%Z = false |- _ => apply Z.eqb_neq in H
  | H : (_ <? _)%Z = true |- _ => apply Z.ltb_lt in H
  | H : (_ <? _)%Z = false |- _ => apply Z.ltb_ge in H
  | H : (_ <=? _)%Z = true |- _ => apply Z.leb_le in H
  | H : (_ <=? _)%Z = false |- _ => apply Z.leb_gt in H
  end.

Ltac bools := repeat bools_step.

Ltac bools_or :=
  repeat first
    [ bools_step
    | match goal with
      | H : (_ && _)%bool = false |- _ => apply andb_false_iff in H
      | H : (_ || _)%bool = true |- _ => apply orb_true_iff in H
      end ].

(** A pointer is not [nil]. *)
Definition nonnil {A} (o : option A) : bool := match o with Some _ => true | None => false end.

(** ** Integers at their machine width *)

Definition two32 : Z := 4294967296.
Definition two63 : Z := 9223372036854775808.
Definition two64 : Z := 18446744073709551616.

(** uint64, uint32 and int64 wrap-around. *)
Definition u64 (x : Z) : Z := x mod two64.
Definition u32 (x : Z) : Z := x mod two32.
Definition i64 (x : Z) : Z := (x + two63) mod two64 - two63.

(** The values of a uint64 variable. *)
Definition is_u64 (x : Z) : Prop := 0 ≤ x < two64.
Definition is_u32 (x : Z) : Prop := 0 ≤ x < two32.

Lemma u64_range x : is_u64 (u64 x).
Proof. apply Z.mod_pos_bound. done. Qed.

Lemma u64_id x : is_u64 x → u64 x = x.
Proof. apply Z.mod_small. Qed.

Lemma u32_id x : is_u32 x → u32 x = x.
Proof. apply Z.mod_small. Qed.

Lemma i64_id x : - two63 ≤ x < two63 → i64 x = x.
Proof. intros ?. unfold i64. rewrite Z.mod_small; unfold two63, two64 in *; lia. Qed.

(** ** Sums over finite maps

    [sum_map f m] is the sum of [f] over the values of [m]: what a Go loop
    [for _, v := range m { total += f(v) }] computes, in any order. *)

Definition sum_map {K A} `{Countable K} (f : A → Z) (m : gmap K A) : Z :=
  map_fold (λ _ v acc, f v + acc) 0 m.

Section sum_map.
Context {K A : Type} `{Countable K} (f : A → Z).
Implicit Types m : gmap K A.

Lemma sum_map_empty : sum_map f (∅ : gmap K A) = 0.
Proof. apply map_fold_empty. Qed.

Lemma sum_map_insert m i x :
  m !! i = None → sum_map f (<[i:=x]> m) = f x + sum_map f m.
Proof. intros. unfold sum_map. apply (map_fold_insert_L (λ _ v acc, f v + acc)); [lia|done]. Qed.

Lemma sum_map_delete m i x :
  m !! i = Some x → sum_map f m = f x + sum_map f (delete i m).
Proof. intros. unfold sum_map. apply (map_fold_delete_L (λ _ v acc, f v + acc)); [lia|done]. Qed.

Lemma sum_map_replace m i x y :
  m !! i = Some x → sum_map f (<[i:=y]> m) = sum_map f m - f x + f y.
Proof.
  intros Hx. rewrite <- insert_delete_eq.
  rewrite sum_map_insert by apply lookup_delete_eq.
  rewrite (sum_map_delete m i x Hx). lia.
Qed.

Lemma sum_map_nonneg m : (∀ i x, m !! i = Some x → 0 ≤ f x) → 0 ≤ sum_map f m.
Proof.
  induction m as [|i x m Hi IH] using map_ind; intros Hpos.
  - by rewrite sum_map_empty.
  - rewrite sum_map_insert by done.
    assert (0 ≤ f x) by (apply (Hpos i), lookup_insert_eq).
    assert (0 ≤ sum_map f m); [|lia].
    apply IH. intros j y Hj. apply (Hpos j).
    rewrite lookup_insert_ne; [done|congruence].
Qed.

Lemma sum_map_ge m i x :
  (∀ j y, m !! j = Some y → 0 ≤ f y) → m !! i = Some x → f x ≤ sum_map f m.
Proof.
  intros Hpos Hx. rewrite (sum_map_delete m i x Hx).
  assert (0 ≤ sum_map f (delete i m)); [|lia].
  apply sum_map_nonneg. intros j y [_ Hj]%lookup_delete_Some. eauto.
Qed.

Lemma sum_map_ext (g : A → Z) m :
  (∀ j y, m !! j = Some y → f y = g y) → sum_map g m = sum_map f m.
Proof.
  induction m as [|j y m Hj IH] using map_ind; intros Hm.
  - unfold sum_map. by rewrite !map_fold_empty.
  - rewrite sum_map_insert by done. unfold sum_map at 1.
    rewrite (map_fold_insert_L (λ _ v acc, g v + acc)) by (done || lia). fold (sum_map g m).
    rewrite IH.
    + rewrite (Hm j y) by apply lookup_insert_eq. lia.
    + intros j' y' Hj'. apply (Hm j'). rewrite lookup_insert_ne; [done|congruence].
Qed.
End sum_map.

(** Summands that differ at one key only. *)
Lemma sum_map_change {K A} `{Countable K} (f g : A → Z) (m : gmap K A) i x :
  m !! i = Some x → (∀ j y, j ≠ i → m !! j = Some y → f y = g y) →
  sum_map g m = sum_map f m - f x + g x.
Proof.
  intros Hx Hfg. rewrite (sum_map_delete f m i x Hx), (sum_map_delete g m i x Hx).
  rewrite (sum_map_ext f g); [lia|]. intros j y [? ?]%lookup_delete_Some. eauto.
Qed.

Lemma sum_map_delete_le {K A} `{Countable K} (f : A → Z) (m : gmap K A) i x :
  (∀ y, 0 ≤ f y) → m !! i = Some x → sum_map f (delete i m) ≤ sum_map f m.
Proof. intros Hf Hx. rewrite (sum_map_delete f m i x Hx). specialize (Hf x). lia. Qed.

(** A sum of non-negative summands grows with the map. *)
Lemma sum_map_subseteq {K A} `{Countable K} (f : A → Z) (m1 m2 : gmap K A) :
  (∀ i x, m2 !! i = Some x → 0 ≤ f x) → m1 ⊆ m2 → sum_map f m1 ≤ sum_map f m2.
Proof.
  revert m2. induction m1 as [|i x m1 Hi IH] using map_ind; intros m2 Hf Hsub.
  - rewrite sum_map_empty. by apply sum_map_nonneg.
  - assert (m2 !! i = Some x) as Hx by (eapply lookup_weaken; [apply lookup_insert_eq|done]).
    rewrite sum_map_insert by done. rewrite (sum_map_delete f m2 i x Hx).
    assert (sum_map f m1 ≤ sum_map f (delete i m2)); [|lia]. apply IH.
    + intros j y [_ Hj]%lookup_delete_Some. eauto.
    + apply map_subseteq_spec. intros j y Hj.
      assert (j ≠ i) by (intros ->; congruence). rewrite lookup_delete_ne by done.
      eapply lookup_weaken; [|done]. by rewrite lookup_insert_ne.
Qed.

Lemma size_insert_le {K A} `{Countable K} (m : gmap K A) i x :
  Z.of_nat (size (<[i := x]> m)) ≤ Z.of_nat (size m) + 1.
Proof.
  destruct (m !! i) eqn:E.
  - rewrite map_size_insert_Some by eauto. lia.
  - rewrite map_size_insert_None by done. lia.
Qed.

(** ** Lists *)

Lemma filter_sublist_bool {A} (p : A → bool) (l : list A) :
  sublist (List.filter p l) l.
Proof. induction l as [|x l IH]; simpl; [constructor|]. destruct (p x); by constructor. Qed.

(** ** Go's [==] and [!=] on comparable values *)

Declare Scope go_scope.
Delimit Scope go_scope with go.
Notation "x == y" := (bool_decide (x = y)) (at level 70, no associativity) : go_scope.
Notation "x != y" := (negb (bool_decide (x = y))) (at level 70, no associativity) : go_scope.
#[global] Open Scope go_scope.
