(* ===== verification/Go.v ===== *)
(** * The Go language and standard-library features the source relies on

    Times and durations ([time]), byte strings and slices, the [error] values
    of package [connectorprotocol], decimal conversion ([strconv]) and the
    white-space functions of package [strings]. *)
From Stdlib Require Import DecimalString DecimalZ.
From S2P Require Import Prelude.

(** ** Time

    A [time.Time] is the number of nanoseconds since the zero time, so
    [IsZero] is comparison with 0.  Every instant the source compares has been
    normalised by [UTC], hence equality of instants is equality of numbers. *)

Abbreviation Time := Z (only parsing).
Abbreviation Duration := Z (only parsing).

Definition IsZero (t : Time) : bool := t =? 0.
Definition After (t u : Time) : bool := u <? t.
Definition Before (t u : Time) : bool := t <? u.

(** [Time.Sub] saturates at the int64 range of [time.Duration]. *)
Definition Sub (t u : Time) : Duration := Z.max (- two63) (Z.min (two63 - 1) (t - u)).

Definition Nanosecond : Duration := 1.
Definition Millisecond : Duration := 1000000.
Definition Second : Duration := 1000 * Millisecond.
Definition Minute : Duration := 60 * Second.
Definition Hour : Duration := 60 * Minute.

Lemma Sub_exact t u : - two63 ≤ t - u < two63 → Sub t u = t - u.
Proof. unfold Sub. lia. Qed.

Lemma Sub_gt t u d : d < two63 - 1 → - two63 ≤ d → (d < Sub t u ↔ d < t - u).
Proof. unfold Sub. lia. Qed.

(** ** Bytes *)

#[export] Instance byte_eq_dec : EqDecision byte := Byte.byte_eq_dec.

#[export] Program Instance byte_countable : Countable byte :=
  inj_countable Byte.to_N Byte.of_N _.
Next Obligation. intros b. apply Byte.of_to_N. Qed.

Abbreviation bytes := (list byte).

Definition byte_to_Z (b : byte) : Z := Z.of_N (Byte.to_N b).

(** Conversion [byte(z)] of an integer: reduction modulo 256. *)
Definition byte_of_Z (z : Z) : byte :=
  match Byte.of_N (Z.to_N (z mod 256)) with Some b => b | None => x00 end.

Lemma byte_to_Z_range b : 0 ≤ byte_to_Z b < 256.
Proof. unfold byte_to_Z. pose proof (Byte.to_N_bounded b). lia. Qed.

Lemma byte_of_to_Z b : byte_of_Z (byte_to_Z b) = b.
Proof.
  unfold byte_of_Z. rewrite Z.mod_small by apply byte_to_Z_range.
  unfold byte_to_Z. by rewrite N2Z.id, Byte.of_to_N.
Qed.

Lemma byte_to_of_Z z : byte_to_Z (byte_of_Z z) = z mod 256.
Proof.
  unfold byte_of_Z, byte_to_Z.
  pose proof (Z.mod_pos_bound z 256 ltac:(lia)).
  destruct (Byte.of_N (Z.to_N (z mod 256))) as [b|] eqn:E.
  - apply Byte.to_of_N_iff in E. rewrite E. lia.
  - apply Byte.of_N_None_iff in E. lia.
Qed.

(** [binary.BigEndian.PutUint16] and [Uint16]. *)
Definition put_uint16 (z : Z) : bytes := [byte_of_Z (z / 256); byte_of_Z z].
Definition uint16_of (hi lo : byte) : Z := 256 * byte_to_Z hi + byte_to_Z lo.

Lemma uint16_roundtrip z :
  0 ≤ z < 65536 → uint16_of (byte_of_Z (z / 256)) (byte_of_Z z) = z.
Proof.
  intros Hz. unfold uint16_of. rewrite !byte_to_of_Z.
  rewrite (Z.mod_small (z / 256)).
  - pose proof (Z.div_mod z 256 ltac:(lia)). lia.
  - split; [apply Z.div_pos; lia | apply Z.div_lt_upper_bound; lia].
Qed.

(** A Go string is a byte sequence; its length is the number of bytes. *)
Definition len (s : string) : Z := Z.of_nat (String.length s).
Definition blen (b : bytes) : Z := Z.of_nat (length b).

Definition sbytes (s : string) : bytes := String.list_byte_of_string s.
Definition bstring (b : bytes) : string := String.string_of_list_byte b.

Lemma blen_app a b : blen (a ++ b) = blen a + blen b.
Proof. unfold blen. rewrite length_app. lia. Qed.

Lemma blen_nonneg b : 0 ≤ blen b.
Proof. unfold blen. lia. Qed.

Lemma blen_take n b : 0 ≤ n ≤ blen b → blen (take (Z.to_nat n) b) = n.
Proof. unfold blen. intros ?. rewrite length_take. lia. Qed.

Lemma blen_sbytes s : blen (sbytes s) = len s.
Proof.
  unfold blen, len, sbytes, String.list_byte_of_string. rewrite List.length_map. f_equal.
  induction s as [|c s IH]; [done|]. cbn. by rewrite IH.
Qed.

Lemma bstring_sbytes s : bstring (sbytes s) = s.
Proof. apply String.string_of_list_byte_of_string. Qed.

Lemma sbytes_bstring b : sbytes (bstring b) = b.
Proof. apply String.list_byte_of_string_of_list_byte. Qed.

(** ** Byte classes of the regular expressions *)

Definition in_range (lo hi : Z) (b : byte) : bool := (lo <=? byte_to_Z b) && (byte_to_Z b <=? hi).
Definition is_digit : byte → bool := in_range 48 57.
Definition is_lower : byte → bool := in_range 97 122.
Definition is_upper : byte → bool := in_range 65 90.
Definition is_alnum (b : byte) : bool := is_lower b || is_upper b || is_digit b.
Definition one_of (l : list Z) (b : byte) : bool := existsb (Z.eqb (byte_to_Z b)) l.

(** ** Package strings *)

(** The UTF-8 encodings of the code points with Unicode property White_Space. *)
Definition space_runes : list (list Z) :=
  [[9]; [10]; [11]; [12]; [13]; [32]; [194; 133]; [194; 160]; [225; 154; 128]]
  ++ ((λ b, [226; 128; b]) <$> [128; 129; 130; 131; 132; 133; 134; 135; 136; 137; 138; 168; 169; 175])
  ++ [[226; 129; 159]; [227; 128; 128]].

Fixpoint has_prefixZ (p : list Z) (b : bytes) : bool :=
  match p, b with
  | [], _ => true
  | x :: p, y :: b => (x =? byte_to_Z y) && has_prefixZ p b
  | _, _ => false
  end.

(** [strings.TrimSpace(s) != s]: a white-space rune at either end. *)
Definition has_outer_space (s : string) : bool :=
  existsb (λ r, has_prefixZ r (sbytes s)) space_runes
  || existsb (λ r, has_prefixZ (rev r) (rev (sbytes s))) space_runes.

(** [strings.ContainsAny(s, cutset)] for a cutset of ASCII bytes. *)
Definition ContainsAny (s : string) (cutset : list Z) : bool :=
  existsb (one_of cutset) (sbytes s).

Definition crlf : list Z := [13; 10].

(** ** Package strconv

    [Atoi] on 64-bit integers: an optional sign, then decimal digits; out of
    range is an error.  [Itoa] prints the canonical decimal form. *)

Fixpoint digits_value (acc : Z) (b : bytes) : option Z :=
  match b with
  | [] => Some acc
  | c :: b => if is_digit c then digits_value (10 * acc + (byte_to_Z c - 48)) b else None
  end.

Definition Atoi (s : string) : option Z :=
  let signed sign b :=
    match b with
    | [] => None
    | _ => match digits_value 0 b with
           | Some v => let v := sign * v in
                       if (- two63 <=? v) && (v <? two63) then Some v else None
           | None => None
           end
    end in
  match sbytes s with
  | c :: b => if byte_to_Z c =? 45 then signed (-1) b
              else if byte_to_Z c =? 43 then signed 1 b
              else signed 1 (c :: b)
  | [] => None
  end.

Definition Itoa (z : Z) : string := NilZero.string_of_int (Z.to_int z).

Example atoi_itoa : Atoi "120" = Some 120 ∧ Itoa 120 = "120" ∧ Atoi "+7" = Some 7
  ∧ Atoi "9223372036854775808" = None ∧ Atoi "" = None ∧ Itoa 0 = "0".
Proof. vm_compute. auto 10. Qed.

(** [strings.Split] at a one-byte separator. *)
Fixpoint split_on (sep : Z) (cur : bytes) (b : bytes) : list bytes :=
  match b with
  | [] => [rev cur]
  | c :: b => if byte_to_Z c =? sep then rev cur :: split_on sep [] b
              else split_on sep (c :: cur) b
  end.

Definition Split (s : string) (sep : Z) : list string := bstring <$> split_on sep [] (sbytes s).

(** ** Error values

    [EPlain] is an error of [errors.New] or of foreign code, [ETyped] a
    [*connectorprotocol.Error], [EWrap] an [fmt.Errorf] with [%w], [EJoin] the
    result of [errors.Join] on two errors.  A returned [error] is an
    [option err]; [None] is [nil]. *)

Inductive err :=
  | EPlain (message : string)
  | ETyped (code : string) (reason : string) (retryable : bool) (cause : option err)
  | EWrap (prefix : string) (inner : err)
  | EJoin (first second : err).

(** [err != nil]. *)
Definition failed (e : option err) : bool := match e with Some _ => true | None => false end.

(** [errors.Is] for a sentinel built by [errors.New], known by its message. *)
Fixpoint Is (e : err) (target : string) : bool :=
  match e with
  | EPlain message => bool_decide (message = target)
  | ETyped _ _ _ cause => match cause with Some c => Is c target | None => false end
  | EWrap _ inner => Is inner target
  | EJoin first second => Is first target || Is second target
  end.

(** [errors.Join] of two errors: nil operands are dropped. *)
Definition Join (a b : option err) : option err :=
  match a, b with
  | None, None => None
  | Some e, None | None, Some e => Some (EWrap "" e)
  | Some e, Some e' => Some (EJoin e e')
  end.

Lemma failed_false e : failed e = false ↔ e = None.
Proof. by destruct e. Qed.

Lemma failed_true e : failed e = true ↔ e ≠ None.
Proof. by destruct e. Qed.
