(* ===== verification/Strings.v ===== *)
(** * String functions of the Go standard library

    The functions of package [strings] and of [net.SplitHostPort] that the route
    and certificate code uses, on byte strings, with the lemmas about suffixes and
    sorting the matching proofs share. *)
From S2P Require Import Prelude Go.

(** ** Prefixes, suffixes, substrings *)

Definition HasPrefix (s p : string) : bool := bool_decide (sbytes p `prefix_of` sbytes s).
Definition HasSuffix (s p : string) : bool := bool_decide (sbytes p `suffix_of` sbytes s).

Definition TrimPrefix (s p : string) : string :=
  if HasPrefix s p then bstring (drop (length (sbytes p)) (sbytes s)) else s.
Definition CutSuffix (s p : string) : option string :=
  if HasSuffix s p then Some (bstring (take (length (sbytes s) - length (sbytes p)) (sbytes s))) else None.
Definition TrimSuffix (s p : string) : string := default s (CutSuffix s p).

(** [strings.Contains] of one byte, of two equal adjacent bytes, and
    [strings.Count] of one byte. *)
Definition ContainsByte (s : string) (c : Z) : bool := existsb (λ b, byte_to_Z b =? c) (sbytes s).

Fixpoint has_double (c : Z) (b : bytes) : bool :=
  match b with
  | x :: (y :: _) as b' => (byte_to_Z x =? c) && (byte_to_Z y =? c) || has_double c b'
  | _ => false
  end.
Definition ContainsDouble (s : string) (c : Z) : bool := has_double c (sbytes s).

Definition CountByte (s : string) (c : Z) : Z :=
  Z.of_nat (length (List.filter (λ b, byte_to_Z b =? c) (sbytes s))).

(** ** White space *)

(** The length of a white-space rune at the start of [b]. *)
Definition space_at (enc : list Z → list Z) (b : bytes) : option nat :=
  match List.find (λ r, has_prefixZ (enc r) b) space_runes with
  | Some r => Some (length r)
  | None => None
  end.

Fixpoint trim_runes (fuel : nat) (enc : list Z → list Z) (b : bytes) : bytes :=
  match fuel with
  | O => b
  | S fuel => match space_at enc b with Some n => trim_runes fuel enc (drop n b) | None => b end
  end.

(** [strings.TrimSpace]; the fuel is the length, and every round drops a byte. *)
Definition TrimSpace (s : string) : string :=
  let b := trim_runes (length (sbytes s)) id (sbytes s) in
  bstring (rev (trim_runes (length b) (@rev Z) (rev b))).

(** ** Lower case

    [strings.ToLower] on ASCII; [unicode_lower] is its answer on other strings. *)
Definition lower_byte (b : byte) : byte := if is_upper b then byte_of_Z (byte_to_Z b + 32) else b.
Definition is_ascii (s : string) : bool := forallb (λ b, byte_to_Z b <? 128) (sbytes s).

Definition ToLower (unicode_lower : string → string) (s : string) : string :=
  if is_ascii s then bstring (lower_byte <$> sbytes s) else unicode_lower s.

(** ** net.SplitHostPort *)

Fixpoint index_from (n : nat) (c : Z) (b : bytes) : option nat :=
  match b with
  | [] => None
  | x :: b => if byte_to_Z x =? c then Some n else index_from (S n) c b
  end.
Definition IndexByte (b : bytes) (c : Z) : option nat := index_from 0 c b.
Definition LastIndexByte (b : bytes) (c : Z) : option nat :=
  match IndexByte (rev b) c with Some i => Some (length b - 1 - i)%nat | None => None end.

(** [None] is an error. *)
Definition SplitHostPort (hostport : string) : option (string * string) :=
  let b := sbytes hostport in
  match LastIndexByte b 58 with
  | None => None
  | Some i =>
      let finish host j k :=
        if nonnil (IndexByte (drop j b) 91) || nonnil (IndexByte (drop k b) 93) then None
        else Some (bstring host, bstring (drop (S i) b)) in
      match b with
      | c :: _ =>
          if byte_to_Z c =? 91
          then match IndexByte b 93 with
               | None => None
               | Some e => if bool_decide (S e = i)
                           then finish (take (e - 1) (drop 1 b)) 1%nat (S e) else None
               end
          else let host := take i b in
               if nonnil (IndexByte host 58) then None else finish host 0%nat 0%nat
      | [] => None
      end
  end.

Example split_examples :
  SplitHostPort "a.b:80" = Some ("a.b", "80") ∧ SplitHostPort "[::1]:443" = Some ("::1", "443")
  ∧ SplitHostPort "a:b:c" = None ∧ SplitHostPort "a.b" = None ∧ SplitHostPort "[::1]" = None
  ∧ TrimSpace " 	x y " = "x y" ∧ ToLower id "AbC-1" = "abc-1" ∧ TrimSuffix "a.b." "." = "a.b"
  ∧ CutSuffix "x.example.com" ".example.com" = Some "x" ∧ TrimPrefix "*.a" "*." = "a".
Proof. vm_compute. auto 20. Qed.

(** ** Suffix lemmas *)

Lemma sbytes_inj s t : sbytes s = sbytes t → s = t.
Proof. intros E. rewrite <- (bstring_sbytes s), E. apply bstring_sbytes. Qed.

Lemma sbytes_app s t : sbytes (s +:+ t) = sbytes s ++ sbytes t.
Proof.
  unfold sbytes, String.list_byte_of_string. induction s as [|c s IH]; [done|].
  change (String c s +:+ t) with (String c (s +:+ t)). cbn in *. f_equal. exact IH.
Qed.

Lemma CutSuffix_Some s p r : CutSuffix s p = Some r ↔ sbytes s = sbytes r ++ sbytes p.
Proof.
  unfold CutSuffix, HasSuffix. case_bool_decide as H.
  - destruct H as [k Hk]. rewrite Hk, length_app, Nat.add_sub, take_app_length. split.
    + intros [= <-]. by rewrite sbytes_bstring.
    + intros ->%app_inv_tail. by rewrite bstring_sbytes.
  - split; [done|]. intros E. destruct H. by exists (sbytes r).
Qed.

Lemma HasSuffix_CutSuffix s p : HasSuffix s p = nonnil (CutSuffix s p).
Proof. unfold CutSuffix. by destruct (HasSuffix s p). Qed.

Lemma ContainsByte_false s c :
  ContainsByte s c = false ↔ Forall (λ b, byte_to_Z b ≠ c) (sbytes s).
Proof.
  unfold ContainsByte. induction (sbytes s) as [|b l IH]; cbn; [by split|].
  rewrite orb_false_iff, Forall_cons, IH, Z.eqb_neq. done.
Qed.

(** A string is cut at its first dot in one way only. *)
Lemma first_dot_unique (p p' q q' : bytes) (d d' : byte) (c : Z) :
  Forall (λ b, byte_to_Z b ≠ c) p → Forall (λ b, byte_to_Z b ≠ c) p' →
  byte_to_Z d = c → byte_to_Z d' = c → p ++ d :: q = p' ++ d' :: q' → p = p' ∧ q = q'.
Proof.
  intros Hp. revert p'. induction Hp as [|x p Hx Hp IH]; intros p' Hp' Hd Hd' E.
  - destruct Hp' as [|y p' Hy]; cbn in E; [by injection E|]. injection E as -> _. done.
  - destruct Hp' as [|y p' Hy Hp']; cbn in E; injection E as -> E; [done|].
    by destruct (IH p' Hp' Hd Hd' E) as [-> ->].
Qed.

(** ** Sorting by a string key ([sort.Slice]) *)

Section sort_by.
Context {A : Type} (key : A → string).

Fixpoint insert_by (x : A) (l : list A) : list A :=
  match l with
  | [] => [x]
  | y :: l => if String.ltb (key y) (key x) then y :: insert_by x l else x :: y :: l
  end.
Definition sort_by (l : list A) : list A := foldr insert_by [] l.

Lemma insert_by_Permutation x l : insert_by x l ≡ₚ x :: l.
Proof.
  induction l as [|y l IH]; cbn; [done|]. destruct (String.ltb _ _); [|done].
  rewrite IH. apply Permutation_swap.
Qed.

Lemma sort_by_Permutation l : sort_by l ≡ₚ l.
Proof. induction l as [|x l IH]; cbn; [done|]. by rewrite insert_by_Permutation, IH. Qed.
End sort_by.

(** * base64.RawURLEncoding

    The encoder and the strict decoder of Go's unpadded URL alphabet, which the
    connector protocol uses for keys, thumbprints and signatures, with the round
    trips in both directions. *)

(** ** The alphabet *)

(** The character of a 6-bit value. *)
Definition sextet_char (v : Z) : byte :=
  byte_of_Z (if v <? 26 then 65 + v else if v <? 52 then 71 + v else if v <? 62 then v - 4
             else if v =? 62 then 45 else 95).

Definition char_sextet (b : byte) : option Z :=
  let c := byte_to_Z b in
  if is_upper b then Some (c - 65)
  else if is_lower b then Some (c - 71)
  else if is_digit b then Some (c + 4)
  else if c =? 45 then Some 62
  else if c =? 95 then Some 63
  else None.

(** ** Encoding and decoding *)

Fixpoint sextets (b : bytes) : list Z :=
  match b with
  | x :: y :: z :: b =>
      byte_to_Z x / 4 :: (byte_to_Z x mod 4) * 16 + byte_to_Z y / 16
      :: (byte_to_Z y mod 16) * 4 + byte_to_Z z / 64 :: byte_to_Z z mod 64 :: sextets b
  | [x; y] => [byte_to_Z x / 4; (byte_to_Z x mod 4) * 16 + byte_to_Z y / 16; (byte_to_Z y mod 16) * 4]
  | [x] => [byte_to_Z x / 4; (byte_to_Z x mod 4) * 16]
  | [] => []
  end.

(** Strict: the unused low bits of the last character are zero. *)
Fixpoint unsextets (l : list Z) : option bytes :=
  match l with
  | a :: b :: c :: d :: l =>
      match unsextets l with
      | Some r => Some (byte_of_Z (a * 4 + b / 16) :: byte_of_Z ((b mod 16) * 16 + c / 4)
                        :: byte_of_Z ((c mod 4) * 64 + d) :: r)
      | None => None
      end
  | [a; b; c] => if c mod 4 =? 0
                 then Some [byte_of_Z (a * 4 + b / 16); byte_of_Z ((b mod 16) * 16 + c / 4)] else None
  | [a; b] => if b mod 16 =? 0 then Some [byte_of_Z (a * 4 + b / 16)] else None
  | [_] => None
  | [] => Some []
  end.

Fixpoint mapM_sextet (b : bytes) : option (list Z) :=
  match b with
  | [] => Some []
  | c :: b => match char_sextet c, mapM_sextet b with
              | Some v, Some l => Some (v :: l)
              | _, _ => None
              end
  end.

Definition EncodeToString (b : bytes) : string := bstring (sextet_char <$> sextets b).

(** The decoder skips line breaks. *)
Definition not_newline (b : byte) : bool := negb (one_of crlf b).
Definition DecodeString (s : string) : option bytes :=
  mapM_sextet (List.filter not_newline (sbytes s)) ≫= unsextets.

Example base64_examples :
  EncodeToString (sbytes "hello") = "aGVsbG8" ∧ DecodeString "aGVsbG8" = Some (sbytes "hello")
  ∧ DecodeString "aGVsbG9" = None ∧ DecodeString "a" = None ∧ DecodeString "a+bc" = None
  ∧ EncodeToString [xff; xfe] = "__4".
Proof. vm_compute. auto 10. Qed.

(** ** Round trips *)

Lemma char_sextet_char v : 0 ≤ v < 64 → char_sextet (sextet_char v) = Some v.
Proof.
  intros Hv. assert (∀ n, (n < 64)%nat → char_sextet (sextet_char (Z.of_nat n)) = Some (Z.of_nat n)) as Hall.
  { intros n Hn. do 64 (destruct n as [|n]; [by vm_compute|]). lia. }
  rewrite <- (Z2Nat.id v) by lia. apply Hall. lia.
Qed.

Lemma sextet_char_plain v : 0 ≤ v < 64 → not_newline (sextet_char v) = true.
Proof.
  intros Hv. assert (∀ n, (n < 64)%nat → not_newline (sextet_char (Z.of_nat n)) = true) as Hall.
  { intros n Hn. do 64 (destruct n as [|n]; [by vm_compute|]). lia. }
  rewrite <- (Z2Nat.id v) by lia. apply Hall. lia.
Qed.

Ltac euclid := Z.to_euclidean_division_equations; lia.

(** Induction in steps of three bytes and of four sextets. *)
Lemma list3_ind {A} (P : list A → Prop) :
  P [] → (∀ x, P [x]) → (∀ x y, P [x; y]) → (∀ x y z l, P l → P (x :: y :: z :: l)) → ∀ l, P l.
Proof.
  intros H0 H1 H2 H3 l. assert (P l ∧ (∀ x, P (x :: l)) ∧ ∀ x y, P (x :: y :: l)) as [? _]; [|done].
  induction l as [|a l (IH0 & IH1 & IH2)]; [done|]. split_and!; auto.
Qed.

Lemma list4_ind {A} (P : list A → Prop) :
  P [] → (∀ x, P [x]) → (∀ x y, P [x; y]) → (∀ x y z, P [x; y; z]) →
  (∀ x y z u l, P l → P (x :: y :: z :: u :: l)) → ∀ l, P l.
Proof.
  intros H0 H1 H2 H3 H4 l.
  assert (P l ∧ (∀ x, P (x :: l)) ∧ (∀ x y, P (x :: y :: l)) ∧ ∀ x y z, P (x :: y :: z :: l)) as [? _]; [|done].
  induction l as [|a l (IH0 & IH1 & IH2 & IH3)]; [done|]. split_and!; auto.
Qed.

Lemma sextets_range b : Forall (λ v, 0 ≤ v < 64) (sextets b).
Proof.
  induction b as [|x|x y|x y z b IH] using list3_ind; cbn; [constructor|..];
    try pose proof (byte_to_Z_range x); try pose proof (byte_to_Z_range y); try pose proof (byte_to_Z_range z);
    repeat (apply Forall_cons; split; [euclid|]); done.
Qed.

Lemma byte_of_Z_eq v b : v = byte_to_Z b → byte_of_Z v = b.
Proof. intros ->. apply byte_of_to_Z. Qed.

Lemma unsextets_sextets b : unsextets (sextets b) = Some b.
Proof.
  induction b as [|x|x y|x y z b IH] using list3_ind; cbn.
  - done.
  - pose proof (byte_to_Z_range x). rewrite (proj2 (Z.eqb_eq _ _)) by euclid.
    do 2 f_equal. apply byte_of_Z_eq. euclid.
  - pose proof (byte_to_Z_range x); pose proof (byte_to_Z_range y). rewrite (proj2 (Z.eqb_eq _ _)) by euclid.
    f_equal. f_equal; [|f_equal]; apply byte_of_Z_eq; euclid.
  - rewrite IH. pose proof (byte_to_Z_range x); pose proof (byte_to_Z_range y); pose proof (byte_to_Z_range z).
    f_equal. f_equal; [|f_equal; [|f_equal]]; apply byte_of_Z_eq; euclid.
Qed.

Lemma mapM_sextet_chars l : Forall (λ v, 0 ≤ v < 64) l → mapM_sextet (sextet_char <$> l) = Some l.
Proof. induction 1 as [|v l Hv Hl IH]; cbn; [done|]. by rewrite char_sextet_char, IH. Qed.

Lemma filter_plain l :
  Forall (λ v, 0 ≤ v < 64) l → List.filter not_newline (sextet_char <$> l) = sextet_char <$> l.
Proof. induction 1 as [|v l Hv Hl IH]; cbn; [done|]. by rewrite sextet_char_plain, IH. Qed.

(** Decoding undoes encoding. *)
Lemma DecodeString_EncodeToString b : DecodeString (EncodeToString b) = Some b.
Proof.
  unfold DecodeString, EncodeToString. rewrite sbytes_bstring.
  rewrite filter_plain, mapM_sextet_chars by apply sextets_range. apply unsextets_sextets.
Qed.

Lemma char_sextet_inv c v : char_sextet c = Some v → 0 ≤ v < 64 ∧ sextet_char v = c.
Proof.
  destruct c; intros E; vm_compute in E;
    first [discriminate|apply Some_inj in E; subst v; split; [lia|by vm_compute]].
Qed.

Lemma mapM_sextet_inv b l :
  mapM_sextet b = Some l → Forall (λ v, 0 ≤ v < 64) l ∧ sextet_char <$> l = b.
Proof.
  revert l. induction b as [|c b IH]; intros l E; cbn in E; [injection E as <-; by split|].
  destruct (char_sextet c) as [v|] eqn:Ec; [|done]. destruct (mapM_sextet b) as [l'|]; [|done].
  injection E as <-. destruct (IH l' eq_refl) as [Hf Hl]. apply char_sextet_inv in Ec as [Hv Ev].
  split; [by constructor|]. cbn. by rewrite Ev, Hl.
Qed.

Lemma to_of v : 0 ≤ v < 256 → byte_to_Z (byte_of_Z v) = v.
Proof. intros ?. rewrite byte_to_of_Z. by apply Z.mod_small. Qed.

Lemma sextets_unsextets l b :
  Forall (λ v, 0 ≤ v < 64) l → unsextets l = Some b → sextets b = l.
Proof.
  revert b. induction l as [|x|x y|x y z|x y z u l IH] using list4_ind; intros b Hl E; cbn in E;
    repeat (apply Forall_cons in Hl as [? Hl]); simplify_eq; [done|..].
  - destruct (_ =? _) eqn:Hz; [|done]. bools. injection E as <-. cbn. rewrite !to_of by euclid.
    repeat f_equal; euclid.
  - destruct (_ =? _) eqn:Hz; [|done]. bools. injection E as <-. cbn. rewrite !to_of by euclid.
    repeat f_equal; euclid.
  - destruct (unsextets l) as [r|]; [|done]. injection E as <-. cbn. rewrite !to_of by euclid.
    rewrite (IH r) by done. f_equal; [euclid|]. f_equal; [euclid|]. f_equal; [euclid|]. f_equal; euclid.
Qed.

(** A string without line breaks that decodes is the encoding of what it decodes to:
    the strict alphabet has one spelling per byte string. *)
Lemma EncodeToString_DecodeString s b :
  ContainsAny s crlf = false → DecodeString s = Some b → EncodeToString b = s.
Proof.
  unfold DecodeString, EncodeToString. intros Hn E.
  assert (List.filter not_newline (sbytes s) = sbytes s) as Ef.
  { clear E. unfold ContainsAny in Hn. induction (sbytes s) as [|c l IH]; [done|]. cbn [existsb List.filter] in *.
    apply orb_false_iff in Hn as [Hc Hn]. unfold not_newline at 1. rewrite Hc. cbn [negb]. f_equal. by apply IH. }
  rewrite Ef in E. destruct (mapM_sextet (sbytes s)) as [l|] eqn:El; [|done]. cbn in E.
  apply mapM_sextet_inv in El as [Hl El]. rewrite (sextets_unsextets l b Hl E), El. apply bstring_sbytes.
Qed.
