(* ===== verification/Protocol.v ===== *)
(** * Connector protocol: errors, message types and their validators

    Models [internal/connectorprotocol/protocol.go]: the typed error values,
    the identifier, proof and identity-key grammars, capability and version
    negotiation, and every control message with its [Validate] method. *)
From S2P Require Import Prelude Go.

(** ** Constants *)

Definition ProtocolName : string := "paperboat.connector".
Definition ProtocolVersion : string := "1.0".
Definition MaxSnapshotBytes : Z := 4 * 1048576.
Definition MaxFrameBytes : Z := MaxSnapshotBytes + 64 * 1024.
Definition MaxDeltaBytes : Z := 1048576.
Definition MaxCapabilities : Z := 64.
Definition MaxCapabilityBytes : Z := 128.
Definition MaxIdentifierBytes : Z := 128.
Definition MaxProofBytes : Z := 16 * 1024.
Definition MaxNonceBytes : Z := 128.
Definition MaxReasonMessage : Z := 512.
Definition MaxClockSkew : Duration := 2 * Minute.
Definition DefaultLease : Duration := 45 * Second.
Definition DefaultHeartbeat : Duration := 5 * Second.
Definition DefaultApplyTimeout : Duration := 15 * Second.
Definition DefaultAbortTimeout : Duration := 5 * Second.
Definition MaxLease : Duration := 24 * Hour.
Definition MaxActiveStreams : Z := 1048576.

(** ** Error codes and disconnect reasons *)

Definition CodeInvalidInput := "invalid_input".
Definition CodeMalformedFrame := "malformed_frame".
Definition CodeFrameTooLarge := "frame_too_large".
Definition CodeProtocolIncompatible := "protocol_incompatible".
Definition CodeCapabilityMissing := "capability_missing".
Definition CodeAuthenticationFailed := "authentication_failed".
Definition CodeCredentialExpired := "credential_expired".
Definition CodeIdentityMismatch := "identity_mismatch".
Definition CodeSessionConflict := "session_conflict".
Definition CodeSessionClosed := "session_closed".
Definition CodeLeaseExpired := "lease_expired".
Definition CodeHeartbeatTimeout := "heartbeat_timeout".
Definition CodeSnapshotRequired := "snapshot_required".
Definition CodeGenerationGap := "generation_gap".
Definition CodeStaleGeneration := "stale_generation".
Definition CodeContentHashMismatch := "content_hash_mismatch".
Definition CodeSnapshotRejected := "snapshot_rejected".
Definition CodeDeltaRejected := "delta_rejected".
Definition CodeNotReady := "not_ready".
Definition CodeCanceled := "canceled".
Definition CodeStaleSession := "stale_session".
Definition CodeUnsupportedMessage := "unsupported_message".
Definition CodeDrainRejected := "drain_rejected".
Definition CodeDrainTimeout := "drain_timeout".
Definition CodeCredentialRotationRejected := "credential_rotation_rejected".
Definition CodeCredentialRotationNotReady := "credential_rotation_not_ready".
Definition CodeCredentialRotationFailed := "credential_rotation_failed".

Definition ReasonProtocolMismatch := "protocol_mismatch".
Definition ReasonCapabilityMissing := "capability_missing".
Definition ReasonMalformed := "malformed_message".
Definition ReasonAuthentication := "authentication_failed".
Definition ReasonCredentialExpired := "credential_expired".
Definition ReasonLeaseExpired := "lease_expired".
Definition ReasonHeartbeatTimeout := "heartbeat_timeout".
Definition ReasonSessionReplaced := "session_replaced".
Definition ReasonStaleGeneration := "stale_generation".
Definition ReasonSnapshotRejected := "snapshot_rejected".
Definition ReasonGenerationGap := "generation_gap".
Definition ReasonCredentialRotation := "credential_rotation".
Definition ReasonCanceled := "canceled".
Definition ReasonServerShutdown := "server_shutdown".
Definition ReasonProtocolClosed := "protocol_closed".

(** The sentinel [&Error{Code: c}]. *)
Definition sentinel (c : string) : err := ETyped c "" false None.

Definition codeError (base : string) (reason : string) (retryable : bool)
    (cause : option err) : err := ETyped base reason retryable cause.

Definition ErrInvalidInput := sentinel CodeInvalidInput.
Definition ErrMalformedFrame := sentinel CodeMalformedFrame.
Definition ErrFrameTooLarge := sentinel CodeFrameTooLarge.
Definition ErrAuthenticationFailed := sentinel CodeAuthenticationFailed.
Definition ErrCapabilityMissing := sentinel CodeCapabilityMissing.
Definition ErrUnsupportedMessage := sentinel CodeUnsupportedMessage.

(** [errors.As(err, &typed)]: the first typed error of the chain. *)
Fixpoint as_typed (e : err) : option (string * string) :=
  match e with
  | EPlain _ => None
  | ETyped c r _ _ => Some (c, r)
  | EWrap _ e => as_typed e
  | EJoin a b => match as_typed a with Some t => Some t | None => as_typed b end
  end.

Definition CodeOf (e : option err) : string := default "" (fst <$> (e ≫= as_typed)).
Definition ReasonOf (e : option err) : string := default "" (snd <$> (e ≫= as_typed)).

Definition mem_str (l : list string) (x : string) : bool := existsb (λ y, y == x) l.

Definition validDisconnectReason (reason : string) : bool :=
  mem_str [ReasonProtocolMismatch; ReasonCapabilityMissing; ReasonMalformed;
    ReasonAuthentication; ReasonCredentialExpired; ReasonLeaseExpired;
    ReasonHeartbeatTimeout; ReasonSessionReplaced; ReasonStaleGeneration;
    ReasonSnapshotRejected; ReasonGenerationGap; ReasonCredentialRotation;
    ReasonCanceled; ReasonServerShutdown; ReasonProtocolClosed] reason.

Definition validCode (code : string) : bool :=
  mem_str [CodeInvalidInput; CodeMalformedFrame; CodeFrameTooLarge;
    CodeProtocolIncompatible; CodeCapabilityMissing; CodeAuthenticationFailed;
    CodeCredentialExpired; CodeIdentityMismatch; CodeSessionConflict;
    CodeSessionClosed; CodeLeaseExpired; CodeHeartbeatTimeout;
    CodeSnapshotRequired; CodeGenerationGap; CodeStaleGeneration;
    CodeContentHashMismatch; CodeSnapshotRejected; CodeDeltaRejected;
    CodeNotReady; CodeCanceled; CodeStaleSession; CodeUnsupportedMessage;
    CodeDrainRejected; CodeDrainTimeout; CodeCredentialRotationRejected;
    CodeCredentialRotationNotReady; CodeCredentialRotationFailed] code.

#[global] Arguments validDisconnectReason : simpl never.
#[global] Arguments validCode : simpl never.

(** ** Grammars *)

(** [^[A-Za-z0-9][A-Za-z0-9._:-]{0,127}$] *)
Definition identifierPattern (s : string) : bool :=
  match sbytes s with
  | c :: rest => is_alnum c && (blen rest <=? 127)
                 && forallb (λ b, is_alnum b || one_of [46; 95; 58; 45] b) rest
  | [] => false
  end.

(** [^[a-z][a-z0-9_.-]{1,127}$] *)
Definition capabilityPattern (s : string) : bool :=
  match sbytes s with
  | c :: rest => is_lower c && (1 <=? blen rest) && (blen rest <=? 127)
                 && forallb (λ b, is_lower b || is_digit b || one_of [95; 46; 45] b) rest
  | [] => false
  end.

(** [^[0-9]+\.[0-9]+$] *)
Definition versionPattern (s : string) : bool :=
  match split_on 46 [] (sbytes s) with
  | [a; b] => (1 <=? blen a) && forallb is_digit a && (1 <=? blen b) && forallb is_digit b
  | _ => false
  end.

Definition has_prefix (p s : string) : bool := String.prefix p s.

(** [value[n:]]. *)
Definition drop_str (n : nat) (s : string) : string := bstring (drop n (sbytes s)).

(** [^sha256:[0-9a-f]{64}$] *)
Definition hashPattern (s : string) : bool :=
  has_prefix "sha256:" s
  && (len (drop_str 7 s) =? 64)
  && forallb (λ b, is_digit b || in_range 97 102 b) (sbytes (drop_str 7 s)).

(** [^[A-Za-z0-9_-]{43}$] *)
Definition identityThumbprintPattern (s : string) : bool :=
  (len s =? 43) && forallb (λ b, is_alnum b || one_of [95; 45] b) (sbytes s).

(** [^ed25519:[A-Za-z0-9_-]{43}$] *)
Definition identityKeyIDPattern (s : string) : bool :=
  has_prefix "ed25519:" s && identityThumbprintPattern (drop_str 8 s).

Definition ValidateIdentifier (value : string) : option err :=
  if negb (identifierPattern value) || (MaxIdentifierBytes <? len value)
  then Some ErrInvalidInput else None.

Definition ValidateProof (value : string) : option err :=
  if (len value <? 32) || (MaxProofBytes <? len value) || has_outer_space value
     || ContainsAny value crlf
  then Some ErrInvalidInput else None.

Definition ValidateIdentityKey (keyID thumbprint : string) : option err :=
  if negb (identityKeyIDPattern keyID) || negb (identityThumbprintPattern thumbprint)
     || (drop_str 8 keyID != thumbprint)
  then Some ErrInvalidInput else None.

Definition badID (value : string) : bool := failed (ValidateIdentifier value).

#[global] Arguments badID : simpl never.

Definition validRequestID (value : string) : bool :=
  (1 <=? len value) && (len value <=? MaxIdentifierBytes) && identifierPattern value.

(** ** Capabilities *)

Definition CapabilitySnapshot := "config.snapshot.v1".
Definition CapabilityDelta := "config.delta.v1".
Definition CapabilityAck := "config.ack.v1".
Definition CapabilityHeartbeat := "session.heartbeat.v1".
Definition CapabilityRenewal := "auth.renew.v1".
Definition CapabilityDrain := "connector.drain.v1".
Definition CapabilityCredentialRotation := "credential.rotate.v1".

Definition requiredCapabilities : list string :=
  [CapabilitySnapshot; CapabilityDelta; CapabilityAck; CapabilityHeartbeat; CapabilityRenewal].

Definition ProductionCapabilities : list string :=
  [CapabilitySnapshot; CapabilityDelta; CapabilityAck; CapabilityHeartbeat;
   CapabilityRenewal; CapabilityDrain; CapabilityCredentialRotation].

(** The loop over [values] with its [seen] set; on success the final set. *)
Fixpoint collect_capabilities (seen : gset string) (values : list string) : err + gset string :=
  match values with
  | [] => inr seen
  | value :: rest =>
      if (MaxCapabilityBytes <? len value) || negb (capabilityPattern value)
      then inl ErrInvalidInput
      else if bool_decide (value ∈ seen) then inl ErrInvalidInput
      else collect_capabilities ({[value]} ∪ seen) rest
  end.

(** The loop over [requiredCapabilities].  Go ranges over that map in an
    unspecified order, which only selects the capability named in the cause. *)
Fixpoint check_required (required : list string) (seen : gset string) : option err :=
  match required with
  | [] => None
  | r :: rest =>
      if bool_decide (r ∈ seen) then check_required rest seen
      else Some (codeError CodeCapabilityMissing ReasonCapabilityMissing false
                   (Some (EPlain ("missing capability " +:+ r))))
  end.

Definition ValidateCapabilities (values : list string) : option err :=
  if (Z.of_nat (length values) =? 0) || (MaxCapabilities <? Z.of_nat (length values))
  then Some ErrCapabilityMissing
  else match collect_capabilities ∅ values with
       | inl e => Some e
       | inr seen => check_required requiredCapabilities seen
       end.

Definition NegotiateCapabilities (offered supported : list string) : err + list string :=
  match ValidateCapabilities offered with
  | Some e => inl e
  | None =>
    match ValidateCapabilities supported with
    | Some e => inl e
    | None =>
        let supportedSet : gset string := list_to_set supported in
        let selected := List.filter (λ value, bool_decide (value ∈ supportedSet)) offered in
        match ValidateCapabilities selected with
        | Some e => inl (codeError CodeCapabilityMissing ReasonCapabilityMissing false (Some e))
        | None => inr selected
        end
    end
  end.

Fixpoint hasCapability (values : list string) (capability : string) : bool :=
  match values with
  | [] => false
  | value :: rest => if value == capability then true else hasCapability rest capability
  end.

(** ** Versions *)

Definition parseVersion (value : string) : Z * Z * bool :=
  match Split value 46 with
  | [p0; p1] =>
      if (p0 == "") || (p1 == "") then (0, 0, false)
      else match Atoi p0, Atoi p1 with
           | Some major, Some minor =>
               if (major <? 0) || (minor <? 0) || (Itoa major != p0) || (Itoa minor != p1)
               then (0, 0, false) else (major, minor, true)
           | _, _ => (0, 0, false)
           end
  | _ => (0, 0, false)
  end.

Definition incompatible (text : string) : err :=
  codeError CodeProtocolIncompatible ReasonProtocolMismatch false (Some (EPlain text)).

Definition NegotiateVersion (minVersion maxVersion : string) : err + string :=
  if negb (versionPattern minVersion) || negb (versionPattern maxVersion)
  then inl (incompatible "invalid version range")
  else
    let '(minMajor, minMinor, minOK) := parseVersion minVersion in
    let '(maxMajor, maxMinor, maxOK) := parseVersion maxVersion in
    let '(selectedMajor, selectedMinor, selectedOK) := parseVersion ProtocolVersion in
    if negb maxOK || negb selectedOK then inl (incompatible "invalid protocol version")
    else if negb minOK then inl (incompatible "invalid protocol version")
    else if (maxMajor <? minMajor) || (selectedMajor <? minMajor) || (maxMajor <? selectedMajor)
            || (minMajor =? selectedMajor) && (selectedMinor <? minMinor)
            || (maxMajor =? selectedMajor) && (maxMinor <? selectedMinor)
    then inl (incompatible "no compatible protocol version")
    else inr ProtocolVersion.

(** *** Negotiation is correct *)

(** What [ValidateCapabilities] accepts. *)
Definition capabilities_ok (values : list string) : Prop :=
  length values ≠ 0%nat ∧ Z.of_nat (length values) ≤ MaxCapabilities
  ∧ Forall (λ v, len v ≤ MaxCapabilityBytes ∧ capabilityPattern v = true) values
  ∧ NoDup values
  ∧ (∀ r, r ∈ requiredCapabilities → r ∈ values).

Lemma collect_capabilities_inr seen values s :
  collect_capabilities seen values = inr s ↔
  Forall (λ v, len v ≤ MaxCapabilityBytes ∧ capabilityPattern v = true) values
  ∧ NoDup values ∧ (∀ v, v ∈ values → v ∉ seen) ∧ s = list_to_set values ∪ seen.
Proof.
  revert seen. induction values as [|v values IH]; intros seen; simpl.
  - split.
    + intros [= ->]. split_and!; [constructor|constructor|set_solver|set_solver].
    + intros (_ & _ & _ & ->). f_equal. set_solver.
  - destruct (_ || _) eqn:E1; bools_or.
    { split; [done|]. intros (H & _). inversion_clear H as [|? ? [? ?] _].
      destruct E1; bools_or; [lia|congruence]. }
    destruct (decide (v ∈ seen)).
    { rewrite bool_decide_true by done. split; [done|]. set_solver. }
    rewrite bool_decide_false by done. rewrite IH, Forall_cons, NoDup_cons.
    assert (list_to_set values ∪ ({[v]} ∪ seen) = {[v]} ∪ list_to_set values ∪ seen :> gset string)
      as -> by set_solver.
    split; intros; destruct_and?; split_and!; try done; set_solver.
Qed.

Lemma check_required_None required seen :
  check_required required seen = None ↔ ∀ r, r ∈ required → r ∈ seen.
Proof.
  induction required as [|r required IH]; simpl.
  - set_solver.
  - case_bool_decide; [rewrite IH|]; set_solver.
Qed.

Lemma ValidateCapabilities_None values :
  ValidateCapabilities values = None ↔ capabilities_ok values.
Proof.
  unfold ValidateCapabilities, capabilities_ok.
  destruct (_ || _) eqn:E; bools_or.
  { split; [done|]. intros (? & ? & _). destruct E; bools; lia. }
  destruct (collect_capabilities ∅ values) as [e|s] eqn:C.
  - split; [done|]. intros (_ & _ & Hf & Hd & _).
    assert (collect_capabilities ∅ values = inr (list_to_set values ∪ ∅)) as C'
      by (apply collect_capabilities_inr; set_solver).
    congruence.
  - apply collect_capabilities_inr in C as (Hf & Hd & _ & ->).
    rewrite check_required_None. split.
    + intros Hr. split_and!; try done; [lia|]. intros r Hin. specialize (Hr r Hin). set_solver.
    + intros (_ & _ & _ & _ & Hr) r Hin. specialize (Hr r Hin). set_solver.
Qed.

(** The common part of two acceptable offers is itself acceptable: both carry
    every required capability. *)
Lemma filter_capabilities_ok offered supported :
  capabilities_ok offered → capabilities_ok supported →
  capabilities_ok (List.filter (λ v, bool_decide (v ∈ (list_to_set supported : gset string))) offered).
Proof.
  intros (_ & Hlen & Hf & Hd & Hr) (_ & _ & _ & _ & Hr').
  set (sel := List.filter _ offered).
  assert (sub : sel `sublist_of` offered) by apply filter_sublist_bool.
  assert (∀ r, r ∈ requiredCapabilities → r ∈ sel) as Hreq.
  { intros r Hin. apply list_elem_of_In, List.filter_In. split.
    - apply list_elem_of_In. auto.
    - apply bool_decide_eq_true. specialize (Hr' r Hin). set_solver. }
  assert (CapabilitySnapshot ∈ sel) by (apply Hreq; unfold requiredCapabilities; set_solver).
  split_and!; try done.
  - intros Hz. destruct sel; [set_solver|done].
  - apply sublist_length in sub. lia.
  - rewrite Forall_forall in Hf |- *. intros x Hx. apply Hf.
    apply list_elem_of_In. apply list_elem_of_In, List.filter_In in Hx. tauto.
  - by eapply sublist_NoDup.
Qed.

(** Capability negotiation succeeds exactly when both sides' lists are
    acceptable, and then selects the offered capabilities the peer supports, in
    the offered order: the re-validation of the selection never fails. *)
Lemma NegotiateCapabilities_inr offered supported selected :
  NegotiateCapabilities offered supported = inr selected ↔
  capabilities_ok offered ∧ capabilities_ok supported
  ∧ selected = List.filter (λ v, bool_decide (v ∈ (list_to_set supported : gset string))) offered.
Proof.
  unfold NegotiateCapabilities.
  destruct (ValidateCapabilities offered) eqn:E1.
  { split; [done|]. intros (H & _). apply ValidateCapabilities_None in H. congruence. }
  destruct (ValidateCapabilities supported) eqn:E2.
  { split; [done|]. intros (_ & H & _). apply ValidateCapabilities_None in H. congruence. }
  apply ValidateCapabilities_None in E1, E2.
  rewrite (proj2 (ValidateCapabilities_None _) (filter_capabilities_ok _ _ E1 E2)).
  naive_solver.
Qed.

Lemma capabilities_Permutation a b :
  NoDup a → NoDup b →
  List.filter (λ v, bool_decide (v ∈ (list_to_set b : gset string))) a
  ≡ₚ List.filter (λ v, bool_decide (v ∈ (list_to_set a : gset string))) b.
Proof.
  intros Ha Hb. apply NoDup_Permutation.
  - eapply sublist_NoDup; [|apply filter_sublist_bool]. done.
  - eapply sublist_NoDup; [|apply filter_sublist_bool]. done.
  - intros x. rewrite !list_elem_of_In, !List.filter_In, !bool_decide_eq_true.
    rewrite !elem_of_list_to_set, !list_elem_of_In. tauto.
Qed.

Lemma filter_twice (a b : list string) :
  let f l := List.filter (λ v, bool_decide (v ∈ (list_to_set l : gset string))) a in
  f (f b) = f b.
Proof.
  cbn. apply List.filter_ext_in. intros x Hx. apply bool_decide_ext.
  rewrite !elem_of_list_to_set, list_elem_of_In, List.filter_In, bool_decide_eq_true.
  rewrite elem_of_list_to_set. tauto.
Qed.

(** The two ends agree on the negotiated capabilities.  What the server
    selects from a client's offer passes the client's own negotiation against
    that selection with the identical result, holds every required capability
    exactly once, and is, up to order, what the opposite negotiation selects. *)
Theorem negotiated_capabilities_agree offered supported selected :
  NegotiateCapabilities offered supported = inr selected →
  NegotiateCapabilities offered selected = inr selected
  ∧ NoDup selected ∧ (∀ r, r ∈ requiredCapabilities → r ∈ selected)
  ∧ ∃ other, NegotiateCapabilities supported offered = inr other ∧ other ≡ₚ selected.
Proof.
  intros (Ho & Hs & ->)%NegotiateCapabilities_inr.
  pose proof (filter_capabilities_ok _ _ Ho Hs) as Hsel.
  split_and!; [|apply Hsel..|].
  - apply NegotiateCapabilities_inr. split_and!; try done. by rewrite filter_twice.
  - eexists. split; [by apply NegotiateCapabilities_inr|].
    apply capabilities_Permutation; [apply Hs|apply Ho].
Qed.

Lemma negotiated_capabilities_agree_witness :
  NegotiateCapabilities ProductionCapabilities requiredCapabilities = inr requiredCapabilities
  ∧ NegotiateCapabilities ProductionCapabilities requiredCapabilities = inr requiredCapabilities
  ∧ NoDup requiredCapabilities ∧ (∀ r, r ∈ requiredCapabilities → r ∈ requiredCapabilities)
  ∧ ∃ other, NegotiateCapabilities requiredCapabilities ProductionCapabilities = inr other
             ∧ other ≡ₚ requiredCapabilities.
Proof.
  split; [vm_compute; reflexivity|].
  apply (negotiated_capabilities_agree ProductionCapabilities requiredCapabilities).
  vm_compute. reflexivity.
Defined.

(** The order on version pairs. *)
Definition version_le (v w : Z * Z) : Prop :=
  v.1 < w.1 ∨ v.1 = w.1 ∧ v.2 ≤ w.2.

Lemma parseVersion_nonneg s M m : parseVersion s = (M, m, true) → 0 ≤ M ∧ 0 ≤ m.
Proof. unfold parseVersion. intros H. cases. bools. lia. Qed.

(** A negotiated version is always the protocol's own, and it is negotiated
    exactly when it lies in the peer's well-formed range. *)
Lemma NegotiateVersion_spec minV maxV v :
  NegotiateVersion minV maxV = inr v ↔
  versionPattern minV = true ∧ versionPattern maxV = true ∧ v = ProtocolVersion
  ∧ ∃ lo hi, parseVersion minV = (lo.1, lo.2, true) ∧ parseVersion maxV = (hi.1, hi.2, true)
             ∧ version_le lo (1, 0) ∧ version_le (1, 0) hi.
Proof.
  unfold NegotiateVersion, version_le.
  replace (parseVersion ProtocolVersion) with (1, 0, true) by (by vm_compute).
  destruct (versionPattern minV), (versionPattern maxV); simpl; try naive_solver.
  destruct (parseVersion minV) as [[lM lm] [|]] eqn:L, (parseVersion maxV) as [[hM hm] [|]] eqn:H;
    simpl; try naive_solver.
  apply parseVersion_nonneg in L, H.
  destruct (_ || _) eqn:G; bools_or; split.
  - done.
  - intros (_ & _ & _ & [a b] & [c d] & ? & ? & ? & ?). simplify_eq/=. cases; naive_solver lia.
  - intros [= <-]. split_and!; try done. exists (lM, lm), (hM, hm); simpl.
    split_and!; try done; repeat match goal with G : _ ∨ _ |- _ => destruct G; bools_or end; lia.
  - naive_solver.
Qed.
