(* ===== verification/Messages.v ===== *)
(** * Connector protocol: control messages

    The message structs of [internal/connectorprotocol/protocol.go] and their
    [Validate] methods, condition by condition.  Field [X] of message [M] is the
    projection [m_X].  [Validate(now)] with a zero [now] skips the freshness
    conditions, as in the source. *)
From S2P Require Import Prelude Go Protocol.

(** ** The payload codec

    Configuration payloads are JSON documents.  The session state machines use
    them only through three operations of [protocol.go]: [canonicalJSON],
    the hexadecimal SHA-256 digest, and [validateConfigSnapshotPayload].  They
    are the interface below; every theorem of the session files holds for any
    implementation of it. *)
Class PayloadCodec := {
  canonicalJSON : bytes → Z → err + bytes;
  sha256_hex : bytes → string;
  validateConfigSnapshotPayload : bytes → string → Z → option err
}.

(** ** SessionRef (session.go) *)

Record SessionRef := mkSessionRef {
  ref_TunnelID : string;
  ref_ConnectorID : string;
  ref_SessionID : string;
  ref_ProcessGeneration : Z
}.
#[export] Instance SessionRef_eq_dec : EqDecision SessionRef.
Proof. solve_decision. Defined.

Definition SessionRef_Validate (r : SessionRef) : option err :=
  if badID (ref_TunnelID r) || badID (ref_ConnectorID r) || badID (ref_SessionID r)
     || (ref_ProcessGeneration r =? 0)
  then Some ErrInvalidInput else None.

(** ** Authentication messages *)

Record AuthRequest := mkAuthRequest {
  areq_AccountID : string;
  areq_TunnelID : string;
  areq_ConnectorID : string;
  areq_HostID : string;
  areq_IdentityKeyID : string;
  areq_IdentityKeyThumbprint : string;
  areq_ProcessGeneration : Z;
  areq_CredentialGeneration : Z;
  areq_Nonce : string;
  areq_SignedProof : string;
  areq_IssuedAt : Time;
  areq_ExpiresAt : Time
}.

Definition badNonce (n : string) : bool :=
  (len n <? 16) || (MaxNonceBytes <? len n) || has_outer_space n || ContainsAny n crlf.

Definition AuthRequest_validate (a : AuthRequest) (now : Time) (requireProof : bool) : option err :=
  if badID (areq_AccountID a) || badID (areq_TunnelID a) || badID (areq_ConnectorID a)
     || badID (areq_HostID a)
     || failed (ValidateIdentityKey (areq_IdentityKeyID a) (areq_IdentityKeyThumbprint a))
  then Some ErrInvalidInput
  else if badNonce (areq_Nonce a) || (areq_ProcessGeneration a =? 0)
     || (areq_CredentialGeneration a =? 0) || IsZero (areq_IssuedAt a) || IsZero (areq_ExpiresAt a)
     || negb (After (areq_ExpiresAt a) (areq_IssuedAt a))
     || (15 * Minute <? Sub (areq_ExpiresAt a) (areq_IssuedAt a))
     || requireProof && failed (ValidateProof (areq_SignedProof a))
  then Some ErrInvalidInput
  else if negb (IsZero now)
     && (After (areq_IssuedAt a) (now + MaxClockSkew)
         || (MaxClockSkew <? Sub now (areq_IssuedAt a))
         || negb (After (areq_ExpiresAt a) now))
  then Some (codeError CodeCredentialExpired ReasonCredentialExpired true None)
  else None.

Definition AuthRequest_Validate (a : AuthRequest) (now : Time) : option err :=
  AuthRequest_validate a now true.

Record AuthResult := mkAuthResult {
  ares_AccountID : string;
  ares_TunnelID : string;
  ares_ConnectorID : string;
  ares_SessionID : string;
  ares_HostID : string;
  ares_IdentityKeyID : string;
  ares_IdentityKeyThumbprint : string;
  ares_ProcessGeneration : Z;
  ares_CredentialGeneration : Z;
  ares_CredentialExpiresAt : Time;
  ares_LeaseExpiresAt : Time
}.
#[export] Instance AuthResult_eq_dec : EqDecision AuthResult.
Proof. solve_decision. Defined.
#[export] Instance AuthResult_eta : Eta AuthResult := λ r,
  mkAuthResult (ares_AccountID r) (ares_TunnelID r) (ares_ConnectorID r) (ares_SessionID r)
    (ares_HostID r) (ares_IdentityKeyID r) (ares_IdentityKeyThumbprint r)
    (ares_ProcessGeneration r) (ares_CredentialGeneration r) (ares_CredentialExpiresAt r)
    (ares_LeaseExpiresAt r).

Definition AuthResult_Validate (a : AuthResult) (now : Time) : option err :=
  if existsb badID [ares_AccountID a; ares_TunnelID a; ares_ConnectorID a; ares_HostID a]
  then Some ErrAuthenticationFailed
  else if (ares_SessionID a != "") && badID (ares_SessionID a)
  then Some ErrAuthenticationFailed
  else if failed (ValidateIdentityKey (ares_IdentityKeyID a) (ares_IdentityKeyThumbprint a))
     || (ares_ProcessGeneration a =? 0) || (ares_CredentialGeneration a =? 0)
     || IsZero (ares_CredentialExpiresAt a) || IsZero (ares_LeaseExpiresAt a)
     || After (ares_LeaseExpiresAt a) (ares_CredentialExpiresAt a)
  then Some ErrAuthenticationFailed
  else if negb (IsZero now)
     && (negb (After (ares_CredentialExpiresAt a) now) || negb (After (ares_LeaseExpiresAt a) now)
         || (MaxLease <? Sub (ares_LeaseExpiresAt a) now))
  then Some ErrAuthenticationFailed
  else None.

Definition AuthResult_ValidateBound (a : AuthResult) : option err :=
  if failed (AuthResult_Validate a 0) || badID (ares_SessionID a)
  then Some ErrAuthenticationFailed else None.

Record RenewalRequest := mkRenewalRequest {
  rreq_SessionID : string;
  rreq_AccountID : string;
  rreq_TunnelID : string;
  rreq_ConnectorID : string;
  rreq_HostID : string;
  rreq_IdentityKeyID : string;
  rreq_IdentityKeyThumbprint : string;
  rreq_ProcessGeneration : Z;
  rreq_CredentialGeneration : Z;
  rreq_Nonce : string;
  rreq_SignedProof : string;
  rreq_RequestedAt : Time
}.

Definition RenewalRequest_validate (r : RenewalRequest) (requireProof : bool) : option err :=
  if badID (rreq_SessionID r) || badID (rreq_AccountID r) || badID (rreq_TunnelID r)
     || badID (rreq_ConnectorID r) || badID (rreq_HostID r)
     || failed (ValidateIdentityKey (rreq_IdentityKeyID r) (rreq_IdentityKeyThumbprint r))
     || (rreq_ProcessGeneration r =? 0) || (rreq_CredentialGeneration r =? 0)
     || badNonce (rreq_Nonce r) || IsZero (rreq_RequestedAt r)
     || requireProof && failed (ValidateProof (rreq_SignedProof r))
  then Some ErrInvalidInput else None.

Definition RenewalRequest_Validate (r : RenewalRequest) : option err :=
  RenewalRequest_validate r true.

Definition RenewalRequest_ValidateAt (r : RenewalRequest) (now : Time) : option err :=
  match RenewalRequest_validate r true with
  | Some e => Some e
  | None =>
      if negb (IsZero now)
         && (After (rreq_RequestedAt r) (now + MaxClockSkew)
             || (MaxClockSkew <? Sub now (rreq_RequestedAt r)))
      then Some (codeError CodeAuthenticationFailed ReasonAuthentication false
                   (Some (EPlain "renewal request is outside clock skew")))
      else None
  end.

(** ** Lease, hello and welcome *)

Record Lease := mkLease {
  lease_SessionID : string;
  lease_ExpiresAt : Time;
  lease_HeartbeatIntervalMS : Z
}.
#[export] Instance Lease_eta : Eta Lease := λ r,
  mkLease (lease_SessionID r) (lease_ExpiresAt r) (lease_HeartbeatIntervalMS r).

Definition Lease_Validate (l : Lease) (now : Time) : option err :=
  if badID (lease_SessionID l) || IsZero (lease_ExpiresAt l) || (lease_HeartbeatIntervalMS l =? 0)
  then Some ErrInvalidInput
  else if negb (IsZero now)
     && (negb (After (lease_ExpiresAt l) now) || (MaxLease <? Sub (lease_ExpiresAt l) now)
         || (Sub (lease_ExpiresAt l) now <=? lease_HeartbeatIntervalMS l * Millisecond))
  then Some ErrInvalidInput
  else None.

Record Hello := mkHello {
  hello_Protocol : string;
  hello_MinVersion : string;
  hello_MaxVersion : string;
  hello_AccountID : string;
  hello_TunnelID : string;
  hello_ConnectorID : string;
  hello_HostID : string;
  hello_ProcessGeneration : Z;
  hello_Capabilities : list string;
  hello_Auth : AuthRequest
}.

Definition Hello_Validate (h : Hello) (now : Time) : option err :=
  if (hello_Protocol h != ProtocolName) || (hello_MinVersion h == "") || (hello_MaxVersion h == "")
     || badID (hello_AccountID h) || badID (hello_TunnelID h) || badID (hello_ConnectorID h)
     || badID (hello_HostID h) || (hello_ProcessGeneration h =? 0)
  then Some ErrInvalidInput
  else match NegotiateVersion (hello_MinVersion h) (hello_MaxVersion h) with
  | inl e => Some e
  | inr _ =>
    match ValidateCapabilities (hello_Capabilities h) with
    | Some e => Some e
    | None =>
      if (areq_AccountID (hello_Auth h) != hello_AccountID h)
         || (areq_TunnelID (hello_Auth h) != hello_TunnelID h)
         || (areq_ConnectorID (hello_Auth h) != hello_ConnectorID h)
         || (areq_HostID (hello_Auth h) != hello_HostID h)
         || negb (areq_ProcessGeneration (hello_Auth h) =? hello_ProcessGeneration h)
      then Some (codeError CodeIdentityMismatch ReasonAuthentication false None)
      else AuthRequest_Validate (hello_Auth h) now
    end
  end.

Record Welcome := mkWelcome {
  welcome_Protocol : string;
  welcome_Version : string;
  welcome_SessionID : string;
  welcome_Capabilities : list string;
  welcome_Lease : Lease;
  welcome_RequiresSnapshot : bool;
  welcome_ServerTime : Time
}.

Definition Welcome_Validate (w : Welcome) (now : Time) : option err :=
  if (welcome_Protocol w != ProtocolName) || (welcome_Version w != ProtocolVersion)
     || badID (welcome_SessionID w) || negb (welcome_RequiresSnapshot w)
     || failed (ValidateCapabilities (welcome_Capabilities w)) || IsZero (welcome_ServerTime w)
     || (lease_SessionID (welcome_Lease w) != welcome_SessionID w)
  then Some ErrInvalidInput
  else Lease_Validate (welcome_Lease w) now.

(** ** Configuration snapshots and deltas *)

Record Snapshot := mkSnapshot {
  snap_AccountID : string;
  snap_TunnelID : string;
  snap_ConnectorID : string;
  snap_SessionID : string;
  snap_ProcessGeneration : Z;
  snap_Generation : Z;
  snap_ContentHash : string;
  snap_Payload : bytes
}.
#[export] Instance Snapshot_eta : Eta Snapshot := λ r,
  mkSnapshot (snap_AccountID r) (snap_TunnelID r) (snap_ConnectorID r) (snap_SessionID r)
    (snap_ProcessGeneration r) (snap_Generation r) (snap_ContentHash r) (snap_Payload r).

(** [Snapshot{}]. *)
Definition zeroSnapshot : Snapshot := mkSnapshot "" "" "" "" 0 0 "" [].

Record Delta := mkDelta {
  delta_AccountID : string;
  delta_TunnelID : string;
  delta_ConnectorID : string;
  delta_SessionID : string;
  delta_ProcessGeneration : Z;
  delta_PreviousGeneration : Z;
  delta_Generation : Z;
  delta_PreviousContentHash : string;
  delta_ContentHash : string;
  delta_Payload : bytes
}.
#[export] Instance Delta_eta : Eta Delta := λ r,
  mkDelta (delta_AccountID r) (delta_TunnelID r) (delta_ConnectorID r) (delta_SessionID r)
    (delta_ProcessGeneration r) (delta_PreviousGeneration r) (delta_Generation r)
    (delta_PreviousContentHash r) (delta_ContentHash r) (delta_Payload r).

Section Payload.
  Context {codec : PayloadCodec}.

Definition Snapshot_Validate (s : Snapshot) : option err :=
  if badID (snap_TunnelID s)
     || (snap_AccountID s != "") && badID (snap_AccountID s)
     || (snap_SessionID s != "") && badID (snap_SessionID s)
     || (snap_Generation s =? 0) || negb (hashPattern (snap_ContentHash s))
     || (blen (snap_Payload s) =? 0) || (MaxSnapshotBytes <? blen (snap_Payload s))
  then Some ErrInvalidInput
  else match canonicalJSON (snap_Payload s) MaxSnapshotBytes with
  | inl e => Some (codeError CodeContentHashMismatch ReasonSnapshotRejected false (Some e))
  | inr canonical =>
      if canonical != snap_Payload s
      then Some (codeError CodeContentHashMismatch ReasonSnapshotRejected false None)
      else if snap_ContentHash s != "sha256:" +:+ sha256_hex canonical
      then Some (codeError CodeContentHashMismatch ReasonSnapshotRejected false None)
      else match validateConfigSnapshotPayload canonical (snap_TunnelID s) (snap_Generation s) with
           | Some e => Some (codeError CodeSnapshotRejected ReasonSnapshotRejected false (Some e))
           | None => None
           end
  end.

Definition Snapshot_ValidateBound (s : Snapshot) : option err :=
  if badID (snap_AccountID s) || badID (snap_ConnectorID s) || badID (snap_SessionID s)
     || (snap_ProcessGeneration s =? 0)
  then Some ErrInvalidInput
  else Snapshot_Validate s.

Definition NewSnapshot (tunnelID : string) (generation : Z) (payload : bytes) : err + Snapshot :=
  if badID tunnelID || (generation =? 0) || (blen payload =? 0) || (MaxSnapshotBytes <? blen payload)
  then inl ErrInvalidInput
  else match canonicalJSON payload MaxSnapshotBytes with
  | inl e => inl e
  | inr canonical =>
      match validateConfigSnapshotPayload canonical tunnelID generation with
      | Some e => inl e
      | None => inr (mkSnapshot "" tunnelID "" "" 0 generation
                       ("sha256:" +:+ sha256_hex canonical) canonical)
      end
  end.

Definition Delta_Validate (d : Delta) : option err :=
  if badID (delta_TunnelID d)
     || (delta_AccountID d != "") && badID (delta_AccountID d)
     || (delta_SessionID d != "") && badID (delta_SessionID d)
     || negb (hashPattern (delta_PreviousContentHash d)) || negb (hashPattern (delta_ContentHash d))
     || (blen (delta_Payload d) =? 0) || (MaxDeltaBytes <? blen (delta_Payload d))
  then Some ErrInvalidInput
  else if (delta_PreviousGeneration d =? 0)
     || negb (delta_Generation d =? u64 (delta_PreviousGeneration d + 1))
  then Some (codeError CodeGenerationGap ReasonGenerationGap true None)
  else match canonicalJSON (delta_Payload d) MaxDeltaBytes with
  | inl e => Some (codeError CodeContentHashMismatch ReasonGenerationGap false (Some e))
  | inr canonical =>
      if canonical != delta_Payload d
      then Some (codeError CodeContentHashMismatch ReasonGenerationGap false None)
      else if delta_ContentHash d != "sha256:" +:+ sha256_hex canonical
      then Some (codeError CodeContentHashMismatch ReasonGenerationGap false None)
      else match validateConfigSnapshotPayload canonical (delta_TunnelID d) (delta_Generation d) with
           | Some e => Some (codeError CodeDeltaRejected ReasonGenerationGap false (Some e))
           | None => None
           end
  end.

Definition Delta_ValidateBound (d : Delta) : option err :=
  if badID (delta_AccountID d) || badID (delta_ConnectorID d) || badID (delta_SessionID d)
     || (delta_ProcessGeneration d =? 0)
  then Some ErrInvalidInput
  else Delta_Validate d.

Definition NewDelta (tunnelID : string) (previous : Snapshot) (generation : Z) (payload : bytes)
    : err + Delta :=
  match Snapshot_Validate previous with
  | Some e => inl (codeError CodeGenerationGap ReasonGenerationGap false (Some e))
  | None =>
      if negb (generation =? u64 (snap_Generation previous + 1))
      then inl (codeError CodeGenerationGap ReasonGenerationGap false None)
      else match NewSnapshot tunnelID generation payload with
      | inl e => inl e
      | inr snapshot =>
          inr (mkDelta "" tunnelID "" "" 0 (snap_Generation previous) generation
                 (snap_ContentHash previous) (snap_ContentHash snapshot) (snap_Payload snapshot))
      end
  end.

End Payload.

(** [bindSnapshot] and [cloneSnapshot]: the payload copy keeps its bytes. *)
Definition bindSnapshot (snapshot : Snapshot) (accountID connectorID sessionID : string)
    (processGeneration : Z) : Snapshot :=
  snapshot <| snap_AccountID := accountID |>
           <| snap_ConnectorID := connectorID |>
           <| snap_SessionID := sessionID |>
           <| snap_ProcessGeneration := processGeneration |>.

Definition cloneSnapshot (snapshot : Snapshot) : Snapshot := snapshot.

(** ** Acknowledgements, readiness and heartbeats *)

Definition AckSnapshot := "snapshot".
Definition AckDelta := "delta".
Definition AckReady := "ready".
Definition AckRenewal := "auth_renew".

Definition AckApplied := "applied".
Definition AckDuplicate := "duplicate".
Definition AckRejected := "rejected".
Definition AckSnapshotRequired := "snapshot_required".

Record Ack := mkAck {
  ack_AccountID : string;
  ack_TunnelID : string;
  ack_ConnectorID : string;
  ack_SessionID : string;
  ack_ProcessGeneration : Z;
  ack_Kind : string;
  ack_Status : string;
  ack_Generation : Z;
  ack_ContentHash : string;
  ack_Code : string
}.

Definition Ack_Validate (a : Ack) : option err :=
  if badID (ack_AccountID a) || badID (ack_TunnelID a) || badID (ack_ConnectorID a)
     || badID (ack_SessionID a) || (ack_ProcessGeneration a =? 0)
     || ((ack_Kind a != AckSnapshot) && (ack_Kind a != AckDelta) && (ack_Kind a != AckReady)
         && (ack_Kind a != AckRenewal))
     || ((ack_Status a != AckApplied) && (ack_Status a != AckDuplicate)
         && (ack_Status a != AckRejected) && (ack_Status a != AckSnapshotRequired))
     || (ack_Generation a =? 0) || negb (hashPattern (ack_ContentHash a))
  then Some ErrInvalidInput
  else if (ack_Status a == AckRejected) && ((ack_Code a == "") || negb (validCode (ack_Code a)))
     || (ack_Status a != AckRejected) && (ack_Code a != "")
  then Some ErrInvalidInput
  else None.

Record Readiness := mkReadiness {
  ready_AccountID : string;
  ready_SessionID : string;
  ready_TunnelID : string;
  ready_ConnectorID : string;
  ready_ProcessGeneration : Z;
  ready_Generation : Z;
  ready_ContentHash : string;
  ready_EdgeReady : bool;
  ready_RouteReady : bool;
  ready_OriginReady : bool
}.

Definition Readiness_Validate (r : Readiness) : option err :=
  if badID (ready_AccountID r) || badID (ready_SessionID r) || badID (ready_TunnelID r)
     || badID (ready_ConnectorID r) || (ready_ProcessGeneration r =? 0)
     || (ready_Generation r =? 0) || negb (hashPattern (ready_ContentHash r))
  then Some ErrInvalidInput else None.

Record Heartbeat := mkHeartbeat {
  hb_AccountID : string;
  hb_SessionID : string;
  hb_TunnelID : string;
  hb_ConnectorID : string;
  hb_ProcessGeneration : Z;
  hb_LastAppliedGeneration : Z;
  hb_LastAppliedHash : string;
  hb_SentAt : Time
}.

Definition Heartbeat_Validate (h : Heartbeat) : option err :=
  if badID (hb_AccountID h) || badID (hb_SessionID h) || badID (hb_TunnelID h)
     || badID (hb_ConnectorID h) || (hb_ProcessGeneration h =? 0)
     || (hb_LastAppliedGeneration h =? 0) || negb (hashPattern (hb_LastAppliedHash h))
     || IsZero (hb_SentAt h)
  then Some ErrInvalidInput else None.

Record HeartbeatAck := mkHeartbeatAck {
  hback_AccountID : string;
  hback_TunnelID : string;
  hback_ConnectorID : string;
  hback_SessionID : string;
  hback_ProcessGeneration : Z;
  hback_LeaseExpiresAt : Time;
  hback_ServerTime : Time
}.

Definition HeartbeatAck_Validate (h : HeartbeatAck) (now : Time) : option err :=
  if badID (hback_AccountID h) || badID (hback_TunnelID h) || badID (hback_ConnectorID h)
     || badID (hback_SessionID h) || (hback_ProcessGeneration h =? 0)
     || IsZero (hback_LeaseExpiresAt h) || negb (After (hback_LeaseExpiresAt h) now)
     || IsZero (hback_ServerTime h)
  then Some ErrInvalidInput else None.

(** ** Drain messages *)

Definition DrainAccepted := "accepted".
Definition DrainProgress := "progress".
Definition DrainCompleted := "completed".
Definition DrainForced := "forced_close".
Definition DrainRejected := "rejected".

Record Drain := mkDrain {
  drain_AccountID : string;
  drain_TunnelID : string;
  drain_ConnectorID : string;
  drain_SessionID : string;
  drain_ProcessGeneration : Z;
  drain_DrainID : string;
  drain_Generation : Z;
  drain_ContentHash : string;
  drain_Deadline : Time;
  drain_StopNewStreams : bool;
  drain_ForceAfterDeadline : bool
}.

Definition zeroDrain : Drain := mkDrain "" "" "" "" 0 "" 0 "" 0 false false.

Definition Drain_Validate (d : Drain) (now : Time) : option err :=
  if badID (drain_AccountID d) || badID (drain_TunnelID d) || badID (drain_ConnectorID d)
     || badID (drain_SessionID d) || badID (drain_DrainID d) || (drain_ProcessGeneration d =? 0)
     || (drain_Generation d =? 0) || negb (hashPattern (drain_ContentHash d))
     || IsZero (drain_Deadline d) || negb (drain_StopNewStreams d)
  then Some ErrInvalidInput
  else if negb (IsZero now)
     && (negb (After (drain_Deadline d) now) || (MaxLease <? Sub (drain_Deadline d) now))
  then Some ErrInvalidInput
  else None.

Record DrainAck := mkDrainAck {
  dack_AccountID : string;
  dack_TunnelID : string;
  dack_ConnectorID : string;
  dack_SessionID : string;
  dack_ProcessGeneration : Z;
  dack_DrainID : string;
  dack_Generation : Z;
  dack_ContentHash : string;
  dack_Status : string;
  dack_ActiveStreams : Z;
  dack_ForcedClose : bool;
  dack_Code : string
}.

Definition zeroDrainAck : DrainAck := mkDrainAck "" "" "" "" 0 "" 0 "" "" 0 false "".

Definition DrainAck_Validate (a : DrainAck) : option err :=
  if badID (dack_AccountID a) || badID (dack_TunnelID a) || badID (dack_ConnectorID a)
     || badID (dack_SessionID a) || badID (dack_DrainID a) || (dack_ProcessGeneration a =? 0)
     || (dack_Generation a =? 0) || negb (hashPattern (dack_ContentHash a))
     || (MaxActiveStreams <? dack_ActiveStreams a)
  then Some ErrInvalidInput
  else
    let status_bad :=
      if (dack_Status a == DrainAccepted) || (dack_Status a == DrainProgress)
      then dack_ForcedClose a || (dack_Code a != "")
      else if dack_Status a == DrainCompleted
      then negb (dack_ActiveStreams a =? 0) || dack_ForcedClose a || (dack_Code a != "")
      else if dack_Status a == DrainForced
      then negb (dack_ForcedClose a) || (dack_Code a != CodeDrainTimeout)
           || negb (dack_ActiveStreams a =? 0)
      else if dack_Status a == DrainRejected
      then dack_ForcedClose a || (dack_Code a != CodeDrainRejected)
      else true in
    if status_bad then Some ErrInvalidInput
    else if (dack_Code a != "") && negb (validCode (dack_Code a)) then Some ErrInvalidInput
    else None.

(** ** Disconnect and reject *)

Record Disconnect := mkDisconnect {
  disc_AccountID : string;
  disc_TunnelID : string;
  disc_ConnectorID : string;
  disc_SessionID : string;
  disc_ProcessGeneration : Z;
  disc_Reason : string;
  disc_Retryable : bool;
  disc_Message : string
}.

Definition Disconnect_Validate (d : Disconnect) : option err :=
  if badID (disc_AccountID d) || badID (disc_TunnelID d) || badID (disc_ConnectorID d)
     || badID (disc_SessionID d) || (disc_ProcessGeneration d =? 0)
     || negb (validDisconnectReason (disc_Reason d)) || (MaxReasonMessage <? len (disc_Message d))
  then Some ErrInvalidInput else None.

Record Reject := mkReject {
  rej_AccountID : string;
  rej_TunnelID : string;
  rej_ConnectorID : string;
  rej_SessionID : string;
  rej_ProcessGeneration : Z;
  rej_Code : string;
  rej_Reason : string;
  rej_Retryable : bool;
  rej_Message : string
}.

Definition Reject_Validate (r : Reject) : option err :=
  if badID (rej_AccountID r) || badID (rej_TunnelID r) || badID (rej_ConnectorID r)
     || badID (rej_SessionID r) || (rej_ProcessGeneration r =? 0)
     || negb (validCode (rej_Code r)) || negb (validDisconnectReason (rej_Reason r))
     || (MaxReasonMessage <? len (rej_Message r))
  then Some ErrInvalidInput else None.
