(* ===== verification/Registry.v ===== *)
(** * Session registry

    Models [SessionRegistry] of [internal/connectorprotocol/session.go]: the map
    from connector identifiers to the one live session of that connector.  A
    [sync.RWMutex] makes each operation atomic, so each is one function on the
    map. *)
From S2P Require Import Prelude Go Protocol Messages.

Abbreviation SessionRegistry := (gmap string SessionRef).

Record AttachResult := mkAttachResult {
  attach_Current : SessionRef;
  attach_Replaced : option SessionRef
}.

Definition NewSessionRegistry : SessionRegistry := ∅.

Definition Attach (r : SessionRegistry) (ref : SessionRef) : (err + AttachResult) * SessionRegistry :=
  match SessionRef_Validate ref with
  | Some _ => (inl ErrInvalidInput, r)
  | None =>
      let install replaced :=
        (inr (mkAttachResult ref replaced), <[ref_ConnectorID ref := ref]> r) in
      match r !! ref_ConnectorID ref with
      | Some previous =>
          if ref_TunnelID previous != ref_TunnelID ref
          then (inl (codeError CodeIdentityMismatch ReasonAuthentication false None), r)
          else if ref_ProcessGeneration ref <=? ref_ProcessGeneration previous
          then (inl (codeError CodeSessionConflict ReasonStaleGeneration false None), r)
          else install (Some previous)
      | None => install None
      end
  end.

(** [SessionRegistry.Disconnect]. *)
Definition Registry_Disconnect (r : SessionRegistry) (ref : SessionRef) (reason : string)
    : option err * SessionRegistry :=
  if failed (SessionRef_Validate ref) || negb (validDisconnectReason reason)
  then (Some ErrInvalidInput, r)
  else match r !! ref_ConnectorID ref with
  | None => (None, r)
  | Some current =>
      if current != ref
      then (Some (codeError CodeStaleSession ReasonStaleGeneration false None), r)
      else (None, delete (ref_ConnectorID ref) r)
  end.

(** [SessionRegistry.Active]. *)
Definition Registry_Active (r : SessionRegistry) (connectorID : string) : option SessionRef :=
  if badID connectorID then None else r !! connectorID.

Definition Registry_Count (r : SessionRegistry) : Z := Z.of_nat (size r).

(** ** Well-formed registries *)

(** Every entry is stored under its own connector identifier and is valid. *)
Definition registry_ok (r : SessionRegistry) : Prop :=
  ∀ c ref, r !! c = Some ref → ref_ConnectorID ref = c ∧ SessionRef_Validate ref = None.

Lemma registry_ok_empty : registry_ok NewSessionRegistry.
Proof. intros c ref H. unfold NewSessionRegistry in H. by rewrite lookup_empty in H. Qed.

Lemma Attach_ok r ref : registry_ok r → registry_ok (Attach r ref).2.
Proof.
  intros Hr. unfold Attach.
  assert (SessionRef_Validate ref = None → registry_ok (<[ref_ConnectorID ref := ref]> r)) as Hi.
  { intros Hv c x [[<- <-]|[? ?]]%lookup_insert_Some; [done|eauto]. }
  cases; auto.
Qed.

Lemma Registry_Disconnect_ok r ref reason :
  registry_ok r → registry_ok (Registry_Disconnect r ref reason).2.
Proof.
  intros Hr. unfold Registry_Disconnect. cases; try done.
  intros c x [_ ?]%lookup_delete_Some. eauto.
Qed.

(** Operations of one registry, interleaved in any order. *)
Inductive registry_step : SessionRegistry → SessionRegistry → Prop :=
  | step_Attach r ref : registry_step r (Attach r ref).2
  | step_Disconnect r ref reason : registry_step r (Registry_Disconnect r ref reason).2.

Lemma registry_step_ok r r' : registry_step r r' → registry_ok r → registry_ok r'.
Proof. destruct 1; auto using Attach_ok, Registry_Disconnect_ok. Qed.

#[export] Hint Resolve registry_ok_empty Attach_ok Registry_Disconnect_ok : paperboat.

(** ** What the operations promise *)

(** A successful attach installs the reference. *)
Lemma Attach_inr r ref a r' :
  Attach r ref = (inr a, r') →
  r' = <[ref_ConnectorID ref := ref]> r ∧ SessionRef_Validate ref = None ∧ attach_Current a = ref.
Proof. unfold Attach. intros H. by cases. Qed.

(** An operation touches at most the connector it names. *)
Lemma Attach_other r ref c : c ≠ ref_ConnectorID ref → (Attach r ref).2 !! c = r !! c.
Proof. intros. unfold Attach. cases; by rewrite ?lookup_insert_ne by done. Qed.

Lemma Disconnect_other r ref reason c :
  c ≠ ref_ConnectorID ref → (Registry_Disconnect r ref reason).2 !! c = r !! c.
Proof. intros. unfold Registry_Disconnect. cases; by rewrite ?lookup_delete_ne by done. Qed.

(** Only the live session itself can be disconnected: a close by any other
    session reference, in particular one from an older process generation of the
    same connector, leaves the registry as it was. *)
Theorem Disconnect_exact_match r ref reason cur :
  r !! ref_ConnectorID ref = Some cur → cur ≠ ref →
  (Registry_Disconnect r ref reason).2 = r.
Proof.
  intros Hc Hne. unfold Registry_Disconnect. rewrite Hc.
  rewrite (bool_decide_false (cur = ref)) by done. by cases.
Qed.

Definition ref_a : SessionRef := mkSessionRef "tun" "con" "s1" 1.
Definition ref_b : SessionRef := mkSessionRef "tun" "con" "s2" 2.

Lemma Disconnect_exact_match_witness :
  (Registry_Disconnect {[ "con" := ref_b ]} ref_a ReasonProtocolClosed).2 = {[ "con" := ref_b ]}.
Proof. apply (Disconnect_exact_match _ _ _ ref_b); [reflexivity|discriminate]. Defined.

(** [r] is at most as new as [new]: same tunnel and an older process. *)
Definition replaced_by (old new : SessionRef) : Prop :=
  new = old ∨ (ref_TunnelID new = ref_TunnelID old
               ∧ ref_ProcessGeneration old < ref_ProcessGeneration new).

Lemma registry_step_replaced r r' c old new :
  registry_step r r' → r !! c = Some old → r' !! c = Some new → replaced_by old new.
Proof.
  intros Hstep Hold Hnew. unfold replaced_by.
  destruct Hstep as [r ref|r ref reason].
  - destruct (decide (c = ref_ConnectorID ref)) as [->|Hne];
      [|rewrite Attach_other in Hnew by done; naive_solver].
    unfold Attach in Hnew. cases; bools; simplify_map_eq; auto.
  - destruct (decide (c = ref_ConnectorID ref)) as [->|Hne];
      [|rewrite Disconnect_other in Hnew by done; naive_solver].
    unfold Registry_Disconnect in Hnew. cases; simplify_map_eq; auto.
Qed.

(** A run of registry operations during which connector [c] stays attached. *)
Definition attached_step (c : string) (r r' : SessionRegistry) : Prop :=
  registry_step r r' ∧ is_Some (r' !! c).

(** While a connector stays attached, through any sequence of attaches and
    disconnects of any connectors, it keeps its tunnel and its process generation
    only grows: a live session is replaced only by a strictly newer process of
    the same tunnel. *)
Theorem registry_generation_monotone r r' c old new :
  rtc (attached_step c) r r' → r !! c = Some old → r' !! c = Some new →
  replaced_by old new.
Proof.
  intros Hrun. revert old. induction Hrun as [r|r r1 r2 [Hs [m Hm]] _ IH]; intros old Hold Hnew.
  - left. congruence.
  - pose proof (registry_step_replaced _ _ _ _ _ Hs Hold Hm) as Ho.
    specialize (IH m Hm Hnew). unfold replaced_by in *.
    destruct Ho as [->|[? ?]], IH as [->|[? ?]]; auto.
    right. split; [congruence|lia].
Qed.

Lemma registry_generation_monotone_witness :
  replaced_by ref_a ref_b.
Proof.
  apply (registry_generation_monotone {[ "con" := ref_a ]} (Attach {[ "con" := ref_a ]} ref_b).2 "con").
  - apply rtc_once. split; [constructor|]. vm_compute. eexists; reflexivity.
  - reflexivity.
  - vm_compute. reflexivity.
Defined.
