(* ===== verification/Server.v ===== *)
(** * Server side of a connector session

    Models [Server] and [ServerSession] of
    [internal/connectorprotocol/session.go].  The session's mutex makes every
    method one atomic step on the pair of the shared registry and the session
    ([world]); [Renew], which releases the mutex around the call of the
    authenticator, is two steps.  Readings of the clock are arguments.  Pointers
    to the server, its registry and the context are assumed non-nil. *)
From S2P Require Import Prelude Go Protocol Messages Registry.

Inductive SessionState :=
  | SessionNew | SessionAwaitingSnapshot | SessionAwaitingReady
  | SessionReady | SessionDraining | SessionClosed.
#[export] Instance SessionState_eq_dec : EqDecision SessionState.
Proof. solve_decision. Defined.

(** ** Server configuration *)

(** The authenticator and the snapshot source are the functions the deployment
    supplies. *)
Record ServerConfig := mkServerConfig {
  cfg_Authenticate : AuthRequest → err + AuthResult;
  cfg_Renew : RenewalRequest → err + AuthResult;
  cfg_Snapshots : string → err + Snapshot;
  cfg_Capabilities : list string;
  cfg_LeaseDuration : Duration;
  cfg_HeartbeatInterval : Duration
}.
#[export] Instance ServerConfig_eta : Eta ServerConfig := λ c,
  mkServerConfig (cfg_Authenticate c) (cfg_Renew c) (cfg_Snapshots c) (cfg_Capabilities c)
    (cfg_LeaseDuration c) (cfg_HeartbeatInterval c).

Definition NewServer (config : ServerConfig) : err + ServerConfig :=
  let config := if cfg_LeaseDuration config =? 0
                then config <| cfg_LeaseDuration := DefaultLease |> else config in
  let config := if cfg_HeartbeatInterval config =? 0
                then config <| cfg_HeartbeatInterval := DefaultHeartbeat |> else config in
  if (cfg_LeaseDuration config <=? 0) || (MaxLease <? cfg_LeaseDuration config)
     || (cfg_HeartbeatInterval config <=? 0)
     || (cfg_LeaseDuration config <=? i64 (cfg_HeartbeatInterval config * 2))
     || failed (ValidateCapabilities (cfg_Capabilities config))
  then inl ErrInvalidInput
  else inr config.

(** ** Session state *)

Record ServerSession := mkServerSession {
  ss_ref : SessionRef;
  ss_auth : AuthResult;
  ss_lease : Lease;
  ss_welcome : Welcome;
  ss_pendingSnapshot : option Snapshot;
  ss_pendingDelta : option Delta;
  ss_active : Snapshot;
  ss_hasActive : bool;
  ss_candidate : Snapshot;
  ss_hasCandidate : bool;
  ss_readyGeneration : Z;
  ss_needsSnapshot : bool;
  ss_state : SessionState;
  ss_lastHeartbeat : Time;
  ss_lastHeartbeatSentAt : Time;
  ss_drain : option Drain;
  ss_drainStatus : string;
  ss_drainCode : string;
  ss_drainCompleted : bool;
  ss_disconnectReason : string
}.
#[export] Instance ServerSession_eta : Eta ServerSession := λ s,
  mkServerSession (ss_ref s) (ss_auth s) (ss_lease s) (ss_welcome s) (ss_pendingSnapshot s)
    (ss_pendingDelta s) (ss_active s) (ss_hasActive s) (ss_candidate s) (ss_hasCandidate s)
    (ss_readyGeneration s) (ss_needsSnapshot s) (ss_state s) (ss_lastHeartbeat s)
    (ss_lastHeartbeatSentAt s) (ss_drain s) (ss_drainStatus s) (ss_drainCode s)
    (ss_drainCompleted s) (ss_disconnectReason s).

(** The shared registry and one session. *)
Abbreviation world := (SessionRegistry * ServerSession)%type.

(** The methods ending in [Locked] run with the mutex held. *)

Definition matchesIdentity (s : ServerSession) (accountID tunnelID connectorID sessionID : string)
    (processGeneration : Z) : bool :=
  (accountID == ares_AccountID (ss_auth s)) && (tunnelID == ref_TunnelID (ss_ref s))
  && (connectorID == ref_ConnectorID (ss_ref s)) && (sessionID == ref_SessionID (ss_ref s))
  && (processGeneration =? ref_ProcessGeneration (ss_ref s)).

Definition restoreStateLocked (s : ServerSession) : ServerSession :=
  if ss_hasActive s && (ss_readyGeneration s =? snap_Generation (ss_active s))
     && negb (ss_needsSnapshot s)
  then s <| ss_state := SessionReady |>
  else if ss_hasActive s then s <| ss_state := SessionAwaitingSnapshot |>
  else s <| ss_state := SessionAwaitingSnapshot |>.

Definition makeAckLocked (s : ServerSession) (kind status : string) (generation : Z)
    (contentHash : string) : Ack :=
  mkAck (ares_AccountID (ss_auth s)) (ref_TunnelID (ss_ref s)) (ref_ConnectorID (ss_ref s))
    (ref_SessionID (ss_ref s)) (ref_ProcessGeneration (ss_ref s)) kind status generation
    contentHash "".

Definition closeLocked (reason : string) (w : world) : world :=
  let '(r, s) := w in
  if ss_state s == SessionClosed then w
  else ((Registry_Disconnect r (ss_ref s) reason).2,
        s <| ss_state := SessionClosed |> <| ss_disconnectReason := reason |>).

Definition ensureActiveLocked (now : Time) (w : world) : option err * world :=
  let '(r, s) := w in
  if ss_state s == SessionClosed
  then (Some (codeError CodeSessionClosed (ss_disconnectReason s) false None), w)
  else if Registry_Active r (ref_ConnectorID (ss_ref s)) != Some (ss_ref s)
  then (Some (codeError CodeStaleSession ReasonSessionReplaced false None),
        closeLocked ReasonSessionReplaced w)
  else if negb (After (ares_CredentialExpiresAt (ss_auth s)) now)
  then (Some (codeError CodeCredentialExpired ReasonCredentialExpired true None),
        closeLocked ReasonCredentialExpired w)
  else if negb (After (lease_ExpiresAt (ss_lease s)) now)
  then (Some (codeError CodeLeaseExpired ReasonLeaseExpired true None),
        closeLocked ReasonLeaseExpired w)
  else if negb (IsZero (ss_lastHeartbeat s))
     && (2 * lease_HeartbeatIntervalMS (ss_lease s) * Millisecond <? Sub now (ss_lastHeartbeat s))
  then (Some (codeError CodeHeartbeatTimeout ReasonHeartbeatTimeout true None),
        closeLocked ReasonHeartbeatTimeout w)
  else (None, w).

(** Run [k] on an active session, else report why the session is not active. *)
Definition whenActive {A} (now : Time) (w : world) (bad : err → A) (k : world → A * world)
    : A * world :=
  match ensureActiveLocked now w with
  | (Some e, w) => (bad e, w)
  | (None, w) => k w
  end.

(** ** Accepting a process *)

Section Server.
Context {codec : PayloadCodec}.

Definition Accept (config : ServerConfig) (now : Time) (newSessionID : err + string)
    (hello : Hello) (r : SessionRegistry)
    : (err + ServerSession * Welcome * Snapshot) * SessionRegistry :=
  match Hello_Validate hello now with Some e => (inl e, r) | None =>
  match NegotiateVersion (hello_MinVersion hello) (hello_MaxVersion hello) with
  | inl e => (inl e, r) | inr version =>
  match NegotiateCapabilities (hello_Capabilities hello) (cfg_Capabilities config) with
  | inl e => (inl e, r) | inr capabilities =>
  match cfg_Authenticate config (hello_Auth hello) with
  | inl e => (inl (codeError CodeAuthenticationFailed ReasonAuthentication false (Some e)), r)
  | inr auth =>
  if failed (AuthResult_Validate auth now)
     || (ares_AccountID auth != hello_AccountID hello)
     || (ares_TunnelID auth != hello_TunnelID hello)
     || (ares_ConnectorID auth != hello_ConnectorID hello)
     || (ares_HostID auth != hello_HostID hello)
     || (ares_IdentityKeyID auth != areq_IdentityKeyID (hello_Auth hello))
     || (ares_IdentityKeyThumbprint auth != areq_IdentityKeyThumbprint (hello_Auth hello))
     || negb (ares_ProcessGeneration auth =? hello_ProcessGeneration hello)
  then (inl (codeError CodeAuthenticationFailed ReasonAuthentication false
               (AuthResult_Validate auth now)), r)
  else match cfg_Snapshots config (hello_TunnelID hello) with
  | inl e => (inl (codeError CodeSnapshotRejected ReasonSnapshotRejected true (Some e)), r)
  | inr snapshot =>
  if failed (Snapshot_Validate snapshot) || (snap_TunnelID snapshot != hello_TunnelID hello)
  then (inl (codeError CodeSnapshotRejected ReasonSnapshotRejected false
               (Snapshot_Validate snapshot)), r)
  else match newSessionID with
  | inl e => (inl (codeError CodeSessionConflict ReasonAuthentication true (Some e)), r)
  | inr sessionID =>
  if badID sessionID
  then (inl (codeError CodeSessionConflict ReasonAuthentication true None), r)
  else
  let configuredExpiry := now + cfg_LeaseDuration config in
  let leaseExpiry := if Before configuredExpiry (ares_LeaseExpiresAt auth)
                     then configuredExpiry else ares_LeaseExpiresAt auth in
  let lease := mkLease sessionID leaseExpiry
                 (u32 (Z.quot (cfg_HeartbeatInterval config) Millisecond)) in
  match Lease_Validate lease now with
  | Some e => (inl (codeError CodeAuthenticationFailed ReasonAuthentication false (Some e)), r)
  | None =>
  let ref := mkSessionRef (hello_TunnelID hello) (hello_ConnectorID hello) sessionID
               (hello_ProcessGeneration hello) in
  match Attach r ref with
  | (inl e, r) => (inl e, r)
  | (inr _, r) =>
  let welcome := mkWelcome ProtocolName version sessionID capabilities lease true now in
  let snapshot := bindSnapshot snapshot (hello_AccountID hello) (hello_ConnectorID hello)
                    sessionID (hello_ProcessGeneration hello) in
  let session := mkServerSession ref auth lease welcome (Some snapshot) None zeroSnapshot false
                   zeroSnapshot false 0 false SessionAwaitingSnapshot now 0 None "" "" false "" in
  (inr (session, welcome, snapshot), r)
  end end end end end end end end.

(** ** Configuration hand-off *)

Definition HandleAck (now : Time) (ack : Ack) (w : world) : option err * world :=
  match Ack_Validate ack with
  | Some e => (Some e, w)
  | None =>
  whenActive now w Some (λ w, let '(r, s) := w in
  if negb (matchesIdentity s (ack_AccountID ack) (ack_TunnelID ack) (ack_ConnectorID ack)
             (ack_SessionID ack) (ack_ProcessGeneration ack))
  then (Some (codeError CodeIdentityMismatch ReasonAuthentication false None), w)
  else match ss_pendingSnapshot s with
  | Some pending =>
      if (ack_Kind ack != AckSnapshot) || negb (ack_Generation ack =? snap_Generation pending)
         || (ack_ContentHash ack != snap_ContentHash pending)
      then (Some (codeError CodeSnapshotRejected ReasonSnapshotRejected false None), w)
      else if (ack_Status ack == AckSnapshotRequired) || (ack_Status ack == AckRejected)
      then
        let s := restoreStateLocked (s <| ss_pendingSnapshot := None |>
                                       <| ss_needsSnapshot := true |>) in
        if ack_Status ack == AckSnapshotRequired
        then (Some (codeError CodeSnapshotRequired ReasonGenerationGap true None), (r, s))
        else (Some (codeError CodeSnapshotRejected ReasonSnapshotRejected false None), (r, s))
      else
        let s := s <| ss_candidate := cloneSnapshot pending |>
                   <| ss_hasCandidate := true |>
                   <| ss_pendingSnapshot := None |>
                   <| ss_needsSnapshot := false |> in
        if negb (ss_hasActive s && (ss_readyGeneration s =? snap_Generation (ss_active s)))
        then (None, (r, s <| ss_state := SessionAwaitingReady |>))
        else (None, (r, s))
  | None =>
  match ss_pendingDelta s with
  | Some pending =>
      if (ack_Kind ack != AckDelta) || negb (ack_Generation ack =? delta_Generation pending)
         || (ack_ContentHash ack != delta_ContentHash pending)
      then (Some (codeError CodeDeltaRejected ReasonGenerationGap false None), w)
      else
        let s := s <| ss_pendingDelta := None |> in
        if ack_Status ack == AckSnapshotRequired
        then (Some (codeError CodeSnapshotRequired ReasonGenerationGap true None),
              (r, restoreStateLocked (s <| ss_needsSnapshot := true |>)))
        else if ack_Status ack == AckRejected
        then (Some (codeError CodeDeltaRejected ReasonSnapshotRejected false None),
              (r, restoreStateLocked (s <| ss_needsSnapshot := true |>)))
        else if ss_hasActive s
                && (negb (delta_PreviousGeneration pending =? snap_Generation (ss_active s))
                    || (delta_PreviousContentHash pending != snap_ContentHash (ss_active s)))
        then (Some (codeError CodeGenerationGap ReasonGenerationGap true None), (r, s))
        else
          let s := s <| ss_candidate :=
                        mkSnapshot (ares_AccountID (ss_auth s)) (delta_TunnelID pending)
                          (ref_ConnectorID (ss_ref s)) (ref_SessionID (ss_ref s))
                          (ref_ProcessGeneration (ss_ref s)) (delta_Generation pending)
                          (delta_ContentHash pending) (delta_Payload pending) |>
                     <| ss_hasCandidate := true |> in
          if negb (ss_hasActive s && (ss_readyGeneration s =? snap_Generation (ss_active s)))
          then (None, (r, s <| ss_state := SessionAwaitingReady |>))
          else (None, (r, s))
  | None =>
      if ack_Status ack == AckDuplicate
      then
        if negb (ss_hasCandidate s) && negb (ss_hasActive s)
        then (Some (codeError CodeStaleGeneration ReasonStaleGeneration false None), w)
        else
          let current := if ss_hasCandidate s then ss_candidate s else ss_active s in
          if negb (ack_Generation ack =? snap_Generation current)
             || (ack_ContentHash ack != snap_ContentHash current)
          then (Some (codeError CodeStaleGeneration ReasonStaleGeneration false None), w)
          else (None, w)
      else (Some (codeError CodeInvalidInput ReasonMalformed false None), w)
  end end)
  end.

Definition CanPersistNegativeAck (s : ServerSession) (ack : Ack) : bool :=
  if (ack_Status ack != AckRejected) && (ack_Status ack != AckSnapshotRequired) then false
  else if failed (Ack_Validate ack) then false
  else if negb (matchesIdentity s (ack_AccountID ack) (ack_TunnelID ack) (ack_ConnectorID ack)
                  (ack_SessionID ack) (ack_ProcessGeneration ack)) then false
  else match ss_pendingSnapshot s with
  | Some pending => (ack_Kind ack == AckSnapshot) && (ack_Generation ack =? snap_Generation pending)
                    && (ack_ContentHash ack == snap_ContentHash pending)
  | None =>
  match ss_pendingDelta s with
  | Some pending => (ack_Kind ack == AckDelta) && (ack_Generation ack =? delta_Generation pending)
                    && (ack_ContentHash ack == delta_ContentHash pending)
  | None => false
  end end.

Definition HandleReadiness (now : Time) (readiness : Readiness) (w : world) : (err + Ack) * world :=
  match Readiness_Validate readiness with
  | Some e => (inl e, w)
  | None =>
  whenActive now w inl (λ w, let '(r, s) := w in
  if negb (matchesIdentity s (ready_AccountID readiness) (ready_TunnelID readiness)
             (ready_ConnectorID readiness) (ready_SessionID readiness)
             (ready_ProcessGeneration readiness))
  then (inl (codeError CodeIdentityMismatch ReasonAuthentication false None), w)
  else if (if ss_hasCandidate s
           then negb (ready_Generation readiness =? snap_Generation (ss_candidate s))
                || (ready_ContentHash readiness != snap_ContentHash (ss_candidate s))
           else negb (ss_hasActive s)
                || negb (ready_Generation readiness =? snap_Generation (ss_active s))
                || (ready_ContentHash readiness != snap_ContentHash (ss_active s)))
  then (inl (codeError CodeStaleGeneration ReasonStaleGeneration false None), w)
  else if negb (ready_EdgeReady readiness) || negb (ready_RouteReady readiness)
          || negb (ready_OriginReady readiness)
  then (inl (codeError CodeNotReady ReasonSnapshotRejected true None), w)
  else
    let s := if ss_hasCandidate s
             then s <| ss_active := cloneSnapshot (ss_candidate s) |>
                    <| ss_hasActive := true |>
                    <| ss_candidate := zeroSnapshot |>
                    <| ss_hasCandidate := false |>
             else s in
    let s := s <| ss_needsSnapshot := false |>
               <| ss_readyGeneration := ready_Generation readiness |>
               <| ss_state := SessionReady |> in
    (inr (makeAckLocked s AckReady AckApplied (ready_Generation readiness)
            (ready_ContentHash readiness)), (r, s)))
  end.

Definition OfferSnapshot (now : Time) (snapshot : Snapshot) (w : world) : option err * world :=
  match Snapshot_Validate snapshot with
  | Some e => (Some (codeError CodeSnapshotRejected ReasonSnapshotRejected false (Some e)), w)
  | None =>
  whenActive now w Some (λ w, let '(r, s) := w in
  let sameHash h := if snap_ContentHash snapshot != h
    then (Some (codeError CodeContentHashMismatch ReasonSnapshotRejected false None), w)
    else (None, w) in
  if snap_TunnelID snapshot != ref_TunnelID (ss_ref s)
  then (Some (codeError CodeIdentityMismatch ReasonAuthentication false None), w)
  else if (snap_AccountID snapshot != "") && (snap_AccountID snapshot != ares_AccountID (ss_auth s))
     || (snap_ConnectorID snapshot != "")
        && (snap_ConnectorID snapshot != ref_ConnectorID (ss_ref s))
     || (snap_SessionID snapshot != "") && (snap_SessionID snapshot != ref_SessionID (ss_ref s))
     || negb (snap_ProcessGeneration snapshot =? 0)
        && negb (snap_ProcessGeneration snapshot =? ref_ProcessGeneration (ss_ref s))
  then (Some (codeError CodeIdentityMismatch ReasonAuthentication false None), w)
  else if ss_hasActive s && (snap_Generation snapshot <? snap_Generation (ss_active s))
  then (Some (codeError CodeStaleGeneration ReasonStaleGeneration false None), w)
  else if ss_hasCandidate s && (snap_Generation snapshot =? snap_Generation (ss_candidate s))
  then sameHash (snap_ContentHash (ss_candidate s))
  else if ss_hasActive s && (snap_Generation snapshot =? snap_Generation (ss_active s))
  then sameHash (snap_ContentHash (ss_active s))
  else if match ss_pendingSnapshot s with
          | Some p => snap_Generation snapshot =? snap_Generation p | None => false end
  then sameHash (match ss_pendingSnapshot s with Some p => snap_ContentHash p | None => "" end)
  else
    let bound := bindSnapshot snapshot (ares_AccountID (ss_auth s)) (ref_ConnectorID (ss_ref s))
                   (ref_SessionID (ss_ref s)) (ref_ProcessGeneration (ss_ref s)) in
    let s := s <| ss_pendingDelta := None |> <| ss_pendingSnapshot := Some bound |> in
    (None, (r, if negb (ss_hasActive s) then s <| ss_state := SessionAwaitingSnapshot |> else s)))
  end.

Definition OfferDelta (now : Time) (delta : Delta) (w : world) : option err * world :=
  match Delta_Validate delta with
  | Some e => (Some (codeError CodeDeltaRejected ReasonGenerationGap false (Some e)), w)
  | None =>
  whenActive now w Some (λ w, let '(r, s) := w in
  if negb (ss_hasActive s) || negb (ss_readyGeneration s =? snap_Generation (ss_active s))
     || ss_needsSnapshot s
  then (Some (codeError CodeNotReady ReasonSnapshotRejected true None), w)
  else if nonnil (ss_pendingSnapshot s) || nonnil (ss_pendingDelta s)
          || ss_hasCandidate s
  then (Some (codeError CodeGenerationGap ReasonGenerationGap true None), w)
  else if (delta_TunnelID delta != ref_TunnelID (ss_ref s))
     || (delta_AccountID delta != "") && (delta_AccountID delta != ares_AccountID (ss_auth s))
     || (delta_ConnectorID delta != "") && (delta_ConnectorID delta != ref_ConnectorID (ss_ref s))
     || (delta_SessionID delta != "") && (delta_SessionID delta != ref_SessionID (ss_ref s))
     || negb (delta_ProcessGeneration delta =? 0)
        && negb (delta_ProcessGeneration delta =? ref_ProcessGeneration (ss_ref s))
     || negb (delta_PreviousGeneration delta =? snap_Generation (ss_active s))
     || (delta_PreviousContentHash delta != snap_ContentHash (ss_active s))
  then (Some (codeError CodeGenerationGap ReasonGenerationGap true None), w)
  else
    let bound := delta <| delta_AccountID := ares_AccountID (ss_auth s) |>
                       <| delta_ConnectorID := ref_ConnectorID (ss_ref s) |>
                       <| delta_SessionID := ref_SessionID (ss_ref s) |>
                       <| delta_ProcessGeneration := ref_ProcessGeneration (ss_ref s) |> in
    (None, (r, s <| ss_pendingDelta := Some bound |>)))
  end.

(** ** Liveness *)

Definition HandleHeartbeat (config : ServerConfig) (now : Time) (heartbeat : Heartbeat) (w : world)
    : (err + HeartbeatAck) * world :=
  match Heartbeat_Validate heartbeat with
  | Some e => (inl e, w)
  | None =>
  whenActive now w inl (λ w, let '(r, s) := w in
  if negb (matchesIdentity s (hb_AccountID heartbeat) (hb_TunnelID heartbeat)
             (hb_ConnectorID heartbeat) (hb_SessionID heartbeat) (hb_ProcessGeneration heartbeat))
  then (inl (codeError CodeIdentityMismatch ReasonAuthentication false None), w)
  else if After (hb_SentAt heartbeat) (now + MaxClockSkew)
  then (inl (codeError CodeInvalidInput ReasonMalformed false None), w)
  else if Before (hb_SentAt heartbeat) (now - MaxClockSkew)
  then (inl (codeError CodeHeartbeatTimeout ReasonHeartbeatTimeout true None), w)
  else if negb (IsZero (ss_lastHeartbeatSentAt s))
          && negb (After (hb_SentAt heartbeat) (ss_lastHeartbeatSentAt s))
  then (inl (codeError CodeStaleSession ReasonStaleGeneration false None), w)
  else
  let expected := if ss_hasActive s then Some (ss_active s)
                  else if ss_hasCandidate s then Some (ss_candidate s)
                  else ss_pendingSnapshot s in
  match expected with
  | None => (inl (codeError CodeSnapshotRequired ReasonGenerationGap true None), w)
  | Some expected =>
      if negb (hb_LastAppliedGeneration heartbeat =? snap_Generation expected)
         || (hb_LastAppliedHash heartbeat != snap_ContentHash expected)
      then
        (inl (codeError CodeSnapshotRequired ReasonGenerationGap true None),
         (r, if ss_hasActive s
             then s <| ss_needsSnapshot := true |> <| ss_readyGeneration := 0 |>
                    <| ss_state := SessionAwaitingSnapshot |>
             else s))
      else
        let configured := now + cfg_LeaseDuration config in
        let leaseExpiry := if Before (ares_CredentialExpiresAt (ss_auth s)) configured
                           then ares_CredentialExpiresAt (ss_auth s) else configured in
        let s := s <| ss_lastHeartbeatSentAt := hb_SentAt heartbeat |>
                   <| ss_lastHeartbeat := now |>
                   <| ss_lease := ss_lease s <| lease_ExpiresAt := leaseExpiry |> |> in
        (inr (mkHeartbeatAck (ares_AccountID (ss_auth s)) (ref_TunnelID (ss_ref s))
                (ref_ConnectorID (ss_ref s)) (ref_SessionID (ss_ref s))
                (ref_ProcessGeneration (ss_ref s)) leaseExpiry now), (r, s))
  end)
  end.

Definition CheckLease (now : Time) (w : world) : option err * world := ensureActiveLocked now w.

(** ** Draining *)

(** [now1] and [now2] are the two clock readings; [ctxErr] is [ctx.Err()]. *)
Definition BeginDrain (now1 now2 : Time) (ctxErr : option err) (drainID : string) (deadline : Time)
    (forceAfterDeadline : bool) (w : world) : (err + Drain) * world :=
  match ctxErr with
  | Some e => (inl (codeError CodeCanceled ReasonCanceled true (Some e)), w)
  | None =>
  whenActive now1 w inl (λ w, let '(r, s) := w in
  if negb (hasCapability (welcome_Capabilities (ss_welcome s)) CapabilityDrain)
  then (inl (codeError CodeCapabilityMissing ReasonCapabilityMissing false None), w)
  else match ss_drain s with
  | Some d => if drain_DrainID d == drainID then (inr d, w)
              else (inl (codeError CodeSessionConflict ReasonStaleGeneration true None), w)
  | None =>
      if negb (ss_hasActive s) || ss_needsSnapshot s
         || negb (ss_readyGeneration s =? snap_Generation (ss_active s))
         || (ss_state s != SessionReady)
      then (inl (codeError CodeNotReady ReasonSnapshotRejected true None), w)
      else
        let request := mkDrain (ares_AccountID (ss_auth s)) (ref_TunnelID (ss_ref s))
                         (ref_ConnectorID (ss_ref s)) (ref_SessionID (ss_ref s))
                         (ref_ProcessGeneration (ss_ref s)) drainID
                         (snap_Generation (ss_active s)) (snap_ContentHash (ss_active s))
                         deadline true forceAfterDeadline in
        match Drain_Validate request now2 with
        | Some e => (inl e, w)
        | None => (inr request,
                   (r, s <| ss_drain := Some request |> <| ss_drainStatus := DrainAccepted |>
                         <| ss_drainCode := "" |> <| ss_drainCompleted := false |>
                         <| ss_state := SessionDraining |>))
        end
  end)
  end.

Definition HandleDrainAck (now : Time) (ctxErr : option err) (ack : DrainAck) (w : world)
    : option err * world :=
  match ctxErr with
  | Some e => (Some (codeError CodeCanceled ReasonCanceled true (Some e)), w)
  | None =>
  match DrainAck_Validate ack with
  | Some e => (Some e, w)
  | None =>
  whenActive now w Some (λ w, let '(r, s) := w in
  if negb (matchesIdentity s (dack_AccountID ack) (dack_TunnelID ack) (dack_ConnectorID ack)
             (dack_SessionID ack) (dack_ProcessGeneration ack))
  then (Some (codeError CodeIdentityMismatch ReasonAuthentication false None), w)
  else match ss_drain s with
  | None => (Some (codeError CodeStaleSession ReasonStaleGeneration false None), w)
  | Some d =>
      if dack_DrainID ack != drain_DrainID d
      then (Some (codeError CodeStaleSession ReasonStaleGeneration false None), w)
      else if negb (dack_Generation ack =? drain_Generation d)
              || (dack_ContentHash ack != drain_ContentHash d)
      then (Some (codeError CodeContentHashMismatch ReasonSnapshotRejected false None), w)
      else if ss_drainCompleted s
      then if (dack_Status ack == ss_drainStatus s) && (dack_Code ack == ss_drainCode s)
           then (None, w)
           else (Some (codeError CodeStaleGeneration ReasonStaleGeneration false None), w)
      else
        let s := s <| ss_drainStatus := dack_Status ack |> <| ss_drainCode := dack_Code ack |> in
        if (dack_Status ack == DrainAccepted) || (dack_Status ack == DrainProgress)
        then (None, (r, s))
        else if (dack_Status ack == DrainCompleted) || (dack_Status ack == DrainForced)
        then (None, (r, s <| ss_drainCompleted := true |>))
        else if dack_Status ack == DrainRejected
        then (Some (codeError CodeDrainRejected ReasonSnapshotRejected false None),
              (r, restoreStateLocked (s <| ss_drainCompleted := true |>)))
        else (Some ErrInvalidInput, (r, s))
  end)
  end end.

Definition CanPersistNegativeDrainAck (s : ServerSession) (ack : DrainAck) : bool :=
  if (dack_Status ack != DrainRejected) || failed (DrainAck_Validate ack) then false
  else match ss_drain s with
  | None => false
  | Some d =>
      matchesIdentity s (dack_AccountID ack) (dack_TunnelID ack) (dack_ConnectorID ack)
        (dack_SessionID ack) (dack_ProcessGeneration ack)
      && (dack_DrainID ack == drain_DrainID d) && (dack_Generation ack =? drain_Generation d)
      && (dack_ContentHash ack == drain_ContentHash d)
  end.

(** [ServerSession.Drain]. *)
Definition Server_Drain (s : ServerSession) : Drain * string * bool :=
  match ss_drain s with
  | None => (zeroDrain, "", false)
  | Some d => (d, ss_drainStatus s, ss_drainCompleted s)
  end.

(** ** Credential renewal

    The first locked section ([Renew_begin]) checks the request and captures the
    authentication and reference it was checked against; the mutex is then
    released for [Authenticator.Renew]; the second ([Renew_finish]) installs the
    result if nothing changed meanwhile. *)

Definition Renew_begin (now : Time) (request : RenewalRequest) (w : world)
    : (err + AuthResult * SessionRef) * world :=
  match RenewalRequest_ValidateAt request now with
  | Some e => (inl e, w)
  | None =>
  whenActive now w inl (λ w, let '(r, s) := w in
  let expected := ss_auth s in
  let ref := ss_ref s in
  if (rreq_SessionID request != ref_SessionID ref)
     || (rreq_AccountID request != ares_AccountID expected)
     || (rreq_TunnelID request != ref_TunnelID ref)
     || (rreq_ConnectorID request != ref_ConnectorID ref)
     || (rreq_HostID request != ares_HostID expected)
     || (rreq_IdentityKeyID request != ares_IdentityKeyID expected)
     || (rreq_IdentityKeyThumbprint request != ares_IdentityKeyThumbprint expected)
     || negb (rreq_ProcessGeneration request =? ref_ProcessGeneration ref)
     || negb (rreq_CredentialGeneration request =? ares_CredentialGeneration expected)
  then (inl (codeError CodeIdentityMismatch ReasonAuthentication false None), w)
  else (inr (expected, ref), w))
  end.

(** The checks on the authenticator's answer, made without the mutex. *)
Definition Renew_check (now : Time) (expected : AuthResult) (ref : SessionRef)
    (answer : err + AuthResult) : err + AuthResult :=
  match answer with
  | inl e => inl (codeError CodeCredentialExpired ReasonCredentialExpired true (Some e))
  | inr result =>
      if failed (AuthResult_Validate result now)
         || (ares_AccountID result != ares_AccountID expected)
         || (ares_TunnelID result != ref_TunnelID ref)
         || (ares_ConnectorID result != ref_ConnectorID ref)
         || (ares_SessionID result != "") && (ares_SessionID result != ref_SessionID ref)
         || (ares_HostID result != ares_HostID expected)
         || (ares_IdentityKeyID result != ares_IdentityKeyID expected)
         || (ares_IdentityKeyThumbprint result != ares_IdentityKeyThumbprint expected)
         || negb (ares_ProcessGeneration result =? ref_ProcessGeneration ref)
         || (ares_CredentialGeneration result <? ares_CredentialGeneration expected)
      then inl (codeError CodeAuthenticationFailed ReasonAuthentication false
                  (Some (default (sentinel CodeIdentityMismatch) (AuthResult_Validate result now))))
      else inr result
  end.

Definition Renew_finish (config : ServerConfig) (now now2 : Time) (expected : AuthResult)
    (ref : SessionRef) (result : AuthResult) (w : world) : (err + AuthResult) * world :=
  whenActive now2 w inl (λ w, let '(r, s) := w in
  if (ss_auth s != expected) || (ss_ref s != ref)
  then (inl (codeError CodeSessionConflict ReasonStaleGeneration true None), w)
  else
    let result := result <| ares_SessionID := ref_SessionID ref |> in
    let configuredExpiry := now + cfg_LeaseDuration config in
    let expiry := if Before configuredExpiry (ares_LeaseExpiresAt result)
                  then configuredExpiry else ares_LeaseExpiresAt result in
    (inr result, (r, s <| ss_auth := result |>
                       <| ss_lease := ss_lease s <| lease_ExpiresAt := expiry |> |>
                       <| ss_lastHeartbeat := now |>))).

(** The whole method when no other method runs in between. *)
Definition Renew (config : ServerConfig) (now now2 : Time) (request : RenewalRequest) (w : world)
    : (err + AuthResult) * world :=
  match Renew_begin now request w with
  | (inl e, w) => (inl e, w)
  | (inr (expected, ref), w) =>
      match Renew_check now expected ref (cfg_Renew config request) with
      | inl e => (inl e, w)
      | inr result => Renew_finish config now now2 expected ref result w
      end
  end.

(** ** Closing and observing *)

(** [ServerSession.Close]. *)
Definition Server_Close (reason : string) (w : world) : option err * world :=
  if negb (validDisconnectReason reason) then (Some ErrInvalidInput, w)
  else if ss_state w.2 == SessionClosed then (None, w)
  else (None, closeLocked reason w).

(** [ServerSession.Disconnect]. *)
Definition Server_Disconnect (s : ServerSession) : Disconnect :=
  let reason := if ss_disconnectReason s == "" then ReasonProtocolClosed
                else ss_disconnectReason s in
  mkDisconnect (ares_AccountID (ss_auth s)) (ref_TunnelID (ss_ref s)) (ref_ConnectorID (ss_ref s))
    (ref_SessionID (ss_ref s)) (ref_ProcessGeneration (ss_ref s)) reason
    ((reason == ReasonLeaseExpired) || (reason == ReasonHeartbeatTimeout)
     || (reason == ReasonCredentialExpired) || (reason == ReasonSessionReplaced)) "".

(** [ServerSession.Current]: the active snapshot, whether it is ready for
    traffic, and the ready generation. *)
Definition Current (s : ServerSession) : Snapshot * bool * Z :=
  if negb (ss_hasActive s) then (zeroSnapshot, false, 0)
  else (ss_active s,
        (ss_state s == SessionReady) && negb (ss_needsSnapshot s)
        && (ss_readyGeneration s =? snap_Generation (ss_active s)),
        ss_readyGeneration s).
End Server.
