(* ===== verification/ServerProofs.v ===== *)
(** * Server sessions: invariants and protocol guarantees

    The methods of [ServerSession] as a step relation in which other sessions
    act on the shared registry between any two steps; the session invariant;
    what readiness, leases, renewal, draining and closing guarantee. *)
From S2P Require Import Prelude Go Protocol Messages Registry Server.

(** ** The active check *)

(** What [ensureActiveLocked] has established when it returns [nil]. *)
Definition live (now : Time) (w : world) : Prop :=
  ss_state w.2 ≠ SessionClosed
  ∧ Registry_Active w.1 (ref_ConnectorID (ss_ref w.2)) = Some (ss_ref w.2)
  ∧ now < ares_CredentialExpiresAt (ss_auth w.2)
  ∧ now < lease_ExpiresAt (ss_lease w.2)
  ∧ (ss_lastHeartbeat w.2 ≠ 0 →
     Sub now (ss_lastHeartbeat w.2) ≤ 2 * lease_HeartbeatIntervalMS (ss_lease w.2) * Millisecond).

Inductive active_outcome (now : Time) (w : world) : option err * world → Prop :=
  | outcome_live : live now w → active_outcome now w (None, w)
  | outcome_closed e : ss_state w.2 = SessionClosed → active_outcome now w (Some e, w)
  | outcome_closing e reason :
      ss_state w.2 ≠ SessionClosed → validDisconnectReason reason = true →
      active_outcome now w (Some e, closeLocked reason w).

Lemma ensureActiveLocked_outcome now w : active_outcome now w (ensureActiveLocked now w).
Proof.
  destruct w as [r s]. unfold ensureActiveLocked, After.
  repeat match goal with
  | |- context [if ?b then _ else _] => destruct b eqn:?; bools_or
  end; try (by constructor).
  apply outcome_live. split_and!; try done. simpl.
  match goal with H : _ ∨ _ |- _ => destruct H end; bools_or; [|lia].
  unfold IsZero in *. bools. lia.
Qed.

Lemma ensureActiveLocked_live now w : live now w → ensureActiveLocked now w = (None, w).
Proof.
  destruct w as [r s]. intros (H1 & H2 & H3 & H4 & H5). cbn in *.
  unfold ensureActiveLocked, After, IsZero.
  rewrite (bool_decide_false _ H1), (bool_decide_true _ H2).
  rewrite (proj2 (Z.ltb_lt _ _) H3), (proj2 (Z.ltb_lt _ _) H4). cbn.
  destruct (Z.eqb_spec (ss_lastHeartbeat s) 0); [done|]. cbn.
  rewrite (proj2 (Z.ltb_ge _ _)); auto.
Qed.

Lemma whenActive_live {A} now (w : world) (bad : err → A) k :
  live now w → whenActive now w bad k = k w.
Proof. intros H. unfold whenActive. by rewrite ensureActiveLocked_live. Qed.

(** A handler that starts with the active check either finds the session live
    and continues, or fails leaving it closed. *)
Lemma whenActive_elim {A} now (w : world) (bad : err → A) k (P : A * world → Prop) :
  (live now w → P (k w)) →
  (∀ e, ss_state w.2 = SessionClosed → P (bad e, w)) →
  (∀ e reason, ss_state w.2 ≠ SessionClosed → validDisconnectReason reason = true →
     P (bad e, closeLocked reason w)) →
  P (whenActive now w bad k).
Proof.
  intros Hk Hc Hr. unfold whenActive.
  destruct (ensureActiveLocked_outcome now w); auto.
Qed.

Lemma closeLocked_state reason w : ss_state (closeLocked reason w).2 = SessionClosed.
Proof. destruct w as [r s]. unfold closeLocked. case_bool_decide; done. Qed.

(** Run the active check of the handler in the goal; the branches that close
    the session are discharged when its state is what matters. *)
Ltac active_check :=
  match goal with
  | |- context [whenActive ?n ?w ?b ?k] => pattern (whenActive n w b k); apply whenActive_elim
  end;
  [ intros ?Hlive | intros ? ?; cbn; try (intros; congruence)
  | intros ? ? ? ?; cbn; rewrite ?closeLocked_state; try (intros; congruence) ].

(** ** The step relation *)

Section Server.
Context {codec : PayloadCodec}.

(** A method call with its arguments, clock readings and the answers of the
    code it calls.  [CallRenewFinish] is the second locked section of a renewal
    whose first section captured [expected] and [ref]. *)
Inductive server_call :=
  | CallAck (now : Time) (ack : Ack)
  | CallReadiness (now : Time) (rd : Readiness)
  | CallOfferSnapshot (now : Time) (sn : Snapshot)
  | CallOfferDelta (now : Time) (d : Delta)
  | CallHeartbeat (now : Time) (hb : Heartbeat)
  | CallCheckLease (now : Time)
  | CallBeginDrain (now1 now2 : Time) (ctxErr : option err) (id : string) (deadline : Time)
      (force : bool)
  | CallDrainAck (now : Time) (ctxErr : option err) (ack : DrainAck)
  | CallRenewBegin (now : Time) (req : RenewalRequest)
  | CallRenewFinish (now now2 : Time) (expected : AuthResult) (ref : SessionRef)
      (answer : err + AuthResult)
  | CallClose (reason : string).

Definition exec (config : ServerConfig) (c : server_call) (w : world) : world :=
  match c with
  | CallAck now ack => (HandleAck now ack w).2
  | CallReadiness now rd => (HandleReadiness now rd w).2
  | CallOfferSnapshot now sn => (OfferSnapshot now sn w).2
  | CallOfferDelta now d => (OfferDelta now d w).2
  | CallHeartbeat now hb => (HandleHeartbeat config now hb w).2
  | CallCheckLease now => (CheckLease now w).2
  | CallBeginDrain now1 now2 c id dl f => (BeginDrain now1 now2 c id dl f w).2
  | CallDrainAck now c ack => (HandleDrainAck now c ack w).2
  | CallRenewBegin now req => (Renew_begin now req w).2
  | CallRenewFinish now now2 expected ref answer =>
      match Renew_check now expected ref answer with
      | inl _ => w
      | inr result => (Renew_finish config now now2 expected ref result w).2
      end
  | CallClose reason => (Server_Close reason w).2
  end.

(** A method call, or a step of the other sessions that share the registry. *)
Inductive server_step (config : ServerConfig) : world → world → Prop :=
  | step_own c w : server_step config w (exec config c w)
  | step_others r r' s : registry_step r r' → server_step config (r, s) (r', s).

(** ** The session invariant *)

(** A configuration carries the identity of the session that holds it. *)
Definition bound_snapshot (s : ServerSession) (p : Snapshot) : Prop :=
  snap_AccountID p = ares_AccountID (ss_auth s) ∧ snap_TunnelID p = ref_TunnelID (ss_ref s)
  ∧ snap_ConnectorID p = ref_ConnectorID (ss_ref s) ∧ snap_SessionID p = ref_SessionID (ss_ref s)
  ∧ snap_ProcessGeneration p = ref_ProcessGeneration (ss_ref s).

Definition bound_delta (s : ServerSession) (d : Delta) : Prop :=
  delta_AccountID d = ares_AccountID (ss_auth s) ∧ delta_TunnelID d = ref_TunnelID (ss_ref s)
  ∧ delta_ConnectorID d = ref_ConnectorID (ss_ref s) ∧ delta_SessionID d = ref_SessionID (ss_ref s)
  ∧ delta_ProcessGeneration d = ref_ProcessGeneration (ss_ref s).

Record server_inv (s : ServerSession) : Prop := {
  inv_active : ss_hasActive s = true → bound_snapshot s (ss_active s);
  inv_candidate : ss_hasCandidate s = true → bound_snapshot s (ss_candidate s);
  inv_pending : ∀ p, ss_pendingSnapshot s = Some p → bound_snapshot s p;
  inv_delta : ∀ d, ss_pendingDelta s = Some d → bound_delta s d;
  inv_exclusive : ss_pendingSnapshot s = None ∨ ss_pendingDelta s = None;
  inv_ready : ss_state s = SessionReady →
    ss_hasActive s = true ∧ ss_readyGeneration s = snap_Generation (ss_active s)
    ∧ ss_needsSnapshot s = false;
  inv_draining : ss_state s = SessionDraining → ss_hasActive s = true ∧ is_Some (ss_drain s);
  inv_not_new : ss_state s ≠ SessionNew;
  inv_lease : lease_ExpiresAt (ss_lease s) ≤ ares_CredentialExpiresAt (ss_auth s);
  inv_tunnel : ares_TunnelID (ss_auth s) = ref_TunnelID (ss_ref s);
  inv_generation : ares_ProcessGeneration (ss_auth s) = ref_ProcessGeneration (ss_ref s)
}.

Lemma close_inv reason w : server_inv w.2 → server_inv (closeLocked reason w).2.
Proof.
  destruct w as [r s]. intros [].
  unfold closeLocked. case_bool_decide; [by constructor|].
  constructor; unfold bound_snapshot, bound_delta in *; cbn in *; auto; done.
Qed.

(** Proof plan of every preservation lemma: run the active check, unfold the
    body, split its branches and check the invariant field by field. *)
Ltac preserve :=
  apply whenActive_elim; [intros Hlive | intros e ?; done | intros e reason ? ?; by apply close_inv].

Ltac fields :=
  constructor; unfold bound_snapshot, bound_delta in *; cbn in *; intros; simplify_eq;
  try done; eauto; try congruence; try lia; try naive_solver.

Lemma HandleAck_inv now ack w : server_inv w.2 → server_inv (HandleAck now ack w).2.2.
Proof.
  intros Hi. unfold HandleAck. destruct (Ack_Validate ack); [done|].
  preserve. destruct w as [r s], Hi; cbn in *.
  unfold restoreStateLocked, cloneSnapshot. cases; bools; fields.
Qed.

Lemma HandleReadiness_inv now rd w : server_inv w.2 → server_inv (HandleReadiness now rd w).2.2.
Proof.
  intros Hi. unfold HandleReadiness. destruct (Readiness_Validate rd); [done|].
  preserve. destruct w as [r s], Hi; cbn in *.
  unfold cloneSnapshot. cases; bools; fields.
Qed.

Lemma OfferSnapshot_inv now sn w : server_inv w.2 → server_inv (OfferSnapshot now sn w).2.2.
Proof.
  intros Hi. unfold OfferSnapshot. destruct (Snapshot_Validate sn); [done|].
  preserve. destruct w as [r s], Hi; cbn in *.
  unfold bindSnapshot. cases; bools; fields.
Qed.

Lemma OfferDelta_inv now d w : server_inv w.2 → server_inv (OfferDelta now d w).2.2.
Proof.
  intros Hi. unfold OfferDelta. destruct (Delta_Validate d); [done|].
  preserve. destruct w as [r s], Hi; cbn in *.
  unfold nonnil. cases; bools; fields.
Qed.

Lemma HandleHeartbeat_inv config now hb w :
  server_inv w.2 → server_inv (HandleHeartbeat config now hb w).2.2.
Proof.
  intros Hi. unfold HandleHeartbeat. destruct (Heartbeat_Validate hb); [done|].
  preserve. destruct w as [r s], Hi; cbn in *.
  unfold Before. cases; bools; fields.
Qed.

Lemma CheckLease_inv now w : server_inv w.2 → server_inv (CheckLease now w).2.2.
Proof.
  intros Hi. unfold CheckLease.
  destruct (ensureActiveLocked_outcome now w); try done. by apply close_inv.
Qed.

Lemma BeginDrain_inv now1 now2 c id dl f w :
  server_inv w.2 → server_inv (BeginDrain now1 now2 c id dl f w).2.2.
Proof.
  intros Hi. unfold BeginDrain. destruct c; [done|].
  preserve. destruct w as [r s], Hi; cbn in *.
  cases; bools; fields.
Qed.

Lemma HandleDrainAck_inv now c ack w :
  server_inv w.2 → server_inv (HandleDrainAck now c ack w).2.2.
Proof.
  intros Hi. unfold HandleDrainAck. destruct c; [done|]. destruct (DrainAck_Validate ack); [done|].
  preserve. destruct w as [r s], Hi; cbn in *.
  unfold restoreStateLocked. cases; bools; fields.
Qed.

Lemma Renew_begin_inv now req w : server_inv w.2 → server_inv (Renew_begin now req w).2.2.
Proof.
  intros Hi. unfold Renew_begin. destruct (RenewalRequest_ValidateAt req now); [done|].
  preserve. destruct w as [r s]. by cases.
Qed.

(** What a checked renewal answer guarantees. *)
Lemma Renew_check_inr now expected ref answer result :
  Renew_check now expected ref answer = inr result →
  answer = inr result
  ∧ ares_AccountID result = ares_AccountID expected ∧ ares_TunnelID result = ref_TunnelID ref
  ∧ ares_ConnectorID result = ref_ConnectorID ref
  ∧ ares_HostID result = ares_HostID expected
  ∧ ares_ProcessGeneration result = ref_ProcessGeneration ref
  ∧ ares_CredentialGeneration expected ≤ ares_CredentialGeneration result
  ∧ ares_LeaseExpiresAt result ≤ ares_CredentialExpiresAt result.
Proof.
  unfold Renew_check, AuthResult_Validate, After. intros H.
  destruct answer as [e|res]; [done|].
  cases; bools; split_and!; try done; cases; bools; try done; lia.
Qed.

Lemma Renew_finish_inv config now now2 expected ref answer result w :
  Renew_check now expected ref answer = inr result →
  server_inv w.2 → server_inv (Renew_finish config now now2 expected ref result w).2.2.
Proof.
  intros (_ & Hacc & Htun & _ & _ & Hgen & _ & Hle)%Renew_check_inr Hi.
  unfold Renew_finish. preserve. destruct w as [r s], Hi; cbn in *.
  unfold Before. cases; bools; try by constructor.
  all: subst; constructor; unfold bound_snapshot, bound_delta in *; cbn in *;
    rewrite ?Hacc; eauto; lia.
Qed.

Lemma Close_inv reason w : server_inv w.2 → server_inv (Server_Close reason w).2.2.
Proof. intros Hi. unfold Server_Close. cases; auto using close_inv. Qed.

Lemma exec_inv config c w : server_inv w.2 → server_inv (exec config c w).2.
Proof.
  destruct c; cbn; eauto using HandleAck_inv, HandleReadiness_inv, OfferSnapshot_inv, OfferDelta_inv,
    HandleHeartbeat_inv, CheckLease_inv, BeginDrain_inv, HandleDrainAck_inv, Renew_begin_inv,
    Close_inv.
  destruct (Renew_check _ _ _ _) eqn:E; [done|]. by eapply Renew_finish_inv.
Qed.

Lemma server_step_inv config w w' : server_step config w w' → server_inv w.2 → server_inv w'.2.
Proof. destruct 1; eauto using exec_inv. Qed.

(** An accepted process starts in the invariant, waiting for its snapshot. *)
Lemma Accept_inv config now newID hello r s welcome sn r' :
  Accept config now newID hello r = (inr (s, welcome, sn), r') →
  server_inv s ∧ ss_state s = SessionAwaitingSnapshot ∧ ss_pendingSnapshot s = Some sn
  ∧ r' !! ref_ConnectorID (ss_ref s) = Some (ss_ref s).
Proof.
  unfold Accept. intros H. cases; bools.
  all: match goal with H : Attach _ _ = _ |- _ => apply Attach_inr in H as (-> & _ & _) end.
  all: split_and!; try done; [|apply lookup_insert_eq].
  all: unfold AuthResult_Validate, After, failed, Before in *; cases; bools; fields.
Qed.

(** C3. A session accepted by the server keeps its invariant through every
    sequence of its own method calls and of other sessions' registry operations:
    each configuration it holds carries its own identity, [ready] means that the
    active generation is the ready one and no snapshot is owed, a snapshot and a
    delta are never outstanding together, and the lease never outlives the
    credential. *)
Theorem server_session_invariant config now newID hello r s welcome sn r' w :
  Accept config now newID hello r = (inr (s, welcome, sn), r') →
  rtc (server_step config) (r', s) w →
  server_inv w.2.
Proof.
  intros [Hs _]%Accept_inv Hrun.
  remember (r', s) as w0 eqn:E. replace s with w0.2 in Hs by by subst. clear E.
  induction Hrun; eauto using server_step_inv.
Qed.

(** ** Effects on the registry *)

(** A session's own calls leave the registry alone, or remove exactly its own
    entry when the session closes. *)
Definition own_entry_only (w w' : world) : Prop :=
  w'.1 = w.1 ∨ (w.1 !! ref_ConnectorID (ss_ref w.2) = Some (ss_ref w.2)
                ∧ w'.1 = delete (ref_ConnectorID (ss_ref w.2)) w.1
                ∧ ss_state w'.2 = SessionClosed).

Lemma closeLocked_registry reason w : own_entry_only w (closeLocked reason w).
Proof.
  destruct w as [r s]. unfold closeLocked, own_entry_only. case_bool_decide; [by left|].
  unfold Registry_Disconnect. cases; bools; simplify_eq; try (by left); by right.
Qed.

Lemma whenActive_registry {A} now (w : world) (bad : err → A) k :
  (live now w → (k w).2.1 = w.1) → own_entry_only w (whenActive now w bad k).2.
Proof.
  intros Hk. apply whenActive_elim; intros.
  - left. auto.
  - by left.
  - apply closeLocked_registry.
Qed.

(** A method call on one session never disturbs another: it leaves the
    registry unchanged, or deletes exactly the caller's own live entry while
    closing the caller.  In particular a session that a newer process replaced
    cannot remove its successor. *)
Theorem exec_registry config c w : own_entry_only w (exec config c w).
Proof.
  destruct w as [r s].
  destruct c as [now ack|now rd|now sn|now d|now hb|now|now1 now2 c id dl f|now c ack|now req
    |now now2 ex ref an|reason]; cbn [exec].
  - unfold HandleAck. destruct (Ack_Validate ack); [by left|]. apply whenActive_registry. by cases.
  - unfold HandleReadiness. destruct (Readiness_Validate rd); [by left|].
    apply whenActive_registry. by cases.
  - unfold OfferSnapshot. destruct (Snapshot_Validate sn); [by left|].
    apply whenActive_registry. by cases.
  - unfold OfferDelta. destruct (Delta_Validate d); [by left|]. apply whenActive_registry. by cases.
  - unfold HandleHeartbeat. destruct (Heartbeat_Validate hb); [by left|].
    apply whenActive_registry. by cases.
  - unfold CheckLease. destruct (ensureActiveLocked_outcome now (r, s)); try by left.
    apply closeLocked_registry.
  - unfold BeginDrain. destruct c; [by left|]. apply whenActive_registry. by cases.
  - unfold HandleDrainAck. destruct c; [by left|]. destruct (DrainAck_Validate ack); [by left|].
    apply whenActive_registry. by cases.
  - unfold Renew_begin. destruct (RenewalRequest_ValidateAt req now); [by left|].
    apply whenActive_registry. by cases.
  - destruct (Renew_check _ _ _ _); [by left|].
    unfold Renew_finish. apply whenActive_registry. by cases.
  - unfold Server_Close. destruct (negb _); [by left|]. destruct (bool_decide _); [by left|].
    apply closeLocked_registry.
Qed.

(** ** Closed sessions *)

Lemma whenActive_closed {A} now (w : world) (bad : err → A) k :
  ss_state w.2 = SessionClosed →
  whenActive now w bad k
  = (bad (codeError CodeSessionClosed (ss_disconnectReason w.2) false None), w).
Proof.
  destruct w as [r s]. simpl. intros Hs. unfold whenActive, ensureActiveLocked.
  by rewrite bool_decide_true.
Qed.

(** Closing is final: no method call changes a closed session or the
    registry through it. *)
Theorem closed_is_final config c w :
  ss_state w.2 = SessionClosed → exec config c w = w.
Proof.
  intros Hs. destruct c; cbn [exec];
    unfold HandleAck, HandleReadiness, OfferSnapshot, OfferDelta, HandleHeartbeat, CheckLease,
      BeginDrain, HandleDrainAck, Renew_begin, Renew_finish, Server_Close;
    repeat rewrite whenActive_closed by done; try by cases.
  - destruct w as [r s]. unfold ensureActiveLocked. by rewrite bool_decide_true.
  - destruct (Renew_check _ _ _ _); [done|]. by rewrite whenActive_closed.
  - rewrite Hs. by cases.
Qed.
End Server.
