(* ===== verification/ServerGuarantees.v ===== *)
(** * Server sessions: readiness, replay protection, renewal and negative
    acknowledgements

    Properties of [ServerSession] that follow from its handlers and the
    invariant of [ServerProofs]. *)
From S2P Require Import Prelude Go Protocol Messages Registry Server ServerProofs.

Section Server.
Context {codec : PayloadCodec}.

(** ** Becoming ready *)

(** A readiness report that promotes generation [g] with hash [h]. *)
Definition readiness_of (rd : Readiness) (g : Z) (h : string) : Prop :=
  ready_EdgeReady rd = true ∧ ready_RouteReady rd = true ∧ ready_OriginReady rd = true
  ∧ ready_Generation rd = g ∧ ready_ContentHash rd = h.

Lemma HandleReadiness_ready now rd w :
  ss_state (HandleReadiness now rd w).2.2 = SessionReady → ss_state w.2 ≠ SessionReady →
  readiness_of rd (snap_Generation (ss_active (HandleReadiness now rd w).2.2))
    (snap_ContentHash (ss_active (HandleReadiness now rd w).2.2)).
Proof.
  unfold HandleReadiness. destruct (Readiness_Validate rd); [done|].
  active_check.
  destruct w as [r s]. unfold readiness_of, cloneSnapshot. intros Hr Hn. cases; bools; try done; split_and!; done.
Qed.

Lemma restoreStateLocked_needs s : ss_needsSnapshot s = true →
  ss_state (restoreStateLocked s) = SessionAwaitingSnapshot.
Proof. intros Hn. unfold restoreStateLocked. rewrite Hn, andb_false_r. by cases. Qed.

(** Every other handler leaves a session that is not ready as it is, or moves it
    to a state that is not ready; a rejected drain restores readiness. *)
Lemma HandleAck_not_ready now ack w :
  ss_state w.2 ≠ SessionReady → ss_state (HandleAck now ack w).2.2 ≠ SessionReady.
Proof.
  intros Hn. unfold HandleAck. destruct (Ack_Validate ack); [done|].
  active_check.
  destruct w as [r s]. cases; try done; by rewrite restoreStateLocked_needs.
Qed.

Lemma HandleDrainAck_ready now c ack w :
  ss_state (HandleDrainAck now c ack w).2.2 = SessionReady → ss_state w.2 ≠ SessionReady →
  ∃ d, ss_drain w.2 = Some d ∧ dack_Status ack = DrainRejected
       ∧ dack_DrainID ack = drain_DrainID d ∧ ss_drainCompleted w.2 = false
       ∧ ss_hasActive w.2 = true ∧ ss_readyGeneration w.2 = snap_Generation (ss_active w.2)
       ∧ ss_needsSnapshot w.2 = false.
Proof.
  unfold HandleDrainAck. destruct c; [done|]. destruct (DrainAck_Validate ack); [done|].
  active_check.
  destruct w as [r s]. intros Hr Hn. unfold restoreStateLocked in *. cbn in *.
  cases; bools; try done. eauto 10.
Qed.

(** C4. A session turns ready only on proof: the step is a readiness report whose
    edge, route and origin flags are all set and whose generation and hash are
    those of the configuration that is active afterwards, or the rejection of
    the outstanding drain of a generation that was ready already. *)
Theorem ready_only_on_proof config c w :
  let w' := exec config c w in
  ss_state w.2 ≠ SessionReady → ss_state w'.2 = SessionReady →
  (∃ now rd, c = CallReadiness now rd ∧
     readiness_of rd (snap_Generation (ss_active w'.2)) (snap_ContentHash (ss_active w'.2)))
  ∨ (∃ d now ctxErr ack, c = CallDrainAck now ctxErr ack
              ∧ ss_drain w.2 = Some d ∧ dack_Status ack = DrainRejected
              ∧ dack_DrainID ack = drain_DrainID d
              ∧ ss_hasActive w.2 = true ∧ ss_needsSnapshot w.2 = false
              ∧ ss_readyGeneration w.2 = snap_Generation (ss_active w.2)).
Proof.
  destruct c as [now ack|now rd|now sn|now d|now hb|now|now1 now2 c id dl f|now c ack|now req
    |now now2 ex ref an|reason]; cbn [exec]; intros Hn Hr.
  - by apply (HandleAck_not_ready now ack) in Hn.
  - left. exists now, rd. split; [done|]. by apply HandleReadiness_ready.
  - exfalso. revert Hr. unfold OfferSnapshot. destruct (Snapshot_Validate sn); [done|].
    active_check. destruct w; by cases.
  - exfalso. revert Hr. unfold OfferDelta. destruct (Delta_Validate d); [done|].
    active_check. destruct w; by cases.
  - exfalso. revert Hr. unfold HandleHeartbeat. destruct (Heartbeat_Validate hb); [done|].
    active_check. destruct w; by cases.
  - exfalso. revert Hr. unfold CheckLease.
    destruct (ensureActiveLocked_outcome now w); [done..|cbn; by rewrite closeLocked_state].
  - exfalso. revert Hr. unfold BeginDrain. destruct c; [done|].
    active_check. destruct w; by cases.
  - right. destruct (HandleDrainAck_ready _ _ _ _ Hr Hn) as (d & ?); destruct_and?. eauto 15.
  - exfalso. revert Hr. unfold Renew_begin. destruct (RenewalRequest_ValidateAt req now); [done|].
    active_check. destruct w; by cases.
  - exfalso. revert Hr. destruct (Renew_check _ _ _ _); [done|]. unfold Renew_finish.
    active_check. destruct w; by cases.
  - exfalso. revert Hr. unfold Server_Close. destruct (negb _); [done|].
    destruct (bool_decide _); [done|]. cbn. by rewrite closeLocked_state.
Qed.

(** ** Identity and credentials *)

(** The part of a session no call may change, and the credential order. *)
Definition same_identity (s s' : ServerSession) : Prop :=
  ss_ref s' = ss_ref s
  ∧ ares_AccountID (ss_auth s') = ares_AccountID (ss_auth s)
  ∧ ares_HostID (ss_auth s') = ares_HostID (ss_auth s)
  ∧ ares_CredentialGeneration (ss_auth s) ≤ ares_CredentialGeneration (ss_auth s').

#[local] Instance same_identity_preorder : PreOrder same_identity.
Proof.
  split; unfold same_identity; [intros s; split_and!; done|].
  intros s1 s2 s3 ? ?. destruct_and?. split_and!; try congruence. lia.
Qed.

Lemma same_auth s s' : ss_ref s' = ss_ref s → ss_auth s' = ss_auth s → same_identity s s'.
Proof. unfold same_identity. intros -> ->. split_and!; done. Qed.

(** The fence on heartbeat timestamps only moves forward. *)
Definition fence_advances (s s' : ServerSession) : Prop :=
  ss_lastHeartbeatSentAt s ≠ 0 →
  ss_lastHeartbeatSentAt s' ≠ 0 ∧ ss_lastHeartbeatSentAt s ≤ ss_lastHeartbeatSentAt s'.

#[local] Instance fence_preorder : PreOrder fence_advances.
Proof. split; unfold fence_advances; [intros s; lia|]. intros s1 s2 s3 ? ? ?. lia. Qed.

Lemma same_fence s s' :
  ss_lastHeartbeatSentAt s' = ss_lastHeartbeatSentAt s → fence_advances s s'.
Proof. unfold fence_advances. intros ->. lia. Qed.

Lemma closeLocked_keeps reason w :
  ss_ref (closeLocked reason w).2 = ss_ref w.2 ∧ ss_auth (closeLocked reason w).2 = ss_auth w.2
  ∧ ss_lastHeartbeatSentAt (closeLocked reason w).2 = ss_lastHeartbeatSentAt w.2.
Proof. destruct w as [r s]. unfold closeLocked. by cases. Qed.

(** A heartbeat that is answered was fresh. *)
Lemma HandleHeartbeat_fresh config now hb w ack w' :
  HandleHeartbeat config now hb w = (inr ack, w') →
  ss_lastHeartbeatSentAt w'.2 = hb_SentAt hb ∧ hb_SentAt hb ≠ 0
  ∧ (ss_lastHeartbeatSentAt w.2 ≠ 0 → ss_lastHeartbeatSentAt w.2 < hb_SentAt hb).
Proof.
  unfold HandleHeartbeat. destruct (Heartbeat_Validate hb) eqn:Hv; [done|].
  active_check; [|done..]. destruct w as [r s].
  unfold Heartbeat_Validate, IsZero, After in *. intros H. cases; bools_or; split_and!; try done; lia.
Qed.

Lemma HandleHeartbeat_fence config now hb w :
  same_identity w.2 (HandleHeartbeat config now hb w).2.2
  ∧ fence_advances w.2 (HandleHeartbeat config now hb w).2.2.
Proof.
  destruct (HandleHeartbeat config now hb w) as [[e|ack] w'] eqn:E.
  - assert (ss_ref w'.2 = ss_ref w.2 ∧ ss_auth w'.2 = ss_auth w.2
            ∧ ss_lastHeartbeatSentAt w'.2 = ss_lastHeartbeatSentAt w.2) as (? & ? & ?).
    { revert E. unfold HandleHeartbeat. destruct (Heartbeat_Validate hb); [naive_solver|].
      active_check; [|naive_solver..|].
      - destruct w as [r s]. intros; by cases.
      - intros [= <- <-]. apply closeLocked_keeps. }
    split; [by apply same_auth|by apply same_fence].
  - pose proof (HandleHeartbeat_fresh _ _ _ _ _ _ E) as (? & ? & ?).
    split; [|unfold fence_advances; cbn; lia].
    revert E. unfold HandleHeartbeat. destruct (Heartbeat_Validate hb); [done|].
    active_check; [|done..]. destruct w as [r s]. intros E. cases; by apply same_auth.
Qed.

Ltac keeps_auth :=
  active_check; cbn;
  [ match goal with w : world |- _ => destruct w end; cases; cbn;
    (split; [by apply same_auth|by apply same_fence])
  | split; reflexivity
  | match goal with |- context [closeLocked ?re ?w] =>
      destruct (closeLocked_keeps re w) as (? & ? & ?) end;
    split; [by apply same_auth|by apply same_fence] ].

Lemma Renew_finish_identity config now now2 expected ref answer result w :
  Renew_check now expected ref answer = inr result →
  same_identity w.2 (Renew_finish config now now2 expected ref result w).2.2
  ∧ fence_advances w.2 (Renew_finish config now now2 expected ref result w).2.2.
Proof.
  intros (_ & Hacc & _ & _ & Hhost & _ & Hgen & _)%Renew_check_inr.
  unfold Renew_finish. active_check; cbn.
  - destruct w as [r s]. cases; bools; (split; [|by apply same_fence]).
    all: unfold same_identity; cbn; simplify_eq; split_and!; try done.
  - split; reflexivity.
  - destruct (closeLocked_keeps reason w) as (? & ? & ?).
    split; [by apply same_auth|by apply same_fence].
Qed.

Lemma exec_identity config c w :
  same_identity w.2 (exec config c w).2 ∧ fence_advances w.2 (exec config c w).2.
Proof.
  destruct c as [now ack|now rd|now sn|now d|now hb|now|now1 now2 c id dl f|now c ack|now req
    |now now2 ex ref an|reason]; cbn [exec].
  - unfold HandleAck, restoreStateLocked. destruct (Ack_Validate ack); [by split|]. keeps_auth.
  - unfold HandleReadiness. destruct (Readiness_Validate rd); [by split|]. keeps_auth.
  - unfold OfferSnapshot. destruct (Snapshot_Validate sn); [by split|]. keeps_auth.
  - unfold OfferDelta. destruct (Delta_Validate d); [by split|]. keeps_auth.
  - apply HandleHeartbeat_fence.
  - unfold CheckLease. destruct (ensureActiveLocked_outcome now w); [by split..|].
    destruct (closeLocked_keeps reason w) as (? & ? & ?).
    split; [by apply same_auth|by apply same_fence].
  - unfold BeginDrain. destruct c; [by split|]. keeps_auth.
  - unfold HandleDrainAck, restoreStateLocked. destruct c; [by split|].
    destruct (DrainAck_Validate ack); [by split|]. keeps_auth.
  - unfold Renew_begin. destruct (RenewalRequest_ValidateAt req now); [by split|]. keeps_auth.
  - destruct (Renew_check _ _ _ _) eqn:?; [by split|]. by eapply Renew_finish_identity.
  - unfold Server_Close. destruct (negb _); [by split|]. destruct (bool_decide _); [by split|].
    destruct (closeLocked_keeps reason w) as (? & ? & ?).
    split; [by apply same_auth|by apply same_fence].
Qed.

Lemma server_run_identity config w w' :
  rtc (server_step config) w w' → same_identity w.2 w'.2 ∧ fence_advances w.2 w'.2.
Proof.
  induction 1 as [w|w w1 w2 Hs _ [IH1 IH2]]; [by split|].
  assert (same_identity w.2 w1.2 ∧ fence_advances w.2 w1.2) as [? ?].
  { destruct Hs; [apply exec_identity|by split]. }
  split; by etransitivity.
Qed.

(** Whatever happens to a session, including credential renewals that race
    with other calls, its reference, account and host stay the ones it was
    accepted with and its credential generation never decreases. *)
Theorem session_identity_immutable config w w' :
  rtc (server_step config) w w' → same_identity w.2 w'.2.
Proof. intros H. by apply server_run_identity in H as [? _]. Qed.

(** A heartbeat is never honoured twice: once one is answered, every
    heartbeat that is not strictly later fails, in every later state of the
    session. *)
Theorem heartbeat_not_replayed config now hb w ack w1 w2 now2 hb2 :
  HandleHeartbeat config now hb w = (inr ack, w1) →
  rtc (server_step config) w1 w2 →
  hb_SentAt hb2 ≤ hb_SentAt hb →
  ∃ e, (HandleHeartbeat config now2 hb2 w2).1 = inl e.
Proof.
  intros Hok Hrun Hle.
  destruct (HandleHeartbeat_fresh _ _ _ _ _ _ Hok) as (Hf & Hnz & _).
  destruct (server_run_identity _ _ _ Hrun) as [_ Hfence].
  destruct Hfence as [Hnz2 Hge]; [congruence|].
  destruct (HandleHeartbeat config now2 hb2 w2) as [[e|a] w3] eqn:E; [eauto|].
  destruct (HandleHeartbeat_fresh _ _ _ _ _ _ E) as (_ & _ & Hlt).
  specialize (Hlt Hnz2). lia.
Qed.

(** ** Negative acknowledgements *)

(** The configuration the server is currently offering. *)
Definition offered (s : ServerSession) : option (Z * string) :=
  match ss_pendingSnapshot s with
  | Some p => Some (snap_Generation p, snap_ContentHash p)
  | None => (λ d, (delta_Generation d, delta_ContentHash d)) <$> ss_pendingDelta s
  end.

(** [CanPersistNegativeAck] decides in advance what [HandleAck] will do on
    a live session with a negative acknowledgement: when it holds, the offered
    configuration is the acknowledged one, it is withdrawn, the session owes a
    snapshot and is not ready; when it fails, the session is untouched. *)
Theorem negative_ack_decided now ack w :
  live now w → server_inv w.2 →
  ack_Status ack = AckRejected ∨ ack_Status ack = AckSnapshotRequired →
  ∃ e, (HandleAck now ack w).1 = Some e ∧
  if CanPersistNegativeAck w.2 ack
  then offered w.2 = Some (ack_Generation ack, ack_ContentHash ack)
       ∧ offered (HandleAck now ack w).2.2 = None
       ∧ ss_needsSnapshot (HandleAck now ack w).2.2 = true
       ∧ ss_state (HandleAck now ack w).2.2 = SessionAwaitingSnapshot
  else (HandleAck now ack w).2 = w.
Proof.
  intros Hlive Hinv Hneg. unfold HandleAck, CanPersistNegativeAck, offered.
  assert ((ack_Status ack != AckRejected) && (ack_Status ack != AckSnapshotRequired) = false) as ->.
  { destruct Hneg as [-> | ->]; reflexivity. }
  destruct (Ack_Validate ack) as [e|]; [by eexists|]. cbn [failed].
  rewrite whenActive_live by done. destruct w as [r s]. cbn [fst snd] in *.
  destruct (matchesIdentity _ _ _ _ _ _); [|by eexists]. cbn [negb].
  destruct (ss_pendingSnapshot s) as [p|] eqn:Hp; cbn.
  - assert (ss_pendingDelta s = None) as Hd by (destruct Hinv; naive_solver).
    destruct (decide (ack_Kind ack = AckSnapshot ∧ ack_Generation ack = snap_Generation p
                      ∧ ack_ContentHash ack = snap_ContentHash p)) as [(-> & -> & ->)|Hne].
    + rewrite Z.eqb_refl, !bool_decide_true by done. cbn.
      destruct Hneg as [-> | ->]; cbn; eexists; (split; [done|]);
        unfold restoreStateLocked; cases; bools; rewrite ?Hd; try done; split_and!; done.
    + exists (codeError CodeSnapshotRejected ReasonSnapshotRejected false None).
      destruct (_ || _) eqn:G; bools; [|naive_solver].
      destruct (_ && _) eqn:G2; bools; [naive_solver|done].
  - destruct (ss_pendingDelta s) as [d|] eqn:Hd; cbn.
    + destruct (decide (ack_Kind ack = AckDelta ∧ ack_Generation ack = delta_Generation d
                        ∧ ack_ContentHash ack = delta_ContentHash d)) as [(-> & -> & ->)|Hne].
      * rewrite Z.eqb_refl, !bool_decide_true by done. cbn.
        destruct Hneg as [-> | ->]; cbn; eexists; (split; [done|]);
          unfold restoreStateLocked; cases; bools; rewrite ?Hp; try done; split_and!; done.
      * exists (codeError CodeDeltaRejected ReasonGenerationGap false None).
        destruct (_ || _) eqn:G; bools; [|naive_solver].
        destruct (_ && _) eqn:G2; bools; [naive_solver|done].
    + destruct Hneg as [-> | ->]; by eexists.
Qed.
End Server.

(** * Server sessions: order of configuration generations

    When the control plane offers snapshots in generation order the active
    generation of a session never goes back; the comparison [OfferSnapshot]
    makes by itself does not enforce that order. *)

Section Server.
Context {codec : PayloadCodec}.

(** The offered, staged and active generations are strictly ordered. *)
Record gen_inv (s : ServerSession) : Prop := {
  gen_pending : ∀ p, ss_pendingSnapshot s = Some p → ss_hasActive s = true →
    snap_Generation (ss_active s) < snap_Generation p;
  gen_staged : ∀ p, ss_pendingSnapshot s = Some p → ss_hasCandidate s = true →
    snap_Generation (ss_candidate s) < snap_Generation p;
  gen_candidate : ss_hasActive s = true → ss_hasCandidate s = true →
    snap_Generation (ss_active s) < snap_Generation (ss_candidate s);
  gen_delta : ∀ d, ss_pendingDelta s = Some d →
    ss_hasActive s = true ∧ is_u64 (delta_PreviousGeneration d)
    ∧ delta_Generation d = u64 (delta_PreviousGeneration d + 1)
}.

(** Snapshots are offered in order: not older than the staged candidate.  The
    generation of a delta is a uint64. *)
Definition ordered (s : ServerSession) (c : server_call) : Prop :=
  match c with
  | CallOfferSnapshot _ sn =>
      ss_hasCandidate s = true → snap_Generation (ss_candidate s) ≤ snap_Generation sn
  | CallOfferDelta _ d => is_u64 (delta_PreviousGeneration d)
  | _ => True
  end.

(** The generation part of the state, which most handlers do not touch. *)
Definition active_le (s s' : ServerSession) : Prop :=
  ss_hasActive s = true →
  ss_hasActive s' = true ∧ snap_Generation (ss_active s) ≤ snap_Generation (ss_active s').

#[local] Instance active_le_preorder : PreOrder active_le.
Proof.
  split; unfold active_le; [intros s; split; [done|lia]|].
  intros s1 s2 s3 H1 H2 H. destruct (H1 H) as [H' ?], (H2 H'). split; [done|lia].
Qed.

Definition same_generations (s s' : ServerSession) : Prop :=
  ss_pendingSnapshot s' = ss_pendingSnapshot s ∧ ss_pendingDelta s' = ss_pendingDelta s
  ∧ ss_active s' = ss_active s ∧ ss_hasActive s' = ss_hasActive s
  ∧ ss_candidate s' = ss_candidate s ∧ ss_hasCandidate s' = ss_hasCandidate s.

Lemma same_generations_ok s s' :
  same_generations s s' → gen_inv s → gen_inv s' ∧ active_le s s'.
Proof.
  intros (E1 & E2 & E3 & E4 & E5 & E6) [].
  split; [constructor|unfold active_le]; rewrite ?E1, ?E2, ?E3, ?E4, ?E5, ?E6; auto with lia.
Qed.

Lemma closeLocked_generations reason w : same_generations w.2 (closeLocked reason w).2.
Proof. destruct w as [r s]. unfold closeLocked, same_generations. cases; split_and!; done. Qed.

(** An acknowledged delta has a non-zero generation, so the increment did not
    wrap around. *)
Lemma delta_successor g d : is_u64 d → g = u64 (d + 1) → g ≠ 0 → d < g.
Proof.
  unfold is_u64, u64. intros Hd -> Hg.
  destruct (decide (d + 1 = two64)) as [E|E]; [rewrite E in Hg; done|].
  rewrite Z.mod_small; lia.
Qed.

Lemma Ack_Validate_generation ack : Ack_Validate ack = None → ack_Generation ack ≠ 0.
Proof. unfold Ack_Validate. intros H. cases; bools. lia. Qed.

Lemma Delta_Validate_generation d :
  Delta_Validate d = None → delta_Generation d = u64 (delta_PreviousGeneration d + 1).
Proof. unfold Delta_Validate. intros H. cases; bools; done. Qed.

Ltac keeps_generations :=
  apply same_generations_ok; unfold same_generations; active_check; cbn;
  [ match goal with w : world |- _ => destruct w end; cases; split_and!; done
  | split_and!; done
  | apply closeLocked_generations ].

Ltac gens :=
  split; [constructor|unfold active_le]; cbn in *; intros; simplify_eq; try done; eauto;
  try congruence; try lia.

Lemma HandleAck_gen now ack w :
  gen_inv w.2 → gen_inv (HandleAck now ack w).2.2 ∧ active_le w.2 (HandleAck now ack w).2.2.
Proof.
  intros Hg. unfold HandleAck. destruct (Ack_Validate ack) eqn:Hv; [by apply same_generations_ok|].
  apply Ack_Validate_generation in Hv.
  active_check; [|by apply same_generations_ok
                 |by apply same_generations_ok; [apply closeLocked_generations|]].
  destruct w as [r s], Hg. unfold restoreStateLocked, cloneSnapshot. cbn in *.
  cases; bools; gens.
  all: destruct (gen_delta0 _ eq_refl) as (Ha & Hu & Hd); rewrite Ha in *; cbn in *; bools.
  all: pose proof (delta_successor _ _ Hu Hd); lia.
Qed.

Lemma HandleReadiness_gen now rd w :
  gen_inv w.2 →
  gen_inv (HandleReadiness now rd w).2.2 ∧ active_le w.2 (HandleReadiness now rd w).2.2.
Proof.
  intros Hg. unfold HandleReadiness. destruct (Readiness_Validate rd); [by apply same_generations_ok|].
  active_check; [|by apply same_generations_ok
                 |by apply same_generations_ok; [apply closeLocked_generations|]].
  destruct w as [r s], Hg. unfold cloneSnapshot. cbn in *. cases; bools; gens.
  - split; [done|]. specialize (gen_delta0 _ ltac:(eassumption)). tauto.
  - split; [done|]. assert (snap_Generation (ss_active s) < snap_Generation (ss_candidate s)); auto with lia.
Qed.

Lemma OfferSnapshot_gen now sn w :
  ordered w.2 (CallOfferSnapshot now sn) → gen_inv w.2 →
  gen_inv (OfferSnapshot now sn w).2.2 ∧ active_le w.2 (OfferSnapshot now sn w).2.2.
Proof.
  cbn. intros Ho Hg. unfold OfferSnapshot. destruct (Snapshot_Validate sn); [by apply same_generations_ok|].
  active_check; [|by apply same_generations_ok
                 |by apply same_generations_ok; [apply closeLocked_generations|]].
  destruct w as [r s]. cbn in *. unfold bindSnapshot.
  cases; bools; try by apply same_generations_ok.
  all: destruct Hg; gens.
  all: match goal with
       | H : ss_hasCandidate ?x = true |- _ => rewrite H in *; specialize (Ho eq_refl)
       | H : ss_hasActive ?x = true |- _ => rewrite H in *
       end; cbn in *; bools; lia.
Qed.

Lemma OfferDelta_gen now d w :
  ordered w.2 (CallOfferDelta now d) → gen_inv w.2 →
  gen_inv (OfferDelta now d w).2.2 ∧ active_le w.2 (OfferDelta now d w).2.2.
Proof.
  cbn. intros Ho Hg. unfold OfferDelta.
  destruct (Delta_Validate d) eqn:Hv; [by apply same_generations_ok|].
  apply Delta_Validate_generation in Hv.
  active_check; [|by apply same_generations_ok
                 |by apply same_generations_ok; [apply closeLocked_generations|]].
  destruct w as [r s]. cbn in *. cases; bools; try by apply same_generations_ok.
  destruct Hg; gens.
Qed.

Lemma exec_gen config c w :
  ordered w.2 c → gen_inv w.2 →
  gen_inv (exec config c w).2 ∧ active_le w.2 (exec config c w).2.
Proof.
  destruct c as [now ack|now rd|now sn|now d|now hb|now|now1 now2 c id dl f|now c ack|now req
    |now now2 ex ref an|reason]; cbn [exec]; intros Ho Hg.
  - by apply HandleAck_gen.
  - by apply HandleReadiness_gen.
  - by apply OfferSnapshot_gen.
  - by apply OfferDelta_gen.
  - unfold HandleHeartbeat. destruct (Heartbeat_Validate hb); [by apply same_generations_ok|].
    revert Hg. keeps_generations.
  - unfold CheckLease.
    destruct (ensureActiveLocked_outcome now w); try by apply same_generations_ok.
    apply same_generations_ok; [apply closeLocked_generations|done].
  - unfold BeginDrain. destruct c; [by apply same_generations_ok|]. revert Hg. keeps_generations.
  - unfold HandleDrainAck, restoreStateLocked. destruct c; [by apply same_generations_ok|].
    destruct (DrainAck_Validate ack); [by apply same_generations_ok|]. revert Hg. keeps_generations.
  - unfold Renew_begin. destruct (RenewalRequest_ValidateAt req now); [by apply same_generations_ok|].
    revert Hg. keeps_generations.
  - destruct (Renew_check _ _ _ _); [by apply same_generations_ok|].
    unfold Renew_finish. revert Hg. keeps_generations.
  - unfold Server_Close. destruct (negb _); [by apply same_generations_ok|].
    destruct (bool_decide _); [by apply same_generations_ok|].
    apply same_generations_ok; [apply closeLocked_generations|done].
Qed.

(** A step of a run in which snapshots are offered in order. *)
Inductive ordered_step (config : ServerConfig) : world → world → Prop :=
  | ordered_own c w : ordered w.2 c → ordered_step config w (exec config c w)
  | ordered_others r r' s : registry_step r r' → ordered_step config (r, s) (r', s).

(** A freshly accepted session has nothing active or staged. *)
Lemma Accept_gen config now newID hello r s welcome sn r' :
  Accept config now newID hello r = (inr (s, welcome, sn), r') → gen_inv s.
Proof. unfold Accept. intros H. cases; by constructor. Qed.

(** If snapshots are offered in generation order, the generation a session
    serves never decreases, from its acceptance through any sequence of calls. *)
Theorem active_generation_monotone config now newID hello r s welcome sn r' w w' :
  Accept config now newID hello r = (inr (s, welcome, sn), r') →
  rtc (ordered_step config) (r', s) w → rtc (ordered_step config) w w' →
  active_le w.2 w'.2.
Proof.
  intros Hg%Accept_gen Hrun Hrun'.
  assert (gen_inv w.2) as Hw.
  { remember (r', s) as w0 eqn:E. replace s with w0.2 in Hg by by subst. clear E Hrun'.
    induction Hrun as [|w0 w1 w2 Hs _ IH]; [done|].
    apply IH. destruct Hs; [by apply exec_gen|done]. }
  clear - Hw Hrun'. induction Hrun' as [|w0 w1 w2 Hs _ IH]; [done|].
  assert (gen_inv w1.2 ∧ active_le w0.2 w1.2) as [? ?]
    by (destruct Hs; [by apply exec_gen|by split]).
  etransitivity; eauto.
Qed.
End Server.
