(* ===== verification/Scenario.v ===== *)
(** * A concrete connector session

    Values on which the definitions of the session files are evaluated: a codec,
    a server configuration, the messages of one process, and runs of them. *)
From S2P Require Import Prelude Go Protocol Messages Registry Server ServerProofs ServerGuarantees.

Definition zeros64 : string := "0000000000000000000000000000000000000000000000000000000000000000".

(** A codec on which every payload is canonical and every digest is zero. *)
Definition flat_codec : PayloadCodec := {|
  canonicalJSON p limit := inr p;
  sha256_hex _ := zeros64;
  validateConfigSnapshotPayload _ _ _ := None
|}.
#[local] Existing Instance flat_codec.

Definition T0 : Time := 1000000000 * Second.
Definition thumb : string := "AAAAAAAAAAAAAAAAAAAAAAAAAAAAAAAAAAAAAAAAAAA".
Definition key_id : string := "ed25519:AAAAAAAAAAAAAAAAAAAAAAAAAAAAAAAAAAAAAAAAAAA".
Definition hash0 : string := "sha256:0000000000000000000000000000000000000000000000000000000000000000".

Definition auth0 : AuthRequest :=
  mkAuthRequest "acct" "tun" "con" "host" key_id thumb 3 1 "nonce-0123456789"
    "proof-0123456789-0123456789-0123456789" (T0 - Second) (T0 + 5 * Minute).

Definition hello0 : Hello :=
  mkHello ProtocolName "1.0" "1.0" "acct" "tun" "con" "host" 3 ProductionCapabilities auth0.

Definition grant (gen : Z) : AuthResult :=
  mkAuthResult "acct" "tun" "con" "" "host" key_id thumb 3 gen (T0 + Hour) (T0 + 30 * Minute).

Definition snapshot_of (gen : Z) : Snapshot :=
  mkSnapshot "" "tun" "" "" 0 gen hash0 [x7b; x7d].

Definition config0 : ServerConfig :=
  mkServerConfig (λ _, inr (grant 1)) (λ _, inr (grant 2)) (λ _, inr (snapshot_of 5))
    ProductionCapabilities (45 * Second) (5 * Second).

Definition accepted := Accept config0 T0 (inr "sess") hello0 ∅.

Definition session0 : ServerSession :=
  match accepted.1 with inr (s, _, _) => s | inl _ => mkServerSession ref_a (grant 1)
    (mkLease "" 0 0) (mkWelcome "" "" "" [] (mkLease "" 0 0) false 0) None None zeroSnapshot false
    zeroSnapshot false 0 false SessionClosed 0 0 None "" "" false "" end.

Definition welcome0 : Welcome := ss_welcome session0.

Definition ref0 : SessionRef := mkSessionRef "tun" "con" "sess" 3.

Definition snapshot0 : Snapshot := bindSnapshot (snapshot_of 5) "acct" "con" "sess" 3.

Definition world0 : world := ({[ "con" := ref0 ]}, session0).

Lemma accepted_ok :
  Accept config0 T0 (inr "sess") hello0 ∅ = (inr (session0, welcome0, snapshot0), {[ "con" := ref0 ]}).
Proof. vm_compute. reflexivity. Qed.

(** Messages of this process. *)
Definition ack_of (kind status : string) (gen : Z) : Ack :=
  mkAck "acct" "tun" "con" "sess" 3 kind status gen hash0
    (if status == AckRejected then CodeSnapshotRejected else "").

Definition ready_of (gen : Z) : Readiness :=
  mkReadiness "acct" "sess" "tun" "con" 3 gen hash0 true true true.

Definition heartbeat_at (t : Time) (gen : Z) : Heartbeat :=
  mkHeartbeat "acct" "sess" "tun" "con" 3 gen hash0 t.

Definition run (config : ServerConfig) (cs : list server_call) (w : world) : world :=
  foldl (λ w c, exec config c w) w cs.

Lemma run_steps config cs w : rtc (server_step config) w (run config cs w).
Proof.
  revert w. induction cs as [|c cs IH]; intros w; [apply rtc_refl|].
  eapply rtc_l; [constructor|apply IH].
Qed.

(** Bootstrap: the first snapshot is acknowledged and reported ready. *)
Definition bootstrap : list server_call :=
  [CallAck T0 (ack_of AckSnapshot AckApplied 5); CallReadiness T0 (ready_of 5)].

Definition world_ready : world := run config0 bootstrap world0.

Lemma world_ready_ok :
  ss_state world_ready.2 = SessionReady ∧ snap_Generation (ss_active world_ready.2) = 5.
Proof. vm_compute. auto. Qed.

(** Snapshot 6 is offered while 7 is staged. *)
Definition rollback_prefix : list server_call :=
  bootstrap ++
  [CallOfferSnapshot T0 (snapshot_of 7); CallAck T0 (ack_of AckSnapshot AckApplied 7);
   CallOfferSnapshot T0 (snapshot_of 6); CallReadiness T0 (ready_of 7)].

Definition rollback_suffix : list server_call :=
  [CallAck T0 (ack_of AckSnapshot AckApplied 6); CallReadiness T0 (ready_of 6)].

(** Offering snapshots out of order rolls a session back: from an accepted
    session there is a run after which generation 7 is served and ready, and a
    continuation after which the older generation 6 is served and ready.
    [OfferSnapshot] compares the offer with the active generation only, not with
    the staged candidate. *)
Theorem active_generation_can_roll_back :
  ∃ config now newID hello s welcome sn r' w w',
    Accept config now newID hello ∅ = (inr (s, welcome, sn), r')
    ∧ rtc (server_step config) (r', s) w ∧ rtc (server_step config) w w'
    ∧ (Current w.2).1.2 = true ∧ snap_Generation (Current w.2).1.1 = 7
    ∧ (Current w'.2).1.2 = true ∧ snap_Generation (Current w'.2).1.1 = 6.
Proof.
  exists config0, T0, (inr "sess"), hello0, session0, welcome0, snapshot0, {[ "con" := ref0 ]},
    (run config0 rollback_prefix world0),
    (run config0 rollback_suffix (run config0 rollback_prefix world0)).
  split; [apply accepted_ok|]. split; [apply run_steps|]. split; [apply run_steps|].
  vm_compute. auto 10.
Qed.

(** ** The session theorems at this scenario *)

Lemma server_session_invariant_witness : server_inv world_ready.2.
Proof.
  apply (server_session_invariant config0 T0 (inr "sess") hello0 ∅ session0 welcome0 snapshot0
           {[ "con" := ref0 ]}).
  - apply accepted_ok.
  - apply run_steps.
Defined.

Definition world_closed : world := exec config0 (CallClose ReasonServerShutdown) world_ready.

Lemma closed_is_final_witness :
  exec config0 (CallOfferSnapshot T0 (snapshot_of 8)) world_closed = world_closed.
Proof. apply (closed_is_final config0). vm_compute. reflexivity. Defined.

Definition world_staged : world := exec config0 (CallAck T0 (ack_of AckSnapshot AckApplied 5)) world0.

Lemma ready_only_on_proof_witness :
  let w' := exec config0 (CallReadiness T0 (ready_of 5)) world_staged in
  (∃ now rd, CallReadiness T0 (ready_of 5) = CallReadiness now rd ∧
     readiness_of rd (snap_Generation (ss_active w'.2)) (snap_ContentHash (ss_active w'.2)))
  ∨ (∃ d now ctxErr ack, CallReadiness T0 (ready_of 5) = CallDrainAck now ctxErr ack
              ∧ ss_drain world_staged.2 = Some d ∧ dack_Status ack = DrainRejected
              ∧ dack_DrainID ack = drain_DrainID d
              ∧ ss_hasActive world_staged.2 = true ∧ ss_needsSnapshot world_staged.2 = false
              ∧ ss_readyGeneration world_staged.2 = snap_Generation (ss_active world_staged.2)).
Proof.
  apply (ready_only_on_proof config0 (CallReadiness T0 (ready_of 5)) world_staged);
    vm_compute; [discriminate|reflexivity].
Defined.

Lemma session_identity_immutable_witness : same_identity world0.2 world_ready.2.
Proof. apply (session_identity_immutable config0). apply run_steps. Defined.

Definition beaten := HandleHeartbeat config0 (T0 + Second) (heartbeat_at (T0 + Second) 5) world_ready.

Definition beat_ack : HeartbeatAck :=
  mkHeartbeatAck "acct" "tun" "con" "sess" 3 (T0 + 46 * Second) (T0 + Second).

Lemma heartbeat_not_replayed_witness :
  ∃ e, (HandleHeartbeat config0 (T0 + 2 * Second) (heartbeat_at (T0 + Second) 5)
          (run config0 [CallCheckLease (T0 + 2 * Second)] beaten.2)).1 = inl e.
Proof.
  apply (heartbeat_not_replayed config0 (T0 + Second) (heartbeat_at (T0 + Second) 5) world_ready
           beat_ack beaten.2).
  - vm_compute. reflexivity.
  - apply run_steps.
  - vm_compute. discriminate.
Defined.

Lemma live0 : live T0 world0.
Proof.
  vm_compute. split_and!; try reflexivity; try discriminate.
Qed.

Lemma inv0 : server_inv world0.2.
Proof.
  pose proof accepted_ok as H. apply Accept_inv in H as [H _]. exact H.
Qed.

Lemma negative_ack_decided_witness :
  let ack := ack_of AckSnapshot AckRejected 5 in
  ∃ e, (HandleAck T0 ack world0).1 = Some e ∧
  if CanPersistNegativeAck world0.2 ack
  then offered world0.2 = Some (ack_Generation ack, ack_ContentHash ack)
       ∧ offered (HandleAck T0 ack world0).2.2 = None
       ∧ ss_needsSnapshot (HandleAck T0 ack world0).2.2 = true
       ∧ ss_state (HandleAck T0 ack world0).2.2 = SessionAwaitingSnapshot
  else (HandleAck T0 ack world0).2 = world0.
Proof.
  apply (negative_ack_decided T0 (ack_of AckSnapshot AckRejected 5) world0);
    [apply live0|apply inv0|left; reflexivity].
Defined.

Lemma active_generation_monotone_witness :
  active_le world_staged.2 (exec config0 (CallReadiness T0 (ready_of 5)) world_staged).2.
Proof.
  apply (active_generation_monotone config0 T0 (inr "sess") hello0 ∅ session0 welcome0 snapshot0
           {[ "con" := ref0 ]}).
  - apply accepted_ok.
  - apply rtc_once. apply (ordered_own config0 (CallAck T0 (ack_of AckSnapshot AckApplied 5)) world0).
    exact I.
  - apply rtc_once. apply ordered_own. exact I.
Defined.
