(* ===== verification/Client.v ===== *)
(** * Client side of a connector session

    Models [ClientSession] of [internal/connectorprotocol/session.go].  Methods
    that hold the mutex throughout are one function.  [ApplySnapshot],
    [ApplyDelta], [MarkReadyContext], [HandleDrain] and [CompleteDrain] release
    it while they call the runtime; each locked section is a function of its own
    and the whole method is their composition.  The runtime's answers and the
    observations of [ctx.Err()] are arguments, and calls of [Activate] and
    [Abort] are recorded as events. *)
From S2P Require Import Prelude Go Protocol Messages Registry Server.

(** A [PreparedConfig] is known by its identity; [None] is the nil interface. *)
Abbreviation handle := Z (only parsing).

Inductive event :=
  | EvPrepared (h : handle)
  | EvActivated (h : handle)
  | EvActivateFailed (h : handle)
  | EvAborted (h : handle).

Record ClientSession := mkClientSession {
  cs_hello : Hello;
  cs_welcome : Welcome;
  cs_state : SessionState;
  cs_lease : Lease;
  cs_auth : AuthRequest;
  cs_active : Snapshot;
  cs_hasActive : bool;
  cs_candidate : Snapshot;
  cs_hasCandidate : bool;
  cs_prepared : option handle;
  cs_needsSnapshot : bool;
  cs_readyGeneration : Z;
  cs_lastHeartbeatAck : Time;
  cs_drain : option Drain;
  cs_drainStatus : string;
  cs_drainCode : string;
  cs_drainCompleted : bool;
  cs_activeStreams : Z;
  cs_disconnectReason : string
}.
#[export] Instance ClientSession_eta : Eta ClientSession := λ c,
  mkClientSession (cs_hello c) (cs_welcome c) (cs_state c) (cs_lease c) (cs_auth c) (cs_active c)
    (cs_hasActive c) (cs_candidate c) (cs_hasCandidate c) (cs_prepared c) (cs_needsSnapshot c)
    (cs_readyGeneration c) (cs_lastHeartbeatAck c) (cs_drain c) (cs_drainStatus c)
    (cs_drainCode c) (cs_drainCompleted c) (cs_activeStreams c) (cs_disconnectReason c).

Definition zeroLease : Lease := mkLease "" 0 0.
Definition zeroWelcome : Welcome := mkWelcome "" "" "" [] zeroLease false 0.
Definition zeroAck : Ack := mkAck "" "" "" "" 0 "" "" 0 "" "".
Definition zeroReadiness : Readiness := mkReadiness "" "" "" "" 0 0 "" false false false.

Definition NewClientSession (now : Time) (hello : Hello) (applyTimeout abortTimeout : Duration)
    : err + ClientSession :=
  let applyTimeout := if applyTimeout =? 0 then DefaultApplyTimeout else applyTimeout in
  let abortTimeout := if abortTimeout =? 0 then DefaultAbortTimeout else abortTimeout in
  if (applyTimeout <=? 0) || (MaxLease <? applyTimeout) || (abortTimeout <=? 0)
     || (MaxLease <? abortTimeout)
  then inl ErrInvalidInput
  else match Hello_Validate hello now with
  | Some e => inl e
  | None => inr (mkClientSession hello zeroWelcome SessionNew zeroLease (hello_Auth hello)
                   zeroSnapshot false zeroSnapshot false None false 0 0 None "" "" false 0 "")
  end.

Definition AcceptWelcome (now now2 : Time) (welcome : Welcome) (c : ClientSession)
    : option err * ClientSession :=
  match Welcome_Validate welcome now with
  | Some e => (Some e, c)
  | None =>
  if cs_state c != SessionNew
  then (Some (codeError CodeSessionConflict ReasonProtocolClosed false None), c)
  else if (welcome_Version welcome != ProtocolVersion) || (welcome_Protocol welcome != ProtocolName)
  then (Some (codeError CodeProtocolIncompatible ReasonProtocolMismatch false None), c)
  else match NegotiateVersion (hello_MinVersion (cs_hello c)) (hello_MaxVersion (cs_hello c)) with
  | inl e => (Some e, c)
  | inr _ =>
  match NegotiateCapabilities (hello_Capabilities (cs_hello c)) (welcome_Capabilities welcome) with
  | inl e => (Some e, c)
  | inr _ => (None, c <| cs_welcome := welcome |> <| cs_lease := welcome_Lease welcome |>
                      <| cs_state := SessionAwaitingSnapshot |> <| cs_lastHeartbeatAck := now2 |>)
  end end end.

(** [ClientSession.ensureActiveLocked]. *)
Definition Client_ensureActiveLocked (now : Time) (c : ClientSession) : option err * ClientSession :=
  if cs_state c == SessionClosed
  then (Some (codeError CodeSessionClosed (cs_disconnectReason c) false None), c)
  else if cs_state c == SessionNew
  then (Some (codeError CodeSessionConflict ReasonProtocolClosed false None), c)
  else if negb (After (lease_ExpiresAt (cs_lease c)) now)
  then (Some (codeError CodeLeaseExpired ReasonLeaseExpired true None),
        c <| cs_state := SessionClosed |> <| cs_disconnectReason := ReasonLeaseExpired |>)
  else if negb (IsZero (cs_lastHeartbeatAck c))
     && (2 * lease_HeartbeatIntervalMS (cs_lease c) * Millisecond <? Sub now (cs_lastHeartbeatAck c))
  then (Some (codeError CodeHeartbeatTimeout ReasonHeartbeatTimeout true None),
        c <| cs_state := SessionClosed |> <| cs_disconnectReason := ReasonHeartbeatTimeout |>)
  else (None, c).

Definition Client_whenActive {A} (now : Time) (c : ClientSession) (bad : err → A)
    (k : ClientSession → A * ClientSession) : A * ClientSession :=
  match Client_ensureActiveLocked now c with
  | (Some e, c) => (bad e, c)
  | (None, c) => k c
  end.

Definition Client_CheckLease (now : Time) (c : ClientSession) : option err * ClientSession :=
  Client_ensureActiveLocked now c.

(** [ClientSession.restoreStateLocked]. *)
Definition Client_restoreStateLocked (c : ClientSession) : ClientSession :=
  if cs_hasActive c && (cs_readyGeneration c =? snap_Generation (cs_active c))
     && negb (cs_needsSnapshot c)
  then c <| cs_state := SessionReady |>
  else if cs_hasCandidate c then c <| cs_state := SessionAwaitingReady |>
  else c <| cs_state := SessionAwaitingSnapshot |>.

(** [ClientSession.makeAckLocked]. *)
Definition Client_makeAckLocked (c : ClientSession) (kind status : string) (generation : Z)
    (contentHash : string) : Ack :=
  mkAck (hello_AccountID (cs_hello c)) (hello_TunnelID (cs_hello c)) (hello_ConnectorID (cs_hello c))
    (welcome_SessionID (cs_welcome c)) (hello_ProcessGeneration (cs_hello c)) kind status generation
    contentHash "".

Definition RejectionAck (c : ClientSession) (kind : string) (generation : Z) (contentHash code : string)
    : Ack :=
  mkAck (hello_AccountID (cs_hello c)) (hello_TunnelID (cs_hello c)) (hello_ConnectorID (cs_hello c))
    (welcome_SessionID (cs_welcome c)) (hello_ProcessGeneration (cs_hello c)) kind AckRejected
    generation contentHash code.

Definition joinCleanup (primary cleanup : option err) : option err :=
  match cleanup with
  | None => primary
  | Some e =>
      let e := EWrap "abort prepared configuration: " e in
      match primary with None => Some e | Some p => Some (EJoin p e) end
  end.

(** [abortPrepared]: nothing for a nil interface, otherwise one call of [Abort]
    whose answer is [abort h]. *)
Definition abortPrepared (abort : handle → option err) (prepared : option handle)
    : option err * list event :=
  match prepared with
  | None => (None, [])
  | Some h => (abort h, [EvAborted h])
  end.

(** What the applier and the contexts answered during a preparation. *)
Record Preparation := mkPreparation {
  prep_prepared : option handle;      (** the returned [PreparedConfig] *)
  prep_err : option err;              (** the returned error *)
  prep_prepareErr : option err;       (** [prepareCtx.Err()] *)
  prep_ctxErr : option err            (** [ctx.Err()] after the call *)
}.

(** The part of [ApplySnapshot] and [ApplyDelta] between the call of the applier
    and the second locked section; [rejected] is the code of the method. *)
Definition checkPreparation (rejected : string) (abort : handle → option err) (p : Preparation)
    : (err + handle) * list event :=
  match prep_err p with
  | Some e =>
      let '(abortErr, ev) := abortPrepared abort (prep_prepared p) in
      match prep_ctxErr p, prep_prepareErr p with
      | Some cause, _ =>
          (inl (codeError CodeCanceled ReasonCanceled true (joinCleanup (Some cause) abortErr)), ev)
      | None, Some cause =>
          (inl (codeError CodeCanceled ReasonCanceled true (joinCleanup (Some cause) abortErr)), ev)
      | None, None =>
          (inl (codeError rejected ReasonSnapshotRejected false (joinCleanup (Some e) abortErr)), ev)
      end
  | None =>
      match prep_prepareErr p with
      | Some cause =>
          let '(abortErr, ev) := abortPrepared abort (prep_prepared p) in
          (inl (codeError CodeCanceled ReasonCanceled true (joinCleanup (Some cause) abortErr)), ev)
      | None =>
          match prep_prepared p with
          | None => (inl (codeError rejected ReasonSnapshotRejected false
                            (Some (EPlain "applier returned nil prepared configuration"))), [])
          | Some h => (inr h, [])
          end
      end
  end.

(** [abortAndJoin] with a non-nil primary error. *)
Definition abortAndJoin (abort : handle → option err) (primary : err) (h : handle)
    : err * list event :=
  (default primary (joinCleanup (Some primary) (abort h)), [EvAborted h]).

Section Client.
Context {codec : PayloadCodec}.

(** ** Applying snapshots and deltas *)

Abbreviation reply := (Ack * option err)%type.

(** First locked section of [ApplySnapshot]: [inl] is an early return, [inr]
    continues with the call of [PrepareSnapshot]. *)
Definition ApplySnapshot_begin (now : Time) (snapshot : Snapshot) (c : ClientSession)
    : (reply + unit) * ClientSession :=
  match Snapshot_Validate snapshot with
  | Some e =>
      (inl (zeroAck, Some (codeError CodeSnapshotRejected ReasonSnapshotRejected false (Some e))), c)
  | None =>
  Client_whenActive now c (λ e, inl (zeroAck, Some e)) (λ c,
  let fail e := (inl (zeroAck, Some e), c) in
  if snap_TunnelID snapshot != hello_TunnelID (cs_hello c)
  then fail (codeError CodeIdentityMismatch ReasonAuthentication false None)
  else if failed (Snapshot_ValidateBound snapshot)
     || (snap_AccountID snapshot != hello_AccountID (cs_hello c))
     || (snap_ConnectorID snapshot != hello_ConnectorID (cs_hello c))
     || (snap_SessionID snapshot != welcome_SessionID (cs_welcome c))
     || negb (snap_ProcessGeneration snapshot =? hello_ProcessGeneration (cs_hello c))
  then fail (codeError CodeIdentityMismatch ReasonAuthentication false None)
  else
    let current := if cs_hasCandidate c then cs_candidate c else cs_active c in
    if cs_hasActive c || cs_hasCandidate c
    then if snap_Generation snapshot <? snap_Generation current
         then fail (codeError CodeStaleGeneration ReasonStaleGeneration false None)
         else if snap_Generation snapshot =? snap_Generation current
         then if snap_ContentHash snapshot == snap_ContentHash current
              then (inl (Client_makeAckLocked c AckSnapshot AckDuplicate (snap_Generation snapshot)
                           (snap_ContentHash snapshot), None), c)
              else fail (codeError CodeContentHashMismatch ReasonSnapshotRejected false None)
         else (inr tt, c)
    else (inr tt, c))
  end.

(** Second locked section: stage the prepared configuration as the candidate. *)
Definition ApplySnapshot_finish (now : Time) (abort : handle → option err) (snapshot : Snapshot)
    (h : handle) (c : ClientSession) : (reply * list event) * ClientSession :=
  Client_whenActive now c
    (λ e, let '(e, ev) := abortAndJoin abort e h in ((zeroAck, Some e), ev)) (λ c,
  if cs_hasCandidate c && nonnil (cs_prepared c)
  then let '(e, ev) := abortAndJoin abort (codeError CodeGenerationGap ReasonGenerationGap true None) h in
       (((zeroAck, Some e), ev), c)
  else
    let snapshot := bindSnapshot snapshot (hello_AccountID (cs_hello c))
                      (hello_ConnectorID (cs_hello c)) (welcome_SessionID (cs_welcome c))
                      (hello_ProcessGeneration (cs_hello c)) in
    let c := c <| cs_candidate := snapshot |> <| cs_hasCandidate := true |>
               <| cs_prepared := Some h |> <| cs_needsSnapshot := false |>
               <| cs_readyGeneration := 0 |> <| cs_state := SessionAwaitingReady |> in
    (((Client_makeAckLocked c AckSnapshot AckApplied (snap_Generation snapshot)
         (snap_ContentHash snapshot), None), []), c)).

(** The event of a preparation that returned a configuration. *)
Definition prepared_event (p : Preparation) : list event :=
  match prep_prepared p with Some h => [EvPrepared h] | None => [] end.

Definition ApplySnapshot (now now2 : Time) (ctxErr : option err) (p : Preparation)
    (abort : handle → option err) (snapshot : Snapshot) (c : ClientSession)
    : (reply * list event) * ClientSession :=
  match ApplySnapshot_begin now snapshot c with
  | (inl r, c) => ((r, []), c)
  | (inr _, c) =>
  match ctxErr with
  | Some e => (((zeroAck, Some (codeError CodeCanceled ReasonCanceled true (Some e))), []), c)
  | None =>
  match checkPreparation CodeSnapshotRejected abort p with
  | (inl e, ev) => (((zeroAck, Some e), prepared_event p ++ ev), c)
  | (inr h, _) =>
      let '((r, ev), c) := ApplySnapshot_finish now2 abort snapshot h c in
      ((r, prepared_event p ++ ev), c)
  end end end.

Definition ApplyDelta_begin (now : Time) (delta : Delta) (c : ClientSession)
    : (reply + unit) * ClientSession :=
  match Delta_Validate delta with
  | Some e =>
      (inl (zeroAck, Some (codeError CodeDeltaRejected ReasonGenerationGap false (Some e))), c)
  | None =>
  Client_whenActive now c (λ e, inl (zeroAck, Some e)) (λ c,
  let needSnapshot := Client_makeAckLocked c AckDelta AckSnapshotRequired (delta_Generation delta)
                        (delta_ContentHash delta) in
  if failed (Delta_ValidateBound delta)
     || (delta_TunnelID delta != hello_TunnelID (cs_hello c))
     || (delta_AccountID delta != hello_AccountID (cs_hello c))
     || (delta_ConnectorID delta != hello_ConnectorID (cs_hello c))
     || (delta_SessionID delta != welcome_SessionID (cs_welcome c))
     || negb (delta_ProcessGeneration delta =? hello_ProcessGeneration (cs_hello c))
  then (inl (zeroAck, Some (codeError CodeIdentityMismatch ReasonAuthentication false None)), c)
  else if negb (cs_hasActive c) || cs_needsSnapshot c || cs_hasCandidate c
  then (inl (needSnapshot, Some (codeError CodeSnapshotRequired ReasonGenerationGap true None)), c)
  else if (delta_PreviousGeneration delta =? snap_Generation (cs_active c))
          && (delta_PreviousContentHash delta == snap_ContentHash (cs_active c))
  then if negb (delta_Generation delta =? u64 (snap_Generation (cs_active c) + 1))
       then (inl (needSnapshot, Some (codeError CodeGenerationGap ReasonGenerationGap true None)),
             c <| cs_needsSnapshot := true |>)
       else (inr tt, c)
  else if delta_Generation delta <=? snap_Generation (cs_active c)
  then (inl (zeroAck, Some (codeError CodeStaleGeneration ReasonStaleGeneration false None)), c)
  else (inl (needSnapshot, Some (codeError CodeGenerationGap ReasonGenerationGap true None)),
        c <| cs_needsSnapshot := true |>))
  end.

Definition ApplyDelta_finish (now : Time) (abort : handle → option err) (delta : Delta)
    (h : handle) (c : ClientSession) : (reply * list event) * ClientSession :=
  Client_whenActive now c
    (λ e, let '(e, ev) := abortAndJoin abort e h in ((zeroAck, Some e), ev)) (λ c,
  if cs_hasCandidate c && nonnil (cs_prepared c)
  then let '(e, ev) := abortAndJoin abort (codeError CodeGenerationGap ReasonGenerationGap true None) h in
       (((zeroAck, Some e), ev), c)
  else
    let candidate := mkSnapshot (hello_AccountID (cs_hello c)) (delta_TunnelID delta)
                       (hello_ConnectorID (cs_hello c)) (welcome_SessionID (cs_welcome c))
                       (hello_ProcessGeneration (cs_hello c)) (delta_Generation delta)
                       (delta_ContentHash delta) (delta_Payload delta) in
    let c := c <| cs_candidate := candidate |> <| cs_hasCandidate := true |>
               <| cs_prepared := Some h |> <| cs_readyGeneration := 0 |>
               <| cs_state := SessionAwaitingReady |> in
    (((Client_makeAckLocked c AckDelta AckApplied (snap_Generation candidate)
         (snap_ContentHash candidate), None), []), c)).

Definition ApplyDelta (now now2 : Time) (ctxErr : option err) (p : Preparation)
    (abort : handle → option err) (delta : Delta) (c : ClientSession)
    : (reply * list event) * ClientSession :=
  match ApplyDelta_begin now delta c with
  | (inl r, c) => ((r, []), c)
  | (inr _, c) =>
  match ctxErr with
  | Some e => (((zeroAck, Some (codeError CodeCanceled ReasonCanceled true (Some e))), []), c)
  | None =>
  match checkPreparation CodeDeltaRejected abort p with
  | (inl e, ev) => (((zeroAck, Some e), prepared_event p ++ ev), c)
  | (inr h, _) =>
      let '((r, ev), c) := ApplyDelta_finish now2 abort delta h c in
      ((r, prepared_event p ++ ev), c)
  end end end.

(** ** Promotion of the candidate *)

Definition MarkReady_begin (now : Time) (edge route origin : bool) (c : ClientSession)
    : ((Readiness * option err) + (Readiness * option handle * Snapshot)) * ClientSession :=
  Client_whenActive now c (λ e, inl (zeroReadiness, Some e)) (λ c,
  if negb (cs_hasCandidate c)
  then (inl (zeroReadiness, Some (codeError CodeSnapshotRequired ReasonGenerationGap true None)), c)
  else
    let readiness := mkReadiness (hello_AccountID (cs_hello c)) (welcome_SessionID (cs_welcome c))
                       (hello_TunnelID (cs_hello c)) (hello_ConnectorID (cs_hello c))
                       (hello_ProcessGeneration (cs_hello c)) (snap_Generation (cs_candidate c))
                       (snap_ContentHash (cs_candidate c)) edge route origin in
    if negb edge || negb route || negb origin
    then (inl (readiness, Some (codeError CodeNotReady ReasonSnapshotRejected true None)), c)
    else (inr (readiness, cs_prepared c, cloneSnapshot (cs_candidate c)), c)).

(** After a failed [Activate]: drop the candidate if it is still the one that
    was being activated. *)
Definition MarkReady_failed (candidate : Snapshot) (c : ClientSession) : ClientSession :=
  if cs_hasCandidate c && (snap_Generation (cs_candidate c) =? snap_Generation candidate)
     && (snap_ContentHash (cs_candidate c) == snap_ContentHash candidate)
  then Client_restoreStateLocked
         (c <| cs_candidate := zeroSnapshot |> <| cs_hasCandidate := false |>
            <| cs_prepared := None |> <| cs_needsSnapshot := true |>)
  else c.

Definition MarkReady_finish (now : Time) (readiness : Readiness) (candidate : Snapshot)
    (c : ClientSession) : (Readiness * option err) * ClientSession :=
  Client_whenActive now c (λ e, (readiness, Some e)) (λ c,
  if negb (cs_hasCandidate c)
     || negb (snap_Generation (cs_candidate c) =? snap_Generation candidate)
     || (snap_ContentHash (cs_candidate c) != snap_ContentHash candidate)
  then ((readiness, Some (codeError CodeSessionConflict ReasonStaleGeneration true None)), c)
  else
    ((readiness, None),
     c <| cs_active := cloneSnapshot (cs_candidate c) |> <| cs_hasActive := true |>
       <| cs_candidate := zeroSnapshot |> <| cs_hasCandidate := false |>
       <| cs_prepared := None |> <| cs_needsSnapshot := false |>
       <| cs_readyGeneration := snap_Generation (cs_candidate c) |>
       <| cs_state := SessionReady |>)).

(** [MarkReadyContext].  [activate h] answers the call of [Activate]; [ctxErr]
    and [ctxErr2] are [ctx.Err()] before and after it. *)
Definition MarkReadyContext (now now2 : Time) (ctxErr ctxErr2 : option err)
    (activate abort : handle → option err) (edge route origin : bool) (c : ClientSession)
    : ((Readiness * option err) * list event) * ClientSession :=
  match MarkReady_begin now edge route origin c with
  | (inl r, c) => ((r, []), c)
  | (inr (readiness, prepared, candidate), c) =>
  match ctxErr with
  | Some e => (((readiness, Some (codeError CodeCanceled ReasonCanceled true (Some e))), []), c)
  | None =>
  match prepared with
  | None => (((readiness, Some (codeError CodeSnapshotRejected ReasonSnapshotRejected false
                (Some (EPlain "missing prepared configuration")))), []), c)
  | Some h =>
  match activate h with
  | Some e =>
      let '(abortErr, ev) := abortPrepared abort (Some h) in
      let c := MarkReady_failed candidate c in
      let e := if failed ctxErr2
               then codeError CodeCanceled ReasonCanceled true (joinCleanup (Some e) abortErr)
               else codeError CodeSnapshotRejected ReasonSnapshotRejected false
                      (joinCleanup (Some e) abortErr) in
      (((readiness, Some e), EvActivateFailed h :: ev), c)
  | None =>
      let '(r, c) := MarkReady_finish now2 readiness candidate c in
      ((r, [EvActivated h]), c)
  end end end end.

(** ** Liveness *)

Definition currentCandidateLocked (c : ClientSession) : option Snapshot :=
  if cs_hasActive c then Some (cs_active c)
  else if cs_hasCandidate c then Some (cs_candidate c)
  else None.

(** [clock] is the reading used when [now] is the zero time. *)
Definition Client_Heartbeat (clock now : Time) (c : ClientSession)
    : (err + Heartbeat) * ClientSession :=
  let now := if IsZero now then clock else now in
  Client_whenActive now c inl (λ c,
  match currentCandidateLocked c with
  | None => (inl (codeError CodeSnapshotRequired ReasonGenerationGap true None), c)
  | Some current =>
      (inr (mkHeartbeat (hello_AccountID (cs_hello c)) (welcome_SessionID (cs_welcome c))
              (hello_TunnelID (cs_hello c)) (hello_ConnectorID (cs_hello c))
              (hello_ProcessGeneration (cs_hello c)) (snap_Generation current)
              (snap_ContentHash current) now), c)
  end).

Definition AcceptHeartbeatAck (now : Time) (ack : HeartbeatAck) (c : ClientSession)
    : option err * ClientSession :=
  match HeartbeatAck_Validate ack now with
  | Some e => (Some e, c)
  | None =>
  Client_whenActive now c Some (λ c,
  if (hback_AccountID ack != hello_AccountID (cs_hello c))
     || (hback_TunnelID ack != hello_TunnelID (cs_hello c))
     || (hback_ConnectorID ack != hello_ConnectorID (cs_hello c))
     || (hback_SessionID ack != welcome_SessionID (cs_welcome c))
     || negb (hback_ProcessGeneration ack =? hello_ProcessGeneration (cs_hello c))
  then (Some (codeError CodeIdentityMismatch ReasonAuthentication false None), c)
  else (None, c <| cs_lease := cs_lease c <| lease_ExpiresAt := hback_LeaseExpiresAt ack |> |>
                <| cs_lastHeartbeatAck := now |>))
  end.

(** ** Draining *)

Definition makeDrainAckLocked (c : ClientSession) (request : Drain) (status : string)
    (activeStreams : Z) (forced : bool) (code : string) : DrainAck :=
  mkDrainAck (hello_AccountID (cs_hello c)) (hello_TunnelID (cs_hello c))
    (hello_ConnectorID (cs_hello c)) (welcome_SessionID (cs_welcome c))
    (hello_ProcessGeneration (cs_hello c)) (drain_DrainID request) (drain_Generation request)
    (drain_ContentHash request) status activeStreams forced code.

Abbreviation drain_reply := (DrainAck * option err)%type.

(** First locked section of [HandleDrain]; [inr] continues with the calls of the
    runtime's drain hook. *)
Definition HandleDrain_begin (now : Time) (ctxErr : option err) (request : Drain) (c : ClientSession)
    : (drain_reply + unit) * ClientSession :=
  match ctxErr with
  | Some e => (inl (zeroDrainAck, Some (codeError CodeCanceled ReasonCanceled true (Some e))), c)
  | None =>
  match Drain_Validate request now with
  | Some e => (inl (zeroDrainAck, Some e), c)
  | None =>
  Client_whenActive now c (λ e, inl (zeroDrainAck, Some e)) (λ c,
  let reject streams e := (inl (makeDrainAckLocked c request DrainRejected streams false
                                  CodeDrainRejected, Some e), c) in
  if negb (hasCapability (welcome_Capabilities (cs_welcome c)) CapabilityDrain)
  then (inl (zeroDrainAck, Some (codeError CodeCapabilityMissing ReasonCapabilityMissing false None)), c)
  else if (drain_AccountID request != hello_AccountID (cs_hello c))
     || (drain_TunnelID request != hello_TunnelID (cs_hello c))
     || (drain_ConnectorID request != hello_ConnectorID (cs_hello c))
     || (drain_SessionID request != welcome_SessionID (cs_welcome c))
     || negb (drain_ProcessGeneration request =? hello_ProcessGeneration (cs_hello c))
  then reject 0 (codeError CodeIdentityMismatch ReasonAuthentication false None)
  else match cs_drain c with
  | Some d =>
      if drain_DrainID request != drain_DrainID d
      then reject (cs_activeStreams c) (codeError CodeSessionConflict ReasonStaleGeneration true None)
      else if negb (drain_Generation request =? drain_Generation d)
              || (drain_ContentHash request != drain_ContentHash d)
      then reject (cs_activeStreams c)
             (codeError CodeContentHashMismatch ReasonSnapshotRejected false None)
      else (inl (makeDrainAckLocked c request (cs_drainStatus c) (cs_activeStreams c)
                   (cs_drainStatus c == DrainForced) (cs_drainCode c), None), c)
  | None =>
      if negb (cs_hasActive c) || cs_needsSnapshot c
         || negb (cs_readyGeneration c =? snap_Generation (cs_active c))
      then reject 0 (codeError CodeNotReady ReasonSnapshotRejected true None)
      else if negb (drain_Generation request =? snap_Generation (cs_active c))
              || (drain_ContentHash request != snap_ContentHash (cs_active c))
      then reject 0 (codeError CodeStaleGeneration ReasonStaleGeneration true None)
      else (inr tt, c <| cs_drain := Some request |> <| cs_drainStatus := DrainAccepted |>
                      <| cs_drainCode := "" |> <| cs_drainCompleted := false |>
                      <| cs_activeStreams := 0 |> <| cs_state := SessionDraining |>)
  end)
  end end.

(** [c.drain != nil && c.drain.DrainID == request.DrainID]. *)
Definition drainIs (request : Drain) (c : ClientSession) : bool :=
  match cs_drain c with Some d => drain_DrainID d == drain_DrainID request | None => false end.

(** The locked section taken when the hook failed. *)
Definition HandleDrain_failed (request : Drain) (c : ClientSession) : ClientSession :=
  if drainIs request c
  then Client_restoreStateLocked
         (c <| cs_drainStatus := DrainRejected |> <| cs_drainCode := CodeDrainRejected |>
            <| cs_drainCompleted := true |>)
  else c.

(** The last locked section, with the observed stream count. *)
Definition HandleDrain_finish (request : Drain) (activeStreams : Z) (c : ClientSession)
    : drain_reply * ClientSession :=
  if negb (drainIs request c)
  then ((makeDrainAckLocked c request DrainRejected activeStreams false CodeDrainRejected,
         Some (codeError CodeStaleSession ReasonStaleGeneration false None)), c)
  else let c := c <| cs_activeStreams := activeStreams |> in
       ((makeDrainAckLocked c request DrainAccepted activeStreams false "", None), c).

(** [stop] and [count] answer [StopNewStreams] and [ActiveStreams]. *)
Definition HandleDrain (now : Time) (ctxErr stop : option err) (count : err + Z) (request : Drain)
    (c : ClientSession) : drain_reply * ClientSession :=
  match HandleDrain_begin now ctxErr request c with
  | (inl r, c) => (r, c)
  | (inr _, c) =>
  match stop with
  | Some e =>
      let c := HandleDrain_failed request c in
      ((makeDrainAckLocked c request DrainRejected (cs_activeStreams c) false CodeDrainRejected,
        Some (codeError CodeDrainRejected ReasonSnapshotRejected true (Some e))), c)
  | None =>
      let rejected e :=
        let c := HandleDrain_failed request c in
        ((makeDrainAckLocked c request DrainRejected 0 false CodeDrainRejected,
          Some (codeError CodeDrainRejected ReasonSnapshotRejected true (Some e))), c) in
      match count with
      | inl e => rejected e
      | inr activeStreams =>
          if MaxActiveStreams <? activeStreams then rejected ErrInvalidInput
          else HandleDrain_finish request activeStreams c
      end
  end end.

Definition Client_DrainProgress (now : Time) (ctxErr : option err) (activeStreams : Z)
    (forcedClose : bool) (c : ClientSession) : drain_reply * ClientSession :=
  if MaxActiveStreams <? activeStreams then ((zeroDrainAck, Some ErrInvalidInput), c)
  else match ctxErr with
  | Some e => ((zeroDrainAck, Some (codeError CodeCanceled ReasonCanceled true (Some e))), c)
  | None =>
  Client_whenActive now c (λ e, (zeroDrainAck, Some e)) (λ c,
  match cs_drain c with
  | None => ((zeroDrainAck, Some (codeError CodeSessionConflict ReasonStaleGeneration false None)), c)
  | Some d =>
      let c := c <| cs_activeStreams := activeStreams |> in
      if cs_drainCompleted c
      then ((makeDrainAckLocked c d (cs_drainStatus c) (cs_activeStreams c)
               (cs_drainStatus c == DrainForced) (cs_drainCode c), None), c)
      else if forcedClose
      then if negb (activeStreams =? 0)
           then ((zeroDrainAck, Some (codeError CodeInvalidInput ReasonSnapshotRejected false
                    (Some (EPlain "forced drain must have zero active streams")))), c)
           else ((makeDrainAckLocked c d DrainForced 0 true CodeDrainTimeout, None),
                 c <| cs_drainStatus := DrainForced |> <| cs_drainCode := CodeDrainTimeout |>
                   <| cs_drainCompleted := true |>)
      else if activeStreams =? 0
      then ((makeDrainAckLocked c d DrainCompleted 0 false "", None),
            c <| cs_drainStatus := DrainCompleted |> <| cs_drainCode := "" |>
              <| cs_drainCompleted := true |>)
      else if negb (Before now (drain_Deadline d))
      then ((makeDrainAckLocked c d DrainProgress activeStreams false "",
             Some (codeError CodeDrainTimeout ReasonHeartbeatTimeout true None)), c)
      else ((makeDrainAckLocked c d DrainProgress activeStreams false "", None),
            c <| cs_drainStatus := DrainProgress |> <| cs_drainCode := "" |>)
  end)
  end.

(** [forceClose] and [count] answer [ForceClose] and [ActiveStreams]. *)
Definition CompleteDrain (now : Time) (ctxErr forceClose : option err) (count : err + Z)
    (force : bool) (c : ClientSession) : drain_reply * ClientSession :=
  match cs_drain c with
  | None => ((zeroDrainAck, Some (codeError CodeSessionConflict ReasonStaleGeneration false None)), c)
  | Some request =>
      if cs_drainCompleted c
      then ((makeDrainAckLocked c request (cs_drainStatus c) (cs_activeStreams c)
               (cs_drainStatus c == DrainForced) (cs_drainCode c), None), c)
      else if force
      then match forceClose with
           | Some e => ((zeroDrainAck,
                         Some (codeError CodeDrainRejected ReasonSnapshotRejected true (Some e))), c)
           | None => Client_DrainProgress now ctxErr 0 true c
           end
      else match count with
           | inl e => ((zeroDrainAck,
                        Some (codeError CodeDrainRejected ReasonSnapshotRejected true (Some e))), c)
           | inr active => Client_DrainProgress now ctxErr active false c
           end
  end.

(** [ClientSession.Drain]. *)
Definition Client_Drain (c : ClientSession) : Drain * string * Z * bool :=
  match cs_drain c with
  | None => (zeroDrain, "", 0, false)
  | Some d => (d, cs_drainStatus c, cs_activeStreams c, cs_drainCompleted c)
  end.

(** ** Renewal *)

Definition ensureActiveReadLocked (now : Time) (c : ClientSession) : option err :=
  if cs_state c == SessionClosed
  then Some (codeError CodeSessionClosed (cs_disconnectReason c) false None)
  else if cs_state c == SessionNew
  then Some (codeError CodeSessionConflict ReasonProtocolClosed false None)
  else if negb (After (lease_ExpiresAt (cs_lease c)) now)
  then Some (codeError CodeLeaseExpired ReasonLeaseExpired true None)
  else None.

(** [ClientSession.RenewalRequest]. *)
Definition Client_RenewalRequest (clock now : Time) (nonce signedProof : string) (c : ClientSession)
    : err + RenewalRequest :=
  let now := if IsZero now then clock else now in
  match ensureActiveReadLocked now c with
  | Some e => inl e
  | None =>
      let a := cs_auth c in
      let request := mkRenewalRequest (welcome_SessionID (cs_welcome c)) (areq_AccountID a)
                       (areq_TunnelID a) (areq_ConnectorID a) (areq_HostID a) (areq_IdentityKeyID a)
                       (areq_IdentityKeyThumbprint a) (hello_ProcessGeneration (cs_hello c))
                       (areq_CredentialGeneration a) nonce signedProof now in
      match RenewalRequest_Validate request with Some e => inl e | None => inr request end
  end.

Definition ApplyRenewal (now : Time) (result : AuthResult) (c : ClientSession)
    : option err * ClientSession :=
  match AuthResult_ValidateBound result with
  | Some e => (Some e, c)
  | None =>
  Client_whenActive now c Some (λ c,
  let a := cs_auth c in
  if (ares_AccountID result != areq_AccountID a) || (ares_TunnelID result != areq_TunnelID a)
     || (ares_ConnectorID result != areq_ConnectorID a)
     || (ares_SessionID result != welcome_SessionID (cs_welcome c))
     || (ares_HostID result != areq_HostID a) || (ares_IdentityKeyID result != areq_IdentityKeyID a)
     || (ares_IdentityKeyThumbprint result != areq_IdentityKeyThumbprint a)
     || negb (ares_ProcessGeneration result =? hello_ProcessGeneration (cs_hello c))
     || (ares_CredentialGeneration result <? areq_CredentialGeneration a)
  then (Some (codeError CodeIdentityMismatch ReasonAuthentication false None), c)
  else if Before (ares_CredentialExpiresAt result) (areq_ExpiresAt a)
          || Before (ares_LeaseExpiresAt result) (lease_ExpiresAt (cs_lease c))
  then (Some (codeError CodeSessionConflict ReasonAuthentication false None), c)
  else if (ares_CredentialGeneration result =? areq_CredentialGeneration a)
          && (ares_CredentialExpiresAt result =? areq_ExpiresAt a)
          && (ares_LeaseExpiresAt result =? lease_ExpiresAt (cs_lease c))
  then (None, c)
  else
    let auth := mkAuthRequest (ares_AccountID result) (ares_TunnelID result)
                  (ares_ConnectorID result) (ares_HostID result) (ares_IdentityKeyID result)
                  (ares_IdentityKeyThumbprint result) (ares_ProcessGeneration result)
                  (ares_CredentialGeneration result) "" "" now (ares_CredentialExpiresAt result) in
    (None, c <| cs_auth := auth |>
             <| cs_lease := cs_lease c <| lease_ExpiresAt := ares_LeaseExpiresAt result |> |>
             <| cs_lastHeartbeatAck := now |>))
  end.

(** ** Closing and observing *)

(** [ClientSession.Close]. *)
Definition Client_Close (abort : handle → option err) (reason : string) (c : ClientSession)
    : (option err * list event) * ClientSession :=
  if negb (validDisconnectReason reason) then ((Some ErrInvalidInput, []), c)
  else if cs_state c == SessionClosed then ((None, []), c)
  else
    let prepared := cs_prepared c in
    let c := c <| cs_state := SessionClosed |> <| cs_disconnectReason := reason |>
               <| cs_prepared := None |> <| cs_candidate := zeroSnapshot |>
               <| cs_hasCandidate := false |> in
    let '(abortErr, ev) := abortPrepared abort prepared in
    match abortErr with
    | Some e => ((Some (codeError CodeSnapshotRejected ReasonSnapshotRejected false
                          (joinCleanup None (Some e))), ev), c)
    | None => ((None, ev), c)
    end.

(** [ClientSession.Disconnect]. *)
Definition Client_Disconnect (c : ClientSession) : Disconnect :=
  let reason := if cs_disconnectReason c == "" then ReasonProtocolClosed
                else cs_disconnectReason c in
  mkDisconnect (hello_AccountID (cs_hello c)) (hello_TunnelID (cs_hello c))
    (hello_ConnectorID (cs_hello c)) (welcome_SessionID (cs_welcome c))
    (hello_ProcessGeneration (cs_hello c)) reason
    ((reason == ReasonLeaseExpired) || (reason == ReasonHeartbeatTimeout)
     || (reason == ReasonCredentialExpired) || (reason == ReasonSessionReplaced)) "".

(** [Applied], [Candidate] and [Active]. *)
Definition Applied (c : ClientSession) : option Snapshot := currentCandidateLocked c.
Definition Candidate (c : ClientSession) : option Snapshot :=
  if cs_hasCandidate c then Some (cloneSnapshot (cs_candidate c)) else None.
Definition Client_Active (c : ClientSession) : option Snapshot :=
  if cs_hasActive c then Some (cloneSnapshot (cs_active c)) else None.
End Client.
