(* ===== verification/ClientProofs.v ===== *)
(** * Client sessions: interleavings, invariants and resource accounting

    The locked sections of [ClientSession] as a step relation.  [applyMu] is held
    from the first to the last section of [ApplySnapshot], [ApplyDelta] and
    [MarkReadyContext] and during [Close]; its holder is the [phase].  All other
    methods may run between those sections. *)
From S2P Require Import Prelude Go Protocol Messages Registry Server Client.

(** ** The active check *)

Definition client_live (now : Time) (c : ClientSession) : Prop :=
  cs_state c ≠ SessionClosed ∧ cs_state c ≠ SessionNew ∧ now < lease_ExpiresAt (cs_lease c)
  ∧ (cs_lastHeartbeatAck c ≠ 0 →
     Sub now (cs_lastHeartbeatAck c) ≤ 2 * lease_HeartbeatIntervalMS (cs_lease c) * Millisecond).

(** [c] closed by [ensureActiveLocked] for [reason]. *)
Definition client_closed (reason : string) (c : ClientSession) : ClientSession :=
  c <| cs_state := SessionClosed |> <| cs_disconnectReason := reason |>.

Lemma Client_whenActive_elim {A} now c (bad : err → A) k (P : A * ClientSession → Prop) :
  (client_live now c → P (k c)) →
  (∀ e, cs_state c = SessionClosed ∨ cs_state c = SessionNew → P (bad e, c)) →
  (∀ e reason, cs_state c ≠ SessionClosed → cs_state c ≠ SessionNew →
     P (bad e, client_closed reason c)) →
  P (Client_whenActive now c bad k).
Proof.
  intros Hk Hc Hr. unfold Client_whenActive, Client_ensureActiveLocked, After.
  destruct (cs_state c == SessionClosed) eqn:E1; [bools; auto|].
  destruct (cs_state c == SessionNew) eqn:E2; [bools; auto|].
  destruct (negb _) eqn:E3; bools; [apply (Hr _ ReasonLeaseExpired); done|].
  destruct (_ && _) eqn:E4; bools; [apply (Hr _ ReasonHeartbeatTimeout); done|].
  apply Hk. split_and!; try done. intros Hnz. unfold IsZero in *. bools_or.
  destruct E4; bools; [done|lia].
Qed.

Lemma Client_whenActive_live {A} now c (bad : err → A) k :
  client_live now c → Client_whenActive now c bad k = k c.
Proof.
  intros (H1 & H2 & H3 & H4). unfold Client_whenActive, Client_ensureActiveLocked, After, IsZero.
  rewrite (bool_decide_false _ H1), (bool_decide_false _ H2), (proj2 (Z.ltb_lt _ _) H3). cbn.
  destruct (Z.eqb_spec (cs_lastHeartbeatAck c) 0); [done|]. cbn.
  by rewrite (proj2 (Z.ltb_ge _ _)) by auto.
Qed.

Ltac client_check :=
  match goal with
  | |- context [Client_whenActive ?n ?w ?b ?k] =>
      pattern (Client_whenActive n w b k); apply Client_whenActive_elim
  end; [ intros ?Hlive | intros ? ?Hdead | intros ? ? ?Hopen ?Hnew ].

Section Client.
Context {codec : PayloadCodec}.

(** ** Step relation *)

Inductive phase :=
  | Idle
  | PreparingSnapshot (sn : Snapshot)
  | PreparingDelta (d : Delta)
  | Activating (rd : Readiness) (h : handle) (candidate : Snapshot).

Record machine := mkMachine {
  m_c : ClientSession;
  m_phase : phase;
  m_log : list event
}.

(** Methods that do not take [applyMu], by locked section. *)
Inductive client_call :=
  | CCWelcome (now now2 : Time) (w : Welcome)
  | CCHeartbeat (clock now : Time)
  | CCHeartbeatAck (now : Time) (ack : HeartbeatAck)
  | CCDrainBegin (now : Time) (ctxErr : option err) (request : Drain)
  | CCDrainFailed (request : Drain)
  | CCDrainFinish (request : Drain) (streams : Z)
  | CCDrainProgress (now : Time) (ctxErr : option err) (streams : Z) (forced : bool)
  | CCRenewal (now : Time) (result : AuthResult)
  | CCCheckLease (now : Time).

Definition client_exec (cc : client_call) (c : ClientSession) : ClientSession :=
  match cc with
  | CCWelcome now now2 w => (AcceptWelcome now now2 w c).2
  | CCHeartbeat clock now => (Client_Heartbeat clock now c).2
  | CCHeartbeatAck now ack => (AcceptHeartbeatAck now ack c).2
  | CCDrainBegin now ctxErr request => (HandleDrain_begin now ctxErr request c).2
  | CCDrainFailed request => HandleDrain_failed request c
  | CCDrainFinish request streams => (HandleDrain_finish request streams c).2
  | CCDrainProgress now ctxErr streams forced => (Client_DrainProgress now ctxErr streams forced c).2
  | CCRenewal now result => (ApplyRenewal now result c).2
  | CCCheckLease now => (Client_CheckLease now c).2
  end.

Inductive client_step : machine → machine → Prop :=
  | cstep_call cc c ph log :
      client_step (mkMachine c ph log) (mkMachine (client_exec cc c) ph log)
  | cstep_snapshot_return now sn c r c' log :
      ApplySnapshot_begin now sn c = (r, c') →
      client_step (mkMachine c Idle log) (mkMachine c' Idle log)
  | cstep_snapshot_begin now sn c c' log :
      is_u64 (snap_Generation sn) →
      ApplySnapshot_begin now sn c = (inr tt, c') →
      client_step (mkMachine c Idle log) (mkMachine c' (PreparingSnapshot sn) log)
  | cstep_snapshot_refused abort p e ev sn c log :
      checkPreparation CodeSnapshotRejected abort p = (inl e, ev) →
      client_step (mkMachine c (PreparingSnapshot sn) log)
        (mkMachine c Idle (log ++ prepared_event p ++ ev))
  | cstep_snapshot_finish now abort p h sn c r ev c' log :
      checkPreparation CodeSnapshotRejected abort p = (inr h, []) →
      ApplySnapshot_finish now abort sn h c = ((r, ev), c') →
      client_step (mkMachine c (PreparingSnapshot sn) log)
        (mkMachine c' Idle (log ++ prepared_event p ++ ev))
  | cstep_delta_return now d c r c' log :
      ApplyDelta_begin now d c = (r, c') →
      client_step (mkMachine c Idle log) (mkMachine c' Idle log)
  | cstep_delta_begin now d c c' log :
      is_u64 (delta_PreviousGeneration d) → delta_PreviousGeneration d ≠ two64 - 1 →
      ApplyDelta_begin now d c = (inr tt, c') →
      client_step (mkMachine c Idle log) (mkMachine c' (PreparingDelta d) log)
  | cstep_delta_refused abort p e ev d c log :
      checkPreparation CodeDeltaRejected abort p = (inl e, ev) →
      client_step (mkMachine c (PreparingDelta d) log)
        (mkMachine c Idle (log ++ prepared_event p ++ ev))
  | cstep_delta_finish now abort p h d c r ev c' log :
      checkPreparation CodeDeltaRejected abort p = (inr h, []) →
      ApplyDelta_finish now abort d h c = ((r, ev), c') →
      client_step (mkMachine c (PreparingDelta d) log)
        (mkMachine c' Idle (log ++ prepared_event p ++ ev))
  | cstep_ready_return now e1 e2 e3 c r c' log :
      MarkReady_begin now e1 e2 e3 c = (r, c') →
      client_step (mkMachine c Idle log) (mkMachine c' Idle log)
  | cstep_ready_begin now e1 e2 e3 c rd h cand c' log :
      MarkReady_begin now e1 e2 e3 c = (inr (rd, Some h, cand), c') →
      client_step (mkMachine c Idle log) (mkMachine c' (Activating rd h cand) log)
  | cstep_activate_failed rd h cand c log :
      client_step (mkMachine c (Activating rd h cand) log)
        (mkMachine (MarkReady_failed cand c) Idle (log ++ [EvActivateFailed h; EvAborted h]))
  | cstep_activated now rd h cand c r c' log :
      MarkReady_finish now rd cand c = (r, c') →
      client_step (mkMachine c (Activating rd h cand) log)
        (mkMachine c' Idle (log ++ [EvActivated h]))
  | cstep_close abort reason c r ev c' log :
      Client_Close abort reason c = ((r, ev), c') →
      client_step (mkMachine c Idle log) (mkMachine c' Idle (log ++ ev)).

(** ** Invariant *)

Definition client_bound (c : ClientSession) (p : Snapshot) : Prop :=
  snap_AccountID p = hello_AccountID (cs_hello c) ∧ snap_TunnelID p = hello_TunnelID (cs_hello c)
  ∧ snap_ConnectorID p = hello_ConnectorID (cs_hello c)
  ∧ snap_SessionID p = welcome_SessionID (cs_welcome c)
  ∧ snap_ProcessGeneration p = hello_ProcessGeneration (cs_hello c).

Record client_inv (c : ClientSession) : Prop := {
  cl_prepared : cs_hasCandidate c = nonnil (cs_prepared c);
  cl_candidate : cs_hasCandidate c = true →
    client_bound c (cs_candidate c) ∧ 0 < snap_Generation (cs_candidate c)
    ∧ cs_readyGeneration c = 0;
  cl_active : cs_hasActive c = true →
    client_bound c (cs_active c) ∧ 0 < snap_Generation (cs_active c);
  cl_order : cs_hasActive c = true → cs_hasCandidate c = true →
    snap_Generation (cs_active c) < snap_Generation (cs_candidate c);
  cl_ready : cs_state c = SessionReady →
    cs_hasActive c = true ∧ cs_readyGeneration c = snap_Generation (cs_active c);
  cl_new : cs_state c = SessionNew →
    cs_hasActive c = false ∧ cs_hasCandidate c = false ∧ cs_drain c = None
}.

(** What the holder of [applyMu] relies on. *)
Definition phase_inv (c : ClientSession) (ph : phase) : Prop :=
  match ph with
  | Idle => True
  | PreparingSnapshot sn =>
      cs_state c ≠ SessionNew ∧ snap_TunnelID sn = hello_TunnelID (cs_hello c)
      ∧ 0 < snap_Generation sn
      ∧ (cs_hasActive c = true → snap_Generation (cs_active c) < snap_Generation sn)
  | PreparingDelta d =>
      cs_state c ≠ SessionNew ∧ delta_TunnelID d = hello_TunnelID (cs_hello c)
      ∧ 0 < delta_Generation d
      ∧ (cs_hasActive c = true → snap_Generation (cs_active c) < delta_Generation d)
  | Activating rd h cand =>
      cs_state c ≠ SessionNew ∧ cs_hasCandidate c = true ∧ cs_prepared c = Some h
      ∧ cs_candidate c = cand ∧ ready_Generation rd = snap_Generation cand
      ∧ ready_ContentHash rd = snap_ContentHash cand
  end.

(** The fields a method without [applyMu] leaves alone. *)
Definition same_config (c c' : ClientSession) : Prop :=
  cs_active c' = cs_active c ∧ cs_hasActive c' = cs_hasActive c
  ∧ cs_candidate c' = cs_candidate c ∧ cs_hasCandidate c' = cs_hasCandidate c
  ∧ cs_prepared c' = cs_prepared c ∧ cs_hello c' = cs_hello c
  ∧ cs_readyGeneration c' = cs_readyGeneration c
  ∧ (cs_welcome c' = cs_welcome c ∨ cs_state c = SessionNew)
  ∧ (cs_state c' = SessionNew → cs_state c = SessionNew ∧ cs_drain c' = cs_drain c)
  ∧ (cs_state c' = SessionReady → cs_state c = SessionReady ∨
     cs_hasActive c = true ∧ cs_readyGeneration c = snap_Generation (cs_active c)).

Ltac same := unfold same_config; cbn in *; split_and!; try done; try tauto; try naive_solver.

Lemma client_exec_same cc c : client_inv c → same_config c (client_exec cc c).
Proof.
  intros Hi. destruct cc; cbn [client_exec].
  - unfold AcceptWelcome. cases; bools; same.
  - unfold Client_Heartbeat. client_check; cases; same.
  - unfold AcceptHeartbeatAck. destruct (HeartbeatAck_Validate _ _); [same|].
    client_check; [cases|..]; same.
  - unfold HandleDrain_begin. destruct ctxErr; [same|]. destruct (Drain_Validate _ _); [same|].
    client_check; [cases|..]; same.
  - unfold HandleDrain_failed, drainIs, Client_restoreStateLocked. cases; bools; same.
    all: destruct Hi; naive_solver.
  - unfold HandleDrain_finish. cases; same.
  - unfold Client_DrainProgress. destruct (_ <? _); [same|]. destruct ctxErr; [same|].
    client_check; [cases|..]; same.
  - unfold ApplyRenewal. destruct (AuthResult_ValidateBound _); [same|].
    client_check; [cases|..]; same.
  - unfold Client_CheckLease, Client_ensureActiveLocked. cases; bools; same.
Qed.

Lemma same_config_inv c c' : same_config c c' → client_inv c → client_inv c'.
Proof.
  intros (E1 & E2 & E3 & E4 & E5 & E6 & E7 & Hw & Hn & Hr) Hi.
  assert (cs_hasCandidate c = true ∨ cs_hasActive c = true → cs_welcome c' = cs_welcome c) as Hwel.
  { intros Hh. destruct Hw as [?|Hs]; [done|]. destruct (cl_new _ Hi Hs) as (? & ? & ?).
    destruct Hh; congruence. }
  destruct Hi as [Hp Hcand Hact Hord Hrdy Hnew].
  constructor; unfold client_bound in *; rewrite ?E1, ?E2, ?E3, ?E4, ?E5, ?E6, ?E7; auto.
  - intros Hc. rewrite Hwel by auto. auto.
  - intros Hc. rewrite Hwel by auto. auto.
  - intros Hc. destruct (Hr Hc); auto.
  - intros Hc. destruct (Hn Hc) as [Hs Hd]. rewrite Hd. auto.
Qed.

Lemma same_config_phase c c' ph : same_config c c' → phase_inv c ph → phase_inv c' ph.
Proof.
  intros (E1 & E2 & E3 & E4 & E5 & E6 & E7 & Hw & Hn & Hr).
  destruct ph; cbn; rewrite ?E1, ?E2, ?E3, ?E4, ?E5, ?E6; naive_solver.
Qed.

(** A session that stays in the same configuration, or is closed by the active
    check, keeps the invariant. *)
Lemma client_closed_same reason c : cs_state c ≠ SessionNew → same_config c (client_closed reason c).
Proof. intros. unfold client_closed. same. Qed.

Lemma same_config_refl c : same_config c c.
Proof. same. Qed.

(** *** The sections of the methods that hold [applyMu] *)

Lemma Snapshot_Validate_generation sn : Snapshot_Validate sn = None → snap_Generation sn ≠ 0.
Proof. unfold Snapshot_Validate. intros H. cases; bools; lia. Qed.

Lemma ApplySnapshot_begin_same now sn c r c' :
  ApplySnapshot_begin now sn c = (r, c') → same_config c c'.
Proof.
  unfold ApplySnapshot_begin. destruct (Snapshot_Validate sn); [intros [= <- <-]; apply same_config_refl|].
  client_check.
  - intros Hb. cases; apply same_config_refl.
  - intros [= <- <-]. apply same_config_refl.
  - intros [= <- <-]. by apply client_closed_same.
Qed.

Lemma ApplySnapshot_begin_continue now sn c c' :
  client_inv c → is_u64 (snap_Generation sn) → ApplySnapshot_begin now sn c = (inr tt, c') →
  c' = c ∧ phase_inv c (PreparingSnapshot sn).
Proof.
  intros Hi Hu. unfold ApplySnapshot_begin.
  destruct (Snapshot_Validate sn) eqn:Hv; [done|]. apply Snapshot_Validate_generation in Hv.
  client_check; [|done..]. destruct Hlive as (_ & ? & _). unfold is_u64 in Hu.
  pose proof (cl_order _ Hi) as Hord. cbn.
  intros Hb. cases; bools; split_and!; try done; try lia; intros; try congruence.
  specialize (Hord ltac:(done) ltac:(done)). lia.
Qed.

Lemma ApplyDelta_begin_same now d c r c' : ApplyDelta_begin now d c = (r, c') → same_config c c'.
Proof.
  unfold ApplyDelta_begin. destruct (Delta_Validate d); [intros [= <- <-]; apply same_config_refl|].
  client_check.
  - intros Hb. cases; same.
  - intros [= <- <-]. apply same_config_refl.
  - intros [= <- <-]. by apply client_closed_same.
Qed.

Lemma ApplyDelta_begin_continue now d c c' :
  is_u64 (delta_PreviousGeneration d) → delta_PreviousGeneration d ≠ two64 - 1 →
  ApplyDelta_begin now d c = (inr tt, c') →
  c' = c ∧ phase_inv c (PreparingDelta d).
Proof.
  intros Hu Hmax. unfold ApplyDelta_begin. destruct (Delta_Validate d); [done|].
  client_check; [|done..]. destruct Hlive as (_ & ? & _). cbn.
  intros Hb. cases; bools; split_and!; try done.
  all: assert (delta_Generation d = delta_PreviousGeneration d + 1) as ->
    by (rewrite u64_id in *; unfold is_u64 in *; lia).
  all: unfold is_u64 in *; lia.
Qed.

Lemma MarkReady_begin_same now e1 e2 e3 c r c' :
  MarkReady_begin now e1 e2 e3 c = (r, c') → same_config c c'.
Proof.
  unfold MarkReady_begin. client_check.
  - intros Hb. cases; apply same_config_refl.
  - intros [= <- <-]. apply same_config_refl.
  - intros [= <- <-]. by apply client_closed_same.
Qed.

Lemma MarkReady_begin_continue now e1 e2 e3 c rd h cand c' :
  MarkReady_begin now e1 e2 e3 c = (inr (rd, Some h, cand), c') →
  c' = c ∧ phase_inv c (Activating rd h cand).
Proof.
  unfold MarkReady_begin. client_check; [|done..]. destruct Hlive as (_ & ? & _).
  unfold cloneSnapshot. intros Hb. cases; bools; split_and!; done.
Qed.

(** Staging: the candidate is set together with its prepared configuration, and
    only when none is staged. *)
Lemma ApplySnapshot_finish_inv now abort sn h c r ev c' :
  client_inv c → phase_inv c (PreparingSnapshot sn) →
  ApplySnapshot_finish now abort sn h c = ((r, ev), c') →
  client_inv c' ∧ cs_active c' = cs_active c ∧ cs_hasActive c' = cs_hasActive c
  ∧ (cs_prepared c' = cs_prepared c ∧ ev = [EvAborted h]
     ∨ cs_prepared c = None ∧ cs_prepared c' = Some h ∧ ev = []).
Proof.
  intros Hi (Hn & Ht & Hpos & Hlt). unfold ApplySnapshot_finish.
  client_check; intros Hb; cbn in Hb; simplify_eq.
  - rewrite (cl_prepared _ Hi) in Hb.
    destruct (cs_prepared c) as [h'|] eqn:Hp; cbn in Hb; simplify_eq.
    { split_and!; auto. }
    destruct Hi as [Hc Hcand Hact Hord Hrdy Hnew].
    split_and!; try done; [|by right].
    constructor; unfold client_bound in *; cbn in *; try done; auto.
  - split_and!; try done. by left.
  - split_and!; try done; [|by left].
    eapply same_config_inv; [by apply client_closed_same|done].
Qed.

Lemma ApplyDelta_finish_inv now abort d h c r ev c' :
  client_inv c → phase_inv c (PreparingDelta d) →
  ApplyDelta_finish now abort d h c = ((r, ev), c') →
  client_inv c' ∧ cs_active c' = cs_active c ∧ cs_hasActive c' = cs_hasActive c
  ∧ (cs_prepared c' = cs_prepared c ∧ ev = [EvAborted h]
     ∨ cs_prepared c = None ∧ cs_prepared c' = Some h ∧ ev = []).
Proof.
  intros Hi (Hn & Ht & Hpos & Hlt). unfold ApplyDelta_finish.
  client_check; intros Hb; cbn in Hb; simplify_eq.
  - rewrite (cl_prepared _ Hi) in Hb.
    destruct (cs_prepared c) as [h'|] eqn:Hp; cbn in Hb; simplify_eq.
    { split_and!; auto. }
    destruct Hi as [Hc Hcand Hact Hord Hrdy Hnew].
    split_and!; try done; [|by right].
    constructor; unfold client_bound in *; cbn in *; try done; auto.
  - split_and!; try done. by left.
  - split_and!; try done; [|by left].
    eapply same_config_inv; [by apply client_closed_same|done].
Qed.

Lemma MarkReady_failed_inv rd h cand c :
  client_inv c → phase_inv c (Activating rd h cand) →
  client_inv (MarkReady_failed cand c) ∧ cs_active (MarkReady_failed cand c) = cs_active c
  ∧ cs_hasActive (MarkReady_failed cand c) = cs_hasActive c
  ∧ cs_prepared (MarkReady_failed cand c) = None.
Proof.
  intros [Hc Hcand Hact Hord Hrdy Hnew] (Hn & Hhas & Hp & <- & _ & _).
  unfold MarkReady_failed, Client_restoreStateLocked.
  rewrite Hhas, Z.eqb_refl, bool_decide_true by done. cbn.
  cases; bools; split_and!; try done; constructor; unfold client_bound in *; cbn in *; try done; auto.
Qed.

Lemma MarkReady_finish_inv now rd h cand c r c' :
  client_inv c → phase_inv c (Activating rd h cand) →
  MarkReady_finish now rd cand c = (r, c') →
  client_inv c' ∧ (cs_active c' = cs_active c ∧ cs_hasActive c' = cs_hasActive c
                   ∧ cs_prepared c' = cs_prepared c ∧ cs_state c' = SessionClosed
                   ∧ is_Some r.2
                   ∨ cs_active c' = cand ∧ cs_hasActive c' = true ∧ cs_prepared c' = None
                     ∧ cs_state c' = SessionReady ∧ r = (rd, None)).
Proof.
  intros Hi (Hn & Hhas & Hp & <- & Hg & Hh). unfold MarkReady_finish.
  client_check; intros Hb; cbn in Hb; simplify_eq.
  - rewrite Hhas, Z.eqb_refl, bool_decide_true in Hb by done. cbn in Hb. simplify_eq.
    destruct Hi as [Hc Hcand Hact Hord Hrdy Hnew]. destruct (Hcand Hhas) as (? & ? & ?).
    split; [|right; unfold cloneSnapshot; cbn; split_and!; done].
    constructor; unfold client_bound, cloneSnapshot in *; cbn in *; try done; auto.
  - destruct Hdead; [|done]. split; [done|]. left. split_and!; eauto.
  - split; [|left; split_and!; eauto].
    eapply same_config_inv; [by apply client_closed_same|done].
Qed.

Lemma Client_Close_inv abort reason c r ev c' :
  client_inv c → Client_Close abort reason c = ((r, ev), c') →
  client_inv c' ∧ cs_active c' = cs_active c ∧ cs_hasActive c' = cs_hasActive c
  ∧ (cs_prepared c' = cs_prepared c ∧ ev = []
     ∨ cs_prepared c' = None ∧ ev = (abortPrepared abort (cs_prepared c)).2).
Proof.
  intros Hi Hb. unfold Client_Close in Hb.
  destruct (negb _); [simplify_eq; auto 10|]. destruct (_ == _) eqn:Hs; [simplify_eq; auto 10|]. bools.
  destruct (abortPrepared abort (cs_prepared c)) as [aerr aev] eqn:Ha.
  assert (ev = aev ∧ c' = c <| cs_state := SessionClosed |> <| cs_disconnectReason := reason |>
               <| cs_prepared := None |> <| cs_candidate := zeroSnapshot |>
               <| cs_hasCandidate := false |>) as [-> ->] by (by cases).
  destruct Hi as [Hc Hcand Hact Hord Hrdy Hnew].
  cbn. split; [|auto 10].
  constructor; unfold client_bound in *; cbn in *; try done; auto.
Qed.

(** ** Preservation *)

(** Every configuration the applier prepared was activated, was aborted, or is
    the staged one. *)
Definition accounted (m : machine) : Prop :=
  ∀ h, EvPrepared h ∈ m_log m →
       EvAborted h ∈ m_log m ∨ EvActivated h ∈ m_log m ∨ cs_prepared (m_c m) = Some h.

Definition machine_inv (m : machine) : Prop :=
  client_inv (m_c m) ∧ phase_inv (m_c m) (m_phase m) ∧ accounted m.

(** The served configuration: unchanged, or the successful activation of the
    staged one, which is newer. *)
Definition active_change (m m' : machine) : Prop :=
  cs_active (m_c m') = cs_active (m_c m) ∧ cs_hasActive (m_c m') = cs_hasActive (m_c m)
  ∨ cs_active (m_c m') = cs_candidate (m_c m) ∧ cs_hasActive (m_c m') = true
    ∧ cs_hasCandidate (m_c m) = true
    ∧ (cs_hasActive (m_c m) = true →
       snap_Generation (cs_active (m_c m)) < snap_Generation (cs_candidate (m_c m)))
    ∧ ∃ h, cs_prepared (m_c m) = Some h ∧ m_log m' = m_log m ++ [EvActivated h].

Lemma accounted_more c c' ph ph' log ev :
  accounted (mkMachine c ph log) →
  (∀ h, EvPrepared h ∈ ev →
        EvAborted h ∈ ev ∨ EvActivated h ∈ ev ∨ cs_prepared c' = Some h) →
  (∀ h, cs_prepared c = Some h → cs_prepared c' = Some h ∨ EvAborted h ∈ ev ∨ EvActivated h ∈ ev) →
  accounted (mkMachine c' ph' (log ++ ev)).
Proof.
  intros Ha Hev Hp h Hin. cbn in *. setoid_rewrite elem_of_app. setoid_rewrite elem_of_app in Hin.
  destruct Hin as [Hin|Hin].
  - destruct (Ha h Hin) as [?|[?|Hs]]; cbn in *; [tauto|tauto|]. destruct (Hp h Hs) as [?|[?|?]]; tauto.
  - destruct (Hev h Hin) as [?|[?|?]]; tauto.
Qed.

Lemma accounted_same c c' ph ph' log :
  accounted (mkMachine c ph log) → cs_prepared c' = cs_prepared c →
  accounted (mkMachine c' ph' log).
Proof. intros Ha Hp h Hin. cbn in *. rewrite Hp. by apply Ha. Qed.

(** A preparation that is not staged was aborted. *)
Lemma checkPreparation_refused rej abort p e ev h :
  checkPreparation rej abort p = (inl e, ev) → prep_prepared p = Some h → ev = [EvAborted h].
Proof. unfold checkPreparation, abortPrepared. intros Hc Hp. rewrite Hp in Hc. by cases. Qed.

Lemma checkPreparation_ok rej abort p h ev :
  checkPreparation rej abort p = (inr h, ev) → prep_prepared p = Some h.
Proof. unfold checkPreparation. intros Hc. by cases. Qed.

Lemma finish_accounted rej abort p h c c' ph ph' log ev :
  checkPreparation rej abort p = (inr h, []) →
  (cs_prepared c' = cs_prepared c ∧ ev = [EvAborted h]
   ∨ cs_prepared c = None ∧ cs_prepared c' = Some h ∧ ev = []) →
  accounted (mkMachine c ph log) →
  accounted (mkMachine c' ph' (log ++ prepared_event p ++ ev)).
Proof.
  intros Hc%checkPreparation_ok Hp Ha. unfold prepared_event. rewrite Hc. cbn.
  eapply accounted_more; [done|..].
  - intros h' Hin. destruct Hp as [[-> ->]|(? & -> & ->)]; set_solver.
  - intros h' Hs. destruct Hp as [[-> ->]|(? & -> & ->)]; [by left|congruence].
Qed.

Lemma refused_accounted rej abort p e c ph ph' log ev :
  checkPreparation rej abort p = (inl e, ev) →
  accounted (mkMachine c ph log) → accounted (mkMachine c ph' (log ++ prepared_event p ++ ev)).
Proof.
  intros Hc Ha. unfold prepared_event. eapply accounted_more; [done| |by left].
  intros h Hin. destruct (prep_prepared p) as [h'|] eqn:Hp.
  - rewrite (checkPreparation_refused _ _ _ _ _ _ Hc Hp) in *. set_solver.
  - unfold checkPreparation, abortPrepared in Hc. rewrite Hp in Hc. cbn in Hin. cases; set_solver.
Qed.

(** One step preserves the machine invariant and changes the served
    configuration only by a successful activation. *)
Lemma client_step_inv m m' :
  client_step m m' → machine_inv m → machine_inv m' ∧ active_change m m'.
Proof.
  intros Hs (Hi & Hph & Hacc). unfold machine_inv, active_change.
  destruct Hs; cbn in *.
  - pose proof (client_exec_same cc c Hi) as Hsame. pose proof Hsame as (? & ? & _ & _ & ? & _).
    split; [|by left]. split; [|split]; eauto using same_config_inv, same_config_phase, accounted_same.
  - pose proof (ApplySnapshot_begin_same _ _ _ _ _ H) as Hsame.
    pose proof Hsame as (? & ? & _ & _ & ? & _).
    split; [|by left]. split; [|split]; eauto using same_config_inv, accounted_same.
  - destruct (ApplySnapshot_begin_continue _ _ _ _ Hi H H0) as [-> ?].
    split; [|by left]. split; [|split]; eauto using accounted_same.
  - split; [|by left]. split; [|split]; eauto using refused_accounted.
  - destruct (ApplySnapshot_finish_inv _ _ _ _ _ _ _ _ Hi Hph H0) as (? & ? & ? & ?).
    split; [|by left]. split; [|split]; eauto using finish_accounted.
  - pose proof (ApplyDelta_begin_same _ _ _ _ _ H) as Hsame.
    pose proof Hsame as (? & ? & _ & _ & ? & _).
    split; [|by left]. split; [|split]; eauto using same_config_inv, accounted_same.
  - destruct (ApplyDelta_begin_continue _ _ _ _ H H0 H1) as [-> ?].
    split; [|by left]. split; [|split]; eauto using accounted_same.
  - split; [|by left]. split; [|split]; eauto using refused_accounted.
  - destruct (ApplyDelta_finish_inv _ _ _ _ _ _ _ _ Hi Hph H0) as (? & ? & ? & ?).
    split; [|by left]. split; [|split]; eauto using finish_accounted.
  - pose proof (MarkReady_begin_same _ _ _ _ _ _ _ H) as Hsame.
    pose proof Hsame as (? & ? & _ & _ & ? & _).
    split; [|by left]. split; [|split]; eauto using same_config_inv, accounted_same.
  - destruct (MarkReady_begin_continue _ _ _ _ _ _ _ _ _ H) as [-> ?].
    split; [|by left]. split; [|split]; eauto using accounted_same.
  - destruct (MarkReady_failed_inv _ _ _ _ Hi Hph) as (? & ? & ? & ?).
    destruct Hph as (_ & _ & Hp & _). split; [|by left]. split; [|split]; auto.
    eapply accounted_more; [done|set_solver|]. intros h' Hh'. right. left. set_solver.
  - pose proof (MarkReady_finish_inv _ _ _ _ _ _ _ Hi Hph H) as (? & Hcase).
    destruct Hph as (_ & Hhas & Hp & <- & _).
    assert (accounted (mkMachine c' Idle (log ++ [EvActivated h]))) as Hacc'.
    { eapply accounted_more; [done|set_solver|]. intros h' Hh'. right. right. set_solver. }
    split; [done|]. destruct Hcase as [(? & ? & _)|(? & ? & _)]; [by left|].
    right. split_and!; auto. { intros. by apply (cl_order _ Hi). } eauto.
  - destruct (Client_Close_inv _ _ _ _ _ _ Hi H) as (? & ? & ? & Hcase).
    split; [|by left]. split; [|split]; auto.
    eapply accounted_more; [done|..]; destruct Hcase as [[Hp ->]|[Hp ->]].
    + set_solver.
    + unfold abortPrepared. case_match; set_solver.
    + rewrite Hp. auto.
    + intros h Hh. rewrite Hh. cbn. set_solver.
Qed.

Lemma client_run_inv m m' : rtc client_step m m' → machine_inv m → machine_inv m'.
Proof. induction 1; [done|]. intros. apply IHrtc. by eapply client_step_inv. Qed.

Lemma NewClientSession_inv now hello a b c :
  NewClientSession now hello a b = inr c → machine_inv (mkMachine c Idle []).
Proof.
  unfold NewClientSession. intros H. cases; (split_and!; [|done|intros h; set_solver]);
    constructor; done.
Qed.
End Client.
