(* ===== verification/Handshake.v ===== *)
(** * Both ends of a connector session

    Composition of [ServerSession] and [ClientSession]: a cutover to an offered
    snapshot ends with both ends serving it, and an accepted process that runs
    the bootstrap sequence reaches that point. *)
From S2P Require Import Prelude Go Protocol Messages Registry Server ServerProofs Client ClientProofs ServerGuarantees.

Section Handshake.
Context {codec : PayloadCodec}.

(** The two ends of one session agree on its identity. *)
Definition paired (s : ServerSession) (c : ClientSession) : Prop :=
  hello_AccountID (cs_hello c) = ares_AccountID (ss_auth s)
  ∧ hello_TunnelID (cs_hello c) = ref_TunnelID (ss_ref s)
  ∧ hello_ConnectorID (cs_hello c) = ref_ConnectorID (ss_ref s)
  ∧ welcome_SessionID (cs_welcome c) = ref_SessionID (ss_ref s)
  ∧ hello_ProcessGeneration (cs_hello c) = ref_ProcessGeneration (ss_ref s).

Lemma Snapshot_ValidateBound_None p :
  Snapshot_ValidateBound p = None →
  badID (snap_AccountID p) = false ∧ badID (snap_TunnelID p) = false
  ∧ badID (snap_ConnectorID p) = false ∧ badID (snap_SessionID p) = false
  ∧ snap_ProcessGeneration p ≠ 0 ∧ snap_Generation p ≠ 0 ∧ hashPattern (snap_ContentHash p) = true
  ∧ Snapshot_Validate p = None.
Proof.
  unfold Snapshot_ValidateBound. intros H. destruct (_ || _) eqn:E; [done|]. bools.
  pose proof H as H'. unfold Snapshot_Validate in H'. cases; bools; split_and!; done.
Qed.

(** The acknowledgement and the readiness report of a valid snapshot are valid
    messages. *)
Lemma applied_ack_valid p :
  Snapshot_ValidateBound p = None →
  Ack_Validate (mkAck (snap_AccountID p) (snap_TunnelID p) (snap_ConnectorID p) (snap_SessionID p)
                  (snap_ProcessGeneration p) AckSnapshot AckApplied (snap_Generation p)
                  (snap_ContentHash p) "") = None.
Proof.
  intros (H1 & H2 & H3 & H4 & H5 & H6 & H7 & _)%Snapshot_ValidateBound_None.
  unfold Ack_Validate. cbn. rewrite H1, H2, H3, H4, H7.
  apply Z.eqb_neq in H5, H6. by rewrite H5, H6.
Qed.

Lemma ready_report_valid p :
  Snapshot_ValidateBound p = None →
  Readiness_Validate (mkReadiness (snap_AccountID p) (snap_SessionID p) (snap_TunnelID p)
     (snap_ConnectorID p) (snap_ProcessGeneration p) (snap_Generation p) (snap_ContentHash p)
     true true true) = None.
Proof.
  intros (H1 & H2 & H3 & H4 & H5 & H6 & H7 & _)%Snapshot_ValidateBound_None.
  unfold Readiness_Validate. cbn. rewrite H1, H2, H3, H4, H7.
  apply Z.eqb_neq in H5, H6. by rewrite H5, H6.
Qed.

(** The client's two steps on a fresh snapshot. *)
Lemma client_applies now ctx h abort p c :
  client_live now c → client_bound c p → Snapshot_ValidateBound p = None →
  cs_hasCandidate c = false →
  (cs_hasActive c = true → snap_Generation (cs_active c) < snap_Generation p) →
  ∃ c1,
    ApplySnapshot now now None (mkPreparation (Some h) None None ctx) abort p c
    = (((mkAck (snap_AccountID p) (snap_TunnelID p) (snap_ConnectorID p) (snap_SessionID p)
           (snap_ProcessGeneration p) AckSnapshot AckApplied (snap_Generation p)
           (snap_ContentHash p) "", None), [EvPrepared h]), c1)
    ∧ c1 = c <| cs_candidate := p |> <| cs_hasCandidate := true |> <| cs_prepared := Some h |>
             <| cs_needsSnapshot := false |> <| cs_readyGeneration := 0 |>
             <| cs_state := SessionAwaitingReady |>.
Proof.
  intros Hl (B1 & B2 & B3 & B4 & B5) Hv Hnc Hlt.
  pose proof (Snapshot_ValidateBound_None _ Hv) as (_ & _ & _ & _ & _ & _ & _ & Hv').
  eexists. split; [|done].
  unfold ApplySnapshot, ApplySnapshot_begin. rewrite Hv', Client_whenActive_live, Hv by done.
  cbn [failed]. rewrite B1, B2, B3, B4, B5, !bool_decide_true, Z.eqb_refl, Hnc by done. cbn.
  rewrite orb_false_r.
  replace (if cs_hasActive c then _ else _) with (inr tt : (Ack * option err) + unit, c).
  2: { destruct (cs_hasActive c); [|done]. specialize (Hlt eq_refl).
       rewrite (proj2 (Z.ltb_ge _ _)), (proj2 (Z.eqb_neq _ _)) by lia. done. }
  cbn. unfold ApplySnapshot_finish. rewrite Client_whenActive_live by done. rewrite Hnc. cbn.
  unfold bindSnapshot, Client_makeAckLocked. cbn. rewrite <- B1, <- B2, <- B3, <- B4, <- B5.
  by destruct p.
Qed.

Lemma client_promotes now e2 h activate abort p c :
  client_live now c → client_bound c p → activate h = None →
  cs_hasCandidate c = true → cs_candidate c = p → cs_prepared c = Some h →
  ∃ c1,
    MarkReadyContext now now None e2 activate abort true true true c
    = (((mkReadiness (snap_AccountID p) (snap_SessionID p) (snap_TunnelID p) (snap_ConnectorID p)
           (snap_ProcessGeneration p) (snap_Generation p) (snap_ContentHash p) true true true, None),
        [EvActivated h]), c1)
    ∧ cs_active c1 = p ∧ cs_hasActive c1 = true ∧ cs_hasCandidate c1 = false
    ∧ cs_state c1 = SessionReady ∧ cs_readyGeneration c1 = snap_Generation p
    ∧ cs_needsSnapshot c1 = false ∧ cs_hello c1 = cs_hello c ∧ cs_welcome c1 = cs_welcome c
    ∧ client_live now c1.
Proof.
  intros Hl (B1 & B2 & B3 & B4 & B5) Hact Hc Hp Hh.
  unfold MarkReadyContext, MarkReady_begin. rewrite Client_whenActive_live by done.
  rewrite Hc, Hh. cbn. rewrite Hact. unfold MarkReady_finish.
  rewrite Client_whenActive_live by done. unfold cloneSnapshot.
  rewrite Hc, Z.eqb_refl, bool_decide_true by done. cbn.
  eexists. split; [by rewrite Hp, B1, B2, B3, B4, B5|]. cbn. subst p. split_and!; try done.
  destruct Hl as (L1 & L2 & L3 & L4). unfold client_live. cbn. split_and!; done.
Qed.

(** The server's two steps on the client's messages. *)
Lemma server_stages now p r s :
  live now (r, s) → bound_snapshot s p → Snapshot_ValidateBound p = None →
  ss_pendingSnapshot s = Some p →
  ∃ s1,
    HandleAck now (mkAck (snap_AccountID p) (snap_TunnelID p) (snap_ConnectorID p) (snap_SessionID p)
         (snap_ProcessGeneration p) AckSnapshot AckApplied (snap_Generation p)
         (snap_ContentHash p) "") (r, s) = (None, (r, s1))
    ∧ ss_candidate s1 = p ∧ ss_hasCandidate s1 = true ∧ live now (r, s1) ∧ bound_snapshot s1 p
    ∧ ss_pendingSnapshot s1 = None ∧ ss_pendingDelta s1 = ss_pendingDelta s
    ∧ ss_auth s1 = ss_auth s ∧ ss_ref s1 = ss_ref s.
Proof.
  intros Hl (B1 & B2 & B3 & B4 & B5) Hv Hp.
  unfold HandleAck. rewrite applied_ack_valid, whenActive_live by done.
  unfold matchesIdentity. cbn. rewrite B1, B2, B3, B4, B5, !bool_decide_true, Z.eqb_refl, Hp by done.
  cbn. rewrite Z.eqb_refl, bool_decide_true by done. cbn.
  destruct Hl as (L1 & L2 & L3 & L4 & L5).
  destruct (negb _); eexists; (split; [done|]); split_and!; try done; unfold live; cbn; split_and!; done.
Qed.

Lemma server_promotes now p r s :
  live now (r, s) → bound_snapshot s p → Snapshot_ValidateBound p = None →
  ss_hasCandidate s = true → ss_candidate s = p →
  ∃ a s1,
    HandleReadiness now (mkReadiness (snap_AccountID p) (snap_SessionID p) (snap_TunnelID p)
       (snap_ConnectorID p) (snap_ProcessGeneration p) (snap_Generation p) (snap_ContentHash p)
       true true true) (r, s) = (inr a, (r, s1))
    ∧ Current s1 = (p, true, snap_Generation p) ∧ ss_state s1 = SessionReady
    ∧ ss_active s1 = p ∧ ss_hasActive s1 = true ∧ ss_hasCandidate s1 = false
    ∧ ss_pendingSnapshot s1 = ss_pendingSnapshot s ∧ ss_pendingDelta s1 = ss_pendingDelta s
    ∧ ss_auth s1 = ss_auth s ∧ ss_ref s1 = ss_ref s ∧ live now (r, s1).
Proof.
  intros Hl (B1 & B2 & B3 & B4 & B5) Hv Hc Hp.
  unfold HandleReadiness. rewrite ready_report_valid, whenActive_live by done.
  unfold matchesIdentity. cbn. rewrite B1, B2, B3, B4, B5, !bool_decide_true, Z.eqb_refl, Hc, Hp by done.
  cbn. rewrite Z.eqb_refl, bool_decide_true by done. cbn.
  eexists _, _. split; [done|]. unfold Current, cloneSnapshot. cbn.
  rewrite Z.eqb_refl. split_and!; try done.
  destruct Hl as (L1 & L2 & L3 & L4 & L5). unfold live. cbn. split_and!; done.
Qed.

(** One end-to-end cutover: the client applies the snapshot the server offers,
    the server stages it on the acknowledgement, the client promotes it, and the
    server promotes it on the readiness report. *)
Definition cutover (now : Time) (h : handle) (activate abort : handle → option err) (p : Snapshot)
    (w : world) (c : ClientSession) : option (world * ClientSession * list event) :=
  match ApplySnapshot now now None (mkPreparation (Some h) None None None) abort p c with
  | (((ack, None), ev1), c) =>
    match HandleAck now ack w with
    | (None, w) =>
      match MarkReadyContext now now None None activate abort true true true c with
      | (((rd, None), ev2), c) =>
        match HandleReadiness now rd w with
        | (inr _, w) => Some (w, c, ev1 ++ ev2)
        | _ => None
        end
      | _ => None
      end
    | _ => None
    end
  | _ => None
  end.

(** The two ends of a live session serve [p], report it ready, and have nothing
    offered or staged. *)
Record in_sync (now : Time) (w : world) (c : ClientSession) (p : Snapshot) : Prop := {
  sync_paired : paired w.2 c;
  sync_server : live now w;
  sync_client : client_live now c;
  sync_bound : bound_snapshot w.2 p ∧ Snapshot_ValidateBound p = None;
  sync_current : Current w.2 = (p, true, snap_Generation p);
  sync_active : Client_Active c = Some p;
  sync_states : ss_state w.2 = SessionReady ∧ cs_state c = SessionReady;
  sync_server_idle : ss_pendingSnapshot w.2 = None ∧ ss_pendingDelta w.2 = None
                     ∧ ss_hasCandidate w.2 = false;
  sync_client_idle : cs_hasCandidate c = false
}.

(** A cutover completes: when both ends are live, the server offers a valid
    snapshot bound to the session, nothing is staged at the client and the offer
    is newer than what the client serves, and the runtime prepares and activates
    it, then all four messages are accepted. *)
Lemma cutover_completes now h activate abort p r s c :
  paired s c → live now (r, s) → client_live now c →
  bound_snapshot s p → Snapshot_ValidateBound p = None →
  ss_pendingSnapshot s = Some p → ss_pendingDelta s = None →
  cs_hasCandidate c = false →
  (cs_hasActive c = true → snap_Generation (cs_active c) < snap_Generation p) →
  activate h = None →
  ∃ w' c', cutover now h activate abort p (r, s) c
           = Some (w', c', [EvPrepared h; EvActivated h])
    ∧ in_sync now w' c' p.
Proof.
  intros (P1 & P2 & P3 & P4 & P5) Hls Hlc Hb Hv Hp Hd Hnc Hlt Hact.
  assert (client_bound c p) as Hbc.
  { destruct Hb as (B1 & B2 & B3 & B4 & B5). unfold client_bound. split_and!; congruence. }
  destruct (client_applies now None h abort p c Hlc Hbc Hv Hnc Hlt) as (c1 & E1 & Hc1).
  destruct (server_stages now p r s Hls Hb Hv Hp) as (s1 & E2 & S1 & S2 & S3 & S4 & S5 & S6 & S7 & S8).
  assert (client_live now c1) as Hl1.
  { destruct Hlc as (? & ? & ? & ?). subst c1. unfold client_live. cbn. split_and!; done. }
  destruct (client_promotes now None h activate abort p c1)
    as (c2 & E3 & C1 & C2 & C3 & C4 & _ & _ & C5 & C6 & C7); [done|subst c1; done..|].
  destruct (server_promotes now p r s1 S3 S4 Hv S2 S1)
    as (a & s2 & E4 & F1 & F2 & F3 & F4 & F5 & F6 & F7 & F8 & F9 & F10).
  exists (r, s2), c2. unfold cutover. rewrite E1, E2, E3, E4. split; [done|].
  constructor; cbn; try done.
  - unfold paired. rewrite C5, C6, F8, F9, S7, S8. subst c1. cbn. done.
  - unfold bound_snapshot. by rewrite F8, F9, S7, S8.
  - unfold Client_Active, cloneSnapshot. by rewrite C2, C1.
  - split_and!; congruence.
Qed.

(** ** Bootstrap *)

Lemma Hello_Validate_None hello now :
  Hello_Validate hello now = None →
  badID (hello_AccountID hello) = false ∧ badID (hello_TunnelID hello) = false
  ∧ badID (hello_ConnectorID hello) = false ∧ hello_ProcessGeneration hello ≠ 0
  ∧ capabilities_ok (hello_Capabilities hello)
  ∧ (∃ v, NegotiateVersion (hello_MinVersion hello) (hello_MaxVersion hello) = inr v).
Proof.
  unfold Hello_Validate. intros H. cases; bools. split_and!; try done; [|eauto].
  by apply ValidateCapabilities_None.
Qed.

Lemma AuthResult_Validate_None a now :
  AuthResult_Validate a now = None → now ≠ 0 → now < ares_CredentialExpiresAt a.
Proof.
  unfold AuthResult_Validate, IsZero, After. intros H Hn. cases; bools_or.
  repeat match goal with H : _ ∨ _ |- _ => destruct H; bools_or end; try done; lia.
Qed.

Lemma Lease_Validate_None l now :
  Lease_Validate l now = None → now ≠ 0 → now < lease_ExpiresAt l.
Proof.
  unfold Lease_Validate, IsZero, After. intros H Hn. cases; bools_or.
  repeat match goal with H : _ ∨ _ |- _ => destruct H; bools_or end; try done; lia.
Qed.

(** Binding a valid snapshot to valid identifiers keeps it valid. *)
Lemma bindSnapshot_valid sn acct con sess gen :
  Snapshot_Validate sn = None → badID acct = false → badID con = false → badID sess = false →
  gen ≠ 0 → Snapshot_ValidateBound (bindSnapshot sn acct con sess gen) = None.
Proof.
  intros Hv H1 H2 H3 H4. unfold Snapshot_ValidateBound, bindSnapshot. cbn.
  apply Z.eqb_neq in H4. rewrite H1, H2, H3, H4. cbn.
  unfold Snapshot_Validate in *. cbn. rewrite H1, H3, !andb_false_r.
  destruct (_ || _) eqn:E in Hv; [done|]. bools. cbn.
  repeat match goal with H : ?b = false |- context [?b] => rewrite H end. cbn.
  repeat match goal with H : hashPattern _ = true |- _ => rewrite H end. cbn.
  destruct (snap_Generation sn =? 0) eqn:G; bools; [lia|].
  destruct (MaxSnapshotBytes <? blen (snap_Payload sn)) eqn:G2; bools; [lia|].
  destruct (blen (snap_Payload sn) =? 0) eqn:G3; bools; [lia|done].
Qed.

(** What a successful [Accept] has established, branch by branch. *)
Lemma Accept_established config now newID hello r s welcome sn r' :
  Accept config now newID hello r = (inr (s, welcome, sn), r') → now ≠ 0 →
  Hello_Validate hello now = None
  ∧ badID (ref_SessionID (ss_ref s)) = false
  ∧ ss_ref s = mkSessionRef (hello_TunnelID hello) (hello_ConnectorID hello)
                 (ref_SessionID (ss_ref s)) (hello_ProcessGeneration hello)
  ∧ ares_AccountID (ss_auth s) = hello_AccountID hello
  ∧ now < ares_CredentialExpiresAt (ss_auth s)
  ∧ ss_lastHeartbeat s = now
  ∧ Lease_Validate (ss_lease s) now = None
  ∧ lease_SessionID (ss_lease s) = ref_SessionID (ss_ref s)
  ∧ (∃ caps, NegotiateCapabilities (hello_Capabilities hello) (cfg_Capabilities config) = inr caps
             ∧ welcome = mkWelcome ProtocolName ProtocolVersion (ref_SessionID (ss_ref s)) caps
                           (ss_lease s) true now)
  ∧ (∃ raw, Snapshot_Validate raw = None ∧ snap_TunnelID raw = hello_TunnelID hello
            ∧ sn = bindSnapshot raw (hello_AccountID hello) (hello_ConnectorID hello)
                     (ref_SessionID (ss_ref s)) (hello_ProcessGeneration hello))
  ∧ ss_pendingSnapshot s = Some sn ∧ ss_pendingDelta s = None
  ∧ 0 ≤ lease_HeartbeatIntervalMS (ss_lease s)
  ∧ r' !! hello_ConnectorID hello = Some (ss_ref s)
  ∧ ss_state s = SessionAwaitingSnapshot.
Proof.
  unfold Accept. intros H Hnow. cases; bools.
  all: match goal with H : NegotiateVersion _ _ = inr _ |- _ =>
         apply NegotiateVersion_spec in H as (_ & _ & -> & _) end.
  all: match goal with H : Attach _ _ = _ |- _ => apply Attach_inr in H as (-> & _ & _) end.
  all: repeat match goal with H : failed _ = false |- _ => apply failed_false in H end.
  all: split_and!; try done; eauto using AuthResult_Validate_None; try apply lookup_insert_eq.
  all: cbn; unfold u32; by apply Z.mod_pos_bound.
Qed.

(** The fresh client of an accepted process takes the welcome. *)
Lemma welcome_accepted config now newID hello r s welcome sn r' :
  Accept config now newID hello r = (inr (s, welcome, sn), r') → now ≠ 0 →
  ∃ c c', NewClientSession now hello 0 0 = inr c ∧ AcceptWelcome now now welcome c = (None, c')
    ∧ paired s c' ∧ client_live now c' ∧ cs_hasCandidate c' = false ∧ cs_hasActive c' = false.
Proof.
  intros H Hnow. pose proof (Accept_established _ _ _ _ _ _ _ _ _ H Hnow)
    as (Hh & Hid & Href & Hacct & Hcred & Hhb & Hl & Hls & (caps & Hcaps & Hw) & _ & _ & _ & Hi & _ & _).
  pose proof (Hello_Validate_None _ _ Hh) as (_ & _ & _ & _ & Hoff & v & Hver).
  apply NegotiateCapabilities_inr in Hcaps as (_ & Hsup & ->).
  pose proof (filter_capabilities_ok _ _ Hoff Hsup) as Hsel.
  eexists _, _. split_and!.
  - unfold NewClientSession. by rewrite Hh.
  - unfold AcceptWelcome, Welcome_Validate. subst welcome. cbn.
    rewrite Hid, Hls, !bool_decide_true by done. rewrite (proj2 (ValidateCapabilities_None _) Hsel).
    unfold IsZero. rewrite (proj2 (Z.eqb_neq _ _)) by done. cbn. rewrite Hl, Hver.
    erewrite (proj2 (NegotiateCapabilities_inr _ _ _)); [done|].
    split_and!; [done|exact Hsel|reflexivity].
  - unfold paired. subst welcome. rewrite Href at 2 3. cbn. rewrite Href. done.
  - unfold client_live. subst welcome. cbn. split_and!; try done.
    + by apply Lease_Validate_None.
    + intros _. unfold Sub, two63. rewrite Z.sub_diag. unfold Millisecond. lia.
  - done.
  - done.
Qed.

(** C1. Bootstrap reaches agreement.  When [Accept] admits a process, a client
    built from the same hello takes the welcome, and if the runtime prepares and
    activates the configuration then the four messages of the first cutover are
    all accepted: both ends are ready on exactly the snapshot [Accept] returned,
    which was prepared and activated once. *)
Theorem bootstrap_reaches_ready config now newID hello r s welcome sn r' h activate abort :
  Accept config now newID hello r = (inr (s, welcome, sn), r') → now ≠ 0 → activate h = None →
  ∃ c c' c'' w, NewClientSession now hello 0 0 = inr c
    ∧ AcceptWelcome now now welcome c = (None, c')
    ∧ cutover now h activate abort sn (r', s) c' = Some (w, c'', [EvPrepared h; EvActivated h])
    ∧ in_sync now w c'' sn.
Proof.
  intros H Hnow Hact.
  destruct (welcome_accepted _ _ _ _ _ _ _ _ _ H Hnow) as (c & c' & E1 & E2 & Hp & Hlc & Hc & Ha).
  pose proof (Accept_established _ _ _ _ _ _ _ _ _ H Hnow) as (Hh & Hid & Href & Hacct & Hcred & Hhb & Hl
    & Hls & _ & (raw & Hv & Ht & Hsn) & Hpend & Hd & Hi & Hreg & Hst).
  pose proof (Hello_Validate_None _ _ Hh) as (B1 & B2 & B3 & B4 & _).
  destruct (cutover_completes now h activate abort sn r' s c') as (w & c'' & E3 & Hsync); try done.
  - unfold live, Registry_Active. cbn. split_and!; try done.
    + by rewrite Hst.
    + replace (ref_ConnectorID (ss_ref s)) with (hello_ConnectorID hello) by (by rewrite Href).
      by rewrite B3.
    + by apply Lease_Validate_None.
    + rewrite Hhb. unfold Sub, two63, Millisecond. lia.
  - unfold bound_snapshot. rewrite Hsn, Href. cbn. by rewrite Ht.
  - subst sn. by apply bindSnapshot_valid.
  - by rewrite Ha.
  - exists c, c', c'', w. done.
Qed.

(** An offer newer than the served snapshot becomes the pending one, bound to the
    session. *)
Lemma OfferSnapshot_fresh now sn r s :
  live now (r, s) → Snapshot_Validate sn = None → snap_TunnelID sn = ref_TunnelID (ss_ref s) →
  snap_AccountID sn = "" → snap_ConnectorID sn = "" → snap_SessionID sn = "" →
  snap_ProcessGeneration sn = 0 →
  ss_hasActive s = true → snap_Generation (ss_active s) < snap_Generation sn →
  ss_hasCandidate s = false → ss_pendingSnapshot s = None →
  OfferSnapshot now sn (r, s)
  = (None, (r, s <| ss_pendingDelta := None |> <| ss_pendingSnapshot :=
       Some (bindSnapshot sn (ares_AccountID (ss_auth s)) (ref_ConnectorID (ss_ref s))
               (ref_SessionID (ss_ref s)) (ref_ProcessGeneration (ss_ref s))) |>)).
Proof.
  intros Hl Hv Ht A1 A2 A3 A4 Hha Hlt Hc Hp. unfold OfferSnapshot.
  rewrite Hv, whenActive_live by done. destruct s; cbn in *; subst.
  rewrite Ht, A1, A2, A3, A4, bool_decide_true by done. cbn.
  rewrite (proj2 (Z.ltb_ge _ _)), (proj2 (Z.eqb_neq _ _)) by lia. done.
Qed.

End Handshake.
