(* ===== verification/ClientGuarantees.v ===== *)
(** * Guarantees of a client session

    Theorems over every interleaving of the locked sections of [ClientSession]
    from [NewClientSession], two runs in which closing does not do what it is
    meant to, and the client and handshake theorems at a concrete session. *)
From S2P Require Import Prelude Go Protocol Messages Registry Server ServerProofs Client ClientProofs Scenario Handshake.

Section Guarantees.
Context {codec : PayloadCodec}.

(** A machine some client session can reach. *)
Definition reachable (m : machine) : Prop :=
  ∃ now hello a b c, NewClientSession now hello a b = inr c
                     ∧ rtc client_step (mkMachine c Idle []) m.

Lemma reachable_inv m : reachable m → machine_inv m.
Proof.
  intros (now & hello & a & b & c & Hc & Hr).
  eapply client_run_inv; [done|by eapply NewClientSession_inv].
Qed.



(** C7. No prepared configuration is lost: every configuration the applier
    returned has been aborted, has been activated, or is the staged one. *)
Theorem prepared_never_lost m h :
  reachable m → EvPrepared h ∈ m_log m →
  EvAborted h ∈ m_log m ∨ EvActivated h ∈ m_log m ∨ cs_prepared (m_c m) = Some h.
Proof. intros H%reachable_inv. apply H. Qed.

Definition served_le (m m' : machine) : Prop :=
  cs_hasActive (m_c m) = true →
  cs_hasActive (m_c m') = true
  ∧ snap_Generation (cs_active (m_c m)) ≤ snap_Generation (cs_active (m_c m')).

Lemma active_change_le m m' : active_change m m' → served_le m m'.
Proof.
  intros [[H1 H2]|(H1 & H2 & _ & H4 & _)] Ha; rewrite H1; split; try done; try congruence.
  specialize (H4 Ha). lia.
Qed.

(** A client never rolls back: along any run the generation it serves only
    grows, whatever the server offers. *)
Theorem served_generation_monotone m m' :
  reachable m → rtc client_step m m' → served_le m m'.
Proof.
  intros Hinv%reachable_inv Hr. induction Hr as [m|m m1 m2 Hs Hr IH].
  - intros Ha. split; [done|lia].
  - destruct (client_step_inv _ _ Hs Hinv) as [Hinv1 Hch%active_change_le].
    intros Ha. destruct (Hch Ha) as [Ha1 ?]. destruct (IH Hinv1 Ha1). split; [done|lia].
Qed.

(** ** Closing *)

(** A closed session no drain was requested of, with [applyMu] free. *)
Definition closed_for_good (m : machine) : Prop :=
  cs_state (m_c m) = SessionClosed ∧ cs_drain (m_c m) = None ∧ m_phase m = Idle.

Lemma Client_whenActive_closed {A} now c (bad : err → A) k :
  cs_state c = SessionClosed →
  Client_whenActive now c bad k
  = (bad (codeError CodeSessionClosed (cs_disconnectReason c) false None), c).
Proof. intros H. unfold Client_whenActive, Client_ensureActiveLocked. by rewrite H. Qed.

Lemma client_exec_closed cc c :
  cs_state c = SessionClosed → cs_drain c = None → client_exec cc c = c.
Proof.
  intros Hs Hd. destruct cc; cbn [client_exec].
  - unfold AcceptWelcome. rewrite Hs. cases; done.
  - unfold Client_Heartbeat. by rewrite Client_whenActive_closed.
  - unfold AcceptHeartbeatAck. destruct (HeartbeatAck_Validate _ _); [done|].
    by rewrite Client_whenActive_closed.
  - unfold HandleDrain_begin. destruct ctxErr; [done|]. destruct (Drain_Validate _ _); [done|].
    by rewrite Client_whenActive_closed.
  - unfold HandleDrain_failed, drainIs. by rewrite Hd.
  - unfold HandleDrain_finish, drainIs. by rewrite Hd.
  - unfold Client_DrainProgress. destruct (_ <? _), ctxErr; try done.
    by rewrite Client_whenActive_closed.
  - unfold ApplyRenewal. destruct (AuthResult_ValidateBound _); [done|].
    by rewrite Client_whenActive_closed.
  - unfold Client_CheckLease, Client_ensureActiveLocked. by rewrite Hs.
Qed.

Lemma closed_begin c :
  cs_state c = SessionClosed →
  (∀ now sn, ∃ r, ApplySnapshot_begin now sn c = (inl r, c))
  ∧ (∀ now d, ∃ r, ApplyDelta_begin now d c = (inl r, c))
  ∧ (∀ now e1 e2 e3, ∃ r, MarkReady_begin now e1 e2 e3 c = (inl r, c))
  ∧ (∀ abort reason, ∃ r, Client_Close abort reason c = ((r, []), c)).
Proof.
  intros Hs. split_and!; intros.
  - unfold ApplySnapshot_begin. destruct (Snapshot_Validate sn); [eauto|].
    rewrite Client_whenActive_closed by done. eauto.
  - unfold ApplyDelta_begin. destruct (Delta_Validate d); [eauto|].
    rewrite Client_whenActive_closed by done. eauto.
  - unfold MarkReady_begin. rewrite Client_whenActive_closed by done. eauto.
  - unfold Client_Close. rewrite Hs. destruct (negb _); eauto.
Qed.

Lemma closed_step m m' : client_step m m' → closed_for_good m → m' = m.
Proof.
  intros Hs (Hst & Hd & Hph). destruct m as [c ph log]. cbn in *. subst ph.
  destruct (closed_begin c Hst) as (B1 & B2 & B3 & B4).
  inversion Hs; subst; [by rewrite client_exec_closed|..].
  all: match goal with
    | H : ApplySnapshot_begin ?now ?x _ = _ |- _ => destruct (B1 now x) as [? E]
    | H : ApplyDelta_begin ?now ?x _ = _ |- _ => destruct (B2 now x) as [? E]
    | H : MarkReady_begin ?now ?x ?y ?z _ = _ |- _ => destruct (B3 now x y z) as [? E]
    | H : Client_Close ?f ?x _ = _ |- _ => destruct (B4 f x) as [? E]
    end; rewrite E in *; simplify_eq; by rewrite ?app_nil_r.
Qed.

(** Closing is final for a session that no drain was requested of: no
    interleaving of later calls changes it or calls the runtime again. *)
Theorem client_closed_is_final m m' :
  closed_for_good m → rtc client_step m m' → m' = m.
Proof.
  intros Hc Hr. induction Hr as [|m m1 m2 Hs Hr IH]; [done|].
  apply closed_step in Hs; [|done]. subst. auto.
Qed.
End Guarantees.

(** ** A concrete client *)

#[local] Existing Instance flat_codec.

Definition client0 : ClientSession :=
  match NewClientSession T0 hello0 0 0 with
  | inr c => c
  | inl _ => mkClientSession hello0 zeroWelcome SessionClosed zeroLease auth0 zeroSnapshot false
               zeroSnapshot false None false 0 0 None "" "" false 0 ""
  end.

Lemma client0_ok : NewClientSession T0 hello0 0 0 = inr client0.
Proof. vm_compute. reflexivity. Qed.

Definition client_welcomed : ClientSession := client_exec (CCWelcome T0 T0 welcome0) client0.
Definition prepared1 : Preparation := mkPreparation (Some 1) None None None.
Definition no_error : handle → option err := λ _, None.
Definition client_staged : ClientSession :=
  (ApplySnapshot_finish T0 no_error snapshot0 1 client_welcomed).2.
Definition readiness1 : Readiness := ready_of 5.
Definition client_ready : ClientSession := (MarkReady_finish T0 readiness1 snapshot0 client_staged).2.

Definition machine0 : machine := mkMachine client0 Idle [].
Definition machine_staged : machine := mkMachine client_staged Idle [EvPrepared 1].
Definition machine_activating : machine :=
  mkMachine client_staged (Activating readiness1 1 snapshot0) [EvPrepared 1].
Definition machine_ready : machine := mkMachine client_ready Idle [EvPrepared 1; EvActivated 1].

Lemma run_staged : rtc client_step machine0 machine_staged.
Proof.
  apply (rtc_l _ _ (mkMachine client_welcomed Idle [])); [apply cstep_call|].
  apply (rtc_l _ _ (mkMachine client_welcomed (PreparingSnapshot snapshot0) [])).
  { apply (cstep_snapshot_begin T0); [by vm_compute|vm_compute; reflexivity]. }
  apply rtc_once.
  eapply (cstep_snapshot_finish T0 no_error prepared1 1 snapshot0 client_welcomed _ _ _ []);
    vm_compute; reflexivity.
Qed.

Lemma step_activating : client_step machine_staged machine_activating.
Proof. apply (cstep_ready_begin T0 true true true). vm_compute. reflexivity. Qed.

Lemma step_ready : client_step machine_activating machine_ready.
Proof. eapply (cstep_activated T0 _ _ _ _ _ _ [EvPrepared 1]). vm_compute. reflexivity. Qed.

Lemma reachable_staged : reachable machine_staged.
Proof. exists T0, hello0, 0, 0, client0. split; [apply client0_ok|apply run_staged]. Qed.

Lemma reachable_activating : reachable machine_activating.
Proof.
  exists T0, hello0, 0, 0, client0. split; [apply client0_ok|].
  eapply rtc_r; [apply run_staged|apply step_activating].
Qed.

Lemma reachable_ready : reachable machine_ready.
Proof.
  destruct reachable_activating as (? & ? & ? & ? & c & Hc & Hr).
  repeat eexists; [exact Hc|]. eapply rtc_r; [exact Hr|apply step_ready].
Qed.



Lemma prepared_never_lost_witness :
  EvAborted 1 ∈ m_log machine_ready ∨ EvActivated 1 ∈ m_log machine_ready
  ∨ cs_prepared client_ready = Some 1.
Proof.
  apply (prepared_never_lost machine_ready 1); [apply reachable_ready|].
  cbn. apply list_elem_of_here.
Defined.

Lemma served_generation_monotone_witness : served_le machine_activating machine_ready.
Proof.
  apply (served_generation_monotone machine_activating machine_ready);
    [apply reachable_activating|apply rtc_once, step_ready].
Defined.

(** The lease runs out while a configuration is staged. *)
Definition client_expired : ClientSession := client_exec (CCCheckLease (T0 + Hour)) client_staged.
Definition machine_expired : machine := mkMachine client_expired Idle [EvPrepared 1].

Lemma expired_closed : closed_for_good machine_expired.
Proof. vm_compute. auto. Qed.

Lemma client_closed_is_final_witness :
  mkMachine (client_exec (CCHeartbeat 0 T0) client_expired) Idle [EvPrepared 1] = machine_expired.
Proof.
  apply (client_closed_is_final machine_expired).
  - apply expired_closed.
  - apply rtc_once. apply cstep_call.
Defined.

Lemma closed_run m m' : closed_for_good m → rtc client_step m m' → m' = m.
Proof. intros Hc Hr. induction Hr; [done|]. apply closed_step in H; subst; auto. Qed.

(** A lease that runs out strands the staged configuration: some run reaches
    a session closed by the lease check with a configuration prepared, and from
    there every run, [Close] included, returns without aborting or activating
    it. *)
Theorem expired_lease_strands_prepared :
  ∃ m, reachable m ∧ cs_state (m_c m) = SessionClosed
    ∧ cs_disconnectReason (m_c m) = ReasonLeaseExpired
    ∧ (∀ abort, Client_Close abort ReasonLeaseExpired (m_c m) = ((None, []), m_c m))
    ∧ ∀ m', rtc client_step m m' →
        cs_prepared (m_c m') = Some 1 ∧ EvPrepared 1 ∈ m_log m'
        ∧ (EvAborted 1 ∉ m_log m') ∧ (EvActivated 1 ∉ m_log m').
Proof.
  exists machine_expired. split_and!; try reflexivity.
  - exists T0, hello0, 0, 0, client0. split; [apply client0_ok|].
    eapply rtc_r; [apply run_staged|apply cstep_call].
  - intros m' ->%closed_run; [|apply expired_closed].
    split; [reflexivity|]. cbn. set_solver.
Qed.

(** A drain of the served generation. *)
Definition drain0 : Drain :=
  mkDrain "acct" "tun" "con" "sess" 3 "drain-1" 5 hash0 (T0 + Minute) true false.

Definition client_draining : ClientSession := client_exec (CCDrainBegin T0 None drain0) client_ready.
Definition client_shut : ClientSession := (Client_Close no_error ReasonProtocolClosed client_draining).2.

(** C10. A failing drain reopens a closed session: some run closes a session
    while its drain waits for the runtime, and the failure of the runtime's hook
    then returns the session to ready. *)
Theorem failed_drain_reopens_closed :
  ∃ m request m', reachable m ∧ cs_state (m_c m) = SessionClosed
    ∧ cs_drain (m_c m) = Some request
    ∧ m' = mkMachine (client_exec (CCDrainFailed request) (m_c m)) (m_phase m) (m_log m)
    ∧ client_step m m' ∧ cs_state (m_c m') = SessionReady.
Proof.
  exists (mkMachine client_shut Idle [EvPrepared 1; EvActivated 1]), drain0. eexists.
  split_and!; [|reflexivity|reflexivity|reflexivity|apply cstep_call|reflexivity].
  destruct reachable_ready as (? & ? & ? & ? & c & Hc & Hr). repeat eexists; [exact Hc|].
  eapply rtc_r; [eapply rtc_r; [exact Hr|apply (cstep_call (CCDrainBegin T0 None drain0))]|].
  rewrite <- (app_nil_r [EvPrepared 1; EvActivated 1]) at 2.
  eapply (cstep_close no_error ReasonProtocolClosed). vm_compute. reflexivity.
Qed.

(** ** The handshake theorems at this client *)

Lemma bootstrap_reaches_ready_witness :
  ∃ c c' c'' w, NewClientSession T0 hello0 0 0 = inr c
    ∧ AcceptWelcome T0 T0 welcome0 c = (None, c')
    ∧ cutover T0 1 no_error no_error snapshot0 world0 c'
      = Some (w, c'', [EvPrepared 1; EvActivated 1])
    ∧ in_sync T0 w c'' snapshot0.
Proof.
  apply (bootstrap_reaches_ready config0 T0 (inr "sess") hello0 ∅ session0 welcome0 snapshot0
           {[ "con" := ref0 ]} 1 no_error no_error).
  - apply accepted_ok.
  - vm_compute. discriminate.
  - reflexivity.
Defined.

Lemma in_sync_ready : in_sync T0 world_ready client_ready snapshot0.
Proof.
  constructor; vm_compute; repeat apply conj; (reflexivity || discriminate).
Qed.

