(* ===== verification/Relay.v ===== *)
(** * Peer relay manager

    Models [internal/peerrelay/manager.go] and [meter.go]: pairing of the two
    authorised legs of a relay, its termination and its usage report.

    The manager's [*relay] pointers are compared by identity, so relays live in a
    heap and the [relays] map holds their addresses.  A stream is an address too;
    [mg_closed_streams] holds the streams [Close] was called on.  A function per
    locked section: [terminate] reads the relay under the mutex and acts on what
    it read afterwards, so it is [terminate_begin] and [terminate_finish]. *)
From S2P Require Import Prelude Go.

Module Relay.

Definition ErrInvalid : err := EPlain "peer relay attachment is invalid".
Definition ErrCapacity : err := EPlain "peer relay capacity is exhausted".
Definition ErrConflict : err := EPlain "peer relay endpoint role is already attached".
Definition ErrDraining : err := EPlain "peer relay is draining".
Definition ErrRevoked : err := EPlain "peer relay binding is revoked".
Definition ErrExpired : err := EPlain "peer relay binding is expired".
Definition ErrLimit : err := EPlain "peer relay byte limit exceeded".
Definition ErrClosed : err := EPlain "peer relay is closed".

(** [Role], [Carrier] and [Path] are uint8 enumerations. *)
Definition RoleInitiator : Z := 1.
Definition RoleHost : Z := 2.
Definition CarrierQUIC : Z := 1.
Definition CarrierWSS : Z := 2.
Definition PathRelayQUIC : Z := 1.
Definition PathRelayWSS : Z := 2.

(** A [[16]byte] is a byte list of that length. *)
Record Binding := mkBinding {
  bd_RouteAllocation : bytes;
  bd_StreamHandle : bytes;
  bd_EnvironmentID : string;
  bd_RouteID : string;
  bd_RouteRevision : Z;
  bd_IntentID : string;
  bd_Attempt : Z;
  bd_Network : Z;
  bd_ExpiresAt : Time;
  bd_MaximumBytes : Z
}.
#[export] Instance Binding_eq_dec : EqDecision Binding.
Proof. solve_decision. Defined.

Record Admission := mkAdmission {
  adm_Binding : Binding;
  adm_Role : Z;
  adm_Carrier : Z
}.

Record relayKey := mkRelayKey { rk_Binding : Binding; rk_Carrier : Z }.
#[export] Instance relayKey_eq_dec : EqDecision relayKey.
Proof. solve_decision. Defined.

(** The fields are encoded side by side, so codes stay linear in their size. *)
#[export] Instance relayKey_countable : Countable relayKey.
Proof.
  refine (inj_countable
    (λ k, let b := rk_Binding k in
          [encode (bd_RouteAllocation b); encode (bd_StreamHandle b); encode (bd_EnvironmentID b);
           encode (bd_RouteID b); encode (bd_RouteRevision b); encode (bd_IntentID b);
           encode (bd_Attempt b); encode (bd_Network b); encode (bd_ExpiresAt b);
           encode (bd_MaximumBytes b); encode (rk_Carrier k)])
    (λ l, match l with
          | [a; h; e; r; v; i; t; n; x; mx; c] =>
              a ← decode a; h ← decode h; e ← decode e; r ← decode r; v ← decode v; i ← decode i;
              t ← decode t; n ← decode n; x ← decode x; mx ← decode mx; c ← decode c;
              Some (mkRelayKey (mkBinding a h e r v i t n x mx) c)
          | _ => None
          end) _).
  abstract (intros [[] ?]; cbn; by rewrite !decode_encode).
Defined.

(** [streamKey], a [[33]byte]. *)
Definition keyFor (value : relayKey) : bytes :=
  bd_RouteAllocation (rk_Binding value) ++ bd_StreamHandle (rk_Binding value)
  ++ [byte_of_Z (rk_Carrier value)].

Record Config := mkConfig {
  rc_MaximumPending : Z;
  rc_MaximumActive : Z;
  rc_MaximumConsumed : Z;
  rc_BufferBytes : Z;
  rc_ReportTimeout : Duration
}.
#[export] Instance Config_eta : Eta Config := λ c,
  mkConfig (rc_MaximumPending c) (rc_MaximumActive c) (rc_MaximumConsumed c) (rc_BufferBytes c)
    (rc_ReportTimeout c).

Definition DevelopmentConfig : Config := mkConfig 1024 4096 65536 32768 (5 * Second).

Definition Config_valid (c : Config) : bool :=
  (0 <? rc_MaximumPending c) && (rc_MaximumPending c <=? 16384)
  && (0 <? rc_MaximumActive c) && (rc_MaximumActive c <=? 65536)
  && (0 <? rc_MaximumConsumed c) && (rc_MaximumConsumed c <=? 1048576)
  && (4096 <=? rc_BufferBytes c) && (rc_BufferBytes c <=? 262144)
  && (0 <? rc_ReportTimeout c) && (rc_ReportTimeout c <=? Minute).

Record Usage := mkUsage {
  us_EnvironmentID : string;
  us_RouteID : string;
  us_RouteRevision : Z;
  us_IntentID : string;
  us_Attempt : Z;
  us_Network : Z;
  us_Path : Z;
  us_BytesToInitiator : Z;
  us_BytesToHost : Z;
  us_StartedAt : Time;
  us_FinishedAt : Time
}.
#[export] Instance Usage_eta : Eta Usage := λ u,
  mkUsage (us_EnvironmentID u) (us_RouteID u) (us_RouteRevision u) (us_IntentID u) (us_Attempt u)
    (us_Network u) (us_Path u) (us_BytesToInitiator u) (us_BytesToHost u) (us_StartedAt u)
    (us_FinishedAt u).
Definition zeroUsage : Usage := mkUsage "" "" 0 "" 0 0 0 0 0 0 0.

Record leg := mkLeg { leg_stream : Z; leg_carrier : Z }.

(** [done], [finalOnce] and [stopOnce] are booleans: closed, and already run. *)
Record relay := mkRelay {
  rl_key : relayKey;
  rl_binding : Binding;
  rl_initiator : option leg;
  rl_host : option leg;
  rl_done : bool;
  rl_started : bool;
  rl_baseUsage : Usage;
  rl_usage : Usage;
  rl_err : option err;
  rl_finalOnce : bool;
  rl_stopOnce : bool;
  rl_stopErr : option err;
  rl_expired : bool;
  rl_toInitiator : Z;
  rl_toHost : Z
}.
#[export] Instance relay_eta : Eta relay := λ r,
  mkRelay (rl_key r) (rl_binding r) (rl_initiator r) (rl_host r) (rl_done r) (rl_started r)
    (rl_baseUsage r) (rl_usage r) (rl_err r) (rl_finalOnce r) (rl_stopOnce r) (rl_stopErr r)
    (rl_expired r) (rl_toInitiator r) (rl_toHost r).

Record Manager := mkManager {
  mg_config : Config;
  mg_relays : gmap relayKey Z;
  mg_consumed : gmap bytes Time;
  mg_draining : bool;
  mg_closed : bool;
  mg_heap : gmap Z relay;
  mg_next : Z;                          (** the next free address *)
  mg_closed_streams : gset Z;
  mg_records : list (Z * Usage)         (** calls of [RecordRelayUsage], by relay *)
}.
#[export] Instance Manager_eta : Eta Manager := λ m,
  mkManager (mg_config m) (mg_relays m) (mg_consumed m) (mg_draining m) (mg_closed m) (mg_heap m)
    (mg_next m) (mg_closed_streams m) (mg_records m).

Definition NewManager (config : Config) : err + Manager :=
  let config := if rc_MaximumConsumed config =? 0
                then config <| rc_MaximumConsumed := rc_MaximumConsumed DevelopmentConfig |>
                else config in
  if negb (Config_valid config) then inl ErrInvalid
  else inr (mkManager config ∅ ∅ false false ∅ 0 ∅ []).

(** [UTC().Round(0)] does not change the instant. *)
Definition canonicalBinding (b : Binding) : Binding := b.

Definition zero16 : bytes := replicate 16 x00.

Definition validAdmission (a : Admission) (now : Time) : bool :=
  let b := canonicalBinding (adm_Binding a) in
  ((adm_Role a =? RoleInitiator) || (adm_Role a =? RoleHost))
  && ((adm_Carrier a =? CarrierQUIC) || (adm_Carrier a =? CarrierWSS))
  && (bd_RouteAllocation b != zero16) && (bd_StreamHandle b != zero16)
  && (bd_EnvironmentID b != "") && (len (bd_EnvironmentID b) <=? 128)
  && (bd_RouteID b != "") && (len (bd_RouteID b) <=? 128) && (0 <? bd_RouteRevision b)
  && (bd_IntentID b != "") && (len (bd_IntentID b) <=? 128)
  && (0 <? bd_Attempt b) && (0 <? bd_Network b)
  && After (bd_ExpiresAt b) now && (0 <? bd_MaximumBytes b) && (bd_MaximumBytes b <=? 2 ^ 40).

Definition relayPath (first second : Z) : Z :=
  if (first =? CarrierQUIC) && (second =? CarrierQUIC) then PathRelayQUIC else PathRelayWSS.

Definition pruneConsumedLocked (now : Time) (m : Manager) : Manager :=
  m <| mg_consumed := filter (λ kv, After kv.2 now = true) (mg_consumed m) |>.

Definition started (m : Manager) (id : Z) : bool :=
  match mg_heap m !! id with Some r => rl_started r | None => false end.

(** [countLocked]: pending and active relays. *)
Definition countLocked (m : Manager) : Z * Z :=
  (sum_map (λ id, if started m id then 0 else 1) (mg_relays m),
   sum_map (λ id, if started m id then 1 else 0) (mg_relays m)).

Definition Stats (m : Manager) : Z * Z := countLocked m.

Definition closeStream (stream : Z) (m : Manager) : Manager :=
  m <| mg_closed_streams := {[stream]} ∪ mg_closed_streams m |>.

Definition closeLeg (l : option leg) (m : Manager) : Manager :=
  match l with Some l => closeStream (leg_stream l) m | None => m end.

(** The usage a relay starts from. *)
Definition startUsage (now : Time) (b : Binding) (initiator host : leg) : Usage :=
  mkUsage (bd_EnvironmentID b) (bd_RouteID b) (bd_RouteRevision b) (bd_IntentID b) (bd_Attempt b)
    (bd_Network b) (relayPath (leg_carrier initiator) (leg_carrier host)) 0 0 now 0.

(** The relay a leg joins: the one in the map, or a new one when there is room.
    [inr] carries its address, the relay and whether it was created. *)
Definition Attach_select (key : relayKey) (m : Manager) : (err + Z * relay * bool) * Manager :=
  match mg_relays m !! key with
  | Some id =>
      match mg_heap m !! id with
      | Some r => (inr (id, r, false), m)
      | None => (inl ErrInvalid, m)     (** a dangling pointer: excluded by the invariant *)
      end
  | None =>
      if rc_MaximumConsumed (mg_config m)
         <=? Z.of_nat (size (mg_consumed m)) + Z.of_nat (size (mg_relays m))
      then (inl ErrCapacity, m)
      else if rc_MaximumPending (mg_config m) <=? (countLocked m).1 then (inl ErrCapacity, m)
      else
        let r := mkRelay key (rk_Binding key) None None false false zeroUsage zeroUsage None
                   false false None false 0 0 in
        let id := mg_next m in
        (inr (id, r, true),
         m <| mg_relays := <[key := id]> (mg_relays m) |> <| mg_heap := <[id := r]> (mg_heap m) |>
           <| mg_next := id + 1 |>)
  end.

(** The leg is stored, and the relay starts when both are there: [inr] tells
    whether the [run] goroutine was started. *)
Definition Attach_join (now : Time) (admission : Admission) (stream : Z) (id : Z) (r : relay)
    (created : bool) (m : Manager) : (err + Z * bool) * Manager :=
  let refuse e := (inl e, closeStream stream m) in
  if rl_expired r then refuse ErrExpired
  else if nonnil (if adm_Role admission =? RoleHost then rl_host r else rl_initiator r)
  then refuse ErrConflict
  else if negb created && negb (rl_started r) && (nonnil (rl_initiator r) || nonnil (rl_host r))
          && (rc_MaximumActive (mg_config m) <=? (countLocked m).2)
  then refuse ErrCapacity
  else
    let l := mkLeg stream (adm_Carrier admission) in
    let r := if adm_Role admission =? RoleHost then r <| rl_host := Some l |>
             else r <| rl_initiator := Some l |> in
    match rl_initiator r, rl_host r with
    | Some i, Some h =>
        if negb (rl_started r)
        then let r := r <| rl_started := true |>
                        <| rl_baseUsage := startUsage now (rl_binding r) i h |> in
             (inr (id, true), m <| mg_heap := <[id := r]> (mg_heap m) |>)
        else (inr (id, false), m <| mg_heap := <[id := r]> (mg_heap m) |>)
    | _, _ => (inr (id, false), m <| mg_heap := <[id := r]> (mg_heap m) |>)
    end.

(** [Attach] up to the release of the mutex.  [now1], [now2] and [now3] are the
    readings of the clock at the validation, at the pruning and at the start; a
    [nil] stream is [None].  [inl] is an early return; after [inr (id, b)] the call
    waits for [rl_done] of the relay, then returns its usage and error. *)
Definition Attach (now1 now2 now3 : Time) (ctxErr : option err) (admission : Admission)
    (stream : option Z) (m : Manager) : (err + Z * bool) * Manager :=
  match stream with
  | None => (inl ErrInvalid, m)
  | Some stream =>
  let refuse e m := (inl e, closeStream stream m) in
  if negb (validAdmission admission now1) then refuse ErrInvalid m
  else match ctxErr with
  | Some e => refuse e m
  | None =>
  let key := mkRelayKey (canonicalBinding (adm_Binding admission)) (adm_Carrier admission) in
  let m := pruneConsumedLocked now2 m in
  if mg_closed m then refuse ErrClosed m
  else if mg_draining m then refuse ErrDraining m
  else if nonnil (mg_consumed m !! keyFor key) then refuse ErrConflict m
  else match Attach_select key m with
  | (inl e, m) => refuse e m
  | (inr (id, r, created), m) => Attach_join now3 admission stream id r created m
  end end end.

Definition BeginDrain (m : Manager) : Manager := m <| mg_draining := true |>.

(** [finalize]; [record] answers [RecordRelayUsage].  The counters are read and
    the report is made after the mutex is released, when the relay is no longer in
    the map. *)
Definition finalize (now : Time) (record : Usage → option err) (id : Z) (cause : option err)
    (completed : option Usage) (m : Manager) : Manager :=
  match mg_heap m !! id with
  | None => m
  | Some r =>
  if rl_finalOnce r then m
  else
    let m := if mg_relays m !! rl_key r == Some id
             then m <| mg_relays := delete (rl_key r) (mg_relays m) |> else m in
    let m := m <| mg_consumed := <[keyFor (rl_key r) := bd_ExpiresAt (rl_binding r)]> (mg_consumed m) |> in
    let usage := default (rl_baseUsage r) completed in
    let usage := usage <| us_BytesToInitiator := rl_toInitiator r |>
                       <| us_BytesToHost := rl_toHost r |> <| us_FinishedAt := now |> in
    let e := if rl_started r then Join cause (record usage) else cause in
    let r := r <| rl_usage := usage |> <| rl_err := e |> <| rl_done := true |>
               <| rl_finalOnce := true |> in
    let m := m <| mg_heap := <[id := r]> (mg_heap m) |> in
    if rl_started r then m <| mg_records := mg_records m ++ [(id, usage)] |> else m
  end.

(** What [terminate] read under the mutex. *)
Record Termination := mkTermination {
  tm_relay : Z;
  tm_initiator : option leg;
  tm_host : option leg;
  tm_started : bool;
  tm_cause : err
}.

Definition terminate_begin (id : Z) (cause : err) (m : Manager) : option Termination * Manager :=
  match mg_heap m !! id with
  | None => (None, m)
  | Some r =>
      if rl_stopOnce r then (None, m)
      else (Some (mkTermination id (rl_initiator r) (rl_host r) (rl_started r) cause),
            m <| mg_heap := <[id := r <| rl_stopOnce := true |>]> (mg_heap m) |>)
  end.

Definition terminate_finish (now : Time) (record : Usage → option err) (t : Termination) (m : Manager)
    : Manager :=
  match mg_heap m !! tm_relay t with
  | None => m
  | Some r =>
      let m := m <| mg_heap := <[tm_relay t := r <| rl_stopErr := Some (tm_cause t) |>]> (mg_heap m) |> in
      let m := closeLeg (tm_host t) (closeLeg (tm_initiator t) m) in
      if negb (tm_started t) then finalize now record (tm_relay t) (Some (tm_cause t)) None m else m
  end.

(** [terminate] when nothing runs between its two parts. *)
Definition terminate (now : Time) (record : Usage → option err) (id : Z) (cause : err) (m : Manager)
    : Manager :=
  match terminate_begin id cause m with
  | (Some t, m) => terminate_finish now record t m
  | (None, m) => m
  end.

(** [fail]: the callback of a cancelled [Attach]. *)
Definition fail (now : Time) (record : Usage → option err) (key : relayKey) (id : Z) (cause : err)
    (m : Manager) : Manager :=
  if mg_relays m !! key == Some id then terminate now record id cause m else m.

(** The locked section of [expirePending]; [true] continues with [terminate]. *)
Definition expirePending_mark (id : Z) (m : Manager) : bool * Manager :=
  match mg_heap m !! id with
  | None => (false, m)
  | Some r =>
      if (mg_relays m !! rl_key r != Some id) || rl_started r then (false, m)
      else (true, m <| mg_heap := <[id := r <| rl_expired := true |>]> (mg_heap m) |>)
  end.

Definition expirePending (now : Time) (record : Usage → option err) (id : Z) (m : Manager) : Manager :=
  match expirePending_mark id m with
  | (true, m) => terminate now record id ErrExpired m
  | (false, m) => m
  end.

(** [Revoke] terminates the relays of the binding, collected under the mutex. *)
Definition Revoke_collect (binding : Binding) (m : Manager) : list Z :=
  (filter (λ kv : relayKey * Z, rk_Binding kv.1 = canonicalBinding binding)
     (map_to_list (mg_relays m))).*2.

Definition Revoke (now : Time) (record : Usage → option err) (binding : Binding) (m : Manager) : Manager :=
  foldl (λ m id, terminate now record id ErrRevoked m) m (Revoke_collect binding m).

(** [Close], without the wait for the relays' [done] channels. *)
Definition Close (now : Time) (record : Usage → option err) (m : Manager) : Manager :=
  let m := m <| mg_closed := true |> <| mg_draining := true |> in
  foldl (λ m id, terminate now record id ErrClosed m) m (map_to_list (mg_relays m)).*2.

(** The messages of [io.EOF], [io.ErrClosedPipe] and [net.ErrClosed]. *)
Definition normalizeCopyError (e : option err) : option err :=
  match e with
  | None => None
  | Some e => if Is e "EOF" || Is e "io: read/write on closed pipe"
                 || Is e "use of closed network connection" then None else Some e
  end.

(** The end of [run]: what the two copies answered, in the order of arrival. *)
Record copyResult := mkCopyResult {
  cr_toInitiator : bool;
  cr_bytes : Z;
  cr_err : option err
}.

Definition setBytes (c : copyResult) (u : Usage) : Usage :=
  if cr_toInitiator c then u <| us_BytesToInitiator := cr_bytes c |>
  else u <| us_BytesToHost := cr_bytes c |>.

Definition run_finish (now : Time) (record : Usage → option err) (first second : copyResult) (id : Z)
    (m : Manager) : Manager :=
  match mg_heap m !! id with
  | None => m
  | Some r =>
      let m := closeLeg (rl_host r) (closeLeg (rl_initiator r) m) in
      let usage := setBytes second (setBytes first (rl_baseUsage r)) in
      let e := match cr_err first with
               | None => normalizeCopyError (cr_err second)
               | Some e => normalizeCopyError (Some e)
               end in
      let e := match rl_stopErr r with Some s => Some s | None => e end in
      finalize now record id e (Some usage) m
  end.

(** A direction of the copy has forwarded [n] more bytes. *)
Definition forward (toInitiator : bool) (n : Z) (r : relay) : relay :=
  if toInitiator then r <| rl_toInitiator := rl_toInitiator r + n |>
  else r <| rl_toHost := rl_toHost r + n |>.

(** [MeterRecorder.RecordRelayUsage]: each direction is metered once. *)
Definition RecordRelayUsage (meter : option (string → string → Z → Z → Z → option err))
    (ErrMeterInvalid : err) (record : Usage) : option err :=
  match meter with
  | None => Some ErrMeterInvalid
  | Some Record =>
      if (us_EnvironmentID record == "") || (us_RouteID record == "") || (us_RouteRevision record =? 0)
      then Some ErrMeterInvalid
      else Record (us_EnvironmentID record) (us_RouteID record) (us_RouteRevision record)
             (us_BytesToHost record) (us_BytesToInitiator record)
  end.
End Relay.
