(* ===== verification/RelayProofs.v ===== *)
(** * Peer relay manager: interleavings and guarantees

    The locked sections of the manager as a step relation over the manager, the
    terminations between their two parts and the running copies.  Terminations may
    begin for any relay at any time, since [Revoke], [Close] and cancelled
    [Attach] calls collect relays before they terminate them. *)
From S2P Require Import Prelude Go Relay.

Module RelayProofs.
Import Relay.

Record pool := mkPool {
  p_m : Manager;
  p_terms : list Termination;
  p_running : gset Z
}.

(** A step at clock reading [now]. *)
Inductive pool_step (now : Time) : pool → pool → Prop :=
  | step_attach now1 now3 ctxErr admission stream id go m m' ts rs :
      Attach now1 now now3 ctxErr admission stream m = (inr (id, go), m') →
      pool_step now (mkPool m ts rs) (mkPool m' ts (if go : bool then {[id]} ∪ rs else rs))
  | step_refused now1 now3 ctxErr admission stream e m m' ts rs :
      Attach now1 now now3 ctxErr admission stream m = (inl e, m') →
      pool_step now (mkPool m ts rs) (mkPool m' ts rs)
  | step_drain m ts rs : pool_step now (mkPool m ts rs) (mkPool (BeginDrain m) ts rs)
  | step_close m ts rs :
      pool_step now (mkPool m ts rs)
        (mkPool (m <| mg_closed := true |> <| mg_draining := true |>) ts rs)
  | step_expire id b m m' ts rs :
      expirePending_mark id m = (b, m') → pool_step now (mkPool m ts rs) (mkPool m' ts rs)
  | step_terminate id cause m m' t ts rs :
      terminate_begin id cause m = (Some t, m') →
      pool_step now (mkPool m ts rs) (mkPool m' (t :: ts) rs)
  | step_terminated record t m ts1 ts2 rs :
      pool_step now (mkPool m (ts1 ++ t :: ts2) rs)
        (mkPool (terminate_finish now record t m) (ts1 ++ ts2) rs)
  | step_forward id dir n r m ts rs :
      id ∈ rs → mg_heap m !! id = Some r → 0 ≤ n →
      (if dir : bool then rl_toInitiator r else rl_toHost r) + n ≤ bd_MaximumBytes (rl_binding r) →
      pool_step now (mkPool m ts rs)
        (mkPool (m <| mg_heap := <[id := forward dir n r]> (mg_heap m) |>) ts rs)
  | step_run_finish record first second id m ts rs :
      id ∈ rs →
      pool_step now (mkPool m ts rs)
        (mkPool (run_finish now record first second id m) ts (rs ∖ {[id]})).

Definition any_step (p p' : pool) : Prop := ∃ now, pool_step now p p'.

(** ** Invariant *)

(** One relay of the heap. *)
Record relay_ok (r : relay) : Prop := {
  ro_binding : rl_binding r = rk_Binding (rl_key r);
  ro_done : rl_done r = rl_finalOnce r;
  ro_started : rl_started r = nonnil (rl_initiator r) && nonnil (rl_host r);
  ro_toInitiator : 0 ≤ rl_toInitiator r ≤ bd_MaximumBytes (rl_binding r);
  ro_toHost : 0 ≤ rl_toHost r ≤ bd_MaximumBytes (rl_binding r);
  ro_positive : 0 ≤ bd_MaximumBytes (rl_binding r)
}.

(** The recorded usage of one relay. *)
Definition recorded_ok (r : relay) (u : Usage) : Prop :=
  rl_started r = true ∧ rl_finalOnce r = true
  ∧ us_BytesToInitiator u ≤ bd_MaximumBytes (rl_binding r)
  ∧ us_BytesToHost u ≤ bd_MaximumBytes (rl_binding r).

Record manager_inv (m : Manager) : Prop := {
  mi_heap : ∀ id r, mg_heap m !! id = Some r → id < mg_next m ∧ relay_ok r;
  mi_live : ∀ id r, mg_heap m !! id = Some r → rl_finalOnce r = false →
            mg_relays m !! rl_key r = Some id;
  mi_relays : ∀ k id, mg_relays m !! k = Some id →
              ∃ r, mg_heap m !! id = Some r ∧ rl_key r = k ∧ rl_finalOnce r = false;
  mi_consumed : Z.of_nat (size (mg_consumed m)) + Z.of_nat (size (mg_relays m))
                ≤ rc_MaximumConsumed (mg_config m);
  mi_pending : (countLocked m).1 ≤ rc_MaximumPending (mg_config m);
  mi_active : (countLocked m).2 ≤ rc_MaximumActive (mg_config m);
  mi_unique : NoDup (mg_records m).*1;
  mi_recorded : ∀ id u, (id, u) ∈ mg_records m → ∃ r, mg_heap m !! id = Some r ∧ recorded_ok r u;
  mi_reported : ∀ id r, mg_heap m !! id = Some r → rl_started r = true → rl_finalOnce r = true →
                id ∈ (mg_records m).*1
}.

(** ** Updating one relay *)

Lemma started_update m id r' j :
  started (m <| mg_heap := <[id := r']> (mg_heap m) |>) j
  = if decide (j = id) then rl_started r' else started m j.
Proof.
  unfold started. cbn. destruct (decide (j = id)) as [->|].
  - by rewrite lookup_insert_eq.
  - by rewrite lookup_insert_ne.
Qed.

Lemma counts_update m id r r' :
  mg_heap m !! id = Some r → rl_started r' = rl_started r →
  countLocked (m <| mg_heap := <[id := r']> (mg_heap m) |>) = countLocked m.
Proof.
  intros Hr Hs. unfold countLocked.
  f_equal; apply sum_map_ext; intros k j _; rewrite started_update;
    destruct (decide (j = id)) as [->|]; try done; unfold started; by rewrite Hr, Hs.
Qed.

(** A write that keeps the fields the invariant is indexed by. *)
Lemma update_inv m id r r' :
  manager_inv m → mg_heap m !! id = Some r → relay_ok r' →
  rl_key r' = rl_key r → rl_started r' = rl_started r → rl_finalOnce r' = rl_finalOnce r →
  manager_inv (m <| mg_heap := <[id := r']> (mg_heap m) |>).
Proof.
  intros [H1 H2 H3 H4 H5 H6 H7 H8 H9] Hr Hok Hk Hs Hf.
  assert (rl_binding r' = rl_binding r) as Hb.
  { rewrite (ro_binding _ Hok), Hk. symmetry. apply ro_binding. by apply (H1 id). }
  pose proof (counts_update m id r r' Hr Hs) as Hc.
  constructor; try rewrite Hc; try done; cbn in *.
  - intros j q [[<- <-]|[? ?]]%lookup_insert_Some; [|by apply H1]. split; [by apply (H1 id r)|done].
  - intros j q [[<- <-]|[? ?]]%lookup_insert_Some Hq; [|by apply H2]. rewrite Hk. apply H2; congruence.
  - intros k j Hj. destruct (H3 k j Hj) as (q & Hq & Hqk & Hqf).
    destruct (decide (j = id)) as [->|].
    + exists r'. rewrite lookup_insert_eq. simplify_eq. rewrite Hk, Hf. done.
    + exists q. by rewrite lookup_insert_ne.
  - intros j u Hu. destruct (H8 j u Hu) as (q & Hq & Hrec). destruct (decide (j = id)) as [->|].
    + exists r'. rewrite lookup_insert_eq. simplify_eq. unfold recorded_ok. by rewrite Hs, Hf, Hb.
    + exists q. by rewrite lookup_insert_ne.
  - intros j q [[<- <-]|[? ?]]%lookup_insert_Some; [|by apply H9]. rewrite Hs, Hf. by apply H9.
Qed.

(** A change of the fields the invariant does not mention. *)
Lemma frame_inv m m' :
  manager_inv m → mg_heap m' = mg_heap m → mg_relays m' = mg_relays m → mg_next m' = mg_next m →
  mg_config m' = mg_config m → mg_records m' = mg_records m →
  Z.of_nat (size (mg_consumed m')) ≤ Z.of_nat (size (mg_consumed m)) → manager_inv m'.
Proof.
  intros [H1 H2 H3 H4 H5 H6 H7 H8 H9] E1 E2 E3 E4 E5 Hsz.
  assert (countLocked m' = countLocked m) as Hc.
  { unfold countLocked, started. by rewrite E1, E2. }
  constructor; rewrite ?Hc, ?E1, ?E2, ?E3, ?E4, ?E5; try done. lia.
Qed.

Lemma closeStream_inv s m : manager_inv m → manager_inv (closeStream s m).
Proof. intros. by eapply frame_inv. Qed.

Lemma closeLeg_inv l m : manager_inv m → manager_inv (closeLeg l m).
Proof. destruct l; [apply closeStream_inv|done]. Qed.

Lemma prune_inv now m : manager_inv m → manager_inv (pruneConsumedLocked now m).
Proof.
  intros. eapply frame_inv; try done. cbn.
  apply inj_le, map_subseteq_size, map_filter_subseteq.
Qed.

(** ** Finishing a relay *)

(** What [finalize] leaves of a relay that was not finished. *)
Definition finished (now : Time) (record : Usage → option err) (cause : option err)
    (completed : option Usage) (r : relay) : relay :=
  let usage := default (rl_baseUsage r) completed <| us_BytesToInitiator := rl_toInitiator r |>
                 <| us_BytesToHost := rl_toHost r |> <| us_FinishedAt := now |> in
  r <| rl_usage := usage |> <| rl_err := if rl_started r then Join cause (record usage) else cause |>
    <| rl_done := true |> <| rl_finalOnce := true |>.

Lemma finalize_unfold now record id cause completed m r :
  mg_heap m !! id = Some r → rl_finalOnce r = false → mg_relays m !! rl_key r = Some id →
  let r' := finished now record cause completed r in
  finalize now record id cause completed m
  = m <| mg_relays := delete (rl_key r) (mg_relays m) |>
      <| mg_consumed := <[keyFor (rl_key r) := bd_ExpiresAt (rl_binding r)]> (mg_consumed m) |>
      <| mg_heap := <[id := r']> (mg_heap m) |>
      <| mg_records := if rl_started r then mg_records m ++ [(id, rl_usage r')] else mg_records m |>.
Proof.
  intros Hr Hf Hk. unfold finalize, finished. rewrite Hr, Hf, Hk, bool_decide_true by done. cbn.
  by destruct (rl_started r).
Qed.

Lemma finalize_inv now record id cause completed m :
  manager_inv m → manager_inv (finalize now record id cause completed m).
Proof.
  intros Hi. pose proof Hi as [H1 H2 H3 H4 H5 H6 H7 H8 H9].
  destruct (mg_heap m !! id) as [r|] eqn:Hr; [|unfold finalize; by rewrite Hr].
  destruct (rl_finalOnce r) eqn:Hf; [unfold finalize; by rewrite Hr, Hf|].
  pose proof (H2 id r Hr Hf) as Hk. rewrite (finalize_unfold _ _ _ _ _ _ r) by done.
  set (r' := finished now record cause completed r).
  assert (rl_started r' = rl_started r ∧ rl_key r' = rl_key r ∧ rl_binding r' = rl_binding r
          ∧ rl_finalOnce r' = true) as (Es & Ek & Eb & Ef) by done.
  pose proof (H1 id r Hr) as [Hlt Hok].
  assert (id ∉ (mg_records m).*1) as Hfresh.
  { intros ([j u] & Hx & Hju)%list_elem_of_fmap. cbn in Hx. subst j. destruct (H8 _ _ Hju) as (q & Hq & _ & Hqf & _).
    cbn in *. congruence. }
  assert (relay_ok r') as Hok'. { destruct Hok. by constructor. }
  set (m' := _ <| mg_records := _ |>).
  assert (∀ j, started m' j = started m j) as Hst.
  { intros j. unfold started, m'. cbn. destruct (decide (j = id)) as [->|].
    - by rewrite lookup_insert_eq, Hr.
    - by rewrite lookup_insert_ne. }
  assert ((countLocked m').1 ≤ (countLocked m).1 ∧ (countLocked m').2 ≤ (countLocked m).2) as [Hp Ha].
  { unfold countLocked. cbn [fst snd]. split.
    - rewrite (sum_map_ext (λ j, if started m j then 0 else 1)) by (intros; by rewrite Hst).
      eapply sum_map_delete_le; [|done]. intros y. destruct (started m y); lia.
    - rewrite (sum_map_ext (λ j, if started m j then 1 else 0)) by (intros; by rewrite Hst).
      eapply sum_map_delete_le; [|done]. intros y. destruct (started m y); lia. }
  assert (∀ j u, (j, u) ∈ mg_records m' → (j, u) ∈ mg_records m ∨
                 j = id ∧ u = rl_usage r' ∧ rl_started r = true) as Hrec.
  { intros j u. unfold m'. cbn. destruct (rl_started r) eqn:S; [|by left].
    intros [?|Hx%list_elem_of_singleton]%elem_of_app; [by left|]. right. by simplify_eq. }
  constructor.
  - intros j q. unfold m'. cbn. intros [[<- <-]|[? ?]]%lookup_insert_Some; [done|by apply H1].
  - intros j q. unfold m'. cbn. intros [[<- <-]|[? ?]]%lookup_insert_Some Hq; [congruence|].
    rewrite lookup_delete_ne; [by apply H2|]. intros E. rewrite E in Hk.
    assert (mg_relays m !! rl_key q = Some j) by by apply H2. congruence.
  - intros k j. unfold m'. cbn. intros [Hne Hj]%lookup_delete_Some.
    destruct (H3 k j Hj) as (q & Hq & Hqk & Hqf). exists q. rewrite lookup_insert_ne; [done|].
    intros ->. congruence.
  - unfold m'. cbn. rewrite map_size_delete_Some by eauto.
    pose proof (size_insert_le (mg_consumed m) (keyFor (rl_key r)) (bd_ExpiresAt (rl_binding r))).
    assert (size (mg_relays m) ≠ 0%nat) by (eapply map_size_ne_0_lookup_2; eauto).
    lia.
  - unfold m' in *. cbn [mg_config] in *. cbn in *. lia.
  - unfold m' in *. cbn in *. lia.
  - unfold m'. cbn. destruct (rl_started r); [|done]. rewrite fmap_app. apply NoDup_app.
    split_and!; [done|set_solver|apply NoDup_singleton].
  - intros j u [Hju|(-> & -> & HS)]%Hrec.
    + destruct (H8 j u Hju) as (q & Hq & Hrq). exists q. split; [|done]. unfold m'. cbn.
      rewrite lookup_insert_ne; [done|]. intros ->. destruct Hrq. naive_solver.
    + exists r'. unfold m'. cbn. rewrite lookup_insert_eq. split; [done|].
      destruct Hok. unfold recorded_ok. cbn. rewrite HS. split_and!; try done; lia.
  - intros j q. unfold m'. cbn. intros [[<- <-]|[? ?]]%lookup_insert_Some Hs' Hf'.
    + rewrite Es in Hs'. rewrite Hs'. set_solver.
    + destruct (rl_started r); rewrite ?fmap_app, ?elem_of_app; [left|]; by eapply H9.
Qed.

(** ** Attaching a leg *)

Lemma create_inv key m r :
  manager_inv m → 0 ≤ bd_MaximumBytes (rk_Binding key) → mg_relays m !! key = None →
  Z.of_nat (size (mg_consumed m)) + Z.of_nat (size (mg_relays m)) < rc_MaximumConsumed (mg_config m) →
  (countLocked m).1 < rc_MaximumPending (mg_config m) →
  r = mkRelay key (rk_Binding key) None None false false zeroUsage zeroUsage None
        false false None false 0 0 →
  manager_inv (m <| mg_relays := <[key := mg_next m]> (mg_relays m) |>
                 <| mg_heap := <[mg_next m := r]> (mg_heap m) |> <| mg_next := mg_next m + 1 |>).
Proof.
  intros [H1 H2 H3 H4 H5 H6 H7 H8 H9] Hpos Hk Hcap Hpend Er.
  assert (mg_heap m !! mg_next m = None) as Hfree.
  { destruct (mg_heap m !! mg_next m) as [q|] eqn:E; [|done]. apply H1 in E as [? _]. lia. }
  set (m' := _ <| mg_next := _ |>).
  assert (∀ j, started m' j = started m j) as Hst.
  { intros j. unfold started, m'. cbn. destruct (decide (j = mg_next m)) as [->|].
    - by rewrite lookup_insert_eq, Hfree, Er.
    - by rewrite lookup_insert_ne. }
  assert (countLocked m' = ((countLocked m).1 + 1, (countLocked m).2)) as Hc.
  { unfold countLocked. cbn [fst snd].
    rewrite (sum_map_ext (λ j, if started m j then 0 else 1) (λ j, if started m' j then 0 else 1))
      by (intros; by rewrite Hst).
    rewrite (sum_map_ext (λ j, if started m j then 1 else 0) (λ j, if started m' j then 1 else 0))
      by (intros; by rewrite Hst).
    change (mg_relays m') with (<[key := mg_next m]> (mg_relays m)).
    rewrite !sum_map_insert by done.
    assert (started m (mg_next m) = false) as -> by (unfold started; by rewrite Hfree).
    f_equal; lia. }
  constructor; rewrite ?Hc; unfold m'; cbn; try lia; try done.
  - intros j q [[<- <-]|[? Hj]]%lookup_insert_Some.
    + split; [lia|]. subst r. constructor; cbn; try done; lia.
    + apply H1 in Hj as [? ?]. split; [lia|done].
  - intros j q [[<- <-]|[? Hj]]%lookup_insert_Some Hf; [subst r; apply lookup_insert_eq|].
    rewrite lookup_insert_ne; [by apply H2|]. intros ->. apply H2 in Hj; [congruence|done].
  - intros k j [[<- <-]|[? Hj]]%lookup_insert_Some.
    + exists r. rewrite lookup_insert_eq. by subst r.
    + destruct (H3 k j Hj) as (q & Hq & ?). exists q. rewrite lookup_insert_ne; [done|congruence].
  - rewrite map_size_insert_None by done. lia.
  - cbn in Hpend. lia.
  - intros j u Hu. destruct (H8 j u Hu) as (q & Hq & ?). exists q.
    rewrite lookup_insert_ne; [done|congruence].
  - intros j q [[<- <-]|[? Hj]]%lookup_insert_Some; [by subst r|by apply H9].
Qed.

Lemma Attach_select_inv key m id r created m' :
  manager_inv m → 0 ≤ bd_MaximumBytes (rk_Binding key) →
  Attach_select key m = (inr (id, r, created), m') →
  manager_inv m' ∧ mg_heap m' !! id = Some r ∧ rl_finalOnce r = false ∧ rl_key r = key
  ∧ (created = true → rl_initiator r = None ∧ rl_host r = None).
Proof.
  intros Hi Hpos Ha. unfold Attach_select in Ha.
  destruct (mg_relays m !! key) as [j|] eqn:Hk.
  - destruct (mi_relays _ Hi _ _ Hk) as (q & Hq & Hqk & Hqf). rewrite Hq in Ha.
    simplify_eq. split_and!; try done.
  - destruct (_ <=? _) eqn:E1; [done|]. destruct (_ <=? _) eqn:E2 in Ha; [done|]. bools. simplify_eq.
    split; [by eapply create_inv|]. cbn. rewrite lookup_insert_eq. split_and!; done.
Qed.

(** Starting a pending relay moves it from the pending to the active ones. *)
Lemma start_inv m id r r' :
  manager_inv m → mg_heap m !! id = Some r → rl_finalOnce r = false → rl_started r = false →
  (countLocked m).2 < rc_MaximumActive (mg_config m) →
  relay_ok r' → rl_key r' = rl_key r → rl_started r' = true → rl_finalOnce r' = false →
  manager_inv (m <| mg_heap := <[id := r']> (mg_heap m) |>).
Proof.
  intros Hi Hr Hf Hs Hact Hok Hk Hs' Hf'. pose proof Hi as [H1 H2 H3 H4 H5 H6 H7 H8 H9].
  pose proof (H2 id r Hr Hf) as Hin.
  set (m' := m <| mg_heap := _ |>).
  assert (∀ k j, k ≠ rl_key r → mg_relays m !! k = Some j → started m' j = started m j) as Hst.
  { intros k j Hne Hj. unfold m'. rewrite started_update. destruct (decide (j = id)) as [->|]; [|done].
    destruct (H3 k id Hj) as (q & Hq & <- & _). congruence. }
  assert (started m id = false ∧ started m' id = true) as [Es Es'].
  { unfold m'. rewrite started_update, decide_True by done. unfold started. by rewrite Hr. }
  assert (countLocked m' = ((countLocked m).1 - 1, (countLocked m).2 + 1)) as Hc.
  { unfold countLocked. cbn [fst snd]. change (mg_relays m') with (mg_relays m).
    rewrite (sum_map_change (λ j, if started m j then 0 else 1) (λ j, if started m' j then 0 else 1)
               _ _ _ Hin) by (intros k j ??; by erewrite Hst).
    rewrite (sum_map_change (λ j, if started m j then 1 else 0) (λ j, if started m' j then 1 else 0)
               _ _ _ Hin) by (intros k j ??; by erewrite Hst).
    rewrite Es, Es'. f_equal; lia. }
  constructor; rewrite ?Hc; try done; unfold m'; cbn in *; try lia.
  - intros j q [[<- <-]|[? ?]]%lookup_insert_Some; [|by apply H1]. split; [by apply (H1 id r)|done].
  - intros j q [[<- <-]|[? ?]]%lookup_insert_Some Hq; [|by apply H2]. by rewrite Hk.
  - intros k j Hj. destruct (H3 k j Hj) as (q & Hq & Hqk & Hqf).
    destruct (decide (j = id)) as [->|].
    + exists r'. rewrite lookup_insert_eq. simplify_eq. by rewrite Hk.
    + exists q. by rewrite lookup_insert_ne.
  - intros j u Hu. destruct (H8 j u Hu) as (q & Hq & Hrec). destruct (decide (j = id)) as [->|].
    + destruct Hrec as (? & ? & _). congruence.
    + exists q. by rewrite lookup_insert_ne.
  - intros j q [[<- <-]|[? ?]]%lookup_insert_Some; [congruence|by apply H9].
Qed.

Lemma Attach_join_inv now admission stream id r created m res m' :
  manager_inv m → mg_heap m !! id = Some r → rl_finalOnce r = false →
  (created = true → rl_initiator r = None ∧ rl_host r = None) →
  Attach_join now admission stream id r created m = (res, m') → manager_inv m'.
Proof.
  intros Hi Hr Hf Hnew Ha. unfold Attach_join in Ha.
  pose proof (proj2 (mi_heap _ Hi _ _ Hr)) as Hok. pose proof Hok as [B1 B2 B3 B4 B5 B6].
  destruct (rl_expired r); [simplify_eq; by apply closeStream_inv|].
  destruct (nonnil _) eqn:Hsel in Ha; [simplify_eq; by apply closeStream_inv|].
  destruct (_ && _) eqn:Hcap in Ha; [simplify_eq; by apply closeStream_inv|].
  assert (nonnil (rl_initiator r) || nonnil (rl_host r) = true → rl_started r = false →
          (countLocked m).2 < rc_MaximumActive (mg_config m)) as Hroom.
  { intros Hleg Hns. destruct created.
    - destruct (Hnew eq_refl) as [E1 E2]. by rewrite E1, E2 in Hleg.
    - rewrite Hns, Hleg in Hcap. cbn in Hcap. by bools. }
  destruct (adm_Role admission =? RoleHost); cbn in Ha.
  - destruct (rl_host r) eqn:Eh; [done|].
    assert (rl_started r = false) as Hs by (rewrite B3; apply andb_false_r). rewrite Hs in Ha. cbn in Ha.
    destruct (rl_initiator r) eqn:Ei; simplify_eq.
    + eapply start_inv; try done. by apply Hroom.
    + by eapply update_inv.
  - destruct (rl_initiator r) eqn:Ei; [done|].
    assert (rl_started r = false) as Hs by (by rewrite B3). rewrite Hs in Ha. cbn in Ha.
    destruct (rl_host r) eqn:Eh; simplify_eq.
    + eapply start_inv; try done. by apply Hroom.
    + by eapply update_inv.
Qed.

Lemma Attach_inv now1 now2 now3 ctxErr admission stream m res m' :
  manager_inv m → Attach now1 now2 now3 ctxErr admission stream m = (res, m') → manager_inv m'.
Proof.
  intros Hi Ha. unfold Attach in Ha. destruct stream as [stream|]; [|by simplify_eq].
  destruct (negb _) eqn:Hv in Ha; [simplify_eq; by apply closeStream_inv|].
  destruct ctxErr; [simplify_eq; by apply closeStream_inv|].
  apply (prune_inv now2) in Hi. set (m1 := pruneConsumedLocked now2 m) in *.
  destruct (mg_closed m1); [simplify_eq; by apply closeStream_inv|].
  destruct (mg_draining m1); [simplify_eq; by apply closeStream_inv|].
  destruct (nonnil _); [simplify_eq; by apply closeStream_inv|].
  destruct (Attach_select _ m1) as [[e|[[id r] created]] m2] eqn:Hs.
  - assert (m2 = m1) as -> by (unfold Attach_select in Hs; by cases).
    simplify_eq. by apply closeStream_inv.
  - apply Attach_select_inv in Hs as (Hi2 & Hr & Hf & Hk & Hn); [|done|].
    + by eapply Attach_join_inv.
    + unfold validAdmission in Hv. cbn. bools. lia.
Qed.

(** ** Preservation *)

Lemma terminate_begin_inv id cause m t m' :
  manager_inv m → terminate_begin id cause m = (t, m') → manager_inv m'.
Proof.
  intros Hi Ht. unfold terminate_begin in Ht.
  destruct (mg_heap m !! id) as [r|] eqn:Hr; [|by simplify_eq].
  destruct (rl_stopOnce r); simplify_eq; [done|].
  pose proof (proj2 (mi_heap _ Hi _ _ Hr)) as []. by eapply update_inv.
Qed.

Lemma terminate_finish_inv now record t m :
  manager_inv m → manager_inv (terminate_finish now record t m).
Proof.
  intros Hi. unfold terminate_finish. destruct (mg_heap m !! tm_relay t) as [r|] eqn:Hr; [|done].
  pose proof (proj2 (mi_heap _ Hi _ _ Hr)) as [].
  destruct (negb _); [apply finalize_inv|]; apply closeLeg_inv, closeLeg_inv; by eapply update_inv.
Qed.

Lemma expire_inv id m b m' :
  manager_inv m → expirePending_mark id m = (b, m') → manager_inv m'.
Proof.
  intros Hi Ht. unfold expirePending_mark in Ht.
  destruct (mg_heap m !! id) as [r|] eqn:Hr; [|by simplify_eq].
  destruct (_ || _); simplify_eq; [done|].
  pose proof (proj2 (mi_heap _ Hi _ _ Hr)) as []. by eapply update_inv.
Qed.

Lemma forward_inv id dir n r m :
  manager_inv m → mg_heap m !! id = Some r → 0 ≤ n →
  (if dir : bool then rl_toInitiator r else rl_toHost r) + n ≤ bd_MaximumBytes (rl_binding r) →
  manager_inv (m <| mg_heap := <[id := forward dir n r]> (mg_heap m) |>).
Proof.
  intros Hi Hr Hn Hle. pose proof (proj2 (mi_heap _ Hi _ _ Hr)) as [].
  eapply update_inv; try done; destruct dir; try done; constructor; cbn; try done; lia.
Qed.

Lemma run_finish_inv now record first second id m :
  manager_inv m → manager_inv (run_finish now record first second id m).
Proof.
  intros Hi. unfold run_finish. destruct (mg_heap m !! id) as [r|]; [|done].
  apply finalize_inv, closeLeg_inv, closeLeg_inv, Hi.
Qed.

Lemma pool_step_inv now p p' : pool_step now p p' → manager_inv (p_m p) → manager_inv (p_m p').
Proof.
  intros Hs Hi. destruct Hs; cbn [p_m] in *; eauto using Attach_inv, terminate_begin_inv,
    terminate_finish_inv, expire_inv, forward_inv, run_finish_inv; by eapply frame_inv.
Qed.

(** A manager some configuration starts and some interleaving reaches. *)
Definition reachable (p : pool) : Prop :=
  ∃ config m, NewManager config = inr m ∧ rtc any_step (mkPool m [] ∅) p.

Lemma NewManager_inv config m : NewManager config = inr m → manager_inv m.
Proof.
  unfold NewManager. intros H. set (c := if _ =? 0 then _ else config) in *. clearbody c.
  destruct (negb _) eqn:Hv; simplify_eq. unfold Config_valid in Hv. bools.
  constructor; cbn; try done; try set_solver; try (rewrite ?map_size_empty, ?sum_map_empty; lia).
  apply NoDup_nil_2.
Qed.

Lemma relay_reachable_inv p : reachable p → manager_inv (p_m p).
Proof.
  intros (config & m & Hm & Hr). apply NewManager_inv in Hm.
  remember (mkPool m [] ∅) as p0 eqn:E. assert (manager_inv (p_m p0)) as Hi by by subst p0.
  clear E Hm. induction Hr as [|p1 p2 p3 [now Hs] Hr IH]; [done|].
  apply IH. by eapply pool_step_inv.
Qed.
End RelayProofs.
