(* ===== verification/RelayGuarantees.v ===== *)
(** * Peer relay manager: theorems

    Capacity, usage reports, single use of stream handles, refusal and
    termination, over every interleaving; one interleaving in which a stream is
    left open; and the theorems at a concrete manager. *)
From S2P Require Import Prelude Go Relay RelayProofs.

Module RelayGuarantees.
Import Relay RelayProofs.

(** However attachments, terminations and copies interleave, the manager
    stays within its configuration: pending relays, active relays, and relays
    plus remembered stream handles are bounded by their maxima. *)
Theorem relay_capacity p :
  reachable p →
  (Stats (p_m p)).1 ≤ rc_MaximumPending (mg_config (p_m p))
  ∧ (Stats (p_m p)).2 ≤ rc_MaximumActive (mg_config (p_m p))
  ∧ Z.of_nat (size (mg_consumed (p_m p))) + Z.of_nat (size (mg_relays (p_m p)))
    ≤ rc_MaximumConsumed (mg_config (p_m p)).
Proof. intros [_ _ _ H1 H2 H3 _ _ _]%relay_reachable_inv. done. Qed.

(** Usage is reported exactly once per relay that started, when it is done,
    never for a relay whose legs were not paired, and never above the byte limit
    of its binding. *)
Theorem usage_reported_once p id r :
  reachable p → mg_heap (p_m p) !! id = Some r →
  NoDup (mg_records (p_m p)).*1
  ∧ (id ∈ (mg_records (p_m p)).*1 ↔ rl_started r = true ∧ rl_done r = true)
  ∧ (∀ u, (id, u) ∈ mg_records (p_m p) →
       us_BytesToInitiator u ≤ bd_MaximumBytes (rl_binding r)
       ∧ us_BytesToHost u ≤ bd_MaximumBytes (rl_binding r)).
Proof.
  intros [H1 _ _ _ _ _ H7 H8 H9]%relay_reachable_inv Hr. pose proof (proj2 (H1 _ _ Hr)) as [_ Hd _ _ _ _].
  split_and!; [done|split|].
  - intros ([j u] & Hx & Hu)%list_elem_of_fmap. cbn in Hx. subst j.
    destruct (H8 _ _ Hu) as (q & Hq & ? & ? & _). simplify_eq. by rewrite Hd.
  - intros [? ?]. eapply H9; [done..|]. congruence.
  - intros u Hu. destruct (H8 _ _ Hu) as (q & Hq & _ & _ & ? & ?). by simplify_eq.
Qed.

(** ** Refusals *)

(** A refused attachment closes the supplied stream and leaves every relay as
    it was: no relay is created, paired or started. *)
Theorem refused_attach_closes now1 now2 now3 ctxErr admission stream m e m' :
  manager_inv m →
  Attach now1 now2 now3 ctxErr admission (Some stream) m = (inl e, m') →
  stream ∈ mg_closed_streams m' ∧ mg_relays m' = mg_relays m ∧ mg_heap m' = mg_heap m
  ∧ mg_records m' = mg_records m.
Proof.
  intros Hi Ha. unfold Attach in Ha.
  destruct (negb _); [simplify_eq; cbn; set_solver|].
  destruct ctxErr; [simplify_eq; cbn; set_solver|].
  set (m1 := pruneConsumedLocked now2 m) in *.
  destruct (mg_closed m1); [simplify_eq; cbn; set_solver|].
  destruct (mg_draining m1); [simplify_eq; cbn; set_solver|].
  destruct (nonnil _); [simplify_eq; cbn; set_solver|].
  destruct (Attach_select _ m1) as [[e'|[[id r] created]] m2] eqn:Hs.
  - assert (m2 = m1) as -> by (unfold Attach_select in Hs; by cases). simplify_eq. cbn. set_solver.
  - assert (created = true ∧ rl_expired r = false ∧ rl_initiator r = None ∧ rl_host r = None
            ∨ m2 = m1) as Hc.
    { unfold Attach_select in Hs. cases; auto. }
    unfold Attach_join in Ha. destruct Hc as [(-> & E1 & E2 & E3)| ->].
    + rewrite E1, E2, E3 in Ha. cbn in Ha. cases.
    + cases; cbn; set_solver.
Qed.

(** ** Single use of stream handles *)

(** All relays for stream key [k] carry the same credential expiry. *)
Definition handle_expires (k : bytes) (t : Time) (m : Manager) : Prop :=
  ∀ id r, mg_heap m !! id = Some r → keyFor (rl_key r) = k → bd_ExpiresAt (rl_binding r) = t.

(** Steps before [t] that keep to one credential per handle. *)
Definition step_before (k : bytes) (t : Time) (p p' : pool) : Prop :=
  ∃ now, now < t ∧ pool_step now p p' ∧ handle_expires k t (p_m p').

Lemma prune_keeps k t now m :
  mg_consumed m !! k = Some t → now < t → mg_consumed (pruneConsumedLocked now m) !! k = Some t.
Proof.
  intros Hk Hlt. cbn. apply map_lookup_filter_Some. split; [done|]. unfold After. cbn. by apply Z.ltb_lt.
Qed.

Lemma Attach_consumed k t now1 now2 now3 ctxErr admission stream m res m' :
  mg_consumed m !! k = Some t → now2 < t →
  Attach now1 now2 now3 ctxErr admission stream m = (res, m') → mg_consumed m' !! k = Some t.
Proof.
  intros Hk Hlt Ha. pose proof (prune_keeps _ _ _ _ Hk Hlt) as Hp. cbn in Hp.
  unfold Attach, Attach_select, Attach_join in Ha. cases; done.
Qed.

Lemma finalize_consumed k t now record id cause completed m :
  mg_consumed m !! k = Some t → handle_expires k t m →
  mg_consumed (finalize now record id cause completed m) !! k = Some t.
Proof.
  intros Hk Hh. unfold finalize. destruct (mg_heap m !! id) as [r|] eqn:Hr; [|done].
  specialize (Hh id r Hr).
  assert (<[keyFor (rl_key r) := bd_ExpiresAt (rl_binding r)]> (mg_consumed m) !! k = Some t) as E.
  { destruct (decide (keyFor (rl_key r) = k)) as [Ek|].
    - rewrite Ek, lookup_insert_eq. by rewrite Hh.
    - by rewrite lookup_insert_ne. }
  cases; done.
Qed.

Lemma handle_expires_update k t id r r' m :
  handle_expires k t m → mg_heap m !! id = Some r → rl_key r' = rl_key r →
  rl_binding r' = rl_binding r → handle_expires k t (m <| mg_heap := <[id := r']> (mg_heap m) |>).
Proof.
  intros Hh Hr Ek Eb j q. cbn. intros [[<- <-]|[? ?]]%lookup_insert_Some; [|by eapply Hh].
  rewrite Ek, Eb. by eapply Hh.
Qed.

Lemma step_before_consumed k t p p' :
  step_before k t p p' → handle_expires k t (p_m p) → mg_consumed (p_m p) !! k = Some t →
  mg_consumed (p_m p') !! k = Some t.
Proof.
  intros (now & Hlt & Hs & _) Hh Hk. destruct Hs; cbn [p_m] in *; try done.
  - by eapply Attach_consumed.
  - by eapply Attach_consumed.
  - unfold expirePending_mark in H. cases; done.
  - unfold terminate_begin in H. cases; done.
  - unfold terminate_finish. destruct (mg_heap m !! tm_relay t0) as [r|] eqn:Hr; [|done].
    set (m1 := _ <| mg_heap := _ |>).
    assert (handle_expires k t (closeLeg (tm_host t0) (closeLeg (tm_initiator t0) m1))
            ∧ mg_consumed (closeLeg (tm_host t0) (closeLeg (tm_initiator t0) m1)) !! k = Some t) as [? ?].
    { assert (handle_expires k t m1) by (by eapply handle_expires_update).
      destruct (tm_host t0), (tm_initiator t0); done. }
    destruct (negb _); [by apply finalize_consumed|done].
  - unfold run_finish. destruct (mg_heap m !! id) as [r|] eqn:Hr; [|done].
    apply finalize_consumed; destruct (rl_host r), (rl_initiator r); done.
Qed.

(** A stream handle is used once: when the relay of a handle has finished, no
    attachment for that handle succeeds before its credential expires, whatever
    happens in between. *)
Theorem stream_handle_single_use k t p p' now1 now2 now3 ctxErr admission stream :
  handle_expires k t (p_m p) → mg_consumed (p_m p) !! k = Some t →
  rtc (step_before k t) p p' → now2 < t →
  keyFor (mkRelayKey (adm_Binding admission) (adm_Carrier admission)) = k →
  ∃ e m', Attach now1 now2 now3 ctxErr admission stream (p_m p') = (inl e, m').
Proof.
  intros Hh Hk Hr Hlt Hadm.
  assert (mg_consumed (p_m p') !! k = Some t) as Hk'.
  { induction Hr as [|p1 p2 p3 Hs Hr IH]; [done|]. apply IH.
    - by destruct Hs as (? & _ & _ & ?).
    - by eapply step_before_consumed. }
  pose proof (prune_keeps _ _ _ _ Hk' Hlt) as Hp. unfold Attach.
  destruct stream as [stream|]; [|eauto]. destruct (negb _); [eauto|]. destruct ctxErr; [eauto|].
  destruct (mg_closed _); [eauto|]. destruct (mg_draining _); [eauto|].
  unfold canonicalBinding. rewrite Hadm, Hp. cbn. eauto.
Qed.

(** ** Termination *)

Definition leg_closed (m : Manager) (l : option leg) : Prop :=
  match l with Some l => leg_stream l ∈ mg_closed_streams m | None => True end.

Lemma closeLegs i h m :
  let m' := closeLeg h (closeLeg i m) in
  mg_heap m' = mg_heap m ∧ mg_relays m' = mg_relays m ∧ mg_consumed m' = mg_consumed m
  ∧ mg_records m' = mg_records m ∧ leg_closed m' i ∧ leg_closed m' h.
Proof. destruct i, h; cbn; split_and!; try done; set_solver. Qed.

(** Terminating a pending relay releases all of it: the relay is done with the
    cause as its error, its legs are closed, its place in the map is free, its
    handle is remembered until the credential expires and nothing is reported. *)
Theorem terminate_pending now record id cause m r :
  manager_inv m → mg_heap m !! id = Some r → rl_finalOnce r = false → rl_stopOnce r = false →
  rl_started r = false →
  let m' := terminate now record id cause m in
  ∃ r', mg_heap m' !! id = Some r' ∧ rl_done r' = true ∧ rl_err r' = Some cause
    ∧ leg_closed m' (rl_initiator r') ∧ leg_closed m' (rl_host r')
    ∧ mg_relays m' !! rl_key r = None
    ∧ mg_consumed m' !! keyFor (rl_key r) = Some (bd_ExpiresAt (rl_binding r))
    ∧ mg_records m' = mg_records m.
Proof.
  intros Hi Hr Hf Hs Hns. pose proof (mi_live _ Hi _ _ Hr Hf) as Hk.
  unfold terminate, terminate_begin. rewrite Hr, Hs. unfold terminate_finish. cbn.
  rewrite lookup_insert_eq. cbn. rewrite Hns. cbn.
  match goal with |- context [closeLeg (rl_host r) (closeLeg (rl_initiator r) ?m0)] =>
    pose proof (closeLegs (rl_initiator r) (rl_host r) m0) as (E1 & E2 & E3 & E4 & E5 & E6) end.
  set (m1 := closeLeg (rl_host r) _) in *. cbn in E1, E2, E3, E4.
  apply (f_equal (lookup id)) in E1. rewrite lookup_insert_eq in E1.
  rewrite (finalize_unfold _ _ _ _ _ _ _ E1) by (cbn; congruence). cbn. rewrite lookup_insert_eq.
  eexists. split_and!; try done; cbn.
  - apply lookup_delete_eq.
  - apply lookup_insert_eq.
Qed.

(** ** A concrete manager *)

Definition manager0 : Manager :=
  mkManager DevelopmentConfig ∅ ∅ false false ∅ 0 ∅ [].
Definition binding0 : Binding :=
  mkBinding (replicate 16 x01) (replicate 16 x02) "env" "route" 1 "intent" 1 1 (100 * Second) 1000.
Definition key0 : relayKey := mkRelayKey binding0 CarrierQUIC.
Definition initiator0 : Admission := mkAdmission binding0 RoleInitiator CarrierQUIC.
Definition host0 : Admission := mkAdmission binding0 RoleHost CarrierQUIC.
Definition reported : Usage → option err := λ _, None.

(** Stream 1 is the initiator's, stream 2 the host's. *)
Definition pending0 : Manager := (Attach 1 1 1 None initiator0 (Some 1) manager0).2.
Definition paired0 : Manager := (Attach 2 2 2 None host0 (Some 2) pending0).2.
Definition copied (toInitiator : bool) : copyResult := mkCopyResult toInitiator 0 None.
Definition finished0 : Manager := run_finish 3 reported (copied true) (copied false) 0 paired0.

Lemma manager0_ok : NewManager DevelopmentConfig = inr manager0.
Proof. reflexivity. Qed.

Lemma reach_pending : reachable (mkPool pending0 [] ∅).
Proof.
  exists DevelopmentConfig, manager0. split; [apply manager0_ok|]. apply rtc_once. exists 1.
  apply (step_attach 1 1 1 None initiator0 (Some 1) 0 false). vm_compute. reflexivity.
Qed.

Lemma reach_step p now p' : reachable p → pool_step now p p' → reachable p'.
Proof. intros (c & m & ? & ?) Hs. exists c, m. split; [done|]. eapply rtc_r; [done|]. by exists now. Qed.

Lemma reach_paired : reachable (mkPool paired0 [] ({[0]} ∪ ∅)).
Proof.
  eapply (reach_step _ 2); [apply reach_pending|].
  apply (step_attach 2 2 2 None host0 (Some 2) 0 true). vm_compute. reflexivity.
Qed.

Definition pool_finished : pool := mkPool finished0 [] (({[0]} ∪ ∅) ∖ {[0]}).

Lemma reach_finished : reachable pool_finished.
Proof.
  eapply (reach_step _ 3); [apply reach_paired|]. apply step_run_finish. set_solver.
Qed.

Lemma relay_capacity_witness :
  let m := p_m pool_finished in
  (Stats m).1 ≤ rc_MaximumPending (mg_config m) ∧ (Stats m).2 ≤ rc_MaximumActive (mg_config m)
  ∧ Z.of_nat (size (mg_consumed m)) + Z.of_nat (size (mg_relays m))
    ≤ rc_MaximumConsumed (mg_config m).
Proof. exact (relay_capacity pool_finished reach_finished). Defined.

Definition relay_at (m : Manager) : relay :=
  match mg_heap m !! 0 with
  | Some r => r
  | None => mkRelay key0 binding0 None None false false zeroUsage zeroUsage None false false None false 0 0
  end.

Lemma relay_at_finished : mg_heap (p_m pool_finished) !! 0 = Some (relay_at finished0).
Proof. vm_compute. reflexivity. Qed.

Lemma usage_reported_once_witness :
  let m := p_m pool_finished in
  let r := relay_at finished0 in
  NoDup (mg_records m).*1 ∧ (0 ∈ (mg_records m).*1 ↔ rl_started r = true ∧ rl_done r = true)
  ∧ (∀ u, (0, u) ∈ mg_records m → us_BytesToInitiator u ≤ bd_MaximumBytes (rl_binding r)
                                  ∧ us_BytesToHost u ≤ bd_MaximumBytes (rl_binding r)).
Proof. exact (usage_reported_once pool_finished 0 _ reach_finished relay_at_finished). Defined.

Lemma inv_pending : manager_inv pending0.
Proof. apply (relay_reachable_inv (mkPool pending0 [] ∅)), reach_pending. Qed.

(** A second initiator is refused. *)
Definition refused0 : Manager := (Attach 2 2 2 None initiator0 (Some 3) pending0).2.

Lemma refused_attach_closes_witness :
  3 ∈ mg_closed_streams refused0 ∧ mg_relays refused0 = mg_relays pending0
  ∧ mg_heap refused0 = mg_heap pending0 ∧ mg_records refused0 = mg_records pending0.
Proof.
  apply (refused_attach_closes 2 2 2 None initiator0 3 pending0 ErrConflict);
    [apply inv_pending|vm_compute; reflexivity].
Defined.

Lemma handle_expires0 : handle_expires (keyFor key0) (100 * Second) finished0.
Proof.
  intros id r Hr _. assert (id = 0) as ->.
  { destruct (mi_heap _ (relay_reachable_inv _ reach_finished) _ _ Hr) as [Hlt _].
    destruct (decide (id = 0)) as [|Hne]; [done|]. exfalso.
    cut (mg_heap finished0 !! id = None); [cbn in Hr; congruence|].
    assert (mg_heap finished0 = {[0 := relay_at finished0]}) as -> by (vm_compute; reflexivity).
    by apply lookup_singleton_ne. }
  vm_compute in Hr. injection Hr as <-. reflexivity.
Qed.

Lemma handle_expires_drain k t m : handle_expires k t m → handle_expires k t (BeginDrain m).
Proof. done. Qed.

Lemma stream_handle_single_use_witness :
  ∃ e m', Attach 5 5 5 None initiator0 (Some 4) (BeginDrain finished0) = (inl e, m').
Proof.
  apply (stream_handle_single_use (keyFor key0) (100 * Second) (mkPool finished0 [] ∅)
           (mkPool (BeginDrain finished0) [] ∅) 5 5 5 None initiator0 (Some 4)).
  - apply handle_expires0.
  - vm_compute. reflexivity.
  - apply rtc_once. exists 4. split_and!; [reflexivity|apply step_drain|].
    apply (handle_expires_drain _ _ finished0), handle_expires0.
  - reflexivity.
  - reflexivity.
Defined.

Lemma terminate_pending_witness :
  let m' := terminate 2 reported 0 ErrRevoked pending0 in
  ∃ r', mg_heap m' !! 0 = Some r' ∧ rl_done r' = true ∧ rl_err r' = Some ErrRevoked
    ∧ leg_closed m' (rl_initiator r') ∧ leg_closed m' (rl_host r')
    ∧ mg_relays m' !! key0 = None
    ∧ mg_consumed m' !! keyFor key0 = Some (100 * Second)
    ∧ mg_records m' = mg_records pending0.
Proof.
  apply (terminate_pending 2 reported 0 ErrRevoked pending0 (relay_at pending0));
    [apply inv_pending|vm_compute; reflexivity..].
Defined.

(** ** A leg that pairs a relay being terminated *)

(** The initiator's call is cancelled; the host attaches between the two parts of
    the termination. *)
Definition cancelled : err := EPlain "context canceled".
Definition terminating : option Termination * Manager := terminate_begin 0 cancelled pending0.
Definition token : Termination := mkTermination 0 (Some (mkLeg 1 CarrierQUIC)) None false cancelled.
Definition late0 : Manager := (Attach 2 2 2 None host0 (Some 2) terminating.2).2.
Definition lost0 : Manager := terminate_finish 3 reported token late0.

(** A leg attached while its relay is being terminated is left open: some
    interleaving reaches a state in which the relay is done, so that the host's
    [Attach] has returned the other side's cancellation, while the host's stream
    has not been closed and the termination that owned it is over.  The source
    says that every exit path of [Attach] closes the supplied stream. *)
Theorem late_leg_left_open :
  ∃ p r l, reachable p ∧ p_terms p = [] ∧ mg_heap (p_m p) !! 0 = Some r
    ∧ rl_done r = true ∧ rl_host r = Some l ∧ rl_err r = Some (EWrap "" cancelled)
    ∧ (leg_stream l ∉ mg_closed_streams (p_m p)).
Proof.
  exists (mkPool lost0 [] ({[0]} ∪ ∅)), (relay_at lost0), (mkLeg 2 CarrierQUIC).
  split; [|split_and!; try (vm_compute; reflexivity)].
  - eapply (reach_step _ 3); [|apply (step_terminated 3 reported token late0 [] [])].
    eapply (reach_step _ 2);
      [|apply (step_attach 2 2 2 None host0 (Some 2) 0 true terminating.2); vm_compute; reflexivity].
    eapply (reach_step _ 1); [apply reach_pending|].
    apply (step_terminate 1 0 cancelled). vm_compute. reflexivity.
  - vm_compute. set_solver.
Qed.
End RelayGuarantees.
