(* ===== verification/RelayCopy.v ===== *)
(** * Bounded copy of one relay direction

    Models [limitedWriter] and [copyLimited] of [internal/peerrelay/manager.go]
    over the loop of [io.CopyBuffer].  A source is the list of the answers of its
    [Read] calls (then [io.EOF]); a destination answers the [i]-th [Write] of a
    value by a count and an error. *)
From S2P Require Import Prelude Go Relay.

Module RelayCopy.
Import Relay.

Definition EOF : err := EPlain "EOF".
Definition isEOF (e : err) : bool := match e with EPlain m => m == "EOF" | _ => false end.
Definition ErrShortWrite : err := EPlain "short write".
Definition errInvalidWrite : err := EPlain "invalid write result".

Abbreviation destination := (nat → bytes → Z * option err).

(** [limitedWriter], with the destination's calls so far and what it took. *)
Record limitedWriter := mkLimitedWriter {
  lw_remaining : Z;
  lw_counter : Z;
  lw_calls : nat;
  lw_sent : bytes
}.
#[export] Instance limitedWriter_eta : Eta limitedWriter := λ w,
  mkLimitedWriter (lw_remaining w) (lw_counter w) (lw_calls w) (lw_sent w).

(** One call of the destination, with the updates of [remaining] and [counter]. *)
Definition pass (dst : destination) (value : bytes) (w : limitedWriter)
    : (Z * option err) * limitedWriter :=
  let '(n, e) := dst (lw_calls w) value in
  ((n, e), mkLimitedWriter (u64 (lw_remaining w - n)) (u64 (lw_counter w + n)) (S (lw_calls w))
             (lw_sent w ++ take (Z.to_nat n) value)).

Definition Write (dst : destination) (value : bytes) (w : limitedWriter)
    : (Z * option err) * limitedWriter :=
  if lw_remaining w <? blen value
  then
    let '((n, e), w) := pass dst (take (Z.to_nat (lw_remaining w)) value) w in
    match e with
    | Some e => ((n, Some e), w)
    | None => ((n, Some ErrLimit), w)
    end
  else pass dst value w.

(** The loop of [io.CopyBuffer] from a source to the writer. *)
Fixpoint CopyBuffer (dst : destination) (reads : list (bytes * option err)) (written : Z)
    (w : limitedWriter) : (Z * option err) * limitedWriter :=
  match reads with
  | [] => ((written, None), w)
  | (chunk, er) :: reads =>
      let continue written w :=
        match er with
        | Some e => ((written, if isEOF e then None else Some e), w)
        | None => CopyBuffer dst reads written w
        end in
      if 0 <? blen chunk
      then
        let '((nw, ew), w) := Write dst chunk w in
        let bad := (nw <? 0) || (blen chunk <? nw) in
        let ew := if bad then match ew with None => Some errInvalidWrite | _ => ew end else ew in
        let nw := if bad then 0 else nw in
        let written := written + nw in
        match ew with
        | Some e => ((written, Some e), w)
        | None => if negb (blen chunk =? nw) then ((written, Some ErrShortWrite), w)
                  else continue written w
        end
      else continue written w
  end.

(** [copyLimited]; the result is the count, the error, and the writer. *)
Definition copyLimited (dst : destination) (source : list (bytes * option err)) (maximum counter : Z)
    : (Z * option err) * limitedWriter :=
  let '((written, e), w) := CopyBuffer dst source 0 (mkLimitedWriter maximum counter 0 []) in
  ((u64 written, e), w).

(** The contract of [io.Writer]: a count within the value, short only with an error. *)
Definition writer_ok (dst : destination) : Prop :=
  ∀ i v, 0 ≤ (dst i v).1 ≤ blen v ∧ ((dst i v).1 < blen v → (dst i v).2 ≠ None).

(** The data a source delivers before its first error. *)
Fixpoint source_data (reads : list (bytes * option err)) : bytes :=
  match reads with
  | [] => []
  | (chunk, None) :: reads => chunk ++ source_data reads
  | (chunk, Some _) :: _ => chunk
  end.

(** ** Limits *)

(** What holds of the writer while [written] bytes of [maximum] have been passed. *)
Record copying (maximum counter : Z) (w : limitedWriter) (written : Z) : Prop := {
  cp_written : written = blen (lw_sent w);
  cp_remaining : lw_remaining w = maximum - written;
  cp_counter : lw_counter w = counter + written;
  cp_bound : 0 ≤ written ≤ maximum
}.



Lemma pass_copying dst maximum counter w written value n e w' :
  writer_ok dst → is_u64 maximum → 0 ≤ counter → counter + maximum < two64 →
  copying maximum counter w written → blen value ≤ lw_remaining w →
  pass dst value w = ((n, e), w') →
  0 ≤ n ≤ blen value ∧ (n < blen value → e ≠ None)
  ∧ lw_sent w' = lw_sent w ++ take (Z.to_nat n) value
  ∧ copying maximum counter w' (written + n).
Proof.
  intros Hd Hm Hc Hsum [H1 H2 H3 H4] Hv Hp. unfold pass in Hp.
  destruct (dst (lw_calls w) value) as [n' e'] eqn:E. simplify_eq.
  destruct (Hd (lw_calls w) value) as [Hn Hs]. rewrite E in Hn, Hs. cbn in Hn, Hs.
  split_and!; try done; try lia. unfold is_u64 in Hm. constructor; cbn.
  - rewrite blen_app, blen_take by lia. lia.
  - rewrite u64_id; unfold is_u64; lia.
  - rewrite u64_id; unfold is_u64; lia.
  - lia.
Qed.

Lemma Write_copying dst maximum counter w written value n e w' :
  writer_ok dst → is_u64 maximum → 0 ≤ counter → counter + maximum < two64 →
  copying maximum counter w written → Write dst value w = ((n, e), w') →
  0 ≤ n ≤ blen value ∧ (n < blen value → e ≠ None)
  ∧ lw_sent w' = lw_sent w ++ take (Z.to_nat n) value
  ∧ copying maximum counter w' (written + n).
Proof.
  intros Hd Hm Hc Hsum Hw Hwr. unfold Write in Hwr. pose proof Hw as [H1 H2 H3 H4].
  pose proof (blen_nonneg value).
  destruct (lw_remaining w <? blen value) eqn:Hlim; bools.
  - destruct (pass _ _ _) as [[n' e'] w1] eqn:Hp.
    apply (pass_copying dst maximum counter w written) in Hp as (P1 & P2 & P3 & P4); try done.
    2: { rewrite blen_take; lia. }
    rewrite blen_take in P1 by lia.
    assert (n = n' ∧ w' = w1 ∧ e ≠ None) as (-> & -> & He) by (destruct e'; by simplify_eq).
    split_and!; try done; try lia. rewrite P3, take_take. do 2 f_equal. lia.
  - eapply pass_copying in Hwr; try done. 
Qed.

Lemma take_prefix {A} (n : nat) (l k : list A) : take n l `prefix_of` l ++ k.
Proof. exists (drop n l ++ k). by rewrite app_assoc, take_drop. Qed.

(** The rest of the loop after a chunk was passed in full. *)
Lemma CopyBuffer_copying dst maximum counter reads w written n e w' :
  writer_ok dst → is_u64 maximum → 0 ≤ counter → counter + maximum < two64 →
  copying maximum counter w written → CopyBuffer dst reads written w = ((n, e), w') →
  copying maximum counter w' n
  ∧ ∃ more, lw_sent w' = lw_sent w ++ more ∧ more `prefix_of` source_data reads.
Proof.
  intros Hd Hm Hc Hsum. revert w written.
  induction reads as [|[chunk er] reads IH]; intros w written Hw Hb; cbn in Hb.
  { simplify_eq. split; [done|]. exists []. by rewrite app_nil_r. }
  set (post := copying maximum counter w' n ∧ ∃ more, lw_sent w' = lw_sent w ++ more
                 ∧ more `prefix_of` source_data ((chunk, er) :: reads)).
  assert (∀ w1 k, copying maximum counter w1 k → lw_sent w1 = lw_sent w ++ chunk →
          match er with
          | Some e => ((k, if isEOF e then None else Some e), w1)
          | None => CopyBuffer dst reads k w1
          end = ((n, e), w') → post) as Hcont.
  { intros w1 k Hw1 Hs1 Hr. destruct er as [e0|].
    - simplify_eq. split; [done|]. by exists chunk.
    - destruct (IH _ _ Hw1 Hr) as (? & more & E & Hp). split; [done|].
      exists (chunk ++ more). cbn. rewrite E, Hs1, app_assoc. split; [done|]. by apply prefix_app. }
  destruct (0 <? blen chunk) eqn:Hch; bools.
  2: { pose proof (blen_nonneg chunk). assert (chunk = []) as -> by (apply length_zero_iff_nil;
         unfold blen in *; lia). apply (Hcont w written); [done|by rewrite app_nil_r|done]. }
  destruct (Write dst chunk w) as [[nw ew] w1] eqn:Hwr.
  apply (Write_copying dst maximum counter w written) in Hwr as (W1 & W2 & W3 & W4); try done.
  rewrite (proj2 (Z.ltb_ge nw 0)), (proj2 (Z.ltb_ge (blen chunk) nw)) in Hb by lia. cbn in Hb.
  assert (copying maximum counter w1 (written + nw) → w' = w1 → n = written + nw → post) as Hstop.
  { intros ? -> ->. split; [done|]. exists (take (Z.to_nat nw) chunk). split; [done|].
    cbn. destruct er; [apply prefix_take|apply take_prefix]. }
  destruct ew as [e0|]; [simplify_eq; auto|].
  destruct (negb _) eqn:Hshort; [simplify_eq; auto|]. bools.
  apply (Hcont w1 (written + nw)); [done| |done]. rewrite W3, take_ge; [done|].
  unfold blen in *. lia.
Qed.

(** A relay direction never forwards more than its limit: whatever the source
    and the destination do, what reached the destination is a prefix of what the
    source produced, at most [maximum] bytes of it, and both the returned count and
    the increase of the usage counter are exactly its length. *)
Theorem copyLimited_within_limit dst source maximum counter n e w :
  writer_ok dst → is_u64 maximum → 0 ≤ counter → counter + maximum < two64 →
  copyLimited dst source maximum counter = ((n, e), w) →
  lw_sent w `prefix_of` source_data source ∧ blen (lw_sent w) ≤ maximum
  ∧ n = blen (lw_sent w) ∧ lw_counter w = counter + blen (lw_sent w).
Proof.
  intros Hd Hm Hc Hsum Hb. unfold copyLimited in Hb.
  destruct (CopyBuffer _ _ _ _) as [[k e'] w'] eqn:E. simplify_eq.
  apply (CopyBuffer_copying dst maximum counter) in E as ([H1 H2 H3 H4] & more & Hs & Hp); try done.
  2: { constructor; cbn; try done; unfold is_u64 in Hm; lia. }
  cbn in Hs. subst more k. split_and!; try done; try lia. apply u64_id. unfold is_u64 in *. lia.
Qed.

(** ** Completeness *)

(** A destination that takes everything. *)
Definition sink : destination := λ _ v, (blen v, None).

Lemma sink_ok : writer_ok sink.
Proof. intros i v. unfold sink. cbn. pose proof (blen_nonneg v). lia. Qed.

(** The error a source ends with: [io.EOF] is not one. *)
Fixpoint source_error (reads : list (bytes * option err)) : option err :=
  match reads with
  | [] => None
  | (_, None) :: reads => source_error reads
  | (_, Some e) :: _ => if isEOF e then None else Some e
  end.

Lemma CopyBuffer_sink maximum counter reads w written :
  is_u64 maximum → 0 ≤ counter → counter + maximum < two64 →
  copying maximum counter w written →
  let data := source_data reads in
  let '((n, e), w') := CopyBuffer sink reads written w in
  lw_sent w' = lw_sent w ++ take (Z.to_nat (lw_remaining w)) data
  ∧ e = if lw_remaining w <? blen data then Some ErrLimit else source_error reads.
Proof.
  intros Hm Hc Hsum. revert w written.
  induction reads as [|[chunk er] reads IH]; intros w written Hw; cbn.
  { destruct Hw. rewrite take_nil, app_nil_r, (proj2 (Z.ltb_ge (lw_remaining w) (blen []))); [done|].
    unfold blen. cbn. lia. }
  assert (∀ w1 k, copying maximum counter w1 k → lw_sent w1 = lw_sent w ++ chunk →
          lw_remaining w1 = lw_remaining w - blen chunk → 0 ≤ lw_remaining w1 →
          let '((n, e), w') := match er with
            | Some e => ((k, if isEOF e then None else Some e), w1)
            | None => CopyBuffer sink reads k w1
            end in
          let data := source_data ((chunk, er) :: reads) in
          lw_sent w' = lw_sent w ++ take (Z.to_nat (lw_remaining w)) data
          ∧ e = if lw_remaining w <? blen data then Some ErrLimit
                else source_error ((chunk, er) :: reads)) as Hcont.
  { intros w1 k Hw1 Hs1 Hr1 Hpos. destruct er as [e0|]; cbn.
    - rewrite (proj2 (Z.ltb_ge _ _)) by lia. split; [|done].
      rewrite Hs1, take_ge; [done|]. unfold blen in *. lia.
    - specialize (IH w1 k Hw1). destruct (CopyBuffer sink reads k w1) as [[n e] w'].
      destruct IH as [E1 E2]. rewrite E1, E2, Hs1, <- app_assoc, blen_app. split.
      + f_equal. rewrite take_app_ge by (unfold blen in *; lia).
        by replace (Z.to_nat (lw_remaining w) - length chunk)%nat with (Z.to_nat (lw_remaining w1))
          by (unfold blen in *; lia).
      + destruct (lw_remaining w1 <? _) eqn:L1, (lw_remaining w <? _) eqn:L2; bools; try done; lia. }
  pose proof Hw as [W1 W2 W3 W4]. pose proof (blen_nonneg chunk) as Hnn.
  destruct (0 <? blen chunk) eqn:Hch; bools.
  2: { assert (chunk = []) as -> by (apply length_zero_iff_nil; unfold blen in *; lia).
       apply (Hcont w written); [done|by rewrite app_nil_r|cbn; lia|lia]. }
  unfold Write, pass, sink. destruct (lw_remaining w <? blen chunk) eqn:Hlim; bools; cbn -[take].
  - rewrite blen_take, (proj2 (Z.ltb_ge (lw_remaining w) 0)), (proj2 (Z.ltb_ge (blen chunk) _)) by lia.
    cbn -[take]. rewrite take_take, Nat.min_id.
    destruct er; cbn -[take]; rewrite ?blen_app; pose proof (blen_nonneg (source_data reads));
      rewrite (proj2 (Z.ltb_lt _ _)) by lia; (split; [|done]); f_equal.
    rewrite take_app_le; [done|]. unfold blen in *. lia.
  - rewrite (proj2 (Z.ltb_ge (blen chunk) 0)), Z.ltb_irrefl by lia. cbn -[take].
    rewrite Z.eqb_refl. cbn -[take]. unfold is_u64 in Hm. apply Hcont; cbn.
    + constructor; cbn; [|rewrite u64_id; unfold is_u64; lia..|lia].
      rewrite blen_app, blen_take by lia. lia.
    + f_equal. apply take_ge. unfold blen in *. lia.
    + rewrite u64_id; unfold is_u64; lia.
    + rewrite u64_id; unfold is_u64; lia.
Qed.

(** A relay direction is transparent up to its limit: into a destination that
    takes everything, the copy delivers the source's bytes unchanged and ends with
    the source's own error when they fit; otherwise it delivers exactly the first
    [maximum] of them and ends with [ErrLimit]. *)
Theorem copyLimited_transparent source maximum counter :
  is_u64 maximum → 0 ≤ counter → counter + maximum < two64 →
  let data := source_data source in
  let '((n, e), w) := copyLimited sink source maximum counter in
  lw_sent w = take (Z.to_nat maximum) data
  ∧ e = (if maximum <? blen data then Some ErrLimit else source_error source).
Proof.
  intros Hm Hc Hsum. unfold copyLimited.
  pose proof (CopyBuffer_sink maximum counter source (mkLimitedWriter maximum counter 0 []) 0 Hm Hc Hsum)
    as H. cbn in H.
  destruct (CopyBuffer _ _ _ _) as [[n e] w]. apply H.
  constructor; cbn; try done; unfold is_u64 in Hm; lia.
Qed.

Definition source0 : list (bytes * option err) := [([x01; x02], None); ([x03], Some EOF)].

(** A destination that takes one byte per call and then fails. *)
Definition stubborn : destination := λ i v,
  match v with [] => (0, None) | [_] => (1, None) | _ => (1, Some ErrShortWrite) end.

Lemma copyLimited_within_limit_witness :
  let w := mkLimitedWriter 1 8 1 [x01] in
  lw_sent w `prefix_of` source_data source0 ∧ blen (lw_sent w) ≤ 2
  ∧ 1 = blen (lw_sent w) ∧ lw_counter w = 7 + blen (lw_sent w).
Proof.
  apply (copyLimited_within_limit stubborn source0 2 7 1 (Some ErrShortWrite)).
  - intros i [|x [|y v]]; unfold stubborn, blen; cbn; split; try lia; done.
  - vm_compute. split; [discriminate|reflexivity].
  - discriminate.
  - reflexivity.
  - vm_compute. reflexivity.
Defined.

Lemma copyLimited_transparent_witness :
  let '((n, e), w) := copyLimited sink source0 2 7 in
  lw_sent w = take (Z.to_nat 2) (source_data source0)
  ∧ e = (if 2 <? blen (source_data source0) then Some ErrLimit else source_error source0).
Proof.
  apply (copyLimited_transparent source0 2 7).
  - vm_compute. split; [discriminate|reflexivity].
  - discriminate.
  - reflexivity.
Defined.
End RelayCopy.
