(* ===== verification/PMTU.v ===== *)
(** * Relay PMTU probe frames

    Models [internal/relaypmtu/frame.go].  The slices of a frame are written as
    concatenations of its fields; HMAC-SHA256 is a parameter of which only the
    length of its tag is used. *)
From S2P Require Import Prelude Go.

Module PMTU.

Definition MinimumSize : Z := 1200.
Definition MaximumSize : Z := 1500.
Definition headerSize : Z := 26.
Definition tagSize : Z := 32.
Definition version : byte := byte_of_Z 1.
Definition kindRequest : byte := byte_of_Z 1.
Definition kindReply : byte := byte_of_Z 2.
Definition magic : bytes := sbytes "PBMT".

Definition ErrInvalid : err := EPlain "invalid relay PMTU frame".
Definition ErrAuth : err := EPlain "relay PMTU authentication failed".

(** [frame[i:j]]. *)
Definition slice (i j : Z) (frame : bytes) : bytes :=
  take (Z.to_nat (j - i)) (drop (Z.to_nat i) frame).

(** [frame[i]]; every use is guarded by a length check. *)
Definition at_ (i : Z) (frame : bytes) : byte := default x00 (frame !! Z.to_nat i).

(** [binary.BigEndian.Uint16(frame[i:i+2])]. *)
Definition uint16_at (i : Z) (frame : bytes) : Z := uint16_of (at_ i frame) (at_ (i + 1) frame).

Definition zeros (n : Z) : bytes := replicate (Z.to_nat n) x00.

(** [random] answers [rand.Read] for the 16 bytes of the nonce. *)
Definition BuildRequest (random : err + bytes) (token : string) (size : Z) : err + bytes :=
  if (token == "") || (MaximumSize - headerSize - tagSize <? len token) || (size <? MinimumSize)
     || (MaximumSize <? size) || (size <? headerSize + len token + tagSize)
  then inl ErrInvalid
  else match random with
  | inl e => inl e
  | inr nonce =>
      inr (magic ++ [version; kindRequest] ++ put_uint16 size ++ nonce
           ++ put_uint16 (len token) ++ sbytes token ++ zeros (size - headerSize - len token))
  end.

Definition IsRequest (frame : bytes) : bool :=
  (6 <=? blen frame) && (slice 0 4 frame == magic) && (at_ 4 frame == version)
  && (at_ 5 frame == kindRequest).

Definition valid (frame : bytes) (kind : byte) : bool :=
  (MinimumSize <=? blen frame) && (blen frame <=? MaximumSize) && (slice 0 4 frame == magic)
  && (at_ 4 frame == version) && (at_ 5 frame == kind) && (uint16_at 6 frame =? blen frame).

Section Frames.
Variable hmac : bytes → bytes → bytes.       (** key and message *)

(** The response up to its tag. *)
Definition response_body (frame : bytes) : bytes :=
  slice 0 5 frame ++ [kindReply] ++ slice 6 24 frame
  ++ zeros (blen frame - 24 - tagSize).

(** A [nil] [authenticate] is [None]. *)
Definition Handle (frame : bytes) (authenticate : option (string → bool)) : err + bytes :=
  match authenticate with
  | None => inl ErrInvalid
  | Some authenticate =>
  if negb (valid frame kindRequest) then inl ErrInvalid
  else
    let tokenLength := uint16_at 24 frame in
    if (tokenLength =? 0) || (blen frame <? headerSize + tokenLength) then inl ErrInvalid
    else
      let token := slice headerSize (headerSize + tokenLength) frame in
      if negb (authenticate (bstring token)) then inl ErrAuth
      else inr (response_body frame ++ hmac token (response_body frame))
  end.

Definition ParseResponse (response request : bytes) : option err :=
  if negb (valid request kindRequest) || negb (valid response kindReply)
     || negb (blen response =? blen request) || (slice 8 24 response != slice 8 24 request)
  then Some ErrInvalid
  else
    let tokenLength := uint16_at 24 request in
    if (tokenLength =? 0) || (blen request <? headerSize + tokenLength + tagSize) then Some ErrInvalid
    else
      let body := slice 0 (blen response - tagSize) response in
      let tag := slice (blen response - tagSize) (blen response) response in
      if tag != hmac (slice headerSize (headerSize + tokenLength) request) body then Some ErrAuth
      else None.

(** ** Slices of concatenations *)

Lemma slice_app_l i j a b : 0 ≤ i → i ≤ j → j ≤ blen a → slice i j (a ++ b) = slice i j a.
Proof.
  intros. unfold slice, blen in *. rewrite drop_app_le by lia. rewrite take_app_le; [done|].
  rewrite length_drop. lia.
Qed.

Lemma slice_app_r i j a b :
  blen a ≤ i → i ≤ j → slice i j (a ++ b) = slice (i - blen a) (j - blen a) b.
Proof.
  intros. unfold slice, blen in *. rewrite drop_app_ge by lia.
  replace (Z.to_nat i - length a)%nat with (Z.to_nat (i - Z.of_nat (length a))) by lia.
  by replace (j - Z.of_nat (length a) - (i - Z.of_nat (length a))) with (j - i) by lia.
Qed.

Lemma slice_all j a : j = blen a → slice 0 j a = a.
Proof. intros ->. unfold slice, blen. rewrite drop_0, take_ge; [done|]. lia. Qed.

Lemma at_app_l i a b : 0 ≤ i < blen a → at_ i (a ++ b) = at_ i a.
Proof. intros. unfold at_, blen in *. rewrite lookup_app_l by lia. done. Qed.

Lemma at_app_r i a b : blen a ≤ i → at_ i (a ++ b) = at_ (i - blen a) b.
Proof.
  intros. unfold at_, blen in *. rewrite lookup_app_r by lia.
  by replace (Z.to_nat i - length a)%nat with (Z.to_nat (i - Z.of_nat (length a))) by lia.
Qed.


Lemma blen_zeros n : 0 ≤ n → blen (zeros n) = n.
Proof. intros. unfold blen, zeros. rewrite length_replicate. lia. Qed.

Lemma blen_slice i j a : 0 ≤ i → i ≤ j → j ≤ blen a → blen (slice i j a) = j - i.
Proof. intros. unfold blen, slice in *. rewrite length_take, length_drop. lia. Qed.


Lemma at_slice k i j a : 0 ≤ i → 0 ≤ k < j - i → at_ k (slice i j a) = at_ (i + k) a.
Proof.
  intros. unfold at_, slice. rewrite lookup_take_lt by lia. rewrite lookup_drop.
  by replace (Z.to_nat i + Z.to_nat k)%nat with (Z.to_nat (i + k)) by lia.
Qed.

Lemma slice_slice i j k l a :
  0 ≤ i → 0 ≤ k → k ≤ l → l ≤ j - i → slice k l (slice i j a) = slice (i + k) (i + l) a.
Proof.
  intros. unfold slice. rewrite (take_drop_commute (take _ _)), take_take, Nat.min_l by lia.
  rewrite <- take_drop_commute, drop_drop.
  replace (Z.to_nat i + Z.to_nat k)%nat with (Z.to_nat (i + k)) by lia.
  by replace (i + l - (i + k)) with (l - k) by lia.
Qed.

(** ** Requests *)

(** The fields of a request. *)
Record request_of (token : string) (size : Z) (frame : bytes) : Prop := {
  rq_size : blen frame = size;
  rq_valid : valid frame kindRequest = true;
  rq_length : uint16_at 24 frame = len token;
  rq_token : slice headerSize (headerSize + len token) frame = sbytes token;
  rq_room : 0 < len token ∧ headerSize + len token + tagSize ≤ size
}.

(** A frame of a kind: header, nonce and the rest. *)
Definition frame_of (kind : byte) (size : Z) (nonce rest : bytes) : bytes :=
  magic ++ [version; kind] ++ put_uint16 size ++ nonce ++ rest.

Ltac explode nonce H :=
  do 16 (destruct nonce as [|? nonce]; [discriminate H|]);
  destruct nonce; [clear H|discriminate H].

Lemma frame_of_fields kind size nonce rest :
  length nonce = 16%nat → MinimumSize ≤ size ≤ MaximumSize → 24 + blen rest = size →
  blen (frame_of kind size nonce rest) = size
  ∧ valid (frame_of kind size nonce rest) kind = true
  ∧ slice 0 5 (frame_of kind size nonce rest) = magic ++ [version]
  ∧ slice 6 24 (frame_of kind size nonce rest) = put_uint16 size ++ nonce
  ∧ slice 8 24 (frame_of kind size nonce rest) = nonce
  ∧ ∀ i, 24 ≤ i → drop (Z.to_nat i) (frame_of kind size nonce rest) = drop (Z.to_nat (i - 24)) rest.
Proof.
  intros Hn Hs Hr. explode nonce Hn. unfold frame_of.
  assert (blen (magic ++ [version; kind] ++ put_uint16 size ++ [b; b0; b1; b2; b3; b4; b5; b6; b7; b8;
            b9; b10; b11; b12; b13; b14] ++ rest) = size) as Hl.
  { rewrite !blen_app. unfold blen in *. cbn. lia. }
  split_and!; try done.
  - unfold valid. rewrite Hl.
    match goal with |- context [uint16_at 6 ?f] =>
      change (uint16_at 6 f) with (uint16_of (byte_of_Z (size / 256)) (byte_of_Z size)) end.
    rewrite uint16_roundtrip by (unfold MinimumSize, MaximumSize in *; lia).
    rewrite Z.eqb_refl, !bool_decide_true by done.
    rewrite !(proj2 (Z.leb_le _ _)) by lia. done.
  - intros i Hi. rewrite !app_assoc, drop_app_ge by (cbn; lia). f_equal. cbn [length app]. cbn. lia.
Qed.

Lemma at_drop k i a : 0 ≤ k ≤ i → at_ i a = at_ (i - k) (drop (Z.to_nat k) a).
Proof.
  intros. unfold at_. rewrite lookup_drop.
  by replace (Z.to_nat k + Z.to_nat (i - k))%nat with (Z.to_nat i) by lia.
Qed.

Lemma put_uint16_at z a :
  uint16_of (at_ 0 (put_uint16 z ++ a)) (at_ 1 (put_uint16 z ++ a))
  = uint16_of (byte_of_Z (z / 256)) (byte_of_Z z).
Proof. done. Qed.

Lemma BuildRequest_fields nonce token size frame :
  length nonce = 16%nat → BuildRequest (inr nonce) token size = inr frame →
  frame = frame_of kindRequest size nonce
            (put_uint16 (len token) ++ sbytes token ++ zeros (size - headerSize - len token))
  ∧ MinimumSize ≤ size ≤ MaximumSize ∧ request_of token size frame.
Proof.
  intros Hn Hb. unfold BuildRequest in Hb. destruct (_ || _) eqn:Hg; [done|]. simplify_eq. bools.
  assert (0 < len token) as Hpos.
  { destruct token; [done|]. unfold len. cbn. lia. }
  split; [done|]. split; [done|]. set (rest := put_uint16 (len token) ++ _ ++ _).
  change (request_of token size (frame_of kindRequest size nonce rest)).
  destruct (frame_of_fields kindRequest size nonce rest) as (F1 & F2 & F3 & F4 & F5 & F6); [done|done| |].
  { unfold rest. rewrite !blen_app, blen_sbytes, blen_zeros by (unfold headerSize, tagSize in *; lia).
    unfold headerSize. change (blen (put_uint16 (len token))) with 2. lia. }
  constructor; try done.
  - unfold uint16_at. rewrite (at_drop 24 24), (at_drop 24 (24 + 1)), !F6 by lia.
    change (24 - 24) with 0. change (24 + 1 - 24) with 1. rewrite !drop_0. unfold rest.
    rewrite put_uint16_at.
    apply uint16_roundtrip.
    unfold MaximumSize, headerSize, tagSize in *. lia.
  - unfold slice. rewrite F6 by (unfold headerSize; lia).
    replace (headerSize + len token - headerSize) with (len token) by lia.
    unfold rest. change (Z.to_nat (headerSize - 24)) with 2%nat. cbn [drop app put_uint16].
    rewrite drop_0, take_app_le by (pose proof (blen_sbytes token); unfold blen in *; lia).
    apply take_ge. pose proof (blen_sbytes token). unfold blen in *. lia.
Qed.

(** ** Exchanges *)

(** The length of the tag is that of SHA-256. *)
Hypothesis hmac_length : ∀ key message, length (hmac key message) = 32%nat.

Lemma blen_tag key message : blen (hmac key message) = tagSize.
Proof. unfold blen. by rewrite hmac_length. Qed.

Lemma response_body_of size nonce rest :
  length nonce = 16%nat → MinimumSize ≤ size ≤ MaximumSize → 24 + blen rest = size →
  response_body (frame_of kindRequest size nonce rest)
  = frame_of kindReply size nonce (zeros (size - 24 - tagSize)).
Proof.
  intros Hn Hs Hr.
  destruct (frame_of_fields kindRequest size nonce rest Hn Hs Hr) as (F1 & _ & F3 & F4 & _ & _).
  unfold response_body. rewrite F1, F3, F4. unfold frame_of. by rewrite <- !app_assoc.
Qed.

(** Probes round-trip: for every nonce, token and size [BuildRequest] accepts,
    a server that accepts the token answers with a frame of exactly the probe's
    size, and the client accepts that answer. *)
Theorem probe_roundtrip nonce token size request authenticate :
  length nonce = 16%nat → BuildRequest (inr nonce) token size = inr request →
  authenticate token = true →
  IsRequest request = true
  ∧ ∃ response, Handle request (Some authenticate) = inr response
      ∧ blen response = size ∧ ParseResponse response request = None.
Proof.
  intros Hn Hb Ha. destruct (BuildRequest_fields _ _ _ _ Hn Hb) as (Hf & Hs & [R1 R2 R3 R4 [R5 R6]]).
  set (rest := put_uint16 (len token) ++ _) in Hf.
  assert (24 + blen rest = size) as Hr.
  { unfold rest. rewrite !blen_app, blen_sbytes, blen_zeros by (unfold headerSize, tagSize in *; lia).
    unfold headerSize. change (blen (put_uint16 (len token))) with 2. lia. }
  destruct (frame_of_fields kindRequest size nonce rest Hn Hs Hr) as (_ & _ & _ & _ & Q5 & _).
  set (tag := hmac (sbytes token) (frame_of kindReply size nonce (zeros (size - 24 - tagSize)))).
  set (tail := zeros (size - 24 - tagSize) ++ tag).
  assert (24 + blen tail = size) as Ht.
  { unfold tail, tag. rewrite blen_app, blen_tag, blen_zeros;
      unfold tagSize, MinimumSize, MaximumSize in *; lia. }
  assert (frame_of kindReply size nonce (zeros (size - 24 - tagSize)) ++ tag
          = frame_of kindReply size nonce tail) as Hresp.
  { unfold frame_of, tail. by rewrite <- !app_assoc. }
  destruct (frame_of_fields kindReply size nonce tail Hn Hs Ht) as (P1 & P2 & _ & _ & P5 & _).
  split.
  { unfold valid in R2. unfold IsRequest. bools. rewrite (proj2 (Z.leb_le _ _)).
    - by repeat (rewrite bool_decide_true by done).
    - unfold MinimumSize in *. lia. }
  exists (frame_of kindReply size nonce tail). split_and!; [|done|].
  - unfold Handle. rewrite R2, R3, R4, bstring_sbytes, Ha. cbn [negb].
    rewrite (proj2 (Z.eqb_neq _ _)), R1, (proj2 (Z.ltb_ge _ _)) by (unfold tagSize in *; lia).
    cbn [orb]. rewrite Hf, response_body_of by done. by rewrite <- Hresp.
  - unfold ParseResponse. rewrite R2, P2, P1, R1, P5, R3, R4, Hf, Q5, Z.eqb_refl, bool_decide_true by done.
    cbn [negb orb]. rewrite (proj2 (Z.eqb_neq _ _)), (proj2 (Z.ltb_ge _ _)) by lia. cbn [orb].
    rewrite <- Hresp.
    assert (blen (frame_of kindReply size nonce (zeros (size - 24 - tagSize))) = size - tagSize) as Hbl.
    { apply (f_equal blen) in Hresp. rewrite blen_app, P1 in Hresp. unfold tag in Hresp.
      rewrite blen_tag in Hresp. lia. }
    assert (0 < tagSize) by done. pose proof (blen_tag (sbytes token)
      (frame_of kindReply size nonce (zeros (size - 24 - tagSize)))) as Htag. fold tag in Htag.
    unfold MinimumSize in *. assert (tagSize = 32) by done.
    rewrite (slice_app_r (size - tagSize)), (slice_app_l 0), Hbl, Z.sub_diag, !slice_all by lia.
    by rewrite bool_decide_true.
Qed.

(** The responder neither amplifies nor answers strangers: an answer has
    exactly the length of the request, its token was accepted, and all of it
    beyond the header and the nonce is zero or the tag of what precedes it. *)
Theorem Handle_authenticated request authenticate response :
  Handle request (Some authenticate) = inr response →
  let token := slice headerSize (headerSize + uint16_at 24 request) request in
  blen response = blen request ∧ authenticate (bstring token) = true
  ∧ response = response_body request ++ hmac token (response_body request)
  ∧ valid request kindRequest = true.
Proof.
  intros Hh. unfold Handle in Hh. destruct (valid request kindRequest) eqn:Hv; [|done].
  cbn in Hh. destruct (_ || _); [done|]. destruct (authenticate _) eqn:Ha; [|done].
  cbn in Hh. simplify_eq. split_and!; try done.
  unfold valid in Hv. bools. unfold response_body.
  rewrite !blen_app, blen_tag, !blen_slice, blen_zeros; unfold MinimumSize, tagSize in *; try lia.
  change (blen [kindReply]) with 1. lia.
Qed.

(** A response the client accepts is authentic: it is as long as the probe,
    carries its nonce, and ends in the tag of its own content under the probe's
    token. *)
Theorem ParseResponse_authentic response request :
  ParseResponse response request = None →
  let token := slice headerSize (headerSize + uint16_at 24 request) request in
  let n := blen response - tagSize in
  blen response = blen request ∧ slice 8 24 response = slice 8 24 request
  ∧ slice n (blen response) response = hmac token (slice 0 n response)
  ∧ 0 < uint16_at 24 request.
Proof.
  intros Hp. unfold ParseResponse in Hp. destruct (_ || _) eqn:E1; [done|].
  destruct (_ || _) eqn:E2 in Hp; [done|]. destruct (_ != _) eqn:E3 in Hp; [done|]. bools.
  split_and!; try done. unfold uint16_at, uint16_of in *.
  pose proof (byte_to_Z_range (at_ 24 request)). pose proof (byte_to_Z_range (at_ (24 + 1) request)). lia.
Qed.
End Frames.

(** ** Concrete frames *)

Definition flat_hmac (key message : bytes) : bytes := replicate 32 x07.
Definition nonce0 : bytes := replicate 16 x09.
Definition request0 : bytes :=
  match BuildRequest (inr nonce0) "token" 1200 with inr f => f | inl _ => [] end.
Definition only_token : string → bool := λ t, t == "token".

Lemma flat_hmac_length key message : length (flat_hmac key message) = 32%nat.
Proof. reflexivity. Qed.

Lemma probe_roundtrip_witness :
  IsRequest request0 = true
  ∧ ∃ response, Handle flat_hmac request0 (Some only_token) = inr response
      ∧ blen response = 1200 ∧ ParseResponse flat_hmac response request0 = None.
Proof.
  apply (probe_roundtrip flat_hmac flat_hmac_length nonce0 "token" 1200);
    vm_compute; reflexivity.
Defined.

Definition response0 : bytes :=
  match Handle flat_hmac request0 (Some only_token) with inr f => f | inl _ => [] end.

Lemma Handle_authenticated_witness :
  let token := slice headerSize (headerSize + uint16_at 24 request0) request0 in
  blen response0 = blen request0 ∧ only_token (bstring token) = true
  ∧ response0 = response_body request0 ++ flat_hmac token (response_body request0)
  ∧ valid request0 kindRequest = true.
Proof.
  apply (Handle_authenticated flat_hmac flat_hmac_length request0 only_token response0).
  vm_compute. reflexivity.
Defined.

Lemma ParseResponse_authentic_witness :
  let token := slice headerSize (headerSize + uint16_at 24 request0) request0 in
  let n := blen response0 - tagSize in
  blen response0 = blen request0 ∧ slice 8 24 response0 = slice 8 24 request0
  ∧ slice n (blen response0) response0 = flat_hmac token (slice 0 n response0)
  ∧ 0 < uint16_at 24 request0.
Proof. apply (ParseResponse_authentic flat_hmac response0 request0). vm_compute. reflexivity. Defined.
End PMTU.
