(* ===== verification/Usage.v ===== *)
(** * Usage counters, report queue and meter

    Models [internal/usage/counter.go], [meter.go] and the document checks of
    [sign.go].  Loops over a Go map take the order of iteration as a list of the
    map's entries.  JSON and Ed25519 enter through the functions that encode and
    sign a document and that name an operation. *)
From S2P Require Import Prelude Go.

Module Usage.

Record Key := mkKey {
  k_Node : string;
  k_Epoch : string;
  k_Environment : string;
  k_Route : string;
  k_Direction : string;
  k_Revision : Z
}.
#[export] Instance Key_eta : Eta Key := λ k,
  mkKey (k_Node k) (k_Epoch k) (k_Environment k) (k_Route k) (k_Direction k) (k_Revision k).
#[export] Instance Key_eq_dec : EqDecision Key.
Proof. solve_decision. Defined.
#[export] Instance Key_countable : Countable Key.
Proof.
  refine (inj_countable
    (λ k, [encode (k_Node k); encode (k_Epoch k); encode (k_Environment k); encode (k_Route k);
           encode (k_Direction k); encode (k_Revision k)])
    (λ l, match l with
          | [n; e; v; r; d; x] =>
              n ← decode n; e ← decode e; v ← decode v; r ← decode r; d ← decode d; x ← decode x;
              Some (mkKey n e v r d x)
          | _ => None
          end) _).
  abstract (intros []; cbn; by rewrite !decode_encode).
Defined.

Definition counterIdentity (k : Key) : Key := k <| k_Revision := 0 |>.
#[global] Arguments counterIdentity : simpl never.

Record CounterRecord := mkCounterRecord { cr_Key : Key; cr_Bytes : Z }.
#[export] Instance CounterRecord_eta : Eta CounterRecord := λ r,
  mkCounterRecord (cr_Key r) (cr_Bytes r).

Definition zeroKey : Key := mkKey "" "" "" "" "" 0.
Definition zeroRecord : CounterRecord := mkCounterRecord zeroKey 0.
Definition maxUint64 : Z := two64 - 1.

Record Counters := mkCounters {
  c_values : gmap Key CounterRecord;
  c_restoredBaseline : gmap Key Z
}.
#[export] Instance Counters_eta : Eta Counters := λ c,
  mkCounters (c_values c) (c_restoredBaseline c).

Definition NewCounters : Counters := mkCounters ∅ ∅.

(** [update]: the new total and the increase. *)
Definition update_ (k : Key) (bytes : Z) (add : bool) (c : Counters) : (Z * Z) * Counters :=
  let identity := counterIdentity k in
  let record := default zeroRecord (c_values c !! identity) in
  let previous := cr_Bytes record in
  let record := if k_Revision (cr_Key record) <=? k_Revision k then record <| cr_Key := k |> else record in
  let record :=
    if add
    then if u64 (maxUint64 - cr_Bytes record) <? bytes then record <| cr_Bytes := maxUint64 |>
         else record <| cr_Bytes := u64 (cr_Bytes record + bytes) |>
    else if cr_Bytes record <? bytes then record <| cr_Bytes := bytes |> else record in
  ((cr_Bytes record, u64 (cr_Bytes record - previous)),
   c <| c_values := <[identity := record]> (c_values c) |>).

Definition Add (k : Key) (bytes : Z) (c : Counters) : Z * Counters :=
  let '((total, _), c) := update_ k bytes true c in (total, c).
Definition Observe (k : Key) (absolute : Z) (c : Counters) : Z * Counters :=
  let '((total, _), c) := update_ k absolute false c in (total, c).
Definition Reconcile (k : Key) (absolute : Z) (c : Counters) : Z * Counters :=
  let '((_, delta), c) := update_ k absolute false c in (delta, c).
Definition Get (k : Key) (c : Counters) : Z :=
  cr_Bytes (default zeroRecord (c_values c !! counterIdentity k)).

(** [Counters.Snapshot], in some order of iteration. *)
Definition Counters_Snapshot (c : Counters) : list CounterRecord := (map_to_list (c_values c)).*2.

(** The guard of [RestoreCounters] and of [validateDocument] on keys. *)
Definition badKey (k : Key) : bool :=
  (k_Node k == "") || (k_Epoch k == "") || (k_Environment k == "") || (k_Route k == "")
  || (k_Direction k != "ingress") && (k_Direction k != "egress").

(** The first loop of [RestoreCounters]. *)
Definition partition_step (partitions : gmap Key Z) (record : CounterRecord) : gmap Key Z :=
  if badKey (cr_Key record) then partitions
  else if default 0 (partitions !! cr_Key record) <? cr_Bytes record
  then <[cr_Key record := cr_Bytes record]> partitions else partitions.

(** The body of its second loop. *)
Definition restore_step (c : Counters) (kv : Key * Z) : Counters :=
  let '(key, bytes) := kv in
  let '(_, c) := Add key bytes c in
  let identity := counterIdentity key in
  if default 0 (c_restoredBaseline c !! identity) <? bytes
  then c <| c_restoredBaseline := <[identity := bytes]> (c_restoredBaseline c) |> else c.

Definition RestoreCounters (records : list CounterRecord) : Counters :=
  let partitions := foldl partition_step ∅ records in
  foldl restore_step NewCounters (map_to_list partitions).

Definition baseline (record : CounterRecord) (c : Counters) : Z :=
  match c_restoredBaseline c !! counterIdentity (cr_Key record) with
  | Some value => value
  | None => cr_Bytes record
  end.

(** ** Report queue *)

Definition ErrQueueFull : err := EPlain "usage report queue is full".

Record Report := mkReport {
  rp_OperationID : string;
  rp_Key : Key;
  rp_Bytes : Z;
  rp_Interval : Time * Time;
  rp_Payload : bytes
}.

Record Queue := mkQueue {
  q_maxReports : Z;
  q_maxBytes : Z;
  q_bytes : Z;
  q_pending : gmap string Report;
  q_order : list string
}.
#[export] Instance Queue_eta : Eta Queue := λ q,
  mkQueue (q_maxReports q) (q_maxBytes q) (q_bytes q) (q_pending q) (q_order q).

Definition NewQueue (maxReports maxBytes : Z) : err + Queue :=
  if (maxReports <? 1) || (maxBytes <? 1) then inl ErrQueueFull
  else inr (mkQueue maxReports maxBytes 0 ∅ []).

Definition badReport (report : Report) (q : Queue) : bool :=
  (rp_OperationID report == "") || (blen (rp_Payload report) =? 0)
  || (q_maxBytes q <? blen (rp_Payload report)).

Definition append_report (report : Report) (q : Queue) : Queue :=
  q <| q_pending := <[rp_OperationID report := report]> (q_pending q) |>
    <| q_order := q_order q ++ [rp_OperationID report] |>
    <| q_bytes := q_bytes q + blen (rp_Payload report) |>.

Definition full (report : Report) (q : Queue) : bool :=
  (q_maxReports q <=? Z.of_nat (size (q_pending q)))
  || (q_maxBytes q - blen (rp_Payload report) <? q_bytes q).

Definition Enqueue (report : Report) (q : Queue) : option err * Queue :=
  if badReport report q then (Some ErrQueueFull, q)
  else match q_pending q !! rp_OperationID report with
  | Some existing =>
      if (rp_Key existing == rp_Key report) && (rp_Bytes existing =? rp_Bytes report)
         && (rp_Payload existing == rp_Payload report)
      then (None, q) else (Some ErrQueueFull, q)
  | None => if full report q then (Some ErrQueueFull, q) else (None, append_report report q)
  end.

(** The loop that renames the first occurrence in the order. *)
Fixpoint rename_first (id id' : string) (order : list string) : list string :=
  match order with
  | [] => []
  | x :: order => if x == id then id' :: order else x :: rename_first id id' order
  end.

(** The loop of [EnqueueLatest] over the pending reports, in the order [iter]. *)
Fixpoint replace_latest (report : Report) (iter : list (string * Report)) (q : Queue)
    : option (option err * Queue) :=
  match iter with
  | [] => None
  | (id, current) :: iter =>
      if counterIdentity (rp_Key current) != counterIdentity (rp_Key report)
      then replace_latest report iter q
      else if rp_Bytes report <=? rp_Bytes current then Some (None, q)
      else
        let baseBytes := q_bytes q - blen (rp_Payload current) in
        if (baseBytes <? 0) || (q_maxBytes q - blen (rp_Payload report) <? baseBytes)
        then Some (Some ErrQueueFull, q)
        else Some (None, q <| q_pending := <[rp_OperationID report := report]> (delete id (q_pending q)) |>
                           <| q_bytes := baseBytes + blen (rp_Payload report) |>
                           <| q_order := rename_first id (rp_OperationID report) (q_order q) |>)
  end.

Definition EnqueueLatest (iter : list (string * Report)) (report : Report) (q : Queue)
    : option err * Queue :=
  if badReport report q then (Some ErrQueueFull, q)
  else match replace_latest report iter q with
  | Some r => r
  | None => if full report q then (Some ErrQueueFull, q) else (None, append_report report q)
  end.

(** The first report of the order that is pending. *)
Fixpoint first_pending (order : list string) (pending : gmap string Report) : option Report :=
  match order with
  | [] => None
  | id :: order => match pending !! id with
                   | Some report => Some report
                   | None => first_pending order pending
                   end
  end.

Definition Next (q : Queue) : option Report := first_pending (q_order q) (q_pending q).

Definition Ack (operationID : string) (q : Queue) : bool * Queue :=
  match q_pending q !! operationID with
  | None => (false, q)
  | Some report => (true, q <| q_pending := delete operationID (q_pending q) |>
                            <| q_bytes := q_bytes q - blen (rp_Payload report) |>)
  end.

Definition Len (q : Queue) : Z := Z.of_nat (size (q_pending q)).

Record QueueStats := mkQueueStats {
  qs_Reports : Z;
  qs_Bytes : Z;
  qs_MaxReports : Z;
  qs_MaxBytes : Z;
  qs_OldestAt : Time
}.

Definition oldest_step (pending : gmap string Report) (oldest : Time) (id : string) : Time :=
  match pending !! id with
  | None => oldest
  | Some report =>
      let at0 := (rp_Interval report).1 in
      let at_ := if IsZero at0 then (rp_Interval report).2 else at0 in
      if IsZero oldest || negb (IsZero at_) && Before at_ oldest then at_ else oldest
  end.

Definition Queue_Stats (q : Queue) : QueueStats :=
  mkQueueStats (Len q) (q_bytes q) (q_maxReports q) (q_maxBytes q)
    (foldl (oldest_step (q_pending q)) 0 (q_order q)).

Definition HasKey (key : Key) (q : Queue) : bool :=
  existsb (λ kv : string * Report, counterIdentity (rp_Key kv.2) == counterIdentity key)
    (map_to_list (q_pending q)).

(** [QueueState] is the list of its reports. *)
Definition Queue_Snapshot (q : Queue) : list Report :=
  omap (λ id, q_pending q !! id) (q_order q).

Fixpoint enqueue_all (reports : list Report) (q : Queue) : err + Queue :=
  match reports with
  | [] => inr q
  | report :: reports =>
      match Enqueue report q with
      | (Some e, _) => inl e
      | (None, q) => enqueue_all reports q
      end
  end.

Definition RestoreQueue (reports : list Report) (maxReports maxBytes : Z) : err + Queue :=
  match NewQueue maxReports maxBytes with
  | inl e => inl e
  | inr q => enqueue_all reports q
  end.

(** ** Meter *)

Definition ErrMeterInvalid : err := EPlain "usage meter is invalid".
Definition ErrSignature : err := EPlain "usage report signature is invalid".

Record SignedDocument := mkSignedDocument {
  sd_OperationID : string;
  sd_Key : Key;
  sd_Bytes : Z;
  sd_Start : Time;
  sd_End : Time
}.

Definition validateDocument (d : SignedDocument) : option err :=
  if (sd_OperationID d == "") || (k_Node (sd_Key d) == "") || (k_Epoch (sd_Key d) == "")
     || (k_Environment (sd_Key d) == "") || (k_Route (sd_Key d) == "") || (k_Revision (sd_Key d) =? 0)
     || (k_Direction (sd_Key d) != "ingress") && (k_Direction (sd_Key d) != "egress")
     || IsZero (sd_Start d) || Before (sd_End d) (sd_Start d)
  then Some ErrSignature else None.

Section Meter.
Variable envelope : string → SignedDocument → err + bytes.   (** encode and sign *)
Variable meterOperationID : Key → Z → string.

(** [keySize] tells whether the private key has the size Ed25519 requires. *)
Definition NewSignedReport (keyID : string) (keySize : bool) (document : SignedDocument)
    : err + Report :=
  if (keyID == "") || (128 <? len keyID) || negb keySize then inl ErrSignature
  else match validateDocument document with
  | Some _ => inl ErrSignature
  | None =>
      match envelope keyID document with
      | inl e => inl e
      | inr payload => inr (mkReport (sd_OperationID document) (sd_Key document) (sd_Bytes document)
                              (sd_Start document, sd_End document) payload)
      end
  end.

Record Meter := mkMeter {
  m_Node : string;
  m_Epoch : string;
  m_Counters : Counters;
  m_Queue : Queue;
  m_KeyID : string;
  m_keySize : bool;
  m_start : gmap Key Time;
  m_last : gmap Key Z
}.
#[export] Instance Meter_eta : Eta Meter := λ m,
  mkMeter (m_Node m) (m_Epoch m) (m_Counters m) (m_Queue m) (m_KeyID m) (m_keySize m) (m_start m)
    (m_last m).

Definition addIf (direction : string) (environment route : string) (revision bytes : Z) (m : Meter)
    : Meter :=
  if bytes =? 0 then m
  else m <| m_Counters := (Add (mkKey (m_Node m) (m_Epoch m) environment route direction revision)
                             bytes (m_Counters m)).2 |>.

Definition Record_ (environment route : string) (revision ingress egress : Z) (m : Meter)
    : option err * Meter :=
  if (m_Node m == "") || (m_Epoch m == "") || (environment == "") || (route == "") || (revision =? 0)
     || (m_KeyID m == "") || negb (m_keySize m)
  then (Some ErrMeterInvalid, m)
  else (None, addIf "egress" environment route revision egress
                (addIf "ingress" environment route revision ingress m)).

(** One record of [Flush]. *)
Definition flush_record (now : Time) (iter : Queue → list (string * Report)) (record : CounterRecord)
    (m : Meter) : option err * Meter :=
  let identity := counterIdentity (cr_Key record) in
  if (cr_Bytes record =? 0) || (cr_Bytes record <=? default 0 (m_last m !! identity)) then (None, m)
  else
    let start0 := default 0 (m_start m !! identity) in
    let start := if IsZero start0 then now else start0 in
    match NewSignedReport (m_KeyID m) (m_keySize m)
            (mkSignedDocument (meterOperationID (cr_Key record) (cr_Bytes record)) (cr_Key record)
               (cr_Bytes record) start now) with
    | inl e => (Some e, m)
    | inr report =>
        match EnqueueLatest (iter (m_Queue m)) report (m_Queue m) with
        | (Some e, _) => (Some e, m)
        | (None, q) => (None, m <| m_Queue := q |>
                                <| m_last := <[identity := cr_Bytes record]> (m_last m) |>
                                <| m_start := <[identity := now]> (m_start m) |>)
        end
    end.

Fixpoint flush_records (now : Time) (iter : Queue → list (string * Report))
    (records : list CounterRecord) (m : Meter) : option err * Meter :=
  match records with
  | [] => (None, m)
  | record :: records =>
      match flush_record now iter record m with
      | (Some e, m) => (Some e, m)
      | (None, m) => flush_records now iter records m
      end
  end.

(** [Flush]; [persist] answers [Persist]. *)
Definition Flush (now : Time) (iter : Queue → list (string * Report)) (persist : option err)
    (m : Meter) : option err * Meter :=
  match flush_records now iter (Counters_Snapshot (m_Counters m)) m with
  | (Some e, m) => (Some e, m)
  | (None, m) => (persist, m)
  end.

Definition baseline_step (c : Counters) (acc : gmap Key Z * bool) (record : CounterRecord)
    : gmap Key Z * bool :=
  let b := baseline record c in
  (<[counterIdentity (cr_Key record) := b]> acc.1, acc.2 || (b <? cr_Bytes record)).

Definition RestoreBaseline (now : Time) (iter : Queue → list (string * Report)) (persist : option err)
    (m : Meter) : option err * Meter :=
  let '(last, correction) := foldl (baseline_step (m_Counters m)) (m_last m, false)
                               (Counters_Snapshot (m_Counters m)) in
  let m := m <| m_last := last |> in
  if correction then Flush now iter persist m else (None, m).
End Meter.
End Usage.
