(* ===== verification/UsageCounters.v ===== *)
(** * Usage counters: theorems

    Totals are exact up to saturation at the largest uint64, absolute
    observations never decrease them, and restoring a snapshot keeps them. *)
From S2P Require Import Prelude Go Usage.

Module UsageCounters.
Import Usage.

(** A counter is stored under the identity of the key it reports. *)
Definition counters_ok (c : Counters) : Prop :=
  ∀ i r, c_values c !! i = Some r → counterIdentity (cr_Key r) = i ∧ is_u64 (cr_Bytes r)
    ∧ is_u64 (k_Revision (cr_Key r)).

Lemma counterIdentity_idem k : counterIdentity (counterIdentity k) = counterIdentity k.
Proof. done. Qed.

Lemma Get_u64 k c : counters_ok c → is_u64 (Get k c).
Proof.
  intros Hc. unfold Get. destruct (c_values c !! _) as [r|] eqn:E; cbn.
  - by apply (Hc _ _ E).
  - done.
Qed.

(** The total [update] leaves for its key. *)
Definition updated (add : bool) (old bytes : Z) : Z :=
  if add then Z.min maxUint64 (old + bytes) else Z.max old bytes.

Lemma update_spec k bytes add c r c' :
  counters_ok c → is_u64 (k_Revision k) → is_u64 bytes → update_ k bytes add c = (r, c') →
  counters_ok c' ∧ r = (updated add (Get k c) bytes, updated add (Get k c) bytes - Get k c)
  ∧ (∀ k', Get k' c' = if counterIdentity k' == counterIdentity k
                       then updated add (Get k c) bytes else Get k' c)
  ∧ c_restoredBaseline c' = c_restoredBaseline c.
Proof.
  intros Hc Hk Hb Hu. pose proof (Get_u64 k c Hc) as Hg. unfold update_ in Hu.
  set (record := default zeroRecord (c_values c !! counterIdentity k)) in Hu.
  change (cr_Bytes record) with (Get k c) in Hu.
  set (rec1 := if _ <=? _ then _ else _) in Hu.
  assert (cr_Bytes rec1 = Get k c) as E1 by (unfold rec1; by destruct (_ <=? _)).
  assert (counterIdentity (cr_Key rec1) = counterIdentity k ∧ is_u64 (k_Revision (cr_Key rec1))) as [E2 E5].
  { unfold rec1. destruct (_ <=? _) eqn:E; [done|]. unfold record in *.
    destruct (c_values c !! counterIdentity k) as [q|] eqn:Hq; cbn in *.
    - by destruct (Hc _ _ Hq) as (? & _ & ?).
    - bools. unfold is_u64 in Hk. lia. }
  rewrite E1 in Hu. unfold is_u64, maxUint64, updated in *.
  rewrite (u64_id (two64 - 1 - Get k c)) in Hu by (unfold is_u64; lia).
  match type of Hu with (_, ?cc <| c_values := <[_ := ?x]> _ |>) = _ =>
    assert (counterIdentity (cr_Key x) = counterIdentity k ∧ is_u64 (k_Revision (cr_Key x))
            ∧ cr_Bytes x = if add then Z.min (two64 - 1) (Get k c + bytes) else Z.max (Get k c) bytes)
      as (E3 & E6 & E4); [|set (rec2 := x) in *; clearbody rec2] end.
  { destruct add.
    - destruct (_ <? _) eqn:E in |- *; bools.
      + split_and!; [exact E2|exact E5|cbn; lia].
      + rewrite u64_id by (unfold is_u64; lia). split_and!; [exact E2|exact E5|cbn; lia].
    - destruct (_ <? _) eqn:E in |- *; bools; (split_and!; [exact E2|exact E5|cbn; lia]). }
  injection Hu as <- <-. rewrite E4. split_and!; cbn; try done.
  - intros i q. cbn. intros [[<- <-]|[? ?]]%lookup_insert_Some; [|by eapply Hc].
    split_and!; [done| |done]. rewrite E4. unfold is_u64. destruct add; lia.
  - rewrite u64_id; [done|]. unfold is_u64. destruct add; lia.
  - intros k'. unfold Get at 1. cbn. case_bool_decide as Ek.
    + by rewrite Ek, lookup_insert_eq.
    + by rewrite lookup_insert_ne.
Qed.

(** ** Sequences of additions *)

Definition add_all (l : list (Key * Z)) (c : Counters) : Counters :=
  foldl (λ c kv, (Add kv.1 kv.2 c).2) c l.

(** The bytes of a sequence of additions that belong to one counter. *)
Fixpoint total (k : Key) (l : list (Key * Z)) : Z :=
  match l with
  | [] => 0
  | (k', b) :: l => (if counterIdentity k == counterIdentity k' then b else 0) + total k l
  end.

Definition additions_ok (l : list (Key * Z)) : Prop :=
  Forall (λ kv, is_u64 (k_Revision kv.1) ∧ is_u64 kv.2) l.

Lemma total_nonneg k l : additions_ok l → 0 ≤ total k l.
Proof.
  induction 1 as [|[k' b] l [_ H] _ IH]; cbn in *; [done|]. unfold is_u64 in H. case_bool_decide; lia.
Qed.

Lemma add_all_spec l c :
  counters_ok c → additions_ok l →
  counters_ok (add_all l c) ∧ ∀ k, Get k (add_all l c) = Z.min maxUint64 (Get k c + total k l).
Proof.
  intros Hc Hl. revert c Hc. induction Hl as [|[k b] l [Hk Hb] Hl IH]; intros c Hc.
  - cbn. split; [done|]. intros k. pose proof (Get_u64 k c Hc). unfold is_u64, maxUint64 in *. lia.
  - change (add_all ((k, b) :: l) c) with (add_all l (Add k b c).2).
    destruct (update_ k b true c) as [[t d] c'] eqn:Hu.
    assert (Add k b c = (t, c')) as -> by (unfold Add; by rewrite Hu). cbn in *.
    destruct (update_spec _ _ _ _ _ _ Hc Hk Hb Hu) as (Hc' & _ & Hg & _).
    destruct (IH c' Hc') as [IH1 IH2]. split; [done|]. intros k'. rewrite IH2, Hg.
    pose proof (total_nonneg k' l Hl). pose proof (Get_u64 k c Hc). unfold is_u64, maxUint64 in *.
    case_bool_decide as E; cbn; [|lia].
    assert (Get k' c = Get k c) as -> by (unfold Get; by rewrite E). unfold maxUint64. lia.
Qed.

(** Usage counters are exact: after any sequence of additions, over any mix of
    route revisions, a counter holds the sum of the bytes added to it, saturated at
    the largest uint64; bytes of other counters never enter it. *)
Theorem counters_account l k :
  additions_ok l → Get k (add_all l NewCounters) = Z.min maxUint64 (total k l).
Proof.
  intros Hl. destruct (add_all_spec l NewCounters) as [_ H]; [done|done|]. by rewrite H.
Qed.

(** Reconciliation reports exactly what it changed: an absolute observation
    never lowers a counter, raises it to the observation, and returns the
    difference. *)
Theorem reconcile_delta k absolute c delta c' :
  counters_ok c → is_u64 (k_Revision k) → is_u64 absolute → Reconcile k absolute c = (delta, c') →
  Get k c' = Z.max (Get k c) absolute ∧ delta = Get k c' - Get k c
  ∧ ∀ k', counterIdentity k' ≠ counterIdentity k → Get k' c' = Get k' c.
Proof.
  intros Hc Hk Ha Hr. unfold Reconcile in Hr.
  destruct (update_ k absolute false c) as [[t d] c1] eqn:Hu. simplify_eq.
  destruct (update_spec _ _ _ _ _ _ Hc Hk Ha Hu) as (_ & E & Hg & _). cbn in E. simplify_eq.
  rewrite Hg, bool_decide_true by done. split_and!; try done.
  intros k' Hne. by rewrite Hg, bool_decide_false.
Qed.

(** ** Restoring *)

Lemma restore_step_values c kv : c_values (restore_step c kv) = c_values (Add kv.1 kv.2 c).2.
Proof.
  destruct kv as [k b]. unfold restore_step, Add. cbn [fst snd].
  destruct (update_ k b true c) as [[t d] c'].
  by destruct (default 0 (c_restoredBaseline c' !! counterIdentity k) <? b).
Qed.

Lemma update_values k b add c1 c2 :
  c_values c1 = c_values c2 →
  c_values (update_ k b add c1).2 = c_values (update_ k b add c2).2.
Proof. intros E. unfold update_. cbn. by rewrite E. Qed.

Lemma restore_values l c1 c2 :
  c_values c1 = c_values c2 → c_values (foldl restore_step c1 l) = c_values (add_all l c2).
Proof.
  revert c1 c2. induction l as [|kv l IH]; intros c1 c2 E; [done|].
  change (c_values (foldl restore_step (restore_step c1 kv) l)
          = c_values (add_all l (Add kv.1 kv.2 c2).2)). apply IH.
  rewrite restore_step_values. unfold Add.
  pose proof (update_values kv.1 kv.2 true c1 c2 E) as H.
  destruct (update_ kv.1 kv.2 true c1) as [[? ?] ?], (update_ kv.1 kv.2 true c2) as [[? ?] ?].
  exact H.
Qed.

Lemma total_unique k k0 b0 l :
  NoDup l.*1 → (k0, b0) ∈ l → counterIdentity k0 = counterIdentity k →
  (∀ k' b', (k', b') ∈ l → counterIdentity k' = counterIdentity k → k' = k0) → total k l = b0.
Proof.
  intros Hnd Hin Hid Hu.
  assert (∀ l', k0 ∉ l'.*1 → (∀ k' b', (k', b') ∈ l' → (k', b') ∈ l) → total k l' = 0) as Hz.
  { induction l' as [|[k' b'] l' IH]; intros Hni Hsub; cbn; [done|].
    rewrite IH; [|set_solver|set_solver]. rewrite bool_decide_false; [done|].
    intros E. apply Hni. cbn. rewrite (Hu k' b'); [left|apply Hsub; left|by rewrite E]. }
  assert (∀ l', NoDup l'.*1 → (k0, b0) ∈ l' → (∀ k' b', (k', b') ∈ l' → (k', b') ∈ l) → total k l' = b0)
    as H; [|by apply H].
  induction l' as [|[k' b'] l' IH]; intros Hnd' Hin' Hsub; [set_solver|]. cbn in *.
  apply NoDup_cons in Hnd' as [Hni Hnd'].
  apply elem_of_cons in Hin' as [E|Hin'].
  - injection E as <- <-. rewrite bool_decide_true by done. rewrite Hz; [lia|done|set_solver].
  - rewrite bool_decide_false; [rewrite IH; [lia|done..|set_solver]|].
    intros E. apply Hni. rewrite (Hu k' b'); [|apply Hsub; left|by rewrite E].
    apply list_elem_of_fmap. by exists (k0, b0).
Qed.

Lemma total_none k l :
  (∀ k' b', (k', b') ∈ l → counterIdentity k' ≠ counterIdentity k) → total k l = 0.
Proof.
  induction l as [|[k' b'] l IH]; intros H; cbn; [done|].
  rewrite bool_decide_false, IH; [done| |].
  - intros k0 b0 Hin. apply (H k0 b0). by right.
  - intros E. by apply (H k' b'); [left|].
Qed.

Lemma partitions_spec (l : list CounterRecord) p k b :
  NoDup (cr_Key <$> l) → (∀ r, r ∈ l → p !! cr_Key r = None) →
  foldl partition_step p l !! k = Some b ↔
  (∃ r, r ∈ l ∧ cr_Key r = k ∧ badKey k = false ∧ cr_Bytes r = b ∧ 0 < b) ∨ p !! k = Some b.
Proof.
  revert p. induction l as [|r l IH]; intros p Hnd Hp; cbn.
  - split; [by right|]. intros [(q & Hq & _)|?]; [set_solver|done].
  - rewrite fmap_cons in Hnd. apply NoDup_cons in Hnd as [Hni Hnd].
    pose proof (Hp r (list_elem_of_here _ _)) as Hr0.
    rewrite IH; [|done|].
    + unfold partition_step. rewrite Hr0. cbn. destruct (badKey (cr_Key r)) eqn:Hbad.
      { split; [set_solver|]. intros [(q & Hq & <- & ? & ?)|?]; [|by right]. left. exists q.
        apply elem_of_cons in Hq as [->|?]; [congruence|done]. }
      destruct (0 <? cr_Bytes r) eqn:Hpos; bools.
      * split.
        -- intros [(q & ? & ?)|[[<- <-]|[? ?]]%lookup_insert_Some]; [left; set_solver| |by right].
           left. exists r. split; [left|]. done.
        -- intros [(q & [->|Hq]%elem_of_cons & <- & ? & <- & ?)|Hk].
           ++ right. apply lookup_insert_eq.
           ++ left. by exists q.
           ++ right. rewrite lookup_insert_ne; [done|]. congruence.
      * split; [set_solver|]. intros [(q & [->|Hq]%elem_of_cons & <- & ? & <- & ?)|Hk]; [lia| |by right].
        left. by exists q.
    + intros q Hq. unfold partition_step. rewrite Hr0. cbn.
      destruct (badKey (cr_Key r)); [apply Hp; by right|].
      destruct (0 <? cr_Bytes r); [|apply Hp; by right].
      rewrite lookup_insert_ne; [apply Hp; by right|]. intros E. apply Hni. rewrite E.
      by apply list_elem_of_fmap_2.
Qed.

Lemma badKey_identity k k' : counterIdentity k = counterIdentity k' → badKey k = badKey k'.
Proof. intros E. unfold counterIdentity in E. destruct k, k'. cbn in E. by simplify_eq. Qed.

Lemma snapshot_elem c r :
  counters_ok c → r ∈ Counters_Snapshot c ↔ c_values c !! counterIdentity (cr_Key r) = Some r.
Proof.
  intros Hc. unfold Counters_Snapshot. rewrite list_elem_of_fmap. split.
  - intros ([i q] & -> & Hq%elem_of_map_to_list). cbn. by destruct (Hc _ _ Hq) as [-> _].
  - intros H. exists (counterIdentity (cr_Key r), r). by rewrite elem_of_map_to_list.
Qed.

Lemma snapshot_NoDup c : counters_ok c → NoDup (cr_Key <$> Counters_Snapshot c).
Proof.
  intros Hc. apply (NoDup_fmap_1 counterIdentity). rewrite <- list_fmap_compose.
  unfold Counters_Snapshot. rewrite <- list_fmap_compose.
  erewrite list_fmap_ext; [apply NoDup_fst_map_to_list|].
  intros i [j q] Hq. cbn. apply list_elem_of_lookup_2, elem_of_map_to_list in Hq.
  by destruct (Hc _ _ Hq).
Qed.

(** Restoring a snapshot of the counters loses and invents nothing: every
    counter with a well-formed key has the same total as before. *)
Theorem restore_snapshot c k :
  counters_ok c → badKey k = false → Get k (RestoreCounters (Counters_Snapshot c)) = Get k c.
Proof.
  intros Hc Hbad. unfold RestoreCounters.
  set (p := foldl partition_step ∅ (Counters_Snapshot c)).
  assert (∀ k' b, p !! k' = Some b ↔
    ∃ r, c_values c !! counterIdentity (cr_Key r) = Some r ∧ cr_Key r = k' ∧ badKey k' = false
         ∧ cr_Bytes r = b ∧ 0 < b) as Hp.
  { intros k' b. unfold p. rewrite partitions_spec; [|by apply snapshot_NoDup|intros; apply lookup_empty].
    rewrite lookup_empty. split.
    - intros [(r & Hr%snapshot_elem & H)|?]; [by exists r|done|done].
    - intros (r & Hr & H). left. exists r. by rewrite snapshot_elem. }
  unfold Get at 1. rewrite (restore_values _ _ NewCounters) by done.
  fold (Get k (add_all (map_to_list p) NewCounters)).
  destruct (add_all_spec (map_to_list p) NewCounters) as [_ Hg]; [done| |].
  { apply Forall_forall. intros [k' b] (r & Hr & <- & _ & <- & _)%elem_of_map_to_list%Hp. cbn.
    by destruct (Hc _ _ Hr) as (_ & ? & ?). }
  rewrite Hg. change (Get k NewCounters) with 0. rewrite Z.add_0_l.
  pose proof (Get_u64 k c Hc) as Hu.
  enough (total k (map_to_list p) = Get k c) as -> by (unfold is_u64, maxUint64 in *; lia).
  assert (∀ k' b', (k', b') ∈ map_to_list p → counterIdentity k' = counterIdentity k →
          ∃ r, c_values c !! counterIdentity k = Some r ∧ cr_Key r = k' ∧ cr_Bytes r = b') as Hin.
  { intros k' b' (r & Hr & <- & _ & <- & _)%elem_of_map_to_list%Hp E. exists r. by rewrite <- E. }
  unfold Get. destruct (c_values c !! counterIdentity k) as [r|] eqn:Hr; cbn.
  - pose proof (Hc _ _ Hr) as (Ek & Hb & _).
    destruct (decide (0 < cr_Bytes r)) as [Hpos|Hz].
    + apply (total_unique k (cr_Key r) (cr_Bytes r)); [apply NoDup_fst_map_to_list| |done|].
      * apply elem_of_map_to_list, Hp. exists r. rewrite Ek. split_and!; try done.
        rewrite <- Hbad. by apply badKey_identity.
      * intros k' b' H1 H2. destruct (Hin k' b' H1 H2) as (q & Hq & <- & _). congruence.
    + replace (cr_Bytes r) with 0 by (unfold is_u64 in Hb; lia).
      apply total_none. intros k' b' H1 H2. destruct (Hin k' b' H1 H2) as (q & Hq & _ & Hqb).
      apply elem_of_map_to_list, Hp in H1 as (_ & _ & _ & _ & _ & ?).
      injection Hq as <-. lia.
  - apply total_none. intros k' b' H1 H2. destruct (Hin k' b' H1 H2) as (q & Hq & _). done.
Qed.

(** ** Concrete counters *)

Definition key_in (revision : Z) : Key := mkKey "node" "epoch" "env" "route" "ingress" revision.
Definition additions0 : list (Key * Z) := [(key_in 1, 10); (key_in 2, 5); (key_in 1, 7)].
Definition counters0 : Counters := add_all additions0 NewCounters.

Lemma additions0_ok : additions_ok additions0.
Proof. unfold additions_ok, additions0. repeat constructor; vm_compute; congruence. Qed.

Lemma counters0_ok : counters_ok counters0.
Proof. by apply (add_all_spec additions0 NewCounters), additions0_ok. Qed.

Lemma counters_account_witness : Get (key_in 9) counters0 = 22.
Proof. exact (counters_account additions0 (key_in 9) additions0_ok). Defined.

Lemma reconcile_delta_witness :
  let c' := (Reconcile (key_in 3) 30 counters0).2 in
  Get (key_in 3) c' = Z.max (Get (key_in 3) counters0) 30
  ∧ 8 = Get (key_in 3) c' - Get (key_in 3) counters0
  ∧ ∀ k', counterIdentity k' ≠ counterIdentity (key_in 3) → Get k' c' = Get k' counters0.
Proof.
  apply (reconcile_delta (key_in 3) 30 counters0);
    [apply counters0_ok|vm_compute; split; congruence..|vm_compute; reflexivity].
Defined.

Lemma restore_snapshot_witness :
  Get (key_in 4) (RestoreCounters (Counters_Snapshot counters0)) = Get (key_in 4) counters0.
Proof.
  apply (restore_snapshot counters0 (key_in 4)).
  - apply counters0_ok.
  - reflexivity.
Defined.
End UsageCounters.
