(* ===== verification/UsageQueue.v ===== *)
(** * Report queue and meter: theorems

    Byte accounting and bounds of the queue, delivery of what it holds, the
    round trip of its durable state, the growth of its order, and what a flush of
    the meter reports. *)
From S2P Require Import Prelude Go Usage UsageCounters.

Module UsageQueue.
Import Usage UsageCounters.

Definition payload_bytes (r : Report) : Z := blen (rp_Payload r).

Record queue_inv (q : Queue) : Prop := {
  qi_bytes : q_bytes q = sum_map payload_bytes (q_pending q);
  qi_reports : Z.of_nat (size (q_pending q)) ≤ q_maxReports q;
  qi_limit : q_bytes q ≤ q_maxBytes q;
  qi_pending : ∀ id r, q_pending q !! id = Some r →
    rp_OperationID r = id ∧ id ≠ "" ∧ 0 < payload_bytes r ∧ id ∈ q_order q
}.

Lemma badReport_false report q :
  badReport report q = false →
  rp_OperationID report ≠ "" ∧ 0 < payload_bytes report ≤ q_maxBytes q.
Proof.
  unfold badReport, payload_bytes. intros H. bools. pose proof (blen_nonneg (rp_Payload report)).
  split; [done|lia].
Qed.

Lemma append_inv report q :
  queue_inv q → badReport report q = false → full report q = false →
  q_pending q !! rp_OperationID report = None → queue_inv (append_report report q).
Proof.
  intros [H1 H2 H3 H4] (Hid & Hp)%badReport_false Hf Hn. unfold full, payload_bytes in *. bools.
  constructor; cbn.
  - rewrite sum_map_insert by done. unfold payload_bytes. lia.
  - rewrite map_size_insert_None by done. lia.
  - lia.
  - intros id r [[<- <-]|[? Hr]]%lookup_insert_Some.
    + split_and!; try done; [unfold payload_bytes; lia|set_solver].
    + destruct (H4 _ _ Hr) as (? & ? & ? & ?). split_and!; try done. set_solver.
Qed.

Lemma Enqueue_inv report q e q' :
  queue_inv q → Enqueue report q = (e, q') → queue_inv q'.
Proof.
  intros Hi He. unfold Enqueue in He. destruct (badReport _ _) eqn:Hb; [by simplify_eq|].
  destruct (q_pending q !! _) eqn:Hn; [cases; done|].
  destruct (full _ _) eqn:Hf; simplify_eq; [done|]. by apply append_inv.
Qed.

Lemma Ack_inv id q b q' : queue_inv q → Ack id q = (b, q') → queue_inv q'.
Proof.
  intros [H1 H2 H3 H4] Ha. unfold Ack in Ha.
  destruct (q_pending q !! id) as [r|] eqn:Hr; simplify_eq; [|by constructor].
  pose proof (sum_map_delete payload_bytes _ _ _ Hr) as Hs. unfold payload_bytes in Hs at 2.
  pose proof (blen_nonneg (rp_Payload r)).
  constructor; cbn.
  - lia.
  - rewrite map_size_delete_Some by done. lia.
  - lia.
  - intros j q' [? Hj]%lookup_delete_Some. by apply H4.
Qed.

(** ** Replacing the pending report of a counter *)

Lemma rename_first_elem id id' order x :
  id ∈ order → x = id' ∨ x ∈ order ∧ x ≠ id → x ∈ rename_first id id' order.
Proof.
  induction order as [|y order IH]; intros Hid Hx; cbn; [set_solver|].
  case_bool_decide as E; subst; set_solver.
Qed.

(** The report [EnqueueLatest] replaces, and the queue it leaves. *)
Definition replaced (report : Report) (id : string) (current : Report) (q : Queue) : Queue :=
  q <| q_pending := <[rp_OperationID report := report]> (delete id (q_pending q)) |>
    <| q_bytes := q_bytes q - blen (rp_Payload current) + blen (rp_Payload report) |>
    <| q_order := rename_first id (rp_OperationID report) (q_order q) |>.

Lemma replace_latest_cases report iter q r :
  replace_latest report iter q = Some r →
  ∃ id current, (id, current) ∈ iter
    ∧ counterIdentity (rp_Key current) = counterIdentity (rp_Key report)
    ∧ (rp_Bytes report ≤ rp_Bytes current ∧ r = (None, q)
       ∨ rp_Bytes current < rp_Bytes report
         ∧ (r = (Some ErrQueueFull, q)
            ∨ r = (None, replaced report id current q)
              ∧ 0 ≤ q_bytes q - payload_bytes current ≤ q_maxBytes q - payload_bytes report)).
Proof.
  induction iter as [|[id current] iter IH]; cbn; [done|].
  case_bool_decide as E; cbn.
  2: { intros Hr. destruct (IH Hr) as (i & c & ? & ?). exists i, c. split; [by right|done]. }
  intros Hr. exists id, current. split; [left|]. split; [done|].
  destruct (_ <=? _) eqn:E1 in Hr; bools; [left; by simplify_eq|]. right. split; [done|].
  destruct (_ || _) eqn:E2 in Hr; [left; congruence|]. bools. right. injection Hr as <-.
  split; [done|].
  unfold payload_bytes. lia.
Qed.

Lemma EnqueueLatest_inv iter report q e q' :
  queue_inv q → iter ≡ₚ map_to_list (q_pending q) → q_pending q !! rp_OperationID report = None →
  EnqueueLatest iter report q = (e, q') → queue_inv q'.
Proof.
  intros Hi Hiter Hfresh He. unfold EnqueueLatest in He.
  destruct (badReport _ _) eqn:Hb; [by simplify_eq|].
  destruct (replace_latest report iter q) as [r|] eqn:Hr.
  2: { destruct (full _ _) eqn:Hf; simplify_eq; [done|]. by apply append_inv. }
  subst r. apply replace_latest_cases in Hr as (id & current & Hin & _ & Hcase).
  destruct Hcase as [[_ Hx]|[_ [Hx|[Hx Hlim]]]]; injection Hx as -> ->; try done.
  rewrite Hiter in Hin. apply elem_of_map_to_list in Hin.
  apply badReport_false in Hb as (Hid & Hp). destruct Hi as [H1 H2 H3 H4].
  pose proof (sum_map_delete payload_bytes _ _ _ Hin) as Hs.
  assert (id ≠ rp_OperationID report) as Hne by congruence.
  assert (delete id (q_pending q) !! rp_OperationID report = None) as Hd
    by (by rewrite lookup_delete_ne).
  assert (size (q_pending q) ≠ 0%nat) as Hsz by (eapply map_size_ne_0_lookup_2; eauto).
  constructor; cbn; unfold payload_bytes in *.
  - rewrite sum_map_insert by done. unfold payload_bytes. lia.
  - rewrite map_size_insert_None, map_size_delete_Some by eauto. lia.
  - lia.
  - intros j r [[<- <-]|[? [? Hj]%lookup_delete_Some]]%lookup_insert_Some.
    + split_and!; try done; [lia|]. apply rename_first_elem; [by apply (H4 _ _ Hin)|by left].
    + destruct (H4 _ _ Hj) as (? & ? & ? & ?). split_and!; try done.
      apply rename_first_elem; [by apply (H4 _ _ Hin)|by right].
Qed.

(** Operations on a queue; the identifiers of coalesced reports are new. *)
Inductive queue_step : Queue → Queue → Prop :=
  | qs_enqueue report q e q' : Enqueue report q = (e, q') → queue_step q q'
  | qs_latest iter report q e q' :
      iter ≡ₚ map_to_list (q_pending q) → q_pending q !! rp_OperationID report = None →
      EnqueueLatest iter report q = (e, q') → queue_step q q'
  | qs_ack id q b q' : Ack id q = (b, q') → queue_step q q'.

Lemma queue_run_inv q q' : rtc queue_step q q' → queue_inv q → queue_inv q'.
Proof.
  induction 1 as [|q q1 q2 Hs _ IH]; [done|]. intros Hi. apply IH.
  destruct Hs; eauto using Enqueue_inv, EnqueueLatest_inv, Ack_inv.
Qed.

Lemma NewQueue_inv maxReports maxBytes q : NewQueue maxReports maxBytes = inr q → queue_inv q.
Proof.
  unfold NewQueue. intros H. destruct (_ || _) eqn:E; [done|]. bools. simplify_eq.
  constructor; cbn; rewrite ?sum_map_empty, ?map_size_empty; try done; lia.
Qed.

(** The report queue keeps its bounds: after any sequence of enqueues,
    coalesced enqueues and acknowledgements its byte count is the sum of the
    pending payloads and neither it nor the number of reports exceeds the maximum. *)
Theorem queue_bounded maxReports maxBytes q q' :
  NewQueue maxReports maxBytes = inr q → rtc queue_step q q' →
  let s := Queue_Stats q' in
  qs_Bytes s = sum_map payload_bytes (q_pending q') ∧ qs_Bytes s ≤ q_maxBytes q'
  ∧ qs_Reports s ≤ q_maxReports q'.
Proof.
  intros Hn%NewQueue_inv Hr. destruct (queue_run_inv _ _ Hr Hn) as [H1 H2 H3 _]. done.
Qed.

(** ** Delivery *)

Lemma first_pending_Some order pending r :
  first_pending order pending = Some r → ∃ id, id ∈ order ∧ pending !! id = Some r.
Proof.
  induction order as [|id order IH]; cbn; [done|]. destruct (pending !! id) eqn:E.
  - intros [= <-]. exists id. split; [left|done].
  - intros H. destruct (IH H) as (j & ? & ?). exists j. split; [by right|done].
Qed.

Lemma first_pending_None order (pending : gmap string Report) id :
  first_pending order pending = None → id ∈ order → pending !! id = None.
Proof.
  induction order as [|x order IH]; cbn; [set_solver|].
  destruct (pending !! x) eqn:E; [done|]. intros H [->|Hin]%elem_of_cons; auto.
Qed.

(** The queue always has something to send while a report is pending: [Next]
    returns a pending report, and acknowledging it removes exactly that report. *)
Theorem queue_delivers q :
  queue_inv q → q_pending q ≠ ∅ →
  ∃ r q', Next q = Some r ∧ q_pending q !! rp_OperationID r = Some r
    ∧ Ack (rp_OperationID r) q = (true, q') ∧ q_pending q' = delete (rp_OperationID r) (q_pending q)
    ∧ Len q' = Len q - 1.
Proof.
  intros Hi Hne. destruct (Next q) as [r|] eqn:Hn.
  - apply first_pending_Some in Hn as (id & _ & Hr). destruct (qi_pending _ Hi _ _ Hr) as (<- & _).
    exists r. eexists. unfold Ack. rewrite Hr. split_and!; try done.
    unfold Len. cbn. rewrite map_size_delete_Some by done.
    assert (size (q_pending q) ≠ 0%nat) by (eapply map_size_ne_0_lookup_2; eauto). lia.
  - destruct (map_choose _ Hne) as (id & r & Hr).
    destruct (qi_pending _ Hi _ _ Hr) as (_ & _ & _ & Ho).
    rewrite (first_pending_None _ _ _ Hn Ho) in Hr. done.
Qed.

(** ** Durable state *)

(** A queue holding part of [q]. *)
Record part_of (q q0 : Queue) : Prop := {
  po_inv : queue_inv q0;
  po_sub : q_pending q0 ⊆ q_pending q;
  po_reports : q_maxReports q0 = q_maxReports q;
  po_bytes : q_maxBytes q0 = q_maxBytes q
}.

(** Enqueueing a pending report of [q] again. *)
Lemma part_enqueue q q0 id r :
  queue_inv q → part_of q q0 → q_pending q !! id = Some r →
  ∃ q1, Enqueue r q0 = (None, q1) ∧ part_of q q1 ∧ q_pending q0 ⊆ q_pending q1
    ∧ q_pending q1 !! id = Some r.
Proof.
  intros Hq [Hi Hs Hr Hb] Hid. destruct (qi_pending _ Hq _ _ Hid) as (Ho & Hne & Hp & _).
  assert (payload_bytes r ≤ q_maxBytes q) as Hle.
  { pose proof (sum_map_ge payload_bytes (q_pending q) id r) as H.
    pose proof (qi_bytes _ Hq). pose proof (qi_limit _ Hq).
    assert (payload_bytes r ≤ sum_map payload_bytes (q_pending q)); [|lia].
    apply H; [|done]. intros j y Hy. destruct (qi_pending _ Hq _ _ Hy) as (_ & _ & ? & _). lia. }
  assert (badReport r q0 = false) as Hbad.
  { unfold badReport, payload_bytes in *. rewrite Hb, Ho.
    rewrite bool_decide_false, (proj2 (Z.eqb_neq _ _)), (proj2 (Z.ltb_ge _ _)) by (done || lia). done. }
  unfold Enqueue. rewrite Hbad, Ho. destruct (q_pending q0 !! id) as [r'|] eqn:Hid0.
  - assert (r' = r) as -> by (eapply lookup_weaken in Hid0; [|done]; congruence).
    rewrite !bool_decide_true, Z.eqb_refl by done. exists q0.
    split; [done|]. split; [by constructor|done].
  - assert (full r q0 = false) as Hfull.
    { assert (<[id := r]> (q_pending q0) ⊆ q_pending q) as Hsub by (by apply insert_subseteq_l).
      unfold full. rewrite Hr, Hb. apply orb_false_iff. split.
      - apply Z.leb_gt. pose proof (map_subseteq_size _ _ Hsub) as Hsz.
        rewrite map_size_insert_None in Hsz by done. pose proof (qi_reports _ Hq). lia.
      - apply Z.ltb_ge. pose proof (sum_map_subseteq payload_bytes _ _
          (λ j y Hy, Z.lt_le_incl _ _ (proj1 (proj2 (proj2 (qi_pending _ Hq j y Hy))))) Hsub) as Hsum.
        rewrite sum_map_insert in Hsum by done. pose proof (qi_bytes _ Hq). pose proof (qi_limit _ Hq).
        pose proof (qi_bytes _ Hi). unfold payload_bytes in *. lia. }
    rewrite Hfull. exists (append_report r q0). split; [done|]. cbn. rewrite Ho. split_and!.
    + constructor; cbn; try done.
      * apply append_inv; try done. by rewrite Ho.
      * rewrite Ho. by apply insert_subseteq_l.
    + by apply insert_subseteq.
    + apply lookup_insert_eq.
Qed.

Lemma restore_all q ids q0 :
  queue_inv q → part_of q q0 →
  ∃ q1, enqueue_all (omap (λ id, q_pending q !! id) ids) q0 = inr q1 ∧ part_of q q1
    ∧ q_pending q0 ⊆ q_pending q1
    ∧ (∀ id, id ∈ ids → q_pending q1 !! id = q_pending q !! id).
Proof.
  intros Hq. revert q0. induction ids as [|id ids IH]; intros q0 Hp; cbn.
  { exists q0. split_and!; try done. set_solver. }
  destruct (q_pending q !! id) as [r|] eqn:Hr; cbn.
  - destruct (part_enqueue q q0 id r Hq Hp Hr) as (q2 & E & Hp2 & Hs2 & Hid2). rewrite E.
    destruct (IH q2 Hp2) as (q1 & E1 & Hp1 & Hs1 & H1). exists q1. split_and!; try done.
    + by etrans.
    + intros j [->|Hj]%elem_of_cons; [|by apply H1]. rewrite Hr. by eapply lookup_weaken.
  - destruct (IH q0 Hp) as (q1 & E1 & Hp1 & Hs1 & H1). exists q1. split_and!; try done.
    intros j [->|Hj]%elem_of_cons; [|by apply H1]. rewrite Hr.
    destruct (q_pending q1 !! id) as [r'|] eqn:E; [|done].
    eapply lookup_weaken in E; [|apply Hp1]. congruence.
Qed.

(** The queue survives a restart: restoring its durable state with the same
    limits succeeds and yields exactly the pending reports, even when the order
    still names acknowledged ones. *)
Theorem queue_restores q :
  queue_inv q → 0 < q_maxReports q → 0 < q_maxBytes q →
  ∃ q', RestoreQueue (Queue_Snapshot q) (q_maxReports q) (q_maxBytes q) = inr q'
    ∧ q_pending q' = q_pending q ∧ q_bytes q' = q_bytes q ∧ queue_inv q'.
Proof.
  intros Hq Hr Hb. unfold RestoreQueue, NewQueue.
  rewrite !(proj2 (Z.ltb_ge _ _)) by lia. cbn.
  set (q0 := mkQueue _ _ 0 ∅ []).
  assert (part_of q q0) as Hp.
  { constructor; try done; [|apply map_empty_subseteq].
    apply (NewQueue_inv (q_maxReports q) (q_maxBytes q)). unfold NewQueue.
    by rewrite !(proj2 (Z.ltb_ge _ _)) by lia. }
  destruct (restore_all q (q_order q) q0 Hq Hp) as (q1 & E & [Hi Hs _ _] & _ & Hin).
  exists q1. assert (q_pending q1 = q_pending q) as Hpe.
  { apply map_eq. intros id. destruct (q_pending q !! id) as [r|] eqn:Er.
    - rewrite <- Er. apply Hin. by apply (qi_pending _ Hq _ _ Er).
    - destruct (q_pending q1 !! id) eqn:E1; [|done]. eapply lookup_weaken in E1; [|done]. congruence. }
  split_and!; try done. rewrite (qi_bytes _ Hi), (qi_bytes _ Hq). by rewrite Hpe.
Qed.

(** ** Growth of the order *)

Definition report_of (id : string) (key : Key) (bytes : Z) : Report :=
  mkReport id key bytes (1, 2) [x01].

(** One report delivered: coalesced enqueue, then acknowledgement. *)
Definition delivered (q : Queue) : Queue :=
  (Ack "op" (EnqueueLatest (map_to_list (q_pending q)) (report_of "op" (key_in 1) 1) q).2).2.

Lemma delivered_empty q :
  q_pending q = ∅ → q_bytes q = 0 → 0 < q_maxReports q → 0 < q_maxBytes q →
  delivered q = q <| q_order := q_order q ++ ["op"] |>.
Proof.
  intros Hp Hb Hr Hm. unfold delivered, EnqueueLatest, badReport, full. cbn -[Z.leb Z.ltb].
  change (blen [x01]) with 1. rewrite Hp, map_to_list_empty, map_size_empty, Hb. cbn -[Z.leb Z.ltb].
  rewrite (proj2 (Z.ltb_ge (q_maxBytes q) 1)), (proj2 (Z.leb_gt (q_maxReports q) (Z.of_nat 0))),
    (proj2 (Z.ltb_ge (q_maxBytes q - 1) 0)) by lia. destruct q; cbn in *; subst.
  rewrite bool_decide_false by done. unfold Ack, append_report. cbn -[insert delete lookup].
  rewrite lookup_insert_eq. cbn -[insert delete]. rewrite delete_insert_id; [done|apply lookup_empty].
Qed.

(** The order of the queue is never pruned: for every [n] some run of [n]
    reports, each delivered and acknowledged before the next, leaves an empty queue
    whose order still names [n] of them. *)
Theorem queue_order_grows n :
  ∃ q q', NewQueue 1 1 = inr q ∧ rtc queue_step q q' ∧ Len q' = 0
    ∧ length (q_order q') = n.
Proof.
  exists (mkQueue 1 1 0 ∅ []).
  enough (∃ q', rtc queue_step (mkQueue 1 1 0 ∅ []) q' ∧ length (q_order q') = n
                ∧ q_pending q' = ∅ ∧ q_bytes q' = 0 ∧ q_maxReports q' = 1 ∧ q_maxBytes q' = 1)
    as (q' & Hr & Hl & Hp & _).
  { exists q'. split_and!; try done. unfold Len. by rewrite Hp. }
  induction n as [|n (q & Hr & Hl & Hp & Hb & Hm1 & Hm2)].
  { exists (mkQueue 1 1 0 ∅ []). split_and!; try done. }
  assert (delivered q = q <| q_order := q_order q ++ ["op"] |>) as E
    by (apply delivered_empty; done || lia).
  exists (delivered q). split; [|rewrite E; cbn; rewrite length_app; cbn; split_and!; done || lia].
  etrans; [exact Hr|]. unfold delivered.
  eapply rtc_l; [|apply rtc_once; eapply qs_ack; apply surjective_pairing].
  eapply qs_latest; [reflexivity| |apply surjective_pairing]. rewrite Hp. apply lookup_empty.
Qed.

(** ** Meter *)

Section Meter.
Variable envelope : string → SignedDocument → err + bytes.
Variable meterOperationID : Key → Z → string.

Definition last_of (m : Meter) (k : Key) : Z := default 0 (m_last m !! counterIdentity k).

Lemma flush_record_last now iter record m m' :
  flush_record envelope meterOperationID now iter record m = (None, m') →
  cr_Bytes record ≤ Z.max 0 (last_of m' (cr_Key record)) ∧ (∀ k, last_of m k ≤ last_of m' k)
  ∧ m_Counters m' = m_Counters m.
Proof.
  intros H. unfold flush_record in H.
  destruct (_ || _) eqn:Hg in H.
  { injection H as <-. split_and!; try done. unfold last_of. bools_or. destruct Hg; bools; lia. }
  bools. destruct (NewSignedReport _ _ _) as [e|report]; [done|].
  destruct (EnqueueLatest _ _ _) as [[e|] q]; [done|]. injection H as <-. unfold last_of. cbn.
  split_and!; try done.
  - rewrite lookup_insert_eq. cbn. lia.
  - intros k. destruct (decide (counterIdentity (cr_Key record) = counterIdentity k)) as [E|].
    + rewrite E, lookup_insert_eq. cbn. rewrite <- E. lia.
    + by rewrite lookup_insert_ne.
Qed.

Lemma flush_records_last now iter records m m' :
  flush_records envelope meterOperationID now iter records m = (None, m') →
  (∀ r, r ∈ records → cr_Bytes r ≤ Z.max 0 (last_of m' (cr_Key r)))
  ∧ (∀ k, last_of m k ≤ last_of m' k) ∧ m_Counters m' = m_Counters m.
Proof.
  revert m. induction records as [|r records IH]; intros m H; cbn in H.
  { injection H as <-. split_and!; [set_solver|done|done]. }
  destruct (flush_record _ _ now iter r m) as [[e|] m1] eqn:E; [done|].
  destruct (flush_record_last _ _ _ _ _ E) as (E1 & E2 & E3).
  destruct (IH _ H) as (H1 & H2 & H3). split_and!;
    [|intros k; specialize (E2 k); specialize (H2 k); lia|congruence].
  intros r' [->|Hr]%elem_of_cons; [|by apply H1]. specialize (H2 (cr_Key r)). lia.
Qed.

(** A flush that succeeds has covered every counter: whatever the order in
    which it visits them, the last reported absolute of each is at least its value,
    and the counters themselves are untouched. *)
Theorem flush_covers_counters now iter persist m m' k :
  counters_ok (m_Counters m) →
  Flush envelope meterOperationID now iter persist m = (None, m') →
  Get k (m_Counters m') ≤ Z.max 0 (last_of m' k) ∧ m_Counters m' = m_Counters m.
Proof.
  intros Hc H. unfold Flush in H.
  destruct (flush_records _ _ _ _ _ m) as [[e|] m1] eqn:E; [done|]. injection H as -> <-.
  destruct (flush_records_last _ _ _ _ _ E) as (H1 & _ & H3). split; [|done].
  rewrite H3. unfold Get. destruct (c_values (m_Counters m) !! counterIdentity k) as [r|] eqn:Hr; cbn; [|lia].
  destruct (Hc _ _ Hr) as (Ek & _).
  specialize (H1 r). rewrite snapshot_elem, Ek in H1 by done. specialize (H1 Hr).
  unfold last_of in *. by rewrite Ek in H1.
Qed.
End Meter.

(** ** A concrete queue and meter *)

Definition queue0 : Queue := mkQueue 4 100 0 ∅ [].
Definition queue1 : Queue :=
  mkQueue 4 100 1 {[ "op-2" := report_of "op-2" (key_in 1) 7 ]} ["op-1"; "op-2"].

Lemma run_queue1 : rtc queue_step queue0 queue1.
Proof.
  eapply rtc_l; [eapply (qs_enqueue (report_of "op-1" (key_in 1) 5)); vm_compute; reflexivity|].
  eapply rtc_l; [eapply (qs_ack "op-1"); vm_compute; reflexivity|].
  apply rtc_once.
  apply (qs_latest [] (report_of "op-2" (key_in 1) 7) _ None); [reflexivity..|].
  vm_compute. reflexivity.
Qed.

Lemma queue1_inv : queue_inv queue1.
Proof.
  apply (queue_run_inv _ _ run_queue1). by apply (NewQueue_inv 4 100).
Qed.

Lemma queue_bounded_witness :
  let s := Queue_Stats queue1 in
  qs_Bytes s = sum_map payload_bytes (q_pending queue1) ∧ qs_Bytes s ≤ q_maxBytes queue1
  ∧ qs_Reports s ≤ q_maxReports queue1.
Proof. apply (queue_bounded 4 100 queue0 queue1); [reflexivity|apply run_queue1]. Defined.

Lemma queue_delivers_witness :
  ∃ r q', Next queue1 = Some r ∧ q_pending queue1 !! rp_OperationID r = Some r
    ∧ Ack (rp_OperationID r) queue1 = (true, q')
    ∧ q_pending q' = delete (rp_OperationID r) (q_pending queue1) ∧ Len q' = Len queue1 - 1.
Proof. apply (queue_delivers queue1); [apply queue1_inv|vm_compute; discriminate]. Defined.

Lemma queue_restores_witness :
  ∃ q', RestoreQueue (Queue_Snapshot queue1) 4 100 = inr q'
    ∧ q_pending q' = q_pending queue1 ∧ q_bytes q' = q_bytes queue1 ∧ queue_inv q'.
Proof. apply (queue_restores queue1); [apply queue1_inv|reflexivity..]. Defined.

Definition envelope0 (keyID : string) (d : SignedDocument) : err + bytes := inr [x01].
Definition operation0 (k : Key) (bytes : Z) : string := "usage_op".
Definition meter0 : Meter := mkMeter "node" "epoch" counters0 queue0 "key" true ∅ ∅.
Definition iter0 (q : Queue) : list (string * Report) := map_to_list (q_pending q).
Definition flushed0 : Meter := (Flush envelope0 operation0 9 iter0 None meter0).2.

Lemma flush_covers_counters_witness :
  Get (key_in 1) (m_Counters flushed0) ≤ Z.max 0 (last_of flushed0 (key_in 1))
  ∧ m_Counters flushed0 = m_Counters meter0.
Proof.
  apply (flush_covers_counters envelope0 operation0 9 iter0 None meter0 flushed0 (key_in 1)).
  - apply counters0_ok.
  - vm_compute. reflexivity.
Defined.
End UsageQueue.
