(* ===== verification/Metering.v ===== *)
(** * From relayed bytes to usage counters

    Composes the peer relay manager with the usage meter through
    [MeterRecorder] ([internal/peerrelay/meter.go]): what the counters hold after
    the reports of a run is what its relays forwarded, in each direction. *)
From S2P Require Import Prelude Go Relay RelayProofs RelayGuarantees Usage UsageCounters.

Module Metering.
Import Relay RelayProofs RelayGuarantees Usage UsageCounters.

(** [MeterRecorder.RecordRelayUsage] on a [Meter]. *)
Definition MeterRecorder (record : Relay.Usage) (m : Meter) : option err * Meter :=
  if (us_EnvironmentID record == "") || (us_RouteID record == "") || (us_RouteRevision record =? 0)
  then (Some ErrMeterInvalid, m)
  else Record_ (us_EnvironmentID record) (us_RouteID record) (us_RouteRevision record)
         (us_BytesToHost record) (us_BytesToInitiator record) m.

(** It answers what the manager's recorder answers. *)
Lemma MeterRecorder_answer record m :
  (MeterRecorder record m).1
  = RecordRelayUsage (Some (λ e r v i o, (Record_ e r v i o m).1)) ErrMeterInvalid record.
Proof. unfold MeterRecorder, RecordRelayUsage. by destruct (_ || _). Qed.

(** The reports of a manager, in order. *)
Fixpoint meter_all (records : list (Z * Relay.Usage)) (m : Meter) : list (option err) * Meter :=
  match records with
  | [] => ([], m)
  | (_, u) :: records =>
      let '(e, m) := MeterRecorder u m in
      let '(es, m) := meter_all records m in (e :: es, m)
  end.

(** ** What a report says *)

Definition usage_for (r : relay) (u : Relay.Usage) : Prop :=
  us_EnvironmentID u = bd_EnvironmentID (rl_binding r) ∧ us_RouteID u = bd_RouteID (rl_binding r)
  ∧ us_RouteRevision u = bd_RouteRevision (rl_binding r).

Definition billed (r : relay) (u : Relay.Usage) : Prop :=
  usage_for r u ∧ us_BytesToHost u = rl_toHost r ∧ us_BytesToInitiator u = rl_toInitiator r.

Record billing_ok (r : relay) : Prop := {
  bo_environment : bd_EnvironmentID (rl_binding r) ≠ "";
  bo_route : bd_RouteID (rl_binding r) ≠ "";
  bo_revision : 0 < bd_RouteRevision (rl_binding r);
  bo_maximum : bd_MaximumBytes (rl_binding r) ≤ 2 ^ 40;
  bo_base : rl_started r = true → usage_for r (rl_baseUsage r)
}.

Record metering_inv (m : Manager) : Prop := {
  mt_heap : ∀ id r, mg_heap m !! id = Some r → billing_ok r;
  mt_records : ∀ id u, (id, u) ∈ mg_records m →
               ∃ r, mg_heap m !! id = Some r ∧ rl_finalOnce r = true ∧ billed r u
}.

(** A write that leaves the finished relays' bytes alone. *)
Lemma metering_update m id r r' :
  metering_inv m → mg_heap m !! id = Some r → billing_ok r' → rl_binding r' = rl_binding r →
  (rl_finalOnce r = true → rl_finalOnce r' = true ∧ rl_toHost r' = rl_toHost r
                           ∧ rl_toInitiator r' = rl_toInitiator r) →
  metering_inv (m <| mg_heap := <[id := r']> (mg_heap m) |>).
Proof.
  intros [H1 H2] Hr Hok Hb Hf. constructor; cbn.
  - intros j q [[<- <-]|[? ?]]%lookup_insert_Some; [done|by apply (H1 j)].
  - intros j u Hu. destruct (H2 j u Hu) as (q & Hq & Hqf & Hbill).
    destruct (decide (j = id)) as [->|]; [|exists q; by rewrite lookup_insert_ne].
    exists r'. rewrite lookup_insert_eq. simplify_eq. destruct (Hf Hqf) as (F1 & F2 & F3).
    unfold billed, usage_for. by rewrite Hb, F2, F3.
Qed.

Lemma metering_frame m m' :
  metering_inv m → mg_heap m' = mg_heap m → mg_records m' = mg_records m → metering_inv m'.
Proof. intros [H1 H2] Eh Er. constructor; by rewrite ?Eh, ?Er. Qed.

Lemma metering_closeLeg l m : metering_inv m → metering_inv (closeLeg l m).
Proof. destruct l; [|done]. intros ?. by eapply metering_frame. Qed.

Lemma metering_finalize now record id cause completed m :
  manager_inv m → metering_inv m →
  (∀ r u, mg_heap m !! id = Some r → rl_started r = true → completed = Some u → usage_for r u) →
  metering_inv (finalize now record id cause completed m).
Proof.
  intros Hi [H1 H2] Hc. destruct (mg_heap m !! id) as [r|] eqn:Hr; [|unfold finalize; by rewrite Hr].
  destruct (rl_finalOnce r) eqn:Hf; [unfold finalize; by rewrite Hr, Hf|].
  rewrite (finalize_unfold _ _ _ _ _ _ r) by (done || by apply (mi_live _ Hi)).
  set (r' := finished now record cause completed r). pose proof (H1 _ _ Hr) as Hok.
  assert (∀ j u, (j, u) ∈ mg_records m → ∃ q, <[id := r']> (mg_heap m) !! j = Some q
            ∧ rl_finalOnce q = true ∧ billed q u) as Hold.
  { intros j u Hu. destruct (H2 j u Hu) as (q & Hq & Hqf & Hbill). exists q.
    rewrite lookup_insert_ne; [done|]. intros ->. congruence. }
  constructor; cbn.
  - intros j q [[<- <-]|[? ?]]%lookup_insert_Some; [|by apply (H1 j)]. by destruct Hok.
  - intros j u. destruct (rl_started r) eqn:Hs; [|by apply Hold].
    intros [?|Hx%list_elem_of_singleton]%elem_of_app; [by apply Hold|]. simplify_eq. exists r'.
    rewrite lookup_insert_eq. split_and!; [done..|]. unfold billed, usage_for. cbn.
    destruct completed as [u|]; cbn.
    + by destruct (Hc r u eq_refl Hs eq_refl) as (? & ? & ?).
    + by destruct (bo_base _ Hok Hs) as (? & ? & ?).
Qed.

Lemma validAdmission_billing a now :
  validAdmission a now = true →
  bd_EnvironmentID (adm_Binding a) ≠ "" ∧ bd_RouteID (adm_Binding a) ≠ ""
  ∧ 0 < bd_RouteRevision (adm_Binding a) ∧ bd_MaximumBytes (adm_Binding a) ≤ 2 ^ 40.
Proof. unfold validAdmission, canonicalBinding. intros H. bools. done. Qed.

(** The relay [Attach] joins, in the map or fresh. *)
Lemma metering_select key m id r created m' :
  manager_inv m → metering_inv m → bd_EnvironmentID (rk_Binding key) ≠ "" →
  bd_RouteID (rk_Binding key) ≠ "" → 0 < bd_RouteRevision (rk_Binding key) →
  bd_MaximumBytes (rk_Binding key) ≤ 2 ^ 40 →
  Attach_select key m = (inr (id, r, created), m') → metering_inv m'.
Proof.
  intros Hi [H1 H2] K1 K2 K3 K4 Ha. unfold Attach_select in Ha. destruct (mg_relays m !! key) as [j|].
  { by destruct (mg_heap m !! j); simplify_eq. }
  destruct (_ <=? _); [done|]. destruct (_ <=? _) in Ha; [done|]. injection Ha as <- <- <- <-.
  assert (mg_heap m !! mg_next m = None) as Hfresh.
  { destruct (mg_heap m !! mg_next m) eqn:E; [|done]. apply (mi_heap _ Hi) in E as [? _]. lia. }
  constructor; cbn.
  - intros j q [[<- <-]|[? ?]]%lookup_insert_Some; [by constructor|by apply (H1 j)].
  - intros j u Hu. destruct (H2 j u Hu) as (q & Hq & Hbill). exists q.
    rewrite lookup_insert_ne; [done|]. intros <-. congruence.
Qed.

Lemma metering_join now admission stream id r created m res m' :
  metering_inv m → mg_heap m !! id = Some r → rl_finalOnce r = false →
  Attach_join now admission stream id r created m = (res, m') → metering_inv m'.
Proof.
  intros Hi Hr Hf Ha. unfold Attach_join in Ha. pose proof (mt_heap _ Hi _ _ Hr) as [].
  destruct (rl_expired r); [simplify_eq; by eapply metering_frame|].
  destruct (nonnil _) in Ha; [simplify_eq; by eapply metering_frame|].
  destruct (_ && _) in Ha; [simplify_eq; by eapply metering_frame|].
  cases; eapply metering_update; try done; rewrite ?Hf; done.
Qed.

Lemma metering_attach now1 now2 now3 ctxErr admission stream m res m' :
  manager_inv m → metering_inv m →
  Attach now1 now2 now3 ctxErr admission stream m = (res, m') → metering_inv m'.
Proof.
  intros Hi Hm Ha. unfold Attach in Ha. destruct stream as [stream|]; [|by simplify_eq].
  destruct (negb _) eqn:Hv in Ha; [simplify_eq; by eapply metering_frame|].
  destruct ctxErr; [simplify_eq; by eapply metering_frame|]. apply (prune_inv now2) in Hi.
  assert (metering_inv (pruneConsumedLocked now2 m)) as Hm1 by (by eapply metering_frame).
  set (m1 := pruneConsumedLocked now2 m) in *.
  destruct (mg_closed m1); [simplify_eq; by eapply metering_frame|].
  destruct (mg_draining m1); [simplify_eq; by eapply metering_frame|].
  destruct (nonnil _); [simplify_eq; by eapply metering_frame|].
  destruct (Attach_select _ m1) as [[e|[[id r] created]] m2] eqn:Hs.
  - assert (m2 = m1) as -> by (unfold Attach_select in Hs; by cases). simplify_eq. by eapply metering_frame.
  - apply negb_false_iff in Hv. pose proof (validAdmission_billing _ _ Hv) as (V1 & V2 & V3 & V4).
    pose proof Hs as Hs'. apply Attach_select_inv in Hs as (_ & Hr & Hf & _); [|done|].
    + eapply metering_join; [|done..]. by eapply (metering_select _ m1); [done|done| | | | |exact Hs'].
    + unfold validAdmission in Hv. cbn. bools. lia.
Qed.

(** ** Runs *)

(** A step in which no relay forwards after it was reported and in which route
    revisions are uint64. *)
Definition quiet_step (p p' : pool) : Prop :=
  any_step p p'
  ∧ (∀ id r r', mg_heap (p_m p) !! id = Some r → rl_done r = true → mg_heap (p_m p') !! id = Some r' →
       rl_toHost r' = rl_toHost r ∧ rl_toInitiator r' = rl_toInitiator r)
  ∧ ∀ id r, mg_heap (p_m p') !! id = Some r → is_u64 (bd_RouteRevision (rl_binding r)).

Lemma metering_step p p' :
  quiet_step p p' → manager_inv (p_m p) → metering_inv (p_m p) → metering_inv (p_m p').
Proof.
  intros ([now Hs] & Hq & _) Hi Hm.
  destruct Hs as [now1 now3 ctxErr a s id go m m' ts rs Ha|now1 now3 ctxErr a s e m m' ts rs Ha
    |m ts rs|m ts rs|id b m m' ts rs He|id cause m m' t ts rs Ht|record t m ts1 ts2 rs
    |id dir n r m ts rs Hid Hr Hn Hle|record f1 f2 id m ts rs Hid]; cbn [p_m] in *.
  - by eapply metering_attach.
  - by eapply metering_attach.
  - by eapply metering_frame.
  - by eapply metering_frame.
  - unfold expirePending_mark in He. destruct (mg_heap m !! id) as [r|] eqn:Hr; [|by simplify_eq].
    destruct (_ || _); simplify_eq; [done|]. pose proof (mt_heap _ Hm _ _ Hr) as [].
    by eapply metering_update.
  - unfold terminate_begin in Ht. destruct (mg_heap m !! id) as [r|] eqn:Hr; [|done].
    destruct (rl_stopOnce r); simplify_eq. pose proof (mt_heap _ Hm _ _ Hr) as [].
    by eapply metering_update.
  - unfold terminate_finish. destruct (mg_heap m !! tm_relay t) as [r|] eqn:Hr; [|done].
    pose proof (mt_heap _ Hm _ _ Hr) as []. pose proof (proj2 (mi_heap _ Hi _ _ Hr)) as [].
    set (m1 := m <| mg_heap := _ |>).
    assert (metering_inv m1) as Hm1 by (by eapply metering_update).
    assert (manager_inv m1) as Hi1 by (by eapply update_inv).
    destruct (negb _); [|by apply metering_closeLeg, metering_closeLeg].
    apply metering_finalize; [by apply closeLeg_inv, closeLeg_inv|by apply metering_closeLeg, metering_closeLeg|done].
  - pose proof (mt_heap _ Hm _ _ Hr) as []. eapply metering_update; [done..| |by destruct dir|].
    + destruct dir; by constructor.
    + intros Hf. split; [by destruct dir|]. apply (Hq id r (forward dir n r) Hr).
      * pose proof (proj2 (mi_heap _ Hi _ _ Hr)) as []. congruence.
      * cbn. by rewrite lookup_insert_eq.
  - unfold run_finish. destruct (mg_heap m !! id) as [r|] eqn:Hr; [|done].
    apply metering_finalize; [by apply closeLeg_inv, closeLeg_inv|by apply metering_closeLeg, metering_closeLeg|].
    intros q u Hq' Hst [= <-]. assert (mg_heap m !! id = Some q) as Hq2.
    { destruct (rl_host r), (rl_initiator r); done. }
    simplify_eq. destruct (bo_base _ (mt_heap _ Hm _ _ Hr) Hst) as (? & ? & ?).
    unfold setBytes. by destruct (cr_toInitiator f1), (cr_toInitiator f2).
Qed.

Lemma metering_run config m p :
  NewManager config = inr m → rtc quiet_step (mkPool m [] ∅) p →
  manager_inv (p_m p) ∧ metering_inv (p_m p)
  ∧ ∀ id r, mg_heap (p_m p) !! id = Some r → is_u64 (bd_RouteRevision (rl_binding r)).
Proof.
  intros Hm Hr. pose proof (NewManager_inv _ _ Hm) as Hi0.
  assert (mg_heap m = ∅ ∧ mg_records m = []) as [Eh Er].
  { unfold NewManager in Hm. destruct (negb _) in Hm; by simplify_eq. }
  remember (mkPool m [] ∅) as p0 eqn:E0.
  assert (manager_inv (p_m p0) ∧ metering_inv (p_m p0)
    ∧ ∀ id r, mg_heap (p_m p0) !! id = Some r → is_u64 (bd_RouteRevision (rl_binding r))) as H0.
  { subst p0. cbn. rewrite Eh. split_and!; [done| |done]. constructor; rewrite ?Eh, ?Er; [done|set_solver]. }
  clear E0. induction Hr as [|p0 p1 p2 Hs Hr IH]; [done|]. destruct H0 as (I1 & I2 & _). apply IH.
  split_and!; [|by eapply metering_step|apply Hs].
  destruct Hs as [[now Hs] _]. by eapply pool_step_inv.
Qed.

(** ** The meter *)

Record meter_ready (m : Meter) : Prop := {
  mr_node : m_Node m ≠ "";
  mr_epoch : m_Epoch m ≠ "";
  mr_key : m_KeyID m ≠ "" ∧ m_keySize m = true;
  mr_counters : counters_ok (m_Counters m)
}.

Definition direction (toInitiator : bool) : string := if toInitiator then "egress" else "ingress".

Definition report_key (m : Meter) (u : Relay.Usage) (toInitiator : bool) : Key :=
  mkKey (m_Node m) (m_Epoch m) (us_EnvironmentID u) (us_RouteID u) (direction toInitiator)
    (us_RouteRevision u).

Definition usage_bytes (toInitiator : bool) (u : Relay.Usage) : Z :=
  if toInitiator then us_BytesToInitiator u else us_BytesToHost u.

(** The additions of one report. *)
Definition addition (m : Meter) (u : Relay.Usage) (toInitiator : bool) : list (Key * Z) :=
  if usage_bytes toInitiator u =? 0 then [] else [(report_key m u toInitiator, usage_bytes toInitiator u)].

Definition additions (m : Meter) (records : list (Z * Relay.Usage)) : list (Key * Z) :=
  records ≫= λ iu, addition m iu.2 false ++ addition m iu.2 true.

Definition report_ok (u : Relay.Usage) : Prop :=
  us_EnvironmentID u ≠ "" ∧ us_RouteID u ≠ "" ∧ us_RouteRevision u ≠ 0.

Lemma add_all_app l l' c : add_all (l ++ l') c = add_all l' (add_all l c).
Proof. apply foldl_app. Qed.

Lemma MeterRecorder_spec u m :
  meter_ready m → report_ok u →
  MeterRecorder u m
  = (None, m <| m_Counters := add_all (addition m u false ++ addition m u true) (m_Counters m) |>).
Proof.
  intros [Hn He [Hk Hs] _] (Ue & Ur & Uv). unfold MeterRecorder, Record_.
  rewrite !bool_decide_false by done. rewrite (proj2 (Z.eqb_neq _ _)), Hs by done. cbn [orb negb]. f_equal.
  unfold addIf, addition. cbn [usage_bytes].
  by destruct (us_BytesToHost u =? 0), (us_BytesToInitiator u =? 0); destruct m.
Qed.

Lemma meter_all_spec records m :
  meter_ready m → Forall (λ iu, report_ok iu.2 ∧ additions_ok (addition m iu.2 false ++ addition m iu.2 true))
    records →
  Forall (eq None) (meter_all records m).1
  ∧ m_Counters (meter_all records m).2 = add_all (additions m records) (m_Counters m).
Proof.
  intros Hm Hr. revert m Hm Hr. induction records as [|[id u] records IH]; intros m Hm Hr; [done|].
  apply Forall_cons in Hr as [[Hu Ha] Hr]. cbn [snd] in Hu, Ha. cbn [meter_all].
  rewrite MeterRecorder_spec by done. cbn beta iota zeta.
  set (m1 := m <| m_Counters := _ |>). assert (meter_ready m1) as Hm1.
  { destruct Hm as [? ? ? Hc]. constructor; cbn; try done. exact (proj1 (add_all_spec _ _ Hc Ha)). }
  destruct (IH m1 Hm1 Hr) as [IH1 IH2]. destruct (meter_all records m1) as [es m2]. cbn [fst snd] in *.
  split; [by constructor|]. rewrite IH2. unfold additions at 2. rewrite bind_cons, add_all_app. done.
Qed.

(** ** Sums *)

Lemma total_app k l l' : total k (l ++ l') = total k l + total k l'.
Proof. induction l as [|[k' b] l IH]; cbn; [done|]. rewrite IH. lia. Qed.

(** A list that enumerates the non-zero summands of a map. *)
Lemma sum_list_map {A B} (h : A → Z) (g : B → Z) (l : list (Z * A)) (m : gmap Z B) :
  NoDup l.*1 → (∀ i a, (i, a) ∈ l → ∃ b, m !! i = Some b ∧ h a = g b) →
  (∀ i b, m !! i = Some b → i ∉ l.*1 → g b = 0) →
  foldr (λ ia acc, h ia.2 + acc) 0 l = sum_map g m.
Proof.
  revert m. induction l as [|[i a] l IH]; intros m Hnd Hl Hz.
  - cbn. symmetry. rewrite (sum_map_ext (λ _, 0)).
    + clear. induction m as [|i x m Hi IH] using map_ind; [done|]. by rewrite sum_map_insert, IH.
    + intros i b Hb. symmetry. apply (Hz i); [done|set_solver].
  - cbn in Hnd |- *. apply NoDup_cons in Hnd as [Hi Hnd].
    destruct (Hl i a) as (b & Hb & ->); [set_solver|]. rewrite (sum_map_delete g m i b Hb). f_equal.
    apply IH; [done|..].
    + intros j a' Hj. destruct (Hl j a') as (b' & Hb' & E); [set_solver|]. exists b'.
      rewrite lookup_delete_ne; [done|]. intros <-. apply Hi. by apply (list_elem_of_fmap_2 fst _ (i, a')).
    + intros j b' [? ?]%lookup_delete_Some Hj. apply (Hz j); [done|]. set_solver.
Qed.

(** ** Composition *)

Definition counter_key (m : Meter) (environment route : string) (toInitiator : bool) (revision : Z) : Key :=
  mkKey (m_Node m) (m_Epoch m) environment route (direction toInitiator) revision.

(** What a report adds to one counter. *)
Definition report_bytes (environment route : string) (toInitiator : bool) (u : Relay.Usage) : Z :=
  if (us_EnvironmentID u == environment) && (us_RouteID u == route) then usage_bytes toInitiator u else 0.

(** What a relay that started and is done contributes to one counter. *)
Definition relay_bytes (environment route : string) (toInitiator : bool) (r : relay) : Z :=
  if rl_started r && rl_done r && (bd_EnvironmentID (rl_binding r) == environment)
     && (bd_RouteID (rl_binding r) == route)
  then if toInitiator then rl_toInitiator r else rl_toHost r else 0.

Lemma addition_total m u environment route d d' revision :
  total (counter_key m environment route d revision) (addition m u d')
  = if eqb d d' then report_bytes environment route d u else 0.
Proof.
  unfold addition, report_bytes. destruct (usage_bytes d' u =? 0) eqn:E; bools; cbn [total].
  - destruct (eqb d d') eqn:Ed; [|done]. apply eqb_prop in Ed as ->. rewrite E. by destruct (_ && _).
  - rewrite Z.add_0_r. case_bool_decide as Ek.
    + injection Ek as -> -> Ed. rewrite !bool_decide_true by done. by destruct d, d'.
    + destruct (eqb d d') eqn:Ed; [|done]. apply eqb_prop in Ed as ->.
      case_bool_decide as E1; cbn [andb]; [|done]. case_bool_decide as E2; [|done].
      exfalso. apply Ek. unfold counter_key, report_key, counterIdentity. cbn. by rewrite E1, E2.
Qed.

Lemma additions_total m records environment route d revision :
  total (counter_key m environment route d revision) (additions m records)
  = foldr (λ iu acc, report_bytes environment route d iu.2 + acc) 0 records.
Proof.
  induction records as [|[id u] records IH]; [done|]. unfold additions in *.
  rewrite bind_cons, total_app, IH. cbn [snd foldr]. rewrite total_app, !addition_total.
  destruct d; cbn [eqb]; lia.
Qed.

(** The reports of a run are acceptable to the meter. *)
Lemma reports_ok meter m :
  manager_inv m → metering_inv m →
  (∀ id r, mg_heap m !! id = Some r → is_u64 (bd_RouteRevision (rl_binding r))) →
  Forall (λ iu, report_ok iu.2 ∧ additions_ok (addition meter iu.2 false ++ addition meter iu.2 true))
    (mg_records m).
Proof.
  intros Hi Hm Hrev. apply Forall_forall. intros [id u] Hu. cbn [snd].
  destruct (mt_records _ Hm _ _ Hu) as (r & Hr & _ & (E1 & E2 & E3) & E4 & E5).
  pose proof (mt_heap _ Hm _ _ Hr) as [B1 B2 B3 B4 _]. pose proof (Hrev _ _ Hr) as Hv.
  pose proof (proj2 (mi_heap _ Hi _ _ Hr)) as [_ _ _ R1 R2 _]. split.
  { unfold report_ok. rewrite E1, E2, E3. split_and!; [done..|lia]. }
  assert (is_u64 (us_BytesToHost u) ∧ is_u64 (us_BytesToInitiator u)) as [U1 U2].
  { unfold is_u64, two64. rewrite E4, E5. lia. }
  apply Forall_app. unfold addition, usage_bytes. split; (destruct (_ =? 0); constructor; cbn; [|done]).
  all: by rewrite E3.
Qed.

(** C8. Every relayed byte is billed once.  After any run in which no relay
    forwards once it was reported, metering its reports succeeds, and the counter
    of a route's direction has grown by exactly the bytes its finished relays
    forwarded in that direction, over all relays, revisions and interleavings, and
    saturated at the largest uint64. *)
Theorem relayed_bytes_metered config m p meter environment route toInitiator revision :
  NewManager config = inr m → rtc quiet_step (mkPool m [] ∅) p → meter_ready meter →
  Forall (eq None) (meter_all (mg_records (p_m p)) meter).1
  ∧ let key := counter_key meter environment route toInitiator revision in
    Get key (m_Counters (meter_all (mg_records (p_m p)) meter).2)
    = Z.min maxUint64 (Get key (m_Counters meter)
                       + sum_map (relay_bytes environment route toInitiator) (mg_heap (p_m p))).
Proof.
  intros Hnew Hrun Hready. destruct (metering_run _ _ _ Hnew Hrun) as (Hi & Hm & Hrev).
  pose proof (reports_ok meter _ Hi Hm Hrev) as Hrep.
  destruct (meter_all_spec _ _ Hready Hrep) as [Hok Hc]. split; [done|]. cbn zeta. rewrite Hc.
  destruct (add_all_spec (additions meter (mg_records (p_m p))) (m_Counters meter)) as [_ ->];
    [apply Hready| |].
  { apply Forall_bind. eapply Forall_impl; [done|]. by intros iu [_ ?]. }
  rewrite additions_total. do 2 f_equal. apply sum_list_map.
  - apply Hi.
  - intros id u Hu. destruct (mt_records _ Hm _ _ Hu) as (r & Hr & _ & (E1 & E2 & _) & E4 & E5).
    exists r. split; [done|]. destruct (mi_recorded _ Hi _ _ Hu) as (q & Hq & Q1 & Q2 & _). simplify_eq.
    unfold report_bytes, relay_bytes, usage_bytes. rewrite (ro_done _ (proj2 (mi_heap _ Hi _ _ Hr))).
    rewrite Q1, Q2, E1, E2, E4, E5. done.
  - intros id r Hr Hn. unfold relay_bytes. destruct (rl_started r) eqn:Hs; [|done].
    rewrite (ro_done _ (proj2 (mi_heap _ Hi _ _ Hr))). destruct (rl_finalOnce r) eqn:Hf; [|done].
    destruct Hn. by eapply (mi_reported _ Hi).
Qed.

(** ** A leg that pairs a relay being terminated is not billed *)

(** Five bytes read from the initiator reach the host after the report. *)
Definition late_bytes : Manager :=
  lost0 <| mg_heap := <[0 := forward false 5 (relay_at lost0)]> (mg_heap lost0) |>.
Definition late_end : Manager := run_finish 4 reported (copied true) (copied false) 0 late_bytes.

(** A termination that races with the second leg loses bytes: some
    interleaving ends with its terminations and copies over and the relay's legs
    closed, after five bytes were forwarded to the host and the only report of the
    relay said none.  The source says that each forwarded byte enters exactly one
    customer direction. *)
Theorem late_bytes_unbilled :
  ∃ p r u, reachable p ∧ p_terms p = [] ∧ p_running p = ∅ ∧ mg_heap (p_m p) !! 0 = Some r
    ∧ rl_done r = true ∧ rl_toHost r = 5 ∧ mg_records (p_m p) = [(0, u)] ∧ us_BytesToHost u = 0.
Proof.
  exists (mkPool late_end [] (({[0]} ∪ ∅) ∖ {[0]})), (relay_at late_end), (rl_usage (relay_at late_end)).
  split; [|split_and!; try (vm_compute; reflexivity); set_solver].
  eapply (reach_step _ 4); [|apply step_run_finish; set_solver].
  eapply (reach_step _ 3); [|by apply (step_forward 3 0 false 5 (relay_at lost0)); [set_solver|vm_compute..]].
  eapply (reach_step _ 3); [|apply (step_terminated 3 reported token late0 [] [])].
  eapply (reach_step _ 2);
    [|apply (step_attach 2 2 2 None host0 (Some 2) 0 true terminating.2); vm_compute; reflexivity].
  eapply (reach_step _ 1); [apply reach_pending|].
  apply (step_terminate 1 0 cancelled). vm_compute. reflexivity.
Qed.

(** ** Witness *)

Definition moved0 : Manager :=
  paired0 <| mg_heap := <[0 := forward false 7 (relay_at paired0)]> (mg_heap paired0) |>.
Definition metered0 : Manager := run_finish 3 reported (copied true) (copied false) 0 moved0.
Definition fresh_meter : Meter :=
  mkMeter "node" "epoch" NewCounters (mkQueue 8 100 0 ∅ []) "key" true ∅ ∅.

(** A step to a heap of one relay, which was not reported before. *)
Lemma quiet_single p p' r' :
  any_step p p' → mg_heap (p_m p') = {[0 := r']} → is_u64 (bd_RouteRevision (rl_binding r')) →
  (∀ id r, mg_heap (p_m p) !! id = Some r → rl_done r = false) → quiet_step p p'.
Proof.
  intros Hs Hh Hv Hd. split_and!; [done|..].
  - intros id r q Hr Hdone. rewrite (Hd id r Hr) in Hdone. done.
  - intros id r. rewrite Hh. by intros [_ <-]%lookup_singleton_Some.
Qed.

Lemma single_not_done m r :
  mg_heap m = {[0 := r]} → rl_done r = false →
  ∀ id q, mg_heap m !! id = Some q → rl_done q = false.
Proof. intros -> Hr id q. by intros [_ <-]%lookup_singleton_Some. Qed.

Lemma quiet_run : rtc quiet_step (mkPool manager0 [] ∅) (mkPool metered0 [] (({[0]} ∪ ∅) ∖ {[0]})).
Proof.
  eapply (rtc_l _ _ (mkPool pending0 [] ∅)).
  { eapply (quiet_single _ _ (relay_at pending0)); [|vm_compute; reflexivity|by vm_compute|by intros ??].
    exists 1. apply (step_attach 1 1 1 None initiator0 (Some 1) 0 false). vm_compute. reflexivity. }
  eapply (rtc_l _ _ (mkPool paired0 [] ({[0]} ∪ ∅))).
  { eapply (quiet_single _ _ (relay_at paired0)); [|vm_compute; reflexivity|by vm_compute|].
    - exists 2. apply (step_attach 2 2 2 None host0 (Some 2) 0 true). vm_compute. reflexivity.
    - apply (single_not_done _ (relay_at pending0)); vm_compute; reflexivity. }
  eapply (rtc_l _ _ (mkPool moved0 [] ({[0]} ∪ ∅))).
  { eapply (quiet_single _ _ (relay_at moved0)); [|vm_compute; reflexivity|by vm_compute|].
    - exists 2. unfold moved0.
      by apply (step_forward 2 0 false 7 (relay_at paired0) paired0 []); [set_solver|vm_compute..].
    - apply (single_not_done _ (relay_at paired0)); vm_compute; reflexivity. }
  apply rtc_once. eapply (quiet_single _ _ (relay_at metered0)); [|vm_compute; reflexivity|by vm_compute|].
  - exists 3. apply step_run_finish. set_solver.
  - apply (single_not_done _ (relay_at moved0)); vm_compute; reflexivity.
Qed.

Lemma relayed_bytes_metered_witness :
  Get (counter_key fresh_meter "env" "route" false 1)
    (m_Counters (meter_all (mg_records metered0) fresh_meter).2) = 7.
Proof.
  destruct (relayed_bytes_metered DevelopmentConfig manager0 _ fresh_meter "env" "route" false 1
              manager0_ok quiet_run) as [_ H].
  - by constructor.
  - etrans; [exact H|]. vm_compute. reflexivity.
Defined.
End Metering.
