(* ===== verification/Journal.v ===== *)
(** * Operation journal

    Models [internal/operation/journal.go] and the errors of
    [internal/edgeerrors/errors.go].  An [*entry] is never written after its
    creation, so the two maps hold entries as values.  SHA-256 is a parameter. *)
From S2P Require Import Prelude Go.

Module EdgeErrors.

(** [*edgeerrors.Error], and errors of other packages with what they unwrap to. *)
Inductive error :=
  | Edge (code message recovery : string) (cause : option error)
  | Foreign (message : string) (unwrapped : option error).

Definition New (code message recovery : string) : error := Edge code message recovery None.
Definition Wrap (code message recovery : string) (cause : error) : error :=
  Edge code message recovery (Some cause).

(** The loop of [CodeOf]. *)
Fixpoint CodeOf (e : error) : option string :=
  match e with
  | Edge code _ _ _ => Some code
  | Foreign _ inner => match inner with Some e => CodeOf e | None => None end
  end.
End EdgeErrors.

Module Journal.
Import EdgeErrors.

Definition maxDocumentBytes : Z := 1048576.

Definition ErrInvalid : error :=
  New "operation_conflict" "operation is invalid" "create a new valid operation".
Definition ErrReplay : error :=
  New "credential_replayed" "credential was already consumed" "request a fresh credential".
Definition ErrFull : error :=
  New "store_capacity_exceeded" "operation journal is at capacity"
    "restore journal capacity before retrying".

(** [time.Unix(0, 0)] as nanoseconds since the zero time. *)
Definition unixEpoch : Time := 62135596800 * Second.

Record Request := mkRequest {
  rq_OperationID : string;
  rq_JTI : string;
  rq_Canonical : bytes;
  rq_Decision : bytes;
  rq_RetainUntil : Time
}.

Record Outcome := mkOutcome { oc_Decision : bytes; oc_Duplicate : bool }.

Record entry := mkEntry {
  en_operationID : string;
  en_jti : string;
  en_requestHash : bytes;
  en_decision : bytes;
  en_retainUntil : Time
}.

Record Record_ := mkRecord {
  rec_OperationID : string;
  rec_JTI : string;
  rec_RequestHash : string;
  rec_Decision : bytes;
  rec_RetainUntil : Time
}.

Record Journal := mkJournal {
  j_maxEntries : Z;
  j_byOperation : gmap string entry;
  j_byJTI : gmap string entry
}.
#[export] Instance Journal_eta : Eta Journal := λ j,
  mkJournal (j_maxEntries j) (j_byOperation j) (j_byJTI j).

Definition NewJournal (maxEntries : Z) : error + Journal :=
  if maxEntries <? 1 then inl ErrInvalid else inr (mkJournal maxEntries ∅ ∅).

(** ** Package encoding/hex *)

Definition hex_digit (n : Z) : byte := byte_of_Z (if n <? 10 then 48 + n else 87 + n).

Definition hex_value (b : byte) : option Z :=
  let z := byte_to_Z b in
  if (48 <=? z) && (z <=? 57) then Some (z - 48)
  else if (97 <=? z) && (z <=? 102) then Some (z - 87)
  else if (65 <=? z) && (z <=? 70) then Some (z - 55)
  else None.

Definition hex_bytes (b : bytes) : bytes :=
  b ≫= (λ x, [hex_digit (byte_to_Z x / 16); hex_digit (byte_to_Z x mod 16)]).

Fixpoint unhex_bytes (b : bytes) : option bytes :=
  match b with
  | [] => Some []
  | [_] => None
  | hi :: lo :: b =>
      match hex_value hi, hex_value lo, unhex_bytes b with
      | Some h, Some l, Some rest => Some (byte_of_Z (16 * h + l) :: rest)
      | _, _, _ => None
      end
  end.

Definition EncodeToString (b : bytes) : string := bstring (hex_bytes b).
Definition DecodeString (s : string) : option bytes := unhex_bytes (sbytes s).

(** ** Operations *)

Section Journal.
Variable sha256 : bytes → bytes.

Definition duplicate (existing : entry) (request : Request) (hash : bytes) : error + Outcome :=
  if (en_operationID existing != rq_OperationID request) || (en_jti existing != rq_JTI request)
     || (en_requestHash existing != hash)
  then inl ErrReplay
  else inr (mkOutcome (en_decision existing) true).

Definition Consume (now : Time) (request : Request) (j : Journal) : (error + Outcome) * Journal :=
  if (rq_OperationID request == "") || (rq_JTI request == "") || (blen (rq_Canonical request) =? 0)
     || (maxDocumentBytes <? blen (rq_Canonical request))
     || (maxDocumentBytes <? blen (rq_Decision request)) || negb (After (rq_RetainUntil request) now)
  then (inl ErrInvalid, j)
  else
    let hash := sha256 (rq_Canonical request) in
    match j_byOperation j !! rq_OperationID request with
    | Some existing => (duplicate existing request hash, j)
    | None =>
    match j_byJTI j !! rq_JTI request with
    | Some existing => (duplicate existing request hash, j)
    | None =>
        if j_maxEntries j <=? Z.of_nat (size (j_byOperation j)) then (inl ErrFull, j)
        else
          let created := mkEntry (rq_OperationID request) (rq_JTI request) hash (rq_Decision request)
                           (rq_RetainUntil request) in
          (inr (mkOutcome (en_decision created) false),
           j <| j_byOperation := <[en_operationID created := created]> (j_byOperation j) |>
             <| j_byJTI := <[en_jti created := created]> (j_byJTI j) |>)
    end end.

(** The loop of [RemoveExpired]: the entries whose time has come. *)
Definition expired_entries (now : Time) (j : Journal) : list (string * entry) :=
  filter (λ kv : string * entry, Before now (en_retainUntil kv.2) = false)
    (map_to_list (j_byOperation j)).

Definition RemoveExpired (now : Time) (j : Journal) : Z * Journal :=
  let removed := expired_entries now j in
  (Z.of_nat (length removed),
   foldl (λ j kv, j <| j_byOperation := delete kv.1 (j_byOperation j) |>
                    <| j_byJTI := delete (en_jti kv.2) (j_byJTI j) |>) j removed).

Definition Len (j : Journal) : Z := Z.of_nat (size (j_byOperation j)).

Definition record_of (e : entry) : Record_ :=
  mkRecord (en_operationID e) (en_jti e) (EncodeToString (en_requestHash e)) (en_decision e)
    (en_retainUntil e).

(** [sort.Slice] by operation. *)
Fixpoint insert_sorted (r : Record_) (l : list Record_) : list Record_ :=
  match l with
  | [] => [r]
  | x :: l => if String.ltb (rec_OperationID x) (rec_OperationID r)
              then x :: insert_sorted r l else r :: x :: l
  end.
Definition sort_records (l : list Record_) : list Record_ := foldr insert_sorted [] l.

Definition Snapshot (j : Journal) : list Record_ :=
  sort_records ((λ kv : string * entry, record_of kv.2) <$> map_to_list (j_byOperation j)).

(** One record of [Restore]. *)
Definition restore_record (record : Record_) (j : Journal) : error + Journal :=
  if (rec_OperationID record == "") || (rec_JTI record == "")
     || (maxDocumentBytes <? blen (rec_Decision record)) || negb (After (rec_RetainUntil record) unixEpoch)
  then inl ErrInvalid
  else match DecodeString (rec_RequestHash record) with
  | None => inl ErrInvalid
  | Some hash =>
      if negb (blen hash =? 32) then inl ErrInvalid
      else if nonnil (j_byOperation j !! rec_OperationID record)
              || nonnil (j_byJTI j !! rec_JTI record)
              || (j_maxEntries j <=? Z.of_nat (size (j_byOperation j)))
      then inl ErrInvalid
      else
        let value := mkEntry (rec_OperationID record) (rec_JTI record) hash (rec_Decision record)
                       (rec_RetainUntil record) in
        inr (j <| j_byOperation := <[en_operationID value := value]> (j_byOperation j) |>
               <| j_byJTI := <[en_jti value := value]> (j_byJTI j) |>)
  end.

Fixpoint restore_records (records : list Record_) (j : Journal) : error + Journal :=
  match records with
  | [] => inr j
  | record :: records => match restore_record record j with
                         | inl e => inl e
                         | inr j => restore_records records j
                         end
  end.

Definition Restore (records : list Record_) (maxEntries : Z) : error + Journal :=
  match NewJournal maxEntries with
  | inl e => inl e
  | inr j => restore_records records j
  end.
End Journal.
End Journal.

(** * Operation journal: theorems

    The two indexes of the journal describe the same entries; a credential and an
    operation are bound to one decision until they expire; the durable records
    restore the journal. *)

Module JournalProofs.
Import EdgeErrors Journal.

Definition entry_ok (e : entry) : Prop :=
  en_operationID e ≠ "" ∧ en_jti e ≠ "" ∧ blen (en_decision e) ≤ maxDocumentBytes
  ∧ unixEpoch < en_retainUntil e ∧ blen (en_requestHash e) = 32.

Record journal_inv (j : Journal) : Prop := {
  ji_operation : ∀ id e, j_byOperation j !! id = Some e →
    en_operationID e = id ∧ j_byJTI j !! en_jti e = Some e ∧ entry_ok e;
  ji_jti : ∀ t e, j_byJTI j !! t = Some e →
    en_jti e = t ∧ j_byOperation j !! en_operationID e = Some e;
  ji_size : Len j ≤ j_maxEntries j
}.

Definition insert_entry (e : entry) (j : Journal) : Journal :=
  j <| j_byOperation := <[en_operationID e := e]> (j_byOperation j) |>
    <| j_byJTI := <[en_jti e := e]> (j_byJTI j) |>.

Lemma insert_inv e j :
  journal_inv j → entry_ok e → j_byOperation j !! en_operationID e = None →
  j_byJTI j !! en_jti e = None → Len j < j_maxEntries j → journal_inv (insert_entry e j).
Proof.
  intros [H1 H2 H3] Hok Ho Hj Hlt. constructor; cbn.
  - intros id q [[<- <-]|[? Hq]]%lookup_insert_Some.
    + rewrite lookup_insert_eq. done.
    + destruct (H1 _ _ Hq) as (? & Hqj & ?). split_and!; try done.
      rewrite lookup_insert_ne; [done|congruence].
  - intros t q [[<- <-]|[? Hq]]%lookup_insert_Some.
    + rewrite lookup_insert_eq. done.
    + destruct (H2 _ _ Hq) as (? & Hqo). split; [done|]. rewrite lookup_insert_ne; [done|congruence].
  - unfold Len in *. cbn. rewrite map_size_insert_None by done. lia.
Qed.

(** Removing one entry from both indexes. *)
Definition remove_entry (j : Journal) (kv : string * entry) : Journal :=
  j <| j_byOperation := delete kv.1 (j_byOperation j) |>
    <| j_byJTI := delete (en_jti kv.2) (j_byJTI j) |>.

Lemma remove_inv j id e :
  journal_inv j → j_byOperation j !! id = Some e → journal_inv (remove_entry j (id, e)).
Proof.
  intros [H1 H2 H3] He. destruct (H1 _ _ He) as (Eid & Ej & _).
  constructor; cbn.
  - intros i q [Hne Hq]%lookup_delete_Some. destruct (H1 _ _ Hq) as (Eq & Eqj & ?).
    split_and!; try done. rewrite lookup_delete_ne; [done|]. intros E.
    rewrite E, Eqj in Ej. congruence.
  - intros t q [Hne Hq]%lookup_delete_Some. destruct (H2 _ _ Hq) as (Eq & Eqo). split; [done|].
    rewrite lookup_delete_ne; [done|]. intros E. rewrite <- E in Eqo. congruence.
  - unfold Len in *. cbn. rewrite map_size_delete_Some by eauto. lia.
Qed.

Lemma remove_all l j :
  journal_inv j → NoDup l.*1 → (∀ id e, (id, e) ∈ l → j_byOperation j !! id = Some e) →
  journal_inv (foldl remove_entry j l) ∧ j_maxEntries (foldl remove_entry j l) = j_maxEntries j
  ∧ ∀ id, j_byOperation (foldl remove_entry j l) !! id
          = if decide (id ∈ l.*1) then None else j_byOperation j !! id.
Proof.
  revert j. induction l as [|[i e] l IH]; intros j Hi Hnd Hin; cbn.
  { split_and!; try done. }
  apply NoDup_cons in Hnd as [Hni Hnd].
  assert (j_byOperation j !! i = Some e) as He by (apply Hin; left).
  destruct (IH (remove_entry j (i, e))) as (H1 & H2 & H3); [by apply remove_inv|done| |].
  { intros id q Hq. cbn. rewrite lookup_delete_ne; [apply Hin; by right|].
    intros ->. apply Hni. apply list_elem_of_fmap. by exists (id, q). }
  split_and!; [done|done|]. intros id. rewrite H3. cbn.
  destruct (decide (id = i)) as [->|Hne].
  - rewrite lookup_delete_eq, (decide_True (P := i ∈ i :: _)) by left. by destruct (decide _).
  - rewrite lookup_delete_ne by done. apply decide_ext. rewrite elem_of_cons. tauto.
Qed.

Lemma RemoveExpired_spec now j :
  journal_inv j →
  let j' := (RemoveExpired now j).2 in
  journal_inv j' ∧ j_maxEntries j' = j_maxEntries j
  ∧ ∀ id, j_byOperation j' !! id
          = match j_byOperation j !! id with
            | Some e => if Before now (en_retainUntil e) then Some e else None
            | None => None
            end.
Proof.
  intros Hi. cbn.
  destruct (remove_all (expired_entries now j) j) as (H1 & H2 & H3); [done| | |].
  - apply NoDup_fmap_fst; [|apply NoDup_filter, NoDup_map_to_list].
    intros x y1 y2 [_ ?%elem_of_map_to_list]%list_elem_of_filter [_ ?%elem_of_map_to_list]%list_elem_of_filter.
    congruence.
  - intros id e [_ He]%list_elem_of_filter. by apply elem_of_map_to_list.
  - split_and!; [done|done|]. intros id. fold remove_entry. rewrite H3.
    assert (∀ e, (id, e) ∈ expired_entries now j ↔
                 j_byOperation j !! id = Some e ∧ Before now (en_retainUntil e) = false) as Hx.
    { intros e. unfold expired_entries. rewrite list_elem_of_filter, elem_of_map_to_list. cbn. tauto. }
    destruct (decide (id ∈ (expired_entries now j).*1)) as [Hin|Hni].
    + apply list_elem_of_fmap in Hin as ([i e] & -> & [-> ->]%Hx). done.
    + destruct (j_byOperation j !! id) as [e|] eqn:He; [|done].
      destruct (Before now (en_retainUntil e)) eqn:Hb; [done|]. exfalso. apply Hni.
      apply list_elem_of_fmap. exists (id, e). split; [done|]. by apply Hx.
Qed.

Section Journal.
Variable sha256 : bytes → bytes.
(** The length of the digest is documented. *)
Hypothesis sha256_length : ∀ b, blen (sha256 b) = 32.

(** Well-formed requests: what the guard of [Consume] lets pass. *)
Definition request_ok (now : Time) (request : Request) : Prop :=
  rq_OperationID request ≠ "" ∧ rq_JTI request ≠ "" ∧ 0 < blen (rq_Canonical request) ≤ maxDocumentBytes
  ∧ blen (rq_Decision request) ≤ maxDocumentBytes ∧ now < rq_RetainUntil request.

Lemma Consume_cases now request j :
  request_ok now request ∧
    Consume sha256 now request j =
    (let hash := sha256 (rq_Canonical request) in
     match j_byOperation j !! rq_OperationID request with
     | Some existing => (duplicate existing request hash, j)
     | None =>
       match j_byJTI j !! rq_JTI request with
       | Some existing => (duplicate existing request hash, j)
       | None =>
           if j_maxEntries j <=? Len j then (inl ErrFull, j)
           else let e := mkEntry (rq_OperationID request) (rq_JTI request) hash (rq_Decision request)
                           (rq_RetainUntil request) in
                (inr (mkOutcome (rq_Decision request) false), insert_entry e j)
       end
     end)
  ∨ ¬ request_ok now request ∧ Consume sha256 now request j = (inl ErrInvalid, j).
Proof.
  unfold Consume, request_ok, After. pose proof (blen_nonneg (rq_Canonical request)).
  destruct (_ || _) eqn:E.
  - right. split; [|done]. intros (G1 & G2 & G3 & G4 & G5). bools_or.
    repeat match goal with H : _ ∨ _ |- _ => destruct H; bools_or end; try done; lia.
  - left. bools. split_and!; try done; lia.
Qed.

Lemma Consume_inv now request j :
  journal_inv j → unixEpoch ≤ now → journal_inv (Consume sha256 now request j).2.
Proof.
  intros Hi Hnow. destruct (Consume_cases now request j) as [[(R1 & R2 & R3 & R4 & R5) ->]|[_ ->]]; [|done].
  cbn. destruct (j_byOperation j !! _) eqn:Ho; [done|]. destruct (j_byJTI j !! _) eqn:Hj; [done|].
  destruct (_ <=? _) eqn:Hf; bools; [done|]. cbn [snd]. apply insert_inv; try done.
  unfold entry_ok. cbn. split_and!; try done. lia.
Qed.

Inductive journal_step : Time → Journal → Journal → Prop :=
  | js_consume now request j :
      unixEpoch ≤ now → journal_step now j (Consume sha256 now request j).2
  | js_expire now j : journal_step now j (RemoveExpired now j).2.

Definition journal_run (j j' : Journal) : Prop := rtc (λ a b, ∃ now, journal_step now a b) j j'.

Lemma journal_step_inv now j j' : journal_step now j j' → journal_inv j → journal_inv j'.
Proof. intros [] Hi; [by apply Consume_inv|by apply RemoveExpired_spec]. Qed.

Lemma NewJournal_inv n j : NewJournal n = inr j → journal_inv j.
Proof.
  unfold NewJournal. intros H. destruct (_ <? _) eqn:E; [done|]. bools. simplify_eq.
  constructor; cbn; [done..|]. unfold Len. cbn. rewrite map_size_empty. lia.
Qed.

(** The two indexes of the journal agree in every reachable state: each
    operation is indexed by exactly one credential and each credential by exactly
    one operation, and the journal stays within its capacity. *)
Theorem journal_indexes_agree n j j' id e t :
  NewJournal n = inr j → journal_run j j' →
  Len j' ≤ j_maxEntries j'
  ∧ (j_byOperation j' !! id = Some e → en_operationID e = id ∧ j_byJTI j' !! en_jti e = Some e)
  ∧ (j_byJTI j' !! t = Some e → en_jti e = t ∧ j_byOperation j' !! en_operationID e = Some e).
Proof.
  intros Hn%NewJournal_inv Hr.
  assert (journal_inv j') as [H1 H2 H3].
  { induction Hr as [|j j1 j2 [now Hs] _ IH]; [done|]. apply IH. by eapply journal_step_inv. }
  split_and!; [done| |apply H2]. intros Hid. by destruct (H1 _ _ Hid) as (? & ? & _).
Qed.

(** ** Single use *)

(** Steps before [t]. *)
Definition step_before (t : Time) (j j' : Journal) : Prop := ∃ now, now < t ∧ journal_step now j j'.

Lemma entry_survives id e j j' :
  journal_inv j → rtc (step_before (en_retainUntil e)) j j' → j_byOperation j !! id = Some e →
  journal_inv j' ∧ j_byOperation j' !! id = Some e.
Proof.
  intros Hi Hr Hid. induction Hr as [|j j1 j2 (now & Hlt & Hs) _ IH]; [done|].
  apply IH; [by eapply journal_step_inv|]. destruct Hs as [now request j _|now j].
  - destruct (Consume_cases now request j) as [[_ ->]|[_ ->]]; [|done]. cbn.
    destruct (j_byOperation j !! rq_OperationID request) eqn:Ho; [done|].
    destruct (j_byJTI j !! _); [done|]. destruct (_ <=? _); [done|]. cbn.
    rewrite lookup_insert_ne; [done|congruence].
  - destruct (RemoveExpired_spec now j Hi) as (_ & _ & ->). rewrite Hid. unfold Before.
    by rewrite (proj2 (Z.ltb_lt _ _)).
Qed.

(** The answer to a request that reuses an operation or a credential of [e]. *)
Definition reuse (e : entry) (again : Request) : error + Outcome :=
  if (rq_OperationID again == en_operationID e) && (rq_JTI again == en_jti e)
     && (sha256 (rq_Canonical again) == en_requestHash e)
  then inr (mkOutcome (en_decision e) true) else inl ErrReplay.

Lemma Consume_again now again e j :
  journal_inv j → j_byOperation j !! en_operationID e = Some e → request_ok now again →
  rq_OperationID again = en_operationID e ∨ rq_JTI again = en_jti e →
  Consume sha256 now again j = (reuse e again, j).
Proof.
  intros Hi He Hok Hsame. destruct (ji_operation _ Hi _ _ He) as (_ & Hjti & _).
  destruct (Consume_cases now again j) as [[_ ->]|[? _]]; [|done].
  assert (duplicate e again (sha256 (rq_Canonical again)) = reuse e again) as Hdup.
  { unfold duplicate, reuse. repeat case_bool_decide; cbn; try done; congruence. }
  cbn. destruct (j_byOperation j !! rq_OperationID again) as [x|] eqn:Ho.
  - destruct (decide (rq_OperationID again = en_operationID e)) as [Eo|Hne].
    { rewrite Eo, He in Ho. injection Ho as <-. by rewrite Hdup. }
    destruct Hsame as [|Es]; [done|]. unfold reuse. rewrite bool_decide_false by done. cbn.
    unfold duplicate. destruct (ji_operation _ Hi _ _ Ho) as (Ex & Exj & _).
    rewrite (bool_decide_true (en_operationID x = _)) by done. cbn.
    rewrite (bool_decide_false (en_jti x = _)); [done|]. intros Eq.
    rewrite Eq, Es, Hjti in Exj. injection Exj as <-. by apply Hne.
  - destruct Hsame as [Es|Es]; [rewrite Es in Ho; congruence|].
    assert (j_byJTI j !! rq_JTI again = Some e) as -> by (by rewrite Es). by rewrite Hdup.
Qed.

(** The entry an accepted request is recorded as. *)
Definition entry_of (request : Request) : entry :=
  mkEntry (rq_OperationID request) (rq_JTI request) (sha256 (rq_Canonical request))
    (rq_Decision request) (rq_RetainUntil request).

Lemma Consume_fresh now request j outcome j1 :
  journal_inv j → unixEpoch ≤ now → j_byOperation j !! rq_OperationID request = None →
  Consume sha256 now request j = (inr outcome, j1) →
  journal_inv j1 ∧ j_byOperation j1 !! rq_OperationID request = Some (entry_of request)
  ∧ outcome = mkOutcome (rq_Decision request) false.
Proof.
  intros Hi Hnow Hnew Hc. pose proof (Consume_inv now request j Hi Hnow) as Hi1. rewrite Hc in Hi1.
  split; [done|]. destruct (Consume_cases now request j) as [[_ E]|[_ E]]; rewrite E in Hc; [|done].
  rewrite Hnew in Hc. cbn in Hc.
  destruct (j_byJTI j !! rq_JTI request) as [x|] eqn:Hj.
  { exfalso. destruct (ji_jti _ Hi _ _ Hj) as (_ & Hx). unfold duplicate in Hc.
    destruct (_ || _) eqn:Hd; [done|]. bools. congruence. }
  destruct (_ <=? _); [done|]. injection Hc as <- <-. split; [apply lookup_insert_eq|done].
Qed.

(** Operations and credentials are single use.  After a request is accepted,
    and whatever happens before its retention ends, a request that reuses its
    operation or its credential gets the recorded decision when it is the same
    request, is refused as a replay when it differs in any way, and never changes
    the journal. *)
Theorem credential_single_use j now request outcome j1 j2 now' again :
  journal_inv j → unixEpoch ≤ now → j_byOperation j !! rq_OperationID request = None →
  Consume sha256 now request j = (inr outcome, j1) →
  rtc (step_before (rq_RetainUntil request)) j1 j2 →
  request_ok now' again →
  rq_OperationID again = rq_OperationID request ∨ rq_JTI again = rq_JTI request →
  Consume sha256 now' again j2 =
    ((if (rq_OperationID again == rq_OperationID request) && (rq_JTI again == rq_JTI request)
         && (sha256 (rq_Canonical again) == sha256 (rq_Canonical request))
      then inr (mkOutcome (rq_Decision request) true) else inl ErrReplay), j2).
Proof.
  intros Hi Hnow Hnew Hc Hr Hok Hsame.
  destruct (Consume_fresh _ _ _ _ _ Hi Hnow Hnew Hc) as (Hi1 & He & _).
  destruct (entry_survives _ (entry_of request) _ _ Hi1 Hr He) as [Hi2 He2].
  by apply (Consume_again now' again (entry_of request)).
Qed.

(** ** Durable records *)

Lemma hex_digit_value n : 0 ≤ n < 16 → hex_value (hex_digit n) = Some n.
Proof.
  intros Hn. assert (n ∈ seqZ 0 16) as Hin by (apply elem_of_seqZ; lia). clear Hn.
  revert n Hin. rewrite <- Forall_forall. vm_compute. repeat constructor.
Qed.

Lemma unhex_hex b : unhex_bytes (hex_bytes b) = Some b.
Proof.
  induction b as [|x b IH]; [done|]. pose proof (byte_to_Z_range x) as Hx.
  change (hex_bytes (x :: b)) with
    (hex_digit (byte_to_Z x / 16) :: hex_digit (byte_to_Z x mod 16) :: hex_bytes b).
  cbn [unhex_bytes]. rewrite !hex_digit_value, IH.
  - rewrite <- Z.div_mod by done. by rewrite byte_of_to_Z.
  - by apply Z.mod_pos_bound.
  - split; [by apply Z.div_pos; lia|apply Z.div_lt_upper_bound; lia].
Qed.

Lemma Decode_Encode b : DecodeString (EncodeToString b) = Some b.
Proof. unfold DecodeString, EncodeToString. rewrite sbytes_bstring. apply unhex_hex. Qed.

Lemma insert_sorted_Permutation r l : insert_sorted r l ≡ₚ r :: l.
Proof.
  induction l as [|x l IH]; cbn; [done|]. destruct (String.ltb _ _); [|done].
  rewrite IH. apply Permutation_swap.
Qed.

Lemma sort_records_Permutation l : sort_records l ≡ₚ l.
Proof. induction l as [|r l IH]; cbn; [done|]. by rewrite insert_sorted_Permutation, IH. Qed.

Lemma restore_record_ok e j :
  entry_ok e → j_byOperation j !! en_operationID e = None → j_byJTI j !! en_jti e = None →
  Len j < j_maxEntries j → restore_record (record_of e) j = inr (insert_entry e j).
Proof.
  intros (E1 & E2 & E3 & E4 & E5) Ho Hj Hlt. unfold restore_record, record_of, After.
  cbn [rec_OperationID rec_JTI rec_RequestHash rec_Decision rec_RetainUntil].
  rewrite !bool_decide_false, Decode_Encode, E5, Ho, Hj by done.
  rewrite (proj2 (Z.ltb_ge _ _)), (proj2 (Z.ltb_lt unixEpoch _)) by done.
  cbn [orb negb nonnil Z.eqb Pos.eqb].
  unfold Len in Hlt. rewrite (proj2 (Z.leb_gt _ _)) by done. by destruct e.
Qed.


Lemma restore_entries es j0 :
  Forall entry_ok es → NoDup (en_operationID <$> es) → NoDup (en_jti <$> es) →
  (∀ e, e ∈ es → j_byOperation j0 !! en_operationID e = None ∧ j_byJTI j0 !! en_jti e = None) →
  Len j0 + Z.of_nat (length es) ≤ j_maxEntries j0 →
  ∃ j1, restore_records (record_of <$> es) j0 = inr j1 ∧ j_maxEntries j1 = j_maxEntries j0
    ∧ (∀ id e, j_byOperation j1 !! id = Some e ↔
               j_byOperation j0 !! id = Some e ∨ e ∈ es ∧ en_operationID e = id)
    ∧ (∀ t e, j_byJTI j1 !! t = Some e ↔ j_byJTI j0 !! t = Some e ∨ e ∈ es ∧ en_jti e = t).
Proof.
  revert j0. induction es as [|e es IH]; intros j0 Hok Ho Ht Hnew Hlen.
  { exists j0. split_and!; try done; intros; split; auto; intros [?|[?%elem_of_nil ?]]; done. }
  apply Forall_cons in Hok as [Hok1 Hok]. rewrite fmap_cons in Ho, Ht.
  apply NoDup_cons in Ho as [Hno Ho]. apply NoDup_cons in Ht as [Hnt Ht]. cbn in Hlen.
  destruct (Hnew e) as [N1 N2]; [left|].
  rewrite fmap_cons. cbn. rewrite restore_record_ok by (done || lia).
  destruct (IH (insert_entry e j0)) as (j1 & E & Em & E1 & E2); try done.
  - intros x Hx. destruct (Hnew x) as [X1 X2]; [by right|]. cbn. split.
    + rewrite lookup_insert_ne; [done|]. intros Eq. apply Hno. rewrite Eq.
      by apply list_elem_of_fmap_2.
    + rewrite lookup_insert_ne; [done|]. intros Eq. apply Hnt. rewrite Eq.
      by apply list_elem_of_fmap_2.
  - unfold Len in *. cbn. rewrite map_size_insert_None by done. lia.
  - exists j1. split_and!; try done.
    + intros id x. rewrite E1. cbn. rewrite lookup_insert_Some, elem_of_cons. split; [naive_solver|].
      intros [Hx|[[->|?] ?]]; [left; right; split; [congruence|done]|auto..].
    + intros t x. rewrite E2. cbn. rewrite lookup_insert_Some, elem_of_cons. split; [naive_solver|].
      intros [Hx|[[->|?] ?]]; [left; right; split; [congruence|done]|auto..].
Qed.

(** The journal survives a restart: restoring its durable records with the
    same capacity yields the same entries under the same operations and the same
    credentials. *)
Theorem journal_restores j :
  journal_inv j → 1 ≤ j_maxEntries j →
  Restore (Snapshot j) (j_maxEntries j) = inr j.
Proof.
  intros [H1 H2 H3] Hmax. unfold Restore, NewJournal. rewrite (proj2 (Z.ltb_ge _ _)) by lia.
  set (es := (map_to_list (j_byOperation j)).*2).
  assert (Snapshot j ≡ₚ record_of <$> es) as Hperm.
  { unfold Snapshot, es. rewrite sort_records_Permutation, <- list_fmap_compose. done. }
  apply Permutation_map_inv in Hperm as (es' & -> & Hp).
  assert (∀ e, e ∈ es' ↔ j_byOperation j !! en_operationID e = Some e) as Hes.
  { intros e. rewrite <- Hp. unfold es. rewrite list_elem_of_fmap. split.
    - intros ([i x] & -> & Hx%elem_of_map_to_list). cbn. by destruct (H1 _ _ Hx) as (-> & _).
    - intros Hx. exists (en_operationID e, e). by rewrite elem_of_map_to_list. }
  assert (NoDup es') as Hnd.
  { rewrite <- Hp. unfold es. eapply NoDup_fmap_1. rewrite <- list_fmap_compose.
    erewrite list_fmap_ext; [apply (NoDup_fst_map_to_list (j_byOperation j))|].
    intros i [k x] Hx. apply list_elem_of_lookup_2, elem_of_map_to_list in Hx. cbn.
    instantiate (1 := en_operationID). by destruct (H1 _ _ Hx) as (-> & _). }
  destruct (restore_entries es' (mkJournal (j_maxEntries j) ∅ ∅)) as (j1 & E & Em & E1 & E2).
  - apply Forall_forall. intros e He%Hes. by apply (H1 _ _ He).
  - apply NoDup_fmap_2_strong; [|done]. intros x y Hx%Hes Hy%Hes Exy. congruence.
  - apply NoDup_fmap_2_strong; [|done]. intros x y Hx%Hes Hy%Hes Exy.
    destruct (H1 _ _ Hx) as (_ & Jx & _), (H1 _ _ Hy) as (_ & Jy & _). congruence.
  - intros. split; apply lookup_empty.
  - cbn. unfold Len in *. cbn. rewrite map_size_empty. rewrite <- (Permutation_length Hp). unfold es.
    rewrite length_fmap, length_map_to_list. lia.
  - etrans; [exact E|]. f_equal. destruct j as [mx bo bj], j1 as [mx1 bo1 bj1]. cbn in *.
    f_equal; [done|apply map_eq; intros k; apply option_eq; intros x..].
    + rewrite E1, lookup_empty, Hes. split.
      * intros [?|[? <-]]; done.
      * intros Hx. right. destruct (H1 _ _ Hx) as (<- & _). done.
    + rewrite E2, lookup_empty, Hes. split.
      * intros [?|[Hx <-]]; [done|]. by destruct (H1 _ _ Hx) as (_ & ? & _).
      * intros Hx. right. destruct (H2 _ _ Hx) as (<- & ?). done.
Qed.
End Journal.

(** ** A concrete journal *)

Definition flat_sha (b : bytes) : bytes := replicate 32 (match b with x :: _ => x | [] => x00 end).

Lemma flat_sha_length b : blen (flat_sha b) = 32.
Proof. reflexivity. Qed.

Definition epoch2 : Time := unixEpoch + Hour.
Definition request0 : Request := mkRequest "op" "jti" [x01] [x02] (epoch2 + Hour).
Definition journal0 : Journal := mkJournal 8 ∅ ∅.
Definition journal1 : Journal := (Consume flat_sha epoch2 request0 journal0).2.

Lemma run_journal1 : journal_run flat_sha journal0 journal1.
Proof.
  apply rtc_once. exists epoch2. apply (js_consume flat_sha epoch2 request0). vm_compute. discriminate.
Qed.

Definition entry0 : entry := mkEntry "op" "jti" (flat_sha [x01]) [x02] (epoch2 + Hour).

Lemma journal_indexes_agree_witness :
  Len journal1 ≤ j_maxEntries journal1
  ∧ (j_byOperation journal1 !! "op" = Some entry0 →
     en_operationID entry0 = "op" ∧ j_byJTI journal1 !! en_jti entry0 = Some entry0)
  ∧ (j_byJTI journal1 !! "jti" = Some entry0 →
     en_jti entry0 = "jti" ∧ j_byOperation journal1 !! en_operationID entry0 = Some entry0).
Proof.
  apply (journal_indexes_agree flat_sha flat_sha_length 8 journal0 journal1 "op" entry0 "jti");
    [reflexivity|apply run_journal1].
Defined.

Lemma journal0_inv : journal_inv journal0.
Proof. by apply (NewJournal_inv 8). Qed.

Lemma journal1_inv : journal_inv journal1.
Proof. apply (Consume_inv flat_sha flat_sha_length); [apply journal0_inv|vm_compute; discriminate]. Qed.

(** The same credential for another operation. *)
Definition again0 : Request := mkRequest "other" "jti" [x01] [x03] (epoch2 + Hour).

Lemma credential_single_use_witness :
  Consume flat_sha (epoch2 + Minute) again0 journal1 = (inl ErrReplay, journal1).
Proof.
  apply (credential_single_use flat_sha flat_sha_length journal0 epoch2 request0
           (mkOutcome [x02] false) journal1 journal1 (epoch2 + Minute) again0).
  - apply journal0_inv.
  - vm_compute. discriminate.
  - reflexivity.
  - vm_compute. reflexivity.
  - apply rtc_refl.
  - unfold request_ok. vm_compute. split_and!; try discriminate; reflexivity.
  - right. reflexivity.
Defined.

Lemma journal_restores_witness : Restore (Snapshot journal1) 8 = inr journal1.
Proof. apply (journal_restores journal1); [apply journal1_inv|vm_compute; discriminate]. Defined.
End JournalProofs.
