(* ===== verification/Admission.v ===== *)
(** * Connector admission

    Models [internal/admission/admission.go] and [runid.go]: a verified credential
    is checked against the request, the current control state and the offered
    routes, and its decision is bound to the journal.  The verifier's and the
    authorizer's answers are arguments; JSON encodings and the conversion of a
    host name by [strings.ToLower] and [idna.Lookup.ToASCII] are parameters. *)
From S2P Require Import Prelude Go Journal.

Module Admission.
Import EdgeErrors Journal JournalProofs.

Definition audience : string := "paperboat-edge".

(** [^[a-z][a-z0-9_-]{0,127}$]. *)
Definition idPattern (s : string) : bool :=
  match sbytes s with
  | [] => false
  | c :: rest => is_lower c && (Z.of_nat (length rest) <=? 127)
                 && forallb (λ b, is_lower b || is_digit b || one_of [95; 45] b) rest
  end.

Record Claims := mkClaims {
  cl_KeyID : string;
  cl_Issuer : string;
  cl_Audience : string;
  cl_JTI : string;
  cl_CredentialClass : string;
  cl_Scopes : list string;
  cl_EnvironmentID : string;
  cl_MachineID : string;
  cl_InstallationGeneration : Z;
  cl_HelperID : string;
  cl_ConnectorID : string;
  cl_ConnectorGeneration : Z;
  cl_EdgePool : string;
  cl_EdgeNodeID : string;
  cl_RouteBinding : string;
  cl_ExpiresAt : Time;
  cl_Revoked : bool
}.

Record Route := mkRoute {
  rt_RouteID : string;
  rt_Revision : Z;
  rt_Kind : string;
  rt_PublicHost : string;
  rt_ProxyName : string;
  rt_TargetHost : string;
  rt_TargetPort : Z
}.

Record AdmitRequest := mkAdmitRequest {
  ar_OperationID : string;
  ar_Credential : string;
  ar_Environment : string;
  ar_Machine : string;
  ar_Connector : string;
  ar_Generation : Z;
  ar_EdgePool : string;
  ar_EdgeNode : string;
  ar_Routes : list Route
}.

Record RunID := mkRunID {
  ri_Value : string;
  ri_Generation : Z;
  ri_ExpiresAt : Time;
  ri_Revoked : bool
}.

Record Response := mkResponse {
  rs_RunID : RunID;
  rs_Environment : string;
  rs_Machine : string;
  rs_Connector : string;
  rs_Generation : Z;
  rs_EdgeNode : string;
  rs_Routes : list Route;
  rs_RouteBinding : string
}.

Record Current := mkCurrent {
  cu_Generation : Z;
  cu_EdgePool : string;
  cu_EdgeNode : string;
  cu_Revoked : bool
}.

Definition fresh : string := "request a fresh admission".
Definition invalid (message : string) : error := New "credential_binding_invalid" message fresh.
Definition revoked : error := New "credential_revoked" "admission is revoked" fresh.

Definition validateClaims (c : Claims) (r : AdmitRequest) (issuer : string) (now : Time) : option error :=
  if (cl_Issuer c != issuer) || (cl_Audience c != audience)
     || (cl_CredentialClass c != "connector_admission") || (cl_Scopes c != ["connector:admit"])
     || (cl_JTI c == "")
  then Some (invalid "credential claims are not valid")
  else if cl_Revoked c then Some revoked
  else if negb (After (cl_ExpiresAt c) now)
  then Some (New "credential_expired" "credential is expired" fresh)
  else if (cl_EnvironmentID c != ar_Environment r) || (cl_MachineID c != ar_Machine r)
     || (cl_ConnectorID c != ar_Connector r) || negb (cl_ConnectorGeneration c =? ar_Generation r)
     || (cl_EdgePool c != ar_EdgePool r) || (cl_EdgeNodeID c != ar_EdgeNode r)
  then Some (invalid "credential binding is invalid")
  else None.

(** [RunID.Resume]. *)
Definition Resume (r : RunID) (value : string) (generation : Z) (now : Time) : option error :=
  if (ri_Value r == "") || (generation =? 0) || (ri_Generation r =? 0)
  then Some (New "run_id_invalid" "run ID is invalid" fresh)
  else if ri_Revoked r then Some (New "run_id_revoked" "run ID is revoked" fresh)
  else if negb (After (ri_ExpiresAt r) now) then Some (New "run_id_expired" "run ID is expired" fresh)
  else if negb (generation =? ri_Generation r) || (value != ri_Value r)
  then Some (New "run_id_mismatch" "run ID does not match the admitted generation" fresh)
  else None.

(** [NewRunID]; [random] answers [rand.Read] with the encoded value. *)
Definition NewRunID (clock : Time) (random : error + string) (generation : Z) (expiresAt : Time)
    : error + RunID :=
  if (generation =? 0) || negb (After expiresAt clock)
  then inl (New "run_id_invalid" "run ID parameters are invalid" fresh)
  else match random with
  | inl e => inl (Wrap "run_id_invalid" "run ID entropy unavailable" "retry admission" e)
  | inr value => inr (mkRunID value generation expiresAt false)
  end.

Section Admission.
Variable lookup_ascii : string → option string.   (** [idna.Lookup.ToASCII (strings.ToLower s)] *)
Variable isIP : string → bool.                    (** [net.ParseIP s != nil] *)
Variable sha256 : bytes → bytes.
Variable marshalRequest : AdmitRequest → bytes.
Variable marshalResponse : Response → bytes.
Variable decodeResponse : bytes → option Response. (** [strictjson.Decode] *)

(** [strings.TrimSuffix(value, ".")]. *)
Definition trim_dot (s : string) : string :=
  match rev (sbytes s) with
  | c :: rest => if byte_to_Z c =? 46 then bstring (rev rest) else s
  | [] => s
  end.

Definition label_ok (label : string) : bool :=
  match sbytes label with
  | [] => false
  | c :: _ => (len label <=? 63) && negb (byte_to_Z c =? 45)
              && negb (byte_to_Z (List.last (sbytes label) x00) =? 45)
              && forallb (λ b, is_lower b || is_digit b || one_of [45] b) (sbytes label)
  end.

(** Two adjacent dots. *)
Fixpoint has_dotdot (b : bytes) : bool :=
  match b with
  | x :: (y :: _) as b' => (byte_to_Z x =? 46) && (byte_to_Z y =? 46) || has_dotdot b'
  | _ => false
  end.

Definition normalizePublicHost (value : string) : option string :=
  if (value == "") || (253 <? len value) || has_outer_space value
     || ContainsAny value [47; 58; 64; 91; 93; 63; 35; 13; 10; 0] || ContainsAny value [95]
  then None
  else match lookup_ascii (trim_dot value) with
  | None => None
  | Some ascii =>
      if (ascii == "") || (253 <? len ascii) || isIP ascii || has_dotdot (sbytes ascii) then None
      else if forallb label_ok (Split ascii 46) then Some ascii else None
  end.

Definition validPublicHost (value : string) : bool := nonnil (normalizePublicHost value).

Definition route_shape (route : Route) : bool :=
  idPattern (rt_RouteID route) && idPattern (rt_ProxyName route) && negb (rt_Revision route =? 0)
  && ((rt_Kind route == "runtime_https_wss") || (rt_Kind route == "preview_public_https_wss"))
  && negb (rt_TargetPort route =? 0)
  && ((rt_TargetHost route == "127.0.0.1") || (rt_TargetHost route == "::1")).

(** The loop of [validateRoutes] with its three sets. *)
Fixpoint validate_each (routes : list Route) (seenHosts seenIDs seenProxies : gset string) : option error :=
  match routes with
  | [] => None
  | route :: routes =>
      if negb (route_shape route) || bool_decide (rt_RouteID route ∈ seenIDs)
         || bool_decide (rt_ProxyName route ∈ seenProxies) || negb (validPublicHost (rt_PublicHost route))
      then Some (invalid "route handoff is invalid")
      else match normalizePublicHost (rt_PublicHost route) with
      | None => Some (invalid "route handoff is invalid")
      | Some host =>
          if bool_decide (host ∈ seenHosts) then Some (invalid "route handoff is invalid")
          else validate_each routes ({[host]} ∪ seenHosts) ({[rt_RouteID route]} ∪ seenIDs)
                 ({[rt_ProxyName route]} ∪ seenProxies)
      end
  end.

Definition validateRoutes (routes : list Route) : option error :=
  if (Z.of_nat (length routes) =? 0) || (128 <? Z.of_nat (length routes))
  then Some (invalid "route handoff is invalid")
  else validate_each routes ∅ ∅ ∅.

(** [Admit].  [verified] and [current] answer the verifier and the authorizer,
    [newRunID] the generator. *)
Definition Admit (issuer : string) (now : Time) (verified : error + Claims) (current : error + Current)
    (newRunID : Z → Time → error + RunID) (request : AdmitRequest) (j : Journal)
    : (error + Response) * Journal :=
  if (issuer == "") || (ar_OperationID request == "") then (inl (invalid "admission request is invalid"), j)
  else match verified with
  | inl e => (inl (match CodeOf e with
                   | Some _ => e
                   | None => Wrap "credential_invalid" "credential verification failed" fresh e
                   end), j)
  | inr claims =>
  match validateClaims claims request issuer now with
  | Some e => (inl e, j)
  | None =>
  match current with
  | inl e => (inl (Wrap "credential_invalid" "admission state unavailable"
                     "retry after control state recovers" e), j)
  | inr current =>
  if cu_Revoked current then (inl revoked, j)
  else if negb (cu_Generation current =? ar_Generation request)
          || negb (cl_ConnectorGeneration claims =? cu_Generation current)
  then (inl (New "connector_generation_stale" "connector generation is stale" fresh), j)
  else if (cu_EdgePool current != ar_EdgePool request) || (cu_EdgeNode current != ar_EdgeNode request)
  then (inl (invalid "admission node binding is invalid"), j)
  else match validateRoutes (ar_Routes request) with
  | Some e => (inl e, j)
  | None =>
  match newRunID (ar_Generation request) (cl_ExpiresAt claims) with
  | inl e => (inl e, j)
  | inr runID =>
  let decision := marshalResponse (mkResponse runID (ar_Environment request) (ar_Machine request)
                    (ar_Connector request) (ar_Generation request) (ar_EdgeNode request)
                    (ar_Routes request) (cl_RouteBinding claims)) in
  match Consume sha256 now (mkRequest (ar_OperationID request) (cl_JTI claims) (marshalRequest request)
                              decision (cl_ExpiresAt claims + Minute)) j with
  | (inl e, j) => (inl e, j)
  | (inr outcome, j) =>
      match decodeResponse (oc_Decision outcome) with
      | None => (inl (Foreign "journal decision is corrupt" None), j)
      | Some response => (inr response, j)
      end
  end end end end end end.
End Admission.
End Admission.

(** * Connector admission: theorems

    What an admitted request was checked for, that a retry gets the original
    answer, and that a credential admits one request. *)

Module AdmissionProofs.
Import EdgeErrors Journal JournalProofs Admission.

Section Admission.
Variable lookup_ascii : string → option string.
Variable isIP : string → bool.

Abbreviation normalize := (normalizePublicHost lookup_ascii isIP).

(** Acceptable route lists: well-formed routes with distinct identifiers, proxy
    names and normalised hosts. *)
Definition routes_ok (routes : list Route) : Prop :=
  1 ≤ Z.of_nat (length routes) ≤ 128
  ∧ Forall (λ r, route_shape r = true ∧ is_Some (normalize (rt_PublicHost r))) routes
  ∧ NoDup (rt_RouteID <$> routes) ∧ NoDup (rt_ProxyName <$> routes)
  ∧ NoDup ((λ r, normalize (rt_PublicHost r)) <$> routes).

Lemma validate_each_None routes hosts ids proxies :
  validate_each lookup_ascii isIP routes hosts ids proxies = None ↔
  Forall (λ r, route_shape r = true ∧ is_Some (normalize (rt_PublicHost r))) routes
  ∧ NoDup (rt_RouteID <$> routes) ∧ NoDup (rt_ProxyName <$> routes)
  ∧ NoDup ((λ r, normalize (rt_PublicHost r)) <$> routes)
  ∧ (∀ r, r ∈ routes → (rt_RouteID r ∉ ids) ∧ (rt_ProxyName r ∉ proxies)
          ∧ ∀ h, normalize (rt_PublicHost r) = Some h → h ∉ hosts).
Proof.
  revert hosts ids proxies. induction routes as [|r routes IH]; intros hosts ids proxies.
  { cbn. split; [|done]. intros _. split_and!; [constructor|apply NoDup_nil_2..|].
    intros r Hr. by apply elem_of_nil in Hr. }
  cbn [validate_each]. unfold validPublicHost.
  rewrite !fmap_cons, !NoDup_cons, Forall_cons.
  destruct (route_shape r) eqn:Hs; cbn [negb orb].
  2: { split; [done|]. intros ([[? _] _] & _). done. }
  case_bool_decide as Hid; cbn [orb].
  { split; [done|]. intros (_ & _ & _ & _ & H). destruct (H r) as [? _]; [left|done]. }
  case_bool_decide as Hpx; cbn [orb].
  { split; [done|]. intros (_ & _ & _ & _ & H). destruct (H r) as (_ & ? & _); [left|done]. }
  destruct (normalize (rt_PublicHost r)) as [h|] eqn:Hh; cbn [nonnil negb].
  2: { split; [done|]. intros ([[_ [? ?]] _] & _). done. }
  case_bool_decide as Hho.
  { split; [done|]. intros (_ & _ & _ & _ & H). destruct (H r) as (_ & _ & Hx); [left|].
    by destruct (Hx h). }
  rewrite IH. clear IH. split.
  - intros (H1 & H2 & H3 & H4 & H5). split_and!; try done.
    + intros (x & Ex & Hx)%list_elem_of_fmap. destruct (H5 x Hx) as [Hn _]. set_solver.
    + intros (x & Ex & Hx)%list_elem_of_fmap. destruct (H5 x Hx) as (_ & Hn & _). set_solver.
    + intros (x & Ex & Hx)%list_elem_of_fmap. destruct (H5 x Hx) as (_ & _ & Hn).
      symmetry in Ex. specialize (Hn h Ex). set_solver.
    + intros x [->|Hx]%elem_of_cons.
      * split_and!; try done. intros h' E'. congruence.
      * destruct (H5 x Hx) as (N1 & N2 & N3). split_and!; [set_solver|set_solver|].
        intros h' E'. specialize (N3 h' E'). set_solver.
  - intros ([_ H1] & [N1 H2] & [N2 H3] & [N3 H4] & H5). split_and!; try done.
    intros x Hx. destruct (H5 x) as (M1 & M2 & M3); [by right|]. split_and!.
    + intros [E%elem_of_singleton|?]%elem_of_union; [|done]. apply N1. rewrite <- E.
      by apply list_elem_of_fmap_2.
    + intros [E%elem_of_singleton|?]%elem_of_union; [|done]. apply N2. rewrite <- E.
      by apply list_elem_of_fmap_2.
    + intros h' E' [E%elem_of_singleton|?]%elem_of_union; [|by apply (M3 h')]. subst h'.
      apply N3. rewrite <- E'. by apply (list_elem_of_fmap_2 (λ r, normalize (rt_PublicHost r))).
Qed.

Lemma validateRoutes_None routes :
  validateRoutes lookup_ascii isIP routes = None ↔ routes_ok routes.
Proof.
  unfold validateRoutes, routes_ok. destruct (_ || _) eqn:E.
  - split; [done|]. intros [? _]. bools_or. destruct E; bools; lia.
  - bools. rewrite validate_each_None. split.
    + intros (? & ? & ? & ? & _). split_and!; try done; lia.
    + intros (_ & ? & ? & ? & ?). by split_and!.
Qed.

(** ** Admission *)

Variable sha256 : bytes → bytes.
Hypothesis sha256_length : ∀ b, blen (sha256 b) = 32.
Variable marshalRequest : AdmitRequest → bytes.
Variable marshalResponse : Response → bytes.
Variable decodeResponse : bytes → option Response.

Abbreviation admission :=
  (Admit lookup_ascii isIP sha256 marshalRequest marshalResponse decodeResponse).

(** What the checks before the journal establish. *)
Record authorised (issuer : string) (now : Time) (c : Claims) (cu : Current) (r : AdmitRequest) : Prop := {
  au_issuer : cl_Issuer c = issuer ∧ cl_Audience c = audience;
  au_class : cl_CredentialClass c = "connector_admission" ∧ cl_Scopes c = ["connector:admit"];
  au_live : cl_Revoked c = false ∧ cu_Revoked cu = false ∧ now < cl_ExpiresAt c;
  au_subject : cl_EnvironmentID c = ar_Environment r ∧ cl_MachineID c = ar_Machine r
               ∧ cl_ConnectorID c = ar_Connector r;
  au_generation : cl_ConnectorGeneration c = ar_Generation r ∧ cu_Generation cu = ar_Generation r;
  au_node : cl_EdgePool c = ar_EdgePool r ∧ cl_EdgeNodeID c = ar_EdgeNode r
            ∧ cu_EdgePool cu = ar_EdgePool r ∧ cu_EdgeNode cu = ar_EdgeNode r;
  au_routes : routes_ok (ar_Routes r)
}.

Lemma validateClaims_None c r issuer now :
  validateClaims c r issuer now = None →
  cl_Issuer c = issuer ∧ cl_Audience c = audience ∧ cl_CredentialClass c = "connector_admission"
  ∧ cl_Scopes c = ["connector:admit"] ∧ cl_JTI c ≠ "" ∧ cl_Revoked c = false ∧ now < cl_ExpiresAt c
  ∧ cl_EnvironmentID c = ar_Environment r ∧ cl_MachineID c = ar_Machine r
  ∧ cl_ConnectorID c = ar_Connector r ∧ cl_ConnectorGeneration c = ar_Generation r
  ∧ cl_EdgePool c = ar_EdgePool r ∧ cl_EdgeNodeID c = ar_EdgeNode r.
Proof. unfold validateClaims, After. intros H. cases; bools; split_and!; done. Qed.

(** The journal request of an admission. *)
Definition journal_request (c : Claims) (r : AdmitRequest) (runID : RunID) : Request :=
  mkRequest (ar_OperationID r) (cl_JTI c) (marshalRequest r)
    (marshalResponse (mkResponse runID (ar_Environment r) (ar_Machine r) (ar_Connector r)
       (ar_Generation r) (ar_EdgeNode r) (ar_Routes r) (cl_RouteBinding c)))
    (cl_ExpiresAt c + Minute).

(** A successful admission, taken apart. *)
Lemma Admit_inr issuer now verified current newRunID request j response j' :
  admission issuer now verified current newRunID request j = (inr response, j') →
  ∃ claims cu runID outcome, verified = inr claims ∧ current = inr cu
    ∧ newRunID (ar_Generation request) (cl_ExpiresAt claims) = inr runID
    ∧ authorised issuer now claims cu request
    ∧ Consume sha256 now (journal_request claims request runID) j = (inr outcome, j')
    ∧ decodeResponse (oc_Decision outcome) = Some response.
Proof.
  unfold Admit. destruct (_ || _); [done|]. destruct verified as [e|claims]; [done|].
  destruct (validateClaims _ _ _ _) eqn:Hv; [done|]. destruct current as [e|cu]; [done|].
  destruct (cu_Revoked cu) eqn:Hr; [done|]. destruct (_ || _) eqn:Hg; [done|].
  match goal with |- context [if ?b then _ else _] => destruct b eqn:Hn end; [done|].
  destruct (validateRoutes _ _ _) eqn:Hroutes; [done|].
  destruct (newRunID _ _) as [e|runID] eqn:Hrun; [done|].
  fold (journal_request claims request runID).
  destruct (Consume _ _ _ _) as [[e|outcome] j1] eqn:Hc; [done|].
  destruct (decodeResponse _) as [resp|] eqn:Hd; [|done]. intros [= <- <-].
  exists claims, cu, runID, outcome. split_and!; try done.
  apply validateClaims_None in Hv as (V1 & V2 & V3 & V4 & V5 & V6 & V7 & V8 & V9 & V10 & V11 & V12 & V13).
  apply validateRoutes_None in Hroutes. bools. constructor; split_and!; try done; try congruence.
  all: by apply Hroutes || done.
Qed.

(** Only authorised connectors are admitted: a successful admission was made
    with a verified, unexpired and unrevoked connector-admission credential of the
    configured issuer, for exactly the requested environment, machine, connector,
    generation and node, which the control state confirms, and for a route list
    without duplicate identifiers, proxies or hosts. *)
Theorem admitted_is_authorised issuer now verified current newRunID request j response j' :
  admission issuer now verified current newRunID request j = (inr response, j') →
  ∃ claims cu, verified = inr claims ∧ current = inr cu ∧ authorised issuer now claims cu request.
Proof. intros (claims & cu & _ & _ & ? & ? & _ & ? & _)%Admit_inr. eauto. Qed.

(** The checks before the journal pass for an authorised request. *)
Lemma Admit_authorised issuer now claims cu newRunID request runID j :
  issuer ≠ "" → ar_OperationID request ≠ "" → cl_JTI claims ≠ "" →
  authorised issuer now claims cu request →
  newRunID (ar_Generation request) (cl_ExpiresAt claims) = inr runID →
  admission issuer now (inr claims) (inr cu) newRunID request j =
    match Consume sha256 now (journal_request claims request runID) j with
    | (inl e, j) => (inl e, j)
    | (inr outcome, j) => match decodeResponse (oc_Decision outcome) with
                          | None => (inl (Foreign "journal decision is corrupt" None), j)
                          | Some response => (inr response, j)
                          end
    end.
Proof.
  intros Hi Ho Hj [[I1 I2] [C1 C2] (L1 & L2 & L3) (S1 & S2 & S3) [G1 G2] (N1 & N2 & N3 & N4) HR] Hrun.
  unfold Admit. rewrite !bool_decide_false by done. cbn [orb].
  assert (validateClaims claims request issuer now = None) as ->.
  { unfold validateClaims, After. rewrite I1, I2, C1, C2, L1, S1, S2, S3, G1, N1, N2.
    rewrite Z.eqb_refl, (proj2 (Z.ltb_lt _ _)) by done.
    rewrite (bool_decide_false (cl_JTI claims = "")) by done.
    by repeat (rewrite bool_decide_true by done). }
  rewrite L2, G2, N3, N4, G1, Z.eqb_refl. repeat (rewrite bool_decide_true by done). cbn [negb orb].
  apply validateRoutes_None in HR as ->. by rewrite Hrun.
Qed.

Lemma Admit_nonempty issuer now verified current newRunID request j response j' :
  admission issuer now verified current newRunID request j = (inr response, j') → issuer ≠ "".
Proof. unfold Admit. destruct (_ || _) eqn:E; [done|]. by bools. Qed.

(** C9. An operation and a credential admission one request.  After an admission, and
    whatever the journal does before the credential's retention ends, an authorised
    request that reuses the operation or the credential gets the original response
    when it is the same request, whatever run identifier was drawn for the retry,
    is refused as a replay otherwise, and leaves the journal alone. *)
Theorem admission_single_use issuer now claims current newRunID request j response j1
    j2 now' claims' cu' newRunID' request' runID' :
  journal_inv j → unixEpoch ≤ now → j_byOperation j !! ar_OperationID request = None →
  admission issuer now (inr claims) current newRunID request j = (inr response, j1) →
  rtc (step_before sha256 (cl_ExpiresAt claims + Minute)) j1 j2 →
  authorised issuer now' claims' cu' request' →
  newRunID' (ar_Generation request') (cl_ExpiresAt claims') = inr runID' →
  request_ok now' (journal_request claims' request' runID') →
  ar_OperationID request' = ar_OperationID request ∨ cl_JTI claims' = cl_JTI claims →
  admission issuer now' (inr claims') (inr cu') newRunID' request' j2 =
    (if (ar_OperationID request' == ar_OperationID request) && (cl_JTI claims' == cl_JTI claims)
        && (sha256 (marshalRequest request') == sha256 (marshalRequest request))
     then inr response else inl ErrReplay, j2).
Proof.
  intros Hi Hnow Hnew Ha Hr Hau Hrun Hok Hsame. pose proof (Admit_nonempty _ _ _ _ _ _ _ _ _ Ha) as Hne.
  apply Admit_inr in Ha as (c & cu & runID & outcome & [= <-] & -> & _ & _ & Hc & Hd).
  destruct (Consume_fresh sha256 sha256_length _ (journal_request claims request runID) _ _ _ Hi Hnow Hnew Hc) as (Hi1 & He & ->).
  destruct (entry_survives sha256 sha256_length _
              (entry_of sha256 (journal_request claims request runID)) _ _ Hi1 Hr He) as [Hi2 He2].
  rewrite (Admit_authorised _ _ _ _ _ _ runID') by (done || apply Hok).
  rewrite (Consume_again sha256 now' _ (entry_of sha256 (journal_request claims request runID)))
    by done.
  unfold reuse. cbn in *. by destruct (_ && _); [cbn; rewrite Hd|].
Qed.
End Admission.

(** ** Witnesses *)

Definition host0 (s : string) : option string := if s == "" then None else Some s.
Definition never (s : string) : bool := false.
Definition connector0 : AdmitRequest :=
  mkAdmitRequest "op" "token" "env" "machine" "connector" 3 "pool" "node"
    [mkRoute "route" 1 "runtime_https_wss" "app.example.com" "proxy" "127.0.0.1" 8080].
Definition other0 : AdmitRequest :=
  mkAdmitRequest "other" "token" "env" "machine" "connector" 3 "pool" "node"
    [mkRoute "route" 1 "runtime_https_wss" "app.example.com" "proxy" "127.0.0.1" 8081].
Definition claims0 : Claims :=
  mkClaims "key" "issuer" audience "jti" "connector_admission" ["connector:admit"] "env" "machine" 1
    "helper" "connector" 3 "pool" "node" "binding" (epoch2 + Hour) false.
Definition current0 : Current := mkCurrent 3 "pool" "node" false.
Definition run0 (value : string) (generation : Z) (expires : Time) : error + RunID :=
  NewRunID epoch2 (inr value) generation expires.

(** A toy encoding that carries the operation and the run identifier. *)
Definition marshal0 (r : AdmitRequest) : bytes := sbytes (ar_OperationID r).
Definition response0 (run : string) : Response :=
  mkResponse (mkRunID run 3 (epoch2 + Hour) false) "env" "machine" "connector" 3 "node"
    (ar_Routes connector0) "binding".
Definition marshalResponse0 (r : Response) : bytes := sbytes (ri_Value (rs_RunID r)).
Definition decode0 (b : bytes) : option Response := Some (response0 (bstring b)).

Abbreviation admission0 := (Admit host0 never flat_sha marshal0 marshalResponse0 decode0).

Definition admitted0 : Journal :=
  (admission0 "issuer" epoch2 (inr claims0) (inr current0) (run0 "first") connector0 journal0).2.

Lemma admitted_is_authorised_witness :
  ∃ claims cu, inr claims0 =@{error + Claims} inr claims ∧ inr current0 =@{error + Current} inr cu
    ∧ authorised host0 never "issuer" epoch2 claims cu connector0.
Proof.
  apply (admitted_is_authorised host0 never flat_sha marshal0 marshalResponse0 decode0 "issuer" epoch2
           (inr claims0) (inr current0) (run0 "first") connector0 journal0 (response0 "first") admitted0).
  vm_compute. reflexivity.
Defined.

Lemma authorised0 now request :
  now < epoch2 + Hour → request = connector0 ∨ request = other0 →
  authorised host0 never "issuer" now claims0 current0 request.
Proof.
  intros Hnow Hr. assert (routes_ok host0 never (ar_Routes request)) as Hroutes.
  { apply validateRoutes_None. by destruct Hr as [-> | ->]; vm_compute. }
  destruct Hr as [-> | ->]; constructor; done.
Qed.

Lemma admission_single_use_witness :
  admission0 "issuer" (epoch2 + Minute) (inr claims0) (inr current0) (run0 "second") connector0 admitted0
    = (inr (response0 "first"), admitted0)
  ∧ admission0 "issuer" (epoch2 + Minute) (inr claims0) (inr current0) (run0 "second") other0 admitted0
    = (inl ErrReplay, admitted0).
Proof.
  split.
  - etrans.
    1: apply (admission_single_use host0 never flat_sha flat_sha_length marshal0 marshalResponse0 decode0
             "issuer" epoch2 claims0 (inr current0) (run0 "first") connector0 journal0 (response0 "first")
             admitted0 admitted0 (epoch2 + Minute) claims0 current0 (run0 "second") connector0
             (mkRunID "second" 3 (epoch2 + Hour) false));
      [apply journal0_inv|by vm_compute|by vm_compute|by vm_compute|apply rtc_refl
      |by apply authorised0; auto|by vm_compute|by vm_compute|by left].
    by vm_compute.
  - etrans.
    1: apply (admission_single_use host0 never flat_sha flat_sha_length marshal0 marshalResponse0 decode0
             "issuer" epoch2 claims0 (inr current0) (run0 "first") connector0 journal0 (response0 "first")
             admitted0 admitted0 (epoch2 + Minute) claims0 current0 (run0 "second") other0
             (mkRunID "second" 3 (epoch2 + Hour) false));
      [apply journal0_inv|by vm_compute|by vm_compute|by vm_compute|apply rtc_refl
      |by apply authorised0; auto|by vm_compute|by vm_compute|by right].
    by vm_compute.
Defined.
End AdmissionProofs.
