(* ===== verification/Node.v ===== *)
(** * Edge node lifecycle and stream ownership

    Models [internal/node/state.go], [manager.go] and the answers of [health.go].
    The manager shares its [*State] with the process, so the record holds it.  A
    call runs under the lock of its object and is one function here; [Drain], which
    releases the lock while it waits, is split at the wait.  The wake channel is
    the number of times it was closed and replaced. *)
From S2P Require Import Prelude Go.

Module Node.

(** ** State *)

Inductive Phase := Starting | Ready | Draining | Stopped.
#[export] Instance Phase_eq_dec : EqDecision Phase.
Proof. solve_decision. Defined.

Record Snapshot := mkSnapshot {
  sn_NodeID : string;
  sn_Phase : Phase;
  sn_Live : bool;
  sn_Ready : bool;
  sn_DrainDeadline : Time
}.
#[export] Instance Snapshot_eta : Eta Snapshot := λ s,
  mkSnapshot (sn_NodeID s) (sn_Phase s) (sn_Live s) (sn_Ready s) (sn_DrainDeadline s).

Definition New (nodeID : string) : Snapshot := mkSnapshot nodeID Starting true false 0.

Definition MarkReady (s : Snapshot) : bool * Snapshot :=
  if sn_Phase s != Starting then (false, s)
  else (true, s <| sn_Phase := Ready |> <| sn_Ready := true |>).

Definition BeginDrain (deadline : Time) (s : Snapshot) : bool * Snapshot :=
  if (sn_Phase s == Draining) || (sn_Phase s == Stopped) then (false, s)
  else (true, s <| sn_Phase := Draining |> <| sn_Ready := false |> <| sn_DrainDeadline := deadline |>).

Definition SetControlAvailable (available : bool) (s : Snapshot) : bool * Snapshot :=
  if sn_Phase s != Ready then (false, s) else (true, s <| sn_Ready := available |>).

Definition MarkStopped (s : Snapshot) : Snapshot :=
  s <| sn_Phase := Stopped |> <| sn_Live := false |> <| sn_Ready := false |>.

(** The status code of [/livez] ([readiness = false]) and [/readyz]. *)
Definition writeHealth (s : Snapshot) (readiness : bool) : Z :=
  if (readiness && negb (sn_Ready s)) || (negb readiness && negb (sn_Live s)) then 503 else 200.

(** ** Manager *)

Inductive error := ErrNotReady | ErrCapacity | ErrUnknown | ErrDraining.
#[export] Instance error_eq_dec : EqDecision error.
Proof. solve_decision. Defined.

Record connector := mkConnector {
  co_generation : Z;
  co_streams : Z;
  co_retired : gmap Z Z
}.
#[export] Instance connector_eta : Eta connector := λ c,
  mkConnector (co_generation c) (co_streams c) (co_retired c).

Record Manager := mkManager {
  m_state : Snapshot;
  m_capacity : Z;
  m_connectors : gmap string connector;
  m_wake : nat
}.
#[export] Instance Manager_eta : Eta Manager := λ m,
  mkManager (m_state m) (m_capacity m) (m_connectors m) (m_wake m).

Record ConnectorSnapshot := mkConnectorSnapshot {
  cs_ID : string;
  cs_Generation : Z;
  cs_Streams : Z
}.

Record ManagerSnapshot := mkManagerSnapshot {
  ms_Connectors : list ConnectorSnapshot;
  ms_Streams : Z;
  ms_Capacity : Z;
  ms_Draining : bool
}.

(** The fields of [control.NodeObservation] that [Observation] sets. *)
Record NodeObservation := mkNodeObservation {
  no_NodeID : string;
  no_ProcessEpoch : string;
  no_Ready : bool;
  no_Draining : bool;
  no_ActiveStreams : Z;
  no_At : Time
}.

Definition NewManager (state : Snapshot) (capacity : Z) : error + Manager :=
  if capacity =? 0 then inl ErrCapacity else inr (mkManager state capacity ∅ 0).

Definition signalLocked (m : Manager) : Manager := m <| m_wake := S (m_wake m) |>.

Definition AdmitConnector (id : string) (generation : Z) (m : Manager) : option error * Manager :=
  if (id == "") || (generation =? 0) then (Some ErrUnknown, m)
  else if sn_Phase (m_state m) != Ready then (Some ErrNotReady, m)
  else match m_connectors m !! id with
  | Some _ => (None, m)
  | None =>
      if m_capacity m <=? u32 (Z.of_nat (size (m_connectors m))) then (Some ErrCapacity, m)
      else (None, m <| m_connectors := <[id := mkConnector generation 0 ∅]> (m_connectors m) |>)
  end.

(** [retired\[g\]] of an absent key is 0. *)
Definition retired_count (retired : gmap Z Z) (generation : Z) : Z := default 0 (retired !! generation).

Definition ReplaceConnector (id : string) (generation : Z) (m : Manager) : option error * Manager :=
  if (id == "") || (generation =? 0) then (Some ErrUnknown, m)
  else if sn_Phase (m_state m) != Ready then (Some ErrNotReady, m)
  else match m_connectors m !! id with
  | None => (Some ErrUnknown, m)
  | Some current =>
      if generation <=? co_generation current then (Some ErrUnknown, m)
      else
        let retired := co_retired current in
        let old := co_generation current in
        let retired := if co_streams current =? 0 then retired
                       else <[old := u32 (retired_count retired old + co_streams current)]> retired in
        (None, m <| m_connectors := <[id := mkConnector generation 0 retired]> (m_connectors m) |>)
  end.

Definition RemoveConnector (id : string) (m : Manager) : option error * Manager :=
  match m_connectors m !! id with
  | None => (Some ErrUnknown, m)
  | Some current =>
      if negb (co_streams current =? 0) || negb (Z.of_nat (size (co_retired current)) =? 0)
      then (Some ErrDraining, m)
      else (None, signalLocked (m <| m_connectors := delete id (m_connectors m) |>))
  end.

Definition OpenStream (id : string) (generation : Z) (m : Manager) : option error * Manager :=
  if sn_Phase (m_state m) != Ready then (Some ErrDraining, m)
  else match m_connectors m !! id with
  | None => (Some ErrUnknown, m)
  | Some current =>
      if negb (co_generation current =? generation) then (Some ErrUnknown, m)
      else if co_streams current =? two32 - 1 then (Some ErrCapacity, m)
      else (None, m <| m_connectors := <[id := current <| co_streams := u32 (co_streams current + 1) |>]> (m_connectors m) |>)
  end.

Definition CloseStream (id : string) (generation : Z) (m : Manager) : option error * Manager :=
  match m_connectors m !! id with
  | None => (Some ErrUnknown, m)
  | Some current =>
      let retired := co_retired current in
      if (co_generation current =? generation) && (0 <? co_streams current)
      then (None, signalLocked (m <| m_connectors :=
                    <[id := current <| co_streams := u32 (co_streams current - 1) |>]> (m_connectors m) |>))
      else if 0 <? retired_count retired generation then
        let retired := <[generation := u32 (retired_count retired generation - 1)]> retired in
        let retired := if retired_count retired generation =? 0 then delete generation retired else retired in
        (None, signalLocked (m <| m_connectors := <[id := current <| co_retired := retired |>]> (m_connectors m) |>))
      else (Some ErrUnknown, m)
  end.

Definition saturatingAddUint32 (current value : Z) : Z :=
  if two32 - 1 - current <? value then two32 - 1 else u32 (current + value).

(** Both loops of [totalStreamsLocked] for one connector. *)
Definition add_connector (current : connector) (total : Z) : Z :=
  map_fold (λ _ streams total, saturatingAddUint32 total streams)
    (saturatingAddUint32 total (co_streams current)) (co_retired current).

Definition totalStreamsLocked (m : Manager) : Z :=
  map_fold (λ _ current total, add_connector current total) 0 (m_connectors m).

(** The entries [Snapshot] appends for one connector. *)
Definition connector_snapshots (id : string) (current : connector) : list ConnectorSnapshot :=
  mkConnectorSnapshot id (co_generation current) (co_streams current)
  :: ((λ kv : Z * Z, mkConnectorSnapshot id kv.1 kv.2) <$> map_to_list (co_retired current)).

(** [Manager.Snapshot]; the order of the entries is that of the map iteration. *)
Definition Manager_Snapshot (m : Manager) : ManagerSnapshot :=
  mkManagerSnapshot
    (map_to_list (m_connectors m) ≫= λ kv, connector_snapshots kv.1 kv.2)
    (map_fold (λ _ current total, add_connector current total) 0 (m_connectors m))
    (m_capacity m) (sn_Phase (m_state m) == Draining).

Definition Observation (nodeID processEpoch : string) (at_ : Time) (m : Manager) : NodeObservation :=
  mkNodeObservation nodeID processEpoch (sn_Phase (m_state m) == Ready) (sn_Phase (m_state m) == Draining)
    (ms_Streams (Manager_Snapshot m)) at_.

(** ** Drain *)

Definition Drain_begin (deadline : Time) (m : Manager) : Manager :=
  m <| m_state := (BeginDrain deadline (m_state m)).2 |>.

(** The head of the loop: [Some false] returns, [None] waits. *)
Definition Drain_check (m : Manager) : option bool :=
  if totalStreamsLocked m =? 0 then Some false else None.

(** What ends a wait. *)
Inductive drain_event := Woken | Deadline | Cancelled.

Definition Drain_wait (e : drain_event) (m : Manager) : option bool * Manager :=
  match e with
  | Woken => (Drain_check m, m)
  | Deadline | Cancelled => (Some true, signalLocked (m <| m_connectors := ∅ |>))
  end.

End Node.

(** * Edge node: theorems

    The invariant of the manager, the ledger of streams per connector generation,
    the phases of the node and the progress of a drain. *)

Module NodeProofs.
Import Node.

(** ** Operations of the node *)

Inductive op :=
  | OAdmit (id : string) (generation : Z)
  | OReplace (id : string) (generation : Z)
  | ORemove (id : string)
  | OOpen (id : string) (generation : Z)
  | OClose (id : string) (generation : Z)
  | OMarkReady
  | OBeginDrain (deadline : Time)
  | OSetControl (available : bool)
  | OMarkStopped
  | OForce (e : drain_event).

Definition exec (o : op) (m : Manager) : Manager :=
  match o with
  | OAdmit id g => (AdmitConnector id g m).2
  | OReplace id g => (ReplaceConnector id g m).2
  | ORemove id => (RemoveConnector id m).2
  | OOpen id g => (OpenStream id g m).2
  | OClose id g => (CloseStream id g m).2
  | OMarkReady => m <| m_state := (MarkReady (m_state m)).2 |>
  | OBeginDrain d => Drain_begin d m
  | OSetControl b => m <| m_state := (SetControlAvailable b (m_state m)).2 |>
  | OMarkStopped => m <| m_state := MarkStopped (m_state m) |>
  | OForce e => (Drain_wait e m).2
  end.

Definition exec_all (ops : list op) (m : Manager) : Manager := foldl (λ m o, exec o m) m ops.

(** Generations are uint64. *)
Definition op_ok (o : op) : Prop :=
  match o with OAdmit _ g | OReplace _ g => is_u64 g | _ => True end.

(** The deadline or the context of a drain did not expire. *)
Definition unforced (o : op) : Prop :=
  match o with OForce Deadline | OForce Cancelled => False | _ => True end.

(** ** Invariant *)

Record connector_ok (c : connector) : Prop := {
  ck_generation : 1 ≤ co_generation c;
  ck_streams : is_u32 (co_streams c);
  ck_retired g n : co_retired c !! g = Some n → 1 ≤ n < two32 ∧ g < co_generation c
}.

Record manager_inv (m : Manager) : Prop := {
  mi_capacity : 1 ≤ m_capacity m < two32;
  mi_size : Z.of_nat (size (m_connectors m)) ≤ m_capacity m;
  mi_connectors id c : m_connectors m !! id = Some c → id ≠ "" ∧ connector_ok c
}.

(** The streams open for a generation of a connector. *)
Definition connector_streams (c : connector) (g : Z) : Z :=
  (if co_generation c =? g then co_streams c else 0) + retired_count (co_retired c) g.

Definition streams_of (m : Manager) (id : string) (g : Z) : Z :=
  match m_connectors m !! id with Some c => connector_streams c g | None => 0 end.

(** All streams. *)
Definition connector_total (c : connector) : Z := co_streams c + sum_map id (co_retired c).
Definition sum_streams (m : Manager) : Z := sum_map connector_total (m_connectors m).

Lemma retired_count_range c g : connector_ok c → 0 ≤ retired_count (co_retired c) g < two32.
Proof.
  intros Hc. unfold retired_count. destruct (_ !! g) eqn:E; cbn; [|unfold two32; lia].
  apply (ck_retired _ Hc) in E. lia.
Qed.

Lemma retired_count_current c : connector_ok c → retired_count (co_retired c) (co_generation c) = 0.
Proof.
  intros Hc. unfold retired_count. destruct (_ !! _) eqn:E; [|done]. apply (ck_retired _ Hc) in E. lia.
Qed.

Lemma retired_sum_nonneg c : connector_ok c → 0 ≤ sum_map id (co_retired c).
Proof. intros Hc. apply sum_map_nonneg. intros g n [? _]%(ck_retired _ Hc). cbn. lia. Qed.

Lemma connector_total_nonneg c : connector_ok c → 0 ≤ connector_total c.
Proof.
  intros Hc. unfold connector_total. pose proof (retired_sum_nonneg _ Hc).
  pose proof (ck_streams _ Hc). unfold is_u32 in *. lia.
Qed.

(** ** Effects of the operations

    Each successful operation as one update of the connector map. *)

(** The connector after [ReplaceConnector]. *)
Definition replaced (g : Z) (c : connector) : connector :=
  mkConnector g 0 (if co_streams c =? 0 then co_retired c
                   else <[co_generation c := co_streams c]> (co_retired c)).

Definition opened (c : connector) : connector := c <| co_streams := co_streams c + 1 |>.

(** The connector after [CloseStream]. *)
Definition closed (g : Z) (c : connector) : connector :=
  if (co_generation c =? g) && (0 <? co_streams c) then c <| co_streams := co_streams c - 1 |>
  else c <| co_retired := if retired_count (co_retired c) g =? 1 then delete g (co_retired c)
                          else <[g := retired_count (co_retired c) g - 1]> (co_retired c) |>.

Lemma replaced_ok g c : connector_ok c → co_generation c < g → connector_ok (replaced g c).
Proof.
  intros [Hg Hs Hr] Hlt. constructor; cbn; [lia|done|]. intros g' n.
  destruct (_ =? 0) eqn:E; bools.
  - intros ?%Hr. lia.
  - rewrite lookup_insert_Some. unfold is_u32 in Hs. intros [[<- <-]|[_ ?%Hr]]; lia.
Qed.

Lemma opened_ok c : connector_ok c → co_streams c ≠ two32 - 1 → connector_ok (opened c).
Proof. intros [Hg Hs Hr] Hne. constructor; cbn; [done| |done]. unfold is_u32 in *. lia. Qed.

(** A stream that is not of the current generation is of a retired one. *)
Lemma closing_retired g c :
  connector_ok c → 0 < connector_streams c g → (co_generation c =? g) && (0 <? co_streams c) = false →
  0 < retired_count (co_retired c) g.
Proof.
  intros Hc Hpos E. pose proof (ck_streams _ Hc). unfold connector_streams, is_u32 in *.
  apply andb_false_iff in E as [E|E]; rewrite ?E in Hpos; bools; [lia|]. destruct (_ =? g); lia.
Qed.

Lemma closed_ok g c : connector_ok c → 0 < connector_streams c g → connector_ok (closed g c).
Proof.
  intros Hc Hpos. pose proof Hc as [Hg Hs Hr]. unfold closed.
  pose proof (retired_count_range c g Hc) as Hn.
  destruct (_ && _) eqn:E.
  { bools. constructor; cbn; [done| |done]. unfold is_u32 in *. lia. }
  constructor; cbn; [done|done|]. intros g' n. destruct (retired_count _ _ =? 1) eqn:E1; bools.
  - intros [_ ?%Hr]%lookup_delete_Some. done.
  - intros [[<- <-]|[_ ?%Hr]]%lookup_insert_Some; [|done].
    pose proof (closing_retired g c Hc Hpos E) as Hp.
    split; [lia|]. unfold retired_count in Hp. destruct (_ !! g) eqn:El; cbn in Hp; [|lia].
    apply Hr in El. lia.
Qed.

Lemma replaced_streams g c g' :
  connector_ok c → co_generation c < g → connector_streams (replaced g c) g' = connector_streams c g'.
Proof.
  intros Hc Hlt. unfold connector_streams, replaced, retired_count. cbn.
  destruct (co_streams c =? 0) eqn:E0; bools.
  - rewrite E0. by destruct (_ =? g'), (_ =? g').
  - destruct (Z.eqb_spec (co_generation c) g') as [<-|Hne].
    + rewrite lookup_insert_eq. cbn. pose proof (retired_count_current c Hc) as Hz.
      unfold retired_count in Hz. rewrite Hz. destruct (_ =? _); lia.
    + rewrite lookup_insert_ne by done. by destruct (_ =? _).
Qed.

Lemma opened_streams c g' :
  connector_streams (opened c) g' = connector_streams c g' + if co_generation c =? g' then 1 else 0.
Proof. unfold connector_streams, opened. cbn. destruct (_ =? g'); lia. Qed.

Lemma closed_streams g c g' :
  connector_ok c → 0 < connector_streams c g →
  connector_streams (closed g c) g' = connector_streams c g' - if g =? g' then 1 else 0.
Proof.
  intros Hc Hpos. pose proof (ck_streams _ Hc) as Hs. unfold is_u32 in Hs.
  unfold closed. destruct (_ && _) eqn:E; unfold connector_streams; cbn.
  { bools. subst g. destruct (_ =? g'); lia. }
  pose proof (closing_retired g c Hc Hpos E) as Hp.
  assert (∀ n, retired_count (co_retired c) g = 1 + n →
    retired_count (if n =? 0 then delete g (co_retired c) else <[g := n]> (co_retired c)) g'
    = retired_count (co_retired c) g' - if g =? g' then 1 else 0) as H.
  { intros n Hn. unfold retired_count in *. destruct (Z.eqb_spec g g') as [<-|Hne].
    - destruct (Z.eqb_spec n 0) as [->|?].
      + rewrite lookup_delete_eq, Hn. done.
      + rewrite lookup_insert_eq. cbn. lia.
    - destruct (n =? 0); rewrite ?lookup_delete_ne, ?lookup_insert_ne by done; lia. }
  specialize (H (retired_count (co_retired c) g - 1)). rewrite <- Z.add_sub_assoc, <- H; [|lia].
  f_equal. by destruct (Z.eqb_spec (retired_count (co_retired c) g) 1) as [->|?];
    [|rewrite (proj2 (Z.eqb_neq _ _)) by lia].
Qed.

Definition update (id : string) (c : connector) (m : Manager) : Manager :=
  m <| m_connectors := <[id := c]> (m_connectors m) |>.

Lemma AdmitConnector_cases id g m :
  manager_inv m →
  (∃ e, AdmitConnector id g m = (e, m))
  ∨ sn_Phase (m_state m) = Ready ∧ id ≠ "" ∧ g ≠ 0 ∧ m_connectors m !! id = None
    ∧ Z.of_nat (size (m_connectors m)) < m_capacity m
    ∧ AdmitConnector id g m = (None, update id (mkConnector g 0 ∅) m).
Proof.
  intros Hi. pose proof (mi_size _ Hi). pose proof (mi_capacity _ Hi). unfold AdmitConnector.
  destruct (_ || _) eqn:E; [eauto|]. bools. case_bool_decide; cbn [negb]; [|eauto].
  destruct (_ !! id) eqn:El; [eauto|]. rewrite u32_id by (unfold is_u32; lia).
  destruct (_ <=? _) eqn:Ec; [eauto|]. bools. right. by split_and!.
Qed.

Lemma ReplaceConnector_cases id g m :
  manager_inv m →
  (∃ e, ReplaceConnector id g m = (Some e, m))
  ∨ sn_Phase (m_state m) = Ready ∧ ∃ c, m_connectors m !! id = Some c ∧ co_generation c < g
    ∧ ReplaceConnector id g m = (None, update id (replaced g c) m).
Proof.
  intros Hi. unfold ReplaceConnector.
  destruct (_ || _) eqn:E; [eauto|]. bools. case_bool_decide; cbn [negb]; [|eauto].
  destruct (_ !! id) as [c|] eqn:El; [|eauto]. destruct (_ <=? _) eqn:Eg; [eauto|]. bools.
  right. split; [done|]. exists c. split_and!; [done..|]. unfold update, replaced.
  destruct (mi_connectors _ Hi _ _ El) as [_ Hc].
  by rewrite retired_count_current, Z.add_0_l, u32_id by apply Hc.
Qed.

Lemma RemoveConnector_cases id m :
  (∃ e, RemoveConnector id m = (Some e, m))
  ∨ ∃ c, m_connectors m !! id = Some c ∧ co_streams c = 0 ∧ co_retired c = ∅
    ∧ RemoveConnector id m = (None, signalLocked (m <| m_connectors := delete id (m_connectors m) |>)).
Proof.
  unfold RemoveConnector. destruct (_ !! id) as [c|] eqn:El; [|eauto].
  destruct (_ || _) eqn:E; [eauto|]. bools. right. exists c. split_and!; try done.
  apply map_size_empty_inv. lia.
Qed.

Lemma OpenStream_cases id g m :
  manager_inv m →
  (∃ e, OpenStream id g m = (Some e, m))
  ∨ sn_Phase (m_state m) = Ready ∧ ∃ c, m_connectors m !! id = Some c ∧ co_generation c = g
    ∧ co_streams c ≠ two32 - 1 ∧ OpenStream id g m = (None, update id (opened c) m).
Proof.
  intros Hi. unfold OpenStream. case_bool_decide; cbn [negb]; [|eauto].
  destruct (_ !! id) as [c|] eqn:El; [|eauto]. destruct (_ =? g) eqn:Eg; cbn [negb]; [|eauto].
  destruct (co_streams c =? _) eqn:Es; [eauto|]. bools. right. split; [done|]. exists c. split_and!; [done..|].
  destruct (mi_connectors _ Hi _ _ El) as [_ Hc]. pose proof (ck_streams _ Hc). unfold is_u32 in *.
  unfold update, opened. rewrite u32_id; [done|unfold is_u32; lia].
Qed.

Lemma CloseStream_cases id g m :
  manager_inv m →
  streams_of m id g = 0 ∧ CloseStream id g m = (Some ErrUnknown, m)
  ∨ ∃ c, m_connectors m !! id = Some c ∧ 0 < connector_streams c g
    ∧ CloseStream id g m = (None, signalLocked (update id (closed g c) m)).
Proof.
  intros Hi. unfold CloseStream, streams_of. destruct (_ !! id) as [c|] eqn:El; [|by left].
  destruct (mi_connectors _ Hi _ _ El) as [_ Hc]. pose proof (ck_streams _ Hc) as Hs.
  pose proof (retired_count_range c g Hc) as Hr. unfold is_u32 in Hs.
  unfold closed, connector_streams. destruct (_ && _) eqn:E.
  { bools. right. exists c. rewrite (proj2 (Z.eqb_eq _ _)), (proj2 (Z.ltb_lt _ _)) by done.
    split_and!; [done|lia|]. by rewrite u32_id by (unfold is_u32; lia). }
  destruct (0 <? retired_count _ _) eqn:Ep; apply Z.ltb_lt in Ep || apply Z.ltb_ge in Ep.
  - right. exists c. rewrite E. split_and!; [done|destruct (_ =? g); lia|].
    rewrite u32_id by (unfold is_u32; lia). unfold retired_count at 1. rewrite lookup_insert_eq. cbn.
    destruct (Z.eqb_spec (retired_count (co_retired c) g) 1) as [E1|E1].
    + rewrite E1. cbn. by rewrite delete_insert_eq.
    + by rewrite (proj2 (Z.eqb_neq _ _)) by lia.
  - left. split; [|done]. apply andb_false_iff in E as [E|E]; rewrite ?E; bools; [lia|].
    destruct (_ =? g); lia.
Qed.
End NodeProofs.
