(* ===== verification/NodeGuarantees.v ===== *)
(** * Edge node: guarantees

    The theorems about every run of the node, and their witnesses. *)
From S2P Require Import Prelude Go Node.

Module NodeGuarantees.
Import Node NodeProofs.

(** ** Preservation *)

Lemma update_node_inv id c m :
  manager_inv m → connector_ok c → is_Some (m_connectors m !! id) → manager_inv (update id c m).
Proof.
  intros Hi Hc [c0 H0]. constructor; cbn.
  - apply Hi.
  - rewrite map_size_insert_Some by eauto. apply Hi.
  - intros id' c' [[<- <-]|[_ ?]]%lookup_insert_Some; [|by apply (mi_connectors _ Hi)].
    split; [|done]. by apply (mi_connectors _ Hi _ _ H0).
Qed.

(** Only the connector map matters. *)
Lemma node_inv_same m m' :
  manager_inv m → m_capacity m' = m_capacity m → m_connectors m' ⊆ m_connectors m → manager_inv m'.
Proof.
  intros [H1 H2 H3] Hc Hs. constructor.
  - by rewrite Hc.
  - rewrite Hc. apply map_subseteq_size in Hs. lia.
  - intros id c H. apply (H3 id). by eapply lookup_weaken.
Qed.

Lemma node_exec_inv o m : manager_inv m → op_ok o → manager_inv (exec o m).
Proof.
  intros Hi Ho. destruct o as [id g|id g|id|id g|id g| |d|b| |e]; cbn [exec].
  - destruct (AdmitConnector_cases id g m Hi) as [[e ->]|(_ & Hid & Hg & Hl & Hs & ->)]; [done|].
    cbn in Ho. unfold is_u64 in Ho. constructor; cbn; [apply Hi| |].
    + rewrite map_size_insert_None by done. lia.
    + intros id' c' [[<- <-]|[_ ?]]%lookup_insert_Some; [|by apply (mi_connectors _ Hi)].
      split; [done|]. constructor; cbn; [lia|done|]. intros g' n. by rewrite lookup_empty.
  - destruct (ReplaceConnector_cases id g m Hi) as [[e ->]|(_ & c & Hl & Hg & ->)]; [done|].
    apply update_node_inv; [done| |by eauto]. apply replaced_ok; [|done].
    by apply (mi_connectors _ Hi _ _ Hl).
  - destruct (RemoveConnector_cases id m) as [[e ->]|(c & Hl & _ & _ & ->)]; [done|].
    apply (node_inv_same m); [done..|]. apply delete_subseteq.
  - destruct (OpenStream_cases id g m Hi) as [[e ->]|(_ & c & Hl & _ & Hs & ->)]; [done|].
    apply update_node_inv; [done| |by eauto]. apply opened_ok; [|done].
    by apply (mi_connectors _ Hi _ _ Hl).
  - destruct (CloseStream_cases id g m Hi) as [[_ ->]|(c & Hl & Hp & ->)]; [done|].
    apply (node_inv_same (update id (closed g c) m)); [|done..]. apply update_node_inv; [done| |by eauto].
    apply closed_ok; [|done]. by apply (mi_connectors _ Hi _ _ Hl).
  - by apply (node_inv_same m).
  - by apply (node_inv_same m).
  - by apply (node_inv_same m).
  - by apply (node_inv_same m).
  - destruct e; [done|..]; (apply (node_inv_same m); [done..|apply map_empty_subseteq]).
Qed.

Lemma exec_all_inv ops m : manager_inv m → Forall op_ok ops → manager_inv (exec_all ops m).
Proof.
  intros Hi Ho. revert m Hi. induction Ho as [|o ops Ho _ IH]; [done|]. intros m Hi.
  apply IH. by apply node_exec_inv.
Qed.

Lemma node_new_inv state capacity m :
  is_u32 capacity → NewManager state capacity = inr m → manager_inv m.
Proof.
  unfold NewManager, is_u32. intros Hc. destruct (_ =? 0) eqn:E; [done|]. bools. intros [= <-].
  constructor; cbn; [lia|rewrite map_size_empty; lia|]. intros id c. by rewrite lookup_empty.
Qed.

(** ** The saturating totals *)

Lemma saturating_min a b :
  0 ≤ a → 0 ≤ b → saturatingAddUint32 (Z.min a (two32 - 1)) b = Z.min (a + b) (two32 - 1).
Proof.
  intros Ha Hb. unfold saturatingAddUint32. destruct (_ <? _) eqn:E; bools; [lia|].
  rewrite u32_id; [lia|]. unfold is_u32, two32 in *. lia.
Qed.

Lemma fold_retired_min a (r : gmap Z Z) :
  0 ≤ a → (∀ g n, r !! g = Some n → 0 ≤ n) →
  map_fold (λ _ streams total, saturatingAddUint32 total streams) (Z.min a (two32 - 1)) r
  = Z.min (a + sum_map id r) (two32 - 1).
Proof.
  intros Ha. induction r as [|g n r Hg Hfst IH] using map_first_key_ind; intros Hr.
  { rewrite map_fold_empty, sum_map_empty. f_equal. lia. }
  rewrite map_fold_insert_first_key by done. rewrite sum_map_insert by done.
  assert (0 ≤ n) by (apply (Hr g), lookup_insert_eq).
  assert (∀ g' n', r !! g' = Some n' → 0 ≤ n') as Hr'.
  { intros g' n' H'. apply (Hr g'). rewrite lookup_insert_ne; [done|congruence]. }
  rewrite IH by done. pose proof (sum_map_nonneg id r Hr').
  rewrite saturating_min by (cbn; lia). f_equal. cbn. lia.
Qed.

Lemma add_connector_min a c :
  0 ≤ a → connector_ok c →
  add_connector c (Z.min a (two32 - 1)) = Z.min (a + connector_total c) (two32 - 1).
Proof.
  intros Ha Hc. pose proof (ck_streams _ Hc) as Hs. unfold add_connector, connector_total, is_u32 in *.
  rewrite saturating_min, fold_retired_min by (lia || intros g n [? _]%(ck_retired _ Hc); lia).
  f_equal. lia.
Qed.

Lemma fold_connectors_min (cs : gmap string connector) :
  (∀ id c, cs !! id = Some c → connector_ok c) →
  map_fold (λ _ current total, add_connector current total) 0 cs
  = Z.min (sum_map connector_total cs) (two32 - 1).
Proof.
  induction cs as [|id c cs Hid Hfst IH] using map_first_key_ind; intros Hok.
  { by rewrite map_fold_empty, sum_map_empty. }
  rewrite map_fold_insert_first_key by done. rewrite sum_map_insert by done.
  assert (connector_ok c) by (apply (Hok id), lookup_insert_eq).
  assert (∀ id' c', cs !! id' = Some c' → connector_ok c') as Hok'.
  { intros id' c' H'. apply (Hok id'). rewrite lookup_insert_ne; [done|congruence]. }
  rewrite IH by done. rewrite add_connector_min; [f_equal; lia| |done].
  apply sum_map_nonneg. intros ? ? ?%Hok'. by apply connector_total_nonneg.
Qed.

Lemma totalStreams_spec m :
  manager_inv m → totalStreamsLocked m = Z.min (sum_streams m) (two32 - 1).
Proof. intros Hi. apply fold_connectors_min. intros id c H. by apply (mi_connectors _ Hi id). Qed.

Lemma sum_streams_nonneg m : manager_inv m → 0 ≤ sum_streams m.
Proof.
  intros Hi. apply sum_map_nonneg. intros id c H. apply connector_total_nonneg.
  by apply (mi_connectors _ Hi id).
Qed.

(** The manager stays consistent.  In every run of a new manager the number of
    connectors is within the capacity, every connector has a positive generation
    above those of its retired streams, no counter wraps, retired generations
    without streams are forgotten, and the reported total is the sum of all open
    streams, saturated at the uint32 range. *)
Theorem node_invariant state capacity m ops :
  is_u32 capacity → NewManager state capacity = inr m → Forall op_ok ops →
  manager_inv (exec_all ops m)
  ∧ ms_Streams (Manager_Snapshot (exec_all ops m)) = Z.min (sum_streams (exec_all ops m)) (two32 - 1).
Proof.
  intros Hc Hm Ho. assert (manager_inv (exec_all ops m)) as Hi.
  { apply exec_all_inv; [|done]. by eapply node_new_inv. }
  split; [done|]. by apply totalStreams_spec.
Qed.

(** ** The ledger of streams *)

Definition ok (r : option error) : bool := negb (nonnil r).

(** What an operation adds to the streams of a generation. *)
Definition delta (id : string) (g : Z) (o : op) (m : Manager) : Z :=
  match o with
  | OOpen id' g' => if (id' == id) && (g' =? g) && ok (OpenStream id' g' m).1 then 1 else 0
  | OClose id' g' => if (id' == id) && (g' =? g) && ok (CloseStream id' g' m).1 then -1 else 0
  | _ => 0
  end.

Fixpoint ledger (id : string) (g : Z) (ops : list op) (m : Manager) : Z :=
  match ops with
  | [] => 0
  | o :: ops => delta id g o m + ledger id g ops (exec o m)
  end.

Lemma streams_of_update id c m id' g :
  streams_of (update id c m) id' g = if id == id' then connector_streams c g else streams_of m id' g.
Proof.
  unfold streams_of, update. cbn. case_bool_decide as E.
  - subst. by rewrite lookup_insert_eq.
  - by rewrite lookup_insert_ne.
Qed.

Lemma exec_ledger o m id g :
  manager_inv m → unforced o → streams_of (exec o m) id g = streams_of m id g + delta id g o m.
Proof.
  intros Hi Hu. destruct o as [id' g'|id' g'|id'|id' g'|id' g'| |d|b| |e]; cbn [exec delta].
  - destruct (AdmitConnector_cases id' g' m Hi) as [[e ->]|(_ & Hid & Hg & Hl & Hs & ->)]; [cbn; lia|].
    cbn [snd]. rewrite streams_of_update. case_bool_decide as E; [|lia]. subst. unfold streams_of.
    rewrite Hl. unfold connector_streams. cbn. unfold retired_count. rewrite lookup_empty. cbn.
    by destruct (_ =? _).
  - destruct (ReplaceConnector_cases id' g' m Hi) as [[e ->]|(_ & c & Hl & Hg & ->)]; [cbn; lia|].
    cbn [snd]. rewrite streams_of_update. case_bool_decide as E; [|lia]. subst.
    rewrite replaced_streams by (done || by apply (mi_connectors _ Hi id)).
    unfold streams_of. rewrite Hl. lia.
  - destruct (RemoveConnector_cases id' m) as [[e ->]|(c & Hl & Hs & Hr & ->)]; [cbn; lia|].
    unfold streams_of. cbn. destruct (decide (id' = id)) as [->|?].
    + rewrite lookup_delete_eq, Hl. unfold connector_streams, retired_count. rewrite Hs, Hr, lookup_empty.
      cbn. by destruct (_ =? _).
    + rewrite lookup_delete_ne by done. destruct (_ !! id); lia.
  - destruct (OpenStream_cases id' g' m Hi) as [[e ->]|(_ & c & Hl & Hg & Hs & ->)].
    { cbn. rewrite andb_false_r. lia. }
    cbn [fst snd ok nonnil negb]. rewrite streams_of_update, andb_true_r.
    case_bool_decide as E; cbn [andb]; [|lia]. subst. rewrite opened_streams. unfold streams_of.
    by rewrite Hl.
  - destruct (CloseStream_cases id' g' m Hi) as [[_ ->]|(c & Hl & Hp & ->)].
    { cbn. rewrite andb_false_r. lia. }
    cbn [fst snd ok nonnil negb]. change (streams_of (signalLocked ?a)) with (streams_of a).
    rewrite streams_of_update, andb_true_r. case_bool_decide as E; cbn [andb]; [|lia]. subst.
    rewrite closed_streams by (done || by apply (mi_connectors _ Hi id)). unfold streams_of. rewrite Hl.
    destruct (_ =? _); lia.
  - unfold streams_of. cbn. lia.
  - unfold streams_of. cbn. lia.
  - unfold streams_of. cbn. lia.
  - unfold streams_of. cbn. lia.
  - destruct e; [cbn; lia|done..].
Qed.

Lemma exec_all_ledger ops m id g :
  manager_inv m → Forall op_ok ops → Forall unforced ops →
  streams_of (exec_all ops m) id g = streams_of m id g + ledger id g ops m.
Proof.
  intros Hi Ho Hu. revert m Hi. induction ops as [|o ops IH]; intros m Hi; [cbn; lia|].
  inversion Ho. inversion Hu. cbn [ledger]. change (exec_all (o :: ops) m) with (exec_all ops (exec o m)).
  rewrite IH by (done || by apply node_exec_inv). rewrite exec_ledger by done. lia.
Qed.

(** Every stream is accounted to the generation it was opened in.  Unless a
    drain is forced, the streams of a connector generation are those opened in it
    less those closed, across replacements of the generation, which retire but do
    not drop them; and a close succeeds exactly when such a stream is open. *)
Theorem stream_accounting m ops id g :
  manager_inv m → Forall op_ok ops → Forall unforced ops →
  let m' := exec_all ops m in
  streams_of m' id g = streams_of m id g + ledger id g ops m
  ∧ ((CloseStream id g m').1 = None ↔ 0 < streams_of m' id g).
Proof.
  intros Hi Ho Hu m'. split; [by apply exec_all_ledger|].
  assert (manager_inv m') as Hi' by (by apply exec_all_inv).
  destruct (CloseStream_cases id g m' Hi') as [[-> ->]|(c & Hl & Hp & ->)]; cbn; [done|].
  unfold streams_of. by rewrite Hl.
Qed.

(** ** Phases *)

Definition rank (p : Phase) : Z :=
  match p with Starting => 0 | Ready => 1 | Draining => 2 | Stopped => 3 end.

Abbreviation phase m := (sn_Phase (m_state m)).

(** The flags agree with the phase. *)
Definition flags_ok (s : Snapshot) : Prop :=
  (sn_Ready s = true → sn_Phase s = Ready) ∧ (sn_Live s = true ↔ sn_Phase s ≠ Stopped).

(** The operations on connectors leave the node's state alone. *)
Lemma exec_state o m :
  m_state (exec o m) =
  match o with
  | OMarkReady => (MarkReady (m_state m)).2
  | OBeginDrain d => (BeginDrain d (m_state m)).2
  | OSetControl b => (SetControlAvailable b (m_state m)).2
  | OMarkStopped => MarkStopped (m_state m)
  | _ => m_state m
  end.
Proof.
  destruct o as [id g|id g|id|id g|id g| |d|b| |[]]; try done; cbn [exec].
  - unfold AdmitConnector. by repeat case_match.
  - unfold ReplaceConnector. by repeat case_match.
  - unfold RemoveConnector. by repeat case_match.
  - unfold OpenStream. by repeat case_match.
  - unfold CloseStream. by repeat case_match.
Qed.

Lemma exec_phase o m :
  flags_ok (m_state m) → flags_ok (m_state (exec o m)) ∧ rank (phase m) ≤ rank (phase (exec o m)).
Proof.
  rewrite exec_state. unfold flags_ok, MarkReady, BeginDrain, SetControlAvailable, MarkStopped.
  destruct (m_state m) as [n p l r d]. destruct o; cbn; intros [H1 H2]; destruct p; cbn; naive_solver lia.
Qed.

Lemma exec_all_phase ops m :
  flags_ok (m_state m) →
  flags_ok (m_state (exec_all ops m)) ∧ rank (phase m) ≤ rank (phase (exec_all ops m)).
Proof.
  revert m. induction ops as [|o ops IH]; intros m Hf; [by split|].
  destruct (exec_phase o m Hf) as [Hf1 Hr1]. destruct (IH _ Hf1) as [Hf2 Hr2]. split; [done|].
  change (exec_all (o :: ops) m) with (exec_all ops (exec o m)). lia.
Qed.

Lemma writeHealth_200 s readiness :
  writeHealth s readiness = 200 ↔ (if readiness then sn_Ready s else sn_Live s) = true.
Proof. unfold writeHealth. by destruct readiness, (sn_Ready s), (sn_Live s). Qed.

(** The phases only advance, from starting over ready and draining to stopped,
    and the health endpoints tell the truth: at every point of a run, [/readyz]
    answers 200 only in the ready phase, [/livez] answers 200 exactly until the
    node is stopped, and a stream is opened or a connector admitted or replaced
    only in the ready phase. *)
Theorem node_phases nodeID capacity m before after id g :
  NewManager (New nodeID) capacity = inr m →
  let m1 := exec_all before m in
  let m2 := exec_all after m1 in
  rank (phase m1) ≤ rank (phase m2)
  ∧ (writeHealth (m_state m2) true = 200 → phase m2 = Ready ∧ writeHealth (m_state m2) false = 200)
  ∧ (writeHealth (m_state m2) false = 200 ↔ phase m2 ≠ Stopped)
  ∧ (phase m2 ≠ Ready → (OpenStream id g m2).2 = m2 ∧ (AdmitConnector id g m2).2 = m2
                         ∧ (ReplaceConnector id g m2).2 = m2).
Proof.
  intros Hm m1 m2. assert (flags_ok (m_state m)) as Hf.
  { unfold NewManager in Hm. destruct (_ =? 0); [done|]. by injection Hm as <-. }
  destruct (exec_all_phase before m Hf) as [Hf1 _]. destruct (exec_all_phase after m1 Hf1) as [Hf2 Hr].
  fold m1 in Hf1, Hr. fold m2 in Hf2, Hr. split_and!; [done|..].
  - rewrite !writeHealth_200. destruct Hf2 as [F1 F2]. intros Hrd%F1. split; [done|].
    apply F2. by rewrite Hrd.
  - rewrite writeHealth_200. apply Hf2.
  - intros Hne. unfold OpenStream, AdmitConnector, ReplaceConnector.
    rewrite (bool_decide_false (phase m2 = Ready)) by done. cbn. by destruct (_ || _).
Qed.

(** ** Drain *)

(** Successful closes of a run. *)
Fixpoint closes (ops : list op) (m : Manager) : Z :=
  match ops with
  | [] => 0
  | o :: ops => match o with OClose id g => if ok (CloseStream id g m).1 then 1 else 0 | _ => 0 end
                + closes ops (exec o m)
  end.

Lemma closed_total g c :
  connector_ok c → 0 < connector_streams c g → connector_total (closed g c) = connector_total c - 1.
Proof.
  intros Hc Hp. unfold closed, connector_total. destruct (_ && _) eqn:E; cbn; [lia|].
  pose proof (closing_retired g c Hc Hp E) as Hr. unfold retired_count in *.
  destruct (co_retired c !! g) as [n|] eqn:El; cbn in *; [|lia].
  destruct (Z.eqb_spec n 1) as [->|?].
  - rewrite (sum_map_delete id (co_retired c) g 1) by done. cbn. lia.
  - rewrite (sum_map_replace id (co_retired c) g n) by done. cbn. lia.
Qed.

(** Out of the ready phase only closes change the total, and they wake the drain. *)
Lemma exec_draining o m :
  manager_inv m → unforced o → phase m ≠ Ready →
  let n := match o with OClose id g => if ok (CloseStream id g m).1 then 1 else 0 | _ => 0 end in
  sum_streams (exec o m) = sum_streams m - n ∧ n ≤ Z.of_nat (m_wake (exec o m)) - Z.of_nat (m_wake m).
Proof.
  intros Hi Hu Hp. destruct o as [id g|id g|id|id g|id g| |d|b| |e]; cbn [exec].
  - destruct (AdmitConnector_cases id g m Hi) as [[e ->]|[? _]]; [cbn; lia|done].
  - destruct (ReplaceConnector_cases id g m Hi) as [[e ->]|[? _]]; [cbn; lia|done].
  - destruct (RemoveConnector_cases id m) as [[e ->]|(c & Hl & Hs & Hr & ->)]; [cbn; lia|].
    unfold sum_streams. cbn. rewrite (sum_map_delete _ _ _ _ Hl). unfold connector_total at 2.
    rewrite Hs, Hr, sum_map_empty. lia.
  - destruct (OpenStream_cases id g m Hi) as [[e ->]|[? _]]; [cbn; lia|done].
  - destruct (CloseStream_cases id g m Hi) as [[_ ->]|(c & Hl & Hc & ->)]; [cbn; lia|].
    unfold sum_streams. cbn. rewrite (sum_map_replace _ _ _ _ _ Hl), closed_total;
      [lia|by apply (mi_connectors _ Hi id)|done].
  - unfold sum_streams. cbn. lia.
  - unfold sum_streams. cbn. lia.
  - unfold sum_streams. cbn. lia.
  - unfold sum_streams. cbn. lia.
  - destruct e; [cbn; lia|done..].
Qed.

Lemma not_ready_stays o m : 2 ≤ rank (phase m) → 2 ≤ rank (phase (exec o m)).
Proof.
  rewrite exec_state. unfold MarkReady, BeginDrain, SetControlAvailable, MarkStopped.
  destruct (m_state m) as [n p l r d]. destruct o, p; cbn; lia || done.
Qed.

Lemma exec_all_draining ops m :
  manager_inv m → Forall op_ok ops → Forall unforced ops → 2 ≤ rank (phase m) →
  sum_streams (exec_all ops m) = sum_streams m - closes ops m
  ∧ closes ops m ≤ Z.of_nat (m_wake (exec_all ops m)) - Z.of_nat (m_wake m)
  ∧ 2 ≤ rank (phase (exec_all ops m)).
Proof.
  intros Hi Ho Hu. revert m Hi. induction ops as [|o ops IH]; intros m Hi Hp; [cbn; lia|].
  inversion Ho; subst. inversion Hu; subst.
  destruct (exec_draining o m) as [E1 E2]; [done..|by intros E; rewrite E in Hp|].
  destruct (IH ltac:(done) ltac:(done) (exec o m)) as (E3 & E4 & E5);
    [by apply node_exec_inv|by apply not_ready_stays|].
  cbn [closes]. change (exec_all (o :: ops) m) with (exec_all ops (exec o m)). lia.
Qed.

(** Draining ends with the last stream.  Once a drain has begun the node opens
    no stream; whatever else runs, the drain's check succeeds exactly when as many
    streams were closed as were open when it began, and every close has replaced
    the wake channel, so that a drain waiting on it looks again. *)
Theorem drain_completes deadline m ops :
  manager_inv m → Forall op_ok ops → Forall unforced ops →
  let m1 := Drain_begin deadline m in
  let m2 := exec_all ops m1 in
  phase m2 ≠ Ready
  ∧ sum_streams m2 = sum_streams m - closes ops m1
  ∧ (Drain_check m2 = Some false ↔ closes ops m1 = sum_streams m)
  ∧ closes ops m1 ≤ Z.of_nat (m_wake m2) - Z.of_nat (m_wake m1).
Proof.
  intros Hi Ho Hu m1 m2. assert (manager_inv m1) as Hi1 by (by apply (node_exec_inv (OBeginDrain deadline))).
  assert (2 ≤ rank (phase m1)) as Hr1.
  { unfold m1, Drain_begin, BeginDrain. destruct (m_state m) as [n p l r d]. by destruct p. }
  destruct (exec_all_draining ops m1 Hi1 Ho Hu Hr1) as (E1 & E2 & E3). fold m2 in E1, E2, E3.
  assert (sum_streams m1 = sum_streams m) as Em by done.
  assert (manager_inv m2) as Hi2 by (by apply exec_all_inv).
  pose proof (sum_streams_nonneg m2 Hi2). split_and!; [by intros E; rewrite E in E3|lia| |done].
  unfold Drain_check. rewrite totalStreams_spec by done. destruct (_ =? 0) eqn:E; bools.
  - split; [|done]. unfold two32 in *. lia.
  - split; [done|]. unfold two32 in *. lia.
Qed.

(** ** Witnesses *)

Definition node0 : Manager := mkManager (New "node") 2 ∅ 0.

(** Two streams of generation 1, one of generation 2. *)
Definition traffic : list op :=
  [OMarkReady; OAdmit "a" 1; OOpen "a" 1; OOpen "a" 1; OReplace "a" 2; OOpen "a" 2].
Definition busy : Manager := exec_all traffic node0.

Lemma traffic_ok : Forall op_ok traffic.
Proof. by repeat constructor. Qed.

Lemma busy_inv : manager_inv busy.
Proof. apply exec_all_inv; [by apply (node_new_inv (New "node") 2)|apply traffic_ok]. Qed.

Lemma node_invariant_witness :
  manager_inv busy ∧ ms_Streams (Manager_Snapshot busy) = Z.min (sum_streams busy) (two32 - 1)
  ∧ ms_Streams (Manager_Snapshot busy) = 3.
Proof.
  destruct (node_invariant (New "node") 2 node0 traffic) as [H1 H2]; [done|done|apply traffic_ok|].
  split; [apply H1|]. split; [apply H2|by vm_compute].
Defined.

Lemma stream_accounting_witness :
  streams_of (exec_all [OClose "a" 1] busy) "a" 1 = 2 + -1
  ∧ (CloseStream "a" 1 (exec_all [OClose "a" 1] busy)).1 = None.
Proof.
  destruct (stream_accounting busy [OClose "a" 1] "a" 1) as [H1 H2];
    [apply busy_inv|by repeat constructor|by repeat constructor|].
  split; [rewrite H1; by vm_compute|]. apply H2. rewrite H1. by vm_compute.
Defined.

Lemma node_phases_witness :
  (OpenStream "a" 2 (exec_all [OBeginDrain 5] busy)).2 = exec_all [OBeginDrain 5] busy
  ∧ rank (phase busy) ≤ rank (phase (exec_all [OBeginDrain 5] busy)).
Proof.
  destruct (node_phases "node" 2 node0 traffic [OBeginDrain 5] "a" 2) as (H1 & _ & _ & H4); [done|].
  split; [|apply H1]. refine (proj1 (H4 _)). by vm_compute.
Defined.

Definition closing : list op := [OClose "a" 1; OClose "a" 2; OClose "a" 1].

Lemma drain_completes_witness :
  Drain_check (exec_all closing (Drain_begin 5 busy)) = Some false
  ∧ Drain_check (Drain_begin 5 busy) = None.
Proof.
  split; [|by vm_compute].
  destruct (drain_completes 5 busy closing) as (_ & _ & H & _);
    [apply busy_inv|by repeat constructor|by repeat constructor|]. apply H. by vm_compute.
Defined.
End NodeGuarantees.
