(* ===== verification/Route.v ===== *)
(** * Route rules and matching

    Models the pure part of [internal/route/matcher.go] and the host-name
    predicates of [route.go]: normalisation and validation of rules, the host and
    path tests, and the choice of the most specific rule.  Unicode and IDNA
    conversions and the recognition of IP addresses are the interface
    [TextLib]. *)
From S2P Require Import Prelude Go Strings.

Module Route.

Class TextLib := {
  unicode_lower : string → string;       (** [strings.ToLower] of a non-ASCII string *)
  ToASCII : string → option string;      (** [idna.Lookup.ToASCII] *)
  isIP : string → bool;                  (** [net.ParseIP(s) != nil] *)
  ValidUTF8 : string → bool              (** [utf8.ValidString] *)
}.

(** The sentinels of [route.go] and [matcher.go], and errors of contexts. *)
Inductive error :=
  | ErrConflict | ErrInvalid | ErrStale
  | ErrNoMatch | ErrMatchConflict | ErrGenerationStale | ErrGenerationNotReady
  | ErrGenerationConflict | ErrGenerationClosed | ErrDrainTimeout | ErrStreamOverloaded
  | ErrContext (e : err).

Definition MatchExact := "exact".
Definition MatchManagedExact := "managed_exact".
Definition MatchOneLabelWildcard := "one_label_wildcard".
Definition MatchCatchAll := "catch_all".
Definition DefaultMaximumRoutes : Z := 4096.
Definition DefaultMaximumStreams : Z := 16384.

Definition HelperHTTPSWSS := "runtime_https_wss".
Definition PreviewHTTPSWSS := "preview_public_https_wss".
Definition TunnelHTTPSWSS := "tunnel_http_wss".
Definition TunnelTCP := "tunnel_tcp".
Definition TunnelPrivateTCP := "tunnel_private_tcp".

Record RouteRule := mkRule {
  rr_ID : string;
  rr_Revision : Z;
  rr_Generation : Z;
  rr_RouteID : string;
  rr_RouteGeneration : Z;
  rr_AssignmentID : string;
  rr_AssignmentGeneration : Z;
  rr_ResourceKind : string;
  rr_SessionGeneration : Z;
  rr_Environment : string;
  rr_AccountID : string;
  rr_HostID : string;
  rr_MachineIdentityPublicKey : string;
  rr_MachineIdentityThumbprint : string;
  rr_TunnelID : string;
  rr_ConnectorID : string;
  rr_ConnectorSessionID : string;
  rr_ConnectorProcessGeneration : Z;
  rr_ConfigGeneration : Z;
  rr_ConfigContentHash : string;
  rr_Node : string;
  rr_EdgeProcessEpoch : string;
  rr_EdgeFailureDomain : string;
  rr_Kind : string;
  rr_MatchType : string;
  rr_Hostname : string;
  rr_WildcardSuffix : string;
  rr_PathPrefix : string;
  rr_Priority : Z;
  rr_Target : string;
  rr_Protocol : string;
  rr_PublicTCPListenerID : string;
  rr_PublicTCPPort : Z;
  rr_OriginScheme : string;
  rr_AccessMode : string;
  rr_PreserveHost : bool;
  rr_HostOverride : string;
  rr_DesiredState : string;
  rr_ObservedState : string;
  rr_Reason : string
}.
#[export] Instance RouteRule_eta : Eta RouteRule := λ r,
  mkRule (rr_ID r) (rr_Revision r) (rr_Generation r) (rr_RouteID r) (rr_RouteGeneration r)
    (rr_AssignmentID r) (rr_AssignmentGeneration r) (rr_ResourceKind r) (rr_SessionGeneration r)
    (rr_Environment r) (rr_AccountID r) (rr_HostID r) (rr_MachineIdentityPublicKey r)
    (rr_MachineIdentityThumbprint r) (rr_TunnelID r) (rr_ConnectorID r) (rr_ConnectorSessionID r)
    (rr_ConnectorProcessGeneration r) (rr_ConfigGeneration r) (rr_ConfigContentHash r) (rr_Node r)
    (rr_EdgeProcessEpoch r) (rr_EdgeFailureDomain r) (rr_Kind r) (rr_MatchType r) (rr_Hostname r)
    (rr_WildcardSuffix r) (rr_PathPrefix r) (rr_Priority r) (rr_Target r) (rr_Protocol r)
    (rr_PublicTCPListenerID r) (rr_PublicTCPPort r) (rr_OriginScheme r) (rr_AccessMode r)
    (rr_PreserveHost r) (rr_HostOverride r) (rr_DesiredState r) (rr_ObservedState r) (rr_Reason r).
#[export] Instance RouteRule_eq_dec : EqDecision RouteRule.
Proof. solve_decision. Defined.

Record RouteMatch := mkMatch {
  rm_Rule : RouteRule;
  rm_Host : string;
  rm_Path : string;
  rm_Generation : Z
}.

(** ** Paths *)

Definition slash : Z := 47.

Definition normalizeRequestPath (requestPath : string) : option string :=
  if requestPath == "" then Some "/"
  else if negb (HasPrefix requestPath "/") || ContainsAny requestPath [13; 10; 0; 63; 35]
          || ContainsDouble requestPath slash
  then None
  else if existsb (λ segment, (segment == ".") || (segment == "..")) (Split requestPath slash) then None
  else Some (if 1 <? len requestPath then TrimSuffix requestPath "/" else requestPath).

Definition pathMatches (prefix requestPath : string) : bool :=
  if prefix == "/" then true
  else (requestPath == prefix) || HasPrefix requestPath (prefix +:+ "/").

(** ** Hosts *)

Section Hosts.
Context `{TextLib}.

Definition lower (s : string) : string := ToLower unicode_lower s.

Definition normalizeHost (host : string) : string := lower (TrimSuffix (TrimSpace host) ".").

Definition is_hex (b : byte) : bool := is_digit b || in_range 97 102 b.

(** [^[0-9a-f]{8}-[0-9a-f]{4}-[0-9a-f]{4}-[89ab][0-9a-f]{3}-[0-9a-f]{12}$]. *)
Definition opaqueTunnelEndpointLabelPattern (s : string) : bool :=
  match split_on 45 [] (sbytes s) with
  | [a; b; c; d; e] =>
      bool_decide (length a = 8 ∧ length b = 4 ∧ length c = 4 ∧ length d = 4 ∧ length e = 12)%nat
      && forallb is_hex (a ++ b ++ c ++ d ++ e)
      && match d with x :: _ => one_of [56; 57; 97; 98] x | [] => false end
  | _ => false
  end.

Definition ValidManagedTunnelHostname (host baseDomain : string) : bool :=
  let host := TrimSpace host in
  let baseDomain := normalizeHost baseDomain in
  if (host == "") || (host != normalizeHost host) || (baseDomain == "") then false
  else match CutSuffix host ("." +:+ baseDomain) with
  | None => false
  | Some prefix => opaqueTunnelEndpointLabelPattern prefix && negb (ContainsByte prefix 46)
  end.

Definition ValidOpaqueTunnelHostname (host : string) : bool :=
  let host := TrimSpace host in
  if (host == "") || (host != normalizeHost host) then false
  else match Split host 46 with
  | label :: _ :: _ => opaqueTunnelEndpointLabelPattern label
  | _ => false
  end.

(** A label [normalizeMatchHost] accepts. *)
Definition label_ok (label : string) : bool :=
  match sbytes label with
  | [] => false
  | c :: _ => (len label <=? 63) && negb (byte_to_Z c =? 45)
              && negb (byte_to_Z (List.last (sbytes label) x00) =? 45)
  end.

Definition normalizeMatchHost (host : string) : option string :=
  let host := TrimSpace host in
  if (host == "") || ContainsAny host [13; 10; 0; 32; 47; 63] then None
  else
    match (match SplitHostPort host with
           | Some (parsed, _) => Some parsed
           | None => if 0 <? CountByte host 58 then None else Some host
           end) with
    | None => None
    | Some host =>
        let host := TrimSuffix host "." in
        if (host == "") || isIP host then None
        else if negb (ValidUTF8 host) then None
        else match ToASCII host with
        | None => None
        | Some ascii =>
            if (ascii == "") || (253 <? len ascii) || ContainsDouble ascii 46 then None
            else if forallb label_ok (Split ascii 46) then Some (lower ascii) else None
        end
    end.

Definition desired_states : list string :=
  ["active"; "ready"; "degraded"; "offline"; "registering"; "disabled"; "deleted"; "expired"; "removed"].

(** The [switch matchType] of [normalizeRule]. *)
Definition normalizeMatch (matchType : string) (rule : RouteRule) : option RouteRule :=
  if (matchType == MatchExact) || (matchType == MatchManagedExact) then
    if (rr_Hostname rule == "") && (rr_WildcardSuffix rule != "") then None
    else if ContainsByte (rr_Hostname rule) 42 || ContainsByte (rr_WildcardSuffix rule) 42 then None
    else match normalizeMatchHost (rr_Hostname rule) with
    | None => None
    | Some host =>
        if (host == "") || isIP host then None
        else if (matchType == MatchManagedExact) && (rr_Kind rule == TunnelHTTPSWSS)
                && negb (ValidOpaqueTunnelHostname host) then None
        else Some (rule <| rr_Hostname := host |> <| rr_WildcardSuffix := "" |>)
    end
  else if matchType == MatchOneLabelWildcard then
    let suffix := if (rr_WildcardSuffix rule == "") && HasPrefix (rr_Hostname rule) "*."
                  then TrimPrefix (rr_Hostname rule) "*." else rr_WildcardSuffix rule in
    if (suffix == "") || ContainsByte suffix 42 then None
    else match normalizeMatchHost suffix with
    | None => None
    | Some suffix =>
        if (suffix == "") || isIP suffix || negb (ContainsByte suffix 46) then None
        else Some (rule <| rr_Hostname := "" |> <| rr_WildcardSuffix := suffix |>)
    end
  else if matchType == MatchCatchAll then
    if (rr_Hostname rule != "") || (rr_WildcardSuffix rule != "") then None
    else Some (rule <| rr_Hostname := "" |> <| rr_WildcardSuffix := "" |>)
  else None.

(** The checks of [normalizeRule] after the match fields. *)
Definition normalizeOrigin (rule : RouteRule) : option RouteRule :=
  if (rr_HostOverride rule != "")
     && ContainsAny (rr_HostOverride rule) [13; 10; 0; 47; 63; 35; 32; 9] then None
  else
    match (if rr_OriginScheme rule == "" then Some rule
           else let scheme := lower (rr_OriginScheme rule) in
                if bool_decide (scheme ∈ ["http"; "https"; "h2c"; "unix"])
                then Some (rule <| rr_OriginScheme := scheme |>) else None) with
    | None => None
    | Some rule =>
        if (rr_Target rule == "") || ContainsAny (rr_Target rule) [13; 10; 0] then None
        else if rr_Kind rule == TunnelHTTPSWSS then
          if ContainsAny (rr_Target rule) [32; 9; 63; 35] then None else Some rule
        else if rr_OriginScheme rule == "unix" then
          if negb (HasPrefix (rr_Target rule) "/") || ContainsAny (rr_Target rule) [63; 35] then None
          else Some rule
        else if rr_OriginScheme rule != "" then
          match SplitHostPort (rr_Target rule) with None => None | Some _ => Some rule end
        else Some rule
    end.

Definition normalizeRule (generation : Z) (rule : RouteRule) : option RouteRule :=
  if (rr_ID rule == "") || ContainsAny (rr_ID rule) [13; 10; 0] then None
  else
    let rule := if rr_Generation rule =? 0 then rule <| rr_Generation := generation |> else rule in
    if negb (rr_Generation rule =? generation) then None
    else if (rr_Kind rule != HelperHTTPSWSS) && (rr_Kind rule != PreviewHTTPSWSS)
            && (rr_Kind rule != TunnelHTTPSWSS) then None
    else
      let matchType := lower (TrimSpace (rr_MatchType rule)) in
      let matchType := if matchType == "" then MatchExact else matchType in
      match normalizeMatch matchType rule with
      | None => None
      | Some rule =>
          match normalizeRequestPath (rr_PathPrefix rule) with
          | None => None
          | Some pathPrefix =>
              let rule := rule <| rr_MatchType := matchType |> <| rr_PathPrefix := pathPrefix |> in
              let rule := if rr_DesiredState rule == "" then rule <| rr_DesiredState := "active" |>
                          else rule in
              if negb (bool_decide (rr_DesiredState rule ∈ desired_states)) then None
              else normalizeOrigin rule
          end
      end.
End Hosts.

(** ** Matching *)

(** Class, number of suffix labels, and whether the rule matches the host. *)
Definition hostMatch (rule : RouteRule) (host : string) : Z * Z * bool :=
  if (rr_MatchType rule == MatchExact) || (rr_MatchType rule == MatchManagedExact)
  then (3, 0, host == rr_Hostname rule)
  else if rr_MatchType rule == MatchOneLabelWildcard then
    let dotted := "." +:+ rr_WildcardSuffix rule in
    if (host == rr_WildcardSuffix rule) || negb (HasSuffix host dotted) then (0, 0, false)
    else
      let prefix := TrimSuffix host dotted in
      if (prefix == "") || ContainsByte prefix 46 then (0, 0, false)
      else (2, CountByte (rr_WildcardSuffix rule) 46 + 1, true)
  else if rr_MatchType rule == MatchCatchAll then (1, 0, true)
  else (0, 0, false).

Record routeCandidate := mkCandidate {
  rc_rule : RouteRule;
  rc_hostClass : Z;
  rc_suffixLabels : Z
}.

Definition compareInt (left right : Z) : Z := if left <? right then -1 else if right <? left then 1 else 0.

(** Lower priority numbers are preferred. *)
Definition comparePriority (left right : RouteRule) : Z :=
  if negb (rr_Priority left =? rr_Priority right)
  then if rr_Priority left <? rr_Priority right then 1 else -1
  else 0.

Definition compareCandidates (left right : routeCandidate) : Z :=
  if negb (rc_hostClass left =? rc_hostClass right) then compareInt (rc_hostClass left) (rc_hostClass right)
  else if negb (rc_suffixLabels left =? rc_suffixLabels right)
  then compareInt (rc_suffixLabels left) (rc_suffixLabels right)
  else if negb (len (rr_PathPrefix (rc_rule left)) =? len (rr_PathPrefix (rc_rule right)))
  then compareInt (len (rr_PathPrefix (rc_rule left))) (len (rr_PathPrefix (rc_rule right)))
  else comparePriority (rc_rule left) (rc_rule right).

Definition compareHostCandidates (left right : routeCandidate) : Z :=
  if negb (rc_hostClass left =? rc_hostClass right) then compareInt (rc_hostClass left) (rc_hostClass right)
  else if negb (rc_suffixLabels left =? rc_suffixLabels right)
  then compareInt (rc_suffixLabels left) (rc_suffixLabels right)
  else comparePriority (rc_rule left) (rc_rule right).

Definition retired (rule : RouteRule) : bool :=
  (rr_DesiredState rule == "disabled") || (rr_DesiredState rule == "deleted")
  || (rr_DesiredState rule == "expired") || (rr_DesiredState rule == "removed").

Fixpoint choose_loop (rules : list RouteRule) (host requestPath : string) (best : option routeCandidate)
    : error + RouteRule :=
  match rules with
  | [] => match best with None => inl ErrNoMatch | Some best => inr (rc_rule best) end
  | rule :: rules =>
      if retired rule then choose_loop rules host requestPath best
      else
        let '(class, labels, ok) := hostMatch rule host in
        if negb ok || negb (pathMatches (rr_PathPrefix rule) requestPath)
        then choose_loop rules host requestPath best
        else
          let candidate := mkCandidate rule class labels in
          match best with
          | None => choose_loop rules host requestPath (Some candidate)
          | Some b =>
              let comparison := compareCandidates candidate b in
              if 0 <? comparison then choose_loop rules host requestPath (Some candidate)
              else if comparison =? 0 then inl ErrMatchConflict
              else choose_loop rules host requestPath best
          end
  end.

Definition chooseRule (rules : list RouteRule) (host requestPath : string) : error + RouteRule :=
  choose_loop rules host requestPath None.

Fixpoint choose_host_loop (rules : list RouteRule) (host : string) (best : option routeCandidate)
    : option RouteRule :=
  match rules with
  | [] => rc_rule <$> best
  | rule :: rules =>
      if retired rule then choose_host_loop rules host best
      else
        let '(class, labels, ok) := hostMatch rule host in
        if negb ok then choose_host_loop rules host best
        else
          let candidate := mkCandidate rule class labels in
          match best with
          | None => choose_host_loop rules host (Some candidate)
          | Some b => choose_host_loop rules host
                        (if 0 <? compareHostCandidates candidate b then Some candidate else best)
          end
  end.

Definition chooseHostRule (rules : list RouteRule) (host : string) : option RouteRule :=
  choose_host_loop rules host None.

(** ** Overlap *)

Definition isExactMatchType (matchType : string) : bool :=
  (matchType == MatchExact) || (matchType == MatchManagedExact).

Definition exactFallsUnderWildcard (host suffix : string) : bool :=
  if (host == suffix) || negb (HasSuffix host ("." +:+ suffix)) then false
  else negb (ContainsByte (TrimSuffix host ("." +:+ suffix)) 46).

Definition hostsOverlap (left right : RouteRule) : bool :=
  if (rr_MatchType left == MatchCatchAll) || (rr_MatchType right == MatchCatchAll) then true
  else if isExactMatchType (rr_MatchType left) && isExactMatchType (rr_MatchType right)
  then rr_Hostname left == rr_Hostname right
  else if (rr_MatchType left == MatchOneLabelWildcard) && (rr_MatchType right == MatchOneLabelWildcard)
  then rr_WildcardSuffix left == rr_WildcardSuffix right
  else if isExactMatchType (rr_MatchType left) && (rr_MatchType right == MatchOneLabelWildcard)
  then exactFallsUnderWildcard (rr_Hostname left) (rr_WildcardSuffix right)
  else if isExactMatchType (rr_MatchType right) && (rr_MatchType left == MatchOneLabelWildcard)
  then exactFallsUnderWildcard (rr_Hostname right) (rr_WildcardSuffix left)
  else false.

Definition rulesOverlap (left right : RouteRule) : bool :=
  if negb (hostsOverlap left right) then false
  else pathMatches (rr_PathPrefix left) (rr_PathPrefix right)
       || pathMatches (rr_PathPrefix right) (rr_PathPrefix left).

Definition overlapHost (rule : RouteRule) : string :=
  if (rr_MatchType rule == MatchExact) || (rr_MatchType rule == MatchManagedExact) then rr_Hostname rule
  else if rr_MatchType rule == MatchOneLabelWildcard then "edge." +:+ rr_WildcardSuffix rule
  else "edge.example.test".

(** A rule as a candidate for its own host. *)
Definition own_candidate (rule : RouteRule) : routeCandidate :=
  let '(class, labels, _) := hostMatch rule (overlapHost rule) in mkCandidate rule class labels.

Definition ambiguous (left right : RouteRule) : bool :=
  rulesOverlap left right && (compareCandidates (own_candidate left) (own_candidate right) =? 0).

(** The pairwise loops of [normalizeRules]. *)
Fixpoint any_ambiguous (rules : list RouteRule) : bool :=
  match rules with
  | [] => false
  | rule :: rules => existsb (ambiguous rule) rules || any_ambiguous rules
  end.

Section Rules.
Context `{TextLib}.

(** The first loop of [normalizeRules]. *)
Fixpoint normalize_each (generation : Z) (rules : list RouteRule) (seen : gset string)
    : error + list RouteRule :=
  match rules with
  | [] => inr []
  | rule :: rules =>
      match normalizeRule generation rule with
      | None => inl ErrInvalid
      | Some normalized =>
          if bool_decide (rr_ID normalized ∈ seen) then inl ErrMatchConflict
          else match normalize_each generation rules ({[rr_ID normalized]} ∪ seen) with
          | inl e => inl e
          | inr rest => inr (normalized :: rest)
          end
      end
  end.

Definition normalizeRules (generation : Z) (rules : list RouteRule) (maximum : Z)
    : error + list RouteRule :=
  if maximum <? Z.of_nat (length rules) then inl ErrInvalid
  else match normalize_each generation rules ∅ with
  | inl e => inl e
  | inr result =>
      let result := sort_by rr_ID result in
      if any_ambiguous result then inl ErrMatchConflict else inr result
  end.
End Rules.
End Route.
