(* ===== verification/RouteProofs.v ===== *)
(** * Route matching: theorems

    A validated rule set has exactly one most specific rule for every request that
    any rule applies to, and the matcher finds it. *)
From S2P Require Import Prelude Go Strings Route.

Module RouteProofs.
Import Route.

(** ** The reference definition *)

(** A rule as a candidate for a host. *)
Definition candidate (host : string) (rule : RouteRule) : routeCandidate :=
  let '(class, labels, _) := hostMatch rule host in mkCandidate rule class labels.

Definition applies (host path : string) (rule : RouteRule) : bool :=
  negb (retired rule) && (hostMatch rule host).2 && pathMatches (rr_PathPrefix rule) path.

(** [r] beats [r']: lexicographically by host class, suffix labels, length of the
    path prefix, and lower priority number. *)
Definition beats (a b : routeCandidate) : Prop :=
  let pa := len (rr_PathPrefix (rc_rule a)) in
  let pb := len (rr_PathPrefix (rc_rule b)) in
  rc_hostClass b < rc_hostClass a
  ∨ rc_hostClass b = rc_hostClass a ∧
    (rc_suffixLabels b < rc_suffixLabels a
     ∨ rc_suffixLabels b = rc_suffixLabels a ∧
       (pb < pa ∨ pb = pa ∧ rr_Priority (rc_rule a) < rr_Priority (rc_rule b))).

Definition most_specific (rules : list RouteRule) (host path : string) (r : RouteRule) : Prop :=
  r ∈ rules ∧ applies host path r = true
  ∧ ∀ r', r' ∈ rules → applies host path r' = true → r' ≠ r → beats (candidate host r) (candidate host r').

(** ** Comparison *)

Lemma compare_cases a b :
  (0 < compareCandidates a b ↔ beats a b) ∧ (compareCandidates a b < 0 ↔ beats b a)
  ∧ (compareCandidates a b = 0 ↔ ¬ beats a b ∧ ¬ beats b a).
Proof.
  unfold compareCandidates, comparePriority, compareInt, beats. cbn zeta.
  repeat case_match; bools; lia.
Qed.

Lemma beats_trans a b c : beats a b → beats b c → beats a c.
Proof. unfold beats. cbn zeta. lia. Qed.

(** ** The loop *)

Lemma candidate_rule host r : rc_rule (candidate host r) = r.
Proof. unfold candidate. by destruct (hostMatch r host) as [[? ?] ?]. Qed.

Lemma choose_step rule rules host path best :
  choose_loop (rule :: rules) host path best =
  if negb (applies host path rule) then choose_loop rules host path best
  else match best with
  | None => choose_loop rules host path (Some (candidate host rule))
  | Some b => if 0 <? compareCandidates (candidate host rule) b
              then choose_loop rules host path (Some (candidate host rule))
              else if compareCandidates (candidate host rule) b =? 0 then inl ErrMatchConflict
              else choose_loop rules host path best
  end.
Proof.
  cbn [choose_loop]. unfold applies, candidate. destruct (retired rule); [done|].
  destruct (hostMatch rule host) as [[class labels] hit]. cbn. destruct hit; [|done]. cbn.
  by destruct (pathMatches _ _).
Qed.

(** No two rules that apply to a request are equally specific. *)
Definition tie_free (rules : list RouteRule) : Prop :=
  ∀ host path r r', r ∈ rules → r' ∈ rules → r ≠ r' →
    applies host path r = true → applies host path r' = true →
    compareCandidates (candidate host r) (candidate host r') ≠ 0.

Lemma tie_free_sub rules rules' : rules' ⊆ rules → tie_free rules → tie_free rules'.
Proof. intros Hs Ht host path r r' ? ?. apply Ht; by apply Hs. Qed.

Lemma tie_free_beats rules host path r r' :
  tie_free rules → r ∈ rules → r' ∈ rules → r ≠ r' → applies host path r = true →
  applies host path r' = true →
  beats (candidate host r) (candidate host r') ∨ beats (candidate host r') (candidate host r).
Proof.
  intros Ht Hr Hr' Hne Ha Ha'.
  pose proof (compare_cases (candidate host r) (candidate host r')) as (C1 & C2 & _).
  specialize (Ht host path r r' Hr Hr' Hne Ha Ha').
  destruct (Z.lt_trichotomy (compareCandidates (candidate host r) (candidate host r')) 0) as [?|[?|?]];
    [right; by apply C2|done|left; by apply C1].
Qed.

Lemma most_specific_skip rules host path b rule r :
  most_specific (b :: rules) host path r →
  (applies host path rule = true → rule ≠ r → beats (candidate host r) (candidate host rule)) →
  most_specific (b :: rule :: rules) host path r.
Proof.
  intros (Hin & Ha & Hbest) Hr. split_and!; [|done|].
  - apply elem_of_cons in Hin as [->|Hin]; [by left|by right; right].
  - intros r' Hr' Ha' Hne. apply elem_of_cons in Hr' as [->|Hr']; [apply Hbest; [by left|done..]|].
    apply elem_of_cons in Hr' as [->|Hr']; [by apply Hr|apply Hbest; [by right|done..]].
Qed.

Lemma most_specific_perm rules rules' host path r :
  rules ≡ₚ rules' → most_specific rules host path r → most_specific rules' host path r.
Proof.
  intros E (Hin & Ha & Hbest). split_and!; [by rewrite <- E|done|].
  intros r' Hr'. apply Hbest. by rewrite E.
Qed.

(** The best of a set that is beaten by, or is, [b] beats what [b] beats. *)
Lemma most_specific_above rules host path r b c :
  most_specific rules host path r → b ∈ rules → applies host path b = true →
  beats (candidate host b) (candidate host c) → beats (candidate host r) (candidate host c).
Proof.
  intros (Hin & Ha & Hbest) Hb Hab Hbc. destruct (decide (b = r)) as [->|Hne]; [exact Hbc|].
  eapply beats_trans; [|exact Hbc]. by apply Hbest.
Qed.

Lemma choose_best rules host path b :
  NoDup (b :: rules) → tie_free (b :: rules) → applies host path b = true →
  ∃ r, choose_loop rules host path (Some (candidate host b)) = inr r
       ∧ most_specific (b :: rules) host path r.
Proof.
  revert b. induction rules as [|rule rules IH]; intros b Hnd Ht Hb.
  { exists b. split; [cbn; by rewrite candidate_rule|]. split_and!; [by left|done|].
    intros r' Hr' _ Hne. by apply list_elem_of_singleton in Hr'. }
  assert (NoDup (b :: rules) ∧ NoDup (rule :: rules) ∧ rule ≠ b) as (Nb & Nr & Hne).
  { apply NoDup_cons in Hnd as [Hb1 Hnd]. pose proof Hnd as [? ?]%NoDup_cons.
    split_and!; [apply NoDup_cons; split; [|done]|done|]; intros E; apply Hb1; [by right|subst; by left]. }
  assert (tie_free (b :: rules)) as Tb by (eapply tie_free_sub; [|exact Ht]; clear; set_solver).
  assert (tie_free (rule :: rules)) as Tr by (eapply tie_free_sub; [|exact Ht]; clear; set_solver).
  rewrite choose_step. destruct (applies host path rule) eqn:Hr; cbn [negb].
  2: { destruct (IH b Nb Tb Hb) as (r & E & Hms). exists r. split; [done|].
       apply most_specific_skip; [done|]. congruence. }
  pose proof (compare_cases (candidate host rule) (candidate host b)) as (C1 & C2 & C3).
  destruct (tie_free_beats (b :: rule :: rules) host path rule b Ht) as [Hw|Hw];
    [by right; left|by left|done|done|done|..].
  - rewrite (proj2 (Z.ltb_lt _ _)) by (by apply C1). destruct (IH rule Nr Tr Hr) as (r & E & Hms).
    exists r. split; [done|]. eapply most_specific_perm; [apply Permutation_swap|].
    apply most_specific_skip; [done|]. intros _ _. eapply most_specific_above; [done|by left|done|done].
  - apply C2 in Hw as Hlt. rewrite (proj2 (Z.ltb_ge _ _)), (proj2 (Z.eqb_neq _ _)) by lia.
    destruct (IH b Nb Tb Hb) as (r & E & Hms). exists r. split; [done|].
    apply most_specific_skip; [done|]. intros _ _. eapply most_specific_above; [done|by left|done|done].
Qed.

Lemma chooseRule_cases rules host path :
  NoDup rules → tie_free rules →
  (∃ r, chooseRule rules host path = inr r ∧ most_specific rules host path r)
  ∨ chooseRule rules host path = inl ErrNoMatch ∧ ∀ r, r ∈ rules → applies host path r = false.
Proof.
  unfold chooseRule. induction rules as [|rule rules IH]; intros Hnd Ht.
  { right. split; [done|]. intros r. by rewrite elem_of_nil. }
  rewrite choose_step. destruct (applies host path rule) eqn:Hr; cbn [negb].
  - left. by apply choose_best.
  - apply NoDup_cons in Hnd as [_ Hnd].
    destruct IH as [(r & E & Hin & Ha & Hbest)|[E Hno]]; [done|eapply tie_free_sub; [|exact Ht]; clear; set_solver| |].
    + left. exists r. split; [done|]. split_and!; [by right|done|]. intros r' Hr' Ha' ?. apply Hbest; try done.
      apply elem_of_cons in Hr' as [->|?]; [congruence|done].
    + right. split; [done|]. intros r [->|?]%elem_of_cons; [done|by apply Hno].
Qed.

Lemma most_specific_unique rules host path r r' :
  most_specific rules host path r → most_specific rules host path r' → r = r'.
Proof.
  intros (H1 & H2 & H3) (H1' & H2' & H3'). destruct (decide (r = r')) as [|Hne]; [done|exfalso].
  specialize (H3 r' H1' H2' (not_eq_sym Hne)). specialize (H3' r H1 H2 Hne). revert H3 H3'.
  unfold beats. cbn zeta. lia.
Qed.

(** ** Validated rule sets have no ties *)

Lemma hostMatch_wildcard rule host :
  rr_MatchType rule = MatchOneLabelWildcard →
  hostMatch rule host =
  match CutSuffix host ("." +:+ rr_WildcardSuffix rule) with
  | Some prefix =>
      if (prefix == "") || ContainsByte prefix 46 then (0, 0, false)
      else (2, CountByte (rr_WildcardSuffix rule) 46 + 1, true)
  | None => (0, 0, false)
  end.
Proof.
  intros E. unfold hostMatch. rewrite E. 
  change (MatchOneLabelWildcard == MatchExact) with false.
  unfold TrimSuffix. rewrite HasSuffix_CutSuffix.
  destruct (CutSuffix host _) as [prefix|] eqn:C; cbn; [|by rewrite orb_true_r].
  destruct (host == rr_WildcardSuffix rule) eqn:Eh; [|done]. bools.
  apply CutSuffix_Some in C. rewrite sbytes_app, Eh in C. apply (f_equal length) in C.
  rewrite !length_app in C. cbn in C. lia.
Qed.

Lemma hostMatch_true rule host class labels :
  hostMatch rule host = (class, labels, true) →
  isExactMatchType (rr_MatchType rule) = true ∧ class = 3 ∧ labels = 0 ∧ rr_Hostname rule = host
  ∨ rr_MatchType rule = MatchOneLabelWildcard ∧ class = 2
    ∧ labels = CountByte (rr_WildcardSuffix rule) 46 + 1
    ∧ (∃ prefix, CutSuffix host ("." +:+ rr_WildcardSuffix rule) = Some prefix
                 ∧ ContainsByte prefix 46 = false)
  ∨ rr_MatchType rule = MatchCatchAll ∧ class = 1 ∧ labels = 0.
Proof.
  intros E. destruct (isExactMatchType (rr_MatchType rule)) eqn:Ex.
  { left. unfold hostMatch in E. unfold isExactMatchType in Ex. rewrite Ex in E.
    injection E as <- <- E. bools. done. }
  right. destruct (decide (rr_MatchType rule = MatchOneLabelWildcard)) as [Ew|Ew].
  { left. rewrite hostMatch_wildcard in E by done. destruct (CutSuffix host _) as [prefix|]; [|done].
    destruct ((prefix == "") || ContainsByte prefix 46) eqn:Ep; [done|]. injection E as <- <-.
    apply orb_false_iff in Ep as [_ Ep]. split_and!; [done..|by exists prefix]. }
  right. unfold hostMatch in E. unfold isExactMatchType in Ex. rewrite Ex in E.
  rewrite (bool_decide_eq_false_2 (_ = MatchOneLabelWildcard)) in E by done.
  destruct (rr_MatchType rule == MatchCatchAll) eqn:Ec; [|done]. bools. by injection E as <- <-.
Qed.

(** The class and label count of a rule that matches do not depend on the host. *)
Lemma own_candidate_applies rule host :
  (hostMatch rule host).2 = true → own_candidate rule = candidate host rule.
Proof.
  unfold own_candidate, candidate. destruct (hostMatch rule host) as [[class labels] hit] eqn:E.
  cbn. intros ->. apply hostMatch_true in E as [(Ex & -> & -> & Eh)|[(Ew & -> & -> & _)|(Ec & -> & ->)]].
  - unfold hostMatch. unfold isExactMatchType in Ex. by rewrite Ex.
  - rewrite hostMatch_wildcard by done. unfold overlapHost. rewrite Ew.
    change ((MatchOneLabelWildcard == MatchExact) || (MatchOneLabelWildcard == MatchManagedExact)) with false.
    change (MatchOneLabelWildcard == MatchOneLabelWildcard) with true. cbn match.
    rewrite (proj2 (CutSuffix_Some _ _ "edge")); [done|]. change "edge." with ("edge" +:+ ".").
    by rewrite !sbytes_app, app_assoc.
  - unfold hostMatch. by rewrite Ec.
Qed.

Lemma same_host_overlap left right host :
  (hostMatch left host).2 = true → (hostMatch right host).2 = true →
  rc_hostClass (candidate host left) = rc_hostClass (candidate host right) →
  hostsOverlap left right = true.
Proof.
  unfold candidate, hostsOverlap. destruct (hostMatch left host) as [[cl ll] hl] eqn:El.
  destruct (hostMatch right host) as [[cr lr] hr] eqn:Er. cbn. intros -> -> <-.
  apply hostMatch_true in El as [(Ex & -> & -> & Eh)|[(Ew & -> & -> & p & Hp & Hd)|(Ec & -> & ->)]];
    apply hostMatch_true in Er as [(Ex' & ? & ? & Eh')|[(Ew' & ? & ? & p' & Hp' & Hd')|(Ec' & ? & ?)]]; try lia.
  - rewrite Ex, Ex', Eh, Eh', (bool_decide_eq_true_2 (host = host)) by done. cbn. by destruct (_ || _).
  - rewrite Ew, Ew'. rewrite (bool_decide_eq_true_2 (rr_WildcardSuffix left = rr_WildcardSuffix right)); [done|].
    apply CutSuffix_Some in Hp, Hp'. rewrite sbytes_app in Hp, Hp'. rewrite Hp in Hp'.
    apply ContainsByte_false in Hd, Hd'. cbn in Hp'.
    apply (first_dot_unique _ _ _ _ _ _ 46) in Hp' as [_ E]; [by apply sbytes_inj|done..].
  - by rewrite Ec.
Qed.

Lemma pathMatches_bytes p path :
  p ≠ "/" → pathMatches p path = true →
  ∃ k, sbytes path = sbytes p ++ k.
Proof.
  unfold pathMatches, HasPrefix. intros Hp. rewrite (bool_decide_eq_false_2 (p = "/")) by done.
  rewrite orb_true_iff, !bool_decide_eq_true. intros [->|[k E]]; [exists []; by rewrite app_nil_r|].
  rewrite sbytes_app, <- app_assoc in E. by eexists.
Qed.

Lemma pathMatches_same_length p p' path :
  pathMatches p path = true → pathMatches p' path = true → len p = len p' →
  pathMatches p p' || pathMatches p' p = true.
Proof.
  destruct (decide (p = "/")) as [->|Hp]; [done|].
  destruct (decide (p' = "/")) as [->|Hp']; [by rewrite orb_true_r|].
  intros [k Hk]%pathMatches_bytes [k' Hk']%pathMatches_bytes El; [|done..].
  rewrite <- !blen_sbytes in El. unfold blen in El. rewrite Hk in Hk'. apply app_inj_1 in Hk' as [E _]; [|lia].
  apply sbytes_inj in E as ->. unfold pathMatches. 
  rewrite (bool_decide_eq_true_2 (p' = p')) by done. by case_bool_decide.
Qed.

Lemma tie_ambiguous host path left right :
  applies host path left = true → applies host path right = true →
  compareCandidates (candidate host left) (candidate host right) = 0 → ambiguous left right = true.
Proof.
  unfold applies. rewrite !andb_true_iff. intros [[_ Hl] Pl] [[_ Hr] Pr] C.
  assert (rc_hostClass (candidate host left) = rc_hostClass (candidate host right)
          ∧ len (rr_PathPrefix left) = len (rr_PathPrefix right)) as [Ec El].
  { revert C. unfold compareCandidates, compareInt. rewrite !candidate_rule. repeat case_match; bools; lia. }
  unfold ambiguous, rulesOverlap. rewrite (same_host_overlap left right host) by done. cbn.
  rewrite (own_candidate_applies left host), (own_candidate_applies right host), C by done.
  by rewrite (pathMatches_same_length _ _ path).
Qed.

Lemma any_ambiguous_false rules r r' :
  any_ambiguous rules = false → r ∈ rules → r' ∈ rules → r ≠ r' →
  ambiguous r r' = false ∨ ambiguous r' r = false.
Proof.
  induction rules as [|x rules IH]; intros H Hr Hr' Hne; [by apply not_elem_of_nil in Hr|].
  cbn in H. apply orb_false_iff in H as [Hx H].
  assert (∀ y, y ∈ rules → ambiguous x y = false) as Hall.
  { intros y Hy. apply not_true_is_false. intros E. apply not_true_iff_false in Hx. apply Hx.
    apply existsb_exists. exists y. by rewrite <- list_elem_of_In. }
  apply elem_of_cons in Hr as [->|Hr]; apply elem_of_cons in Hr' as [->|Hr'];
    first [by destruct Hne|by auto|by right; apply Hall|by left; apply Hall].
Qed.

Lemma unambiguous_tie_free rules : any_ambiguous rules = false → tie_free rules.
Proof.
  intros H host path r r' Hr Hr' Hne Ha Ha' C.
  destruct (any_ambiguous_false rules r r' H Hr Hr' Hne) as [E|E].
  - by rewrite (tie_ambiguous host path) in E.
  - rewrite (tie_ambiguous host path) in E; [done..|].
    apply compare_cases in C as [? ?]. by apply compare_cases.
Qed.

Section Normalised.
Context `{TextLib}.

Lemma normalizeOrigin_ID rule rule' : normalizeOrigin rule = Some rule' → rr_ID rule' = rr_ID rule.
Proof. unfold normalizeOrigin. intros E. repeat (case_match; simplify_eq; try done). Qed.

(** Normalised rules have distinct identifiers, and none is in [seen]. *)
Lemma normalize_each_ids generation rules seen result :
  normalize_each generation rules seen = inr result →
  NoDup (rr_ID <$> result) ∧ Forall (λ r, rr_ID r ∉ seen) result.
Proof.
  revert seen result. induction rules as [|rule rules IH]; intros seen result E; cbn in E.
  { injection E as <-. by split; constructor. }
  destruct (normalizeRule generation rule) as [n|]; [|done]. case_bool_decide as Hn; [done|].
  destruct (normalize_each generation rules _) as [|rest] eqn:Er; [done|]. injection E as <-.
  apply IH in Er as [Hnd Hs]. split.
  - cbn. apply NoDup_cons. split; [|done]. rewrite list_elem_of_fmap. intros (r & Er & Hr).
    rewrite Forall_forall in Hs. apply (Hs r Hr). set_solver.
  - constructor; [done|]. eapply Forall_impl; [exact Hs|]. set_solver.
Qed.

Lemma normalizeRules_inr generation rules maximum result :
  normalizeRules generation rules maximum = inr result →
  NoDup (rr_ID <$> result) ∧ any_ambiguous result = false
  ∧ ∃ l, normalize_each generation rules ∅ = inr l ∧ result = sort_by rr_ID l.
Proof.
  unfold normalizeRules. destruct (_ <? _); [done|].
  destruct (normalize_each generation rules ∅) as [|l] eqn:E; [done|].
  destruct (any_ambiguous _) eqn:Ea; [done|]. intros [= <-]. split_and!; [|done|by eexists].
  rewrite sort_by_Permutation. by apply normalize_each_ids in E as [? _].
Qed.

(** A rule set that validation accepts has, for every host and path, either no
    applicable rule or a single most specific one — by host class, then suffix
    labels, then length of the path prefix, then priority — and the matcher returns
    exactly that rule: it never reports a conflict. *)
Lemma normalizeRules_match generation rules maximum result host path :
  normalizeRules generation rules maximum = inr result →
  (∀ r, chooseRule result host path = inr r ↔ most_specific result host path r)
  ∧ (chooseRule result host path = inl ErrNoMatch ↔ ∀ r, r ∈ result → applies host path r = false)
  ∧ chooseRule result host path ≠ inl ErrMatchConflict.
Proof.
  intros (Hnd & Ha & _)%normalizeRules_inr. apply NoDup_fmap_1 in Hnd. apply unambiguous_tie_free in Ha.
  destruct (chooseRule_cases result host path Hnd Ha) as [(r & E & Hr)|[E Hno]]; rewrite E.
  - split_and!; [|split; [done|]|done].
    + intros r'. split; [by intros [= <-]|]. intros Hr'. f_equal. by eapply most_specific_unique.
    + intros Hno. destruct Hr as (Hin & Happ & _). by rewrite Hno in Happ.
  - split_and!; [|done|done]. intros r. split; [done|]. intros (Hin & Happ & _). by rewrite Hno in Happ.
Qed.

End Normalised.

(** ** A concrete rule set *)

(** ASCII host names, no addresses. *)
Definition plain_text : TextLib := {|
  unicode_lower s := s; ToASCII s := Some s; isIP _ := false; ValidUTF8 _ := true |}.

Definition rule_example (id matchType host prefix : string) (priority : Z) : RouteRule :=
  mkRule id 1 0 "" 0 "" 0 "" 0 "" "" "" "" "" "" "" "" 0 0 "" "" "" "" TunnelHTTPSWSS matchType host ""
    prefix priority "binding" "" "" 0 "" "" false "" "" "" "".

Definition rules_example : list RouteRule :=
  [rule_example "r2" "one_label_wildcard" "*.example.com" "/api/v1" 0;
   rule_example "r1" "" "App.example.com." "/" 5;
   rule_example "r3" "exact" "app.example.com" "/api/" 9;
   rule_example "r4" "catch_all" "" "" 0].

Definition normalized_example : list RouteRule :=
  match normalizeRules (H := plain_text) 7 rules_example 4096 with inr l => l | inl _ => [] end.

Example normalized_example_ids :
  rr_ID <$> normalized_example = ["r1"; "r2"; "r3"; "r4"]
  ∧ (rr_ID <$> (match chooseRule normalized_example "app.example.com" "/api/v1/x" with
                | inr r => Some r | inl _ => None end)) = Some "r3"
  ∧ (rr_ID <$> (match chooseRule normalized_example "b.example.com" "/api/v1/x" with
                | inr r => Some r | inl _ => None end)) = Some "r2".
Proof. by vm_compute. Qed.
End RouteProofs.
