(* ===== verification/Generations.v ===== *)
(** * Route generations

    Models [GenerationRegistry] of [internal/route/matcher.go]: complete rule sets
    are staged, marked ready, and promoted as a whole; the generation that was
    active before drains while the streams it admitted hold leases on it.

    The registry's heap is explicit: [g_states] holds every [generationState] ever
    allocated and [g_leases] every lease handed out, both by index, so a lease keeps
    naming the state that admitted it after the registry has moved on.  A cancelled
    context is a flag.  Each operation is atomic up to its blocking point
    ([ActivateGeneration] waiting for the old generation); what other goroutines do
    at that point is an argument of the definition, and a separate step of the
    transition relation.  Telemetry calls are left out: they receive copies and
    their failures are swallowed. *)
From S2P Require Import Prelude Go Strings Route.

Module Generations.
Import Route.

Record generationState := mkGeneration {
  gs_generation : Z;
  gs_rules : list RouteRule;
  gs_cancelled : bool;   (** [ctx] *)
  gs_ready : bool;
  gs_accepting : bool;
  gs_streams : Z;
  gs_drained : bool      (** the channel is closed *)
}.
#[export] Instance generationState_eta : Eta generationState := λ s,
  mkGeneration (gs_generation s) (gs_rules s) (gs_cancelled s) (gs_ready s) (gs_accepting s)
    (gs_streams s) (gs_drained s).

Definition newGenerationState (generation : Z) (rules : list RouteRule) : generationState :=
  mkGeneration generation rules false false false 0 false.

Record StreamLease := mkLease {
  sl_state : nat;
  sl_match : RouteMatch;
  sl_ctxDone : bool;   (** [ctx] is done *)
  sl_done : bool       (** [once] has run and [done] is closed *)
}.
#[export] Instance StreamLease_eta : Eta StreamLease := λ l,
  mkLease (sl_state l) (sl_match l) (sl_ctxDone l) (sl_done l).

Record GenerationRegistry := mkRegistry {
  g_maximumRoutes : Z;
  g_maximumStreams : Z;
  g_active : option nat;
  g_pending : option nat;
  g_closed : bool;
  g_states : list generationState;
  g_leases : list StreamLease
}.
#[export] Instance GenerationRegistry_eta : Eta GenerationRegistry := λ g,
  mkRegistry (g_maximumRoutes g) (g_maximumStreams g) (g_active g) (g_pending g) (g_closed g)
    (g_states g) (g_leases g).

Definition NewGenerationRegistryWithOptions (maximumRoutes maximumStreams : Z) : error + GenerationRegistry :=
  let maximumRoutes := if maximumRoutes <=? 0 then DefaultMaximumRoutes else maximumRoutes in
  if maximumStreams <? 0 then inl ErrInvalid
  else
    let maximumStreams := if maximumStreams =? 0 then DefaultMaximumStreams else maximumStreams in
    inr (mkRegistry maximumRoutes maximumStreams None None false [] []).

(** ** The heap *)

Definition upd_state (i : nat) (f : generationState → generationState) (g : GenerationRegistry) :=
  g <| g_states := alter f i (g_states g) |>.

Definition active_state (g : GenerationRegistry) : option generationState :=
  g_active g ≫= λ i, g_states g !! i.
Definition pending_state (g : GenerationRegistry) : option generationState :=
  g_pending g ≫= λ i, g_states g !! i.

(** [active == nil || !active.accepting], negated. *)
Definition accepting_state (g : GenerationRegistry) : option (nat * generationState) :=
  match g_active g with
  | None => None
  | Some i => match g_states g !! i with
              | Some s => if gs_accepting s then Some (i, s) else None
              | None => None
              end
  end.

Definition cancel (i : nat) : GenerationRegistry → GenerationRegistry :=
  upd_state i (λ s, s <| gs_cancelled := true |>).

Definition markDrained (i : nat) : GenerationRegistry → GenerationRegistry :=
  upd_state i (λ s, if gs_drained s then s else s <| gs_drained := true |> <| gs_cancelled := true |>).

(** ** Staging and activation *)

Section Operations.
Context `{TextLib}.

(** [g.pending = newGenerationState(generation, rules)]. *)
Definition set_pending (generation : Z) (rules : list RouteRule) (g : GenerationRegistry) :=
  g <| g_pending := Some (length (g_states g)) |>
    <| g_states := g_states g ++ [newGenerationState generation rules] |>.

Definition StageGeneration (g : GenerationRegistry) (generation : Z) (rules : list RouteRule)
    : GenerationRegistry * option error :=
  if generation =? 0 then (g, Some ErrInvalid)
  else match normalizeRules generation rules (g_maximumRoutes g) with
  | inl e => (g, Some e)
  | inr normalized =>
      if g_closed g then (g, Some ErrGenerationClosed)
      else
        let stage_pending :=
          match g_pending g, pending_state g with
          | Some i, Some pending =>
              if generation <? gs_generation pending then (g, Some ErrGenerationStale)
              else if generation =? gs_generation pending then
                if gs_rules pending == normalized then (g, None) else (g, Some ErrGenerationConflict)
              else (set_pending generation normalized (cancel i g), None)
          | _, _ => (set_pending generation normalized g, None)
          end in
        match active_state g with
        | Some active =>
            if generation <? gs_generation active then (g, Some ErrGenerationStale)
            else if generation =? gs_generation active then
              if gs_rules active == normalized then (g, None) else (g, Some ErrGenerationConflict)
            else stage_pending
        | None => stage_pending
        end
  end.

Definition MarkGenerationReady (g : GenerationRegistry) (generation : Z)
    : GenerationRegistry * option error :=
  let older (s : option generationState) le :=
    match s with
    | Some s => if le : bool then generation <=? gs_generation s else generation <? gs_generation s
    | None => false
    end in
  if g_closed g then (g, Some ErrGenerationClosed)
  else if match active_state g with Some a => gs_generation a =? generation | None => false end
  then (g, None)
  else match g_pending g, pending_state g with
  | Some i, Some pending =>
      if gs_generation pending =? generation
      then (upd_state i (λ s, s <| gs_ready := true |>) g, None)
      else if older (Some pending) false || older (active_state g) true
      then (g, Some ErrGenerationStale) else (g, Some ErrGenerationNotReady)
  | _, _ => if older (active_state g) true
            then (g, Some ErrGenerationStale) else (g, Some ErrGenerationNotReady)
  end.

(** What the locked part of [ActivateGeneration] leaves to do: return, or wait for
    the old generation to drain. *)
Inductive activation :=
  | Return (e : option error)
  | Wait (old : nat).

Definition activate_begin (g : GenerationRegistry) (generation : Z) : GenerationRegistry * activation :=
  let older (s : option generationState) :=
    match s with Some s => generation <? gs_generation s | None => false end in
  if g_closed g then (g, Return (Some ErrGenerationClosed))
  else if match active_state g with Some a => gs_generation a =? generation | None => false end
          && negb (nonnil (g_pending g))
  then (g, Return None)
  else match g_pending g, pending_state g with
  | Some new, Some pending =>
      if negb (gs_generation pending =? generation) then
        if older (active_state g) || older (Some pending)
        then (g, Return (Some ErrGenerationStale)) else (g, Return (Some ErrGenerationNotReady))
      else if negb (gs_ready pending) then (g, Return (Some ErrGenerationNotReady))
      else
        let promoted := upd_state new (λ s, s <| gs_accepting := true |>) g
                          <| g_active := Some new |> <| g_pending := None |> in
        match g_active g, active_state g with
        | Some old, Some oldState =>
            let closed := upd_state old (λ s, s <| gs_accepting := false |>) promoted in
            if gs_streams oldState =? 0
            then (markDrained old closed, Return None)
            else (closed, Wait old)
        | _, _ => (promoted, Return None)
        end
  | _, _ =>
      if older (active_state g)
      then (g, Return (Some ErrGenerationStale)) else (g, Return (Some ErrGenerationNotReady))
  end.

(** The branch the [select] of [ActivateGeneration] takes. *)
Inductive selected := Drained | ContextDone (e : err) | TimerFired.

Definition activate_finish (g : GenerationRegistry) (old : nat) (s : selected)
    : GenerationRegistry * option error :=
  match s with
  | Drained => (g, None)
  | ContextDone e => (cancel old g, Some (ErrContext e))
  | TimerFired => (cancel old g, Some ErrDrainTimeout)
  end.

(** The whole call; [wait] is what happens until the [select] fires. *)
Definition ActivateGeneration (g : GenerationRegistry) (generation : Z)
    (wait : GenerationRegistry → nat → GenerationRegistry * selected) : GenerationRegistry * option error :=
  match activate_begin g generation with
  | (g, Return e) => (g, e)
  | (g, Wait old) => let '(g, s) := wait g old in activate_finish g old s
  end.

Definition discardPending (g : GenerationRegistry) (generation : Z) : GenerationRegistry :=
  match g_pending g, pending_state g with
  | Some i, Some pending =>
      if gs_generation pending =? generation then cancel i g <| g_pending := None |> else g
  | _, _ => g
  end.

(** [ready] is the callback together with what happens while it runs. *)
Definition ApplyGeneration (g : GenerationRegistry) (generation : Z) (rules : list RouteRule)
    (ready : option (GenerationRegistry → list RouteRule → GenerationRegistry * option err))
    (wait : GenerationRegistry → nat → GenerationRegistry * selected) : GenerationRegistry * option error :=
  match ready with
  | None => (g, Some ErrGenerationNotReady)
  | Some ready =>
      match StageGeneration g generation rules with
      | (g, Some e) => (g, Some e)
      | (g, None) =>
          match normalizeRules generation rules (g_maximumRoutes g) with
          | inl e => (g, Some e)
          | inr normalized =>
              match ready g normalized with
              | (g, Some e) => (discardPending g generation, Some (ErrContext e))
              | (g, None) =>
                  match MarkGenerationReady g generation with
                  | (g, Some e) => (g, Some e)
                  | (g, None) => ActivateGeneration g generation wait
                  end
              end
          end
      end
  end.

(** ** Matching and leases *)

(** Host and path of a request in canonical form. *)
Definition normalizeRequest (host requestPath : string) : option (string * string) :=
  match normalizeMatchHost host with
  | None => None
  | Some host => match normalizeRequestPath requestPath with
                 | None => None
                 | Some requestPath => Some (host, requestPath)
                 end
  end.

Definition Match (g : GenerationRegistry) (host requestPath : string) : error + RouteMatch :=
  match normalizeRequest host requestPath with
  | None => inl ErrNoMatch
  | Some (host, requestPath) =>
      match accepting_state g with
      | None => inl ErrNoMatch
      | Some (_, active) =>
          match chooseRule (gs_rules active) host requestPath with
          | inl e => inl e
          | inr rule => inr (mkMatch rule host requestPath (gs_generation active))
          end
      end
  end.

(** The lease is the last of [g_leases]. *)
Definition Acquire (g : GenerationRegistry) (ctxDone : bool) (host requestPath : string)
    : GenerationRegistry * (error + RouteMatch) :=
  match normalizeRequest host requestPath with
  | None => (g, inl ErrNoMatch)
  | Some (host, requestPath) =>
      match accepting_state g with
      | None => (g, inl ErrNoMatch)
      | Some (i, active) =>
          match chooseRule (gs_rules active) host requestPath with
          | inl e => (g, inl e)
          | inr rule =>
              if g_maximumStreams g <=? gs_streams active then (g, inl ErrStreamOverloaded)
              else
                let m := mkMatch rule host requestPath (gs_generation active) in
                (upd_state i (λ s, s <| gs_streams := gs_streams s + 1 |>) g
                   <| g_leases := g_leases g ++ [mkLease i m ctxDone false] |>, inr m)
          end
      end
  end.

Definition release (i : nat) (g : GenerationRegistry) : GenerationRegistry :=
  match g_states g !! i with
  | None => g
  | Some state =>
      let streams := if 0 <? gs_streams state then gs_streams state - 1 else gs_streams state in
      let g := upd_state i (λ s, s <| gs_streams := streams |>) g in
      if negb (gs_accepting state) && (streams =? 0) then markDrained i g else g
  end.

(** [StreamLease.Close]. *)
Definition lease_close (l : nat) (g : GenerationRegistry) : GenerationRegistry :=
  match g_leases g !! l with
  | None => g
  | Some lease =>
      if sl_done lease then g
      else release (sl_state lease)
             (g <| g_leases := alter (λ x, x <| sl_ctxDone := true |> <| sl_done := true |>) l (g_leases g) |>)
  end.

(** The goroutine [Acquire] starts can fire: the stream's or the generation's
    context is done. *)
Definition watch_enabled (g : GenerationRegistry) (l : nat) : bool :=
  match g_leases g !! l with
  | None => false
  | Some lease =>
      sl_ctxDone lease
      || match g_states g !! sl_state lease with Some s => gs_cancelled s | None => false end
  end.

Definition watch (l : nat) (g : GenerationRegistry) : GenerationRegistry :=
  if watch_enabled g l then lease_close l g else g.

(** The request's context ends. *)
Definition stream_cancelled (l : nat) (g : GenerationRegistry) : GenerationRegistry :=
  g <| g_leases := alter (λ x, x <| sl_ctxDone := true |>) l (g_leases g) |>.

(** ** Queries and shutdown *)

Definition RouteState (g : GenerationRegistry) (host : string) : option (string * string * string) :=
  match normalizeMatchHost host with
  | None => None
  | Some host =>
      match accepting_state g with
      | None => None
      | Some (_, active) =>
          match chooseHostRule (gs_rules active) host with
          | None => None
          | Some rule =>
              let state := if rr_ObservedState rule == "" then "ready" else rr_ObservedState rule in
              Some (rr_Kind rule, state, rr_Reason rule)
          end
      end
  end.

Definition HasActiveGeneration (g : GenerationRegistry) : bool := nonnil (accepting_state g).

Definition Generation (g : GenerationRegistry) : Z :=
  match accepting_state g with None => 0 | Some (_, active) => gs_generation active end.

Definition Snapshot (g : GenerationRegistry) : option (Z * list RouteRule) :=
  match accepting_state g with
  | None => None
  | Some (_, active) => Some (gs_generation active, gs_rules active)
  end.

Definition Close (g : GenerationRegistry) : GenerationRegistry :=
  if g_closed g then g
  else
    let g := g <| g_closed := true |> in
    let g := match g_pending g with Some i => cancel i g | None => g end in
    match g_active g with Some i => markDrained i (cancel i g) | None => g end.

(** ** Transitions *)

(** The registry and the [ActivateGeneration] calls blocked on an old generation. *)
Record world := mkWorld { w_reg : GenerationRegistry; w_waiting : list nat }.

Definition waits (a : activation) : list nat := match a with Wait old => [old] | Return _ => [] end.

Inductive step : world → world → Prop :=
  | step_stage g w generation rules :
      is_u64 generation →
      step (mkWorld g w) (mkWorld (StageGeneration g generation rules).1 w)
  | step_ready g w generation : step (mkWorld g w) (mkWorld (MarkGenerationReady g generation).1 w)
  | step_activate g w generation :
      step (mkWorld g w)
           (mkWorld (activate_begin g generation).1 (waits (activate_begin g generation).2 ++ w))
  | step_finish g w1 old w2 s state :
      g_states g !! old = Some state → (s = Drained → gs_drained state = true) →
      step (mkWorld g (w1 ++ old :: w2)) (mkWorld (activate_finish g old s).1 (w1 ++ w2))
  | step_discard g w generation : step (mkWorld g w) (mkWorld (discardPending g generation) w)
  | step_acquire g w ctxDone host path :
      step (mkWorld g w) (mkWorld (Acquire g ctxDone host path).1 w)
  | step_stream_cancelled g w l : step (mkWorld g w) (mkWorld (stream_cancelled l g) w)
  | step_lease_close g w l : step (mkWorld g w) (mkWorld (lease_close l g) w)
  | step_watch g w l : step (mkWorld g w) (mkWorld (watch l g) w)
  | step_close g w : step (mkWorld g w) (mkWorld (Close g) w).

Inductive reachable : world → Prop :=
  | reachable_new maximumRoutes maximumStreams g :
      NewGenerationRegistryWithOptions maximumRoutes maximumStreams = inr g → reachable (mkWorld g [])
  | reachable_step w w' : reachable w → step w w' → reachable w'.
End Operations.
End Generations.
