(* ===== verification/GenerationsProofs.v ===== *)
(** * Route generations: invariant and theorems

    The registry invariant — one accepting generation, a newer pending one, stream
    counts equal to open leases — and what follows from it for activation,
    admission and draining. *)
From S2P Require Import Prelude Go Strings Route RouteProofs Generations.

Module GenerationsProofs.
Import Route RouteProofs Generations.

(** ** Open leases *)

Definition open_lease (k : nat) (x : StreamLease) : bool :=
  bool_decide (sl_state x = k) && negb (sl_done x).

(** The number of leases on state [k] that are not closed. *)
Definition open_on (leases : list StreamLease) (k : nat) : Z :=
  Z.of_nat (length (List.filter (open_lease k) leases)).

Lemma open_on_nonneg leases k : 0 ≤ open_on leases k.
Proof. unfold open_on. lia. Qed.

Lemma open_on_app leases x k :
  open_on (leases ++ [x]) k = open_on leases k + (if open_lease k x then 1 else 0).
Proof.
  unfold open_on. rewrite List.filter_app, length_app. cbn. destruct (open_lease k x); cbn; lia.
Qed.

Lemma open_on_alter leases l x f k :
  leases !! l = Some x →
  open_on (alter f l leases) k =
  open_on leases k - (if open_lease k x then 1 else 0) + (if open_lease k (f x) then 1 else 0).
Proof.
  unfold open_on. revert l. induction leases as [|y leases IH]; intros [|l] E; simplify_eq/=.
  - destruct (open_lease k x), (open_lease k (f x)); cbn; lia.
  - specialize (IH l E). change (list_alter f l leases) with (alter f l leases).
    destruct (open_lease k y); cbn; lia.
Qed.

Lemma open_on_none leases k : (∀ x, x ∈ leases → open_lease k x = false) → open_on leases k = 0.
Proof.
  intros Hne. unfold open_on. induction leases as [|x leases IH]; [done|]. cbn.
  rewrite Hne by (by left). apply IH. intros y Hy. apply Hne. by right.
Qed.

Lemma open_on_zero leases k : (∀ x, x ∈ leases → sl_state x ≠ k) → open_on leases k = 0.
Proof.
  intros Hne. apply open_on_none. intros x Hx. unfold open_lease. by rewrite bool_decide_eq_false_2 by (by apply Hne).
Qed.

(** ** The invariant *)

Section Invariant.
Context `{TextLib}.

Record state_ok (g : GenerationRegistry) (w : list nat) (k : nat) (s : generationState) : Prop := {
  so_generation : 0 < gs_generation s;
  so_accepting : gs_accepting s = true ↔ g_active g = Some k;
  so_ready : g_active g = Some k → gs_ready s = true;
  so_pending : g_pending g = Some k → gs_accepting s = false ∧ gs_drained s = false ∧ k ∉ w;
  so_streams : gs_streams s = open_on (g_leases g) k;
  so_bound : gs_streams s ≤ g_maximumStreams g;
  so_rules : ∃ rules, normalizeRules (gs_generation s) rules (g_maximumRoutes g) = inr (gs_rules s);
  so_drained : gs_drained s = true →
    g_active g ≠ Some k ∧ gs_streams s = 0 ∨ g_closed g = true ∧ g_active g = Some k;
  so_waiting : k ∈ w → gs_accepting s = false ∧ (gs_streams s = 0 → gs_drained s = true)
}.

(** A lease names an existing state, not the pending one, and carries the state's
    answer for its host and path. *)
Definition lease_ok (g : GenerationRegistry) (x : StreamLease) : Prop :=
  g_pending g ≠ Some (sl_state x)
  ∧ ∃ s, g_states g !! sl_state x = Some s ∧ rm_Generation (sl_match x) = gs_generation s
         ∧ chooseRule (gs_rules s) (rm_Host (sl_match x)) (rm_Path (sl_match x)) = inr (rm_Rule (sl_match x)).

Record inv (g : GenerationRegistry) (w : list nat) : Prop := {
  inv_states : ∀ k s, g_states g !! k = Some s → state_ok g w k s;
  inv_active : ∀ k, g_active g = Some k → is_Some (g_states g !! k);
  inv_pending : ∀ k, g_pending g = Some k → is_Some (g_states g !! k);
  inv_waiting : ∀ k, k ∈ w → is_Some (g_states g !! k);
  inv_newer : ∀ a p, active_state g = Some a → pending_state g = Some p → gs_generation a < gs_generation p;
  inv_leases : ∀ x, x ∈ g_leases g → lease_ok g x;
  inv_maximum : 0 < g_maximumStreams g
}.

(** ** Updating one state *)

(** An update that keeps generation and rules. *)
Definition keeps (f : generationState → generationState) : Prop :=
  ∀ s, gs_generation (f s) = gs_generation s ∧ gs_rules (f s) = gs_rules s.

Lemma alter_is_Some (f : generationState → generationState) i (l : list generationState) k :
  is_Some (l !! k) → is_Some (alter f i l !! k).
Proof. intros [x E]. destruct (decide (i = k)) as [->|]; [rewrite list_lookup_alter_eq|rewrite list_lookup_alter_ne by done]; rewrite E; by eexists. Qed.

Lemma alter_alter (f h : generationState → generationState) i (l : list generationState) :
  alter f i (alter h i l) = alter (λ s, f (h s)) i l.
Proof. revert i. induction l as [|x l IH]; intros [|i]; cbn; [done..|]. f_equal. apply IH. Qed.

Lemma alter_keeps f i (l : list generationState) k s' :
  keeps f → alter f i l !! k = Some s' →
  ∃ s, l !! k = Some s ∧ gs_generation s' = gs_generation s ∧ gs_rules s' = gs_rules s.
Proof.
  intros Hf. destruct (decide (i = k)) as [->|]; [rewrite list_lookup_alter_eq|rewrite list_lookup_alter_ne by done].
  - intros (s & E & ->)%fmap_Some. exists s. split; [done|apply Hf].
  - intros E. by exists s'.
Qed.

Lemma alter_keeps' f i (l : list generationState) k s :
  keeps f → l !! k = Some s →
  ∃ s', alter f i l !! k = Some s' ∧ gs_generation s' = gs_generation s ∧ gs_rules s' = gs_rules s.
Proof.
  intros Hf E. destruct (alter_is_Some f i l k) as [s' E']; [by eexists|].
  exists s'. split; [done|]. by destruct (alter_keeps f i l k s' Hf E') as (s0 & E0 & ?); simplify_eq.
Qed.

Lemma lease_ok_states g g' x :
  g_pending g' = g_pending g →
  (∀ k s, g_states g !! k = Some s → ∃ s', g_states g' !! k = Some s'
     ∧ gs_generation s' = gs_generation s ∧ gs_rules s' = gs_rules s) →
  lease_ok g x → lease_ok g' x.
Proof.
  intros Ep Hk (Hp & s & E & Eg & Er). split; [by rewrite Ep|].
  destruct (Hk _ _ E) as (s' & E' & Eg' & Er'). exists s'. by rewrite Eg', Er'.
Qed.

Lemma state_ok_reg g g' w k s :
  g_active g' = g_active g → g_pending g' = g_pending g → g_closed g' = g_closed g →
  g_leases g' = g_leases g → g_maximumStreams g' = g_maximumStreams g →
  g_maximumRoutes g' = g_maximumRoutes g → state_ok g w k s → state_ok g' w k s.
Proof. intros E1 E2 E3 E4 E5 E6 []. by split; rewrite ?E1, ?E2, ?E3, ?E4, ?E5, ?E6. Qed.

Lemma inv_upd g w i f :
  inv g w → keeps f →
  (∀ s, g_states g !! i = Some s → state_ok g w i s → state_ok g w i (f s)) →
  inv (upd_state i f g) w.
Proof.
  intros I Hf Hs. unfold upd_state. split; cbn.
  - intros k s E. apply (state_ok_reg g); [done..|]. destruct (decide (i = k)) as [->|].
    + rewrite list_lookup_alter_eq in E. apply fmap_Some in E as (s0 & E & ->).
      apply Hs; [done|by apply I].
    + rewrite list_lookup_alter_ne in E by done. by apply I.
  - intros k Hk. by apply alter_is_Some, (inv_active _ _ I).
  - intros k Hk. by apply alter_is_Some, (inv_pending _ _ I).
  - intros k Hk. by apply alter_is_Some, (inv_waiting _ _ I).
  - unfold active_state, pending_state. cbn.
    intros a p (ka & Ea & Ha)%bind_Some (kp & Ep & Hp)%bind_Some.
    apply alter_keeps in Ha as (a0 & Ha & -> & _), Hp as (p0 & Hp & -> & _); try done.
    apply (inv_newer _ _ I); [unfold active_state; by rewrite Ea|unfold pending_state; by rewrite Ep].
  - intros x Hx. apply (lease_ok_states g); [done| |by apply (inv_leases _ _ I)].
    intros k s E. by apply alter_keeps'.
  - apply (inv_maximum _ _ I).
Qed.

Lemma inv_cancel g w i : inv g w → inv (cancel i g) w.
Proof. intros I. apply inv_upd; [done|by intros s|]. intros s _ []. by split. Qed.

Lemma inv_ready g w i :
  inv g w → inv (upd_state i (λ s, s <| gs_ready := true |>) g) w.
Proof. intros I. apply inv_upd; [done|by intros s|]. intros s _ []. by split. Qed.

(** A state may be marked drained when no stream is open on it, or on shutdown. *)
Lemma inv_markDrained g w i :
  inv g w → g_pending g ≠ Some i →
  (∀ s, g_states g !! i = Some s →
     g_active g ≠ Some i ∧ gs_streams s = 0 ∨ g_closed g = true ∧ g_active g = Some i) →
  inv (markDrained i g) w.
Proof.
  intros I Hp Hd. apply inv_upd; [done|by intros s; destruct (gs_drained s)|].
  intros s E Hs. destruct (gs_drained s) eqn:Ed; [done|]. destruct Hs. split; cbn; try done.
  - intros _. by apply Hd.
  - intros Hw. split; [by apply so_waiting0|done].
Qed.

(** ** Staging *)

Lemma inv_set_pending g w generation rules normalized :
  inv g w → 0 < generation → normalizeRules generation rules (g_maximumRoutes g) = inr normalized →
  (∀ a, active_state g = Some a → gs_generation a < generation) →
  inv (set_pending generation normalized g) w.
Proof.
  intros I Hpos En Hnew. unfold set_pending. set (n := length (g_states g)).
  assert (∀ k, is_Some (g_states g !! k) → k ≠ n) as Hlt.
  { intros k ?%lookup_lt_is_Some ->. unfold n in *. lia. }
  assert (∀ k, is_Some (g_states g !! k) → is_Some ((g_states g ++ [newGenerationState generation normalized]) !! k)) as Hin.
  { intros k ?%lookup_lt_is_Some. apply lookup_lt_is_Some. rewrite length_app. lia. }
  assert (∀ k s, g_states g !! k = Some s → (g_states g ++ [newGenerationState generation normalized]) !! k = Some s) as Hold.
  { intros k s E. apply lookup_app_Some. by left. }
  split; cbn.
  - intros k s [E|[Hk E]]%lookup_app_Some.
    + pose proof (inv_states _ _ I k s E) as [].
      split; cbn; try done. intros [= <-]. exfalso. by apply (Hlt n).
    + apply list_lookup_singleton_Some in E as [Ek <-]. assert (k = n) as -> by (unfold n; lia).
      split; cbn; try done.
      * split; [done|]. intros Ea. exfalso. by apply (Hlt n (inv_active _ _ I n Ea)).
      * intros Ea. exfalso. by apply (Hlt n (inv_active _ _ I n Ea)).
      * intros _. split_and!; [done..|]. intros Hw. by apply (Hlt n (inv_waiting _ _ I n Hw)).
      * symmetry. apply open_on_zero. intros x Hx. apply Hlt.
        destruct (inv_leases _ _ I x Hx) as (_ & s & E' & _). by eexists.
      * pose proof (inv_maximum _ _ I). lia.
      * by eexists.
      * intros Hw. exfalso. by apply (Hlt n (inv_waiting _ _ I n Hw)).
  - intros k Hk. by apply Hin, (inv_active _ _ I).
  - intros k [= <-]. apply lookup_lt_is_Some. rewrite length_app. cbn. unfold n. lia.
  - intros k Hk. by apply Hin, (inv_waiting _ _ I).
  - unfold active_state, pending_state. cbn. rewrite lookup_app_r, Nat.sub_diag by (unfold n; lia).
    intros a p (ka & Ea & Ha)%bind_Some [= <-]. cbn. apply Hnew. unfold active_state. rewrite Ea. cbn.
    destruct (inv_active _ _ I ka Ea) as [s E]. by rewrite (Hold _ _ E) in Ha; simplify_eq.
  - intros x Hx. destruct (inv_leases _ _ I x Hx) as (_ & s & E & Eg & Er). split; cbn.
    + intros [= En']. by apply (Hlt (sl_state x)); [eexists|].
    + exists s. split; [by apply Hold|done].
  - apply (inv_maximum _ _ I).
Qed.

Lemma inv_StageGeneration g w generation rules :
  inv g w → is_u64 generation → inv (StageGeneration g generation rules).1 w.
Proof.
  intros I [Hpos _]. unfold StageGeneration. destruct (generation =? 0) eqn:Hz; [done|]. bools.
  assert (0 < generation) by lia.
  destruct (normalizeRules _ _ _) as [|normalized] eqn:En; [done|]. destruct (g_closed g); [done|].
  assert ((∀ a, active_state g = Some a → gs_generation a < generation) →
    inv match g_pending g, pending_state g with
          | Some i, Some pending =>
              if generation <? gs_generation pending then (g, Some ErrGenerationStale)
              else if generation =? gs_generation pending then
                if gs_rules pending == normalized then (g, None) else (g, Some ErrGenerationConflict)
              else (set_pending generation normalized (cancel i g), None)
          | _, _ => (set_pending generation normalized g, None)
          end.1 w) as Hp.
  { intros Hnew. destruct (g_pending g) as [i|] eqn:Ei; [|by eapply inv_set_pending].
    destruct (pending_state g) as [p|]; [|by eapply inv_set_pending].
    destruct (_ <? _); [done|]. destruct (_ =? _); [by case_bool_decide|]. cbn.
    eapply inv_set_pending; [by apply inv_cancel|done|done|]. intros a Ha. unfold active_state in Ha. cbn in Ha.
    apply bind_Some in Ha as (ka & Ea & Ha). apply alter_keeps in Ha as (a0 & Ha & -> & _); [|by intros s].
    apply Hnew. unfold active_state. by rewrite Ea. }
  destruct (active_state g) as [a|] eqn:Ea; [|by apply Hp].
  destruct (generation <? gs_generation a) eqn:E1; [done|].
  destruct (generation =? gs_generation a) eqn:E2; [by case_bool_decide|]. bools.
  apply Hp. intros ? [= <-]. lia.
Qed.

Lemma inv_MarkGenerationReady g w generation :
  inv g w → inv (MarkGenerationReady g generation).1 w.
Proof.
  intros I. unfold MarkGenerationReady. destruct (g_closed g); [done|].
  destruct (match active_state g with Some _ => _ | None => _ end); [done|].
  destruct (g_pending g) as [i|]; [|by case_match]. destruct (pending_state g); [|by case_match].
  destruct (_ =? _); [by apply inv_ready|by case_match].
Qed.

Lemma inv_unpend g w : inv g w → inv (g <| g_pending := None |>) w.
Proof.
  intros I. split; cbn; try apply I; try done.
  - intros k s E. destruct (inv_states _ _ I k s E). by split.
  - intros x Hx. by destruct (inv_leases _ _ I x Hx) as (_ & ?).
Qed.

Lemma inv_discardPending g w generation : inv g w → inv (discardPending g generation) w.
Proof.
  intros I. unfold discardPending. destruct (g_pending g) as [i|]; [|done].
  destruct (pending_state g); [|done]. destruct (_ =? _); [|done]. by apply inv_unpend, inv_cancel.
Qed.

(** ** Activation *)

Lemma inv_not_pending_active g w i : inv g w → g_pending g = Some i → g_active g ≠ Some i.
Proof.
  intros I Hp Ha. destruct (inv_pending _ _ I i Hp) as [s E]. destruct (inv_states _ _ I i s E).
  destruct (so_pending0 Hp) as [Hf _]. apply so_accepting0 in Ha. congruence.
Qed.

(** The states after the switch: the new one accepts, no other does, and those that
    have no stream may have been marked drained. *)
Lemma inv_switch g w w' new p states' :
  inv g w → g_closed g = false → g_pending g = Some new → g_states g !! new = Some p →
  gs_ready p = true →
  (∀ k s', states' !! k = Some s' → ∃ s, g_states g !! k = Some s
     ∧ gs_generation s' = gs_generation s ∧ gs_rules s' = gs_rules s ∧ gs_streams s' = gs_streams s
     ∧ gs_ready s' = gs_ready s ∧ (gs_accepting s' = true ↔ k = new)
     ∧ (gs_drained s' = gs_drained s ∨ k ≠ new ∧ gs_streams s = 0 ∧ gs_drained s' = true)
     ∧ (k ∈ w' → k ∈ w ∨ k ≠ new ∧ gs_streams s ≠ 0)) →
  (∀ k s, g_states g !! k = Some s → is_Some (states' !! k)) →
  (∀ k, k ∈ w' → k ∈ w ∨ g_active g = Some k) →
  inv (g <| g_active := Some new |> <| g_pending := None |> <| g_states := states' |>) w'.
Proof.
  intros I Hcl Hp Ep Hr Hs Hin Hw. split; cbn.
  - intros k s' E'. destruct (Hs k s' E') as (s & E & Eg & Er & Est & Ery & Eacc & Ed & Hkw).
    pose proof (inv_states _ _ I k s E) as S. destruct (so_pending _ _ _ _ (inv_states _ _ I _ _ Ep) Hp) as (_ & Hpd & Hpw).
    split; cbn; rewrite ?Eg, ?Er, ?Est, ?Ery; try apply S; try done.
    + rewrite Eacc. split; congruence.
    + intros [= ->]. congruence.
    + intros Hd. left. assert (k ≠ new ∧ gs_streams s = 0) as [? ?]; [|split; congruence].
      destruct Ed as [Ed|(? & ? & _)]; [|done]. rewrite Ed in Hd.
      destruct (so_drained _ _ _ _ S Hd) as [[_ ?]|[? _]]; [|congruence]. split; [|done].
      intros ->. congruence.
    + intros Hk. assert (k ≠ new) as Hne.
      { intros ->. destruct (Hkw Hk) as [?|[? _]]; done. }
      split; [by apply not_true_is_false; rewrite Eacc|]. intros H0.
      destruct Ed as [->|(_ & _ & ?)]; [|done]. destruct (Hkw Hk) as [Hk'|[_ ?]]; [|done].
      by apply (so_waiting _ _ _ _ S Hk').
  - intros k [= <-]. by eapply Hin.
  - done.
  - intros k Hk. destruct (Hw k Hk) as [Hk'|Ha].
    + destruct (inv_waiting _ _ I k Hk') as [s E]. by eapply Hin.
    + destruct (inv_active _ _ I k Ha) as [s E]. by eapply Hin.
  - unfold pending_state. cbn. done.
  - intros x Hx. destruct (inv_leases _ _ I x Hx) as (_ & s & E & Eg & Er). split; [done|]. cbn.
    destruct (Hin _ _ E) as [s' E']. destruct (Hs _ _ E') as (s0 & E0 & Eg' & Er' & _). simplify_eq.
    exists s'. by rewrite Eg', Er'.
  - apply (inv_maximum _ _ I).
Qed.

Lemma inv_activate_begin g w generation :
  inv g w → inv (activate_begin g generation).1 (waits (activate_begin g generation).2 ++ w).
Proof.
  intros I. unfold activate_begin. destruct (g_closed g) eqn:Hcl; [done|].
  destruct (_ && negb (nonnil (g_pending g))); [done|].
  destruct (g_pending g) as [new|] eqn:Hp; [|by case_match].
  destruct (pending_state g) as [p|] eqn:Ep; [|by case_match].
  destruct (negb (gs_generation p =? generation)); [by case_match|].
  destruct (negb (gs_ready p)) eqn:Hr; [done|]. bools.
  unfold pending_state in Ep. rewrite Hp in Ep. cbn in Ep.
  pose proof (inv_not_pending_active g w new I Hp) as Hna.
  destruct (g_active g) as [old|] eqn:Ha.
  2: { cbn. unfold upd_state. cbn.
       apply (inv_switch g w w new p); try done.
       - intros k s' E'. destruct (decide (new = k)) as [->|Hne].
         + rewrite list_lookup_alter_eq, Ep in E'. injection E' as <-. exists p. cbn. by split_and!; auto.
         + rewrite list_lookup_alter_ne in E' by done. exists s'. split_and!; auto.
           rewrite (so_accepting _ _ _ _ (inv_states _ _ I k s' E')), Ha. split; congruence.
       - intros k s E. apply alter_is_Some. by eexists.
       - auto. }
  destruct (inv_active _ _ I old Ha) as [o Eo]. unfold active_state. rewrite Ha. cbn [mbind option_bind]. rewrite Eo.
  assert (new ≠ old) as Hno by congruence.
  assert (∀ k s', k ≠ new → k ≠ old → g_states g !! k = Some s' → gs_accepting s' = true ↔ k = new) as Hother.
  { intros k s' Hk1 Hk2 E. rewrite (so_accepting _ _ _ _ (inv_states _ _ I k s' E)), Ha. split; congruence. }
  destruct (gs_streams o =? 0) eqn:Hs; bools; cbn; unfold markDrained, upd_state; cbn.
  - apply (inv_switch g w w new p); try done.
    + intros k s' E'. destruct (decide (old = k)) as [->|Hk].
      { rewrite !list_lookup_alter_eq, list_lookup_alter_ne, Eo in E' by done. cbn in E'.
        injection E' as <-. exists o. cbn. destruct (gs_drained o) eqn:?; cbn; split_and!; auto; split; congruence. }
      rewrite !(list_lookup_alter_ne _ _ old) in E' by done. destruct (decide (new = k)) as [->|Hne].
      * rewrite list_lookup_alter_eq, Ep in E'. injection E' as <-. exists p. cbn. by split_and!; auto.
      * rewrite list_lookup_alter_ne in E' by done. exists s'. split_and!; auto.
    + intros k s E. do 3 apply alter_is_Some. by eexists.
    + auto.
  - apply (inv_switch g w (old :: w) new p); try done.
    + intros k s' E'. destruct (decide (old = k)) as [->|Hk].
      { rewrite !list_lookup_alter_eq, list_lookup_alter_ne, Eo in E' by done. cbn in E'.
        injection E' as <-. exists o. cbn. split_and!; auto; split; congruence. }
      assert (k ∈ old :: w → k ∈ w) as Hkw by (intros [->|?]%elem_of_cons; done).
      rewrite !(list_lookup_alter_ne _ _ old) in E' by done. destruct (decide (new = k)) as [->|Hne].
      * rewrite list_lookup_alter_eq, Ep in E'. injection E' as <-. exists p. cbn. by split_and!; auto.
      * rewrite list_lookup_alter_ne in E' by done. exists s'. split_and!; auto.
    + intros k s E. do 2 apply alter_is_Some. by eexists.
    + intros k [->|?]%elem_of_cons; auto.
Qed.

Lemma inv_drop_waiting g w1 old w2 : inv g (w1 ++ old :: w2) → inv g (w1 ++ w2).
Proof.
  intros I. assert (∀ k, k ∈ w1 ++ w2 → k ∈ w1 ++ old :: w2) as Hsub by (intros k; set_solver).
  split; try apply I.
  - intros k s E. destruct (inv_states _ _ I k s E). split; auto.
    intros Hp. destruct (so_pending0 Hp) as (? & ? & ?). split_and!; auto.
  - intros k Hk. by apply (inv_waiting _ _ I), Hsub.
Qed.

Lemma inv_activate_finish g w1 old w2 s :
  inv g (w1 ++ old :: w2) → inv (activate_finish g old s).1 (w1 ++ w2).
Proof. intros I%inv_drop_waiting. destruct s; cbn; [done|by apply inv_cancel..]. Qed.

(** ** Leases *)

(** One state and the leases change together. *)
Lemma inv_count g w i f leases' :
  inv g w → keeps f →
  (∀ s, g_states g !! i = Some s → state_ok g w i s → state_ok (g <| g_leases := leases' |>) w i (f s)) →
  (∀ k, k ≠ i → open_on leases' k = open_on (g_leases g) k) → (∀ x, x ∈ leases' → lease_ok g x) →
  inv (upd_state i f (g <| g_leases := leases' |>)) w.
Proof.
  intros I Hf Hs Hk Hl. unfold upd_state. split; cbn.
  - intros k s E. apply (state_ok_reg (g <| g_leases := leases' |>)); [done..|].
    destruct (decide (i = k)) as [->|Hne].
    + rewrite list_lookup_alter_eq in E. apply fmap_Some in E as (s0 & E & ->). apply Hs; [done|by apply I].
    + rewrite list_lookup_alter_ne in E by done. destruct (inv_states _ _ I k s E). split; try done. cbn.
      by rewrite Hk.
  - intros k Hka. by apply alter_is_Some, (inv_active _ _ I).
  - intros k Hkp. by apply alter_is_Some, (inv_pending _ _ I).
  - intros k Hkw. by apply alter_is_Some, (inv_waiting _ _ I).
  - unfold active_state, pending_state. cbn.
    intros a p (ka & Ea & Ha)%bind_Some (kp & Ep & Hp)%bind_Some.
    apply alter_keeps in Ha as (a0 & Ha & -> & _), Hp as (p0 & Hp & -> & _); try done.
    apply (inv_newer _ _ I); [unfold active_state; by rewrite Ea|unfold pending_state; by rewrite Ep].
  - intros x Hx. apply (lease_ok_states g); [done| |by apply Hl]. intros k s E. by apply alter_keeps'.
  - apply (inv_maximum _ _ I).
Qed.

Lemma accepting_state_Some g i s :
  accepting_state g = Some (i, s) → g_active g = Some i ∧ g_states g !! i = Some s ∧ gs_accepting s = true.
Proof.
  unfold accepting_state. destruct (g_active g) as [k|]; [|done].
  destruct (g_states g !! k) as [s'|] eqn:E; [|done]. destruct (gs_accepting s') eqn:Ea; [|done].
  by intros [= -> ->].
Qed.

Lemma inv_Acquire g w ctxDone host path : inv g w → inv (Acquire g ctxDone host path).1 w.
Proof.
  intros I. unfold Acquire. destruct (normalizeRequest host path) as [[h p]|]; [|done].
  destruct (accepting_state g) as [[i a]|] eqn:Ea; [|done].
  destruct (chooseRule (gs_rules a) h p) as [|rule] eqn:Er; [done|].
  destruct (_ <=? _) eqn:Hmax; [done|]. bools. cbn.
  apply accepting_state_Some in Ea as (Ha & Ei & Hacc).
  apply (inv_count g w i); [done|by intros s|..].
  - intros s Es S. simplify_eq. destruct S. split; cbn; try done.
    + rewrite open_on_app. unfold open_lease. cbn. rewrite bool_decide_eq_true_2 by done. cbn. lia.
    + lia.
    + intros Hd. right. by destruct (so_drained0 Hd) as [[? _]|].
    + intros Hw. by destruct (so_waiting0 Hw); congruence.
  - intros k Hk. rewrite open_on_app. unfold open_lease. cbn. rewrite bool_decide_eq_false_2 by done. cbn. lia.
  - intros x [Hx|Hx]%elem_of_app; [by apply (inv_leases _ _ I)|]. apply list_elem_of_singleton in Hx as ->.
    split; cbn; [|by exists a]. intros Hp. by apply (inv_not_pending_active g w i I Hp).
Qed.

Lemma open_on_same leases l f k :
  (∀ x, open_lease k (f x) = open_lease k x) → open_on (alter f l leases) k = open_on leases k.
Proof.
  intros Hf. unfold open_on. revert l. induction leases as [|x leases IH]; intros [|l]; [done..| |].
  - cbn. rewrite Hf. by destruct (open_lease k x).
  - specialize (IH l). cbn. change (list_alter f l leases) with (alter f l leases).
    destruct (open_lease k x); cbn; lia.
Qed.

(** Closing or cancelling a lease keeps its state and match. *)
Lemma leases_ok_alter g w l f :
  inv g w → (∀ x, sl_state (f x) = sl_state x ∧ sl_match (f x) = sl_match x) →
  ∀ x, x ∈ alter f l (g_leases g) → lease_ok g x.
Proof.
  intros I Hf x [k Hk]%list_elem_of_lookup. destruct (decide (l = k)) as [->|Hne].
  - rewrite list_lookup_alter_eq in Hk. apply fmap_Some in Hk as (y & Hy & ->).
    unfold lease_ok. destruct (Hf y) as [-> ->]. apply (inv_leases _ _ I), list_elem_of_lookup. by eexists.
  - rewrite list_lookup_alter_ne in Hk by done. apply (inv_leases _ _ I), list_elem_of_lookup. by eexists.
Qed.

Lemma inv_stream_cancelled g w l : inv g w → inv (stream_cancelled l g) w.
Proof.
  intros I. unfold stream_cancelled. set (leases' := alter _ l (g_leases g)).
  assert (∀ k, open_on leases' k = open_on (g_leases g) k) as Hk by (intros k; by apply open_on_same).
  split; cbn; try apply I.
  - intros k s E. destruct (inv_states _ _ I k s E). split; try done. by cbn; rewrite Hk.
  - intros x Hx. apply (lease_ok_states g); [done|by eauto|by apply (leases_ok_alter g w l _ I) with (2 := Hx)].
Qed.

Lemma inv_lease_close g w l : inv g w → inv (lease_close l g) w.
Proof.
  intros I. unfold lease_close. destruct (g_leases g !! l) as [x|] eqn:El; [|done].
  destruct (sl_done x) eqn:Hd; [done|]. unfold release. cbn.
  destruct (inv_leases _ _ I x) as (Hnp & s & Es & _); [by apply list_elem_of_lookup; eexists|].
  rewrite Es. set (i := sl_state x) in *. set (leases' := alter _ l (g_leases g)).
  set (n := if 0 <? gs_streams s then _ else _).
  set (drain := negb (gs_accepting s) && (n =? 0)).
  set (f := λ s : generationState, let s := s <| gs_streams := n |> in
        if drain then if gs_drained s then s else s <| gs_drained := true |> <| gs_cancelled := true |> else s).
  assert (inv (upd_state i f (g <| g_leases := leases' |>)) w) as Hinv; [|].
  2: { subst f. destruct drain; [|exact Hinv]. unfold markDrained, upd_state in *. cbn in *.
       rewrite alter_alter. exact Hinv. }
  assert (∀ k, open_on leases' k = open_on (g_leases g) k - (if decide (k = i) then 1 else 0)) as Hopen.
  { intros k. unfold leases'. rewrite (open_on_alter _ _ _ _ _ El). unfold open_lease. cbn. rewrite Hd, andb_false_r.
    fold i. destruct (decide (k = i)) as [->|]; [rewrite bool_decide_eq_true_2 by done|rewrite bool_decide_eq_false_2 by done]; cbn; lia. }
  apply inv_count; [done| |..].
  - intros s0. subst f. cbn. by destruct drain, (gs_drained s0).
  - intros s0 E0 S. assert (s0 = s) as -> by congruence. clear E0.
    assert (n = open_on leases' i) as Hn.
    { pose proof (open_on_nonneg leases' i) as Hnn. specialize (Hopen i). rewrite decide_True in Hopen by done.
      pose proof (so_streams _ _ _ _ S). unfold n. destruct (0 <? gs_streams s) eqn:?; bools; lia. }
    assert (n ≤ gs_streams s) by (unfold n; destruct (_ <? _); lia).
    assert (gs_generation (f s) = gs_generation s ∧ gs_rules (f s) = gs_rules s ∧ gs_streams (f s) = n
            ∧ gs_accepting (f s) = gs_accepting s ∧ gs_ready (f s) = gs_ready s
            ∧ gs_drained (f s) = gs_drained s || drain) as (Eg & Er & Est & Ea & Ery & Edr).
    { subst f. cbn. destruct drain, (gs_drained s); by cbn. }
    destruct S. split; cbn; rewrite ?Eg, ?Er, ?Est, ?Ea, ?Ery, ?Edr; try done; try lia.
    + intros Hdr. apply orb_true_iff in Hdr as [Hdr|Hdr].
      * destruct (so_drained0 Hdr) as [[? ?]|]; [left|by right]. split; [done|]. pose proof (open_on_nonneg leases' i). lia.
      * left. unfold drain in Hdr. bools. split; [|done]. rewrite <- so_accepting0. congruence.
    + intros Hw. destruct (so_waiting0 Hw) as [Hacc _]. split; [done|]. intros Hz.
      unfold drain. rewrite Hacc, Hz. by rewrite orb_true_r.
  - intros k Hk. rewrite Hopen, decide_False by done. lia.
  - intros y Hy. by apply (leases_ok_alter g w l _ I) with (2 := Hy).
Qed.

Lemma inv_watch g w l : inv g w → inv (watch l g) w.
Proof. intros I. unfold watch. destruct (watch_enabled g l); [by apply inv_lease_close|done]. Qed.

Lemma inv_Close g w : inv g w → inv (Close g) w.
Proof.
  intros I. unfold Close. destruct (g_closed g) eqn:Hc; [done|].
  set (g1 := g <| g_closed := true |>).
  assert (inv g1 w) as I1.
  { split; try apply I. intros k s E. destruct (inv_states _ _ I k s E). split; try done. cbn.
    intros Hd. destruct (so_drained0 Hd) as [|[? _]]; [by left|congruence]. }
  set (g2 := match g_pending g1 with Some i => cancel i g1 | None => g1 end).
  assert (inv g2 w ∧ g_active g2 = g_active g ∧ g_closed g2 = true) as (I2 & Ea & Hc2).
  { unfold g2. destruct (g_pending g1); [|done]. by split; [apply inv_cancel|]. }
  rewrite Ea. destruct (g_active g) as [i|] eqn:Ei; [|done].
  apply inv_markDrained; [by apply inv_cancel| |].
  - intros Hp. by apply (inv_not_pending_active (cancel i g2) w i); [apply inv_cancel| |rewrite <- Ea].
  - intros s _. right. by rewrite <- Ea.
Qed.

Lemma inv_new maximumRoutes maximumStreams g :
  NewGenerationRegistryWithOptions maximumRoutes maximumStreams = inr g → inv g [].
Proof.
  unfold NewGenerationRegistryWithOptions. destruct (maximumStreams <? 0) eqn:E0; [done|].
  intros [= <-]. bools. split; cbn; try done.
  - intros x. by rewrite elem_of_nil.
  - intros x. by rewrite elem_of_nil.
  - destruct (maximumStreams =? 0) eqn:E1; bools; [by unfold DefaultMaximumStreams|lia].
Qed.

Lemma step_inv w w' : step w w' → inv (w_reg w) (w_waiting w) → inv (w_reg w') (w_waiting w').
Proof.
  intros [] I; cbn in *.
  - by apply inv_StageGeneration.
  - by apply inv_MarkGenerationReady.
  - by apply inv_activate_begin.
  - by eapply inv_activate_finish.
  - by apply inv_discardPending.
  - by apply inv_Acquire.
  - by apply inv_stream_cancelled.
  - by apply inv_lease_close.
  - by apply inv_watch.
  - by apply inv_Close.
Qed.

Lemma registry_reachable_inv w : reachable w → inv (w_reg w) (w_waiting w).
Proof. induction 1 as [|? ? ? IH Hs]; [by eapply inv_new|by eapply step_inv]. Qed.

(** ** What a step does to the active generation *)

Lemma Generation_active g w :
  inv g w → Generation g = match active_state g with Some a => gs_generation a | None => 0 end.
Proof.
  intros I. unfold Generation, accepting_state, active_state. destruct (g_active g) as [i|] eqn:Ha; [|done]. cbn.
  destruct (g_states g !! i) as [s|] eqn:E; [|done].
  by rewrite (proj2 (so_accepting _ _ _ _ (inv_states _ _ I i s E)) Ha).
Qed.

(** Only activation moves [g.active], to the pending state, which must be ready. *)
Lemma step_active w w' :
  inv (w_reg w) (w_waiting w) → step w w' →
  g_active (w_reg w') = g_active (w_reg w)
  ∨ ∃ new p, g_pending (w_reg w) = Some new ∧ g_states (w_reg w) !! new = Some p ∧ gs_ready p = true
             ∧ g_active (w_reg w') = Some new ∧ g_closed (w_reg w) = false.
Proof.
  intros I []; cbn in *.
  - left. unfold StageGeneration. by repeat case_match.
  - left. unfold MarkGenerationReady. by repeat case_match.
  - unfold activate_begin. destruct (g_closed g) eqn:Hcl; [by left|]. destruct (_ && negb _); [by left|].
    destruct (g_pending g) as [new|] eqn:Hp; [|left; by case_match].
    destruct (pending_state g) as [p|] eqn:Ep; [|left; by case_match].
    destruct (negb (gs_generation p =? generation)); [left; by case_match|].
    destruct (negb (gs_ready p)) eqn:Hr; [by left|]. bools. right. exists new, p.
    unfold pending_state in Ep. rewrite Hp in Ep. split_and!; try done. by repeat case_match.
  - left. by destruct s.
  - left. unfold discardPending. by repeat case_match.
  - left. unfold Acquire. by repeat case_match.
  - by left.
  - left. unfold lease_close, release, markDrained. by repeat case_match.
  - left. unfold watch, lease_close, release, markDrained. by repeat case_match.
  - left. unfold Close. cbn. by repeat case_match.
Qed.

(** No step changes a state's generation or rules. *)
Definition extends (l l' : list generationState) : Prop :=
  ∀ k s, l !! k = Some s → ∃ s', l' !! k = Some s' ∧ gs_generation s' = gs_generation s ∧ gs_rules s' = gs_rules s.

Lemma extends_refl l : extends l l.
Proof. intros k s E. by exists s. Qed.

Lemma extends_trans l1 l2 l3 : extends l1 l2 → extends l2 l3 → extends l1 l3.
Proof.
  intros H12 H23 k s E. destruct (H12 k s E) as (s2 & E2 & Eg2 & Er2).
  destruct (H23 k s2 E2) as (s3 & E3 & Eg3 & Er3). exists s3. split_and!; congruence.
Qed.

Lemma extends_alter l l' i f : keeps f → extends l l' → extends l (alter f i l').
Proof. intros Hf Hl. eapply extends_trans; [exact Hl|]. intros k s E. by apply alter_keeps'. Qed.

Lemma extends_snoc l l' s : extends l l' → extends l (l' ++ [s]).
Proof.
  intros Hl. eapply extends_trans; [exact Hl|]. intros k s' E. exists s'. split; [|done].
  apply lookup_app_Some. by left.
Qed.

Ltac solve_extends :=
  repeat first [ apply extends_refl | apply extends_snoc
               | apply extends_alter; [intros [? ? ? ? ? ? []]; by cbn|] ].

Lemma step_extends w w' : step w w' → extends (g_states (w_reg w)) (g_states (w_reg w')).
Proof.
  intros [].
  - unfold StageGeneration. repeat case_match; solve_extends.
  - unfold MarkGenerationReady. repeat case_match; solve_extends.
  - unfold activate_begin. repeat case_match; solve_extends.
  - destruct s; solve_extends.
  - unfold discardPending. repeat case_match; solve_extends.
  - unfold Acquire. repeat case_match; solve_extends.
  - solve_extends.
  - unfold lease_close, release. repeat case_match; solve_extends.
  - unfold watch, lease_close, release. repeat case_match; solve_extends.
  - unfold Close. cbn. repeat case_match; solve_extends.
Qed.
End Invariant.
End GenerationsProofs.
