(* ===== verification/GenerationsGuarantees.v ===== *)
(** * Route generations: guarantees *)
From S2P Require Import Prelude Go Strings Route RouteProofs Generations GenerationsProofs.

Module GenerationsGuarantees.
Import Route RouteProofs Generations GenerationsProofs.

Section Guarantees.
Context `{TextLib}.

(** In every reachable state of the registry the active generation is the only
    one that accepts streams and was marked ready, a pending generation is strictly
    newer, every generation's stream counter equals the number of its open leases
    and respects the limit, and a blocked activation's old generation is reported
    drained exactly when its last lease is closed. *)
Theorem generations_invariant g w k s :
  reachable (mkWorld g w) → g_states g !! k = Some s →
  (gs_accepting s = true ↔ g_active g = Some k)
  ∧ (g_active g = Some k → gs_ready s = true)
  ∧ (∀ a p, active_state g = Some a → pending_state g = Some p →
            gs_generation a < gs_generation p)
  ∧ gs_streams s = open_on (g_leases g) k ∧ 0 ≤ gs_streams s ≤ g_maximumStreams g
  ∧ (k ∈ w → gs_drained s = true ↔ open_on (g_leases g) k = 0).
Proof.
  intros I%registry_reachable_inv E. cbn in I. pose proof (inv_states _ _ I k s E) as [].
  pose proof (open_on_nonneg (g_leases g) k).
  split_and!; try done; try lia; [apply (inv_newer _ _ I)|].
  intros Hw. destruct (so_waiting0 Hw) as [Hacc Hdr]. rewrite <- so_streams0. split; [|done].
  intros Hd. destruct (so_drained0 Hd) as [[_ ?]|[_ Ha]]; [done|]. apply so_accepting0 in Ha. congruence.
Qed.

(** C12. The active generation only moves forward: over any run the number
    [Generation] reports never decreases, and a step that changes it promotes a
    pending generation that was marked ready and is strictly newer. *)
Theorem route_generation_advances g w g' w' :
  reachable (mkWorld g w) → step (mkWorld g w) (mkWorld g' w') →
  Generation g ≤ Generation g'
  ∧ (Generation g' ≠ Generation g →
     Generation g < Generation g'
     ∧ ∃ p, pending_state g = Some p ∧ gs_ready p = true
            ∧ Generation g' = gs_generation p).
Proof.
  intros I%registry_reachable_inv Hs. cbn in I. pose proof (step_inv _ _ Hs I) as I'. cbn in I'.
  pose proof (step_extends _ _ Hs) as Hext. cbn in Hext.
  rewrite (Generation_active _ _ I), (Generation_active _ _ I').
  pose proof (step_active (mkWorld g w) _ I Hs) as Hact. cbn in Hact. destruct Hact as [Ea|(new & p & Hp & Ep & Hr & Ea & _)].
  - unfold active_state. rewrite Ea. destruct (g_active g) as [i|] eqn:Ei; [|done]. cbn.
    destruct (inv_active _ _ I i Ei) as [s E]. destruct (Hext i s E) as (s' & E' & Eg & _).
    rewrite E, E', Eg. split; [lia|done].
  - destruct (Hext new p Ep) as (p' & Ep' & Eg & _). 
    assert (active_state g' = Some p') as -> by (unfold active_state; by rewrite Ea). rewrite Eg.
    assert (match active_state g with Some a => gs_generation a | None => 0 end < gs_generation p).
    { destruct (active_state g) as [a|] eqn:Eac.
      - apply (inv_newer _ _ I); [done|]. unfold pending_state. by rewrite Hp.
      - apply (so_generation _ _ _ _ (inv_states _ _ I new p Ep)). }
    split; [lia|]. intros _. split; [done|]. exists p. split_and!; [unfold pending_state; by rewrite Hp|done..].
Qed.

(** C11. What the registry answers is unambiguous: in every reachable state [Match]
    returns the single most specific rule of the active generation for the
    normalised host and path, it reports no match exactly when no active rule
    applies, and it never reports a conflict. *)
Theorem generation_match_most_specific g w host path h p :
  reachable (mkWorld g w) → normalizeRequest host path = Some (h, p) →
  match accepting_state g with
  | None => Match g host path = inl ErrNoMatch
  | Some (_, active) =>
      (∀ m, Match g host path = inr m ↔
            most_specific (gs_rules active) h p (rm_Rule m)
            ∧ rm_Host m = h ∧ rm_Path m = p ∧ rm_Generation m = gs_generation active)
      ∧ (Match g host path = inl ErrNoMatch ↔
         ∀ r, r ∈ gs_rules active → applies h p r = false)
      ∧ Match g host path ≠ inl ErrMatchConflict
  end.
Proof.
  intros I%registry_reachable_inv En. cbn in I. unfold Match. rewrite En.
  destruct (accepting_state g) as [[i a]|] eqn:Ea; [|done].
  apply accepting_state_Some in Ea as (_ & E & _).
  destruct (so_rules _ _ _ _ (inv_states _ _ I i a E)) as [rules Hr].
  destruct (normalizeRules_match _ _ _ _ h p Hr) as (M1 & M2 & M3).
  destruct (chooseRule (gs_rules a) h p) as [e|rule] eqn:Ec.
  - split_and!.
    + intros [r' ? ? ?]. cbn. split; [done|]. intros (Hms & -> & -> & ->). by apply M1 in Hms.
    + rewrite <- M2. split; congruence.
    + congruence.
  - split_and!; [|split; [done|by intros ?%M2]|done].
    intros [r' ? ? ?]. cbn. rewrite <- M1. split; [by intros [= <- <- <- <-]|].
    intros ([= ->] & -> & -> & ->). done.
Qed.

(** A lease stays fenced to the generation that admitted it: in every reachable
    state each lease still names an existing generation, never the pending one, and
    its match is that generation's most specific rule for its host and path. *)
Theorem lease_fenced g w x :
  reachable (mkWorld g w) → x ∈ g_leases g →
  g_pending g ≠ Some (sl_state x)
  ∧ ∃ s, g_states g !! sl_state x = Some s
         ∧ rm_Generation (sl_match x) = gs_generation s
         ∧ most_specific (gs_rules s) (rm_Host (sl_match x)) (rm_Path (sl_match x)) (rm_Rule (sl_match x)).
Proof.
  intros I%registry_reachable_inv Hx. cbn in I. destruct (inv_leases _ _ I x Hx) as (Hp & s & E & Eg & Ec).
  split; [done|]. exists s. split_and!; [done..|].
  destruct (so_rules _ _ _ _ (inv_states _ _ I _ s E)) as [rules Hr].
  by apply (normalizeRules_match _ _ _ _ _ _ Hr).
Qed.

(** ** Forced drains *)

(** Every watcher goroutine runs once. *)
Definition watch_all (g : GenerationRegistry) : GenerationRegistry :=
  fold_left (λ g l, watch l g) (seq 0 (length (g_leases g))) g.

Definition is_cancelled (g : GenerationRegistry) (k : nat) : Prop :=
  ∃ s, g_states g !! k = Some s ∧ gs_cancelled s = true.

(** Leases keep their state and stay closed. *)
Definition leases_follow (g g' : GenerationRegistry) : Prop :=
  length (g_leases g') = length (g_leases g)
  ∧ ∀ l x, g_leases g !! l = Some x → ∃ x', g_leases g' !! l = Some x'
      ∧ sl_state x' = sl_state x ∧ (sl_done x = true → sl_done x' = true).

Lemma release_leases i g : g_leases (release i g) = g_leases g.
Proof. unfold release. by repeat case_match. Qed.

Lemma release_cancelled i g k : is_cancelled g k → is_cancelled (release i g) k.
Proof.
  intros (s & E & Hc). unfold release. destruct (g_states g !! i) as [t|] eqn:Ei; [|by exists s].
  unfold markDrained, upd_state. cbn zeta. unfold is_cancelled.
  destruct (_ && _); cbn [g_states update upd_state]; cbn; rewrite ?alter_alter;
    (destruct (decide (i = k)) as [->|]; [rewrite list_lookup_alter_eq, E|rewrite list_lookup_alter_ne, E by done]);
    cbn; eexists; (split; [done|]); try done. by destruct (gs_drained s).
Qed.

Lemma watch_follows l g k :
  is_cancelled g k →
  is_cancelled (watch l g) k ∧ leases_follow g (watch l g)
  ∧ ∀ x, g_leases (watch l g) !! l = Some x → sl_state x = k → sl_done x = true.
Proof.
  intros Hk. assert (leases_follow g g) as Hrefl by (split; [done|intros l' x E; by exists x]).
  unfold watch, watch_enabled. destruct (g_leases g !! l) as [x|] eqn:El.
  2: { split_and!; [done..|]. intros x. by rewrite El. }
  destruct (_ || _) eqn:He.
  2: { split_and!; [done..|]. intros x'. rewrite El. intros [= <-] <-. destruct Hk as (s & E & Hc).
       rewrite E, Hc, orb_true_r in He. done. }
  unfold lease_close. rewrite El. destruct (sl_done x) eqn:Hd.
  { split_and!; [done..|]. intros x'. rewrite El. by intros [= <-]. }
  split_and!.
  - by apply release_cancelled.
  - unfold leases_follow. rewrite release_leases. cbn. split; [apply length_alter|]. intros l' x' E.
    destruct (decide (l = l')) as [<-|]; [rewrite list_lookup_alter_eq|rewrite list_lookup_alter_ne by done];
      rewrite E; cbn; by eexists.
  - intros x'. rewrite release_leases. cbn. rewrite list_lookup_alter_eq, El. cbn. by intros [= <-].
Qed.

Lemma watch_fold g w k ls :
  inv g w → is_cancelled g k →
  let g' := fold_left (λ g l, watch l g) ls g in
  inv g' w ∧ leases_follow g g'
  ∧ ∀ l x, l ∈ ls → g_leases g' !! l = Some x → sl_state x = k → sl_done x = true.
Proof.
  revert g. induction ls as [|l ls IH]; intros g I Hk; cbn.
  { split_and!; [done|by split; [|intros l' x E; by exists x]|]. intros l x. by rewrite elem_of_nil. }
  destruct (watch_follows l g k Hk) as (Hk' & (Hlen & Hf) & Hd).
  destruct (IH (watch l g)) as (I' & (Hlen' & Hf') & Hd'); [by apply inv_watch|done|].
  split_and!; [done|split; [congruence|]|].
  - intros l' x E. destruct (Hf l' x E) as (x1 & E1 & Es1 & Hd1). destruct (Hf' l' x1 E1) as (x2 & E2 & Es2 & Hd2).
    exists x2. split_and!; [done|congruence|auto].
  - intros l' x [->|Hin]%elem_of_cons E Hs; [|by eapply Hd'].
    destruct (g_leases (watch l g) !! l) as [x1|] eqn:E1.
    + destruct (Hf' l x1 E1) as (x2 & E2 & Es2 & Hd2). simplify_eq. apply Hd2, (Hd x1); congruence.
    + apply lookup_ge_None in E1. apply lookup_lt_Some in E. lia.
Qed.


(** ** The handoff *)

(** A pending, ready generation becomes the accepting one. *)
Lemma activate_ready g w n p :
  inv g w → g_closed g = false → g_pending g = Some n → g_states g !! n = Some p → gs_ready p = true →
  ∃ g' a, activate_begin g (gs_generation p) = (g', a)
    ∧ accepting_state g' = Some (n, p <| gs_accepting := true |>)
    ∧ (a = Return None ∨ ∃ old, a = Wait old ∧ old ≠ n).
Proof.
  intros I Hcl Hp Ep Hr. assert (pending_state g = Some p) as Eps by (unfold pending_state; by rewrite Hp).
  pose proof (inv_not_pending_active g w n I Hp) as Hna. unfold activate_begin.
  rewrite Hcl, Hp, Eps, Hr, Z.eqb_refl, andb_false_r. cbn [negb].
  destruct (g_active g) as [old|] eqn:Ea.
  - assert (old ≠ n) as Hne by congruence. destruct (inv_active _ _ I old Ea) as [o Eo].
    unfold active_state. rewrite Ea. cbn [mbind option_bind]. rewrite Eo.
    destruct (gs_streams o =? 0); eexists _, _; (split; [done|]); (split; [|by eauto]);
      unfold accepting_state, markDrained, upd_state; cbn;
      by rewrite ?(list_lookup_alter_ne _ _ old), list_lookup_alter_eq, Ep by done.
  - eexists _, _. split; [done|]. split; [|by left]. unfold accepting_state. cbn.
    by rewrite list_lookup_alter_eq, Ep.
Qed.

(** A generation newer than the active and the pending one is staged. *)
Lemma stage_newer g w generation rules normalized :
  inv g w → g_closed g = false → Generation g < generation →
  (∀ p, pending_state g = Some p → gs_generation p < generation) → is_u64 generation →
  normalizeRules generation rules (g_maximumRoutes g) = inr normalized →
  ∃ g' n, StageGeneration g generation rules = (g', None) ∧ g_closed g' = false
    ∧ g_maximumRoutes g' = g_maximumRoutes g ∧ g_pending g' = Some n
    ∧ g_states g' !! n = Some (newGenerationState generation normalized)
    ∧ Generation g' = Generation g ∧ inv g' w.
Proof.
  intros I Hcl Ha Hpd Hu En. pose proof (inv_StageGeneration g w generation rules I Hu) as I'.
  assert (Generation (StageGeneration g generation rules).1 = Generation g) as Eg.
  { rewrite (Generation_active _ _ I), (Generation_active _ _ I').
    pose proof (step_extends (mkWorld g w) _ (step_stage g w generation rules Hu)) as Hext. cbn in Hext.
    assert (g_active (StageGeneration g generation rules).1 = g_active g) as Eac
      by (unfold StageGeneration; by repeat case_match).
    unfold active_state. rewrite Eac. destruct (g_active g) as [i|] eqn:Ei; [|done]. cbn.
    destruct (inv_active _ _ I i Ei) as [s E]. destruct (Hext i s E) as (s' & -> & Es & _). by rewrite E. }
  rewrite (Generation_active _ _ I) in Ha. revert Eg I'. unfold StageGeneration.
  assert (generation ≠ 0) as Hz.
  { destruct (active_state g) as [a|] eqn:Eac; [|lia]. unfold active_state in Eac.
    apply bind_Some in Eac as (i & _ & E). pose proof (so_generation _ _ _ _ (inv_states _ _ I i a E)). lia. }
  rewrite (proj2 (Z.eqb_neq _ _) Hz), En, Hcl.
  assert (∀ g0, length (g_states g0) = length (g_states g0) →
    g_states (set_pending generation normalized g0) !! length (g_states g0)
    = Some (newGenerationState generation normalized)) as Hnew.
  { intros g0 _. unfold set_pending. cbn. by rewrite lookup_app_r, Nat.sub_diag by lia. }
  assert (match active_state g with Some a => gs_generation a < generation | None => True end) as Hac
    by (destruct (active_state g); [lia|done]).
  destruct (active_state g) as [a|]; [rewrite (proj2 (Z.ltb_ge _ _)), (proj2 (Z.eqb_neq _ _)) by lia|];
    (destruct (g_pending g) as [i|] eqn:Hp;
     [destruct (pending_state g) as [q|] eqn:Eq;
      [specialize (Hpd q eq_refl); rewrite (proj2 (Z.ltb_ge _ _)), (proj2 (Z.eqb_neq _ _)) by lia|]|]);
    cbn [fst]; intros Eg I'; eexists _, _; split_and!; try done; by apply Hnew.
Qed.

(** The high-level handoff works: applying a valid rule set under a generation
    newer than the active and the pending one, with a callback that confirms
    readiness, makes exactly that generation and its normalised rules the ones
    served — also when the old streams fail to drain in time, which only decides the
    error that is returned. *)
Theorem apply_generation_serves g w generation rules normalized outcome :
  reachable (mkWorld g w) → g_closed g = false → is_u64 generation → Generation g < generation →
  (∀ p, pending_state g = Some p → gs_generation p < generation) →
  normalizeRules generation rules (g_maximumRoutes g) = inr normalized →
  let r := ApplyGeneration g generation rules (Some (λ g _, (g, None))) (λ g _, (g, outcome)) in
  Snapshot r.1 = Some (generation, normalized)
  ∧ (r.2 = None ∨ r.2 = match outcome with
                        | Drained => None
                        | ContextDone e => Some (ErrContext e)
                        | TimerFired => Some ErrDrainTimeout
                        end).
Proof.
  intros I%registry_reachable_inv Hcl Hu Hg Hpd En. cbn in I.
  destruct (stage_newer g w generation rules normalized I Hcl Hg Hpd Hu En)
    as (g1 & n & Es & Hcl1 & Em & Hp1 & En1 & Eg1 & I1).
  unfold ApplyGeneration. rewrite Es. rewrite Em, En. cbn beta iota.
  assert (MarkGenerationReady g1 generation = (upd_state n (λ s, s <| gs_ready := true |>) g1, None)) as Er.
  { unfold MarkGenerationReady. rewrite Hcl1, Hp1.
    assert (pending_state g1 = Some (newGenerationState generation normalized)) as ->
      by (unfold pending_state; by rewrite Hp1).
    cbn [gs_generation newGenerationState]. rewrite Z.eqb_refl.
    rewrite (Generation_active _ _ I1) in Eg1. destruct (active_state g1); [|done].
    by rewrite (proj2 (Z.eqb_neq _ _)) by lia. }
  rewrite Er. pose proof (inv_ready g1 w n I1) as I2. set (g2 := upd_state n _ g1) in *.
  destruct (activate_ready g2 w n (newGenerationState generation normalized <| gs_ready := true |>) I2)
    as (g3 & a & Ea & Hacc & Hw); [done|done|..|done|].
  { unfold g2, upd_state. cbn. by rewrite list_lookup_alter_eq, En1. }
  unfold ActivateGeneration. cbn [gs_generation] in Ea. change (gs_generation _) with generation in Ea. rewrite Ea.
  assert (∀ old, old ≠ n → accepting_state (cancel old g3) = accepting_state g3) as Hcan.
  { intros old Hne. apply accepting_state_Some in Hacc as Hacc'. destruct Hacc' as (H1 & H2 & H3).
    unfold accepting_state, cancel, upd_state. cbn. rewrite H1, list_lookup_alter_ne by done. by rewrite H2. }
  unfold Snapshot. destruct Hw as [->|(old & -> & Hne)]; [cbn [fst snd]; rewrite Hacc; auto|].
  destruct outcome; cbn [activate_finish fst snd]; rewrite ?Hcan, Hacc by done; auto.
Qed.
End Guarantees.

(** ** A concrete run

    Generation 7 serves one stream while generation 8 is staged, promoted and its
    activation waits. *)
Module Run.
#[local] Existing Instance plain_text.

Definition registry0 : GenerationRegistry :=
  match NewGenerationRegistryWithOptions 0 2 with inr g => g | inl _ => mkRegistry 0 0 None None false [] [] end.
Definition staged7 := (StageGeneration registry0 7 rules_example).1.
Definition active7 := (activate_begin (MarkGenerationReady staged7 7).1 7).1.
Definition streaming7 := (Acquire active7 false "App.example.com:443" "/api/").1.
Definition ready8 := (MarkGenerationReady (StageGeneration streaming7 8 (take 2 rules_example)).1 8).1.
Definition active8 := (activate_begin ready8 8).1.
Definition forced8 := (activate_finish active8 0 TimerFired).1.

Lemma reach_by g w g' w' w'' :
  reachable (mkWorld g w) → step (mkWorld g w) (mkWorld g' w') → w' = w'' → reachable (mkWorld g' w'').
Proof. intros Hr Hs <-. by eapply reachable_step. Qed.

Lemma reach_staged7 : reachable (mkWorld staged7 []).
Proof. by eapply reach_by; [apply (reachable_new 0 2 registry0)|apply step_stage|]. Qed.

Lemma reach_active7 : reachable (mkWorld active7 []).
Proof.
  eapply reach_by; [|exact (step_activate (MarkGenerationReady staged7 7).1 [] 7)|by vm_compute].
  eapply reach_by; [apply reach_staged7|apply step_ready|done].
Qed.

Lemma reach_streaming7 : reachable (mkWorld streaming7 []).
Proof. by eapply reach_by; [apply reach_active7|apply step_acquire|]. Qed.

Lemma reach_ready8 : reachable (mkWorld ready8 []).
Proof.
  eapply reach_by; [|apply step_ready|done].
  by eapply reach_by; [apply reach_streaming7|apply (step_stage _ _ 8)|].
Qed.

Lemma step_active8 : step (mkWorld ready8 []) (mkWorld active8 [0%nat]).
Proof.
  replace [0%nat] with (waits (activate_begin ready8 8).2 ++ []) by (by vm_compute).
  exact (step_activate ready8 [] 8).
Qed.

Lemma reach_active8 : reachable (mkWorld active8 [0%nat]).
Proof. eapply reachable_step; [apply reach_ready8|apply step_active8]. Qed.

Lemma reach_forced8 : reachable (mkWorld forced8 []).
Proof.
  eapply reachable_step; [apply reach_active8|].
  refine (step_finish active8 [] 0 [] TimerFired _ _ _); [by vm_compute|done].
Qed.

Definition old7 : generationState := default (newGenerationState 0 []) (g_states active8 !! 0%nat).
Definition lease7 : StreamLease :=
  default (mkLease 0 (mkMatch (rule_example "" "" "" "" 0) "" "" 0) true true) (g_leases active8 !! 0%nat).

Lemma generations_invariant_witness :
  g_states active8 !! 0%nat = Some old7 ∧ gs_drained old7 = false
  ∧ (gs_drained old7 = true ↔ open_on (g_leases active8) 0 = 0).
Proof.
  assert (g_states active8 !! 0%nat = Some old7) as E by (by vm_compute).
  assert (0%nat ∈ [0%nat]) as Hin by (by left).
  split; [exact E|]. split; [by vm_compute|].
  destruct (generations_invariant active8 [0%nat] 0 old7 reach_active8 E) as (_ & _ & _ & _ & _ & Hw).
  exact (Hw Hin).
Defined.

Lemma route_generation_advances_witness :
  Generation ready8 = 7 ∧ Generation active8 = 8 ∧ Generation ready8 ≤ Generation active8.
Proof.
  split; [by vm_compute|]. split; [by vm_compute|].
  exact (proj1 (route_generation_advances _ _ _ _ reach_ready8 step_active8)).
Defined.

Definition new8 : nat * generationState := default (0%nat, newGenerationState 0 []) (accepting_state active8).

Lemma generation_match_most_specific_witness :
  accepting_state active8 = Some new8 ∧ gs_generation new8.2 = 8
  ∧ (Match active8 "App.example.com:443" "/api/" = inl ErrNoMatch
     ↔ ∀ r, r ∈ gs_rules new8.2 → applies "app.example.com" "/api" r = false).
Proof.
  assert (normalizeRequest "App.example.com:443" "/api/" = Some ("app.example.com", "/api")) as En by (by vm_compute).
  pose proof (generation_match_most_specific active8 [0%nat] _ _ _ _ reach_active8 En) as Hm.
  assert (accepting_state active8 = Some new8) as Ha by (by vm_compute).
  split; [exact Ha|]. split; [by vm_compute|]. rewrite Ha in Hm. clear Ha. revert Hm.
  generalize new8. intros [i a] Hm. exact (proj1 (proj2 Hm)).
Defined.

Lemma lease_fenced_witness :
  lease7 ∈ g_leases active8 ∧ rm_Generation (sl_match lease7) = 7 ∧ g_pending active8 ≠ Some (sl_state lease7).
Proof.
  assert (lease7 ∈ g_leases active8) as Hx by (apply list_elem_of_lookup; exists 0%nat; by vm_compute).
  split; [exact Hx|]. split; [by vm_compute|].
  by destruct (lease_fenced active8 [0%nat] lease7 reach_active8 Hx) as [Hp _].
Defined.


Definition rules8 : list RouteRule :=
  match normalizeRules 8 (take 2 rules_example) 4096 with inr l => l | inl _ => [] end.

Lemma apply_generation_serves_witness :
  Snapshot (ApplyGeneration streaming7 8 (take 2 rules_example) (Some (λ g _, (g, None)))
              (λ g _, (g, TimerFired))).1 = Some (8, rules8).
Proof.
  assert (normalizeRules 8 (take 2 rules_example) (g_maximumRoutes streaming7) = inr rules8) as En by (by vm_compute).
  assert (pending_state streaming7 = None) as Ep by (by vm_compute).
  assert (g_closed streaming7 = false) as Hc by (by vm_compute).
  assert (Generation streaming7 < 8) as Hg by (by vm_compute).
  assert (∀ p, pending_state streaming7 = Some p → gs_generation p < 8) as Hp by (intros p E; congruence).
  assert (is_u64 8) as Hu by (clear; done).
  exact (proj1 (apply_generation_serves streaming7 [] 8 (take 2 rules_example) rules8 TimerFired
                  reach_streaming7 Hc Hu Hg Hp En)).
Defined.
End Run.
End GenerationsGuarantees.
