(* ===== verification/RouteTable.v ===== *)
(** * The route table

    Models [Registry] of [internal/route/route.go]: the attachments of legacy
    routes, indexed by identifier and by host, with a notification channel per
    host, in front of the generation registry.  A channel is a number, its closing
    is membership in [r_closedChannels]. *)
From S2P Require Import Prelude Go Strings Route RouteProofs Generations.

Module RouteTable.
Import Route.

Record Attachment := mkAttachment {
  at_ID : string;
  at_Revision : Z;
  at_Environment : string;
  at_Node : string;
  at_Generation : Z;
  at_ConfigGeneration : Z;
  at_Kind : string;
  at_Host : string;
  at_Target : string;
  at_MatchType : string;
  at_WildcardSuffix : string;
  at_PathPrefix : string;
  at_Priority : Z;
  at_Protocol : string;
  at_OriginScheme : string;
  at_PreserveHost : bool;
  at_HostOverride : string;
  at_DesiredState : string;
  at_PreviewState : string;
  at_PreviewReason : string
}.
#[export] Instance Attachment_eta : Eta Attachment := λ a,
  mkAttachment (at_ID a) (at_Revision a) (at_Environment a) (at_Node a) (at_Generation a)
    (at_ConfigGeneration a) (at_Kind a) (at_Host a) (at_Target a) (at_MatchType a) (at_WildcardSuffix a)
    (at_PathPrefix a) (at_Priority a) (at_Protocol a) (at_OriginScheme a) (at_PreserveHost a)
    (at_HostOverride a) (at_DesiredState a) (at_PreviewState a) (at_PreviewReason a).
#[export] Instance Attachment_eq_dec : EqDecision Attachment.
Proof. solve_decision. Defined.

Record Registry := mkTable {
  r_previewBaseDomain : string;
  r_runtimeBaseDomain : string;
  r_byID : gmap string Attachment;
  r_byHost : gmap string string;
  r_changed : gmap string nat;
  r_closedChannels : gset nat;
  r_nextChannel : nat;
  r_matcher : Generations.GenerationRegistry
}.
#[export] Instance Registry_eta : Eta Registry := λ r,
  mkTable (r_previewBaseDomain r) (r_runtimeBaseDomain r) (r_byID r) (r_byHost r) (r_changed r)
    (r_closedChannels r) (r_nextChannel r) (r_matcher r).

(** ** Notification channels *)

Definition changedLocked (r : Registry) (host : string) : Registry * nat :=
  match r_changed r !! host with
  | Some changed => (r, changed)
  | None => (r <| r_changed := <[host := r_nextChannel r]> (r_changed r) |>
               <| r_nextChannel := S (r_nextChannel r) |>, r_nextChannel r)
  end.

Definition signalChangedLocked (r : Registry) (host : string) : Registry :=
  let '(r, changed) := changedLocked r host in
  r <| r_closedChannels := {[changed]} ∪ r_closedChannels r |>
    <| r_changed := <[host := r_nextChannel r]> (r_changed r) |>
    <| r_nextChannel := S (r_nextChannel r) |>.

Definition sameRoute (a b : Attachment) : bool :=
  (a <| at_PreviewState := "" |> <| at_PreviewReason := "" |>)
  == (b <| at_PreviewState := "" |> <| at_PreviewReason := "" |>).

(** The revision test of [Attach] and [Replace]. *)
Definition stale (current replacement : Attachment) : bool :=
  (at_Revision replacement <? at_Revision current)
  || (at_Revision replacement =? at_Revision current) && negb (sameRoute current replacement).

Section Table.
Context `{TextLib}.

Definition NewRegistryWithOptions (previewBaseDomain runtimeBaseDomain : string) (maximumStreams : Z)
    : error + Registry :=
  match Generations.NewGenerationRegistryWithOptions 0 maximumStreams with
  | inl e => inl e
  | inr matcher =>
      inr (mkTable (normalizeHost previewBaseDomain) (normalizeHost runtimeBaseDomain) ∅ ∅ ∅ ∅ 0 matcher)
  end.

Definition Attach (r : Registry) (a : Attachment) : Registry * (error + Attachment) :=
  let a := a <| at_Host := normalizeHost (at_Host a) |> in
  if (at_ID a == "") || (at_Revision a =? 0) || (at_Environment a == "") || (at_Node a == "")
     || (at_Generation a =? 0) || (at_Host a == "") || (at_Target a == "")
     || (at_Kind a != HelperHTTPSWSS) && (at_Kind a != PreviewHTTPSWSS)
  then (r, inl ErrInvalid)
  else
    let expectedDomain := if at_Kind a == HelperHTTPSWSS then r_runtimeBaseDomain r else r_previewBaseDomain r in
    match CutSuffix (at_Host a) ("." +:+ expectedDomain) with
    | None => (r, inl ErrInvalid)
    | Some prefix =>
        if (expectedDomain == "") || (prefix == "") || ContainsByte prefix 46 then (r, inl ErrInvalid)
        else
          let attach :=
            if match r_byHost r !! at_Host a with Some owner => owner != at_ID a | None => false end
            then (r, inl ErrConflict)
            else
              let byHost := match r_byID r !! at_ID a with
                            | Some current => delete (at_Host current) (r_byHost r)
                            | None => r_byHost r
                            end in
              (signalChangedLocked
                 (r <| r_byID := <[at_ID a := a]> (r_byID r) |>
                    <| r_byHost := <[at_Host a := at_ID a]> byHost |>) (at_Host a), inr a) in
          match r_byID r !! at_ID a with
          | Some current =>
              if current == a then (r, inr current)
              else if stale current a then (r, inl ErrStale)
              else attach
          | None => attach
          end
    end.

Definition Detach (r : Registry) (id : string) (revision : Z) : Registry * option error :=
  match r_byID r !! id with
  | None => (r, None)
  | Some a =>
      if negb (revision =? at_Revision a) then (r, Some ErrStale)
      else (signalChangedLocked
              (r <| r_byID := delete id (r_byID r) |> <| r_byHost := delete (at_Host a) (r_byHost r) |>)
              (at_Host a), None)
  end.

Definition Changed (r : Registry) (host : string) : Registry * nat := changedLocked r (normalizeHost host).

Definition Get (r : Registry) (id : string) : option Attachment := r_byID r !! id.

Definition Owns (r : Registry) (a : Attachment) : bool :=
  match r_byID r !! at_ID a with Some current => sameRoute current a | None => false end.

(** A map read of a missing key yields the zero attachment. *)
Definition zeroAttachment : Attachment :=
  mkAttachment "" 0 "" "" 0 0 "" "" "" "" "" "" 0 "" "" false "" "" "" "".

Definition RouteState (r : Registry) (host : string) : option (string * string * string) :=
  if Generations.HasActiveGeneration (r_matcher r) then Generations.RouteState (r_matcher r) host
  else match r_byHost r !! normalizeHost host with
  | None => None
  | Some id => let a := default zeroAttachment (r_byID r !! id) in
               Some (at_Kind a, at_PreviewState a, at_PreviewReason a)
  end.

Definition attachmentToRule (a : Attachment) : RouteRule :=
  let generation := if at_ConfigGeneration a =? 0 then at_Generation a else at_ConfigGeneration a in
  let matchType := if at_MatchType a == "" then MatchExact else at_MatchType a in
  let '(hostname, wildcardSuffix) :=
    if (matchType == MatchOneLabelWildcard) && (at_WildcardSuffix a == "")
    then ("", TrimPrefix (at_Host a) "*.") else (at_Host a, at_WildcardSuffix a) in
  mkRule (at_ID a) (at_Revision a) generation "" 0 "" 0 "" 0 (at_Environment a) "" "" "" "" "" "" "" 0 0 ""
    (at_Node a) "" "" (at_Kind a) matchType hostname wildcardSuffix (at_PathPrefix a) (at_Priority a)
    (at_Target a) (at_Protocol a) "" 0 (at_OriginScheme a) "" (at_PreserveHost a) (at_HostOverride a)
    (at_DesiredState a) (at_PreviewState a) (at_PreviewReason a).

Fixpoint legacy_rules (attachments : list Attachment) : error + list RouteRule :=
  match attachments with
  | [] => inr []
  | attachment :: attachments =>
      let rule := attachmentToRule attachment in
      match normalizeRule (rr_Generation rule) rule with
      | None => inl ErrInvalid
      | Some normalized =>
          match legacy_rules attachments with inl e => inl e | inr rules => inr (normalized :: rules) end
      end
  end.

(** [attachments] are the values of [byID] in the order of the map iteration. *)
Definition Match (r : Registry) (attachments : list Attachment) (host requestPath : string)
    : error + RouteMatch :=
  if Generations.HasActiveGeneration (r_matcher r) then Generations.Match (r_matcher r) host requestPath
  else match legacy_rules attachments with
  | inl e => inl e
  | inr rules =>
      match Generations.normalizeRequest host requestPath with
      | None => inl ErrNoMatch
      | Some (host, requestPath) =>
          match chooseRule rules host requestPath with
          | inl e => inl e
          | inr rule => inr (mkMatch rule host requestPath (rr_Generation rule))
          end
      end
  end.

(** The lease of a legacy route is not counted; the flag says whether the matcher
    issued the lease. *)
Definition Acquire (r : Registry) (attachments : list Attachment) (ctxDone : bool) (host requestPath : string)
    : Registry * (error + (RouteMatch * bool)) :=
  if Generations.HasActiveGeneration (r_matcher r)
  then match Generations.Acquire (r_matcher r) ctxDone host requestPath with
       | (matcher, inl e) => (r <| r_matcher := matcher |>, inl e)
       | (matcher, inr m) => (r <| r_matcher := matcher |>, inr (m, true))
       end
  else match Match r attachments host requestPath with
  | inl e => (r, inl e)
  | inr m => (r, inr (m, false))
  end.

(** The loop of [Replace] that builds the next table. *)
Fixpoint attach_all (next : Registry) (attachments : list Attachment) : error + Registry :=
  match attachments with
  | [] => inr next
  | a :: attachments => match Attach next a with
                        | (_, inl e) => inl e
                        | (next, inr _) => attach_all next attachments
                        end
  end.

(** The host's owner or its route differs between the tables. *)
Definition owner_changed (r next : Registry) (host : string) : bool :=
  match r_byHost r !! host with
  | Some id =>
      match r_byHost next !! host with
      | None => true
      | Some nextID =>
          (nextID != id)
          || negb (sameRoute (default zeroAttachment (r_byID r !! id))
                             (default zeroAttachment (r_byID next !! nextID)))
      end
  | None => nonnil (r_byHost next !! host)
  end.

Definition changedHosts (r next : Registry) : list string :=
  List.filter (owner_changed r next) (elements (dom (r_byHost r) ∪ dom (r_byHost next))).

Definition any_stale (r next : Registry) : bool :=
  existsb (λ p, match r_byID next !! p.1 with Some replacement => stale p.2 replacement | None => false end)
          (map_to_list (r_byID r)).

Definition Replace (r : Registry) (attachments : list Attachment) : Registry * option error :=
  match NewRegistryWithOptions (r_previewBaseDomain r) (r_runtimeBaseDomain r) 0 with
  | inl _ => (r, None)   (* unreachable: zero options are valid *)
  | inr next =>
      match attach_all next attachments with
      | inl e => (r, Some e)
      | inr next =>
          if any_stale r next then (r, Some ErrStale)
          else (fold_left signalChangedLocked (changedHosts r next)
                  (r <| r_byID := r_byID next |> <| r_byHost := r_byHost next |>), None)
      end
  end.

Definition Snapshot (r : Registry) : list Attachment := sort_by at_ID (map_to_list (r_byID r)).*2.
End Table.
End RouteTable.

(** * The route table: theorems

    The two indexes agree, revisions only advance, and changes of ownership are
    announced. *)

Module RouteTableProofs.
Import Route RouteProofs RouteTable.

(** ** Channels *)

Lemma signal_maps r host :
  r_byID (signalChangedLocked r host) = r_byID r ∧ r_byHost (signalChangedLocked r host) = r_byHost r.
Proof. unfold signalChangedLocked, changedLocked. by destruct (r_changed r !! host). Qed.

Lemma signal_closes r host c :
  r_changed r !! host = Some c → c ∈ r_closedChannels (signalChangedLocked r host).
Proof. intros E. unfold signalChangedLocked, changedLocked. rewrite E. cbn. set_solver. Qed.

Lemma signal_keeps r host c :
  c ∈ r_closedChannels r → c ∈ r_closedChannels (signalChangedLocked r host).
Proof. unfold signalChangedLocked, changedLocked. destruct (r_changed r !! host); cbn; set_solver. Qed.

Lemma signal_other r host host' :
  host' ≠ host → r_changed (signalChangedLocked r host) !! host' = r_changed r !! host'.
Proof.
  intros Hne. unfold signalChangedLocked, changedLocked.
  destruct (r_changed r !! host); cbn; by rewrite !lookup_insert_ne.
Qed.

Lemma signal_all_maps hosts r :
  r_byID (fold_left signalChangedLocked hosts r) = r_byID r
  ∧ r_byHost (fold_left signalChangedLocked hosts r) = r_byHost r.
Proof.
  revert r. induction hosts as [|h hosts IH]; intros r; [done|]. cbn.
  destruct (IH (signalChangedLocked r h)) as [-> ->]. apply signal_maps.
Qed.

Lemma signal_all_keeps hosts r c :
  c ∈ r_closedChannels r → c ∈ r_closedChannels (fold_left signalChangedLocked hosts r).
Proof. revert r. induction hosts as [|h hosts IH]; intros r Hc; [done|]. cbn. by apply IH, signal_keeps. Qed.

Lemma signal_all_closes hosts r host c :
  host ∈ hosts → r_changed r !! host = Some c → c ∈ r_closedChannels (fold_left signalChangedLocked hosts r).
Proof.
  revert r. induction hosts as [|h hosts IH]; intros r Hin E; [by apply not_elem_of_nil in Hin|]. cbn.
  destruct (decide (host = h)) as [->|Hne]; [by apply signal_all_keeps, signal_closes|].
  apply IH; [by apply elem_of_cons in Hin as [|]|by rewrite signal_other].
Qed.

(** ** The invariant *)

(** A host is indexed exactly by the attachment that has it. *)
Record table_ok (byID : gmap string Attachment) (byHost : gmap string string) : Prop := {
  to_id : ∀ id a, byID !! id = Some a → at_ID a = id ∧ byHost !! at_Host a = Some id;
  to_host : ∀ host id, byHost !! host = Some id → ∃ a, byID !! id = Some a ∧ at_Host a = host
}.

Lemma table_ok_insert byID byHost a :
  table_ok byID byHost → (∀ owner, byHost !! at_Host a = Some owner → owner = at_ID a) →
  table_ok (<[at_ID a := a]> byID)
    (<[at_Host a := at_ID a]>
       match byID !! at_ID a with Some current => delete (at_Host current) byHost | None => byHost end).
Proof.
  intros [H1 H2] Hown. split.
  - intros id b [[<- <-]|[Hne E]]%lookup_insert_Some; [by rewrite lookup_insert_eq|].
    destruct (H1 id b E) as [Eid Eh]. split; [done|].
    assert (at_Host a ≠ at_Host b) as Hh. { intros Eq. rewrite <- Eq in Eh. apply Hne. symmetry. by apply Hown. }
    rewrite lookup_insert_ne by done. destruct (byID !! at_ID a) as [cur|] eqn:Ec; [|done].
    rewrite lookup_delete_ne; [done|]. intros Eq. destruct (H1 _ _ Ec) as [_ Ecur]. rewrite Eq in Ecur. congruence.
  - intros host id [[<- <-]|[Hne E]]%lookup_insert_Some; [exists a; by rewrite lookup_insert_eq|].
    destruct (byID !! at_ID a) as [cur|] eqn:Ec.
    + apply lookup_delete_Some in E as [Hcur E]. destruct (H2 host id E) as (b & Eb & Ehb).
      exists b. split; [|done]. rewrite lookup_insert_ne; [done|]. intros <-. congruence.
    + destruct (H2 host id E) as (b & Eb & Ehb). exists b. split; [|done].
      rewrite lookup_insert_ne; [done|]. intros <-. congruence.
Qed.

Lemma table_ok_delete byID byHost id a :
  table_ok byID byHost → byID !! id = Some a → table_ok (delete id byID) (delete (at_Host a) byHost).
Proof.
  intros [H1 H2] Ea. destruct (H1 id a Ea) as [_ Eh]. split.
  - intros id' b [Hne E]%lookup_delete_Some. destruct (H1 id' b E) as [Eid Ehb]. split; [done|].
    rewrite lookup_delete_ne; [done|]. intros Eq. rewrite Eq in Eh. congruence.
  - intros host id' [Hne E]%lookup_delete_Some. destruct (H2 host id' E) as (b & Eb & Ehb).
    exists b. split; [|done]. rewrite lookup_delete_ne; [done|]. intros <-. congruence.
Qed.

Lemma sameRoute_refl a : sameRoute a a = true.
Proof. by apply bool_decide_eq_true_2. Qed.

Lemma owner_changed_refl r host : owner_changed r r host = false.
Proof.
  unfold owner_changed. destruct (r_byHost r !! host) as [id|]; [|done].
  rewrite bool_decide_eq_true_2 by done. by rewrite sameRoute_refl.
Qed.

Section Steps.
Context `{TextLib}.

(** The outcomes of [Attach] that change the table. *)
Lemma Attach_cases r a :
  let b := a <| at_Host := normalizeHost (at_Host a) |> in
  (Attach r a).1 = r
  ∨ (Attach r a).1 = signalChangedLocked
       (r <| r_byID := <[at_ID b := b]> (r_byID r) |>
          <| r_byHost := <[at_Host b := at_ID b]>
               match r_byID r !! at_ID b with
               | Some current => delete (at_Host current) (r_byHost r)
               | None => r_byHost r
               end |>) (at_Host b)
    ∧ (∀ owner, r_byHost r !! at_Host b = Some owner → owner = at_ID b)
    ∧ (∀ current, r_byID r !! at_ID b = Some current → stale current b = false)
    ∧ (Attach r a).2 = inr b.
Proof.
  intros b. unfold Attach. fold b. destruct (_ || _ && _); [by left|].
  destruct (CutSuffix _ _) as [prefix|]; [|by left]. destruct (_ || ContainsByte prefix 46); [by left|].
  destruct (r_byID r !! at_ID b) as [current|] eqn:Ec.
  - destruct (current == b); [by left|]. destruct (stale current b) eqn:Es; [by left|].
    destruct (r_byHost r !! at_Host b) as [owner|] eqn:Eo.
    + destruct (owner != at_ID b) eqn:Ho; [by left|]. bools. right. split_and!; [done|congruence|congruence|done].
    + right. split_and!; [done..|congruence|done].
  - destruct (r_byHost r !! at_Host b) as [owner|] eqn:Eo.
    + destruct (owner != at_ID b) eqn:Ho; [by left|]. bools. right. by split_and!; [done|congruence..|].
    + right. by split_and!.
Qed.

Lemma table_Attach_ok r a :
  table_ok (r_byID r) (r_byHost r) → table_ok (r_byID (Attach r a).1) (r_byHost (Attach r a).1).
Proof.
  intros Hok. destruct (Attach_cases r a) as [->|(-> & Hown & _)]; [done|].
  rewrite !(proj1 (signal_maps _ _)), !(proj2 (signal_maps _ _)).
  by apply table_ok_insert.
Qed.

Lemma attach_all_ok next attachments next' :
  table_ok (r_byID next) (r_byHost next) → attach_all next attachments = inr next' →
  table_ok (r_byID next') (r_byHost next').
Proof.
  revert next. induction attachments as [|a attachments IH]; intros next Hok E; cbn in E; [by injection E as <-|].
  pose proof (table_Attach_ok next a Hok) as Ha. destruct (Attach next a) as [next1 [e|b]]; [done|]. by eapply IH.
Qed.

(** The calls that change the table. *)
Inductive call :=
  | CAttach (a : Attachment)
  | CDetach (id : string) (revision : Z)
  | CChanged (host : string)
  | CReplace (attachments : list Attachment)
  | CAcquire (attachments : list Attachment) (ctxDone : bool) (host path : string)
  | CMatcher (matcher : Generations.GenerationRegistry).   (** the generation operations *)

Definition run (c : call) (r : Registry) : Registry :=
  match c with
  | CAttach a => (Attach r a).1
  | CDetach id revision => (Detach r id revision).1
  | CChanged host => (Changed r host).1
  | CReplace attachments => (Replace r attachments).1
  | CAcquire attachments ctxDone host path => (Acquire r attachments ctxDone host path).1
  | CMatcher matcher => r <| r_matcher := matcher |>
  end.

Inductive reachable : Registry → Prop :=
  | reachable_new previewBaseDomain runtimeBaseDomain maximumStreams r :
      NewRegistryWithOptions previewBaseDomain runtimeBaseDomain maximumStreams = inr r → reachable r
  | reachable_run c r : reachable r → reachable (run c r).

Lemma new_ok preview runtime maximumStreams r :
  NewRegistryWithOptions preview runtime maximumStreams = inr r → table_ok (r_byID r) (r_byHost r).
Proof.
  unfold NewRegistryWithOptions. destruct (Generations.NewGenerationRegistryWithOptions _ _); [done|].
  intros [= <-]. by split.
Qed.

(** The table a successful [Replace] installs. *)
Lemma Replace_cases r attachments :
  (Replace r attachments).1 = r
  ∨ ∃ next, table_ok (r_byID next) (r_byHost next) ∧ any_stale r next = false
      ∧ r_byID (Replace r attachments).1 = r_byID next ∧ r_byHost (Replace r attachments).1 = r_byHost next
      ∧ (Replace r attachments).1 = fold_left signalChangedLocked (changedHosts r next)
          (r <| r_byID := r_byID next |> <| r_byHost := r_byHost next |>).
Proof.
  unfold Replace. destruct (NewRegistryWithOptions _ _ 0) as [|next0] eqn:En; [by left|].
  destruct (attach_all next0 attachments) as [|next] eqn:Ea; [by left|].
  destruct (any_stale r next) eqn:Es; [by left|]. right. exists next. cbn [fst].
  rewrite (proj1 (signal_all_maps _ _)), (proj2 (signal_all_maps _ _)).
  split_and!; try done. by eapply attach_all_ok; [eapply new_ok|].
Qed.

Lemma run_ok c r :
  table_ok (r_byID r) (r_byHost r) → table_ok (r_byID (run c r)) (r_byHost (run c r)).
Proof.
  intros Hok. destruct c; cbn [run].
  - by apply table_Attach_ok.
  - unfold Detach. destruct (r_byID r !! id) as [a|] eqn:E; [|done]. destruct (negb _); [done|]. cbn [fst].
    rewrite (proj1 (signal_maps _ _)), (proj2 (signal_maps _ _)). by apply table_ok_delete.
  - unfold Changed, changedLocked. by destruct (r_changed r !! _).
  - destruct (Replace_cases r attachments) as [->|(next & Hn & _ & -> & -> & _)]; done.
  - unfold Acquire. destruct (Generations.HasActiveGeneration _); [|by destruct (Match _ _ _ _)].
    by destruct (Generations.Acquire _ _ _ _) as [? []].
  - done.
Qed.

Lemma table_reachable_ok r : reachable r → table_ok (r_byID r) (r_byHost r).
Proof. induction 1; [by eapply new_ok|by apply run_ok]. Qed.

(** The route table's two indexes agree in every reachable state: each
    attachment is stored under its own identifier and owns its host, every indexed
    host belongs to an attachment with that host, and so no host has two owners. *)
Theorem route_ownership_unique r :
  reachable r →
  (∀ id a, r_byID r !! id = Some a → at_ID a = id ∧ r_byHost r !! at_Host a = Some id)
  ∧ (∀ host id, r_byHost r !! host = Some id → ∃ a, r_byID r !! id = Some a ∧ at_Host a = host)
  ∧ (∀ id id' a a', r_byID r !! id = Some a → r_byID r !! id' = Some a' → at_Host a = at_Host a' → id = id').
Proof.
  intros [H1 H2]%table_reachable_ok. split_and!; [done..|]. intros id id' a a' E E' Eh.
  destruct (H1 _ _ E) as [_ Hh], (H1 _ _ E') as [_ Hh']. congruence.
Qed.

Lemma any_stale_false r next id a b :
  any_stale r next = false → r_byID r !! id = Some a → r_byID next !! id = Some b → stale a b = false.
Proof.
  intros Hs Ea Eb. apply not_true_is_false. intros Ht. apply not_true_iff_false in Hs. apply Hs.
  unfold any_stale. apply existsb_exists. exists (id, a). cbn. rewrite Eb. split; [|done].
  by apply list_elem_of_In, elem_of_map_to_list.
Qed.

(** The table entry of an identifier after one call. *)
Lemma run_revision c r id a b :
  r_byID r !! id = Some a → r_byID (run c r) !! id = Some b → a = b ∨ stale a b = false.
Proof.
  intros Ea. destruct c; cbn [run].
  - destruct (Attach_cases r a0) as [->|(-> & _ & Hs & _)]; [intros ?; left; congruence|].
    rewrite (proj1 (signal_maps _ _)). cbn. intros [[<- <-]|[_ E]]%lookup_insert_Some; [|left; congruence].
    right. by apply Hs.
  - unfold Detach. destruct (r_byID r !! id0) as [x|] eqn:E; [|cbn; intros ?; left; congruence].
    destruct (negb _); [cbn; intros ?; left; congruence|]. cbn [fst]. rewrite (proj1 (signal_maps _ _)). cbn.
    intros [_ ?]%lookup_delete_Some. left. congruence.
  - unfold Changed, changedLocked. destruct (r_changed r !! _); cbn; intros ?; left; congruence.
  - destruct (Replace_cases r attachments) as [->|(next & _ & Hs & -> & _ & _)]; [intros ?; left; congruence|].
    intros Eb. right. by eapply any_stale_false.
  - unfold Acquire. destruct (Generations.HasActiveGeneration _).
    + destruct (Generations.Acquire _ _ _ _) as [? []]; cbn; intros ?; left; congruence.
    + destruct (Match _ _ _ _); cbn; intros ?; left; congruence.
  - cbn. intros ?. left. congruence.
Qed.

(** A route never goes back to an older revision: as long as an identifier stays
    in the table, no call lowers its revision, and at an unchanged revision only the
    preview state and its reason may differ. *)
Theorem route_revision_monotone c r id a b :
  r_byID r !! id = Some a → r_byID (run c r) !! id = Some b →
  at_Revision a ≤ at_Revision b ∧ (at_Revision a = at_Revision b → sameRoute a b = true).
Proof.
  intros Ea Eb. destruct (run_revision c r id a b Ea Eb) as [<-|Hs].
  - split; [lia|]. intros _. by apply bool_decide_eq_true_2.
  - unfold stale in Hs. apply orb_false_iff in Hs as [H1 H2]. bools. split; [lia|]. intros E.
    apply andb_false_iff in H2 as [H2|H2]; bools; [lia|done].
Qed.

(** Ownership changes are announced: when [Detach] or [Replace] changes the
    owner or the route of a host, the channel that [Changed] handed out for that host
    is closed afterwards. *)
Theorem ownership_change_announced c r host channel :
  match c with CDetach _ _ | CReplace _ => True | _ => False end → reachable r →
  r_changed r !! host = Some channel → owner_changed r (run c r) host = true →
  channel ∈ r_closedChannels (run c r).
Proof.
  intros Hc Hr Ech Ho. apply table_reachable_ok in Hr as [H1 H2]. destruct c; try done; cbn [run] in *.
  - unfold Detach in *. destruct (r_byID r !! id) as [a|] eqn:E; [|by rewrite owner_changed_refl in Ho].
    destruct (negb _); [by rewrite owner_changed_refl in Ho|]. cbn [fst] in *.
    assert (host = at_Host a) as ->; [|by apply signal_closes].
    destruct (decide (host = at_Host a)) as [|Hne]; [done|]. exfalso. revert Ho. unfold owner_changed.
    rewrite (proj1 (signal_maps _ _)), (proj2 (signal_maps _ _)). cbn. rewrite lookup_delete_ne by done.
    destruct (r_byHost r !! host) as [id'|] eqn:Eh; [|done]. rewrite bool_decide_eq_true_2 by done. cbn.
    destruct (H2 _ _ Eh) as (b & Eb & Ehb). rewrite lookup_delete_ne by congruence.
    by rewrite Eb, sameRoute_refl.
  - destruct (Replace_cases r attachments) as [E|(next & _ & _ & E1 & E2 & E)].
    + by rewrite E, owner_changed_refl in Ho.
    + rewrite E. apply (signal_all_closes _ _ host); [|done]. unfold changedHosts.
      assert (owner_changed r next host = true) as Ho' by (unfold owner_changed in *; by rewrite <- E1, <- E2).
      apply list_elem_of_In, filter_In. split; [|done]. apply list_elem_of_In, elem_of_elements, elem_of_union.
      rewrite !elem_of_dom. unfold owner_changed in Ho'. destruct (r_byHost r !! host); [by left|].
      right. destruct (r_byHost next !! host); [by eexists|done].
Qed.
End Steps.

(** ** Concrete tables *)
Module Tables.
#[local] Existing Instance plain_text.

Definition attachment_example (id host : string) (revision : Z) : Attachment :=
  mkAttachment id revision "env" "node" 1 0 PreviewHTTPSWSS host "target" "" "" "" 0 "" "" false "" "" "" "".

Definition table0 : Registry :=
  match NewRegistryWithOptions "preview.test" "runtime.test" 0 with
  | inr r => r
  | inl _ => mkTable "" "" ∅ ∅ ∅ ∅ 0 (Generations.mkRegistry 0 0 None None false [] [])
  end.
Definition table1 : Registry := run (CAttach (attachment_example "r1" "A.preview.test." 1)) table0.
Definition table2 : Registry := run (CChanged "a.preview.test") table1.
(** The route moves to another host. *)
Definition table3 : Registry := run (CAttach (attachment_example "r1" "b.preview.test" 2)) table2.
Definition detach1 : call := CDetach "r1" 1.

Lemma reach_table2 : reachable table2.
Proof. do 2 apply reachable_run. by apply (reachable_new "preview.test" "runtime.test" 0). Qed.

Definition at_or (m : option Attachment) : Attachment := default (attachment_example "" "" 0) m.

Lemma route_ownership_unique_witness :
  r_byHost table2 !! "a.preview.test" = Some "r1" ∧ ∃ a, r_byID table2 !! "r1" = Some a ∧ at_Host a = "a.preview.test".
Proof.
  assert (r_byHost table2 !! "a.preview.test" = Some "r1") as E by (by vm_compute).
  split; [exact E|]. exact (proj1 (proj2 (route_ownership_unique table2 reach_table2)) _ _ E).
Defined.

Lemma route_revision_monotone_witness :
  at_Revision (at_or (r_byID table2 !! "r1")) ≤ at_Revision (at_or (r_byID table3 !! "r1")).
Proof.
  refine (proj1 (route_revision_monotone (CAttach (attachment_example "r1" "b.preview.test" 2)) table2 "r1" _ _ _ _));
    by vm_compute.
Defined.

Definition channel_of (r : Registry) (host : string) : nat := default 0%nat (r_changed r !! host).

Lemma ownership_change_announced_witness :
  channel_of table2 "a.preview.test" ∈ r_closedChannels (run detach1 table2).
Proof.
  refine (ownership_change_announced detach1 table2 "a.preview.test" _ I reach_table2 _ _); by vm_compute.
Defined.

(** [Attach] can move a route to another host without closing the channel of the
    host it leaves: that host loses its owner and its watchers are not told. *)
Theorem attach_move_unannounced :
  reachable table2 ∧ r_changed table2 !! "a.preview.test" = Some (channel_of table2 "a.preview.test")
  ∧ r_byHost table2 !! "a.preview.test" = Some "r1" ∧ r_byHost table3 !! "a.preview.test" = None
  ∧ channel_of table2 "a.preview.test" ∉ r_closedChannels table3.
Proof.
  split; [exact reach_table2|]. split; [by vm_compute|]. split; [by vm_compute|]. split; [by vm_compute|].
  apply (bool_decide_eq_false_1 (channel_of table2 "a.preview.test" ∈ r_closedChannels table3)). by vm_compute.
Qed.
End Tables.
End RouteTableProofs.
