(* ===== verification/RotationMessages.v ===== *)
(** * Credential rotation: plans and messages

    The structs of [internal/connectorprotocol/rotation.go] with their [Validate]
    methods, condition by condition.  Hashing, signature verification, URL parsing
    and JSON encoding are the interface [RotationLib]. *)
From S2P Require Import Prelude Go Strings Protocol Messages.

Module RotationMessages.

(** The fields of [url.URL] the source reads. *)
Record URL := mkURL {
  url_Scheme : string; url_Host : string; url_hasUser : bool; url_Opaque : string;
  url_RawQuery : string; url_Fragment : string; url_Path : string
}.

Definition MaxRotationTargets : Z := 256.
Definition MaxRotationMessage : Z := 512.
Definition MaxRotationCredentialLifetime : Duration := 5 * 365 * 24 * Hour.
Definition MaxCredentialRef : Z := 512.

Definition ErrIdentityMismatch := sentinel CodeIdentityMismatch.
Definition ErrContentHashMismatch := sentinel CodeContentHashMismatch.

Record RotationTarget := mkTarget {
  t_ConnectorID : string;
  t_HostID : string;
  t_OldCredentialGeneration : Z;
  t_NewCredentialGeneration : Z
}.
#[export] Instance RotationTarget_eq_dec : EqDecision RotationTarget.
Proof. solve_decision. Defined.

Record RotationPlan := mkPlan {
  p_AccountID : string;
  p_TunnelID : string;
  p_OperationID : string;
  p_TargetSetHash : string;
  p_Targets : list RotationTarget
}.
#[export] Instance RotationPlan_eta : Eta RotationPlan := λ p,
  mkPlan (p_AccountID p) (p_TunnelID p) (p_OperationID p) (p_TargetSetHash p) (p_Targets p).

Record CredentialRotationChallenge := mkChallenge {
  ch_AccountID : string;
  ch_TunnelID : string;
  ch_OperationID : string;
  ch_ConnectorID : string;
  ch_HostID : string;
  ch_SessionID : string;
  ch_ProcessGeneration : Z;
  ch_TargetSetHash : string;
  ch_Target : RotationTarget;
  ch_OldCredentialGeneration : Z;
  ch_NewCredentialGeneration : Z;
  ch_OldIdentityKeyID : string;
  ch_OldIdentityKeyThumbprint : string;
  ch_ChallengeNonce : string;
  ch_IssuedAt : Time;
  ch_ExpiresAt : Time;
  ch_OverlapUntil : Time;
  ch_NewCredentialValidUntil : Time
}.

Record CredentialRotationProof := mkProof {
  pr_AccountID : string;
  pr_TunnelID : string;
  pr_OperationID : string;
  pr_ConnectorID : string;
  pr_HostID : string;
  pr_SessionID : string;
  pr_ProcessGeneration : Z;
  pr_TargetSetHash : string;
  pr_OldCredentialGeneration : Z;
  pr_NewCredentialGeneration : Z;
  pr_OldIdentityKeyID : string;
  pr_OldIdentityKeyThumbprint : string;
  pr_NewIdentityKeyID : string;
  pr_NewIdentityKeyThumbprint : string;
  pr_NewPublicKey : string;
  pr_NewCredentialReference : string;
  pr_ChallengeNonce : string;
  pr_IssuedAt : Time;
  pr_NewCredentialValidUntil : Time;
  pr_OldSignedProof : string;
  pr_NewSignedProof : string
}.
#[export] Instance Proof_eta : Eta CredentialRotationProof := λ p,
  mkProof (pr_AccountID p) (pr_TunnelID p) (pr_OperationID p) (pr_ConnectorID p) (pr_HostID p)
    (pr_SessionID p) (pr_ProcessGeneration p) (pr_TargetSetHash p) (pr_OldCredentialGeneration p)
    (pr_NewCredentialGeneration p) (pr_OldIdentityKeyID p) (pr_OldIdentityKeyThumbprint p)
    (pr_NewIdentityKeyID p) (pr_NewIdentityKeyThumbprint p) (pr_NewPublicKey p)
    (pr_NewCredentialReference p) (pr_ChallengeNonce p) (pr_IssuedAt p) (pr_NewCredentialValidUntil p)
    (pr_OldSignedProof p) (pr_NewSignedProof p).

Record CredentialRotationInstall := mkInstall {
  in_AccountID : string;
  in_TunnelID : string;
  in_OperationID : string;
  in_ConnectorID : string;
  in_HostID : string;
  in_SessionID : string;
  in_ProcessGeneration : Z;
  in_TargetSetHash : string;
  in_OldCredentialGeneration : Z;
  in_NewCredentialGeneration : Z;
  in_NewIdentityKeyID : string;
  in_NewIdentityKeyThumbprint : string;
  in_NewPublicKey : string;
  in_NewCredentialReference : string;
  in_ChallengeNonce : string;
  in_OverlapUntil : Time;
  in_NewCredentialValidUntil : Time;
  in_ReplacementProcessGeneration : Z
}.

Record CredentialRotationReady := mkReady {
  rd_AccountID : string;
  rd_TunnelID : string;
  rd_OperationID : string;
  rd_ConnectorID : string;
  rd_HostID : string;
  rd_SessionID : string;
  rd_PreviousSessionID : string;
  rd_ProcessGeneration : Z;
  rd_TargetSetHash : string;
  rd_OldCredentialGeneration : Z;
  rd_NewCredentialGeneration : Z;
  rd_NewIdentityKeyID : string;
  rd_NewIdentityKeyThumbprint : string;
  rd_NewPublicKey : string;
  rd_NewCredentialReference : string;
  rd_NewCredentialValidUntil : Time;
  rd_ConfigGeneration : Z;
  rd_ConfigContentHash : string;
  rd_EdgeReady : bool;
  rd_RouteReady : bool;
  rd_OriginReady : bool;
  rd_ReadyAt : Time
}.

Record CredentialRotationRevoke := mkRevoke {
  rv_AccountID : string;
  rv_TunnelID : string;
  rv_OperationID : string;
  rv_ConnectorID : string;
  rv_HostID : string;
  rv_SessionID : string;
  rv_ProcessGeneration : Z;
  rv_TargetSetHash : string;
  rv_OldCredentialGeneration : Z;
  rv_NewCredentialGeneration : Z;
  rv_RevokeNonce : string;
  rv_IssuedAt : Time;
  rv_Deadline : Time
}.

Definition RotationAckProofAccepted := "proof_accepted".
Definition RotationAckInstalled := "installed".
Definition RotationAckReady := "ready".
Definition RotationAckRevoked := "revoked".
Definition RotationAckRejected := "rejected".
Definition RotationAckFailed := "failed".

Record CredentialRotationAck := mkRAck {
  ra_AccountID : string;
  ra_TunnelID : string;
  ra_OperationID : string;
  ra_ConnectorID : string;
  ra_HostID : string;
  ra_SessionID : string;
  ra_ProcessGeneration : Z;
  ra_TargetSetHash : string;
  ra_OldCredentialGeneration : Z;
  ra_NewCredentialGeneration : Z;
  ra_Status : string;
  ra_Code : string;
  ra_Message : string
}.

(** The zero values. *)
Definition zeroTarget : RotationTarget := mkTarget "" "" 0 0.
Definition zeroChallenge : CredentialRotationChallenge :=
  mkChallenge "" "" "" "" "" "" 0 "" zeroTarget 0 0 "" "" "" 0 0 0 0.
Definition zeroProof : CredentialRotationProof :=
  mkProof "" "" "" "" "" "" 0 "" 0 0 "" "" "" "" "" "" "" 0 0 "" "".
Definition zeroInstall : CredentialRotationInstall :=
  mkInstall "" "" "" "" "" "" 0 "" 0 0 "" "" "" "" "" 0 0 0.
Definition zeroReady : CredentialRotationReady :=
  mkReady "" "" "" "" "" "" "" 0 "" 0 0 "" "" "" "" 0 0 "" false false false 0.
Definition zeroRevoke : CredentialRotationRevoke := mkRevoke "" "" "" "" "" "" 0 "" 0 0 "" 0 0.

Class RotationLib := {
  sha256_sum : bytes → bytes;                          (** [sha256.Sum256] *)
  ed25519_Verify : bytes → bytes → bytes → bool;
  url_Parse : string → option URL;                     (** [net/url.Parse] *)
  marshal_plan : string → string → string → list RotationTarget → option bytes;
    (** [json.Marshal] of [rotationPlanDocument], without the constant fields *)
  marshal_proof : CredentialRotationProof → option bytes
    (** [json.Marshal] of [rotationProofTranscript], which has no signatures *)
}.

Section Validation.
Context `{RotationLib}.

(** ** Keys, nonces and references *)

Definition PublicKeySize : Z := 32.
Definition dquote : string := bstring [x22].

Definition IdentityThumbprint (publicKey : bytes) : err + string :=
  if negb (blen publicKey =? PublicKeySize) then inl ErrInvalidInput
  else
    let q s := dquote +:+ s +:+ dquote in
    let canonical := "{" +:+ q "crv" +:+ ":" +:+ q "Ed25519" +:+ "," +:+ q "kty" +:+ ":" +:+ q "OKP"
                     +:+ "," +:+ q "x" +:+ ":" +:+ q (EncodeToString publicKey) +:+ "}" in
    inr (EncodeToString (sha256_sum (sbytes canonical))).

Definition hex_digit (v : Z) : byte := byte_of_Z (if v <? 10 then 48 + v else 87 + v).
Definition hex_encode (b : bytes) : string :=
  bstring (b ≫= λ x, [hex_digit (byte_to_Z x / 16); hex_digit (byte_to_Z x mod 16)]).

Definition ValidateCredentialReference (value : string) : option err :=
  if (len value =? 0) || (MaxCredentialRef <? len value) || has_outer_space value || ContainsAny value crlf
  then Some ErrInvalidInput
  else match url_Parse value with
  | None => Some ErrInvalidInput
  | Some parsed =>
      if (url_Scheme parsed == "") || (url_Host parsed != "paperboat") || url_hasUser parsed
         || (url_Opaque parsed != "") || (url_RawQuery parsed != "") || (url_Fragment parsed != "")
         || (url_Path parsed == "")
      then Some ErrInvalidInput
      else if mem_str ["keychain"; "credential-manager"; "secret-service"; "protected-file"; "tpm"] (url_Scheme parsed)
      then None else Some ErrInvalidInput
  end.

Definition validRotationNonce (value : string) : bool :=
  (16 <=? len value) && (len value <=? MaxNonceBytes) && negb (has_outer_space value)
  && negb (ContainsAny value crlf).

Definition decodeRotationPublicKey (value : string) : err + bytes :=
  match DecodeString value with
  | None => inl ErrInvalidInput
  | Some decoded =>
      if negb (blen decoded =? PublicKeySize) || (EncodeToString decoded != value)
      then inl ErrInvalidInput else inr decoded
  end.

Definition SignProofPayload (payload : bytes) (sign : bytes → bytes) : err + string :=
  if (blen payload =? 0) || (MaxProofBytes <? blen payload) then inl ErrInvalidInput
  else
    let signature := sign payload in
    if (blen signature =? 0) || (MaxProofBytes <? blen signature) then inl ErrInvalidInput
    else inr (EncodeToString signature).

Definition DecodeProof (signedProof : string) : err + bytes :=
  if failed (ValidateProof signedProof) then inl ErrAuthenticationFailed
  else match DecodeString signedProof with
  | None => inl ErrAuthenticationFailed
  | Some signature =>
      if (blen signature =? 0) || (MaxProofBytes <? blen signature)
      then inl ErrAuthenticationFailed else inr signature
  end.

(** ** The plan *)

Definition RotationTarget_Validate (t : RotationTarget) : option err :=
  if badID (t_ConnectorID t) || badID (t_HostID t) || (t_OldCredentialGeneration t =? 0)
     || negb (t_NewCredentialGeneration t =? u64 (t_OldCredentialGeneration t + 1))
  then Some ErrInvalidInput else None.

(** The loop of [validateRotationPlanFields]; [previous] is [p.Targets[index-1]]. *)
Fixpoint validate_targets (previous : option RotationTarget) (seen : gset string)
    (targets : list RotationTarget) : option err :=
  match targets with
  | [] => None
  | target :: targets =>
      match RotationTarget_Validate target with
      | Some e => Some e
      | None =>
          if match previous with Some p => negb (String.ltb (t_ConnectorID p) (t_ConnectorID target)) | None => false end
          then Some ErrInvalidInput
          else if bool_decide (t_ConnectorID target ∈ seen) then Some ErrInvalidInput
          else validate_targets (Some target) ({[t_ConnectorID target]} ∪ seen) targets
      end
  end.

Definition validateRotationPlanFields (p : RotationPlan) : option err :=
  if badID (p_AccountID p) || badID (p_TunnelID p) || badID (p_OperationID p)
     || negb (hashPattern (p_TargetSetHash p)) && (p_TargetSetHash p != "")
     || (Z.of_nat (length (p_Targets p)) =? 0) || (MaxRotationTargets <? Z.of_nat (length (p_Targets p)))
  then Some ErrInvalidInput
  else validate_targets None ∅ (p_Targets p).

(** A failure of [json.Marshal]. *)
Definition errMarshal : err := EPlain "json: marshal".

Definition rotationPlanHash (plan : RotationPlan) : err + string :=
  match marshal_plan (p_AccountID plan) (p_TunnelID plan) (p_OperationID plan) (p_Targets plan) with
  | None => inl errMarshal
  | Some payload => inr ("sha256:" +:+ hex_encode (sha256_sum payload))
  end.

Definition NewRotationPlan (accountID tunnelID operationID : string) (targets : list RotationTarget)
    : err + RotationPlan :=
  let plan := mkPlan accountID tunnelID operationID "" (sort_by t_ConnectorID targets) in
  match validateRotationPlanFields plan with
  | Some e => inl e
  | None => match rotationPlanHash plan with
            | inl e => inl e
            | inr digest => inr (plan <| p_TargetSetHash := digest |>)
            end
  end.

Definition RotationPlan_Validate (p : RotationPlan) : option err :=
  match validateRotationPlanFields p with
  | Some e => Some e
  | None => match rotationPlanHash p with
            | inl e => Some e
            | inr expected =>
                if p_TargetSetHash p != expected
                then Some (codeError CodeContentHashMismatch ReasonSnapshotRejected false
                             (Some (EPlain "rotation target set hash mismatch")))
                else None
            end
  end.

Definition plan_Target (p : RotationPlan) (connectorID : string) : option RotationTarget :=
  List.find (λ target, t_ConnectorID target == connectorID) (p_Targets p).

(** ** Messages *)

Definition Challenge_Validate (c : CredentialRotationChallenge) (now : Time) : option err :=
  if badID (ch_AccountID c) || badID (ch_TunnelID c) || badID (ch_OperationID c) || badID (ch_ConnectorID c)
     || badID (ch_HostID c) || badID (ch_SessionID c) || (ch_ProcessGeneration c =? 0)
     || negb (hashPattern (ch_TargetSetHash c)) || (ch_OldCredentialGeneration c =? 0)
     || negb (ch_NewCredentialGeneration c =? u64 (ch_OldCredentialGeneration c + 1))
     || failed (ValidateIdentityKey (ch_OldIdentityKeyID c) (ch_OldIdentityKeyThumbprint c))
     || negb (validRotationNonce (ch_ChallengeNonce c)) || IsZero (ch_IssuedAt c) || IsZero (ch_ExpiresAt c)
     || IsZero (ch_OverlapUntil c) || IsZero (ch_NewCredentialValidUntil c)
     || negb (After (ch_ExpiresAt c) (ch_IssuedAt c)) || negb (After (ch_OverlapUntil c) (ch_ExpiresAt c))
     || negb (After (ch_NewCredentialValidUntil c) (ch_OverlapUntil c))
     || (15 * Minute <? Sub (ch_ExpiresAt c) (ch_IssuedAt c)) || (MaxLease <? Sub (ch_OverlapUntil c) (ch_IssuedAt c))
     || (MaxRotationCredentialLifetime <? Sub (ch_NewCredentialValidUntil c) (ch_IssuedAt c))
  then Some ErrInvalidInput
  else if failed (RotationTarget_Validate (ch_Target c)) || (t_ConnectorID (ch_Target c) != ch_ConnectorID c)
     || (t_HostID (ch_Target c) != ch_HostID c)
     || negb (t_OldCredentialGeneration (ch_Target c) =? ch_OldCredentialGeneration c)
     || negb (t_NewCredentialGeneration (ch_Target c) =? ch_NewCredentialGeneration c)
  then Some (codeError CodeIdentityMismatch ReasonAuthentication false (Some (EPlain "rotation challenge target mismatch")))
  else if negb (IsZero now)
     && (After (ch_IssuedAt c) (now + MaxClockSkew) || (MaxClockSkew <? Sub now (ch_IssuedAt c))
         || negb (After (ch_ExpiresAt c) now) || negb (After (ch_OverlapUntil c) now))
  then Some (codeError CodeCredentialExpired ReasonCredentialExpired true None)
  else None.

(** The key check that ends [validate] of a proof and [Validate] of install and ready. *)
Definition check_key (publicKey thumbprint : string) (mismatch : err) : option err :=
  match decodeRotationPublicKey publicKey with
  | inl e => Some e
  | inr key => match IdentityThumbprint key with
               | inl _ => Some mismatch
               | inr computed => if computed != thumbprint then Some mismatch else None
               end
  end.

Definition Proof_validate (p : CredentialRotationProof) : option err :=
  if badID (pr_AccountID p) || badID (pr_TunnelID p) || badID (pr_OperationID p) || badID (pr_ConnectorID p)
     || badID (pr_HostID p) || badID (pr_SessionID p) || (pr_ProcessGeneration p =? 0)
     || negb (hashPattern (pr_TargetSetHash p)) || (pr_OldCredentialGeneration p =? 0)
     || negb (pr_NewCredentialGeneration p =? u64 (pr_OldCredentialGeneration p + 1))
     || failed (ValidateIdentityKey (pr_OldIdentityKeyID p) (pr_OldIdentityKeyThumbprint p))
     || failed (ValidateIdentityKey (pr_NewIdentityKeyID p) (pr_NewIdentityKeyThumbprint p))
     || (pr_OldIdentityKeyID p == pr_NewIdentityKeyID p) || negb (validRotationNonce (pr_ChallengeNonce p))
     || IsZero (pr_IssuedAt p) || IsZero (pr_NewCredentialValidUntil p)
     || failed (ValidateCredentialReference (pr_NewCredentialReference p))
     || negb (After (pr_NewCredentialValidUntil p) (pr_IssuedAt p))
     || (MaxRotationCredentialLifetime <? Sub (pr_NewCredentialValidUntil p) (pr_IssuedAt p))
  then Some ErrInvalidInput
  else check_key (pr_NewPublicKey p) (pr_NewIdentityKeyThumbprint p)
         (codeError CodeIdentityMismatch ReasonAuthentication false
            (Some (EPlain "new rotation key thumbprint mismatch"))).

Definition Proof_Validate (p : CredentialRotationProof) (now : Time) : option err :=
  match Proof_validate p with
  | Some e => Some e
  | None =>
      if failed (ValidateProof (pr_OldSignedProof p)) || failed (ValidateProof (pr_NewSignedProof p))
      then Some ErrInvalidInput
      else if negb (IsZero now)
         && (After (pr_IssuedAt p) (now + MaxClockSkew) || (MaxClockSkew <? Sub now (pr_IssuedAt p)))
      then Some (codeError CodeAuthenticationFailed ReasonAuthentication false
                   (Some (EPlain "rotation proof is outside clock skew")))
      else None
  end.

Definition CredentialRotationProofPayload (proof : CredentialRotationProof) : err + bytes :=
  match Proof_validate proof with
  | Some e => inl e
  | None => match marshal_proof proof with None => inl errMarshal | Some payload => inr payload end
  end.

Definition SignCredentialRotationProof (proof : CredentialRotationProof) (oldSign newSign : bytes → bytes)
    : err + CredentialRotationProof :=
  match CredentialRotationProofPayload proof with
  | inl e => inl e
  | inr payload =>
      match SignProofPayload payload oldSign with
      | inl e => inl e
      | inr old =>
          match SignProofPayload payload newSign with
          | inl e => inl e
          | inr new =>
              let proof := proof <| pr_OldSignedProof := old |> <| pr_NewSignedProof := new |> in
              match Proof_Validate proof 0 with Some e => inl e | None => inr proof end
          end
      end
  end.

(** [verifyOld] is the callback that looks up the old key. *)
Definition VerifyCredentialRotationProofAt (proof : CredentialRotationProof)
    (verifyOld : CredentialRotationProof → bytes → bytes → option err) (now : Time) : option err :=
  match Proof_Validate proof now with
  | Some e => Some e
  | None =>
      match CredentialRotationProofPayload proof with
      | inl e => Some e
      | inr payload =>
          match DecodeProof (pr_OldSignedProof proof) with
          | inl e => Some e
          | inr oldSignature =>
              match verifyOld proof payload oldSignature with
              | Some e => Some (codeError CodeAuthenticationFailed ReasonAuthentication false (Some e))
              | None =>
                  match DecodeProof (pr_NewSignedProof proof) with
                  | inl e => Some e
                  | inr newSignature =>
                      let failure := codeError CodeAuthenticationFailed ReasonAuthentication false
                                       (Some (EPlain "new rotation key proof failed")) in
                      match decodeRotationPublicKey (pr_NewPublicKey proof) with
                      | inl _ => Some failure
                      | inr publicKey =>
                          if ed25519_Verify publicKey payload newSignature then None else Some failure
                      end
                  end
              end
          end
      end
  end.

Definition Install_Validate (i : CredentialRotationInstall) (now : Time) : option err :=
  if badID (in_AccountID i) || badID (in_TunnelID i) || badID (in_OperationID i) || badID (in_ConnectorID i)
     || badID (in_HostID i) || badID (in_SessionID i) || (in_ProcessGeneration i =? 0)
     || (in_ReplacementProcessGeneration i <=? in_ProcessGeneration i)
     || negb (hashPattern (in_TargetSetHash i)) || (in_OldCredentialGeneration i =? 0)
     || negb (in_NewCredentialGeneration i =? u64 (in_OldCredentialGeneration i + 1))
     || failed (ValidateIdentityKey (in_NewIdentityKeyID i) (in_NewIdentityKeyThumbprint i))
     || failed (ValidateCredentialReference (in_NewCredentialReference i))
     || negb (validRotationNonce (in_ChallengeNonce i)) || IsZero (in_OverlapUntil i)
     || IsZero (in_NewCredentialValidUntil i)
     || negb (After (in_NewCredentialValidUntil i) (in_OverlapUntil i))
     || (MaxRotationCredentialLifetime <? Sub (in_NewCredentialValidUntil i) (in_OverlapUntil i))
  then Some ErrInvalidInput
  else match check_key (in_NewPublicKey i) (in_NewIdentityKeyThumbprint i) ErrIdentityMismatch with
  | Some e => Some e
  | None =>
      if negb (IsZero now) && negb (After (in_OverlapUntil i) now)
      then Some (codeError CodeCredentialExpired ReasonCredentialExpired true None) else None
  end.

Definition Ready_Validate (r : CredentialRotationReady) (now : Time) : option err :=
  if badID (rd_AccountID r) || badID (rd_TunnelID r) || badID (rd_OperationID r) || badID (rd_ConnectorID r)
     || badID (rd_HostID r) || badID (rd_SessionID r) || badID (rd_PreviousSessionID r)
     || (rd_ProcessGeneration r =? 0) || negb (hashPattern (rd_TargetSetHash r))
     || (rd_OldCredentialGeneration r =? 0)
     || negb (rd_NewCredentialGeneration r =? u64 (rd_OldCredentialGeneration r + 1))
     || failed (ValidateIdentityKey (rd_NewIdentityKeyID r) (rd_NewIdentityKeyThumbprint r))
     || failed (ValidateCredentialReference (rd_NewCredentialReference r))
     || IsZero (rd_NewCredentialValidUntil r) || (rd_ConfigGeneration r =? 0)
     || negb (hashPattern (rd_ConfigContentHash r)) || IsZero (rd_ReadyAt r)
  then Some ErrInvalidInput
  else match check_key (rd_NewPublicKey r) (rd_NewIdentityKeyThumbprint r) ErrIdentityMismatch with
  | Some e => Some e
  | None =>
      if negb (rd_EdgeReady r) || negb (rd_RouteReady r) || negb (rd_OriginReady r)
      then Some (codeError CodeCredentialRotationNotReady ReasonSnapshotRejected true None)
      else if negb (IsZero now)
         && (negb (After (rd_NewCredentialValidUntil r) now) || Before (rd_ReadyAt r) (now + - MaxClockSkew)
             || After (rd_ReadyAt r) (now + MaxClockSkew))
      then if negb (After (rd_NewCredentialValidUntil r) now)
           then Some (codeError CodeCredentialExpired ReasonCredentialExpired true None)
           else Some ErrInvalidInput
      else None
  end.

Definition Revoke_Validate (r : CredentialRotationRevoke) (now : Time) : option err :=
  if badID (rv_AccountID r) || badID (rv_TunnelID r) || badID (rv_OperationID r) || badID (rv_ConnectorID r)
     || badID (rv_HostID r) || badID (rv_SessionID r) || (rv_ProcessGeneration r =? 0)
     || negb (hashPattern (rv_TargetSetHash r)) || (rv_OldCredentialGeneration r =? 0)
     || negb (rv_NewCredentialGeneration r =? u64 (rv_OldCredentialGeneration r + 1))
     || negb (validRotationNonce (rv_RevokeNonce r)) || IsZero (rv_IssuedAt r) || IsZero (rv_Deadline r)
     || negb (After (rv_Deadline r) (rv_IssuedAt r))
     || (DefaultAbortTimeout * 2 <? Sub (rv_Deadline r) (rv_IssuedAt r))
  then Some ErrInvalidInput
  else if negb (IsZero now)
     && (After (rv_IssuedAt r) (now + MaxClockSkew) || negb (After (rv_Deadline r) now))
  then Some (codeError CodeCredentialExpired ReasonCredentialExpired true None)
  else None.

Definition RAck_Validate (a : CredentialRotationAck) : option err :=
  if badID (ra_AccountID a) || badID (ra_TunnelID a) || badID (ra_OperationID a) || badID (ra_ConnectorID a)
     || badID (ra_HostID a) || badID (ra_SessionID a) || (ra_ProcessGeneration a =? 0)
     || negb (hashPattern (ra_TargetSetHash a)) || (ra_OldCredentialGeneration a =? 0)
     || negb (ra_NewCredentialGeneration a =? u64 (ra_OldCredentialGeneration a + 1))
     || (MaxRotationMessage <? len (ra_Message a))
  then Some ErrInvalidInput
  else if mem_str [RotationAckProofAccepted; RotationAckInstalled; RotationAckReady; RotationAckRevoked] (ra_Status a)
  then if ra_Code a != "" then Some ErrInvalidInput else None
  else if mem_str [RotationAckRejected; RotationAckFailed] (ra_Status a)
  then if (ra_Code a == "") || negb (validCode (ra_Code a)) then Some ErrInvalidInput else None
  else Some ErrInvalidInput.
End Validation.
End RotationMessages.
