(* ===== verification/Rotation.v ===== *)
(** * Credential rotation: the coordinator

    Models [RotationCoordinator] and [MemoryRotationPersistence] of
    [internal/connectorprotocol/rotation.go].  The durable store is the interface
    [RotationPersistence]: a record of operations on a store state that every call
    threads through.  Random nonces, the clock and the state of the request's
    context are arguments of the operations. *)
From S2P Require Import Prelude Go Strings Protocol Messages RotationMessages.

Module Rotation.
Import RotationMessages.

Inductive RotationTargetState :=
  | RotationTargetPending | RotationTargetChallenged | RotationTargetInstalled | RotationTargetReady
  | RotationTargetRevoking | RotationTargetRevoked | RotationTargetFailed
  | RotationTargetUnknown (text : string).   (** any other string *)
#[export] Instance RotationTargetState_eq_dec : EqDecision RotationTargetState.
Proof. solve_decision. Defined.

Definition validRotationTargetState (state : RotationTargetState) : bool :=
  match state with RotationTargetUnknown _ => false | _ => true end.

Inductive RotationAggregateStatus :=
  RotationAggregatePending | RotationAggregateSucceeded | RotationAggregateFailed.
#[export] Instance RotationAggregateStatus_eq_dec : EqDecision RotationAggregateStatus.
Proof. solve_decision. Defined.

Record RotationTargetSummary := mkTargetSummary {
  s_Target : RotationTarget; s_State : RotationTargetState; s_Code : string
}.

Record RotationSummary := mkSummary {
  sm_AccountID : string;
  sm_TunnelID : string;
  sm_OperationID : string;
  sm_TargetSetHash : string;
  sm_Status : RotationAggregateStatus;
  sm_Targets : list RotationTargetSummary;
  sm_CompletedAt : Time
}.
#[export] Instance RotationSummary_eta : Eta RotationSummary := λ s,
  mkSummary (sm_AccountID s) (sm_TunnelID s) (sm_OperationID s) (sm_TargetSetHash s) (sm_Status s)
    (sm_Targets s) (sm_CompletedAt s).
Definition zeroSummary : RotationSummary := mkSummary "" "" "" "" RotationAggregatePending [] 0.

Record RotationResumeTarget := mkResumeTarget {
  r_Target : RotationTarget;
  r_State : RotationTargetState;
  r_Code : string;
  r_OverlapUntil : Time;
  r_NewCredentialValidUntil : Time;
  r_Challenge : CredentialRotationChallenge;
  r_Proof : CredentialRotationProof;
  r_Install : CredentialRotationInstall;
  r_Ready : CredentialRotationReady;
  r_Revoke : CredentialRotationRevoke
}.
#[export] Instance RotationResumeTarget_eta : Eta RotationResumeTarget := λ r,
  mkResumeTarget (r_Target r) (r_State r) (r_Code r) (r_OverlapUntil r) (r_NewCredentialValidUntil r)
    (r_Challenge r) (r_Proof r) (r_Install r) (r_Ready r) (r_Revoke r).

Record RotationResume := mkResume {
  rs_Plan : RotationPlan;
  rs_Started : bool;
  rs_FinishedAt : Time;
  rs_Targets : list RotationResumeTarget
}.

(** [RotationPersistence] with the optional [RotationRecoveryStore] and
    [RotationSessionAuthorizer]. *)
Record RotationPersistence (S : Type) := mkPersistence {
  BeginCredentialRotation : S → RotationPlan → S * option err;
  RecordCredentialRotationChallenge : S → CredentialRotationChallenge → S * option err;
  RecordCredentialRotationProof :
    S → CredentialRotationChallenge → CredentialRotationProof → CredentialRotationInstall → S * option err;
  RecordCredentialRotationReady : S → CredentialRotationReady → S * option err;
  RecordCredentialRotationRevoke : S → CredentialRotationRevoke → S * option err;
  RecordCredentialRotationResult : S → CredentialRotationAck → RotationSummary → S * option err;
  LoadCredentialRotation : option (S → RotationPlan → err + RotationResume);
  AuthorizeCredentialRotationSession : option (S → CredentialRotationChallenge → option err)
}.
Arguments BeginCredentialRotation {S} _ _ _.
Arguments RecordCredentialRotationChallenge {S} _ _ _.
Arguments RecordCredentialRotationProof {S} _ _ _ _ _.
Arguments RecordCredentialRotationReady {S} _ _ _.
Arguments RecordCredentialRotationRevoke {S} _ _ _.
Arguments RecordCredentialRotationResult {S} _ _ _ _.
Arguments LoadCredentialRotation {S} _.
Arguments AuthorizeCredentialRotationSession {S} _.

Record rotationTargetState := mkTargetState {
  ts_target : RotationTarget;
  ts_state : RotationTargetState;
  ts_code : string;
  ts_challenge : CredentialRotationChallenge;
  ts_proof : CredentialRotationProof;
  ts_install : CredentialRotationInstall;
  ts_ready : CredentialRotationReady;
  ts_revoke : CredentialRotationRevoke
}.
#[export] Instance rotationTargetState_eta : Eta rotationTargetState := λ t,
  mkTargetState (ts_target t) (ts_state t) (ts_code t) (ts_challenge t) (ts_proof t) (ts_install t)
    (ts_ready t) (ts_revoke t).

Definition newTargetState (target : RotationTarget) : rotationTargetState :=
  mkTargetState target RotationTargetPending "" zeroChallenge zeroProof zeroInstall zeroReady zeroRevoke.

Record RotationCoordinator := mkCoordinator {
  c_plan : RotationPlan;
  c_started : bool;
  c_finished : Time;
  c_targets : gmap string rotationTargetState
}.
#[export] Instance RotationCoordinator_eta : Eta RotationCoordinator := λ c,
  mkCoordinator (c_plan c) (c_started c) (c_finished c) (c_targets c).

Definition set_target (connectorID : string) (state : rotationTargetState) (c : RotationCoordinator) :=
  c <| c_targets := <[connectorID := state]> (c_targets c) |>.

(** ** Aggregates *)

Definition target_state (c : RotationCoordinator) (target : RotationTarget) : rotationTargetState :=
  default (newTargetState target) (c_targets c !! t_ConnectorID target).

Definition summaryLocked (c : RotationCoordinator) : RotationSummary :=
  let states := target_state c <$> p_Targets (c_plan c) in
  let failed := existsb (λ s, ts_state s == RotationTargetFailed) states in
  let succeeded := forallb (λ s, ts_state s == RotationTargetRevoked) states in
  let targets := (λ t, mkTargetSummary t (ts_state (target_state c t)) (ts_code (target_state c t)))
                   <$> p_Targets (c_plan c) in
  mkSummary (p_AccountID (c_plan c)) (p_TunnelID (c_plan c)) (p_OperationID (c_plan c))
    (p_TargetSetHash (c_plan c))
    (if failed then RotationAggregateFailed
     else if succeeded then RotationAggregateSucceeded else RotationAggregatePending)
    targets (if negb failed && succeeded then c_finished c else 0).

Definition ready_or_later (s : RotationTargetState) : bool :=
  match s with RotationTargetReady | RotationTargetRevoking | RotationTargetRevoked => true | _ => false end.

Definition allReadyLocked (c : RotationCoordinator) : bool :=
  forallb (λ p : string * rotationTargetState, ready_or_later (ts_state p.2)) (map_to_list (c_targets c)).

Definition failureAckLocked (c : RotationCoordinator) (state : rotationTargetState) (code : string)
    : CredentialRotationAck :=
  let '(sessionID, processGeneration) :=
    if rv_SessionID (ts_revoke state) != ""
    then (rv_SessionID (ts_revoke state), rv_ProcessGeneration (ts_revoke state))
    else if rd_SessionID (ts_ready state) != ""
    then (rd_SessionID (ts_ready state), rd_ProcessGeneration (ts_ready state))
    else (ch_SessionID (ts_challenge state), ch_ProcessGeneration (ts_challenge state)) in
  let t := ts_target state in let p := c_plan c in
  mkRAck (p_AccountID p) (p_TunnelID p) (p_OperationID p) (t_ConnectorID t) (t_HostID t) sessionID
    processGeneration (p_TargetSetHash p) (t_OldCredentialGeneration t) (t_NewCredentialGeneration t)
    RotationAckFailed code "".

Definition rotationNegativeAckMatches (state : rotationTargetState) (ack : CredentialRotationAck) : bool :=
  let matches sessionID processGeneration :=
    (sessionID != "") && (0 <? processGeneration) && (ra_SessionID ack == sessionID)
    && (ra_ProcessGeneration ack =? processGeneration) in
  match ts_state state with
  | RotationTargetChallenged | RotationTargetInstalled =>
      matches (ch_SessionID (ts_challenge state)) (ch_ProcessGeneration (ts_challenge state))
  | RotationTargetReady => matches (rd_SessionID (ts_ready state)) (rd_ProcessGeneration (ts_ready state))
  | RotationTargetRevoking => matches (rv_SessionID (ts_revoke state)) (rv_ProcessGeneration (ts_revoke state))
  | _ => false
  end.

Definition rotationProofMatchesChallenge (proof : CredentialRotationProof)
    (challenge : CredentialRotationChallenge) (target : RotationTarget) : bool :=
  (pr_AccountID proof == ch_AccountID challenge) && (pr_TunnelID proof == ch_TunnelID challenge)
  && (pr_OperationID proof == ch_OperationID challenge) && (pr_ConnectorID proof == ch_ConnectorID challenge)
  && (pr_HostID proof == ch_HostID challenge) && (pr_SessionID proof == ch_SessionID challenge)
  && (pr_ProcessGeneration proof =? ch_ProcessGeneration challenge)
  && (pr_TargetSetHash proof == ch_TargetSetHash challenge)
  && (pr_OldCredentialGeneration proof =? t_OldCredentialGeneration target)
  && (pr_NewCredentialGeneration proof =? t_NewCredentialGeneration target)
  && (pr_OldIdentityKeyID proof == ch_OldIdentityKeyID challenge)
  && (pr_OldIdentityKeyThumbprint proof == ch_OldIdentityKeyThumbprint challenge)
  && (pr_ChallengeNonce proof == ch_ChallengeNonce challenge)
  && (pr_NewCredentialValidUntil proof =? ch_NewCredentialValidUntil challenge)
  && negb (Before (pr_IssuedAt proof) (ch_IssuedAt challenge))
  && negb (After (pr_IssuedAt proof) (ch_ExpiresAt challenge)).

Definition rotationAckForInstall (i : CredentialRotationInstall) : CredentialRotationAck :=
  mkRAck (in_AccountID i) (in_TunnelID i) (in_OperationID i) (in_ConnectorID i) (in_HostID i) (in_SessionID i)
    (in_ProcessGeneration i) (in_TargetSetHash i) (in_OldCredentialGeneration i)
    (in_NewCredentialGeneration i) RotationAckInstalled "" "".

Definition readyAck (r : CredentialRotationReady) (status code : string) : CredentialRotationAck :=
  mkRAck (rd_AccountID r) (rd_TunnelID r) (rd_OperationID r) (rd_ConnectorID r) (rd_HostID r) (rd_SessionID r)
    (rd_ProcessGeneration r) (rd_TargetSetHash r) (rd_OldCredentialGeneration r)
    (rd_NewCredentialGeneration r) status code "".

Definition rotationRejectedAck (ready : CredentialRotationReady) (code : string) : CredentialRotationAck :=
  readyAck ready RotationAckRejected code.

(** [ready] against the plan and the install, as [MarkReady] checks it. *)
Definition readyMatchesInstall (plan : RotationPlan) (install : CredentialRotationInstall)
    (ready : CredentialRotationReady) : bool :=
  (rd_AccountID ready == p_AccountID plan) && (rd_TunnelID ready == p_TunnelID plan)
  && (rd_OperationID ready == p_OperationID plan) && (rd_ConnectorID ready == in_ConnectorID install)
  && (rd_HostID ready == in_HostID install) && (rd_TargetSetHash ready == p_TargetSetHash plan)
  && (rd_SessionID ready != in_SessionID install) && (rd_PreviousSessionID ready == in_SessionID install)
  && negb (rd_ProcessGeneration ready <? in_ReplacementProcessGeneration install)
  && (rd_OldCredentialGeneration ready =? in_OldCredentialGeneration install)
  && (rd_NewCredentialGeneration ready =? in_NewCredentialGeneration install)
  && (rd_NewIdentityKeyID ready == in_NewIdentityKeyID install)
  && (rd_NewIdentityKeyThumbprint ready == in_NewIdentityKeyThumbprint install)
  && (rd_NewPublicKey ready == in_NewPublicKey install)
  && (rd_NewCredentialReference ready == in_NewCredentialReference install)
  && (rd_NewCredentialValidUntil ready =? in_NewCredentialValidUntil install).

Section Coordinator.
Context `{RotationLib} {S : Type} (store : RotationPersistence S).
Context (verifyOld : CredentialRotationProof → bytes → bytes → option err).

Definition canceled (e : err) : err := codeError CodeCanceled ReasonCanceled true (Some e).
Definition rotationFailed (cause : option err) : err :=
  codeError CodeCredentialRotationFailed ReasonCredentialRotation false cause.
Definition staleGeneration : err := codeError CodeStaleGeneration ReasonStaleGeneration false None.
Definition identityMismatch : err := codeError CodeIdentityMismatch ReasonAuthentication false None.
Definition recoveryMismatch (text : string) : err :=
  codeError CodeIdentityMismatch ReasonCredentialRotation false (Some (EPlain text)).

Definition NewRotationCoordinator (plan : RotationPlan) : err + RotationCoordinator :=
  if failed (RotationPlan_Validate plan) then inl ErrInvalidInput
  else inr (mkCoordinator plan false 0
              (list_to_map ((λ t, (t_ConnectorID t, newTargetState t)) <$> p_Targets plan))).

Definition Start (c : RotationCoordinator) (s : S) (ctxErr : option err) : RotationCoordinator * S * option err :=
  match ctxErr with
  | Some e => (c, s, Some (canceled e))
  | None =>
      if c_started c then (c, s, None)
      else match BeginCredentialRotation store s (c_plan c) with
      | (s, Some e) => (c, s, Some (rotationFailed (Some e)))
      | (s, None) => (c <| c_started := true |>, s, None)
      end
  end.

(** ** Recovery *)

Definition resume_phase_ok (r : RotationResumeTarget) : bool :=
  let challengePresent := ch_SessionID (r_Challenge r) != "" in
  let installPresent := in_SessionID (r_Install r) != "" in
  let readyPresent := rd_SessionID (r_Ready r) != "" in
  let revokePresent := rv_SessionID (r_Revoke r) != "" in
  match r_State r with
  | RotationTargetPending => negb (challengePresent || installPresent || readyPresent || revokePresent)
  | RotationTargetChallenged => challengePresent && negb (installPresent || readyPresent || revokePresent)
  | RotationTargetInstalled => installPresent && negb (readyPresent || revokePresent)
  | RotationTargetReady => readyPresent && negb revokePresent
  | RotationTargetRevoking | RotationTargetRevoked => revokePresent
  | _ => true
  end.

Definition resume_challenge_ok (plan : RotationPlan) (r : RotationResumeTarget) : bool :=
  let c := r_Challenge r in
  negb (failed (Challenge_Validate c 0)) && (ch_AccountID c == p_AccountID plan)
  && (ch_TunnelID c == p_TunnelID plan) && (ch_OperationID c == p_OperationID plan)
  && (ch_TargetSetHash c == p_TargetSetHash plan) && (ch_Target c == r_Target r)
  && (ch_ConnectorID c == t_ConnectorID (r_Target r)) && (ch_HostID c == t_HostID (r_Target r)).

Definition resume_install_ok (plan : RotationPlan) (r : RotationResumeTarget) : bool :=
  let i := r_Install r in
  negb (failed (Install_Validate i 0)) && (in_AccountID i == p_AccountID plan)
  && (in_TunnelID i == p_TunnelID plan) && (in_OperationID i == p_OperationID plan)
  && (in_TargetSetHash i == p_TargetSetHash plan) && (in_ConnectorID i == t_ConnectorID (r_Target r))
  && (in_HostID i == t_HostID (r_Target r)) && (in_SessionID i == ch_SessionID (r_Challenge r))
  && (in_ProcessGeneration i =? ch_ProcessGeneration (r_Challenge r))
  && (in_OldCredentialGeneration i =? t_OldCredentialGeneration (r_Target r))
  && (in_NewCredentialGeneration i =? t_NewCredentialGeneration (r_Target r))
  && (in_ChallengeNonce i == ch_ChallengeNonce (r_Challenge r)).

Definition resume_ready_ok (plan : RotationPlan) (r : RotationResumeTarget) : bool :=
  let d := r_Ready r in let i := r_Install r in
  negb (failed (Ready_Validate d 0)) && (rd_AccountID d == p_AccountID plan)
  && (rd_TunnelID d == p_TunnelID plan) && (rd_OperationID d == p_OperationID plan)
  && (rd_TargetSetHash d == p_TargetSetHash plan) && (rd_ConnectorID d == t_ConnectorID (r_Target r))
  && (rd_HostID d == t_HostID (r_Target r)) && (rd_PreviousSessionID d == in_SessionID i)
  && (rd_SessionID d != in_SessionID i)
  && negb (rd_ProcessGeneration d <? in_ReplacementProcessGeneration i)
  && (rd_OldCredentialGeneration d =? t_OldCredentialGeneration (r_Target r))
  && (rd_NewCredentialGeneration d =? t_NewCredentialGeneration (r_Target r))
  && (rd_NewIdentityKeyID d == in_NewIdentityKeyID i)
  && (rd_NewIdentityKeyThumbprint d == in_NewIdentityKeyThumbprint i)
  && (rd_NewPublicKey d == in_NewPublicKey i)
  && (rd_NewCredentialReference d == in_NewCredentialReference i)
  && (rd_NewCredentialValidUntil d =? in_NewCredentialValidUntil i).

Definition resume_revoke_ok (plan : RotationPlan) (r : RotationResumeTarget) : bool :=
  let v := r_Revoke r in let d := r_Ready r in
  let sameReadySession := (rv_ProcessGeneration v =? rd_ProcessGeneration d) && (rv_SessionID v == rd_SessionID d) in
  let reboundSession := (rd_ProcessGeneration d <? rv_ProcessGeneration v) && (rv_SessionID v != rd_SessionID d) in
  negb (failed (Revoke_Validate v 0)) && (rv_AccountID v == p_AccountID plan)
  && (rv_TunnelID v == p_TunnelID plan) && (rv_OperationID v == p_OperationID plan)
  && (rv_TargetSetHash v == p_TargetSetHash plan) && (rv_ConnectorID v == t_ConnectorID (r_Target r))
  && (rv_HostID v == t_HostID (r_Target r)) && (sameReadySession || reboundSession)
  && (rv_OldCredentialGeneration v =? t_OldCredentialGeneration (r_Target r))
  && (rv_NewCredentialGeneration v =? t_NewCredentialGeneration (r_Target r)).

Definition validateRotationResumeTarget (plan : RotationPlan) (r : RotationResumeTarget) : option err :=
  let challengePresent := ch_SessionID (r_Challenge r) != "" in
  let installPresent := in_SessionID (r_Install r) != "" in
  let readyPresent := rd_SessionID (r_Ready r) != "" in
  let revokePresent := rv_SessionID (r_Revoke r) != "" in
  match RotationTarget_Validate (r_Target r) with
  | Some e => Some e
  | None =>
      if negb (plan_Target plan (t_ConnectorID (r_Target r)) == Some (r_Target r)) then Some ErrIdentityMismatch
      else if negb (validRotationTargetState (r_State r)) then Some ErrInvalidInput
      else if (r_State r == RotationTargetFailed) && ((r_Code r == "") || negb (validCode (r_Code r)))
      then Some ErrInvalidInput
      else if (r_State r != RotationTargetFailed) && (r_Code r != "") then Some ErrInvalidInput
      else if negb (eqb (IsZero (r_OverlapUntil r)) (IsZero (r_NewCredentialValidUntil r)))
              || negb (IsZero (r_OverlapUntil r)) && negb (After (r_NewCredentialValidUntil r) (r_OverlapUntil r))
      then Some ErrInvalidInput
      else if negb challengePresent && (installPresent || readyPresent || revokePresent) then Some ErrInvalidInput
      else if negb installPresent && (readyPresent || revokePresent) then Some ErrInvalidInput
      else if negb readyPresent && revokePresent then Some ErrInvalidInput
      else if challengePresent && negb (resume_challenge_ok plan r) then Some ErrIdentityMismatch
      else if installPresent && negb (resume_install_ok plan r) then Some ErrIdentityMismatch
      else if readyPresent && negb (resume_ready_ok plan r) then Some ErrIdentityMismatch
      else if revokePresent && negb (resume_revoke_ok plan r) then Some ErrIdentityMismatch
      else if negb (resume_phase_ok r) then Some ErrInvalidInput
      else None
  end.

(** The validating loop of [Resume]. *)
Fixpoint check_recovered (c : RotationCoordinator) (seen : gset string) (targets : list RotationResumeTarget)
    : option err :=
  match targets with
  | [] => None
  | r :: targets =>
      let id := t_ConnectorID (r_Target r) in
      if bool_decide (id ∈ seen) then Some (recoveryMismatch "rotation recovery contains duplicate target")
      else
        let mismatch := Some (recoveryMismatch "rotation recovery target or phase mismatch") in
        match c_targets c !! id with
        | None => mismatch
        | Some state =>
            if negb (ts_target state == r_Target r) || negb (validRotationTargetState (r_State r))
               || failed (validateRotationResumeTarget (c_plan c) r)
            then mismatch else check_recovered c ({[id]} ∪ seen) targets
        end
  end.

Definition recover_target (state : rotationTargetState) (r : RotationResumeTarget) : rotationTargetState :=
  mkTargetState (ts_target state) (r_State r) (r_Code r) (r_Challenge r) (r_Proof r) (r_Install r)
    (r_Ready r) (r_Revoke r).

Definition recover_all (targets : list RotationResumeTarget) (m : gmap string rotationTargetState) :=
  fold_left (λ m r, alter (λ state, recover_target state r) (t_ConnectorID (r_Target r)) m) targets m.

Definition Resume (c : RotationCoordinator) (s : S) (ctxErr : option err) (now : Time)
    : RotationCoordinator * option err :=
  match ctxErr with
  | Some e => (c, Some (canceled e))
  | None =>
      match LoadCredentialRotation store with
      | None => (c, Some (codeError CodeUnsupportedMessage ReasonCredentialRotation false
                            (Some (EPlain "rotation persistence does not support recovery"))))
      | Some load =>
          match load s (c_plan c) with
          | inl e => (c, Some (codeError CodeCredentialRotationFailed ReasonCredentialRotation true (Some e)))
          | inr loaded =>
              let plan := rs_Plan loaded in
              if negb (rs_Started loaded) || (p_AccountID plan != p_AccountID (c_plan c))
                 || (p_TunnelID plan != p_TunnelID (c_plan c)) || (p_OperationID plan != p_OperationID (c_plan c))
                 || (p_TargetSetHash plan != p_TargetSetHash (c_plan c)) || failed (RotationPlan_Validate plan)
              then (c, Some (recoveryMismatch "rotation recovery plan mismatch"))
              else if c_started c then (c, None)
              else if negb (bool_decide (length (rs_Targets loaded) = size (c_targets c)))
              then (c, Some (recoveryMismatch "rotation recovery target count mismatch"))
              else match check_recovered c ∅ (rs_Targets loaded) with
              | Some e => (c, Some e)
              | None =>
                  let resumed finished := c <| c_targets := recover_all (rs_Targets loaded) (c_targets c) |>
                                            <| c_started := true |> <| c_finished := finished |> in
                  if IsZero (rs_FinishedAt loaded) then (resumed 0, None)
                  else
                    let failed := existsb (λ r, r_State r == RotationTargetFailed) (rs_Targets loaded) in
                    let allRevoked := forallb (λ r, r_State r == RotationTargetRevoked) (rs_Targets loaded) in
                    if negb failed && negb allRevoked
                    then (c, Some (recoveryMismatch "rotation recovery finished timestamp does not match target states"))
                    else if After (rs_FinishedAt loaded) (now + MaxClockSkew)
                    then (c, Some (recoveryMismatch "rotation recovery finished timestamp is in the future"))
                    else (resumed (rs_FinishedAt loaded), None)
              end
          end
      end
  end.

(** ** The phases of a target *)

Definition ChallengeWithCredentialExpiry (c : RotationCoordinator) (s : S) (ctxErr : option err) (now : Time)
    (connectorID sessionID : string) (processGeneration : Z) (oldIdentityKeyID oldIdentityKeyThumbprint nonce : string)
    (issuedAt expiresAt overlapUntil credentialValidUntil : Time)
    : RotationCoordinator * S * (err + CredentialRotationChallenge) :=
  match ctxErr with
  | Some e => (c, s, inl (canceled e))
  | None =>
      if negb (c_started c) then (c, s, inl ErrInvalidInput)
      else match c_targets c !! connectorID with
      | None => (c, s, inl identityMismatch)
      | Some state =>
          if (ts_state state != RotationTargetPending)
             && ((ts_state state != RotationTargetChallenged) || IsZero (ch_ExpiresAt (ts_challenge state))
                 || After (ch_ExpiresAt (ts_challenge state)) now)
          then (c, s, inl (codeError CodeSessionConflict ReasonStaleGeneration true None))
          else
            let target := ts_target state in
            let challenge := mkChallenge (p_AccountID (c_plan c)) (p_TunnelID (c_plan c))
              (p_OperationID (c_plan c)) connectorID (t_HostID target) sessionID processGeneration
              (p_TargetSetHash (c_plan c)) target (t_OldCredentialGeneration target)
              (t_NewCredentialGeneration target) oldIdentityKeyID oldIdentityKeyThumbprint nonce issuedAt
              expiresAt overlapUntil credentialValidUntil in
            match Challenge_Validate challenge now with
            | Some e => (c, s, inl e)
            | None =>
                match match AuthorizeCredentialRotationSession store with
                      | Some authorize => authorize s challenge
                      | None => None
                      end with
                | Some e => (c, s, inl e)
                | None =>
                    match RecordCredentialRotationChallenge store s challenge with
                    | (s, Some e) => (c, s, inl (rotationFailed (Some e)))
                    | (s, None) =>
                        (set_target connectorID (state <| ts_challenge := challenge |>
                           <| ts_state := RotationTargetChallenged |>) c, s, inr challenge)
                    end
                end
            end
      end
  end.

Definition Challenge (c : RotationCoordinator) (s : S) (ctxErr : option err) (now : Time)
    (connectorID sessionID : string) (processGeneration : Z) (oldIdentityKeyID oldIdentityKeyThumbprint nonce : string)
    (issuedAt expiresAt overlapUntil : Time) : RotationCoordinator * S * (err + CredentialRotationChallenge) :=
  ChallengeWithCredentialExpiry c s ctxErr now connectorID sessionID processGeneration oldIdentityKeyID
    oldIdentityKeyThumbprint nonce issuedAt expiresAt overlapUntil (overlapUntil + 365 * 24 * Hour).

(** The target failed because the store refused a record. *)
Definition store_failed (state : rotationTargetState) : rotationTargetState :=
  state <| ts_state := RotationTargetFailed |> <| ts_code := CodeCredentialRotationFailed |>.

Definition install_for (c : RotationCoordinator) (challenge : CredentialRotationChallenge)
    (proof : CredentialRotationProof) : CredentialRotationInstall :=
  mkInstall (p_AccountID (c_plan c)) (p_TunnelID (c_plan c)) (p_OperationID (c_plan c)) (pr_ConnectorID proof)
    (pr_HostID proof) (pr_SessionID proof) (pr_ProcessGeneration proof) (p_TargetSetHash (c_plan c))
    (pr_OldCredentialGeneration proof) (pr_NewCredentialGeneration proof) (pr_NewIdentityKeyID proof)
    (pr_NewIdentityKeyThumbprint proof) (pr_NewPublicKey proof) (pr_NewCredentialReference proof)
    (pr_ChallengeNonce proof) (ch_OverlapUntil challenge) (pr_NewCredentialValidUntil proof)
    (u64 (pr_ProcessGeneration proof + 1)).

Definition AcceptProof (c : RotationCoordinator) (s : S) (ctxErr : option err) (now : Time)
    (proof : CredentialRotationProof)
    : RotationCoordinator * S * (err + CredentialRotationInstall * CredentialRotationAck) :=
  match ctxErr with
  | Some e => (c, s, inl (canceled e))
  | None =>
      match Proof_Validate proof now with
      | Some e => (c, s, inl e)
      | None =>
          match c_targets c !! pr_ConnectorID proof with
          | None => (c, s, inl staleGeneration)
          | Some state =>
              if ts_state state != RotationTargetChallenged then (c, s, inl staleGeneration)
              else
                let challenge := ts_challenge state in
                if negb (rotationProofMatchesChallenge proof challenge (ts_target state))
                then (c, s, inl identityMismatch)
                else match VerifyCredentialRotationProofAt proof verifyOld now with
                | Some e => (c, s, inl e)
                | None =>
                    let install := install_for c challenge proof in
                    match Install_Validate install now with
                    | Some e => (c, s, inl e)
                    | None =>
                        match RecordCredentialRotationProof store s challenge proof install with
                        | (s, Some e) => (set_target (pr_ConnectorID proof) (store_failed state) c, s,
                                          inl (rotationFailed (Some e)))
                        | (s, None) =>
                            (set_target (pr_ConnectorID proof) (state <| ts_proof := proof |>
                               <| ts_install := install |> <| ts_state := RotationTargetInstalled |>) c, s,
                             inr (install, rotationAckForInstall install))
                        end
                    end
                end
          end
      end
  end.

(** A rejected readiness report is answered with an acknowledgement and an error. *)
Definition MarkReady (c : RotationCoordinator) (s : S) (ctxErr : option err) (now : Time)
    (ready : CredentialRotationReady)
    : RotationCoordinator * S * (err * option CredentialRotationAck + CredentialRotationAck) :=
  match ctxErr with
  | Some e => (c, s, inl (canceled e, None))
  | None =>
      match Ready_Validate ready now with
      | Some e => (c, s, inl (e, Some (rotationRejectedAck ready CodeCredentialRotationNotReady)))
      | None =>
          match c_targets c !! rd_ConnectorID ready with
          | None => (c, s, inl (staleGeneration, None))
          | Some state =>
              if ts_state state != RotationTargetInstalled then (c, s, inl (staleGeneration, None))
              else if negb (readyMatchesInstall (c_plan c) (ts_install state) ready)
              then (c, s, inl (identityMismatch, None))
              else match RecordCredentialRotationReady store s ready with
              | (s, Some e) => (set_target (rd_ConnectorID ready) (store_failed state) c, s,
                                inl (rotationFailed (Some e), None))
              | (s, None) =>
                  (set_target (rd_ConnectorID ready) (state <| ts_ready := ready |>
                     <| ts_state := RotationTargetReady |>) c, s, inr (readyAck ready RotationAckReady ""))
              end
          end
      end
  end.

(** [revokeNonce] is the answer of [newOpaqueID]. *)
Definition Revoke (c : RotationCoordinator) (s : S) (ctxErr : option err) (now : Time) (connectorID : string)
    (revokeNonce : err + string) : RotationCoordinator * S * (err + CredentialRotationRevoke) :=
  match ctxErr with
  | Some e => (c, s, inl (canceled e))
  | None =>
      match c_targets c !! connectorID with
      | None => (c, s, inl identityMismatch)
      | Some state =>
          if sm_Status (summaryLocked c) == RotationAggregateFailed then (c, s, inl (rotationFailed None))
          else if negb (allReadyLocked c)
          then (c, s, inl (codeError CodeCredentialRotationNotReady ReasonSnapshotRejected true None))
          else if ts_state state == RotationTargetRevoking then (c, s, inr (ts_revoke state))
          else if ts_state state != RotationTargetReady then (c, s, inl staleGeneration)
          else match revokeNonce with
          | inl e => (c, s, inl e)
          | inr nonce =>
              let t := ts_target state in let p := c_plan c in
              let revoke := mkRevoke (p_AccountID p) (p_TunnelID p) (p_OperationID p) connectorID (t_HostID t)
                (rd_SessionID (ts_ready state)) (rd_ProcessGeneration (ts_ready state)) (p_TargetSetHash p)
                (t_OldCredentialGeneration t) (t_NewCredentialGeneration t) nonce now (now + DefaultAbortTimeout) in
              match Revoke_Validate revoke now with
              | Some e => (c, s, inl e)
              | None =>
                  match RecordCredentialRotationRevoke store s revoke with
                  | (s, Some e) => (set_target connectorID (store_failed state) c, s, inl (rotationFailed (Some e)))
                  | (s, None) =>
                      (set_target connectorID (state <| ts_revoke := revoke |>
                         <| ts_state := RotationTargetRevoking |>) c, s, inr revoke)
                  end
              end
          end
      end
  end.

(** ** Acknowledgements and failure *)

Definition HandleAck (c : RotationCoordinator) (s : S) (ctxErr : option err) (now : Time)
    (ack : CredentialRotationAck) : RotationCoordinator * S * (RotationSummary * option err) :=
  match RAck_Validate ack with
  | Some e => (c, s, (zeroSummary, Some e))
  | None =>
      match ctxErr with
      | Some e => (c, s, (zeroSummary, Some (canceled e)))
      | None =>
          match c_targets c !! ra_ConnectorID ack with
          | None => (c, s, (zeroSummary, Some identityMismatch))
          | Some state =>
              let t := ts_target state in let p := c_plan c in let id := ra_ConnectorID ack in
              if (ra_AccountID ack != p_AccountID p) || (ra_TunnelID ack != p_TunnelID p)
                 || (ra_OperationID ack != p_OperationID p) || (ra_TargetSetHash ack != p_TargetSetHash p)
                 || (ra_HostID ack != t_HostID t)
                 || negb (ra_OldCredentialGeneration ack =? t_OldCredentialGeneration t)
                 || negb (ra_NewCredentialGeneration ack =? t_NewCredentialGeneration t)
              then (c, s, (zeroSummary, Some identityMismatch))
              else if (ts_state state == RotationTargetRevoked) || (ts_state state == RotationTargetFailed)
              then (c, s, (summaryLocked c, Some staleGeneration))
              else if (ra_Status ack == RotationAckRejected) || (ra_Status ack == RotationAckFailed) then
                if negb (rotationNegativeAckMatches state ack) then (c, s, (zeroSummary, Some identityMismatch))
                else
                  let c' := set_target id (state <| ts_state := RotationTargetFailed |>
                                             <| ts_code := ra_Code ack |>) c in
                  match RecordCredentialRotationResult store s ack (summaryLocked c') with
                  | (s, Some e) =>
                      (c, s, (summaryLocked c,
                              Some (rotationFailed (Join (Some (sentinel CodeCredentialRotationFailed)) (Some e)))))
                  | (s, None) => (c', s, (summaryLocked c', Some (rotationFailed (Some (EPlain (ra_Code ack))))))
                  end
              else if ra_Status ack == RotationAckInstalled then
                if (ts_state state != RotationTargetInstalled) || (ra_SessionID ack != in_SessionID (ts_install state))
                   || negb (ra_ProcessGeneration ack =? in_ProcessGeneration (ts_install state))
                then (c, s, (zeroSummary, Some staleGeneration)) else (c, s, (summaryLocked c, None))
              else if ra_Status ack == RotationAckReady then
                if (ts_state state != RotationTargetReady) || (ra_SessionID ack != rd_SessionID (ts_ready state))
                   || negb (ra_ProcessGeneration ack =? rd_ProcessGeneration (ts_ready state))
                then (c, s, (zeroSummary, Some staleGeneration)) else (c, s, (summaryLocked c, None))
              else if (ra_Status ack != RotationAckRevoked) || (ts_state state != RotationTargetRevoking)
                   || (ra_SessionID ack != rv_SessionID (ts_revoke state))
                   || negb (ra_ProcessGeneration ack =? rv_ProcessGeneration (ts_revoke state))
              then (c, s, (zeroSummary, Some staleGeneration))
              else
                let revoked := state <| ts_state := RotationTargetRevoked |> in
                let c' := set_target id revoked c in
                let summary := summaryLocked c' in
                let '(c', summary) :=
                  if sm_Status summary == RotationAggregateSucceeded
                  then (c' <| c_finished := now |>, summary <| sm_CompletedAt := now |>)
                  else (c', summary) in
                match RecordCredentialRotationResult store s ack summary with
                | (s, Some e) =>
                    let c' := set_target id (store_failed revoked) c' in
                    (c', s, (summaryLocked c', Some (rotationFailed (Some e))))
                | (s, None) => (c', s, (summary, None))
                end
          end
      end
  end.

Definition Fail (c : RotationCoordinator) (s : S) (connectorID code : string)
    : RotationCoordinator * S * (RotationSummary * option err) :=
  if negb (validCode code) || (code == "") then (c, s, (zeroSummary, Some ErrInvalidInput))
  else match c_targets c !! connectorID with
  | None => (c, s, (zeroSummary, Some identityMismatch))
  | Some state =>
      if ts_state state == RotationTargetRevoked then (c, s, (summaryLocked c, Some staleGeneration))
      else if ts_state state == RotationTargetFailed
      then (c, s, (summaryLocked c, Some (rotationFailed (Some (EPlain (ts_code state))))))
      else
        let failed := state <| ts_state := RotationTargetFailed |> <| ts_code := code |> in
        let c' := set_target connectorID failed c in
        match RecordCredentialRotationResult store s (failureAckLocked c' failed code) (summaryLocked c') with
        | (s, Some e) => (c, s, (summaryLocked c, Some (rotationFailed (Some e))))
        | (s, None) => (c', s, (summaryLocked c', Some (rotationFailed (Some (EPlain code)))))
        end
  end.

Definition Summary (c : RotationCoordinator) : RotationSummary := summaryLocked c.
End Coordinator.
End Rotation.

(** * Credential rotation: the in-memory store

    [MemoryRotationPersistence] of [internal/connectorprotocol/rotation.go] as an
    instance of the [RotationPersistence] interface. *)

Module RotationStore.
Import RotationMessages Rotation.

Record MemoryRotationPersistence := mkMemory {
  m_Failure : option err;
  m_Started : list RotationPlan;
  m_Challenges : list CredentialRotationChallenge;
  m_Proofs : list CredentialRotationProof;
  m_Installs : list CredentialRotationInstall;
  m_Readiness : list CredentialRotationReady;
  m_Revocations : list CredentialRotationRevoke;
  m_Results : list RotationSummary
}.
#[export] Instance Memory_eta : Eta MemoryRotationPersistence := λ m,
  mkMemory (m_Failure m) (m_Started m) (m_Challenges m) (m_Proofs m) (m_Installs m) (m_Readiness m)
    (m_Revocations m) (m_Results m).

Definition emptyMemory : MemoryRotationPersistence := mkMemory None [] [] [] [] [] [] [].

(** [if err := m.fail(); err != nil { return err }]. *)
Definition guarded (m : MemoryRotationPersistence) (k : MemoryRotationPersistence)
    : MemoryRotationPersistence * option err :=
  match m_Failure m with Some e => (m, Some e) | None => (k, None) end.

Definition plan_differs (started plan : RotationPlan) : bool :=
  (p_AccountID started != p_AccountID plan) || (p_TunnelID started != p_TunnelID plan)
  || (p_TargetSetHash started != p_TargetSetHash plan)
  || negb (bool_decide (length (p_Targets started) = length (p_Targets plan))).

Definition memory_begin (m : MemoryRotationPersistence) (plan : RotationPlan)
    : MemoryRotationPersistence * option err :=
  match m_Failure m with
  | Some e => (m, Some e)
  | None =>
      match List.find (λ started, p_OperationID started == p_OperationID plan) (m_Started m) with
      | Some started => if plan_differs started plan then (m, Some ErrContentHashMismatch) else (m, None)
      | None => (m <| m_Started := m_Started m ++ [plan] |>, None)
      end
  end.

Definition memory_challenge (m : MemoryRotationPersistence) (challenge : CredentialRotationChallenge) :=
  guarded m (m <| m_Challenges := m_Challenges m ++ [challenge] |>).

Definition memory_proof (m : MemoryRotationPersistence) (_ : CredentialRotationChallenge)
    (proof : CredentialRotationProof) (install : CredentialRotationInstall) :=
  guarded m (m <| m_Proofs := m_Proofs m ++ [proof] |> <| m_Installs := m_Installs m ++ [install] |>).

Definition memory_ready (m : MemoryRotationPersistence) (ready : CredentialRotationReady) :=
  guarded m (m <| m_Readiness := m_Readiness m ++ [ready] |>).

Definition memory_revoke (m : MemoryRotationPersistence) (revoke : CredentialRotationRevoke) :=
  guarded m (m <| m_Revocations := m_Revocations m ++ [revoke] |>).

Definition memory_result (m : MemoryRotationPersistence) (_ : CredentialRotationAck) (summary : RotationSummary) :=
  guarded m (m <| m_Results := m_Results m ++ [summary] |>).

(** ** Loading: the last matching record of each phase wins *)

Definition load_challenges (plan : RotationPlan) (target : RotationTarget)
    (l : list CredentialRotationChallenge) (entry : RotationResumeTarget) : RotationResumeTarget :=
  fold_left (λ entry x,
    if (ch_OperationID x == p_OperationID plan) && (ch_ConnectorID x == t_ConnectorID target)
    then entry <| r_Challenge := x |> <| r_OverlapUntil := ch_OverlapUntil x |>
           <| r_NewCredentialValidUntil := ch_NewCredentialValidUntil x |>
           <| r_State := RotationTargetChallenged |>
    else entry) l entry.

(** Proofs with their index in [m_Proofs]. *)
Definition load_proofs (plan : RotationPlan) (target : RotationTarget) (installs : list CredentialRotationInstall)
    (l : list (nat * CredentialRotationProof)) (entry : RotationResumeTarget) : RotationResumeTarget :=
  fold_left (λ entry '(index, x),
    if (pr_OperationID x == p_OperationID plan) && (pr_ConnectorID x == t_ConnectorID target)
    then (match installs !! index with
          | Some install => entry <| r_Proof := x |> <| r_Install := install |>
          | None => entry <| r_Proof := x |>
          end) <| r_State := RotationTargetInstalled |>
    else entry) l entry.

Definition load_ready (plan : RotationPlan) (target : RotationTarget) (l : list CredentialRotationReady)
    (entry : RotationResumeTarget) : RotationResumeTarget :=
  fold_left (λ entry x,
    if (rd_OperationID x == p_OperationID plan) && (rd_ConnectorID x == t_ConnectorID target)
    then entry <| r_Ready := x |> <| r_State := RotationTargetReady |>
    else entry) l entry.

(** The result loops inside the loop over revocations. *)
Definition load_results (plan : RotationPlan) (target : RotationTarget) (results : list RotationSummary)
    (entry : RotationResumeTarget) : RotationResumeTarget :=
  fold_left (λ entry summary,
    if sm_OperationID summary == p_OperationID plan
    then fold_left (λ entry x,
           if t_ConnectorID (s_Target x) == t_ConnectorID target
           then entry <| r_State := s_State x |> <| r_Code := s_Code x |> else entry)
         (sm_Targets summary) entry
    else entry) results entry.

Definition load_revokes (plan : RotationPlan) (target : RotationTarget) (results : list RotationSummary)
    (l : list CredentialRotationRevoke) (entry : RotationResumeTarget) : RotationResumeTarget :=
  fold_left (λ entry x,
    if (rv_OperationID x == p_OperationID plan) && (rv_ConnectorID x == t_ConnectorID target)
    then load_results plan target results (entry <| r_Revoke := x |> <| r_State := RotationTargetRevoking |>)
    else entry) l entry.

Definition load_target (m : MemoryRotationPersistence) (plan : RotationPlan) (target : RotationTarget)
    : RotationResumeTarget :=
  let entry := mkResumeTarget target RotationTargetPending "" 0 0 zeroChallenge zeroProof zeroInstall
                 zeroReady zeroRevoke in
  let entry := load_challenges plan target (m_Challenges m) entry in
  let entry := load_proofs plan target (m_Installs m) (imap (λ i x, (i, x)) (m_Proofs m)) entry in
  let entry := load_ready plan target (m_Readiness m) entry in
  load_revokes plan target (m_Results m) (m_Revocations m) entry.

Definition ErrRotationNotFound : err := EPlain "credential rotation operation is not available".

Definition memory_load (m : MemoryRotationPersistence) (plan : RotationPlan) : err + RotationResume :=
  match m_Failure m with
  | Some e => inl e
  | None =>
      match List.find (λ candidate, p_OperationID candidate == p_OperationID plan) (m_Started m) with
      | None => inl ErrRotationNotFound
      | Some started =>
          if p_OperationID started == "" then inl ErrRotationNotFound
          else if plan_differs started plan then inl ErrContentHashMismatch
          else
            let finished := fold_left (λ at_ summary,
              if (sm_OperationID summary == p_OperationID plan)
                 && (sm_Status summary == RotationAggregateSucceeded)
              then sm_CompletedAt summary else at_) (m_Results m) 0 in
            inr (mkResume started true finished (load_target m plan <$> p_Targets started))
      end
  end.

Definition memoryPersistence : RotationPersistence MemoryRotationPersistence :=
  mkPersistence _ memory_begin memory_challenge memory_proof memory_ready memory_revoke memory_result
    (Some memory_load) None.
End RotationStore.
