(* ===== verification/RotationProofs.v ===== *)
(** * Credential rotation: transitions and invariants

    Every operation of the coordinator moves at most one target, by one of the
    transitions [tstep]; the invariants are proved on those. *)
From S2P Require Import Prelude Go Strings Protocol Messages RotationMessages Rotation.

Module RotationProofs.
Import RotationMessages Rotation.

(** ** Messages valid now are valid at rest *)

Section Messages.
Context `{RotationLib}.

Lemma zero_now (b : bool) : negb (IsZero 0) && b = false.
Proof. done. Qed.

Lemma Challenge_Validate_rest c now : Challenge_Validate c now = None → Challenge_Validate c 0 = None.
Proof.
  unfold Challenge_Validate. rewrite zero_now. destruct (_ || (MaxRotationCredentialLifetime <? _)); [done|].
  by destruct (failed _ || _ || _ || _ || _).
Qed.

Lemma Install_Validate_rest i now : Install_Validate i now = None → Install_Validate i 0 = None.
Proof.
  unfold Install_Validate. rewrite zero_now. destruct (_ || (MaxRotationCredentialLifetime <? _)); [done|].
  by destruct (check_key _ _ _).
Qed.

Lemma Ready_Validate_rest r now : Ready_Validate r now = None → Ready_Validate r 0 = None.
Proof.
  unfold Ready_Validate. rewrite zero_now. destruct (_ || IsZero (rd_ReadyAt r)); [done|].
  destruct (check_key _ _ _); [done|]. by destruct (negb (rd_EdgeReady r) || _ || _).
Qed.

Lemma Revoke_Validate_rest r now : Revoke_Validate r now = None → Revoke_Validate r 0 = None.
Proof. unfold Revoke_Validate. rewrite zero_now. by destruct (_ || (DefaultAbortTimeout * 2 <? _)). Qed.

(** A valid message names a session. *)
Lemma badID_empty s : badID s = false → s ≠ "".
Proof. by intros E ->. Qed.

Lemma Challenge_session c now : Challenge_Validate c now = None → ch_SessionID c ≠ "".
Proof.
  unfold Challenge_Validate. destruct (_ || (MaxRotationCredentialLifetime <? _)) eqn:E; [done|].
  intros _. apply badID_empty. by bools.
Qed.

Lemma Challenge_times c now :
  Challenge_Validate c now = None →
  IsZero (ch_OverlapUntil c) = false ∧ IsZero (ch_NewCredentialValidUntil c) = false
  ∧ After (ch_NewCredentialValidUntil c) (ch_OverlapUntil c) = true.
Proof.
  unfold Challenge_Validate. destruct (_ || (MaxRotationCredentialLifetime <? _)) eqn:E; [done|].
  intros _. repeat (apply orb_false_iff in E as [E ?]). split_and!; try done. by apply negb_false_iff.
Qed.

Lemma Install_session i now : Install_Validate i now = None → in_SessionID i ≠ "".
Proof.
  unfold Install_Validate. destruct (_ || (MaxRotationCredentialLifetime <? _)) eqn:E; [done|].
  intros _. apply badID_empty. by bools.
Qed.

Lemma Ready_session r now : Ready_Validate r now = None → rd_SessionID r ≠ "".
Proof.
  unfold Ready_Validate. destruct (_ || IsZero (rd_ReadyAt r)) eqn:E; [done|].
  intros _. apply badID_empty. by bools.
Qed.

Lemma Revoke_session r now : Revoke_Validate r now = None → rv_SessionID r ≠ "".
Proof.
  unfold Revoke_Validate. destruct (_ || (DefaultAbortTimeout * 2 <? _)) eqn:E; [done|].
  intros _. apply badID_empty. by bools.
Qed.
End Messages.

(** ** Durable records *)

Inductive event :=
  | EvChallenge (c : CredentialRotationChallenge)
  | EvProof (c : CredentialRotationChallenge) (p : CredentialRotationProof) (i : CredentialRotationInstall)
  | EvReady (r : CredentialRotationReady)
  | EvRevoke (r : CredentialRotationRevoke)
  | EvResult (a : CredentialRotationAck) (s : RotationSummary).

(** The store performed the record [e]. *)
Definition performed {S} (store : RotationPersistence S) (s : S) (e : event) (s' : S) : Prop :=
  match e with
  | EvChallenge c => RecordCredentialRotationChallenge store s c = (s', None)
  | EvProof c p i => RecordCredentialRotationProof store s c p i = (s', None)
  | EvReady r => RecordCredentialRotationReady store s r = (s', None)
  | EvRevoke r => RecordCredentialRotationRevoke store s r = (s', None)
  | EvResult a sm => RecordCredentialRotationResult store s a sm = (s', None)
  end.

Definition final (s : RotationTargetState) : bool :=
  match s with RotationTargetRevoked | RotationTargetFailed => true | _ => false end.

(** ** Transitions of one target *)

Section Steps.
Context `{RotationLib} {S : Type} (store : RotationPersistence S).
Context (verifyOld : CredentialRotationProof → bytes → bytes → option err).

(** The record whose success lets the transition happen is its event. *)
Inductive tstep (c : RotationCoordinator) (t : rotationTargetState) : option event → rotationTargetState → Prop :=
  | tstep_challenge challenge now :
      ts_state t = RotationTargetPending ∨ ts_state t = RotationTargetChallenged →
      Challenge_Validate challenge now = None →
      (ch_AccountID challenge = p_AccountID (c_plan c) ∧ ch_TunnelID challenge = p_TunnelID (c_plan c)
       ∧ ch_OperationID challenge = p_OperationID (c_plan c)
       ∧ ch_TargetSetHash challenge = p_TargetSetHash (c_plan c) ∧ ch_Target challenge = ts_target t
       ∧ ch_HostID challenge = t_HostID (ts_target t)) →
      c_targets c !! ch_ConnectorID challenge = Some t →
      tstep c t (Some (EvChallenge challenge))
        (t <| ts_challenge := challenge |> <| ts_state := RotationTargetChallenged |>)
  | tstep_proof proof now :
      ts_state t = RotationTargetChallenged →
      rotationProofMatchesChallenge proof (ts_challenge t) (ts_target t) = true →
      VerifyCredentialRotationProofAt proof verifyOld now = None →
      Install_Validate (install_for c (ts_challenge t) proof) now = None →
      tstep c t (Some (EvProof (ts_challenge t) proof (install_for c (ts_challenge t) proof)))
        (t <| ts_proof := proof |> <| ts_install := install_for c (ts_challenge t) proof |>
           <| ts_state := RotationTargetInstalled |>)
  | tstep_ready ready now :
      ts_state t = RotationTargetInstalled → Ready_Validate ready now = None →
      readyMatchesInstall (c_plan c) (ts_install t) ready = true →
      tstep c t (Some (EvReady ready)) (t <| ts_ready := ready |> <| ts_state := RotationTargetReady |>)
  | tstep_revoke revoke now :
      ts_state t = RotationTargetReady → Revoke_Validate revoke now = None → allReadyLocked c = true →
      (rv_AccountID revoke = p_AccountID (c_plan c) ∧ rv_TunnelID revoke = p_TunnelID (c_plan c)
       ∧ rv_OperationID revoke = p_OperationID (c_plan c) ∧ rv_TargetSetHash revoke = p_TargetSetHash (c_plan c)
       ∧ rv_HostID revoke = t_HostID (ts_target t) ∧ rv_SessionID revoke = rd_SessionID (ts_ready t)
       ∧ rv_ProcessGeneration revoke = rd_ProcessGeneration (ts_ready t)
       ∧ rv_OldCredentialGeneration revoke = t_OldCredentialGeneration (ts_target t)
       ∧ rv_NewCredentialGeneration revoke = t_NewCredentialGeneration (ts_target t)) →
      c_targets c !! rv_ConnectorID revoke = Some t →
      tstep c t (Some (EvRevoke revoke)) (t <| ts_revoke := revoke |> <| ts_state := RotationTargetRevoking |>)
  | tstep_revoked ack summary :
      ts_state t = RotationTargetRevoking → ra_Status ack = RotationAckRevoked →
      tstep c t (Some (EvResult ack summary)) (t <| ts_state := RotationTargetRevoked |>)
  | tstep_fail code :
      final (ts_state t) = false → code ≠ "" → validCode code = true →
      tstep c t None (t <| ts_state := RotationTargetFailed |> <| ts_code := code |>).

Definition moves (c : RotationCoordinator) (s : S) (c' : RotationCoordinator) (s' : S) : Prop :=
  c_plan c' = c_plan c
  ∧ (c_targets c' = c_targets c
     ∨ ∃ id t ev t', c_targets c !! id = Some t ∧ c_targets c' = <[id := t']> (c_targets c)
         ∧ tstep c t ev t' ∧ ∀ e, ev = Some e → performed store s e s').

Lemma moves_refl c s s' : moves c s c s'.
Proof. split; [done|by left]. Qed.

Lemma moves_one c s s' id t ev t' :
  c_targets c !! id = Some t → tstep c t ev t' → (∀ e, ev = Some e → performed store s e s') →
  moves c s (set_target id t' c) s'.
Proof. intros Et Hs He. split; [done|]. right. by exists id, t, ev, t'. Qed.

Lemma failed_code_valid : CodeCredentialRotationFailed ≠ "" ∧ validCode CodeCredentialRotationFailed = true.
Proof. done. Qed.

Lemma moves_store_failed c s s' id t :
  c_targets c !! id = Some t → final (ts_state t) = false → moves c s (set_target id (store_failed t) c) s'.
Proof.
  intros Et Hf. destruct failed_code_valid. eapply (moves_one c s s' id t None); [done| |done].
  by apply tstep_fail.
Qed.

(** ** Every operation is one transition or none *)

Lemma moves_Start c s ctxErr c' s' e : Start store c s ctxErr = (c', s', e) → moves c s c' s'.
Proof.
  unfold Start. intros E. destruct ctxErr; [injection E as <- <- <-; apply moves_refl|].
  destruct (c_started c); [injection E as <- <- <-; apply moves_refl|].
  destruct (BeginCredentialRotation _ _ _) as [s1 [e1|]]; injection E as <- <- <-; [apply moves_refl|].
  split; [done|by left].
Qed.

Lemma moves_Challenge c s ctxErr now id sid gen kid ktp nonce i x o v c' s' r :
  ChallengeWithCredentialExpiry store c s ctxErr now id sid gen kid ktp nonce i x o v = (c', s', r) →
  moves c s c' s'.
Proof.
  unfold ChallengeWithCredentialExpiry. intros E.
  destruct ctxErr; [injection E as <- <- <-; apply moves_refl|].
  destruct (negb (c_started c)); [injection E as <- <- <-; apply moves_refl|].
  destruct (c_targets c !! id) as [t|] eqn:Et; [|injection E as <- <- <-; apply moves_refl].
  destruct ((ts_state t != RotationTargetPending) && _) eqn:Hg; [injection E as <- <- <-; apply moves_refl|].
  cbv zeta in E. set (ch := mkChallenge _ _ _ id _ sid gen _ _ _ _ kid ktp nonce i x o v) in *.
  destruct (Challenge_Validate ch now) eqn:Hv; [injection E as <- <- <-; apply moves_refl|].
  destruct (match AuthorizeCredentialRotationSession store with Some _ => _ | None => _ end);
    [injection E as <- <- <-; apply moves_refl|].
  destruct (RecordCredentialRotationChallenge store s ch) as [s1 [e1|]] eqn:Hr; injection E as <- <- <-;
    [apply moves_refl|].
  eapply (moves_one c s s1 id t (Some (EvChallenge ch))); [done| |by intros ? [= <-]].
  apply tstep_challenge with now; try done.
  apply andb_false_iff in Hg as [Hg|Hg].
  - left. by bools.
  - right. apply orb_false_iff in Hg as [Hg _]. apply orb_false_iff in Hg as [Hg _]. by bools.
Qed.

Lemma moves_AcceptProof c s ctxErr now proof c' s' r :
  AcceptProof store verifyOld c s ctxErr now proof = (c', s', r) → moves c s c' s'.
Proof.
  unfold AcceptProof. intros E. destruct ctxErr; [injection E as <- <- <-; apply moves_refl|].
  destruct (Proof_Validate proof now); [injection E as <- <- <-; apply moves_refl|].
  destruct (c_targets c !! pr_ConnectorID proof) as [t|] eqn:Et; [|injection E as <- <- <-; apply moves_refl].
  destruct (ts_state t != RotationTargetChallenged) eqn:Hs; [injection E as <- <- <-; apply moves_refl|]. bools.
  destruct (negb _) eqn:Hm; [injection E as <- <- <-; apply moves_refl|]. bools.
  destruct (VerifyCredentialRotationProofAt _ _ _) eqn:Hv; [injection E as <- <- <-; apply moves_refl|].
  destruct (Install_Validate _ _) eqn:Hi; [injection E as <- <- <-; apply moves_refl|].
  destruct (RecordCredentialRotationProof _ _ _ _ _) as [s1 [e1|]] eqn:Hr; injection E as <- <- <-.
  - apply moves_store_failed; [done|by rewrite Hs].
  - eapply (moves_one c s s1); [done|by eapply tstep_proof|by intros ? [= <-]].
Qed.

Lemma moves_MarkReady c s ctxErr now ready c' s' r :
  MarkReady store c s ctxErr now ready = (c', s', r) → moves c s c' s'.
Proof.
  unfold MarkReady. intros E. destruct ctxErr; [injection E as <- <- <-; apply moves_refl|].
  destruct (Ready_Validate ready now) eqn:Hv; [injection E as <- <- <-; apply moves_refl|].
  destruct (c_targets c !! rd_ConnectorID ready) as [t|] eqn:Et; [|injection E as <- <- <-; apply moves_refl].
  destruct (ts_state t != RotationTargetInstalled) eqn:Hs; [injection E as <- <- <-; apply moves_refl|]. bools.
  destruct (negb _) eqn:Hm; [injection E as <- <- <-; apply moves_refl|]. bools.
  destruct (RecordCredentialRotationReady _ _ _) as [s1 [e1|]] eqn:Hr; injection E as <- <- <-.
  - apply moves_store_failed; [done|by rewrite Hs].
  - eapply (moves_one c s s1); [done|by eapply tstep_ready|by intros ? [= <-]].
Qed.

Lemma moves_Revoke c s ctxErr now id nonce c' s' r :
  Revoke store c s ctxErr now id nonce = (c', s', r) → moves c s c' s'.
Proof.
  unfold Revoke. intros E. destruct ctxErr; [injection E as <- <- <-; apply moves_refl|].
  destruct (c_targets c !! id) as [t|] eqn:Et; [|injection E as <- <- <-; apply moves_refl].
  destruct (sm_Status (summaryLocked c) == _); [injection E as <- <- <-; apply moves_refl|].
  destruct (negb (allReadyLocked c)) eqn:Ha; [injection E as <- <- <-; apply moves_refl|]. bools.
  destruct (ts_state t == RotationTargetRevoking); [injection E as <- <- <-; apply moves_refl|].
  destruct (ts_state t != RotationTargetReady) eqn:Hs; [injection E as <- <- <-; apply moves_refl|]. bools.
  destruct nonce as [|n]; [injection E as <- <- <-; apply moves_refl|].
  cbv zeta in E. set (rv := mkRevoke _ _ _ id _ _ _ _ _ _ n _ _) in *.
  destruct (Revoke_Validate rv now) eqn:Hv; [injection E as <- <- <-; apply moves_refl|].
  destruct (RecordCredentialRotationRevoke store s rv) as [s1 [e1|]] eqn:Hr; injection E as <- <- <-.
  - apply moves_store_failed; [done|by rewrite Hs].
  - eapply (moves_one c s s1); [done|by eapply (tstep_revoke c t rv)|by intros ? [= <-]].
Qed.

Lemma not_final t : (ts_state t == RotationTargetRevoked) || (ts_state t == RotationTargetFailed) = false →
  final (ts_state t) = false.
Proof. rewrite orb_false_iff, !bool_decide_eq_false. intros [? ?]. by destruct (ts_state t). Qed.

Lemma RAck_negative_code ack :
  RAck_Validate ack = None → (ra_Status ack == RotationAckRejected) || (ra_Status ack == RotationAckFailed) = true →
  ra_Code ack ≠ "" ∧ validCode (ra_Code ack) = true.
Proof.
  unfold RAck_Validate. destruct (_ || (MaxRotationMessage <? _)); [done|]. intros Hv Hs.
  assert (mem_str [RotationAckProofAccepted; RotationAckInstalled; RotationAckReady; RotationAckRevoked] (ra_Status ack)
          = false) as E1 by (apply orb_true_iff in Hs as [Hs|Hs]; bools; by rewrite Hs).
  assert (mem_str [RotationAckRejected; RotationAckFailed] (ra_Status ack) = true) as E2
    by (apply orb_true_iff in Hs as [Hs|Hs]; bools; by rewrite Hs).
  rewrite E1, E2 in Hv. destruct ((ra_Code ack == "") || _) eqn:Hc; [done|]. by bools.
Qed.

Lemma moves_HandleAck c s ctxErr now ack c' s' r :
  HandleAck store c s ctxErr now ack = (c', s', r) → moves c s c' s'.
Proof.
  unfold HandleAck. intros E. destruct (RAck_Validate ack) eqn:Hv; [injection E as <- <- <-; apply moves_refl|].
  destruct ctxErr; [injection E as <- <- <-; apply moves_refl|].
  destruct (c_targets c !! ra_ConnectorID ack) as [t|] eqn:Et; [|injection E as <- <- <-; apply moves_refl].
  cbv zeta in E. destruct (_ || negb (ra_NewCredentialGeneration ack =? _)); [injection E as <- <- <-; apply moves_refl|].
  destruct ((ts_state t == RotationTargetRevoked) || _) eqn:Hf; [injection E as <- <- <-; apply moves_refl|].
  apply not_final in Hf.
  destruct ((ra_Status ack == RotationAckRejected) || _) eqn:Hneg.
  { destruct (negb (rotationNegativeAckMatches t ack)); [injection E as <- <- <-; apply moves_refl|].
    destruct (RecordCredentialRotationResult _ _ _ _) as [s1 [e1|]] eqn:Hr; injection E as <- <- <-;
      [apply moves_refl|]. destruct (RAck_negative_code ack Hv Hneg).
    eapply (moves_one c s s1); [done|by apply (tstep_fail c t (ra_Code ack))|done]. }
  destruct (ra_Status ack == RotationAckInstalled).
  { destruct (_ || negb (ra_ProcessGeneration ack =? _)); injection E as <- <- <-; apply moves_refl. }
  destruct (ra_Status ack == RotationAckReady).
  { destruct (_ || negb (ra_ProcessGeneration ack =? _)); injection E as <- <- <-; apply moves_refl. }
  destruct (_ || negb (ra_ProcessGeneration ack =? _)) eqn:Hg; [injection E as <- <- <-; apply moves_refl|].
  apply orb_false_iff in Hg as [Hg _]. apply orb_false_iff in Hg as [Hg _]. apply orb_false_iff in Hg as [Hst Hs].
  apply negb_false_iff, bool_decide_eq_true in Hs, Hst.
  set (rt := t <| ts_state := RotationTargetRevoked |>) in *.
  destruct (sm_Status _ == RotationAggregateSucceeded);
    (destruct (RecordCredentialRotationResult _ _ _ _) as [s1 [e1|]] eqn:Hr; injection E as <- <- <-;
     (split; [done|]; right; eexists (ra_ConnectorID ack), t, _, _; split_and!; [done|cbn; rewrite ?insert_insert_eq; reflexivity|..]));
    first [ by apply (tstep_fail c t CodeCredentialRotationFailed)
          | by eapply tstep_revoked
          | by intros ? [= <-] | done ].
Qed.

Lemma moves_Fail c s id code c' s' r : Fail store c s id code = (c', s', r) → moves c s c' s'.
Proof.
  unfold Fail. intros E. destruct (negb (validCode code) || _) eqn:Hc; [injection E as <- <- <-; apply moves_refl|].
  destruct (c_targets c !! id) as [t|] eqn:Et; [|injection E as <- <- <-; apply moves_refl].
  destruct (ts_state t == RotationTargetRevoked) eqn:H1; [injection E as <- <- <-; apply moves_refl|].
  destruct (ts_state t == RotationTargetFailed) eqn:H2; [injection E as <- <- <-; apply moves_refl|].
  destruct (RecordCredentialRotationResult _ _ _ _) as [s1 [e1|]] eqn:Hr; injection E as <- <- <-; [apply moves_refl|].
  apply orb_false_iff in Hc as [Hc1 Hc2]. apply negb_false_iff in Hc1. apply bool_decide_eq_false in Hc2.
  eapply (moves_one c s s1 id t None); [done| |done]. apply tstep_fail; [|done..].
  apply not_final. by rewrite H1, H2.
Qed.

(** ** Runs *)

Inductive call :=
  | CStart (ctxErr : option err)
  | CChallenge (ctxErr : option err) (now : Time) (id sid : string) (gen : Z) (kid ktp nonce : string) (i x o v : Time)
  | CProof (ctxErr : option err) (now : Time) (proof : CredentialRotationProof)
  | CReady (ctxErr : option err) (now : Time) (ready : CredentialRotationReady)
  | CRevoke (ctxErr : option err) (now : Time) (id : string) (nonce : err + string)
  | CAck (ctxErr : option err) (now : Time) (ack : CredentialRotationAck)
  | CFail (id code : string).

Definition run (k : call) (cs : RotationCoordinator * S) : RotationCoordinator * S :=
  let '(c, s) := cs in
  match k with
  | CStart ctxErr => (Start store c s ctxErr).1
  | CChallenge ctxErr now id sid gen kid ktp nonce i x o v =>
      (ChallengeWithCredentialExpiry store c s ctxErr now id sid gen kid ktp nonce i x o v).1
  | CProof ctxErr now proof => (AcceptProof store verifyOld c s ctxErr now proof).1
  | CReady ctxErr now ready => (MarkReady store c s ctxErr now ready).1
  | CRevoke ctxErr now id nonce => (Revoke store c s ctxErr now id nonce).1
  | CAck ctxErr now ack => (HandleAck store c s ctxErr now ack).1
  | CFail id code => (Fail store c s id code).1
  end.

Lemma run_moves k c s : moves c s (run k (c, s)).1 (run k (c, s)).2.
Proof.
  destruct k; cbn [run].
  - destruct (Start store c s ctxErr) as [[c' s'] r] eqn:E. by eapply moves_Start.
  - destruct (ChallengeWithCredentialExpiry store c s _ _ _ _ _ _ _ _ _ _ _ _) as [[c' s'] r] eqn:E.
    by eapply moves_Challenge.
  - destruct (AcceptProof store verifyOld c s ctxErr now proof) as [[c' s'] r] eqn:E. by eapply moves_AcceptProof.
  - destruct (MarkReady store c s ctxErr now ready) as [[c' s'] r] eqn:E. by eapply moves_MarkReady.
  - destruct (Revoke store c s ctxErr now id nonce) as [[c' s'] r] eqn:E. by eapply moves_Revoke.
  - destruct (HandleAck store c s ctxErr now ack) as [[c' s'] r] eqn:E. by eapply moves_HandleAck.
  - destruct (Fail store c s id code) as [[c' s'] r] eqn:E. by eapply moves_Fail.
Qed.

Inductive reachable (plan : RotationPlan) : RotationCoordinator → S → Prop :=
  | reachable_new c s : NewRotationCoordinator plan = inr c → reachable plan c s
  | reachable_run k c s : reachable plan c s → reachable plan (run k (c, s)).1 (run k (c, s)).2.
End Steps.
End RotationProofs.
