(* ===== verification/RotationGuarantees.v ===== *)
(** * Credential rotation: guarantees *)
From S2P Require Import Prelude Go Strings Protocol Messages RotationMessages Rotation RotationProofs.

Module RotationGuarantees.
Import RotationMessages Rotation RotationProofs.

(** ** Targets as they are stored *)

(** The durable form of a target's state. *)
Definition resume_of (t : rotationTargetState) : RotationResumeTarget :=
  mkResumeTarget (ts_target t) (ts_state t) (ts_code t) (ch_OverlapUntil (ts_challenge t))
    (ch_NewCredentialValidUntil (ts_challenge t)) (ts_challenge t) (ts_proof t) (ts_install t)
    (ts_ready t) (ts_revoke t).

Definition has_challenge (t : rotationTargetState) : Prop := ch_SessionID (ts_challenge t) ≠ "".
Definition has_install (t : rotationTargetState) : Prop := in_SessionID (ts_install t) ≠ "".
Definition has_ready (t : rotationTargetState) : Prop := rd_SessionID (ts_ready t) ≠ "".
Definition has_revoke (t : rotationTargetState) : Prop := rv_SessionID (ts_revoke t) ≠ "".

Section Guarantees.
Context `{RotationLib}.

Record target_ok (plan : RotationPlan) (t : rotationTargetState) : Prop := {
  ok_target : RotationTarget_Validate (ts_target t) = None;
  ok_plan : plan_Target plan (t_ConnectorID (ts_target t)) = Some (ts_target t);
  ok_known : validRotationTargetState (ts_state t) = true;
  ok_code : if decide (ts_state t = RotationTargetFailed)
            then ts_code t ≠ "" ∧ validCode (ts_code t) = true else ts_code t = "";
  ok_nothing : ¬ has_challenge t → ts_challenge t = zeroChallenge;
  ok_challenge : has_challenge t → resume_challenge_ok plan (resume_of t) = true;
  ok_install : has_install t → has_challenge t ∧ resume_install_ok plan (resume_of t) = true;
  ok_ready : has_ready t → has_install t ∧ resume_ready_ok plan (resume_of t) = true;
  ok_revoke : has_revoke t → has_ready t ∧ resume_revoke_ok plan (resume_of t) = true;
  ok_phase : resume_phase_ok (resume_of t) = true
}.

Lemma present (P : Prop) `{Decision P} : negb (bool_decide P) = true ↔ ¬ P.
Proof. by rewrite negb_true_iff, bool_decide_eq_false. Qed.

Lemma resume_challenge_times plan t :
  resume_challenge_ok plan (resume_of t) = true →
  IsZero (ch_OverlapUntil (ts_challenge t)) = false ∧ IsZero (ch_NewCredentialValidUntil (ts_challenge t)) = false
  ∧ After (ch_NewCredentialValidUntil (ts_challenge t)) (ch_OverlapUntil (ts_challenge t)) = true.
Proof.
  unfold resume_challenge_ok. rewrite !andb_true_iff. intros [[[[[[[Hv _] _] _] _] _] _] _].
  apply negb_true_iff, failed_false in Hv. by apply (Challenge_times _ 0).
Qed.

(** A well-formed target passes the check of [Resume]. *)
Lemma target_ok_resumes plan t :
  target_ok plan t → validateRotationResumeTarget plan (resume_of t) = None.
Proof.
  intros []. unfold validateRotationResumeTarget. cbn [resume_of r_Target r_State r_Code r_OverlapUntil
    r_NewCredentialValidUntil r_Challenge r_Install r_Ready r_Revoke].
  rewrite ok_target0, ok_plan0, (bool_decide_eq_true_2 (Some (ts_target t) = _)), ok_known0 by done. cbn [negb].
  assert ((ts_state t == RotationTargetFailed) && ((ts_code t == "") || negb (validCode (ts_code t))) = false) as ->.
  { case_bool_decide; [|done]. rewrite decide_True in ok_code0 by done. destruct ok_code0 as [? ->].
    by rewrite bool_decide_eq_false_2. }
  assert ((ts_state t != RotationTargetFailed) && (ts_code t != "") = false) as ->.
  { case_bool_decide; [done|]. rewrite decide_False in ok_code0 by done. by rewrite ok_code0. }
  assert (negb (eqb (IsZero (ch_OverlapUntil (ts_challenge t))) (IsZero (ch_NewCredentialValidUntil (ts_challenge t))))
     || negb (IsZero (ch_OverlapUntil (ts_challenge t)))
        && negb (After (ch_NewCredentialValidUntil (ts_challenge t)) (ch_OverlapUntil (ts_challenge t))) = false) as ->.
  { destruct (decide (has_challenge t)) as [Hc|Hc].
    - destruct (resume_challenge_times plan t (ok_challenge0 Hc)) as (-> & -> & ->). done.
    - by rewrite (ok_nothing0 Hc). }
  unfold has_challenge, has_install, has_ready, has_revoke in *.
  destruct (decide (ch_SessionID (ts_challenge t) = "")) as [Ec|Ec];
  destruct (decide (in_SessionID (ts_install t) = "")) as [Ei|Ei];
  destruct (decide (rd_SessionID (ts_ready t) = "")) as [Er|Er];
  destruct (decide (rv_SessionID (ts_revoke t) = "")) as [Ev|Ev]; try (exfalso; tauto).
  all: rewrite ?(bool_decide_eq_true_2 _ Ec), ?(bool_decide_eq_false_2 _ Ec), ?(bool_decide_eq_true_2 _ Ei),
    ?(bool_decide_eq_false_2 _ Ei), ?(bool_decide_eq_true_2 _ Er), ?(bool_decide_eq_false_2 _ Er),
    ?(bool_decide_eq_true_2 _ Ev), ?(bool_decide_eq_false_2 _ Ev).
  all: rewrite ok_phase0.
  all: try (destruct (ok_install0 Ei) as [_ ->]); try (destruct (ok_ready0 Er) as [_ ->]);
    try (destruct (ok_revoke0 Ev) as [_ ->]); try rewrite (ok_challenge0 Ec).
  all: done.
Qed.

(** What the phase says about the records. *)
Lemma phase_records plan t :
  target_ok plan t →
  match ts_state t with
  | RotationTargetPending => ¬ has_challenge t ∧ ¬ has_install t ∧ ¬ has_ready t ∧ ¬ has_revoke t
  | RotationTargetChallenged => has_challenge t ∧ ¬ has_install t ∧ ¬ has_ready t ∧ ¬ has_revoke t
  | RotationTargetInstalled => has_install t ∧ ¬ has_ready t ∧ ¬ has_revoke t
  | RotationTargetReady => has_ready t ∧ ¬ has_revoke t
  | RotationTargetRevoking | RotationTargetRevoked => has_revoke t
  | _ => True
  end.
Proof.
  intros []. unfold resume_phase_ok, resume_of in ok_phase0. cbn in ok_phase0.
  unfold has_challenge, has_install, has_ready, has_revoke in *.
  destruct (ts_state t); try done; rewrite ?andb_true_iff, ?negb_orb, ?andb_true_iff, ?negb_involutive, ?negb_true_iff,
    ?bool_decide_eq_true, ?bool_decide_eq_false in ok_phase0; try tauto; try done.
Qed.

Definition keyed (c : RotationCoordinator) : Prop :=
  ∀ id t, c_targets c !! id = Some t → t_ConnectorID (ts_target t) = id.

Ltac and_bools := rewrite ?andb_true_iff in *; repeat match goal with H : _ ∧ _ |- _ => destruct H end.

Lemma target_ok_challenge plan t ch :
  target_ok plan t → ts_state t = RotationTargetPending ∨ ts_state t = RotationTargetChallenged →
  ch_SessionID ch ≠ "" →
  resume_challenge_ok plan (resume_of (t <| ts_challenge := ch |> <| ts_state := RotationTargetChallenged |>)) = true →
  target_ok plan (t <| ts_challenge := ch |> <| ts_state := RotationTargetChallenged |>).
Proof.
  intros Hok Hst Hs Hc. pose proof (phase_records plan t Hok) as Hp.
  assert (¬ has_install t ∧ ¬ has_ready t ∧ ¬ has_revoke t ∧ ts_code t = "") as (Hi & Hr & Hv & Hcode).
  { destruct Hok. destruct Hst as [E|E]; rewrite E in *; (rewrite decide_False in ok_code0 by done); tauto. }
  destruct Hok. split; cbn; try done.
  unfold resume_phase_ok, resume_of. cbn. unfold has_install, has_ready, has_revoke in *.
  apply dec_stable in Hi, Hr, Hv. rewrite Hi, Hr, Hv. by rewrite (bool_decide_eq_false_2 (ch_SessionID ch = "")).
Qed.

Lemma target_ok_install plan t proof i :
  target_ok plan t → ts_state t = RotationTargetChallenged → in_SessionID i ≠ "" →
  resume_install_ok plan (resume_of (t <| ts_proof := proof |> <| ts_install := i |> <| ts_state := RotationTargetInstalled |>)) = true →
  target_ok plan (t <| ts_proof := proof |> <| ts_install := i |> <| ts_state := RotationTargetInstalled |>).
Proof.
  intros Hok Hst Hs Hc. pose proof (phase_records plan t Hok) as Hp. rewrite Hst in Hp. destruct Hp as (Hch & _ & Hr & Hv).
  destruct Hok. rewrite Hst, decide_False in ok_code0 by done. split; cbn; try done.
  unfold resume_phase_ok, resume_of. cbn. unfold has_ready, has_revoke in *.
  apply dec_stable in Hr, Hv. rewrite Hr, Hv. by rewrite (bool_decide_eq_false_2 (in_SessionID i = "")).
Qed.

Lemma target_ok_ready plan t d :
  target_ok plan t → ts_state t = RotationTargetInstalled → rd_SessionID d ≠ "" →
  resume_ready_ok plan (resume_of (t <| ts_ready := d |> <| ts_state := RotationTargetReady |>)) = true →
  target_ok plan (t <| ts_ready := d |> <| ts_state := RotationTargetReady |>).
Proof.
  intros Hok Hst Hs Hc. pose proof (phase_records plan t Hok) as Hp. rewrite Hst in Hp. destruct Hp as (Hi & _ & Hv).
  destruct Hok. rewrite Hst, decide_False in ok_code0 by done. split; cbn; try done.
  unfold resume_phase_ok, resume_of. cbn. unfold has_revoke in *.
  apply dec_stable in Hv. rewrite Hv. by rewrite (bool_decide_eq_false_2 (rd_SessionID d = "")).
Qed.

Lemma target_ok_revoke plan t v :
  target_ok plan t → ts_state t = RotationTargetReady → rv_SessionID v ≠ "" →
  resume_revoke_ok plan (resume_of (t <| ts_revoke := v |> <| ts_state := RotationTargetRevoking |>)) = true →
  target_ok plan (t <| ts_revoke := v |> <| ts_state := RotationTargetRevoking |>).
Proof.
  intros Hok Hst Hs Hc. pose proof (phase_records plan t Hok) as Hp. rewrite Hst in Hp. destruct Hp as (Hr & _).
  destruct Hok. rewrite Hst, decide_False in ok_code0 by done. split; cbn; try done.
  unfold resume_phase_ok, resume_of. cbn. by rewrite bool_decide_eq_false_2.
Qed.

Lemma target_ok_step verifyOld c t ev t' :
  keyed c → target_ok (c_plan c) t → tstep verifyOld c t ev t' → target_ok (c_plan c) t'.
Proof.
  intros Hk Hok Hs. destruct Hs as [ch now Hst Hv Hb Ek|proof now Hst Hm _ Hv|d now Hst Hv Hm|v now Hst Hv _ Hb Ek|ack sm Hst _|code Hf Hc1 Hc2].
  - apply target_ok_challenge; [done|done|by eapply Challenge_session|]. unfold resume_challenge_ok, resume_of. cbn.
    apply Challenge_Validate_rest in Hv. rewrite Hv. destruct Hb as (-> & -> & -> & -> & -> & ->).
    rewrite (Hk _ _ Ek). cbn. by rewrite !bool_decide_eq_true_2.
  - apply target_ok_install; [done|done|by eapply Install_session|]. unfold resume_install_ok, resume_of. cbn.
    apply Install_Validate_rest in Hv. rewrite Hv. unfold rotationProofMatchesChallenge in Hm.
    pose proof (phase_records _ _ Hok) as Hp. rewrite Hst in Hp. destruct Hp as (Hch & _).
    pose proof (ok_challenge _ _ Hok Hch) as Hcok. unfold resume_challenge_ok, resume_of in Hcok. cbn in Hcok.
    and_bools. bools. cbn. split_and!; try done; try (by apply Z.eqb_eq); apply bool_decide_eq_true_2; congruence.
  - apply target_ok_ready; [done|done|by eapply Ready_session|]. unfold resume_ready_ok, resume_of. cbn.
    apply Ready_Validate_rest in Hv. rewrite Hv. unfold readyMatchesInstall in Hm.
    pose proof (phase_records _ _ Hok) as Hp. rewrite Hst in Hp. destruct Hp as (Hin & _).
    destruct (ok_install _ _ Hok Hin) as [_ Hcok]. unfold resume_install_ok, resume_of in Hcok. cbn in Hcok.
    and_bools. bools. cbn. split_and!; try done; try (by apply Z.eqb_eq; congruence);
      try (by apply negb_true_iff, Z.ltb_ge); try (apply bool_decide_eq_true_2; congruence).
    by apply negb_true_iff, bool_decide_eq_false_2.
  - apply target_ok_revoke; [done|done|by eapply Revoke_session|]. unfold resume_revoke_ok, resume_of. cbn.
    apply Revoke_Validate_rest in Hv. rewrite Hv. destruct Hb as (-> & -> & -> & -> & -> & -> & -> & -> & ->).
    rewrite (Hk _ _ Ek), !Z.eqb_refl. cbn. by rewrite !bool_decide_eq_true_2.
  - pose proof (phase_records _ _ Hok) as Hp. rewrite Hst in Hp. destruct Hok.
    rewrite Hst, decide_False in ok_code0 by done. split; try done. unfold resume_phase_ok, resume_of. cbn.
    by rewrite bool_decide_eq_false_2.
  - destruct Hok. by split.
Qed.

(** ** The plan *)

Lemma validate_targets_ok previous seen targets :
  validate_targets previous seen targets = None →
  NoDup (t_ConnectorID <$> targets) ∧ Forall (λ t, t_ConnectorID t ∉ seen) targets
  ∧ Forall (λ t, RotationTarget_Validate t = None) targets.
Proof.
  revert previous seen. induction targets as [|t targets IH]; intros previous seen E; cbn in E.
  { split_and!; constructor. }
  destruct (RotationTarget_Validate t) eqn:Hv; [done|]. destruct (match previous with Some _ => _ | None => _ end); [done|].
  case_bool_decide as Hs; [done|]. apply IH in E as (Hnd & Hns & Hall). split_and!.
  - cbn. apply NoDup_cons. split; [|done]. rewrite list_elem_of_fmap. intros (u & Eu & Hu).
    rewrite Forall_forall in Hns. apply (Hns u Hu). set_solver.
  - constructor; [done|]. eapply Forall_impl; [exact Hns|]. set_solver.
  - by constructor.
Qed.

Lemma plan_targets plan :
  RotationPlan_Validate plan = None →
  NoDup (t_ConnectorID <$> p_Targets plan) ∧ Forall (λ t, RotationTarget_Validate t = None) (p_Targets plan).
Proof.
  unfold RotationPlan_Validate, validateRotationPlanFields.
  destruct (_ || (MaxRotationTargets <? _)); [done|]. destruct (validate_targets _ _ _) eqn:E; [done|].
  intros _. by apply validate_targets_ok in E as (? & _ & ?).
Qed.

Lemma plan_Target_elem plan target :
  NoDup (t_ConnectorID <$> p_Targets plan) → target ∈ p_Targets plan →
  plan_Target plan (t_ConnectorID target) = Some target.
Proof.
  unfold plan_Target. induction (p_Targets plan) as [|t targets IH]; intros Hnd Hin; [by apply not_elem_of_nil in Hin|].
  cbn in Hnd. apply NoDup_cons in Hnd as [Hn Hnd]. cbn. apply elem_of_cons in Hin as [->|Hin].
  - by rewrite bool_decide_eq_true_2.
  - rewrite bool_decide_eq_false_2; [by apply IH|]. intros E. apply Hn. apply list_elem_of_fmap. by exists target.
Qed.

(** ** The coordinator invariant *)

Record coordinator_ok (plan : RotationPlan) (c : RotationCoordinator) : Prop := {
  co_plan : c_plan c = plan;
  co_keyed : keyed c;
  co_targets : ∀ id t, c_targets c !! id = Some t → target_ok plan t;
  co_revoke : ∀ id t id' t', c_targets c !! id = Some t → has_revoke t →
    c_targets c !! id' = Some t' → has_ready t'
}.

Lemma coordinator_ok_new plan c :
  NewRotationCoordinator plan = inr c → coordinator_ok plan c.
Proof.
  unfold NewRotationCoordinator. destruct (failed _) eqn:Hf; [done|]. apply failed_false, plan_targets in Hf as [Hnd Hall].
  intros [= <-].
  assert (∀ id t, list_to_map (M := gmap string rotationTargetState)
                    ((λ t, (t_ConnectorID t, newTargetState t)) <$> p_Targets plan) !! id = Some t →
          ∃ target, target ∈ p_Targets plan ∧ id = t_ConnectorID target ∧ t = newTargetState target) as Hl.
  { intros id t E%elem_of_list_to_map_2. apply list_elem_of_fmap in E as (target & [= -> ->] & Hin). by exists target. }
  split; cbn; [done|..].
  - intros id t (target & _ & -> & ->)%Hl. done.
  - intros id t (target & Hin & -> & ->)%Hl. rewrite Forall_forall in Hall. split; cbn; try done.
    + by apply Hall.
    + by apply plan_Target_elem.
  - intros id t id' t' (target & _ & -> & ->)%Hl. done.
Qed.

Lemma tstep_target verifyOld c t ev t' : tstep verifyOld c t ev t' → ts_target t' = ts_target t.
Proof. by destruct 1. Qed.

Lemma allReady_lookup c id t :
  allReadyLocked c = true → c_targets c !! id = Some t → ready_or_later (ts_state t) = true.
Proof.
  unfold allReadyLocked. rewrite forallb_forall. intros Hall E. apply (Hall (id, t)).
  by apply list_elem_of_In, elem_of_map_to_list.
Qed.

Lemma ready_has_ready plan t : target_ok plan t → ready_or_later (ts_state t) = true → has_ready t.
Proof.
  intros Hok Hr. pose proof (phase_records plan t Hok) as Hp. destruct (ts_state t); try done.
  - by destruct Hp.
  - by destruct (ok_revoke _ _ Hok Hp).
  - by destruct (ok_revoke _ _ Hok Hp).
Qed.

(** Records are never erased, and a revocation starts only when all targets are
    ready. *)
Lemma tstep_records verifyOld plan c t ev t' :
  coordinator_ok plan c → target_ok plan t → tstep verifyOld c t ev t' →
  (has_ready t → has_ready t') ∧ (has_revoke t' → has_revoke t ∨ allReadyLocked c = true ∧ has_ready t').
Proof.
  intros Hco Hok Hs.
  destruct Hs as [ch now Hst Hv Hb Ek|proof now Hst Hm _ Hv|d now Hst Hv Hm|v now Hst Hv Ha Hb Ek|ack sm Hst _|code Hf Hc1 Hc2].
  - auto.
  - auto.
  - split; [intros _; by eapply Ready_session|auto].
  - split; [auto|]. intros _. right. split; [done|].
    pose proof (phase_records plan t Hok) as Hp. rewrite Hst in Hp. by destruct Hp.
  - auto.
  - auto.
Qed.

Lemma coordinator_ok_moves {S} (store : RotationPersistence S) verifyOld plan c s c' s' :
  coordinator_ok plan c → moves store verifyOld c s c' s' → coordinator_ok plan c'.
Proof.
  intros Hco [Hp [Et|(id & t & ev & t' & Et & Et' & Hs & _)]].
  { destruct Hco. split; unfold keyed in *; rewrite ?Hp, ?Et; done. }
  pose proof Hco as [Cp Ck Ct Cr]. pose proof (Ct id t Et) as Hok.
  assert (target_ok plan t') as Hok'. { rewrite <- Cp in Hok |- *. by eapply target_ok_step. }
  destruct (tstep_records verifyOld plan c t ev t' Hco Hok Hs) as [R1 R2].
  split; [congruence|..].
  - intros id1 t1. rewrite Et'. intros [[<- <-]|[_ E]]%lookup_insert_Some; [|by apply Ck].
    rewrite (tstep_target _ _ _ _ _ Hs). by apply Ck.
  - intros id1 t1. rewrite Et'. intros [[<- <-]|[_ E]]%lookup_insert_Some; [done|by eapply Ct].
  - intros id1 t1 id2 t2. rewrite Et'. intros E1 Hrv E2.
    assert (∀ id3 t3, c_targets c !! id3 = Some t3 → has_ready t3 ∨ ¬ allReadyLocked c = true) as Hall.
    { intros id3 t3 E3. destruct (allReadyLocked c) eqn:Ha; [left|by right].
      apply (ready_has_ready plan); [by eapply Ct|by eapply allReady_lookup]. }
    apply lookup_insert_Some in E1 as [[<- <-]|[Hne1 E1]]; apply lookup_insert_Some in E2 as [[<- <-]|[Hne2 E2]].
    + destruct (R2 Hrv) as [Hrv0|[_ ?]]; [apply R1; by eapply (Cr id t id t)|done].
    + destruct (R2 Hrv) as [Hrv0|[Ha _]]; [by eapply (Cr id t)|]. by destruct (Hall _ _ E2).
    + apply R1. by eapply (Cr id1 t1).
    + by eapply (Cr id1 t1).
Qed.

Lemma rotation_reachable_ok {S} (store : RotationPersistence S) verifyOld plan c s :
  reachable store verifyOld plan c s → coordinator_ok plan c.
Proof.
  induction 1 as [c s Hn|k c s _ IH]; [by apply coordinator_ok_new|].
  eapply coordinator_ok_moves; [exact IH|apply run_moves].
Qed.

(** ** A store that remembers what it recorded *)

Definition logging {S A} (op : S → A → S * option err) (ev : A → event) (sl : S * list event) (x : A)
    : (S * list event) * option err :=
  let '(s', e) := op sl.1 x in
  ((s', match e with None => ev x :: sl.2 | Some _ => sl.2 end), e).

Definition logged {S} (store : RotationPersistence S) : RotationPersistence (S * list event) :=
  mkPersistence _
    (λ sl plan, let '(s', e) := BeginCredentialRotation store sl.1 plan in ((s', sl.2), e))
    (logging (RecordCredentialRotationChallenge store) EvChallenge)
    (λ sl c p i, logging (λ s x, RecordCredentialRotationProof store s c p i) (λ _, EvProof c p i) sl tt)
    (logging (RecordCredentialRotationReady store) EvReady)
    (logging (RecordCredentialRotationRevoke store) EvRevoke)
    (λ sl a sm, logging (λ s x, RecordCredentialRotationResult store s a sm) (λ _, EvResult a sm) sl tt)
    (match LoadCredentialRotation store with Some load => Some (λ sl plan, load sl.1 plan) | None => None end)
    (match AuthorizeCredentialRotationSession store with Some f => Some (λ sl c, f sl.1 c) | None => None end).

Lemma logging_grows {S A} (op : S → A → S * option err) ev sl x : sl.2 ⊆ (logging op ev sl x).1.2.
Proof. unfold logging. destruct (op sl.1 x) as [s' [e|]]; cbn; set_solver. Qed.

Lemma performed_logged {S} (store : RotationPersistence S) sl e sl' :
  performed (logged store) sl e sl' → e ∈ sl'.2.
Proof.
  destruct e; cbn; unfold logging; intros E; repeat case_match; simplify_eq; cbn; by left.
Qed.

Section Durable.
Context {S : Type} (store : RotationPersistence S).
Context (verifyOld : CredentialRotationProof → bytes → bytes → option err).

Lemma begin_grows sl plan : sl.2 ⊆ (BeginCredentialRotation (logged store) sl plan).1.2.
Proof. cbn. by destruct (BeginCredentialRotation store sl.1 plan). Qed.
Lemma challenge_grows sl x : sl.2 ⊆ (RecordCredentialRotationChallenge (logged store) sl x).1.2.
Proof. apply logging_grows. Qed.
Lemma proof_grows sl c p i : sl.2 ⊆ (RecordCredentialRotationProof (logged store) sl c p i).1.2.
Proof. apply logging_grows. Qed.
Lemma ready_grows sl x : sl.2 ⊆ (RecordCredentialRotationReady (logged store) sl x).1.2.
Proof. apply logging_grows. Qed.
Lemma revoke_grows sl x : sl.2 ⊆ (RecordCredentialRotationRevoke (logged store) sl x).1.2.
Proof. apply logging_grows. Qed.
Lemma result_grows sl a sm : sl.2 ⊆ (RecordCredentialRotationResult (logged store) sl a sm).1.2.
Proof. apply logging_grows. Qed.

Ltac grown H lem :=
  let E := fresh in
  pose proof lem as E; rewrite H in E; exact E.

Lemma run_grows k c sl : sl.2 ⊆ (run (logged store) verifyOld k (c, sl)).2.2.
Proof.
  destruct k; cbn [run].
  - unfold Start. destruct ctxErr; [done|]. destruct (c_started c); [done|].
    destruct (BeginCredentialRotation _ _ _) as [s1 [e|]] eqn:E; cbn; grown E (begin_grows sl (c_plan c)).
  - unfold ChallengeWithCredentialExpiry. repeat (case_match; try done).
    all: match goal with E : RecordCredentialRotationChallenge _ ?y ?x = _ |- _ => grown E (challenge_grows y x) end.
  - unfold AcceptProof. repeat (case_match; try done).
    all: match goal with E : RecordCredentialRotationProof _ ?y ?a ?b ?x = _ |- _ => grown E (proof_grows y a b x) end.
  - unfold MarkReady. repeat (case_match; try done).
    all: match goal with E : RecordCredentialRotationReady _ ?y ?x = _ |- _ => grown E (ready_grows y x) end.
  - unfold Revoke. repeat (case_match; try done).
    all: match goal with E : RecordCredentialRotationRevoke _ ?y ?x = _ |- _ => grown E (revoke_grows y x) end.
  - unfold HandleAck. repeat (case_match; try done).
    all: match goal with E : RecordCredentialRotationResult _ ?y ?a ?x = _ |- _ => grown E (result_grows y a x) end.
  - unfold Fail. repeat (case_match; try done).
    all: match goal with E : RecordCredentialRotationResult _ ?y ?a ?x = _ |- _ => grown E (result_grows y a x) end.
Qed.

(** What a target holds has been recorded. *)
Definition recorded (log : list event) (t : rotationTargetState) : Prop :=
  (has_challenge t → EvChallenge (ts_challenge t) ∈ log)
  ∧ (has_install t → EvProof (ts_challenge t) (ts_proof t) (ts_install t) ∈ log)
  ∧ (has_ready t → EvReady (ts_ready t) ∈ log)
  ∧ (has_revoke t → EvRevoke (ts_revoke t) ∈ log)
  ∧ (ts_state t = RotationTargetRevoked →
     ∃ ack summary, EvResult ack summary ∈ log ∧ ra_Status ack = RotationAckRevoked).

Lemma recorded_grows log log' t : log ⊆ log' → recorded log t → recorded log' t.
Proof.
  intros Hs (R1 & R2 & R3 & R4 & R5). unfold recorded. split_and!; intros ?; try (by apply Hs; auto).
  destruct R5 as (a & sm & ? & ?); [done|]. exists a, sm. split; [by apply Hs|done].
Qed.

Lemma recorded_step plan c t ev t' log log' :
  target_ok plan t → tstep verifyOld c t ev t' → (∀ e, ev = Some e → e ∈ log') → log ⊆ log' →
  recorded log t → recorded log' t'.
Proof.
  intros Hok Hs Hev Hsub R%(recorded_grows _ _ _ Hsub). pose proof (phase_records plan t Hok) as Hp.
  destruct R as (R1 & R2 & R3 & R4 & R5).
  destruct Hs as [ch now Hst Hv Hb Ek|proof now Hst Hm _ Hv|d now Hst Hv Hm|v now Hst Hv Ha Hb Ek|ack sm Hst Hack|code Hf Hc1 Hc2].
  - assert (¬ has_install t) by (destruct Hst as [E|E]; rewrite E in Hp; tauto).
    unfold recorded; cbn. split_and!; try done. intros _. by apply Hev.
  - unfold recorded; cbn. split_and!; try done. intros _. by apply Hev.
  - unfold recorded; cbn. split_and!; try done. intros _. by apply Hev.
  - unfold recorded; cbn. split_and!; try done. intros _. by apply Hev.
  - unfold recorded; cbn. split_and!; try done. intros _. exists ack, sm. split; [by apply Hev|done].
  - unfold recorded; cbn. by split_and!.
Qed.

Lemma reachable_recorded plan c sl id t :
  reachable (logged store) verifyOld plan c sl → c_targets c !! id = Some t → recorded sl.2 t.
Proof.
  intros Hr. revert id t. induction Hr as [c sl Hn|k c sl Hr IH]; intros id t Et.
  { apply coordinator_ok_new in Hn as Hco. unfold NewRotationCoordinator in Hn. destruct (failed _); [done|].
    injection Hn as <-. cbn in Et. apply elem_of_list_to_map_2, list_elem_of_fmap in Et as (target & [= -> ->] & _).
    by unfold recorded. }
  destruct (run_moves (logged store) verifyOld k c sl) as [_ [Et1|(id1 & t1 & ev & t2 & Et1 & Et2 & Hs & Hev)]].
  - rewrite Et1 in Et. eapply recorded_grows; [apply run_grows|by eapply IH].
  - rewrite Et2 in Et. apply lookup_insert_Some in Et as [[<- <-]|[_ Et]].
    + eapply (recorded_step plan c t1 ev t2 sl.2).
      * apply rotation_reachable_ok in Hr. by eapply (co_targets _ _ Hr).
      * done.
      * intros e He. by eapply performed_logged, Hev.
      * apply run_grows.
      * by eapply IH.
    + eapply recorded_grows; [apply run_grows|by eapply IH].
Qed.
End Durable.

(** ** Theorems *)

Section Claims.
Context {S : Type} (store : RotationPersistence S).
Context (verifyOld : CredentialRotationProof → bytes → bytes → option err).

(** C16. Whatever happens, the coordinator's state can be restarted: in every reachable
    state each target — failed ones included — satisfies all conditions under which
    [Resume] accepts it from the durable store. *)
Theorem rotation_state_resumable plan c s id t :
  reachable store verifyOld plan c s → c_targets c !! id = Some t →
  validateRotationResumeTarget plan (resume_of t) = None.
Proof. intros Hr Et. apply target_ok_resumes, (co_targets _ _ (rotation_reachable_ok _ _ _ _ _ Hr) _ _ Et). Qed.


(** The order of the phases; a failure ends a target from any of them. *)
Definition rank (s : RotationTargetState) : Z :=
  match s with
  | RotationTargetPending => 0 | RotationTargetChallenged => 1 | RotationTargetInstalled => 2
  | RotationTargetReady => 3 | RotationTargetRevoking => 4 | RotationTargetRevoked => 5
  | RotationTargetFailed => 6 | RotationTargetUnknown _ => 7
  end.

(** Targets move forward through pending, challenged, installed, ready, revoking and
    revoked, or fail; no call moves a target backwards, a revoked or failed target
    never moves again, and a call skips no phase except by failing. *)
Theorem rotation_phases_forward plan k c s id t t' :
  reachable store verifyOld plan c s → c_targets c !! id = Some t →
  c_targets (run store verifyOld k (c, s)).1 !! id = Some t' →
  rank (ts_state t) ≤ rank (ts_state t')
  ∧ (final (ts_state t) = true → t' = t)
  ∧ (ts_state t' = RotationTargetFailed ∨ rank (ts_state t') ≤ rank (ts_state t) + 1).
Proof.
  intros Hr Et Et'. destruct (run_moves store verifyOld k c s) as [_ [E|(id1 & t1 & ev & t2 & Et1 & Et2 & Hs & _)]].
  { rewrite E, Et in Et'. injection Et' as <-. split_and!; [lia|done|lia]. }
  rewrite Et2 in Et'. apply lookup_insert_Some in Et' as [[<- <-]|[_ Et']].
  2: { rewrite Et in Et'. injection Et' as <-. split_and!; [lia|done|lia]. }
  rewrite Et in Et1. injection Et1 as <-.
  pose proof (ok_known _ _ (co_targets _ _ (rotation_reachable_ok _ _ _ _ _ Hr) _ _ Et)) as Hkn.
  destruct Hs as [ch now Hst Hv Hb Ek|proof now Hst Hm _ Hv|d now Hst Hv Hm|v now Hst Hv Ha Hb Ek|ack sm Hst Hack|code Hf Hc1 Hc2];
    cbn.
  - destruct Hst as [->| ->]; cbn; split_and!; [lia|done|lia|lia|done|lia].
  - rewrite Hst. cbn. split_and!; [lia|done|lia].
  - rewrite Hst. cbn. split_and!; [lia|done|lia].
  - rewrite Hst. cbn. split_and!; [lia|done|lia].
  - rewrite Hst. cbn. split_and!; [lia|done|lia].
  - split_and!; [destruct (ts_state t); cbn; done|congruence|by left].
Qed.

(** Nothing is acknowledged before it is durable: in every reachable state the
    challenge, the proof with its install, the readiness and the revocation a target
    holds have been recorded by the store, and a target counts as revoked only after
    the result of a revoked acknowledgement was recorded. *)
Theorem rotation_durable_first plan c s log id t :
  reachable (logged store) verifyOld plan c (s, log) → c_targets c !! id = Some t → recorded log t.
Proof. intros Hr Et. exact (reachable_recorded store verifyOld plan c (s, log) id t Hr Et). Qed.

(** ** Restart *)

(** What a store that kept everything returns. *)
Definition faithful_resume (c : RotationCoordinator) : RotationResume :=
  mkResume (c_plan c) true (c_finished c) (resume_of ∘ target_state c <$> p_Targets (c_plan c)).

(** The coordinator tracks exactly the targets of its plan. *)
Definition complete (c : RotationCoordinator) : Prop :=
  (∀ target, target ∈ p_Targets (c_plan c) →
     ∃ t, c_targets c !! t_ConnectorID target = Some t ∧ ts_target t = target)
  ∧ (∀ id t, c_targets c !! id = Some t → ts_target t ∈ p_Targets (c_plan c)).

Lemma complete_new plan c : NewRotationCoordinator plan = inr c → c_plan c = plan ∧ complete c
  ∧ size (c_targets c) = length (p_Targets plan) ∧ c_started c = false ∧ c_finished c = 0
  ∧ (∀ target, target ∈ p_Targets plan → c_targets c !! t_ConnectorID target = Some (newTargetState target)).
Proof.
  unfold NewRotationCoordinator. destruct (failed _) eqn:Hf; [done|]. apply failed_false, plan_targets in Hf as [Hnd _].
  intros [= <-]. cbn. set (l := (λ t, (t_ConnectorID t, newTargetState t)) <$> p_Targets plan).
  assert (NoDup l.*1) as Hl by (unfold l; by rewrite <- list_fmap_compose).
  assert (∀ target, target ∈ p_Targets plan →
            list_to_map (M := gmap string rotationTargetState) l !! t_ConnectorID target = Some (newTargetState target)) as Hnew.
  { intros target Hin. apply elem_of_list_to_map_1; [done|]. apply list_elem_of_fmap. by exists target. }
  split_and!; try done.
  - split; cbn; [intros target Hin; exists (newTargetState target); split; [by apply Hnew|done]|].
    intros id t E%elem_of_list_to_map_2. apply list_elem_of_fmap in E as (target & [= -> ->] & Hin). done.
  - assert (map_to_list (list_to_map (M := gmap string rotationTargetState) l) ≡ₚ l) as Hp by (by apply map_to_list_to_map).
    rewrite <- length_map_to_list, Hp. unfold l. by rewrite length_fmap.
Qed.

Lemma complete_moves c s c' s' : complete c → moves store verifyOld c s c' s' → complete c'.
Proof.
  intros [C1 C2] [Hp [Et|(id & t & ev & t' & Et & Et' & Hs & _)]]; unfold complete; rewrite Hp; [by rewrite Et|].
  apply tstep_target in Hs as Htt. rewrite Et'. split.
  - intros target Hin. destruct (C1 target Hin) as (u & Eu & Hu). destruct (decide (id = t_ConnectorID target)) as [->|].
    + exists t'. rewrite lookup_insert_eq. split; [done|]. congruence.
    + exists u. by rewrite lookup_insert_ne.
  - intros id' u [[<- <-]|[_ E]]%lookup_insert_Some; [rewrite Htt|]; by eapply C2.
Qed.

(** A completion time is only set when the aggregate is terminal. *)
Definition finished_ok (c : RotationCoordinator) : Prop :=
  c_finished c = 0
  ∨ (∃ id t, c_targets c !! id = Some t ∧ ts_state t = RotationTargetFailed)
  ∨ ∀ id t, c_targets c !! id = Some t → ts_state t = RotationTargetRevoked.

Lemma finished_ok_moves c s c' s' :
  finished_ok c → moves store verifyOld c s c' s' → c_finished c' = c_finished c → finished_ok c'.
Proof.
  intros Hf [Hp [Et|(id & t & ev & t' & Et & Et' & Hs & _)]] Ef.
  { unfold finished_ok. by rewrite Ef, Et. }
  destruct Hf as [Hz|[(id1 & t1 & E1 & Hs1)|Hall]].
  - left. congruence.
  - right. left. exists id1, t1. split; [|done]. rewrite Et'. rewrite lookup_insert_ne; [done|]. intros <-.
    assert (t1 = t) as -> by congruence. destruct Hs as [? ? []| | | | |]; try congruence. by rewrite Hs1 in *.
  - right. left. exists id, t'. rewrite Et', lookup_insert_eq. split; [done|]. specialize (Hall id t Et).
    destruct Hs as [? ? []| | | | |]; congruence || done.
Qed.

Lemma summary_succeeded c :
  sm_Status (summaryLocked c) = RotationAggregateSucceeded →
  ∀ target, target ∈ p_Targets (c_plan c) → ts_state (target_state c target) = RotationTargetRevoked.
Proof.
  unfold summaryLocked. cbn. destruct (existsb _ _); [done|]. destruct (forallb _ _) eqn:Hf; [|done]. intros _ target Hin.
  rewrite forallb_forall in Hf. specialize (Hf (target_state c target)). apply bool_decide_eq_true in Hf; [done|].
  apply list_elem_of_In, list_elem_of_fmap. by exists target.
Qed.

Lemma succeeded_all_revoked c :
  keyed c → complete c → sm_Status (summaryLocked c) = RotationAggregateSucceeded →
  ∀ id t, c_targets c !! id = Some t → ts_state t = RotationTargetRevoked.
Proof.
  intros Hk [_ C2] Hs id t Et. specialize (summary_succeeded c Hs (ts_target t) (C2 _ _ Et)).
  unfold target_state. rewrite (Hk _ _ Et), Et. done.
Qed.

Lemma HandleAck_finished c s ctxErr now ack c' s' r :
  HandleAck store c s ctxErr now ack = (c', s', r) →
  c_finished c' = c_finished c
  ∨ (∃ id t, c_targets c' !! id = Some t ∧ ts_state t = RotationTargetFailed)
  ∨ sm_Status (summaryLocked c') = RotationAggregateSucceeded.
Proof.
  unfold HandleAck. intros E. repeat (case_match; simplify_eq; try (by left)).
  - right. left. exists (ra_ConnectorID ack). eexists. cbn. by rewrite lookup_insert_eq.
  - right. right. bools. done.
Qed.

Lemma run_finished k c s :
  keyed (run store verifyOld k (c, s)).1 → complete (run store verifyOld k (c, s)).1 →
  finished_ok c → finished_ok (run store verifyOld k (c, s)).1.
Proof.
  intros Hk Hc Hf. destruct (decide (c_finished (run store verifyOld k (c, s)).1 = c_finished c)) as [E|E].
  { eapply finished_ok_moves; [exact Hf|apply run_moves|exact E]. }
  destruct k; cbn [run] in *.
  - exfalso. apply E. unfold Start. by repeat case_match.
  - exfalso. apply E. unfold ChallengeWithCredentialExpiry. by repeat case_match.
  - exfalso. apply E. unfold AcceptProof. by repeat case_match.
  - exfalso. apply E. unfold MarkReady. by repeat case_match.
  - exfalso. apply E. unfold Revoke. by repeat case_match.
  - destruct (HandleAck store c s ctxErr now ack) as [[c' s'] r] eqn:Ea. cbn in *.
    destruct (HandleAck_finished _ _ _ _ _ _ _ _ Ea) as [?|[?|Hs]]; [done|by right; left|].
    right. right. by apply succeeded_all_revoked.
  - exfalso. apply E. unfold Fail. by repeat case_match.
Qed.

Lemma reachable_complete plan c s : reachable store verifyOld plan c s → complete c ∧ finished_ok c.
Proof.
  induction 1 as [c s Hn|k c s Hr [IHc IHf]].
  - destruct (complete_new _ _ Hn) as (_ & Hc & _ & _ & Hf & _). split; [done|by left].
  - assert (complete (run store verifyOld k (c, s)).1) as Hc' by (eapply complete_moves; [exact IHc|apply run_moves]).
    split; [done|]. apply run_finished; [|done|done].
    apply (co_keyed plan). eapply rotation_reachable_ok, reachable_run, Hr.
Qed.

Lemma check_recovered_ok c seen l :
  NoDup (t_ConnectorID ∘ r_Target <$> l) → Forall (λ r, t_ConnectorID (r_Target r) ∉ seen) l →
  Forall (λ r, validateRotationResumeTarget (c_plan c) r = None ∧ validRotationTargetState (r_State r) = true
     ∧ ∃ t, c_targets c !! t_ConnectorID (r_Target r) = Some t ∧ ts_target t = r_Target r) l →
  check_recovered c seen l = None.
Proof.
  revert seen. induction l as [|r l IH]; intros seen Hnd Hns Hall; [done|]. cbn in Hnd |- *.
  apply NoDup_cons in Hnd as [Hn Hnd]. apply Forall_cons in Hns as [Hs Hns].
  apply Forall_cons in Hall as [(Hv & Hk & t & Et & Htt) Hall].
  rewrite bool_decide_eq_false_2 by done. rewrite Et, Hv, Hk, (bool_decide_eq_true_2 (ts_target t = _)) by done. cbn.
  apply IH; [done| |done]. apply Forall_forall. intros r' Hr'. rewrite Forall_forall in Hns.
  rewrite not_elem_of_union, not_elem_of_singleton. split; [|by apply Hns].
  intros E. apply Hn, list_elem_of_fmap. exists r'. by split.
Qed.

Lemma recover_all_other l m id :
  id ∉ (t_ConnectorID ∘ r_Target <$> l) → recover_all l m !! id = m !! id.
Proof.
  unfold recover_all. revert m. induction l as [|r l IH]; intros m Hid; [done|]. cbn in Hid |- *.
  rewrite not_elem_of_cons in Hid. destruct Hid as [Hne Hid]. rewrite IH by done. by rewrite lookup_alter_ne.
Qed.

Lemma recover_all_lookup l m r :
  NoDup (t_ConnectorID ∘ r_Target <$> l) → r ∈ l →
  recover_all l m !! t_ConnectorID (r_Target r) = (λ t, recover_target t r) <$> m !! t_ConnectorID (r_Target r).
Proof.
  revert m. induction l as [|r' l IH]; intros m Hnd Hin; [by apply not_elem_of_nil in Hin|].
  cbn in Hnd. apply NoDup_cons in Hnd as [Hn Hnd]. change (recover_all (r' :: l) m) with
    (recover_all l (alter (λ state, recover_target state r') (t_ConnectorID (r_Target r')) m)).
  apply elem_of_cons in Hin as [->|Hin].
  - rewrite recover_all_other by done. by rewrite lookup_alter_eq.
  - rewrite IH by done. rewrite lookup_alter_ne; [done|]. intros E. apply Hn, list_elem_of_fmap.
    exists r. by split.
Qed.

Lemma recover_resume target t : ts_target t = target → recover_target (newTargetState target) (resume_of t) = t.
Proof. intros <-. by destruct t. Qed.

Lemma finished_terminal c :
  keyed c → complete c → finished_ok c → IsZero (c_finished c) = false →
  existsb (λ r, r_State r == RotationTargetFailed) (resume_of ∘ target_state c <$> p_Targets (c_plan c))
  || forallb (λ r, r_State r == RotationTargetRevoked) (resume_of ∘ target_state c <$> p_Targets (c_plan c)) = true.
Proof.
  intros Hk [C1 C2] Hf Hz. apply orb_true_iff. destruct Hf as [E|[(id & t & Et & Hs)|Hall]].
  - unfold IsZero in Hz. rewrite E in Hz. done.
  - left. apply existsb_exists. exists (resume_of t). split; [|by apply bool_decide_eq_true_2].
    apply list_elem_of_In, list_elem_of_fmap. exists (ts_target t). split; [|by eapply C2].
    cbn. unfold target_state. by rewrite (Hk _ _ Et), Et.
  - right. apply forallb_forall. intros r [target [-> Hin]]%list_elem_of_In%list_elem_of_fmap.
    destruct (C1 _ Hin) as (u & Eu & Hu). cbn. unfold target_state. rewrite Eu. by apply bool_decide_eq_true_2, (Hall _ _ Eu).
Qed.

End Claims.
End Guarantees.
End RotationGuarantees.
