(* ===== verification/RotationScenario.v ===== *)
(** * Credential rotation: a concrete run

    Two connectors rotate their credentials over the in-memory store, with concrete
    stand-ins for hashing, signatures and encoders. *)
From S2P Require Import Prelude Go Strings Protocol Messages RotationMessages Rotation RotationProofs RotationGuarantees.

Module RotationScenario.
Import RotationMessages Rotation RotationStore RotationProofs RotationGuarantees.

#[local] Instance sampleLib : RotationLib := {|
  sha256_sum _ := replicate 32 x00;
  ed25519_Verify _ _ _ := true;
  url_Parse _ := Some (mkURL "keychain" "paperboat" false "" "" "" "/k");
  marshal_plan _ _ _ _ := Some [x00];
  marshal_proof _ := Some [x00]
|}.

Definition acceptOld (_ : CredentialRotationProof) (_ _ : bytes) : option err := None.

Definition T0 : Time := 1000 * Hour.
Definition digest : string := "sha256:0000000000000000000000000000000000000000000000000000000000000000".
Definition key : string := EncodeToString (replicate 32 x01).
Definition newThumb : string := EncodeToString (replicate 32 x00).
Definition oldThumb : string := EncodeToString (replicate 32 x07).
Definition sig : string := EncodeToString (replicate 32 x09).
Definition nonce : string := "nonce-0123456789".

Definition target (id : string) : RotationTarget := mkTarget id "host" 4 5.
Definition planOf : RotationPlan := mkPlan "acct" "tun" "op" digest [target "c1"; target "c2"].

Definition proofOf (id : string) : CredentialRotationProof :=
  mkProof "acct" "tun" "op" id "host" "s1" 3 digest 4 5 ("ed25519:" +:+ oldThumb) oldThumb
    ("ed25519:" +:+ newThumb) newThumb key "keychain://paperboat/k" nonce T0 (T0 + 48 * Hour) sig sig.
Definition readyOf (id : string) : CredentialRotationReady :=
  mkReady "acct" "tun" "op" id "host" "s2" "s1" 4 digest 4 5 ("ed25519:" +:+ newThumb) newThumb key
    "keychain://paperboat/k" (T0 + 48 * Hour) 9 digest true true true T0.
Definition revokedAck (id : string) : CredentialRotationAck :=
  mkRAck "acct" "tun" "op" id "host" "s2" 4 digest 4 5 RotationAckRevoked "" "".

Definition challengeCall (id : string) : call :=
  CChallenge None T0 id "s1" 3 ("ed25519:" +:+ oldThumb) oldThumb nonce T0 (T0 + 10 * Minute)
    (T0 + 2 * Hour) (T0 + 48 * Hour).

Definition calls : list call :=
  [CStart None; challengeCall "c1"; challengeCall "c2"; CProof None T0 (proofOf "c1"); CProof None T0 (proofOf "c2");
   CReady None T0 (readyOf "c1"); CReady None T0 (readyOf "c2"); CRevoke None T0 "c1" (inr nonce);
   CAck None T0 (revokedAck "c1")].

Definition fresh : RotationCoordinator :=
  match NewRotationCoordinator planOf with inr c => c | inl _ => mkCoordinator planOf false 0 ∅ end.

Definition store : RotationPersistence (MemoryRotationPersistence * list event) := logged memoryPersistence.
Definition play (l : list call) : RotationCoordinator * (MemoryRotationPersistence * list event) :=
  fold_left (λ cs k, run store acceptOld k cs) l (fresh, (emptyMemory, [])).

Lemma reach_play_from l c s :
  reachable store acceptOld planOf c s →
  reachable store acceptOld planOf (fold_left (λ cs k, run store acceptOld k cs) l (c, s)).1
    (fold_left (λ cs k, run store acceptOld k cs) l (c, s)).2.
Proof.
  revert c s. induction l as [|k l IH]; intros c s Hr; [done|]. cbn [fold_left].
  apply (reachable_run _ _ _ k) in Hr. destruct (run store acceptOld k (c, s)) as [c' s']. by apply IH.
Qed.

Lemma reach_play l : reachable store acceptOld planOf (play l).1 (play l).2.
Proof. apply reach_play_from, reachable_new. by vm_compute. Qed.

(** The states of the targets along the run. *)
Definition states_of (cs : RotationCoordinator * (MemoryRotationPersistence * list event)) : list RotationTargetState :=
  s_State <$> sm_Targets (summaryLocked cs.1).

Example run_states :
  states_of (play (take 3 calls)) = [RotationTargetChallenged; RotationTargetChallenged]
  ∧ states_of (play (take 5 calls)) = [RotationTargetInstalled; RotationTargetInstalled]
  ∧ states_of (play calls) = [RotationTargetRevoked; RotationTargetReady].
Proof. by vm_compute. Qed.

Definition final_target (id : string) : rotationTargetState :=
  default (newTargetState (target id)) (c_targets (play calls).1 !! id).

Lemma lookup_final id :
  bool_decide (is_Some (c_targets (play calls).1 !! id)) = true →
  c_targets (play calls).1 !! id = Some (final_target id).
Proof. intros Hs%bool_decide_eq_true. unfold final_target. by destruct Hs as [t ->]. Qed.

Lemma has_c1 : c_targets (play calls).1 !! "c1" = Some (final_target "c1").
Proof. apply lookup_final. by vm_compute. Qed.
Lemma has_c2 : c_targets (play calls).1 !! "c2" = Some (final_target "c2").
Proof. apply lookup_final. by vm_compute. Qed.

Lemma rotation_state_resumable_witness :
  validateRotationResumeTarget planOf (resume_of (final_target "c1")) = None.
Proof. exact (rotation_state_resumable store acceptOld planOf _ _ "c1" _ (reach_play calls) has_c1). Defined.


Definition failed_c2 : rotationTargetState :=
  default (final_target "c2") (c_targets (run store acceptOld (CFail "c2" CodeCredentialRotationFailed) (play calls)).1 !! "c2").

Lemma rotation_phases_forward_witness :
  ts_state failed_c2 = RotationTargetFailed
  ∧ rank (ts_state (final_target "c2")) ≤ rank (ts_state failed_c2).
Proof.
  split; [by vm_compute|].
  assert (c_targets (run store acceptOld (CFail "c2" CodeCredentialRotationFailed) ((play calls).1, (play calls).2)).1 !! "c2"
          = Some failed_c2) as E' by (by vm_compute).
  exact (proj1 (rotation_phases_forward store acceptOld planOf _ _ _ "c2" _ _ (reach_play calls) has_c2 E')).
Defined.

Lemma rotation_durable_first_witness :
  EvRevoke (ts_revoke (final_target "c1")) ∈ (play calls).2.2.
Proof.
  assert (reachable (logged memoryPersistence) acceptOld planOf (play calls).1 ((play calls).2.1, (play calls).2.2)) as Hr.
  { rewrite <- surjective_pairing. apply reach_play. }
  assert (rv_SessionID (ts_revoke (final_target "c1")) ≠ "") as Hv by (by vm_compute).
  exact (proj1 (proj2 (proj2 (proj2 (rotation_durable_first memoryPersistence acceptOld planOf _ _ _ "c1" _ Hr has_c1)))) Hv).
Defined.


Definition failed_early := run store acceptOld (CFail "c1" CodeCredentialRotationFailed) (play (take 5 calls)).

(** The in-memory store forgets a failure that precedes the revocation: a target
    that failed after installation is durable as failed, and is loaded as installed. *)
Theorem memory_store_forgets_failure :
  states_of failed_early = [RotationTargetFailed; RotationTargetInstalled]
  ∧ sm_Targets <$> m_Results failed_early.2.1
    = [[mkTargetSummary (target "c1") RotationTargetFailed CodeCredentialRotationFailed;
        mkTargetSummary (target "c2") RotationTargetInstalled ""]]
  ∧ match memory_load failed_early.2.1 planOf with
    | inr loaded => r_State <$> rs_Targets loaded = [RotationTargetInstalled; RotationTargetInstalled]
    | inl _ => False
    end
  ∧ match Resume store fresh failed_early.2 None T0 with
    | (c', None) => sm_Status (summaryLocked c') = RotationAggregatePending
    | (_, Some _) => False
    end.
Proof. by vm_compute. Qed.
End RotationScenario.
