(* ===== verification/Utf8.v ===== *)
(** * UTF-8, as package unicode/utf8 reads and writes it

    Texts are lists of byte values (integers 0 to 255).  [DecodeRune] returns the
    replacement character with width 1 on an ill-formed sequence, as in Go, so a
    loop over it always advances.  The round trip at the end is what the JSON
    files build on. *)
From S2P Require Import Prelude Go.

Abbreviation text := (list Z) (only parsing).

Definition is_byte (c : Z) : Prop := 0 ≤ c < 256.

Definition RuneError : Z := 65533.
Definition MaxRune : Z := 1114111.

Definition within (lo hi c : Z) : bool := (lo <=? c) && (c <=? hi).

(** [utf16.IsSurrogate]. *)
Definition IsSurrogate (r : Z) : bool := within 55296 57343 r.

(** [utf8.ValidRune]. *)
Definition ValidRune (r : Z) : bool := within 0 MaxRune r && negb (IsSurrogate r).

(** The range of the second byte, by the first (table [acceptRanges]). *)
Definition second_ok (a b : Z) : bool :=
  if a =? 224 then within 160 191 b
  else if a =? 237 then within 128 159 b
  else if a =? 240 then within 144 191 b
  else if a =? 244 then within 128 143 b
  else within 128 191 b.

Definition cont (c : Z) : bool := within 128 191 c.

(** [utf8.DecodeRune]: the rune and its width. *)
Definition DecodeRune (l : text) : Z * nat :=
  match l with
  | [] => (RuneError, 0%nat)
  | a :: l =>
      if a <? 128 then (a, 1%nat)
      else if within 194 223 a then
        match l with
        | b :: _ => if cont b then ((a - 192) * 64 + (b - 128), 2%nat) else (RuneError, 1%nat)
        | _ => (RuneError, 1%nat)
        end
      else if within 224 239 a then
        match l with
        | b :: c :: _ =>
            if second_ok a b && cont c
            then ((a - 224) * 4096 + (b - 128) * 64 + (c - 128), 3%nat) else (RuneError, 1%nat)
        | _ => (RuneError, 1%nat)
        end
      else if within 240 244 a then
        match l with
        | b :: c :: d :: _ =>
            if second_ok a b && cont c && cont d
            then ((a - 240) * 262144 + (b - 128) * 4096 + (c - 128) * 64 + (d - 128), 4%nat)
            else (RuneError, 1%nat)
        | _ => (RuneError, 1%nat)
        end
      else (RuneError, 1%nat)
  end.

(** [utf8.AppendRune]: an invalid rune is written as the replacement character. *)
Definition EncodeRune (r : Z) : text :=
  let r := if ValidRune r then r else RuneError in
  if r <? 128 then [r]
  else if r <? 2048 then [192 + r / 64; 128 + r mod 64]
  else if r <? 65536 then [224 + r / 4096; 128 + r / 64 mod 64; 128 + r mod 64]
  else [240 + r / 262144; 128 + r / 4096 mod 64; 128 + r / 64 mod 64; 128 + r mod 64].

(** ** Round trip *)

Ltac unfold_ranges :=
  unfold ValidRune, IsSurrogate, second_ok, cont, within, MaxRune, RuneError, is_byte in *.

(** Splits the boolean conditions of the goal and closes arithmetic leaves. *)
Ltac split_ifs :=
  repeat match goal with
  | |- context [if ?b then _ else _] => destruct b eqn:?
  end; bools.

Lemma split64 r : r = r / 64 * 64 + r mod 64 ∧ 0 ≤ r mod 64 < 64.
Proof. pose proof (Z.div_mod r 64 ltac:(lia)). pose proof (Z.mod_pos_bound r 64 ltac:(lia)). lia. Qed.

Lemma div4096 r : r / 4096 = r / 64 / 64.
Proof. by rewrite Z.div_div. Qed.

Lemma div262144 r : r / 262144 = r / 64 / 64 / 64.
Proof. by rewrite !Z.div_div. Qed.

Lemma within_true lo hi c : lo ≤ c ≤ hi → within lo hi c = true.
Proof. unfold within. intros ?. apply andb_true_iff. lia. Qed.

Lemma within_false lo hi c : c < lo ∨ hi < c → within lo hi c = false.
Proof. unfold within. intros ?. apply andb_false_iff. lia. Qed.

Lemma within_spec lo hi c : within lo hi c = true ↔ lo ≤ c ≤ hi.
Proof. unfold within. rewrite andb_true_iff. lia. Qed.

Lemma ValidRune_spec r : ValidRune r = true ↔ 0 ≤ r ≤ MaxRune ∧ (r < 55296 ∨ 57343 < r).
Proof.
  unfold ValidRune, IsSurrogate. rewrite andb_true_iff, negb_true_iff, within_spec.
  split.
  - intros [? Hs]. split; [done|]. unfold within in Hs. apply andb_false_iff in Hs. lia.
  - intros [? ?]. split; [done|]. apply within_false. lia.
Qed.

Lemma EncodeRune_nonempty r : EncodeRune r ≠ [].
Proof. unfold EncodeRune. by split_ifs. Qed.

Theorem DecodeRune_EncodeRune r rest :
  ValidRune r = true → DecodeRune (EncodeRune r ++ rest) = (r, length (EncodeRune r)).
Proof.
  intros Hv. unfold EncodeRune. rewrite Hv. apply ValidRune_spec in Hv as [? ?]. unfold MaxRune in *.
  rewrite div262144, div4096.
  pose proof (split64 r). pose proof (split64 (r / 64)). pose proof (split64 (r / 64 / 64)).
  set (r1 := r / 64) in *. set (r2 := r1 / 64) in *. set (r3 := r2 / 64) in *.
  set (m0 := r mod 64) in *. set (m1 := r1 mod 64) in *. set (m2 := r2 mod 64) in *.
  clearbody m0 m1 m2 r3. clearbody r2. clearbody r1.
  destruct (r <? 128) eqn:E1; bools; cbn [app length DecodeRune].
  { by rewrite (proj2 (Z.ltb_lt r 128)). }
  destruct (r <? 2048) eqn:E2; bools; cbn [app length DecodeRune].
  { rewrite (proj2 (Z.ltb_ge _ 128)) by lia. unfold cont. rewrite !within_true by lia. f_equal. lia. }
  destruct (r <? 65536) eqn:E3; bools; cbn [app length DecodeRune].
  { rewrite (proj2 (Z.ltb_ge _ 128)), (within_false 194 223), (within_true 224 239) by lia. unfold cont.
    rewrite (within_true 128 191 (128 + m0)) by lia.
    assert (second_ok (224 + r2) (128 + m1) = true) as ->; [|cbn; f_equal; lia].
    unfold second_ok. split_ifs; apply within_true; lia. }
  rewrite (proj2 (Z.ltb_ge _ 128)), (within_false 194 223), (within_false 224 239), (within_true 240 244) by lia.
  unfold cont. rewrite (within_true 128 191 (128 + m0)), (within_true 128 191 (128 + m1)) by lia.
  assert (second_ok (240 + r3) (128 + m2) = true) as ->; [|cbn; f_equal; lia].
  unfold second_ok. split_ifs; apply within_true; lia.
Qed.

(** A width other than that of an error is that of a valid encoding. *)
Theorem DecodeRune_valid l r n :
  Forall is_byte l → l ≠ [] → DecodeRune l = (r, n) → (r, n) ≠ (RuneError, 1%nat) →
  ValidRune r = true ∧ l = EncodeRune r ++ drop n l ∧ n = length (EncodeRune r).
Proof.
  intros Hb Hne E Herr. destruct l as [|a l]; [done|]. inversion_clear Hb as [|? ? Ha Hl].
  unfold is_byte in Ha. cbn [DecodeRune] in E.
  assert (∀ x n', 128 ≤ x → (r, n) = (x, n') → ValidRune x = true → n' = length (EncodeRune x) →
          a :: l = EncodeRune x ++ drop n' (a :: l) →
          ValidRune r = true ∧ a :: l = EncodeRune r ++ drop n (a :: l) ∧ n = length (EncodeRune r)) as Hk.
  { intros x n' _ [= -> ->] ???. done. }
  destruct (a <? 128) eqn:E1; bools.
  { injection E as <- <-. assert (ValidRune a = true) as Hv by (apply ValidRune_spec; unfold MaxRune; lia).
    unfold EncodeRune. rewrite Hv, (proj2 (Z.ltb_lt a 128)) by lia. done. }
  destruct (within 194 223 a) eqn:E2.
  { apply within_spec in E2. destruct l as [|b l]; [by injection E as <- <-|].
    destruct (cont b) eqn:Eb; [|by injection E as <- <-]. apply within_spec in Eb.
    set (x := (a - 192) * 64 + (b - 128)) in *.
    assert (ValidRune x = true) as Hv by (apply ValidRune_spec; unfold MaxRune; lia).
    assert (x / 64 = a - 192 ∧ x mod 64 = b - 128) as [Hd Hm].
    { split; [symmetry; eapply Z.div_unique with (b - 128); lia|symmetry; eapply Z.mod_unique with (a - 192); lia]. }
    eapply (Hk x 2%nat); [lia|done|done| |];
      unfold EncodeRune; rewrite Hv, (proj2 (Z.ltb_ge x 128)), (proj2 (Z.ltb_lt x 2048)) by lia; [done|].
    rewrite Hd, Hm. cbn. f_equal; [lia|f_equal; lia]. }
  destruct (within 224 239 a) eqn:E3.
  { apply within_spec in E3. destruct l as [|b [|c l]]; [by injection E as <- <-..|].
    destruct (second_ok a b && cont c) eqn:Eb; [|by injection E as <- <-].
    apply andb_true_iff in Eb as [Eb Ec%within_spec].
    assert (128 ≤ b ≤ 191 ∧ (a = 224 → 160 ≤ b) ∧ (a = 237 → b ≤ 159)) as (? & ? & ?).
    { unfold second_ok in Eb. destruct (a =? 224) eqn:?, (a =? 237) eqn:?; bools; try lia; [| |].
      - apply within_spec in Eb. lia.
      - apply within_spec in Eb. lia.
      - destruct (a =? 240) eqn:?, (a =? 244) eqn:?; bools; try lia. apply within_spec in Eb. lia. }
    set (x := (a - 224) * 4096 + (b - 128) * 64 + (c - 128)) in *.
    assert (ValidRune x = true) as Hv by (apply ValidRune_spec; unfold MaxRune; lia).
    assert (x / 64 = (a - 224) * 64 + (b - 128) ∧ x mod 64 = c - 128) as [Hd Hm].
    { split; [symmetry; eapply Z.div_unique with (c - 128); lia
             |symmetry; eapply Z.mod_unique with ((a - 224) * 64 + (b - 128)); lia]. }
    assert (x / 64 / 64 = a - 224 ∧ x / 64 mod 64 = b - 128) as [Hd2 Hm2].
    { rewrite Hd. split; [symmetry; eapply Z.div_unique with (b - 128); lia
             |symmetry; eapply Z.mod_unique with (a - 224); lia]. }
    eapply (Hk x 3%nat); [lia|done|done| |];
      unfold EncodeRune; rewrite Hv, (proj2 (Z.ltb_ge x 128)), (proj2 (Z.ltb_ge x 2048)),
        (proj2 (Z.ltb_lt x 65536)) by lia; [done|].
    rewrite div4096, Hd2, Hm2, Hm. cbn. repeat (f_equal; try lia). }
  destruct (within 240 244 a) eqn:E4; [|by injection E as <- <-].
  apply within_spec in E4. destruct l as [|b [|c [|d l]]]; [by injection E as <- <-..|].
  destruct (second_ok a b && cont c && cont d) eqn:Eb; [|by injection E as <- <-].
  apply andb_true_iff in Eb as [[Eb Ec%within_spec]%andb_true_iff Ed%within_spec].
  assert (128 ≤ b ≤ 191 ∧ (a = 240 → 144 ≤ b) ∧ (a = 244 → b ≤ 143)) as (? & ? & ?).
  { unfold second_ok in Eb. destruct (a =? 224) eqn:?, (a =? 237) eqn:?; bools; try lia.
    destruct (a =? 240) eqn:?, (a =? 244) eqn:?; bools; try lia; apply within_spec in Eb; lia. }
  set (x := (a - 240) * 262144 + (b - 128) * 4096 + (c - 128) * 64 + (d - 128)) in *.
  assert (ValidRune x = true) as Hv by (apply ValidRune_spec; unfold MaxRune; lia).
  assert (x / 64 = (a - 240) * 4096 + (b - 128) * 64 + (c - 128) ∧ x mod 64 = d - 128) as [Hd Hm].
  { split; [symmetry; eapply Z.div_unique with (d - 128); lia
           |symmetry; eapply Z.mod_unique with ((a - 240) * 4096 + (b - 128) * 64 + (c - 128)); lia]. }
  assert (x / 64 / 64 = (a - 240) * 64 + (b - 128) ∧ x / 64 mod 64 = c - 128) as [Hd2 Hm2].
  { rewrite Hd. split; [symmetry; eapply Z.div_unique with (c - 128); lia
           |symmetry; eapply Z.mod_unique with ((a - 240) * 64 + (b - 128)); lia]. }
  assert (x / 64 / 64 / 64 = a - 240 ∧ x / 64 / 64 mod 64 = b - 128) as [Hd3 Hm3].
  { rewrite Hd2. split; [symmetry; eapply Z.div_unique with (b - 128); lia
           |symmetry; eapply Z.mod_unique with (a - 240); lia]. }
  eapply (Hk x 4%nat); [lia|done|done| |];
    unfold EncodeRune; rewrite Hv, (proj2 (Z.ltb_ge x 128)), (proj2 (Z.ltb_ge x 2048)),
      (proj2 (Z.ltb_ge x 65536)) by lia; [done|].
  rewrite div262144, div4096, Hd3, Hm3, Hm2, Hm. cbn. repeat (f_equal; try lia).
Qed.

(** A well-formed text is a sequence of encoded runes. *)
Definition runes_text (rs : list Z) : text := rs ≫= EncodeRune.

Definition valid_utf8 (s : text) : Prop := ∃ rs, Forall (λ r, ValidRune r = true) rs ∧ s = runes_text rs.

Lemma valid_utf8_nil : valid_utf8 [].
Proof. by exists []. Qed.

Lemma valid_utf8_cons r s : ValidRune r = true → valid_utf8 s → valid_utf8 (EncodeRune r ++ s).
Proof. intros Hr (rs & H & ->). exists (r :: rs). split; [by constructor|done]. Qed.

Lemma valid_utf8_rune r s : valid_utf8 s → valid_utf8 (EncodeRune r ++ s).
Proof.
  intros Hs. destruct (ValidRune r) eqn:E; [by apply valid_utf8_cons|].
  replace (EncodeRune r) with (EncodeRune RuneError); [by apply valid_utf8_cons|].
  unfold EncodeRune. by rewrite E.
Qed.

Lemma valid_utf8_ascii c s : 0 ≤ c < 128 → valid_utf8 s → valid_utf8 (c :: s).
Proof.
  intros Hc Hs. replace (c :: s) with (EncodeRune c ++ s).
  { apply valid_utf8_rune, Hs. }
  assert (ValidRune c = true) as Hv by (apply ValidRune_spec; unfold MaxRune; lia).
  unfold EncodeRune. by rewrite Hv, (proj2 (Z.ltb_lt c 128)) by lia.
Qed.

Lemma EncodeRune_bytes r : Forall is_byte (EncodeRune r).
Proof.
  unfold EncodeRune. set (x := if ValidRune r then r else RuneError).
  assert (0 ≤ x ≤ MaxRune) as Hx.
  { unfold x. destruct (ValidRune r) eqn:E; [apply ValidRune_spec in E as [? ?]; done|done]. }
  unfold MaxRune in Hx. clearbody x. rewrite div262144, div4096.
  pose proof (split64 x). pose proof (split64 (x / 64)). pose proof (split64 (x / 64 / 64)).
  split_ifs; repeat constructor; unfold is_byte; lia.
Qed.

Lemma valid_utf8_bytes s : valid_utf8 s → Forall is_byte s.
Proof.
  intros (rs & _ & ->). induction rs as [|r rs IH]; [constructor|]. cbn.
  apply Forall_app. split; [apply EncodeRune_bytes|done].
Qed.
