(* ===== verification/JSON.v ===== *)
(** * Package encoding/json, as the source uses it

    The streaming decoder ([Decoder.Token], [Decoder.More]) with its token state
    machine, string unquoting with the treatment of escapes, surrogates and
    ill-formed UTF-8, number literals ([UseNumber]), and [Marshal] of generic values
    with Go's escaping and sorted keys.  Texts are lists of byte values. *)
From S2P Require Import Prelude Go Utf8.

(** The byte values of a string constant. *)
Definition ascii (s : string) : text := byte_to_Z <$> sbytes s.

(** The string a list of byte values denotes. *)
Definition of_text (t : text) : string := bstring (byte_of_Z <$> t).

(** ** Values

    What decoding into [any] with [UseNumber] yields: numbers keep their literal, a
    [map[string]any] is the list of its members in the order [Marshal] writes them. *)
Inductive json :=
  | JNull
  | JBool (b : bool)
  | JNumber (literal : text)
  | JString (s : text)
  | JArray (elements : list json)
  | JObject (members : list (text * json)).

(** ** Scanning *)

Definition is_space (c : Z) : bool := (c =? 32) || (c =? 9) || (c =? 13) || (c =? 10).

Fixpoint skip_space (l : text) : text :=
  match l with
  | c :: l' => if is_space c then skip_space l' else l
  | [] => []
  end.

Definition digit (c : Z) : bool := within 48 57 c.

Fixpoint span_digits (l : text) : text * text :=
  match l with
  | c :: l' => if digit c then let '(ds, rest) := span_digits l' in (c :: ds, rest) else ([], l)
  | [] => ([], [])
  end.

(** The integer part: a zero or a sequence of digits without leading zero. *)
Definition scan_int (l : text) : option (text * text) :=
  match l with
  | c :: l' => if c =? 48 then Some ([c], l')
               else if digit c then let '(ds, rest) := span_digits l' in Some (c :: ds, rest)
               else None
  | [] => None
  end.

Definition some_digits (prefix : text) (l : text) : option (text * text) :=
  match span_digits l with
  | ([], _) => None
  | (ds, rest) => Some (prefix ++ ds, rest)
  end.

Definition scan_frac (l : text) : option (text * text) :=
  match l with
  | c :: l' => if c =? 46 then some_digits [c] l' else Some ([], l)
  | [] => Some ([], [])
  end.

Definition scan_exp (l : text) : option (text * text) :=
  match l with
  | c :: l' =>
      if (c =? 101) || (c =? 69) then
        match l' with
        | s :: l'' => if (s =? 43) || (s =? 45) then some_digits [c; s] l'' else some_digits [c] l'
        | [] => None
        end
      else Some ([], l)
  | [] => Some ([], [])
  end.

Definition scan_unsigned (l : text) : option (text * text) :=
  '(i, l) ← scan_int l; '(f, l) ← scan_frac l; '(e, l) ← scan_exp l; Some (i ++ f ++ e, l).

Definition scan_number (l : text) : option (text * text) :=
  match l with
  | c :: l' => if c =? 45 then '(n, rest) ← scan_unsigned l'; Some (c :: n, rest) else scan_unsigned l
  | [] => None
  end.

Definition hex_value (c : Z) : option Z :=
  if digit c then Some (c - 48)
  else if within 97 102 c then Some (c - 87)
  else if within 65 70 c then Some (c - 55)
  else None.

(** The four digits of a [\u] escape, and what follows. *)
Definition hex4 (l : text) : option (Z * text) :=
  match l with
  | a :: b :: c :: d :: rest =>
      a ← hex_value a; b ← hex_value b; c ← hex_value c; d ← hex_value d;
      Some (a * 4096 + b * 256 + c * 16 + d, rest)
  | _ => None
  end.

(** [getu4]: a complete [\uXXXX] at the front. *)
Definition getu4 (l : text) : option (Z * text) :=
  match l with
  | a :: b :: rest => if (a =? 92) && (b =? 117) then hex4 rest else None
  | _ => None
  end.

(** [utf16.DecodeRune]. *)
Definition utf16_DecodeRune (r1 r2 : Z) : Z :=
  if within 55296 56319 r1 && within 56320 57343 r2
  then (r1 - 55296) * 1024 + (r2 - 56320) + 65536 else RuneError.

(** The one-byte escapes. *)
Definition simple_escape (c : Z) : option Z :=
  if (c =? 34) || (c =? 92) || (c =? 47) then Some c
  else if c =? 98 then Some 8
  else if c =? 102 then Some 12
  else if c =? 110 then Some 10
  else if c =? 114 then Some 13
  else if c =? 116 then Some 9
  else None.

(** The rune of a [\u] escape whose digits were [rr]; a high surrogate takes the
    following escape with it when the two make a rune. *)
Definition unicode_escape (rr : Z) (rest : text) : Z * text :=
  if IsSurrogate rr then
    match getu4 rest with
    | Some (rr1, rest1) =>
        let dec := utf16_DecodeRune rr rr1 in
        if dec =? RuneError then (RuneError, rest) else (dec, rest1)
    | None => (RuneError, rest)
    end
  else (rr, rest).

(** The characters of a string up to its closing quote, unquoted, and what follows
    the quote.  Every step consumes a byte, so the length is enough fuel. *)
Fixpoint scan_chars (fuel : nat) (l : text) : option (text * text) :=
  match fuel, l with
  | S fuel, c :: rest =>
      let emit (chars rest : text) := '(s, l) ← scan_chars fuel rest; Some (chars ++ s, l) in
      if c =? 34 then Some ([], rest)
      else if c =? 92 then
        match rest with
        | e :: rest =>
            if e =? 117 then
              match hex4 rest with
              | Some (rr, rest) => let '(r, rest) := unicode_escape rr rest in emit (EncodeRune r) rest
              | None => None
              end
            else match simple_escape e with
                 | Some c => emit [c] rest
                 | None => None
                 end
        | [] => None
        end
      else if c <? 32 then None
      else if c <? 128 then emit [c] rest
      else let '(r, n) := DecodeRune l in emit (EncodeRune r) (drop n l)
  | _, _ => None
  end.

(** The string whose opening quote was consumed. *)
Definition scan_string (l : text) : option (text * text) := scan_chars (length l) l.

Fixpoint literal (word l : text) : option text :=
  match word, l with
  | [], _ => Some l
  | w :: word, c :: l => if w =? c then literal word l else None
  | _, [] => None
  end.

(** ** The token reader *)

Inductive token :=
  | Delim (c : Z)
  | TString (s : text)
  | TNumber (lit : text)
  | TBool (b : bool)
  | TNull.

(** A scalar at the front of the input. *)
Definition scan_scalar (l : text) : option (token * text) :=
  match l with
  | [] => None
  | c :: rest =>
      if c =? 34 then '(s, rest) ← scan_string rest; Some (TString s, rest)
      else if (c =? 45) || digit c then '(n, rest) ← scan_number l; Some (TNumber n, rest)
      else if c =? 116 then rest ← literal (ascii "true") l; Some (TBool true, rest)
      else if c =? 102 then rest ← literal (ascii "false") l; Some (TBool false, rest)
      else if c =? 110 then rest ← literal (ascii "null") l; Some (TNull, rest)
      else None
  end.

Inductive tokenState :=
  | tokenTopValue | tokenArrayStart | tokenArrayValue | tokenArrayComma
  | tokenObjectStart | tokenObjectKey | tokenObjectColon | tokenObjectValue | tokenObjectComma.

Record Decoder := mkDecoder {
  d_input : text;
  d_state : tokenState;
  d_stack : list tokenState
}.

Definition NewDecoder (data : text) : Decoder := mkDecoder data tokenTopValue [].

Definition tokenValueAllowed (s : tokenState) : bool :=
  match s with
  | tokenTopValue | tokenArrayStart | tokenArrayValue | tokenObjectValue => true
  | _ => false
  end.

Definition tokenValueEnd (s : tokenState) : tokenState :=
  match s with
  | tokenArrayStart | tokenArrayValue => tokenArrayComma
  | tokenObjectValue => tokenObjectComma
  | s => s
  end.

Inductive token_result :=
  | TokenEOF                                  (** [io.EOF] *)
  | TokenError                                (** any other error *)
  | GotToken (t : token) (d : Decoder).

(** A closing delimiter ends the value of the enclosing state. *)
Definition close_delim (c : Z) (rest : text) (d : Decoder) : token_result :=
  match d_stack d with
  | s :: stack => GotToken (Delim c) (mkDecoder rest (tokenValueEnd s) stack)
  | [] => TokenError
  end.

(** One round of the loop of [Decoder.Token]: a result, or the state to go on from
    after a separator. *)
Definition token_round (d : Decoder) : token_result + Decoder :=
  let st := d_state d in
  match skip_space (d_input d) with
  | [] => inl TokenEOF
  | (c :: rest) as input =>
      if c =? 91 then
        inl (if tokenValueAllowed st then GotToken (Delim c) (mkDecoder rest tokenArrayStart (st :: d_stack d))
             else TokenError)
      else if c =? 93 then
        inl match st with tokenArrayStart | tokenArrayComma => close_delim c rest d | _ => TokenError end
      else if c =? 123 then
        inl (if tokenValueAllowed st then GotToken (Delim c) (mkDecoder rest tokenObjectStart (st :: d_stack d))
             else TokenError)
      else if c =? 125 then
        inl match st with tokenObjectStart | tokenObjectComma => close_delim c rest d | _ => TokenError end
      else if c =? 58 then
        match st with
        | tokenObjectColon => inr (mkDecoder rest tokenObjectValue (d_stack d))
        | _ => inl TokenError
        end
      else if c =? 44 then
        match st with
        | tokenArrayComma => inr (mkDecoder rest tokenArrayValue (d_stack d))
        | tokenObjectComma => inr (mkDecoder rest tokenObjectKey (d_stack d))
        | _ => inl TokenError
        end
      else
        inl match st, c =? 34 with
        | (tokenObjectStart | tokenObjectKey), true =>
            match scan_string rest with
            | Some (s, rest) => GotToken (TString s) (mkDecoder rest tokenObjectColon (d_stack d))
            | None => TokenError
            end
        | _, _ =>
            if tokenValueAllowed st then
              match scan_scalar input with
              | Some (t, rest) => GotToken t (mkDecoder rest (tokenValueEnd st) (d_stack d))
              | None => TokenError
              end
            else TokenError
        end
  end.

(** [Decoder.Token].  A separator is accepted only in a state that the next round
    accepts no separator in, so two rounds are all it takes. *)
Definition Token (d : Decoder) : token_result :=
  match token_round d with
  | inl r => r
  | inr d => match token_round d with inl r => r | inr _ => TokenError end
  end.

(** [Decoder.More]. *)
Definition More (d : Decoder) : bool :=
  match skip_space (d_input d) with
  | [] => false
  | c :: _ => negb (c =? 93) && negb (c =? 125)
  end.

(** ** Marshal *)

Definition hexdigit (n : Z) : Z := if n <? 10 then 48 + n else 87 + n.

(** [htmlSafeSet]. *)
Definition html_safe (c : Z) : bool :=
  (32 <=? c) && negb (c =? 34) && negb (c =? 92) && negb (c =? 60) && negb (c =? 62) && negb (c =? 38).

(** The escape of an ASCII byte that is not safe. *)
Definition escape (c : Z) : text :=
  if (c =? 34) || (c =? 92) then [92; c]
  else if c =? 8 then [92; 98]
  else if c =? 12 then [92; 102]
  else if c =? 10 then [92; 110]
  else if c =? 13 then [92; 114]
  else if c =? 9 then [92; 116]
  else ascii "\u00" ++ [hexdigit (c / 16); hexdigit (c mod 16)].

(** The characters of a quoted string ([appendString] with HTML escaping). *)
Fixpoint quote_chars (fuel : nat) (s : text) : text :=
  match fuel, s with
  | S fuel, c :: rest =>
      if c <? 128 then (if html_safe c then [c] else escape c) ++ quote_chars fuel rest
      else
        let '(r, n) := DecodeRune s in
        (if (r =? RuneError) && (n =? 1)%nat then ascii "\ufffd"
         else if (r =? 8232) || (r =? 8233) then ascii "\u202" ++ [hexdigit (r mod 16)]
         else take n s) ++ quote_chars fuel (drop n s)
  | _, _ => []
  end.

Definition quote (s : text) : text := 34 :: quote_chars (length s) s ++ [34].

(** The parts of an array or object, separated by commas. *)
Fixpoint commas (parts : list text) : text :=
  match parts with
  | [] => []
  | [p] => p
  | p :: parts => p ++ 44 :: commas parts
  end.

Fixpoint Marshal (v : json) : text :=
  match v with
  | JNull => ascii "null"
  | JBool b => ascii (if b then "true" else "false")
  | JNumber n => n
  | JString s => quote s
  | JArray l => 91 :: commas (List.map Marshal l) ++ [93]
  | JObject m => 123 :: commas (List.map (λ kv, quote kv.1 ++ 58 :: Marshal kv.2) m) ++ [125]
  end.

Example marshal_tree :
  Marshal (JObject [(ascii "a", JArray [JNumber (ascii "1"); JNull]); (ascii "b<", JString (ascii "x"))])
  = ascii "{" ++ quote (ascii "a") ++ ascii ":[1,null]," ++ quote (ascii "b<") ++ ascii ":" ++ quote (ascii "x")
    ++ ascii "}".
Proof. vm_compute. reflexivity. Qed.

(** ** Maps

    [object[key] = child] on a [map[string]any] kept in key order; an existing member
    is overwritten. *)
Fixpoint text_compare (a b : text) : comparison :=
  match a, b with
  | [], [] => Eq
  | [], _ => Lt
  | _, [] => Gt
  | x :: a, y :: b => match x ?= y with Eq => text_compare a b | c => c end
  end.

Fixpoint assign (key : text) (child : json) (m : list (text * json)) : list (text * json) :=
  match m with
  | [] => [(key, child)]
  | (k, v) :: m' =>
      match text_compare key k with
      | Lt => (key, child) :: m
      | Eq => (key, child) :: m'
      | Gt => (k, v) :: assign key child m'
      end
  end.
