(* ===== verification/JSONProofs.v ===== *)
(** * Scanning undoes printing

    The scanners of file JSON read back what [Marshal] writes: string contents of
    well-formed UTF-8, number literals, and the separators between values.  What they
    return is well formed for any input. *)
From S2P Require Import Prelude Go Utf8 JSON.

(** ** Numbers *)

(** A text that ends a number: nothing, or the delimiter that follows a value. *)
Definition ends (rest : text) : Prop :=
  match rest with [] => True | c :: _ => c = 44 ∨ c = 93 ∨ c = 125 end.

Lemma ends_cons c rest : ends (c :: rest) → digit c = false ∧ c ≠ 46 ∧ c ≠ 101 ∧ c ≠ 69.
Proof. intros [-> | [-> | ->]]; done. Qed.

Lemma span_digits_spec l ds rest :
  span_digits l = (ds, rest) →
  l = ds ++ rest ∧ Forall (λ c, digit c = true) ds ∧ match rest with [] => True | c :: _ => digit c = false end.
Proof.
  revert ds rest. induction l as [|c l IH]; intros ds rest; cbn; [by intros [= <- <-]|].
  destruct (digit c) eqn:E; [|by intros [= <- <-]].
  destruct (span_digits l) as [ds' rest'] eqn:El. intros [= <- <-].
  destruct (IH _ _ eq_refl) as (-> & H1 & H2). by repeat constructor.
Qed.

Lemma span_digits_all ds rest :
  Forall (λ c, digit c = true) ds → match rest with [] => True | c :: _ => digit c = false end →
  span_digits (ds ++ rest) = (ds, rest).
Proof.
  induction 1 as [|c ds Hc Hds IH]; intros Hr; cbn.
  - destruct rest as [|c rest]; [done|]. cbn. by rewrite Hr.
  - by rewrite Hc, IH.
Qed.

(** The literal of a scan, and how it is read in front of another text. *)
Record scans (scan : text → option (text * text)) (n : text) : Prop := {
  scans_ends : ∀ rest, ends rest → scan (n ++ rest) = Some (n, rest)
}.

Lemma digits_end ds rest : Forall (λ c, digit c = true) ds → ends rest → span_digits (ds ++ rest) = (ds, rest).
Proof.
  intros Hd He. apply span_digits_all; [done|]. destruct rest as [|c rest]; [done|]. by apply ends_cons in He as [? _].
Qed.

Lemma scan_int_spec l i rest :
  scan_int l = Some (i, rest) →
  l = i ++ rest ∧ i ≠ []
  ∧ ∀ rest', match rest' with [] => True | c :: _ => digit c = false end → scan_int (i ++ rest') = Some (i, rest').
Proof.
  destruct l as [|c l]; [done|]. cbn. destruct (c =? 48) eqn:E.
  { intros [= <- <-]. split_and!; [done..|]. intros rest' _. cbn. by rewrite E. }
  destruct (digit c) eqn:Ed; [|done]. destruct (span_digits l) as [ds r] eqn:El. intros [= <- <-].
  apply span_digits_spec in El as (-> & Hd & _). split_and!; [done..|]. intros rest' Hr. cbn.
  by rewrite E, Ed, span_digits_all.
Qed.

Lemma some_digits_spec p l n rest :
  some_digits p l = Some (n, rest) →
  ∃ ds, n = p ++ ds ∧ l = ds ++ rest ∧ ds ≠ []
    ∧ ∀ rest', match rest' with [] => True | c :: _ => digit c = false end →
               some_digits p (ds ++ rest') = Some (p ++ ds, rest').
Proof.
  unfold some_digits. destruct (span_digits l) as [ds r] eqn:El.
  destruct ds as [|c ds]; [done|]. intros [= <- <-]. exists (c :: ds).
  apply span_digits_spec in El as (-> & Hd & _). split_and!; [done..|].
  intros rest' Hr. by rewrite span_digits_all.
Qed.

Lemma scan_frac_spec l f rest :
  scan_frac l = Some (f, rest) →
  l = f ++ rest
  ∧ match f with [] => True | c :: _ => c = 46 end
  ∧ ∀ rest', match rest' with [] => True | c :: _ => digit c = false ∧ c ≠ 46 end →
             scan_frac (f ++ rest') = Some (f, rest').
Proof.
  destruct l as [|c l]; cbn.
  { intros [= <- <-]. split_and!; [done..|]. intros [|c rest'] Hr; [done|]. cbn.
    destruct Hr as [_ Hr]. apply Z.eqb_neq in Hr. by rewrite Hr. }
  destruct (c =? 46) eqn:E.
  - bools. subst c. intros (ds & -> & -> & _ & Hk)%some_digits_spec. split_and!; [done..|].
    intros rest' Hr. cbn. apply Hk. destruct rest' as [|c rest']; [done|]. apply Hr.
  - intros [= <- <-]. split_and!; [done..|]. intros [|c' rest'] Hr; [done|]. cbn.
    destruct Hr as [_ Hr]. apply Z.eqb_neq in Hr. by rewrite Hr.
Qed.

Lemma scan_exp_spec l e rest :
  scan_exp l = Some (e, rest) →
  l = e ++ rest ∧ match e with [] => True | c :: _ => c = 101 ∨ c = 69 end
  ∧ ∀ rest', ends rest' → scan_exp (e ++ rest') = Some (e, rest').
Proof.
  assert (∀ rest', ends rest' → match rest' with [] => True | c :: _ => digit c = false end) as Hend.
  { intros [|c r] He; [done|]. by apply ends_cons in He as [? _]. }
  assert (∀ rest', ends rest' → scan_exp rest' = Some ([], rest')) as Hnil.
  { intros [|c' rest'] Hr; [done|]. unfold scan_exp. apply ends_cons in Hr as (_ & _ & H1 & H2).
    apply Z.eqb_neq in H1, H2. by rewrite H1, H2. }
  destruct l as [|c l]; cbn [scan_exp].
  { intros [= <- <-]. split_and!; [done..|]. apply Hnil. }
  destruct ((c =? 101) || (c =? 69)) eqn:E; [|intros [= <- <-]; split_and!; [done..|apply Hnil]].
  assert (c = 101 ∨ c = 69) as Hc by (apply orb_true_iff in E as [?|?]; bools; auto).
  destruct l as [|s l]; [done|]. destruct ((s =? 43) || (s =? 45)) eqn:Es.
  - intros (ds & -> & -> & _ & Hk)%some_digits_spec. split_and!; [done..|]. intros rest' Hr. cbn.
    rewrite E, Es. apply Hk, Hend, Hr.
  - intros (ds & -> & El & Hne & Hk)%some_digits_spec. split_and!; [by rewrite El|done|]. intros rest' Hr. cbn.
    rewrite E. destruct ds as [|s' ds]; [done|]. injection El as -> _. cbn [app]. rewrite Es. apply Hk, Hend, Hr.
Qed.

Lemma scan_unsigned_spec l n rest :
  scan_unsigned l = Some (n, rest) →
  l = n ++ rest ∧ n ≠ [] ∧ ∀ rest', ends rest' → scan_unsigned (n ++ rest') = Some (n, rest').
Proof.
  unfold scan_unsigned. destruct (scan_int l) as [[i l1]|] eqn:Ei; cbn; [|done].
  destruct (scan_frac l1) as [[f l2]|] eqn:Ef; cbn; [|done].
  destruct (scan_exp l2) as [[e l3]|] eqn:Ee; cbn; [|done]. intros [= <- <-].
  apply scan_int_spec in Ei as (-> & Hi & Ki). apply scan_exp_spec in Ee as (-> & He & Ke).
  apply scan_frac_spec in Ef as (-> & Hf & Kf). rewrite <- !app_assoc. split_and!; [done|by destruct i|].
  intros rest' Hr. rewrite <- !app_assoc.
  assert (match e ++ rest' with [] => True | c :: _ => digit c = false ∧ c ≠ 46 end) as H1.
  { destruct e as [|c e]; cbn; [|destruct He as [->| ->]; done].
    destruct rest'; [done|]. apply ends_cons in Hr. naive_solver. }
  rewrite Ki; cbn.
  - rewrite Kf by done. cbn. by rewrite Ke.
  - destruct f as [|c f]; cbn; [by destruct (e ++ rest'); naive_solver|by subst].
Qed.

Lemma scan_number_spec l n rest :
  scan_number l = Some (n, rest) → l = n ++ rest ∧ n ≠ [] ∧ scans scan_number n.
Proof.
  destruct l as [|c l]; [done|]. unfold scan_number. destruct (c =? 45) eqn:E.
  - destruct (scan_unsigned l) as [[m r]|] eqn:Eu; cbn; [|done]. intros [= <- <-].
    apply scan_unsigned_spec in Eu as (-> & _ & Hk). split_and!; [done..|]. constructor. intros rest' Hr. cbn.
    rewrite E. by rewrite Hk.
  - intros Eu. pose proof (scan_unsigned_spec _ _ _ Eu) as (El & Hne & Hk). split_and!; [done..|].
    constructor. intros rest' Hr. destruct n as [|c' n]; [done|]. injection El as <- _. cbn [app].
    rewrite E. by apply (Hk rest').
Qed.

(** A number starts with a sign or a digit. *)
Lemma scan_number_head c l n rest : scan_number (c :: l) = Some (n, rest) → (c =? 45) || digit c = true.
Proof.
  unfold scan_number. destruct (c =? 45) eqn:E; [done|]. unfold scan_unsigned, scan_int.
  destruct (c =? 48) eqn:E0; [bools; by subst|]. by destruct (digit c).
Qed.

(** ** Strings *)

(** How [Marshal] writes one rune of a well-formed string. *)
Definition quote_rune (r : Z) : text :=
  if r <? 128 then (if html_safe r then [r] else escape r)
  else if (r =? 8232) || (r =? 8233) then ascii "\u202" ++ [hexdigit (r mod 16)]
  else EncodeRune r.

Lemma EncodeRune_ascii r : 0 ≤ r < 128 → EncodeRune r = [r].
Proof.
  intros Hr. unfold EncodeRune. rewrite (proj2 (ValidRune_spec r)) by (unfold MaxRune; lia).
  by rewrite (proj2 (Z.ltb_lt r 128)) by lia.
Qed.

Lemma EncodeRune_head r :
  ValidRune r = true → 128 ≤ r → ∃ c l, EncodeRune r = c :: l ∧ 128 ≤ c < 256.
Proof.
  intros Hv Hr. pose proof (EncodeRune_bytes r) as Hb. unfold EncodeRune in *. rewrite Hv in *.
  apply ValidRune_spec in Hv as [Hv _]. unfold MaxRune in Hv.
  rewrite (proj2 (Z.ltb_ge r 128)) in * by lia.
  assert (0 ≤ r / 64 ∧ 0 ≤ r / 4096 ∧ 0 ≤ r / 262144) as (? & ? & ?)
    by (split_and!; apply Z.div_pos; lia).
  destruct (r <? 2048) eqn:?; [|destruct (r <? 65536) eqn:?]; eexists _, _; (split; [reflexivity|]);
    inversion Hb as [|? ? Hc]; unfold is_byte in Hc; lia.
Qed.

Lemma drop_encoded r rest : drop (length (EncodeRune r)) (EncodeRune r ++ rest) = rest.
Proof. by rewrite drop_app_length. Qed.

Lemma quote_chars_runes rs fuel :
  Forall (λ r, ValidRune r = true) rs → (length (runes_text rs) ≤ fuel)%nat →
  quote_chars fuel (runes_text rs) = rs ≫= quote_rune.
Proof.
  intros Hv. revert fuel. induction Hv as [|r rs Hr Hrs IH]; intros fuel Hf; [by destruct fuel|].
  change (runes_text (r :: rs)) with (EncodeRune r ++ runes_text rs) in *. rewrite length_app in Hf.
  pose proof (EncodeRune_nonempty r) as Hne.
  assert (0 < length (EncodeRune r))%nat by (destruct (EncodeRune r); cbn; [done|lia]).
  destruct fuel as [|fuel]; [lia|]. cbn [mbind list_bind]. unfold quote_rune at 1.
  destruct (r <? 128) eqn:E; bools.
  - pose proof (proj1 (ValidRune_spec r) Hr) as [? _]. rewrite EncodeRune_ascii in * by lia. cbn [app quote_chars].
    rewrite (proj2 (Z.ltb_lt r 128)) by lia. rewrite IH; [done|]. cbn in Hf. lia.
  - destruct (EncodeRune_head r Hr E) as (c & l & Ec & Hc).
    pose proof (DecodeRune_EncodeRune r (runes_text rs) Hr) as Hd. rewrite Ec in *. cbn [app quote_chars] in *.
    rewrite (proj2 (Z.ltb_ge c 128)) by lia. rewrite Hd.
    assert ((r =? RuneError) && (length (c :: l) =? 1)%nat = false) as ->.
    { destruct (r =? RuneError) eqn:Er; [|done]. bools. subst r. by injection Ec as <- <-. }
    assert (drop (length (c :: l)) (c :: l ++ runes_text rs) = runes_text rs) as ->.
    { change (c :: l ++ runes_text rs) with ((c :: l) ++ runes_text rs). apply drop_app_length. }
    assert (take (length (c :: l)) (c :: l ++ runes_text rs) = c :: l) as ->.
    { change (c :: l ++ runes_text rs) with ((c :: l) ++ runes_text rs). apply take_app_length. }
    rewrite IH by (cbn in *; lia). done.
Qed.

Lemma hex_value_hexdigit n : 0 ≤ n < 16 → hex_value (hexdigit n) = Some n.
Proof.
  intros Hn. unfold hexdigit. destruct (n <? 10) eqn:E; bools; unfold hex_value, digit.
  - rewrite within_true by lia. f_equal. lia.
  - rewrite within_false, within_true by lia. f_equal. lia.
Qed.

(** One written rune is read back. *)
Lemma scan_quote_rune r fuel rest :
  ValidRune r = true →
  scan_chars (S fuel) (quote_rune r ++ rest) = '(s, l) ← scan_chars fuel rest; Some (EncodeRune r ++ s, l).
Proof.
  intros Hv. pose proof (proj1 (ValidRune_spec r) Hv) as [Hr0 Hr1]. unfold MaxRune in Hr0.
  unfold quote_rune. destruct (r <? 128) eqn:E; bools.
  - rewrite EncodeRune_ascii by lia. destruct (html_safe r) eqn:Es.
    + unfold html_safe in Es. bools. cbn [app scan_chars].
      rewrite (proj2 (Z.eqb_neq r 34)), (proj2 (Z.eqb_neq r 92)), (proj2 (Z.ltb_ge r 32)),
        (proj2 (Z.ltb_lt r 128)) by lia. done.
    + unfold escape. destruct ((r =? 34) || (r =? 92)) eqn:E1.
      { apply orb_true_iff in E1 as [?|?]; bools; by subst r. }
      destruct (r =? 8) eqn:E2; [bools; by subst r|]. destruct (r =? 12) eqn:E3; [bools; by subst r|].
      destruct (r =? 10) eqn:E4; [bools; by subst r|]. destruct (r =? 13) eqn:E5; [bools; by subst r|].
      destruct (r =? 9) eqn:E6; [bools; by subst r|].
      assert (0 ≤ r / 16 < 16 ∧ 0 ≤ r mod 16 < 16) as [Hd Hm].
      { split; [split; [apply Z.div_pos; lia|apply Z.div_lt_upper_bound; lia]|apply Z.mod_pos_bound; lia]. }
      assert (hex4 (48 :: 48 :: hexdigit (r / 16) :: hexdigit (r mod 16) :: rest) = Some (r, rest)) as H4.
      { cbn [hex4]. rewrite !hex_value_hexdigit by done. cbn. f_equal. f_equal. 
        pose proof (Z.div_mod r 16 ltac:(lia)). lia. }
      change (ascii "\u00") with [92; 117; 48; 48]. cbn [app scan_chars]. cbn [Z.eqb Pos.eqb]. rewrite H4.
      unfold unicode_escape, IsSurrogate. rewrite within_false by lia. by rewrite EncodeRune_ascii by lia.
  - destruct ((r =? 8232) || (r =? 8233)) eqn:E1.
    { apply orb_true_iff in E1 as [?|?]; bools; by subst r. }
    destruct (EncodeRune_head r Hv E) as (c & l & Ec & Hc).
    pose proof (DecodeRune_EncodeRune r rest Hv) as Hd. rewrite Ec in *. cbn [app scan_chars] in *.
    rewrite (proj2 (Z.eqb_neq c 34)), (proj2 (Z.eqb_neq c 92)), (proj2 (Z.ltb_ge c 32)),
      (proj2 (Z.ltb_ge c 128)) by lia. rewrite Hd.
    assert (drop (length (c :: l)) (c :: l ++ rest) = rest) as ->.
    { change (c :: l ++ rest) with ((c :: l) ++ rest). apply drop_app_length. }
    by rewrite Ec.
Qed.

Lemma quote_rune_nonempty r : (0 < length (quote_rune r))%nat.
Proof.
  unfold quote_rune. destruct (r <? 128).
  - destruct (html_safe r); [cbn; lia|]. unfold escape. split_ifs; cbn; lia.
  - destruct (_ || _); [cbn; lia|]. pose proof (EncodeRune_nonempty r). destruct (EncodeRune r); cbn; [done|lia].
Qed.

Lemma scan_quoted rs fuel rest :
  Forall (λ r, ValidRune r = true) rs → (length (rs ≫= quote_rune) < fuel)%nat →
  scan_chars fuel ((rs ≫= quote_rune) ++ 34 :: rest) = Some (runes_text rs, rest).
Proof.
  intros Hv. revert fuel. induction Hv as [|r rs Hr Hrs IH]; intros fuel Hf; cbn [mbind list_bind] in *.
  { destruct fuel as [|fuel]; [cbn in Hf; lia|]. done. }
  fold (mbind quote_rune rs) in *. rewrite length_app in Hf. pose proof (quote_rune_nonempty r).
  destruct fuel as [|fuel]; [lia|]. rewrite <- app_assoc, scan_quote_rune by done.
  rewrite IH by lia. done.
Qed.

(** A quoted string is read back. *)
Lemma scan_string_quote s rest :
  valid_utf8 s → ∃ body, quote s = 34 :: body ∧ scan_string (body ++ rest) = Some (s, rest).
Proof.
  intros (rs & Hv & ->). unfold quote. eexists. split; [reflexivity|]. rewrite quote_chars_runes by done.
  unfold scan_string. rewrite <- app_assoc. cbn [app]. apply scan_quoted; [done|]. rewrite length_app. cbn. lia.
Qed.

(** What a scan returns is well-formed UTF-8 and shorter input. *)
Lemma scan_chars_spec fuel l s rest :
  scan_chars fuel l = Some (s, rest) → valid_utf8 s ∧ (length rest < length l)%nat.
Proof.
  revert l s rest. induction fuel as [|fuel IH]; intros l s rest; [done|]. destruct l as [|c l]; [done|].
  cbn [scan_chars].
  assert (∀ chars l' s rest, (length l' ≤ length l)%nat → (∀ s, valid_utf8 s → valid_utf8 (chars ++ s)) →
    ('(s, l) ← scan_chars fuel l'; Some (chars ++ s, l)) = Some (s, rest) →
    valid_utf8 s ∧ (length rest < length (c :: l))%nat) as Hemit.
  { intros chars l' s' rest' Hl Hc. destruct (scan_chars fuel l') as [[s1 r1]|] eqn:E; cbn; [|done].
    intros [= <- <-]. apply IH in E as [Hv Hlen]. split; [by apply Hc|lia]. }
  destruct (c =? 34) eqn:E1; [intros [= <- <-]; split; [apply valid_utf8_nil|cbn; lia]|].
  destruct (c =? 92) eqn:E2.
  { destruct l as [|e l]; [done|]. destruct (e =? 117) eqn:E3.
    - destruct (hex4 l) as [[rr l']|] eqn:E4; [|done].
      assert (length l' ≤ length l)%nat as Hl.
      { unfold hex4 in E4. destruct l as [|x1 [|x2 [|x3 [|x4 l]]]]; try done.
        destruct (hex_value x1), (hex_value x2), (hex_value x3), (hex_value x4); cbn in E4; try done.
        injection E4 as _ <-. cbn. lia. }
      destruct (unicode_escape rr l') as [r l''] eqn:E5.
      assert (length l'' ≤ length l')%nat as Hl'.
      { unfold unicode_escape in E5. destruct (IsSurrogate rr); [|by injection E5 as _ <-].
        destruct (getu4 l') as [[rr1 l1]|] eqn:E6; [|by injection E5 as _ <-].
        destruct (utf16_DecodeRune rr rr1 =? RuneError); [by injection E5 as _ <-|]. injection E5 as _ <-.
        unfold getu4, hex4 in E6. destruct l' as [|y1 [|y2 [|x1 [|x2 [|x3 [|x4 l']]]]]]; try done;
          destruct ((y1 =? 92) && (y2 =? 117)); try done.
        destruct (hex_value x1), (hex_value x2), (hex_value x3), (hex_value x4); cbn in E6; try done.
        injection E6 as _ <-. cbn. lia. }
      apply Hemit; [cbn; lia|]. intros; by apply valid_utf8_rune.
    - destruct (simple_escape e) as [c'|] eqn:E4; [|done]. apply Hemit; [cbn; lia|].
      intros s' Hs'. apply valid_utf8_ascii; [|done]. unfold simple_escape in E4.
      repeat match type of E4 with context [if ?b then _ else _] => destruct b eqn:? end; try done;
        injection E4 as <-; try lia. }
  destruct (c <? 32) eqn:E3; [done|]. destruct (c <? 128) eqn:E4; bools.
  { apply Hemit; [cbn; lia|]. intros. apply valid_utf8_ascii; [lia|done]. }
  destruct (DecodeRune (c :: l)) as [r n] eqn:Ed. apply Hemit; [|intros; by apply valid_utf8_rune].
  assert (1 ≤ n)%nat.
  { unfold DecodeRune in Ed.
    repeat match type of Ed with context [match ?x with _ => _ end] => destruct x end; injection Ed as _ <-; lia. }
  rewrite length_drop. cbn. lia.
Qed.

Lemma scan_string_spec l s rest :
  scan_string l = Some (s, rest) → valid_utf8 s ∧ (length rest < length l)%nat.
Proof. apply scan_chars_spec. Qed.

(** ** Printed texts are bytes *)

Lemma digits_bytes l ds rest : span_digits l = (ds, rest) → Forall is_byte ds.
Proof.
  intros (_ & Hd & _)%span_digits_spec. eapply Forall_impl; [apply Hd|]. unfold digit, is_byte.
  intros c Hc%within_spec. lia.
Qed.

Lemma some_digits_bytes p l n rest : Forall is_byte p → some_digits p l = Some (n, rest) → Forall is_byte n.
Proof.
  intros Hp. unfold some_digits. destruct (span_digits l) as [ds r] eqn:E. apply digits_bytes in E.
  destruct ds; [done|]. intros [= <- _]. by apply Forall_app.
Qed.

Lemma scan_unsigned_bytes l n rest : scan_unsigned l = Some (n, rest) → Forall is_byte n.
Proof.
  unfold scan_unsigned. destruct (scan_int l) as [[i l1]|] eqn:Ei; cbn; [|done].
  destruct (scan_frac l1) as [[f l2]|] eqn:Ef; cbn; [|done].
  destruct (scan_exp l2) as [[e l3]|] eqn:Ee; cbn; [|done]. intros [= <- _].
  rewrite !Forall_app. split_and!.
  - destruct l as [|c l]; cbn in Ei; [done|]. destruct (c =? 48) eqn:Ec; bools.
    { injection Ei as <- _. subst c. repeat constructor; lia. }
    destruct (digit c) eqn:Ed; [|done]. destruct (span_digits l) as [ds r] eqn:E. injection Ei as <- _.
    apply within_spec in Ed. constructor; [unfold is_byte; lia|by eapply digits_bytes].
  - destruct l1 as [|c l1]; cbn in Ef; [by injection Ef as <- _|]. destruct (c =? 46) eqn:Ec; bools.
    + subst c. eapply some_digits_bytes; [|done]. repeat constructor; lia.
    + by injection Ef as <- _.
  - destruct l2 as [|c l2]; cbn in Ee; [by injection Ee as <- _|].
    destruct ((c =? 101) || (c =? 69)) eqn:Ec; [|by injection Ee as <- _].
    assert (is_byte c) as Hc by (unfold is_byte; apply orb_true_iff in Ec as [?|?]; bools; lia).
    destruct l2 as [|s l2]; [done|]. destruct ((s =? 43) || (s =? 45)) eqn:Es.
    + eapply some_digits_bytes; [|done]. repeat constructor; [apply Hc..| |];
        apply orb_true_iff in Es as [?|?]; bools; lia.
    + eapply some_digits_bytes; [|done]. repeat constructor; apply Hc.
Qed.

Lemma scans_bytes n : n ≠ [] → scans scan_number n → Forall is_byte n.
Proof.
  intros Hne [Hs]. specialize (Hs [] I). rewrite app_nil_r in Hs. destruct n as [|c n]; [done|].
  unfold scan_number in Hs. destruct (c =? 45) eqn:E; [|by eapply scan_unsigned_bytes].
  destruct (scan_unsigned n) as [[m r]|] eqn:Eu; cbn in Hs; [|done]. injection Hs as <- _.
  constructor; [bools; unfold is_byte; lia|by eapply scan_unsigned_bytes].
Qed.

Lemma hexdigit_byte n : 0 ≤ n < 16 → is_byte (hexdigit n).
Proof. intros Hn. unfold hexdigit, is_byte. destruct (n <? 10) eqn:?; bools; lia. Qed.

Lemma quote_rune_bytes r : ValidRune r = true → Forall is_byte (quote_rune r).
Proof.
  intros Hv. unfold quote_rune. destruct (r <? 128) eqn:E; bools.
  - apply ValidRune_spec in Hv as [Hv _].
    assert (0 ≤ r / 16 < 16 ∧ 0 ≤ r mod 16 < 16) as [Hd Hm].
    { split; [split; [apply Z.div_pos; lia|apply Z.div_lt_upper_bound; lia]|apply Z.mod_pos_bound; lia]. }
    destruct (html_safe r); [repeat constructor; lia|]. unfold escape.
    split_ifs; cbn; repeat constructor; try apply hexdigit_byte; unfold is_byte; try lia.
  - destruct (_ || _); [|apply EncodeRune_bytes]. cbn.
    pose proof (Z.mod_pos_bound r 16 ltac:(lia)). repeat constructor; try apply hexdigit_byte; unfold is_byte; lia.
Qed.

Lemma quote_bytes s : valid_utf8 s → Forall is_byte (quote s).
Proof.
  intros (rs & Hv & ->). unfold quote. rewrite quote_chars_runes by done.
  constructor; [unfold is_byte; lia|]. apply Forall_app. split; [|repeat constructor; lia].
  induction Hv as [|r rs Hr _ IH]; [constructor|]. cbn. apply Forall_app. split; [by apply quote_rune_bytes|done].
Qed.
