(* ===== verification/StrictJSON.v ===== *)
(** * Strict and canonical JSON of the connector protocol

    Models the JSON guards of [internal/connectorprotocol/protocol.go]
    ([rejectDuplicateKeys], [validatePayloadJSON], [decodeValue],
    [rejectSecretFields], [canonicalJSON]) on the token reader of file JSON.

    The recursive closures of the source carry fuel.  Running out of it is a result of
    its own, so that termination is a statement about the code: with the fuel the
    entry points pass it never happens (file StrictJSONProofs). *)
From S2P Require Import Prelude Go Strings Protocol Utf8 JSON.

Module StrictJSON.

Definition MaxJSONDepth : Z := 64.

(** The result of a recursive closure. *)
Inductive outcome (A : Type) := Ok (a : A) | Err (e : err) | OutOfFuel.
Arguments Ok {A}.
Arguments Err {A}.
Arguments OutOfFuel {A}.

Definition bind {A B} (r : outcome A) (f : A → outcome B) : outcome B :=
  match r with Ok a => f a | Err e => Err e | OutOfFuel => OutOfFuel end.

Notation "'let!' x ':=' r 'in' k" := (bind r (λ x, k)) (at level 10, x pattern, r at level 100, k at level 200).

Definition EOF : err := EPlain "EOF".
Definition ErrSyntax : err := EPlain "invalid JSON".
Definition ErrNesting : err := EPlain "JSON nesting exceeds limit".
Definition ErrKey : err := EPlain "object key is not a string".
Definition ErrDuplicate : err := EPlain "duplicate object key".
Definition ErrDelim : err := EPlain "unexpected JSON delimiter".
Definition ErrTrailing : err := EPlain "trailing JSON".

(** [decoder.Token()] as a fallible step. *)
Definition next (d : Decoder) : outcome (token * Decoder) :=
  match Token d with
  | GotToken t d => Ok (t, d)
  | TokenEOF => Err EOF
  | TokenError => Err ErrSyntax
  end.

(** ** rejectDuplicateKeys *)

Fixpoint walk (fuel : nat) (depth : Z) (d : Decoder) : outcome Decoder :=
  match fuel with
  | O => OutOfFuel
  | S fuel =>
      if MaxJSONDepth <? depth then Err ErrNesting
      else
        let! (t, d) := next d in
        match t with
        | Delim c => if c =? 123 then walk_members fuel depth [] d
                     else if c =? 91 then walk_elements fuel depth d
                     else Err ErrDelim
        | _ => Ok d
        end
  end
with walk_members (fuel : nat) (depth : Z) (seen : list text) (d : Decoder) : outcome Decoder :=
  match fuel with
  | O => OutOfFuel
  | S fuel =>
      if More d then
        let! (t, d) := next d in
        match t with
        | TString key =>
            if bool_decide (key ∈ seen) then Err ErrDuplicate
            else let! d := walk fuel (depth + 1) d in walk_members fuel depth (key :: seen) d
        | _ => Err ErrKey
        end
      else let! (_, d) := next d in Ok d
  end
with walk_elements (fuel : nat) (depth : Z) (d : Decoder) : outcome Decoder :=
  match fuel with
  | O => OutOfFuel
  | S fuel =>
      if More d then let! d := walk fuel (depth + 1) d in walk_elements fuel depth d
      else let! (_, d) := next d in Ok d
  end.

(** Enough fuel for every input of that length. *)
Definition enough (data : text) : nat := 2 * length data + 2.

Definition rejectDuplicateKeys (data : text) : option err :=
  match walk (enough data) 0 (NewDecoder data) with
  | Ok d => match Token d with TokenEOF => None | _ => Some ErrTrailing end
  | Err e => Some e
  | OutOfFuel => Some (EPlain "out of fuel")
  end.

(** ** decodeValue *)

Fixpoint decodeValue (fuel : nat) (depth : Z) (d : Decoder) : outcome (json * Decoder) :=
  match fuel with
  | O => OutOfFuel
  | S fuel =>
      if MaxJSONDepth <? depth then Err ErrNesting
      else
        let! (t, d) := next d in
        match t with
        | Delim c => if c =? 123 then decode_members fuel depth [] d
                     else if c =? 91 then decode_elements fuel depth [] d
                     else Err ErrDelim
        | TString s => Ok (JString s, d)
        | TNumber n => Ok (JNumber n, d)
        | TBool b => Ok (JBool b, d)
        | TNull => Ok (JNull, d)
        end
  end
with decode_members (fuel : nat) (depth : Z) (object : list (text * json)) (d : Decoder) : outcome (json * Decoder) :=
  match fuel with
  | O => OutOfFuel
  | S fuel =>
      if More d then
        let! (t, d) := next d in
        match t with
        | TString key =>
            let! (child, d) := decodeValue fuel (depth + 1) d in
            decode_members fuel depth (assign key child object) d
        | _ => Err ErrKey
        end
      else let! (_, d) := next d in Ok (JObject object, d)
  end
with decode_elements (fuel : nat) (depth : Z) (values : list json) (d : Decoder) : outcome (json * Decoder) :=
  match fuel with
  | O => OutOfFuel
  | S fuel =>
      if More d then
        let! (child, d) := decodeValue fuel (depth + 1) d in
        decode_elements fuel depth (values ++ [child]) d
      else let! (_, d) := next d in Ok (JArray values, d)
  end.

(** ** Reading one value

    [Decoder.Decode] reads one value before it stores it.  The value is kept as written,
    object members in their order and duplicates included.  Every caller in the source
    has passed the text through [rejectDuplicateKeys] first, so the reader has its
    nesting limit; it is also the reference the guards are compared with. *)

Fixpoint parse (fuel : nat) (depth : Z) (d : Decoder) : outcome (json * Decoder) :=
  match fuel with
  | O => OutOfFuel
  | S fuel =>
      if MaxJSONDepth <? depth then Err ErrNesting
      else
        let! (t, d) := next d in
        match t with
        | Delim c =>
            if c =? 123 then let! (m, d) := parse_members fuel depth d in Ok (JObject m, d)
            else if c =? 91 then let! (l, d) := parse_elements fuel depth d in Ok (JArray l, d)
            else Err ErrDelim
        | TString s => Ok (JString s, d)
        | TNumber n => Ok (JNumber n, d)
        | TBool b => Ok (JBool b, d)
        | TNull => Ok (JNull, d)
        end
  end
with parse_members (fuel : nat) (depth : Z) (d : Decoder) : outcome (list (text * json) * Decoder) :=
  match fuel with
  | O => OutOfFuel
  | S fuel =>
      if More d then
        let! (t, d) := next d in
        match t with
        | TString key =>
            let! (v, d) := parse fuel (depth + 1) d in
            let! (m, d) := parse_members fuel depth d in Ok ((key, v) :: m, d)
        | _ => Err ErrKey
        end
      else let! (_, d) := next d in Ok ([], d)
  end
with parse_elements (fuel : nat) (depth : Z) (d : Decoder) : outcome (list json * Decoder) :=
  match fuel with
  | O => OutOfFuel
  | S fuel =>
      if More d then
        let! (v, d) := parse fuel (depth + 1) d in
        let! (l, d) := parse_elements fuel depth d in Ok (v :: l, d)
      else let! (_, d) := next d in Ok ([], d)
  end.

(** The whole text is one value. *)
Definition parse_text (data : text) : option json :=
  match parse (enough data) 0 (NewDecoder data) with
  | Ok (v, d) => match Token d with TokenEOF => Some v | _ => None end
  | _ => None
  end.

(** ** rejectSecretFields

    Case mapping beyond ASCII and [net/url] are the interface [SecretLib]: what is used
    of a parsed URL is whether it is absolute, whether it has user information and the
    keys of its query. *)
Class SecretLib := {
  secret_lower : string → string;                      (** [strings.ToLower], not ASCII *)
  secret_upper : string → string;                      (** [strings.ToUpper], not ASCII *)
  secret_url : string → option (bool * bool * list string)
}.

Section Secrets.
Context `{SecretLib}.

Definition upper_byte (b : byte) : byte := if is_lower b then byte_of_Z (byte_to_Z b - 32) else b.

Definition ToUpper (s : string) : string :=
  if is_ascii s then bstring (upper_byte <$> sbytes s) else secret_upper s.

(** [strings.NewReplacer("_", "", "-", "", " ", "").Replace(strings.ToLower(key))]. *)
Definition normalized (key : string) : string :=
  bstring (List.filter (λ b, negb (one_of [95; 45; 32] b)) (sbytes (ToLower secret_lower key))).

Definition secret_fields : list string :=
  ["accesstoken"; "apikey"; "authorization"; "clientsecret"; "cookie"; "headers"; "password"; "privatekey";
   "refreshtoken"; "requestbody"; "requestheaders"; "responsebody"; "responseheaders"; "secret"; "sessiontoken";
   "setcookie"; "token"].

Definition secret_parameters : list string :=
  ["accesstoken"; "apikey"; "authorization"; "clientsecret"; "password"; "refreshtoken"; "secret"; "sessiontoken";
   "token"].

(** [strings.Contains]. *)
Fixpoint contains (pat b : bytes) : bool :=
  bool_decide (pat `prefix_of` b) || match b with [] => false | _ :: b => contains pat b end.

Definition secret_string (value : string) : bool :=
  let upper := ToUpper (TrimSpace value) in
  HasPrefix upper "BEARER " || contains (sbytes "BEGIN PRIVATE KEY") (sbytes upper)
  || match secret_url value with
     | Some (true, user, keys) => user || existsb (λ key, mem_str secret_parameters (normalized key)) keys
     | _ => false
     end.

(** [visit]: does it return [ErrInvalidInput]? *)
Fixpoint has_secret (value : json) : bool :=
  match value with
  | JObject m => List.existsb (λ kv, mem_str secret_fields (normalized (of_text kv.1)) || has_secret kv.2) m
  | JArray l => List.existsb has_secret l
  | JString s => secret_string (of_text s)
  | _ => false
  end.

Definition rejectSecretFields (value : json) : option err :=
  if has_secret value then Some ErrInvalidInput else None.

(** ** canonicalJSON *)

Definition tlen (t : text) : Z := Z.of_nat (length t).

Definition canonicalJSON (data : text) (limit : Z) : err + text :=
  if (tlen data =? 0) || (limit <? tlen data) || failed (rejectDuplicateKeys data) then inl ErrInvalidInput
  else match decodeValue (enough data) 0 (NewDecoder data) with
  | Ok (value, d) =>
      match Token d with
      | TokenEOF =>
          match rejectSecretFields value with
          | Some e => inl e
          | None => let encoded := Marshal value in
                    if limit <? tlen encoded then inl ErrInvalidInput else inr encoded
          end
      | _ => inl ErrInvalidInput
      end
  | _ => inl ErrInvalidInput
  end.
End Secrets.

End StrictJSON.
