(* ===== verification/StrictJSONProofs.v ===== *)
(** * The strict JSON guards against a reference reader

    [parse] reads a value from the token stream into a tree whose object members are
    kept as written, duplicates included.  The guards of the source are related to it:
    [rejectDuplicateKeys] accepts exactly the texts it reads whose objects have
    distinct keys, [decodeValue] returns the canonical form of its tree, and none of
    them runs out of fuel.  [canonicalJSON] is then shown to be a canonical form. *)
From Stdlib Require Import Sorting.Sorted.
From S2P Require Import Prelude Go Protocol Utf8 JSON JSONProofs StrictJSON.

Module StrictJSONProofs.
Import StrictJSON.

(** No object of the tree has two members with the same key. *)
Fixpoint distinct_keys (v : json) : Prop :=
  match v with
  | JArray l => List.fold_right (λ v P, distinct_keys v ∧ P) True l
  | JObject m => NoDup (List.map fst m) ∧ List.fold_right (λ kv P, distinct_keys kv.2 ∧ P) True m
  | _ => True
  end.

(** What [decodeValue] makes of a tree: members in key order, the last one of a key. *)
Fixpoint canon (v : json) : json :=
  match v with
  | JArray l => JArray (List.map canon l)
  | JObject m => JObject (List.fold_left (λ object kv, assign kv.1 (canon kv.2) object) m [])
  | v => v
  end.

(** Induction over trees. *)
Lemma json_tree_ind (P : json → Prop) :
  P JNull → (∀ b, P (JBool b)) → (∀ n, P (JNumber n)) → (∀ s, P (JString s)) →
  (∀ l, Forall P l → P (JArray l)) → (∀ m, Forall (λ kv, P kv.2) m → P (JObject m)) → ∀ v, P v.
Proof.
  intros Hn Hb Hnum Hs Ha Ho. fix IH 1. intros [|b|n|s|l|m]; [exact Hn|apply Hb|apply Hnum|apply Hs| |].
  - apply Ha. induction l as [|v l IHl]; constructor; [apply IH|apply IHl].
  - apply Ho. induction m as [|[k v] m IHm]; constructor; [apply IH|apply IHm].
Qed.

Lemma bind_Ok {A B} (r : outcome A) (f : A → outcome B) b : bind r f = Ok b ↔ ∃ a, r = Ok a ∧ f a = Ok b.
Proof. destruct r; cbn; naive_solver. Qed.

Lemma bind_fuel {A B} (r : outcome A) (f : A → outcome B) :
  bind r f = OutOfFuel ↔ r = OutOfFuel ∨ ∃ a, r = Ok a ∧ f a = OutOfFuel.
Proof. destruct r; cbn; naive_solver. Qed.

(** ** Every token consumes input *)

Definition dlen (d : Decoder) : nat := length (d_input d).

Lemma skip_space_len l : (length (skip_space l) ≤ length l)%nat.
Proof. induction l as [|c l IH]; cbn; [done|]. destruct (is_space c); cbn; lia. Qed.

Lemma literal_len w l rest : literal w l = Some rest → (length rest + length w = length l)%nat.
Proof.
  revert l. induction w as [|x w IH]; intros l; [destruct l; cbn; naive_solver|].
  destruct l as [|c l]; cbn; [done|]. destruct (x =? c); [|done]. intros ?%IH. lia.
Qed.

Lemma scan_scalar_len l t rest : scan_scalar l = Some (t, rest) → (length rest < length l)%nat.
Proof.
  destruct l as [|c l]; cbn [scan_scalar]; [done|]. destruct (c =? 34).
  { destruct (scan_string l) as [[s r]|] eqn:E; cbn; [|done]. intros [= _ <-].
    apply scan_string_spec in E as [_ ?]. lia. }
  destruct ((c =? 45) || digit c).
  { destruct (scan_number (c :: l)) as [[n r]|] eqn:E; cbn; [|done]. intros [= _ <-].
    apply scan_number_spec in E as (El & Hne & _). apply (f_equal length) in El. rewrite length_app in El.
    destruct n; cbn in *; [done|lia]. }
  destruct (c =? 116); [|destruct (c =? 102); [|destruct (c =? 110); [|done]]];
    match goal with |- context [literal ?w ?l] => destruct (literal w l) as [r|] eqn:E end; cbn; try done;
    intros [= _ <-]; apply literal_len in E; cbn in E; lia.
Qed.

Lemma token_round_len d :
  match token_round d with
  | inl (GotToken _ d') | inr d' => (dlen d' < dlen d)%nat
  | _ => True
  end.
Proof.
  unfold token_round, dlen, close_delim. pose proof (skip_space_len (d_input d)) as Hs.
  destruct (skip_space (d_input d)) as [|c rest]; [done|]. cbn [length] in Hs.
  repeat match goal with
  | |- context [match scan_string ?x with _ => _ end] => destruct (scan_string x) as [[??]|] eqn:?
  | |- context [match scan_scalar ?x with _ => _ end] => destruct (scan_scalar x) as [[??]|] eqn:?
  | |- context [if ?b then _ else _] => destruct b
  | |- context [match d_state d with _ => _ end] => destruct (d_state d)
  | |- context [match d_stack d with _ => _ end] => destruct (d_stack d)
  end; cbn [d_input]; try done; try lia.
  all: first [ match goal with H : scan_string _ = _ |- _ => apply scan_string_spec in H as [_ ?] end; lia
             | match goal with H : scan_scalar _ = _ |- _ => apply scan_scalar_len in H end; cbn in *; lia ].
Qed.

Lemma next_len d t d' : next d = Ok (t, d') → (dlen d' < dlen d)%nat.
Proof.
  unfold next, Token. pose proof (token_round_len d) as H1. destruct (token_round d) as [r|d1].
  - destruct r; try done. by intros [= <- <-].
  - pose proof (token_round_len d1) as H2. destruct (token_round d1) as [[]|]; try done. intros [= <- <-]. lia.
Qed.

Lemma parse_len fuel :
  (∀ depth d v d', parse fuel depth d = Ok (v, d') → (dlen d' < dlen d)%nat)
  ∧ (∀ depth d v d', parse_members fuel depth d = Ok (v, d') → (dlen d' < dlen d)%nat)
  ∧ (∀ depth d v d', parse_elements fuel depth d = Ok (v, d') → (dlen d' < dlen d)%nat).
Proof.
  induction fuel as [|fuel (IH1 & IH2 & IH3)]; [done|]. split_and!; intros depth d v d'; cbn.
  - destruct (_ <? _); [done|]. intros ([t d1] & Hn%next_len & Ht)%bind_Ok. destruct t; try naive_solver.
    destruct (c =? 123); [|destruct (c =? 91); [|done]]; apply bind_Ok in Ht as ([? d2] & Hm & [= _ <-]).
    + apply IH2 in Hm. lia.
    + apply IH3 in Hm. lia.
  - destruct (More d).
    + intros ([t d1] & Hn%next_len & Ht)%bind_Ok. destruct t; try done.
      apply bind_Ok in Ht as ([? d2] & Hv%IH1 & Ht). apply bind_Ok in Ht as ([? d3] & Hm%IH2 & [= _ <-]). lia.
    + intros ([t d1] & Hn%next_len & [= _ <-])%bind_Ok. done.
  - destruct (More d).
    + intros ([? d2] & Hv%IH1 & Ht)%bind_Ok. apply bind_Ok in Ht as ([? d3] & Hm%IH3 & [= _ <-]). lia.
    + intros ([t d1] & Hn%next_len & [= _ <-])%bind_Ok. done.
Qed.

Lemma next_fuel d : next d ≠ OutOfFuel.
Proof. unfold next. by destruct (Token d). Qed.

(** Fuel proportional to the input is enough. *)
Lemma parse_fuel fuel :
  (∀ depth d, (2 * dlen d + 1 ≤ fuel)%nat → parse fuel depth d ≠ OutOfFuel)
  ∧ (∀ depth d, (2 * dlen d + 2 ≤ fuel)%nat → parse_members fuel depth d ≠ OutOfFuel)
  ∧ (∀ depth d, (2 * dlen d + 2 ≤ fuel)%nat → parse_elements fuel depth d ≠ OutOfFuel).
Proof.
  induction fuel as [|fuel (IH1 & IH2 & IH3)]; [split_and!; intros; lia|].
  split_and!; intros depth d Hf; cbn.
  - destruct (_ <? _); [done|]. intros [?%next_fuel|([t d1] & Hn%next_len & Ht)]%bind_fuel; [done|].
    destruct t; try done. destruct (c =? 123); [|destruct (c =? 91); [|done]];
      apply bind_fuel in Ht as [Hm|([? ?] & _ & ?)]; try done; [by apply IH2 in Hm; [|lia]|by apply IH3 in Hm; [|lia]].
  - destruct (More d).
    + intros [?%next_fuel|([t d1] & Hn%next_len & Ht)]%bind_fuel; [done|]. destruct t; try done.
      apply bind_fuel in Ht as [Hv|([v d2] & Hv & Ht)]; [by apply IH1 in Hv; [|lia]|].
      apply (proj1 (parse_len _)) in Hv.
      apply bind_fuel in Ht as [Hm|([? ?] & _ & ?)]; [by apply IH2 in Hm; [|lia]|done].
    + intros [?%next_fuel|([t d1] & _ & ?)]%bind_fuel; done.
  - destruct (More d).
    + intros [Hv|([v d2] & Hv & Ht)]%bind_fuel; [by apply IH1 in Hv; [|lia]|].
      apply (proj1 (parse_len _)) in Hv.
      apply bind_fuel in Ht as [Hm|([? ?] & _ & ?)]; [by apply IH3 in Hm; [|lia]|done].
    + intros [?%next_fuel|([t d1] & _ & ?)]%bind_fuel; done.
Qed.

Lemma parse_enough data depth : parse (enough data) depth (NewDecoder data) ≠ OutOfFuel.
Proof. apply parse_fuel. unfold enough, dlen, NewDecoder. cbn. lia. Qed.

(** More fuel does not change a result. *)
Lemma bind_ext {A B} (r r' : outcome A) (f f' : A → outcome B) :
  (r ≠ OutOfFuel → r' = r) → (∀ a, r = Ok a → f a ≠ OutOfFuel → f' a = f a) →
  bind r f ≠ OutOfFuel → bind r' f' = bind r f.
Proof. destruct r; cbn; intros H1 H2 H3; [rewrite H1 by done|rewrite H1 by done|done]; cbn; auto. Qed.

Lemma parse_mono fuel fuel' :
  (fuel ≤ fuel')%nat →
  (∀ depth d, parse fuel depth d ≠ OutOfFuel → parse fuel' depth d = parse fuel depth d)
  ∧ (∀ depth d, parse_members fuel depth d ≠ OutOfFuel → parse_members fuel' depth d = parse_members fuel depth d)
  ∧ (∀ depth d, parse_elements fuel depth d ≠ OutOfFuel → parse_elements fuel' depth d = parse_elements fuel depth d).
Proof.
  revert fuel'. induction fuel as [|fuel IH]; intros fuel' Hle; [done|].
  destruct fuel' as [|fuel']; [lia|]. destruct (IH fuel' ltac:(lia)) as (IH1 & IH2 & IH3).
  split_and!; intros depth d; cbn.
  - destruct (_ <? _); [done|]. apply bind_ext; [done|]. intros [t d1] _. destruct t; try done.
    destruct (c =? 123); [|destruct (c =? 91); [|done]]; apply bind_ext; auto.
  - destruct (More d); [|done]. apply bind_ext; [done|]. intros [t d1] _. destruct t; try done.
    apply bind_ext; auto. intros [? ?] _. apply bind_ext; auto.
  - destruct (More d); [|done]. apply bind_ext; auto. intros [? ?] _. apply bind_ext; auto.
Qed.

Lemma parse_any_fuel fuel data depth x :
  parse fuel depth (NewDecoder data) = Ok x → parse (enough data) depth (NewDecoder data) = Ok x.
Proof.
  intros E. destruct (parse_mono fuel (max fuel (enough data)) ltac:(lia)) as [H1 _].
  destruct (parse_mono (enough data) (max fuel (enough data)) ltac:(lia)) as [H2 _].
  rewrite <- E, <- H1 by (by rewrite E). symmetry. apply H2, parse_enough.
Qed.

(** ** rejectDuplicateKeys *)

(** A guard agrees with the reader up to a check of what was read. *)
Definition agrees {A} (check : A → Prop) (w : outcome Decoder) (p : outcome (A * Decoder)) : Prop :=
  (∀ d', w = Ok d' ↔ ∃ v, p = Ok (v, d') ∧ check v) ∧ (w = OutOfFuel → p = OutOfFuel).

Lemma agrees_err {A} (check : A → Prop) e e' : agrees check (Err e) (Err e').
Proof. split; [|done]. intros d'. split; [done|]. by intros (? & ? & _). Qed.

Lemma agrees_fuel {A} (check : A → Prop) : agrees check OutOfFuel OutOfFuel.
Proof. split; [|done]. intros d'. split; [done|]. by intros (? & ? & _). Qed.

Lemma agrees_ok {A} (check : A → Prop) v d : check v → agrees check (Ok d) (Ok (v, d)).
Proof. intros H. split; [|done]. intros d'. split; [intros [= <-]; eauto|]. by intros (? & [= <- <-] & _). Qed.

Lemma agrees_map {A B} (f : A → B) (check : A → Prop) (check' : B → Prop) w p :
  (∀ v, check v ↔ check' (f v)) → agrees check w p →
  agrees check' w (let! (v, d) := p in Ok (f v, d)).
Proof.
  intros Hc [H1 H2]. split; [|intros ?%H2; subst p; done]. intros d'. rewrite H1. split.
  - intros (v & -> & Hv). exists (f v). split; [done|]. by apply Hc.
  - intros (b & ([v d2] & -> & [= <- <-])%bind_Ok & Hb). exists v. split; [done|]. by apply Hc.
Qed.

Lemma agrees_bind {A B C} (check : A → Prop) (check1 : B → Prop) (check2 : C → Prop) (f : A → B → C)
    w (p : outcome (A * Decoder)) wk pk :
  (∀ a b, check2 (f a b) ↔ check a ∧ check1 b) → agrees check w p → (∀ d, agrees check1 (wk d) (pk d)) →
  agrees check2 (bind w wk) (let! (a, d) := p in let! (b, d) := pk d in Ok (f a b, d)).
Proof.
  intros Hc [H1 H2] Hk. split.
  - intros d'. rewrite !bind_Ok. split.
    + intros (d & (a & -> & Ha)%H1 & (b & Eb & Hb)%Hk). exists (f a b). cbn. rewrite Eb. cbn.
      split; [done|]. by apply Hc.
    + intros (c & ([a d] & -> & ([b d2] & Eb & [= <- <-])%bind_Ok)%bind_Ok & [Ha Hb]%Hc).
      exists d. split; [apply H1; eauto|]. apply Hk. eauto.
  - intros [->%H2|(d & (a & -> & Ha)%H1 & Hf)]%bind_fuel; [done|]. cbn. apply Hk in Hf. by rewrite Hf.
Qed.

Lemma distinct_seen key (v : json) m seen :
  key ∉ seen →
  (distinct_keys (JObject ((key, v) :: m)) ∧ Forall (λ k, k ∉ seen) (List.map fst ((key, v) :: m)))
  ↔ distinct_keys v ∧ distinct_keys (JObject m) ∧ Forall (λ k, k ∉ key :: seen) (List.map fst m).
Proof.
  intros Hk. cbn. rewrite NoDup_cons, Forall_cons. setoid_rewrite not_elem_of_cons.
  rewrite !Forall_forall. split.
  - intros (((Hn & Hnd) & Hv & Hm) & _ & Hf). split_and!; [done..|]. intros k Hin. split; [|by apply Hf].
    intros ->. done.
  - intros (Hv & (Hnd & Hm) & Hf). split_and!; [|done..|]; [intros Hin; by destruct (Hf key Hin)|].
    intros k Hin. by apply Hf.
Qed.

Lemma walk_parse fuel :
  (∀ depth d, agrees distinct_keys (walk fuel depth d) (parse fuel depth d))
  ∧ (∀ depth seen d, agrees (λ m, distinct_keys (JObject m) ∧ Forall (λ k, k ∉ seen) (List.map fst m))
                       (walk_members fuel depth seen d) (parse_members fuel depth d))
  ∧ (∀ depth d, agrees (λ l, distinct_keys (JArray l)) (walk_elements fuel depth d) (parse_elements fuel depth d)).
Proof.
  induction fuel as [|fuel (IH1 & IH2 & IH3)]; [by split_and!; intros; apply agrees_fuel|].
  split_and!; [intros depth d|intros depth seen d|intros depth d]; cbn [walk walk_members walk_elements parse parse_members parse_elements].
  - destruct (_ <? _); [apply agrees_err|].
    destruct (next d) as [[t d1]|e|]; cbn [bind]; [|apply agrees_err|apply agrees_fuel].
    destruct t; try by apply agrees_ok. destruct (c =? 123); [|destruct (c =? 91); [|apply agrees_err]].
    + eapply (agrees_map JObject); [|apply IH2]. intros m. split; [by intros [? _]|]. intros ?. split; [done|].
      apply Forall_forall. intros ? _. apply not_elem_of_nil.
    + by eapply (agrees_map JArray); [|apply IH3].
  - destruct (More d).
    2: { destruct (next d) as [[t d1]|e|]; cbn [bind]; [|apply agrees_err|apply agrees_fuel].
         apply agrees_ok. split; [split; [constructor|done]|constructor]. }
    destruct (next d) as [[t d1]|e|]; cbn [bind]; [|apply agrees_err|apply agrees_fuel].
    destruct t as [|key| | |]; [apply agrees_err| |apply agrees_err..]. case_bool_decide as Hk.
    { split; [|done]. intros d'. split; [done|].
      intros (m & ([v d2] & _ & ([m' d3] & _ & [= <- <-])%bind_Ok)%bind_Ok & _ & Hf).
      by inversion_clear Hf as [|? ? Hf1]. }
    eapply (agrees_bind _ _ _ (λ v m, (key, v) :: m)); [|apply IH1|intros; apply IH2].
    intros v m. by apply distinct_seen.
  - destruct (More d).
    2: { destruct (next d) as [[t d1]|e|]; cbn [bind]; [|apply agrees_err|apply agrees_fuel]. by apply agrees_ok. }
    by eapply (agrees_bind _ _ _ cons); [|apply IH1|intros; apply IH3].
Qed.

Lemma rejectDuplicateKeys_spec data :
  rejectDuplicateKeys data = None ↔ ∃ v, parse_text data = Some v ∧ distinct_keys v.
Proof.
  unfold rejectDuplicateKeys, parse_text.
  destruct (proj1 (walk_parse (enough data)) 0 (NewDecoder data)) as [H1 H2].
  destruct (walk _ _ _) as [d|e|] eqn:Ew.
  - destruct (proj1 (H1 d) eq_refl) as (v & -> & Hv). destruct (Token d); naive_solver.
  - split; [done|]. intros (v & E & Hv). destruct (parse _ _ _) as [[v' d']| |] eqn:Ep; try done.
    assert (v' = v) as -> by (destruct (Token d'); congruence). assert (Err (A := Decoder) e = Ok d') by (apply H1; eauto). done.
  - by destruct (parse_enough data 0 (H2 eq_refl)).
Qed.

(** Duplicate detection is exact: the guard accepts a text if and only if the text is
    one JSON value of at most the permitted nesting, with nothing after it, in which no
    object has two members of the same name. *)
Theorem rejectDuplicateKeys_exact data :
  rejectDuplicateKeys data = None ↔ ∃ v, parse_text data = Some v ∧ distinct_keys v.
Proof. apply rejectDuplicateKeys_spec. Qed.

(** ** decodeValue *)

Definition canon_members (m object : list (text * json)) : list (text * json) :=
  List.fold_left (λ object kv, assign kv.1 (canon kv.2) object) m object.

Lemma decode_parse fuel :
  (∀ depth d, decodeValue fuel depth d = let! (v, d) := parse fuel depth d in Ok (canon v, d))
  ∧ (∀ depth object d, decode_members fuel depth object d
       = let! (m, d) := parse_members fuel depth d in Ok (JObject (canon_members m object), d))
  ∧ (∀ depth values d, decode_elements fuel depth values d
       = let! (l, d) := parse_elements fuel depth d in Ok (JArray (values ++ List.map canon l), d)).
Proof.
  induction fuel as [|fuel (IH1 & IH2 & IH3)]; [done|]. split_and!; intros depth; cbn.
  - intros d. destruct (_ <? _); [done|]. destruct (next d) as [[t d1]|e|]; cbn; [|done..].
    destruct t; cbn; try done. destruct (c =? 123); [|destruct (c =? 91); [|done]].
    + rewrite IH2. by destruct (parse_members fuel depth d1) as [[??]| |].
    + rewrite IH3. by destruct (parse_elements fuel depth d1) as [[??]| |].
  - intros object d. destruct (More d).
    + destruct (next d) as [[t d1]|e|]; cbn; [|done..]. destruct t; cbn; try done.
      rewrite IH1. destruct (parse fuel _ d1) as [[v d2]| |]; cbn; try done. rewrite IH2.
      by destruct (parse_members fuel depth d2) as [[??]| |].
    + destruct (next d) as [[t d1]|e|]; done.
  - intros values d. destruct (More d).
    + rewrite IH1. destruct (parse fuel _ d) as [[v d2]| |]; cbn; try done. rewrite IH3.
      destruct (parse_elements fuel depth d2) as [[??]| |]; cbn; try done. by rewrite <- app_assoc.
    + destruct (next d) as [[t d1]|e|]; cbn; try done. by rewrite app_nil_r.
Qed.

(** The guards terminate on every input: the fuel they are started with, linear in the
    size of the text, is never used up. *)
Theorem strict_json_terminates data depth :
  walk (enough data) depth (NewDecoder data) ≠ OutOfFuel
  ∧ decodeValue (enough data) depth (NewDecoder data) ≠ OutOfFuel.
Proof.
  split.
  - intros Hw. apply (proj1 (walk_parse _)) in Hw. by eapply parse_enough.
  - rewrite (proj1 (decode_parse _)). pose proof (parse_enough data depth).
    by destruct (parse _ _ _) as [[??]| |].
Qed.

(** ** Well-formed values *)

(** Scalars as the decoder returns them, and members in strictly ascending key order. *)
Definition scalar_ok (v : json) : Prop :=
  match v with
  | JNumber n => n ≠ [] ∧ scans scan_number n
  | JString s => valid_utf8 s
  | _ => True
  end.

Fixpoint scalars_ok (v : json) : Prop :=
  match v with
  | JArray l => List.fold_right (λ v P, scalars_ok v ∧ P) True l
  | JObject m => List.fold_right (λ kv P, (valid_utf8 kv.1 ∧ scalars_ok kv.2) ∧ P) True m
  | v => scalar_ok v
  end.

Fixpoint nested (v : json) : Z :=
  match v with
  | JArray l => List.fold_right (λ v h, Z.max (nested v + 1) h) 0 l
  | JObject m => List.fold_right (λ kv h, Z.max (nested kv.2 + 1) h) 0 m
  | _ => 0
  end.

Lemma text_compare_eq a b : text_compare a b = Eq ↔ a = b.
Proof.
  revert b. induction a as [|x a IH]; intros [|y b]; cbn; try done.
  destruct (x ?= y) eqn:E; [apply Z.compare_eq in E as ->; rewrite IH; naive_solver|..]; (split; [done|]);
    intros [= -> ->]; by rewrite Z.compare_refl in E.
Qed.

Lemma text_compare_antisym a b : text_compare b a = CompOpp (text_compare a b).
Proof.
  revert b. induction a as [|x a IH]; intros [|y b]; cbn; try done.
  rewrite (Z.compare_antisym x y). by destruct (x ?= y); cbn.
Qed.

Lemma text_compare_trans a b c : text_compare a b = Lt → text_compare b c = Lt → text_compare a c = Lt.
Proof.
  revert b c. induction a as [|x a IH]; intros [|y b] [|z c]; cbn; try done.
  destruct (Z.compare_spec x y), (Z.compare_spec y z), (Z.compare_spec x z); subst; try done; try lia. apply IH.
Qed.

(** Strictly ascending keys. *)
Definition ascending (m : list (text * json)) : Prop :=
  StronglySorted (λ a b, text_compare a.1 b.1 = Lt) m.

Lemma assign_in key child m kv :
  kv ∈ assign key child m → kv = (key, child) ∨ kv ∈ m.
Proof.
  induction m as [|[k v] m IH]; cbn; [rewrite list_elem_of_singleton; auto|].
  destruct (text_compare key k); rewrite !elem_of_cons; naive_solver.
Qed.

Lemma assign_ascending key child m : ascending m → ascending (assign key child m).
Proof.
  unfold ascending. induction 1 as [|[k v] m Hs IH Hf]; cbn; [repeat constructor|].
  destruct (text_compare key k) eqn:E.
  - apply text_compare_eq in E as ->. by constructor.
  - constructor; [by constructor|]. constructor; [done|]. eapply Forall_impl; [apply Hf|].
    intros [k' v'] Hlt. cbn in *. by eapply text_compare_trans.
  - constructor; [done|]. apply Forall_forall. intros kv [->|Hin]%assign_in.
    + cbn. by rewrite text_compare_antisym, E.
    + rewrite Forall_forall in Hf. by apply Hf.
Qed.

(** Appending the greatest key. *)
Lemma assign_last key child m :
  Forall (λ kv, text_compare kv.1 key = Lt) m → assign key child m = m ++ [(key, child)].
Proof.
  induction 1 as [|[k v] m Hk _ IH]; cbn; [done|]. cbn in Hk. rewrite text_compare_antisym, Hk. cbn. by rewrite IH.
Qed.

Lemma fold_and {A} (P : A → Prop) l : List.fold_right (λ x Q, P x ∧ Q) True l ↔ Forall P l.
Proof. induction l as [|x l IH]; cbn; [by split; [constructor|]|]. rewrite IH, Forall_cons. done. Qed.

(** Every object of the value has its members in strictly ascending key order. *)
Fixpoint canonical (v : json) : Prop :=
  match v with
  | JArray l => List.fold_right (λ v P, canonical v ∧ P) True l
  | JObject m => ascending m ∧ List.fold_right (λ kv P, canonical kv.2 ∧ P) True m
  | _ => True
  end.

Lemma canon_members_in m object kv :
  kv ∈ canon_members m object → kv ∈ object ∨ ∃ kv', kv' ∈ m ∧ kv = (kv'.1, canon kv'.2).
Proof.
  revert object. induction m as [|kv0 m IH]; intros object; cbn; [auto|].
  intros [[->|?]%assign_in|(kv' & ? & ->)]%IH; [right; exists kv0; split; [left|done]|auto|].
  right. exists kv'. split; [by right|done].
Qed.

Lemma canon_members_ascending m object : ascending object → ascending (canon_members m object).
Proof. revert object. induction m as [|kv m IH]; intros object Ho; cbn; [done|]. apply IH, assign_ascending, Ho. Qed.

(** A property of trees that [canon] keeps member by member. *)
Lemma canon_members_Forall (P : text * json → Prop) m :
  Forall (λ kv, P (kv.1, canon kv.2)) m → Forall P (canon_members m []).
Proof.
  rewrite !Forall_forall. intros Hm kv [?%elem_of_nil|(kv' & Hin & ->)]%canon_members_in; [done|]. by apply Hm.
Qed.

Lemma canon_canonical v : canonical (canon v).
Proof.
  induction v as [| | | |l IH|m IH] using json_tree_ind; cbn; try done.
  - apply fold_and, Forall_map, IH.
  - split; [apply canon_members_ascending; constructor|]. apply (fold_and (λ kv, canonical kv.2)).
    by apply (canon_members_Forall (λ kv, canonical kv.2)).
Qed.

Lemma canon_scalars v : scalars_ok v → scalars_ok (canon v).
Proof.
  induction v as [| | | |l IH|m IH] using json_tree_ind; cbn; try done.
  - rewrite !fold_and, Forall_map. intros H. eapply Forall_impl; [apply Forall_and; split; [apply IH|apply H]|]. naive_solver.
  - rewrite !(fold_and (λ kv : text * json, valid_utf8 kv.1 ∧ scalars_ok kv.2)). intros H.
    apply (canon_members_Forall (λ kv, valid_utf8 kv.1 ∧ scalars_ok kv.2)).
    eapply Forall_impl; [apply Forall_and; split; [apply IH|apply H]|]. cbn. naive_solver.
Qed.

Lemma fold_max {A} (f : A → Z) l b :
  0 ≤ b → (List.fold_right (λ x h, Z.max (f x + 1) h) 0 l ≤ b ↔ Forall (λ x, f x + 1 ≤ b) l).
Proof. intros Hb. induction l as [|x l IH]; cbn; [by split; [constructor|]|]. rewrite Forall_cons, <- IH. lia. Qed.

Lemma fold_max_nonneg {A} (f : A → Z) l : 0 ≤ List.fold_right (λ x h, Z.max (f x + 1) h) 0 l.
Proof. induction l; cbn; lia. Qed.

Lemma nested_nonneg v : 0 ≤ nested v.
Proof. destruct v; cbn; try lia; apply (fold_max_nonneg _ _). Qed.

Lemma canon_nested v : nested (canon v) ≤ nested v.
Proof.
  induction v as [| | | |l IH|m IH] using json_tree_ind; cbn; try lia.
  - apply fold_max; [apply (fold_max_nonneg nested)|]. apply Forall_map.
    pose proof (proj1 (fold_max nested l _ (fold_max_nonneg nested l)) ltac:(reflexivity)) as H.
    eapply Forall_impl; [apply Forall_and; split; [apply IH|apply H]|]. cbn. intros ? [? ?]. lia.
  - set (f := λ kv : text * json, nested kv.2).
    apply (fold_max f); [apply (fold_max_nonneg f)|]. apply (canon_members_Forall (λ kv, f kv + 1 ≤ _)).
    pose proof (proj1 (fold_max f m _ (fold_max_nonneg f m)) ltac:(reflexivity)) as H.
    eapply Forall_impl; [apply Forall_and; split; [apply IH|apply H]|]. unfold f. cbn. intros ? [? ?]. lia.
Qed.

Lemma canon_members_id m object :
  ascending (object ++ m) → Forall (λ kv, canon kv.2 = kv.2) m → canon_members m object = object ++ m.
Proof.
  revert object. induction m as [|[k v] m IH]; intros object Ha Hf; cbn; [by rewrite app_nil_r|].
  inversion_clear Hf as [|? ? Hv Hm]. cbn in Hv. rewrite Hv, assign_last.
  - rewrite IH, <- app_assoc; [done| |done]. by rewrite <- app_assoc.
  - clear IH Hm Hv. unfold ascending in Ha. induction object as [|kv object IHo]; [constructor|].
    inversion_clear Ha as [|? ? Ha1 Ha2]. constructor; [|by apply IHo].
    rewrite Forall_forall in Ha2. apply (Ha2 (k, v)). apply elem_of_app. right. left.
Qed.

(** [canon] changes nothing in a canonical value. *)
Lemma canon_id v : canonical v → canon v = v.
Proof.
  induction v as [| | | |l IH|m IH] using json_tree_ind; cbn; try done.
  - rewrite fold_and. intros H. f_equal.
    assert (Forall (λ v, canon v = v) l) as Hl.
    { eapply Forall_impl; [apply Forall_and; split; [apply IH|apply H]|]. naive_solver. }
    clear -Hl. induction Hl as [|? ? E _ IH]; cbn; [done|]. by rewrite E, IH.
  - rewrite (fold_and (λ kv : text * json, canonical kv.2)). intros [Ha H]. f_equal.
    apply (canon_members_id m []); [done|]. eapply Forall_impl; [apply Forall_and; split; [apply IH|apply H]|]. naive_solver.
Qed.

Lemma ascending_NoDup m : ascending m → NoDup (List.map fst m).
Proof.
  induction 1 as [|[k v] m Hs IH Hf]; cbn; [constructor|]. constructor; [|done].
  intros Hin. apply (list_elem_of_fmap_1 fst m) in Hin as ([k' v'] & E & Hin). cbn in E. subst k'.
  rewrite Forall_forall in Hf. specialize (Hf _ Hin). cbn in Hf.
  by rewrite (proj2 (text_compare_eq k k) eq_refl) in Hf.
Qed.

Lemma canonical_distinct v : canonical v → distinct_keys v.
Proof.
  induction v as [| | | |l IH|m IH] using json_tree_ind; cbn; try done.
  - rewrite !fold_and. intros H. eapply Forall_impl; [apply Forall_and; split; [apply IH|apply H]|]. naive_solver.
  - rewrite (fold_and (λ kv : text * json, canonical kv.2)), (fold_and (λ kv : text * json, distinct_keys kv.2)).
    intros [Ha H]. split; [by apply ascending_NoDup|].
    eapply Forall_impl; [apply Forall_and; split; [apply IH|apply H]|]. naive_solver.
Qed.

End StrictJSONProofs.
