(* ===== verification/CanonicalJSON.v ===== *)
(** * canonicalJSON is a canonical form

    The reader of file StrictJSONProofs reads back what [Marshal] writes.  Hence the
    canonical form of an accepted payload is accepted, is its own canonical form, and
    determines the value of the payload. *)
From S2P Require Import Prelude Go Protocol Messages Utf8 JSON JSONProofs StrictJSON StrictJSONProofs.

Module CanonicalJSON.
Import StrictJSON StrictJSONProofs.

(** ** What the reader returns is well formed *)

Lemma scan_scalar_ok l t rest :
  scan_scalar l = Some (t, rest) →
  match t with
  | TString s => valid_utf8 s
  | TNumber n => n ≠ [] ∧ scans scan_number n
  | Delim _ => False
  | _ => True
  end.
Proof.
  destruct l as [|c l]; cbn [scan_scalar]; [done|]. destruct (c =? 34).
  { destruct (scan_string l) as [[s r]|] eqn:E; cbn; [|done]. intros [= <- _]. by apply scan_string_spec in E as [? _]. }
  destruct ((c =? 45) || digit c).
  { destruct (scan_number (c :: l)) as [[n r]|] eqn:E; cbn; [|done]. intros [= <- _].
    by apply scan_number_spec in E as (_ & ? & ?). }
  destruct (c =? 116); [|destruct (c =? 102); [|destruct (c =? 110); [|done]]];
    match goal with |- context [literal ?w ?l] => destruct (literal w l) end; cbn; try done; by intros [= <- _].
Qed.

Definition token_ok (t : token) : Prop :=
  match t with
  | TString s => valid_utf8 s
  | TNumber n => n ≠ [] ∧ scans scan_number n
  | _ => True
  end.

Lemma token_round_ok d : match token_round d with inl (GotToken t _) => token_ok t | _ => True end.
Proof.
  unfold token_round, close_delim. destruct (skip_space (d_input d)) as [|c rest]; [done|].
  repeat match goal with
  | |- context [match scan_string ?x with _ => _ end] => destruct (scan_string x) as [[??]|] eqn:?
  | |- context [match scan_scalar ?x with _ => _ end] => destruct (scan_scalar x) as [[??]|] eqn:?
  | |- context [if ?b then _ else _] => destruct b
  | |- context [match d_state d with _ => _ end] => destruct (d_state d)
  | |- context [match d_stack d with _ => _ end] => destruct (d_stack d)
  end; try done.
  all: first [ match goal with H : scan_string _ = _ |- _ => apply scan_string_spec in H as [? _] end; done
             | match goal with H : scan_scalar _ = Some (?t, _) |- _ => apply scan_scalar_ok in H; by destruct t end ].
Qed.

Lemma next_ok d t d' : next d = Ok (t, d') → token_ok t.
Proof.
  unfold next, Token. pose proof (token_round_ok d) as H1. destruct (token_round d) as [r|d1].
  - destruct r; try done. by intros [= <- <-].
  - pose proof (token_round_ok d1) as H2. destruct (token_round d1) as [[]|]; try done. by intros [= <- <-].
Qed.

Lemma parse_ok fuel :
  (∀ depth d v d', parse fuel depth d = Ok (v, d') → scalars_ok v ∧ depth + nested v ≤ MaxJSONDepth)
  ∧ (∀ depth d m d', depth ≤ MaxJSONDepth → parse_members fuel depth d = Ok (m, d') →
       scalars_ok (JObject m) ∧ depth + nested (JObject m) ≤ MaxJSONDepth)
  ∧ (∀ depth d l d', depth ≤ MaxJSONDepth → parse_elements fuel depth d = Ok (l, d') →
       scalars_ok (JArray l) ∧ depth + nested (JArray l) ≤ MaxJSONDepth).
Proof.
  induction fuel as [|fuel (IH1 & IH2 & IH3)]; [done|]. split_and!.
  - intros depth d v d'. cbn [parse]. destruct (_ <? _) eqn:Ed; [done|]. bools.
    intros ([t d1] & Hn%next_ok & Ht)%bind_Ok. destruct t; try (injection Ht as <- <-; cbn in *; split; [done|lia]).
    destruct (c =? 123); [|destruct (c =? 91); [|done]]; apply bind_Ok in Ht as ([x d2] & Hm & [= <- _]).
    + by eapply IH2.
    + by eapply IH3.
  - intros depth d m d' Hd. cbn [parse_members]. destruct (More d).
    2: { intros ([t d1] & _ & [= <- _])%bind_Ok. cbn. split; [done|lia]. }
    intros ([t d1] & Hn%next_ok & Ht)%bind_Ok. destruct t as [|key| | |]; try done.
    apply bind_Ok in Ht as ([v d2] & [Hv1 Hv2]%IH1 & ([m' d3] & [Hm1 Hm2]%IH2 & [= <- _])%bind_Ok); [|done].
    cbn in *. split; [done|lia].
  - intros depth d l d' Hd. cbn [parse_elements]. destruct (More d).
    2: { intros ([t d1] & _ & [= <- _])%bind_Ok. cbn. split; [done|lia]. }
    intros ([v d2] & [Hv1 Hv2]%IH1 & ([l' d3] & [Hl1 Hl2]%IH3 & [= <- _])%bind_Ok)%bind_Ok; [|done].
    cbn in *. split; [done|lia].
Qed.

(** ** Reading what was printed *)

(** After a separator the reader is in the state that follows it. *)
Lemma round_no_separator d :
  match d_state d with tokenArrayValue | tokenObjectKey | tokenObjectValue => True | _ => False end →
  ∃ r, token_round d = inl r.
Proof.
  intros Hs. unfold token_round. destruct (skip_space (d_input d)) as [|c rest]; [eauto|].
  destruct (d_state d); try done;
    repeat match goal with |- context [if ?b then _ else _] => destruct b end; eauto.
Qed.

Lemma Token_after c l st st' stack :
  token_round (mkDecoder (c :: l) st stack) = inr (mkDecoder l st' stack) →
  match st' with tokenArrayValue | tokenObjectKey | tokenObjectValue => True | _ => False end →
  next (mkDecoder (c :: l) st stack) = next (mkDecoder l st' stack).
Proof.
  intros E Hs. unfold next, Token. rewrite E. by destruct (round_no_separator (mkDecoder l st' stack) Hs) as [r ->].
Qed.

Lemma next_array_comma l stack :
  next (mkDecoder (44 :: l) tokenArrayComma stack) = next (mkDecoder l tokenArrayValue stack).
Proof. by apply Token_after. Qed.

Lemma next_object_comma l stack :
  next (mkDecoder (44 :: l) tokenObjectComma stack) = next (mkDecoder l tokenObjectKey stack).
Proof. by apply Token_after. Qed.

Lemma next_object_colon l stack :
  next (mkDecoder (58 :: l) tokenObjectColon stack) = next (mkDecoder l tokenObjectValue stack).
Proof. by apply Token_after. Qed.

(** The reader sees its input only through the next token. *)
Lemma parse_next fuel depth d d' : next d = next d' → parse fuel depth d = parse fuel depth d'.
Proof. intros E. destruct fuel; [done|]. cbn. by rewrite E. Qed.

Lemma next_key k l st stack :
  valid_utf8 k → st = tokenObjectStart ∨ st = tokenObjectKey →
  next (mkDecoder (quote k ++ l) st stack) = Ok (TString k, mkDecoder l tokenObjectColon stack).
Proof.
  intros Hk Hst. destruct (scan_string_quote k l Hk) as (body & -> & E).
  unfold next, Token, token_round. cbn. rewrite E. by destruct Hst as [-> | ->].
Qed.

(** The first byte of a printed value starts a value. *)
Definition starts_value (c : Z) : Prop :=
  c = 34 ∨ c = 45 ∨ 48 ≤ c ≤ 57 ∨ c = 91 ∨ c = 123 ∨ c = 116 ∨ c = 102 ∨ c = 110.

Lemma Marshal_head v : scalars_ok v → ∃ c l, Marshal v = c :: l ∧ starts_value c.
Proof.
  unfold starts_value. destruct v as [|b|n|s|l|m]; cbn [Marshal]; intros Hv.
  - eexists _, _. split; [reflexivity|]. by repeat right.
  - destruct b; eexists _, _; (split; [reflexivity|]); cbn; lia.
  - destruct Hv as [Hne [Hs]]. destruct n as [|c n]; [done|]. eexists _, _. split; [reflexivity|].
    specialize (Hs [] I). rewrite app_nil_r in Hs. apply scan_number_head in Hs.
    apply orb_true_iff in Hs as [?|Hd%within_spec]; bools; lia.
  - eexists _, _. split; [reflexivity|]. lia.
  - eexists _, _. split; [reflexivity|]. lia.
  - eexists _, _. split; [reflexivity|]. lia.
Qed.

Lemma starts_value_space c l : starts_value c → skip_space (c :: l) = c :: l.
Proof.
  intros H. cbn. unfold is_space.
  rewrite (proj2 (Z.eqb_neq c 32)), (proj2 (Z.eqb_neq c 9)), (proj2 (Z.eqb_neq c 13)), (proj2 (Z.eqb_neq c 10));
    [done|unfold starts_value in H; lia..].
Qed.

Lemma More_starts c l st stack : starts_value c → More (mkDecoder (c :: l) st stack) = true.
Proof.
  intros H. unfold More. cbn [d_input]. rewrite starts_value_space by done.
  unfold starts_value in H. apply andb_true_iff. rewrite !negb_true_iff, !Z.eqb_neq. lia.
Qed.

Lemma token_scalar c l st stack :
  starts_value c → c ≠ 91 → c ≠ 123 → tokenValueAllowed st = true →
  next (mkDecoder (c :: l) st stack)
  = match scan_scalar (c :: l) with
    | Some (t, rest) => Ok (t, mkDecoder rest (tokenValueEnd st) stack)
    | None => Err ErrSyntax
    end.
Proof.
  intros Hc H1 H2 Hst. unfold next, Token, token_round. cbn [d_input d_state d_stack].
  rewrite starts_value_space by done. unfold starts_value in Hc.
  rewrite (proj2 (Z.eqb_neq c 91)), (proj2 (Z.eqb_neq c 93)), (proj2 (Z.eqb_neq c 123)), (proj2 (Z.eqb_neq c 125)),
    (proj2 (Z.eqb_neq c 58)), (proj2 (Z.eqb_neq c 44)) by lia.
  destruct st; try done; destruct (c =? 34); cbn [tokenValueAllowed tokenValueEnd];
    by destruct (scan_scalar (c :: l)) as [[t rest]|].
Qed.

(** The token of a printed scalar. *)
Definition token_of (v : json) : option token :=
  match v with
  | JNull => Some TNull
  | JBool b => Some (TBool b)
  | JNumber n => Some (TNumber n)
  | JString s => Some (TString s)
  | _ => None
  end.

Lemma next_scalar v t rest st stack :
  token_of v = Some t → scalars_ok v → ends rest → tokenValueAllowed st = true →
  next (mkDecoder (Marshal v ++ rest) st stack) = Ok (t, mkDecoder rest (tokenValueEnd st) stack).
Proof.
  intros Ht Hv He Hst. destruct v as [|b|n|s|l|m]; try done; injection Ht as <-; cbn [Marshal].
  - change (ascii "null" ++ rest) with (110 :: 117 :: 108 :: 108 :: rest).
    rewrite token_scalar by (done || unfold starts_value; lia). done.
  - destruct b.
    + change (ascii "true" ++ rest) with (116 :: 114 :: 117 :: 101 :: rest).
      rewrite token_scalar by (done || unfold starts_value; lia). done.
    + change (ascii "false" ++ rest) with (102 :: 97 :: 108 :: 115 :: 101 :: rest).
      rewrite token_scalar by (done || unfold starts_value; lia). done.
  - destruct Hv as [Hne [Hs]]. specialize (Hs rest He). destruct n as [|c n]; [done|]. cbn [app] in *.
    pose proof (scan_number_head _ _ _ _ Hs) as Hc.
    assert (c = 45 ∨ 48 ≤ c ≤ 57) as Hc'.
    { apply orb_true_iff in Hc as [?|Hd%within_spec]; bools; lia. }
    rewrite token_scalar by (done || unfold starts_value; lia). unfold scan_scalar.
    rewrite (proj2 (Z.eqb_neq c 34)), Hc, Hs by lia. done.
  - destruct (scan_string_quote s rest Hv) as (body & -> & E). cbn [app].
    rewrite token_scalar by (done || unfold starts_value; lia). unfold scan_scalar. cbn. by rewrite E.
Qed.

(** The closing delimiter. *)
Lemma close_array rest st stack s :
  s = tokenArrayStart ∨ s = tokenArrayComma →
  More (mkDecoder (93 :: rest) s (st :: stack)) = false
  ∧ next (mkDecoder (93 :: rest) s (st :: stack)) = Ok (Delim 93, mkDecoder rest (tokenValueEnd st) stack).
Proof. by intros [-> | ->]. Qed.

Lemma close_object rest st stack s :
  s = tokenObjectStart ∨ s = tokenObjectComma →
  More (mkDecoder (125 :: rest) s (st :: stack)) = false
  ∧ next (mkDecoder (125 :: rest) s (st :: stack)) = Ok (Delim 125, mkDecoder rest (tokenValueEnd st) stack).
Proof. by intros [-> | ->]. Qed.

(** [v] is read back wherever a value is allowed. *)
Definition reads_back (v : json) : Prop :=
  scalars_ok v → ∀ depth rest st stack,
  depth + nested v ≤ MaxJSONDepth → ends rest → tokenValueAllowed st = true →
  ∃ fuel, parse fuel depth (mkDecoder (Marshal v ++ rest) st stack) = Ok (v, mkDecoder rest (tokenValueEnd st) stack).

Definition after_commas (parts : list text) : text := parts ≫= (λ p, 44 :: p).

Lemma commas_cons p parts : commas (p :: parts) = p ++ after_commas parts.
Proof.
  revert p. induction parts as [|q parts IH]; intros p; [cbn; by rewrite app_nil_r|].
  change (commas (p :: q :: parts)) with (p ++ 44 :: commas (q :: parts)). by rewrite IH.
Qed.

(** Joining two readings: the larger fuel serves both. *)
Lemma fuel_elements f1 f2 depth d v d1 l d2 :
  More d = true → parse f1 (depth + 1) d = Ok (v, d1) → parse_elements f2 depth d1 = Ok (l, d2) →
  parse_elements (S (max f1 f2)) depth d = Ok (v :: l, d2).
Proof.
  intros Hm H1 H2. cbn. rewrite Hm. destruct (parse_mono f1 (max f1 f2) ltac:(lia)) as (M1 & _ & _).
  rewrite M1, H1 by (by rewrite H1). cbn. destruct (parse_mono f2 (max f1 f2) ltac:(lia)) as (_ & _ & M3).
  by rewrite M3, H2 by (by rewrite H2).
Qed.

Lemma fuel_members f1 f2 depth d key d0 v d1 l d2 :
  More d = true → next d = Ok (TString key, d0) → parse f1 (depth + 1) d0 = Ok (v, d1) →
  parse_members f2 depth d1 = Ok (l, d2) → parse_members (S (max f1 f2)) depth d = Ok ((key, v) :: l, d2).
Proof.
  intros Hm Hn H1 H2. cbn. rewrite Hm, Hn. cbn. destruct (parse_mono f1 (max f1 f2) ltac:(lia)) as (M1 & _ & _).
  rewrite M1, H1 by (by rewrite H1). cbn. destruct (parse_mono f2 (max f1 f2) ltac:(lia)) as (_ & M2 & _).
  by rewrite M2, H2 by (by rewrite H2).
Qed.

Lemma after_commas_ends parts c rest : c = 93 ∨ c = 125 → ends (after_commas parts ++ c :: rest).
Proof. intros Hc. destruct parts; cbn; lia. Qed.

Lemma elements_after depth st stack rest l :
  Forall reads_back l → Forall scalars_ok l → Forall (λ v, depth + 1 + nested v ≤ MaxJSONDepth) l →
  ∃ fuel, parse_elements fuel depth
            (mkDecoder (after_commas (List.map Marshal l) ++ 93 :: rest) tokenArrayComma (st :: stack))
          = Ok (l, mkDecoder rest (tokenValueEnd st) stack).
Proof.
  induction 1 as [|v l Hv _ IH]; intros Hs Hd.
  { exists 1%nat. destruct (close_array rest st stack tokenArrayComma) as [E1 E2]; [by right|].
    cbn [parse_elements List.map after_commas mbind list_bind app]. by rewrite E1, E2. }
  inversion_clear Hs as [|? ? Hs1 Hs2]. inversion_clear Hd as [|? ? Hd1 Hd2].
  destruct (IH Hs2 Hd2) as [f2 E2].
  set (tail := after_commas (List.map Marshal l) ++ 93 :: rest) in *.
  assert (ends tail) as Ht by (by apply after_commas_ends; left).
  destruct (Hv Hs1 (depth + 1) tail tokenArrayValue (st :: stack) Hd1 Ht eq_refl) as [f1 E1].
  exists (S (max f1 f2)).
  assert (after_commas (List.map Marshal (v :: l)) ++ 93 :: rest = 44 :: Marshal v ++ tail) as ->.
  { cbn. fold (after_commas (List.map Marshal l)). by rewrite <- app_assoc. }
  eapply fuel_elements; [done| |exact E2]. by rewrite (parse_next _ _ _ _ (next_array_comma _ _)).
Qed.

Definition member (kv : text * json) : text := quote kv.1 ++ 58 :: Marshal kv.2.

Lemma members_after depth st stack rest m :
  Forall (λ kv, reads_back kv.2) m → Forall (λ kv, valid_utf8 kv.1 ∧ scalars_ok kv.2) m →
  Forall (λ kv : text * json, depth + 1 + nested kv.2 ≤ MaxJSONDepth) m →
  ∃ fuel, parse_members fuel depth
            (mkDecoder (after_commas (List.map member m) ++ 125 :: rest) tokenObjectComma (st :: stack))
          = Ok (m, mkDecoder rest (tokenValueEnd st) stack).
Proof.
  induction 1 as [|[k v] m Hv _ IH]; intros Hs Hd.
  { exists 1%nat. destruct (close_object rest st stack tokenObjectComma) as [E1 E2]; [by right|].
    cbn [parse_members List.map after_commas mbind list_bind app]. by rewrite E1, E2. }
  inversion_clear Hs as [|? ? [Hk Hs1] Hs2]. inversion_clear Hd as [|? ? Hd1 Hd2]. cbn in Hk, Hs1, Hd1, Hv.
  destruct (IH Hs2 Hd2) as [f2 E2].
  set (tail := after_commas (List.map member m) ++ 125 :: rest) in *.
  assert (ends tail) as Ht by (by apply after_commas_ends; right).
  destruct (Hv Hs1 (depth + 1) tail tokenObjectValue (st :: stack) Hd1 Ht eq_refl) as [f1 E1].
  exists (S (max f1 f2)).
  assert (after_commas (List.map member ((k, v) :: m)) ++ 125 :: rest = 44 :: quote k ++ 58 :: Marshal v ++ tail) as ->.
  { cbn. fold (after_commas (List.map member m)). unfold member. cbn. rewrite <- !app_assoc. cbn.
    done. }
  eapply fuel_members; [done|by rewrite next_object_comma, next_key; auto| |exact E2].
  by rewrite (parse_next _ _ _ _ (next_object_colon _ _)).
Qed.

Lemma Marshal_reads_back v : reads_back v.
Proof.
  induction v as [|b|n|s|l IH|m IH] using json_tree_ind; intros Hv depth rest st stack Hd He Hst;
    try (exists 1%nat; cbn [parse]; rewrite (proj2 (Z.ltb_ge _ _)) by (cbn in Hd; lia);
         erewrite next_scalar by done; done).
  - assert (0 ≤ nested (JArray l)) as Hn by apply nested_nonneg.
    pose proof (proj1 (fold_and scalars_ok l) Hv) as Hs.
    assert (Forall (λ v, depth + 1 + nested v ≤ MaxJSONDepth) l) as Hdl.
    { eapply Forall_impl; [apply (fold_max nested l (MaxJSONDepth - depth)); [lia|]|]; [cbn in Hd; lia|].
      cbn. intros; lia. }
    assert (∃ fuel, parse_elements fuel depth
              (mkDecoder (commas (List.map Marshal l) ++ 93 :: rest) tokenArrayStart (st :: stack))
            = Ok (l, mkDecoder rest (tokenValueEnd st) stack)) as [fuel E].
    { destruct l as [|v l].
      { exists 1%nat. destruct (close_array rest st stack tokenArrayStart) as [E1 E2]; [by left|].
        cbn [parse_elements List.map commas app]. by rewrite E1, E2. }
      inversion_clear IH as [|? ? Hv1 Hl]. inversion_clear Hs as [|? ? Hs1 Hs2]. inversion_clear Hdl as [|? ? Hd1 Hd2].
      destruct (elements_after depth st stack rest l Hl Hs2 Hd2) as [f2 E2].
      cbn [List.map]. rewrite commas_cons, <- app_assoc.
      set (tail := after_commas (List.map Marshal l) ++ 93 :: rest) in *.
      assert (ends tail) as Ht by (by apply after_commas_ends; left).
      destruct (Hv1 Hs1 (depth + 1) tail tokenArrayStart (st :: stack) Hd1 Ht eq_refl) as [f1 E1].
      exists (S (max f1 f2)). eapply fuel_elements; [|exact E1|exact E2].
      destruct (Marshal_head v Hs1) as (c & l' & -> & Hc). by apply More_starts. }
    exists (S fuel). cbn [parse]. rewrite (proj2 (Z.ltb_ge _ _)) by lia.
    cbn [Marshal]. cbn [app]. rewrite <- app_assoc. cbn [app].
    assert (next (mkDecoder (91 :: commas (List.map Marshal l) ++ 93 :: rest) st stack)
            = Ok (Delim 91, mkDecoder (commas (List.map Marshal l) ++ 93 :: rest) tokenArrayStart (st :: stack))) as ->.
    { unfold next, Token, token_round. cbn. by rewrite Hst. }
    cbn. by rewrite E.
  - assert (0 ≤ nested (JObject m)) as Hn by apply nested_nonneg.
    pose proof (proj1 (fold_and (λ kv : text * json, valid_utf8 kv.1 ∧ scalars_ok kv.2) m) Hv) as Hs.
    assert (Forall (λ kv : text * json, depth + 1 + nested kv.2 ≤ MaxJSONDepth) m) as Hdl.
    { eapply Forall_impl; [apply (fold_max (λ kv : text * json, nested kv.2) m (MaxJSONDepth - depth)); [lia|]|];
        [cbn in Hd; lia|]. cbn. intros; lia. }
    change (Marshal (JObject m)) with (123 :: commas (List.map member m) ++ [125]).
    assert (∃ fuel, parse_members fuel depth
              (mkDecoder (commas (List.map member m) ++ 125 :: rest) tokenObjectStart (st :: stack))
            = Ok (m, mkDecoder rest (tokenValueEnd st) stack)) as [fuel E].
    { destruct m as [|[k v] m].
      { exists 1%nat. destruct (close_object rest st stack tokenObjectStart) as [E1 E2]; [by left|].
        cbn [parse_members List.map commas app]. by rewrite E1, E2. }
      inversion_clear IH as [|? ? Hv1 Hl]. inversion_clear Hs as [|? ? [Hk Hs1] Hs2].
      inversion_clear Hdl as [|? ? Hd1 Hd2]. cbn in Hv1, Hk, Hs1, Hd1.
      destruct (members_after depth st stack rest m Hl Hs2 Hd2) as [f2 E2].
      cbn [List.map]. rewrite commas_cons. set (tail := after_commas (List.map member m) ++ 125 :: rest) in *.
      assert ((member (k, v) ++ after_commas (List.map member m)) ++ 125 :: rest = quote k ++ 58 :: Marshal v ++ tail) as ->.
      { unfold member at 1. cbn. rewrite <- !app_assoc. cbn. done. }
      assert (ends tail) as Ht by (by apply after_commas_ends; right).
      destruct (Hv1 Hs1 (depth + 1) tail tokenObjectValue (st :: stack) Hd1 Ht eq_refl) as [f1 E1].
      exists (S (max f1 f2)). eapply fuel_members; [|by apply next_key; auto| |exact E2].
      - unfold quote. cbn [app]. apply More_starts. unfold starts_value. lia.
      - by rewrite (parse_next _ _ _ _ (next_object_colon _ _)). }
    exists (S fuel). cbn [parse]. rewrite (proj2 (Z.ltb_ge _ _)) by lia.
    cbn [app]. rewrite <- app_assoc. cbn [app].
    assert (next (mkDecoder (123 :: commas (List.map member m) ++ 125 :: rest) st stack)
            = Ok (Delim 123, mkDecoder (commas (List.map member m) ++ 125 :: rest) tokenObjectStart (st :: stack))) as ->.
    { unfold next, Token, token_round. cbn. by rewrite Hst. }
    cbn. by rewrite E.
Qed.

(** A printed value is a text of that value. *)
Lemma parse_text_Marshal v : scalars_ok v → nested v ≤ MaxJSONDepth → parse_text (Marshal v) = Some v.
Proof.
  intros Hv Hn. destruct (Marshal_reads_back v Hv 0 [] tokenTopValue []) as [fuel E]; [lia|done..|].
  rewrite app_nil_r in E. unfold parse_text. by rewrite (parse_any_fuel _ _ _ _ E).
Qed.

Lemma parse_text_ok data v : parse_text data = Some v → scalars_ok v ∧ nested v ≤ MaxJSONDepth.
Proof.
  unfold parse_text. destruct (parse _ _ _) as [[v' d]| |] eqn:E; [|done..]. intros Hv.
  assert (v' = v) as -> by (destruct (Token d); congruence). apply parse_ok in E as [? ?]. split; [done|lia].
Qed.

Lemma canon_text data v :
  parse_text data = Some v → parse_text (Marshal (canon v)) = Some (canon v) ∧ distinct_keys (canon v).
Proof.
  intros [Hs Hn]%parse_text_ok. split; [|apply canonical_distinct, canon_canonical].
  apply parse_text_Marshal; [by apply canon_scalars|]. pose proof (canon_nested v). lia.
Qed.

Section Canonical.
Context `{SecretLib}.

(** What an accepted payload and its canonical form are. *)
Lemma canonicalJSON_spec data limit out :
  canonicalJSON data limit = inr out ↔
  ∃ v, parse_text data = Some v ∧ distinct_keys v ∧ tlen data ≤ limit ∧ has_secret (canon v) = false
       ∧ out = Marshal (canon v) ∧ tlen out ≤ limit.
Proof.
  unfold canonicalJSON. pose proof (rejectDuplicateKeys_spec data) as Hr.
  assert (∀ v, parse_text data = Some v → (tlen data =? 0) = false) as Hne.
  { intros v Hv. apply Z.eqb_neq. unfold tlen. destruct data as [|c data]; [|cbn; lia]. by vm_compute in Hv. }
  rewrite (proj1 (decode_parse _)). unfold parse_text in *. split.
  - destruct (_ || _) eqn:Eg; [done|].
    apply orb_false_iff in Eg as [[_ Hl%Z.ltb_ge]%orb_false_iff Eg]. apply failed_false, Hr in Eg as (v & Ev & Hd).
    destruct (parse _ _ _) as [[v' d]| |]; cbn; [|done..]. destruct (Token d); try done. injection Ev as ->.
    unfold rejectSecretFields. destruct (has_secret (canon v)) eqn:Es; [done|].
    destruct (limit <? _) eqn:El; [done|]. bools. intros [= <-]. exists v. done.
  - intros (v & Ev & Hd & Hl & Hs & -> & Hlo). rewrite (Hne v Ev), (proj2 (Z.ltb_ge _ _) Hl).
    rewrite (proj2 Hr) by eauto. cbn. destruct (parse _ _ _) as [[v' d]| |]; cbn; [|done..].
    destruct (Token d); try done. injection Ev as ->. unfold rejectSecretFields. rewrite Hs.
    by rewrite (proj2 (Z.ltb_ge _ _) Hlo).
Qed.

Lemma canonicalJSON_fixed data limit out : canonicalJSON data limit = inr out → canonicalJSON out limit = inr out.
Proof.
  intros (v & Ev & Hd & Hl & Hs & -> & Hlo)%canonicalJSON_spec. destruct (canon_text data v Ev) as [Ec Hdc].
  apply canonicalJSON_spec. exists (canon v). rewrite (canon_id (canon v)) by apply canon_canonical. done.
Qed.

(** The canonical form of an accepted payload is accepted and is its own canonical
    form, so hashing it again gives the same digest; and a payload with the same
    canonical form denotes the same value, up to the order of object members. *)
Theorem canonicalJSON_canonical data limit out :
  canonicalJSON data limit = inr out →
  canonicalJSON out limit = inr out
  ∧ ∀ other limit', canonicalJSON other limit' = inr out →
      ∃ v v', parse_text data = Some v ∧ parse_text other = Some v' ∧ canon v = canon v'.
Proof.
  intros E. split; [by eapply canonicalJSON_fixed|]. apply canonicalJSON_spec in E as (v & Ev & Hd & Hl & Hs & -> & Hlo).
  destruct (canon_text data v Ev) as [Ec Hdc].
  intros other limit' (v' & Ev' & _ & _ & _ & Eo & _)%canonicalJSON_spec. exists v, v'. split_and!; [done..|].
  destruct (canon_text other v' Ev') as [Ec' _]. rewrite <- Eo, Ec in Ec'. congruence.
Qed.

(** ** The codec of the session state machines *)

(** The operations of [protocol.go] behind the interface [PayloadCodec], for any digest
    and any schema check. *)
Definition to_text (b : bytes) : text := byte_to_Z <$> b.
Definition of_codes (t : text) : bytes := byte_of_Z <$> t.

Definition protocol_codec (digest : bytes → string) (schema : bytes → string → Z → option err) : PayloadCodec := {|
  Messages.canonicalJSON data limit :=
    match canonicalJSON (to_text data) limit with inl e => inl e | inr out => inr (of_codes out) end;
  sha256_hex := digest;
  validateConfigSnapshotPayload := schema
|}.

Lemma to_of_codes t : Forall is_byte t → to_text (of_codes t) = t.
Proof.
  induction 1 as [|c t Hc _ IH]; [done|]. cbn. unfold to_text, of_codes in IH. rewrite IH, byte_to_of_Z.
  f_equal. apply Z.mod_small, Hc.
Qed.

Lemma of_to_codes b : of_codes (to_text b) = b.
Proof. induction b as [|c b IH]; [done|]. cbn. unfold to_text, of_codes in IH. by rewrite IH, byte_of_to_Z. Qed.

Lemma commas_bytes parts : Forall (Forall is_byte) parts → Forall is_byte (commas parts).
Proof.
  destruct 1 as [|p parts Hp Hps]; [constructor|]. rewrite commas_cons. apply Forall_app. split; [done|].
  induction Hps as [|q parts Hq _ IH]; [constructor|]. cbn. constructor; [unfold is_byte; lia|].
  by apply Forall_app.
Qed.

Lemma Marshal_bytes v : scalars_ok v → Forall is_byte (Marshal v).
Proof.
  induction v as [|b|n|s|l IH|m IH] using json_tree_ind; cbn [Marshal].
  - intros _. repeat constructor; vm_compute; done.
  - intros _. destruct b; repeat constructor; vm_compute; done.
  - intros [Hn Hs]. by apply scans_bytes.
  - apply quote_bytes.
  - intros Hv%(fold_and scalars_ok). constructor; [unfold is_byte; lia|]. apply Forall_app.
    split; [|repeat constructor; lia]. apply commas_bytes, Forall_map.
    eapply Forall_impl; [apply Forall_and; split; [apply IH|apply Hv]|]. naive_solver.
  - intros Hv%(fold_and (λ kv : text * json, valid_utf8 kv.1 ∧ scalars_ok kv.2)).
    constructor; [unfold is_byte; lia|]. apply Forall_app.
    split; [|repeat constructor; lia]. apply commas_bytes, Forall_map.
    eapply Forall_impl; [apply Forall_and; split; [apply IH|apply Hv]|]. intros [k v] [Hv' [Hk Hs]]. cbn [fst snd] in *.
    apply Forall_app. split; [by apply quote_bytes|]. constructor; [unfold is_byte; lia|auto].
Qed.

(** A snapshot built by [NewSnapshot] passes [Validate], whatever the digest and the
    schema check, and keeps passing it when the session binds it to an identity: the
    stored payload is its own canonical form and the content hash matches it. *)
Theorem new_snapshot_validates digest schema tunnelID generation payload s account connector session process :
  (∀ b, hashPattern ("sha256:" +:+ digest b) = true) →
  @NewSnapshot (protocol_codec digest schema) tunnelID generation payload = inr s →
  badID account = false → badID connector = false → badID session = false → process ≠ 0 →
  @Snapshot_Validate (protocol_codec digest schema) s = None
  ∧ @Snapshot_ValidateBound (protocol_codec digest schema)
      (mkSnapshot account (snap_TunnelID s) connector session process (snap_Generation s) (snap_ContentHash s)
         (snap_Payload s)) = None.
Proof.
  intros Hdig. unfold NewSnapshot. destruct (_ || _) eqn:Eg; [done|].
  apply orb_false_iff in Eg as [[[Ht Hgen]%orb_false_iff Hz]%orb_false_iff Hmax].
  cbn [Messages.canonicalJSON protocol_codec validateConfigSnapshotPayload sha256_hex].
  destruct (canonicalJSON (to_text payload) MaxSnapshotBytes) as [e|out] eqn:Ec; [done|].
  destruct (schema (of_codes out) tunnelID generation) eqn:Es; [done|]. intros [= <-] Ha Hc Hs Hp.
  pose proof (canonicalJSON_fixed _ _ _ Ec) as Ei.
  apply canonicalJSON_spec in Ec as (v & Ev & _ & _ & _ & Eo & Hlen).
  assert (Forall is_byte out) as Hb.
  { subst out. apply Marshal_bytes, canon_scalars. by apply parse_text_ok in Ev as [? _]. }
  assert (blen (of_codes out) = tlen out) as Hbl by (unfold blen, of_codes, tlen; by rewrite length_fmap).
  assert (tlen out ≠ 0) as Hne.
  { destruct (Marshal_head (canon v)) as (c & l & Em & _).
    - apply canon_scalars. by apply parse_text_ok in Ev as [? _].
    - rewrite Eo, Em. unfold tlen. cbn. lia. }
  assert (∀ a c s p, ((a != "") && badID a || (s != "") && badID s) = false →
    @Snapshot_Validate (protocol_codec digest schema)
      (mkSnapshot a tunnelID c s p generation ("sha256:" +:+ digest (of_codes out)) (of_codes out)) = None) as Hval.
  { intros a c s p Has. apply orb_false_iff in Has as [Ha' Hs']. unfold Snapshot_Validate.
    cbn [snap_TunnelID snap_AccountID snap_SessionID snap_Generation snap_ContentHash snap_Payload].
    rewrite Ht, Ha', Hs', Hgen, Hdig, Hbl, (proj2 (Z.eqb_neq _ _) Hne), (proj2 (Z.ltb_ge _ _) Hlen). cbn.
    rewrite to_of_codes, Ei by done. by rewrite !bool_decide_eq_true_2, Es. }
  split; [by apply Hval|]. unfold Snapshot_ValidateBound.
  cbn [snap_TunnelID snap_AccountID snap_ConnectorID snap_SessionID snap_ProcessGeneration snap_Generation snap_ContentHash snap_Payload].
  rewrite Ha, Hc, Hs, (proj2 (Z.eqb_neq _ _) Hp). apply Hval. by rewrite Ha, Hs, !andb_false_r.
Qed.
End Canonical.

(** ** A payload *)

Module Payload.

(** ASCII case mapping only, and no string is an absolute URL. *)
Definition plain_secrets : SecretLib := {|
  secret_lower s := s; secret_upper s := s; secret_url _ := None |}.
#[local] Existing Instance plain_secrets.

Definition q (s : string) : text := 34 :: ascii s ++ [34].

(** An object with members name and id, in this order, written with spaces and an escape. *)
Definition spaced : text :=
  ascii "{ " ++ q "name" ++ ascii ": " ++ q "café" ++ ascii ", " ++ q "id" ++ ascii " :[1.5e3,true, null]}".
Definition compact : text :=
  ascii "{" ++ q "id" ++ ascii ":[1.5e3,true,null]," ++ q "name" ++ [58; 34; 99; 97; 102; 195; 169; 34] ++ ascii "}".

Lemma canonicalJSON_canonical_witness :
  canonicalJSON spaced 100 = inr compact ∧ canonicalJSON compact 100 = inr compact.
Proof.
  assert (canonicalJSON spaced 100 = inr compact) as E by (vm_compute; reflexivity).
  split; [exact E|]. exact (proj1 (canonicalJSON_canonical spaced 100 compact E)).
Defined.

Lemma rejectDuplicateKeys_exact_witness :
  rejectDuplicateKeys (ascii "{" ++ q "a" ++ ascii ":1," ++ q "a" ++ ascii ":2}") = Some ErrDuplicate
  ∧ rejectDuplicateKeys spaced = None.
Proof. vm_compute. done. Qed.

Definition zeros64 : string := "0000000000000000000000000000000000000000000000000000000000000000".

Lemma new_snapshot_validates_witness :
  match @NewSnapshot (protocol_codec (λ _, zeros64) (λ _ _ _, None)) "tun" 3 (of_codes spaced) with
  | inr s => @Snapshot_Validate (protocol_codec (λ _, zeros64) (λ _ _ _, None)) s = None
  | inl _ => False
  end.
Proof.
  pose proof (new_snapshot_validates (λ _, zeros64) (λ _ _ _, None) "tun" 3 (of_codes spaced)) as T.
  destruct (@NewSnapshot (protocol_codec (λ _, zeros64) (λ _ _ _, None)) "tun" 3 (of_codes spaced)) as [e|s] eqn:E.
  - vm_compute in E. discriminate E.
  - refine (proj1 (T s "acct" "con" "sess" 1 _ eq_refl _ _ _ _)); [intros; vm_compute; reflexivity|..];
      first [vm_compute; reflexivity | discriminate].
Defined.
End Payload.

End CanonicalJSON.
