(* ===== verification/StreamFrames.v ===== *)
(** * Stream-open prefaces and private-access frames

    Models [internal/connectorprotocol/data_stream.go], [access_stream.go] and
    [carrier_identity.go]: the records with their validators, the length-prefixed
    frames, and the decoding of a frame into a struct as [encoding/json] does it,
    with case-insensitive field names. *)
From S2P Require Import Prelude Go Strings Protocol Utf8 JSON StrictJSON.

Module StreamFrames.
Import StrictJSON.

Definition MaxStreamOpenBytes : Z := 16 * 1024.
Definition streamOpenHeader : Z := 4.
Definition InspectorHTTP := "inspector_http".
Definition PrivateAccessSchema := "paperboat.preview-tunnel/v1".
Definition PrivateAccessKind := "private_access_stream".
Definition PrivateAccessHTTP := "private_access_http".
Definition PrivateAccessTCP := "private_access_tcp".
Definition MaxPrivateAccessFrameBytes : Z := 64 * 1024.
Definition maxPrivateAccessGrantBytes : Z := 16 * 1024.
Definition privateAccessFrameHeader : Z := 4.

(** ** The preface *)

Record StreamOpen := mkOpen {
  so_Protocol : string;
  so_Version : string;
  so_AccountID : string;
  so_TunnelID : string;
  so_ConnectorID : string;
  so_SessionID : string;
  so_ProcessGeneration : Z;
  so_Generation : Z;
  so_RouteID : string;
  so_RequestID : string;
  so_Kind : string
}.
#[export] Instance StreamOpen_eta : Eta StreamOpen := λ r,
  mkOpen (so_Protocol r) (so_Version r) (so_AccountID r) (so_TunnelID r) (so_ConnectorID r) (so_SessionID r)
    (so_ProcessGeneration r) (so_Generation r) (so_RouteID r) (so_RequestID r) (so_Kind r).
#[export] Instance StreamOpen_eq_dec : EqDecision StreamOpen.
Proof. solve_decision. Defined.

Definition zeroOpen : StreamOpen := mkOpen "" "" "" "" "" "" 0 0 "" "" "".

Definition validStreamKind (kind : string) : bool :=
  mem_str ["connector_ready"; "tcp_public"; "http_browser"; "http"; "https"; "h2c"; "websocket"; "sse"; "grpc";
           "tcp_private"; PrivateAccessHTTP; PrivateAccessTCP; InspectorHTTP] kind.

Definition StreamOpen_Validate (s : StreamOpen) : option err :=
  if (so_Protocol s != ProtocolName) || (so_Version s != ProtocolVersion)
     || badID (so_AccountID s) || badID (so_TunnelID s) || badID (so_ConnectorID s) || badID (so_SessionID s)
     || badID (so_RouteID s) || badID (so_RequestID s)
     || (so_ProcessGeneration s =? 0) || (so_Generation s =? 0)
  then Some ErrInvalidInput
  else if (len (so_Kind s) =? 0) || (MaxIdentifierBytes <? len (so_Kind s)) || negb (validStreamKind (so_Kind s))
  then Some ErrInvalidInput
  else None.

(** ** Encoding a struct

    [json.Marshal] writes the fields in their declared order. *)
Definition jstr (s : string) : json := JString (ascii s).
Definition jnum (z : Z) : json := JNumber (ascii (Itoa z)).

Definition StreamOpen_json (s : StreamOpen) : json :=
  JObject [ (ascii "protocol", jstr (so_Protocol s)); (ascii "version", jstr (so_Version s));
            (ascii "account_id", jstr (so_AccountID s)); (ascii "tunnel_id", jstr (so_TunnelID s));
            (ascii "connector_id", jstr (so_ConnectorID s)); (ascii "session_id", jstr (so_SessionID s));
            (ascii "process_generation", jnum (so_ProcessGeneration s)); (ascii "generation", jnum (so_Generation s));
            (ascii "route_id", jstr (so_RouteID s)); (ascii "request_id", jstr (so_RequestID s));
            (ascii "kind", jstr (so_Kind s)) ].

(** ** Decoding into a struct *)

(** [foldName]: letters to upper case, with the two runes beyond ASCII whose case orbit
    contains an ASCII letter. *)
Definition fold_rune (r : Z) : Z :=
  if within 97 122 r then r - 32 else if r =? 8490 then 75 else if r =? 383 then 83 else r.

Fixpoint fold_name (fuel : nat) (s : text) : list Z :=
  match fuel, s with
  | S fuel, _ :: _ => let '(r, n) := DecodeRune s in fold_rune r :: fold_name fuel (drop n s)
  | _, _ => []
  end.

Definition folded (s : text) : list Z := fold_name (length s) s.

(** The field a member name selects: the exact one, else the first that is equal up to
    case; [None] is the error of [DisallowUnknownFields]. *)
Definition find_field (names : list string) (key : text) : option string :=
  match List.find (λ name, bool_decide (ascii name = key)) names with
  | Some name => Some name
  | None => List.find (λ name, bool_decide (folded (ascii name) = folded key)) names
  end.

(** The members are stored in their order; any error makes the result an error. *)
Fixpoint set_members {R} (names : list string) (set : string → json → R → option R) (m : list (text * json)) (r : R)
    : option R :=
  match m with
  | [] => Some r
  | (key, v) :: m =>
      match find_field names key with
      | Some name => match set name v r with Some r => set_members names set m r | None => None end
      | None => None
      end
  end.

Definition decode_struct {R} (names : list string) (set : string → json → R → option R) (zero : R) (v : json)
    : option R :=
  match v with
  | JNull => Some zero
  | JObject m => set_members names set m zero
  | _ => None
  end.

(** A string field: [null] leaves it, another type is an error. *)
Definition string_field {R} (put : string → R → R) (v : json) (r : R) : option R :=
  match v with JString s => Some (put (of_text s) r) | JNull => Some r | _ => None end.

(** [strconv.ParseUint] of a number literal. *)
Definition ParseUint (lit : text) : option Z :=
  match digits_value 0 (byte_of_Z <$> lit) with
  | Some z => if negb (bool_decide (lit = [])) && (z <? two64) then Some z else None
  | None => None
  end.

Definition uint64_field {R} (put : Z → R → R) (v : json) (r : R) : option R :=
  match v with
  | JNumber n => match ParseUint n with Some z => Some (put z r) | None => None end
  | JNull => Some r
  | _ => None
  end.

Definition StreamOpen_names : list string :=
  ["protocol"; "version"; "account_id"; "tunnel_id"; "connector_id"; "session_id"; "process_generation";
   "generation"; "route_id"; "request_id"; "kind"].

Definition StreamOpen_set (name : string) (v : json) : StreamOpen → option StreamOpen :=
  if name == "protocol" then string_field (λ x r, r <| so_Protocol := x |>) v
  else if name == "version" then string_field (λ x r, r <| so_Version := x |>) v
  else if name == "account_id" then string_field (λ x r, r <| so_AccountID := x |>) v
  else if name == "tunnel_id" then string_field (λ x r, r <| so_TunnelID := x |>) v
  else if name == "connector_id" then string_field (λ x r, r <| so_ConnectorID := x |>) v
  else if name == "session_id" then string_field (λ x r, r <| so_SessionID := x |>) v
  else if name == "process_generation" then uint64_field (λ x r, r <| so_ProcessGeneration := x |>) v
  else if name == "generation" then uint64_field (λ x r, r <| so_Generation := x |>) v
  else if name == "route_id" then string_field (λ x r, r <| so_RouteID := x |>) v
  else if name == "request_id" then string_field (λ x r, r <| so_RequestID := x |>) v
  else if name == "kind" then string_field (λ x r, r <| so_Kind := x |>) v
  else λ _, None.

Definition decode_StreamOpen : json → option StreamOpen := decode_struct StreamOpen_names StreamOpen_set zeroOpen.

(** [decodeStrict]: [decode] is the reflection of one value into the target.  A text
    that passes [rejectDuplicateKeys] is one value and white space, so the second
    [Decode] of the source meets [io.EOF]. *)
Definition decodeStrict {R} (decode : json → option R) (data : bytes) : err + R :=
  let t := byte_to_Z <$> data in
  if (blen data =? 0) || (MaxFrameBytes <? blen data) || failed (rejectDuplicateKeys t) then inl ErrMalformedFrame
  else match parse (enough t) 0 (NewDecoder t) with
  | Ok (v, _) => match decode v with Some r => inr r | None => inl (EPlain "json: cannot unmarshal") end
  | _ => inl ErrSyntax
  end.

(** ** Writers and readers *)

(** [binary.BigEndian.PutUint32] and [Uint32]. *)
Definition put_uint32 (z : Z) : bytes :=
  [byte_of_Z (z / 16777216); byte_of_Z (z / 65536); byte_of_Z (z / 256); byte_of_Z z].

Definition uint32_of (b : bytes) : Z :=
  match b with
  | [a; b; c; d] => 16777216 * byte_to_Z a + 65536 * byte_to_Z b + 256 * byte_to_Z c + byte_to_Z d
  | _ => 0
  end.

(** [io.Writer]: how many bytes it took, and an error. *)
Class Writer (W : Type) := Write : W → bytes → W * (Z * option err).

Definition ErrShortWrite : err := EPlain "short write".

(** The loop of [writeAllStreamOpen]; [None] is running out of fuel. *)
Fixpoint write_loop {W} `{Writer W} (fuel : nat) (w : W) (payload : bytes) (total : Z)
    : option (W * (Z * option err)) :=
  match fuel with
  | O => None
  | S fuel =>
      if total <? blen payload then
        let '(w, (written, e)) := Write w (drop (Z.to_nat total) payload) in
        let total := total + written in
        if failed e then Some (w, (total, e))
        else if written =? 0 then Some (w, (total, Some ErrShortWrite))
        else write_loop fuel w payload total
      else Some (w, (total, None))
  end.

Definition writeAllStreamOpen {W} `{Writer W} (w : W) (payload : bytes) : option (W * (Z * option err)) :=
  write_loop (S (length payload)) w payload 0.

(** Header and payload, as both frame writers send them. *)
Definition write_parts {W} `{Writer W} (w : W) (payload : bytes) : option (W * option err) :=
  match writeAllStreamOpen w (put_uint32 (blen payload)) with
  | Some (w, (_, Some e)) => Some (w, Some (codeError CodeMalformedFrame ReasonMalformed false (Some e)))
  | Some (w, (_, None)) =>
      match writeAllStreamOpen w payload with
      | Some (w, (_, Some e)) => Some (w, Some (codeError CodeMalformedFrame ReasonMalformed false (Some e)))
      | Some (w, (_, None)) => Some (w, None)
      | None => None
      end
  | None => None
  end.

Definition StreamOpen_payload (s : StreamOpen) : bytes := byte_of_Z <$> Marshal (StreamOpen_json s).

Definition WriteStreamOpen {W} `{Writer W} (w : W) (stream : StreamOpen) : option (W * option err) :=
  if failed (StreamOpen_Validate stream) then Some (w, Some ErrInvalidInput)
  else
    let payload := StreamOpen_payload stream in
    if (blen payload =? 0) || (MaxStreamOpenBytes - streamOpenHeader <? blen payload)
    then Some (w, Some ErrFrameTooLarge)
    else write_parts w payload.

(** [io.ReadFull] from the bytes that are still to come: the bytes and the rest, or an
    error when the stream ends before. *)
Definition ReadFull (n : Z) (input : bytes) : err + bytes * bytes :=
  if blen input <? n
  then inl (EPlain (if blen input =? 0 then "EOF" else "unexpected EOF"))
  else inr (take (Z.to_nat n) input, drop (Z.to_nat n) input).

Definition malformed (e : err) : err := codeError CodeMalformedFrame ReasonMalformed false (Some e).

(** The preface and what follows it on the stream. *)
Definition ReadStreamOpen (input : bytes) : err + StreamOpen * bytes :=
  match ReadFull streamOpenHeader input with
  | inl e => inl (malformed e)
  | inr (header, input) =>
      let length := uint32_of header in
      if length <=? 0 then inl ErrMalformedFrame
      else if MaxStreamOpenBytes - streamOpenHeader <? length then inl ErrFrameTooLarge
      else match ReadFull length input with
      | inl e => inl (malformed e)
      | inr (payload, input) =>
          match decodeStrict decode_StreamOpen payload with
          | inl e => inl (malformed e)
          | inr stream => match StreamOpen_Validate stream with
                          | Some e => inl e
                          | None => inr (stream, input)
                          end
          end
      end
  end.

(** ** Private access *)

Record PrivateAccessRequest := mkAccess {
  pa_AccountID : string;
  pa_ResourceKind : string;
  pa_ResourceID : string;
  pa_RouteID : string;
  pa_Audience : string;
  pa_DeviceID : string;
  pa_SessionID : string;
  pa_InstallationGeneration : Z;
  pa_ExpiresAt : Time;
  pa_Nonce : string;
  pa_OperationID : string;
  pa_ConnectorID : string;
  pa_CarrierSessionID : string;
  pa_RouteGeneration : Z;
  pa_ProcessGeneration : Z;
  pa_ConfigGeneration : Z;
  pa_SessionGeneration : Z;
  pa_AssignmentGeneration : Z;
  pa_EdgeNodeID : string;
  pa_EdgeProcessEpoch : string;
  pa_Protocol : string;
  pa_Method : string;
  pa_Host : string;
  pa_Path : string;
  pa_IdempotencyKey : string;
  pa_RequestID : string;
  pa_CorrelationID : string
}.

Definition access_identifiers (r : PrivateAccessRequest) : list string :=
  [pa_AccountID r; pa_ResourceID r; pa_RouteID r; pa_Audience r; pa_DeviceID r; pa_SessionID r; pa_Nonce r;
   pa_CarrierSessionID r; pa_EdgeNodeID r; pa_EdgeProcessEpoch r; pa_IdempotencyKey r; pa_RequestID r;
   pa_CorrelationID r].

(** An expiry that is missing, or not after a known [now]. *)
Definition expired (expiresAt now : Time) : bool :=
  IsZero expiresAt || negb (IsZero now) && negb (After expiresAt now).

Definition ctl : list Z := [13; 10; 0].

(** The method, host and path of an HTTP request. *)
Definition bad_http_target (r : PrivateAccessRequest) : bool :=
  (pa_Method r == "") || (32 <? len (pa_Method r)) || ContainsAny (pa_Method r) [32; 9; 13; 10; 0]
  || (pa_Host r == "") || (512 <? len (pa_Host r)) || has_outer_space (pa_Host r) || ContainsAny (pa_Host r) ctl
  || (pa_Path r == "") || (4096 <? len (pa_Path r)) || negb (HasPrefix (pa_Path r) "/") || ContainsAny (pa_Path r) ctl.

Definition access_audience (r : PrivateAccessRequest) : string :=
  if pa_Protocol r == "http"
  then if pa_ResourceKind r == "preview" then "paperboat-preview-http" else "paperboat-tunnel-http"
  else "paperboat-tunnel-tcp".

Definition AccessRequest_Validate (r : PrivateAccessRequest) (now : Time) : option err :=
  if existsb badID (access_identifiers r) then Some ErrInvalidInput
  else if (pa_ResourceKind r != "preview") && (pa_ResourceKind r != "tunnel")
     || (pa_Protocol r != "http") && (pa_Protocol r != "tcp") || expired (pa_ExpiresAt r) now
     || (pa_InstallationGeneration r =? 0) || (pa_RouteGeneration r =? 0) || (pa_ProcessGeneration r =? 0)
     || (pa_ConfigGeneration r =? 0) || (pa_SessionGeneration r =? 0) || (pa_AssignmentGeneration r =? 0)
  then Some ErrInvalidInput
  else if (if pa_ResourceKind r == "preview" then badID (pa_OperationID r) || (pa_ConnectorID r != "")
           else badID (pa_ConnectorID r))
  then Some ErrInvalidInput
  else if (if pa_Protocol r == "http" then bad_http_target r
           else (pa_Method r != "") || (pa_Host r != "") || (pa_Path r != ""))
  then Some ErrInvalidInput
  else if pa_Audience r != access_audience r then Some ErrInvalidInput
  else None.

Record PrivateAccessOpen := mkAccessOpen {
  po_Schema : string;
  po_Kind : string;
  po_Grant : string;
  po_Request : PrivateAccessRequest
}.

Definition AccessOpen_Validate (o : PrivateAccessOpen) (now : Time) : option err :=
  if (po_Schema o != PrivateAccessSchema) || (po_Kind o != PrivateAccessKind) || (len (po_Grant o) =? 0)
     || (maxPrivateAccessGrantBytes <? len (po_Grant o)) || has_outer_space (po_Grant o) || ContainsAny (po_Grant o) ctl
  then Some ErrInvalidInput
  else AccessRequest_Validate (po_Request o) now.

Record PrivateAccessResult := mkAccessResult {
  pr_Schema : string;
  pr_Kind : string;
  pr_Status : Z;
  pr_ExpiresAt : Time
}.

Definition AccessResult_Validate (r : PrivateAccessResult) (now : Time) : option err :=
  if (pr_Schema r != PrivateAccessSchema) || (pr_Kind r != PrivateAccessKind) then Some ErrInvalidInput
  else if pr_Status r =? 200 then if expired (pr_ExpiresAt r) now then Some ErrInvalidInput else None
  else if (pr_Status r =? 401) || (pr_Status r =? 403) || (pr_Status r =? 503)
  then if negb (IsZero (pr_ExpiresAt r)) then Some ErrInvalidInput else None
  else Some ErrInvalidInput.

(** The frames carry times, which [encoding/json] writes in RFC 3339.  Encoding and
    reflection of a frame's value are parameters of the frame functions. *)
Section AccessFrames.
Context {A : Type} (marshal : A → option bytes) (decode : json → option A) (validate : A → Time → option err).

Definition writePrivateAccessFrame {W} `{Writer W} (w : W) (value : A) : option (W * option err) :=
  match marshal value with
  | None => Some (w, Some ErrFrameTooLarge)
  | Some payload =>
      if (blen payload =? 0) || (MaxPrivateAccessFrameBytes - privateAccessFrameHeader <? blen payload)
      then Some (w, Some ErrFrameTooLarge)
      else write_parts w payload
  end.

Definition readPrivateAccessFrame (input : bytes) : err + A * bytes :=
  match ReadFull privateAccessFrameHeader input with
  | inl e => inl (malformed e)
  | inr (header, input) =>
      let length := uint32_of header in
      if (length <=? 0) || (MaxPrivateAccessFrameBytes - privateAccessFrameHeader <? length)
      then inl ErrFrameTooLarge
      else match ReadFull length input with
      | inl e => inl (malformed e)
      | inr (payload, input) =>
          match decodeStrict decode payload with
          | inl e => inl (malformed e)
          | inr value => inr (value, input)
          end
      end
  end.

(** [WritePrivateAccessOpen] and [WritePrivateAccessResult] at the instant [now]. *)
Definition WritePrivateAccess {W} `{Writer W} (w : W) (value : A) (now : Time) : option (W * option err) :=
  match validate value now with
  | Some e => Some (w, Some e)
  | None => writePrivateAccessFrame w value
  end.

Definition ReadPrivateAccess (input : bytes) (now : Time) : err + A * bytes :=
  match readPrivateAccessFrame input with
  | inl e => inl e
  | inr (value, input) => match validate value now with Some e => inl e | None => inr (value, input) end
  end.
End AccessFrames.

Definition WritePrivateAccessOpen (marshal : PrivateAccessOpen → option bytes) {W} `{Writer W} :=
  WritePrivateAccess marshal AccessOpen_Validate (W := W).
Definition ReadPrivateAccessOpen (decode : json → option PrivateAccessOpen) :=
  ReadPrivateAccess decode AccessOpen_Validate.
Definition WritePrivateAccessResult (marshal : PrivateAccessResult → option bytes) {W} `{Writer W} :=
  WritePrivateAccess marshal AccessResult_Validate (W := W).
Definition ReadPrivateAccessResult (decode : json → option PrivateAccessResult) :=
  ReadPrivateAccess decode AccessResult_Validate.

(** ** Carrier identities *)

Definition CarrierIdentityURNPrefix := "urn:paperboat:connector-v1:carrier:".
Definition MinOpaqueEpochBytes : Z := 8.
Definition MaxOpaqueEpochBytes : Z := 128.
Definition ErrCarrierIdentityBinding : err := EPlain "invalid connector carrier identity binding".

Definition ValidateOpaqueEpoch (value : string) : option err :=
  if (len value <? MinOpaqueEpochBytes) || (MaxOpaqueEpochBytes <? len value) then Some ErrInvalidInput
  else if forallb (λ c, is_alnum c || one_of [45; 95] c) (sbytes value) then None
  else Some ErrInvalidInput.

Record CarrierIdentityBinding := mkBinding {
  ci_AccountID : string;
  ci_HostID : string;
  ci_TunnelID : string;
  ci_ConnectorID : string;
  ci_SessionID : string;
  ci_ProcessGeneration : Z;
  ci_ConfigGeneration : Z;
  ci_EdgeProcessEpoch : string
}.

Definition CarrierBinding_Validate (b : CarrierIdentityBinding) : option err :=
  if badID (ci_AccountID b) || badID (ci_HostID b) || badID (ci_TunnelID b) || badID (ci_ConnectorID b)
     || badID (ci_SessionID b) || (ci_TunnelID b == ci_ConnectorID b) || (ci_ProcessGeneration b =? 0)
     || (ci_ConfigGeneration b =? 0) || failed (ValidateOpaqueEpoch (ci_EdgeProcessEpoch b))
  then Some ErrCarrierIdentityBinding else None.

Definition CarrierBinding_json (b : CarrierIdentityBinding) : json :=
  JObject [ (ascii "account_id", jstr (ci_AccountID b)); (ascii "host_id", jstr (ci_HostID b));
            (ascii "tunnel_id", jstr (ci_TunnelID b)); (ascii "connector_id", jstr (ci_ConnectorID b));
            (ascii "session_id", jstr (ci_SessionID b)); (ascii "process_generation", jnum (ci_ProcessGeneration b));
            (ascii "config_generation", jnum (ci_ConfigGeneration b));
            (ascii "edge_process_epoch", jstr (ci_EdgeProcessEpoch b)) ].

Definition CarrierBinding_encoded (b : CarrierIdentityBinding) : bytes := byte_of_Z <$> Marshal (CarrierBinding_json b).

(** A URN without white space or percent signs is parsed to an opaque URL that prints as
    it was, so a URL is the string it prints as. *)
Definition CarrierIdentityURN (sha256 : bytes → bytes) (binding : CarrierIdentityBinding) : err + string :=
  match CarrierBinding_Validate binding with
  | Some e => inl e
  | None => inr (CarrierIdentityURNPrefix +:+ EncodeToString (sha256 (CarrierBinding_encoded binding)))
  end.

Definition MatchCarrierIdentityURN (sha256 : bytes → bytes) (uris : list (option string))
    (binding : CarrierIdentityBinding) : option err :=
  match CarrierIdentityURN sha256 binding with
  | inl e => Some e
  | inr want => match uris with
                | [Some uri] => if uri != want then Some ErrCarrierIdentityBinding else None
                | _ => Some ErrCarrierIdentityBinding
                end
  end.

End StreamFrames.
