(* ===== verification/StreamFramesProofs.v ===== *)
(** * Round trips of prefaces and frames

    A validated preface is always small enough to be sent, is read back exactly by the
    other end whatever follows it on the stream, and its writer ends on every
    conforming [io.Writer].  A carrier certificate name matches one binding only, as
    long as the digest does not collide on the two. *)
From Stdlib Require Import DecimalString DecimalZ DecimalPos DecimalN DecimalFacts.
From S2P Require Import Prelude Go Strings Protocol Utf8 JSON JSONProofs StrictJSON StrictJSONProofs CanonicalJSON StreamFrames.

Module StreamFramesProofs.
Import StrictJSON StrictJSONProofs CanonicalJSON StreamFrames.

(** ** Decimal numbers *)

Lemma digits_value_uint u acc :
  digits_value (Zpos acc) (sbytes (NilEmpty.string_of_uint u)) = Some (Zpos (Pos.of_uint_acc u acc)).
Proof. revert acc. induction u; intros acc; cbn; [done|rewrite <- IHu; f_equal; lia..]. Qed.

Lemma uint_digits u : Forall (λ c, digit c = true) (ascii (NilEmpty.string_of_uint u)).
Proof. induction u; cbn; constructor; done. Qed.

Lemma to_uint_head p u : Pos.to_uint p = Decimal.D0 u → False.
Proof.
  intros E. pose proof (DecimalPos.Unsigned.to_of (Pos.to_uint p)) as H.
  rewrite DecimalPos.Unsigned.of_to in H. cbn in H. rewrite E in H. unfold Decimal.unorm in H.
  destruct (Decimal.nzhead (Decimal.D0 u)) eqn:Eh; try done.
  - injection H as ->. by apply (DecimalPos.Unsigned.to_uint_nonzero p).
  - by apply (nzhead_nonzero _ _ Eh).
Qed.

Lemma Itoa_pos p : Itoa (Zpos p) = NilEmpty.string_of_uint (Pos.to_uint p).
Proof.
  unfold Itoa, NilZero.string_of_int. cbn. unfold NilZero.string_of_uint.
  pose proof (DecimalPos.Unsigned.to_uint_nonnil p). by destruct (Pos.to_uint p).
Qed.

(** A printed natural number is digits, without a leading zero. *)
Lemma Itoa_digits z :
  0 ≤ z → ∃ c ds, ascii (Itoa z) = c :: ds ∧ Forall (λ c, digit c = true) (c :: ds) ∧ (c = 48 → ds = []).
Proof.
  intros Hz. destruct z as [|p|p]; [by eexists 48, []; repeat constructor| |lia]. rewrite Itoa_pos.
  pose proof (uint_digits (Pos.to_uint p)) as Hd. pose proof (to_uint_head p) as H0.
  pose proof (DecimalPos.Unsigned.to_uint_nonnil p).
  destruct (Pos.to_uint p) as [|u|u|u|u|u|u|u|u|u|u] eqn:E; [done| |..]; [by destruct (H0 u)|..];
    by (eexists _, _; split; [reflexivity|]; split; [exact Hd|]).
Qed.

Lemma Itoa_value z : 0 ≤ z → digits_value 0 (sbytes (Itoa z)) = Some z.
Proof.
  intros Hz. destruct z as [|p|p]; [done| |lia]. rewrite Itoa_pos.
  pose proof (DecimalPos.Unsigned.of_to p) as Hp. pose proof (to_uint_head p) as H0.
  destruct (Pos.to_uint p) as [|u|u|u|u|u|u|u|u|u|u] eqn:E; cbn in Hp; [done|by destruct (H0 u)|..];
    injection Hp as <-; exact (digits_value_uint u _).
Qed.

Lemma jnum_ok z : 0 ≤ z → scalars_ok (jnum z).
Proof.
  intros Hz. cbn. destruct (Itoa_digits z Hz) as (c & ds & -> & Hd & H0). split; [done|]. constructor.
  intros rest Hr. inversion_clear Hd as [|? ? Hc Hds]. apply within_spec in Hc as Hc'.
  assert (scan_unsigned (c :: ds ++ rest) = Some (c :: ds, rest)) as Hu.
  { unfold scan_unsigned, scan_int. destruct (c =? 48) eqn:E.
    - bools. rewrite (H0 E). cbn.
      destruct rest as [|x rest]; [done|]. cbn. apply ends_cons in Hr as (_ & H1 & H2 & H3).
      apply Z.eqb_neq in H1, H2, H3. rewrite H1. cbn. by rewrite H2, H3.
    - rewrite Hc, digits_end by done. cbn. destruct rest as [|x rest]; cbn; [by rewrite app_nil_r|].
      apply ends_cons in Hr as (_ & H1 & H2 & H3). apply Z.eqb_neq in H1, H2, H3. rewrite H1. cbn. rewrite H2, H3. cbn.
      by rewrite app_nil_r. }
  cbn [app]. unfold scan_number. rewrite (proj2 (Z.eqb_neq c 45)) by lia. exact Hu.
Qed.

Lemma byte_codes (b : bytes) : byte_of_Z <$> (byte_to_Z <$> b) = b.
Proof. induction b as [|c b IH]; [done|]. cbn in *. by rewrite IH, byte_of_to_Z. Qed.

Lemma of_text_ascii s : of_text (ascii s) = s.
Proof. unfold of_text, ascii. by rewrite byte_codes, bstring_sbytes. Qed.

Lemma ParseUint_Itoa z : is_u64 z → ParseUint (ascii (Itoa z)) = Some z.
Proof.
  intros [Hz Hm]. unfold ParseUint. destruct (Itoa_digits z Hz) as (c & ds & E & _ & _).
  unfold ascii in E |- *. rewrite byte_codes, Itoa_value by done. rewrite E.
  rewrite bool_decide_eq_false_2 by done. by rewrite (proj2 (Z.ltb_lt _ _) Hm).
Qed.

(** ** Plain strings *)

(** The bytes of a string that [Marshal] writes as they are. *)
Definition plain (s : string) : Prop := Forall (λ c, 32 ≤ c < 128 ∧ html_safe c = true) (ascii s).

Lemma plain_valid s : plain s → valid_utf8 (ascii s).
Proof.
  unfold plain. induction (ascii s) as [|c l IH]; intros H; [apply valid_utf8_nil|].
  inversion_clear H as [|? ? [Hc _] Hl]. apply valid_utf8_ascii; [lia|by apply IH].
Qed.

Lemma quote_chars_plain l fuel :
  Forall (λ c, 32 ≤ c < 128 ∧ html_safe c = true) l → (length l ≤ fuel)%nat → quote_chars fuel l = l.
Proof.
  intros H. revert fuel. induction H as [|c l [Hc Hs] _ IH]; intros fuel Hf; [by destruct fuel|].
  destruct fuel as [|fuel]; [cbn in Hf; lia|]. cbn. rewrite (proj2 (Z.ltb_lt c 128)), Hs by lia. cbn.
  rewrite IH; [done|cbn in Hf; lia].
Qed.

Lemma quote_plain s : plain s → quote (ascii s) = 34 :: ascii s ++ [34].
Proof. intros H. unfold quote. by rewrite quote_chars_plain. Qed.

Lemma alnum_code b : is_alnum b = true → 48 ≤ byte_to_Z b ≤ 122 ∧ html_safe (byte_to_Z b) = true.
Proof.
  unfold is_alnum, is_lower, is_upper, is_digit, in_range. intros H.
  assert (97 ≤ byte_to_Z b ≤ 122 ∨ 65 ≤ byte_to_Z b ≤ 90 ∨ 48 ≤ byte_to_Z b ≤ 57) as Hb.
  { apply orb_true_iff in H as [[H|H]%orb_true_iff|H]; bools; lia. }
  split; [lia|]. unfold html_safe. rewrite (proj2 (Z.leb_le 32 _)) by lia.
  rewrite (proj2 (Z.eqb_neq _ 34)), (proj2 (Z.eqb_neq _ 92)), (proj2 (Z.eqb_neq _ 60)), (proj2 (Z.eqb_neq _ 62)),
    (proj2 (Z.eqb_neq _ 38)) by lia. done.
Qed.

Lemma plain_of (p : byte → bool) s :
  (∀ b, p b = true → 32 ≤ byte_to_Z b < 128 ∧ html_safe (byte_to_Z b) = true) → forallb p (sbytes s) = true → plain s.
Proof.
  unfold plain, ascii. intros Hp. induction (sbytes s) as [|b l IH]; cbn; intros H; [constructor|].
  apply andb_true_iff in H as [H1 H2]. constructor; [by apply Hp|by apply IH].
Qed.

Lemma one_of_codes l b : one_of l b = true → ∃ c, c ∈ l ∧ byte_to_Z b = c.
Proof. unfold one_of. rewrite existsb_exists. intros (c & Hin & E). bools. exists c. by rewrite list_elem_of_In. Qed.

Lemma badID_plain s : badID s = false → plain s ∧ len s ≤ 128.
Proof.
  unfold badID, ValidateIdentifier. destruct (_ || _) eqn:E; [done|]. intros _.
  apply orb_false_iff in E as [Ep%negb_false_iff El%Z.ltb_ge]. split; [|done].
  unfold identifierPattern in Ep. 
  assert (forallb (λ b, is_alnum b || one_of [46; 95; 58; 45] b) (sbytes s) = true) as Hf.
  { destruct (sbytes s) as [|c rest]; [done|]. apply andb_true_iff in Ep as [[H1 _]%andb_true_iff H2].
    apply andb_true_iff. split; [by rewrite H1|exact H2]. }
  eapply plain_of, Hf. intros b [H|(c & Hc & ->)%one_of_codes]%orb_true_iff.
  - apply alnum_code in H as [? ?]. split; [lia|done].
  - repeat (apply elem_of_cons in Hc as [->|Hc]; [done|]). by apply elem_of_nil in Hc.
Qed.

Lemma opaque_epoch_plain s : failed (ValidateOpaqueEpoch s) = false → plain s.
Proof.
  unfold ValidateOpaqueEpoch. destruct (_ || _); [done|]. destruct (forallb _ _) eqn:Hf; [|done]. intros _.
  eapply plain_of, Hf. intros b [H|(c & Hc & ->)%one_of_codes]%orb_true_iff.
  - apply alnum_code in H as [? ?]. split; [lia|done].
  - repeat (apply elem_of_cons in Hc as [->|Hc]; [done|]). by apply elem_of_nil in Hc.
Qed.

Definition plain_byte (b : byte) : bool :=
  (32 <=? byte_to_Z b) && (byte_to_Z b <? 128) && html_safe (byte_to_Z b).

Lemma plain_check s : forallb plain_byte (sbytes s) = true → plain s.
Proof. apply plain_of. unfold plain_byte. intros b H. bools. done. Qed.

Lemma kind_plain s : validStreamKind s = true → plain s ∧ len s ≤ 128.
Proof.
  unfold validStreamKind, mem_str. rewrite existsb_exists. intros (k & Hin & Hk). bools. subst k.
  assert (Forall (λ k, plain k ∧ len k ≤ 128)
    ["connector_ready"; "tcp_public"; "http_browser"; "http"; "https"; "h2c"; "websocket"; "sse"; "grpc"; "tcp_private";
     PrivateAccessHTTP; PrivateAccessTCP; InspectorHTTP]) as Hall.
  { repeat (apply Forall_cons; split; [split; [apply plain_check; by vm_compute|by vm_compute]|]). constructor. }
  rewrite Forall_forall in Hall. apply Hall. by apply list_elem_of_In.
Qed.

(** ** The encoding of a struct *)

(** Comparisons of field names are decided by evaluation. *)
Ltac decide_names :=
  repeat match goal with
  | |- context [bool_decide (?a = ?b)] =>
      let r := eval vm_compute in (bool_decide (a = b)) in change (bool_decide (a = b)) with r; cbv iota
  end.

Lemma decode_struct_eq s :
  is_u64 (so_ProcessGeneration s) → is_u64 (so_Generation s) → decode_StreamOpen (StreamOpen_json s) = Some s.
Proof.
  intros H1 H2. unfold decode_StreamOpen, StreamOpen_json, decode_struct, jstr, jnum.
  repeat match goal with
  | |- context [set_members _ _ ((ascii ?k, ?v) :: ?m) ?r] =>
      change (set_members StreamOpen_names StreamOpen_set ((ascii k, v) :: m) r)
      with (match StreamOpen_set k v r with Some acc => set_members StreamOpen_names StreamOpen_set m acc | None => None end);
      unfold StreamOpen_set at 1; decide_names; unfold string_field, uint64_field;
      rewrite ?ParseUint_Itoa by done
  end. cbn [set_members]. rewrite !of_text_ascii. by destruct s.
Qed.

(** The text of a value, decoded strictly. *)
Lemma decodeStrict_Marshal {R} (decode : json → option R) v r :
  scalars_ok v → distinct_keys v → nested v ≤ MaxJSONDepth → tlen (Marshal v) ≤ MaxFrameBytes → decode v = Some r →
  decodeStrict decode (byte_of_Z <$> Marshal v) = inr r.
Proof.
  intros Hs Hd Hn Hl E. unfold decodeStrict.
  assert (byte_to_Z <$> (byte_of_Z <$> Marshal v) = Marshal v) as -> by (apply to_of_codes, Marshal_bytes, Hs).
  assert (blen (byte_of_Z <$> Marshal v) = tlen (Marshal v)) as ->.
  { unfold blen, tlen. by rewrite length_fmap. }
  pose proof (parse_text_Marshal v Hs Hn) as Hp.
  assert (tlen (Marshal v) ≠ 0) as Hne.
  { destruct (Marshal_head v Hs) as (c & l & -> & _). unfold tlen. cbn. lia. }
  rewrite (proj2 (Z.eqb_neq _ _) Hne), (proj2 (Z.ltb_ge _ _) Hl), (proj2 (rejectDuplicateKeys_spec _)) by eauto.
  cbn. unfold parse_text in Hp. destruct (parse _ _ _) as [[v' d]| |]; try done.
  destruct (Token d); try done. injection Hp as ->. by rewrite E.
Qed.

(** ** Lengths *)

Lemma tlen_app a b : tlen (a ++ b) = tlen a + tlen b.
Proof. unfold tlen. rewrite length_app. lia. Qed.

Lemma tlen_cons c a : tlen (c :: a) = 1 + tlen a.
Proof. unfold tlen. cbn. lia. Qed.

Lemma tlen_ascii s : tlen (ascii s) = len s.
Proof. rewrite <- blen_sbytes. unfold tlen, blen, ascii. by rewrite length_fmap. Qed.

Lemma digits_value_bound l acc v :
  0 ≤ acc → digits_value acc l = Some v → acc * 10 ^ blen l ≤ v.
Proof.
  revert acc. induction l as [|c l IH]; intros acc Ha; cbn [digits_value].
  { intros [= <-]. change (blen []) with 0. rewrite Z.pow_0_r. lia. }
  destruct (is_digit c) eqn:E; [|done]. unfold is_digit, in_range in E. bools.
  intros Hv%IH; [|lia]. replace (blen (c :: l)) with (1 + blen l) by (unfold blen; cbn; lia).
  rewrite Z.pow_add_r by (pose proof (blen_nonneg l); lia).
  assert (0 < 10 ^ blen l) by (apply Z.pow_pos_nonneg; [lia|apply blen_nonneg]). nia.
Qed.

Lemma Itoa_len z : is_u64 z → len (Itoa z) ≤ 20.
Proof.
  intros [Hz Hm]. destruct (Z.eq_dec z 0) as [->|Hnz]; [done|].
  pose proof (Itoa_value z Hz) as Hv. destruct (Itoa_digits z Hz) as (c & ds & Ea & Hd & H0).
  rewrite <- blen_sbytes. unfold ascii in Ea. destruct (sbytes (Itoa z)) as [|b l]; [done|].
  cbn in Ea. injection Ea as Eb El. cbn [digits_value] in Hv.
  destruct (is_digit b) eqn:E; [|done]. unfold is_digit, in_range in E. bools.
  assert (byte_to_Z b ≠ 48) as Hb.
  { intros E48. rewrite E48 in Eb. rewrite (H0 (eq_sym Eb)) in El. destruct l; [|done]. cbn in Hv. injection Hv as <-. lia. }
  apply digits_value_bound in Hv; [|lia].
  destruct (Z.le_gt_cases (blen l) 19) as [?|Hl]; [unfold blen in *; cbn; lia|].
  assert (10 ^ 20 ≤ 10 ^ blen l) by (apply Z.pow_le_mono_r; lia). unfold two64 in Hm.
  assert (10 ^ 20 = 100000000000000000000) by done. nia.
Qed.

Lemma quote_len s : plain s → tlen (quote (ascii s)) = len s + 2.
Proof.
  intros H. rewrite quote_plain, tlen_cons, tlen_app, tlen_ascii by done. change (tlen [34]) with 1. lia.
Qed.

(** What a valid preface consists of. *)
Record sendable (s : StreamOpen) : Prop := {
  sd_pgen : is_u64 (so_ProcessGeneration s);
  sd_gen : is_u64 (so_Generation s);
  sd_plain : Forall (λ x, plain x ∧ len x ≤ 128)
    [so_Protocol s; so_Version s; so_AccountID s; so_TunnelID s; so_ConnectorID s; so_SessionID s; so_RouteID s;
     so_RequestID s; so_Kind s]
}.

Lemma valid_sendable s :
  is_u64 (so_ProcessGeneration s) → is_u64 (so_Generation s) → StreamOpen_Validate s = None → sendable s.
Proof.
  intros H1 H2. unfold StreamOpen_Validate. case_match eqn:E; [done|]. case_match eqn:E'; [done|]. intros _.
  apply orb_false_iff in E' as [_ Hk%negb_false_iff]. bools. split; [done..|].
  repeat (apply Forall_cons; split); try (by apply badID_plain); try (by apply kind_plain); [..|constructor];
    match goal with H : _ = ?x |- plain _ ∧ _ => rewrite H; split; [apply plain_check; by vm_compute|by vm_compute] end.
Qed.

Lemma sendable_json s :
  sendable s → scalars_ok (StreamOpen_json s) ∧ distinct_keys (StreamOpen_json s) ∧ nested (StreamOpen_json s) = 1
               ∧ tlen (Marshal (StreamOpen_json s)) ≤ 1600.
Proof.
  intros [Hp Hg Hall]. 
  repeat match goal with H : Forall _ (_ :: _) |- _ => apply Forall_cons in H as [[? ?] H] end.
  split_and!.
  - assert (∀ k, forallb plain_byte (sbytes k) = true → valid_utf8 (ascii k)) as Hk.
    { intros k ?. by apply plain_valid, plain_check. }
    cbn -[ascii valid_utf8 Itoa].
    repeat split; try (apply Hk; by vm_compute); try (by apply plain_valid);
      try (by apply jnum_ok; apply Hp); try (by apply jnum_ok; apply Hg).
  - split; [|by repeat split]. apply (bool_decide_unpack _). by vm_compute.
  - done.
  - unfold StreamOpen_json, jstr, jnum. cbn [Marshal List.map commas fst snd].
    rewrite ?tlen_cons, ?tlen_app, ?tlen_cons, ?tlen_app.
    repeat (rewrite ?tlen_cons, ?tlen_app). rewrite !quote_len, !tlen_ascii by
      (first [done | apply plain_check; by vm_compute]).
    pose proof (Itoa_len _ Hp). pose proof (Itoa_len _ Hg). change (tlen []) with 0.
    repeat match goal with
    | |- context [len ?k] =>
        lazymatch k with
        | context [s] => fail
        | _ => let z := eval vm_compute in (len k) in change (len k) with z
        end
    end.
    lia.
Qed.

Lemma sendable_payload s : sendable s → 0 < blen (StreamOpen_payload s) ≤ 1600.
Proof.
  intros (Hs & _ & _ & Hl)%sendable_json. unfold StreamOpen_payload.
  assert (blen (byte_of_Z <$> Marshal (StreamOpen_json s)) = tlen (Marshal (StreamOpen_json s))) as ->.
  { unfold blen, tlen. by rewrite length_fmap. }
  destruct (Marshal_head _ Hs) as (c & l & E & _). rewrite E in *. rewrite tlen_cons in *. unfold tlen in *. lia.
Qed.

(** ** Writers *)

(** A conforming writer counts the bytes it took, and takes a prefix. *)
Class ConformingWriter (W : Type) `{Writer W} := {
  sent : W → bytes;
  write_counts : ∀ w p, let '(w', (n, _)) := Write w p in 0 ≤ n ≤ blen p ∧ sent w' = sent w ++ take (Z.to_nat n) p
}.

Section Writers.
Context {W : Type} `{ConformingWriter W}.

Lemma write_loop_spec fuel w payload total :
  0 ≤ total ≤ blen payload → blen payload - total < Z.of_nat fuel →
  ∃ w' t e, write_loop fuel w payload total = Some (w', (t, e)) ∧ total ≤ t ≤ blen payload
    ∧ sent w' = sent w ++ take (Z.to_nat (t - total)) (drop (Z.to_nat total) payload)
    ∧ (e = None → t = blen payload).
Proof.
  revert w total. induction fuel as [|fuel IH]; intros w total Ht Hf; [lia|]. cbn.
  destruct (total <? blen payload) eqn:E; bools.
  2: { exists w, total, None. split_and!; [done|lia|lia| |lia]. rewrite Z.sub_diag. by rewrite app_nil_r. }
  pose proof (write_counts w (drop (Z.to_nat total) payload)) as Hw.
  destruct (Write w (drop (Z.to_nat total) payload)) as [w1 [n e]]. destruct Hw as [Hn Hs].
  assert (blen (drop (Z.to_nat total) payload) = blen payload - total) as Hd.
  { unfold blen in *. rewrite length_drop. lia. }
  destruct (failed e) eqn:Ee.
  { exists w1, (total + n), e. split_and!; [done|lia|lia| |]; [|by intros ->].
    rewrite Hs. f_equal. f_equal. lia. }
  destruct (n =? 0) eqn:En; bools.
  { exists w1, (total + n), (Some ErrShortWrite). split_and!; [done|lia|lia| |done]. rewrite Hs. f_equal. f_equal. lia. }
  destruct (IH w1 (total + n)) as (w' & t & e' & Ew & Ht' & Hs' & He'); [lia..|].
  exists w', t, e'. split_and!; [done|lia|lia| |done]. rewrite Hs', Hs, <- app_assoc. f_equal.
  replace (Z.to_nat (t - total)) with (Z.to_nat n + Z.to_nat (t - (total + n)))%nat by lia.
  replace (Z.to_nat (total + n)) with (Z.to_nat total + Z.to_nat n)%nat by lia.
  rewrite <- drop_drop. by rewrite <- (take_take_drop _ (Z.to_nat n)).
Qed.

Lemma writeAll_spec w payload :
  ∃ w' t e, writeAllStreamOpen w payload = Some (w', (t, e)) ∧ (e = None → sent w' = sent w ++ payload).
Proof.
  destruct (write_loop_spec (S (length payload)) w payload 0) as (w' & t & e & E & Ht & Hs & He);
    [unfold blen; lia|unfold blen; lia|].
  exists w', t, e. split; [done|]. intros He'. rewrite Hs, (He He'). f_equal.
  rewrite drop_0, take_ge; [done|unfold blen; lia].
Qed.

Lemma write_parts_spec w payload :
  ∃ w' e, write_parts w payload = Some (w', e) ∧ (e = None → sent w' = sent w ++ put_uint32 (blen payload) ++ payload).
Proof.
  unfold write_parts.
  destruct (writeAll_spec w (put_uint32 (blen payload))) as (w1 & t1 & e1 & -> & H1).
  destruct e1 as [e1|]; [by eexists _, _|].
  destruct (writeAll_spec w1 payload) as (w2 & t2 & e2 & -> & H2).
  destruct e2 as [e2|]; [by eexists _, _|]. eexists _, _. split; [done|]. intros _.
  by rewrite H2, H1, <- app_assoc by done.
Qed.
End Writers.

Lemma uint32_roundtrip z : 0 ≤ z < two32 → uint32_of (put_uint32 z) = z.
Proof.
  intros Hz. unfold uint32_of, put_uint32, two32 in *. rewrite !byte_to_of_Z.
  replace (z / 65536) with (z / 256 / 256) by (by rewrite Z.div_div).
  replace (z / 16777216) with (z / 256 / 256 / 256) by (by rewrite !Z.div_div).
  pose proof (Z.div_mod z 256 ltac:(lia)). pose proof (Z.div_mod (z / 256) 256 ltac:(lia)).
  pose proof (Z.div_mod (z / 256 / 256) 256 ltac:(lia)).
  rewrite (Z.mod_small (z / 256 / 256 / 256)); [lia|]. rewrite !Z.div_div by lia.
  split; [apply Z.div_pos; lia|apply Z.div_lt_upper_bound; lia].
Qed.

Lemma ReadFull_app a b : ReadFull (blen a) (a ++ b) = inr (a, b).
Proof.
  unfold ReadFull. rewrite blen_app, (proj2 (Z.ltb_ge _ _)) by (pose proof (blen_nonneg b); lia).
  unfold blen. rewrite Nat2Z.id. by rewrite take_app_length, drop_app_length.
Qed.

(** Reading a frame that was written. *)
Lemma read_frame_header payload rest :
  blen payload < two32 →
  ReadFull 4 (put_uint32 (blen payload) ++ payload ++ rest) = inr (put_uint32 (blen payload), payload ++ rest)
  ∧ uint32_of (put_uint32 (blen payload)) = blen payload.
Proof.
  intros Hl. split; [apply (ReadFull_app (put_uint32 (blen payload)))|].
  apply uint32_roundtrip. pose proof (blen_nonneg payload). lia.
Qed.


(** C18. A preface that was written is read back exactly: the bytes on the wire are at most
    [MaxStreamOpenBytes], and the reader returns the same preface and leaves precisely
    the bytes that follow it, so no application byte is lost or misread. *)
Theorem stream_open_roundtrip {W} `{ConformingWriter W} (w w' : W) s :
  is_u64 (so_ProcessGeneration s) → is_u64 (so_Generation s) → WriteStreamOpen w s = Some (w', None) →
  ∃ frame, sent w' = sent w ++ frame ∧ blen frame ≤ MaxStreamOpenBytes
           ∧ ∀ rest, ReadStreamOpen (frame ++ rest) = inr (s, rest).
Proof.
  intros Hp Hg. unfold WriteStreamOpen. destruct (StreamOpen_Validate s) eqn:Hv; [done|]. cbn [failed].
  pose proof (valid_sendable s Hp Hg Hv) as Hsend. pose proof (sendable_payload s Hsend) as Hl.
  rewrite (proj2 (Z.eqb_neq (blen (StreamOpen_payload s)) 0)), (proj2 (Z.ltb_ge _ (blen (StreamOpen_payload s)))) by (unfold MaxStreamOpenBytes, streamOpenHeader; lia).
  destruct (write_parts_spec w (StreamOpen_payload s)) as (w1 & e & -> & Hs). intros [= <- ->].
  set (payload := StreamOpen_payload s) in *. exists (put_uint32 (blen payload) ++ payload).
  split_and!; [by apply Hs|rewrite blen_app; change (blen (put_uint32 (blen payload))) with 4; unfold MaxStreamOpenBytes; lia|].
  intros rest. unfold ReadStreamOpen, streamOpenHeader. rewrite <- app_assoc.
  destruct (read_frame_header payload rest) as [-> ->]; [unfold two32; lia|].
  rewrite (proj2 (Z.leb_gt (blen payload) 0)), (proj2 (Z.ltb_ge _ (blen payload))) by (unfold MaxStreamOpenBytes; lia).
  rewrite ReadFull_app. destruct (sendable_json s Hsend) as (H1 & H2 & H3 & H4).
  unfold payload, StreamOpen_payload. rewrite (decodeStrict_Marshal decode_StreamOpen _ s); [by rewrite Hv|done|done| | |].
  - rewrite H3. done.
  - unfold MaxFrameBytes, MaxSnapshotBytes. lia.
  - by apply decode_struct_eq.
Qed.

(** A private-access frame that was written is read back exactly, for any encoding of
    its value that strict decoding inverts: the value passes the same validation at both
    ends and the bytes behind the frame are left alone. *)
Theorem access_frame_roundtrip {W A} `{ConformingWriter W} (w w' : W) (marshal : A → option bytes) decode validate value now payload :
  marshal value = Some payload → decodeStrict decode payload = inr value →
  WritePrivateAccess marshal validate w value now = Some (w', None) →
  ∃ frame, sent w' = sent w ++ frame ∧ blen frame ≤ MaxPrivateAccessFrameBytes
           ∧ ∀ rest, ReadPrivateAccess decode validate (frame ++ rest) now = inr (value, rest).
Proof.
  intros Em Ed. unfold WritePrivateAccess, writePrivateAccessFrame. rewrite Em.
  destruct (validate value now) eqn:Hv; [done|]. case_match eqn:El; [done|].
  apply orb_false_iff in El as [Hne%Z.eqb_neq Hl%Z.ltb_ge]. pose proof (blen_nonneg payload).
  destruct (write_parts_spec w payload) as (w1 & e & -> & Hs). intros [= <- ->].
  exists (put_uint32 (blen payload) ++ payload).
  unfold MaxPrivateAccessFrameBytes, privateAccessFrameHeader in *.
  split_and!; [by apply Hs|rewrite blen_app; change (blen (put_uint32 (blen payload))) with 4; lia|].
  intros rest. unfold ReadPrivateAccess, readPrivateAccessFrame, privateAccessFrameHeader, MaxPrivateAccessFrameBytes.
  rewrite <- app_assoc. destruct (read_frame_header payload rest) as [-> ->]; [unfold two32; lia|].
  rewrite (proj2 (Z.leb_gt (blen payload) 0)), (proj2 (Z.ltb_ge _ (blen payload))) by lia. cbn. by rewrite ReadFull_app, Ed, Hv.
Qed.

(** ** Carrier identities *)

Lemma binding_json_ok b :
  0 ≤ ci_ProcessGeneration b → 0 ≤ ci_ConfigGeneration b → CarrierBinding_Validate b = None →
  scalars_ok (CarrierBinding_json b) ∧ nested (CarrierBinding_json b) = 1.
Proof.
  intros H1 H2. unfold CarrierBinding_Validate. case_match eqn:E; [done|]. intros _. bools.
  repeat match goal with H : badID _ = false |- _ => apply badID_plain in H as [? _] end.
  match goal with H : failed (ValidateOpaqueEpoch _) = false |- _ => apply opaque_epoch_plain in H end.
  split; [|done].
  assert (∀ k, forallb plain_byte (sbytes k) = true → valid_utf8 (ascii k)) as Hk.
  { intros k ?. by apply plain_valid, plain_check. }
  cbn -[ascii valid_utf8 Itoa].
  repeat split; try (apply Hk; by vm_compute); try (by apply plain_valid); try (by apply jnum_ok).
Qed.

Lemma ascii_inj a b : ascii a = ascii b → a = b.
Proof. intros E%(f_equal of_text). by rewrite !of_text_ascii in E. Qed.

Lemma Itoa_inj a b : 0 ≤ a → 0 ≤ b → Itoa a = Itoa b → a = b.
Proof. intros Ha Hb E. pose proof (Itoa_value a Ha) as H1. pose proof (Itoa_value b Hb) as H2. rewrite E in H1. congruence. Qed.

Lemma binding_json_inj b b' :
  0 ≤ ci_ProcessGeneration b → 0 ≤ ci_ConfigGeneration b → 0 ≤ ci_ProcessGeneration b' → 0 ≤ ci_ConfigGeneration b' →
  CarrierBinding_json b = CarrierBinding_json b' → b = b'.
Proof.
  intros ???? E. unfold CarrierBinding_json, jstr, jnum in E.
  injection E as E1 E2 E3 E4 E5 E6 E7 E8. apply ascii_inj in E1, E2, E3, E4, E5, E6, E7, E8. apply Itoa_inj in E6, E7; [|done..].
  destruct b, b'; cbn in *; congruence.
Qed.

(** A certificate with exactly one carrier name is accepted for one binding only: if
    the name was issued for a binding and matches another, the two are the same, so a
    replaced session, process or configuration generation or edge epoch is refused. *)
Theorem carrier_urn_binds sha256 b b' uris uri :
  is_u64 (ci_ProcessGeneration b) → is_u64 (ci_ConfigGeneration b) →
  is_u64 (ci_ProcessGeneration b') → is_u64 (ci_ConfigGeneration b') →
  (sha256 (CarrierBinding_encoded b) = sha256 (CarrierBinding_encoded b') →
   CarrierBinding_encoded b = CarrierBinding_encoded b') →
  CarrierIdentityURN sha256 b = inr uri → In (Some uri) uris → MatchCarrierIdentityURN sha256 uris b' = None →
  b = b' ∧ uris = [Some uri].
Proof.
  intros [? _] [? _] [? _] [? _] Hcol Hb Hin. unfold MatchCarrierIdentityURN, CarrierIdentityURN in *.
  destruct (CarrierBinding_Validate b) eqn:Hvb; [done|]. destruct (CarrierBinding_Validate b') eqn:Hvb'; [done|].
  destruct uris as [|[u|] [|]]; try done. case_match eqn:E; [done|]. intros _. bools.
  destruct Hin as [[= ->]|[]]. split; [|done]. injection Hb as Hb. rewrite <- Hb in E. apply (f_equal sbytes) in E.
  apply binding_json_inj; [done..|].
  assert (CarrierBinding_encoded b = CarrierBinding_encoded b') as Eenc.
  { apply Hcol. rewrite !sbytes_app in E. apply app_inv_head, (f_equal bstring) in E as E64.
    rewrite !bstring_sbytes in E64.
    apply (f_equal DecodeString) in E64. rewrite !DecodeString_EncodeToString in E64. congruence. }
  destruct (binding_json_ok b) as [Hs Hn], (binding_json_ok b') as [Hs' Hn']; [done..|].
  unfold CarrierBinding_encoded in Eenc. apply (f_equal to_text) in Eenc.
  change (byte_of_Z <$> Marshal (CarrierBinding_json b)) with (of_codes (Marshal (CarrierBinding_json b))) in Eenc.
  change (byte_of_Z <$> Marshal (CarrierBinding_json b')) with (of_codes (Marshal (CarrierBinding_json b'))) in Eenc.
  rewrite !to_of_codes in Eenc by (by apply Marshal_bytes).
  pose proof (parse_text_Marshal _ Hs ltac:(by rewrite Hn)) as Hp. rewrite Eenc in Hp.
  rewrite (parse_text_Marshal _ Hs' ltac:(by rewrite Hn')) in Hp. congruence.
Qed.

(** ** A preface on a wire that takes five bytes at a time *)

Module Wire.

Record wire := mkWire { on_wire : bytes }.

#[export] Instance wire_writer : Writer wire := λ w p,
  (mkWire (on_wire w ++ take 5 p), (Z.min 5 (blen p), None)).

#[export] Instance wire_conforms : ConformingWriter wire.
Proof.
  refine {| sent := on_wire |}. intros w p. cbn. pose proof (blen_nonneg p). split; [lia|]. f_equal.
  unfold blen. destruct (decide (5 ≤ length p)%nat).
  - by replace (Z.to_nat (Z.min 5 (Z.of_nat (length p)))) with 5%nat by lia.
  - replace (Z.to_nat (Z.min 5 (Z.of_nat (length p)))) with (length p) by lia. by rewrite !take_ge by lia.
Defined.

Definition open0 : StreamOpen :=
  mkOpen ProtocolName ProtocolVersion "acct" "tun" "con" "sess" 3 18446744073709551615 "route" "req:1" "http".

Definition wire0 : wire := mkWire [].

Lemma stream_open_roundtrip_witness :
  match WriteStreamOpen wire0 open0 with
  | Some (w', None) => ∃ frame, on_wire w' = frame ∧ ∀ rest, ReadStreamOpen (frame ++ rest) = inr (open0, rest)
  | _ => False
  end.
Proof.
  assert (is_u64 (so_ProcessGeneration open0)) as U1 by done.
  assert (is_u64 (so_Generation open0)) as U2 by done.
  destruct (WriteStreamOpen wire0 open0) as [[w' e]|] eqn:E; [|vm_compute in E; discriminate E].
  assert (e = None) as -> by (vm_compute in E; injection E as _ <-; reflexivity).
  destruct (stream_open_roundtrip wire0 w' open0 U1 U2 E) as (frame & Hs & _ & Hr).
  exact (ex_intro _ frame (conj Hs Hr)).
Defined.


Lemma access_frame_roundtrip_witness :
  match WritePrivateAccess (λ s, Some (StreamOpen_payload s)) (λ s _, StreamOpen_Validate s) wire0 open0 0 with
  | Some (w', None) => ∃ frame, on_wire w' = frame
      ∧ ∀ rest, ReadPrivateAccess decode_StreamOpen (λ s _, StreamOpen_Validate s) (frame ++ rest) 0 = inr (open0, rest)
  | _ => False
  end.
Proof.
  assert (decodeStrict decode_StreamOpen (StreamOpen_payload open0) = inr open0) as D by (vm_compute; reflexivity).
  destruct (WritePrivateAccess _ _ wire0 open0 0) as [[w' e]|] eqn:E; [|vm_compute in E; discriminate E].
  assert (e = None) as -> by (vm_compute in E; injection E as _ <-; reflexivity).
  destruct (access_frame_roundtrip wire0 w' (λ s, Some (StreamOpen_payload s)) decode_StreamOpen
              (λ s _, StreamOpen_Validate s) open0 0 (StreamOpen_payload open0) eq_refl D E) as (frame & Hs & _ & Hr).
  exact (ex_intro _ frame (conj Hs Hr)).
Defined.

(** A second member whose name differs in case passes the duplicate check, and its value
    is the one that counts: the text names session [sess], the preface says [other]. *)
Theorem preface_case_variant :
  let members := match StreamOpen_json open0 with JObject m => m | _ => [] end in
  let text := Marshal (JObject (members ++ [(ascii "Session_ID", jstr "other")])) in
  let payload := byte_of_Z <$> text in
  rejectDuplicateKeys text = None
  ∧ ReadStreamOpen (put_uint32 (blen payload) ++ payload) = inr (open0 <| so_SessionID := "other" |>, []).
Proof. vm_compute. done. Qed.

Definition binding0 : CarrierIdentityBinding := mkBinding "acct" "host" "tun" "con" "sess" 3 7 "epoch-12".

Lemma carrier_urn_binds_witness :
  match CarrierIdentityURN (λ b, take 32 b) binding0 with
  | inr uri => MatchCarrierIdentityURN (λ b, take 32 b) [Some uri] binding0 = None ∧ [Some uri] = [Some uri]
  | inl _ => False
  end.
Proof.
  assert (is_u64 (ci_ProcessGeneration binding0)) as U1 by done.
  assert (is_u64 (ci_ConfigGeneration binding0)) as U2 by done.
  destruct (CarrierIdentityURN (λ b, take 32 b) binding0) as [e|uri] eqn:E; [vm_compute in E; discriminate E|].
  assert (MatchCarrierIdentityURN (λ b, take 32 b) [Some uri] binding0 = None) as Hm.
  { vm_compute in E. injection E as <-. vm_compute. reflexivity. }
  split; [exact Hm|].
  refine (proj2 (carrier_urn_binds (λ b, take 32 b) binding0 binding0 [Some uri] uri U1 U2 U1 U2 (λ _, eq_refl) E (or_introl eq_refl) Hm)).
Defined.
End Wire.

End StreamFramesProofs.
