(* ===== verification/Carrier.v ===== *)
(** * Data carrier: configuration, permits and streams

    Models [internal/datacarrier/carrier.go] and [access_stream.go]: the carrier
    configuration, the stream permits and opening slots shared by both ends, and the edge
    end ([Server]) with its streams.

    Goroutines that wait in a [select] are entries of a table of calls; an event lets one
    of them take one case, so a run is an interleaving of the calls.  [ctxErr] is the
    value of [ctx.Err()] when the [select] is left; a case that is not ready makes the
    event impossible ([None]).  The multiplexer below the carrier is a parameter: events
    carry what it returned.  Links it handed out are numbered, with a flag while they are
    open. *)
From S2P Require Import Prelude Go Protocol StreamFrames.

Module Carrier.
Import StreamFrames.

(** ** Constants and errors *)

Definition defaultMaximumStreams : Z := 64.
Definition defaultAcceptBacklog : Z := 16.
Definition defaultQueueDepth : Z := 16.
Definition defaultStreamWindow : Z := 256 * 1024.
Definition defaultKeepAliveInterval : Duration := 30 * Second.
Definition defaultWriteLimit : Duration := 10 * Second.
Definition defaultOpenLimit : Duration := 10 * Second.
Definition defaultCloseLimit : Duration := 5 * Second.
Definition maxMaximumStreams : Z := 1024.
Definition maxAcceptBacklog : Z := 1024.
Definition maxQueueDepth : Z := 1024.
Definition maxStreamWindow : Z := 16 * 1048576.
Definition maxOperationTimeout : Duration := Minute.

Definition ErrInvalidConfig : err := EPlain "invalid data carrier configuration".
Definition ErrCarrierClosed : err := EPlain "data carrier closed".
Definition ErrStreamLimit : err := EPlain "data carrier stream limit reached".
Definition ErrCarrierOverloaded : err := EPlain "data carrier overloaded".
Definition ErrIdentityMismatch : err := EPlain "data carrier stream identity mismatch".
Definition ErrRouteDenied : err := EPlain "data carrier route denied".
Definition ErrInvalidPreface : err := EPlain "invalid data carrier stream preface".
Definition ErrRequestInUse : err := EPlain "data carrier request already in use".
Definition ErrAccessStreamKind : err := EPlain "invalid private access stream kind".
Definition ErrAccessStreamIdentity : err := EPlain "private access stream identity mismatch".

(** ** Identity *)

Record Identity := mkIdentity {
  id_AccountID : string;
  id_HostID : string;
  id_TunnelID : string;
  id_ConnectorID : string;
  id_SessionID : string;
  id_ProcessGeneration : Z;
  id_Generation : Z
}.
#[export] Instance Identity_eq_dec : EqDecision Identity.
Proof. solve_decision. Defined.

Definition zeroIdentity : Identity := mkIdentity "" "" "" "" "" 0 0.

Definition Identity_Validate (i : Identity) : option err :=
  if badID (id_AccountID i) || badID (id_HostID i) || badID (id_TunnelID i) || badID (id_ConnectorID i)
     || badID (id_SessionID i) || (id_ProcessGeneration i =? 0) || (id_Generation i =? 0)
  then Some ErrInvalidConfig else None.

Definition matches (i : Identity) (open : StreamOpen) : bool :=
  (so_AccountID open == id_AccountID i) && (so_TunnelID open == id_TunnelID i)
  && (so_ConnectorID open == id_ConnectorID i) && (so_SessionID open == id_SessionID i)
  && (so_ProcessGeneration open =? id_ProcessGeneration i) && (so_Generation open =? id_Generation i).

(** ** Configuration *)

Record Config := mkConfig {
  cf_MaximumStreams : Z;
  cf_AcceptBacklog : Z;
  cf_QueueDepth : Z;
  cf_StreamWindow : Z;
  cf_KeepAliveInterval : Duration;
  cf_ConnectionWriteLimit : Duration;
  cf_StreamOpenLimit : Duration;
  cf_StreamCloseLimit : Duration;
  cf_Identity : Identity;
  cf_Authorize : option (Identity → StreamOpen → option err)
}.
#[export] Instance Config_eta : Eta Config := λ r,
  mkConfig (cf_MaximumStreams r) (cf_AcceptBacklog r) (cf_QueueDepth r) (cf_StreamWindow r) (cf_KeepAliveInterval r)
    (cf_ConnectionWriteLimit r) (cf_StreamOpenLimit r) (cf_StreamCloseLimit r) (cf_Identity r) (cf_Authorize r).

Definition DefaultConfig : Config :=
  mkConfig defaultMaximumStreams defaultAcceptBacklog defaultQueueDepth defaultStreamWindow defaultKeepAliveInterval
    defaultWriteLimit defaultOpenLimit defaultCloseLimit zeroIdentity None.

Definition or_default (x d : Z) : Z := if x =? 0 then d else x.

Definition withDefaults (c : Config) : Config :=
  let d := DefaultConfig in
  c <| cf_MaximumStreams := or_default (cf_MaximumStreams c) (cf_MaximumStreams d) |>
    <| cf_AcceptBacklog := or_default (cf_AcceptBacklog c) (cf_AcceptBacklog d) |>
    <| cf_QueueDepth := or_default (cf_QueueDepth c) (cf_QueueDepth d) |>
    <| cf_StreamWindow := or_default (cf_StreamWindow c) (cf_StreamWindow d) |>
    <| cf_KeepAliveInterval := or_default (cf_KeepAliveInterval c) (cf_KeepAliveInterval d) |>
    <| cf_ConnectionWriteLimit := or_default (cf_ConnectionWriteLimit c) (cf_ConnectionWriteLimit d) |>
    <| cf_StreamOpenLimit := or_default (cf_StreamOpenLimit c) (cf_StreamOpenLimit d) |>
    <| cf_StreamCloseLimit := or_default (cf_StreamCloseLimit c) (cf_StreamCloseLimit d) |>.

Definition validTimeout (timeout : Duration) : bool := (0 <? timeout) && (timeout <=? maxOperationTimeout).

Definition invalid (detail : string) : option err := Some (EWrap detail ErrInvalidConfig).

Definition Config_validate (c : Config) (allowUnboundIdentity : bool) : option err :=
  let c := withDefaults c in
  if (cf_MaximumStreams c <=? 0) || (maxMaximumStreams <? cf_MaximumStreams c)
  then invalid "maximum streams must be in [1,1024]"
  else if (cf_AcceptBacklog c <=? 0) || (maxAcceptBacklog <? cf_AcceptBacklog c) || (cf_MaximumStreams c <? cf_AcceptBacklog c)
  then invalid "accept backlog must be in [1,1024] and no greater than maximum streams"
  else if (cf_QueueDepth c <=? 0) || (maxQueueDepth <? cf_QueueDepth c)
  then invalid "queue depth must be in [1,1024]"
  else if (cf_StreamWindow c <? defaultStreamWindow) || (maxStreamWindow <? cf_StreamWindow c)
  then invalid "stream window must be in range"
  else if (cf_KeepAliveInterval c <=? 0) || (Hour <? cf_KeepAliveInterval c) || negb (validTimeout (cf_ConnectionWriteLimit c))
          || negb (validTimeout (cf_StreamOpenLimit c)) || negb (validTimeout (cf_StreamCloseLimit c))
  then invalid "transport timeout is outside the supported range"
  else if cf_Identity c == zeroIdentity
  then if allowUnboundIdentity
       then if nonnil (cf_Authorize c) then None else invalid "route authorizer is required"
       else invalid "authenticated identity is required"
  else if failed (Identity_Validate (cf_Identity c)) then invalid "authenticated identity is invalid"
  else if nonnil (cf_Authorize c) then None else invalid "route authorizer is required".

Definition Config_Validate (c : Config) : option err := Config_validate c false.
Definition validateListener (c : Config) : option err := Config_validate c true.

(** The call of the configured authorizer; it is not [nil] in a validated configuration. *)
Definition authorize (c : Config) (open : StreamOpen) : option err :=
  match cf_Authorize c with Some f => f (cf_Identity c) open | None => None end.

(** ** Permits and slots

    The buffered channels [permits] and [openings] are counters with a capacity. *)
Record core := mkCore {
  c_config : Config;
  c_permits : Z;
  c_openings : Z;
  c_active : Z;
  c_done : bool;
  c_closeErr : option err
}.
#[export] Instance core_eta : Eta core := λ r,
  mkCore (c_config r) (c_permits r) (c_openings r) (c_active r) (c_done r) (c_closeErr r).

Definition newCore (config : Config) : core := mkCore config 0 0 0 false None.

(** Which ready case of a [select] a call takes. *)
Inductive choice := Proceed | OnDone | OnContext | OnDefault.

Definition permit_free (c : core) : bool := c_permits c <? cf_MaximumStreams (c_config c).

(** The first [select] of [openRaw] and [acceptRaw], behind the test of [closed]: the
    outcome of a case, [None] when the case is not ready. *)
Definition select_permit (c : core) (ctxErr : option err) (ch : choice) : option (core * option err) :=
  if c_done c then Some (c, Some ErrCarrierClosed)
  else match ch with
  | Proceed => if permit_free c
               then Some (c <| c_permits := c_permits c + 1 |> <| c_active := c_active c + 1 |>, None) else None
  | OnContext => match ctxErr with Some e => Some (c, Some e) | None => None end
  | OnDefault => if permit_free c || nonnil ctxErr then None else Some (c, Some ErrStreamLimit)
  | OnDone => None
  end.

Definition slot_free (c : core) : bool := c_openings c <? cf_QueueDepth (c_config c).

(** The [select] of [openRaw] that takes an opening slot; [release] is [releasePermit]. *)
Definition select_slot (release : core → core) (c : core) (ctxErr : option err) (ch : choice)
    : option (core * option err) :=
  match ch with
  | Proceed => if slot_free c then Some (c <| c_openings := c_openings c + 1 |>, None) else None
  | OnDone => if c_done c then Some (release c, Some ErrCarrierClosed) else None
  | OnContext => match ctxErr with Some e => Some (release c, Some e) | None => None end
  | OnDefault => None
  end.

Definition take_slot_back (c : core) : core := c <| c_openings := c_openings c - 1 |>.

(** An error of the multiplexer after the carrier was closed is [ErrCarrierClosed]. *)
Definition session_error (c : core) (e : err) : err := if c_done c then ErrCarrierClosed else e.

(** The result case: what [openRaw] or [acceptRaw] returns, and whether it closes the
    link first. *)
Definition take_result (release : core → core) (c : core) (r : option err) (ctxErr : option err)
    : core * option err * bool :=
  match r, ctxErr with
  | Some e, _ => (release c, Some (session_error c e), false)
  | None, Some e => (release c, Some e, true)
  | None, None => (c, None, false)
  end.

Definition shutdown (c : core) (e : option err) : core :=
  if c_done c then c else c <| c_done := true |> <| c_closeErr := e |>.

Definition ActiveStreams (c : core) : Z := if c_done c then 0 else if c_active c <=? 0 then 0 else c_active c.

(** ** Streams *)

(** The release function a stream was wrapped with. *)
Inductive release_fn := ReleasePermit | ClearControl | ReleaseRequest (key : string).

Record Stream := mkStream {
  st_link : nat;
  st_open : option StreamOpen;
  st_release : release_fn;
  st_closed : bool
}.
#[export] Instance Stream_eta : Eta Stream := λ r, mkStream (st_link r) (st_open r) (st_release r) (st_closed r).

(** ** Calls in progress *)

Inductive purpose := DataStream (open : StreamOpen) | ControlStream.
Inductive accept_purpose := AcceptControl | AcceptAccess.

Inductive call :=
  | WaitSlot (p : purpose)                    (** permit taken, waits for a slot *)
  | WaitOpen (p : purpose)                    (** permit and slot taken, the open is under way *)
  | CanceledOpen                              (** [finishCanceledOpen] waits for the open *)
  | Writing (open : StreamOpen) (link : nat)  (** the preface is being written *)
  | WaitAccept (p : accept_purpose)           (** permit taken, waits for the host *)
  | CanceledAccept                            (** [finishCanceledAccept] waits *)
  | Wrapped (stream : nat)                    (** [AcceptControlStream] before it publishes the stream *)
  | Reading (link : nat)                      (** the preface of an access stream is being read *)
  | Returned (r : err + nat)                  (** an error, or the stream *)
  | Ended.                                    (** a goroutine that returns nothing *)

(** ** What both ends share: streams, links and calls *)

Record Endpoint := mkEndpoint {
  e_core : core;
  e_streams : list Stream;
  e_links : list bool;
  e_calls : list call
}.
#[export] Instance Endpoint_eta : Eta Endpoint := λ r, mkEndpoint (e_core r) (e_streams r) (e_links r) (e_calls r).

Definition newEndpoint (config : Config) : Endpoint := mkEndpoint (newCore config) [] [] [].

Definition upd_core (f : core → core) (s : Endpoint) : Endpoint := s <| e_core := f (e_core s) |>.
Definition start_call (k : call) (s : Endpoint) : Endpoint := s <| e_calls := e_calls s ++ [k] |>.
Definition set_call (i : nat) (k : call) (s : Endpoint) : Endpoint := s <| e_calls := <[i := k]> (e_calls s) |>.
Definition close_link (l : nat) (s : Endpoint) : Endpoint := s <| e_links := <[l := false]> (e_links s) |>.

(** The multiplexer hands out a link. *)
Definition new_link (s : Endpoint) : Endpoint * nat := (s <| e_links := e_links s ++ [true] |>, length (e_links s)).

Definition wrapStream (l : nat) (rel : release_fn) (open : option StreamOpen) (s : Endpoint) : Endpoint * nat :=
  (s <| e_streams := e_streams s ++ [mkStream l open rel false] |>, length (e_streams s)).

(** Opening a stream.  The two ends have the same code except for their
    [releasePermit], which is a parameter here. *)
Section Opening.
Variable release_permit : core → core.

Definition begin_open (p : purpose) (ctxErr : option err) (ch : choice) (s : Endpoint) : option Endpoint :=
  match select_permit (e_core s) ctxErr ch with
  | Some (c, None) => Some (start_call (WaitSlot p) (s <| e_core := c |>))
  | Some (c, Some e) => Some (start_call (Returned (inl e)) (s <| e_core := c |>))
  | None => None
  end.

Definition open_checked (open : StreamOpen) (ctxErr : option err) (ch : choice) (s : Endpoint) : option Endpoint :=
  let config := c_config (e_core s) in
  let fail e := Some (start_call (Returned (inl e)) s) in
  if failed (StreamOpen_Validate open) then fail ErrInvalidPreface
  else if negb (matches (cf_Identity config) open) then fail ErrIdentityMismatch
  else match authorize config open with
  | Some e => fail (EWrap "" ErrRouteDenied)
  | None => begin_open (DataStream open) ctxErr ch s
  end.

Definition openRaw_slot (i : nat) (ctxErr : option err) (ch : choice) (s : Endpoint) : option Endpoint :=
  match e_calls s !! i with
  | Some (WaitSlot p) =>
      match select_slot release_permit (e_core s) ctxErr ch with
      | Some (c, None) => Some (set_call i (WaitOpen p) (s <| e_core := c |>))
      | Some (c, Some e) => Some (set_call i (Returned (inl e)) (s <| e_core := c |>))
      | None => None
      end
  | _ => None
  end.

(** [r] is the error of the multiplexer; without one it handed out a new link. *)
Definition openRaw_result (i : nat) (r ctxErr : option err) (s : Endpoint) : option Endpoint :=
  match e_calls s !! i with
  | Some (WaitOpen p) =>
      let s := upd_core take_slot_back s in
      let '(s, l) := match r with None => new_link s | Some _ => (s, 0%nat) end in
      let '(c, e, close) := take_result release_permit (e_core s) r ctxErr in
      let s := (if close then close_link l s else s) <| e_core := c |> in
      match e with
      | Some e => Some (set_call i (Returned (inl e)) s)
      | None =>
          match p with
          | DataStream open => Some (set_call i (Writing open l) s)
          | ControlStream => let '(s, id) := wrapStream l ReleasePermit None s in Some (set_call i (Returned (inr id)) s)
          end
      end
  | _ => None
  end.

(** The cases [<-s.done] and [<-ctx.Done()]: the call returns and leaves the rest to the
    goroutine [finishCanceledOpen], which is a call of its own. *)
Definition openRaw_cancel (i : nat) (ctxErr : option err) (ch : choice) (s : Endpoint) : option Endpoint :=
  let leave e := Some (start_call CanceledOpen (set_call i (Returned (inl e)) s)) in
  match e_calls s !! i with
  | Some (WaitOpen _) =>
      match ch with
      | OnDone => if c_done (e_core s) then leave ErrCarrierClosed else None
      | OnContext => match ctxErr with Some e => leave e | None => None end
      | _ => None
      end
  | _ => None
  end.

(** A link that comes too late is closed. *)
Definition drop_late (r : option err) (s : Endpoint) : Endpoint :=
  match r with None => let '(s, l) := new_link s in close_link l s | Some _ => s end.

Definition finishCanceledOpen (i : nat) (r : option err) (s : Endpoint) : option Endpoint :=
  match e_calls s !! i with
  | Some CanceledOpen => Some (set_call i Ended (upd_core (release_permit ∘ take_slot_back) (drop_late r s)))
  | _ => None
  end.

(** [writeStreamOpen] ended with [r]. *)
Definition open_written (i : nat) (r : option err) (s : Endpoint) : option Endpoint :=
  match e_calls s !! i with
  | Some (Writing open l) =>
      match r with
      | Some e => Some (set_call i (Returned (inl e)) (upd_core release_permit (close_link l s)))
      | None => let '(s, id) := wrapStream l ReleasePermit (Some open) s in Some (set_call i (Returned (inr id)) s)
      end
  | _ => None
  end.

(** [Stream.Close] and [Stream.abort]: the body runs once, closes the link and calls the
    release function, whose part outside the endpoint is left to the caller. *)
Definition close_stream (id : nat) (s : Endpoint) : Endpoint * option release_fn :=
  match e_streams s !! id with
  | Some st =>
      if st_closed st then (s, None)
      else
        let s := close_link (st_link st) (s <| e_streams := <[id := st <| st_closed := true |>]> (e_streams s) |>) in
        (match st_release st with ClearControl => s | _ => upd_core release_permit s end, Some (st_release st))
  | None => (s, None)
  end.
End Opening.

(** ** The edge end *)

Record Server := mkServer {
  sv_end : Endpoint;
  sv_control : option nat;
  sv_controlOpening : bool
}.
#[export] Instance Server_eta : Eta Server := λ r, mkServer (sv_end r) (sv_control r) (sv_controlOpening r).

Definition NewServerWithSession (config : Config) : err + Server :=
  let config := withDefaults config in
  match Config_Validate config with
  | Some e => inl e
  | None => inr (mkServer (newEndpoint config) None false)
  end.

Definition releasePermit (c : core) : core :=
  c <| c_active := c_active c - 1 |>
    <| c_permits := if 0 <? c_permits c then c_permits c - 1 else c_permits c |>.

Definition clearControl (s : Server) : Server := s <| sv_control := None |>.

(** An operation of the shared part. *)
Definition on_end (f : Endpoint → option Endpoint) (s : Server) : option Server :=
  match f (sv_end s) with Some e => Some (s <| sv_end := e |>) | None => None end.

Definition upd_end (f : Endpoint → Endpoint) (s : Server) : Server := s <| sv_end := f (sv_end s) |>.

Definition Stream_Close (id : nat) (s : Server) : Server :=
  let '(e, rel) := close_stream releasePermit id (sv_end s) in
  let s := s <| sv_end := e |> in
  match rel with Some ClearControl => clearControl s | _ => s end.

Definition OpenStreamWithLifetime (open : StreamOpen) (ctxErr : option err) (ch : choice) : Server → option Server :=
  on_end (open_checked open ctxErr ch).

Definition OpenControlStream (ctxErr : option err) (ch : choice) : Server → option Server :=
  on_end (begin_open ControlStream ctxErr ch).

(** *** Accepting *)

Definition begin_accept (p : accept_purpose) (ctxErr : option err) (ch : choice) (s : Server) : option Server :=
  match select_permit (e_core (sv_end s)) ctxErr ch with
  | Some (c, None) => Some (upd_end (λ e, start_call (WaitAccept p) (e <| e_core := c |>)) s)
  | Some (c, Some e) =>
      let s := match p with AcceptControl => s <| sv_controlOpening := false |> | AcceptAccess => s end in
      Some (upd_end (λ e', start_call (Returned (inl e)) (e' <| e_core := c |>)) s)
  | None => None
  end.

Definition AcceptControlStream (ctxErr : option err) (ch : choice) (s : Server) : option Server :=
  if nonnil (sv_control s) || sv_controlOpening s
  then Some (upd_end (start_call (Returned (inl ErrStreamLimit))) s)
  else begin_accept AcceptControl ctxErr ch (s <| sv_controlOpening := true |>).

Definition AcceptAccessStream : option err → choice → Server → option Server := begin_accept AcceptAccess.

(** An error of [acceptRaw], as its caller returns it. *)
Definition accept_failed (i : nat) (p : accept_purpose) (e : err) (s : Server) : Server :=
  upd_end (set_call i (Returned (inl e)))
    match p with AcceptControl => s <| sv_controlOpening := false |> | AcceptAccess => s end.

Definition acceptRaw_result (i : nat) (r ctxErr : option err) (s : Server) : option Server :=
  match e_calls (sv_end s) !! i with
  | Some (WaitAccept p) =>
      let '(e, l) := match r with None => new_link (sv_end s) | Some _ => (sv_end s, 0%nat) end in
      let '(c, failure, close) := take_result releasePermit (e_core e) r ctxErr in
      let e := (if close then close_link l e else e) <| e_core := c |> in
      match failure with
      | Some failure => Some (accept_failed i p failure (s <| sv_end := e |>))
      | None =>
          match p with
          | AcceptControl =>
              let '(e, id) := wrapStream l ClearControl None e in Some (s <| sv_end := set_call i (Wrapped id) e |>)
          | AcceptAccess => Some (s <| sv_end := set_call i (Reading l) e |>)
          end
      end
  | _ => None
  end.

Definition acceptRaw_cancel (i : nat) (ctxErr : option err) (ch : choice) (s : Server) : option Server :=
  let leave p e := Some (upd_end (start_call CanceledAccept) (accept_failed i p e s)) in
  match e_calls (sv_end s) !! i with
  | Some (WaitAccept p) =>
      match ch with
      | OnDone => if c_done (e_core (sv_end s)) then leave p ErrCarrierClosed else None
      | OnContext => match ctxErr with Some e => leave p e | None => None end
      | _ => None
      end
  | _ => None
  end.

Definition finishCanceledAccept (i : nat) (r : option err) (s : Server) : option Server :=
  match e_calls (sv_end s) !! i with
  | Some CanceledAccept => Some (upd_end (λ e, set_call i Ended (upd_core releasePermit (drop_late r e))) s)
  | _ => None
  end.

(** The last critical section of [AcceptControlStream]. *)
Definition control_publish (i : nat) (s : Server) : option Server :=
  match e_calls (sv_end s) !! i with
  | Some (Wrapped id) =>
      if c_done (e_core (sv_end s)) || nonnil (sv_control s)
      then Some (upd_end (set_call i (Returned (inl ErrCarrierClosed))) (Stream_Close id (s <| sv_controlOpening := false |>)))
      else Some (upd_end (set_call i (Returned (inr id))) (s <| sv_control := Some id |> <| sv_controlOpening := false |>))
  | _ => None
  end.

(** [AcceptAccessStream] after it read the preface, or failed to. *)
Definition access_read (i : nat) (r : err + StreamOpen) (s : Server) : option Server :=
  match e_calls (sv_end s) !! i with
  | Some (Reading l) =>
      let fail e := Some (upd_end (λ s, set_call i (Returned (inl e)) (upd_core releasePermit (close_link l s))) s) in
      match r with
      | inl e => fail e
      | inr open =>
          if negb (matches (cf_Identity (c_config (e_core (sv_end s)))) open) then fail ErrAccessStreamIdentity
          else if (so_Kind open != PrivateAccessHTTP) && (so_Kind open != PrivateAccessTCP) then fail ErrAccessStreamKind
          else let '(e, id) := wrapStream l ReleasePermit (Some open) (sv_end s) in
               Some (s <| sv_end := set_call i (Returned (inr id)) e |>)
      end
  | _ => None
  end.

(** *** Runs *)

Inductive event :=
  | EOpen (open : StreamOpen) (ctxErr : option err) (ch : choice)
  | EOpenControl (ctxErr : option err) (ch : choice)
  | EAcceptControl (ctxErr : option err) (ch : choice)
  | EAcceptAccess (ctxErr : option err) (ch : choice)
  | ESlot (i : nat) (ctxErr : option err) (ch : choice)
  | EOpened (i : nat) (r ctxErr : option err)
  | ECancelOpen (i : nat) (ctxErr : option err) (ch : choice)
  | EFinishOpen (i : nat) (r : option err)
  | EWritten (i : nat) (r : option err)
  | EAccepted (i : nat) (r ctxErr : option err)
  | ECancelAccept (i : nat) (ctxErr : option err) (ch : choice)
  | EFinishAccept (i : nat) (r : option err)
  | EPublish (i : nat)
  | ERead (i : nat) (r : err + StreamOpen)
  | EClose (id : nat)
  | EShutdown (e : option err).

Definition exec (ev : event) (s : Server) : option Server :=
  match ev with
  | EOpen open ctxErr ch => OpenStreamWithLifetime open ctxErr ch s
  | EOpenControl ctxErr ch => OpenControlStream ctxErr ch s
  | EAcceptControl ctxErr ch => AcceptControlStream ctxErr ch s
  | EAcceptAccess ctxErr ch => AcceptAccessStream ctxErr ch s
  | ESlot i ctxErr ch => on_end (openRaw_slot releasePermit i ctxErr ch) s
  | EOpened i r ctxErr => on_end (openRaw_result releasePermit i r ctxErr) s
  | ECancelOpen i ctxErr ch => on_end (openRaw_cancel i ctxErr ch) s
  | EFinishOpen i r => on_end (finishCanceledOpen releasePermit i r) s
  | EWritten i r => on_end (open_written releasePermit i r) s
  | EAccepted i r ctxErr => acceptRaw_result i r ctxErr s
  | ECancelAccept i ctxErr ch => acceptRaw_cancel i ctxErr ch s
  | EFinishAccept i r => finishCanceledAccept i r s
  | EPublish i => control_publish i s
  | ERead i r => access_read i r s
  | EClose id => Some (Stream_Close id s)
  | EShutdown e => Some (upd_end (upd_core (λ c, shutdown c e)) s)
  end.

Fixpoint run (evs : list event) (s : Server) : option Server :=
  match evs with
  | [] => Some s
  | ev :: evs => match exec ev s with Some s => run evs s | None => None end
  end.

Inductive reachable : Server → Prop :=
  | reachable_new config s : NewServerWithSession config = inr s → reachable s
  | reachable_step s s' ev : reachable s → exec ev s = Some s' → reachable s'.

End Carrier.
