(* ===== verification/CarrierProofs.v ===== *)
(** * Data carrier: accounting of permits, slots and links *)
From S2P Require Import Prelude Go Protocol StreamFrames Carrier.

Module CarrierProofs.
Import StreamFrames Carrier.

(** ** Counting *)

Definition b2z (b : bool) : Z := if b then 1 else 0.

Fixpoint countb {A} (p : A → bool) (l : list A) : Z :=
  match l with [] => 0 | x :: l => b2z (p x) + countb p l end.

Lemma countb_app {A} (p : A → bool) l k : countb p (l ++ k) = countb p l + countb p k.
Proof. induction l as [|x l IH]; cbn; lia. Qed.

Lemma countb_snoc {A} (p : A → bool) l x : countb p (l ++ [x]) = countb p l + b2z (p x).
Proof. rewrite countb_app. cbn. lia. Qed.

Lemma countb_insert {A} (p : A → bool) l i x y :
  l !! i = Some y → countb p (<[i := x]> l) = countb p l - b2z (p y) + b2z (p x).
Proof.
  revert i. induction l as [|z l IH]; intros [|i]; try done.
  - intros [= ->]. change (<[0%nat := x]> (y :: l)) with (x :: l). cbn [countb]. lia.
  - intros E. change (<[S i := x]> (z :: l)) with (z :: <[i := x]> l). cbn [countb]. rewrite (IH i E). lia.
Qed.

Lemma countb_nonneg {A} (p : A → bool) l : 0 ≤ countb p l.
Proof. induction l as [|x l IH]; cbn; [lia|]. destruct (p x); cbn; lia. Qed.

Lemma countb_pos {A} (p : A → bool) l i x : l !! i = Some x → p x = true → 1 ≤ countb p l.
Proof.
  revert i. induction l as [|y l IH]; intros [|i]; cbn; try done.
  - intros [= ->] ->. pose proof (countb_nonneg p l). cbn. lia.
  - intros E Hp. specialize (IH i E Hp). destruct (p y); cbn; lia.
Qed.

Lemma countb_zero {A} (p : A → bool) l : countb p l = 0 ↔ ∀ x, x ∈ l → p x = false.
Proof.
  induction l as [|y l IH]; cbn; [by split; [intros _ x ?%elem_of_nil|]|].
  pose proof (countb_nonneg p l). split.
  - intros E x [->|Hx]%elem_of_cons; [destruct (p y); cbn in E; [lia|done]|].
    apply IH; [|done]. destruct (p y); cbn in E; lia.
  - intros H'. rewrite (H' y) by left. cbn. apply IH. intros x Hx. apply H'. by right.
Qed.

Lemma countb_ext {A} (p q : A → bool) l : (∀ x, x ∈ l → p x = q x) → countb p l = countb q l.
Proof.
  induction l as [|y l IH]; intros H; cbn; [done|]. rewrite (H y) by left. rewrite IH; [done|].
  intros x Hx. apply H. by right.
Qed.

(** ** Who holds what *)

Definition holds_permit (k : call) : bool :=
  match k with Returned _ | Wrapped _ | Ended => false | _ => true end.

Definition holds_slot (k : call) : bool :=
  match k with WaitOpen _ | CanceledOpen => true | _ => false end.

Definition owns_link (l : nat) (k : call) : bool :=
  match k with Writing _ l' | Reading l' => bool_decide (l = l') | _ => false end.

Definition is_control (st : Stream) : bool := match st_release st with ClearControl => true | _ => false end.

(** A stream that gives its permit back when it is closed, and is not closed. *)
Definition will_release (st : Stream) : bool := negb (is_control st) && negb (st_closed st).

Definition stream_owns (l : nat) (st : Stream) : bool := bool_decide (l = st_link st) && negb (st_closed st).

(** The calls that hold a permit and the open streams that will return one. *)
Definition holders (s : Endpoint) : Z := countb holds_permit (e_calls s) + countb will_release (e_streams s).

(** Control streams accepted from the host so far, open or closed. *)
Definition controls (s : Endpoint) : Z := countb is_control (e_streams s).

Definition owners (s : Endpoint) (l : nat) : Z := countb (owns_link l) (e_calls s) + countb (stream_owns l) (e_streams s).

(** A preface that passed the checks of [OpenStream]. *)
Definition vetted (c : Config) (open : StreamOpen) : bool :=
  matches (cf_Identity c) open && negb (failed (StreamOpen_Validate open)) && negb (failed (authorize c open)).

(** What an end demands of the preface of a stream: at least as much as it checks for the
    streams it opens itself. *)
Class Admits := {
  admits : Config → StreamOpen → bool;
  admits_vetted c open : vetted c open = true → admits c open = true
}.

Definition conf (s : Endpoint) : Config := c_config (e_core s).

(** ** Links change hands *)

Definition link_open (links : list bool) (l : nat) : bool := default false (links !! l).

Lemma link_open_new links l : b2z (link_open (links ++ [true]) l) = b2z (link_open links l) + b2z (bool_decide (l = length links)).
Proof.
  unfold link_open. case_bool_decide as E.
  - subst l. rewrite lookup_app_r, Nat.sub_diag, (lookup_ge_None_2 links (length links)) by lia. done.
  - destruct (decide (l < length links)%nat).
    + rewrite lookup_app_l by lia. cbn. lia.
    + rewrite lookup_app_r by lia. rewrite (lookup_ge_None_2 links l) by lia.
      rewrite (lookup_ge_None_2 [true]) by (cbn; lia). done.
Qed.

Lemma link_open_closed links l0 l :
  link_open links l0 = true → b2z (link_open (<[l0 := false]> links) l) = b2z (link_open links l) - b2z (bool_decide (l = l0)).
Proof.
  unfold link_open. intros H0. case_bool_decide as E.
  - subst l. rewrite H0. destruct (links !! l0) eqn:El; [|done]. rewrite list_lookup_insert_eq by (by eapply lookup_lt_Some). done.
  - rewrite list_lookup_insert_ne by done. cbn. lia.
Qed.

(** A link that came up and was closed at once. *)
Lemma link_open_dropped links l :
  link_open (<[length links := false]> (links ++ [true])) l = link_open links l.
Proof.
  pose proof (link_open_new links l). pose proof (link_open_closed (links ++ [true]) (length links) l) as Hc.
  assert (link_open (links ++ [true]) (length links) = true) as Hl.
  { unfold link_open. by rewrite lookup_app_r, Nat.sub_diag by lia. }
  specialize (Hc Hl). destruct (link_open (<[length links:=false]> (links ++ [true])) l), (link_open links l); cbn in *; lia.
Qed.

(** Counts after an event in terms of those before. *)
Ltac recount :=
  unfold holders, controls, owners, conf, link_open in *;
  cbn [e_core e_calls e_streams e_links c_permits c_active c_openings c_config c_done set_call start_call upd_core
       close_link update] in *;
  repeat first [ rewrite countb_snoc | erewrite countb_insert by eassumption ].

Ltac close_counts := try (intros Hdone; match goal with H : c_done _ = false → _ |- _ => specialize (H Hdone) end; try (match goal with H : c_done _ = false → _ |- _ => specialize (H Hdone) end)); cbn [holds_permit holds_slot owns_link will_release is_control stream_owns st_release st_closed st_link b2z negb andb] in *; lia.

Section Admission.
Context {Adm : Admits}.

Definition call_approved (c : Config) (k : call) : bool :=
  match k with
  | WaitSlot (DataStream open) | WaitOpen (DataStream open) | Writing open _ => admits c open
  | _ => true
  end.

Definition stream_approved (c : Config) (st : Stream) : bool :=
  match st_open st with Some open => admits c open | None => true end.

Record inv (s : Endpoint) : Prop := {
  inv_permits : c_permits (e_core s) = holders s + controls s;
  inv_active : c_done (e_core s) = false → c_active (e_core s) = c_permits (e_core s);
  inv_max : c_permits (e_core s) ≤ cf_MaximumStreams (conf s);
  inv_slots : c_openings (e_core s) = countb holds_slot (e_calls s);
  inv_depth : c_openings (e_core s) ≤ cf_QueueDepth (conf s);
  inv_links : ∀ l, owners s l = b2z (default false (e_links s !! l));
  inv_calls : ∀ k, k ∈ e_calls s → call_approved (conf s) k = true;
  inv_streams : ∀ st, st ∈ e_streams s → stream_approved (conf s) st = true
}.
Section Inv.
Variable s : Endpoint.
Hypothesis I : inv s.

Lemma inv_link l : owners s l = b2z (link_open (e_links s) l).
Proof. apply (inv_links s I). Qed.

Lemma call_owner i k l : e_calls s !! i = Some k → owns_link l k = true → link_open (e_links s) l = true.
Proof.
  intros E Ho. pose proof (inv_link l) as Hl. unfold owners in Hl.
  pose proof (countb_pos _ _ _ _ E Ho). pose proof (countb_nonneg (stream_owns l) (e_streams s)).
  destruct (link_open (e_links s) l); [done|]. cbn in Hl. lia.
Qed.

Lemma stream_owner id st : e_streams s !! id = Some st → st_closed st = false → link_open (e_links s) (st_link st) = true.
Proof.
  intros E Ho. pose proof (inv_link (st_link st)) as Hl. unfold owners in Hl.
  assert (stream_owns (st_link st) st = true) as Hs by (unfold stream_owns; by rewrite bool_decide_eq_true_2, Ho).
  pose proof (countb_pos _ _ _ _ E Hs). pose proof (countb_nonneg (owns_link (st_link st)) (e_calls s)).
  destruct (link_open (e_links s) (st_link st)); [done|]. cbn in Hl. lia.
Qed.

Lemma permit_held i k : e_calls s !! i = Some k → holds_permit k = true → 1 ≤ c_permits (e_core s).
Proof.
  intros E Hk. rewrite (inv_permits s I). unfold holders, controls. pose proof (countb_pos _ _ _ _ E Hk).
  pose proof (countb_nonneg will_release (e_streams s)). pose proof (countb_nonneg is_control (e_streams s)). lia.
Qed.

Lemma stream_permit_held id st : e_streams s !! id = Some st → will_release st = true → 1 ≤ c_permits (e_core s).
Proof.
  intros E Hk. rewrite (inv_permits s I). unfold holders, controls. pose proof (countb_pos _ _ _ _ E Hk).
  pose proof (countb_nonneg holds_permit (e_calls s)). pose proof (countb_nonneg is_control (e_streams s)). lia.
Qed.
End Inv.

(** What both ends' [releasePermit] do for a holder of a permit. *)
Definition releases (release_permit : core → core) : Prop :=
  ∀ c, 1 ≤ c_permits c → ∃ a, release_permit c = c <| c_active := a |> <| c_permits := c_permits c - 1 |>
                              ∧ (c_done c = false → a = c_active c - 1).

Lemma server_releases : releases releasePermit.
Proof. intros c H. exists (c_active c - 1). unfold releasePermit. by rewrite (proj2 (Z.ltb_lt _ _)) by lia. Qed.

(** *** The calls and streams of a new state *)

Lemma in_set_call {A} (P : A → bool) (l : list A) i x :
  (∀ y, y ∈ l → P y = true) → P x = true → ∀ y, y ∈ <[i := x]> l → P y = true.
Proof.
  intros Hl Hx y [j Hj]%list_elem_of_lookup. apply list_lookup_insert_Some in Hj as [(-> & -> & _)|[_ Hj]]; [done|].
  apply Hl. by eapply list_elem_of_lookup_2.
Qed.

Lemma in_snoc {A} (P : A → bool) (l : list A) x :
  (∀ y, y ∈ l → P y = true) → P x = true → ∀ y, y ∈ l ++ [x] → P y = true.
Proof. intros Hl Hx y [Hy|Hy%list_elem_of_singleton]%elem_of_app; [by apply Hl|by subst]. Qed.

(** The state changed in no counted respect. *)
Lemma inv_new_call s k :
  inv s → holds_permit k = false → holds_slot k = false → (∀ l, owns_link l k = false) → call_approved (conf s) k = true →
  inv (start_call k s).
Proof.
  intros [I1 I2 I3 I4 I5 I6 I7 I8] H1 H2 H3 H4. constructor; try done.
  - recount. rewrite H1. close_counts.
  - recount. rewrite H2. close_counts.
  - intros l. specialize (I6 l). recount. rewrite H3. close_counts.
  - by apply in_snoc.
Qed.

Lemma select_permit_ok c ctxErr ch c' :
  select_permit c ctxErr ch = Some (c', None) →
  c' = c <| c_permits := c_permits c + 1 |> <| c_active := c_active c + 1 |> ∧ c_done c = false
  ∧ c_permits c < cf_MaximumStreams (c_config c).
Proof.
  unfold select_permit, permit_free. destruct (c_done c); [done|]. destruct ch; try done.
  - destruct (_ <? _) eqn:E; [|done]. bools. intros [= <-]. done.
  - by destruct ctxErr.
  - by destruct (_ || _).
Qed.

Lemma select_permit_err c ctxErr ch c' e : select_permit c ctxErr ch = Some (c', Some e) → c' = c.
Proof.
  unfold select_permit. destruct (c_done c); [by intros [= <- _]|]. destruct ch; try done.
  - by destruct (permit_free c).
  - destruct ctxErr; [by intros [= <- _]|done].
  - destruct (_ || _); [done|by intros [= <- _]].
Qed.

(** A call that takes a permit. *)
Lemma inv_take_permit s k ctxErr ch c :
  inv s → select_permit (e_core s) ctxErr ch = Some (c, None) →
  holds_permit k = true → holds_slot k = false → (∀ l, owns_link l k = false) → call_approved (conf s) k = true →
  inv (start_call k (s <| e_core := c |>)).
Proof.
  intros [I1 I2 I3 I4 I5 I6 I7 I8] (-> & _ & Hmax)%select_permit_ok H1 H2 H3 H4. unfold conf in *. constructor.
  - recount. rewrite H1. close_counts.
  - recount. close_counts.
  - recount. close_counts.
  - recount. rewrite H2. close_counts.
  - done.
  - intros l. specialize (I6 l). recount. rewrite H3. close_counts.
  - by apply in_snoc.
  - done.
Qed.

Lemma or_default_idem x d : or_default (or_default x d) d = or_default x d.
Proof. unfold or_default. destruct (x =? 0) eqn:E; [by destruct (d =? 0)|by rewrite E]. Qed.

Lemma withDefaults_idem c : withDefaults (withDefaults c) = withDefaults c.
Proof.
  unfold withDefaults at 1. destruct c as [a b c d e f g h i j].
  cbn [withDefaults update cf_MaximumStreams cf_AcceptBacklog cf_QueueDepth cf_StreamWindow cf_KeepAliveInterval
       cf_ConnectionWriteLimit cf_StreamOpenLimit cf_StreamCloseLimit cf_Identity cf_Authorize].
  by rewrite !or_default_idem.
Qed.

Lemma valid_bounds c b :
  Config_validate c b = None →
  0 < cf_MaximumStreams (withDefaults c) ≤ maxMaximumStreams ∧ 0 < cf_QueueDepth (withDefaults c) ≤ maxQueueDepth
  ∧ 0 < cf_AcceptBacklog (withDefaults c) ≤ cf_MaximumStreams (withDefaults c).
Proof.
  unfold Config_validate. generalize (withDefaults c). clear c. intros c.
  destruct ((cf_MaximumStreams c <=? 0) || _) eqn:E1; [done|]. destruct ((cf_AcceptBacklog c <=? 0) || _ || _) eqn:E2; [done|].
  destruct ((cf_QueueDepth c <=? 0) || _) eqn:E3; [done|]. intros _. bools. lia.
Qed.

Lemma inv_fresh c : 0 ≤ cf_MaximumStreams c → 0 ≤ cf_QueueDepth c → inv (newEndpoint c).
Proof. intros H1 H2. constructor; try done; try (intros ? Hx; by apply elem_of_nil in Hx). Qed.

Section Release.
Variable release_permit : core → core.
Hypothesis Hrel : releases release_permit.

(** A call that gives its permit back. *)
Lemma inv_give_back s i k k' :
  inv s → e_calls s !! i = Some k → holds_permit k = true → holds_slot k = false → (∀ l, owns_link l k = false) →
  holds_permit k' = false → holds_slot k' = false → (∀ l, owns_link l k' = false) → call_approved (conf s) k' = true →
  inv (set_call i k' (upd_core release_permit s)).
Proof.
  intros I E K1 K2 K3 H1 H2 H3 H4. pose proof (permit_held s I i k E K1) as Hp. unfold upd_core.
  destruct (Hrel (e_core s) Hp) as (a & -> & Hact). destruct I as [I1 I2 I3 I4 I5 I6 I7 I8]. unfold conf in *. constructor.
  - recount. rewrite H1, K1. close_counts.
  - recount. close_counts.
  - recount. close_counts.
  - recount. rewrite H2, K2. close_counts.
  - done.
  - intros l. specialize (I6 l). recount. rewrite H3, K3. close_counts.
  - by apply in_set_call.
  - done.
Qed.

(** A call that keeps its permit and gets or loses a slot. *)
Lemma inv_change_slot s i k k' n :
  inv s → e_calls s !! i = Some k → holds_permit k = holds_permit k' → (∀ l, owns_link l k = owns_link l k') →
  n = b2z (holds_slot k') - b2z (holds_slot k) → c_openings (e_core s) + n ≤ cf_QueueDepth (conf s) →
  call_approved (conf s) k' = true →
  inv (set_call i k' (s <| e_core := (e_core s) <| c_openings := c_openings (e_core s) + n |> |>)).
Proof.
  intros [I1 I2 I3 I4 I5 I6 I7 I8] E K1 K3 Hn Hd H4. unfold conf in *. constructor.
  - recount. rewrite K1. close_counts.
  - recount. close_counts.
  - recount. close_counts.
  - recount. close_counts.
  - done.
  - intros l. specialize (I6 l). recount. rewrite K3. close_counts.
  - by apply in_set_call.
  - done.
Qed.

(** A new link in the hands of a call. *)
Lemma inv_new_link s i k k' :
  inv s → e_calls s !! i = Some k → holds_permit k = holds_permit k' → holds_slot k = holds_slot k' →
  (∀ l, owns_link l k = false) → (∀ l, owns_link l k' = bool_decide (l = length (e_links s))) →
  call_approved (conf s) k' = true → inv (set_call i k' (new_link s).1).
Proof.
  intros [I1 I2 I3 I4 I5 I6 I7 I8] E K1 K2 K3 K4 H4. unfold conf in *. unfold new_link. cbn [fst]. constructor.
  - recount. rewrite K1. close_counts.
  - recount. close_counts.
  - recount. close_counts.
  - recount. rewrite K2. close_counts.
  - done.
  - intros l. specialize (I6 l). pose proof (link_open_new (e_links s) l). recount. rewrite K3, K4. close_counts.
  - by apply in_set_call.
  - done.
Qed.

(** A link that is closed as soon as it came. *)
Lemma inv_drop_link s : inv s → inv (close_link (new_link s).2 (new_link s).1).
Proof.
  intros [I1 I2 I3 I4 I5 I6 I7 I8]. unfold new_link. cbn [fst snd]. constructor; try done.
  intros l. specialize (I6 l). pose proof (link_open_dropped (e_links s) l) as Hd. unfold link_open in Hd.
  transitivity (owners s l); [done|]. rewrite I6. f_equal. symmetry. exact Hd.
Qed.

Lemma new_stream_owns l l' open rel : stream_owns l' (mkStream l open rel false) = bool_decide (l' = l).
Proof. unfold stream_owns. cbn. by rewrite andb_true_r. Qed.

(** A call hands its link and its permit to a new stream. *)
Lemma inv_wrap s i k l rel open id :
  inv s → e_calls s !! i = Some k → holds_permit k = true → holds_slot k = false →
  (∀ l', owns_link l' k = bool_decide (l' = l)) → rel ≠ ClearControl → stream_approved (conf s) (mkStream l open rel false) = true →
  inv (set_call i (Returned (inr id)) (wrapStream l rel open s).1).
Proof.
  intros [I1 I2 I3 I4 I5 I6 I7 I8] E K1 K2 K3 Hr H4. unfold conf in *. unfold wrapStream. cbn [fst].
  assert (is_control (mkStream l open rel false) = false) as Hc by (by destruct rel).
  assert (will_release (mkStream l open rel false) = true) as Hw by (by destruct rel). constructor.
  - recount. rewrite K1, Hc, Hw. close_counts.
  - recount. close_counts.
  - recount. close_counts.
  - recount. rewrite K2. close_counts.
  - done.
  - intros l'. specialize (I6 l'). recount. rewrite K3, new_stream_owns. close_counts.
  - by apply in_set_call.
  - by apply in_snoc.
Qed.

(** The accepted control stream: its permit is counted with the control streams. *)
Lemma inv_wrap_control s i k l :
  inv s → e_calls s !! i = Some k → holds_permit k = true → holds_slot k = false →
  (∀ l', owns_link l' k = bool_decide (l' = l)) →
  inv (set_call i (Wrapped (length (e_streams s))) (wrapStream l ClearControl None s).1).
Proof.
  intros [I1 I2 I3 I4 I5 I6 I7 I8] E K1 K2 K3. unfold conf in *. unfold wrapStream. cbn [fst]. constructor.
  - recount. rewrite K1. close_counts.
  - recount. close_counts.
  - recount. close_counts.
  - recount. rewrite K2. close_counts.
  - done.
  - intros l'. specialize (I6 l'). recount. rewrite K3, new_stream_owns. close_counts.
  - by apply in_set_call.
  - by apply in_snoc.
Qed.

(** A call closes its link and gives its permit back. *)
Lemma inv_give_back_link s i k k' l :
  inv s → e_calls s !! i = Some k → holds_permit k = true → holds_slot k = false →
  (∀ l', owns_link l' k = bool_decide (l' = l)) →
  holds_permit k' = false → holds_slot k' = false → (∀ l, owns_link l k' = false) → call_approved (conf s) k' = true →
  inv (set_call i k' (upd_core release_permit (close_link l s))).
Proof.
  intros I E K1 K2 K3 H1 H2 H3 H4. pose proof (permit_held s I i k E K1) as Hp.
  assert (link_open (e_links s) l = true) as Hl by (eapply (call_owner s I); [done|by rewrite K3, bool_decide_eq_true_2]).
  unfold upd_core. cbn [e_core close_link update]. destruct (Hrel (e_core s) Hp) as (a & -> & Hact).
  destruct I as [I1 I2 I3 I4 I5 I6 I7 I8]. unfold conf in *. constructor.
  - recount. rewrite H1, K1. close_counts.
  - recount. close_counts.
  - recount. close_counts.
  - recount. rewrite H2, K2. close_counts.
  - done.
  - intros l'. specialize (I6 l'). pose proof (link_open_closed _ l l' Hl). recount. rewrite H3, K3. close_counts.
  - by apply in_set_call.
  - done.
Qed.

(** Closing a stream, by [Close] or by the end of its context. *)
Lemma inv_close s id : inv s → inv (close_stream release_permit id s).1.
Proof.
  intros I. unfold close_stream. destruct (e_streams s !! id) as [st|] eqn:E; [|done].
  destruct (st_closed st) eqn:Ec; [done|]. cbn [fst]. pose proof (stream_owner s I id st E Ec) as Hl.
  assert (stream_approved (conf s) (st <| st_closed := true |>) = true) as Ha.
  { change (stream_approved (conf s) st = true). apply (inv_streams s I). by eapply list_elem_of_lookup_2. }
  assert (∀ l', b2z (stream_owns l' st) = b2z (bool_decide (l' = st_link st))) as Hso.
  { intros l'. unfold stream_owns. rewrite Ec. by rewrite andb_true_r. }
  assert (∀ l', b2z (stream_owns l' (st <| st_closed := true |>)) = 0) as Hso'.
  { intros l'. unfold stream_owns. cbn. by rewrite andb_false_r. }
  assert (will_release (st <| st_closed := true |>) = false) as Hw' by (unfold will_release; by rewrite andb_false_r).
  assert (is_control (st <| st_closed := true |>) = is_control st) as Hc' by done.
  assert (will_release st = negb (is_control st)) as Hw by (unfold will_release; by rewrite Ec, andb_true_r).
  set (st' := st <| st_closed := true |>) in *. clearbody st'.
  destruct (is_control st) eqn:Hctl.
  - assert (st_release st = ClearControl) as -> by (unfold is_control in Hctl; by destruct (st_release st)).
    destruct I as [I1 I2 I3 I4 I5 I6 I7 I8]. unfold conf in *. constructor; try done.
    + recount. rewrite Hw, Hw', Hc', Hctl. close_counts.
    + intros l'. specialize (I6 l'). pose proof (link_open_closed _ _ l' Hl). recount. rewrite Hso, Hso'. close_counts.
    + by apply in_set_call.
  - pose proof (stream_permit_held s I id st E Hw) as Hp. set (e := close_link _ _).
    assert ((match st_release st with ClearControl => e | _ => upd_core release_permit e end) = upd_core release_permit e) as ->
      by (unfold is_control in Hctl; by destruct (st_release st)). subst e.
    unfold upd_core. cbn [e_core close_link update]. destruct (Hrel (e_core s) Hp) as (a & -> & Hact).
    destruct I as [I1 I2 I3 I4 I5 I6 I7 I8]. unfold conf in *. constructor; try done.
    + recount. rewrite Hw, Hw', Hc', Hctl. close_counts.
    + recount. close_counts.
    + recount. close_counts.
    + intros l'. specialize (I6 l'). pose proof (link_open_closed _ _ l' Hl). recount. rewrite Hso, Hso'. close_counts.
    + by apply in_set_call.
Qed.

(** *** The steps of an open *)

Lemma set_call_twice i k k' s : set_call i k' (set_call i k s) = set_call i k' s.
Proof. destruct s. unfold set_call. cbn. by rewrite list_insert_insert_eq. Qed.

Lemma inv_begin_open s s' p ctxErr ch :
  inv s → call_approved (conf s) (WaitSlot p) = true → begin_open p ctxErr ch s = Some s' → inv s'.
Proof.
  intros I Ha. unfold begin_open. destruct (select_permit _ _ _) as [[c [e|]]|] eqn:E; intros [= <-].
  - apply select_permit_err in E as ->. apply inv_new_call; try done. by destruct s.
  - by eapply inv_take_permit.
Qed.

Lemma inv_slot s s' i ctxErr ch : inv s → openRaw_slot release_permit i ctxErr ch s = Some s' → inv s'.
Proof.
  intros I. unfold openRaw_slot. destruct (e_calls s !! i) as [[p| | | | | | | | |]|] eqn:E; try done.
  assert (call_approved (conf s) (WaitSlot p) = true) as Ha by (apply (inv_calls s I); by eapply list_elem_of_lookup_2).
  unfold select_slot, slot_free. destruct ch; try done.
  - destruct (_ <? _) eqn:El; [|done]. bools. intros [= <-].
    apply (inv_change_slot s i (WaitSlot p) (WaitOpen p) 1); try done. unfold conf. lia.
  - destruct (c_done (e_core s)); [|done]. intros [= <-]. by apply (inv_give_back s i (WaitSlot p)).
  - destruct ctxErr; [|done]. intros [= <-]. by apply (inv_give_back s i (WaitSlot p)).
Qed.

(** The slot of a finished open comes back. *)
Lemma inv_slot_back s i p :
  inv s → e_calls s !! i = Some (WaitOpen p) → inv (set_call i (WaitSlot p) (upd_core take_slot_back s)).
Proof.
  intros I E. pose proof (inv_depth s I).
  assert (call_approved (conf s) (WaitOpen p) = true) as Ha by (apply (inv_calls s I); by eapply list_elem_of_lookup_2).
  apply (inv_change_slot s i (WaitOpen p) (WaitSlot p) (-1)); try done. lia.
Qed.

Lemma lookup_set_call s i k k' : e_calls s !! i = Some k → e_calls (set_call i k' s) !! i = Some k'.
Proof. intros E. cbn. apply list_lookup_insert_eq. by eapply lookup_lt_Some. Qed.

Lemma inv_opened s s' i r ctxErr : inv s → openRaw_result release_permit i r ctxErr s = Some s' → inv s'.
Proof.
  intros I. unfold openRaw_result. destruct (e_calls s !! i) as [[|p| | | | | | | |]|] eqn:E; try done.
  pose proof (inv_slot_back s i p I E) as J. pose proof (lookup_set_call (upd_core take_slot_back s) i _ (WaitSlot p) E) as EJ.
  set (s1 := upd_core take_slot_back s) in *.
  assert (call_approved (conf s1) (WaitSlot p) = true) as Ha
    by (apply (inv_calls _ J); by eapply list_elem_of_lookup_2).
  destruct r as [e|]; cbn [take_result].
  { intros [= <-]. rewrite <- (set_call_twice i (WaitSlot p)).
    by apply (inv_give_back (set_call i (WaitSlot p) s1) i (WaitSlot p)). }
  destruct (new_link s1) as [s2 l] eqn:En. destruct ctxErr as [e|]; cbn [take_result].
  { intros [= <-]. rewrite <- (set_call_twice i (WaitSlot p)).
    pose proof (inv_drop_link _ J) as K. injection En as <- <-.
    by apply (inv_give_back _ i (WaitSlot p) _ K). }
  injection En as <- <-. destruct p as [open|].
  { intros [= <-]. rewrite <- (set_call_twice i (WaitSlot (DataStream open))).
    by apply (inv_new_link (set_call i (WaitSlot (DataStream open)) s1) i (WaitSlot (DataStream open))). }
  intros [= <-]. set (l := length (e_links s1)).
  (* the link is in the hands of the call for a moment *)
  assert (inv (set_call i (Reading l) (new_link s1).1)) as K.
  { rewrite <- (set_call_twice i (WaitSlot ControlStream)).
    by apply (inv_new_link (set_call i (WaitSlot ControlStream) s1) i (WaitSlot ControlStream)). }
  pose proof (lookup_set_call (new_link s1).1 i (WaitOpen ControlStream) (Reading l) E) as EK.
  pose proof (inv_wrap _ i (Reading l) l ReleasePermit None (length (e_streams s1)) K EK eq_refl eq_refl (λ _, eq_refl) ltac:(done) eq_refl) as L.
  revert L. unfold wrapStream, set_call, new_link. cbn. by rewrite list_insert_insert_eq.
Qed.

(** A returning call leaves what it holds to the goroutine it starts. *)
Lemma inv_leave s i k k1 k2 :
  inv s → e_calls s !! i = Some k → holds_permit k1 = false → holds_slot k1 = false →
  holds_permit k = holds_permit k2 → holds_slot k = holds_slot k2 →
  (∀ l, owns_link l k = false ∧ owns_link l k1 = false ∧ owns_link l k2 = false) →
  call_approved (conf s) k1 = true → call_approved (conf s) k2 = true →
  inv (start_call k2 (set_call i k1 s)).
Proof.
  intros [I1 I2 I3 I4 I5 I6 I7 I8] E H1 H2 K1 K2 K3 A1 A2. unfold conf in *. constructor.
  - recount. rewrite H1, K1. close_counts.
  - recount. close_counts.
  - recount. close_counts.
  - recount. rewrite H2, K2. close_counts.
  - done.
  - intros l. specialize (I6 l). destruct (K3 l) as (O1 & O2 & O3). recount. rewrite O1, O2, O3. close_counts.
  - apply in_snoc; [|done]. by apply in_set_call.
  - done.
Qed.

Lemma inv_cancel_open s s' i ctxErr ch : inv s → openRaw_cancel i ctxErr ch s = Some s' → inv s'.
Proof.
  intros I. unfold openRaw_cancel. destruct (e_calls s !! i) as [[|p| | | | | | | |]|] eqn:E; try done.
  destruct ch; try done.
  - destruct (c_done (e_core s)); [|done]. intros [= <-]. by apply (inv_leave s i (WaitOpen p)).
  - destruct ctxErr; [|done]. intros [= <-]. by apply (inv_leave s i (WaitOpen p)).
Qed.

Lemma inv_drop s r : inv s → inv (drop_late r s).
Proof. intros I. destruct r; [done|]. by apply inv_drop_link. Qed.

Lemma calls_drop s r : e_calls (drop_late r s) = e_calls s.
Proof. by destruct r. Qed.

Lemma inv_finish_open s s' i r : inv s → finishCanceledOpen release_permit i r s = Some s' → inv s'.
Proof.
  intros I. unfold finishCanceledOpen. destruct (e_calls s !! i) as [[]|] eqn:E; try done. intros [= <-].
  pose proof (inv_drop s r I) as J. pose proof (calls_drop s r) as Ec.
  set (s1 := drop_late r s) in *. clearbody s1. rewrite <- Ec in E. clear Ec I.
  assert (inv (set_call i CanceledAccept (upd_core take_slot_back s1))) as K.
  { pose proof (inv_depth s1 J). apply (inv_change_slot s1 i CanceledOpen CanceledAccept (-1)); try done. lia. }
  pose proof (lookup_set_call (upd_core take_slot_back s1) i _ CanceledAccept E) as EK.
  rewrite <- (set_call_twice i CanceledAccept). by apply (inv_give_back _ i CanceledAccept Ended K).
Qed.

Lemma inv_written s s' i r : inv s → open_written release_permit i r s = Some s' → inv s'.
Proof.
  intros I. unfold open_written. destruct (e_calls s !! i) as [[| | |open l| | | | | |]|] eqn:E; try done.
  assert (call_approved (conf s) (Writing open l) = true) as Ha
    by (apply (inv_calls s I); by eapply list_elem_of_lookup_2).
  destruct r as [e|]; intros [= <-].
  - by apply (inv_give_back_link s i (Writing open l)).
  - by apply (inv_wrap s i (Writing open l)).
Qed.

Lemma inv_quiet_call s i k k' :
  inv s → e_calls s !! i = Some k → holds_permit k = holds_permit k' → holds_slot k = holds_slot k' →
  (∀ l, owns_link l k = owns_link l k') → call_approved (conf s) k' = true → inv (set_call i k' s).
Proof.
  intros I E H1 H2 H3 H4. pose proof (inv_depth s I).
  pose proof (inv_change_slot s i k k' 0 I E H1 H3) as J. rewrite H2 in J.
  destruct s as [[] ? ? ?]. cbn in *. rewrite Z.add_0_r in J. apply J; try done; lia.
Qed.

Lemma calls_close id s : e_calls (close_stream release_permit id s).1 = e_calls s.
Proof.
  unfold close_stream. destruct (e_streams s !! id) as [st|]; [|done]. destruct (st_closed st); [done|].
  by destruct (st_release st).
Qed.

Lemma inv_open_checked s s' open ctxErr ch : inv s → open_checked open ctxErr ch s = Some s' → inv s'.
Proof.
  intros I. unfold open_checked. destruct (failed (StreamOpen_Validate open)) eqn:Ev; [intros [= <-]; by apply inv_new_call|].
  destruct (matches _ open) eqn:Em; cbn [negb]; [|intros [= <-]; by apply inv_new_call].
  destruct (authorize _ open) eqn:Ea; [intros [= <-]; by apply inv_new_call|].
  apply inv_begin_open; [done|]. apply admits_vetted. unfold vetted, conf. by rewrite Em, Ev, Ea.
Qed.
End Release.

Lemma inv_shutdown s e : inv s → inv (upd_core (λ c, shutdown c e) s).
Proof.
  intros [I1 I2 I3 I4 I5 I6 I7 I8]. unfold upd_core, shutdown. destruct (c_done (e_core s)) eqn:Ed; constructor; try done;
    cbn; by rewrite ?Ed.
Qed.

End Admission.

(** ** Every event of the edge end keeps the accounts *)

(** A preface that may carry a stream at the edge: the host opens private-access streams,
    which are authorized behind the carrier. *)
Definition approved (c : Config) (open : StreamOpen) : bool :=
  matches (cf_Identity c) open
  && (negb (failed (StreamOpen_Validate open)) && negb (failed (authorize c open))
      || (so_Kind open == PrivateAccessHTTP) || (so_Kind open == PrivateAccessTCP)).

Lemma approved_vetted c open : vetted c open = true → approved c open = true.
Proof. unfold vetted, approved. intros [[-> ->]%andb_prop ->]%andb_prop. done. Qed.

#[export] Instance edge_admits : Admits := { admits := approved; admits_vetted := approved_vetted }.

Lemma new_server config s :
  NewServerWithSession config = inr s →
  Config_validate (withDefaults config) false = None ∧ s = mkServer (newEndpoint (withDefaults config)) None false.
Proof.
  unfold NewServerWithSession. cbv zeta. unfold Config_Validate.
  destruct (Config_validate (withDefaults config) false); [done|]. intros [= <-]. done.
Qed.

Lemma edge_inv_new config s : NewServerWithSession config = inr s → inv (sv_end s).
Proof.
  intros [E ->]%new_server. pose proof (valid_bounds _ _ E) as Hb. clear E.
  rewrite withDefaults_idem in Hb. apply inv_fresh; lia.
Qed.


Lemma inv_on_end f s s' :
  (∀ e e', inv e → f e = Some e' → inv e') → inv (sv_end s) → on_end f s = Some s' → inv (sv_end s').
Proof. intros Hf I. unfold on_end. destruct (f (sv_end s)) as [e|] eqn:E; [|done]. intros [= <-]. by eapply Hf. Qed.

Lemma inv_begin_accept s s' p ctxErr ch : inv (sv_end s) → begin_accept p ctxErr ch s = Some s' → inv (sv_end s').
Proof.
  intros I. unfold begin_accept. destruct (select_permit _ _ _) as [[c [e|]]|] eqn:E; intros [= <-].
  - apply select_permit_err in E as ->. destruct p; apply inv_new_call; try done; by destruct s as [[] ? ?].
  - by eapply inv_take_permit.
Qed.

Lemma inv_finish_accept s s' i r : inv (sv_end s) → finishCanceledAccept i r s = Some s' → inv (sv_end s').
Proof.
  intros I. unfold finishCanceledAccept. destruct (e_calls (sv_end s) !! i) as [[]|] eqn:E; try done. intros [= <-].
  pose proof (inv_drop _ r I) as J. rewrite <- (calls_drop _ r) in E. 
  by apply (inv_give_back _ server_releases _ i CanceledAccept Ended).
Qed.

Lemma inv_read s s' i r : inv (sv_end s) → access_read i r s = Some s' → inv (sv_end s').
Proof.
  intros I. unfold access_read. destruct (e_calls (sv_end s) !! i) as [[| | | | | | |l| |]|] eqn:E; try done.
  assert (∀ e, inv (set_call i (Returned (inl e)) (upd_core releasePermit (close_link l (sv_end s))))) as Hfail.
  { intros e. by apply (inv_give_back_link _ server_releases _ i (Reading l)). }
  destruct r as [e|open]; [by intros [= <-]; apply Hfail|].
  destruct (matches _ open) eqn:Em; cbn [negb]; [|by intros [= <-]; apply Hfail].
  destruct (_ && _) eqn:Ek; intros [= <-]; [by apply Hfail|].
  apply (inv_wrap _ i (Reading l)); try done. change (approved (conf (sv_end s)) open = true). unfold approved, conf. rewrite Em. cbn.
  apply andb_false_iff in Ek as [Ek%negb_false_iff|Ek%negb_false_iff]; rewrite Ek; by rewrite ?orb_true_r.
Qed.

Lemma accept_failed_end i p e s : sv_end (accept_failed i p e s) = set_call i (Returned (inl e)) (sv_end s).
Proof. by destruct p. Qed.

Lemma inv_accepted s s' i r ctxErr : inv (sv_end s) → acceptRaw_result i r ctxErr s = Some s' → inv (sv_end s').
Proof.
  intros I. unfold acceptRaw_result. destruct (e_calls (sv_end s) !! i) as [[| | | |p| | | | |]|] eqn:E; try done.
  destruct r as [e|]; cbn [take_result].
  { intros [= <-]. rewrite accept_failed_end. by apply (inv_give_back _ server_releases _ i (WaitAccept p)). }
  destruct (new_link (sv_end s)) as [s2 l] eqn:En. destruct ctxErr as [e|]; cbn [take_result].
  { intros [= <-]. rewrite accept_failed_end. pose proof (inv_drop_link _ I) as K. rewrite En in K. injection En as <- <-.
    by apply (inv_give_back _ server_releases _ i (WaitAccept p) _ K). }
  injection En as <- <-. destruct p; intros [= <-]; [|by apply (inv_new_link _ i (WaitAccept AcceptAccess))].
  set (l := length (e_links (sv_end s))).
  assert (inv (set_call i (Reading l) (new_link (sv_end s)).1)) as K by (by apply (inv_new_link _ i (WaitAccept AcceptControl))).
  pose proof (lookup_set_call (new_link (sv_end s)).1 i _ (Reading l) E) as EK.
  pose proof (inv_wrap_control _ i (Reading l) l K EK eq_refl eq_refl (λ _, eq_refl)) as L.
  revert L. unfold wrapStream, set_call, new_link. cbn. by rewrite list_insert_insert_eq.
Qed.

Lemma inv_cancel_accept s s' i ctxErr ch : inv (sv_end s) → acceptRaw_cancel i ctxErr ch s = Some s' → inv (sv_end s').
Proof.
  intros I. unfold acceptRaw_cancel. destruct (e_calls (sv_end s) !! i) as [[| | | |p| | | | |]|] eqn:E; try done.
  assert (∀ e, inv (sv_end (upd_end (start_call CanceledAccept) (accept_failed i p e s)))) as H.
  { intros e. change (inv (start_call CanceledAccept (sv_end (accept_failed i p e s)))). rewrite accept_failed_end.
    by apply (inv_leave _ i (WaitAccept p)). }
  destruct ch; try done.
  - destruct (c_done (e_core (sv_end s))); [|done]. by intros [= <-].
  - destruct ctxErr; [|done]. by intros [= <-].
Qed.

Lemma Stream_Close_end id s : sv_end (Stream_Close id s) = (close_stream releasePermit id (sv_end s)).1.
Proof. unfold Stream_Close. destruct (close_stream _ _ _) as [e [[]|]]; done. Qed.

Lemma inv_publish s s' i : inv (sv_end s) → control_publish i s = Some s' → inv (sv_end s').
Proof.
  intros I. unfold control_publish. destruct (e_calls (sv_end s) !! i) as [[| | | | | |id| | |]|] eqn:E; try done.
  destruct (_ || _); intros [= <-].
  - change (inv (set_call i (Returned (inl ErrCarrierClosed)) (sv_end (Stream_Close id (s <| sv_controlOpening := false |>))))).
    rewrite Stream_Close_end.
    apply (inv_quiet_call _ i (Wrapped id)); try done; [|by rewrite calls_close].
    by apply inv_close; [apply server_releases|].
  - by apply (inv_quiet_call _ i (Wrapped id)).
Qed.

Lemma edge_exec_inv s s' ev : inv (sv_end s) → exec ev s = Some s' → inv (sv_end s').
Proof.
  intros I. destruct ev; cbn [exec].
  - apply inv_on_end; [|done]. intros e e'. apply inv_open_checked.
  - apply inv_on_end; [|done]. intros e e' J. by apply inv_begin_open.
  - unfold AcceptControlStream. destruct (_ || _); [intros [= <-]; by apply inv_new_call|]. by apply inv_begin_accept.
  - by apply inv_begin_accept.
  - apply inv_on_end; [|done]. intros e e'. apply inv_slot, server_releases.
  - apply inv_on_end; [|done]. intros e e'. apply inv_opened, server_releases.
  - apply inv_on_end; [|done]. intros e e'. apply inv_cancel_open.
  - apply inv_on_end; [|done]. intros e e'. apply inv_finish_open, server_releases.
  - apply inv_on_end; [|done]. intros e e'. apply inv_written, server_releases.
  - by apply inv_accepted.
  - by apply inv_cancel_accept.
  - by apply inv_finish_accept.
  - by apply inv_publish.
  - by apply inv_read.
  - intros [= <-]. rewrite Stream_Close_end. by apply inv_close; [apply server_releases|].
  - intros [= <-]. by apply inv_shutdown.
Qed.

Lemma carrier_reachable_inv s : reachable s → inv (sv_end s).
Proof. induction 1; [by eapply edge_inv_new|by eapply edge_exec_inv]. Qed.

End CarrierProofs.
