(* ===== verification/CarrierGuarantees.v ===== *)
(** * Data carrier: guarantees of the edge end

    The accounts of file CarrierProofs as statements about the carrier, and two runs in
    which the control stream leaves the carrier with less than it had. *)
From S2P Require Import Prelude Go Protocol StreamFrames Carrier CarrierProofs.

Module CarrierGuarantees.
Import StreamFrames Carrier CarrierProofs.

(** Open streams that were opened by the edge or accepted for private access. *)
Definition open_streams (s : Endpoint) : Z := countb will_release (e_streams s).

(** Calls that hold a permit, goroutines included. *)
Definition in_flight (s : Endpoint) : Z := countb holds_permit (e_calls s).

(** C17. The permits of a carrier are exactly its open data streams, its calls in progress
    and the control streams it accepted, and [ActiveStreams] reports them; with the
    opening slots they stay within the configured limits, however opens, cancellations,
    closes and shutdown interleave. *)
Theorem carrier_accounting s :
  reachable s → let e := sv_end s in
  c_permits (e_core e) = open_streams e + in_flight e + controls e
  ∧ (c_done (e_core e) = false → ActiveStreams (e_core e) = c_permits (e_core e))
  ∧ open_streams e + in_flight e + controls e ≤ cf_MaximumStreams (conf e)
  ∧ c_openings (e_core e) = countb holds_slot (e_calls e)
  ∧ c_openings (e_core e) ≤ cf_QueueDepth (conf e).
Proof.
  intros I%carrier_reachable_inv e. fold e in I. pose proof (inv_permits e I) as Hp. unfold holders in Hp. unfold open_streams, in_flight.
  pose proof (inv_max e I). split_and!; [lia| |lia|apply (inv_slots e I)|apply (inv_depth e I)].
  intros Hd. unfold ActiveStreams. rewrite Hd, (inv_active e I Hd).
  assert (0 ≤ c_permits (e_core e)).
  { rewrite Hp. pose proof (countb_nonneg holds_permit (e_calls e)). pose proof (countb_nonneg will_release (e_streams e)).
    pose proof (countb_nonneg is_control (e_streams e)). unfold controls. lia. }
  destruct (_ <=? _) eqn:E; bools; lia.
Qed.

Lemma countb_pos_inv {A} (p : A → bool) l : 1 ≤ countb p l → ∃ i x, l !! i = Some x ∧ p x = true.
Proof.
  induction l as [|y l IH]; cbn; [lia|]. destruct (p y) eqn:E; cbn.
  - intros _. by exists 0%nat, y.
  - intros (i & x & Hi & Hx)%IH. by exists (S i), x.
Qed.

(** No link of the multiplexer is lost: a link that is open belongs to one open stream
    or to one call in progress, and to nothing else; when no call is in progress every
    open link is the link of an open stream, and the link of a closed stream is closed. *)
Theorem carrier_links_owned s l :
  reachable s → let e := sv_end s in
  (e_links e !! l = Some true ↔
     (∃ id st, e_streams e !! id = Some st ∧ st_closed st = false ∧ st_link st = l)
     ∨ ∃ i k, e_calls e !! i = Some k ∧ owns_link l k = true)
  ∧ countb (owns_link l) (e_calls e) + countb (stream_owns l) (e_streams e) ≤ 1.
Proof.
  intros I%carrier_reachable_inv e. fold e in I. pose proof (inv_link e I l) as Hl. unfold owners, link_open in Hl.
  pose proof (countb_nonneg (owns_link l) (e_calls e)). pose proof (countb_nonneg (stream_owns l) (e_streams e)).
  split; [split|].
  - intros E. rewrite E in Hl. cbn in Hl. destruct (Z.le_gt_cases 1 (countb (stream_owns l) (e_streams e))) as [Hs|Hs].
    + left. apply countb_pos_inv in Hs as (id & st & Ei & [Eb Ec]%andb_true_iff). bools. subst l. by exists id, st.
    + right. apply countb_pos_inv. lia.
  - intros Ho. assert (link_open (e_links e) l = true) as Hlo.
    { destruct Ho as [(id & st & E & Ec & <-)|(i & k & E & Ek)]; [by eapply stream_owner|by eapply call_owner]. }
    unfold link_open in Hlo. by destruct (e_links e !! l) as [[]|].
  - destruct (default false (e_links e !! l)); cbn in Hl; lia.
Qed.

(** Every stream that carries a preface is bound to the carrier's own identity, and the
    edge opened it only with a valid preface that the route authorizer admitted, unless it
    is one of the two private-access kinds, which the host opens. *)
Theorem carrier_streams_approved s st open :
  reachable s → let e := sv_end s in st ∈ e_streams e → st_open st = Some open →
  matches (cf_Identity (conf e)) open = true
  ∧ (StreamOpen_Validate open = None ∧ authorize (conf e) open = None
     ∨ so_Kind open = PrivateAccessHTTP ∨ so_Kind open = PrivateAccessTCP).
Proof.
  intros I%carrier_reachable_inv e Hst Ho. fold e in I. pose proof (inv_streams e I st Hst) as Ha.
  unfold stream_approved in Ha. rewrite Ho in Ha. cbn [admits edge_admits] in Ha. unfold approved in Ha. apply andb_true_iff in Ha as [Hm Ha]. split; [done|].
  apply orb_true_iff in Ha as [[Ha|Ha]%orb_true_iff|Ha]; bools; [left|auto..].
  by rewrite <- !failed_false.
Qed.

(** ** The control slot *)

(** No control stream is open or on its way. *)
Definition quiet_call (k : call) : bool := match k with WaitAccept AcceptControl | Wrapped _ => false | _ => true end.
Definition quiet_stream (st : Stream) : bool := negb (is_control st) || st_closed st.

Definition calm (e : Endpoint) : Prop :=
  (∀ st, st ∈ e_streams e → quiet_stream st = true) ∧ (∀ k, k ∈ e_calls e → quiet_call k = true).

(** The control field names a stream that is closed already, and nothing is left that
    could clear it. *)
Definition wedged (s : Server) : Prop := sv_control s ≠ None ∧ sv_controlOpening s = false ∧ calm (sv_end s).

Lemma calm_start k e : calm e → quiet_call k = true → calm (start_call k e).
Proof. intros [C1 C2] H. split; [done|]. by apply in_snoc. Qed.

Lemma calm_set i k e : calm e → quiet_call k = true → calm (set_call i k e).
Proof. intros [C1 C2] H. split; [done|]. by apply in_set_call. Qed.

Lemma calm_core c e : calm e → calm (e <| e_core := c |>).
Proof. done. Qed.

Lemma calm_upd f e : calm e → calm (upd_core f e).
Proof. done. Qed.

Lemma calm_link e : calm e → calm (new_link e).1.
Proof. done. Qed.

Lemma calm_close_link l e : calm e → calm (close_link l e).
Proof. done. Qed.

Lemma calm_late r e : calm e → calm (drop_late r e).
Proof. by destruct r. Qed.

Lemma calm_wrap l o e : calm e → calm (wrapStream l ReleasePermit o e).1.
Proof. intros [C1 C2]. split; [|done]. by apply in_snoc. Qed.

Lemma calm_close rel id e : calm e → calm (close_stream rel id e).1 ∧ (close_stream rel id e).2 ≠ Some ClearControl.
Proof.
  intros [C1 C2]. unfold close_stream. destruct (e_streams e !! id) as [st|] eqn:E; [|done].
  destruct (st_closed st) eqn:Ec; [done|]. pose proof (C1 st (list_elem_of_lookup_2 _ _ _ E)) as Hc.
  unfold quiet_stream, is_control in Hc. rewrite Ec, orb_false_r in Hc. cbn [fst snd].
  assert (∀ y, y ∈ <[id := st <| st_closed := true |>]> (e_streams e) → quiet_stream y = true) as Hs.
  { apply in_set_call; [done|]. unfold quiet_stream. by rewrite orb_true_r. }
  destruct (st_release st); done.
Qed.

#[local] Hint Resolve calm_start calm_set calm_core calm_upd calm_link calm_close_link calm_late calm_wrap : paperboat.

Lemma calm_quiet e i k : calm e → e_calls e !! i = Some k → quiet_call k = true.
Proof. intros [_ C] E. apply C. by eapply list_elem_of_lookup_2. Qed.

Lemma calm_begin p ctxErr ch e e' : calm e → begin_open p ctxErr ch e = Some e' → calm e'.
Proof.
  intros C. unfold begin_open. destruct (select_permit _ _ _) as [[c [x|]]|]; intros [= <-]; by apply calm_start.
Qed.

Lemma calm_checked open ctxErr ch e e' : calm e → open_checked open ctxErr ch e = Some e' → calm e'.
Proof.
  intros C. unfold open_checked. repeat case_match; try (intros [= <-]; by apply calm_start). by apply calm_begin.
Qed.

Lemma calm_slot rel i ctxErr ch e e' : calm e → openRaw_slot rel i ctxErr ch e = Some e' → calm e'.
Proof.
  intros C. unfold openRaw_slot. destruct (e_calls e !! i) as [[]|]; try done.
  destruct (select_slot _ _ _ _) as [[c [x|]]|]; intros [= <-]; by apply calm_set.
Qed.

Lemma calm_opened rel i r ctxErr e e' : calm e → openRaw_result rel i r ctxErr e = Some e' → calm e'.
Proof.
  intros C. unfold openRaw_result. destruct (e_calls e !! i) as [[|p| | | | | | | |]|]; try done.
  destruct r as [x|]; cbn [take_result]; [intros [= <-]; by apply calm_set|].
  unfold new_link. destruct ctxErr as [x|]; cbn [take_result]; [intros [= <-]; by apply calm_set|].
  destruct p; intros [= <-]; [by apply calm_set|]. apply calm_set; [|done].
  exact (calm_wrap (length (e_links e)) None (new_link (upd_core take_slot_back e)).1 C).
Qed.

Lemma calm_cancel i ctxErr ch e e' : calm e → openRaw_cancel i ctxErr ch e = Some e' → calm e'.
Proof.
  intros C. unfold openRaw_cancel. repeat case_match; try done; intros [= <-]; apply calm_start; try done; by apply calm_set.
Qed.

Lemma calm_finish rel i r e e' : calm e → finishCanceledOpen rel i r e = Some e' → calm e'.
Proof. intros C. unfold finishCanceledOpen. repeat case_match; try done. intros [= <-]. apply calm_set; [|done]. by apply calm_upd, calm_late. Qed.

Lemma calm_written rel i r e e' : calm e → open_written rel i r e = Some e' → calm e'.
Proof.
  intros C. unfold open_written. destruct (e_calls e !! i) as [[]|]; try done. destruct r; intros [= <-]; [by apply calm_set|].
  apply calm_set; [|done]. by apply (calm_wrap link (Some open)).
Qed.

Lemma wedged_end s f s' :
  (∀ e e', calm e → f e = Some e' → calm e') → wedged s → on_end f s = Some s' → wedged s'.
Proof.
  intros Hf (W1 & W2 & W3). unfold on_end. destruct (f (sv_end s)) as [e|] eqn:E; [|done]. intros [= <-].
  split_and!; [done..|]. by eapply Hf.
Qed.

(** No event of the carrier frees a wedged control slot. *)
Lemma wedged_exec s s' ev : wedged s → exec ev s = Some s' → wedged s'.
Proof.
  intros W. pose proof W as (W1 & W2 & C). destruct ev; cbn [exec].
  - apply wedged_end; [|done]. intros e e'. apply calm_checked.
  - apply wedged_end; [|done]. intros e e'. apply calm_begin.
  - unfold AcceptControlStream. destruct (sv_control s) eqn:Ec; [|done]. intros [= <-]. split_and!; [by cbn; rewrite Ec|done|].
    by apply calm_start.
  - unfold AcceptAccessStream, begin_accept. destruct (select_permit _ _ _) as [[c [x|]]|]; intros [= <-];
      (split_and!; [done..|]); by apply calm_start.
  - apply wedged_end; [|done]. intros e e'. apply calm_slot.
  - apply wedged_end; [|done]. intros e e'. apply calm_opened.
  - apply wedged_end; [|done]. intros e e'. apply calm_cancel.
  - apply wedged_end; [|done]. intros e e'. apply calm_finish.
  - apply wedged_end; [|done]. intros e e'. apply calm_written.
  - unfold acceptRaw_result. destruct (e_calls (sv_end s) !! i) as [[| | | |[]| | | | |]|] eqn:E; try done;
      [by apply (calm_quiet _ _ _ C) in E|].
    destruct r as [x|]; cbn [take_result]; [intros [= <-]; split_and!; [done..|by apply calm_set]|].
    unfold new_link. destruct ctxErr as [x|]; cbn [take_result]; intros [= <-]; (split_and!; [done..|by apply calm_set]).
  - unfold acceptRaw_cancel. destruct (e_calls (sv_end s) !! i) as [[| | | |[]| | | | |]|] eqn:E; try done;
      [by apply (calm_quiet _ _ _ C) in E|].
    destruct ch; try done; case_match; try done; intros [= <-]; (split_and!; [done..|]); apply calm_start; try done; by apply calm_set.
  - unfold finishCanceledAccept. destruct (e_calls (sv_end s) !! i) as [[]|]; try done. intros [= <-].
    split_and!; [done..|]. apply calm_set; [|done]. by apply calm_upd, calm_late.
  - unfold control_publish. destruct (e_calls (sv_end s) !! i) as [[]|] eqn:E; try done. by apply (calm_quiet _ _ _ C) in E.
  - unfold access_read. destruct (e_calls (sv_end s) !! i) as [[| | | | | | |l| |]|]; try done.
    destruct r as [x|open]; [intros [= <-]; split_and!; [done..|by apply calm_set]|].
    repeat case_match; intros [= <-]; (split_and!; [done..|]); apply calm_set; try done.
    pose proof (calm_wrap l (Some open) _ C) as C'. by rewrite H1 in C'.
  - intros [= <-]. destruct (calm_close releasePermit id (sv_end s) C) as [C' Hn]. unfold Stream_Close.
    destruct (close_stream _ _ _) as [e rel]. destruct rel as [[]|]; done.
  - intros [= <-]. done.
Qed.

Lemma wedged_run s s' evs : wedged s → run evs s = Some s' → wedged s'.
Proof.
  revert s. induction evs as [|ev evs IH]; intros s W; cbn; [by intros [= <-]|].
  destruct (exec ev s) as [s1|] eqn:E; [|done]. apply IH. by eapply wedged_exec.
Qed.

(** A wedged carrier refuses every control stream. *)
Lemma wedged_refuses s ctxErr ch :
  wedged s → AcceptControlStream ctxErr ch s = Some (upd_end (start_call (Returned (inl ErrStreamLimit))) s).
Proof. intros W. unfold AcceptControlStream. destruct W as [W _]. by destruct (sv_control s). Qed.

(** ** Runs *)

Module Runs.

Definition identity0 : Identity := mkIdentity "acct" "host" "tun" "con" "sess" 3 7.
Definition config0 (streams : Z) : Config :=
  mkConfig streams 1 1 0 0 0 0 0 identity0 (Some (λ _ open, if so_RouteID open == "denied" then Some (EPlain "no") else None)).

Definition server0 (streams : Z) : Server :=
  match NewServerWithSession (config0 streams) with inr s => s | inl _ => mkServer (newEndpoint (config0 streams)) None false end.

Definition open0 (route : string) : StreamOpen :=
  mkOpen ProtocolName ProtocolVersion "acct" "tun" "con" "sess" 3 7 route "req" "http".

Lemma server0_reachable evs s : run evs (server0 2) = Some s → reachable s.
Proof.
  assert (reachable (server0 2)) as H.
  { apply (reachable_new (config0 2)). vm_compute. reflexivity. }
  revert H. generalize (server0 2). induction evs as [|ev evs IH]; intros s0 H; cbn [run]; [by intros [= <-]|].
  destruct (exec ev s0) as [s1|] eqn:E; [|done]. apply IH. by eapply reachable_step.
Qed.

(** A data stream, a denied one, an open that is cancelled and completed late, and a
    second open that finds the limit. *)
Definition busy : list event :=
  [EOpen (open0 "route") None Proceed; ESlot 0 None Proceed; EOpened 0 None None; EWritten 0 None;
   EOpen (open0 "denied") None Proceed; EOpen (open0 "route") None Proceed; ESlot 2 None Proceed;
   ECancelOpen 2 (Some (EPlain "canceled")) OnContext; EOpen (open0 "route") None OnDefault].

Definition server1 : Server := match run busy (server0 2) with Some s => s | None => server0 2 end.

Lemma server1_reachable : reachable server1.
Proof. apply (server0_reachable busy). vm_compute. reflexivity. Qed.

Definition end1 : Endpoint := sv_end server1.

Lemma carrier_accounting_witness :
  c_permits (e_core end1) = 2 ∧ open_streams end1 = 1 ∧ in_flight end1 = 1
  ∧ open_streams end1 + in_flight end1 + controls end1 ≤ cf_MaximumStreams (conf end1).
Proof.
  split; [vm_compute; reflexivity|]. split; [vm_compute; reflexivity|]. split; [vm_compute; reflexivity|].
  exact (proj1 (proj2 (proj2 (carrier_accounting server1 server1_reachable)))).
Defined.

Lemma carrier_links_owned_witness :
  e_links end1 !! 0%nat = Some true
  ∧ countb (owns_link 0) (e_calls end1) + countb (stream_owns 0) (e_streams end1) ≤ 1.
Proof. split; [vm_compute; reflexivity|]. exact (proj2 (carrier_links_owned server1 0 server1_reachable)). Defined.

Lemma carrier_streams_approved_witness :
  matches (cf_Identity (conf end1)) (open0 "route") = true.
Proof.
  refine (proj1 (carrier_streams_approved server1 (mkStream 0 (Some (open0 "route")) ReleasePermit false) (open0 "route")
                   server1_reachable _ eq_refl)).
  apply (list_elem_of_lookup_2 _ 0). vm_compute. reflexivity.
Defined.

(** Each accepted control stream costs the carrier a permit for good: after two control
    streams were accepted and closed, a carrier for two streams has nothing open and no call
    in progress, reports two active streams, and refuses to open a stream. *)
Theorem control_permits_lost :
  match run [EAcceptControl None Proceed; EAccepted 0 None None; EPublish 0; EClose 0;
             EAcceptControl None Proceed; EAccepted 1 None None; EPublish 1; EClose 1;
             EOpen (open0 "route") None OnDefault] (server0 2) with
  | Some s => reachable s ∧ c_done (e_core (sv_end s)) = false ∧ open_streams (sv_end s) = 0 ∧ in_flight (sv_end s) = 0
              ∧ forallb st_closed (e_streams (sv_end s)) = true ∧ forallb negb (e_links (sv_end s)) = true
              ∧ ActiveStreams (e_core (sv_end s)) = 2
              ∧ e_calls (sv_end s) !! 2%nat = Some (Returned (inl ErrStreamLimit))
  | None => False
  end.
Proof.
  match goal with |- context [run ?evs (server0 2)] => pose proof (server0_reachable evs) as H; destruct (run evs (server0 2)) as [s|] eqn:E end.
  - split; [by apply H|]. clear H. revert E. vm_compute. intros [= <-]. done.
  - revert E. vm_compute. discriminate.
Qed.

(** A control stream whose context ends before [AcceptControlStream] stores it leaves the
    control slot occupied by a closed stream, and no later event frees it: every further
    control stream is refused as if one were in use. *)
Theorem control_slot_wedged :
  ∃ s, run [EAcceptControl None Proceed; EAccepted 0 None None; EClose 0; EPublish 0] (server0 2) = Some s
       ∧ reachable s ∧ e_calls (sv_end s) !! 0%nat = Some (Returned (inr 0%nat)) ∧ forallb st_closed (e_streams (sv_end s)) = true
       ∧ ∀ evs s' ctxErr ch, run evs s = Some s' →
           AcceptControlStream ctxErr ch s' = Some (upd_end (start_call (Returned (inl ErrStreamLimit))) s').
Proof.
  match goal with |- context [run ?evs (server0 2)] => pose proof (server0_reachable evs) as H; destruct (run evs (server0 2)) as [s|] eqn:E end.
  2: { revert E. vm_compute. discriminate. }
  exists s. split; [done|]. split; [by apply H|]. clear H.
  assert (wedged s ∧ e_calls (sv_end s) !! 0%nat = Some (Returned (inr 0%nat)) ∧ forallb st_closed (e_streams (sv_end s)) = true) as (W & H1 & H2).
  { revert E. vm_compute. intros [= <-]. split; [|done]. split_and!; [done|done|..].
    - intros st Hst. apply list_elem_of_singleton in Hst. by subst.
    - intros k Hk. apply list_elem_of_singleton in Hk. by subst. }
  split; [done|]. split; [done|]. intros evs s' ctxErr ch Hr. apply wedged_refuses. by eapply wedged_run.
Qed.
End Runs.

End CarrierGuarantees.
