(* ===== verification/CarrierClient.v ===== *)
(** * Data carrier: the host end

    Models [Client] of [internal/datacarrier/carrier.go].  The streams a client opens are
    the shared steps of [Carrier.v] with the client's own [releasePermit]; what is added
    is the accept loop, its queue of results, and the table of request keys that keeps
    two streams from serving the same request. *)
From S2P Require Import Prelude Go Protocol StreamFrames Carrier CarrierProofs CarrierGuarantees.

Module CarrierClient.
Import StreamFrames Carrier.

(** ** State *)

(** Where the accept loop stands.  [LAdmit i] names the admission under way, an entry of
    the table of calls that holds the permit and the link. *)
Inductive loop := LAccept | LAdmit (i : nat) | LPublish (r : err + nat) | LEnded.

(** A call of [AcceptStream]. *)
Inductive taker := Waiting | Took (r : err + nat).

Record Client := mkClient {
  cl_end : Endpoint;
  cl_requests : gset string;
  cl_accepted : list (err + nat);
  cl_acceptedClosed : bool;
  cl_loop : loop;
  cl_takers : list taker
}.
#[export] Instance Client_eta : Eta Client := λ r,
  mkClient (cl_end r) (cl_requests r) (cl_accepted r) (cl_acceptedClosed r) (cl_loop r) (cl_takers r).

Definition NewClientWithSession (config : Config) : err + Client :=
  let config := withDefaults config in
  match Config_Validate config with
  | Some e => inl e
  | None => inr (mkClient (newEndpoint config) ∅ [] false LAccept [])
  end.

(** After the carrier was closed the count of active streams is not kept any more. *)
Definition client_releasePermit (c : core) : core :=
  let c := if c_done c then c else c <| c_active := c_active c - 1 |> in
  if 0 <? c_permits c then c <| c_permits := c_permits c - 1 |> else c.

(** ** Requests *)

Definition request_key (open : StreamOpen) : string :=
  so_SessionID open +:+ String Ascii.zero (so_RequestID open).

Definition reserveRequest (key : string) (s : Client) : option Client :=
  if bool_decide (key ∈ cl_requests s) then None else Some (s <| cl_requests := {[key]} ∪ cl_requests s |>).

Definition releaseRequest (key : string) (s : Client) : Client := s <| cl_requests := cl_requests s ∖ {[key]} |>.

(** ** Closing *)

Definition Client_Stream_Close (id : nat) (s : Client) : Client :=
  let '(e, rel) := close_stream client_releasePermit id (cl_end s) in
  let s := s <| cl_end := e |> in
  match rel with Some (ReleaseRequest key) => releaseRequest key s | _ => s end.

Definition client_shutdown (e : option err) (s : Client) : Client :=
  s <| cl_end := upd_core (λ c, shutdown c e) (cl_end s) |>.

Definition client_done (s : Client) : bool := c_done (e_core (cl_end s)).

(** ** The accept loop *)

Definition take_permit (c : core) : core := c <| c_permits := c_permits c + 1 |> <| c_active := c_active c + 1 |>.

(** [session.AcceptStream] returned, and the loop takes a permit or turns the stream away. *)
Definition acceptLoop_accept (r : option err) (s : Client) : option Client :=
  match cl_loop s with
  | LAccept =>
      match r with
      | Some e =>
          let s := if client_done s then s else client_shutdown (Some e) s in
          Some (s <| cl_loop := LEnded |> <| cl_acceptedClosed := true |>)
      | None =>
          let '(e, l) := new_link (cl_end s) in
          if permit_free (e_core e)
          then Some (s <| cl_end := start_call (Reading l) (upd_core take_permit e) |> <| cl_loop := LAdmit (length (e_calls e)) |>)
          else Some (s <| cl_end := close_link l e |> <| cl_loop := LPublish (inl ErrCarrierOverloaded) |>)
      end
  | _ => None
  end.

(** [raw.Close], [releasePermit] and the error for the queue. *)
Definition reject_stream (i l : nat) (e : err) (s : Client) : Client :=
  s <| cl_end := set_call i (Returned (inl e)) (upd_core client_releasePermit (close_link l (cl_end s))) |>
    <| cl_loop := LPublish (inl e) |>.

(** [input] is what the edge sent on the stream, or the error that setting the deadline or
    reading the preface ended with. *)
Definition acceptLoop_admit (input : err + bytes) (s : Client) : option Client :=
  match cl_loop s with
  | LAdmit i =>
      match e_calls (cl_end s) !! i with
      | Some (Reading l) =>
          let config := c_config (e_core (cl_end s)) in
          match input with
          | inl e => Some (reject_stream i l e s)
          | inr input =>
              match ReadStreamOpen input with
              | inl e => Some (reject_stream i l e s)
              | inr (open, _) =>
                  if negb (matches (cf_Identity config) open) then Some (reject_stream i l ErrIdentityMismatch s)
                  else match authorize config open with
                  | Some _ => Some (reject_stream i l (EWrap "" ErrRouteDenied) s)
                  | None =>
                      match reserveRequest (request_key open) s with
                      | None => Some (reject_stream i l ErrRequestInUse s)
                      | Some s =>
                          let '(e, id) := wrapStream l (ReleaseRequest (request_key open)) (Some open) (cl_end s) in
                          Some (s <| cl_end := set_call i (Returned (inr id)) e |> <| cl_loop := LPublish (inr id) |>)
                      end
                  end
              end
          end
      | _ => None
      end
  | _ => None
  end.

Definition queue_room (s : Client) : bool :=
  Z.of_nat (length (cl_accepted s)) <? cf_QueueDepth (c_config (e_core (cl_end s))).

Definition publish (ch : choice) (s : Client) : option Client :=
  match cl_loop s with
  | LPublish r =>
      match ch with
      | Proceed => if queue_room s then Some (s <| cl_accepted := cl_accepted s ++ [r] |> <| cl_loop := LAccept |>) else None
      | OnDone =>
          if client_done s
          then Some ((match r with inr id => Client_Stream_Close id s | inl _ => s end) <| cl_loop := LAccept |>)
          else None
      | _ => None
      end
  | _ => None
  end.

(** ** [AcceptStream] *)

Definition AcceptStream (s : Client) : Client :=
  s <| cl_takers := cl_takers s ++ [if client_done s then Took (inl ErrCarrierClosed) else Waiting] |>.

(** A waiting [AcceptStream] leaves its [select]. *)
Definition AcceptStream_select (t : nat) (ctxErr : option err) (ch : choice) (s : Client) : option Client :=
  let return_ r s := Some (s <| cl_takers := <[t := Took r]> (cl_takers s) |>) in
  match cl_takers s !! t with
  | Some Waiting =>
      match ch with
      | Proceed =>
          match cl_accepted s with
          | r :: rest => return_ r (s <| cl_accepted := rest |>)
          | [] => if cl_acceptedClosed s then return_ (inl ErrCarrierClosed) s else None
          end
      | OnDone => if client_done s then return_ (inl ErrCarrierClosed) s else None
      | OnContext => match ctxErr with Some e => return_ (inl e) s | None => None end
      | OnDefault => None
      end
  | _ => None
  end.

(** ** Runs *)

Definition on_client (f : Endpoint → option Endpoint) (s : Client) : option Client :=
  match f (cl_end s) with Some e => Some (s <| cl_end := e |>) | None => None end.

Inductive client_event :=
  | COpen (open : StreamOpen) (ctxErr : option err) (ch : choice)
  | COpenControl (ctxErr : option err) (ch : choice)
  | CSlot (i : nat) (ctxErr : option err) (ch : choice)
  | COpened (i : nat) (r ctxErr : option err)
  | CCancelOpen (i : nat) (ctxErr : option err) (ch : choice)
  | CFinishOpen (i : nat) (r : option err)
  | CWritten (i : nat) (r : option err)
  | CAccepted (r : option err)
  | CAdmit (input : err + bytes)
  | CPublish (ch : choice)
  | CAcceptStream
  | CSelect (t : nat) (ctxErr : option err) (ch : choice)
  | CClose (id : nat)
  | CShutdown (e : option err).

Definition client_exec (ev : client_event) (s : Client) : option Client :=
  match ev with
  | COpen open ctxErr ch => on_client (open_checked open ctxErr ch) s
  | COpenControl ctxErr ch => on_client (begin_open ControlStream ctxErr ch) s
  | CSlot i ctxErr ch => on_client (openRaw_slot client_releasePermit i ctxErr ch) s
  | COpened i r ctxErr => on_client (openRaw_result client_releasePermit i r ctxErr) s
  | CCancelOpen i ctxErr ch => on_client (openRaw_cancel i ctxErr ch) s
  | CFinishOpen i r => on_client (finishCanceledOpen client_releasePermit i r) s
  | CWritten i r => on_client (open_written client_releasePermit i r) s
  | CAccepted r => acceptLoop_accept r s
  | CAdmit input => acceptLoop_admit input s
  | CPublish ch => publish ch s
  | CAcceptStream => Some (AcceptStream s)
  | CSelect t ctxErr ch => AcceptStream_select t ctxErr ch s
  | CClose id => Some (Client_Stream_Close id s)
  | CShutdown e => Some (client_shutdown e s)
  end.

Fixpoint client_run (evs : list client_event) (s : Client) : option Client :=
  match evs with
  | [] => Some s
  | ev :: evs => match client_exec ev s with Some s => client_run evs s | None => None end
  end.

Inductive client_reachable : Client → Prop :=
  | client_reachable_new config s : NewClientWithSession config = inr s → client_reachable s
  | client_reachable_step s s' ev : client_reachable s → client_exec ev s = Some s' → client_reachable s'.

End CarrierClient.

(** * Data carrier: what the host end guarantees *)

Module CarrierClientProofs.
Import StreamFrames Carrier CarrierProofs CarrierClient.

(** The host takes no stream whose preface it did not check in full. *)
#[local] Instance host_admits : Admits | 0 := { admits := vetted; admits_vetted := λ _ _ H, H }.

Lemma client_releases : releases client_releasePermit.
Proof.
  intros c Hc. unfold client_releasePermit. destruct (c_done c) eqn:Ed.
  - exists (c_active c). rewrite (proj2 (Z.ltb_lt _ _)) by lia. split; [by destruct c|done].
  - exists (c_active c - 1). cbn [c_permits update]. rewrite (proj2 (Z.ltb_lt _ _)) by (destruct c; cbn in *; lia). done.
Qed.

Lemma client_release_config c : c_config (client_releasePermit c) = c_config c.
Proof. unfold client_releasePermit. destruct (c_done c); by destruct (_ <? _). Qed.

(** ** The shared steps leave the accepted streams alone *)

Record aside (e e' : Endpoint) : Prop := {
  as_conf : conf e' = conf e;
  as_streams : ∃ new, e_streams e' = e_streams e ++ new ∧ ∀ st, st ∈ new → st_release st = ReleasePermit;
  as_reading : ∀ i l, e_calls e !! i = Some (Reading l) → e_calls e' !! i = Some (Reading l)
}.

Lemma kept_nil {A} (l : list A) (P : A → Prop) : ∃ new, l = l ++ new ∧ ∀ x, x ∈ new → P x.
Proof. exists []. split; [by rewrite app_nil_r|]. intros x Hx. by apply elem_of_nil in Hx. Qed.

Lemma reading_start e k i l : e_calls e !! i = Some (Reading l) → e_calls (start_call k e) !! i = Some (Reading l).
Proof. intros E. cbn. rewrite lookup_app_l; [done|]. by eapply lookup_lt_Some. Qed.

Lemma reading_set e j k k' i l :
  e_calls e !! j = Some k → (∀ l, k ≠ Reading l) → e_calls e !! i = Some (Reading l) →
  <[j := k']> (e_calls e) !! i = Some (Reading l).
Proof.
  intros Ej Hk Ei. rewrite list_lookup_insert_ne; [done|]. intros ->. rewrite Ej in Ei. injection Ei as ->. by eapply Hk.
Qed.

Lemma aside_start e k c : c_config c = conf e → aside e (start_call k (e <| e_core := c |>)).
Proof. intros H. constructor; [done|apply kept_nil|]. intros i l. exact (reading_start e k i l). Qed.

Lemma aside_set e j k k' c links :
  c_config c = conf e → e_calls e !! j = Some k → (∀ l, k ≠ Reading l) →
  aside e (set_call j k' (e <| e_core := c |> <| e_links := links |>)).
Proof. intros H Ej Hk. constructor; [done|apply kept_nil|]. intros i l. exact (reading_set e j k k' i l Ej Hk). Qed.

Lemma aside_wrap e j k k' c links l o :
  c_config c = conf e → e_calls e !! j = Some k → (∀ l, k ≠ Reading l) →
  aside e (set_call j k' (wrapStream l ReleasePermit o (e <| e_core := c |> <| e_links := links |>)).1).
Proof.
  intros H Ej Hk. constructor; [done| |intros i l'; exact (reading_set e j k k' i l' Ej Hk)].
  exists [mkStream l o ReleasePermit false]. split; [done|]. intros st ->%list_elem_of_singleton. done.
Qed.

Lemma select_permit_config c ctxErr ch c' x : select_permit c ctxErr ch = Some (c', x) → c_config c' = c_config c.
Proof. destruct x; intros E; [by apply select_permit_err in E as ->|by apply select_permit_ok in E as (-> & _)]. Qed.

Lemma aside_begin e e' p ctxErr ch : begin_open p ctxErr ch e = Some e' → aside e e'.
Proof.
  unfold begin_open. destruct (select_permit _ _ _) as [[c [x|]]|] eqn:E; intros [= <-];
    apply aside_start; by eapply select_permit_config.
Qed.

Lemma aside_refl_start e k : aside e (start_call k e).
Proof. constructor; [done|apply kept_nil|]. intros i l. by apply reading_start. Qed.

Lemma aside_checked e e' open ctxErr ch : open_checked open ctxErr ch e = Some e' → aside e e'.
Proof.
  unfold open_checked. repeat case_match; try (intros [= <-]; apply aside_refl_start). apply aside_begin.
Qed.

Lemma aside_slot e e' i ctxErr ch : openRaw_slot client_releasePermit i ctxErr ch e = Some e' → aside e e'.
Proof.
  unfold openRaw_slot. destruct (e_calls e !! i) as [[]|] eqn:E; try done.
  destruct (select_slot _ _ _ _) as [[c x]|] eqn:Es; [|done].
  assert (c_config c = conf e) as Hc.
  { unfold select_slot in Es. repeat case_match; simplify_eq; try done; apply client_release_config. }
  destruct x; intros [= <-]; by eapply (aside_set e i _ _ c (e_links e)).
Qed.

Lemma aside_opened e e' i r ctxErr : openRaw_result client_releasePermit i r ctxErr e = Some e' → aside e e'.
Proof.
  unfold openRaw_result. destruct (e_calls e !! i) as [[|p| | | | | | | |]|] eqn:E; try done. unfold new_link.
  destruct r as [x|]; cbn [take_result].
  { intros [= <-]. eapply (aside_set e i _ _ (client_releasePermit _) (e_links e)); try done. apply client_release_config. }
  destruct ctxErr as [x|]; cbn [take_result].
  { intros [= <-]. eapply (aside_set e i _ _ (client_releasePermit _)); try done. apply client_release_config. }
  destruct p; intros [= <-]; [by eapply (aside_set e i _ _ (take_slot_back (e_core e)))|].
  by eapply (aside_wrap e i _ _ (take_slot_back (e_core e))).
Qed.

Lemma aside_cancel e e' i ctxErr ch : openRaw_cancel i ctxErr ch e = Some e' → aside e e'.
Proof.
  unfold openRaw_cancel. destruct (e_calls e !! i) as [[]|] eqn:E; try done.
  repeat case_match; try done; intros [= <-]; (constructor; [done|apply kept_nil|]); intros j l Hj;
    apply reading_start; by eapply reading_set.
Qed.

Lemma aside_finish e e' i r : finishCanceledOpen client_releasePermit i r e = Some e' → aside e e'.
Proof.
  unfold finishCanceledOpen. destruct (e_calls e !! i) as [[]|] eqn:E; try done. intros [= <-].
  destruct r; (constructor; [apply client_release_config|apply kept_nil|]); intros j l; by apply (reading_set e i CanceledOpen).
Qed.

Lemma aside_written e e' i r : open_written client_releasePermit i r e = Some e' → aside e e'.
Proof.
  unfold open_written. destruct (e_calls e !! i) as [[]|] eqn:E; try done. destruct r; intros [= <-].
  - eapply (aside_set e i _ _ (client_releasePermit _)); try done. apply client_release_config.
  - by eapply (aside_wrap e i _ _ (e_core e) (e_links e)).
Qed.

(** ** The invariant *)

(** The open accepted stream of a request. *)
Definition serves (key : string) (st : Stream) : bool :=
  match st_release st with ReleaseRequest k => bool_decide (key = k) && negb (st_closed st) | _ => false end.

(** A stream the accept loop produced carries the preface its key was made of. *)
Definition release_ok (st : Stream) : bool :=
  match st_release st with
  | ReleasePermit => true
  | ClearControl => false
  | ReleaseRequest key => match st_open st with Some open => key == request_key open | None => false end
  end.

Definition is_stream (id : nat) (r : err + nat) : bool := match r with inr id' => bool_decide (id = id') | inl _ => false end.
Definition took (id : nat) (t : taker) : bool := match t with Took r => is_stream id r | Waiting => false end.
Definition publishing (id : nat) (l : loop) : bool := match l with LPublish r => is_stream id r | _ => false end.

(** In how many places a stream is on its way to a caller of [AcceptStream] or has
    reached one. *)
Definition copies (s : Client) (id : nat) : Z :=
  countb (took id) (cl_takers s) + countb (is_stream id) (cl_accepted s) + b2z (publishing id (cl_loop s)).

Definition streams (s : Client) : list Stream := e_streams (cl_end s).

Record cinv (s : Client) : Prop := {
  ci_end : inv (cl_end s);
  ci_release : ∀ st, st ∈ streams s → release_ok st = true;
  ci_requests : ∀ key, countb (serves key) (streams s) = b2z (bool_decide (key ∈ cl_requests s));
  ci_queue : Z.of_nat (length (cl_accepted s)) ≤ cf_QueueDepth (conf (cl_end s));
  ci_copies : ∀ id, copies s id ≤ b2z (bool_decide (id < length (streams s))%nat);
  ci_loop : ∀ i, cl_loop s = LAdmit i → ∃ l, e_calls (cl_end s) !! i = Some (Reading l);
  ci_closed : cl_acceptedClosed s = true ↔ cl_loop s = LEnded
}.

Lemma cinv_new config s : NewClientWithSession config = inr s → cinv s.
Proof.
  unfold NewClientWithSession. cbv zeta. unfold Config_Validate.
  destruct (Config_validate (withDefaults config) false) eqn:E; [done|]. intros [= <-].
  pose proof (valid_bounds _ _ E) as Hb. clear E. rewrite withDefaults_idem in Hb. constructor; try done.
  - apply inv_fresh; lia.
  - intros st Hst. by apply elem_of_nil in Hst.
  - change (0 ≤ cf_QueueDepth (withDefaults config)). lia.
Qed.

Lemma serves_other key st : st_release st = ReleasePermit → serves key st = false.
Proof. unfold serves. by intros ->. Qed.

Lemma countb_none {A} (p : A → bool) l : (∀ x, x ∈ l → p x = false) → countb p l = 0.
Proof. apply countb_zero. Qed.

(** A shared step keeps the client's part of the invariant. *)
Lemma cinv_aside s e : cinv s → inv e → aside (cl_end s) e → cinv (s <| cl_end := e |>).
Proof.
  intros [C1 C2 C3 C4 C5 C6 C7] I [A1 (new & A2 & A3) A4]. unfold streams in *. constructor; try done; cbn [cl_end update streams].
  - unfold streams. cbn. rewrite A2. intros st [Hst|Hst]%elem_of_app; [by apply C2|]. unfold release_ok. by rewrite A3.
  - intros key. unfold streams. cbn. rewrite A2, countb_app, C3, (countb_none _ new); [lia|].
    intros st Hst. by apply serves_other, A3.
  - cbn. by rewrite A1.
  - intros id. specialize (C5 id). unfold streams. cbn. rewrite A2, length_app. unfold copies in *. cbn.
    revert C5. repeat case_bool_decide; cbn; lia.
  - intros i Hi. destruct (C6 i Hi) as [l Hl]. exists l. by apply A4.
Qed.

Lemma cinv_on_client f s s' :
  (∀ e e', inv e → f e = Some e' → inv e' ∧ aside e e') → cinv s → on_client f s = Some s' → cinv s'.
Proof.
  intros Hf C. unfold on_client. destruct (f (cl_end s)) as [e|] eqn:E; [|done]. intros [= <-].
  destruct (Hf _ _ (ci_end s C) E). by apply cinv_aside.
Qed.

(** ** The accept loop *)

Lemma b2z_nonneg b : 0 ≤ b2z b.
Proof. destruct b; cbn; lia. Qed.

(** The loop goes on without a stream in its hands. *)
Lemma cinv_loop s e lp :
  cinv s → inv e → conf e = conf (cl_end s) → e_streams e = streams s → cl_loop s ≠ LEnded → lp ≠ LEnded →
  (∀ id, publishing id lp = false) → (∀ i, lp = LAdmit i → ∃ l, e_calls e !! i = Some (Reading l)) →
  cinv (s <| cl_end := e |> <| cl_loop := lp |>).
Proof.
  intros [C1 C2 C3 C4 C5 C6 C7] I Hc Hs Hl Hl' Hp Hr. unfold streams in *. constructor; unfold streams; cbn; try rewrite Hs; try done.
  - by rewrite Hc.
  - intros id. specialize (C5 id). unfold copies in *. cbn. rewrite Hp. pose proof (b2z_nonneg (publishing id (cl_loop s))). cbn [b2z]. lia.
  - rewrite C7. by split.
Qed.

(** A stream comes in and a permit is free. *)
Lemma inv_accept_link e :
  inv e → permit_free (e_core e) = true →
  inv (start_call (Reading (length (e_links e))) (upd_core take_permit (new_link e).1)).
Proof.
  intros [I1 I2 I3 I4 I5 I6 I7 I8] Hf. unfold permit_free in Hf. bools. unfold conf in *. unfold new_link. cbn [fst]. constructor.
  - recount. unfold take_permit. cbn. close_counts.
  - recount. unfold take_permit. cbn. close_counts.
  - recount. unfold take_permit. cbn. close_counts.
  - recount. cbn. close_counts.
  - done.
  - intros l. specialize (I6 l). pose proof (link_open_new (e_links e) l). recount. close_counts.
  - by apply in_snoc.
  - done.
Qed.

Lemma cinv_accepted s s' r : cinv s → acceptLoop_accept r s = Some s' → cinv s'.
Proof.
  intros C. pose proof (ci_end s C) as I. unfold acceptLoop_accept. destruct (cl_loop s) eqn:El; try done. destruct r as [e|].
  - intros [= <-]. set (s1 := if client_done s then s else client_shutdown (Some e) s).
    assert (cinv s1 ∧ cl_loop s1 = LAccept) as [[C1 C2 C3 C4 C5 C6 C7] El1].
    { subst s1. destruct (client_done s); [done|]. split; [|done]. apply cinv_aside; [done|by apply inv_shutdown|].
      constructor; [|apply kept_nil|done]. unfold upd_core, conf, shutdown. cbn. by destruct (c_done _). }
    clearbody s1. constructor; try done. intros id. specialize (C5 id). unfold copies in *. rewrite El1 in C5. done.
  - unfold new_link. cbn [e_core update]. destruct (permit_free _) eqn:Ef; intros [= <-].
    + apply cinv_loop; try done; [by apply inv_accept_link|by rewrite El|]. intros i [= <-]. exists (length (e_links (cl_end s))).
      cbn. by rewrite lookup_app_r, Nat.sub_diag by lia.
    + apply cinv_loop; try done; [by apply inv_drop_link|by rewrite El].
Qed.

Lemma cinv_reject s i l e :
  cinv s → cl_loop s = LAdmit i → e_calls (cl_end s) !! i = Some (Reading l) → cinv (reject_stream i l e s).
Proof.
  intros C El E. apply cinv_loop; try done; [|apply client_release_config|by rewrite El].
  apply (inv_give_back_link _ client_releases _ i (Reading l)); try done. apply (ci_end s C).
Qed.

Lemma ReadStreamOpen_valid input open rest : ReadStreamOpen input = inr (open, rest) → StreamOpen_Validate open = None.
Proof. unfold ReadStreamOpen. repeat case_match; try done. by intros [= <- <-]. Qed.

(** A stream that passed every check joins the open ones under its request key. *)
Lemma cinv_wrap s i l open :
  cinv s → cl_loop s = LAdmit i → e_calls (cl_end s) !! i = Some (Reading l) → vetted (conf (cl_end s)) open = true →
  request_key open ∉ cl_requests s →
  let '(e, id) := wrapStream l (ReleaseRequest (request_key open)) (Some open) (cl_end s) in
  cinv (s <| cl_requests := {[request_key open]} ∪ cl_requests s |> <| cl_end := set_call i (Returned (inr id)) e |>
          <| cl_loop := LPublish (inr id) |>).
Proof.
  intros [C1 C2 C3 C4 C5 C6 C7] El E Hv Hk. unfold streams in *.
  pose proof (inv_wrap _ i (Reading l) l (ReleaseRequest (request_key open)) (Some open) (length (e_streams (cl_end s)))
                C1 E eq_refl eq_refl (λ _, eq_refl) ltac:(done) Hv) as J.
  unfold wrapStream in *. constructor; unfold streams; cbn; try done.
  - intros st [Hst|Hst%list_elem_of_singleton]%elem_of_app; [by apply C2|]. subst st. cbn.
    apply bool_decide_eq_true. done.
  - intros key. rewrite countb_snoc, C3. cbn. destruct (decide (key = request_key open)) as [->|Hne].
    + rewrite (bool_decide_eq_false_2 (_ ∈ cl_requests s)) by done. rewrite !bool_decide_eq_true_2 by set_solver. done.
    + rewrite (bool_decide_eq_false_2 (key = _)) by done. cbn.
      rewrite (bool_decide_ext (key ∈ {[request_key open]} ∪ cl_requests s) (key ∈ cl_requests s)) by set_solver. lia.
  - intros id. specialize (C5 id). unfold copies in *. rewrite El in C5. cbn in *. rewrite length_app. cbn.
    revert C5. repeat case_bool_decide; cbn; lia.
  - rewrite C7, El. done.
Qed.

Lemma cinv_admit s s' input : cinv s → acceptLoop_admit input s = Some s' → cinv s'.
Proof.
  intros C. unfold acceptLoop_admit. destruct (cl_loop s) as [|i| |] eqn:El; try done.
  destruct (e_calls (cl_end s) !! i) as [[| | | | | | |l| |]|] eqn:E; try done.
  assert (∀ e, cinv (reject_stream i l e s)) as Hrej by (intros e; by apply cinv_reject).
  destruct input as [e|input]; [by intros [= <-]|]. destruct (ReadStreamOpen input) as [e|[open rest]] eqn:Er; [by intros [= <-]|].
  destruct (matches _ open) eqn:Em; cbn [negb]; [|by intros [= <-]]. destruct (authorize _ open) eqn:Ea; [by intros [= <-]|].
  unfold reserveRequest. case_bool_decide as Hk; [by intros [= <-]|].
  assert (vetted (conf (cl_end s)) open = true) as Hv.
  { unfold vetted, conf. by rewrite Em, Ea, (ReadStreamOpen_valid _ _ _ Er). }
  pose proof (cinv_wrap s i l open C El E Hv Hk) as J. revert J. unfold wrapStream. cbn [cl_end update]. intros J [= <-]. exact J.
Qed.

(** ** Closing and handing out *)

Lemma close_stream_conf id e : conf (close_stream client_releasePermit id e).1 = conf e.
Proof.
  unfold close_stream. destruct (e_streams e !! id) as [st|]; [|done]. destruct (st_closed st); [done|].
  destruct (st_release st); try done; apply client_release_config.
Qed.

Lemma serves_closed key st : serves key (st <| st_closed := true |>) = false.
Proof. unfold serves. cbn. destruct (st_release st); [done..|]. apply andb_false_r. Qed.

(** What [Close] does to a client: the stream is marked closed and its request key goes. *)
Lemma Client_Stream_Close_eq id s :
  Client_Stream_Close id s =
  match streams s !! id with
  | Some st =>
      if st_closed st then s
      else s <| cl_end := (close_stream client_releasePermit id (cl_end s)).1 |>
             <| cl_requests := match st_release st with ReleaseRequest key => cl_requests s ∖ {[key]} | _ => cl_requests s end |>
  | None => s
  end.
Proof.
  unfold Client_Stream_Close, close_stream, streams. destruct s as [e]. cbn. destruct (e_streams e !! id) as [st|]; [|done].
  destruct (st_closed st); [done|]. by destruct (st_release st).
Qed.

Lemma close_stream_streams rel id e st :
  e_streams e !! id = Some st → st_closed st = false →
  e_streams (close_stream rel id e).1 = <[id := st <| st_closed := true |>]> (e_streams e).
Proof. intros E Ec. unfold close_stream. rewrite E, Ec. by destruct (st_release st). Qed.

Lemma requests_minus (R : gset string) key k :
  k ∈ R → b2z (bool_decide (key ∈ R ∖ {[k]})) = b2z (bool_decide (key ∈ R)) - b2z (bool_decide (key = k)).
Proof.
  intros Hk. destruct (decide (key = k)) as [->|Hne].
  - by rewrite bool_decide_eq_false_2, !bool_decide_eq_true_2 by set_solver.
  - rewrite (bool_decide_eq_false_2 (key = k)) by done.
    rewrite (bool_decide_ext (key ∈ R ∖ {[k]}) (key ∈ R)) by set_solver. cbn. lia.
Qed.

(** The key of an open accepted stream is reserved. *)
Lemma served_key (R : gset string) l id st k :
  (∀ key, countb (serves key) l = b2z (bool_decide (key ∈ R))) → l !! id = Some st → st_closed st = false →
  st_release st = ReleaseRequest k → k ∈ R.
Proof.
  intros HR E Ec Er. specialize (HR k). assert (serves k st = true) as Hs.
  { unfold serves. rewrite Er, Ec, andb_true_r. by apply bool_decide_eq_true_2. }
  pose proof (countb_pos _ _ _ _ E Hs). destruct (bool_decide (k ∈ R)) eqn:Eb; [by apply bool_decide_eq_true in Eb|].
  cbn in HR. lia.
Qed.

Lemma cinv_close s id : cinv s → cinv (Client_Stream_Close id s).
Proof.
  intros C. rewrite Client_Stream_Close_eq. destruct (streams s !! id) as [st|] eqn:E; [|done].
  destruct (st_closed st) eqn:Ec; [done|]. destruct C as [C1 C2 C3 C4 C5 C6 C7].
  pose proof (close_stream_streams client_releasePermit id _ _ E Ec) as Hs.
  pose proof (inv_close _ client_releases _ id C1) as J. pose proof (close_stream_conf id (cl_end s)) as Hc.
  pose proof (calls_close client_releasePermit id (cl_end s)) as Hk.
  set (e := (close_stream client_releasePermit id (cl_end s)).1) in *. clearbody e.
  unfold streams in *. constructor; unfold streams; cbn; rewrite ?Hs, ?Hk, ?Hc; try done.
  - apply in_set_call; [done|]. change (release_ok st = true). apply C2. by eapply list_elem_of_lookup_2.
  - intros key. rewrite (countb_insert _ _ _ _ _ E), serves_closed, C3. cbn [b2z].
    destruct (st_release st) as [| |k] eqn:Er; [unfold serves; rewrite Er; cbn; lia..|].
    rewrite requests_minus; [|by eapply served_key].
    unfold serves. rewrite Er, Ec, andb_true_r. lia.
  - intros id'. rewrite length_insert. apply C5.
Qed.

Lemma Client_Stream_Close_rest id s :
  cl_loop (Client_Stream_Close id s) = cl_loop s ∧ cl_accepted (Client_Stream_Close id s) = cl_accepted s
  ∧ cl_takers (Client_Stream_Close id s) = cl_takers s.
Proof. rewrite Client_Stream_Close_eq. destruct (streams s !! id) as [st|]; [|done]. by destruct (st_closed st). Qed.

Lemma cinv_idle s r : cinv s → cl_loop s = LPublish r → cinv (s <| cl_loop := LAccept |>).
Proof.
  intros C El. pose proof (cinv_loop s (cl_end s) LAccept C (ci_end s C)) as J. destruct s. apply J; try done. cbn in *. by subst.
Qed.

Lemma cinv_publish s s' ch : cinv s → publish ch s = Some s' → cinv s'.
Proof.
  intros C. unfold publish. destruct (cl_loop s) as [| |r|] eqn:El; try done. destruct ch; try done.
  - unfold queue_room. destruct (_ <? _) eqn:Eq; [|done]. bools. intros [= <-]. destruct C as [C1 C2 C3 C4 C5 C6 C7].
    constructor; try done.
    + cbn. rewrite length_app. cbn. unfold conf. lia.
    + intros id. specialize (C5 id). unfold copies in *. cbn. rewrite countb_snoc. rewrite El in C5. cbn in C5. unfold streams in *. cbn. lia.
    + cbn. rewrite C7, El. done.
  - destruct (client_done s); [|done]. intros [= <-]. destruct r as [e|id]; [by eapply cinv_idle|].
    eapply cinv_idle; [by apply cinv_close|]. by rewrite (proj1 (Client_Stream_Close_rest id s)).
Qed.

(** A caller of [AcceptStream] returns with [r], which it may have taken from the queue. *)
Lemma cinv_return s t r q :
  cinv s → cl_takers s !! t = Some Waiting → (length q ≤ length (cl_accepted s))%nat →
  (∀ id, countb (is_stream id) q + b2z (is_stream id r) ≤ countb (is_stream id) (cl_accepted s)) →
  cinv (s <| cl_accepted := q |> <| cl_takers := <[t := Took r]> (cl_takers s) |>).
Proof.
  intros [C1 C2 C3 C4 C5 C6 C7] Et Hq Hr. constructor; try done.
  - cbn. lia.
  - intros id. specialize (C5 id). specialize (Hr id). unfold copies, streams in *. cbn. rewrite (countb_insert _ _ _ _ _ Et). cbn. lia.
Qed.

Lemma cinv_select s s' t ctxErr ch : cinv s → AcceptStream_select t ctxErr ch s = Some s' → cinv s'.
Proof.
  intros C. unfold AcceptStream_select. destruct (cl_takers s !! t) as [[]|] eqn:Et; try done.
  assert (∀ e, cinv (s <| cl_takers := <[t := Took (inl e)]> (cl_takers s) |>)) as He.
  { intros e. pose proof (cinv_return s t (inl e) (cl_accepted s) C Et) as J. destruct s. apply J; [done|]. intros id. cbn. lia. }
  destruct ch; try done.
  - destruct (cl_accepted s) as [|r rest] eqn:Ea; [destruct (cl_acceptedClosed s); [|done]; intros [= <-]; exact (He _)|].
    intros [= <-]. apply (cinv_return s t r rest C Et); rewrite Ea; [cbn; lia|]. intros id. cbn. lia.
  - destruct (client_done s); [|done]. intros [= <-]; exact (He _).
  - destruct ctxErr; [|done]. intros [= <-]; exact (He _).
Qed.

Lemma cinv_exec s s' ev : cinv s → client_exec ev s = Some s' → cinv s'.
Proof.
  intros C. destruct ev; cbn [client_exec].
  - apply cinv_on_client; [|done]. intros e e' I E. split; [by eapply inv_open_checked|by eapply aside_checked].
  - apply cinv_on_client; [|done]. intros e e' I E. split; [exact (inv_begin_open _ _ ControlStream _ _ I eq_refl E)|by eapply aside_begin].
  - apply cinv_on_client; [|done]. intros e e' I E. split; [by eapply inv_slot; [apply client_releases|..]|by eapply aside_slot].
  - apply cinv_on_client; [|done]. intros e e' I E. split; [by eapply inv_opened; [apply client_releases|..]|by eapply aside_opened].
  - apply cinv_on_client; [|done]. intros e e' I E. split; [by eapply inv_cancel_open|by eapply aside_cancel].
  - apply cinv_on_client; [|done]. intros e e' I E. split; [by eapply inv_finish_open; [apply client_releases|..]|by eapply aside_finish].
  - apply cinv_on_client; [|done]. intros e e' I E. split; [by eapply inv_written; [apply client_releases|..]|by eapply aside_written].
  - by apply cinv_accepted.
  - by apply cinv_admit.
  - by apply cinv_publish.
  - intros [= <-]. destruct C as [C1 C2 C3 C4 C5 C6 C7]. constructor; try done. intros id. specialize (C5 id).
    unfold copies, streams in *. cbn. rewrite countb_snoc. destruct (client_done s); cbn; lia.
  - by apply cinv_select.
  - intros [= <-]. by apply cinv_close.
  - intros [= <-]. apply cinv_aside; [done|by apply inv_shutdown, ci_end|]. constructor; [|apply kept_nil|done].
    unfold upd_core, conf, shutdown. cbn. by destruct (c_done _).
Qed.

Lemma client_reachable_inv s : client_reachable s → cinv s.
Proof. induction 1; [by eapply cinv_new|by eapply cinv_exec]. Qed.

(** ** Guarantees *)

Lemma countb_two {A} (p : A → bool) l i j x y :
  i ≠ j → l !! i = Some x → l !! j = Some y → p x = true → p y = true → 2 ≤ countb p l.
Proof.
  revert i j. induction l as [|z l IH]; intros [|i] [|j]; cbn; try done; intros Hne Ei Ej Hx Hy.
  - injection Ei as ->. rewrite Hx. pose proof (countb_pos p l j y Ej Hy). cbn. lia.
  - injection Ej as ->. rewrite Hy. pose proof (countb_pos p l i x Ei Hx). cbn. lia.
  - pose proof (b2z_nonneg (p z)). assert (2 ≤ countb p l); [|lia]. apply (IH i j); try done. congruence.
Qed.

Lemma countb_unique {A} (p : A → bool) l i j x y :
  countb p l ≤ 1 → l !! i = Some x → l !! j = Some y → p x = true → p y = true → i = j.
Proof. intros Hc Ei Ej Hx Hy. destruct (decide (i = j)); [done|]. pose proof (countb_two p l i j x y). intuition lia. Qed.

Lemma b2z_le b : b2z b ≤ 1.
Proof. destruct b; cbn; lia. Qed.

(** The host never serves one request on two streams at once: two open streams that the
    accept loop admitted have different request identifiers. *)
Theorem client_requests_exclusive s i j st st' open open' :
  client_reachable s → streams s !! i = Some st → streams s !! j = Some st' →
  st_closed st = false → st_closed st' = false → st_release st ≠ ReleasePermit → st_release st' ≠ ReleasePermit →
  st_open st = Some open → st_open st' = Some open' → so_RequestID open = so_RequestID open' → i = j.
Proof.
  intros C%client_reachable_inv E E' Ec Ec' Hr Hr' Ho Ho' Hid. destruct C as [C1 C2 C3 _ _ _ _].
  assert (∀ i st open, streams s !! i = Some st → st_closed st = false → st_release st ≠ ReleasePermit → st_open st = Some open →
            serves (request_key open) st = true ∧ (so_SessionID open) = (id_SessionID (cf_Identity (conf (cl_end s))))) as Hs.
  { clear -C1 C2. intros i st open E Ec Hr Ho. pose proof (list_elem_of_lookup_2 _ _ _ E) as Hin. split.
    - specialize (C2 st Hin). unfold release_ok, serves in *. rewrite Ec, Ho in *. destruct (st_release st); [done..|].
      apply bool_decide_eq_true in C2 as ->. by rewrite bool_decide_eq_true_2.
    - pose proof (inv_streams _ C1 st Hin) as Ha. unfold stream_approved in Ha. rewrite Ho in Ha. cbn in Ha.
      unfold vetted, matches in Ha. bools. done. }
  destruct (Hs i st open) as [S1 S2]; [done..|]. destruct (Hs j st' open') as [S3 S4]; [done..|].
  assert (request_key open' = request_key open) as Hk by (unfold request_key; congruence). rewrite Hk in S3.
  eapply countb_unique; [|exact E|exact E'|exact S1|exact S3]. rewrite C3. apply b2z_le.
Qed.

(** A stream reaches at most one caller of [AcceptStream], and no stream is in the queue
    twice. *)
Theorem client_stream_handed_once s t t' id :
  client_reachable s → cl_takers s !! t = Some (Took (inr id)) →
  (cl_takers s !! t' = Some (Took (inr id)) → t = t') ∧ (inr id ∉ cl_accepted s) ∧ cl_loop s ≠ LPublish (inr id)
  ∧ (id < length (streams s))%nat.
Proof.
  intros C%client_reachable_inv E. pose proof (ci_copies s C id) as Hc. unfold copies in Hc.
  assert (took id (Took (inr id)) = true) as Ht by (cbn; by apply bool_decide_eq_true_2).
  pose proof (countb_pos _ _ _ _ E Ht). pose proof (countb_nonneg (is_stream id) (cl_accepted s)).
  pose proof (b2z_nonneg (publishing id (cl_loop s))). pose proof (b2z_le (bool_decide (id < length (streams s))%nat)).
  split_and!.
  - intros E'. eapply countb_unique; [|exact E|exact E'|done..]. lia.
  - intros [k Hk]%list_elem_of_lookup. pose proof (countb_pos _ _ _ _ Hk Ht). lia.
  - intros El. rewrite El in Hc. cbn in Hc. rewrite bool_decide_eq_true_2 in Hc by done. cbn in Hc. lia.
  - destruct (bool_decide _) eqn:Eb; [by apply bool_decide_eq_true in Eb|]. cbn in Hc. lia.
Qed.

Lemma no_controls s : cinv s → controls (cl_end s) = 0.
Proof.
  intros C. apply countb_none. intros st Hst. pose proof (ci_release s C st Hst) as Hr. unfold release_ok, is_control in *.
  by destruct (st_release st).
Qed.

(** The host end loses no permit: those in use are exactly one for each open stream and
    one for each call or admission under way, never more than the configured maximum;
    while the carrier is up, that is also the number of streams it reports, and the queue
    of accepted streams holds at most [QueueDepth] results. *)
Theorem client_accounting s :
  client_reachable s →
  let e := cl_end s in
  let used := countb (negb ∘ st_closed) (e_streams e) + countb holds_permit (e_calls e) in
  c_permits (e_core e) = used ∧ used ≤ cf_MaximumStreams (conf e) ∧ (c_done (e_core e) = false → ActiveStreams (e_core e) = used)
  ∧ Z.of_nat (length (cl_accepted s)) ≤ cf_QueueDepth (conf e).
Proof.
  intros C%client_reachable_inv e used. pose proof (ci_end s C) as I. fold e in I.
  assert (c_permits (e_core e) = used) as Hu.
  { rewrite (inv_permits e I). pose proof (no_controls s C) as Hn. fold e in Hn. rewrite Hn. unfold holders, used. rewrite (countb_ext will_release (negb ∘ st_closed)); [lia|].
    intros st Hst. unfold will_release, is_control. pose proof (ci_release s C st Hst) as Hr. unfold release_ok in Hr.
    by destruct (st_release st). }
  split_and!; [done|rewrite <- Hu; apply (inv_max e I)| |apply (ci_queue s C)].
  intros Hd. unfold ActiveStreams. rewrite Hd, (inv_active e I Hd), Hu. destruct (used <=? 0) eqn:E; [|done]. bools.
  pose proof (countb_nonneg (negb ∘ st_closed) (e_streams e)). pose proof (countb_nonneg holds_permit (e_calls e)). unfold used in *. lia.
Qed.

(** Every stream with a preface that the host end has, opened or accepted, was checked in
    full: the preface is valid, names the carrier's own identity, and the route authorizer
    let it pass. *)
Theorem client_streams_vetted s st open :
  client_reachable s → st ∈ streams s → st_open st = Some open →
  StreamOpen_Validate open = None ∧ matches (cf_Identity (conf (cl_end s))) open = true ∧ authorize (conf (cl_end s)) open = None.
Proof.
  intros C%client_reachable_inv Hst Ho. pose proof (inv_streams _ (ci_end s C) st Hst) as Ha.
  unfold stream_approved in Ha. rewrite Ho in Ha. cbn in Ha. unfold vetted in Ha. bools. split_and!; try done; by apply failed_false.
Qed.

(** ** A run *)

Module ClientRuns.
Import CarrierGuarantees.Runs.

Definition client0 (n : Z) : Client :=
  match NewClientWithSession (config0 n) with inr s => s | inl _ => mkClient (newEndpoint (config0 n)) ∅ [] false LAccept [] end.

Definition preface (route request : string) : bytes :=
  let payload := StreamOpen_payload (open0 route <| so_RequestID := request |>) in put_uint32 (blen payload) ++ payload.

Lemma client0_reachable evs s : client_run evs (client0 3) = Some s → client_reachable s.
Proof.
  assert (client_reachable (client0 3)) as H.
  { apply (client_reachable_new (config0 3)). vm_compute. reflexivity. }
  revert H. generalize (client0 3). induction evs as [|ev evs IH]; intros s0 H; cbn [client_run]; [by intros [= <-]|].
  destruct (client_exec ev s0) as [s1|] eqn:E; [|done]. apply IH. by eapply client_reachable_step.
Qed.

(** Two requests are accepted, a repeated one is turned away, one is handed to a caller. *)
Definition serving : list client_event :=
  [CAcceptStream; CAccepted None; CAdmit (inr (preface "route" "one")); CPublish Proceed; CSelect 0 None Proceed;
   CAccepted None; CAdmit (inr (preface "route" "one")); CPublish Proceed; CAcceptStream; CSelect 1 None Proceed;
   CAccepted None; CAdmit (inr (preface "route" "two")); CPublish Proceed;
   COpen (open0 "route") None Proceed].

Definition client1 : Client := match client_run serving (client0 3) with Some s => s | None => client0 3 end.

Lemma client1_reachable : client_reachable client1.
Proof. apply (client0_reachable serving). vm_compute. reflexivity. Qed.

Definition stream_of (request : string) (l : nat) : Stream :=
  let open := open0 "route" <| so_RequestID := request |> in mkStream l (Some open) (ReleaseRequest (request_key open)) false.

Lemma client_requests_exclusive_witness :
  cl_takers client1 !! 1%nat = Some (Took (inl ErrRequestInUse)) ∧ streams client1 !! 0%nat = Some (stream_of "one" 0)
  ∧ ∀ i st, streams client1 !! i = Some st → st_closed st = false → st_release st ≠ ReleasePermit →
      st_open st = Some (open0 "route" <| so_RequestID := "one" |>) → 0%nat = i.
Proof.
  split; [vm_compute; reflexivity|]. split; [vm_compute; reflexivity|]. intros i st Hi Hc Hr Ho.
  refine (client_requests_exclusive client1 0 i (stream_of "one" 0) st _ _ client1_reachable _ Hi eq_refl Hc _ Hr eq_refl Ho eq_refl).
  - vm_compute. reflexivity.
  - discriminate.
Defined.

Lemma client_stream_handed_once_witness :
  cl_takers client1 !! 0%nat = Some (Took (inr 0%nat)) ∧ (inr 0%nat ∉ cl_accepted client1).
Proof.
  assert (cl_takers client1 !! 0%nat = Some (Took (inr 0%nat))) as E by (vm_compute; reflexivity).
  split; [exact E|]. exact (proj1 (proj2 (client_stream_handed_once client1 0 0 0 client1_reachable E))).
Defined.

Lemma client_accounting_witness : c_permits (e_core (cl_end client1)) = 3 ∧ Z.of_nat (length (cl_accepted client1)) ≤ 1.
Proof.
  split; [vm_compute; reflexivity|]. exact (proj2 (proj2 (proj2 (client_accounting client1 client1_reachable)))).
Defined.

Lemma client_streams_vetted_witness :
  authorize (conf (cl_end client1)) (open0 "route" <| so_RequestID := "two" |>) = None.
Proof.
  refine (proj2 (proj2 (client_streams_vetted client1 (stream_of "two" 2) _ client1_reachable _ eq_refl))).
  apply (list_elem_of_lookup_2 _ 1). vm_compute. reflexivity.
Defined.
End ClientRuns.

End CarrierClientProofs.
