(* ===== verification/PreviewAdmission.v ===== *)
(** * Preview admissions

    Models [internal/datacarrier/admission.go]: the admissions of preview carriers an edge
    node expects, staged on a pull, opened by the server's acknowledgement and committed
    as a whole; the binding of a TLS peer to a carrier identity and the authorization of
    data streams.  Each method holds the registry's lock and is one function; [Replace]
    reads the current entries in a critical section of its own first.  A loop over a map
    takes the order of iteration as an argument.  The notification channel is the number
    of times it was closed and replaced.

    SHA-256 and URL parsing are the interface [RotationLib], case mapping beyond ASCII
    [TextLib] and [FoldLib].  The detail texts of wrapped errors are left out. *)
From S2P Require Import Prelude Go Strings Protocol Messages Route RotationMessages StreamFrames Carrier.

(** [strings.EqualFold] of strings that are not both ASCII. *)
Class FoldLib := fold_equal : string → string → bool.

Definition EqualFold `{FoldLib} (s t : string) : bool :=
  if is_ascii s && is_ascii t then bool_decide (lower_byte <$> sbytes s = lower_byte <$> sbytes t) else fold_equal s t.

(** [URL.Hostname]: the host without a port and without the brackets of an address. *)
Definition valid_optional_port (b : bytes) : bool :=
  match b with [] => true | c :: b => (byte_to_Z c =? 58) && forallb is_digit b end.

Definition Hostname (host : string) : string :=
  let b := sbytes host in
  let b := match LastIndexByte b 58 with
           | Some i => if valid_optional_port (drop i b) then take i b else b
           | None => b
           end in
  match b with
  | c :: rest => if (byte_to_Z c =? 91) && (byte_to_Z (List.last b x00) =? 93) then bstring (removelast rest) else bstring b
  | [] => ""
  end.

Module PreviewAdmission.
Import RotationMessages StreamFrames Carrier.

Definition PreviewCarrierSchema := "paperboat.preview-tunnel/v1".
Definition PreviewCarrierKind := "preview_carrier_attachment".
Definition PreviewCarrierRoute := "preview_public_https_wss".
Definition PreviewCarrierPrivateRoute := "preview_private_https_wss".
Definition PreviewCarrierAccessPublic := "public".
Definition PreviewCarrierAccessPrivate := "private".
Definition maxExpectedAdmissions : Z := 4096.

Definition ErrAdmissionNotExpected : err := EPlain "data carrier admission is not expected".
Definition ErrAdmissionExpired : err := EPlain "data carrier admission is expired".
Definition ErrAdmissionConflict : err := EPlain "data carrier admission conflicts with current state".

Record ExpectedAdmission := mkExpected {
  ea_Schema : string;
  ea_Kind : string;
  ea_EdgeNodeID : string;
  ea_PreviewID : string;
  ea_OperationID : string;
  ea_OwnerDeviceID : string;
  ea_OwnerSessionID : string;
  ea_Identity : Identity;
  ea_LeaseGeneration : Z;
  ea_ConfigGeneration : Z;
  ea_ConfigContentHash : string;
  ea_RouteID : string;
  ea_EdgeProcessEpoch : string;
  ea_ServerSPKI : string;
  ea_ServerChainPEM : string;
  ea_AccessMode : string;
  ea_RouteKind : string;
  ea_Hostname : string;
  ea_RouteRevision : Z;
  ea_AttachmentGeneration : Z;
  ea_Endpoint : string;
  ea_ExpiresAt : Time;
  ea_MachineIdentityPublicKey : string;
  ea_MachineIdentityThumbprint : string;
  ea_Admitted : bool
}.
#[export] Instance ExpectedAdmission_eta : Eta ExpectedAdmission := λ r,
  mkExpected (ea_Schema r) (ea_Kind r) (ea_EdgeNodeID r) (ea_PreviewID r) (ea_OperationID r) (ea_OwnerDeviceID r)
    (ea_OwnerSessionID r) (ea_Identity r) (ea_LeaseGeneration r) (ea_ConfigGeneration r) (ea_ConfigContentHash r)
    (ea_RouteID r) (ea_EdgeProcessEpoch r) (ea_ServerSPKI r) (ea_ServerChainPEM r) (ea_AccessMode r) (ea_RouteKind r)
    (ea_Hostname r) (ea_RouteRevision r) (ea_AttachmentGeneration r) (ea_Endpoint r) (ea_ExpiresAt r)
    (ea_MachineIdentityPublicKey r) (ea_MachineIdentityThumbprint r) (ea_Admitted r).
#[export] Instance ExpectedAdmission_eq_dec : EqDecision ExpectedAdmission.
Proof. solve_decision. Defined.

Definition zeroAdmission : ExpectedAdmission :=
  mkExpected "" "" "" "" "" "" "" zeroIdentity 0 0 "" "" "" "" "" "" "" "" 0 0 "" 0 "" "" false.

(** ** Validation *)

Section Validation.
Context `{RotationLib} `{Route.TextLib} `{FoldLib}.

Definition admission_label_ok (label : string) : bool :=
  match sbytes label with
  | [] => false
  | c :: _ => (len label <=? 63) && negb (byte_to_Z c =? 45) && negb (byte_to_Z (List.last (sbytes label) x00) =? 45)
              && forallb (λ b, (byte_to_Z b =? 45) || is_lower b || is_digit b) (sbytes label)
  end.

Definition validAdmissionHost (value : string) : bool :=
  let value := ToLower Route.unicode_lower (TrimSuffix (TrimSpace value) ".") in
  if (value == "") || (253 <? len value) || ContainsAny value [47; 58; 64; 91; 93; 32; 9; 13; 10] then false
  else forallb admission_label_ok (Split value 46).

Definition not_expected : err := EWrap "" ErrAdmissionNotExpected.
Definition conflict : err := EWrap "" ErrAdmissionConflict.

Definition validateAdmissionEndpoint (value hostname : string) : option err :=
  match url_Parse value with
  | None => Some not_expected
  | Some parsed =>
      if (url_Scheme parsed != "https") && (url_Scheme parsed != "http") || (url_Host parsed == "") || url_hasUser parsed
         || (url_RawQuery parsed != "") || (url_Fragment parsed != "")
         || negb (EqualFold (TrimSuffix (Hostname (url_Host parsed)) ".") (TrimSuffix hostname "."))
      then Some not_expected else None
  end.

Definition is_hex_lower (b : byte) : bool := is_digit b || in_range 97 102 b.

Definition validAdmissionContentHash (value : string) : bool :=
  (len value =? 71) && HasPrefix value "sha256:" && forallb is_hex_lower (drop 7 (sbytes value)).

(** [hex.DecodeString] takes both cases. *)
Definition valid_spki (value : string) : bool :=
  (len value =? 71) && HasPrefix value "sha256:"
  && forallb (λ b, is_hex_lower b || in_range 65 70 b) (drop 7 (sbytes value)).

Definition key_thumbprint (key : bytes) : string := "sha256:" +:+ EncodeToString (sha256_sum key).

Definition decodeMachinePublicKey (value thumbprint : string) : err + bytes :=
  match DecodeString value with
  | Some key =>
      if negb (blen key =? PublicKeySize) then inl not_expected
      else if thumbprint != key_thumbprint key then inl conflict else inr key
  | None => inl not_expected
  end.

Definition Expected_Validate (a : ExpectedAdmission) (now : Time) (nodeID : string) : option err :=
  if (ea_Schema a != PreviewCarrierSchema) || (ea_Kind a != PreviewCarrierKind) then Some not_expected
  else if (nodeID == "") || (ea_EdgeNodeID a != nodeID) || badID (ea_EdgeNodeID a)
          || failed (ValidateOpaqueEpoch (ea_EdgeProcessEpoch a))
  then Some not_expected
  else if existsb (λ v, (v == "") || badID v)
            [ea_PreviewID a; ea_OperationID a; ea_RouteID a; ea_OwnerDeviceID a; ea_OwnerSessionID a]
  then Some not_expected
  else if failed (Identity_Validate (ea_Identity a)) then Some not_expected
  else if id_HostID (ea_Identity a) != ea_OwnerDeviceID a then Some conflict
  else if (ea_LeaseGeneration a =? 0) || (ea_ConfigGeneration a =? 0) || (ea_RouteRevision a =? 0)
          || (ea_AttachmentGeneration a =? 0)
  then Some not_expected
  else if (ea_AccessMode a != PreviewCarrierAccessPublic) && (ea_AccessMode a != PreviewCarrierAccessPrivate)
  then Some not_expected
  else
    let wantRoute := if ea_AccessMode a == PreviewCarrierAccessPrivate then PreviewCarrierPrivateRoute else PreviewCarrierRoute in
    if (ea_RouteKind a != wantRoute) || negb (validAdmissionHost (ea_Hostname a)) then Some not_expected
    else match validateAdmissionEndpoint (ea_Endpoint a) (ea_Hostname a) with
    | Some e => Some e
    | None =>
        if negb (validAdmissionContentHash (ea_ConfigContentHash a)) then Some not_expected
        else if negb (valid_spki (ea_ServerSPKI a)) then Some not_expected
        else if (len (ea_ServerChainPEM a) =? 0) || (65536 <? len (ea_ServerChainPEM a)) then Some not_expected
        else if IsZero (ea_ExpiresAt a) || negb (After (ea_ExpiresAt a) now) then Some ErrAdmissionExpired
        else match decodeMachinePublicKey (ea_MachineIdentityPublicKey a) (ea_MachineIdentityThumbprint a) with
        | inl e => Some e
        | inr _ => None
        end
    end.
End Validation.

Definition key (a : ExpectedAdmission) : string := ea_OperationID a +:+ String Ascii.zero (ea_RouteID a).

Definition identityEqual (a other : ExpectedAdmission) : bool :=
  (ea_Identity a == ea_Identity other) && (ea_MachineIdentityPublicKey a == ea_MachineIdentityPublicKey other)
  && (ea_MachineIdentityThumbprint a == ea_MachineIdentityThumbprint other).

Definition exactEqual (a other : ExpectedAdmission) : bool :=
  (ea_Schema a == ea_Schema other) && (ea_Kind a == ea_Kind other) && (ea_EdgeNodeID a == ea_EdgeNodeID other)
  && (ea_EdgeProcessEpoch a == ea_EdgeProcessEpoch other) && (ea_ServerSPKI a == ea_ServerSPKI other)
  && (ea_ServerChainPEM a == ea_ServerChainPEM other) && (ea_PreviewID a == ea_PreviewID other)
  && (ea_OperationID a == ea_OperationID other) && (ea_OwnerDeviceID a == ea_OwnerDeviceID other)
  && (ea_OwnerSessionID a == ea_OwnerSessionID other) && (ea_Identity a == ea_Identity other)
  && (ea_LeaseGeneration a =? ea_LeaseGeneration other) && (ea_ConfigGeneration a =? ea_ConfigGeneration other)
  && (ea_ConfigContentHash a == ea_ConfigContentHash other) && (ea_RouteID a == ea_RouteID other)
  && (ea_AccessMode a == ea_AccessMode other) && (ea_RouteKind a == ea_RouteKind other)
  && (ea_Hostname a == ea_Hostname other) && (ea_RouteRevision a =? ea_RouteRevision other)
  && (ea_AttachmentGeneration a =? ea_AttachmentGeneration other) && (ea_Endpoint a == ea_Endpoint other)
  && (ea_ExpiresAt a =? ea_ExpiresAt other) && (ea_MachineIdentityPublicKey a == ea_MachineIdentityPublicKey other)
  && (ea_MachineIdentityThumbprint a == ea_MachineIdentityThumbprint other).

(** ** The registry *)

Record ExpectedAdmissionRegistry := mkRegistry {
  er_nodeID : string;
  er_maximum : Z;
  er_processEpoch : string;
  er_closed : bool;
  er_byKey : gmap string ExpectedAdmission;
  er_pending : gmap string ExpectedAdmission;
  er_changed : Z
}.
#[export] Instance ExpectedAdmissionRegistry_eta : Eta ExpectedAdmissionRegistry := λ r,
  mkRegistry (er_nodeID r) (er_maximum r) (er_processEpoch r) (er_closed r) (er_byKey r) (er_pending r) (er_changed r).

Definition NewExpectedAdmissionRegistry (nodeID processEpoch : string) (maximum : Z) : err + ExpectedAdmissionRegistry :=
  let maximum := if maximum =? 0 then maxExpectedAdmissions else maximum in
  if badID nodeID || failed (ValidateOpaqueEpoch processEpoch) || (maximum <? 1) || (maxExpectedAdmissions <? maximum)
  then inl ErrInvalidConfig
  else inr (mkRegistry nodeID maximum processEpoch false ∅ ∅ 0).

(** The channel is replaced and the previous one closed. *)
Definition notify (r : ExpectedAdmissionRegistry) : ExpectedAdmissionRegistry := r <| er_changed := er_changed r + 1 |>.

Section Registry.
Context `{RotationLib} `{Route.TextLib} `{FoldLib}.

Definition check_admission (r : ExpectedAdmissionRegistry) (now : Time) (a : ExpectedAdmission) : option err :=
  match Expected_Validate a now (er_nodeID r) with
  | Some e => Some e
  | None => if ea_EdgeProcessEpoch a != er_processEpoch r then Some conflict else None
  end.

(** A replacement of the same attachment keeps its acknowledgement. *)
Definition carry_admitted (prior : gmap string ExpectedAdmission) (a : ExpectedAdmission) : ExpectedAdmission :=
  match prior !! key a with
  | Some old =>
      if identityEqual old a && (ea_AttachmentGeneration old =? ea_AttachmentGeneration a)
         && (ea_LeaseGeneration old =? ea_LeaseGeneration a) && (ea_RouteRevision old =? ea_RouteRevision a)
      then a <| ea_Admitted := ea_Admitted old |> else a
  | None => a
  end.

(** The loop over a pulled set: every admission is checked and entered under its key. *)
Fixpoint collect (r : ExpectedAdmissionRegistry) (now : Time) (enter : ExpectedAdmission → ExpectedAdmission)
    (admissions : list ExpectedAdmission) (next : gmap string ExpectedAdmission) : err + gmap string ExpectedAdmission :=
  match admissions with
  | [] => inr next
  | a :: admissions =>
      match check_admission r now a with
      | Some e => inl e
      | None => match next !! key a with
                | Some _ => inl conflict
                | None => collect r now enter admissions (<[key a := enter a]> next)
                end
      end
  end.

(** [prior] is what the first critical section of the call read. *)
Definition Replace (prior : gmap string ExpectedAdmission) (admissions : list ExpectedAdmission) (now : Time)
    (r : ExpectedAdmissionRegistry) : option err * ExpectedAdmissionRegistry :=
  if er_maximum r <? Z.of_nat (length admissions) then (Some conflict, r)
  else match collect r now (carry_admitted prior) admissions ∅ with
  | inl e => (Some e, r)
  | inr next => if er_closed r then (Some ErrCarrierClosed, r)
                else (None, notify (r <| er_byKey := next |> <| er_pending := ∅ |>))
  end.

Definition unadmitted (a : ExpectedAdmission) : ExpectedAdmission := a <| ea_Admitted := false |>.

(** A staged entry replaces what is there unless that is admitted. *)
Definition stage_over (new current : ExpectedAdmission) : option ExpectedAdmission :=
  Some (if ea_Admitted current then current else new).

Definition InstallPending (admissions : list ExpectedAdmission) (now : Time) (r : ExpectedAdmissionRegistry)
    : option err * ExpectedAdmissionRegistry :=
  if er_maximum r <? Z.of_nat (length admissions) then (Some conflict, r)
  else match collect r now id (unadmitted <$> admissions) ∅ with
  | inl e => (Some e, r)
  | inr next => if er_closed r then (Some ErrCarrierClosed, r)
                else (None, notify (r <| er_pending := next |> <| er_byKey := union_with stage_over next (er_byKey r) |>))
  end.

Definition Upsert (a : ExpectedAdmission) (now : Time) (r : ExpectedAdmissionRegistry)
    : option err * ExpectedAdmissionRegistry :=
  match check_admission r now a with
  | Some e => (Some e, r)
  | None =>
      let put := (None, notify (r <| er_byKey := <[key a := a]> (er_byKey r) |>)) in
      if er_closed r then (Some ErrCarrierClosed, r)
      else match er_byKey r !! key a with
      | Some current =>
          if current == a then (None, r)
          else if ea_AttachmentGeneration a <? ea_AttachmentGeneration current then (Some conflict, r)
          else put
      | None => if er_maximum r <=? Z.of_nat (size (er_byKey r)) then (Some conflict, r) else put
      end
  end.
End Registry.

Definition pending_exact (r : ExpectedAdmissionRegistry) (a : ExpectedAdmission) : bool :=
  match er_pending r !! key a with Some current => exactEqual current a | None => false end.

(** One round of the second loop of [MarkAdmitted]; a missing entry reads as the zero value. *)
Definition mark_one (r : ExpectedAdmissionRegistry) (a : ExpectedAdmission) : ExpectedAdmissionRegistry :=
  let value := default zeroAdmission (er_pending r !! key a) in
  r <| er_byKey := <[key a := value <| ea_Admitted := true |>]> (er_byKey r) |>
    <| er_pending := delete (key a) (er_pending r) |>.

Definition MarkAdmitted (admissions : list ExpectedAdmission) (r : ExpectedAdmissionRegistry)
    : option err * ExpectedAdmissionRegistry :=
  if er_closed r then (Some ErrCarrierClosed, r)
  else if negb (forallb (pending_exact r) admissions) then (Some ErrAdmissionConflict, r)
  else (None, notify (List.fold_left mark_one admissions r)).

Definition by_key (admissions : list ExpectedAdmission) : gmap string ExpectedAdmission :=
  List.fold_left (λ next a, <[key a := a]> next) admissions ∅.

Definition admitted_exact (r : ExpectedAdmissionRegistry) (k : string) (a : ExpectedAdmission) : bool :=
  match er_byKey r !! k with Some current => ea_Admitted current && exactEqual current a | None => false end.

Definition Commit (admissions : list ExpectedAdmission) (r : ExpectedAdmissionRegistry)
    : option err * ExpectedAdmissionRegistry :=
  if negb (forallb ea_Admitted admissions) then (Some ErrAdmissionConflict, r)
  else if er_closed r then (Some ErrCarrierClosed, r)
  else if negb (forallb (λ '(k, a), admitted_exact r k a) (map_to_list (by_key admissions))) then (Some ErrAdmissionConflict, r)
  else (None, notify (r <| er_byKey := by_key admissions |> <| er_pending := ∅ |>)).

Definition Remove (a : ExpectedAdmission) (r : ExpectedAdmissionRegistry) : option err * ExpectedAdmissionRegistry :=
  match er_byKey r !! key a with
  | None => (None, r)
  | Some current => if negb (exactEqual current a) then (Some ErrAdmissionConflict, r)
                    else (None, notify (r <| er_byKey := delete (key a) (er_byKey r) |>))
  end.

Definition Close (r : ExpectedAdmissionRegistry) : ExpectedAdmissionRegistry :=
  if er_closed r then r else notify (r <| er_closed := true |>).

(** ** Queries *)

Definition usable (identity : Identity) (now : Time) (a : ExpectedAdmission) : bool :=
  ea_Admitted a && (ea_Identity a == identity) && After (ea_ExpiresAt a) now.

Definition ForIdentity (identity : Identity) (now : Time) (r : ExpectedAdmissionRegistry) : list ExpectedAdmission :=
  sort_by key (List.filter (usable identity now) (map_to_list (er_byKey r)).*2).

(** A round of [WaitForIdentity]: an answer, or a wait for the next change. *)
Definition WaitForIdentity_round (identity : Identity) (now : Time) (r : ExpectedAdmissionRegistry)
    : option (err + list ExpectedAdmission) :=
  if failed (Identity_Validate identity) then Some (inl ErrAdmissionNotExpected)
  else match ForIdentity identity now r with
  | [] => if er_closed r then Some (inl ErrCarrierClosed) else None
  | admissions => Some (inr admissions)
  end.

(** *** TLS peers *)

Record certificate := mkCertificate {
  ct_ed25519 : option bytes;          (** the public key, when it is an Ed25519 key *)
  ct_URIs : list (option string)
}.

Definition admission_binding (identity : Identity) (epoch : string) : CarrierIdentityBinding :=
  mkBinding (id_AccountID identity) (id_HostID identity) (id_TunnelID identity) (id_ConnectorID identity)
    (id_SessionID identity) (id_ProcessGeneration identity) (id_Generation identity) epoch.

(** The key of the peer, as both registries read it. *)
Definition peer_key (peers : list (option certificate)) : option (bytes * list (option string)) :=
  match peers with
  | [Some c] => match ct_ed25519 c with
                | Some k => if blen k =? PublicKeySize then Some (k, ct_URIs c) else None
                | None => None
                end
  | _ => None
  end.

Section Peers.
Context `{RotationLib}.

Definition peer_matches (k : bytes) (uris : list (option string)) (now : Time) (a : ExpectedAdmission) : bool :=
  negb (negb (ea_Admitted a) || negb (After (ea_ExpiresAt a) now) || (ea_MachineIdentityPublicKey a != EncodeToString k)
        || (ea_MachineIdentityThumbprint a != key_thumbprint k))
  && negb (failed (MatchCarrierIdentityURN sha256_sum uris (admission_binding (ea_Identity a) (ea_EdgeProcessEpoch a)))).

Fixpoint peer_loop (k : bytes) (uris : list (option string)) (now : Time) (order : list ExpectedAdmission)
    (found : option Identity) : err + option Identity :=
  match order with
  | [] => inr found
  | a :: order =>
      if negb (peer_matches k uris now a) then peer_loop k uris now order found
      else match found with
      | None => peer_loop k uris now order (Some (ea_Identity a))
      | Some bound => if bound != ea_Identity a then inl conflict else peer_loop k uris now order found
      end
  end.

(** [order] is the order in which the loop meets the entries of [byKey]. *)
Definition PeerBinding (order : list ExpectedAdmission) (peers : list (option certificate)) (now : Time)
    (r : ExpectedAdmissionRegistry) : err + Identity :=
  match peer_key peers with
  | None => inl ErrAdmissionNotExpected
  | Some (k, uris) =>
      if er_closed r then inl ErrCarrierClosed
      else match peer_loop k uris now order None with
      | inl e => inl e
      | inr None => inl ErrAdmissionNotExpected
      | inr (Some bound) => inr bound
      end
  end.
End Peers.

(** *** Streams *)

Record PrivateAccessDecision := mkDecision {
  pd_Allowed : bool;
  pd_ExpiresAt : Time;
  pd_ResourceID : string;
  pd_RouteID : string;
  pd_OperationID : string;
  pd_CarrierSessionID : string;
  pd_RouteGeneration : Z;
  pd_ProcessGeneration : Z;
  pd_ConfigGeneration : Z;
  pd_Protocol : string
}.

Definition decision_refused (now : Time) (a : ExpectedAdmission) (decision : option PrivateAccessDecision) : bool :=
  match decision with
  | None => true
  | Some d =>
      negb (pd_Allowed d) || IsZero (pd_ExpiresAt d) || negb (After (pd_ExpiresAt d) now)
      || (pd_ResourceID d != ea_PreviewID a) || (pd_RouteID d != ea_RouteID a) || (pd_OperationID d != ea_OperationID a)
      || (pd_CarrierSessionID d != id_SessionID (ea_Identity a)) || negb (pd_RouteGeneration d =? ea_RouteRevision a)
      || negb (pd_ProcessGeneration d =? id_ProcessGeneration (ea_Identity a))
      || negb (pd_ConfigGeneration d =? id_Generation (ea_Identity a))
      || (pd_Protocol d != "http") && (pd_Protocol d != "tcp")
  end.

Definition serves_route (identity : Identity) (open : StreamOpen) (a : ExpectedAdmission) : bool :=
  ea_Admitted a && (ea_Identity a == identity) && (ea_RouteID a == so_RouteID open).

(** The body of the loop for the first entry that serves the route. *)
Definition authorize_entry (now : Time) (decision : option PrivateAccessDecision) (a : ExpectedAdmission) : option err :=
  if negb (After (ea_ExpiresAt a) now) then Some ErrAdmissionExpired
  else if (ea_AccessMode a == PreviewCarrierAccessPrivate) && decision_refused now a decision then Some ErrRouteDenied
  else None.

Definition AuthorizeStream (order : list ExpectedAdmission) (ctxErr : option err) (decision : option PrivateAccessDecision)
    (now : Time) (identity : Identity) (open : StreamOpen) (r : ExpectedAdmissionRegistry) : option err :=
  match ctxErr with
  | Some e => Some e
  | None =>
      if failed (Identity_Validate identity) || negb (matches identity open) then Some ErrIdentityMismatch
      else if er_closed r then Some ErrCarrierClosed
      else match List.find (serves_route identity open) order with
      | Some a => authorize_entry now decision a
      | None => Some ErrAdmissionNotExpected
      end
  end.

End PreviewAdmission.
