(* ===== verification/PreviewAdmissionProofs.v ===== *)
(** * Preview admissions: theorems

    A pull that the server acknowledged is installed as a whole; staging never changes what
    is open; an open admission was acknowledged; peers and streams are bound to open
    admissions only. *)
From S2P Require Import Prelude Go Strings Protocol Messages Route RotationMessages StreamFrames StreamFramesProofs Carrier PreviewAdmission.

Module PreviewAdmissionProofs.
Import RotationMessages StreamFrames Carrier PreviewAdmission.

(** ** Keys and flags *)

Definition acknowledged (a : ExpectedAdmission) : ExpectedAdmission := a <| ea_Admitted := true |>.

Lemma key_acknowledged a : key (acknowledged a) = key a.
Proof. done. Qed.

Lemma key_unadmitted a : key (unadmitted a) = key a.
Proof. done. Qed.

Lemma exactEqual_spec a b : exactEqual a b = true ↔ unadmitted a = unadmitted b.
Proof.
  unfold exactEqual. destruct a, b. cbn. split.
  - intros Heq. bools. cbn. subst. done.
  - intros [= -> -> -> -> -> -> -> -> -> -> -> -> -> -> -> -> -> -> -> -> -> -> -> ->].
    rewrite !Z.eqb_refl. repeat (rewrite bool_decide_eq_true_2 by done). done.
Qed.

Lemma exactEqual_key a b : exactEqual a b = true → key a = key b.
Proof. intros E%exactEqual_spec. by apply (f_equal key) in E. Qed.

(** ** The set a pull is collected into *)

Section Collect.
Context `{RotationLib} `{Route.TextLib} `{FoldLib}.

Lemma collect_ok r now enter l next m :
  collect r now enter l next = inr m →
  NoDup (key <$> l) ∧ (∀ a, a ∈ l → check_admission r now a = None ∧ next !! key a = None)
  ∧ ∀ k x, m !! k = Some x ↔ next !! k = Some x ∨ ∃ a, a ∈ l ∧ key a = k ∧ x = enter a.
Proof.
  revert next. induction l as [|a l IH]; intros next; cbn.
  { intros [= <-]. split_and!; [constructor|by intros a ?%elem_of_nil|]. intros k x. split; [by left|].
    intros [?|(a & Ha%elem_of_nil & _)]; done. }
  destruct (check_admission r now a) eqn:Ec; [done|]. destruct (next !! key a) eqn:En; [done|].
  intros (Hnd & Hok & Hm)%IH. assert (∀ b, b ∈ l → key b ≠ key a) as Hne.
  { intros b Hb Heq. destruct (Hok b Hb) as [_ Hn]. rewrite Heq, lookup_insert_eq in Hn. done. }
  split_and!.
  - constructor; [|done]. intros (b & Hb & Hin)%list_elem_of_fmap. by apply (Hne b Hin).
  - intros b [->|Hb]%elem_of_cons; [done|]. destruct (Hok b Hb) as [Hc Hn]. split; [done|].
    by rewrite lookup_insert_ne in Hn by (symmetry; by apply Hne).
  - intros k x. rewrite Hm. destruct (decide (k = key a)) as [->|Hk].
    + rewrite lookup_insert_eq. split.
      * intros [[= <-]|(b & Hb & Hkb & _)]; [right; exists a; split; [by left|done]|]. by apply Hne in Hkb.
      * intros [?|(b & [->|Hb]%elem_of_cons & Hkb & ->)]; [congruence|by left|by apply Hne in Hkb].
    + rewrite lookup_insert_ne by done. split.
      * intros [?|(b & Hb & Hkb)]; [by left|]. right. exists b. split; [by right|done].
      * intros [?|(b & [->|Hb]%elem_of_cons & Hkb & ->)]; [by left|done|]. right. by exists b.
Qed.
End Collect.

(** ** Marking and committing *)

Lemma fold_mark_byKey l r :
  NoDup (key <$> l) → (∀ a, a ∈ l → er_pending r !! key a = Some (unadmitted a)) →
  let r' := List.fold_left mark_one l r in
  (∀ k x, er_byKey r' !! k = Some x ↔ (∃ a, a ∈ l ∧ key a = k ∧ x = acknowledged a) ∨ ((k ∉ key <$> l) ∧ er_byKey r !! k = Some x))
  ∧ (∀ k x, er_pending r' !! k = Some x → er_pending r !! k = Some x)
  ∧ er_closed r' = er_closed r ∧ er_nodeID r' = er_nodeID r ∧ er_processEpoch r' = er_processEpoch r ∧ er_maximum r' = er_maximum r.
Proof.
  revert r. induction l as [|a l IH]; intros r; cbn.
  { intros _ _. split_and!; try done. intros k x. split; [intros ?; right; split; [by intros ?%elem_of_nil|done]|].
    intros [(a & Ha%elem_of_nil & _)|[_ ?]]; done. }
  intros [Hn Hnd]%NoDup_cons Hp. destruct (IH (mark_one r a) Hnd) as (Hb & Hpe & Hc & Hid & He & Hmx).
  { intros b Hb. cbn. rewrite lookup_delete_ne; [apply Hp; by right|]. intros Heq. apply Hn. rewrite Heq. by apply list_elem_of_fmap_2. }
  cbn zeta in *. split_and!; try done.
  - intros k x. rewrite Hb. cbn. rewrite (Hp a) by left. cbn. destruct (decide (k = key a)) as [->|Hk].
    + rewrite lookup_insert_eq. split.
      * intros [(b & Hbl & Hkb & _)|[_ [= <-]]]; [exfalso; apply Hn; rewrite <- Hkb; by apply list_elem_of_fmap_2|].
        left. exists a. split; [by left|done].
      * intros [(b & [->|Hbl]%elem_of_cons & Hkb & ->)|[Hnot _]]; [right; split; done| |].
        -- exfalso. apply Hn. rewrite <- Hkb. by apply list_elem_of_fmap_2.
        -- exfalso. apply Hnot. by left.
    + rewrite lookup_insert_ne by done. split.
      * intros [(b & Hbl & Hkb & ->)|[Hnot Hx]]; [left; exists b; split; [by right|done]|]. right. split; [|done].
        by intros [?|?]%elem_of_cons.
      * intros [(b & [->|Hbl]%elem_of_cons & Hkb & ->)|[Hnot Hx]]; [done|left; by exists b|]. right. split; [|done].
        intros Hin. apply Hnot. by right.
  - intros k x Hx. apply Hpe in Hx. cbn in Hx. by apply lookup_delete_Some in Hx as [_ Hx].
Qed.

Lemma by_key_lookup l k x : NoDup (key <$> l) → by_key l !! k = Some x ↔ x ∈ l ∧ key x = k.
Proof.
  unfold by_key. enough (∀ m : gmap string ExpectedAdmission, NoDup (key <$> l) → (∀ a, a ∈ l → m !! key a = None) →
    List.fold_left (λ next a, <[key a := a]> next) l m !! k = Some x ↔ m !! k = Some x ∨ (x ∈ l ∧ key x = k)) as Hgen.
  { intros Hnd. rewrite Hgen by done. rewrite lookup_empty. naive_solver. }
  clear. induction l as [|a l IH]; intros m; cbn.
  { intros _ _. split; [by left|]. intros [?|[Hx%elem_of_nil _]]; done. }
  intros [Hn Hnd]%NoDup_cons Hm. rewrite IH; [|done|].
  - destruct (decide (k = key a)) as [->|Hk].
    + rewrite lookup_insert_eq, (Hm a) by left. split.
      * intros [[= <-]|[Hx Hkx]]; [right; split; [by left|done]|]. right. split; [by right|done].
      * intros [?|[[->|Hx]%elem_of_cons Hkx]]; [done|by left|]. exfalso. apply Hn. rewrite <- Hkx. by apply list_elem_of_fmap_2.
    + rewrite lookup_insert_ne by done. split.
      * intros [?|[Hx Hkx]]; [by left|]. right. split; [by right|done].
      * intros [?|[[->|Hx]%elem_of_cons Hkx]]; [by left|done|by right].
  - intros b Hb. rewrite lookup_insert_ne; [apply Hm; by right|]. intros Heq. apply Hn. rewrite Heq. by apply list_elem_of_fmap_2.
Qed.

Lemma key_fmap_acknowledged (l : list ExpectedAdmission) : key <$> (acknowledged <$> l) = key <$> l.
Proof. rewrite <- list_fmap_compose. done. Qed.

Lemma key_fmap_unadmitted (l : list ExpectedAdmission) : key <$> (unadmitted <$> l) = key <$> l.
Proof. rewrite <- list_fmap_compose. done. Qed.

Section Guarantees.
Context `{RotationLib} `{Route.TextLib} `{FoldLib}.

Lemma InstallPending_ok l now r r' :
  InstallPending l now r = (None, r') →
  er_closed r = false ∧ NoDup (key <$> l) ∧ (∀ a, a ∈ l → check_admission r now (unadmitted a) = None)
  ∧ (∀ k x, er_pending r' !! k = Some x ↔ ∃ a, a ∈ l ∧ key a = k ∧ x = unadmitted a)
  ∧ r' = notify (r <| er_pending := er_pending r' |> <| er_byKey := union_with stage_over (er_pending r') (er_byKey r) |>).
Proof.
  unfold InstallPending. destruct (_ <? _); [done|]. destruct (collect _ _ _ _ _) as [e|next] eqn:Ec; [done|].
  destruct (er_closed r) eqn:Ecl; [done|]. intros [= <-]. apply collect_ok in Ec as (Hnd & Hok & Hm).
  rewrite key_fmap_unadmitted in Hnd. split_and!; try done.
  - intros a Ha. by apply Hok, list_elem_of_fmap_2.
  - intros k x. cbn. rewrite Hm, lookup_empty. split.
    + intros [?|(b & (a & -> & Ha)%list_elem_of_fmap & Hk & ->)]; [done|]. by exists a.
    + intros (a & Ha & Hk & ->). right. exists (unadmitted a). split; [by apply list_elem_of_fmap_2|done].
Qed.

(** A pull that the server acknowledged takes effect as a whole: after a successful
    [InstallPending], [MarkAdmitted] and [Commit] of the same admissions succeed, and then
    the registry holds exactly those admissions, each one open, and nothing pending. *)
Theorem preview_pull_installs l now r r1 :
  InstallPending l now r = (None, r1) →
  ∃ r2 r3, MarkAdmitted (acknowledged <$> l) r1 = (None, r2) ∧ Commit (acknowledged <$> l) r2 = (None, r3)
    ∧ er_pending r3 = ∅ ∧ ∀ k x, er_byKey r3 !! k = Some x ↔ ∃ a, a ∈ l ∧ key a = k ∧ x = acknowledged a.
Proof.
  intros (Hcl & Hnd & Hok & Hp & Hr)%InstallPending_ok.
  assert (∀ a, a ∈ l → er_pending r1 !! key a = Some (unadmitted a)) as Hpa by (intros a Ha; apply Hp; by exists a).
  assert (er_closed r1 = false) as Hcl1 by (by rewrite Hr).
  assert (NoDup (key <$> (acknowledged <$> l))) as Hnd' by (by rewrite key_fmap_acknowledged).
  unfold MarkAdmitted. rewrite Hcl1. assert (forallb (pending_exact r1) (acknowledged <$> l) = true) as ->.
  { apply forallb_forall. intros b (a & -> & Ha)%list_elem_of_In%list_elem_of_fmap. unfold pending_exact.
    rewrite key_acknowledged, Hpa by done. by apply exactEqual_spec. }
  cbn [negb]. destruct (fold_mark_byKey (acknowledged <$> l) r1 Hnd') as (Hb & _ & Hc & _).
  { intros b (a & -> & Ha)%list_elem_of_fmap. by rewrite key_acknowledged, Hpa. }
  cbn zeta in Hb. set (r2 := List.fold_left mark_one (acknowledged <$> l) r1) in *. clearbody r2.
  eexists _, _. split; [done|]. unfold Commit. assert (forallb ea_Admitted (acknowledged <$> l) = true) as ->.
  { apply forallb_forall. by intros b (a & -> & Ha)%list_elem_of_In%list_elem_of_fmap. }
  cbn [negb er_closed notify update]. rewrite Hc, Hcl1.
  assert (∀ k x, by_key (acknowledged <$> l) !! k = Some x ↔ ∃ a, a ∈ l ∧ key a = k ∧ x = acknowledged a) as Hbk.
  { intros k x. rewrite by_key_lookup by done. split.
    - intros [(a & -> & Ha)%list_elem_of_fmap Hk]. by exists a.
    - intros (a & Ha & Hk & ->). split; [by apply list_elem_of_fmap_2|done]. }
  assert (forallb (λ '(k, a), admitted_exact (notify r2) k a) (map_to_list (by_key (acknowledged <$> l))) = true) as ->.
  { apply forallb_forall. intros [k x] (a & Ha & <- & ->)%list_elem_of_In%elem_of_map_to_list%Hbk.
    unfold admitted_exact. cbn. assert (er_byKey r2 !! key a = Some (acknowledged a)) as ->.
    { apply Hb. left. exists (acknowledged a). split; [by apply list_elem_of_fmap_2|done]. }
    by apply exactEqual_spec. }
  cbn [negb]. split_and!; [done..|]. exact Hbk.
Qed.

(** The entries that peers and streams may use. *)
Definition open_entries (r : ExpectedAdmissionRegistry) : gmap string ExpectedAdmission :=
  filter (λ kv : string * ExpectedAdmission, ea_Admitted kv.2 = true) (er_byKey r).

(** Staging changes nothing that is in use: whatever [InstallPending] is given and
    whether it succeeds or not, the open admissions are the same before and after. *)
Theorem staging_keeps_open l now r : open_entries (InstallPending l now r).2 = open_entries r.
Proof.
  destruct (InstallPending l now r) as [[e|] r'] eqn:E.
  { revert E. unfold InstallPending. repeat case_match; by intros [= <- <-]. }
  apply InstallPending_ok in E as (_ & _ & _ & Hp & Hr). cbn [snd]. unfold open_entries. apply map_eq. intros k.
  apply option_eq. intros x. rewrite !map_lookup_filter_Some. cbn.
  enough (ea_Admitted x = true → er_byKey r' !! k = Some x ↔ er_byKey r !! k = Some x) by naive_solver.
  intros Ha. rewrite Hr. cbn. rewrite lookup_union_with. destruct (er_pending r' !! k) as [p|] eqn:Ep.
  - apply Hp in Ep as (a & _ & _ & ->). destruct (er_byKey r !! k) as [c|]; cbn; unfold stage_over.
    + destruct (ea_Admitted c) eqn:Ec; [done|]. split; intros [= <-]; [discriminate|congruence].
    + split; [intros [= <-]; discriminate|done].
  - by destruct (er_byKey r !! k).
Qed.

(** ** Runs of the edge *)

(** The registry and every admission a successful [MarkAdmitted] named, which the edge
    calls after the server accepted its acknowledgement. *)
Record vworld := mkVWorld { vw_reg : ExpectedAdmissionRegistry; vw_acked : list ExpectedAdmission }.

Definition acked_by (e : option err) (l acked : list ExpectedAdmission) : list ExpectedAdmission :=
  match e with None => l ++ acked | Some _ => acked end.

Inductive vstep : vworld → vworld → Prop :=
  | v_install w l now e r : InstallPending l now (vw_reg w) = (e, r) → vstep w (mkVWorld r (vw_acked w))
  | v_mark w l e r : NoDup (key <$> l) → MarkAdmitted l (vw_reg w) = (e, r) → vstep w (mkVWorld r (acked_by e l (vw_acked w)))
  | v_commit w l e r : Commit l (vw_reg w) = (e, r) → vstep w (mkVWorld r (vw_acked w))
  | v_remove w a e r : Remove a (vw_reg w) = (e, r) → vstep w (mkVWorld r (vw_acked w))
  | v_close w : vstep w (mkVWorld (Close (vw_reg w)) (vw_acked w)).

Inductive vreachable : vworld → Prop :=
  | vreachable_new nodeID epoch maximum r :
      NewExpectedAdmissionRegistry nodeID epoch maximum = inr r → vreachable (mkVWorld r [])
  | vreachable_step w w' : vreachable w → vstep w w' → vreachable w'.

(** An entry under its key, valid for this edge process at the time it was staged. *)
Definition entry_ok (r : ExpectedAdmissionRegistry) (k : string) (a : ExpectedAdmission) : Prop :=
  key a = k ∧ ∃ t, check_admission r t a = None.

Definition acked (l : list ExpectedAdmission) (a : ExpectedAdmission) : Prop :=
  ea_Admitted a = true → ∃ b, b ∈ l ∧ exactEqual a b = true.

Record vinv (w : vworld) : Prop := {
  vi_byKey : ∀ k a, er_byKey (vw_reg w) !! k = Some a → entry_ok (vw_reg w) k a ∧ acked (vw_acked w) a;
  vi_pending : ∀ k a, er_pending (vw_reg w) !! k = Some a → entry_ok (vw_reg w) k a
}.

Lemma check_flag r t a b : check_admission r t (a <| ea_Admitted := b |>) = check_admission r t a.
Proof. done. Qed.

Lemma check_exact r t a b : exactEqual a b = true → check_admission r t a = check_admission r t b.
Proof. intros E%exactEqual_spec. rewrite <- (check_flag r t a false), <- (check_flag r t b false). unfold unadmitted in E. by rewrite E. Qed.

Lemma exactEqual_refl a : exactEqual a a = true.
Proof. by apply exactEqual_spec. Qed.

Lemma entry_ok_exact r k a b : exactEqual a b = true → entry_ok r k a → entry_ok r k b.
Proof. intros E [Hk [t Ht]]. split; [by rewrite <- (exactEqual_key a b E)|]. exists t. by rewrite <- (check_exact r t a b E). Qed.

Lemma acked_mono l l' a : acked l a → acked (l' ++ l) a.
Proof. intros Ha Hf. destruct (Ha Hf) as (b & Hb & E). exists b. split; [|done]. apply elem_of_app. by right. Qed.

Lemma fold_mark_meta l r :
  let r' := List.fold_left mark_one l r in er_nodeID r' = er_nodeID r ∧ er_processEpoch r' = er_processEpoch r.
Proof. revert r. induction l as [|a l IH]; intros r; cbn; [done|]. apply (IH (mark_one r a)). Qed.

(** The second loop of [MarkAdmitted] when every named admission is pending: what is in
    the registry afterwards was there before, or is a pending entry that was named. *)
Lemma fold_mark_from l r :
  NoDup (key <$> l) → (∀ a, a ∈ l → pending_exact r a = true) →
  let r' := List.fold_left mark_one l r in
  (∀ k x, er_byKey r' !! k = Some x →
     er_byKey r !! k = Some x ∨ ∃ a p, a ∈ l ∧ er_pending r !! k = Some p ∧ exactEqual p a = true ∧ x = acknowledged p)
  ∧ (∀ k x, er_pending r' !! k = Some x → er_pending r !! k = Some x).
Proof.
  revert r. induction l as [|a l IH]; intros r; cbn; [intros _ _; split; [by left|done]|].
  intros [Hn Hnd]%NoDup_cons Hp. assert (pending_exact r a = true) as Ha by (apply Hp; by left).
  unfold pending_exact in Ha. destruct (er_pending r !! key a) as [p|] eqn:Ep; [|done].
  destruct (IH (mark_one r a) Hnd) as [Hb Hpe].
  { intros b Hb. specialize (Hp b ltac:(by right)). unfold pending_exact in *. cbn. rewrite lookup_delete_ne; [done|].
    intros Heq. apply Hn. rewrite Heq. by apply list_elem_of_fmap_2. }
  cbn zeta in *. split.
  - intros k x [Hx|(b & q & Hin & Hq & He & ->)]%Hb.
    + cbn in Hx. rewrite Ep in Hx. apply lookup_insert_Some in Hx as [[<- <-]|[_ Hx]]; [|by left].
      right. exists a, p. split; [by left|done].
    + right. exists b, q. split; [by right|]. cbn in Hq. by apply lookup_delete_Some in Hq as [_ Hq].
  - intros k x Hx. apply Hpe in Hx. cbn in Hx. by apply lookup_delete_Some in Hx as [_ Hx].
Qed.

Lemma by_key_in l k x : by_key l !! k = Some x → x ∈ l ∧ key x = k.
Proof.
  unfold by_key. enough (∀ m : gmap string ExpectedAdmission,
    List.fold_left (λ next a, <[key a := a]> next) l m !! k = Some x → m !! k = Some x ∨ (x ∈ l ∧ key x = k)) as Hgen.
  { intros [?|?]%Hgen; [done|done]. }
  induction l as [|a l IH]; intros m; cbn; [by left|]. intros [Hx|[Hx Hk]]%IH; [|right; split; [by right|done]].
  apply lookup_insert_Some in Hx as [[<- <-]|[_ Hx]]; [right; split; [by left|done]|by left].
Qed.

Lemma vinv_step w w' : vstep w w' → vinv w → vinv w'.
Proof.
  intros Hstep [B P]. destruct Hstep as [w l now e r E|w l e r Hnd E|w l e r E|w a e r E|w].
  - destruct e as [e|].
    { assert (r = vw_reg w) as -> by (revert E; unfold InstallPending; repeat case_match; by intros [= <- <-]). done. }
    apply InstallPending_ok in E as (_ & _ & Hok & Hp & Hr).
    assert (∀ k x, er_pending r !! k = Some x → entry_ok r k x ∧ ea_Admitted x = false) as Hpe.
    { intros k x (a & Ha & <- & ->)%Hp. split; [|done]. split; [done|]. exists now. rewrite Hr. by apply Hok. }
    constructor; cbn; [|intros k x Hx; by apply Hpe]. intros k x Hx. rewrite Hr in Hx. cbn in Hx.
    assert (∀ c, er_byKey (vw_reg w) !! k = Some c → entry_ok r k c ∧ acked (vw_acked w) c) as Hold by (intros c Hc; rewrite Hr; by apply B).
    rewrite lookup_union_with in Hx. destruct (er_pending r !! k) as [p|] eqn:Ep, (er_byKey (vw_reg w) !! k) as [c|] eqn:Ec; cbn in Hx; try done.
    + unfold stage_over in Hx. injection Hx as <-. destruct (ea_Admitted c); [by apply Hold|].
      destruct (Hpe k p Ep) as [Ho Hf]. split; [done|]. intros Ht. congruence.
    + injection Hx as <-. destruct (Hpe k p Ep) as [Ho Hf]. split; [done|]. intros Ht. congruence.
    + injection Hx as <-. by apply Hold.
  - unfold MarkAdmitted in E. destruct (er_closed _); [by injection E as <- <-|].
    destruct (forallb _ _) eqn:Ef; cbn [negb] in E; injection E as <- <-; [|done].
    destruct (fold_mark_meta l (vw_reg w)) as [Hm1 Hm2].
    destruct (fold_mark_from l (vw_reg w) Hnd) as [Hb Hpe].
    { intros a Ha. by apply (proj1 (forallb_forall _ _) Ef), list_elem_of_In. }
    cbn zeta in *. set (r' := List.fold_left mark_one l (vw_reg w)) in *. clearbody r'.
    assert (∀ k x, entry_ok (vw_reg w) k x → entry_ok (notify r') k x) as Hmeta.
    { intros k x [Hk [t Ht]]. split; [done|]. exists t. revert Ht. unfold check_admission. cbn. by rewrite Hm1, Hm2. }
    constructor; cbn.
    + intros k x [Hx|(a & p & Ha & Hpk & He & ->)]%Hb.
      * destruct (B k x Hx). split; [by apply Hmeta|by apply acked_mono].
      * split; [by apply Hmeta, (P k p Hpk)|]. intros _. exists a. split; [apply elem_of_app; by left|done].
    + intros k x Hx. by apply Hmeta, P, Hpe.
  - unfold Commit in E. destruct (negb (forallb ea_Admitted l)); [by injection E as <- <-|].
    destruct (er_closed _); [by injection E as <- <-|]. destruct (forallb _ (map_to_list _)) eqn:Ef; cbn [negb] in E; injection E as <- <-; [|done].
    constructor; cbn; [|intros k x Hx; by rewrite lookup_empty in Hx]. intros k x Hx.
    pose proof (proj1 (forallb_forall _ _) Ef (k, x)) as Hex. cbn in Hex.
    specialize (Hex (proj1 (list_elem_of_In _ _) (proj2 (elem_of_map_to_list _ _ _) Hx))). unfold admitted_exact in Hex.
    destruct (er_byKey (vw_reg w) !! k) as [c|] eqn:Ec; [|done]. apply andb_true_iff in Hex as [Hc Hex].
    destruct (B k c Ec) as [Ho Hak]. split; [by eapply (entry_ok_exact _ k c x)|]. intros _.
    destruct (Hak Hc) as (b & Hb & Hbe). exists b. split; [done|]. apply exactEqual_spec. rewrite exactEqual_spec in Hex, Hbe. congruence.
  - unfold Remove in E. destruct (er_byKey (vw_reg w) !! key a) as [c|]; [|by injection E as <- <-].
    destruct (exactEqual c a); cbn [negb] in E; injection E as <- <-; [|done]. constructor; cbn; [|done].
    intros k x Hx. apply lookup_delete_Some in Hx as [_ Hx]. by apply B.
  - unfold Close. destruct (er_closed _); done.
Qed.

Lemma vreachable_inv w : vreachable w → vinv w.
Proof.
  induction 1 as [nodeID epoch maximum r E|w w' _ IH Hs]; [|by eapply vinv_step].
  unfold NewExpectedAdmissionRegistry in E. destruct (_ || _); [done|]. injection E as <-.
  constructor; intros k a Hk; cbn in Hk; by rewrite lookup_empty in Hk.
Qed.

(** ** Streams and peers *)

Definition entries (r : ExpectedAdmissionRegistry) : list ExpectedAdmission := (map_to_list (er_byKey r)).*2.

Lemma entries_in r order a : order ≡ₚ entries r → a ∈ order → ∃ k, er_byKey r !! k = Some a.
Proof.
  intros Hp Ha. rewrite Hp in Ha. apply list_elem_of_fmap in Ha as ([k x] & -> & Hin). exists k. by apply elem_of_map_to_list.
Qed.

(** What a private admission demands of the decision that comes with a request. *)
Definition decision_binds (now : Time) (a : ExpectedAdmission) (d : PrivateAccessDecision) : Prop :=
  pd_Allowed d = true ∧ now < pd_ExpiresAt d ∧ pd_ResourceID d = ea_PreviewID a ∧ pd_RouteID d = ea_RouteID a
  ∧ pd_OperationID d = ea_OperationID a ∧ pd_CarrierSessionID d = id_SessionID (ea_Identity a)
  ∧ pd_RouteGeneration d = ea_RouteRevision a ∧ pd_ProcessGeneration d = id_ProcessGeneration (ea_Identity a)
  ∧ pd_ConfigGeneration d = id_Generation (ea_Identity a).

Lemma decision_accepted now a d : decision_refused now a (Some d) = false → decision_binds now a d.
Proof.
  cbn. intros Hd. apply orb_false_iff in Hd as [Hd _]. unfold After in Hd. bools. unfold decision_binds. split_and!; done || lia.
Qed.

(** C20. A data stream is let through only by an admission of the registry that was
    acknowledged to the server, is for the same carrier identity and the same route, has not
    expired, and, when the preview is private, for a decision that names this preview,
    route, operation, carrier session and these generations and has not expired. *)
Theorem preview_stream_authorized w order decision now i open :
  vreachable w → order ≡ₚ entries (vw_reg w) → AuthorizeStream order None decision now i open (vw_reg w) = None →
  ∃ a b, a ∈ order ∧ b ∈ vw_acked w ∧ exactEqual a b = true ∧ matches i open = true
    ∧ ea_Identity a = i ∧ ea_RouteID a = so_RouteID open ∧ now < ea_ExpiresAt a
    ∧ (ea_AccessMode a = PreviewCarrierAccessPrivate → ∃ d, decision = Some d ∧ decision_binds now a d).
Proof.
  intros V%vreachable_inv Hp. unfold AuthorizeStream. destruct (failed _ || _) eqn:Ei; [done|].
  apply orb_false_iff in Ei as [_ Em%negb_false_iff]. destruct (er_closed _); [done|].
  destruct (List.find _ order) as [a|] eqn:Ef; [|done]. apply find_some in Ef as [Ha Hs]. apply list_elem_of_In in Ha.
  unfold serves_route in Hs. apply andb_true_iff in Hs as [[Hadm Hi]%andb_true_iff Hr]. bools.
  destruct (entries_in _ _ _ Hp Ha) as [k Hk]. destruct (vi_byKey w V k a Hk) as [_ Hack]. destruct (Hack Hadm) as (b & Hb & Hbe).
  unfold authorize_entry. destruct (After _ _) eqn:Ex; cbn [negb]; [|done].
  destruct (_ && _) eqn:Ed; [done|]. intros _. exists a, b. split_and!; try done; [unfold After in Ex; lia|].
  intros Hpriv. rewrite Hpriv, bool_decide_eq_true_2 in Ed by done. cbn in Ed. destruct decision as [d|]; [|done].
  exists d. split; [done|]. by apply decision_accepted.
Qed.

(** The identities of the matching entries decide the loop. *)
Definition verdict (clash : err) (ids : list Identity) : err + option Identity :=
  match ids with [] => inr None | i :: rest => if forallb (λ j, i == j) rest then inr (Some i) else inl clash end.

Lemma peer_loop_verdict k uris now order found :
  peer_loop k uris now order found
  = verdict conflict (match found with Some i => [i] | None => [] end ++ (ea_Identity <$> List.filter (peer_matches k uris now) order)).
Proof.
  revert found. induction order as [|a order IH]; intros found; cbn [peer_loop List.filter].
  { by destruct found. }
  destruct (peer_matches k uris now a); cbn [negb]; [|by rewrite IH].
  destruct found as [i|]; [|by rewrite IH]. cbn. destruct (decide (i = ea_Identity a)) as [->|Hne].
  - rewrite bool_decide_eq_true_2 by done. cbn. by rewrite IH.
  - by rewrite bool_decide_eq_false_2 by done.
Qed.

Lemma verdict_all clash ids i : i ∈ ids → (∀ j, j ∈ ids → j = i) → verdict clash ids = inr (Some i).
Proof.
  intros Hi Hall. destruct ids as [|j rest]; [by apply elem_of_nil in Hi|]. cbn. rewrite (Hall j) by left.
  assert (forallb (λ j, i == j) rest = true) as ->; [|done]. apply forallb_forall. intros x Hx%list_elem_of_In.
  apply bool_decide_eq_true. symmetry. apply Hall. by right.
Qed.

Lemma verdict_inv clash ids i : verdict clash ids = inr (Some i) → i ∈ ids ∧ ∀ j, j ∈ ids → j = i.
Proof.
  destruct ids as [|j rest]; [done|]. cbn. destruct (forallb _ rest) eqn:E; [|done]. intros [= <-]. split; [by left|].
  intros x [->|Hx]%elem_of_cons; [done|]. apply list_elem_of_In in Hx. pose proof (proj1 (forallb_forall _ _) E x Hx) as Hb.
  symmetry. exact (bool_decide_eq_true_1 _ Hb).
Qed.

(** The generations of an admission are 64-bit unsigned numbers. *)
Definition typed_identity (i : Identity) : Prop := is_u64 (id_ProcessGeneration i) ∧ is_u64 (id_Generation i).

Lemma urn_identity uris i i' epoch epoch' :
  typed_identity i → typed_identity i' →
  (sha256_sum (CarrierBinding_encoded (admission_binding i epoch)) = sha256_sum (CarrierBinding_encoded (admission_binding i' epoch')) →
   CarrierBinding_encoded (admission_binding i epoch) = CarrierBinding_encoded (admission_binding i' epoch')) →
  MatchCarrierIdentityURN sha256_sum uris (admission_binding i epoch) = None →
  MatchCarrierIdentityURN sha256_sum uris (admission_binding i' epoch') = None → i = i'.
Proof.
  intros [T1 T2] [T3 T4] Hcol E E'. destruct (CarrierIdentityURN sha256_sum (admission_binding i epoch)) as [e|uri] eqn:Eu.
  { unfold MatchCarrierIdentityURN in E. by rewrite Eu in E. }
  assert (In (Some uri) uris) as Hin.
  { unfold MatchCarrierIdentityURN in E. rewrite Eu in E. destruct uris as [|[u|] [|]]; try done.
    destruct (u != uri) eqn:Eq; [done|]. bools. subst. by left. }
  destruct (StreamFramesProofs.carrier_urn_binds sha256_sum (admission_binding i epoch) (admission_binding i' epoch') uris uri T1 T2 T3 T4 Hcol Eu Hin E') as [Hb _].
  unfold admission_binding in Hb. destruct i, i'. cbn in *. congruence.
Qed.

Lemma peer_matches_urn k uris now a :
  peer_matches k uris now a = true →
  ea_Admitted a = true ∧ now < ea_ExpiresAt a ∧ ea_MachineIdentityPublicKey a = EncodeToString k
  ∧ MatchCarrierIdentityURN sha256_sum uris (admission_binding (ea_Identity a) (ea_EdgeProcessEpoch a)) = None.
Proof.
  unfold peer_matches. intros [Ha Hu]%andb_true_iff. apply negb_true_iff, failed_false in Hu. apply negb_true_iff in Ha.
  unfold After in Ha. bools. split_and!; done || lia.
Qed.

(** The identity a TLS peer is bound to does not depend on the order in which the map of
    admissions is visited: the peer gets an identity exactly if some open, unexpired
    admission names its public key and that identity, and the certificate carries the
    carrier name of that admission.  Two such admissions always have the same identity,
    unless two bindings have the same SHA-256 digest. *)
Theorem preview_peer_bound w order peers now k uris i :
  vreachable w → order ≡ₚ entries (vw_reg w) → (∀ a, a ∈ order → typed_identity (ea_Identity a)) →
  (∀ a b, a ∈ order → b ∈ order →
     let ba := admission_binding (ea_Identity a) (ea_EdgeProcessEpoch a) in
     let bb := admission_binding (ea_Identity b) (ea_EdgeProcessEpoch b) in
     sha256_sum (CarrierBinding_encoded ba) = sha256_sum (CarrierBinding_encoded bb) → CarrierBinding_encoded ba = CarrierBinding_encoded bb) →
  er_closed (vw_reg w) = false → peer_key peers = Some (k, uris) →
  PeerBinding order peers now (vw_reg w) = inr i ↔
  ∃ key a b, er_byKey (vw_reg w) !! key = Some a ∧ ea_Identity a = i ∧ ea_Admitted a = true ∧ now < ea_ExpiresAt a
    ∧ b ∈ vw_acked w ∧ exactEqual a b = true
    ∧ ea_MachineIdentityPublicKey a = EncodeToString k ∧ ea_MachineIdentityThumbprint a = key_thumbprint k
    ∧ MatchCarrierIdentityURN sha256_sum uris (admission_binding i (ea_EdgeProcessEpoch a)) = None.
Proof.
  intros V%vreachable_inv Hp Ht Hcol Hcl Hk. unfold PeerBinding. rewrite Hk, Hcl, peer_loop_verdict. cbn [app].
  set (ids := ea_Identity <$> List.filter (peer_matches k uris now) order).
  assert (∀ j, j ∈ ids ↔ ∃ a, a ∈ order ∧ peer_matches k uris now a = true ∧ j = ea_Identity a) as Hids.
  { intros j. unfold ids. rewrite list_elem_of_fmap. split.
    - intros (a & -> & [Ha Hm]%list_elem_of_In%filter_In). exists a. by rewrite list_elem_of_In.
    - intros (a & Ha & Hm & ->). exists a. split; [done|]. apply list_elem_of_In, filter_In. by rewrite <- list_elem_of_In. }
  assert (∀ j j', j ∈ ids → j' ∈ ids → j' = j) as Hsame.
  { intros j j' (a & Ha & Hm & ->)%Hids (b & Hb & Hm' & ->)%Hids.
    apply peer_matches_urn in Hm as (_ & _ & _ & Hu), Hm' as (_ & _ & _ & Hu').
    eapply urn_identity; [by apply Ht|by apply Ht|by apply Hcol|done|done]. }
  split.
  - destruct (verdict conflict ids) as [e|[j|]] eqn:Ev; [done| |done]. intros [= ->]. apply verdict_inv in Ev as [Hin _].
    apply Hids in Hin as (a & Ha & Hm & ->). destruct (entries_in _ _ _ Hp Ha) as [key Hka].
    destruct (vi_byKey w V key a Hka) as [_ Hack]. pose proof (peer_matches_urn _ _ _ _ Hm) as (M1 & M2 & M3 & M4).
    destruct (Hack M1) as (b & Hb & Hbe). exists key, a, b. split_and!; try done.
    unfold peer_matches in Hm. apply andb_true_iff in Hm as [Hm _]. bools. done.
  - intros (key & a & b & Hka & <- & M1 & M2 & _ & _ & M3 & M4 & M5).
    assert (ea_Identity a ∈ ids) as Hin.
    { apply Hids. exists a. split_and!; [|unfold peer_matches|done].
      - rewrite Hp. apply list_elem_of_fmap. exists (key, a). split; [done|]. by apply elem_of_map_to_list.
      - unfold After. rewrite M1, M3, M4, M5, (proj2 (Z.ltb_lt _ _) M2), !bool_decide_eq_true_2 by done. done. }
    rewrite (verdict_all conflict ids (ea_Identity a) Hin); [done|]. intros j Hj. by apply Hsame.
Qed.
End Guarantees.

(** ** A concrete edge *)

Module Previews.

#[local] Instance sample_rotation : RotationLib := {|
  sha256_sum b := take 32 b;
  ed25519_Verify _ _ _ := true;
  url_Parse _ := Some (mkURL "https" "app.example:443" false "" "" "" "/");
  marshal_plan _ _ _ _ := None;
  marshal_proof _ := None
|}.
#[local] Instance sample_text : Route.TextLib := {|
  Route.unicode_lower s := s; Route.ToASCII s := Some s; Route.isIP _ := false; Route.ValidUTF8 _ := true |}.
#[local] Instance sample_fold : FoldLib := λ _ _, false.

Definition hash0 : string := "sha256:0000000000000000000000000000000000000000000000000000000000000000".
Definition machine : bytes := replicate 32 x01.
Definition identity0 : Identity := mkIdentity "acct" "host" "tun" "con" "sess" 3 7.

Definition preview (operation mode : string) (expires : Time) : ExpectedAdmission :=
  mkExpected PreviewCarrierSchema PreviewCarrierKind "node" "preview" operation "host" "owner" identity0 1 1 hash0 "route"
    "epoch-0001" hash0 "pem" mode (if mode == "private" then PreviewCarrierPrivateRoute else PreviewCarrierRoute)
    "App.example" 1 1 "https://app.example:443/" expires (EncodeToString machine) (key_thumbprint machine) false.

Definition registry0 (maximum : Z) : ExpectedAdmissionRegistry :=
  match NewExpectedAdmissionRegistry "node" "epoch-0001" maximum with inr r => r | inl _ => mkRegistry "" 0 "" true ∅ ∅ 0 end.

Definition pull (l : list ExpectedAdmission) (r : ExpectedAdmissionRegistry) : ExpectedAdmissionRegistry :=
  let l' := acknowledged <$> l in (Commit l' (MarkAdmitted l' (InstallPending l 0 r).2).2).2.

Lemma preview_pull_installs_witness :
  ∃ r2 r3, MarkAdmitted [acknowledged (preview "op1" "public" 10)] (InstallPending [preview "op1" "public" 10] 0 (registry0 5)).2 = (None, r2)
    ∧ Commit [acknowledged (preview "op1" "public" 10)] r2 = (None, r3) ∧ er_pending r3 = ∅.
Proof.
  destruct (preview_pull_installs [preview "op1" "public" 10] 0 (registry0 5) (InstallPending [preview "op1" "public" 10] 0 (registry0 5)).2)
    as (r2 & r3 & E2 & E3 & E4 & _).
  - vm_compute. reflexivity.
  - exact (ex_intro _ r2 (ex_intro _ r3 (conj E2 (conj E3 E4)))).
Defined.

Definition two : list ExpectedAdmission := [preview "op1" "public" 10; preview "op2" "public" 100].
Definition registry2 : ExpectedAdmissionRegistry := pull two (registry0 5).

Lemma pulled_reachable l maximum :
  NewExpectedAdmissionRegistry "node" "epoch-0001" maximum = inr (registry0 maximum) → NoDup (key <$> l) →
  (MarkAdmitted (acknowledged <$> l) (InstallPending l 0 (registry0 maximum)).2).1 = None →
  vreachable (mkVWorld (pull l (registry0 maximum)) (acknowledged <$> l)).
Proof.
  intros En Hnd Em. unfold pull. pose proof (vreachable_new _ _ _ _ En) as V0.
  destruct (InstallPending l 0 (registry0 maximum)) as [e1 r1] eqn:E1. cbn [snd] in *.
  pose proof (vreachable_step _ _ V0 (v_install (mkVWorld (registry0 maximum) []) l 0 e1 r1 E1)) as V1. cbn [vw_acked] in V1.
  destruct (MarkAdmitted (acknowledged <$> l) r1) as [e2 r2] eqn:E2. cbn [fst] in Em. subst e2. cbn [snd].
  pose proof (vreachable_step _ _ V1 (v_mark (mkVWorld r1 []) (acknowledged <$> l) None r2 ltac:(by rewrite key_fmap_acknowledged) E2)) as V2.
  cbn [acked_by vw_acked] in V2. rewrite app_nil_r in V2.
  destruct (Commit (acknowledged <$> l) r2) as [e3 r3] eqn:E3. exact (vreachable_step _ _ V2 (v_commit (mkVWorld r2 (acknowledged <$> l)) _ e3 r3 E3)).
Qed.

Lemma registry2_reachable : vreachable (mkVWorld registry2 (acknowledged <$> two)).
Proof.
  apply pulled_reachable; [vm_compute; reflexivity| |vm_compute; reflexivity].
  unfold two. cbn. repeat constructor; set_solver.
Qed.

Definition open0 : StreamOpen := mkOpen ProtocolName ProtocolVersion "acct" "tun" "con" "sess" 3 7 "route" "req" "http".

Lemma preview_stream_authorized_witness :
  ∃ a, a ∈ entries registry2 ∧ ea_Identity a = identity0 ∧ 5 < ea_ExpiresAt a.
Proof.
  assert (AuthorizeStream (entries registry2) None None 5 identity0 open0 registry2 = None) as E by (vm_compute; reflexivity).
  destruct (preview_stream_authorized _ _ None 5 identity0 open0 registry2_reachable (Permutation_refl _) E)
    as (a & b & Ha & _ & _ & _ & Hi & _ & Hx & _).
  exact (ex_intro _ a (conj Ha (conj Hi Hx))).
Defined.

Definition one : list ExpectedAdmission := [preview "op1" "public" 10].
Definition registry1 : ExpectedAdmissionRegistry := pull one (registry0 5).

Lemma registry1_reachable : vreachable (mkVWorld registry1 (acknowledged <$> one)).
Proof.
  apply pulled_reachable; [vm_compute; reflexivity| |vm_compute; reflexivity]. unfold one. cbn. repeat constructor; set_solver.
Qed.

Definition uri0 : string :=
  match CarrierIdentityURN sha256_sum (admission_binding identity0 "epoch-0001") with inr u => u | inl _ => "" end.

Lemma preview_peer_bound_witness :
  PeerBinding (entries registry1) [Some (mkCertificate (Some machine) [Some uri0])] 5 registry1 = inr identity0.
Proof.
  assert (entries registry1 = [acknowledged (preview "op1" "public" 10)]) as Ee by (vm_compute; reflexivity).
  apply (preview_peer_bound (mkVWorld registry1 (acknowledged <$> one)) (entries registry1)
           [Some (mkCertificate (Some machine) [Some uri0])] 5 machine [Some uri0] identity0 registry1_reachable (Permutation_refl _)).
  - intros a Ha. rewrite Ee in Ha. apply list_elem_of_singleton in Ha. rewrite Ha. vm_compute. intuition congruence.
  - intros a b Ha Hb. rewrite Ee in Ha, Hb. apply list_elem_of_singleton in Ha, Hb. intros ba bb _. subst ba bb. rewrite Ha, Hb. reflexivity.
  - vm_compute. reflexivity.
  - vm_compute. reflexivity.
  - exists (key (preview "op1" "public" 10)), (acknowledged (preview "op1" "public" 10)), (acknowledged (preview "op1" "public" 10)).
    split; [vm_compute; reflexivity|]. split; [reflexivity|]. split; [reflexivity|]. split; [vm_compute; reflexivity|].
    split; [left|]. split; [vm_compute; reflexivity|]. split; [reflexivity|]. split; [reflexivity|]. vm_compute. reflexivity.
Defined.

(** Two open admissions for one carrier and one route make the answer of
    [AuthorizeStream] depend on the order in which Go visits the map: one order lets the
    stream through, the other answers that the admission is expired. *)
Theorem authorization_by_map_order :
  vreachable (mkVWorld registry2 (acknowledged <$> two))
  ∧ AuthorizeStream (entries registry2) None None 50 identity0 open0 registry2
    ≠ AuthorizeStream (rev (entries registry2)) None None 50 identity0 open0 registry2
  ∧ (AuthorizeStream (entries registry2) None None 50 identity0 open0 registry2 = None
     ∨ AuthorizeStream (rev (entries registry2)) None None 50 identity0 open0 registry2 = None).
Proof. split; [exact registry2_reachable|]. vm_compute. split; [done|]. auto. Qed.

(** [MarkAdmitted] of a list that names one admission twice succeeds and puts the zero
    admission, marked as admitted, in the place of the one that was acknowledged. *)
Theorem marked_twice_is_lost :
  let a := preview "op1" "public" 10 in
  let '(e, r) := MarkAdmitted [a; a] (InstallPending [a] 0 (registry0 5)).2 in
  e = None ∧ er_byKey r !! key a = Some (acknowledged zeroAdmission).
Proof. vm_compute. done. Qed.

(** Pulls whose acknowledgement fails leave their entries behind: a registry for one
    admission holds two after two pulls that were staged and not acknowledged. *)
Theorem staging_exceeds_maximum :
  let r := (InstallPending [preview "op2" "public" 10] 0 (InstallPending [preview "op1" "public" 10] 0 (registry0 1)).2).2 in
  er_maximum r = 1 ∧ size (er_byKey r) = 2%nat.
Proof. vm_compute. done. Qed.
End Previews.

End PreviewAdmissionProofs.
