(* ===== verification/DurableAdmission.v ===== *)
(** * Durable carrier admissions

    Models [internal/datacarrier/durable_admission.go]: the admissions of connector
    carriers, one entry per carrier identity with many route assignments, replaced as a
    whole; peer binding, stream authorization, and the composition of several authorities.
    Conventions are those of file PreviewAdmission. *)
From S2P Require Import Prelude Go Strings Protocol Messages Route RotationMessages StreamFrames Carrier PreviewAdmission.

Module DurableAdmission.
Import RotationMessages StreamFrames Carrier PreviewAdmission.

Definition ErrDurableAdmissionInvalid : err := EPlain "invalid durable carrier admission".
Definition ErrDurableAdmissionMissing : err := EPlain "durable carrier admission is not expected".
Definition ErrDurableAdmissionConflict : err := EPlain "durable carrier admission conflicts with current state".
Definition ErrDurableAdmissionExpired : err := EPlain "durable carrier admission is expired".
Definition maxDurableAdmissions : Z := 4096.

Record DurableAdmission := mkDurable {
  da_Identity : Identity;
  da_EdgeNodeID : string;
  da_EdgeProcessEpoch : string;
  da_AssignmentID : string;
  da_RouteID : string;
  da_AssignmentGeneration : Z;
  da_RouteGeneration : Z;
  da_ConfigContentHash : string;
  da_MachineIdentityPublicKey : string;
  da_MachineIdentityThumbprint : string;
  da_State : string;
  da_ExpiresAt : Time
}.
#[export] Instance DurableAdmission_eta : Eta DurableAdmission := λ r,
  mkDurable (da_Identity r) (da_EdgeNodeID r) (da_EdgeProcessEpoch r) (da_AssignmentID r) (da_RouteID r)
    (da_AssignmentGeneration r) (da_RouteGeneration r) (da_ConfigContentHash r) (da_MachineIdentityPublicKey r)
    (da_MachineIdentityThumbprint r) (da_State r) (da_ExpiresAt r).
#[export] Instance DurableAdmission_eq_dec : EqDecision DurableAdmission.
Proof. solve_decision. Defined.

Definition durable_invalid : option err := Some (EWrap "" ErrDurableAdmissionInvalid).
Definition durable_conflict : err := EWrap "" ErrDurableAdmissionConflict.

Definition validDurableContentHash (value : string) : bool :=
  (len value =? 71) && HasPrefix value "sha256:" && forallb is_hex_lower (drop 7 (sbytes value)).

Section Validation.
Context `{RotationLib}.

Definition Durable_Validate (nodeID processEpoch : string) (now : Time) (a : DurableAdmission) : option err :=
  if failed (Identity_Validate (da_Identity a)) then durable_invalid
  else if (da_EdgeNodeID a != nodeID) || badID (da_EdgeNodeID a) || (da_EdgeProcessEpoch a != processEpoch)
          || failed (ValidateOpaqueEpoch (da_EdgeProcessEpoch a))
  then durable_invalid
  else if badID (da_AssignmentID a) || badID (da_RouteID a) then durable_invalid
  else if (da_AssignmentGeneration a =? 0) || (da_RouteGeneration a =? 0) || (da_ConfigContentHash a == "") then durable_invalid
  else if negb (mem_str ["staged"; "active"; "draining"; "detached"] (da_State a)) then durable_invalid
  else if negb (IsZero (da_ExpiresAt a)) && negb (After (da_ExpiresAt a) now) then Some ErrDurableAdmissionExpired
  else match DecodeString (da_MachineIdentityPublicKey a) with
  | None => durable_invalid
  | Some publicKey =>
      if negb (blen publicKey =? PublicKeySize) then durable_invalid
      else match IdentityThumbprint publicKey with
      | inl _ => Some durable_conflict
      | inr thumbprint =>
          if thumbprint != da_MachineIdentityThumbprint a then Some durable_conflict
          else if negb (validDurableContentHash (da_ConfigContentHash a)) then durable_invalid else None
      end
  end.
End Validation.

(** ** The registry *)

Record durableAdmissionEntry := mkEntry {
  de_identity : Identity;
  de_edgeProcessEpoch : string;
  de_publicKey : string;
  de_thumbprint : string;
  de_byRoute : gmap string DurableAdmission
}.
#[export] Instance durableAdmissionEntry_eta : Eta durableAdmissionEntry := λ r,
  mkEntry (de_identity r) (de_edgeProcessEpoch r) (de_publicKey r) (de_thumbprint r) (de_byRoute r).

Record DurableAdmissionRegistry := mkDurableRegistry {
  dr_nodeID : string;
  dr_processEpoch : string;
  dr_maximum : Z;
  dr_closed : bool;
  dr_byID : gmap string durableAdmissionEntry
}.
#[export] Instance DurableAdmissionRegistry_eta : Eta DurableAdmissionRegistry := λ r,
  mkDurableRegistry (dr_nodeID r) (dr_processEpoch r) (dr_maximum r) (dr_closed r) (dr_byID r).

Definition NewDurableAdmissionRegistry (nodeID processEpoch : string) (maximum : Z) : err + DurableAdmissionRegistry :=
  if badID nodeID || failed (ValidateOpaqueEpoch processEpoch) then inl ErrDurableAdmissionInvalid
  else
    let maximum := if maximum =? 0 then maxDurableAdmissions else maximum in
    if (maximum <? 1) || (maxDurableAdmissions <? maximum) then inl ErrDurableAdmissionInvalid
    else inr (mkDurableRegistry nodeID processEpoch maximum false ∅).

Definition nul_join (parts : list string) : string :=
  match parts with
  | [] => ""
  | p :: parts => List.fold_left (λ acc q, acc +:+ String Ascii.zero q) parts p
  end.

Definition durableIdentityKey (i : Identity) : string :=
  nul_join [id_AccountID i; id_HostID i; id_TunnelID i; id_ConnectorID i; id_SessionID i;
            Itoa (id_ProcessGeneration i); Itoa (id_Generation i)].

(** The key under which [Replace] compares assignment generations. *)
Definition assignment_key (a : DurableAdmission) : string :=
  nul_join [id_AccountID (da_Identity a); id_HostID (da_Identity a); da_RouteID a].

Definition all_admissions (byID : gmap string durableAdmissionEntry) : list DurableAdmission :=
  (map_to_list byID).*2 ≫= λ entry, (map_to_list (de_byRoute entry)).*2.

(** The largest assignment generation under every key, from the first critical section. *)
Definition raise_generation (m : gmap string Z) (a : DurableAdmission) : gmap string Z :=
  if default 0 (m !! assignment_key a) <? da_AssignmentGeneration a
  then <[assignment_key a := da_AssignmentGeneration a]> m else m.

Definition currentGenerations (order : list DurableAdmission) : gmap string Z := List.fold_left raise_generation order ∅.

Section Replace.
Context `{RotationLib}.

Definition enter_route (a : DurableAdmission) (next : gmap string durableAdmissionEntry)
    : err + gmap string durableAdmissionEntry :=
  let k := durableIdentityKey (da_Identity a) in
  let put entry :=
    match de_byRoute entry !! da_RouteID a with
    | Some _ => inl durable_conflict
    | None => inr (<[k := entry <| de_byRoute := <[da_RouteID a := a]> (de_byRoute entry) |>]> next)
    end in
  match next !! k with
  | None => put (mkEntry (da_Identity a) (da_EdgeProcessEpoch a) (da_MachineIdentityPublicKey a) (da_MachineIdentityThumbprint a) ∅)
  | Some entry =>
      if (de_publicKey entry != da_MachineIdentityPublicKey a) || (de_thumbprint entry != da_MachineIdentityThumbprint a)
         || (de_edgeProcessEpoch entry != da_EdgeProcessEpoch a)
      then inl durable_conflict else put entry
  end.

Fixpoint collect_routes (nodeID processEpoch : string) (now : Time) (generations : gmap string Z)
    (admissions : list DurableAdmission) (next : gmap string durableAdmissionEntry)
    : err + gmap string durableAdmissionEntry :=
  match admissions with
  | [] => inr next
  | a :: admissions =>
      match Durable_Validate nodeID processEpoch now a with
      | Some e => inl e
      | None =>
          if da_AssignmentGeneration a <? default 0 (generations !! assignment_key a) then inl ErrDurableAdmissionConflict
          else match enter_route a next with
          | inl e => inl e
          | inr next => collect_routes nodeID processEpoch now generations admissions next
          end
      end
  end.

(** [generations] is what the first critical section computed. *)
Definition Durable_Replace (generations : gmap string Z) (admissions : list DurableAdmission) (now : Time)
    (r : DurableAdmissionRegistry) : option err * DurableAdmissionRegistry :=
  if dr_maximum r <? Z.of_nat (length admissions) then (Some ErrDurableAdmissionConflict, r)
  else match collect_routes (dr_nodeID r) (dr_processEpoch r) now generations admissions ∅ with
  | inl e => (Some e, r)
  | inr next =>
      if dr_maximum r <? Z.of_nat (size next) then (Some ErrDurableAdmissionConflict, r)
      else if dr_closed r then (Some ErrCarrierClosed, r) else (None, r <| dr_byID := next |>)
  end.
End Replace.

Definition Durable_Close (r : DurableAdmissionRegistry) : DurableAdmissionRegistry := r <| dr_closed := true |> <| dr_byID := ∅ |>.

(** ** Queries *)

Definition route_usable (now : Time) (a : DurableAdmission) : bool :=
  ((da_State a == "staged") || (da_State a == "active")) && (IsZero (da_ExpiresAt a) || After (da_ExpiresAt a) now).

(** The entry of an identity, when the registry answers for it at all. *)
Definition entry_of (identity : Identity) (r : DurableAdmissionRegistry) : option durableAdmissionEntry :=
  if failed (Identity_Validate identity) || dr_closed r then None
  else match dr_byID r !! durableIdentityKey identity with
  | Some entry => if de_identity entry == identity then Some entry else None
  | None => None
  end.

Definition routes_of (entry : durableAdmissionEntry) : list DurableAdmission := (map_to_list (de_byRoute entry)).*2.

Definition HasIdentity (identity : Identity) (now : Time) (r : DurableAdmissionRegistry) : bool :=
  match entry_of identity r with Some entry => existsb (route_usable now) (routes_of entry) | None => false end.

Definition Durable_ForIdentity (identity : Identity) (now : Time) (r : DurableAdmissionRegistry) : list DurableAdmission :=
  match entry_of identity r with
  | Some entry => sort_by da_RouteID (List.filter (route_usable now) (routes_of entry))
  | None => []
  end.

Definition MachineBinding (identity : Identity) (now : Time) (r : DurableAdmissionRegistry) : option (string * string) :=
  match entry_of identity r with
  | Some entry => if existsb (route_usable now) (routes_of entry) then Some (de_publicKey entry, de_thumbprint entry) else None
  | None => None
  end.

Section Peers.
Context `{RotationLib}.

Definition durable_matches (uris : list (option string)) (now : Time) (a : DurableAdmission) : bool :=
  negb ((da_State a != "staged") && (da_State a != "active") || negb (IsZero (da_ExpiresAt a)) && negb (After (da_ExpiresAt a) now))
  && negb (failed (MatchCarrierIdentityURN sha256_sum uris (admission_binding (da_Identity a) (da_EdgeProcessEpoch a)))).

Fixpoint routes_loop (uris : list (option string)) (now : Time) (order : list DurableAdmission) (found : option Identity)
    : err + option Identity :=
  match order with
  | [] => inr found
  | a :: order =>
      if negb (durable_matches uris now a) then routes_loop uris now order found
      else match found with
      | Some bound => if bound != da_Identity a then inl ErrDurableAdmissionConflict
                      else routes_loop uris now order (Some (da_Identity a))
      | None => routes_loop uris now order (Some (da_Identity a))
      end
  end.

(** [order] lists the entries in the order of the outer loop, each with the order of its
    routes in the inner loop. *)
Fixpoint entries_loop (encoded thumbprint : string) (uris : list (option string)) (now : Time)
    (order : list (durableAdmissionEntry * list DurableAdmission)) (found : option Identity) : err + option Identity :=
  match order with
  | [] => inr found
  | (entry, routes) :: order =>
      if (de_publicKey entry != encoded) || (de_thumbprint entry != thumbprint)
      then entries_loop encoded thumbprint uris now order found
      else match routes_loop uris now routes found with
      | inl e => inl e
      | inr found => entries_loop encoded thumbprint uris now order found
      end
  end.

Definition Durable_PeerBinding (order : list (durableAdmissionEntry * list DurableAdmission)) (peers : list (option certificate))
    (now : Time) (r : DurableAdmissionRegistry) : err + Identity :=
  match peer_key peers with
  | None => inl ErrDurableAdmissionMissing
  | Some (k, uris) =>
      match IdentityThumbprint k with
      | inl _ => inl ErrDurableAdmissionMissing
      | inr thumbprint =>
          if dr_closed r then inl ErrCarrierClosed
          else match entries_loop (EncodeToString k) thumbprint uris now order None with
          | inl e => inl e
          | inr None => inl ErrDurableAdmissionMissing
          | inr (Some bound) => inr bound
          end
      end
  end.
End Peers.

Definition Durable_AuthorizeStream (ctxErr : option err) (now : Time) (identity : Identity) (open : StreamOpen)
    (r : DurableAdmissionRegistry) : option err :=
  match ctxErr with
  | Some e => Some e
  | None =>
      if failed (Identity_Validate identity) || negb (matches identity open) then Some ErrIdentityMismatch
      else if dr_closed r then Some ErrCarrierClosed
      else match dr_byID r !! durableIdentityKey identity with
      | None => Some ErrDurableAdmissionMissing
      | Some entry =>
          match de_byRoute entry !! so_RouteID open with
          | None => Some ErrDurableAdmissionMissing
          | Some a =>
              if (da_State a != "staged") && (da_State a != "active") then Some ErrDurableAdmissionMissing
              else if negb (IsZero (da_ExpiresAt a)) && negb (After (da_ExpiresAt a) now) then Some ErrDurableAdmissionExpired
              else None
          end
      end
  end.

(** ** Several authorities *)

Fixpoint any_binding {A} (bindings : list (option (A → err + Identity))) (state : A) (last : option err) : err + Identity :=
  match bindings with
  | [] => inl (default ErrDurableAdmissionMissing last)
  | None :: bindings => any_binding bindings state last
  | Some binding :: bindings =>
      match binding state with
      | inr bound => inr bound
      | inl e => any_binding bindings state (Some e)
      end
  end.
Definition AnyPeerBinding {A} (bindings : list (option (A → err + Identity))) (state : A) : err + Identity :=
  any_binding bindings state None.

Fixpoint any_authorizer (authorizers : list (option (Identity → StreamOpen → option err))) (i : Identity) (open : StreamOpen)
    (last : option err) : option err :=
  match authorizers with
  | [] => Some (default ErrDurableAdmissionMissing last)
  | None :: authorizers => any_authorizer authorizers i open last
  | Some authorizer :: authorizers =>
      match authorizer i open with
      | None => None
      | Some e => any_authorizer authorizers i open (Some e)
      end
  end.
Definition AnyAuthorizer (authorizers : list (option (Identity → StreamOpen → option err))) (i : Identity) (open : StreamOpen)
    : option err := any_authorizer authorizers i open None.

End DurableAdmission.
