(* ===== verification/DurableAdmissionProofs.v ===== *)
(** * Durable carrier admissions: theorems *)
From S2P Require Import Prelude Go Strings Protocol Messages RotationMessages JSON StreamFrames StreamFramesProofs Carrier PreviewAdmission PreviewAdmissionProofs DurableAdmission.

Module DurableAdmissionProofs.
Import RotationMessages StreamFrames StreamFramesProofs Carrier PreviewAdmission PreviewAdmissionProofs DurableAdmission.

(** ** Keys joined by NUL *)

Definition nul_free (s : string) : Prop := 0 ∉ ascii s.

Lemma nul_split (p q r r' : list Z) : 0 ∉ p → 0 ∉ q → p ++ 0 :: r = q ++ 0 :: r' → p = q ∧ r = r'.
Proof.
  revert q. induction p as [|x p IH]; intros [|y q] Hp Hq; cbn.
  - by intros [= ->].
  - intros [= <- _]. exfalso. apply Hq. by left.
  - intros [= -> _]. exfalso. apply Hp. by left.
  - intros [= -> E]. destruct (IH q) as [-> ->]; [set_solver..|done|done].
Qed.

Definition nul_tail (ps : list string) : list Z := ps ≫= λ q, 0 :: ascii q.

Lemma ascii_app s t : ascii (s +:+ t) = ascii s ++ ascii t.
Proof. unfold ascii. by rewrite sbytes_app, fmap_app. Qed.

Lemma nul_join_codes p ps : ascii (nul_join (p :: ps)) = ascii p ++ nul_tail ps.
Proof.
  unfold nul_join. revert p. induction ps as [|q ps IH]; intros p; cbn [List.fold_left].
  - unfold nul_tail. by rewrite app_nil_r.
  - rewrite IH, ascii_app, <- app_assoc. done.
Qed.

Lemma nul_join_inj ps qs :
  length ps = length qs → Forall nul_free ps → Forall nul_free qs → nul_join ps = nul_join qs → ps = qs.
Proof.
  destruct ps as [|p ps], qs as [|q qs]; try done. intros Hl [Hp Hps]%Forall_cons [Hq Hqs]%Forall_cons E.
  apply (f_equal ascii) in E. rewrite !nul_join_codes in E. cbn in Hl. injection Hl as Hl.
  revert qs p q Hl Hp Hq Hps Hqs E. induction ps as [|p' ps IH]; intros [|q' qs] p q; try done; intros Hl Hp Hq Hps Hqs E.
  - unfold nul_tail in E. cbn in E. rewrite !app_nil_r in E. apply ascii_inj in E. by subst.
  - apply Forall_cons in Hps as [Hp' Hps], Hqs as [Hq' Hqs]. cbn in E. unfold nul_tail in E. cbn in E.
    apply nul_split in E as [E1%ascii_inj E2]; [|done..]. subst.
    injection Hl as Hl. specialize (IH qs p' q' Hl Hp' Hq' Hps Hqs E2). congruence.
Qed.

Lemma badID_nul_free s : badID s = false → nul_free s.
Proof. intros [Hp _]%badID_plain Hin. unfold plain in Hp. rewrite Forall_forall in Hp. specialize (Hp 0 Hin). lia. Qed.

Lemma Itoa_nul_free z : 0 ≤ z → nul_free (Itoa z).
Proof.
  intros Hz. unfold nul_free. destruct (Itoa_digits z Hz) as (c & ds & -> & Hd & _). intros Hin.
  rewrite Forall_forall in Hd. specialize (Hd 0 Hin). by vm_compute in Hd.
Qed.

(** *** Identities *)

Lemma Identity_valid i :
  Identity_Validate i = None →
  badID (id_AccountID i) = false ∧ badID (id_HostID i) = false ∧ badID (id_TunnelID i) = false
  ∧ badID (id_ConnectorID i) = false ∧ badID (id_SessionID i) = false.
Proof. unfold Identity_Validate. destruct (_ || _) eqn:E; [done|]. intros _. bools. done. Qed.

Lemma durableIdentityKey_inj i j :
  Identity_Validate i = None → Identity_Validate j = None → typed_identity i → typed_identity j →
  durableIdentityKey i = durableIdentityKey j → i = j.
Proof.
  intros (A1 & A2 & A3 & A4 & A5)%Identity_valid (B1 & B2 & B3 & B4 & B5)%Identity_valid [[T1 _] [T2 _]] [[T3 _] [T4 _]] E.
  unfold durableIdentityKey in E. apply nul_join_inj in E; [|done|..].
  - injection E as E1 E2 E3 E4 E5 E6%Itoa_inj E7%Itoa_inj; [|done..]. destruct i, j. cbn in *. congruence.
  - repeat (apply Forall_cons; split); try (by apply badID_nul_free); try (by apply Itoa_nul_free). constructor.
  - repeat (apply Forall_cons; split); try (by apply badID_nul_free); try (by apply Itoa_nul_free). constructor.
Qed.

(** ** What [Replace] builds *)

Section Registry.
Context `{RotationLib}.

Record entry_ok (node epoch k : string) (e : durableAdmissionEntry) : Prop := {
  en_key : k = durableIdentityKey (de_identity e);
  en_valid : Identity_Validate (de_identity e) = None ∧ typed_identity (de_identity e);
  en_routes : ∀ route a, de_byRoute e !! route = Some a →
    da_RouteID a = route ∧ da_Identity a = de_identity e ∧ da_EdgeProcessEpoch a = de_edgeProcessEpoch e
    ∧ da_MachineIdentityPublicKey a = de_publicKey e ∧ da_MachineIdentityThumbprint a = de_thumbprint e
    ∧ ∃ t, Durable_Validate node epoch t a = None
}.

Definition entries_ok (node epoch : string) (m : gmap string durableAdmissionEntry) : Prop :=
  ∀ k e, m !! k = Some e → entry_ok node epoch k e.

Lemma all_admissions_in m a :
  a ∈ all_admissions m ↔ ∃ k e route, m !! k = Some e ∧ de_byRoute e !! route = Some a.
Proof.
  unfold all_admissions. rewrite list_elem_of_bind. split.
  - intros (e & ([route x] & -> & Hr%elem_of_map_to_list)%list_elem_of_fmap & ([k e'] & -> & Hk%elem_of_map_to_list)%list_elem_of_fmap).
    by exists k, e', route.
  - intros (k & e & route & Hk & Hr). exists e. split.
    + apply list_elem_of_fmap. exists (route, a). split; [done|]. by apply elem_of_map_to_list.
    + apply list_elem_of_fmap. exists (k, e). split; [done|]. by apply elem_of_map_to_list.
Qed.

Lemma Durable_Validate_identity node epoch t a : Durable_Validate node epoch t a = None → Identity_Validate (da_Identity a) = None.
Proof. unfold Durable_Validate. destruct (Identity_Validate (da_Identity a)); done. Qed.

Lemma enter_route_ok node epoch t a m m' :
  entries_ok node epoch m → Durable_Validate node epoch t a = None → typed_identity (da_Identity a) →
  enter_route a m = inr m' →
  entries_ok node epoch m' ∧ ∀ b, b ∈ all_admissions m' ↔ b = a ∨ b ∈ all_admissions m.
Proof.
  intros Hm Hv Ht. pose proof (Durable_Validate_identity _ _ _ _ Hv) as Hi. set (k := durableIdentityKey (da_Identity a)).
  assert (∀ e, entry_ok node epoch k e → de_identity e = da_Identity a → de_publicKey e = da_MachineIdentityPublicKey a →
            de_thumbprint e = da_MachineIdentityThumbprint a → de_edgeProcessEpoch e = da_EdgeProcessEpoch a →
            de_byRoute e !! da_RouteID a = None → (m !! k = Some e ∨ m !! k = None ∧ de_byRoute e = ∅) →
            let m' := <[k := e <| de_byRoute := <[da_RouteID a := a]> (de_byRoute e) |>]> m in
            entries_ok node epoch m' ∧ ∀ b, b ∈ all_admissions m' ↔ b = a ∨ b ∈ all_admissions m) as Hput.
  { intros e [E1 E2 E3] F1 F2 F3 F4 Hn Hold. cbn zeta. split.
    - intros k' e' [[<- <-]|[_ He']]%lookup_insert_Some; [|by apply Hm]. constructor; cbn; [done|done|].
      intros route x [[<- <-]|[_ Hx]]%lookup_insert_Some; [|by apply E3]. split_and!; try done. by exists t.
    - intros b. rewrite !all_admissions_in. split.
      + intros (k' & e' & route & [[<- <-]|[Hk' He']]%lookup_insert_Some & Hr); [|right; by exists k', e', route].
        cbn in Hr. apply lookup_insert_Some in Hr as [[_ <-]|[_ Hr]]; [by left|]. right.
        destruct Hold as [He|[_ He]]; [by exists k, e, route|]. by rewrite He, lookup_empty in Hr.
      + intros [->|(k' & e' & route & He' & Hr)].
        * eexists k, _, (da_RouteID a). rewrite lookup_insert_eq. split; [done|]. cbn. apply lookup_insert_eq.
        * destruct (decide (k' = k)) as [->|Hk'].
          -- destruct Hold as [He|[He _]]; [|congruence]. assert (e' = e) as -> by congruence.
             eexists k, _, route. rewrite lookup_insert_eq. split; [done|]. cbn. rewrite lookup_insert_ne; [done|]. congruence.
          -- exists k', e', route. by rewrite lookup_insert_ne. }
  unfold enter_route. fold k. destruct (m !! k) as [e|] eqn:Ek.
  - destruct (_ || _) eqn:Ec; [done|]. destruct (de_byRoute e !! da_RouteID a) eqn:Er; [done|]. intros [= <-].
    pose proof (Hm k e Ek) as He. assert (de_identity e = da_Identity a) as Hid.
    { apply durableIdentityKey_inj; [apply He|done|apply He|done|]. symmetry. exact (en_key _ _ _ _ He). }
    bools. apply Hput; try done. by left.
  - cbn [de_byRoute]. rewrite lookup_empty. intros [= <-].
    apply (Hput (mkEntry (da_Identity a) (da_EdgeProcessEpoch a) (da_MachineIdentityPublicKey a) (da_MachineIdentityThumbprint a) ∅)); cbn; try done. by right.
Qed.

Lemma collect_routes_ok node epoch now gens l m m' :
  entries_ok node epoch m → (∀ a, a ∈ l → typed_identity (da_Identity a)) →
  collect_routes node epoch now gens l m = inr m' →
  entries_ok node epoch m' ∧ (∀ b, b ∈ all_admissions m' ↔ b ∈ l ∨ b ∈ all_admissions m)
  ∧ ∀ a, a ∈ l → default 0 (gens !! assignment_key a) ≤ da_AssignmentGeneration a.
Proof.
  revert m. induction l as [|a l IH]; intros m Hm Ht; cbn.
  { intros [= <-]. split_and!; [done| |by intros a ?%elem_of_nil]. intros b. split; [by right|]. by intros [?%elem_of_nil|?]. }
  destruct (Durable_Validate _ _ _ a) eqn:Ev; [done|]. destruct (_ <? _) eqn:Eg; [done|].
  destruct (enter_route a m) as [e|m1] eqn:Ee; [done|].
  destruct (enter_route_ok node epoch now a m m1 Hm Ev (Ht a ltac:(by left)) Ee) as [Hm1 Hin].
  intros E. destruct (IH m1 Hm1 (λ b Hb, Ht b ltac:(by right)) E) as (H1 & H2 & H3). split_and!; [done| |].
  - intros b. rewrite H2, Hin, elem_of_cons. tauto.
  - intros b [->|Hb]%elem_of_cons; [by apply Z.ltb_ge in Eg|by apply H3].
Qed.

Lemma generations_max order k :
  (∀ a, a ∈ order → assignment_key a = k → da_AssignmentGeneration a ≤ default 0 (currentGenerations order !! k)).
Proof.
  unfold currentGenerations. enough (∀ m, default 0 (m !! k) ≤ default 0 (List.fold_left raise_generation order m !! k)
    ∧ ∀ a, a ∈ order → assignment_key a = k → da_AssignmentGeneration a ≤ default 0 (List.fold_left raise_generation order m !! k)) as Hgen.
  { apply (Hgen ∅). }
  induction order as [|a order IH]; intros m; cbn; [split; [lia|by intros a ?%elem_of_nil]|].
  assert (default 0 (m !! k) ≤ default 0 (raise_generation m a !! k)
          ∧ (assignment_key a = k → da_AssignmentGeneration a ≤ default 0 (raise_generation m a !! k))) as [Hr1 Hr2].
  { unfold raise_generation. destruct (_ <? _) eqn:E; bools.
    - destruct (decide (assignment_key a = k)) as [<-|Hk]; [rewrite lookup_insert_eq; change (default 0 (Some ?x)) with x; split; intros; lia|].
      rewrite lookup_insert_ne by done. split; [lia|done].
    - split; [lia|]. intros <-. lia. }
  destruct (IH (raise_generation m a)) as [H1 H2]. split; [lia|].
  intros b [->|Hb]%elem_of_cons Hk; [specialize (Hr2 Hk); lia|by apply H2].
Qed.

(** ** Runs *)

(** [Replace] with generations read from the registry in any order; its only caller is one
    worker, so no other [Replace] intervenes. *)
Inductive dreachable : DurableAdmissionRegistry → Prop :=
  | dreachable_new node epoch maximum r : NewDurableAdmissionRegistry node epoch maximum = inr r → dreachable r
  | dreachable_replace r order l now e r' :
      dreachable r → order ≡ₚ all_admissions (dr_byID r) → (∀ a, a ∈ l → typed_identity (da_Identity a)) →
      Durable_Replace (currentGenerations order) l now r = (e, r') → dreachable r'
  | dreachable_close r : dreachable r → dreachable (Durable_Close r).

Lemma Durable_Replace_cases gens l now r e r' :
  Durable_Replace gens l now r = (e, r') →
  r' = r ∧ e ≠ None
  ∨ ∃ next, collect_routes (dr_nodeID r) (dr_processEpoch r) now gens l ∅ = inr next ∧ dr_closed r = false ∧ e = None
            ∧ r' = r <| dr_byID := next |>.
Proof.
  unfold Durable_Replace. destruct (_ <? _); [intros [= <- <-]; by left|]. destruct (collect_routes _ _ _ _ _ _) as [x|next] eqn:E.
  { intros [= <- <-]. by left. }
  destruct (_ <? _); [intros [= <- <-]; by left|]. destruct (dr_closed r) eqn:Ec; intros [= <- <-]; [by left|]. right. by exists next.
Qed.

Lemma entries_ok_empty node epoch : entries_ok node epoch ∅.
Proof. intros k e He. by rewrite lookup_empty in He. Qed.

Definition dinv (r : DurableAdmissionRegistry) : Prop := entries_ok (dr_nodeID r) (dr_processEpoch r) (dr_byID r).

Lemma dreachable_inv r : dreachable r → dinv r.
Proof.
  induction 1 as [node epoch maximum r E|r order l now e r' _ IH _ Ht E|r _ IH].
  - unfold NewDurableAdmissionRegistry in E. repeat case_match; simplify_eq; apply entries_ok_empty.
  - apply Durable_Replace_cases in E as [[-> _]|(next & Ec & _ & _ & ->)]; [done|].
    by destruct (collect_routes_ok _ _ _ _ _ _ _ (entries_ok_empty _ _) Ht Ec).
  - apply entries_ok_empty.
Qed.

(** A successful [Replace] leaves exactly the given assignments in the registry, and none
    of them goes back behind the generation that the registry had for the same account,
    host and route; a failed one leaves the registry as it was. *)
Theorem durable_replace_exact r order l now e r' :
  dreachable r → order ≡ₚ all_admissions (dr_byID r) → (∀ a, a ∈ l → typed_identity (da_Identity a)) →
  Durable_Replace (currentGenerations order) l now r = (e, r') →
  match e with
  | Some _ => r' = r
  | None =>
      (∀ a, a ∈ all_admissions (dr_byID r') ↔ a ∈ l)
      ∧ ∀ a b, a ∈ all_admissions (dr_byID r) → b ∈ all_admissions (dr_byID r') →
          id_AccountID (da_Identity a) = id_AccountID (da_Identity b) → id_HostID (da_Identity a) = id_HostID (da_Identity b) →
          da_RouteID a = da_RouteID b → da_AssignmentGeneration a ≤ da_AssignmentGeneration b
  end.
Proof.
  intros D%dreachable_inv Hp Ht [[-> He]|(next & Ec & _ & -> & ->)]%Durable_Replace_cases; [by destruct e|].
  destruct (collect_routes_ok _ _ _ _ _ _ _ (entries_ok_empty _ _) Ht Ec) as (_ & Hin & Hg). cbn [dr_byID update].
  assert (∀ a, a ∈ all_admissions next ↔ a ∈ l) as Hl.
  { intros a. rewrite Hin. split; [|by left]. intros [?|(k & e & route & He & _)%all_admissions_in]; [done|]. by rewrite lookup_empty in He. }
  split; [exact Hl|]. intros a b Ha Hb%Hl Eac Eho Ero. specialize (Hg b Hb).
  assert (assignment_key a = assignment_key b) as Hk by (unfold assignment_key; by rewrite Eac, Eho, Ero).
  assert (a ∈ order) as Hao by (by rewrite Hp).
  pose proof (generations_max order (assignment_key b) a Hao Hk). lia.
Qed.

Lemma usable_spec now a :
  route_usable now a = true ↔
  ((da_State a != "staged") && (da_State a != "active") || negb (IsZero (da_ExpiresAt a)) && negb (After (da_ExpiresAt a) now)) = false.
Proof.
  unfold route_usable. destruct (bool_decide (da_State a = "staged")), (bool_decide (da_State a = "active")),
    (IsZero (da_ExpiresAt a)), (After (da_ExpiresAt a) now); done.
Qed.

(** A stream over a durable carrier is authorized exactly when the registry holds an
    assignment of that carrier identity to that route which is staged or active and has
    not expired: joining the fields of an identity into one key mixes up no two carriers. *)
Theorem durable_authorize_exact r now i open :
  dreachable r → typed_identity i →
  Durable_AuthorizeStream None now i open r = None ↔
  dr_closed r = false ∧ Identity_Validate i = None ∧ matches i open = true
  ∧ ∃ a, a ∈ all_admissions (dr_byID r) ∧ da_Identity a = i ∧ da_RouteID a = so_RouteID open ∧ route_usable now a = true.
Proof.
  intros D%dreachable_inv Ht. unfold Durable_AuthorizeStream. destruct (Identity_Validate i) eqn:Ei; cbn [failed orb]; [by split; [|intros (_ & ? & _)]|].
  destruct (matches i open); cbn [negb]; [|by split; [|intros (_ & _ & ? & _)]].
  destruct (dr_closed r); [by split; [|intros (? & _)]|].
  assert (∀ a, a ∈ all_admissions (dr_byID r) → da_Identity a = i →
    ∃ e, dr_byID r !! durableIdentityKey i = Some e ∧ de_byRoute e !! da_RouteID a = Some a) as Hfind.
  { intros a (k & e & route & He & Hr)%all_admissions_in Hid. destruct (D k e He) as [E1 E2 E3].
    destruct (E3 route a Hr) as (F1 & F2 & _). exists e. rewrite <- Hid, F2, <- E1, F1. done. }
  destruct (dr_byID r !! durableIdentityKey i) as [e|] eqn:Ee.
  2: { split; [done|]. intros (_ & _ & _ & a & Ha & Hid & _). by destruct (Hfind a Ha Hid) as (? & ? & _). }
  destruct (D _ e Ee) as [E1 [E2 E2'] E3]. assert (i = de_identity e) as Hie by (by apply durableIdentityKey_inj).
  destruct (de_byRoute e !! so_RouteID open) as [a|] eqn:Ea.
  2: { split; [done|]. intros (_ & _ & _ & a & Ha & Hid & Hr & _). destruct (Hfind a Ha Hid) as (e' & [= <-] & He'). congruence. }
  destruct (E3 _ a Ea) as (F1 & F2 & _).
  assert ((if (da_State a != "staged") && (da_State a != "active") then Some ErrDurableAdmissionMissing
           else if negb (IsZero (da_ExpiresAt a)) && negb (After (da_ExpiresAt a) now) then Some ErrDurableAdmissionExpired else None) = None
          ↔ route_usable now a = true) as ->.
  { rewrite usable_spec. destruct (_ && _); [done|]. by destruct (_ && _). }
  split.
  - intros Hu. split_and!; try done. exists a. split_and!; try done; [|congruence].
    apply all_admissions_in. by exists (durableIdentityKey i), e, (so_RouteID open).
  - intros (_ & _ & _ & b & Hb & Hid & Hr & Hu). destruct (Hfind b Hb Hid) as (e' & [= <-] & He'). congruence.
Qed.

(** ** Peers *)

Definition found_ids (found : option Identity) : list Identity := match found with Some i => [i] | None => [] end.

Lemma routes_loop_verdict uris now order found :
  routes_loop uris now order found
  = verdict ErrDurableAdmissionConflict (found_ids found ++ (da_Identity <$> List.filter (durable_matches uris now) order)).
Proof.
  revert found. induction order as [|a order IH]; intros found; cbn [routes_loop List.filter]; [by destruct found|].
  destruct (durable_matches uris now a); cbn [negb]; [|by rewrite IH].
  destruct found as [i|]; [|by rewrite IH]. cbn. destruct (decide (i = da_Identity a)) as [->|Hne].
  - rewrite bool_decide_eq_true_2 by done. cbn. by rewrite IH.
  - by rewrite bool_decide_eq_false_2 by done.
Qed.

Lemma verdict_app clash ids ids' :
  verdict clash (ids ++ ids') = match verdict clash ids with inl e => inl e | inr found => verdict clash (found_ids found ++ ids') end.
Proof.
  destruct ids as [|i ids]; [done|]. cbn. rewrite forallb_app. by destruct (forallb _ ids).
Qed.

(** The entries of the peer's key, with the routes they were visited in. *)
Definition peer_routes (encoded thumbprint : string) (order : list (durableAdmissionEntry * list DurableAdmission)) : list DurableAdmission :=
  List.filter (λ '(e, _), (de_publicKey e == encoded) && (de_thumbprint e == thumbprint)) order ≫= snd.

Lemma entries_loop_verdict encoded thumbprint uris now order found :
  entries_loop encoded thumbprint uris now order found
  = verdict ErrDurableAdmissionConflict
      (found_ids found ++ (da_Identity <$> List.filter (durable_matches uris now) (peer_routes encoded thumbprint order))).
Proof.
  revert found. induction order as [|[e routes] order IH]; intros found; cbn [entries_loop]; [by destruct found|].
  unfold peer_routes. cbn [List.filter].
  destruct (decide (de_publicKey e = encoded)) as [E1|E1], (decide (de_thumbprint e = thumbprint)) as [E2|E2];
    rewrite ?(bool_decide_eq_true_2 _ E1), ?(bool_decide_eq_true_2 _ E2), ?(bool_decide_eq_false_2 _ E1), ?(bool_decide_eq_false_2 _ E2);
    cbn [negb orb andb]; [|apply IH..].
  cbn [mbind list_bind snd]. rewrite List.filter_app, fmap_app, app_assoc, verdict_app, routes_loop_verdict.
  destruct (verdict _ _) as [x|f]; [done|]. apply IH.
Qed.

(** The order in which the two nested loops visit a registry. *)
Definition visits (r : DurableAdmissionRegistry) (order : list (durableAdmissionEntry * list DurableAdmission)) : Prop :=
  order.*1 ≡ₚ (map_to_list (dr_byID r)).*2 ∧ ∀ e routes, (e, routes) ∈ order → routes ≡ₚ routes_of e.

Lemma peer_routes_in r order encoded thumbprint a :
  dinv r → visits r order →
  a ∈ peer_routes encoded thumbprint order ↔
  a ∈ all_admissions (dr_byID r) ∧ da_MachineIdentityPublicKey a = encoded ∧ da_MachineIdentityThumbprint a = thumbprint.
Proof.
  intros D [Hv Hr]. unfold peer_routes. rewrite list_elem_of_bind, all_admissions_in. split.
  - intros ([e routes] & Ha & [He Hf]%list_elem_of_In%filter_In). apply list_elem_of_In in He. cbn in Ha.
    rewrite (Hr e routes He) in Ha. apply list_elem_of_fmap in Ha as ([route x] & -> & Hx%elem_of_map_to_list).
    assert (e ∈ order.*1) as Hin by (apply list_elem_of_fmap; by exists (e, routes)). rewrite Hv in Hin.
    apply list_elem_of_fmap in Hin as ([k e'] & -> & Hk%elem_of_map_to_list). cbn in *.
    destruct (en_routes _ _ _ _ (D k e' Hk) route x Hx) as (_ & _ & _ & F1 & F2 & _). bools.
    split; [by exists k, e', route|]. split; congruence.
  - intros [(k & e & route & Hk & Hx) [Hp Ht]]. destruct (en_routes _ _ _ _ (D k e Hk) route a Hx) as (_ & _ & _ & F1 & F2 & _).
    assert (e ∈ order.*1) as Hin.
    { rewrite Hv. apply list_elem_of_fmap. exists (k, e). split; [done|]. by apply elem_of_map_to_list. }
    apply list_elem_of_fmap in Hin as ([e' routes] & -> & Ho). exists (e', routes). split.
    + cbn. rewrite (Hr e' routes Ho). apply list_elem_of_fmap. exists (route, a). split; [done|]. by apply elem_of_map_to_list.
    + apply list_elem_of_In, filter_In. split; [by apply list_elem_of_In|]. cbn in *. by rewrite !bool_decide_eq_true_2 by congruence.
Qed.

Lemma typed_admission r a : dinv r → a ∈ all_admissions (dr_byID r) → typed_identity (da_Identity a).
Proof.
  intros D (k & e & route & Hk & Hx)%all_admissions_in. destruct (D k e Hk) as [_ [_ E2] E3].
  destruct (E3 route a Hx) as (_ & -> & _). done.
Qed.

(** The carrier identity of a TLS peer does not depend on the order in which the two maps
    are visited: a peer is bound to an identity exactly if a staged or active, unexpired
    assignment of that identity names the peer's key and the certificate carries its
    carrier name, unless two bindings have the same SHA-256 digest. *)
Theorem durable_peer_bound r order peers now k uris thumbprint i :
  dreachable r → visits r order → dr_closed r = false → peer_key peers = Some (k, uris) → IdentityThumbprint k = inr thumbprint →
  (∀ a b, a ∈ all_admissions (dr_byID r) → b ∈ all_admissions (dr_byID r) →
     let ba := admission_binding (da_Identity a) (da_EdgeProcessEpoch a) in
     let bb := admission_binding (da_Identity b) (da_EdgeProcessEpoch b) in
     sha256_sum (CarrierBinding_encoded ba) = sha256_sum (CarrierBinding_encoded bb) → CarrierBinding_encoded ba = CarrierBinding_encoded bb) →
  Durable_PeerBinding order peers now r = inr i ↔
  ∃ a, a ∈ all_admissions (dr_byID r) ∧ da_Identity a = i ∧ route_usable now a = true
    ∧ da_MachineIdentityPublicKey a = EncodeToString k ∧ da_MachineIdentityThumbprint a = thumbprint
    ∧ MatchCarrierIdentityURN sha256_sum uris (admission_binding i (da_EdgeProcessEpoch a)) = None.
Proof.
  intros D%dreachable_inv Hv Hcl Hk Ht Hcol. unfold Durable_PeerBinding. rewrite Hk, Ht, Hcl, entries_loop_verdict. cbn [found_ids app].
  set (ids := da_Identity <$> _).
  assert (∀ a, durable_matches uris now a = true ↔ route_usable now a = true
    ∧ MatchCarrierIdentityURN sha256_sum uris (admission_binding (da_Identity a) (da_EdgeProcessEpoch a)) = None) as Hm.
  { intros a. unfold durable_matches. rewrite andb_true_iff, !negb_true_iff, failed_false. by rewrite usable_spec. }
  assert (∀ j, j ∈ ids ↔ ∃ a, a ∈ all_admissions (dr_byID r) ∧ da_Identity a = j ∧ route_usable now a = true
    ∧ da_MachineIdentityPublicKey a = EncodeToString k ∧ da_MachineIdentityThumbprint a = thumbprint
    ∧ MatchCarrierIdentityURN sha256_sum uris (admission_binding j (da_EdgeProcessEpoch a)) = None) as Hids.
  { intros j. unfold ids. rewrite list_elem_of_fmap. split.
    - intros (a & -> & [Ha Hma]%list_elem_of_In%filter_In). apply list_elem_of_In, (peer_routes_in r) in Ha as (Ha & Hp & Hth); [|done..].
      apply Hm in Hma as [Hu Hn]. exists a. done.
    - intros (a & Ha & <- & Hu & Hp & Hth & Hn). exists a. split; [done|]. apply list_elem_of_In, filter_In. split; [|by apply Hm].
      apply list_elem_of_In, (peer_routes_in r); done. }
  split.
  - destruct (verdict _ ids) as [x|[j|]] eqn:Ev; [done| |done]. intros [= ->]. apply verdict_inv in Ev as [Hin _]. by apply Hids.
  - intros Hex%Hids. rewrite (verdict_all _ ids i Hex); [done|]. intros j (b & Hb & <- & _ & _ & _ & Hn)%Hids.
    apply Hids in Hex as (a & Ha & <- & _ & _ & _ & Hn').
    eapply urn_identity; [by eapply typed_admission|by eapply typed_admission|by apply Hcol|done|done].
Qed.

(** A composed authority lets a stream through exactly if one of its members does. *)
Theorem any_authorizer_exact authorizers i open :
  AnyAuthorizer authorizers i open = None ↔ ∃ f, Some f ∈ authorizers ∧ f i open = None.
Proof.
  unfold AnyAuthorizer.
  enough (∀ last, any_authorizer authorizers i open last = None ↔ ∃ f, Some f ∈ authorizers ∧ f i open = None) as Hgen by apply Hgen.
  induction authorizers as [|[f|] l IH]; intros last; cbn.
  - split; [done|]. by intros (f & ?%elem_of_nil & _).
  - destruct (f i open) eqn:E.
    + rewrite IH. split; intros (g & Hg & Eg); exists g; (split; [|done]); [by right|]. apply elem_of_cons in Hg as [[= ->]|Hg]; [congruence|done].
    + split; [|done]. intros _. exists f. split; [by left|done].
  - rewrite IH. split; intros (g & Hg & Eg); exists g; (split; [|done]); [by right|]. by apply elem_of_cons in Hg as [?|Hg].
Qed.
End Registry.

(** ** A concrete edge *)

Module Durables.
Import Previews.

#[local] Existing Instance sample_rotation.

Definition thumb0 : string := match IdentityThumbprint machine with inr t => t | inl _ => "" end.

Definition assignment (route state : string) (generation : Z) : DurableAdmission :=
  mkDurable identity0 "node" "epoch-0001" "assignment" route generation 1 hash0 (EncodeToString machine) thumb0 state 0.

Definition durable0 : DurableAdmissionRegistry :=
  match NewDurableAdmissionRegistry "node" "epoch-0001" 0 with inr r => r | inl _ => mkDurableRegistry "" "" 0 true ∅ end.

Definition assignments : list DurableAdmission := [assignment "route" "active" 4; assignment "old" "draining" 2].
Definition durable1 : DurableAdmissionRegistry := (Durable_Replace (currentGenerations []) assignments 5 durable0).2.

Lemma assignments_typed a : a ∈ assignments → typed_identity (da_Identity a).
Proof. intros Ha. repeat (apply elem_of_cons in Ha as [->|Ha]; [vm_compute; intuition congruence|]). by apply elem_of_nil in Ha. Qed.

Lemma durable0_reachable : dreachable durable0.
Proof. apply (dreachable_new "node" "epoch-0001" 0). vm_compute. reflexivity. Qed.

Lemma durable1_reachable : dreachable durable1.
Proof.
  refine (dreachable_replace durable0 [] assignments 5 None durable1 durable0_reachable _ assignments_typed _).
  - vm_compute. constructor.
  - unfold durable1. destruct (Durable_Replace (currentGenerations []) assignments 5 durable0) as [e r] eqn:E. cbn.
    assert (e = None) as -> by (vm_compute in E; congruence). done.
Qed.

Lemma durable_authorize_exact_witness :
  ∃ a, a ∈ all_admissions (dr_byID durable1) ∧ da_Identity a = identity0 ∧ da_RouteID a = "route" ∧ route_usable 9 a = true.
Proof.
  assert (Durable_AuthorizeStream None 9 identity0 open0 durable1 = None) as E by (vm_compute; reflexivity).
  assert (typed_identity identity0) as T by (vm_compute; intuition congruence).
  exact (proj2 (proj2 (proj2 (proj1 (durable_authorize_exact durable1 9 identity0 open0 durable1_reachable T) E)))).
Defined.

Lemma durable_replace_exact_witness :
  assignment "route" "active" 4 ∈ all_admissions (dr_byID (Durable_Replace (currentGenerations (all_admissions (dr_byID durable1))) assignments 6 durable1).2).
Proof.
  destruct (Durable_Replace (currentGenerations (all_admissions (dr_byID durable1))) assignments 6 durable1) as [e r] eqn:E.
  assert (e = None) as En.
  { assert ((Durable_Replace (currentGenerations (all_admissions (dr_byID durable1))) assignments 6 durable1).1 = None) as E1 by (vm_compute; reflexivity).
    rewrite E in E1. exact E1. }
  pose proof (durable_replace_exact durable1 _ assignments 6 e r durable1_reachable (Permutation_refl _) assignments_typed E) as T.
  rewrite En in T. apply (proj1 T). left.
Defined.

Definition order1 : list (durableAdmissionEntry * list DurableAdmission) :=
  (λ '(_, e), (e, routes_of e)) <$> map_to_list (dr_byID durable1).

Lemma order1_visits : visits durable1 order1.
Proof.
  unfold visits, order1. split.
  - rewrite <- list_fmap_compose. apply reflexive_eq, list_fmap_ext. by intros _ [k e] _.
  - intros e routes ([k e'] & [= -> ->] & _)%list_elem_of_fmap. done.
Qed.

Lemma one_carrier a : a ∈ all_admissions (dr_byID durable1) → da_Identity a = identity0 ∧ da_EdgeProcessEpoch a = "epoch-0001".
Proof.
  assert (forallb (λ a, (da_Identity a == identity0) && (da_EdgeProcessEpoch a == "epoch-0001")) (all_admissions (dr_byID durable1)) = true) as Hf
    by (vm_compute; reflexivity).
  rewrite forallb_forall in Hf. intros Ha%list_elem_of_In%Hf. apply andb_true_iff in Ha as [H1 H2].
  split; [exact (bool_decide_eq_true_1 _ H1)|exact (bool_decide_eq_true_1 _ H2)].
Qed.

Lemma durable_peer_bound_witness :
  Durable_PeerBinding order1 [Some (mkCertificate (Some machine) [Some uri0])] 9 durable1 = inr identity0.
Proof.
  apply (durable_peer_bound durable1 order1 [Some (mkCertificate (Some machine) [Some uri0])] 9 machine [Some uri0] thumb0 identity0
           durable1_reachable order1_visits).
  - vm_compute. reflexivity.
  - vm_compute. reflexivity.
  - vm_compute. reflexivity.
  - intros a b Ha Hb ba bb _. subst ba bb. destruct (one_carrier a Ha) as [-> ->], (one_carrier b Hb) as [-> ->]. reflexivity.
  - assert (all_admissions (dr_byID durable1) !! 1%nat = Some (assignment "route" "active" 4)) as Ea by (vm_compute; reflexivity).
    exists (assignment "route" "active" 4). split; [exact (list_elem_of_lookup_2 _ _ _ Ea)|].
    split; [reflexivity|]. split; [reflexivity|]. split; [reflexivity|]. split; [reflexivity|]. vm_compute. reflexivity.
Defined.
End Durables.
End DurableAdmissionProofs.
