(* ===== verification/TLSCert.v ===== *)
(** * TLS certificate registry

    Models [internal/tlscert/registry.go]: certificates of an edge are staged, marked ready,
    activated and retired or revoked under bindings that carry the generations of the
    domain, the certificate and the edge assignment; the active certificate of a host name
    is served to TLS clients.  Every method holds the lock and is one function; the clock
    reading is an argument.  An entry is reached only through the map, so entries are
    values; [e_material] is [None] once the certificate was wiped.

    Parsing of certificates and keys is the interface [X509Lib]. *)
From S2P Require Import Prelude Go Strings Protocol Route PreviewAdmission.

(** A parsed leaf certificate. *)
Record leaf := mkLeaf {
  lf_Raw : bytes;
  lf_NotBefore : Time;
  lf_NotAfter : Time;
  lf_VerifyHostname : string → option err
}.

Class X509Lib := {
  x509_sha256 : bytes → bytes;
  X509KeyPair : bytes → bytes → option (list bytes);
  ParseCertificate : bytes → option leaf
}.

Module TLSCert.

Definition ErrInvalid : err := EPlain "invalid TLS certificate binding".
Definition ErrCertificateInvalid : err := EPlain "invalid TLS certificate bundle".
Definition ErrGenerationConflict : err := EPlain "TLS certificate generation conflict".
Definition ErrHostnameConflict : err := EPlain "TLS certificate hostname conflict".
Definition ErrNotReady : err := EPlain "TLS certificate is not ready".
Definition ErrReplacementNotReady : err := EPlain "replacement TLS certificate is not ready".
Definition ErrCertificateExpired : err := EPlain "TLS certificate is expired".
Definition ErrCertificateMissing : err := EPlain "TLS certificate is not available".
Definition ErrClosed : err := EPlain "TLS certificate registry is closed".

Definition defaultMaximumLifetime : Duration := 90 * 24 * Hour.
Definition maxBundleBytes : Z := 16777216.

Inductive State := StateStaged | StateReady | StateActive | StateRetired | StateRevoked | StateExpired | StateFailed.
#[export] Instance State_eq_dec : EqDecision State.
Proof. solve_decision. Defined.

Definition TargetDurableRoute := "durable_route".
Definition TargetPreviewLease := "preview_lease".
Definition TargetPlatformWildcard := "platform_wildcard".

(** ** Names *)

Definition validIdentifier (value : string) : bool :=
  negb ((len value <? 3) || (128 <? len value)) && forallb (λ b, is_alnum b || one_of [95; 45; 46] b) (sbytes value).

Definition validEpoch (value : string) : bool :=
  negb ((len value <? 8) || (128 <? len value)) && forallb (λ b, is_alnum b || one_of [95; 45] b) (sbytes value).

(** [dnsNamePattern]: at least two labels of lower-case letters, digits and inner hyphens. *)
Definition dns_label (label : string) : bool :=
  match sbytes label with
  | [] => false
  | c :: _ => (len label <=? 63) && forallb (λ b, is_lower b || is_digit b || (byte_to_Z b =? 45)) (sbytes label)
              && negb (byte_to_Z c =? 45) && negb (byte_to_Z (List.last (sbytes label) x00) =? 45)
  end.

Definition dnsName (s : string) : bool := (1 <? Z.of_nat (length (Split s 46))) && forallb dns_label (Split s 46).

Definition join_dots (labels : list string) : string :=
  match labels with [] => "" | l :: labels => List.fold_left (λ acc q, acc +:+ "." +:+ q) labels l end.

Section Names.
Context `{Route.TextLib} `{FoldLib}.

Definition normalizeHostname (raw : string) : option (string * bool) :=
  let lower := ToLower Route.unicode_lower in
  let host := lower (TrimSuffix (TrimSpace raw) ".") in
  if (host == "") || (253 <? len host) || ContainsAny host [47; 58; 64; 63; 35; 13; 10; 0] then None
  else
    let wildcard := HasPrefix host "*." in
    let base := if wildcard then TrimPrefix host "*." else host in
    match Route.ToASCII base with
    | None => None
    | Some ascii =>
        let base := lower (TrimSuffix ascii ".") in
        if ContainsByte base 42 || Route.isIP base || negb (dnsName base) then None
        else if wildcard && (CountByte base 46 <? 1) then None
        else Some (if wildcard then ("*." +:+ base, true) else (base, false))
    end.

Definition wildcardMatches (pattern host : string) : bool :=
  if negb (HasPrefix pattern "*.") then false
  else
    let patternLabels := Split (TrimPrefix pattern "*.") 46 in
    let hostLabels := Split host 46 in
    (length hostLabels =? length patternLabels + 1)%nat
    && EqualFold (join_dots (tail hostLabels)) (join_dots patternLabels).
End Names.

(** ** Bindings *)

Record CertificateTarget := mkTarget {
  tg_Kind : string;
  tg_DomainID : string;
  tg_AccountID : string;
  tg_TunnelID : string;
  tg_RouteID : string;
  tg_PreviewID : string;
  tg_PreviewGeneration : Z;
  tg_PreviewState : string;
  tg_PreviewExpiresAt : Time
}.

Definition normalizedKind (t : CertificateTarget) : string :=
  if tg_Kind t != "" then tg_Kind t
  else if (tg_PreviewID t != "") || negb (tg_PreviewGeneration t =? 0) then TargetPreviewLease else TargetDurableRoute.

Definition invalid_binding : option err := Some (EWrap "" ErrInvalid).

Definition no_preview (t : CertificateTarget) : bool :=
  (tg_PreviewID t == "") && (tg_PreviewGeneration t =? 0) && (tg_PreviewState t == "") && IsZero (tg_PreviewExpiresAt t).

Definition Target_Validate (t : CertificateTarget) : option err :=
  if negb (validIdentifier (tg_DomainID t)) || negb (validIdentifier (tg_AccountID t)) then invalid_binding
  else if normalizedKind t == TargetDurableRoute then
    if negb (validIdentifier (tg_TunnelID t)) then invalid_binding
    else if (tg_Kind t != "") && negb (validIdentifier (tg_RouteID t)) then invalid_binding
    else if negb (no_preview t) then invalid_binding else None
  else if normalizedKind t == TargetPreviewLease then
    if (tg_TunnelID t != "") || (tg_RouteID t != "") || negb (validIdentifier (tg_PreviewID t)) || (tg_PreviewGeneration t =? 0)
       || (tg_PreviewState t != "active") || IsZero (tg_PreviewExpiresAt t)
    then invalid_binding else None
  else if normalizedKind t == TargetPlatformWildcard then
    if (tg_TunnelID t != "") || (tg_RouteID t != "") || negb (no_preview t) then invalid_binding else None
  else invalid_binding.

Definition join_nul (parts : list string) : string :=
  match parts with [] => "" | p :: parts => List.fold_left (λ acc q, acc +:+ String Ascii.zero q) parts p end.

Definition Target_Key (t : CertificateTarget) : string :=
  join_nul [normalizedKind t; tg_DomainID t; tg_AccountID t; tg_TunnelID t; tg_RouteID t; tg_PreviewID t; Itoa (tg_PreviewGeneration t)].

Record Binding := mkBinding {
  bd_AccountID : string;
  bd_TunnelID : string;
  bd_DomainID : string;
  bd_Hostname : string;
  bd_TargetKind : string;
  bd_RouteID : string;
  bd_PreviewID : string;
  bd_PreviewGeneration : Z;
  bd_PreviewState : string;
  bd_PreviewExpiresAt : Time;
  bd_OnDemandLeaf : bool;
  bd_DomainGeneration : Z;
  bd_CertificateGeneration : Z;
  bd_EdgeNodeID : string;
  bd_EdgeProcessEpoch : string;
  bd_AssignmentGeneration : Z
}.
#[export] Instance Binding_eta : Eta Binding := λ r,
  mkBinding (bd_AccountID r) (bd_TunnelID r) (bd_DomainID r) (bd_Hostname r) (bd_TargetKind r) (bd_RouteID r)
    (bd_PreviewID r) (bd_PreviewGeneration r) (bd_PreviewState r) (bd_PreviewExpiresAt r) (bd_OnDemandLeaf r)
    (bd_DomainGeneration r) (bd_CertificateGeneration r) (bd_EdgeNodeID r) (bd_EdgeProcessEpoch r) (bd_AssignmentGeneration r).
#[export] Instance Binding_eq_dec : EqDecision Binding.
Proof. solve_decision. Defined.

Definition Target (b : Binding) : CertificateTarget :=
  mkTarget (bd_TargetKind b) (bd_DomainID b) (bd_AccountID b) (bd_TunnelID b) (bd_RouteID b) (bd_PreviewID b)
    (bd_PreviewGeneration b) (bd_PreviewState b) (bd_PreviewExpiresAt b).

Definition is_preview (b : Binding) : bool := normalizedKind (Target b) == TargetPreviewLease.

Definition bool_string (b : bool) : string := if b then "true" else "false".

Definition bindingKey (b : Binding) : string :=
  join_nul [Target_Key (Target b); bd_Hostname b; bool_string (bd_OnDemandLeaf b); bd_EdgeNodeID b; bd_EdgeProcessEpoch b;
            Itoa (bd_DomainGeneration b); Itoa (bd_CertificateGeneration b); Itoa (bd_AssignmentGeneration b)].

Definition hostKey (host : string) (wildcard : bool) : string := (if wildcard then "w:" else "e:") +:+ host.

Section Bindings.
Context `{Route.TextLib}.

Definition Binding_validate (b : Binding) : err + string * bool :=
  let invalid := EWrap "" ErrInvalid in
  match Target_Validate (Target b) with
  | Some e => inl e
  | None =>
      if negb (validIdentifier (bd_EdgeNodeID b)) || negb (validEpoch (bd_EdgeProcessEpoch b)) then inl invalid
      else if (bd_DomainGeneration b =? 0) || (bd_CertificateGeneration b =? 0) || (bd_AssignmentGeneration b =? 0) then inl invalid
      else match normalizeHostname (bd_Hostname b) with
      | None => inl invalid
      | Some (host, wildcard) =>
          if bd_Hostname b != host then inl invalid
          else if bd_OnDemandLeaf b && negb wildcard then inl invalid
          else if (normalizedKind (Target b) == TargetPlatformWildcard) && (negb wildcard || bd_OnDemandLeaf b) then inl invalid
          else inr (host, wildcard)
      end
  end.
End Bindings.

(** ** Bundles *)

Record Bundle := mkBundle {
  bu_CertificatePEM : bytes;
  bu_PrivateKeyPEM : bytes;
  bu_Issuer : string;
  bu_NotBefore : Time;
  bu_NotAfter : Time
}.

Section Bundles.
Context `{X509Lib}.

Definition validateBundle (bundle : Bundle) (hostname : string) (wildcard : bool) (now : Time) (maxLifetime : Duration)
    : err + leaf * bytes :=
  let invalid := EWrap "" ErrCertificateInvalid in
  if (blen (bu_CertificatePEM bundle) =? 0) || (maxBundleBytes <? blen (bu_CertificatePEM bundle))
     || (blen (bu_PrivateKeyPEM bundle) =? 0) || (maxBundleBytes <? blen (bu_PrivateKeyPEM bundle))
     || (TrimSpace (bu_Issuer bundle) == "")
  then inl invalid
  else match X509KeyPair (bu_CertificatePEM bundle) (bu_PrivateKeyPEM bundle) with
  | None | Some [] => inl invalid
  | Some (first :: _) =>
      match ParseCertificate first with
      | None => inl invalid
      | Some leaf =>
          if negb (After (lf_NotAfter leaf) now) || After (lf_NotBefore leaf) (now + 10 * Minute)
             || (0 <? maxLifetime) && (maxLifetime <? Sub (lf_NotAfter leaf) now)
          then inl invalid
          else if failed (lf_VerifyHostname leaf (if wildcard then "paperboat." +:+ TrimPrefix hostname "*." else hostname))
          then inl invalid
          else if negb (IsZero (bu_NotBefore bundle)) && negb (bu_NotBefore bundle =? lf_NotBefore leaf)
                  || negb (IsZero (bu_NotAfter bundle)) && negb (bu_NotAfter bundle =? lf_NotAfter leaf)
          then inl invalid
          else inr (leaf, x509_sha256 (lf_Raw leaf))
      end
  end.
End Bundles.

(** ** The registry *)

Record entry := mkEntry {
  e_binding : Binding;
  e_hostname : string;
  e_wildcard : bool;
  e_state : State;
  e_fingerprint : bytes;
  e_issuer : string;
  e_notBefore : Time;
  e_notAfter : Time;
  e_activatedAt : Time;
  e_retiredAt : Time;
  e_revokedAt : Time;
  e_material : option leaf
}.
#[export] Instance entry_eta : Eta entry := λ r,
  mkEntry (e_binding r) (e_hostname r) (e_wildcard r) (e_state r) (e_fingerprint r) (e_issuer r) (e_notBefore r)
    (e_notAfter r) (e_activatedAt r) (e_retiredAt r) (e_revokedAt r) (e_material r).

Record Registry := mkRegistry {
  rg_maxLife : Duration;
  rg_closed : bool;
  rg_entries : gmap string entry;
  rg_active : gmap string string
}.
#[export] Instance Registry_eta : Eta Registry := λ r,
  mkRegistry (rg_maxLife r) (rg_closed r) (rg_entries r) (rg_active r).

Definition NewRegistry (maximumCertificateLife : Duration) : Registry :=
  let maxLife := if (maximumCertificateLife <=? 0) || (defaultMaximumLifetime <? maximumCertificateLife)
                 then defaultMaximumLifetime else maximumCertificateLife in
  mkRegistry maxLife false ∅ ∅.

Definition entry_host (e : entry) : string := hostKey (e_hostname e) (e_wildcard e).
Definition wipe (e : entry) : entry := e <| e_material := None |>.
Definition expire (e : entry) : entry := wipe (e <| e_state := StateExpired |>).

(** The certificate or the preview lease is over. *)
Definition past (now : Time) (e : entry) : bool :=
  negb (After (e_notAfter e) now) || is_preview (e_binding e) && negb (After (bd_PreviewExpiresAt (e_binding e)) now).

(** Which active entries [expireLocked] ends. *)
Definition expiring (now : Time) (e : entry) : bool := (e_state e == StateActive) && past now e.

Definition expireLocked (now : Time) (r : Registry) : Registry :=
  let gone := List.filter (expiring now) (map_to_list (rg_entries r)).*2 in
  r <| rg_entries := (λ e, if expiring now e then expire e else e) <$> rg_entries r |>
    <| rg_active := List.fold_left (λ active e, delete (entry_host e) active) gone (rg_active r) |>.

Definition currentDomainActiveLocked (domainID hostname : string) (wildcard : bool) (r : Registry) : option entry :=
  match rg_active r !! hostKey hostname wildcard with
  | None => None
  | Some key =>
      match rg_entries r !! key with
      | Some e => if (e_state e != StateActive) || (bd_DomainID (e_binding e) != domainID) then None else Some e
      | None => None
      end
  end.

Definition zero_fingerprint : bytes := replicate 32 x00.

Definition fingerprint_differs (expected : option bytes) (fingerprint : bytes) : bool :=
  match expected with Some x => (x != zero_fingerprint) && (x != fingerprint) | None => false end.

(** The generation fences between the active entry of a host and a candidate, shared by
    [stage] and [activate]. *)
Definition fenced_off (current : entry) (binding : Binding) (fingerprint : bytes) : bool :=
  let cb := e_binding current in
  (bd_DomainGeneration binding <? bd_DomainGeneration cb)
  || (bd_CertificateGeneration binding <? bd_CertificateGeneration cb)
  || (bd_DomainGeneration binding =? bd_DomainGeneration cb) && (bd_AssignmentGeneration binding <? bd_AssignmentGeneration cb)
  || (bd_DomainGeneration binding =? bd_DomainGeneration cb) && (bd_CertificateGeneration binding =? bd_CertificateGeneration cb)
     && (e_fingerprint current != fingerprint)
  || (bd_CertificateGeneration binding =? bd_CertificateGeneration cb) && (bd_EdgeNodeID cb == bd_EdgeNodeID binding)
     && (bd_EdgeProcessEpoch cb == bd_EdgeProcessEpoch binding)
     && (negb (is_preview binding) || (Target_Key (Target cb) == Target_Key (Target binding)) || (e_fingerprint current != fingerprint)).

(** Candidates of the same host that a later certificate generation replaces. *)
Definition superseded (binding : Binding) (host : string) (wildcard : bool) (old : entry) : bool :=
  (bd_DomainID (e_binding old) == bd_DomainID binding) && (e_hostname old == host) && Bool.eqb (e_wildcard old) wildcard
  && (bd_EdgeNodeID (e_binding old) == bd_EdgeNodeID binding) && (bd_EdgeProcessEpoch (e_binding old) == bd_EdgeProcessEpoch binding)
  && (e_state old != StateActive) && (e_state old != StateRetired) && (e_state old != StateRevoked)
  && (bd_CertificateGeneration (e_binding old) <? bd_CertificateGeneration binding).

Definition host_taken (binding : Binding) (host : string) (r : Registry) : bool :=
  existsb (λ '(k, e), (e_state e == StateActive) && (e_hostname e == host) && (k != bindingKey binding)
                      && (bd_DomainID (e_binding e) != bd_DomainID binding)) (map_to_list (rg_entries r)).

Section Lifecycle.
Context `{X509Lib} `{Route.TextLib}.

Definition stage_locked (binding : Binding) (host : string) (wildcard : bool) (issuer : string) (lf : leaf) (fingerprint : bytes)
    (now : Time) (r : Registry) : option err * Registry :=
  if rg_closed r then (Some ErrClosed, r)
  else
    let r := expireLocked now r in
    let key := bindingKey binding in
    if host_taken binding host r then (Some (EWrap "" ErrHostnameConflict), r)
    else match rg_entries r !! key with
    | Some existing =>
        if e_binding existing != binding then (Some ErrGenerationConflict, r)
        else match e_state existing with
        | StateActive | StateStaged | StateReady =>
            if (e_fingerprint existing == fingerprint) && (e_notAfter existing =? lf_NotAfter lf) then (None, r)
            else (Some ErrGenerationConflict, r)
        | _ => (Some ErrGenerationConflict, r)
        end
    | None =>
        if match currentDomainActiveLocked (bd_DomainID binding) host wildcard r with
           | Some current => fenced_off current binding fingerprint
           | None => false
           end
        then (Some ErrGenerationConflict, r)
        else
          let kept := filter (λ kv : string * entry, superseded binding host wildcard kv.2 = false) (rg_entries r) in
          let e := mkEntry binding host wildcard StateStaged fingerprint issuer (lf_NotBefore lf) (lf_NotAfter lf) 0 0 0 (Some lf) in
          (None, r <| rg_entries := <[key := e]> kept |>)
    end.

Definition stage (ctxErr : option err) (binding : Binding) (bundle : Bundle) (expected : option bytes) (now : Time)
    (r : Registry) : option err * Registry :=
  match ctxErr, Binding_validate binding with
  | Some e, _ => (Some e, r)
  | None, inl e => (Some e, r)
  | None, inr (host, wildcard) =>
      if is_preview binding && negb (After (bd_PreviewExpiresAt binding) now) then (Some ErrCertificateExpired, r)
      else match validateBundle bundle host wildcard now (rg_maxLife r) with
      | inl e => (Some e, r)
      | inr (lf, fingerprint) =>
          if fingerprint_differs expected fingerprint then (Some (EWrap "" ErrGenerationConflict), r)
          else stage_locked binding host wildcard (bu_Issuer bundle) lf fingerprint now r
      end
  end.

(** The start of [markReady] and [activate]: the entry of a valid binding, expired on the
    spot when its time is over. *)
Definition expire_entry (key : string) (e : entry) (r : Registry) : Registry :=
  r <| rg_entries := <[key := expire e]> (rg_entries r) |>
    <| rg_active := if rg_active r !! entry_host e == Some key then delete (entry_host e) (rg_active r) else rg_active r |>.

Definition markReady (ctxErr : option err) (binding : Binding) (expected : option bytes) (now : Time) (r : Registry)
    : option err * Registry :=
  match ctxErr, Binding_validate binding with
  | Some e, _ => (Some e, r)
  | None, inl e => (Some e, r)
  | None, inr _ =>
      let key := bindingKey binding in
      if rg_closed r then (Some ErrClosed, r)
      else match rg_entries r !! key with
      | None => (Some ErrGenerationConflict, r)
      | Some e =>
          if e_binding e != binding then (Some ErrGenerationConflict, r)
          else if fingerprint_differs expected (e_fingerprint e) then (Some (EWrap "" ErrGenerationConflict), r)
          else if past now e then (Some ErrCertificateExpired, expire_entry key e r)
          else match e_state e with
          | StateReady | StateActive => (None, r)
          | StateStaged => (None, r <| rg_entries := <[key := e <| e_state := StateReady |>]> (rg_entries r) |>)
          | _ => (Some ErrNotReady, r)
          end
      end
  end.

(** The entry that was active for the host is retired; the copy of an unchanged certificate
    of a renewed preview goes at once. *)
Definition retire_previous (binding : Binding) (fingerprint : bytes) (now : Time) (key : string)
    (entries : gmap string entry) : gmap string entry :=
  match entries !! key with
  | Some previous =>
      if e_state previous == StateActive then
        if (bd_CertificateGeneration (e_binding previous) =? bd_CertificateGeneration binding) && is_preview (e_binding previous)
           && (e_fingerprint previous == fingerprint)
        then delete key entries
        else <[key := previous <| e_state := StateRetired |> <| e_retiredAt := now |>]> entries
      else entries
  | None => entries
  end.

Definition activate (ctxErr : option err) (binding : Binding) (expected : option bytes) (now : Time) (r : Registry)
    : option err * Registry :=
  match ctxErr, Binding_validate binding with
  | Some e, _ => (Some e, r)
  | None, inl e => (Some e, r)
  | None, inr _ =>
      let key := bindingKey binding in
      if rg_closed r then (Some ErrClosed, r)
      else match rg_entries r !! key with
      | None => (Some ErrGenerationConflict, r)
      | Some e =>
          if e_binding e != binding then (Some ErrGenerationConflict, r)
          else if fingerprint_differs expected (e_fingerprint e) then (Some (EWrap "" ErrGenerationConflict), r)
          else if past now e then (Some ErrCertificateExpired, expire_entry key e r)
          else match e_state e with
          | StateActive => (None, r)
          | StateReady =>
              let host := entry_host e in
              let previousKey := match rg_active r !! host with Some k => if k == key then None else Some k | None => None end in
              let previous := match previousKey with Some k => rg_entries r !! k | None => None end in
              if match previous with Some p => fenced_off p binding (e_fingerprint e) | None => false end
              then (Some ErrGenerationConflict, r)
              else
                let entries := match previousKey with
                               | Some k => retire_previous binding (e_fingerprint e) now k (rg_entries r)
                               | None => rg_entries r
                               end in
                (None, r <| rg_entries := <[key := e <| e_state := StateActive |> <| e_activatedAt := now |>]> entries |>
                         <| rg_active := <[host := key]> (rg_active r) |>)
          | _ => (Some ErrNotReady, r)
          end
      end
  end.

Definition remove_entry (key : string) (r : Registry) : Registry := r <| rg_entries := delete key (rg_entries r) |>.

Definition retire (ctxErr : option err) (binding : Binding) (expected : option bytes) (r : Registry) : option err * Registry :=
  match ctxErr, Binding_validate binding with
  | Some e, _ => (Some e, r)
  | None, inl e => (Some e, r)
  | None, inr _ =>
      let key := bindingKey binding in
      match rg_entries r !! key with
      | None => (None, r)
      | Some e =>
          if e_binding e != binding then (None, r)
          else if fingerprint_differs expected (e_fingerprint e) then (Some (EWrap "" ErrGenerationConflict), r)
          else match e_state e with
          | StateRetired => (None, remove_entry key r)
          | StateRevoked | StateExpired => (None, r)
          | st => if (st == StateActive) && (rg_active r !! entry_host e == Some key) then (Some ErrReplacementNotReady, r)
                  else (None, remove_entry key r)
          end
      end
  end.

Definition revoke (ctxErr : option err) (binding : Binding) (expected : option bytes) (r : Registry) : option err * Registry :=
  match ctxErr, Binding_validate binding with
  | Some e, _ => (Some e, r)
  | None, inl e => (Some e, r)
  | None, inr _ =>
      let key := bindingKey binding in
      match rg_entries r !! key with
      | None => (None, r)
      | Some e =>
          if e_binding e != binding then (None, r)
          else if fingerprint_differs expected (e_fingerprint e) then (Some (EWrap "" ErrGenerationConflict), r)
          else (None, remove_entry key r
                        <| rg_active := if rg_active r !! entry_host e == Some key then delete (entry_host e) (rg_active r) else rg_active r |>)
      end
  end.
End Lifecycle.

Definition Close (r : Registry) : Registry :=
  if rg_closed r then r else r <| rg_closed := true |> <| rg_entries := ∅ |> <| rg_active := ∅ |>.

(** ** Serving *)

Section Serving.
Context `{Route.TextLib} `{FoldLib}.

Definition onDemandWildcardActiveLocked (host : string) (r : Registry) : bool :=
  existsb (λ '(k, e), (e_state e == StateActive) && e_wildcard e && bd_OnDemandLeaf (e_binding e)
                      && (rg_active r !! hostKey (e_hostname e) true == Some k) && wildcardMatches (e_hostname e) host)
    (map_to_list (rg_entries r)).

Definition wildcardActiveKeyLocked (host : string) (r : Registry) : option string :=
  let labels := Split host 46 in
  if (length labels <? 3)%nat then None else rg_active r !! hostKey ("*." +:+ join_dots (tail labels)) true.

Definition expiredForHostLocked (host : string) (r : Registry) : bool :=
  existsb (λ '(_, e), (e_state e == StateExpired)
                      && ((e_hostname e == host) && negb (e_wildcard e) || e_wildcard e && wildcardMatches (e_hostname e) host))
    (map_to_list (rg_entries r)).

Definition unavailable (host : string) (r : Registry) : err :=
  if expiredForHostLocked host r then ErrCertificateExpired else ErrCertificateMissing.

(** The key of the certificate for a host: the exact one, else the wildcard one unless an
    on-demand policy applies. *)
Definition serving_key (host : string) (r : Registry) : option string :=
  match rg_active r !! hostKey host false with
  | Some k => Some k
  | None => if onDemandWildcardActiveLocked host r then None else wildcardActiveKeyLocked host r
  end.

Definition GetCertificate (serverName : string) (now : Time) (r : Registry) : (err + option leaf) * Registry :=
  match normalizeHostname serverName with
  | None | Some (_, true) => (inl ErrCertificateMissing, r)
  | Some (host, false) =>
      if rg_closed r then (inl ErrClosed, r)
      else
        let r := expireLocked now r in
        match serving_key host r with
        | None => (inl (unavailable host r), r)
        | Some k =>
            match rg_entries r !! k with
            | None => (inl (unavailable host r), r)
            | Some e =>
                if e_state e != StateActive then (inl (unavailable host r), r)
                else if negb (After (e_notAfter e) now)
                then (inl ErrCertificateExpired,
                      r <| rg_entries := <[k := e <| e_state := StateExpired |>]> (rg_entries r) |>
                        <| rg_active := delete (entry_host e) (rg_active r) |>)
                else (inr (e_material e), r)
            end
        end
  end.

Definition RequiresExactCertificate (hostname : string) (now : Time) (r : Registry) : bool * Registry :=
  match normalizeHostname hostname with
  | None | Some (_, true) => (false, r)
  | Some (host, false) =>
      if rg_closed r then (false, r)
      else
        let r := expireLocked now r in
        let exact := match rg_active r !! hostKey host false with
                     | Some k => match rg_entries r !! k with Some e => e_state e == StateActive | None => false end
                     | None => false
                     end in
        (if exact then false else onDemandWildcardActiveLocked host r, r)
  end.
End Serving.

End TLSCert.

(** * TLS certificate distribution

    Models [internal/tlscert/distribution.go]: the receiver of certificate messages checks
    that a message is for this node and process, fresh and authenticated before it runs the
    registry operation of its action.  The authenticator is the argument [verify].
    Each reading of a clock is an argument: [now] is the receiver's, [at_] the registry's. *)

Module TLSDistribution.
Import TLSCert.

Definition ErrDistributionInvalid : err := EPlain "invalid TLS certificate distribution".
Definition ErrDistributionAuth : err := EPlain "TLS certificate distribution is not authenticated".

Record DistributionEnvelope := mkEnvelope {
  de_CertificateID : string;
  de_Fingerprint : bytes;
  de_Binding : Binding;
  de_Bundle : Bundle;
  de_Proof : bytes;
  de_IssuedAt : Time;
  de_ExpiresAt : Time
}.

Record DistributionReceiver := mkReceiver {
  dr_registry : Registry;
  dr_nodeID : string;
  dr_processEpoch : string;
  dr_maximumMessage : Z
}.
#[export] Instance DistributionReceiver_eta : Eta DistributionReceiver := λ r,
  mkReceiver (dr_registry r) (dr_nodeID r) (dr_processEpoch r) (dr_maximumMessage r).

Definition NewDistributionReceiver (registry : Registry) (nodeID epoch : string) (maximumMessage : Z) : err + DistributionReceiver :=
  if negb (validIdentifier nodeID) || negb (validEpoch epoch) then inl (EWrap "" ErrDistributionInvalid)
  else inr (mkReceiver registry nodeID epoch
              (if (maximumMessage <=? 0) || (33554432 <? maximumMessage) then 16777216 else maximumMessage)).

Definition distributionFingerprint (value : bytes) : option bytes := if value == zero_fingerprint then None else Some value.

Section Receiver.
Context (verify : string → DistributionEnvelope → option err).

Definition authenticate (ctxErr : option err) (action : string) (envelope : DistributionEnvelope) (now : Time)
    (d : DistributionReceiver) : option err :=
  let b := de_Binding envelope in
  if negb (validIdentifier (de_CertificateID envelope)) then Some ErrDistributionInvalid
  else match ctxErr with
  | Some e => Some e
  | None =>
      if (bd_EdgeNodeID b != dr_nodeID d) || (bd_EdgeProcessEpoch b != dr_processEpoch d) || (bd_CertificateGeneration b =? 0)
         || (bd_AssignmentGeneration b =? 0) || (bd_DomainGeneration b =? 0)
      then Some (EWrap "" ErrGenerationConflict)
      else if (dr_maximumMessage d <? blen (bu_CertificatePEM (de_Bundle envelope)))
              || (dr_maximumMessage d <? blen (bu_PrivateKeyPEM (de_Bundle envelope)))
              || (65536 <? blen (de_Proof envelope)) || (blen (de_Proof envelope) =? 0) || IsZero (de_ExpiresAt envelope)
              || negb (After (de_ExpiresAt envelope) now) || IsZero (de_IssuedAt envelope)
              || (10 * Minute <? Sub (de_ExpiresAt envelope) (de_IssuedAt envelope))
      then Some ErrDistributionInvalid
      else match verify action envelope with
           | Some e => Some (if Is e "TLS certificate distribution is not authenticated" then e else ErrDistributionAuth)
           | None => None
           end
  end.

Context `{X509Lib} `{Route.TextLib}.

(** An operation of the registry behind authentication. *)
Definition behind_auth (ctxErr : option err) (action : string) (envelope : DistributionEnvelope) (now : Time)
    (op : Registry → option err * Registry) (d : DistributionReceiver) : option err * DistributionReceiver :=
  match authenticate ctxErr action envelope now d with
  | Some e => (Some e, d)
  | None => let '(res, r) := op (dr_registry d) in (res, d <| dr_registry := r |>)
  end.

Definition Stage (ctxErr : option err) (en : DistributionEnvelope) (now at_ : Time) :=
  behind_auth ctxErr "stage" en now (stage ctxErr (de_Binding en) (de_Bundle en) (distributionFingerprint (de_Fingerprint en)) at_).

Definition StageAndReady (ctxErr : option err) (en : DistributionEnvelope) (now at_ later : Time) :=
  behind_auth ctxErr "stage" en now (λ r,
    let fingerprint := distributionFingerprint (de_Fingerprint en) in
    match stage ctxErr (de_Binding en) (de_Bundle en) fingerprint at_ r with
    | (Some e, r) => (Some e, r)
    | (None, r) => markReady ctxErr (de_Binding en) fingerprint later r
    end).

Definition Ready (ctxErr : option err) (en : DistributionEnvelope) (now at_ : Time) :=
  behind_auth ctxErr "ready" en now (markReady ctxErr (de_Binding en) (distributionFingerprint (de_Fingerprint en)) at_).

Definition Activate (ctxErr : option err) (en : DistributionEnvelope) (now at_ : Time) :=
  behind_auth ctxErr "activate" en now (activate ctxErr (de_Binding en) (distributionFingerprint (de_Fingerprint en)) at_).

Definition Retire (ctxErr : option err) (en : DistributionEnvelope) (now : Time) :=
  behind_auth ctxErr "retire" en now (retire ctxErr (de_Binding en) (distributionFingerprint (de_Fingerprint en))).

Definition Revoke (ctxErr : option err) (en : DistributionEnvelope) (now : Time) :=
  behind_auth ctxErr "revoke" en now (revoke ctxErr (de_Binding en) (distributionFingerprint (de_Fingerprint en))).

Definition Distribution_Close (d : DistributionReceiver) : DistributionReceiver := d <| dr_registry := Close (dr_registry d) |>.
End Receiver.

End TLSDistribution.
