(* ===== verification/TLSCertProofs.v ===== *)
(** * TLS certificate registry: invariant and guarantees *)
From S2P Require Import Prelude Go Strings Protocol Route PreviewAdmission TLSCert.

Module TLSCertProofs.
Import TLSCert.

(** ** Hosts *)

Lemma hostKey_inj h w h' w' : hostKey h w = hostKey h' w' → h = h' ∧ w = w'.
Proof. unfold hostKey. destruct w, w'; cbn; intros E; simplify_eq; done. Qed.

Lemma fold_delete (gone : list entry) (active : gmap string string) h k :
  List.fold_left (λ active e, delete (entry_host e) active) gone active !! h = Some k
  ↔ active !! h = Some k ∧ ∀ e, e ∈ gone → entry_host e ≠ h.
Proof.
  revert active. induction gone as [|e gone IH]; intros active; cbn.
  { split; [intros ?; split; [done|by intros e ?%elem_of_nil]|by intros [? _]]. }
  rewrite IH, lookup_delete_Some. split.
  - intros [[Hne Hk] Hg]. split; [done|]. intros x [->|Hx]%elem_of_cons; [done|by apply Hg].
  - intros [Hk Hg]. split; [split; [apply Hg; by left|done]|]. intros x Hx. apply Hg. by right.
Qed.

Section Registry.
Context `{X509Lib} `{Route.TextLib} `{FoldLib}.

(** ** The invariant *)

(** The name the certificate of an entry was checked for. *)
Definition checked_name (e : entry) : string :=
  if e_wildcard e then "paperboat." +:+ TrimPrefix (e_hostname e) "*." else e_hostname e.

Definition material_ok (e : entry) (lf : leaf) : Prop :=
  e_material e = Some lf ∧ lf_NotAfter lf = e_notAfter e ∧ lf_VerifyHostname lf (checked_name e) = None
  ∧ e_fingerprint e = x509_sha256 (lf_Raw lf).

Record entry_ok (k : string) (e : entry) : Prop := {
  eo_key : bindingKey (e_binding e) = k;
  eo_host : Binding_validate (e_binding e) = inr (e_hostname e, e_wildcard e);
  eo_material : e_state e ∈ [StateStaged; StateReady; StateActive] → ∃ lf, material_ok e lf;
  eo_wiped : e_state e = StateExpired → e_material e = None
}.

Definition is_active (r : Registry) (h k : string) : Prop :=
  ∃ e, rg_entries r !! k = Some e ∧ e_state e = StateActive ∧ entry_host e = h.

Record tinv (r : Registry) : Prop := {
  ti_entries : ∀ k e, rg_entries r !! k = Some e → entry_ok k e;
  ti_active : ∀ h k, rg_active r !! h = Some k ↔ is_active r h k
}.

Lemma tinv_new life : tinv (NewRegistry life).
Proof.
  split; cbn; [intros k e He; by rewrite lookup_empty in He|]. intros h k. split; [by intros ?%lookup_empty_Some|].
  intros (e & He & _). cbn in He. by rewrite lookup_empty in He.
Qed.

(** *** Expiry *)

Lemma entry_ok_expire k e : entry_ok k e → entry_ok k (expire e).
Proof.
  intros [E1 E2 E3 E4]. constructor; try done. cbn. intros Hin.
  repeat (apply elem_of_cons in Hin as [?|Hin]; [done|]). by apply elem_of_nil in Hin.
Qed.

Lemma expireLocked_lookup now r k e' :
  rg_entries (expireLocked now r) !! k = Some e' ↔
  ∃ e, rg_entries r !! k = Some e ∧ e' = if expiring now e then expire e else e.
Proof. cbn. rewrite lookup_fmap, fmap_Some. done. Qed.

Lemma expireLocked_inv now r : tinv r → tinv (expireLocked now r).
Proof.
  intros [T1 T2]. split.
  - intros k e' (e & He & ->)%expireLocked_lookup. destruct (expiring now e); [|by apply T1]. by apply entry_ok_expire, T1.
  - intros h k. unfold is_active. setoid_rewrite expireLocked_lookup. cbn [expireLocked rg_active update]. rewrite fold_delete, T2. split.
    + intros [(e & He & Hs & Hh) Hg]. exists e. split_and!; try done. exists e. split; [done|].
      destruct (expiring now e) eqn:Ex; [|done]. exfalso. apply (Hg e); [|done].
      apply list_elem_of_In, filter_In. split; [|done]. apply list_elem_of_In, list_elem_of_fmap. exists (k, e).
      split; [done|]. by apply elem_of_map_to_list.
    + intros (e' & (e & He & ->) & Hs & Hh). destruct (expiring now e) eqn:Ex; [done|]. split; [by exists e|].
      intros x [Hx Hex]%list_elem_of_In%filter_In Hhx. apply list_elem_of_In, list_elem_of_fmap in Hx as ([k' x'] & -> & Hx%elem_of_map_to_list).
      cbn in *. assert (rg_active r !! h = Some k') as Ha.
      { apply T2. exists x'. unfold expiring in Hex. apply andb_true_iff in Hex as [Hst%bool_decide_eq_true _]. done. }
      assert (rg_active r !! h = Some k) as Ha' by (apply T2; by exists e).
      assert (k' = k) as -> by congruence. assert (x' = e) as -> by congruence. congruence.
Qed.

(** An entry that is not past keeps its place. *)
Lemma expireLocked_keeps now r k e :
  rg_entries r !! k = Some e → past now e = false → rg_entries (expireLocked now r) !! k = Some e.
Proof.
  intros He Hp. apply expireLocked_lookup. exists e. split; [done|]. unfold expiring. by rewrite Hp, andb_false_r.
Qed.

Lemma expireLocked_fresh now r k e :
  rg_entries (expireLocked now r) !! k = Some e → e_state e = StateActive → past now e = false ∧ rg_entries r !! k = Some e.
Proof.
  intros (x & Hx & ->)%expireLocked_lookup Hs. destruct (expiring now x) eqn:Ex; [done|]. split; [|done].
  unfold expiring in Ex. rewrite Hs, bool_decide_eq_true_2 in Ex by done. done.
Qed.

(** *** One entry changes *)

(** An entry that is not active is put in the place of one that is not active. *)
Lemma tinv_put r k e :
  tinv r → entry_ok k e → e_state e ≠ StateActive → (∀ old, rg_entries r !! k = Some old → e_state old ≠ StateActive) →
  tinv (r <| rg_entries := <[k := e]> (rg_entries r) |>).
Proof.
  intros [T1 T2] He Hs Hold. split; cbn.
  - intros k' e' [[<- <-]|[_ He']]%lookup_insert_Some; [done|by apply T1].
  - intros h k'. rewrite T2. unfold is_active. cbn. split; intros (x & Hx & Hst & Hh).
    + exists x. rewrite lookup_insert_ne; [done|]. intros <-. by apply (Hold x).
    + apply lookup_insert_Some in Hx as [[<- <-]|[_ Hx]]; [done|]. by exists x.
Qed.

Lemma tinv_remove r (P : string * entry → Prop) `{∀ x, Decision (P x)} :
  tinv r → (∀ k e, rg_entries r !! k = Some e → e_state e = StateActive → P (k, e)) →
  tinv (r <| rg_entries := filter P (rg_entries r) |>).
Proof.
  intros [T1 T2] HP. split; cbn.
  - intros k e [He _]%map_lookup_filter_Some. by apply T1.
  - intros h k. rewrite T2. unfold is_active. cbn. split; intros (x & Hx & Hst & Hh); exists x.
    + rewrite map_lookup_filter_Some. split_and!; try done. by apply HP.
    + apply map_lookup_filter_Some in Hx as [Hx _]. done.
Qed.

Lemma tinv_delete r k :
  tinv r → (∀ e, rg_entries r !! k = Some e → e_state e ≠ StateActive) → tinv (remove_entry k r).
Proof.
  intros [T1 T2] Hk. split; cbn.
  - intros k' e [_ He]%lookup_delete_Some. by apply T1.
  - intros h k'. rewrite T2. unfold is_active. cbn. split; intros (x & Hx & Hst & Hh); exists x.
    + rewrite lookup_delete_ne; [done|]. intros <-. by apply (Hk x).
    + apply lookup_delete_Some in Hx as [_ Hx]. done.
Qed.

(** An entry is taken out of service: replaced by one that is not active, or removed. *)
Lemma tinv_unserve r k e new :
  tinv r → rg_entries r !! k = Some e → (∀ x, new = Some x → entry_ok k x ∧ e_state x ≠ StateActive) →
  tinv (r <| rg_entries := partial_alter (λ _, new) k (rg_entries r) |>
          <| rg_active := if rg_active r !! entry_host e == Some k then delete (entry_host e) (rg_active r) else rg_active r |>).
Proof.
  intros [T1 T2] He Hnew. split; cbn.
  - intros k' e' He'. destruct (decide (k' = k)) as [->|Hne].
    + rewrite lookup_partial_alter_eq in He'. by apply Hnew.
    + rewrite lookup_partial_alter_ne in He' by done. by apply T1.
  - intros h k'. unfold is_active. cbn. split.
    + intros Ha. assert (rg_active r !! h = Some k' ∧ k' ≠ k) as [Ha' Hne].
      { case_bool_decide as Eb.
        - apply lookup_delete_Some in Ha as [Hh Ha]. split; [done|]. intros ->. apply T2 in Ha as (x & Hx & _ & Hxh). congruence.
        - split; [done|]. intros ->. apply T2 in Ha as (x & Hx & Hs & Hxh). assert (x = e) as -> by congruence. apply Eb, T2. by exists e. }
      apply T2 in Ha' as (x & Hx & Hs & Hxh). exists x. by rewrite lookup_partial_alter_ne.
    + intros (x & Hx & Hs & Hxh). destruct (decide (k' = k)) as [->|Hne].
      { rewrite lookup_partial_alter_eq in Hx. by destruct (Hnew x Hx). }
      rewrite lookup_partial_alter_ne in Hx by done. assert (rg_active r !! h = Some k') as Ha by (apply T2; by exists x).
      case_bool_decide as Eb; [|done]. apply lookup_delete_Some. split; [|done]. congruence.
Qed.

(** An entry enters service: the entry that was active for the host, if any, is no longer
    active. *)
Lemma tinv_serve r k e h entries :
  tinv r → entry_ok k e → entry_host e = h → e_state e = StateActive →  (∀ old, rg_entries r !! k = Some old → e_state old ≠ StateActive) →
  (∀ k' x, entries !! k' = Some x → entry_ok k' x) →
  (∀ k' x, k' ≠ k → entries !! k' = Some x ∧ e_state x = StateActive ↔
                     rg_entries r !! k' = Some x ∧ e_state x = StateActive ∧ rg_active r !! h ≠ Some k') →
  tinv (r <| rg_entries := <[k := e]> entries |> <| rg_active := <[h := k]> (rg_active r) |>).
Proof.
  intros [T1 T2] He <- Hs Hold Hok Hex. split; cbn.
  - intros k' x [[<- <-]|[_ Hx]]%lookup_insert_Some; [done|by apply Hok].
  - intros h k'. unfold is_active. cbn. split.
    + intros [[<- <-]|[Hne Ha]]%lookup_insert_Some; [exists e; by rewrite lookup_insert_eq|].
      apply T2 in Ha as (x & Hx & Hst & Hh). assert (k' ≠ k) as Hk by (intros ->; by apply (Hold x)).
      exists x. rewrite lookup_insert_ne by done. enough (entries !! k' = Some x ∧ e_state x = StateActive) by naive_solver.
      apply Hex; [done|]. split_and!; try done. intros Ha. apply T2 in Ha as (y & Hy & _ & Hyh). congruence.
    + intros (x & [[<- <-]|[Hne Hx]]%lookup_insert_Some & Hst & Hh); [subst h; by rewrite lookup_insert_eq|].
      destruct (proj1 (Hex k' x ltac:(done)) (conj Hx Hst)) as (Hx' & _ & Hna). subst h.
      assert (rg_active r !! entry_host x = Some k') as Ha by (apply T2; by exists x).
      rewrite lookup_insert_ne; [done|]. intros E. apply Hna. congruence.
Qed.

(** *** The operations *)

Lemma validateBundle_ok b host w now life lf fp :
  validateBundle b host w now life = inr (lf, fp) →
  fp = x509_sha256 (lf_Raw lf) ∧ lf_VerifyHostname lf (if w then "paperboat." +:+ TrimPrefix host "*." else host) = None
  ∧ After (lf_NotAfter lf) now = true.
Proof.
  unfold validateBundle. intros E. repeat (case_match || case_bool_decide); simplify_eq; try done.
  all: repeat match goal with Hb : _ || _ = false |- _ => apply orb_false_iff in Hb as [? ?] end.
  all: split_and!; try done; try (by apply negb_false_iff). all: match goal with |- ?x = None => by destruct x end.
Qed.

Lemma expire_entry_inv key e r : tinv r → rg_entries r !! key = Some e → tinv (expire_entry key e r).
Proof.
  intros T He. apply (tinv_unserve r key e (Some (expire e)) T He).
  intros x [= <-]. split; [by apply entry_ok_expire, (ti_entries _ T)|done].
Qed.

Lemma stage_locked_inv binding host w issuer lf fp now r :
  tinv r → Binding_validate binding = inr (host, w) → fp = x509_sha256 (lf_Raw lf) →
  lf_VerifyHostname lf (if w then "paperboat." +:+ TrimPrefix host "*." else host) = None →
  tinv (stage_locked binding host w issuer lf fp now r).2.
Proof.
  intros T Hv Hfp Hvh. unfold stage_locked. destruct (rg_closed r); [done|].
  assert (tinv (expireLocked now r)) as T' by by apply expireLocked_inv.
  set (q := expireLocked now r) in *. clearbody q. cbn zeta.
  destruct (host_taken _ _ _); [done|].
  destruct (rg_entries q !! _) as [old|] eqn:Ek; [destruct (_ != _); [done|]; destruct (e_state old); try destruct (_ && _); done|].
  match goal with |- context [if ?c then _ else _] => destruct c end; [done|]. cbn [snd].
  set (kept := filter _ (rg_entries q)).
  refine (tinv_put (q <| rg_entries := kept |>) (bindingKey binding)
            (mkEntry binding host w StateStaged fp issuer (lf_NotBefore lf) (lf_NotAfter lf) 0 0 0 (Some lf)) _ _ _ _).
  - apply tinv_remove; [done|]. intros k e _ Hs. cbn. unfold superseded. rewrite Hs.
    change (StateActive != StateActive) with false. by rewrite !andb_false_r.
  - constructor; try done. intros _. by exists lf.
  - done.
  - intros old [Ho _]%map_lookup_filter_Some. congruence.
Qed.

Lemma stage_inv cx binding bundle x now r : tinv r → tinv (stage cx binding bundle x now r).2.
Proof.
  intros T. unfold stage. destruct cx; [done|]. destruct (Binding_validate binding) as [|[host w]] eqn:Hv; [done|].
  destruct (_ && _); [done|]. destruct (validateBundle _ _ _ _ _) as [|[lf fp]] eqn:Hb; [done|]. case_match; [done|].
  apply validateBundle_ok in Hb as (? & ? & _). by apply stage_locked_inv.
Qed.

Lemma markReady_inv cx binding x now r : tinv r → tinv (markReady cx binding x now r).2.
Proof.
  intros T. unfold markReady. destruct cx; [done|]. destruct (Binding_validate binding); [done|]. case_match; [done|].
  destruct (rg_entries r !! bindingKey binding) as [e|] eqn:He; [|done]. case_match; [done|]. case_match; [done|].
  case_match; [by apply expire_entry_inv|]. destruct (e_state e) eqn:Hs; try done.
  apply tinv_put; try done; [|intros old Ho; congruence].
  destruct (ti_entries _ T _ _ He) as [E1 E2 E3 E4]. constructor; try done. intros _. cbn.
  destruct E3 as (lf & Hlf); [rewrite Hs; by left|]. by exists lf.
Qed.

Lemma retire_previous_spec binding fp now k entries k' x :
  retire_previous binding fp now k entries !! k' = Some x →
  entries !! k' = Some x ∧ (k' = k → e_state x ≠ StateActive) ∨
  k' = k ∧ ∃ old, entries !! k = Some old ∧ x = old <| e_state := StateRetired |> <| e_retiredAt := now |>.
Proof.
  unfold retire_previous. destruct (entries !! k) as [p|] eqn:Hp; [|intros Hx; left; split; [done|intros ->; congruence]].
  case_bool_decide as Hs; [|intros Hx; left; split; [done|intros ->; congruence]].
  case_match; [intros [? ?]%lookup_delete_Some; left; by split|].
  intros [[<- <-]|[? ?]]%lookup_insert_Some; [right|left; by split]. split; [done|]. by exists p.
Qed.

Lemma retire_previous_ne binding fp now k entries k' :
  k' ≠ k → retire_previous binding fp now k entries !! k' = entries !! k'.
Proof.
  intros Hne. unfold retire_previous. repeat case_match; try done; [by rewrite lookup_delete_ne|by rewrite lookup_insert_ne].
Qed.

(** What a successful activation of a ready entry does. *)
Definition activated (binding : Binding) (now : Time) (e : entry) (r : Registry) : Registry :=
  let key := bindingKey binding in
  let entries := match rg_active r !! entry_host e with
                 | Some k => retire_previous binding (e_fingerprint e) now k (rg_entries r)
                 | None => rg_entries r
                 end in
  r <| rg_entries := <[key := e <| e_state := StateActive |> <| e_activatedAt := now |>]> entries |>
    <| rg_active := <[entry_host e := key]> (rg_active r) |>.

Definition replaceable (binding : Binding) (e : entry) (r : Registry) : Prop :=
  ∀ k p, rg_active r !! entry_host e = Some k → rg_entries r !! k = Some p → fenced_off p binding (e_fingerprint e) = false.

(** [activate] leaves the registry as it is, expires the entry, or activates it. *)
Lemma activate_cases cx binding x now r :
  tinv r →
  (activate cx binding x now r).2 = r
  ∨ ∃ e, rg_entries r !! bindingKey binding = Some e ∧
      (past now e = true ∧ (activate cx binding x now r).2 = expire_entry (bindingKey binding) e r
       ∨ past now e = false ∧ e_state e = StateReady ∧ e_binding e = binding ∧ replaceable binding e r
         ∧ activate cx binding x now r = (None, activated binding now e r)).
Proof.
  intros T. unfold activate. destruct cx; [by left|]. destruct (Binding_validate binding) as [|hw]; [by left|].
  destruct (rg_closed r); [by left|]. destruct (rg_entries r !! bindingKey binding) as [e|] eqn:He; [|by left].
  case_bool_decide as Hb; [|by left]. cbn [negb]. destruct (fingerprint_differs _ _); [by left|].
  destruct (past now e) eqn:Hp; [right; exists e; split; [done|]; by left|]. destruct (e_state e) eqn:Hs; try by left.
  assert (match rg_active r !! entry_host e with Some k => if k == bindingKey binding then None else Some k | None => None end
          = rg_active r !! entry_host e) as ->.
  { destruct (rg_active r !! entry_host e) as [k|] eqn:Ha; [|done]. case_bool_decide as Ek; [|done]. subst k.
    apply (ti_active _ T) in Ha as (y & Hy & Hys & _). congruence. }
  unfold activated. destruct (rg_active r !! entry_host e) as [k|] eqn:Ha.
  - destruct (rg_entries r !! k) as [p|] eqn:Hk.
    + destruct (fenced_off p binding (e_fingerprint e)) eqn:Hf; [by left|]. right. exists e. split; [done|]. right.
      split_and!; try done; [|by rewrite Ha]. intros k' p' Hk' Hp'. congruence.
    + right. exists e. split; [done|]. right. split_and!; try done; [|by rewrite Ha]. intros k' p' Hk' Hp'. congruence.
  - right. exists e. split; [done|]. right. split_and!; try done; [|by rewrite Ha]. intros k' p' Hk' Hp'. congruence.
Qed.

Lemma entry_ok_retired k e now : entry_ok k e → entry_ok k (e <| e_state := StateRetired |> <| e_retiredAt := now |>).
Proof.
  intros [E1 E2 E3 E4]. constructor; try done. cbn. intros Hin.
  repeat (apply elem_of_cons in Hin as [?|Hin]; [done|]). by apply elem_of_nil in Hin.
Qed.

Lemma activated_inv binding now e r :
  tinv r → rg_entries r !! bindingKey binding = Some e → e_state e = StateReady → tinv (activated binding now e r).
Proof.
  intros T He Hs. unfold activated. cbn zeta.
  apply (tinv_serve r (bindingKey binding) (e <| e_state := StateActive |> <| e_activatedAt := now |>) (entry_host e) _ T).
  - destruct (ti_entries _ T _ _ He) as [E1 E2 E3 E4]. constructor; try done. intros _.
    destruct E3 as (lf & Hlf); [rewrite Hs; by right; left|]. by exists lf.
  - done.
  - done.
  - intros old Ho. congruence.
  - intros k' y Hy. destruct (rg_active r !! entry_host e) as [k|]; [|by apply T].
    apply retire_previous_spec in Hy as [[Hy _]|[-> (old & Ho & ->)]]; [by apply T|by apply entry_ok_retired, T].
  - intros k' y Hne. destruct (rg_active r !! entry_host e) as [k|] eqn:Ha; [|naive_solver]. split.
    + intros [[[Hy Hn]|[-> (old & Ho & ->)]]%retire_previous_spec Hys]; [|done]. split_and!; try done.
      intros [= ->]. by apply Hn.
    + intros (Hy & Hys & Hn). rewrite retire_previous_ne by congruence. done.
Qed.

Lemma activate_inv cx binding x now r : tinv r → tinv (activate cx binding x now r).2.
Proof.
  intros T. destruct (activate_cases cx binding x now r T) as [->|(e & He & [[_ ->]|(_ & Hs & _ & _ & ->)])];
    [done|by apply expire_entry_inv|by apply activated_inv].
Qed.

(** [retire] removes an entry that is not in service, [revoke] any entry. *)
Lemma retire_cases cx binding x r :
  tinv r → (retire cx binding x r).2 = r
  ∨ (retire cx binding x r).2 = remove_entry (bindingKey binding) r
    ∧ ∀ e, rg_entries r !! bindingKey binding = Some e → e_state e ≠ StateActive.
Proof.
  intros T. unfold retire. destruct cx; [by left|]. destruct (Binding_validate binding); [by left|].
  destruct (rg_entries r !! bindingKey binding) as [e|] eqn:He; [|by left]. destruct (_ != _); [by left|].
  destruct (fingerprint_differs _ _); [by left|].
  destruct (e_state e) eqn:Hs; cbn [bool_decide andb]; try by left.
  1,2,4,5: right; split; [done|]; intros ? [= <-]; congruence.
  rewrite bool_decide_eq_true_2 by done. rewrite bool_decide_eq_true_2; [by left|]. apply (ti_active _ T). by exists e.
Qed.

Lemma revoke_cases cx binding x r :
  (revoke cx binding x r).2 = r
  ∨ ∃ e, rg_entries r !! bindingKey binding = Some e ∧ e_binding e = binding
      ∧ (revoke cx binding x r).2 =
        remove_entry (bindingKey binding) r
          <| rg_active := if rg_active r !! entry_host e == Some (bindingKey binding)
                          then delete (entry_host e) (rg_active r) else rg_active r |>.
Proof.
  unfold revoke. destruct cx; [by left|]. destruct (Binding_validate binding); [by left|].
  destruct (rg_entries r !! bindingKey binding) as [e|] eqn:He; [|by left]. case_bool_decide; [|by left].
  cbn [negb]. destruct (fingerprint_differs _ _); [by left|]. right. by exists e.
Qed.

Lemma retire_inv cx binding x r : tinv r → tinv (retire cx binding x r).2.
Proof. intros T. destruct (retire_cases cx binding x r T) as [->|[-> ?]]; [done|by apply tinv_delete]. Qed.

Lemma revoke_inv cx binding x r : tinv r → tinv (revoke cx binding x r).2.
Proof.
  intros T. destruct (revoke_cases cx binding x r) as [->|(e & He & _ & ->)]; [done|].
  by apply (tinv_unserve r (bindingKey binding) e None).
Qed.

Lemma tls_Close_inv r : tinv r → tinv (Close r).
Proof. intros T. unfold Close. case_match; [done|]. split; cbn; [apply (tinv_new 0)|apply (tinv_new 0)]. Qed.
End Registry.

End TLSCertProofs.
