(* ===== verification/TLSCertGuarantees.v ===== *)
(** * TLS certificates: guarantees

    What the registry of [TLSCert] promises after any sequence of operations, what a TLS
    client is served, and what the receiver of [TLSDistribution] lets through. *)
From S2P Require Import Prelude Go Strings Protocol Route PreviewAdmission TLSCert TLSCertProofs.

Module TLSCertGuarantees.
Import TLSCert TLSCertProofs TLSDistribution.
#[local] Arguments bindingKey : simpl never.
#[local] Arguments hostKey : simpl never.

Section Guarantees.
Context `{X509Lib} `{Route.TextLib} `{FoldLib}.

(** ** Runs of the registry *)

Inductive tls_op :=
  | OpStage (cx : option err) (b : Binding) (bundle : Bundle) (x : option bytes)
  | OpMarkReady (cx : option err) (b : Binding) (x : option bytes)
  | OpActivate (cx : option err) (b : Binding) (x : option bytes)
  | OpRetire (cx : option err) (b : Binding) (x : option bytes)
  | OpRevoke (cx : option err) (b : Binding) (x : option bytes)
  | OpGet (serverName : string)
  | OpRequires (hostname : string)
  | OpClose.

Definition run_op (now : Time) (o : tls_op) (r : Registry) : Registry :=
  match o with
  | OpStage cx b bundle x => (stage cx b bundle x now r).2
  | OpMarkReady cx b x => (markReady cx b x now r).2
  | OpActivate cx b x => (activate cx b x now r).2
  | OpRetire cx b x => (retire cx b x r).2
  | OpRevoke cx b x => (revoke cx b x r).2
  | OpGet name => (GetCertificate name now r).2
  | OpRequires name => (RequiresExactCertificate name now r).2
  | OpClose => Close r
  end.

Inductive treach : Registry → Prop :=
  | treach_new life : treach (NewRegistry life)
  | treach_op now o r : treach r → treach (run_op now o r).

(** After expiry the entry of a served key is active and not past, so the last expiry check
    of [GetCertificate] never fires. *)
Lemma served_entry now r k h :
  tinv r → rg_active (expireLocked now r) !! h = Some k →
  ∃ e, rg_entries (expireLocked now r) !! k = Some e ∧ rg_entries r !! k = Some e ∧ e_state e = StateActive
       ∧ entry_host e = h ∧ past now e = false.
Proof.
  intros T Ha. apply (ti_active _ (expireLocked_inv now r T)) in Ha as (e & He & Hs & Hh).
  destruct (expireLocked_fresh _ _ _ _ He Hs) as [Hp He']. by exists e.
Qed.

Lemma past_after now e : past now e = false → After (e_notAfter e) now = true.
Proof. unfold past. intros [? _]%orb_false_iff. by apply negb_false_iff. Qed.

(** The host key that [serving_key] used. *)
Lemma serving_key_spec host r k :
  serving_key host r = Some k →
  rg_active r !! hostKey host false = Some k
  ∨ rg_active r !! hostKey host false = None ∧ onDemandWildcardActiveLocked host r = false
    ∧ rg_active r !! hostKey ("*." +:+ join_dots (tail (Split host 46))) true = Some k ∧ (3 ≤ length (Split host 46))%nat.
Proof.
  unfold serving_key. destruct (rg_active r !! hostKey host false) as [k'|]; [intros [= ->]; by left|].
  destruct (onDemandWildcardActiveLocked host r) eqn:Eo; [done|]. unfold wildcardActiveKeyLocked.
  destruct (Nat.ltb_spec (length (Split host 46)) 3); [done|]. intros Hk. right. by split_and!.
Qed.

Lemma GetCertificate_cases name now r :
  tinv r →
  match normalizeHostname name with
  | Some (host, false) =>
      if rg_closed r then GetCertificate name now r = (inl ErrClosed, r)
      else match serving_key host (expireLocked now r) with
           | None => GetCertificate name now r = (inl (unavailable host (expireLocked now r)), expireLocked now r)
           | Some k => ∃ e, rg_entries (expireLocked now r) !! k = Some e ∧ rg_entries r !! k = Some e ∧ e_state e = StateActive
                            ∧ past now e = false ∧ GetCertificate name now r = (inr (e_material e), expireLocked now r)
           end
  | _ => GetCertificate name now r = (inl ErrCertificateMissing, r)
  end.
Proof.
  intros T. unfold GetCertificate. destruct (normalizeHostname name) as [[host []]|]; try done.
  destruct (rg_closed r); [done|]. cbn zeta. destruct (serving_key host (expireLocked now r)) as [k|] eqn:Hk; [|done].
  assert (∃ h, rg_active (expireLocked now r) !! h = Some k) as (h & Ha).
  { apply serving_key_spec in Hk as [Ha|(_ & _ & Ha & _)]; by eexists. }
  destruct (served_entry now r k h T Ha) as (e & He & He' & Hs & _ & Hp). exists e. split_and!; try done.
  rewrite He, Hs, (past_after _ _ Hp). done.
Qed.

Lemma GetCertificate_state name now r :
  tinv r → (GetCertificate name now r).2 = r ∨ (GetCertificate name now r).2 = expireLocked now r.
Proof.
  intros T. pose proof (GetCertificate_cases name now r T) as C. repeat case_match; try (rewrite C; by left); try (rewrite C; by right).
  destruct C as (e & _ & _ & _ & _ & ->). by right.
Qed.

Lemma Requires_state name now r :
  (RequiresExactCertificate name now r).2 = r ∨ (RequiresExactCertificate name now r).2 = expireLocked now r.
Proof. unfold RequiresExactCertificate. repeat case_match; by (left + right). Qed.

Lemma run_op_inv now o r : tinv r → tinv (run_op now o r).
Proof.
  intros T. destruct o; cbn [run_op].
  - by apply stage_inv.
  - by apply markReady_inv.
  - by apply activate_inv.
  - by apply retire_inv.
  - by apply revoke_inv.
  - destruct (GetCertificate_state serverName now r T) as [->| ->]; [done|by apply expireLocked_inv].
  - destruct (Requires_state hostname now r) as [->| ->]; [done|by apply expireLocked_inv].
  - by apply tls_Close_inv.
Qed.

Lemma treach_tinv r : treach r → tinv r.
Proof. induction 1; [apply tinv_new|by apply run_op_inv]. Qed.

(** ** What stays in service *)

Section Kept.
Context (now : Time) (r : Registry) (k : string) (e : entry) (T : tinv r).
Context (He : rg_entries r !! k = Some e) (Hs : e_state e = StateActive) (Hp : past now e = false).

Lemma put_keeps k' (x old : entry) : rg_entries r !! k' = Some old → e ≠ old → <[k' := x]> (rg_entries r) !! k = Some e.
Proof using He. intros Ho Hne. rewrite lookup_insert_ne; [done|]. intros ->. congruence. Qed.

Lemma stage_keeps cx b bundle x : rg_entries (stage cx b bundle x now r).2 !! k = Some e.
Proof using He Hs Hp.
  pose proof (expireLocked_keeps now r k e He Hp) as Hk.
  unfold stage. destruct cx; [done|]. destruct (Binding_validate b) as [|[host w]]; [done|].
  destruct (_ && _); [done|]. destruct (validateBundle _ _ _ _ _) as [|[lf fp]]; [done|].
  destruct (fingerprint_differs _ _); [done|]. unfold stage_locked. destruct (rg_closed r); [done|].
  set (q := expireLocked now r) in *. clearbody q. cbn zeta. destruct (host_taken _ _ _); [done|].
  destruct (rg_entries q !! bindingKey b) as [old|] eqn:Ek; [destruct (_ != _); [done|]; destruct (e_state old); try destruct (_ && _); done|].
  match goal with |- context [if ?c then _ else _] => destruct c end; [done|].
  cbn [snd rg_entries update]. rewrite lookup_insert_ne by congruence. apply map_lookup_filter_Some. split; [done|].
  cbn. unfold superseded. rewrite Hs. change (StateActive != StateActive) with false. by rewrite !andb_false_r.
Qed.

Lemma markReady_keeps cx b x : rg_entries (markReady cx b x now r).2 !! k = Some e.
Proof using He Hs Hp.
  unfold markReady. destruct cx; [done|]. destruct (Binding_validate b); [done|]. destruct (rg_closed r); [done|].
  destruct (rg_entries r !! bindingKey b) as [y|] eqn:Hy; [|done]. destruct (_ != _); [done|].
  destruct (fingerprint_differs _ _); [done|]. destruct (past now y) eqn:Hpy; [eapply put_keeps; [done|congruence]|].
  destruct (e_state y) eqn:Hsy; try done. eapply put_keeps; [done|congruence].
Qed.

Lemma retire_keeps cx b x : rg_entries (retire cx b x r).2 !! k = Some e.
Proof using T He Hs.
  destruct (retire_cases cx b x r T) as [->|[-> Hn]]; [done|]. cbn. rewrite lookup_delete_ne; [done|]. intros <-. by apply (Hn e).
Qed.

Lemma revoke_keeps cx b x : b ≠ e_binding e → rg_entries (revoke cx b x r).2 !! k = Some e.
Proof using He.
  intros Hne. destruct (revoke_cases cx b x r) as [->|(y & Hy & <- & ->)]; [done|]. cbn. rewrite lookup_delete_ne; [done|].
  intros E. rewrite E in Hy. congruence.
Qed.

Lemma fenced_off_generations p b fp :
  fenced_off p b fp = false →
  bd_DomainGeneration (e_binding p) ≤ bd_DomainGeneration b ∧ bd_CertificateGeneration (e_binding p) ≤ bd_CertificateGeneration b.
Proof. unfold fenced_off. intros F. repeat (apply orb_false_iff in F as [F ?]). lia. Qed.

Lemma activate_keeps cx b x :
  rg_entries (activate cx b x now r).2 !! k = Some e
  ∨ ∃ e', rg_entries (activate cx b x now r).2 !! bindingKey b = Some e' ∧ e_state e' = StateActive ∧ entry_host e' = entry_host e
      ∧ past now e' = false ∧ bd_DomainGeneration (e_binding e) ≤ bd_DomainGeneration (e_binding e')
      ∧ bd_CertificateGeneration (e_binding e) ≤ bd_CertificateGeneration (e_binding e').
Proof using T He Hs Hp.
  destruct (activate_cases cx b x now r T) as [->|(y & Hy & [[Hpy ->]|(Hpy & Hsy & Hb & Hf & ->)])]; [by left| |].
  { left. eapply put_keeps; [done|congruence]. }
  assert (rg_active r !! entry_host e = Some k) as Ha by (apply T; by exists e).
  destruct (decide (entry_host y = entry_host e)) as [Hh|Hh].
  - right. exists (y <| e_state := StateActive |> <| e_activatedAt := now |>). cbn [snd activated rg_entries update].
    rewrite lookup_insert_eq. split_and!; try done. all: cbn; rewrite Hb; apply (fenced_off_generations e b (e_fingerprint y)); apply (Hf k e); congruence.
  - left. cbn [snd activated rg_entries update]. rewrite lookup_insert_ne by (intros E; rewrite E in Hy; congruence).
    destruct (rg_active r !! entry_host y) as [k'|] eqn:Hk'; [|done]. rewrite retire_previous_ne; [done|].
    intros <-. apply (ti_active _ T) in Hk' as (z & Hz & _ & Hzh). congruence.
Qed.
End Kept.

(** ** Where entries come from *)

(** Every entry of [r'] continues one of [r], without entering service. *)
Definition continues (r r' : Registry) : Prop :=
  ∀ k e, rg_entries r' !! k = Some e →
    ∃ e0, rg_entries r !! k = Some e0 ∧ e_binding e0 = e_binding e ∧ (e_state e = StateActive → e_state e0 = StateActive).

#[local] Instance continues_refl : Reflexive continues.
Proof. intros r k e He. by exists e. Qed.

Lemma continues_expire now r : continues r (expireLocked now r).
Proof. intros k e' (e & He & ->)%expireLocked_lookup. exists e. by destruct (expiring now e). Qed.

Lemma continues_put r k e old a :
  rg_entries r !! k = Some old → e_binding old = e_binding e → e_state e ≠ StateActive →
  continues r (r <| rg_entries := <[k := e]> (rg_entries r) |> <| rg_active := a |>).
Proof.
  intros Ho Hb Hs k' x Hx. cbn in Hx. apply lookup_insert_Some in Hx as [[<- <-]|[_ Hx]]; [by exists old|by exists x].
Qed.

Lemma continues_delete r k a : continues r (remove_entry k r <| rg_active := a |>).
Proof. intros k' x Hx. cbn in Hx. apply lookup_delete_Some in Hx as [_ Hx]. by exists x. Qed.

Lemma stage_entries cx b bundle x now r k e :
  rg_entries (stage cx b bundle x now r).2 !! k = Some e →
  (∃ e0, rg_entries r !! k = Some e0 ∧ e_binding e0 = e_binding e ∧ (e_state e = StateActive → e_state e0 = StateActive))
  ∨ e_binding e = b ∧ e_state e = StateStaged.
Proof.
  unfold stage. destruct cx; [by left; exists e|]. destruct (Binding_validate b) as [|[host w]]; [by left; exists e|].
  destruct (_ && _); [by left; exists e|]. destruct (validateBundle _ _ _ _ _) as [|[lf fp]]; [by left; exists e|].
  destruct (fingerprint_differs _ _); [by left; exists e|]. unfold stage_locked. destruct (rg_closed r); [by left; exists e|].
  pose proof (continues_expire now r k) as C. set (q := expireLocked now r) in *. clearbody q. cbn zeta.
  destruct (host_taken _ _ _); [left; by apply C|].
  destruct (rg_entries q !! bindingKey b) as [old|];
    [destruct (_ != _); [by left; apply C|]; destruct (e_state old); try destruct (_ && _); by left; apply C|].
  match goal with |- context [if ?c then _ else _] => destruct c end; [by left; apply C|].
  cbn [snd rg_entries update]. intros [[<- <-]|[_ [He _]%map_lookup_filter_Some]]%lookup_insert_Some; [by right|left; by apply C].
Qed.

Lemma markReady_continues cx b x now r : continues r (markReady cx b x now r).2.
Proof.
  unfold markReady. destruct cx; [done|]. destruct (Binding_validate b); [done|]. destruct (rg_closed r); [done|].
  destruct (rg_entries r !! bindingKey b) as [y|] eqn:Hy; [|done]. destruct (_ != _); [done|].
  destruct (fingerprint_differs _ _); [done|]. destruct (past now y); [by eapply continues_put|].
  destruct (e_state y); try done. by apply (continues_put r (bindingKey b) (y <| e_state := StateReady |>) y (rg_active r)).
Qed.

Lemma retire_continues cx b x r : tinv r → continues r (retire cx b x r).2.
Proof.
  intros T. destruct (retire_cases cx b x r T) as [->|[-> _]]; [done|]. apply (continues_delete r _ (rg_active r)).
Qed.

Lemma revoke_continues cx b x r : continues r (revoke cx b x r).2.
Proof. destruct (revoke_cases cx b x r) as [->|(e & _ & _ & ->)]; [done|apply continues_delete]. Qed.

Lemma Close_continues r : continues r (Close r).
Proof. unfold Close. case_match; [done|]. intros k e He. cbn in He. by rewrite lookup_empty in He. Qed.

Lemma activate_entries cx b x now r k e :
  tinv r → rg_entries (activate cx b x now r).2 !! k = Some e →
  ∃ e0, rg_entries r !! k = Some e0 ∧ e_binding e0 = e_binding e
        ∧ (e_state e = StateActive → e_state e0 = StateActive ∨ e_binding e = b).
Proof.
  intros T. destruct (activate_cases cx b x now r T) as [->|(y & Hy & [[_ ->]|(_ & _ & Hb & _ & ->)])].
  - intros He. exists e. split_and!; try done. by left.
  - intros He. destruct (continues_put r (bindingKey b) (expire y) y _ Hy eq_refl ltac:(done) k e He) as (e0 & ? & ? & Hs). exists e0. split_and!; try done. intros ?. left. by apply Hs.
  - cbn [snd activated rg_entries update]. intros [[<- <-]|[_ He]]%lookup_insert_Some.
    + exists y. split_and!; try done. by right.
    + destruct (rg_active r !! entry_host y) as [k'|]; [|exists e; split_and!; try done; by left].
      apply retire_previous_spec in He as [[He _]|[-> (old & Ho & ->)]]; [exists e; split_and!; try done; by left|by exists old].
Qed.

(** ** Theorems *)

(** Invariant of the certificate registry: in every reachable registry each entry sits under
    the key of its binding, its host name is the normalized one of the binding, an entry that
    may be or become active holds a certificate that was checked for the host and whose
    fingerprint and expiry it records, and an expired one holds none; the index of active
    certificates is exact, so a host has at most one active entry. *)
Theorem certificates_invariant r :
  treach r →
  (∀ k e, rg_entries r !! k = Some e → entry_ok k e)
  ∧ (∀ h k, rg_active r !! h = Some k ↔ is_active r h k)
  ∧ (∀ k k' e e', rg_entries r !! k = Some e → rg_entries r !! k' = Some e' → e_state e = StateActive → e_state e' = StateActive →
       e_hostname e = e_hostname e' → e_wildcard e = e_wildcard e' → k = k').
Proof.
  intros T%treach_tinv. split_and!; [apply T|apply T|]. intros k k' e e' He He' Hs Hs' Hn Hw.
  assert (rg_active r !! entry_host e = Some k) by (apply T; by exists e).
  assert (rg_active r !! entry_host e' = Some k') by (apply T; by exists e').
  unfold entry_host in *. congruence.
Qed.


(** C22. Continuity: while a certificate that is not past is active for a host, no operation other
    than the revocation of its binding and closing takes the host out of service, and the
    entry in service afterwards is not past and of no older domain and certificate
    generation. *)
Theorem certificate_continuity r now o h k e :
  treach r → rg_active r !! h = Some k → rg_entries r !! k = Some e → past now e = false →
  match o with OpRevoke _ b _ => b ≠ e_binding e | OpClose => False | _ => True end →
  ∃ k' e', rg_active (run_op now o r) !! h = Some k' ∧ rg_entries (run_op now o r) !! k' = Some e'
    ∧ e_state e' = StateActive ∧ entry_host e' = h ∧ past now e' = false
    ∧ bd_DomainGeneration (e_binding e) ≤ bd_DomainGeneration (e_binding e')
    ∧ bd_CertificateGeneration (e_binding e) ≤ bd_CertificateGeneration (e_binding e').
Proof.
  intros T%treach_tinv Ha He Hp Ho. assert (e_state e = StateActive ∧ entry_host e = h) as [Hs Hh].
  { apply T in Ha as (x & Hx & ? & ?). assert (x = e) by congruence. naive_solver. }
  pose proof (run_op_inv now o r T) as T'.
  assert (rg_entries (run_op now o r) !! k = Some e
          ∨ ∃ k' e', rg_entries (run_op now o r) !! k' = Some e' ∧ e_state e' = StateActive ∧ entry_host e' = h ∧ past now e' = false
             ∧ bd_DomainGeneration (e_binding e) ≤ bd_DomainGeneration (e_binding e')
             ∧ bd_CertificateGeneration (e_binding e) ≤ bd_CertificateGeneration (e_binding e')) as C.
  { subst h. destruct o; cbn [run_op].
    - left. by apply stage_keeps.
    - left. by apply markReady_keeps.
    - destruct (activate_keeps now r k e T He Hs Hp cx b x) as [?|(e' & ?)]; [by left|right]. by exists (bindingKey b), e'.
    - left. by apply retire_keeps.
    - left. by apply revoke_keeps.
    - left. destruct (GetCertificate_state serverName now r T) as [->| ->]; [done|by apply expireLocked_keeps].
    - left. destruct (Requires_state hostname now r) as [->| ->]; [done|by apply expireLocked_keeps].
    - done. }
  assert (∃ k' e', rg_entries (run_op now o r) !! k' = Some e' ∧ e_state e' = StateActive ∧ entry_host e' = h ∧ past now e' = false
             ∧ bd_DomainGeneration (e_binding e) ≤ bd_DomainGeneration (e_binding e')
             ∧ bd_CertificateGeneration (e_binding e) ≤ bd_CertificateGeneration (e_binding e')) as (k' & e' & He' & Hs' & Hh' & ?).
  { destruct C as [Hk|C]; [exists k, e; split_and!; try done; lia|done]. }
  exists k', e'. split_and!; try done; try naive_solver. apply T'. by exists e'.
Qed.

(** ** Distribution *)

Section Distribution.
Context (verify : string → DistributionEnvelope → option err) (nodeID epoch : string).

(** Receivers that an edge can reach: messages, and the TLS clients that read the registry. *)
Inductive dreach : DistributionReceiver → Prop :=
  | dreach_new life maximum d : NewDistributionReceiver (NewRegistry life) nodeID epoch maximum = inr d → dreach d
  | dreach_stage cx en now at_ d : dreach d → dreach (Stage verify cx en now at_ d).2
  | dreach_both cx en now at_ later d : dreach d → dreach (StageAndReady verify cx en now at_ later d).2
  | dreach_ready cx en now at_ d : dreach d → dreach (Ready verify cx en now at_ d).2
  | dreach_activate cx en now at_ d : dreach d → dreach (Activate verify cx en now at_ d).2
  | dreach_retire cx en now d : dreach d → dreach (Retire verify cx en now d).2
  | dreach_revoke cx en now d : dreach d → dreach (Revoke verify cx en now d).2
  | dreach_close d : dreach d → dreach (Distribution_Close d)
  | dreach_get name now d : dreach d → dreach (d <| dr_registry := (GetCertificate name now (dr_registry d)).2 |>)
  | dreach_exact name now d : dreach d → dreach (d <| dr_registry := (RequiresExactCertificate name now (dr_registry d)).2 |>).

Definition approved (action : string) (b : Binding) : Prop :=
  ∃ en, verify action en = None ∧ de_Binding en = b ∧ bd_EdgeNodeID b = nodeID ∧ bd_EdgeProcessEpoch b = epoch.

Definition entry_approved (e : entry) : Prop :=
  approved "stage" (e_binding e) ∧ (e_state e = StateActive → approved "activate" (e_binding e)).

Record dinv (d : DistributionReceiver) : Prop := {
  di_node : dr_nodeID d = nodeID;
  di_epoch : dr_processEpoch d = epoch;
  di_registry : tinv (dr_registry d);
  di_entries : ∀ k e, rg_entries (dr_registry d) !! k = Some e → entry_approved e
}.

Lemma authenticate_approved cx action en now d :
  dr_nodeID d = nodeID → dr_processEpoch d = epoch → authenticate verify cx action en now d = None → approved action (de_Binding en).
Proof.
  intros Hn He. unfold authenticate. destruct (negb _); [done|]. destruct cx; [done|].
  destruct (_ || _) eqn:Eb; [done|]. destruct (_ || _) in |- *; [done|]. destruct (verify action en) eqn:Ev; [done|]. intros _.
  repeat (apply orb_false_iff in Eb as [Eb ?]). exists en. split_and!; try done.
  - apply negb_false_iff, bool_decide_eq_true in Eb. congruence.
  - match goal with X : (_ != dr_processEpoch d) = false |- _ => apply negb_false_iff, bool_decide_eq_true in X; congruence end.
Qed.

(** A behind_auth operation keeps the invariant when it does so for an approved binding. *)
Lemma behind_auth_inv cx action en now op d :
  dinv d → (∀ r, tinv r → tinv (op r).2) →
  (∀ r k e, tinv r → approved action (de_Binding en) → (∀ k' e', rg_entries r !! k' = Some e' → entry_approved e') →
     rg_entries (op r).2 !! k = Some e → entry_approved e) →
  dinv (behind_auth verify cx action en now op d).2.
Proof.
  intros [D1 D2 D3 D4] Hop Hen. unfold behind_auth. destruct (authenticate _ _ _ _ _ _) eqn:Ea; [done|].
  destruct (op (dr_registry d)) as [res r] eqn:Er. cbn [snd]. pose proof (Hop _ D3) as Hr. rewrite Er in Hr. split; try done.
  intros k e He. apply (Hen (dr_registry d) k e); try done; [by eapply authenticate_approved|by rewrite Er].
Qed.

Lemma continues_approved r r' :
  continues r r' → (∀ k e, rg_entries r !! k = Some e → entry_approved e) → ∀ k e, rg_entries r' !! k = Some e → entry_approved e.
Proof. intros C A k e He. destruct (C k e He) as (e0 & He0 & Hb & Hs). destruct (A _ _ He0). rewrite Hb in *. split; naive_solver. Qed.

Lemma stage_approved cx b bundle x now r :
  approved "stage" b → (∀ k e, rg_entries r !! k = Some e → entry_approved e) →
  ∀ k e, rg_entries (stage cx b bundle x now r).2 !! k = Some e → entry_approved e.
Proof.
  intros Hb A k e [(e0 & He0 & Hbe & Hs)|[<- Hs]]%stage_entries.
  - destruct (A _ _ He0). rewrite Hbe in *. split; naive_solver.
  - split; [done|]. congruence.
Qed.

Lemma dreach_dinv d : dreach d → dinv d.
Proof.
  induction 1 as [life mx d E|?????? IH|??????? IH|?????? IH|?????? IH|????? IH|????? IH|d _ IH|name now d _ IH|name now d _ IH].
  - unfold NewDistributionReceiver in E. destruct (_ || _); [done|]. injection E as <-. split; [done|done|apply tinv_new|done].
  - apply behind_auth_inv; [done|intros; by apply stage_inv|]. intros r k e _ Ha A. by apply stage_approved.
  - apply behind_auth_inv; [done| |].
    + intros r T. cbn zeta. pose proof (stage_inv cx (de_Binding en) (de_Bundle en) (distributionFingerprint (de_Fingerprint en)) at_ r T) as T'.
      destruct (stage _ _ _ _ _ _) as [[e|] r']; [done|by apply markReady_inv].
    + intros r k e _ Ha A. cbn zeta.
      pose proof (stage_approved cx (de_Binding en) (de_Bundle en) (distributionFingerprint (de_Fingerprint en)) at_ r Ha A) as A'.
      destruct (stage _ _ _ _ _ _) as [[e'|] r']; [apply A'|]. eapply continues_approved; [apply markReady_continues|done].
  - apply behind_auth_inv; [done|intros; by apply markReady_inv|]. intros r k e _ _ A. eapply continues_approved; [apply markReady_continues|done].
  - apply behind_auth_inv; [done|intros; by apply activate_inv|]. intros r k e T Ha A (e0 & He0 & Hb & Hs)%activate_entries; [|done].
    destruct (A _ _ He0). rewrite Hb in *. split; [done|]. intros [?| ->]%Hs; naive_solver.
  - apply behind_auth_inv; [done|intros; by apply retire_inv|]. intros r k e T _ A. eapply continues_approved; [by apply retire_continues|done].
  - apply behind_auth_inv; [done|intros; by apply revoke_inv|]. intros r k e _ _ A. eapply continues_approved; [apply revoke_continues|done].
  - destruct IH as [D1 D2 D3 D4]. split; try done; [by apply tls_Close_inv|]. eapply continues_approved; [apply Close_continues|done].
  - destruct IH as [D1 D2 D3 D4]. split; try done; cbn [dr_registry update]; destruct (GetCertificate_state name now (dr_registry d) D3) as [->| ->];
      try done; [by apply expireLocked_inv|]. eapply continues_approved; [apply continues_expire|done].
  - destruct IH as [D1 D2 D3 D4]. split; try done; cbn [dr_registry update]; destruct (Requires_state name now (dr_registry d)) as [->| ->];
      try done; [by apply expireLocked_inv|]. eapply continues_approved; [apply continues_expire|done].
Qed.

(** No certificate goes into service without the control plane: in every registry that is
    driven through the receiver, each entry is for this node and this process epoch and was
    brought by a message that the authenticator accepted for the action "stage"; an active
    entry was also named by a message accepted for "activate". *)
Theorem distribution_authenticated d k e :
  dreach d → rg_entries (dr_registry d) !! k = Some e →
  approved "stage" (e_binding e) ∧ (e_state e = StateActive → approved "activate" (e_binding e))
  ∧ bd_EdgeNodeID (e_binding e) = nodeID ∧ bd_EdgeProcessEpoch (e_binding e) = epoch.
Proof.
  intros D%dreach_dinv He. destruct (di_entries _ D _ _ He) as [Hst Hac]. split_and!; try done; destruct Hst as (en & ?); naive_solver.
Qed.
End Distribution.
End Guarantees.

(** ** A concrete edge *)

Module Certs.

(** Certificates of the example: the PEM text is the certificate, valid to 1000 for every
    name. *)
#[local] Instance sample_x509 : X509Lib := {|
  x509_sha256 b := b;
  X509KeyPair c _ := Some [c];
  ParseCertificate b := Some (mkLeaf b 1 1000 (λ _, None))
|}.
#[local] Instance sample_text : Route.TextLib := {|
  Route.unicode_lower s := s; Route.ToASCII s := Some s; Route.isIP _ := false; Route.ValidUTF8 _ := true |}.
#[local] Instance sample_fold : FoldLib := λ _ _, false.

Definition binding (domain host : string) (onDemand : bool) (generation : Z) : Binding :=
  mkBinding "account" "tunnel" domain host TargetDurableRoute "route" "" 0 "" 0 onDemand 1 generation "node" "epoch-0001" 1.

Definition bundle (c : Byte.byte) : Bundle := mkBundle [c] [c] "issuer" 0 0.

Definition serve (b : Binding) (c : Byte.byte) : list tls_op :=
  [OpStage None b (bundle c) None; OpMarkReady None b None; OpActivate None b None].

Definition run (l : list tls_op) : Registry := List.fold_left (λ r o, run_op 10 o r) l (NewRegistry 0).

Lemma run_reach l : treach (run l).
Proof.
  unfold run. generalize (treach_new 0). generalize (NewRegistry 0). induction l as [|o l IH]; intros r Hr; [done|].
  cbn. by apply IH, treach_op.
Qed.

Definition app1 : Binding := binding "domain-a" "app.example.com" false 1.
Definition app2 : Binding := binding "domain-a" "app.example.com" false 2.
Definition wild : Binding := binding "domain-a" "*.example.com" false 1.

(** One host, its renewal staged, and a wildcard. *)
Definition served : Registry :=
  run (serve app1 x01 ++ serve wild x02 ++ [OpStage None app2 (bundle x03) None; OpMarkReady None app2 None]).

Lemma served_reach : treach served.
Proof. apply run_reach. Qed.

Lemma certificates_invariant_witness :
  ∃ e e', rg_entries served !! bindingKey app1 = Some e ∧ rg_entries served !! bindingKey app2 = Some e' ∧ e_state e = StateActive ∧ e_state e' = StateReady
          ∧ entry_ok (bindingKey app1) e.
Proof.
  destruct (rg_entries served !! bindingKey app1) as [e|] eqn:E1; [|by vm_compute in E1]. destruct (rg_entries served !! bindingKey app2) as [e'|] eqn:E2; [|by vm_compute in E2].
  exists e, e'. split_and!; [reflexivity|reflexivity| | |exact (proj1 (certificates_invariant served served_reach) _ _ E1)].
  - vm_compute in E1. by injection E1 as <-.
  - vm_compute in E2. by injection E2 as <-.
Defined.


Lemma certificate_continuity_witness :
  ∃ k e, rg_active (run_op 20 (OpActivate None app2 None) served) !! "e:app.example.com" = Some k
    ∧ rg_entries (run_op 20 (OpActivate None app2 None) served) !! k = Some e ∧ e_state e = StateActive
    ∧ 1 ≤ bd_CertificateGeneration (e_binding e).
Proof.
  assert (rg_active served !! "e:app.example.com" = Some (bindingKey app1)) as Ha by (vm_compute; reflexivity).
  destruct (rg_entries served !! bindingKey app1) as [e|] eqn:He; [|by vm_compute in He].
  assert (past 20 e = false ∧ bd_CertificateGeneration (e_binding e) = 1) as [Hp Hg]
    by (vm_compute in He; injection He as <-; vm_compute; split; reflexivity).
  pose proof (certificate_continuity served 20 (OpActivate None app2 None) "e:app.example.com" (bindingKey app1) e) as C.
  specialize (C served_reach Ha He Hp I). destruct C
    as (k' & e' & Hk' & He' & Hs' & _ & _ & _ & Hg'). exists k', e'. rewrite Hg in Hg'. exact (conj Hk' (conj He' (conj Hs' Hg'))).
Defined.

(** The host-name conflict is only looked for when a certificate is staged: two domains that
    stage certificates for one host before either is active both activate, and the second one
    takes the host name over; once a certificate is active, staging one for another domain is
    refused. *)
Definition rival : Binding := binding "domain-b" "app.example.com" false 2.

Theorem hostname_taken_over :
  let both := run [OpStage None app1 (bundle x01) None; OpStage None rival (bundle x02) None; OpMarkReady None app1 None;
                   OpMarkReady None rival None; OpActivate None app1 None] in
  Is (default ErrClosed (stage None rival (bundle x02) None 20 (run (serve app1 x01))).1) "TLS certificate hostname conflict" = true
  ∧ (activate None rival None 20 both).1 = None
  ∧ rg_active (activate None rival None 20 both).2 !! "e:app.example.com" = Some (bindingKey rival).
Proof. by vm_compute. Qed.

(** *** Distribution *)

Definition checker (action : string) (en : DistributionEnvelope) : option err :=
  if bool_decide (de_Proof en = sbytes action) then None else Some ErrDistributionAuth.

Definition notice (action : string) (b : Binding) (c : Byte.byte) : DistributionEnvelope :=
  mkEnvelope "certificate" [c] b (bundle c) (sbytes action) 5 100.

Definition receiver0 : DistributionReceiver :=
  match NewDistributionReceiver (NewRegistry 0) "node" "epoch-0001" 0 with inr d => d | inl _ => mkReceiver (NewRegistry 0) "" "" 0 end.

Definition receiver1 : DistributionReceiver :=
  (Activate checker None (notice "activate" app1 x01) 10 10
     (StageAndReady checker None (notice "stage" app1 x01) 10 10 10 receiver0).2).2.

Lemma distribution_authenticated_witness :
  ∃ e, rg_entries (dr_registry receiver1) !! bindingKey app1 = Some e ∧ e_state e = StateActive
    ∧ approved checker "node" "epoch-0001" "activate" (e_binding e).
Proof.
  destruct (rg_entries (dr_registry receiver1) !! bindingKey app1) as [e|] eqn:E; [|by vm_compute in E].
  assert (e_state e = StateActive) as Hs by (vm_compute in E; injection E as <-; reflexivity).
  exists e. split; [reflexivity|]. split; [exact Hs|]. refine (proj1 (proj2 (distribution_authenticated checker "node" "epoch-0001" receiver1 _ e _ E)) Hs).
  apply dreach_activate, dreach_both, (dreach_new _ _ _ 0 0). reflexivity.
Defined.
End Certs.
End TLSCertGuarantees.
