(* ===== verification/SignalProtocol.v ===== *)
(** * Peer signaling messages

    Models [internal/peersignalingprotocol/validator.go]: the strict, canonical decoding of
    one signaling message and the per-role validator that follows the sequence of a role,
    and the frames of [internal/peersignalinghttp/substrate.go] that carry many channels
    over one connection.  Whether a candidate line is an acceptable ICE candidate is the
    interface [ICELib]. *)
From S2P Require Import Prelude Go Strings Protocol Utf8 JSON StrictJSON StreamFrames.

(** [ice.UnmarshalCandidate] accepts the line, and it is an UDP candidate with an IP address
    that is not relayed. *)
Class ICELib := usable_candidate : string → bool.

Module SignalProtocol.
Import StrictJSON StreamFrames.

Definition Schema := "paperboat.peer-signaling/v1".
Definition MaximumMessage : Z := 16 * 1024.
Definition MaximumCandidate : Z := 2048.
Definition MaximumCandidates : Z := 64.

Definition ErrInvalid : err := EPlain "invalid peer signaling message".
Definition ErrStale : err := EPlain "stale peer signaling generation".
Definition ErrSequence : err := EPlain "peer signaling sequence is invalid".
Definition ErrLimit : err := EPlain "peer signaling limit exceeded".
Definition ErrClosed : err := EPlain "peer signaling session is closed".

Definition RoleControlling := "controlling".
Definition RoleControlled := "controlled".

Record Binding := mkBinding {
  bi_IntentID : string;
  bi_AttemptGeneration : Z;
  bi_NetworkGeneration : Z;
  bi_Role : string
}.
#[export] Instance Binding_eq_dec : EqDecision Binding.
Proof. solve_decision. Defined.

Record message := mkMessage {
  ms_Schema : string;
  ms_IntentID : string;
  ms_AttemptGeneration : Z;
  ms_NetworkGeneration : Z;
  ms_Role : string;
  ms_Sequence : Z;
  ms_Kind : string;
  ms_Ufrag : string;
  ms_Password : string;
  ms_Candidate : string;
  ms_Reason : string
}.
#[export] Instance message_eta : Eta message := λ r,
  mkMessage (ms_Schema r) (ms_IntentID r) (ms_AttemptGeneration r) (ms_NetworkGeneration r) (ms_Role r) (ms_Sequence r)
    (ms_Kind r) (ms_Ufrag r) (ms_Password r) (ms_Candidate r) (ms_Reason r).
#[export] Instance message_eq_dec : EqDecision message.
Proof. solve_decision. Defined.

Definition zeroMessage : message := mkMessage "" "" 0 0 "" 0 "" "" "" "" "".

(** ** Encoding and decoding *)

(** A member with [omitempty]. *)
Definition optional_member (name value : string) : list (text * json) :=
  if value == "" then [] else [(ascii name, jstr value)].

Definition message_json (m : message) : json :=
  JObject ([ (ascii "schema", jstr (ms_Schema m)); (ascii "intent_id", jstr (ms_IntentID m));
             (ascii "attempt_generation", jnum (ms_AttemptGeneration m)); (ascii "network_generation", jnum (ms_NetworkGeneration m));
             (ascii "role", jstr (ms_Role m)); (ascii "sequence", jnum (ms_Sequence m)); (ascii "kind", jstr (ms_Kind m)) ]
           ++ optional_member "ufrag" (ms_Ufrag m) ++ optional_member "password" (ms_Password m)
           ++ optional_member "candidate" (ms_Candidate m) ++ optional_member "reason" (ms_Reason m)).

Definition message_names : list string :=
  ["schema"; "intent_id"; "attempt_generation"; "network_generation"; "role"; "sequence"; "kind"; "ufrag"; "password";
   "candidate"; "reason"].

Definition message_set (name : string) (v : json) : message → option message :=
  if name == "schema" then string_field (λ x r, r <| ms_Schema := x |>) v
  else if name == "intent_id" then string_field (λ x r, r <| ms_IntentID := x |>) v
  else if name == "attempt_generation" then uint64_field (λ x r, r <| ms_AttemptGeneration := x |>) v
  else if name == "network_generation" then uint64_field (λ x r, r <| ms_NetworkGeneration := x |>) v
  else if name == "role" then string_field (λ x r, r <| ms_Role := x |>) v
  else if name == "sequence" then uint64_field (λ x r, r <| ms_Sequence := x |>) v
  else if name == "kind" then string_field (λ x r, r <| ms_Kind := x |>) v
  else if name == "ufrag" then string_field (λ x r, r <| ms_Ufrag := x |>) v
  else if name == "password" then string_field (λ x r, r <| ms_Password := x |>) v
  else if name == "candidate" then string_field (λ x r, r <| ms_Candidate := x |>) v
  else if name == "reason" then string_field (λ x r, r <| ms_Reason := x |>) v
  else λ _, None.

Definition decode_message : json → option message := decode_struct message_names message_set zeroMessage.

Definition message_bytes (m : message) : bytes := byte_of_Z <$> Marshal (message_json m).

Definition credential_byte (b : byte) : bool := is_alnum b || one_of [43; 47] b.
Definition credentialCharacters (value : string) : bool := forallb credential_byte (sbytes value).

Definition validCredential (ufrag password : string) : bool :=
  (4 <=? len ufrag) && (len ufrag <=? 256) && (22 <=? len password) && (len password <=? 256)
  && credentialCharacters ufrag && credentialCharacters password.

Definition validReason (value : string) : bool :=
  mem_str ["completed"; "canceled"; "network_changed"; "expired"; "revoked"; "protocol_error"; "capacity"] value.

Definition boundedID (value : string) : bool :=
  (0 <? len value) && (len value <=? 256) && negb (ContainsAny value [13; 10; 0]).

Definition validBinding (value : Binding) : bool :=
  boundedID (bi_IntentID value) && (0 <? bi_AttemptGeneration value) && (0 <? bi_NetworkGeneration value)
  && ((bi_Role value == RoleControlling) || (bi_Role value == RoleControlled)).

Section Validator.
Context `{ICELib}.

Definition validCandidate (raw : string) : bool :=
  if (len raw =? 0) || (MaximumCandidate <? len raw) then false else usable_candidate raw.

(** The switch over the kind in [decode]. *)
Definition valid_body (m : message) : bool :=
  let none s := s == "" in
  if ms_Kind m == "credentials" then validCredential (ms_Ufrag m) (ms_Password m) && none (ms_Candidate m) && none (ms_Reason m)
  else if ms_Kind m == "candidate" then none (ms_Ufrag m) && none (ms_Password m) && none (ms_Reason m) && validCandidate (ms_Candidate m)
  else if (ms_Kind m == "end") || (ms_Kind m == "ready") then
    none (ms_Ufrag m) && none (ms_Password m) && none (ms_Candidate m) && none (ms_Reason m)
  else if ms_Kind m == "close" then none (ms_Ufrag m) && none (ms_Password m) && none (ms_Candidate m) && validReason (ms_Reason m)
  else false.

(** A text that nests values is refused either way, since every field is a string or a
    number, so the nesting limit of the reader is of no effect. *)
Definition decode (raw : bytes) (binding : Binding) : err + message :=
  if (blen raw =? 0) || (MaximumMessage <? blen raw) then inl ErrLimit
  else match parse_text (byte_to_Z <$> raw) with
  | None => inl ErrInvalid
  | Some v =>
      match decode_message v with
      | None => inl ErrInvalid
      | Some m =>
          if (ms_Schema m != Schema) || (ms_IntentID m != bi_IntentID binding) || (ms_Role m != bi_Role binding) || (ms_Sequence m =? 0)
          then inl ErrInvalid
          else if negb (ms_AttemptGeneration m =? bi_AttemptGeneration binding) || negb (ms_NetworkGeneration m =? bi_NetworkGeneration binding)
          then inl ErrStale
          else if negb (valid_body m) then inl ErrInvalid
          else if message_bytes m != raw then inl ErrInvalid
          else inr m
      end
  end.

(** ** The validator of one role *)

Record validator := mkValidator {
  v_binding : Binding;
  v_lastSequence : Z;
  v_candidates : gset string;
  v_credentials : bool;
  v_ended : bool;
  v_ready : bool;
  v_closed : bool
}.
#[export] Instance validator_eta : Eta validator := λ r,
  mkValidator (v_binding r) (v_lastSequence r) (v_candidates r) (v_credentials r) (v_ended r) (v_ready r) (v_closed r).

Definition NewValidator (binding : Binding) : err + validator :=
  if negb (validBinding binding) then inl ErrInvalid else inr (mkValidator binding 0 ∅ false false false false).

(** The first switch of [Accept]: is the kind due? *)
Definition due (m : message) (v : validator) : option err :=
  if ms_Kind m == "credentials" then (if v_credentials v || v_ended v then Some ErrSequence else None)
  else if ms_Kind m == "candidate" then
    if negb (v_credentials v) || v_ended v then Some ErrSequence
    else if negb (bool_decide (ms_Candidate m ∈ v_candidates v)) && (MaximumCandidates <=? Z.of_nat (size (v_candidates v)))
    then Some ErrLimit else None
  else if ms_Kind m == "end" then (if negb (v_credentials v) || v_ended v then Some ErrSequence else None)
  else if ms_Kind m == "ready" then (if negb (v_credentials v) || v_ready v then Some ErrSequence else None)
  else None.

(** The second switch: the effect, and whether the message is new. *)
Definition apply_message (m : message) (v : validator) : bool * validator :=
  let v := v <| v_lastSequence := ms_Sequence m |> in
  if ms_Kind m == "credentials" then (true, v <| v_credentials := true |>)
  else if ms_Kind m == "candidate" then
    if bool_decide (ms_Candidate m ∈ v_candidates v) then (false, v)
    else (true, v <| v_candidates := {[ms_Candidate m]} ∪ v_candidates v |>)
  else if ms_Kind m == "end" then (true, v <| v_ended := true |>)
  else if ms_Kind m == "ready" then (true, v <| v_ready := true |>)
  else if ms_Kind m == "close" then (true, v <| v_closed := true |>)
  else (true, v).

Definition Accept (raw : bytes) (v : validator) : (err + bool) * validator :=
  if v_closed v then (inl ErrClosed, v)
  else if v_lastSequence v =? two64 - 1 then (inl ErrSequence, v)
  else match decode raw (v_binding v) with
  | inl e => (inl e, v)
  | inr m =>
      if negb (ms_Sequence m =? u64 (v_lastSequence v + 1)) then (inl ErrSequence, v)
      else match due m v with
      | Some e => (inl e, v)
      | None => let '(applied, v) := apply_message m v in (inr applied, v)
      end
  end.
End Validator.

(** ** Substrate frames *)

Definition substrateHeaderSize : Z := 10.
Definition substrateMaxChannels : Z := 256.

Inductive substrateKind := substrateAttach | substrateReady | substrateData | substrateComplete | substrateAbort | substrateRejected.

Definition kind_byte (k : substrateKind) : Z :=
  match k with
  | substrateAttach => 1 | substrateReady => 2 | substrateData => 3
  | substrateComplete => 4 | substrateAbort => 5 | substrateRejected => 6
  end.

Definition kind_of_byte (z : Z) : option substrateKind :=
  List.find (λ k, kind_byte k =? z)
    [substrateAttach; substrateReady; substrateData; substrateComplete; substrateAbort; substrateRejected].

Record substrateFrame := mkFrame { sf_kind : substrateKind; sf_channel : Z; sf_body : bytes }.

Definition validSubstrate (kind : substrateKind) (body : bytes) : bool :=
  match kind with
  | substrateAttach => (0 <? blen body) && (blen body <=? 8192)
  | substrateData => (0 <? blen body) && (blen body <=? MaximumMessage)
  | _ => blen body =? 0
  end.

Definition ErrSubstrate : err := EPlain "invalid signaling substrate frame".

(** [binary.BigEndian.PutUint64] and [Uint64]. *)
Definition put_uint64 (z : Z) : bytes := put_uint32 (z / two32) ++ put_uint32 z.
Definition uint64_of (b : bytes) : Z := two32 * uint32_of (take 4 b) + uint32_of (drop 4 b).

Definition encodeSubstrate (frame : substrateFrame) : err + bytes :=
  if (sf_channel frame =? 0) || negb (validSubstrate (sf_kind frame) (sf_body frame)) then inl ErrSubstrate
  else inr ([byte_of_Z 1; byte_of_Z (kind_byte (sf_kind frame))] ++ put_uint64 (sf_channel frame) ++ sf_body frame).

Definition decodeSubstrate (raw : bytes) : err + substrateFrame :=
  match raw with
  | version :: kind :: rest =>
      if (blen raw <? substrateHeaderSize) || (substrateHeaderSize + MaximumMessage <? blen raw) || negb (byte_to_Z version =? 1)
      then inl ErrSubstrate
      else
        let channel := uint64_of (take 8 rest) in
        let body := drop 8 rest in
        match kind_of_byte (byte_to_Z kind) with
        | Some kind => if (channel =? 0) || negb (validSubstrate kind body) then inl ErrSubstrate else inr (mkFrame kind channel body)
        | None => inl ErrSubstrate
        end
  | _ => inl ErrSubstrate
  end.

End SignalProtocol.
