(* ===== verification/SignalProtocolProofs.v ===== *)
(** * Peer signaling messages: canonical form, sequence discipline and frames *)
From S2P Require Import Prelude Go Strings Protocol Utf8 JSON JSONProofs StrictJSON StrictJSONProofs CanonicalJSON StreamFrames StreamFramesProofs SignalProtocol.

Module SignalProtocolProofs.
Import StrictJSON StrictJSONProofs StreamFrames CanonicalJSON StreamFramesProofs SignalProtocol.

(** ** The encoding of a message *)

Definition numbers_ok (m : message) : Prop :=
  is_u64 (ms_AttemptGeneration m) ∧ is_u64 (ms_NetworkGeneration m) ∧ is_u64 (ms_Sequence m).

Lemma decode_optional name put value (r : message) rest :
  find_field message_names (ascii name) = Some name → (∀ x, message_set name (jstr x) = λ r, Some (put x r)) →
  (value = "" → put value r = r) →
  set_members message_names message_set (optional_member name value ++ rest) r
  = set_members message_names message_set rest (put value r).
Proof.
  intros Hf Hs Hz. unfold optional_member. case_bool_decide as E; [by rewrite Hz|].
  cbn [app set_members]. by rewrite Hf, Hs.
Qed.

Ltac flatten_message :=
  cbv beta iota delta [update zeroMessage ms_Schema ms_IntentID ms_AttemptGeneration ms_NetworkGeneration ms_Role ms_Sequence ms_Kind
                       ms_Ufrag ms_Password ms_Candidate ms_Reason].

Lemma decode_message_eq m : numbers_ok m → decode_message (message_json m) = Some m.
Proof.
  intros (H1 & H2 & H3). unfold decode_message, message_json, decode_struct, jnum. cbn [app].
  destruct m as [sc intent att net role seq kind uf pw cand reason]. cbn [ms_Schema ms_IntentID ms_AttemptGeneration ms_NetworkGeneration ms_Role ms_Sequence ms_Kind
    ms_Ufrag ms_Password ms_Candidate ms_Reason] in *.
  repeat match goal with
  | |- context [set_members _ _ ((ascii ?k, ?v) :: ?l) ?r] =>
      change (set_members message_names message_set ((ascii k, v) :: l) r)
      with (match message_set k v r with Some acc => set_members message_names message_set l acc | None => None end);
      unfold message_set at 1; decide_names; unfold string_field, uint64_field, jstr; rewrite ?ParseUint_Itoa by done; flatten_message
  end.
  rewrite (decode_optional "ufrag" (λ x r, r <| ms_Ufrag := x |>)); [|done|intros x; unfold message_set, jstr; decide_names; unfold string_field; by rewrite of_text_ascii|by intros ->]. flatten_message.
  rewrite (decode_optional "password" (λ x r, r <| ms_Password := x |>)); [|done|intros x; unfold message_set, jstr; decide_names; unfold string_field; by rewrite of_text_ascii|by intros ->]. flatten_message.
  rewrite (decode_optional "candidate" (λ x r, r <| ms_Candidate := x |>)); [|done|intros x; unfold message_set, jstr; decide_names; unfold string_field; by rewrite of_text_ascii|by intros ->]. flatten_message.
  rewrite <- (app_nil_r (optional_member "reason" _)).
  rewrite (decode_optional "reason" (λ x r, r <| ms_Reason := x |>)); [|done|intros x; unfold message_set, jstr; decide_names; unfold string_field; by rewrite of_text_ascii|by intros ->]. flatten_message.
  cbn [set_members]. by rewrite !of_text_ascii.
Qed.

Definition texts_ok (m : message) : Prop :=
  Forall (λ s, valid_utf8 (ascii s))
    [ms_Schema m; ms_IntentID m; ms_Role m; ms_Kind m; ms_Ufrag m; ms_Password m; ms_Candidate m; ms_Reason m].

Lemma members_ok (m : list (text * json)) :
  scalars_ok (JObject m) ↔ Forall (λ kv, valid_utf8 kv.1 ∧ scalars_ok kv.2) m.
Proof. cbn. induction m as [|kv m IH]; cbn; [done|]. by rewrite Forall_cons, IH. Qed.

Lemma name_ok k : forallb plain_byte (sbytes k) = true → valid_utf8 (ascii k).
Proof. intros ?. by apply plain_valid, plain_check. Qed.

Lemma optional_ok name value :
  forallb plain_byte (sbytes name) = true → valid_utf8 (ascii value) →
  Forall (λ kv, valid_utf8 kv.1 ∧ scalars_ok kv.2) (optional_member name value).
Proof.
  intros Hn Hv. unfold optional_member. case_bool_decide; [constructor|]. apply Forall_singleton. split; [by apply name_ok|done].
Qed.

Lemma message_json_ok m : numbers_ok m → texts_ok m → scalars_ok (message_json m) ∧ nested (message_json m) ≤ MaxJSONDepth.
Proof.
  intros (Ha & Hn & Hs) Ht. unfold texts_ok in Ht.
  repeat match goal with X : Forall _ (_ :: _) |- _ => apply Forall_cons in X as [? X] end. split.
  - apply members_ok. rewrite !Forall_app. split_and!; try (by apply optional_ok).
    repeat (apply Forall_cons; split); [..|constructor]; (split; [by apply name_ok|cbn [snd]; try done]);
      match goal with X : is_u64 ?z |- scalars_ok (jnum ?z) => apply jnum_ok, X end.
  - unfold message_json, optional_member. repeat case_bool_decide; vm_compute; done.
Qed.

Lemma parse_message m :
  numbers_ok m → texts_ok m → parse_text (byte_to_Z <$> message_bytes m) = Some (message_json m).
Proof.
  intros Hn Ht. destruct (message_json_ok m Hn Ht) as [Hs Hd]. unfold message_bytes.
  assert (byte_to_Z <$> (byte_of_Z <$> Marshal (message_json m)) = Marshal (message_json m)) as -> by (apply to_of_codes, Marshal_bytes, Hs).
  by apply parse_text_Marshal.
Qed.

Section Validator.
Context `{ICELib}.

(** A message that fits a binding. *)
Definition bound_to (b : Binding) (m : message) : Prop :=
  ms_Schema m = Schema ∧ ms_IntentID m = bi_IntentID b ∧ ms_Role m = bi_Role b
  ∧ ms_AttemptGeneration m = bi_AttemptGeneration b ∧ ms_NetworkGeneration m = bi_NetworkGeneration b ∧ valid_body m = true.

Lemma decode_spec raw b m :
  decode raw b = inr m ↔
  0 < blen raw ≤ MaximumMessage ∧ (∃ v, parse_text (byte_to_Z <$> raw) = Some v ∧ decode_message v = Some m)
  ∧ bound_to b m ∧ ms_Sequence m ≠ 0 ∧ raw = message_bytes m.
Proof.
  unfold decode. split.
  - destruct (_ || _) eqn:El; [done|]. destruct (parse_text _) as [v|]; [|done]. destruct (decode_message v) as [x|] eqn:Ex; [|done].
    destruct (_ || _) eqn:E1 in |- *; [done|]. destruct (_ || _) eqn:E2 in |- *; [done|]. destruct (valid_body x) eqn:E3; [|done].
    destruct (message_bytes x != raw) eqn:E4; [done|]. intros [= ->].
    repeat match goal with X : _ || _ = false |- _ => apply orb_false_iff in X as [? ?] end.
    repeat match goal with X : negb (bool_decide _) = false |- _ => apply negb_false_iff, bool_decide_eq_true in X end.
    unfold blen in *. split; [lia|]. split; [by exists v|]. split; [split_and!; try done; lia|]. split; [lia|done].
  - intros ((Hl & Hl') & (v & -> & ->) & (-> & -> & -> & -> & -> & ->) & Hs & ->).
    destruct (_ || _) eqn:El; [lia|]. rewrite !bool_decide_eq_true_2 by done. cbn [negb orb].
    rewrite (proj2 (Z.eqb_neq _ _) Hs), !Z.eqb_refl. done.
Qed.

(** Round trip of signaling messages: every well-formed message of the binding, with valid
    texts and within the size limit, is decoded from its encoding; and a text that is decoded
    is the encoding of the message, so no two texts stand for one message. *)
Theorem signal_message_roundtrip b m :
  bound_to b m → numbers_ok m → texts_ok m → ms_Sequence m ≠ 0 → blen (message_bytes m) ≤ MaximumMessage →
  decode (message_bytes m) b = inr m ∧ (∀ raw, decode raw b = inr m → raw = message_bytes m).
Proof.
  intros Hb Hn Ht Hs Hl. split; [|by intros raw (_ & _ & _ & _ & ?)%decode_spec]. apply decode_spec. split_and!; try done.
  exists (message_json m). split; [by apply parse_message|by apply decode_message_eq].
Qed.

(** ** The sequence of a role

    What a role may send, as a condition on the messages accepted from it before. *)
Definition sent_kind (k : string) (hs : list message) : bool := existsb (λ m, ms_Kind m == k) hs.
Definition candidates_of (hs : list message) : gset string :=
  list_to_set (ms_Candidate <$> List.filter (λ m, ms_Kind m == "candidate") hs).

Definition may_follow (hs : list message) (m : message) : Prop :=
  ms_Sequence m = Z.of_nat (length hs) + 1 ∧ ms_Sequence m < two64
  ∧ sent_kind "close" hs = false
  ∧ (ms_Kind m ∈ ["candidate"; "end"; "ready"] → sent_kind "credentials" hs = true)
  ∧ (ms_Kind m ∈ ["credentials"; "candidate"; "end"] → sent_kind "end" hs = false)
  ∧ (ms_Kind m = "credentials" → sent_kind "credentials" hs = false)
  ∧ (ms_Kind m = "ready" → sent_kind "ready" hs = false)
  ∧ (ms_Kind m = "candidate" → ms_Candidate m ∈ candidates_of hs ∨ Z.of_nat (size (candidates_of hs)) < MaximumCandidates).

#[export] Instance may_follow_dec hs m : Decision (may_follow hs m).
Proof. unfold may_follow. apply _. Defined.

(** Whether the message is new: a candidate seen before is not forwarded. *)
Definition is_new (hs : list message) (m : message) : bool :=
  negb ((ms_Kind m == "candidate") && bool_decide (ms_Candidate m ∈ candidates_of hs)).

(** The validator after the messages [hs]. *)
Definition summary (b : Binding) (hs : list message) : validator :=
  mkValidator b (Z.of_nat (length hs)) (candidates_of hs) (sent_kind "credentials" hs) (sent_kind "end" hs)
    (sent_kind "ready" hs) (sent_kind "close" hs).

Lemma sent_kind_snoc k hs m : sent_kind k (hs ++ [m]) = sent_kind k hs || (ms_Kind m == k).
Proof. unfold sent_kind. rewrite existsb_app. cbn. by rewrite orb_false_r. Qed.

Lemma candidates_snoc hs m :
  candidates_of (hs ++ [m]) = if ms_Kind m == "candidate" then {[ms_Candidate m]} ∪ candidates_of hs else candidates_of hs.
Proof.
  unfold candidates_of. rewrite List.filter_app, fmap_app, list_to_set_app_L. cbn. case_bool_decide; cbn; set_solver.
Qed.

Lemma valid_kind m : valid_body m = true → ms_Kind m ∈ ["credentials"; "candidate"; "end"; "ready"; "close"].
Proof. rewrite !elem_of_cons, elem_of_nil. unfold valid_body. repeat case_bool_decide; cbn [orb]; try done; naive_solver. Qed.

(** The five kinds, one after the other. *)
Ltac by_kind m :=
  match goal with X : ms_Kind m ∈ _ |- _ => rewrite !elem_of_cons, elem_of_nil in X; destruct X as [X|[X|[X|[X|[X|[]]]]]] end.

Lemma due_spec b hs m :
  ms_Kind m ∈ ["credentials"; "candidate"; "end"; "ready"; "close"] → ms_Sequence m = Z.of_nat (length hs) + 1 → ms_Sequence m < two64 →
  sent_kind "close" hs = false → due m (summary b hs) = None ↔ may_follow hs m.
Proof.
  intros Hk Hs Hl Hc. unfold may_follow. rewrite !elem_of_cons, !elem_of_nil. unfold due, summary. by_kind m; rewrite Hk in *; decide_names;
    cbn [v_credentials v_ended v_ready v_candidates]; destruct (sent_kind "credentials" hs), (sent_kind "end" hs), (sent_kind "ready" hs);
    cbn [orb negb]; try (by split; [done|naive_solver]); try (by split; [naive_solver|done]).
  all: destruct (negb _ && _) eqn:E; [split; [done|]|split; [|done]].
  1,3: apply andb_true_iff in E as [Hn%negb_true_iff%bool_decide_eq_false Hsz]; naive_solver lia.
  all: intros _; split_and!; try done; try naive_solver; intros _;
    apply andb_false_iff in E as [E%negb_false_iff%bool_decide_eq_true|E]; [by left|right; lia].
Qed.

Lemma apply_spec b hs m :
  ms_Kind m ∈ ["credentials"; "candidate"; "end"; "ready"; "close"] → ms_Sequence m = Z.of_nat (length hs) + 1 →
  apply_message m (summary b hs) = (is_new hs m, summary b (hs ++ [m])).
Proof.
  intros Hk Hs. unfold apply_message, is_new, summary. rewrite !sent_kind_snoc, candidates_snoc, length_app.
  replace (Z.of_nat (length hs + length [m])) with (ms_Sequence m) by (cbn [length]; lia).
  by_kind m; rewrite Hk in *; decide_names; cbn [andb negb v_candidates update]; rewrite ?orb_false_r, ?orb_true_r; try done.
  case_bool_decide; [|done]. cbn [negb]. f_equal. f_equal. set_solver.
Qed.

Lemma summary_fields b hs :
  v_closed (summary b hs) = sent_kind "close" hs ∧ v_lastSequence (summary b hs) = Z.of_nat (length hs) ∧ v_binding (summary b hs) = b.
Proof. done. Qed.

Lemma Accept_spec b hs raw :
  Z.of_nat (length hs) < two64 →
  (∀ m, decode raw b = inr m → may_follow hs m → Accept raw (summary b hs) = (inr (is_new hs m), summary b (hs ++ [m])))
  ∧ ((∀ m, decode raw b = inr m → ¬ may_follow hs m) → ∃ e, Accept raw (summary b hs) = (inl e, summary b hs)).
Proof.
  intros Hlen. unfold Accept. destruct (summary_fields b hs) as (-> & -> & ->). split.
  - intros m Hd Hf. pose proof Hf as (Hs & Hl & Hc & _). rewrite Hc, Hd. rewrite (proj2 (Z.eqb_neq _ _)) by lia.
    unfold u64. rewrite Z.mod_small by lia. rewrite (proj2 (Z.eqb_eq _ _) Hs). cbn [negb].
    assert (ms_Kind m ∈ ["credentials"; "candidate"; "end"; "ready"; "close"]) as Hk by (apply decode_spec in Hd as (_ & _ & Hb & _); by apply valid_kind, Hb).
    rewrite (proj2 (due_spec b hs m Hk Hs Hl Hc) Hf), apply_spec by done. done.
  - intros Hno. destruct (sent_kind "close" hs) eqn:Hc; [by eexists|]. destruct (Z.eqb_spec (Z.of_nat (length hs)) (two64 - 1)); [by eexists|].
    destruct (decode raw b) as [e|m] eqn:Hd; [by eexists|]. unfold u64. rewrite Z.mod_small by lia.
    destruct (Z.eqb_spec (ms_Sequence m) (Z.of_nat (length hs) + 1)) as [Hs|]; [|by eexists]. cbn [negb].
    destruct (due m (summary b hs)) as [e|] eqn:Hdue; [by eexists|]. exfalso. apply (Hno m eq_refl).
    apply (due_spec b hs m); try done; [|lia]. apply decode_spec in Hd as (_ & _ & Hb & _). by apply valid_kind, Hb.
Qed.

(** C24. The validator keeps a summary of what it accepted: it accepts a text exactly when it is
    the canonical encoding of a message of the binding that may follow the accepted ones,
    reports whether it is new, and is then the summary of the longer history; a refused text
    leaves it unchanged. *)
Theorem validator_refines_history b hs raw :
  Z.of_nat (length hs) < two64 →
  (∀ m, decode raw b = inr m → may_follow hs m → Accept raw (summary b hs) = (inr (is_new hs m), summary b (hs ++ [m])))
  ∧ ((∀ m, decode raw b = inr m → ¬ may_follow hs m) → ∃ e, Accept raw (summary b hs) = (inl e, summary b hs)).
Proof. apply Accept_spec. Qed.
End Validator.

(** ** Histories *)

Section Histories.
Context `{ICELib}.

(** The messages accepted from a role, in order. *)
Inductive history (b : Binding) : list message → Prop :=
  | history_nil : history b []
  | history_snoc hs m : history b hs → bound_to b m → may_follow hs m → history b (hs ++ [m]).

(** The new ones among [hs], after [pre]. *)
Fixpoint news_after (pre hs : list message) : list message :=
  match hs with
  | [] => []
  | m :: hs => (if is_new pre m then [m] else []) ++ news_after (pre ++ [m]) hs
  end.

Definition news (hs : list message) : list message := news_after [] hs.

Lemma news_after_snoc pre hs m :
  news_after pre (hs ++ [m]) = news_after pre hs ++ (if is_new (pre ++ hs) m then [m] else []).
Proof.
  revert pre. induction hs as [|x hs IH]; intros pre; cbn; [by rewrite !app_nil_r|]. rewrite IH, <- !app_assoc. done.
Qed.

Lemma news_snoc hs m : news (hs ++ [m]) = news hs ++ (if is_new hs m then [m] else []).
Proof. apply news_after_snoc. Qed.

Lemma history_length b hs : history b hs → Z.of_nat (length hs) < two64.
Proof. destruct 1 as [|hs m _ _ (Hs & Hl & _)]; [done|]. rewrite length_app. cbn. lia. Qed.

Lemma history_sequence b hs : history b hs → ∀ i m, hs !! i = Some m → ms_Sequence m = Z.of_nat i + 1 ∧ bound_to b m.
Proof.
  induction 1 as [|hs m Hh IH Hb Hf]; intros i x Hx; [done|]. apply lookup_app_Some in Hx as [Hx|[Hi Hx]]; [by apply IH|].
  destruct (i - length hs)%nat as [|j] eqn:Ej; [|done]. injection Hx as <-. destruct Hf as (Hs & _). split; [lia|done].
Qed.

(** One message through the validator of a history. *)
Lemma Accept_history b hs raw res v :
  history b hs → Accept raw (summary b hs) = (res, v) →
  (∃ e, res = inl e ∧ v = summary b hs)
  ∨ ∃ m, raw = message_bytes m ∧ history b (hs ++ [m]) ∧ res = inr (is_new hs m) ∧ v = summary b (hs ++ [m]).
Proof.
  intros Hh E. destruct (Accept_spec b hs raw (history_length _ _ Hh)) as [Hyes Hno].
  destruct (decode raw b) as [e|m] eqn:Hd.
  - left. destruct Hno as (e' & Hno); [done|]. exists e'. rewrite Hno in E. by simplify_eq.
  - destruct (decide (may_follow hs m)) as [Hf|Hf].
    + right. exists m. rewrite (Hyes m eq_refl Hf) in E. simplify_eq. apply decode_spec in Hd as (_ & _ & Hb & _ & ->).
      split_and!; try done. by constructor.
    + left. destruct Hno as (e' & Hno); [by intros x [= <-]|]. exists e'. rewrite Hno in E. by simplify_eq.
Qed.
End Histories.

(** ** Substrate frames *)

Lemma uint32_of_put z : uint32_of (put_uint32 z) = z mod two32.
Proof.
  unfold uint32_of, put_uint32, two32. rewrite !byte_to_of_Z.
  replace (z / 65536) with (z / 256 / 256) by (by rewrite Z.div_div).
  replace (z / 16777216) with (z / 256 / 256 / 256) by (by rewrite !Z.div_div).
  apply (Z.mod_unique_pos _ _ (z / 256 / 256 / 256 / 256)).
  - pose proof (Z.mod_pos_bound z 256 ltac:(lia)). pose proof (Z.mod_pos_bound (z / 256) 256 ltac:(lia)).
    pose proof (Z.mod_pos_bound (z / 256 / 256) 256 ltac:(lia)). pose proof (Z.mod_pos_bound (z / 256 / 256 / 256) 256 ltac:(lia)). lia.
  - pose proof (Z.div_mod z 256 ltac:(lia)). pose proof (Z.div_mod (z / 256) 256 ltac:(lia)).
    pose proof (Z.div_mod (z / 256 / 256) 256 ltac:(lia)). pose proof (Z.div_mod (z / 256 / 256 / 256) 256 ltac:(lia)). lia.
Qed.

Lemma uint64_roundtrip z : is_u64 z → uint64_of (put_uint64 z) = z.
Proof.
  intros Hz. unfold uint64_of, put_uint64. change (take 4 (put_uint32 (z / two32) ++ put_uint32 z)) with (put_uint32 (z / two32)).
  change (drop 4 (put_uint32 (z / two32) ++ put_uint32 z)) with (put_uint32 z). rewrite !uint32_of_put.
  assert (0 ≤ z / two32 < two32) by (unfold is_u64, two64, two32 in *; split; [apply Z.div_pos; lia|apply Z.div_lt_upper_bound; lia]).
  rewrite (Z.mod_small (z / two32)) by done. pose proof (Z.div_mod z two32 ltac:(done)). lia.
Qed.

(** Round trip of substrate frames: a frame that is encoded is decoded to itself. *)
Theorem substrate_roundtrip f raw :
  is_u64 (sf_channel f) → encodeSubstrate f = inr raw → decodeSubstrate raw = inr f.
Proof.
  intros Hu. unfold encodeSubstrate. destruct (_ || _) eqn:E; [done|]. intros Hraw.
  assert (raw = [byte_of_Z 1; byte_of_Z (kind_byte (sf_kind f))] ++ put_uint64 (sf_channel f) ++ sf_body f) as -> by congruence. clear Hraw.
  apply orb_false_iff in E as [Hc Hv%negb_false_iff].
  assert (blen (sf_body f) ≤ MaximumMessage) as Hl.
  { unfold validSubstrate in Hv. destruct (sf_kind f); unfold MaximumMessage in *; lia. }
  assert (length (put_uint64 (sf_channel f)) = 8%nat) as Hp by done. pose proof (uint64_roundtrip _ Hu) as Hz.
  revert Hp Hz. generalize (put_uint64 (sf_channel f)) as p. intros p Hp Hz. unfold decodeSubstrate. cbn [app].
  assert (blen (byte_of_Z 1 :: byte_of_Z (kind_byte (sf_kind f)) :: p ++ sf_body f) = 10 + blen (sf_body f)) as ->.
  { unfold blen. cbn [length]. rewrite length_app. lia. }
  pose proof (blen_nonneg (sf_body f)).
  rewrite (proj2 (Z.ltb_ge _ _)) by (unfold substrateHeaderSize; lia). rewrite (proj2 (Z.ltb_ge _ _)) by (unfold substrateHeaderSize; lia).
  change (byte_to_Z (byte_of_Z 1) =? 1) with true. cbn [orb negb]. rewrite (take_app_length' p), (drop_app_length' p), Hz by done.
  assert (kind_of_byte (byte_to_Z (byte_of_Z (kind_byte (sf_kind f)))) = Some (sf_kind f)) as -> by (by destruct (sf_kind f)).
  rewrite Hc, Hv. by destruct f.
Qed.

(** ** Concrete messages *)

Module SignalWire.

#[local] Instance any_line : ICELib := λ _, true.

Definition binding : Binding := mkBinding "intent" 1 2 RoleControlling.
Definition hello : message :=
  mkMessage Schema "intent" 1 2 RoleControlling 1 "credentials" "ufrag" "passwordpasswordpassword" "" "".
Definition candidate : message := mkMessage Schema "intent" 1 2 RoleControlling 2 "candidate" "" "" "candidate:1" "".

Lemma signal_message_roundtrip_witness : decode (message_bytes candidate) binding = inr candidate.
Proof.
  refine (proj1 (signal_message_roundtrip binding candidate _ _ _ _ _)).
  - repeat split; vm_compute; reflexivity.
  - repeat split; vm_compute; done.
  - repeat constructor; apply plain_valid, plain_check; vm_compute; reflexivity.
  - done.
  - vm_compute. done.
Defined.

Lemma validator_refines_history_witness :
  Accept (message_bytes candidate) (summary binding [hello]) = (inr true, summary binding [hello; candidate]).
Proof.
  assert (decode (message_bytes candidate) binding = inr candidate) as Hd by (vm_compute; reflexivity).
  refine (proj1 (validator_refines_history binding [hello] (message_bytes candidate) _) candidate Hd _); [done|].
  apply (bool_decide_unpack (may_follow [hello] candidate)). vm_compute. exact I.
Defined.

Definition frame : substrateFrame := mkFrame substrateData 7 (message_bytes hello).

Lemma substrate_roundtrip_witness : ∃ raw, encodeSubstrate frame = inr raw ∧ decodeSubstrate raw = inr frame.
Proof.
  destruct (encodeSubstrate frame) as [e|raw] eqn:E; [by vm_compute in E|]. exists raw. split; [reflexivity|].
  apply substrate_roundtrip; [split; vm_compute; done|exact E].
Defined.
End SignalWire.
End SignalProtocolProofs.
