(* ===== verification/Signaling.v ===== *)
(** * Peer signaling service

    Models [internal/peersignaling/service.go]: credentials are attached to the two roles of
    a signaling session, messages pass through the validator of the sender into a bounded
    inbox of the other role, and a session ends when an attachment closes, when both roles
    completed, when a credential expires or is revoked, or when the service closes.

    Sessions and attachments are shared objects, so both live in a heap of the service.  An
    attachment is named by the number of its grant, the admission that the authenticator
    gave for it.  Methods that hold the lock are one function.  [Close] and [Complete] of an
    attachment do their work in phases between which other calls run; [at_call] is the phase
    that is due, and [at_watch] the goroutine that waits for the end of the session, the
    revocation or the expiry of the credential. *)
From S2P Require Import Prelude Go Strings Protocol SignalProtocol.

(** What the service uses of a validator. *)
Class SignalValidator (V : Type) := {
  new_validator : SignalProtocol.Binding → err + V;
  accept : bytes → V → (err + bool) * V
}.

Module Signaling.
Import SignalProtocol (RoleControlling, RoleControlled, Binding, mkBinding).

Definition maximumCredentialBytes : Z := 8 * 1024.

Definition ErrInvalid : err := EPlain "invalid peer signaling admission".
Definition ErrConflict : err := EPlain "peer signaling attachment conflicts with active session".
Definition ErrCapacity : err := EPlain "peer signaling capacity exceeded".
Definition ErrClosed : err := EPlain "peer signaling session closed".

Record Admission := mkAdmission {
  ad_CredentialID : string;
  ad_EnvironmentID : string;
  ad_NodeID : string;
  ad_IntentID : string;
  ad_EndpointID : string;
  ad_PeerEndpointID : string;
  ad_AttemptGeneration : Z;
  ad_NetworkGeneration : Z;
  ad_Role : string;
  ad_ExpiresAt : Time
}.

Definition binding_of (a : Admission) : Binding :=
  mkBinding (ad_IntentID a) (ad_AttemptGeneration a) (ad_NetworkGeneration a) (ad_Role a).

Record Config := mkConfig {
  cf_MaximumSessions : Z;
  cf_MaximumConsumed : Z;
  cf_QueueDepth : Z;
  cf_MaximumMessage : Z
}.

(** Environment, node, intent, attempt and network. *)
Definition sessionKey : Type := string * string * string * Z * Z.

Definition key_of (a : Admission) : sessionKey :=
  (ad_EnvironmentID a, ad_NodeID a, ad_IntentID a, ad_AttemptGeneration a, ad_NetworkGeneration a).

Definition opposite (role : string) : string := if role == RoleControlling then RoleControlled else RoleControlling.

Definition bounded (value : string) : bool :=
  negb ((len value =? 0) || (256 <? len value)) && negb (ContainsAny value [13; 10; 0]).

Definition validAdmission (a : Admission) (now : Time) : bool :=
  bounded (ad_CredentialID a) && bounded (ad_EnvironmentID a) && bounded (ad_NodeID a) && bounded (ad_IntentID a)
  && bounded (ad_EndpointID a) && bounded (ad_PeerEndpointID a) && (ad_EndpointID a != ad_PeerEndpointID a)
  && (0 <? ad_AttemptGeneration a) && (0 <? ad_NetworkGeneration a)
  && ((ad_Role a == RoleControlling) || (ad_Role a == RoleControlled))
  && After (ad_ExpiresAt a) now && (Sub (ad_ExpiresAt a) now <=? 10 * Minute).

(** The phase of a call of [Close] or [Complete] that is due. *)
Inductive phase := PTerminate | PComplete | PCloseDone | PRelease.
Inductive watcher := WWaiting | WClosing | WGone.

Record Attachment := mkAttachment {
  at_session : nat;
  at_role : string;
  at_expires : Time;
  at_done : bool;
  at_once : bool;
  at_call : option phase;
  at_watch : watcher
}.
#[export] Instance Attachment_eta : Eta Attachment := λ r,
  mkAttachment (at_session r) (at_role r) (at_expires r) (at_done r) (at_once r) (at_call r) (at_watch r).

Section Service.
Context {V : Type} `{SignalValidator V}.

Record endpoint := mkEndpoint { ep_admission : Admission; ep_validator : V }.

Record session := mkSession {
  se_key : sessionKey;
  se_endpoints : gmap string endpoint;
  se_completed : gset string;
  se_inbox : gmap string (list bytes);
  se_done : bool
}.
#[export] Instance session_eta : Eta session := λ r,
  mkSession (se_key r) (se_endpoints r) (se_completed r) (se_inbox r) (se_done r).

Record Service := mkService {
  sv_config : Config;
  sv_sessions : gmap sessionKey nat;
  sv_consumed : gmap string Time;
  sv_closed : bool;
  sv_heap : gmap nat session;
  sv_atts : gmap nat Attachment;
  sv_nextSession : nat;
  sv_grants : nat;
  sv_released : gset nat;
  sv_closing : list nat
}.
#[export] Instance Service_eta : Eta Service := λ r,
  mkService (sv_config r) (sv_sessions r) (sv_consumed r) (sv_closed r) (sv_heap r) (sv_atts r) (sv_nextSession r)
    (sv_grants r) (sv_released r) (sv_closing r).

Definition unless_zero (value default : Z) : Z := if value =? 0 then default else value.

Definition New (maximumSessions maximumConsumed queueDepth maximumMessage : Z) : err + Service :=
  let sessions := unless_zero maximumSessions 4096 in
  let c := mkConfig sessions (unless_zero maximumConsumed (i64 (sessions * 4))) (unless_zero queueDepth 128) (unless_zero maximumMessage 16384) in
  if (cf_MaximumSessions c <? 1) || (cf_MaximumConsumed c <? i64 (cf_MaximumSessions c * 2)) || (cf_QueueDepth c <? 1)
     || (cf_MaximumMessage c <? 1) || (1048576 <? cf_MaximumMessage c)
  then inl ErrInvalid
  else inr (mkService c ∅ ∅ false ∅ ∅ 0 0 ∅ []).

Definition empty_session (key : sessionKey) : session :=
  mkSession key ∅ ∅ {[RoleControlling := []; RoleControlled := []]} false.

Definition close_session (sid : nat) (s : Service) : Service :=
  s <| sv_heap := alter (λ x, x <| se_done := true |>) sid (sv_heap s) |>.

(** [releaseOwned]. *)
Definition release_grant (grant : nat) (s : Service) : Service := s <| sv_released := {[grant]} ∪ sv_released s |>.

Definition endpoint_expired (now : Time) (kv : string * endpoint) : bool := negb (After (ad_ExpiresAt (ep_admission kv.2)) now).

Definition session_expired (now : Time) (x : session) : bool := existsb (endpoint_expired now) (map_to_list (se_endpoints x)).

(** The session of a key is in the map, and expired. *)
Definition ends_now (now : Time) (s : Service) (sid : nat) : bool :=
  match sv_heap s !! sid with
  | Some x => bool_decide (sv_sessions s !! se_key x = Some sid) && session_expired now x
  | None => false
  end.

Definition removeExpiredLocked (now : Time) (s : Service) : Service :=
  s <| sv_consumed := filter (λ kv : string * Time, After kv.2 now = true) (sv_consumed s) |>
    <| sv_sessions := filter (λ kv : sessionKey * nat, ends_now now s kv.2 = false) (sv_sessions s) |>
    <| sv_heap := map_imap (λ sid x, Some (if ends_now now s sid then x <| se_done := true |> else x)) (sv_heap s) |>.

Definition reciprocal (active : session) (a : Admission) : bool :=
  match se_endpoints active !! opposite (ad_Role a) with
  | None => true
  | Some peer => (ad_EndpointID (ep_admission peer) == ad_PeerEndpointID a) && (ad_PeerEndpointID (ep_admission peer) == ad_EndpointID a)
  end.

(** The session of a key, made when there is none. *)
Definition find_session (key : sessionKey) (s : Service) : err + nat * session * Service :=
  match sv_sessions s !! key with
  | Some sid => match sv_heap s !! sid with Some x => inr (sid, x, s) | None => inl ErrInvalid end
  | None =>
      if cf_MaximumSessions (sv_config s) <=? Z.of_nat (size (sv_sessions s)) then inl ErrCapacity
      else let sid := sv_nextSession s in
           inr (sid, empty_session key,
                s <| sv_sessions := <[key := sid]> (sv_sessions s) |> <| sv_heap := <[sid := empty_session key]> (sv_heap s) |>
                  <| sv_nextSession := S sid |>)
  end.

(** The part of [Attach] that holds the lock. *)
Definition attach_locked (grant : nat) (a : Admission) (v : V) (now : Time) (s : Service) : (err + nat) * Service :=
  if sv_closed s then (inl ErrClosed, s)
  else
    let s := removeExpiredLocked now s in
    if match sv_consumed s !! ad_CredentialID a with Some _ => true | None => false end then (inl ErrConflict, s)
    else if cf_MaximumConsumed (sv_config s) <=? Z.of_nat (size (sv_consumed s)) then (inl ErrCapacity, s)
    else match find_session (key_of a) s with
    | inl e => (inl e, s)
    | inr (sid, current, s) =>
        if match se_endpoints current !! ad_Role a with Some _ => true | None => false end
           || bool_decide (ad_Role a ∈ se_completed current) || negb (reciprocal current a)
        then (inl ErrConflict, s)
        else
          let current := current <| se_endpoints := <[ad_Role a := mkEndpoint a v]> (se_endpoints current) |> in
          (inr grant,
           s <| sv_heap := <[sid := current]> (sv_heap s) |>
             <| sv_consumed := <[ad_CredentialID a := ad_ExpiresAt a]> (sv_consumed s) |>
             <| sv_atts := <[grant := mkAttachment sid (ad_Role a) (ad_ExpiresAt a) false false None WWaiting]> (sv_atts s) |>)
    end.

(** [auth] is the answer of the authenticator. *)
Definition Attach (credential : string) (auth : err + Admission) (now : Time) (s : Service) : (err + nat) * Service :=
  if (credential == "") || (maximumCredentialBytes <? len credential) then (inl ErrInvalid, s)
  else match auth with
  | inl e => (inl (EWrap "authenticate peer signaling: " e), s)
  | inr a =>
      let grant := sv_grants s in
      let s := s <| sv_grants := S grant |> in
      if negb (validAdmission a now) then (inl ErrInvalid, release_grant grant s)
      else match new_validator (binding_of a) with
      | inl e => (inl (EJoin ErrInvalid e), release_grant grant s)
      | inr v =>
          match attach_locked grant a v now s with
          | (inl e, s) => (inl e, release_grant grant s)
          | (inr grant, s) => (inr grant, s)
          end
      end
  end.

(** The endpoint of an attachment whose session is the one of its key. *)
Definition attached (a : Attachment) (s : Service) : option (session * endpoint) :=
  match sv_heap s !! at_session a with
  | None => None
  | Some x =>
      if sv_closed s || negb (bool_decide (sv_sessions s !! se_key x = Some (at_session a))) then None
      else match se_endpoints x !! at_role a with Some ep => Some (x, ep) | None => None end
  end.

Definition queue (role : string) (x : session) : list bytes := default [] (se_inbox x !! role).

Definition Send (id : nat) (ctxErr : option err) (raw : bytes) (s : Service) : option err * Service :=
  match sv_atts s !! id with
  | None => (Some ErrInvalid, s)
  | Some a =>
      if (blen raw =? 0) || (cf_MaximumMessage (sv_config s) <? blen raw) then (Some ErrInvalid, s)
      else match ctxErr with
      | Some e => (Some e, s)
      | None =>
          match attached a s with
          | None => (Some ErrClosed, s)
          | Some (x, ep) =>
              let peer := opposite (at_role a) in
              if cf_QueueDepth (sv_config s) <=? Z.of_nat (length (queue peer x)) then (Some ErrCapacity, s)
              else
                let '(res, v) := accept raw (ep_validator ep) in
                let x := x <| se_endpoints := <[at_role a := mkEndpoint (ep_admission ep) v]> (se_endpoints x) |> in
                let put x := s <| sv_heap := <[at_session a := x]> (sv_heap s) |> in
                match res with
                | inl e => (Some (EWrap "validate peer signaling message: " e), put x)
                | inr false => (None, put x)
                | inr true => (None, put (x <| se_inbox := <[peer := queue peer x ++ [raw]]> (se_inbox x) |>))
                end
          end
      end
  end.

Definition session_done (a : Attachment) (s : Service) : bool :=
  match sv_heap s !! at_session a with Some x => se_done x | None => false end.

Definition active (id : nat) (s : Service) : bool :=
  match sv_atts s !! id with
  | None => false
  | Some a => negb (at_done a) && negb (session_done a s) && match attached a s with Some _ => true | None => false end
  end.

(** The branches of [Receive] after the first check: a message is taken, and delivered if
    the attachment is still active. *)
Definition receive_take (id : nat) (s : Service) : option bytes * Service :=
  match sv_atts s !! id with
  | None => (None, s)
  | Some a =>
      match sv_heap s !! at_session a with
      | None => (None, s)
      | Some x =>
          match queue (at_role a) x with
          | [] => (None, s)
          | raw :: rest => (Some raw, s <| sv_heap := <[at_session a := x <| se_inbox := <[at_role a := rest]> (se_inbox x) |>]> (sv_heap s) |>)
          end
      end
  end.

Definition receive_check (id : nat) (raw : bytes) (s : Service) : err + bytes := if active id s then inr raw else inl ErrClosed.

Definition Receive (id : nat) (s : Service) : option (err + bytes) * Service :=
  if negb (active id s) then (Some (inl ErrClosed), s)
  else match receive_take id s with
  | (Some raw, s) => (Some (receive_check id raw s), s)
  | (None, s) => (None, s)
  end.

(** ** The end of an attachment *)

(** The start of [Close] and [Complete]: [sync.Once] and the closed channel. *)
Definition call_begin (first : phase) (id : nat) (s : Service) : Service :=
  match sv_atts s !! id with
  | None => s
  | Some a => if at_once a then s
              else s <| sv_atts := <[id := a <| at_once := true |> <| at_done := true |> <| at_call := Some first |>]> (sv_atts s) |>
  end.

Definition terminate (sid : nat) (s : Service) : Service :=
  match sv_heap s !! sid with
  | Some x => if bool_decide (sv_sessions s !! se_key x = Some sid) then s <| sv_sessions := delete (se_key x) (sv_sessions s) |> else s
  | None => s
  end.

(** [complete] without the closing of the session, and whether the session is finished. *)
Definition complete (sid : nat) (role : string) (s : Service) : bool * Service :=
  match sv_heap s !! sid with
  | None => (false, s)
  | Some x =>
      if negb (bool_decide (sv_sessions s !! se_key x = Some sid)) || match se_endpoints x !! role with Some _ => false | None => true end
      then (false, s)
      else
        let x := x <| se_endpoints := delete role (se_endpoints x) |> <| se_completed := {[role]} ∪ se_completed x |> in
        let finished := bool_decide (se_endpoints x = ∅) in
        let s := s <| sv_heap := <[sid := x]> (sv_heap s) |> in
        (finished, if finished then s <| sv_sessions := delete (se_key x) (sv_sessions s) |> else s)
  end.

Definition set_call (id : nat) (next : option phase) (s : Service) : Service :=
  s <| sv_atts := alter (λ a, a <| at_call := next |>) id (sv_atts s) |>.

Definition call_step (id : nat) (s : Service) : Service :=
  match sv_atts s !! id with
  | None => s
  | Some a =>
      match at_call a with
      | None => s
      | Some PTerminate => set_call id (Some PCloseDone) (terminate (at_session a) s)
      | Some PComplete =>
          let '(finished, s) := complete (at_session a) (at_role a) s in
          set_call id (Some (if finished then PCloseDone else PRelease)) s
      | Some PCloseDone => set_call id (Some PRelease) (close_session (at_session a) s)
      | Some PRelease => set_call id None (release_grant id s)
      end
  end.

Definition Attachment_Close (id : nat) (s : Service) : Service := Nat.iter 3 (call_step id) (call_begin PTerminate id s).
Definition Attachment_Complete (id : nat) (s : Service) : Service := Nat.iter 3 (call_step id) (call_begin PComplete id s).

(** ** The watching goroutine *)

Definition set_watch (id : nat) (w : watcher) (s : Service) : Service :=
  s <| sv_atts := alter (λ a, a <| at_watch := w |>) id (sv_atts s) |>.

Definition watch_done (id : nat) (s : Service) : Service :=
  match sv_atts s !! id with
  | Some a => if match at_watch a with WWaiting => at_done a || session_done a s | _ => false end
              then set_watch id WGone (release_grant id s) else s
  | None => s
  end.

(** The credential was revoked, or the timer fired. *)
Definition watch_fire (revoked : bool) (now : Time) (id : nat) (s : Service) : Service :=
  match sv_atts s !! id with
  | Some a => if match at_watch a with WWaiting => revoked || negb (Before now (at_expires a)) | _ => false end
              then set_watch id WClosing (call_begin PTerminate id s) else s
  | None => s
  end.

Definition watch_finish (id : nat) (s : Service) : Service :=
  match sv_atts s !! id with
  | Some a => match at_watch a, at_call a with WClosing, None => set_watch id WGone (release_grant id s) | _, _ => s end
  | None => s
  end.

(** ** The service *)

Definition Service_Close (s : Service) : Service :=
  if sv_closed s then s
  else s <| sv_closed := true |> <| sv_closing := (map_to_list (sv_sessions s)).*2 |> <| sv_sessions := ∅ |> <| sv_consumed := ∅ |>.

(** One round of the loop of [Close] after the lock is given up. *)
Definition close_next (s : Service) : Service :=
  match sv_closing s with
  | [] => s
  | sid :: rest => close_session sid s <| sv_closing := rest |>
  end.

Record Stats := mkStats { st_Sessions : Z; st_Attachments : Z; st_Capacity : Z; st_Running : bool }.

Definition Service_Stats (s : Service) : Stats :=
  let endpoints sid := match sv_heap s !! sid with Some x => Z.of_nat (size (se_endpoints x)) | None => 0 end in
  mkStats (Z.of_nat (size (sv_sessions s))) (List.fold_right (λ sid n, endpoints sid + n) 0 (map_to_list (sv_sessions s)).*2)
    (cf_MaximumSessions (sv_config s)) (negb (sv_closed s)).
End Service.

End Signaling.

#[export] Instance signal_validator `{ICELib} : SignalValidator SignalProtocol.validator := {|
  new_validator := SignalProtocol.NewValidator;
  accept := SignalProtocol.Accept
|}.
