(* ===== verification/SignalingProofs.v ===== *)
(** * Peer signaling service: invariant *)
From S2P Require Import Prelude Go Strings Protocol SignalProtocol Signaling.

Module SignalingProofs.
Import SignalProtocol (RoleControlling, RoleControlled, Binding, mkBinding).
Import Signaling.
#[local] Arguments key_of : simpl never.
#[local] Arguments validAdmission : simpl never.

Definition is_role (r : string) : Prop := r = RoleControlling ∨ r = RoleControlled.

Lemma opposite_involutive r : is_role r → opposite (opposite r) = r.
Proof. by intros [-> | ->]. Qed.

Lemma opposite_ne r : is_role r → opposite r ≠ r.
Proof. by intros [-> | ->]. Qed.

Lemma opposite_role r : is_role (opposite r).
Proof. unfold opposite. case_bool_decide; [by right|by left]. Qed.

Lemma alter_put {K A} `{Countable K} (f : A → A) (m : gmap K A) i x : m !! i = Some x → alter f i m = <[i := f x]> m.
Proof.
  intros Hx. apply map_eq. intros j. destruct (decide (j = i)) as [->|Hne]; [by rewrite lookup_alter_eq, Hx, lookup_insert_eq|].
  by rewrite lookup_alter_ne, lookup_insert_ne.
Qed.

Lemma alter_absent {K A} `{Countable K} (f : A → A) (m : gmap K A) i : m !! i = None → alter f i m = m.
Proof.
  intros Hx. apply map_eq. intros j. destruct (decide (j = i)) as [->|Hne]; [by rewrite lookup_alter_eq, Hx|by rewrite lookup_alter_ne].
Qed.

Section Service.
Context {V : Type} `{SignalValidator V}.
Implicit Types (s : Service (V := V)) (x : session (V := V)) (ep : endpoint (V := V)).

(** ** The invariant *)

(** One session: an endpoint sits under its role, with the key of the session; the two ends
    name each other; inboxes are within the depth. *)
Record session_ok (depth : Z) (x : session (V := V)) : Prop := {
  so_role : ∀ r ep, se_endpoints x !! r = Some ep →
    r = ad_Role (ep_admission ep) ∧ is_role r ∧ key_of (ep_admission ep) = se_key x ∧ r ∉ se_completed x;
  so_pair : ∀ r ep ep', se_endpoints x !! r = Some ep → se_endpoints x !! opposite r = Some ep' →
    ad_EndpointID (ep_admission ep) = ad_PeerEndpointID (ep_admission ep')
    ∧ ad_PeerEndpointID (ep_admission ep) = ad_EndpointID (ep_admission ep');
  so_queue : ∀ r, Z.of_nat (length (queue r x)) ≤ depth
}.

(** The place of an attachment in its session. *)
Definition seated (a : Attachment) (x : session (V := V)) : Prop :=
  at_role a ∈ se_completed x ∧ at_once a = true
  ∨ ∃ ep, se_endpoints x !! at_role a = Some ep ∧ ad_ExpiresAt (ep_admission ep) = at_expires a.

Record att_ok (grants : nat) (released : gset nat) (heap : gmap nat (session (V := V))) (g : nat) (a : Attachment) : Prop := {
  ao_grant : (g < grants)%nat;
  ao_done : at_done a = at_once a;
  ao_call : at_call a ≠ None → at_once a = true;
  ao_closing : at_watch a = WClosing → at_once a = true;
  ao_gone : at_watch a = WGone → g ∈ released;
  ao_finished : at_once a = true → at_call a = None → g ∈ released;
  ao_role : is_role (at_role a);
  ao_seat : ∃ x, heap !! at_session a = Some x ∧ seated a x
}.

Record sinv (s : Service (V := V)) : Prop := {
  si_session : ∀ sid x, sv_heap s !! sid = Some x → (sid < sv_nextSession s)%nat ∧ session_ok (cf_QueueDepth (sv_config s)) x;
  si_map : ∀ k sid, sv_sessions s !! k = Some sid →
    ∃ x, sv_heap s !! sid = Some x ∧ se_key x = k ∧ se_endpoints x ≠ ∅;
  si_size : Z.of_nat (size (sv_sessions s)) ≤ cf_MaximumSessions (sv_config s);
  si_consumed : Z.of_nat (size (sv_consumed s)) ≤ Z.max 0 (cf_MaximumConsumed (sv_config s));
  si_closed : sv_closed s = true → sv_sessions s = ∅;
  si_att : ∀ g a, sv_atts s !! g = Some a → att_ok (sv_grants s) (sv_released s) (sv_heap s) g a;
  si_unique : ∀ g g' a a', sv_atts s !! g = Some a → sv_atts s !! g' = Some a' →
    at_session a = at_session a' → at_role a = at_role a' → g = g';
  si_grants : ∀ g, (g < sv_grants s)%nat → g ∈ sv_released s ∨ ∃ a, sv_atts s !! g = Some a ∧ at_watch a ≠ WGone;
  si_released : ∀ g, g ∈ sv_released s →
    (g < sv_grants s)%nat ∧ ∀ a, sv_atts s !! g = Some a → at_done a = true ∨ session_done a s = true
}.

Lemma New_inv ms mc qd mm s : New ms mc qd mm = inr s → sinv s.
Proof.
  unfold New. cbv zeta. destruct (_ || _) eqn:E; [done|]. intros [= <-].
  repeat (apply orb_false_iff in E as [E ?]). cbn in *.
  split; cbn; try (by intros * ?%lookup_empty_Some); try done; try (intros; by rewrite lookup_empty in *).
  all: rewrite ?map_size_empty; try lia; set_solver.
Qed.

(** ** Changes of one session *)

(** [x'] keeps the places of [x]. *)
Definition keeps_seats (x x' : session (V := V)) : Prop :=
  se_completed x ⊆ se_completed x'
  ∧ ∀ r ep, se_endpoints x !! r = Some ep →
      ∃ ep', se_endpoints x' !! r = Some ep' ∧ ad_ExpiresAt (ep_admission ep') = ad_ExpiresAt (ep_admission ep).

Lemma seated_keeps a x x' : keeps_seats x x' → seated a x → seated a x'.
Proof.
  intros [Hc He] [[Hr Ho]|(ep & Hep & Hx)]; [left; split; [set_solver|done]|right].
  destruct (He _ _ Hep) as (ep' & Hep' & Hx'). exists ep'. split; [done|congruence].
Qed.

Lemma put_session_inv s sid x x' :
  sinv s → sv_heap s !! sid = Some x → se_key x' = se_key x → (se_done x = true → se_done x' = true) →
  (∀ g a, sv_atts s !! g = Some a → at_session a = sid → seated a x → seated a x') →
  (sv_sessions s !! se_key x = Some sid → se_endpoints x' ≠ ∅) →
  session_ok (cf_QueueDepth (sv_config s)) x' → sinv (s <| sv_heap := <[sid := x']> (sv_heap s) |>).
Proof.
  intros I Hx Hk Hd Hseat Hne Hok. pose proof I as [I1 I2 I3 I4 I5 I6 I7 I8 I9]. split; cbn; try done.
  - intros sid' y [[<- <-]|[_ Hy]]%lookup_insert_Some; [split; [by eapply I1|done]|by apply I1].
  - intros k sid' Hs. destruct (I2 k sid' Hs) as (y & Hy & Hyk & Hye). destruct (decide (sid' = sid)) as [->|E].
    + assert (y = x) as -> by congruence. exists x'. rewrite lookup_insert_eq. split_and!; try congruence. apply Hne. congruence.
    + exists y. by rewrite lookup_insert_ne.
  - intros g a Ha. destruct (I6 g a Ha) as [A1 A2 A3 A4 A5 A6 A7 (y & Hy & Hs)]. split; try done.
    destruct (decide (at_session a = sid)) as [E|E].
    + exists x'. rewrite E, lookup_insert_eq. split; [done|]. apply (Hseat g a); try done. congruence.
    + exists y. by rewrite lookup_insert_ne.
  - intros g Hg. destruct (I9 g Hg) as [Hlt Ha]. split; [done|]. intros a Hga. destruct (Ha a Hga) as [?|Hsd]; [by left|right].
    unfold session_done in *. cbn. destruct (decide (at_session a = sid)) as [E|E].
    + rewrite E in *. rewrite Hx in Hsd. rewrite lookup_insert_eq. by apply Hd.
    + by rewrite lookup_insert_ne.
Qed.

Lemma keep_session_inv s sid x x' :
  sinv s → sv_heap s !! sid = Some x → se_key x' = se_key x → (se_done x = true → se_done x' = true) → keeps_seats x x' →
  session_ok (cf_QueueDepth (sv_config s)) x' → sinv (s <| sv_heap := <[sid := x']> (sv_heap s) |>).
Proof.
  intros I Hx Hk Hd Hseat Hok. apply (put_session_inv s sid x x' I Hx Hk Hd); [|intros Hm Hemp|done].
  - intros g a _ _. by apply seated_keeps.
  - destruct (si_map _ I _ _ Hm) as (y & Hy & _ & Hye). assert (y = x) as -> by congruence.
    apply map_choose in Hye as (r & ep & Hep). destruct Hseat as [_ Hs']. destruct (Hs' _ _ Hep) as (ep' & Hep' & _).
    by rewrite Hemp, lookup_empty in Hep'.
Qed.

(** Only [se_done] changes. *)
Lemma close_session_inv s sid : sinv s → sinv (close_session sid s).
Proof.
  intros I. unfold close_session. destruct (sv_heap s !! sid) as [x|] eqn:Hx.
  - rewrite (alter_put _ _ _ _ Hx). apply (keep_session_inv s sid x); try done.
    + split; [done|]. intros r ep Hep. by exists ep.
    + destruct (si_session _ I sid x Hx) as [_ [S1 S2 S3]]. by split.
  - rewrite alter_absent by done. by destruct s.
Qed.

(** ** Changes of one attachment *)

Lemma release_inv s g :
  sinv s → (g < sv_grants s)%nat → (∀ a, sv_atts s !! g = Some a → at_done a = true ∨ session_done a s = true) → sinv (release_grant g s).
Proof.
  intros [I1 I2 I3 I4 I5 I6 I7 I8 I9] Hg Ha. split; try done.
  - intros g' a Hga. destruct (I6 g' a Hga) as [A1 A2 A3 A4 A5 A6 A7 A8]. split; try done; cbn; set_solver.
  - intros g' Hlt. cbn. destruct (I8 g' Hlt); [left; set_solver|by right].
  - intros g' Hg'. cbn in Hg'. destruct (decide (g' = g)) as [->|Hne]; [by split|]. apply I9. set_solver.
Qed.

(** [a'] is [a] after a step of one of its calls. *)
Record moves (s : Service (V := V)) (g : nat) (a a' : Attachment) : Prop := {
  mv_session : at_session a' = at_session a;
  mv_role : at_role a' = at_role a;
  mv_expires : at_expires a' = at_expires a;
  mv_once : at_once a = true → at_once a' = true;
  mv_done : at_done a' = at_once a';
  mv_call : at_call a' ≠ None → at_once a' = true;
  mv_closing : at_watch a' = WClosing → at_once a' = true;
  mv_gone : at_watch a' = WGone → g ∈ sv_released s;
  mv_finished : at_once a' = true → at_call a' = None → g ∈ sv_released s
}.

Lemma put_att_inv s g a a' :
  sinv s → sv_atts s !! g = Some a → moves s g a a' → sinv (s <| sv_atts := <[g := a']> (sv_atts s) |>).
Proof.
  intros [I1 I2 I3 I4 I5 I6 I7 I8 I9] Ha [M1 M2 M3 M4 M5 M6 M7 M8 M9].
  pose proof (I6 g a Ha) as [A1 A2 A3 A4 A5 A6 A7 (x & Hx & Hseat)].
  assert (∀ g' b, <[g := a']> (sv_atts s) !! g' = Some b →
            ∃ b0, sv_atts s !! g' = Some b0 ∧ at_session b = at_session b0 ∧ at_role b = at_role b0 ∧ (at_done b0 = true → at_done b = true)) as Hold.
  { intros g' b [[<- <-]|[_ Hb]]%lookup_insert_Some; [exists a|by exists b]. split_and!; try done. rewrite A2, M5. done. }
  split; try done.
  - intros g' b Hb. cbn in Hb. apply lookup_insert_Some in Hb as [[<- <-]|[_ Hb]]; [|by apply I6]. split; try done; [by rewrite M2|].
    exists x. rewrite M1. split; [done|]. unfold seated in *. rewrite M2, M3. naive_solver.
  - intros g1 g2 b1 b2 (c1 & Hc1 & Hs1 & Hr1 & _)%Hold (c2 & Hc2 & Hs2 & Hr2 & _)%Hold Hs Hr. apply (I7 g1 g2 c1 c2); congruence.
  - intros g' Hlt. destruct (I8 g' Hlt) as [?|(b & Hb & Hw)]; [by left|]. destruct (decide (g' = g)) as [->|Hne].
    + cbn. destruct (at_watch a') eqn:Hw'; [right|right|left; by apply M8]; exists a'; rewrite lookup_insert_eq, Hw'; done.
    + right. exists b. cbn. by rewrite lookup_insert_ne.
  - intros g' Hg'. destruct (I9 g' Hg') as [Hlt Hd]. split; [done|]. intros b (b0 & Hb0 & Hs & _ & Hdone)%Hold.
    unfold session_done in *. cbn. rewrite Hs. destruct (Hd b0 Hb0); [left; auto|by right].
Qed.

(** ** Sessions leave the map *)

Lemma unmap_inv s k : sinv s → sinv (s <| sv_sessions := delete k (sv_sessions s) |>).
Proof.
  intros [I1 I2 I3 I4 I5 I6 I7 I8 I9]. split; cbn; try done.
  - intros k' sid [_ Hs]%lookup_delete_Some. by apply I2.
  - rewrite map_size_delete. destruct (sv_sessions s !! k); unfold id; lia.
  - intros Hc. rewrite (I5 Hc). apply delete_empty.
Qed.

Lemma terminate_inv s sid : sinv s → sinv (terminate sid s).
Proof. intros I. unfold terminate. repeat case_match; try done. by apply unmap_inv. Qed.

Lemma session_ok_complete depth x role :
  session_ok depth x →
  session_ok depth (x <| se_endpoints := delete role (se_endpoints x) |> <| se_completed := {[role]} ∪ se_completed x |>).
Proof.
  intros [S1 S2 S3]. split; cbn; try done.
  - intros r ep [Hne Hep]%lookup_delete_Some. destruct (S1 r ep Hep) as (? & ? & ? & ?). split_and!; try done. set_solver.
  - intros r ep ep' [_ Hep]%lookup_delete_Some [_ Hep']%lookup_delete_Some. by apply (S2 r).
Qed.

Lemma complete_inv s sid role g a :
  sinv s → sv_atts s !! g = Some a → at_session a = sid → at_role a = role → at_once a = true → sinv (complete sid role s).2.
Proof.
  intros I Ha Hs Hr Ho. unfold complete in *. destruct (sv_heap s !! sid) as [x|] eqn:Hx; [|done].
  destruct (_ || _) eqn:Eg; [done|]. apply orb_false_iff in Eg as [Hm%negb_false_iff%bool_decide_eq_true _]. cbn zeta in *.
  set (x' := x <| se_endpoints := delete role (se_endpoints x) |> <| se_completed := {[role]} ∪ se_completed x |>) in *.
  assert (∀ g0 b, sv_atts s !! g0 = Some b → at_session b = sid → seated b x → seated b x') as Hseat.
  { intros g0 b Hb Hbs [[Hin Hbo]|(ep & Hep & He)]; [left; cbn; split; [set_solver|done]|].
    destruct (decide (at_role b = role)) as [E|E].
    - assert (g0 = g) as -> by (apply (si_unique _ I g0 g b a); congruence). assert (b = a) as -> by congruence. left. cbn. split; [set_solver|done].
    - right. exists ep. cbn. by rewrite lookup_delete_ne. }
  assert (session_ok (cf_QueueDepth (sv_config s)) x') as Hok by (by apply session_ok_complete, (si_session _ I sid x)).
  case_bool_decide as Hf; cbn [snd fst] in *.
  - refine (put_session_inv _ sid x x' (unmap_inv s (se_key x) I) Hx eq_refl (λ E, E) Hseat _ Hok). cbn. by rewrite lookup_delete_eq.
  - by apply (put_session_inv s sid x x' I Hx).
Qed.

(** ** The calls of an attachment *)

Lemma call_begin_inv s first id : sinv s → sinv (call_begin first id s).
Proof.
  intros I. unfold call_begin. destruct (sv_atts s !! id) as [a|] eqn:Ha; [|done]. destruct (at_once a) eqn:Ho; [done|].
  destruct (si_att _ I id a Ha) as [A1 A2 A3 A4 A5 A6 A7 A8]. apply (put_att_inv s id a _ I Ha). by split.
Qed.

Lemma set_call_inv s id a next :
  sinv s → sv_atts s !! id = Some a → at_call a ≠ None → (next = None → id ∈ sv_released s) → sinv (set_call id next s).
Proof.
  intros I Ha Hc Hn. unfold set_call. rewrite (alter_put _ _ _ _ Ha).
  destruct (si_att _ I id a Ha) as [A1 A2 A3 A4 A5 A6 A7 A8]. apply (put_att_inv s id a _ I Ha). split; try done; cbn; auto.
Qed.

Lemma atts_complete sid role s : sv_atts (complete sid role s).2 = sv_atts s.
Proof. unfold complete. repeat case_match; done. Qed.

Lemma atts_terminate sid s : sv_atts (terminate sid s) = sv_atts s.
Proof. unfold terminate. repeat case_match; done. Qed.

Lemma call_step_inv s id : sinv s → sinv (call_step id s).
Proof.
  intros I. unfold call_step. destruct (sv_atts s !! id) as [a|] eqn:Ha; [|done]. destruct (at_call a) as [p|] eqn:Hc; [|done].
  pose proof (si_att _ I id a Ha) as [A1 A2 A3 A4 A5 A6 A7 A8]. assert (at_once a = true) as Ho by (apply A3; by rewrite Hc).
  destruct p.
  - apply (set_call_inv _ id a); [by apply terminate_inv|by rewrite atts_terminate|congruence|done].
  - pose proof (complete_inv s (at_session a) (at_role a) id a I Ha eq_refl eq_refl Ho) as I'.
    pose proof (atts_complete (at_session a) (at_role a) s) as E.
    destruct (complete _ _ s) as [f s']. cbn [snd] in *. apply (set_call_inv _ id a); [done|by rewrite E|congruence|done].
  - apply (set_call_inv _ id a); [by apply close_session_inv|done|congruence|done].
  - assert (sinv (release_grant id s)) as I'.
    { apply release_inv; [done..|]. intros b Hb. left. assert (b = a) as -> by congruence. congruence. }
    apply (set_call_inv _ id a None I'); [done|congruence|]. intros _. cbn. set_solver.
Qed.

(** ** The watching goroutine *)

Lemma set_watch_inv s id a w :
  sinv s → sv_atts s !! id = Some a → (w = WClosing → at_once a = true) → (w = WGone → id ∈ sv_released s) → sinv (set_watch id w s).
Proof.
  intros I Ha Hc Hg. unfold set_watch. rewrite (alter_put _ _ _ _ Ha).
  destruct (si_att _ I id a Ha) as [A1 A2 A3 A4 A5 A6 A7 A8]. apply (put_att_inv s id a _ I Ha). split; try done.
Qed.

Lemma watch_release s id a :
  sinv s → sv_atts s !! id = Some a → at_done a = true ∨ session_done a s = true → sinv (set_watch id WGone (release_grant id s)).
Proof.
  intros I Ha Hd. apply (set_watch_inv _ id a); try done; [|intros _; cbn; set_solver].
  apply release_inv; [done|by apply (si_att _ I id a)|]. intros b Hb. by assert (b = a) as -> by congruence.
Qed.

Lemma watch_done_inv s id : sinv s → sinv (watch_done id s).
Proof.
  intros I. unfold watch_done. destruct (sv_atts s !! id) as [a|] eqn:Ha; [|done]. destruct (at_watch a); try done.
  destruct (at_done a) eqn:Hd; cbn [orb]; [apply (watch_release s id a); auto|].
  destruct (session_done a s) eqn:Hs; [|done]. apply (watch_release s id a); auto.
Qed.

Lemma call_begin_once s first id a :
  sv_atts s !! id = Some a → ∃ a', sv_atts (call_begin first id s) !! id = Some a' ∧ at_once a' = true ∧ at_watch a' = at_watch a.
Proof.
  intros Ha. unfold call_begin. rewrite Ha. destruct (at_once a) eqn:Ho; [by exists a|]. eexists. cbn. by rewrite lookup_insert_eq.
Qed.

Lemma watch_fire_inv s revoked now id : sinv s → sinv (watch_fire revoked now id s).
Proof.
  intros I. unfold watch_fire. destruct (sv_atts s !! id) as [a|] eqn:Ha; [|done]. destruct (at_watch a); try done. destruct (_ || _); [|done].
  destruct (call_begin_once s PTerminate id a Ha) as (a' & Ha' & Ho & _).
  apply (set_watch_inv _ id a'); [|done..]. by apply call_begin_inv.
Qed.

Lemma watch_finish_inv s id : sinv s → sinv (watch_finish id s).
Proof.
  intros I. unfold watch_finish. destruct (sv_atts s !! id) as [a|] eqn:Ha; [|done].
  destruct (at_watch a) eqn:Hw; try done. destruct (at_call a); [done|]. apply (watch_release s id a I Ha). left.
  destruct (si_att _ I id a Ha) as [_ -> _ Hc _ _ _ _]. by apply Hc.
Qed.

(** ** The service *)

Lemma Service_Close_inv s : sinv s → sinv (Service_Close s).
Proof.
  intros I. unfold Service_Close. destruct (sv_closed s) eqn:Hc; [done|]. destruct I as [I1 I2 I3 I4 I5 I6 I7 I8 I9]. split; cbn; try done.
  all: rewrite ?map_size_empty; lia.
Qed.

Lemma close_next_inv s : sinv s → sinv (close_next s).
Proof.
  intros I. unfold close_next. destruct (sv_closing s) as [|sid rest]; [done|].
  destruct (close_session_inv s sid I) as [I1 I2 I3 I4 I5 I6 I7 I8 I9]. by split.
Qed.

(** ** Messages *)

Lemma session_ok_validator depth x r ep v :
  session_ok depth x → se_endpoints x !! r = Some ep →
  session_ok depth (x <| se_endpoints := <[r := mkEndpoint (ep_admission ep) v]> (se_endpoints x) |>).
Proof.
  intros [S1 S2 S3] Hr. assert (∀ r' e, <[r := mkEndpoint (ep_admission ep) v]> (se_endpoints x) !! r' = Some e →
    ∃ e0, se_endpoints x !! r' = Some e0 ∧ ep_admission e0 = ep_admission e) as Hold.
  { intros r' e [[<- <-]|[_ He]]%lookup_insert_Some; [by exists ep|by exists e]. }
  split; cbn; try done.
  - intros r' e (e0 & He0 & <-)%Hold. by apply S1.
  - intros r' e e' (e0 & He0 & <-)%Hold (e1 & He1 & <-)%Hold. by apply (S2 r').
Qed.

Lemma session_ok_inbox depth x r l :
  session_ok depth x → Z.of_nat (length l) ≤ depth → session_ok depth (x <| se_inbox := <[r := l]> (se_inbox x) |>).
Proof.
  intros [S1 S2 S3] Hl. split; try done. intros r'. unfold queue. cbn. destruct (decide (r' = r)) as [->|Hne].
  - by rewrite lookup_insert_eq.
  - rewrite lookup_insert_ne by done. apply S3.
Qed.

Lemma keeps_validator x r ep v :
  se_endpoints x !! r = Some ep → keeps_seats x (x <| se_endpoints := <[r := mkEndpoint (ep_admission ep) v]> (se_endpoints x) |>).
Proof.
  intros Hr. split; [done|]. cbn. intros r' e He. destruct (decide (r' = r)) as [->|Hne].
  - eexists. rewrite lookup_insert_eq. split; [done|]. by assert (e = ep) as -> by congruence.
  - exists e. by rewrite lookup_insert_ne.
Qed.

Lemma attached_spec a s x ep :
  attached a s = Some (x, ep) →
  sv_closed s = false ∧ sv_heap s !! at_session a = Some x ∧ sv_sessions s !! se_key x = Some (at_session a) ∧ se_endpoints x !! at_role a = Some ep.
Proof.
  unfold attached. destruct (sv_heap s !! at_session a) as [y|]; [|done]. destruct (_ || _) eqn:E; [done|].
  apply orb_false_iff in E as [? E%negb_false_iff%bool_decide_eq_true]. destruct (se_endpoints y !! at_role a) as [e|] eqn:He; [|done]. by intros [= -> ->].
Qed.

Lemma Send_inv s id cx raw : sinv s → sinv (Send id cx raw s).2.
Proof.
  intros I. unfold Send. destruct (sv_atts s !! id) as [a|] eqn:Ha; [|done]. destruct (_ || _); [done|]. destruct cx; [done|].
  destruct (attached a s) as [[x ep]|] eqn:Et; [|done]. destruct (Z.leb_spec (cf_QueueDepth (sv_config s)) (Z.of_nat (length (queue (opposite (at_role a)) x)))); [done|].
  apply attached_spec in Et as (_ & Hx & _ & Hep). destruct (accept raw (ep_validator ep)) as [res v]. cbn zeta.
  destruct (si_session _ I _ _ Hx) as [_ Hok].
  pose proof (keeps_validator x _ _ v Hep) as Hk. pose proof (session_ok_validator _ _ _ _ v Hok Hep) as Hok'.
  destruct res as [e|[]]; cbn [snd]; try (by apply (keep_session_inv s _ x)).
  apply (keep_session_inv s _ x); try done. apply session_ok_inbox; [done|]. rewrite length_app. cbn [length].
  change (queue (opposite (at_role a)) (x <| se_endpoints := <[at_role a := mkEndpoint (ep_admission ep) v]> (se_endpoints x) |>))
    with (queue (opposite (at_role a)) x). lia.
Qed.

Lemma receive_take_inv s id : sinv s → sinv (receive_take id s).2.
Proof.
  intros I. unfold receive_take. destruct (sv_atts s !! id) as [a|]; [|done]. destruct (sv_heap s !! at_session a) as [x|] eqn:Hx; [|done].
  destruct (queue (at_role a) x) as [|raw rest] eqn:Hq; [done|]. cbn [snd]. destruct (si_session _ I _ _ Hx) as [_ Hok].
  apply (keep_session_inv s _ x); try done.
  - split; [done|]. intros r ep Hep. by exists ep.
  - apply session_ok_inbox; [done|]. pose proof (so_queue _ _ Hok (at_role a)) as Hl. rewrite Hq in Hl. cbn [length] in Hl. lia.
Qed.

(** ** Attaching *)

Lemma removeExpired_inv now s : sinv s → sinv (removeExpiredLocked now s).
Proof.
  intros [I1 I2 I3 I4 I5 I6 I7 I8 I9].
  assert (∀ sid y', sv_heap (removeExpiredLocked now s) !! sid = Some y' → ∃ y, sv_heap s !! sid = Some y ∧
            (y' = y ∨ y' = y <| se_done := true |>)) as Hold.
  { intros sid y'. cbn. rewrite map_lookup_imap, bind_Some. intros (y & Hy & [= <-]). exists y. split; [done|]. destruct (ends_now now s sid); auto. }
  assert (∀ sid y, sv_heap s !! sid = Some y → ∃ y', sv_heap (removeExpiredLocked now s) !! sid = Some y' ∧
            (y' = y ∨ y' = y <| se_done := true |>)) as Hget.
  { intros sid y Hy. cbn. rewrite map_lookup_imap, Hy. cbn. eexists. split; [done|]. destruct (ends_now now s sid); auto. }
  split; try done.
  - intros sid y' (y & Hy & Hc)%Hold. destruct (I1 sid y Hy) as [? [S1 S2 S3]]. split; [done|]. by destruct Hc as [-> | ->].
  - intros k sid [Hs _]%map_lookup_filter_Some. destruct (I2 k sid Hs) as (y & Hy & Hk & He). destruct (Hget sid y Hy) as (y' & Hy' & Hc).
    exists y'. by destruct Hc as [-> | ->].
  - cbn. pose proof (map_size_filter (λ kv : sessionKey * nat, ends_now now s kv.2 = false) (sv_sessions s)). lia.
  - cbn. pose proof (map_size_filter (λ kv : string * Time, After kv.2 now = true) (sv_consumed s)). lia.
  - intros Hc. cbn. rewrite (I5 Hc). apply map_filter_empty.
  - intros g a Ha. destruct (I6 g a Ha) as [A1 A2 A3 A4 A5 A6 A7 (y & Hy & Hs)]. split; try done. destruct (Hget _ _ Hy) as (y' & Hy' & Hc).
    exists y'. split; [done|]. by destruct Hc as [-> | ->].
  - intros g Hg. destruct (I9 g Hg) as [Hlt Ha]. split; [done|]. intros a Hga. destruct (Ha a Hga) as [?|Hsd]; [by left|right].
    unfold session_done in *. destruct (sv_heap s !! at_session a) as [y|] eqn:Hy; [|done]. destruct (Hget _ _ Hy) as (y' & -> & Hc). by destruct Hc as [-> | ->].
Qed.

(** The session with the new endpoint. *)
Definition joined (x : session (V := V)) (a : Admission) (v : V) : session :=
  x <| se_endpoints := <[ad_Role a := mkEndpoint a v]> (se_endpoints x) |>.

Lemma validAdmission_role a now : validAdmission a now = true → is_role (ad_Role a).
Proof.
  unfold validAdmission. intros Hv. repeat (apply andb_true_iff in Hv as [Hv ?]).
  match goal with X : (_ == RoleControlling) || _ = true |- _ => apply orb_true_iff in X as [X%bool_decide_eq_true|X%bool_decide_eq_true] end;
    [by left|by right].
Qed.

Lemma joined_ok depth x a v :
  session_ok depth x → is_role (ad_Role a) → key_of a = se_key x → ad_Role a ∉ se_completed x → reciprocal x a = true →
  se_endpoints x !! ad_Role a = None → session_ok depth (joined x a v).
Proof.
  intros [S1 S2 S3] Hr Hk Hc Hrec Hnone. unfold reciprocal in Hrec. split; cbn; try done.
  - intros r ep [[<- <-]|[_ Hep]]%lookup_insert_Some; [done|by apply S1].
  - intros r ep ep' [[<- <-]|[Hne Hep]]%lookup_insert_Some [[Ho <-]|[Hne' Hep']]%lookup_insert_Some; cbn.
    + by destruct (opposite_ne (ad_Role a) Hr).
    + rewrite Hep' in Hrec. apply andb_true_iff in Hrec as [H1%bool_decide_eq_true H2%bool_decide_eq_true]. done.
    + destruct (S1 r ep Hep) as (_ & Hrr & _). assert (r = opposite (ad_Role a)) as -> by (rewrite Ho; by rewrite opposite_involutive).
      rewrite Hep in Hrec. apply andb_true_iff in Hrec as [H1%bool_decide_eq_true H2%bool_decide_eq_true]. done.
    + by apply (S2 r).
Qed.

Lemma empty_ok depth key : 0 ≤ depth → session_ok depth (empty_session key).
Proof.
  intros Hd. split; cbn; try (intros *; by rewrite lookup_empty). intros r. unfold queue, empty_session. cbn.
  destruct (decide (r = RoleControlling)) as [->|Hne]; [done|]. rewrite lookup_insert_ne by done.
  destruct (decide (r = RoleControlled)) as [->|Hne']; [done|]. by rewrite lookup_insert_ne.
Qed.

(** A session is added under a new number. *)
Lemma add_session_inv s x :
  sinv s → sv_closed s = false → session_ok (cf_QueueDepth (sv_config s)) x → se_endpoints x ≠ ∅ → sv_sessions s !! se_key x = None →
  Z.of_nat (size (sv_sessions s)) < cf_MaximumSessions (sv_config s) →
  sinv (s <| sv_sessions := <[se_key x := sv_nextSession s]> (sv_sessions s) |> <| sv_heap := <[sv_nextSession s := x]> (sv_heap s) |>
          <| sv_nextSession := S (sv_nextSession s) |>).
Proof.
  intros [I1 I2 I3 I4 I5 I6 I7 I8 I9] Hcl Hok Hne Hk Hsz.
  assert (∀ sid y, sv_heap s !! sid = Some y → <[sv_nextSession s := x]> (sv_heap s) !! sid = Some y) as Hget.
  { intros sid y Hy. rewrite lookup_insert_ne; [done|]. intros <-. destruct (I1 _ _ Hy). lia. }
  split; cbn; try done.
  - intros sid y [[<- <-]|[_ Hy]]%lookup_insert_Some; [split; [lia|done]|]. destruct (I1 _ _ Hy). split; [lia|done].
  - intros k sid [[<- <-]|[_ Hs]]%lookup_insert_Some; [exists x; by rewrite lookup_insert_eq|].
    destruct (I2 k sid Hs) as (y & Hy & ? & ?). exists y. by rewrite (Hget _ _ Hy).
  - rewrite map_size_insert, Hk. lia.
  - congruence.
  - intros g a Ha. destruct (I6 g a Ha) as [A1 A2 A3 A4 A5 A6 A7 (y & Hy & Hs)]. split; try done. exists y. by rewrite (Hget _ _ Hy).
  - intros g Hg. destruct (I9 g Hg) as [Hlt Ha]. split; [done|]. intros a Hga. destruct (Ha a Hga) as [?|Hsd]; [by left|right].
    unfold session_done in *. cbn. destruct (sv_heap s !! at_session a) as [y|] eqn:Hy; [|done]. by rewrite (Hget _ _ Hy).
Qed.

(** A refused grant is released at once; an accepted one gets its attachment. *)
Lemma grant_released s : sinv s → sinv (release_grant (sv_grants s) (s <| sv_grants := S (sv_grants s) |>)).
Proof.
  intros [I1 I2 I3 I4 I5 I6 I7 I8 I9]. split; try done.
  - intros g a Ha. destruct (I6 g a Ha) as [A1 A2 A3 A4 A5 A6 A7 A8]. split; try done; cbn; [lia|set_solver..].
  - intros g Hg. cbn in *. destruct (decide (g = sv_grants s)) as [->|Hne]; [left; set_solver|].
    destruct (I8 g ltac:(lia)); [left; set_solver|by right].
  - intros g Hg. cbn in *. destruct (decide (g = sv_grants s)) as [->|Hne].
    + split; [lia|]. intros a Ha. destruct (I6 _ _ Ha). lia.
    + destruct (I9 g ltac:(set_solver)) as [? ?]. split; [lia|done].
Qed.

Lemma grant_attached s sid x a v :
  sinv s → sv_heap s !! sid = Some x → se_endpoints x !! ad_Role a = Some (mkEndpoint a v) → is_role (ad_Role a) →
  (∀ g b, sv_atts s !! g = Some b → at_session b = sid → at_role b ≠ ad_Role a) →
  Z.of_nat (size (<[ad_CredentialID a := ad_ExpiresAt a]> (sv_consumed s))) ≤ Z.max 0 (cf_MaximumConsumed (sv_config s)) →
  sinv (s <| sv_grants := S (sv_grants s) |>
          <| sv_consumed := <[ad_CredentialID a := ad_ExpiresAt a]> (sv_consumed s) |>
          <| sv_atts := <[sv_grants s := mkAttachment sid (ad_Role a) (ad_ExpiresAt a) false false None WWaiting]> (sv_atts s) |>).
Proof.
  intros [I1 I2 I3 I4 I5 I6 I7 I8 I9] Hx Hep Hr Hfree Hsz.
  split; try done.
  - intros g b Hb. cbn in Hb. apply lookup_insert_Some in Hb as [[<- <-]|[_ Hb]].
    + split; try done; cbn; [lia|]. exists x. split; [done|]. right. by eexists.
    + destruct (I6 g b Hb) as [A1 A2 A3 A4 A5 A6 A7 A8]. split; try done. cbn. lia.
  - intros g g' b b' Hb Hb' Hs Hrr. cbn in Hb, Hb'.
    apply lookup_insert_Some in Hb as [[<- <-]|[_ Hb]]; apply lookup_insert_Some in Hb' as [[<- <-]|[_ Hb']]; cbn in *; try done.
    + by destruct (Hfree g' b' Hb').
    + by destruct (Hfree g b Hb).
    + by apply (I7 g g' b b').
  - intros g Hg. cbn in *. destruct (decide (g = sv_grants s)) as [->|Hne]; [right; eexists; by rewrite lookup_insert_eq|].
    destruct (I8 g ltac:(lia)) as [?|(b & Hb & ?)]; [by left|right; exists b]. by rewrite lookup_insert_ne.
  - intros g Hg. cbn in *. destruct (I9 g Hg) as [? Hd]. split; [lia|]. intros b Hb. apply Hd. rewrite lookup_insert_ne in Hb; [done|lia].
Qed.

(** An accepted attachment joins the session of its key, or opens one. *)
Definition rejoined (sid : nat) (x : session (V := V)) (a : Admission) (v : V) (q : Service (V := V)) : Service :=
  q <| sv_heap := <[sid := joined x a v]> (sv_heap q) |>.

Definition opened (a : Admission) (v : V) (q : Service (V := V)) : Service :=
  q <| sv_sessions := <[key_of a := sv_nextSession q]> (sv_sessions q) |>
    <| sv_heap := <[sv_nextSession q := joined (empty_session (key_of a)) a v]> (sv_heap q) |>
    <| sv_nextSession := S (sv_nextSession q) |>.

Definition seat (sid : nat) (a : Admission) (q : Service (V := V)) : Service :=
  q <| sv_grants := S (sv_grants q) |> <| sv_consumed := <[ad_CredentialID a := ad_ExpiresAt a]> (sv_consumed q) |>
    <| sv_atts := <[sv_grants q := mkAttachment sid (ad_Role a) (ad_ExpiresAt a) false false None WWaiting]> (sv_atts q) |>.

Inductive attaches (a : Admission) (v : V) (q : Service (V := V)) : Service (V := V) → Prop :=
  | attach_rejoined sid x :
      sv_sessions q !! key_of a = Some sid → sv_heap q !! sid = Some x → se_endpoints x !! ad_Role a = None →
      ad_Role a ∉ se_completed x → reciprocal x a = true → attaches a v q (seat sid a (rejoined sid x a v q))
  | attach_opened :
      sv_sessions q !! key_of a = None → Z.of_nat (size (sv_sessions q)) < cf_MaximumSessions (sv_config q) →
      attaches a v q (seat (sv_nextSession q) a (opened a v q)).

(** What [Attach] can do. *)
Inductive attach_result (auth : err + Admission) (now : Time) (s : Service (V := V)) : (err + nat) * Service (V := V) → Prop :=
  | attach_refused e : attach_result auth now s (inl e, s)
  | attach_released q e :
      q = s ∨ q = removeExpiredLocked now s → attach_result auth now s (inl e, release_grant (sv_grants s) (q <| sv_grants := S (sv_grants s) |>))
  | attach_accepted a v s' :
      auth = inr a → validAdmission a now = true → new_validator (binding_of a) = inr v → sv_closed s = false →
      sv_consumed (removeExpiredLocked now s) !! ad_CredentialID a = None →
      Z.of_nat (size (sv_consumed (removeExpiredLocked now s))) < cf_MaximumConsumed (sv_config s) →
      attaches a v (removeExpiredLocked now s) s' → attach_result auth now s (inr (sv_grants s), s').

Lemma signal_Attach_cases credential auth now s : attach_result auth now s (Attach credential auth now s).
Proof.
  unfold Attach. destruct (_ || _); [constructor|]. destruct auth as [e|a]; [constructor|]. cbn zeta.
  destruct (validAdmission a now) eqn:Hv; [|apply attach_released; by left]. cbn [negb].
  destruct (new_validator (binding_of a)) as [e|v] eqn:Hn; [apply attach_released; by left|].
  unfold attach_locked. change (sv_closed (s <| sv_grants := S (sv_grants s) |>)) with (sv_closed s).
  destruct (sv_closed s) eqn:Hcl; [apply attach_released; by left|].
  cbn zeta. set (n := sv_grants s). set (q := removeExpiredLocked now s).
  change (removeExpiredLocked now (s <| sv_grants := S n |>)) with (q <| sv_grants := S n |>).
  change (sv_consumed (q <| sv_grants := S n |>)) with (sv_consumed q). change (sv_config (q <| sv_grants := S n |>)) with (sv_config q).
  destruct (sv_consumed q !! ad_CredentialID a) eqn:Hused; [apply attach_released; by right|].
  destruct (Z.leb_spec (cf_MaximumConsumed (sv_config q)) (Z.of_nat (size (sv_consumed q)))); [apply attach_released; by right|].
  unfold find_session. change (sv_sessions (q <| sv_grants := S n |>)) with (sv_sessions q). change (sv_heap (q <| sv_grants := S n |>)) with (sv_heap q).
  change (sv_config (q <| sv_grants := S n |>)) with (sv_config q). change (sv_nextSession (q <| sv_grants := S n |>)) with (sv_nextSession q).
  destruct (sv_sessions q !! key_of a) as [sid|] eqn:Hk.
  - destruct (sv_heap q !! sid) as [x|] eqn:Hx; [|apply attach_released; by right].
    destruct (se_endpoints x !! ad_Role a) eqn:Hr; cbn [orb]; [apply attach_released; by right|].
    case_bool_decide as Hc; cbn [orb]; [apply attach_released; by right|].
    destruct (reciprocal x a) eqn:Hrec; cbn [negb]; [|apply attach_released; by right].
    apply (attach_accepted _ _ _ a v); try done. by apply (attach_rejoined a v q sid x).
  - destruct (Z.leb_spec (cf_MaximumSessions (sv_config q)) (Z.of_nat (size (sv_sessions q)))); [apply attach_released; by right|].
    assert (se_endpoints (empty_session (V := V) (key_of a)) !! ad_Role a = None) as -> by apply lookup_empty.
    rewrite bool_decide_eq_false_2 by (cbn; set_solver).
    assert (reciprocal (empty_session (V := V) (key_of a)) a = true) as -> by (unfold reciprocal; cbn; by rewrite lookup_empty).
    cbn [orb negb].
    enough (attaches a v q (seat (sv_nextSession q) a (opened a v q))) as Hat; [|by apply attach_opened].
    unfold seat, opened in Hat. rewrite <- (insert_insert_eq (sv_heap q) (sv_nextSession q) _ (empty_session (key_of a))) in Hat.
    by apply (attach_accepted _ _ _ a v).
Qed.

Lemma attaches_inv a v q s' :
  sinv q → sv_closed q = false → 0 ≤ cf_QueueDepth (sv_config q) → is_role (ad_Role a) →
  Z.of_nat (size (sv_consumed q)) < cf_MaximumConsumed (sv_config q) → sv_consumed q !! ad_CredentialID a = None →
  attaches a v q s' → sinv s'.
Proof.
  intros I Hcl Hd Hr Hsz Hun [sid x Hk Hx Hnone Hc Hrec|Hk Hms].
  - destruct (si_session _ I sid x Hx) as [_ Hok]. destruct (si_map _ I _ _ Hk) as (y & Hy & Hyk & _). assert (y = x) as -> by congruence.
    assert (sinv (rejoined sid x a v q)) as I'.
    { apply (keep_session_inv q sid x); try done; [|by apply joined_ok]. split; [done|]. intros r ep Hep. exists ep. cbn.
      rewrite lookup_insert_ne by congruence. done. }
    apply (grant_attached _ sid (joined x a v) a v I'); try done; cbn; [by rewrite lookup_insert_eq..| |].
    + intros g b Hb Hs E. destruct (si_att _ I g b Hb) as [_ _ _ _ _ _ _ (z & Hz & Hseat)]. rewrite Hs in Hz. assert (z = x) as -> by congruence.
      unfold seated in Hseat. rewrite E in Hseat. naive_solver congruence.
    + rewrite map_size_insert, Hun. lia.
  - assert (sinv (opened a v q)) as I'.
    { apply (add_session_inv q (joined (empty_session (key_of a)) a v)); try done.
      - apply joined_ok; [by apply empty_ok|done|done|cbn; set_solver|unfold reciprocal; cbn; by rewrite lookup_empty|apply lookup_empty]. }
    apply (grant_attached _ (sv_nextSession q) (joined (empty_session (key_of a)) a v) a v I'); try done; cbn; [by rewrite lookup_insert_eq..| |].
    + intros g b Hb Hs E. destruct (si_att _ I g b Hb) as [_ _ _ _ _ _ _ (z & Hz & _)]. rewrite Hs in Hz. destruct (si_session _ I _ _ Hz). lia.
    + rewrite map_size_insert, Hun. lia.
Qed.

Lemma signal_Attach_inv credential auth now s : sinv s → 0 ≤ cf_QueueDepth (sv_config s) → sinv (Attach credential auth now s).2.
Proof.
  intros I Hd. pose proof (removeExpired_inv now s I) as I'. destruct (signal_Attach_cases credential auth now s) as [e|q e Hq|a v s' Ha Hv Hn Hc Hu Hsz Hat]; cbn [snd]; [done| |].
  - destruct Hq as [-> | ->]; [by apply grant_released|]. exact (grant_released _ I').
  - eapply attaches_inv; [exact I'|..|exact Hat]; try done. by eapply validAdmission_role.
Qed.
End Service.
End SignalingProofs.
