(* ===== verification/SignalingLiveness.v ===== *)
(** * Peer signaling service: the end of sessions

    Which session is over, and who still has to say so: a session that left the map is done,
    or its channel is about to be closed by a call under way or by the closing service.
    Running what is under way then releases every grant. *)
From S2P Require Import Prelude Go Strings Protocol SignalProtocol Signaling SignalingProofs.

Module SignalingLiveness.
Import Signaling SignalingProofs.
#[local] Arguments key_of : simpl never.

Section Service.
Context {V : Type} `{SignalValidator V}.
Implicit Types (s : Service (V := V)) (x : session (V := V)).

Definition look s (sid : nat) : option (sessionKey * bool) := (λ x, (se_key x, se_done x)) <$> sv_heap s !! sid.

Definition pend s (sid : nat) : Prop := ∃ g a, sv_atts s !! g = Some a ∧ at_session a = sid ∧ at_call a = Some PCloseDone.

Record linv s : Prop := {
  li_mapped : ∀ sid k d, look s sid = Some (k, d) → sv_sessions s !! k = Some sid → d = false;
  li_orphan : ∀ sid k, look s sid = Some (k, false) → sv_sessions s !! k ≠ Some sid → sid ∈ sv_closing s ∨ pend s sid;
  li_pending : ∀ sid k d, look s sid = Some (k, d) → sid ∈ sv_closing s ∨ pend s sid → sv_sessions s !! k ≠ Some sid;
  li_known : ∀ sid, sid ∈ sv_closing s → is_Some (look s sid);
  li_open : sv_closed s = false → sv_closing s = []
}.

Lemma linv_new ms mc qd mm s : New ms mc qd mm = inr s → linv s.
Proof.
  unfold New. cbv zeta. destruct (_ || _); [done|]. intros [= <-]. split; unfold look; cbn; try done; by intros sid ?%elem_of_nil.
Qed.

Lemma linv_frame s s' :
  linv s → sv_sessions s' = sv_sessions s → sv_closing s' = sv_closing s → sv_closed s' = sv_closed s →
  (∀ sid, look s' sid = look s sid) → (∀ sid, pend s' sid ↔ pend s sid) → linv s'.
Proof.
  intros [L1 L2 L3 L4 L5] E1 E2 E3 El Ep. split.
  - intros *. rewrite El, E1. apply L1.
  - intros *. rewrite El, E1, E2, Ep. apply L2.
  - intros *. rewrite El, E1, E2, Ep. apply L3.
  - intros *. rewrite El, E2. apply L4.
  - rewrite E2, E3. apply L5.
Qed.

Lemma look_put s sid x x' k :
  sv_heap s !! sid = Some x → se_key x' = se_key x → se_done x' = se_done x →
  look (s <| sv_heap := <[sid := x']> (sv_heap s) |>) k = look s k.
Proof.
  intros Hx Hk Hd. unfold look. cbn. destruct (decide (k = sid)) as [->|Hne]; [|by rewrite lookup_insert_ne].
  rewrite lookup_insert_eq, Hx. cbn. by rewrite Hk, Hd.
Qed.

Lemma pend_put s g a a' sid :
  sv_atts s !! g = Some a → at_session a' = at_session a → (at_call a' = Some PCloseDone ↔ at_call a = Some PCloseDone) →
  pend (s <| sv_atts := <[g := a']> (sv_atts s) |>) sid ↔ pend s sid.
Proof.
  intros Ha Hs Hc. unfold pend. cbn. split; intros (g' & b & Hb & Hbs & Hbc).
  - apply lookup_insert_Some in Hb as [[<- <-]|[_ Hb]]; [exists g, a|by exists g', b]. split_and!; [done|congruence|by apply Hc].
  - destruct (decide (g' = g)) as [->|Hne]; [|exists g', b; by rewrite lookup_insert_ne].
    assert (b = a) as -> by congruence. exists g, a'. rewrite lookup_insert_eq. split_and!; [done|congruence|by apply Hc].
Qed.

Lemma linv_put_session s sid x x' :
  linv s → sv_heap s !! sid = Some x → se_key x' = se_key x → se_done x' = se_done x → linv (s <| sv_heap := <[sid := x']> (sv_heap s) |>).
Proof. intros L Hx Hk Hd. apply (linv_frame s); try done. intros k. by apply (look_put s sid x). Qed.

Lemma linv_put_att s g a a' :
  linv s → sv_atts s !! g = Some a → at_session a' = at_session a → (at_call a' = Some PCloseDone ↔ at_call a = Some PCloseDone) →
  linv (s <| sv_atts := <[g := a']> (sv_atts s) |>).
Proof. intros L Ha Hs Hc. apply (linv_frame s); try done. intros k. by apply (pend_put s g a). Qed.

Lemma linv_release s g : linv s → linv (release_grant g s).
Proof. intros L. by apply (linv_frame s). Qed.

Lemma linv_set_watch s id w : linv s → linv (set_watch id w s).
Proof.
  intros L. unfold set_watch. destruct (sv_atts s !! id) as [a|] eqn:Ha.
  - rewrite (alter_put _ _ _ _ Ha). by apply (linv_put_att s id a).
  - rewrite alter_absent by done. by destruct s.
Qed.

Lemma linv_Send s id cx raw : linv s → linv (Send id cx raw s).2.
Proof.
  intros L. unfold Send. destruct (sv_atts s !! id) as [a|]; [|done]. destruct (_ || _); [done|]. destruct cx; [done|].
  destruct (attached a s) as [[x ep]|] eqn:Et; [|done]. destruct (_ <=? _); [done|]. apply attached_spec in Et as (_ & Hx & _ & _).
  destruct (accept raw (ep_validator ep)) as [[e|[]] v]; by apply (linv_put_session s _ x).
Qed.

Lemma linv_take s id : linv s → linv (receive_take id s).2.
Proof.
  intros L. unfold receive_take. destruct (sv_atts s !! id) as [a|]; [|done]. destruct (sv_heap s !! at_session a) as [x|] eqn:Hx; [|done].
  destruct (queue (at_role a) x); [done|]. by apply (linv_put_session s _ x).
Qed.

Lemma linv_call_begin s first id : sinv s → linv s → first ≠ PCloseDone → linv (call_begin first id s).
Proof.
  intros I L Hf. unfold call_begin. destruct (sv_atts s !! id) as [a|] eqn:Ha; [|done]. destruct (at_once a) eqn:Ho; [done|].
  apply (linv_put_att s id a); try done. cbn. split; [congruence|]. intros Hc. pose proof (ao_call _ _ _ _ _ (si_att _ I id a Ha)) as Hcall.
  rewrite Hcall in Ho; [done|congruence].
Qed.

(** ** The phases of a call *)

Lemma pend_set_call s id a c sid :
  sv_atts s !! id = Some a → c ≠ Some PCloseDone → pend (set_call id c s) sid → pend s sid.
Proof.
  intros Ha Hc (g & b & Hb & Hs & Hbc). unfold set_call in Hb. cbn in Hb. rewrite (alter_put _ _ _ _ Ha) in Hb.
  apply lookup_insert_Some in Hb as [[<- <-]|[_ Hb]]; [done|by exists g, b].
Qed.

Lemma pend_set_call_other s id a c sid :
  sv_atts s !! id = Some a → pend s sid → pend (set_call id c s) sid ∨ sid = at_session a ∧ at_call a = Some PCloseDone.
Proof.
  intros Ha (g & b & Hb & Hs & Hbc). destruct (decide (g = id)) as [->|Hne]; [right; naive_solver congruence|].
  left. exists g, b. cbn. by rewrite lookup_alter_ne.
Qed.

Lemma pend_set_call_new s id a : sv_atts s !! id = Some a → pend (set_call id (Some PCloseDone) s) (at_session a).
Proof. intros Ha. exists id. eexists. cbn. by rewrite lookup_alter_eq, Ha. Qed.

(** A call moves on, to or from phases that are not [PCloseDone]. *)
Lemma linv_set_call s id a c :
  linv s → sv_atts s !! id = Some a → c ≠ Some PCloseDone → at_call a ≠ Some PCloseDone → linv (set_call id c s).
Proof.
  intros L Ha Hc Hn. apply (linv_frame s); try done. intros sid. split; [by apply (pend_set_call s id a)|].
  intros Hp. destruct (pend_set_call_other s id a c sid Ha Hp) as [?|[_ ?]]; done.
Qed.

(** A session leaves the map, and a call is due to close it. *)
Lemma linv_unmap s s' sid :
  linv s → sv_closing s' = sv_closing s → sv_closed s' = sv_closed s → (∀ k, look s' k = look s k) →
  (∀ k sid', sv_sessions s' !! k = Some sid' ↔ sv_sessions s !! k = Some sid' ∧ sid' ≠ sid) →
  (∀ sid', pend s' sid' ↔ pend s sid' ∨ sid' = sid) → linv s'.
Proof.
  intros [L1 L2 L3 L4 L5] E2 E3 El Em Ep. split.
  - intros sid' k d. rewrite El, Em. intros Hl [Hm _]. by eapply L1.
  - intros sid' k. rewrite El, E2, Ep. intros Hl Hm. destruct (decide (sid' = sid)) as [->|Hne]; [by right; right|].
    destruct (L2 sid' k Hl) as [?|?]; [|by left|by right; left]. intros Hm'. by apply Hm, Em.
  - intros sid' k d. rewrite El, E2, Ep, Em. intros Hl Hp [Hm Hne]. apply (L3 sid' k d Hl); [naive_solver|done].
  - intros sid'. rewrite El, E2. apply L4.
  - rewrite E2, E3. apply L5.
Qed.

Lemma terminate_map s sid k sid' :
  sinv s → is_Some (sv_heap s !! sid) → sv_sessions (terminate sid s) !! k = Some sid' ↔ sv_sessions s !! k = Some sid' ∧ sid' ≠ sid.
Proof.
  intros I (x & Hx). unfold terminate. rewrite Hx.
  assert (sv_sessions s !! k = Some sid → k = se_key x) as Hk.
  { intros Hm. destruct (si_map _ I _ _ Hm) as (y & Hy & <- & _). congruence. }
  case_bool_decide as Hm; cbn.
  - rewrite lookup_delete_Some. split; [intros [Hne Hs]; split; [done|]; intros ->; by apply Hne; rewrite Hk|].
    intros [Hs Hne]. split; [|done]. intros <-. congruence.
  - split; [intros Hs; split; [done|]; intros ->; apply Hm; by rewrite <- Hk|by intros [? _]].
Qed.

(** The call [id] is now due to close its session. *)
Lemma pend_due s s' id a sid' :
  sv_atts s !! id = Some a → at_call a ≠ Some PCloseDone → sv_atts s' = sv_atts s →
  pend (set_call id (Some PCloseDone) s') sid' ↔ pend s sid' ∨ sid' = at_session a.
Proof.
  intros Ha Hc Hs. split.
  - intros (g & b & Hb & Hbs & Hbc). cbn in Hb. rewrite Hs, (alter_put _ _ _ _ Ha) in Hb.
    apply lookup_insert_Some in Hb as [[<- <-]|[_ Hb]]; [right; done|left; by exists g, b].
  - intros [(g & b & Hb & Hbs & Hbc)| ->].
    + exists g, b. cbn. rewrite Hs, lookup_alter_ne; [done|]. intros <-. congruence.
    + exists id. eexists. cbn. rewrite Hs, lookup_alter_eq, Ha. done.
Qed.

Lemma linv_terminate_call s id a :
  sinv s → linv s → sv_atts s !! id = Some a → at_call a = Some PTerminate →
  linv (set_call id (Some PCloseDone) (terminate (at_session a) s)).
Proof.
  intros I L Ha Hc. destruct (si_att _ I id a Ha) as [_ _ _ _ _ _ _ (x & Hx & _)].
  apply (linv_unmap s _ (at_session a) L); unfold set_call; cbn.
  - unfold terminate. by repeat case_match.
  - unfold terminate. by repeat case_match.
  - intros k. unfold look. cbn. unfold terminate. by repeat case_match.
  - intros k sid'. apply terminate_map; [done|by exists x].
  - intros sid'. apply (pend_due s); [done|congruence|apply atts_terminate].
Qed.

Lemma linv_complete_call s id a :
  sinv s → linv s → sv_atts s !! id = Some a → at_call a = Some PComplete →
  linv (let '(finished, s') := complete (at_session a) (at_role a) s in
        set_call id (Some (if finished then PCloseDone else PRelease)) s').
Proof.
  intros I L Ha Hc. unfold complete. destruct (sv_heap s !! at_session a) as [x|] eqn:Hx; [|by apply (linv_set_call s id a); congruence].
  destruct (_ || _) eqn:Eg; [by apply (linv_set_call s id a); congruence|].
  apply orb_false_iff in Eg as [Hm%negb_false_iff%bool_decide_eq_true _]. cbn zeta.
  set (x' := x <| se_endpoints := delete (at_role a) (se_endpoints x) |> <| se_completed := {[at_role a]} ∪ se_completed x |>).
  pose proof (linv_put_session s _ x x' L Hx eq_refl eq_refl) as L'. case_bool_decide as Hf.
  - apply (linv_unmap s _ (at_session a) L); try done.
    + intros k. exact (look_put s (at_session a) x x' k Hx eq_refl eq_refl).
    + intros k sid'. rewrite <- (terminate_map s (at_session a) k sid' I) by (by exists x). unfold terminate. rewrite Hx, bool_decide_eq_true_2 by done. done.
    + intros sid'. apply (pend_due s); [done|congruence|done].
  - apply (linv_set_call _ id a _ L'); [done|done|congruence].
Qed.

Lemma linv_close_call s id a :
  sinv s → linv s → sv_atts s !! id = Some a → at_call a = Some PCloseDone →
  linv (set_call id (Some PRelease) (close_session (at_session a) s)).
Proof.
  intros I [L1 L2 L3 L4 L5] Ha Hc. destruct (si_att _ I id a Ha) as [_ _ _ _ _ _ _ (x & Hx & _)].
  assert (pend s (at_session a)) as Hpend by (by exists id, a).
  assert (∀ k, look (set_call id (Some PRelease) (close_session (at_session a) s)) k =
               if decide (k = at_session a) then Some (se_key x, true) else look s k) as El.
  { intros k. unfold look, close_session, set_call. cbn. case_decide as E; [|by rewrite lookup_alter_ne]. subst k. by rewrite lookup_alter_eq, Hx. }
  assert (look s (at_session a) = Some (se_key x, se_done x)) as Hl by (unfold look; by rewrite Hx).
  split; try done.
  - intros sid k d. rewrite El. case_decide as E; [|apply L1]. subst sid. intros [= <- <-] Hm. destruct (L3 _ _ _ Hl (or_intror Hpend) Hm).
  - intros sid k. rewrite El. case_decide as E; [done|]. intros Hlk Hm. destruct (L2 sid k Hlk Hm) as [?|Hp]; [by left|right].
    destruct (pend_set_call_other (close_session (at_session a) s) id a (Some PRelease) sid Ha Hp) as [?|[? _]]; done.
  - intros sid k d. rewrite El. intros Hlk Hp. assert (sid ∈ sv_closing s ∨ pend s sid) as Hp'.
    { destruct Hp as [?|Hp]; [by left|right]. by apply (pend_set_call (close_session (at_session a) s) id a (Some PRelease)). }
    case_decide as E; [|by apply (L3 sid k d)]. subst sid. injection Hlk as <- <-. by apply (L3 _ _ _ Hl).
  - intros sid Hin. rewrite El. case_decide; [done|by apply L4].
Qed.

Lemma linv_call_step s id : sinv s → linv s → linv (call_step id s).
Proof.
  intros I L. unfold call_step. destruct (sv_atts s !! id) as [a|] eqn:Ha; [|done]. destruct (at_call a) as [[]|] eqn:Hc; [..|done].
  - by apply linv_terminate_call.
  - by apply linv_complete_call.
  - by apply linv_close_call.
  - apply (linv_set_call _ id a); [by apply linv_release|done|done|congruence].
Qed.

(** ** The other operations *)

Lemma linv_watch_done s id : linv s → linv (watch_done id s).
Proof. intros L. unfold watch_done. repeat case_match; try done. by apply linv_set_watch, linv_release. Qed.

Lemma linv_watch_fire s rv now id : sinv s → linv s → linv (watch_fire rv now id s).
Proof. intros I L. unfold watch_fire. repeat case_match; try done. by apply linv_set_watch, linv_call_begin. Qed.

Lemma linv_watch_finish s id : linv s → linv (watch_finish id s).
Proof. intros L. unfold watch_finish. repeat case_match; try done. by apply linv_set_watch, linv_release. Qed.

Lemma linv_Service_Close s : sinv s → linv s → linv (Service_Close s).
Proof.
  intros I L. unfold Service_Close. destruct (sv_closed s) eqn:Hcl; [done|]. destruct L as [L1 L2 L3 L4 L5].
  rewrite (L5 Hcl) in *. split; try done.
  - intros sid k Hl Hm. destruct (decide (sv_sessions s !! k = Some sid)) as [Hin|Hout].
    + left. cbn. apply list_elem_of_fmap. exists (k, sid). split; [done|]. by apply elem_of_map_to_list.
    + destruct (L2 sid k Hl Hout) as [?%elem_of_nil|?]; [done|by right].
  - intros sid Hin. cbn in Hin. apply list_elem_of_fmap in Hin as ([k sid'] & -> & Hin%elem_of_map_to_list).
    destruct (si_map _ I _ _ Hin) as (x & Hx & _). unfold look. cbn. by rewrite Hx.
Qed.

Lemma linv_close_next s : linv s → linv (close_next s).
Proof.
  intros L. unfold close_next. destruct (sv_closing s) as [|sid rest] eqn:Hc; [done|]. destruct L as [L1 L2 L3 L4 L5]. rewrite Hc in *.
  destruct (L4 sid ltac:(by left)) as ([key d0] & Hk).
  assert (∀ k, look (close_session sid s <| sv_closing := rest |>) k = if decide (k = sid) then Some (key, true) else look s k) as El.
  { intros k. unfold look in *. cbn. case_decide as E; [|by rewrite lookup_alter_ne]. subst k. rewrite lookup_alter_eq.
    destruct (sv_heap s !! sid); [|done]. cbn in *. congruence. }
  split.
  - intros sid' k d. rewrite El. case_decide as E; [|apply L1]. subst sid'. intros [= <- <-] Hm. exfalso. apply (L3 _ _ _ Hk); [left; by left|done].
  - intros sid' k. rewrite El. case_decide as E; [done|]. intros Hl Hm. destruct (L2 sid' k Hl Hm) as [[->|Hin]%elem_of_cons|Hp]; [done|by left|by right].
  - intros sid' k d. rewrite El. intros Hl Hp. assert (sid' ∈ sid :: rest ∨ pend s sid') as Hp' by (destruct Hp; [left; by right|by right]).
    case_decide as E; [|by apply (L3 sid' k d)]. subst sid'. injection Hl as <- <-. by apply (L3 _ _ _ Hk).
  - intros sid' Hin. rewrite El. case_decide; [done|]. apply L4. by right.
  - intros Hcl. by specialize (L5 Hcl).
Qed.

(** ** Attaching *)

Lemma ends_now_spec now s sid x :
  sv_heap s !! sid = Some x → ends_now now s sid = true ↔ sv_sessions s !! se_key x = Some sid ∧ session_expired now x = true.
Proof. intros Hx. unfold ends_now. rewrite Hx, andb_true_iff, bool_decide_eq_true. done. Qed.

Lemma look_expired now s sid :
  look (removeExpiredLocked now s) sid = (λ '(k, d), (k, if ends_now now s sid then true else d)) <$> look s sid.
Proof. unfold look. cbn. rewrite map_lookup_imap. destruct (sv_heap s !! sid); [|done]. cbn. by destruct (ends_now now s sid). Qed.

Lemma linv_removeExpired now s : sinv s → linv s → linv (removeExpiredLocked now s).
Proof.
  intros I [L1 L2 L3 L4 L5].
  assert (∀ sid k d, look (removeExpiredLocked now s) sid = Some (k, d) →
            ∃ x, sv_heap s !! sid = Some x ∧ k = se_key x ∧ d = if ends_now now s sid then true else se_done x) as Hl.
  { intros sid k d. rewrite look_expired. unfold look. destruct (sv_heap s !! sid) as [x|]; [|done]. cbn. intros [= <- <-]. by exists x. }
  split.
  - intros sid k d (x & Hx & -> & ->)%Hl [Hm He]%map_lookup_filter_Some. cbn in He. rewrite He. apply (L1 sid (se_key x)); [|done]. unfold look. by rewrite Hx.
  - intros sid k (x & Hx & -> & Hd)%Hl Hm. destruct (ends_now now s sid) eqn:He; [done|]. apply (L2 sid (se_key x)).
    + unfold look. rewrite Hx. cbn. by rewrite <- Hd.
    + intros Hs. apply Hm. by apply map_lookup_filter_Some.
  - intros sid k d (x & Hx & -> & _)%Hl Hp [Hm _]%map_lookup_filter_Some. apply (L3 sid (se_key x) (se_done x)); [|done|done]. unfold look. by rewrite Hx.
  - intros sid Hin. rewrite look_expired. destruct (L4 sid Hin) as ([k d] & ->). by eexists.
  - done.
Qed.

Lemma linv_attaches a v q s' : sinv q → linv q → attaches a v q s' → linv s'.
Proof.
  intros I L Hat. pose proof L as [L1 L2 L3 L4 L5].
  assert (∀ t sid, linv t → sv_atts t = sv_atts q → sv_grants t = sv_grants q → linv (seat sid a t)) as Hseat.
  { intros t sid Lt Et Eg. apply (linv_frame t); try done. intros sid'. unfold pend. cbn. rewrite Et, Eg. split; intros (g & b & Hb & ?).
    - apply lookup_insert_Some in Hb as [[<- <-]|[_ Hb]]; [naive_solver|by exists g, b].
    - exists g, b. rewrite lookup_insert_ne; [done|]. intros <-. destruct (si_att _ I _ _ Hb). lia. }
  destruct Hat as [sid x Hk Hx Hnone Hc Hrec|Hk Hms]; (apply Hseat; [|done|done]).
  - by apply (linv_put_session q sid x).
  - set (n := sv_nextSession q).
    assert (∀ sid, look (opened a v q) sid = if decide (sid = n) then Some (key_of a, false) else look q sid) as El.
    { intros sid. unfold look. cbn. case_decide as E; [subst sid; by rewrite lookup_insert_eq|by rewrite lookup_insert_ne]. }
    assert (look q n = None) as Hn.
    { unfold look. destruct (sv_heap q !! n) as [y|] eqn:Hy; [|done]. destruct (si_session _ I _ _ Hy). lia. }
    assert (∀ k sid, sid ≠ n → sv_sessions (opened a v q) !! k = Some sid ↔ sv_sessions q !! k = Some sid ∧ k ≠ key_of a) as Em.
    { intros k sid Hne. cbn. rewrite lookup_insert_Some. naive_solver congruence. }
    assert (∀ k sid, sv_sessions q !! k = Some sid → k ≠ key_of a) as Hkey by (intros k sid E ->; congruence).
    split.
    + intros sid k d. rewrite El. case_decide as E; [congruence|]. rewrite Em by done. intros ? [? _]. by eapply L1.
    + intros sid k. rewrite El. case_decide as E; [subst sid; intros [= <-] Hm; destruct Hm; cbn; by rewrite lookup_insert_eq|].
      intros Hl Hm. apply (L2 sid k Hl). intros Hs. apply Hm, Em; [done|]. split; [done|by eapply Hkey].
    + intros sid k d. rewrite El. case_decide as E.
      * subst sid. intros _ [Hin|(g & b & Hb & Hbs & _)].
        -- destruct (L4 n Hin) as [? Hs]. congruence.
        -- destruct (si_att _ I g b Hb) as [_ _ _ _ _ _ _ (y & Hy & _)]. unfold look in Hn. rewrite Hbs in Hy. by rewrite Hy in Hn.
      * rewrite Em by done. intros Hl Hp [Hm _]. by apply (L3 sid k d).
    + intros sid Hin. rewrite El. case_decide; [done|by apply L4].
    + done.
Qed.

Lemma linv_Attach credential auth now s : sinv s → linv s → linv (Attach credential auth now s).2.
Proof.
  intros I L. pose proof (linv_removeExpired now s I L) as L'.
  destruct (signal_Attach_cases credential auth now s) as [e|q e Hq|a v s' _ _ _ _ _ _ Hat]; cbn [snd]; [done| |].
  - destruct Hq as [-> | ->]; apply linv_release; [by apply (linv_frame s)|by apply (linv_frame (removeExpiredLocked now s))].
  - apply (linv_attaches a v (removeExpiredLocked now s)); [by apply removeExpired_inv|done|done].
Qed.

(** ** Running what is under way *)

Definition finish_call (id : nat) s : Service := Nat.iter 3 (call_step id) s.

Definition finish_watch (id : nat) s : Service := watch_finish id (watch_done id s).

Definition settle_calls (ids : list nat) s : Service := List.fold_left (λ s id, finish_call id s) ids s.
Definition settle_watch (ids : list nat) s : Service := List.fold_left (λ s id, finish_watch id s) ids s.

Definition attachments s : list nat := (map_to_list (sv_atts s)).*1.

(** The closing service closes its sessions, then the calls under way finish, then the
    goroutines that watch. *)
Definition settle s : Service :=
  settle_watch (attachments s) (settle_calls (attachments s) (Nat.iter (length (sv_closing s)) close_next s)).

(** [t] comes after [s] without new attachments or sessions. *)
Record later s t : Prop := {
  la_atts : ∀ g a, sv_atts s !! g = Some a →
    ∃ a', sv_atts t !! g = Some a' ∧ at_session a' = at_session a ∧ (at_done a = true → at_done a' = true);
  la_back : ∀ g a', sv_atts t !! g = Some a' → is_Some (sv_atts s !! g);
  la_map : ∀ k sid, sv_sessions t !! k = Some sid → sv_sessions s !! k = Some sid;
  la_look : ∀ sid k d, look s sid = Some (k, d) → ∃ d', look t sid = Some (k, d') ∧ (d = true → d' = true);
  la_grants : sv_grants t = sv_grants s
}.

#[export] Instance later_refl : Reflexive later.
Proof. intros s. split; try done; [intros g a Ha; by exists a|intros sid k d Hl; by exists d]. Qed.

#[export] Instance later_trans : Transitive later.
Proof.
  intros s t u [A1 A2 A3 A4 A5] [B1 B2 B3 B4 B5]. split; [| | | |congruence].
  - intros g a Ha. destruct (A1 g a Ha) as (a' & Ha' & ? & ?). destruct (B1 g a' Ha') as (b & ? & ? & ?). exists b. split_and!; [done|congruence|auto].
  - intros g a' Ha'. destruct (B2 g a' Ha') as (b & Hb). by apply (A2 g b).
  - intros k sid Hs. by apply A3, B3.
  - intros sid k d Hl. destruct (A4 sid k d Hl) as (d1 & Hl1 & ?). destruct (B4 sid k d1 Hl1) as (d2 & ? & ?). exists d2. auto.
Qed.

Lemma later_set_call s id c : later s (set_call id c s).
Proof.
  split; cbn; [| |done|intros sid k d Hl; by exists d|done].
  - intros g a Ha. destruct (decide (g = id)) as [->|Hne]; [eexists; by rewrite lookup_alter_eq, Ha|exists a; by rewrite lookup_alter_ne].
  - intros g a'. destruct (decide (g = id)) as [->|Hne]; [rewrite lookup_alter_eq; intros (a & -> & _)%fmap_Some; by eexists|].
    rewrite lookup_alter_ne by done. intros ->. by eexists.
Qed.

Lemma look_later s t : sv_atts t = sv_atts s → sv_grants t = sv_grants s → (∀ k sid, sv_sessions t !! k = Some sid → sv_sessions s !! k = Some sid) →
  (∀ sid k d, look s sid = Some (k, d) → ∃ d', look t sid = Some (k, d') ∧ (d = true → d' = true)) → later s t.
Proof. intros E1 E2 Hm Hl. split; rewrite ?E1; try done; intros g a Ha; by exists a. Qed.

Lemma later_terminate s sid : later s (terminate sid s).
Proof.
  unfold terminate. destruct (sv_heap s !! sid) as [x|]; [|done]. case_bool_decide; [|done]. apply look_later; try done; [|intros k y d Hl; by exists d].
  intros k sid' Hs. cbn in Hs. by apply lookup_delete_Some in Hs as [_ ?].
Qed.

Lemma later_close s sid : later s (close_session sid s).
Proof.
  apply look_later; try done. intros k key d. unfold look. cbn. destruct (decide (k = sid)) as [->|Hne].
  - rewrite lookup_alter_eq. destruct (sv_heap s !! sid); [|done]. cbn. intros [= <- <-]. by exists true.
  - rewrite lookup_alter_ne by done. intros Hl. by exists d.
Qed.

Lemma later_complete s sid role : later s (complete sid role s).2.
Proof.
  unfold complete. destruct (sv_heap s !! sid) as [x|] eqn:Hx; [|done]. destruct (_ || _); [done|]. cbn zeta.
  set (x' := x <| se_endpoints := delete role (se_endpoints x) |> <| se_completed := {[role]} ∪ se_completed x |>).
  assert (∀ k, look (s <| sv_heap := <[sid := x']> (sv_heap s) |>) k = look s k) as Hl by (intros k; by apply (look_put s sid x)).
  case_bool_decide; apply look_later; try done; [intros k sid' Hs; cbn in Hs; by apply lookup_delete_Some in Hs as [_ ?]|..]; intros k y d Hk; exists d; (split; [|done]);
    rewrite <- Hk; apply Hl.
Qed.

Lemma later_call_step s id : later s (call_step id s).
Proof.
  unfold call_step. destruct (sv_atts s !! id) as [a|]; [|done]. destruct (at_call a) as [[]|]; [..|done].
  - etrans; [apply later_terminate|apply later_set_call].
  - pose proof (later_complete s (at_session a) (at_role a)) as L. destruct (complete _ _ s) as [f s']. etrans; [exact L|apply later_set_call].
  - etrans; [apply later_close|apply later_set_call].
  - etrans; [|apply later_set_call]. apply look_later; try done. intros k y d Hl. by exists d.
Qed.

Lemma later_close_next s : later s (close_next s).
Proof.
  unfold close_next. destruct (sv_closing s) as [|sid rest]; [done|]. etrans; [apply (later_close s sid)|]. apply look_later; try done. intros k y d Hl. by exists d.
Qed.

Definition good s : Prop := sinv s ∧ linv s.

(** How many phases a call has left. *)
Definition phases_left (c : option phase) : nat :=
  match c with None => 0 | Some PRelease => 1 | Some PCloseDone => 2 | Some _ => 3 end.

Lemma call_step_self s id a :
  sv_atts s !! id = Some a → ∃ c, sv_atts (call_step id s) !! id = Some (a <| at_call := c |>) ∧ (phases_left c ≤ pred (phases_left (at_call a)))%nat.
Proof.
  intros Ha. unfold call_step. rewrite Ha. destruct (at_call a) as [[]|] eqn:Hc.
  - exists (Some PCloseDone). cbn. rewrite atts_terminate, lookup_alter_eq, Ha. split; [done|cbn; lia].
  - pose proof (atts_complete (at_session a) (at_role a) s) as E. destruct (complete _ _ s) as [f s']. cbn [snd] in E.
    eexists. cbn. rewrite E, lookup_alter_eq, Ha. split; [done|]. destruct f; cbn; lia.
  - exists (Some PRelease). cbn. rewrite lookup_alter_eq, Ha. split; [done|cbn; lia].
  - exists None. cbn. rewrite lookup_alter_eq, Ha. split; [done|cbn; lia].
  - exists None. rewrite Ha. split; [|cbn; lia]. by destruct a; cbn in *; subst.
Qed.

Lemma call_step_other s id g : g ≠ id → sv_atts (call_step id s) !! g = sv_atts s !! g.
Proof.
  intros Hne. unfold call_step. destruct (sv_atts s !! id) as [a|]; [|done]. destruct (at_call a) as [[]|]; [..|done].
  - cbn. by rewrite lookup_alter_ne, atts_terminate.
  - pose proof (atts_complete (at_session a) (at_role a) s) as E. destruct (complete _ _ s) as [f s']. cbn [snd] in E. cbn. by rewrite lookup_alter_ne, E.
  - cbn. by rewrite lookup_alter_ne.
  - cbn. by rewrite lookup_alter_ne.
Qed.

Lemma finish_call_spec s id :
  good s → good (finish_call id s) ∧ later s (finish_call id s) ∧ sv_closing (finish_call id s) = sv_closing s
  ∧ (∀ g, g ≠ id → sv_atts (finish_call id s) !! g = sv_atts s !! g)
  ∧ (∀ a, sv_atts (finish_call id s) !! id = Some a → at_call a = None).
Proof.
  intros G. assert (∀ t, good t → good (call_step id t)) as Hg by (intros t [I L]; split; [by apply call_step_inv|by apply linv_call_step]).
  assert (∀ t : Service (V := V), sv_closing (call_step id t) = sv_closing t) as Hcl by (intros t; unfold call_step, terminate, complete; repeat case_match; simplify_eq; done).
  change (finish_call id s) with (call_step id (call_step id (call_step id s))).
  split_and!; [by apply Hg, Hg, Hg|etrans; [apply later_call_step|]; etrans; [apply later_call_step|]; apply later_call_step|by rewrite !Hcl|by intros g Hne; rewrite !call_step_other|].
  intros a Ha. destruct (sv_atts s !! id) as [a0|] eqn:Ha0.
  - destruct (call_step_self s id a0 Ha0) as (c1 & H1 & Hl1). destruct (call_step_self _ id _ H1) as (c2 & H2 & Hl2).
    destruct (call_step_self _ id _ H2) as (c3 & H3 & Hl3). rewrite H3 in Ha. injection Ha as <-. cbn in *.
    assert (phases_left (at_call a0) ≤ 3)%nat by (destruct (at_call a0) as [[]|]; cbn; lia).
    destruct c3 as [[]|]; cbn in *; try lia. done.
  - assert (call_step id s = s) as E by (unfold call_step; by rewrite Ha0). rewrite !E in Ha. congruence.
Qed.

Lemma settle_calls_spec ids s :
  good s → good (settle_calls ids s) ∧ later s (settle_calls ids s) ∧ sv_closing (settle_calls ids s) = sv_closing s
  ∧ (∀ g a, sv_atts (settle_calls ids s) !! g = Some a → g ∈ ids ∨ (∃ b, sv_atts s !! g = Some b ∧ at_call b = None) → at_call a = None).
Proof.
  revert s. induction ids as [|id ids IH]; intros s G.
  { cbn. split_and!; try done. intros g a Ha [?%elem_of_nil|(b & Hb & ?)]; [done|congruence]. }
  destruct (finish_call_spec s id G) as (G1 & L1 & C1 & O1 & N1). destruct (IH _ G1) as (G2 & L2 & C2 & N2).
  change (settle_calls (id :: ids) s) with (settle_calls ids (finish_call id s)).
  split_and!; [done|by etrans|congruence|]. intros g a Ha Hg. apply (N2 g a Ha). destruct (decide (g = id)) as [->|Hne].
  - right. destruct (la_back _ _ L2 _ _ Ha) as (b & Hb). exists b. split; [done|by apply N1].
  - rewrite O1 by done. destruct Hg as [[->|Hin]%elem_of_cons|Hb]; [done|by left|by right].
Qed.

Lemma close_all_spec n s :
  good s → n = length (sv_closing s) →
  good (Nat.iter n close_next s) ∧ later s (Nat.iter n close_next s) ∧ sv_closing (Nat.iter n close_next s) = [].
Proof.
  intros G ->. remember (sv_closing s) as l eqn:El. symmetry in El. revert s G El. induction l as [|sid l IH]; intros s G El; [done|].
  cbn [length]. rewrite Nat.iter_succ_r. assert (sv_closing (close_next s) = l) as El' by (unfold close_next; by rewrite El).
  destruct (IH (close_next s)) as (G' & L' & C'); [|done|].
  - destruct G as [I L]. split; [by apply close_next_inv|by apply linv_close_next].
  - split_and!; [done| |done]. etrans; [apply later_close_next|done].
Qed.

(** *** The watching goroutines *)

Definition over s (a : Attachment) : Prop := at_call a = None ∧ (at_done a = true ∨ session_done a s = true).

Lemma finish_watch_spec s id :
  good s → good (finish_watch id s) ∧ sv_heap (finish_watch id s) = sv_heap s ∧ sv_grants (finish_watch id s) = sv_grants s
  ∧ (∀ g, g ≠ id → sv_atts (finish_watch id s) !! g = sv_atts s !! g)
  ∧ (∀ a, sv_atts (finish_watch id s) !! id = Some a → ∃ b, sv_atts s !! id = Some b ∧ at_call a = at_call b ∧ at_session a = at_session b
       ∧ at_done a = at_done b ∧ (at_watch b = WGone → at_watch a = WGone) ∧ (over s b → at_watch a = WGone)).
Proof.
  intros [I L]. split; [split; [by apply watch_finish_inv, watch_done_inv|by apply linv_watch_finish, linv_watch_done]|].
  unfold finish_watch, watch_done, over. destruct (sv_atts s !! id) as [b|] eqn:Hb; [|unfold watch_finish; rewrite Hb; split_and!; congruence].
  destruct (at_watch b) eqn:Hw.
  - destruct (at_done b || session_done b s) eqn:Ho.
    + assert (sv_atts (set_watch id WGone (release_grant id s)) !! id = Some (b <| at_watch := WGone |>)) as E by (cbn; by rewrite lookup_alter_eq, Hb).
      unfold watch_finish. rewrite E. cbn [at_watch update]. split_and!; try done; [intros g Hne; cbn; by rewrite lookup_alter_ne|].
      intros a. rewrite E. intros [= <-]. by exists b.
    + unfold watch_finish. rewrite Hb, Hw. split_and!; try done. intros a. rewrite Hb. intros [= <-]. exists b. apply orb_false_iff in Ho as [-> ->].
      split_and!; try done. naive_solver.
  - unfold watch_finish. rewrite Hb, Hw. destruct (at_call b) as [c|] eqn:Hc.
    + split_and!; try done. intros a. rewrite Hb. intros [= <-]. exists b. split_and!; try done. naive_solver.
    + assert (sv_atts (set_watch id WGone (release_grant id s)) !! id = Some (b <| at_watch := WGone |>)) as E by (cbn; by rewrite lookup_alter_eq, Hb).
      split_and!; try done; [intros g Hne; cbn; by rewrite lookup_alter_ne|]. intros a. rewrite E. intros [= <-]. by exists b.
  - unfold watch_finish. rewrite Hb, Hw. split_and!; try done. intros a. rewrite Hb. intros [= <-]. exists b. done.
Qed.

Lemma over_heap s t a b :
  sv_heap t = sv_heap s → at_call a = at_call b → at_session a = at_session b → at_done a = at_done b → over s b → over t a.
Proof. intros E Hc Hs Hd. unfold over, session_done. by rewrite E, Hc, Hs, Hd. Qed.

Lemma settle_watch_spec ids s :
  good s → good (settle_watch ids s) ∧ sv_grants (settle_watch ids s) = sv_grants s
  ∧ (∀ g a, sv_atts (settle_watch ids s) !! g = Some a → ∃ b, sv_atts s !! g = Some b ∧ (at_watch b = WGone ∨ g ∈ ids ∧ over s b → at_watch a = WGone)).
Proof.
  revert s. induction ids as [|id ids IH]; intros s G.
  { cbn. split_and!; try done. intros g a Ha. exists a. split; [done|]. intros [?|[?%elem_of_nil _]]; done. }
  destruct (finish_watch_spec s id G) as (G1 & H1 & R1 & O1 & N1). destruct (IH _ G1) as (G2 & R2 & N2).
  change (settle_watch (id :: ids) s) with (settle_watch ids (finish_watch id s)). split_and!; [done|congruence|].
  intros g a Ha. destruct (N2 g a Ha) as (b & Hb & Hw). destruct (decide (g = id)) as [->|Hne].
  - destruct (N1 b Hb) as (c & Hc & E1 & E2 & E3 & W1 & W2). exists c. split; [done|]. intros [?|[_ Ho]]; apply Hw; left; auto.
  - rewrite O1 in Hb by done. exists b. split; [done|]. intros [?|[Hin Ho]]; apply Hw; [by left|right].
    apply elem_of_cons in Hin as [->|Hin]; [done|]. split; [done|]. by apply (over_heap s _ b b).
Qed.

(** *** Grants are returned *)

Lemma inactive_over s g a :
  good s → sv_closing s = [] → (∀ g a, sv_atts s !! g = Some a → at_call a = None) → sv_atts s !! g = Some a → active g s = false → over s a.
Proof.
  intros [I L] Hc Hn Ha. unfold active. rewrite Ha. intros Hf. split; [by apply (Hn g)|].
  destruct (at_done a) eqn:Hd; [by left|right]. destruct (session_done a s) eqn:Hs; [done|]. exfalso. cbn [negb andb] in Hf.
  destruct (si_att _ I g a Ha) as [_ Hdo _ _ _ _ _ (x & Hx & Hseat)]. unfold session_done in Hs. rewrite Hx in Hs.
  destruct Hseat as [[_ Ho]|(ep & Hep & _)]; [congruence|].
  assert (look s (at_session a) = Some (se_key x, false)) as Hl by (unfold look; rewrite Hx; cbn; by rewrite Hs).
  destruct (decide (sv_sessions s !! se_key x = Some (at_session a))) as [Hm|Hm].
  - unfold attached in Hf. rewrite Hx, bool_decide_eq_true_2, Hep in Hf by done. cbn in Hf.
    destruct (sv_closed s) eqn:Hcl; [|done]. by rewrite (si_closed _ I Hcl), lookup_empty in Hm.
  - destruct (li_orphan _ L _ _ Hl Hm) as [Hin|(g' & b & Hb & _ & Hbc)]; [by rewrite Hc in Hin; apply elem_of_nil in Hin|].
    by rewrite (Hn g' b Hb) in Hbc.
Qed.

Lemma later_active s t g : good s → later s t → active g s = false → active g t = false.
Proof.
  intros [I _] La Hf. unfold active in *. destruct (sv_atts t !! g) as [a'|] eqn:Ha'; [|done].
  destruct (la_back _ _ La _ _ Ha') as (a & Ha). rewrite Ha in Hf. destruct (la_atts _ _ La _ _ Ha) as (a'' & Ha'' & Hs & Hd).
  assert (a'' = a') as -> by congruence. destruct (si_att _ I g a Ha) as [_ Hdo _ _ _ _ _ (x & Hx & Hseat)].
  destruct (at_done a) eqn:Ed; [by rewrite (Hd eq_refl)|].
  assert (look s (at_session a) = Some (se_key x, se_done x)) as Hl by (unfold look; by rewrite Hx).
  destruct (la_look _ _ La _ _ _ Hl) as (d' & Hl' & Hd'). unfold look in Hl'. rewrite <- Hs in Hl'.
  destruct (sv_heap t !! at_session a') as [y|] eqn:Hy; [|done]. cbn in Hl'. injection Hl' as Hk He.
  unfold session_done, attached in *. rewrite Hx in Hf. rewrite Hy. destruct (se_done x) eqn:Edx; [rewrite He, Hd' by done; by rewrite andb_false_r|].
  destruct Hseat as [[_ Ho]|(ep & Hep & _)]; [congruence|]. rewrite Hep in Hf. cbn [negb andb] in Hf.
  assert (sv_sessions s !! se_key x ≠ Some (at_session a)) as Hm.
  { intros Hm. rewrite bool_decide_eq_true_2 in Hf by done. destruct (sv_closed s) eqn:Hcl; [|done]. by rewrite (si_closed _ I Hcl), lookup_empty in Hm. }
  rewrite bool_decide_eq_false_2; [by rewrite orb_true_r, andb_false_r|]. rewrite Hk, Hs. intros Hm'. by apply Hm, (la_map _ _ La).
Qed.

(** After everything under way has run, every grant whose attachment cannot be used is
    returned. *)
Lemma settle_returns s g : good s → (g < sv_grants s)%nat → active g s = false → g ∈ sv_released (settle s).
Proof.
  intros G Hg Hf. unfold settle. destruct (close_all_spec (length (sv_closing s)) s G eq_refl) as (G1 & L1 & C1).
  set (s1 := Nat.iter (length (sv_closing s)) close_next s) in *. destruct (settle_calls_spec (attachments s) s1 G1) as (G2 & L2 & C2 & N2).
  set (s2 := settle_calls (attachments s) s1) in *. destruct (settle_watch_spec (attachments s) s2 G2) as (G3 & R3 & N3).
  set (s3 := settle_watch (attachments s) s2) in *. assert (later s s2) as L by (by etrans).
  assert (∀ h a, sv_atts s2 !! h = Some a → h ∈ attachments s) as Hin.
  { intros h a Ha. destruct (la_back _ _ L _ _ Ha) as (b & Hb). apply list_elem_of_fmap. exists (h, b). split; [done|]. by apply elem_of_map_to_list. }
  assert (∀ h a, sv_atts s2 !! h = Some a → at_call a = None) as Hnone by (intros h a Ha; apply (N2 h a Ha); left; by eapply Hin).
  destruct G3 as [I3 _]. destruct (si_grants _ I3 g) as [?|(a & Ha & Hw)]; [rewrite R3, (la_grants _ _ L); done|done|exfalso].
  destruct (N3 g a Ha) as (b & Hb & Hgone). apply Hw, Hgone. right. split; [by eapply Hin|].
  apply (inactive_over s2 g b G2); [congruence|done|done|by apply (later_active s)].
Qed.
End Service.
End SignalingLiveness.
