(* ===== verification/SignalingGuarantees.v ===== *)
(** * Peer signaling: guarantees

    The service with the validators of the protocol, run by any sequence of calls of its
    clients and goroutines under a clock that does not go back: who may be in a session,
    what reaches the other side and in which order, that a credential is used once, and that
    every grant of the authenticator is given back. *)
From S2P Require Import Prelude Go Strings Protocol SignalProtocol SignalProtocolProofs Signaling SignalingProofs SignalingLiveness.

Module SignalingGuarantees.
Import SignalProtocol (Binding, mkBinding, bi_Role, message, message_bytes, validator, NewValidator, RoleControlling, RoleControlled).
Import SignalProtocolProofs (history, news, summary, history_nil, Accept_history, news_snoc).
Import Signaling SignalingProofs SignalingLiveness.
#[local] Arguments key_of : simpl never.

Section Guarantees.
Context `{ICELib}.
Abbreviation Service := (Service (V := validator)).
Abbreviation session := (session (V := validator)).

(** ** Runs *)

Inductive op :=
  | OAttach (credential : string) (auth : err + Admission) (now : Time)
  | OSend (id : nat) (cx : option err) (raw : bytes)
  | OTake (id : nat)
  | OClose (id : nat)
  | OComplete (id : nat)
  | OCall (id : nat)
  | OWatchDone (id : nat)
  | OWatchFire (revoked : bool) (now : Time) (id : nat)
  | OWatchFinish (id : nat)
  | OShutdown
  | OCloseNext.

Definition exec (o : op) (s : Service) : Service :=
  match o with
  | OAttach credential auth now => (Attach credential auth now s).2
  | OSend id cx raw => (Send id cx raw s).2
  | OTake id => (receive_take id s).2
  | OClose id => call_begin PTerminate id s
  | OComplete id => call_begin PComplete id s
  | OCall id => call_step id s
  | OWatchDone id => watch_done id s
  | OWatchFire revoked now id => watch_fire revoked now id s
  | OWatchFinish id => watch_finish id s
  | OShutdown => Service_Close s
  | OCloseNext => close_next s
  end.

(** The service, what each role of each session took from its inbox, the accepted
    admissions with their times, and the clock. *)
Record run := mkRun {
  rn_sv : Service;
  rn_taken : gmap (nat * string) (list bytes);
  rn_admitted : list (Admission * Time);
  rn_clock : Time
}.

Definition taken (r : run) (sid : nat) (role : string) : list bytes := default [] (rn_taken r !! (sid, role)).

Definition take_log (o : op) (r : run) : gmap (nat * string) (list bytes) :=
  match o with
  | OTake id =>
      match sv_atts (rn_sv r) !! id, (receive_take id (rn_sv r)).1 with
      | Some a, Some raw => <[(at_session a, at_role a) := taken r (at_session a) (at_role a) ++ [raw]]> (rn_taken r)
      | _, _ => rn_taken r
      end
  | _ => rn_taken r
  end.

Definition grant_log (o : op) (r : run) : list (Admission * Time) :=
  match o with
  | OAttach credential (inr a) now =>
      match (Attach credential (inr a) now (rn_sv r)).1 with inr _ => rn_admitted r ++ [(a, now)] | inl _ => rn_admitted r end
  | _ => rn_admitted r
  end.

Definition clock_after (o : op) (r : run) : Time :=
  match o with OAttach _ _ now | OWatchFire _ now _ => now | _ => rn_clock r end.

Definition tick (o : op) (r : run) : run := mkRun (exec o (rn_sv r)) (take_log o r) (grant_log o r) (clock_after o r).

Inductive rreach : run → Prop :=
  | rreach_new ms mc qd mm s t : New ms mc qd mm = inr s → rreach (mkRun s ∅ [] t)
  | rreach_op o r : rreach r → rn_clock r ≤ clock_after o r → rreach (tick o r).

(** ** The invariants along a run *)

Lemma exec_config o (s : Service) : sv_config (exec o s) = sv_config s.
Proof.
  destruct o; cbn [exec].
  - destruct (signal_Attach_cases credential auth now s) as [e|q e Hq|a v s' _ _ _ _ _ _ Hat]; cbn; [done|by destruct Hq as [-> | ->]|by destruct Hat].
  - unfold Send. repeat case_match; done.
  - unfold receive_take. repeat case_match; done.
  - unfold call_begin. repeat case_match; done.
  - unfold call_begin. repeat case_match; done.
  - unfold call_step, terminate, complete. repeat case_match; simplify_eq; done.
  - unfold watch_done. repeat case_match; done.
  - unfold watch_fire, call_begin. repeat case_match; done.
  - unfold watch_finish. repeat case_match; done.
  - unfold Service_Close. by case_match.
  - unfold close_next. by case_match.
Qed.

Lemma signal_exec_inv o (s : Service) : sinv s → 1 ≤ cf_QueueDepth (sv_config s) → sinv (exec o s).
Proof.
  intros I Hd. destruct o; cbn [exec].
  - apply signal_Attach_inv; [done|lia].
  - by apply Send_inv.
  - by apply receive_take_inv.
  - by apply call_begin_inv.
  - by apply call_begin_inv.
  - by apply call_step_inv.
  - by apply watch_done_inv.
  - by apply watch_fire_inv.
  - by apply watch_finish_inv.
  - by apply Service_Close_inv.
  - by apply close_next_inv.
Qed.

Lemma exec_linv o (s : Service) : sinv s → linv s → linv (exec o s).
Proof.
  intros I L. destruct o; cbn [exec].
  - by apply linv_Attach.
  - by apply linv_Send.
  - by apply linv_take.
  - by apply linv_call_begin.
  - by apply linv_call_begin.
  - by apply linv_call_step.
  - by apply linv_watch_done.
  - by apply linv_watch_fire.
  - by apply linv_watch_finish.
  - by apply linv_Service_Close.
  - by apply linv_close_next.
Qed.

Lemma New_depth ms mc qd mm (s : Service) : New ms mc qd mm = inr s → 1 ≤ cf_QueueDepth (sv_config s).
Proof. unfold New. cbv zeta. destruct (_ || _) eqn:E; [done|]. intros [= <-]. repeat (apply orb_false_iff in E as [E ?]). cbn in *. lia. Qed.

Lemma rreach_inv r : rreach r → sinv (rn_sv r) ∧ linv (rn_sv r) ∧ 1 ≤ cf_QueueDepth (sv_config (rn_sv r)).
Proof.
  induction 1 as [ms mc qd mm s t E|o r _ (I & L & D) _]; cbn.
  - split_and!; [by eapply New_inv|by eapply linv_new|by eapply New_depth].
  - split_and!; [by apply signal_exec_inv|by apply exec_linv|by rewrite exec_config].
Qed.

(** ** Histories *)

(** The binding of a role of a session. *)
Definition session_binding (x : session) (role : string) : Binding :=
  let '(_, _, intent, attempt, network) := se_key x in mkBinding intent attempt network role.

(** What a role sent, as its validator and the inbox of the other role know it. *)
Record sent_ok (tk : string → list bytes) (x : session) (r : string) (hs : list message) : Prop := {
  se_history : history (session_binding x r) hs;
  se_forwarded : tk (opposite r) ++ queue (opposite r) x = message_bytes <$> news hs;
  se_validator : ∀ ep, se_endpoints x !! r = Some ep → ep_validator ep = summary (session_binding x r) hs;
  se_fresh : se_endpoints x !! r = None → r ∉ se_completed x → hs = []
}.

Record hist (tk : nat → string → list bytes) (s : Service) : Prop := {
  hi_sent : ∀ sid x r, sv_heap s !! sid = Some x → is_role r → ∃ hs, sent_ok (tk sid) x r hs;
  hi_unused : ∀ sid r, (sv_nextSession s ≤ sid)%nat → tk sid r = []
}.

(** Same key, places and inboxes. *)
Definition same_traffic (x x' : session) : Prop :=
  se_key x' = se_key x ∧ se_endpoints x' = se_endpoints x ∧ se_completed x' = se_completed x ∧ se_inbox x' = se_inbox x.

Lemma sent_ok_same tk x x' r hs : same_traffic x x' → sent_ok tk x r hs → sent_ok tk x' r hs.
Proof. intros (Hk & He & Hc & Hi) [S1 S2 S3 S4]. split; unfold session_binding, queue in *; rewrite ?Hk, ?He, ?Hc, ?Hi; done. Qed.

Lemma hist_frame tk s s' :
  hist tk s → (sv_nextSession s ≤ sv_nextSession s')%nat →
  (∀ sid x', sv_heap s' !! sid = Some x' → ∃ x, sv_heap s !! sid = Some x ∧ same_traffic x x') → hist tk s'.
Proof.
  intros [H1 H2] Hn Hs. split; [|intros sid r ?; apply H2; lia]. intros sid x' r Hx' Hr. destruct (Hs sid x' Hx') as (x & Hx & Hsame).
  destruct (H1 sid x r Hx Hr) as (hs & Hh). exists hs. by eapply sent_ok_same.
Qed.

Lemma hist_same tk s s' : hist tk s → sv_heap s' = sv_heap s → sv_nextSession s' = sv_nextSession s → hist tk s'.
Proof. intros Hh E1 E2. apply (hist_frame tk s); [done|lia|]. intros sid x'. rewrite E1. intros Hx. by exists x'. Qed.

Lemma hist_ext tk tk' s : hist tk s → (∀ sid r, tk' sid r = tk sid r) → hist tk' s.
Proof.
  intros [H1 H2] E. split; [|intros sid r ?; by rewrite E, H2]. intros sid x r Hx Hr. destruct (H1 sid x r Hx Hr) as (hs & [S1 S2 S3 S4]).
  exists hs. split; rewrite ?E; done.
Qed.

(** One session changes. *)
Lemma hist_put tk s sid x x' :
  hist tk s → sv_heap s !! sid = Some x → (∀ r, is_role r → ∃ hs, sent_ok (tk sid) x' r hs) →
  hist tk (s <| sv_heap := <[sid := x']> (sv_heap s) |>).
Proof.
  intros [H1 H2] Hx Hx'. split; [|done]. intros sid' y r Hy Hr. cbn in Hy. apply lookup_insert_Some in Hy as [[<- <-]|[_ Hy]]; [by apply Hx'|by apply H1].
Qed.

Lemma hist_close tk s sid : hist tk s → hist tk (close_session sid s).
Proof.
  intros Hh. apply (hist_frame tk s); [done|done|]. intros k x' Hx'. cbn in Hx'. destruct (decide (k = sid)) as [->|Hne].
  - rewrite lookup_alter_eq in Hx'. apply fmap_Some in Hx' as (x & Hx & ->). by exists x.
  - rewrite lookup_alter_ne in Hx' by done. by exists x'.
Qed.

Lemma hist_complete tk s sid role : hist tk s → hist tk (complete sid role s).2.
Proof.
  intros Hh. unfold complete. destruct (sv_heap s !! sid) as [x|] eqn:Hx; [|done]. destruct (_ || _); [done|]. cbn zeta.
  set (x' := x <| se_endpoints := delete role (se_endpoints x) |> <| se_completed := {[role]} ∪ se_completed x |>).
  assert (hist tk (s <| sv_heap := <[sid := x']> (sv_heap s) |>)) as Hh'.
  { apply (hist_put tk s sid x); [done..|]. intros r Hr. destruct (hi_sent _ _ Hh sid x r Hx Hr) as (hs & [S1 S2 S3 S4]). exists hs. split; try done.
    - intros ep Hep. cbn in Hep. apply lookup_delete_Some in Hep as [_ Hep]. by apply S3.
    - cbn. intros Hd Hc. apply S4; [|set_solver]. apply lookup_delete_None in Hd as [->|?]; [set_solver|done]. }
  case_bool_decide; [|done]. by apply (hist_same tk (s <| sv_heap := <[sid := x']> (sv_heap s) |>)).
Qed.

Lemma hist_call_step tk s id : hist tk s → hist tk (call_step id s).
Proof.
  intros Hh. unfold call_step. destruct (sv_atts s !! id) as [a|]; [|done]. destruct (at_call a) as [[]|]; [..|done].
  - apply (hist_same tk s); [done|..]; unfold terminate; by repeat case_match.
  - pose proof (hist_complete tk s (at_session a) (at_role a) Hh) as Hh'. destruct (complete _ _ s) as [f s']. by apply (hist_same tk s').
  - pose proof (hist_close tk s (at_session a) Hh) as Hh'. by apply (hist_same tk (close_session (at_session a) s)).
  - by apply (hist_same tk s).
Qed.

Lemma hist_Send tk s id cx raw : sinv s → hist tk s → hist tk (Send id cx raw s).2.
Proof.
  intros I Hh. unfold Send. destruct (sv_atts s !! id) as [a|] eqn:Ha; [|done]. destruct (_ || _); [done|]. destruct cx; [done|].
  destruct (attached a s) as [[x ep]|] eqn:Et; [|done]. destruct (_ <=? _); [done|]. apply attached_spec in Et as (_ & Hx & _ & Hep).
  pose proof (ao_role _ _ _ _ _ (si_att _ I id a Ha)) as Hr. set (me := at_role a) in *.
  destruct (hi_sent _ _ Hh _ x me Hx Hr) as (hs & [S1 S2 S3 S4]).
  destruct (accept raw (ep_validator ep)) as [res v] eqn:Eacc. rewrite (S3 ep Hep) in Eacc. cbn zeta.
  set (x1 := x <| se_endpoints := <[me := mkEndpoint (ep_admission ep) v]> (se_endpoints x) |>).
  assert (∀ x2 r, se_key x2 = se_key x → se_endpoints x2 = se_endpoints x1 → se_completed x2 = se_completed x → queue (opposite r) x2 = queue (opposite r) x →
            is_role r → r ≠ me → ∃ hs, sent_ok (tk (at_session a)) x2 r hs) as Hother.
  { intros x2 r Ek Ee Ec Eq Hr' Hne. destruct (hi_sent _ _ Hh _ x r Hx Hr') as (hs' & [T1 T2 T3 T4]). exists hs'.
    split; unfold session_binding in *; rewrite ?Ek, ?Ee, ?Ec, ?Eq; try done; cbn; [intros e He; apply T3|intros He; apply T4].
    - by rewrite lookup_insert_ne in He.
    - by rewrite lookup_insert_ne in He. }
  assert (∀ x2 hs', se_key x2 = se_key x → se_endpoints x2 = se_endpoints x1 → history (session_binding x me) hs' →
            tk (at_session a) (opposite me) ++ queue (opposite me) x2 = message_bytes <$> news hs' → v = summary (session_binding x me) hs' →
            ∃ hs, sent_ok (tk (at_session a)) x2 me hs) as Hmine.
  { intros x2 hs' Ek Ee Eh Eq Ev. exists hs'. split; unfold session_binding in *; rewrite ?Ek, ?Ee; try done; cbn; intros *; rewrite lookup_insert_eq; [|done].
    intros [= <-]. done. }
  destruct (Accept_history _ hs raw res v S1 Eacc) as [(e & -> & Ev)|(m & -> & Hh' & -> & Ev)].
  - cbn [snd]. apply (hist_put tk s _ x); [done..|]. intros r Hr'. destruct (decide (r = me)) as [->|Hne]; [by apply (Hmine x1 hs)|by apply (Hother x1 r)].
  - destruct (SignalProtocolProofs.is_new hs m) eqn:En; cbn [snd]; (apply (hist_put tk s _ x); [done..|]); intros r Hr'.
    + set (x2 := x1 <| se_inbox := <[opposite me := queue (opposite me) x1 ++ [message_bytes m]]> (se_inbox x1) |>).
      destruct (decide (r = me)) as [->|Hne].
      * apply (Hmine x2 (hs ++ [m])); try done. rewrite news_snoc, En, fmap_app, <- S2, <- app_assoc. unfold queue at 1. cbn.
        by rewrite lookup_insert_eq.
      * apply (Hother x2 r); try done. unfold queue. cbn. rewrite lookup_insert_ne; [done|]. intros E. apply Hne.
        by rewrite <- (opposite_involutive r), <- E, opposite_involutive.
    + destruct (decide (r = me)) as [->|Hne]; [|by apply (Hother x1 r)]. apply (Hmine x1 (hs ++ [m])); try done.
      by rewrite news_snoc, En, app_nil_r.
Qed.

(** A message is taken from the front of an inbox. *)
Lemma hist_take tk tk' s id a :
  sinv s → hist tk s → sv_atts s !! id = Some a →
  (∀ sid r, tk' sid r = match (receive_take id s).1 with
                        | Some raw => if decide ((sid, r) = (at_session a, at_role a)) then tk sid r ++ [raw] else tk sid r
                        | None => tk sid r
                        end) →
  hist tk' (receive_take id s).2.
Proof.
  intros I Hh Ha. unfold receive_take. rewrite Ha. destruct (sv_heap s !! at_session a) as [x|] eqn:Hx.
  2: { cbn. by apply hist_ext. }
  destruct (queue (at_role a) x) as [|raw rest] eqn:Hq.
  { cbn. by apply hist_ext. }
  cbn [fst snd]. intros E. split.
  - intros sid y r Hy Hr. cbn in Hy. apply lookup_insert_Some in Hy as [[<- <-]|[Hne Hy]].
    + destruct (hi_sent _ _ Hh _ x r Hx Hr) as (hs & [S1 S2 S3 S4]). exists hs. split; try done. rewrite E.
      destruct (decide (opposite r = at_role a)) as [Eo|Eo].
      * rewrite decide_True by congruence. rewrite <- S2, <- app_assoc. unfold queue at 1. cbn. rewrite Eo, lookup_insert_eq. cbn. by rewrite Hq.
      * rewrite decide_False by congruence. unfold queue at 1. cbn. by rewrite lookup_insert_ne.
    + destruct (hi_sent _ _ Hh _ y r Hy Hr) as (hs & [S1 S2 S3 S4]). exists hs. split; try done. rewrite E, decide_False by congruence. done.
  - intros sid r Hn. rewrite E, decide_False; [by apply Hh|]. intros [= -> _]. cbn in Hn. destruct (si_session _ I _ _ Hx). lia.
Qed.

Lemma new_validator_summary a v : new_validator (binding_of a) = inr v → v = summary (binding_of a) [].
Proof. cbn. unfold NewValidator. destruct (negb _); [done|]. by intros [= <-]. Qed.

(** A role joins with nothing sent. *)
Lemma sent_ok_joined tk x a v :
  key_of a = se_key x → v = summary (binding_of a) [] → is_role (ad_Role a) →
  (∀ r, is_role r → ∃ hs, sent_ok tk x r hs) → se_endpoints x !! ad_Role a = None → ad_Role a ∉ se_completed x →
  ∀ r, is_role r → ∃ hs, sent_ok tk (joined x a v) r hs.
Proof.
  intros Hk Hv Hra Hx Hnone Hc r Hr. destruct (Hx r Hr) as (hs & [S1 S2 S3 S4]). exists hs. split; try done; cbn.
  - intros ep [[<- <-]|[_ Hep]]%lookup_insert_Some; [|by apply S3]. rewrite (S4 Hnone Hc). cbn.
    assert (session_binding (joined x a v) (ad_Role a) = binding_of a) as -> by (unfold session_binding, joined; cbn; by rewrite <- Hk). done.
  - intros [Hn _]%lookup_insert_None. by apply S4.
Qed.

Lemma sent_ok_empty key r : is_role r → sent_ok (λ _, []) (empty_session key) r [].
Proof.
  intros Hr. split; [apply history_nil| |intros ep Hep; cbn in Hep; by rewrite lookup_empty in Hep|done]. cbn. unfold queue, empty_session. cbn.
  by destruct (opposite_role r) as [-> | ->].
Qed.

Lemma hist_Attach tk s credential auth now : sinv s → hist tk s → hist tk (Attach credential auth now s).2.
Proof.
  intros I Hh. assert (hist tk (removeExpiredLocked now s)) as Hq.
  { apply (hist_frame tk s); [done|done|]. intros sid x'. cbn. rewrite map_lookup_imap, bind_Some. intros (x & Hx & [= <-]). exists x.
    split; [done|]. by destruct (ends_now now s sid). }
  pose proof (removeExpired_inv now s I) as I'.
  destruct (signal_Attach_cases credential auth now s) as [e|q e Hqs|a v s' _ Hv Hn _ _ _ Hat]; cbn [snd]; [done| |].
  { destruct Hqs as [-> | ->]; [by apply (hist_same tk s)|by apply (hist_same tk (removeExpiredLocked now s))]. }
  apply validAdmission_role in Hv. apply new_validator_summary in Hn. set (q := removeExpiredLocked now s) in *. clearbody q.
  destruct Hat as [sid x Hk Hx Hnone Hc _|Hk _].
  - apply (hist_same tk (rejoined sid x a v q)); [|done..]. apply (hist_put tk q sid x); [done..|].
    destruct (si_map _ I' _ _ Hk) as (y & Hy & Hyk & _). assert (y = x) as -> by congruence.
    apply sent_ok_joined; try done. intros r Hr. by apply (hi_sent _ _ Hq).
  - apply (hist_same tk (opened a v q)); [|done..]. split.
    + intros sid y r Hy Hr. cbn in Hy. apply lookup_insert_Some in Hy as [[<- <-]|[_ Hy]]; [|by apply (hi_sent _ _ Hq)].
      apply sent_ok_joined; [done|done|done| |apply lookup_empty|cbn; set_solver|done]. intros r' Hr'. exists [].
      destruct (sent_ok_empty (key_of a) r' Hr') as [S1 S2 S3 S4]. split; try done. by rewrite (hi_unused _ _ Hq) by done.
    + intros sid r Hn'. apply (hi_unused _ _ Hq). cbn in Hn'. lia.
Qed.

Lemma rreach_hist r : rreach r → hist (taken r) (rn_sv r).
Proof.
  induction 1 as [ms mc qd mm s t E|o r Hr IH _].
  - unfold New in E. cbv zeta in E. destruct (_ || _); [done|]. injection E as <-. split; [|done]. intros sid x r Hx. cbn in Hx. by rewrite lookup_empty in Hx.
  - destruct (rreach_inv r Hr) as (I & _ & _). assert (∀ s', hist (taken r) s' → (∀ id, o ≠ OTake id) → hist (taken (tick o r)) s') as Hkeep.
    { intros s' Hs' Ho. apply (hist_ext (taken r)); [done|]. intros sid role. unfold taken. cbn. destruct o; try done. by destruct (Ho id). }
    destruct o as [c auth now|id cx raw|id|id|id|id|id|rv now id|id| |]; cbn [tick rn_sv exec];
      try (apply Hkeep; [|done]).
    + by apply hist_Attach.
    + by apply hist_Send.
    + destruct (sv_atts (rn_sv r) !! id) as [a|] eqn:Ha.
      * apply (hist_take (taken r) _ _ id a I IH Ha). intros sid role. unfold taken. cbn. rewrite Ha. unfold taken.
        destruct (receive_take id (rn_sv r)).1; [|done]. case_decide as E; [injection E as -> ->; by rewrite lookup_insert_eq|by rewrite lookup_insert_ne].
      * unfold receive_take. rewrite Ha. cbn. apply (hist_ext (taken r)); [done|]. intros sid role. unfold taken. cbn. by rewrite Ha.
    + apply (hist_same _ (rn_sv r)); [done|..]; unfold call_begin; by repeat case_match.
    + apply (hist_same _ (rn_sv r)); [done|..]; unfold call_begin; by repeat case_match.
    + by apply hist_call_step.
    + apply (hist_same _ (rn_sv r)); [done|..]; unfold watch_done; by repeat case_match.
    + apply (hist_same _ (rn_sv r)); [done|..]; unfold watch_fire, call_begin; by repeat case_match.
    + apply (hist_same _ (rn_sv r)); [done|..]; unfold watch_finish; by repeat case_match.
    + apply (hist_same _ (rn_sv r)); [done|..]; unfold Service_Close; by repeat case_match.
    + unfold close_next. case_match; [done|]. apply (hist_same _ (close_session n (rn_sv r))); [by apply hist_close|done..].
Qed.

(** ** Credentials *)

(** An unexpired credential that was used is remembered. *)
Record creds (r : run) : Prop := {
  cr_used : sv_closed (rn_sv r) = false → ∀ a t, (a, t) ∈ rn_admitted r → rn_clock r < ad_ExpiresAt a →
    sv_consumed (rn_sv r) !! ad_CredentialID a = Some (ad_ExpiresAt a);
  cr_once : ∀ i j a t a' t', (i < j)%nat → rn_admitted r !! i = Some (a, t) → rn_admitted r !! j = Some (a', t') →
    ad_CredentialID a = ad_CredentialID a' → ad_ExpiresAt a ≤ t'
}.

Lemma consumed_expired now (s : Service) c e :
  sv_consumed s !! c = Some e → now < e → sv_consumed (removeExpiredLocked now s) !! c = Some e.
Proof. intros Hc He. cbn. apply map_lookup_filter_Some. split; [done|]. cbn. unfold After. lia. Qed.

Lemma creds_keep r o :
  creds r → rn_clock r ≤ clock_after o r → grant_log o r = rn_admitted r →
  (sv_closed (exec o (rn_sv r)) = false → sv_closed (rn_sv r) = false ∧
     ∀ c e, sv_consumed (rn_sv r) !! c = Some e → clock_after o r < e → sv_consumed (exec o (rn_sv r)) !! c = Some e) →
  creds (tick o r).
Proof.
  intros [C1 C2] Hc Hl Hs. split; cbn; rewrite Hl; [|done]. intros Hcl a t Hin Hlt. destruct (Hs Hcl) as [Hcl' Hk].
  apply Hk; [|done]. apply (C1 Hcl' a t Hin). lia.
Qed.

Lemma creds_attach r credential auth now : creds r → rn_clock r ≤ now → creds (tick (OAttach credential auth now) r).
Proof.
  intros C Hc. set (s := rn_sv r). pose proof (signal_Attach_cases credential auth now s) as Hcases.
  remember (Attach credential auth now s) as p eqn:E. symmetry in E. destruct Hcases as [e|q e Hq|a v s' -> Hv Hn Hcl Hu Hsz Hat].
  - apply creds_keep; try done; [unfold grant_log; fold s; destruct auth; [done|]; by rewrite E|].
    cbn [exec clock_after]. fold s. rewrite E. done.
  - apply creds_keep; try done; [unfold grant_log; fold s; destruct auth; [done|]; by rewrite E|].
    cbn [exec clock_after]. fold s. rewrite E. cbn [snd].
    destruct Hq as [-> | ->]; [done|]. intros Hcl. split; [done|]. intros c x. apply consumed_expired.
  - destruct C as [C1 C2]. assert (sv_consumed s' = <[ad_CredentialID a := ad_ExpiresAt a]> (sv_consumed (removeExpiredLocked now s)) ∧ sv_closed s' = sv_closed s) as [Econ Ecl] by (by destruct Hat).
    assert (∀ b t, (b, t) ∈ rn_admitted r → ad_CredentialID b = ad_CredentialID a → ad_ExpiresAt b ≤ now) as Hold.
    { intros b t Hin Hid. destruct (Z.le_gt_cases (ad_ExpiresAt b) now) as [|Hgt]; [done|]. exfalso.
      rewrite (consumed_expired now s _ (ad_ExpiresAt b)) in Hu; [done| |lia]. rewrite <- Hid. apply (C1 Hcl b t Hin). lia. }
    assert (grant_log (OAttach credential (inr a) now) r = rn_admitted r ++ [(a, now)]) as El by (unfold grant_log; fold s; by rewrite E).
    split; cbn [tick rn_admitted rn_sv rn_clock clock_after]; rewrite El.
    + cbn [exec]. fold s. rewrite E. cbn [snd]. intros _ b t [Hin|Hin]%elem_of_app Hlt.
      * rewrite Econ, lookup_insert_ne.
        -- apply consumed_expired; [|done]. apply (C1 Hcl b t Hin). lia.
        -- intros Hid. specialize (Hold b t Hin (eq_sym Hid)). lia.
      * apply list_elem_of_singleton in Hin as [= -> ->]. by rewrite Econ, lookup_insert_eq.
    + intros i j b t b' t' Hij Hi Hj Hid. apply lookup_app_Some in Hj as [Hj|[Hge Hj]].
      * apply (C2 i j b t b' t'); try done. apply lookup_lt_Some in Hj. rewrite lookup_app_l in Hi by lia. done.
      * destruct (j - length (rn_admitted r))%nat as [|k] eqn:Ej; [|done]. injection Hj as <- <-.
        rewrite lookup_app_l in Hi by lia. apply (Hold b t); [by eapply list_elem_of_lookup_2|done].
Qed.

Lemma rreach_creds r : rreach r → creds r.
Proof.
  induction 1 as [ms mc qd mm s t E|o r Hr IH Hc]; [split; cbn; [by intros _ a u ?%elem_of_nil|done]|].
  destruct o as [c auth now|id cx raw|id|id|id|id|id|rv now id|id| |]; [by apply creds_attach|..]; apply creds_keep; try done; cbn [exec clock_after].
  - unfold Send. repeat case_match; done.
  - unfold receive_take. repeat case_match; done.
  - unfold call_begin. repeat case_match; done.
  - unfold call_begin. repeat case_match; done.
  - unfold call_step, terminate, complete. repeat case_match; simplify_eq; done.
  - unfold watch_done. repeat case_match; done.
  - unfold watch_fire, call_begin. repeat case_match; done.
  - unfold watch_finish. repeat case_match; done.
  - unfold Service_Close. case_match; [congruence|done].
  - unfold close_next. by case_match.
Qed.

(** ** Theorems *)

(** Invariant of the signaling service: however calls and goroutines interleave, sessions,
    remembered credentials and inboxes stay within their limits; a session in the map sits
    under its key and has an endpoint; an endpoint has the key and role it is filed under, two
    endpoints of a session name each other, and a role has at most one attachment. *)
Theorem signaling_invariant r :
  rreach r →
  Z.of_nat (size (sv_sessions (rn_sv r))) ≤ cf_MaximumSessions (sv_config (rn_sv r))
  ∧ Z.of_nat (size (sv_consumed (rn_sv r))) ≤ Z.max 0 (cf_MaximumConsumed (sv_config (rn_sv r)))
  ∧ (∀ k sid, sv_sessions (rn_sv r) !! k = Some sid → ∃ x, sv_heap (rn_sv r) !! sid = Some x ∧ se_key x = k ∧ se_endpoints x ≠ ∅ ∧ se_done x = false)
  ∧ (∀ sid x, sv_heap (rn_sv r) !! sid = Some x → session_ok (cf_QueueDepth (sv_config (rn_sv r))) x)
  ∧ (∀ g g' a a', sv_atts (rn_sv r) !! g = Some a → sv_atts (rn_sv r) !! g' = Some a' →
       at_session a = at_session a' → at_role a = at_role a' → g = g').
Proof.
  intros Hr. destruct (rreach_inv r Hr) as (I & L & _). split_and!; [apply I|apply I| |intros sid x Hx; by destruct (si_session _ I sid x Hx)|apply I].
  intros k sid Hs. destruct (si_map _ I _ _ Hs) as (x & Hx & Hk & He). exists x. split_and!; try done.
  apply (li_mapped _ L sid k); [|done]. unfold look. rewrite Hx. cbn. by rewrite Hk.
Qed.

(** Delivery: in every session, what a role took from its inbox followed by what waits there
    is exactly what the other role sent, in the order it was sent: the encodings of a
    sequence of messages of the other role's binding that each may follow the ones before,
    without the repeated candidates; nothing is lost, duplicated or reordered. *)
Theorem signaling_in_order r sid x role :
  rreach r → sv_heap (rn_sv r) !! sid = Some x → is_role role →
  ∃ hs, history (session_binding x (opposite role)) hs ∧ taken r sid role ++ queue role x = message_bytes <$> news hs.
Proof.
  intros Hr Hx Hrole. destruct (hi_sent _ _ (rreach_hist r Hr) sid x (opposite role) Hx (opposite_role role)) as (hs & [S1 S2 _ _]).
  exists hs. split; [done|]. by rewrite opposite_involutive in S2.
Qed.

(** C23. A credential is used once: a second attachment with the same credential happens only
    after the expiry of the admission it was first used for. *)
Theorem signaling_credential_once r i j a t a' t' :
  rreach r → (i < j)%nat → rn_admitted r !! i = Some (a, t) → rn_admitted r !! j = Some (a', t') →
  ad_CredentialID a = ad_CredentialID a' → ad_ExpiresAt a ≤ t'.
Proof. intros Hr. apply (cr_once _ (rreach_creds r Hr)). Qed.

(** Grants of the authenticator are held exactly as long as they are used: a released grant
    belongs to no usable attachment, and once the calls and goroutines under way have run,
    every grant without a usable attachment is released. *)
Theorem signaling_grants_returned r g :
  rreach r → (g < sv_grants (rn_sv r))%nat →
  (g ∈ sv_released (rn_sv r) → active g (rn_sv r) = false)
  ∧ (active g (rn_sv r) = false → g ∈ sv_released (settle (rn_sv r))).
Proof.
  intros Hr Hg. destruct (rreach_inv r Hr) as (I & L & _). split; [|by apply settle_returns].
  intros Hrel. unfold active. destruct (sv_atts (rn_sv r) !! g) as [a|] eqn:Ha; [|done].
  destruct (si_released _ I g Hrel) as [_ Hd]. destruct (Hd a Ha) as [-> | ->]; [done|by rewrite andb_false_r].
Qed.
End Guarantees.

(** ** A concrete exchange *)

Module Signals.

#[local] Instance any_candidate : ICELib := λ _, true.
#[local] Instance Admission_eta : Eta Admission := λ r,
  mkAdmission (ad_CredentialID r) (ad_EnvironmentID r) (ad_NodeID r) (ad_IntentID r) (ad_EndpointID r) (ad_PeerEndpointID r)
    (ad_AttemptGeneration r) (ad_NetworkGeneration r) (ad_Role r) (ad_ExpiresAt r).

Definition admission (credential role endpoint peer : string) : Admission :=
  mkAdmission credential "env" "node" "intent" endpoint peer 1 1 role 100.

Definition caller : Admission := admission "cred-a" RoleControlling "alice" "bob".
Definition callee : Admission := admission "cred-b" RoleControlled "bob" "alice".

Definition msg (role : string) (sequence : Z) (kind ufrag password candidate : string) : message :=
  SignalProtocol.mkMessage SignalProtocol.Schema "intent" 1 1 role sequence kind ufrag password candidate "".

Definition hello : message := msg RoleControlling 1 "credentials" "ufrag" "passwordpasswordpassword" "".
Definition line : message := msg RoleControlling 2 "candidate" "" "" "candidate:1".
Definition again : message := msg RoleControlling 3 "candidate" "" "" "candidate:1".

Definition service0 : Service (V := validator) :=
  match New 2 0 4 0 with inr s => s | inl _ => mkService (mkConfig 0 0 0 0) ∅ ∅ false ∅ ∅ 0 0 ∅ [] end.

Definition ops : list op :=
  [OAttach "a" (inr caller) 10; OAttach "b" (inr callee) 11; OSend 0 None (message_bytes hello); OSend 0 None (message_bytes line);
   OSend 0 None (message_bytes again); OTake 1].

Definition play (l : list op) : run := List.fold_left (λ r o, tick o r) l (mkRun service0 ∅ [] 0).

Definition exchange : run := play ops.

Lemma exchange_reach : rreach exchange.
Proof.
  unfold exchange, play, ops. cbn [List.fold_left].
  repeat (apply rreach_op; [|by vm_compute]). by apply (rreach_new 2 0 4 0).
Qed.

Lemma signaling_invariant_witness : Z.of_nat (size (sv_sessions (rn_sv exchange))) ≤ 2.
Proof. exact (proj1 (signaling_invariant exchange exchange_reach)). Defined.

Lemma signaling_in_order_witness :
  taken exchange 0 RoleControlled = [message_bytes hello]
  ∧ ∃ x, sv_heap (rn_sv exchange) !! 0%nat = Some x ∧ queue RoleControlled x = [message_bytes line]
    ∧ ∃ hs, history (session_binding x RoleControlling) hs ∧ taken exchange 0 RoleControlled ++ queue RoleControlled x = message_bytes <$> news hs.
Proof.
  split; [by vm_compute|]. destruct (sv_heap (rn_sv exchange) !! 0%nat) as [x|] eqn:Hx; [|by vm_compute in Hx].
  exists x. split; [reflexivity|]. split; [vm_compute in Hx; injection Hx as <-; by vm_compute|].
  exact (signaling_in_order exchange 0 x RoleControlled exchange_reach Hx (or_intror eq_refl)).
Defined.

(** The credential is attached again after its first admission expired. *)
Definition later_run : run := play (ops ++ [OAttach "a" (inr (caller <| ad_ExpiresAt := 300 |>)) 120]).

Lemma signaling_credential_once_witness :
  ∃ a t a' t', rn_admitted later_run !! 0%nat = Some (a, t) ∧ rn_admitted later_run !! 2%nat = Some (a', t') ∧ ad_ExpiresAt a ≤ t'.
Proof.
  assert (rreach later_run) as Hr.
  { unfold later_run, play, ops. cbn [app List.fold_left]. repeat (apply rreach_op; [|by vm_compute]). by apply (rreach_new 2 0 4 0). }
  exists caller, 10, (caller <| ad_ExpiresAt := 300 |>), 120.
  assert (rn_admitted later_run !! 0%nat = Some (caller, 10)) as H0 by (vm_compute; reflexivity).
  assert (rn_admitted later_run !! 2%nat = Some (caller <| ad_ExpiresAt := 300 |>, 120)) as H2 by (vm_compute; reflexivity).
  split; [exact H0|]. split; [exact H2|]. exact (signaling_credential_once later_run 0 2 _ _ _ _ Hr (Nat.lt_0_succ 1) H0 H2 eq_refl).
Defined.

Lemma signaling_grants_returned_witness :
  ∃ r, rreach r ∧ active 1 (rn_sv r) = false ∧ (1%nat ∉ sv_released (rn_sv r)) ∧ 1%nat ∈ sv_released (settle (rn_sv r)).
Proof.
  set (r := tick (OCall 0) (tick (OClose 0) exchange)).
  assert (rreach r) as Hr by (unfold r; do 2 (apply rreach_op; [|by vm_compute]); apply exchange_reach).
  assert (active 1 (rn_sv r) = false) as Ha by (vm_compute; reflexivity).
  exists r. split; [exact Hr|]. split; [exact Ha|]. split; [by vm_compute|].
  exact (proj2 (signaling_grants_returned r 1 Hr ltac:(by vm_compute)) Ha).
Defined.
End Signals.
End SignalingGuarantees.
