(* ===== verification/StrictDecode.v ===== *)
(** * Closed-world JSON decoding

    Models [internal/strictjson/strict.go]: the guard that walks the tokens of a text before
    it is decoded, with its own nesting limit, and [Decode], which stores the text in a
    struct and refuses unknown members; and the parts of [encoding/json] that store numbers,
    lists and pointers.  The guard is equivalent to reading the text with the reference
    reader and looking at the value. *)
From S2P Require Import Prelude Go Strings Protocol Utf8 JSON StrictJSON StrictJSONProofs CanonicalJSON StreamFrames.

Module StrictDecode.
Import StrictJSON StrictJSONProofs CanonicalJSON StreamFrames.

Definition ErrInvalid : err := EPlain "invalid structured JSON".

(** ** consumeValue *)

Definition closing (c : Z) (d : Decoder) : outcome Decoder :=
  match Token d with
  | GotToken (Delim c') d => if c' =? c then Ok d else Err ErrInvalid
  | _ => Err ErrInvalid
  end.

Section Consume.
Variable maximumDepth : Z.

Fixpoint consumeValue (fuel : nat) (depth : Z) (d : Decoder) : outcome Decoder :=
  match fuel with
  | O => OutOfFuel
  | S fuel =>
      if maximumDepth <? depth then Err ErrInvalid
      else
        let! (t, d) := next d in
        match t with
        | Delim c => if c =? 123 then consume_members fuel depth [] d
                     else if c =? 91 then consume_elements fuel depth d
                     else Err ErrInvalid
        | _ => Ok d
        end
  end
with consume_members (fuel : nat) (depth : Z) (seen : list text) (d : Decoder) : outcome Decoder :=
  match fuel with
  | O => OutOfFuel
  | S fuel =>
      if More d then
        let! (t, d) := next d in
        match t with
        | TString key =>
            if bool_decide (key ∈ seen) then Err ErrInvalid
            else let! d := consumeValue fuel (depth + 1) d in consume_members fuel depth (key :: seen) d
        | _ => Err ErrInvalid
        end
      else closing 125 d
  end
with consume_elements (fuel : nat) (depth : Z) (d : Decoder) : outcome Decoder :=
  match fuel with
  | O => OutOfFuel
  | S fuel =>
      if More d then let! d := consumeValue fuel (depth + 1) d in consume_elements fuel depth d
      else closing 93 d
  end.
End Consume.

Definition Validate (data : text) (maximumDepth : Z) : option err :=
  if (tlen data =? 0) || (maximumDepth <? 1) then Some ErrInvalid
  else match consumeValue maximumDepth (enough data) 0 (NewDecoder data) with
  | Ok d => match Token d with TokenEOF => None | _ => Some ErrInvalid end
  | Err e => Join (Some ErrInvalid) (Some e)
  | OutOfFuel => Some (EPlain "out of fuel")
  end.

(** [Decode] into a struct whose members [store] stores.  The text is one value by the time
    it is decoded, so the second [Decode] finds the end. *)
Definition Decode {R} (store : json → option R) (data : text) (maximumDepth : Z) : err + R :=
  if failed (Validate data maximumDepth) then inl ErrInvalid
  else match parse_text data ≫= store with
  | None => inl (EJoin ErrInvalid (EPlain "json"))
  | Some r => inr r
  end.

(** ** Storing a value

    A slice is its elements and the ones left in its array behind its length, which a later
    member of the same name, up to case, may bring back. *)
Record Slice (A : Type) := mkSlice { sl_items : list A; sl_spare : list A }.
Arguments mkSlice {_} _ _.
Arguments sl_items {_} _.
Arguments sl_spare {_} _.
Definition nil_slice {A} : Slice A := mkSlice [] [].

(** Elements are stored over the ones of the array; [null] leaves an element as it is. *)
Fixpoint store_elements {A} (store : json → A → option A) (zero : A) (l : list json) (array : list A)
    : option (list A * list A) :=
  match l with
  | [] => Some ([], array)
  | v :: l =>
      match store v (default zero (head array)) with
      | None => None
      | Some x => match store_elements store zero l (tail array) with
                  | Some (xs, rest) => Some (x :: xs, rest)
                  | None => None
                  end
      end
  end.

Definition slice_field {R A} (get : R → Slice A) (put : Slice A → R → R) (store : json → A → option A) (zero : A)
    (v : json) (r : R) : option R :=
  match v with
  | JNull => Some (put nil_slice r)
  | JArray [] => Some (put nil_slice r)
  | JArray l => match store_elements store zero l (sl_items (get r) ++ sl_spare (get r)) with
                | Some (xs, rest) => Some (put (mkSlice xs rest) r)
                | None => None
                end
  | _ => None
  end.

Definition store_string (v : json) (s : string) : option string := string_field (λ x _, x) v s.

Definition strings_field {R} (get : R → Slice string) (put : Slice string → R → R) : json → R → option R :=
  slice_field get put store_string "".

(** [strconv.ParseInt] of a number literal, which has no plus sign. *)
Definition int64_field {R} (put : Z → R → R) (v : json) (r : R) : option R :=
  match v with
  | JNumber n => match Atoi (of_text n) with Some z => Some (put z r) | None => None end
  | JNull => Some r
  | _ => None
  end.

(** A pointer: [null] makes it nil, another value is stored in what it points to. *)
Definition pointer_field {R A} (get : R → option A) (put : option A → R → R) (store : json → A → option A) (zero : A)
    (v : json) (r : R) : option R :=
  match v with
  | JNull => Some (put None r)
  | _ => match store v (default zero (get r)) with Some x => Some (put (Some x) r) | None => None end
  end.

(** A struct inside another one. *)
Definition store_struct {R} (names : list string) (set : string → json → R → option R) (v : json) (r : R) : option R :=
  decode_struct names set r v.

(** ** The guard and the reference reader *)

(** The state after a value that starts in state [s]. *)
Definition after_value (s : tokenState) : option tokenState :=
  match s with
  | tokenTopValue => Some tokenTopValue
  | tokenArrayStart | tokenArrayComma => Some tokenArrayComma
  | tokenObjectColon => Some tokenObjectComma
  | _ => None
  end.

Definition in_object (s : tokenState) : Prop := s = tokenObjectStart ∨ s = tokenObjectComma.
Definition in_array (s : tokenState) : Prop := s = tokenArrayStart ∨ s = tokenArrayComma.

(** What the first token of a value does to the state; [e] is the state after the value. *)
Definition opens (e : tokenState) (stack : list tokenState) (t : token) (d' : Decoder) : Prop :=
  match t with
  | Delim c =>
      if c =? 123 then d_state d' = tokenObjectStart ∧ ∃ s, d_stack d' = s :: stack ∧ tokenValueEnd s = e
      else if c =? 91 then d_state d' = tokenArrayStart ∧ ∃ s, d_stack d' = s :: stack ∧ tokenValueEnd s = e
      else True
  | _ => d_state d' = e ∧ d_stack d' = stack
  end.

Lemma scan_scalar_delim l t rest : scan_scalar l = Some (t, rest) → match t with Delim _ => False | _ => True end.
Proof.
  destruct l as [|c l]; cbn [scan_scalar]; [done|].
  repeat case_match; try done; intros (? & _ & ?)%bind_Some; simplify_eq; repeat case_match; simplify_eq; done.
Qed.

Lemma round_value d :
  tokenValueAllowed (d_state d) = true →
  match token_round d with
  | inl (GotToken t d') => opens (tokenValueEnd (d_state d)) (d_stack d) t d'
  | inl _ => True
  | inr _ => False
  end.
Proof.
  intros Ha. unfold token_round. rewrite Ha. destruct (skip_space (d_input d)) as [|c rest]; [done|].
  destruct (c =? 91) eqn:E1. { bools. subst c. cbn. eauto. }
  destruct (c =? 93) eqn:E2. { bools. subst c. unfold close_delim. by destruct (d_state d), (d_stack d). }
  destruct (c =? 123) eqn:E3. { bools. subst c. cbn. eauto. }
  destruct (c =? 125) eqn:E4. { unfold close_delim. by destruct (d_state d), (d_stack d). }
  destruct (c =? 58); [by destruct (d_state d)|]. destruct (c =? 44); [by destruct (d_state d)|].
  destruct (scan_scalar (c :: rest)) as [[t r]|] eqn:E; [|by destruct (d_state d)].
  apply scan_scalar_delim in E. destruct (d_state d); try done; by destruct t.
Qed.

Lemma round_separator d e :
  after_value (d_state d) = Some e → tokenValueAllowed (d_state d) = false →
  match token_round d with
  | inl (GotToken t _) => t = Delim 93
  | inl _ => True
  | inr d' => tokenValueAllowed (d_state d') = true ∧ tokenValueEnd (d_state d') = e ∧ d_stack d' = d_stack d
  end.
Proof.
  intros He Ha. unfold token_round. rewrite Ha. destruct (skip_space (d_input d)) as [|c rest]; [done|].
  destruct (c =? 91); [done|]. destruct (c =? 93) eqn:E2.
  { bools. subst c. unfold close_delim. by destruct (d_state d), (d_stack d). }
  destruct (c =? 123); [done|]. destruct (c =? 125). { unfold close_delim. by destruct (d_state d), (d_stack d). }
  destruct (c =? 58); [destruct (d_state d); by simplify_eq/=|]. destruct (c =? 44); [destruct (d_state d); by simplify_eq/=|].
  by destruct (d_state d).
Qed.

Lemma next_value d t d' e :
  after_value (d_state d) = Some e → next d = Ok (t, d') → opens e (d_stack d) t d'.
Proof.
  unfold next, Token. intros He. destruct (tokenValueAllowed (d_state d)) eqn:Ha.
  - pose proof (round_value d Ha) as H. assert (tokenValueEnd (d_state d) = e) as <- by (destruct (d_state d); by simplify_eq/=).
    destruct (token_round d) as [[]|]; try done. by intros [= <- <-].
  - pose proof (round_separator d e He Ha) as H. destruct (token_round d) as [[]|d1]; try done; [intros [= <- <-]; by subst t0|].
    destruct H as (Ha' & <- & <-). pose proof (round_value d1 Ha') as H. destruct (token_round d1) as [[]|]; try done. by intros [= <- <-].
Qed.

(** The name of a member. *)
Lemma round_key d :
  d_state d = tokenObjectStart ∨ d_state d = tokenObjectKey →
  match token_round d with
  | inl (GotToken (TString _) d') => d_state d' = tokenObjectColon ∧ d_stack d' = d_stack d
  | inl (GotToken (Delim _) _) | inl TokenEOF | inl TokenError => True
  | _ => False
  end.
Proof.
  intros Hs. unfold token_round, close_delim. assert (tokenValueAllowed (d_state d) = false) as -> by (by destruct Hs as [->| ->]).
  destruct (skip_space (d_input d)) as [|c rest]; [done|].
  destruct (c =? 91); [done|]. destruct (c =? 93); [by destruct Hs as [->| ->]|].
  destruct (c =? 123); [done|]. destruct (c =? 125); [by destruct Hs as [->| ->], (d_stack d)|].
  destruct (c =? 58); [by destruct Hs as [->| ->]|]. destruct (c =? 44); [by destruct Hs as [->| ->]|].
  destruct (c =? 34); [|by destruct Hs as [->| ->]]. by destruct Hs as [->| ->], (scan_string rest) as [[??]|].
Qed.

Lemma next_member_key d key d' :
  in_object (d_state d) → next d = Ok (TString key, d') → d_state d' = tokenObjectColon ∧ d_stack d' = d_stack d.
Proof.
  unfold next, Token. intros [Hs|Hs].
  - pose proof (round_key d (or_introl Hs)) as H. destruct (token_round d) as [[]|]; try done. by intros [= -> ->].
  - destruct (token_round d) as [r|d1] eqn:E.
    + unfold token_round, close_delim in E. rewrite Hs in E. repeat case_match; simplify_eq; done.
    + assert (d_state d1 = tokenObjectKey ∧ d_stack d1 = d_stack d) as [H1 <-].
      { unfold token_round in E. rewrite Hs in E. repeat case_match; simplify_eq; done. }
      pose proof (round_key d1 (or_intror H1)) as H. destruct (token_round d1) as [[]|]; try done. by intros [= -> ->].
Qed.

(** Where [More] finds no further element, the next token can only be the closing one. *)
Lemma closing_next d c s stack :
  More d = false → d_stack d = s :: stack →
  (in_object (d_state d) ∧ c = 125 ∨ in_array (d_state d) ∧ c = 93) →
  match next d with
  | Ok (_, d') => closing c d = Ok d' ∧ d_state d' = tokenValueEnd s ∧ d_stack d' = stack
  | Err _ => ∃ e, closing c d = Err e
  | OutOfFuel => False
  end.
Proof.
  unfold More, closing, next, Token, token_round, close_delim. intros Hm Hst Hc. rewrite Hst.
  destruct (skip_space (d_input d)) as [|x rest]; [eauto|].
  assert (x = 93 ∨ x = 125) as [-> | ->] by (destruct (x =? 93) eqn:?, (x =? 125) eqn:?; bools; auto; done);
    destruct Hc as [[[-> | ->] ->]|[[-> | ->] ->]]; cbn; eauto.
Qed.

(** Same outcome, up to the error. *)
Definition same_outcome {A} (a b : outcome A) : Prop :=
  match a, b with Ok x, Ok y => x = y | Err _, Err _ | OutOfFuel, OutOfFuel => True | _, _ => False end.

Section Guard.
Variable maximumDepth : Z.
Let shift (depth : Z) : Z := depth + (MaxJSONDepth - maximumDepth).

Definition lands (e : tokenState) (stack : list tokenState) (r : outcome Decoder) : Prop :=
  match r with Ok d' => d_state d' = e ∧ d_stack d' = stack | _ => True end.

Lemma consume_walk fuel :
  (∀ depth d e, after_value (d_state d) = Some e →
     same_outcome (consumeValue maximumDepth fuel depth d) (walk fuel (shift depth) d)
     ∧ lands e (d_stack d) (walk fuel (shift depth) d))
  ∧ (∀ depth seen d s stack, in_object (d_state d) → d_stack d = s :: stack →
     same_outcome (consume_members maximumDepth fuel depth seen d) (walk_members fuel (shift depth) seen d)
     ∧ lands (tokenValueEnd s) stack (walk_members fuel (shift depth) seen d))
  ∧ (∀ depth d s stack, in_array (d_state d) → d_stack d = s :: stack →
     same_outcome (consume_elements maximumDepth fuel depth d) (walk_elements fuel (shift depth) d)
     ∧ lands (tokenValueEnd s) stack (walk_elements fuel (shift depth) d)).
Proof.
  induction fuel as [|fuel (IH1 & IH2 & IH3)]; [done|]. split_and!.
  - intros depth d e He. cbn [consumeValue walk].
    assert ((maximumDepth <? depth) = (MaxJSONDepth <? shift depth)) as -> by (unfold shift; lia).
    destruct (_ <? _); [done|]. destruct (next d) as [[t d1]| |] eqn:Hn; [|done..]. cbn [bind].
    apply (next_value _ _ _ _ He) in Hn. destruct t; cbn in Hn |- *; try done.
    destruct (c =? 123). { destruct Hn as (Hs & s & Hk & <-). apply IH2; [by left|done]. }
    destruct (c =? 91); [|done]. destruct Hn as (Hs & s & Hk & <-). apply IH3; [by left|done].
  - intros depth seen d s stack Hs Hk. cbn [consume_members walk_members]. destruct (More d) eqn:Hm.
    + destruct (next d) as [[t d1]| |] eqn:Hn; [|done..]. cbn [bind]. destruct t as [|key| | |]; try done.
      apply (next_member_key _ _ _ Hs) in Hn as [Hs1 Hk1]. case_bool_decide; [done|].
      destruct (IH1 (depth + 1) d1 tokenObjectComma ltac:(by rewrite Hs1)) as [H1 H2].
      replace (shift depth + 1) with (shift (depth + 1)) by (unfold shift; lia).
      destruct (consumeValue _ _ _ _), (walk _ _ _); try done. cbn in H1 |- *. subst a0. cbn in H2. destruct H2 as [Hs2 Hk2].
      apply IH2; [by right|congruence].
    + pose proof (closing_next d 125 s stack Hm Hk ltac:(auto)) as H. destruct (next d) as [[? d1]| |]; [|destruct H as [? ->]; done|done].
      by destruct H as (-> & ? & ?).
  - intros depth d s stack Hs Hk. cbn [consume_elements walk_elements]. destruct (More d) eqn:Hm.
    + destruct (IH1 (depth + 1) d tokenArrayComma ltac:(by destruct Hs as [-> | ->])) as [H1 H2].
      replace (shift depth + 1) with (shift (depth + 1)) by (unfold shift; lia).
      destruct (consumeValue _ _ _ _), (walk _ _ _); try done. cbn in H1 |- *. subst a0. cbn in H2. destruct H2 as [Hs2 Hk2].
      apply IH3; [by right|congruence].
    + pose proof (closing_next d 93 s stack Hm Hk ltac:(auto)) as H. destruct (next d) as [[? d1]| |]; [|destruct H as [? ->]; done|done].
      by destruct H as (-> & ? & ?).
Qed.
End Guard.

(** The reader at another depth. *)
Lemma parse_depth fuel :
  (∀ depth depth' d v d', parse fuel depth d = Ok (v, d') → depth' + nested v ≤ MaxJSONDepth → parse fuel depth' d = Ok (v, d'))
  ∧ (∀ depth depth' d m d', parse_members fuel depth d = Ok (m, d') → depth' + nested (JObject m) ≤ MaxJSONDepth →
       parse_members fuel depth' d = Ok (m, d'))
  ∧ (∀ depth depth' d l d', parse_elements fuel depth d = Ok (l, d') → depth' + nested (JArray l) ≤ MaxJSONDepth →
       parse_elements fuel depth' d = Ok (l, d')).
Proof.
  induction fuel as [|fuel (IH1 & IH2 & IH3)]; [done|]. split_and!.
  - intros depth depth' d v d' H Hn. pose proof (nested_nonneg v). cbn [parse] in *. destruct (_ <? depth); [done|].
    assert ((MaxJSONDepth <? depth') = false) as -> by lia. destruct (next d) as [[t d1]| |]; [|done..]. cbn [bind] in *.
    destruct t; try done. destruct (c =? 123); [|destruct (c =? 91); [|done]];
      apply bind_Ok in H as ([x d2] & H & [= <- <-]); [by rewrite (IH2 _ _ _ _ _ H Hn)|by rewrite (IH3 _ _ _ _ _ H Hn)].
  - intros depth depth' d m d' H Hn. cbn [parse_members] in *. destruct (More d); [|done].
    destruct (next d) as [[t d1]| |]; [|done..]. cbn [bind] in *. destruct t as [|key| | |]; try done.
    apply bind_Ok in H as ([v d2] & Hv & ([m' d3] & Hm & [= <- <-])%bind_Ok). cbn in Hn.
    rewrite (IH1 _ (depth' + 1) _ _ _ Hv) by lia. cbn [bind]. rewrite (IH2 _ depth' _ _ _ Hm) by (cbn; lia). done.
  - intros depth depth' d l d' H Hn. cbn [parse_elements] in *. destruct (More d); [|done].
    apply bind_Ok in H as ([v d2] & Hv & ([m' d3] & Hm & [= <- <-])%bind_Ok). cbn in Hn.
    rewrite (IH1 _ (depth' + 1) _ _ _ Hv) by lia. cbn [bind]. rewrite (IH3 _ depth' _ _ _ Hm) by (cbn; lia). done.
Qed.

Lemma Validate_spec data n :
  1 ≤ n ≤ MaxJSONDepth →
  Validate data n = None ↔ ∃ v, parse_text data = Some v ∧ distinct_keys v ∧ nested v ≤ n.
Proof.
  intros Hn. unfold Validate, parse_text. assert ((n <? 1) = false) as -> by lia. rewrite orb_false_r.
  destruct (proj1 (consume_walk n (enough data)) 0 (NewDecoder data) tokenTopValue eq_refl) as [Hc _].
  destruct (proj1 (walk_parse (enough data)) (0 + (MaxJSONDepth - n)) (NewDecoder data)) as [Hw _].
  destruct (tlen data =? 0) eqn:Hl.
  { destruct data; [|done]. split; [done|]. by intros (v & [=] & _). }
  split.
  - intros H. destruct (consumeValue n _ _ _) as [d|e|] eqn:Ec; [|done..].
    destruct (walk _ _ _) as [d'| |]; [|done..]. cbn in Hc. subst d'.
    destruct (proj1 (Hw d) eq_refl) as (v & Hv & Hd). exists v.
    pose proof (proj1 (parse_ok (enough data)) _ _ _ _ Hv) as [_ Hb].
    rewrite (proj1 (parse_depth (enough data)) _ 0 _ _ _ Hv) by lia. destruct (Token d); try done. split_and!; [done..|lia].
  - intros (v & Hp & Hd & Hb). destruct (parse _ 0 _) as [[v' d]| |] eqn:Hv; [|done..].
    assert (v' = v) as -> by (destruct (Token d); congruence).
    assert (walk (enough data) (0 + (MaxJSONDepth - n)) (NewDecoder data) = Ok d) as Hk.
    { apply Hw. exists v. split; [|done]. apply (proj1 (parse_depth (enough data)) _ _ _ _ _ Hv). lia. }
    rewrite Hk in Hc. destruct (consumeValue n _ _ _) as [d'| |]; [|done..]. cbn in Hc. subst d'. by destruct (Token d).
Qed.



(** What [Decode] returns. *)
Lemma Decode_Ok {R} (store : json → option R) data n r :
  1 ≤ n ≤ MaxJSONDepth →
  Decode store data n = inr r ↔ ∃ v, parse_text data = Some v ∧ distinct_keys v ∧ nested v ≤ n ∧ store v = Some r.
Proof.
  intros Hn. pose proof (Validate_spec data n Hn) as Hv. unfold Decode. split.
  - destruct (failed _) eqn:E; [done|]. apply failed_false, Hv in E as (v & Hp & ? & ?). rewrite Hp. cbn.
    destruct (store v) eqn:?; [|done]. intros [= <-]. eauto.
  - intros (v & Hp & Hd & Hb & Hs). assert (Validate data n = None) as -> by (apply Hv; eauto). rewrite Hp. cbn. by rewrite Hs.
Qed.

End StrictDecode.
