(* ===== verification/Trust.v ===== *)
(** * Credential trust snapshot

    Models [internal/auth/snapshot.go]: the signing keys and revocation lists an edge holds,
    installed as a whole from documents, the freshness rule, and the watchers whose channel
    is closed when their credential is revoked.  A watcher is known by a number, which also
    names its channel; the mutex makes every method one function on the state; a clock
    reading is an argument. *)
From S2P Require Import Prelude Go Strings Journal Admission Utf8 JSON StrictJSON StrictJSONProofs CanonicalJSON StreamFrames StrictDecode.

Module Trust.
Import StreamFrames StrictDecode Admission.

Definition maxSnapshotBytes : Z := 1048576.
Definition maxSnapshotJSONDepth : Z := 64.
Definition maximumRevocationWatchers : Z := 8192.
Definition PublicKeySize : Z := 32.

Definition ErrSnapshotInvalid : err := EPlain "credential trust snapshot is invalid".
Definition ErrSnapshotCapacity : err := EPlain "credential revocation watcher capacity exceeded".

(** Machine, connector and generation. *)
Definition connectorGeneration : Type := string * string * Z.

(** The four sets that are replaced together. *)
Record Lists := mkLists {
  ls_jti : gset string;
  ls_environment : gset string;
  ls_key : gset string;
  ls_connector : gset connectorGeneration
}.

Record Snapshot := mkSnapshot {
  sn_keys : gmap string bytes;
  sn_revoked : Lists;
  sn_maxAge : Duration;
  sn_updatedAt : Time;
  sn_watchers : gmap nat Claims;
  sn_closed : gset nat;          (** channels that were closed *)
  sn_next : nat                  (** channels made so far *)
}.
#[export] Instance Snapshot_eta : Eta Snapshot := λ s,
  mkSnapshot (sn_keys s) (sn_revoked s) (sn_maxAge s) (sn_updatedAt s) (sn_watchers s) (sn_closed s) (sn_next s).

Definition noLists : Lists := mkLists ∅ ∅ ∅ ∅.
Definition NewSnapshot : Snapshot := mkSnapshot ∅ noLists 0 0 ∅ ∅ 0.

Definition ConfigureRevocationFreshness (maxAge : Duration) (s : Snapshot) : Snapshot := s <| sn_maxAge := maxAge |>.

(** [base64.RawURLEncoding] without [Strict] ignores the unused bits of the last character. *)
Fixpoint unsextets_lenient (l : list Z) : option bytes :=
  match l with
  | a :: b :: c :: d :: l =>
      match unsextets_lenient l with
      | Some r => Some (byte_of_Z (a * 4 + b / 16) :: byte_of_Z ((b mod 16) * 16 + c / 4)
                        :: byte_of_Z ((c mod 4) * 64 + d) :: r)
      | None => None
      end
  | [a; b; c] => Some [byte_of_Z (a * 4 + b / 16); byte_of_Z ((b mod 16) * 16 + c / 4)]
  | [a; b] => Some [byte_of_Z (a * 4 + b / 16)]
  | [_] => None
  | [] => Some []
  end.

Definition DecodeLenient (s : string) : option bytes :=
  mapM_sextet (List.filter not_newline (sbytes s)) ≫= unsextets_lenient.

(** ** Keys *)

Record jwk := mkJwk {
  jw_KeyType : string;
  jw_Curve : string;
  jw_Use : string;
  jw_Algorithm : string;
  jw_KeyID : string;
  jw_X : string
}.
#[export] Instance jwk_eta : Eta jwk := λ k,
  mkJwk (jw_KeyType k) (jw_Curve k) (jw_Use k) (jw_Algorithm k) (jw_KeyID k) (jw_X k).
Definition zeroJwk : jwk := mkJwk "" "" "" "" "" "".

Definition jwk_names : list string := ["kty"; "crv"; "use"; "alg"; "kid"; "x"].
Definition jwk_set (name : string) (v : json) : jwk → option jwk :=
  if name == "kty" then string_field (λ x r, r <| jw_KeyType := x |>) v
  else if name == "crv" then string_field (λ x r, r <| jw_Curve := x |>) v
  else if name == "use" then string_field (λ x r, r <| jw_Use := x |>) v
  else if name == "alg" then string_field (λ x r, r <| jw_Algorithm := x |>) v
  else if name == "kid" then string_field (λ x r, r <| jw_KeyID := x |>) v
  else if name == "x" then string_field (λ x r, r <| jw_X := x |>) v
  else λ _, None.

Definition jwksDocument : Type := Slice jwk.
Definition jwks_set (name : string) (v : json) : jwksDocument → option jwksDocument :=
  if name == "keys" then slice_field (λ d, d) (λ d _, d) (store_struct jwk_names jwk_set) zeroJwk v else λ _, None.
Definition decode_jwks : json → option jwksDocument := decode_struct ["keys"] jwks_set nil_slice.

(** The loop body: the key of an item. *)
Definition item_key (item : jwk) : option bytes :=
  if (jw_KeyType item != "OKP") || (jw_Curve item != "Ed25519") || (jw_Use item != "sig") || (jw_Algorithm item != "EdDSA")
     || (jw_KeyID item == "") || (128 <? len (jw_KeyID item))
  then None
  else match DecodeLenient (jw_X item) with
  | None => None
  | Some raw => if negb (blen raw =? PublicKeySize) || (EncodeToString raw != jw_X item) then None else Some raw
  end.

Fixpoint collect_keys (items : list jwk) (next : gmap string bytes) : option (gmap string bytes) :=
  match items with
  | [] => Some next
  | item :: items =>
      match item_key item with
      | None => None
      | Some raw => match next !! jw_KeyID item with
                    | Some _ => None
                    | None => collect_keys items (<[jw_KeyID item := raw]> next)
                    end
      end
  end.

Definition text_of (data : bytes) : text := byte_to_Z <$> data.

Definition ReplaceJWKS (data : bytes) (s : Snapshot) : option err * Snapshot :=
  if (blen data =? 0) || (maxSnapshotBytes <? blen data) then (Some ErrSnapshotInvalid, s)
  else match Decode decode_jwks (text_of data) maxSnapshotJSONDepth with
  | inl _ => (Some ErrSnapshotInvalid, s)
  | inr document =>
      let n := Z.of_nat (length (sl_items document)) in
      if (n =? 0) || (128 <? n) then (Some ErrSnapshotInvalid, s)
      else match collect_keys (sl_items document) ∅ with
      | None => (Some ErrSnapshotInvalid, s)
      | Some next => (None, s <| sn_keys := next |>)
      end
  end.

Definition Key (keyID : string) (s : Snapshot) : err + bytes :=
  match sn_keys s !! keyID with Some key => inr key | None => inl ErrSnapshotInvalid end.

(** ** Revocations *)

Record RevokedConnectorGeneration := mkRevokedConnector {
  rv_MachineID : string;
  rv_ConnectorID : string;
  rv_Generation : Z
}.
#[export] Instance RevokedConnectorGeneration_eta : Eta RevokedConnectorGeneration := λ r,
  mkRevokedConnector (rv_MachineID r) (rv_ConnectorID r) (rv_Generation r).

Definition revoked_connector_set (name : string) (v : json) : RevokedConnectorGeneration → option RevokedConnectorGeneration :=
  if name == "machine_id" then string_field (λ x r, r <| rv_MachineID := x |>) v
  else if name == "connector_id" then string_field (λ x r, r <| rv_ConnectorID := x |>) v
  else if name == "connector_generation" then uint64_field (λ x r, r <| rv_Generation := x |>) v
  else λ _, None.

Record RevocationDocument := mkRevocationDocument {
  rd_JTIs : Slice string;
  rd_Environments : Slice string;
  rd_Connectors : Slice RevokedConnectorGeneration;
  rd_KeyIDs : Slice string
}.
#[export] Instance RevocationDocument_eta : Eta RevocationDocument := λ r,
  mkRevocationDocument (rd_JTIs r) (rd_Environments r) (rd_Connectors r) (rd_KeyIDs r).

Definition revocation_set (name : string) (v : json) : RevocationDocument → option RevocationDocument :=
  if name == "jtis" then strings_field rd_JTIs (λ x r, r <| rd_JTIs := x |>) v
  else if name == "environments" then strings_field rd_Environments (λ x r, r <| rd_Environments := x |>) v
  else if name == "connector_generations" then
    slice_field rd_Connectors (λ x r, r <| rd_Connectors := x |>)
      (store_struct ["machine_id"; "connector_id"; "connector_generation"] revoked_connector_set) (mkRevokedConnector "" "" 0) v
  else if name == "key_ids" then strings_field rd_KeyIDs (λ x r, r <| rd_KeyIDs := x |>) v
  else λ _, None.

Definition decode_revocations : json → option RevocationDocument :=
  decode_struct ["jtis"; "environments"; "connector_generations"; "key_ids"] revocation_set
    (mkRevocationDocument nil_slice nil_slice nil_slice nil_slice).

Definition document_size (d : RevocationDocument) : Z :=
  Z.of_nat (length (sl_items (rd_JTIs d)) + length (sl_items (rd_Environments d)) + length (sl_items (rd_Connectors d))
            + length (sl_items (rd_KeyIDs d))).

Definition connector_of (r : RevokedConnectorGeneration) : connectorGeneration :=
  (rv_MachineID r, rv_ConnectorID r, rv_Generation r).

(** The four loops: every entry is complete. *)
Definition document_complete (d : RevocationDocument) : bool :=
  forallb (λ v, v != "") (sl_items (rd_JTIs d)) && forallb (λ v, v != "") (sl_items (rd_Environments d))
  && forallb (λ v, (rv_MachineID v != "") && (rv_ConnectorID v != "") && negb (rv_Generation v =? 0)) (sl_items (rd_Connectors d))
  && forallb (λ v, v != "") (sl_items (rd_KeyIDs d)).

Definition lists_of (d : RevocationDocument) : Lists :=
  mkLists (list_to_set (sl_items (rd_JTIs d))) (list_to_set (sl_items (rd_Environments d)))
    (list_to_set (sl_items (rd_KeyIDs d))) (list_to_set (connector_of <$> sl_items (rd_Connectors d))).

Definition revokedLocked (l : Lists) (c : Claims) : bool :=
  bool_decide (cl_JTI c ∈ ls_jti l) || bool_decide (cl_EnvironmentID c ∈ ls_environment l)
  || bool_decide ((cl_MachineID c, cl_ConnectorID c, cl_ConnectorGeneration c) ∈ ls_connector l)
  || bool_decide (cl_KeyID c ∈ ls_key l).

Definition revocationsFreshLocked (now : Time) (s : Snapshot) : bool :=
  if sn_maxAge s <=? 0 then true
  else if IsZero (sn_updatedAt s) then false
  else negb (Before now (sn_updatedAt s)) && (Sub now (sn_updatedAt s) <=? sn_maxAge s).

(** The part under the lock: new lists, the time, and the watchers they hit. *)
Definition install_lists (lists : Lists) (now : Time) (s : Snapshot) : Snapshot :=
  let hit := filter (λ kv : nat * Claims, revokedLocked lists kv.2 = true) (sn_watchers s) in
  s <| sn_revoked := lists |> <| sn_updatedAt := now |>
    <| sn_closed := dom hit ∪ sn_closed s |>
    <| sn_watchers := filter (λ kv : nat * Claims, revokedLocked lists kv.2 = false) (sn_watchers s) |>.

(** The document that is installed, if it is accepted. *)
Definition accepted_lists (data : bytes) : option Lists :=
  if (blen data =? 0) || (maxSnapshotBytes <? blen data) then None
  else match Decode decode_revocations (text_of data) maxSnapshotJSONDepth with
  | inl _ => None
  | inr document =>
      if (10000 <? document_size document) || negb (document_complete document) then None else Some (lists_of document)
  end.

Definition ReplaceRevocations (data : bytes) (now : Time) (s : Snapshot) : option err * Snapshot :=
  match accepted_lists data with
  | None => (Some ErrSnapshotInvalid, s)
  | Some lists => (None, install_lists lists now s)
  end.

Definition Revoked (now : Time) (c : Claims) (s : Snapshot) : err + bool :=
  if negb (revocationsFreshLocked now s) then inl ErrSnapshotInvalid else inr (revokedLocked (sn_revoked s) c).

(** The number of the channel; the release function of a closed one does nothing. *)
Definition Watch (now : Time) (c : Claims) (s : Snapshot) : (err + nat) * Snapshot :=
  if (cl_JTI c == "") || (cl_EnvironmentID c == "") || (cl_KeyID c == "") then (inl ErrSnapshotInvalid, s)
  else if negb (revocationsFreshLocked now s) then (inl ErrSnapshotInvalid, s)
  else
    let id := sn_next s in
    if revokedLocked (sn_revoked s) c
    then (inr id, s <| sn_next := S id |> <| sn_closed := {[id]} ∪ sn_closed s |>)
    else if maximumRevocationWatchers <=? Z.of_nat (size (sn_watchers s)) then (inl ErrSnapshotCapacity, s)
    else (inr id, s <| sn_next := S id |> <| sn_watchers := <[id := c]> (sn_watchers s) |>).

Definition release (id : nat) (s : Snapshot) : Snapshot := s <| sn_watchers := delete id (sn_watchers s) |>.

(** A receive from the channel does not block. *)
Definition is_closed (id : nat) (s : Snapshot) : bool := bool_decide (id ∈ sn_closed s).

End Trust.

(** * Credential trust snapshot: theorems

    A run of the snapshot with the history of the lists that were in force, the claims every
    channel was made for and the channels that were released: a channel is closed exactly when
    a list that revokes its credential was in force while it was watched, and an answer about
    revocation comes from a list that is recent enough. *)

Module TrustProofs.
Import StrictJSON StreamFrames StrictDecode Admission Trust.

(** ** Runs *)

Record world := mkWorld {
  tw_s : Snapshot;
  tw_log : list (Lists * Time);            (** lists in force, with their times *)
  tw_issued : gmap nat (Claims * nat);     (** claims of a channel, and the list in force when it was made *)
  tw_released : gset nat
}.
#[export] Instance world_eta : Eta world := λ w, mkWorld (tw_s w) (tw_log w) (tw_issued w) (tw_released w).

Inductive top :=
  | TJwks (data : bytes)
  | TConfigure (maxAge : Duration)
  | TRevocations (data : bytes) (now : Time)
  | TWatch (now : Time) (c : Claims)
  | TRelease (id : nat).

Definition tstep (o : top) (w : world) : world :=
  match o with
  | TJwks data => w <| tw_s := (ReplaceJWKS data (tw_s w)).2 |>
  | TConfigure maxAge => w <| tw_s := ConfigureRevocationFreshness maxAge (tw_s w) |>
  | TRevocations data now =>
      match accepted_lists data with
      | Some lists => w <| tw_s := (ReplaceRevocations data now (tw_s w)).2 |> <| tw_log := tw_log w ++ [(lists, now)] |>
      | None => w <| tw_s := (ReplaceRevocations data now (tw_s w)).2 |>
      end
  | TWatch now c =>
      match Watch now c (tw_s w) with
      | (inr id, s) => w <| tw_s := s |> <| tw_issued := <[id := (c, pred (length (tw_log w)))]> (tw_issued w) |>
      | (inl _, s) => w <| tw_s := s |>
      end
  | TRelease id => w <| tw_s := release id (tw_s w) |> <| tw_released := {[id]} ∪ tw_released w |>
  end.

Definition world0 : world := mkWorld NewSnapshot [(noLists, 0)] ∅ ∅.

(** Only a channel that exists is released. *)
Inductive treach : world → Prop :=
  | treach_new : treach world0
  | treach_step w o :
      treach w → match o with TRelease id => is_Some (tw_issued w !! id) | _ => True end → treach (tstep o w).

(** A list that revokes the credential was in force at or after position [pos]. *)
Definition hit (log : list (Lists * Time)) (c : Claims) (pos : nat) : Prop :=
  ∃ k L t, (pos ≤ k)%nat ∧ log !! k = Some (L, t) ∧ revokedLocked L c = true.

Record channel_ok (w : world) (id : nat) (c : Claims) (pos : nat) : Prop := {
  ch_pos : (pos < length (tw_log w))%nat;
  ch_closed : id ∈ sn_closed (tw_s w) → hit (tw_log w) c pos;
  ch_watched : (id ∉ tw_released w) → (id ∉ sn_closed (tw_s w)) → sn_watchers (tw_s w) !! id = Some c;
  ch_live : sn_watchers (tw_s w) !! id = Some c → (id ∉ sn_closed (tw_s w)) ∧ ¬ hit (tw_log w) c pos
}.

Record winv (w : world) : Prop := {
  wi_last : last (tw_log w) = Some (sn_revoked (tw_s w), sn_updatedAt (tw_s w));
  wi_size : Z.of_nat (size (sn_watchers (tw_s w))) ≤ maximumRevocationWatchers;
  wi_watchers : ∀ id c, sn_watchers (tw_s w) !! id = Some c → ∃ pos, tw_issued w !! id = Some (c, pos);
  wi_closed : ∀ id, id ∈ sn_closed (tw_s w) → is_Some (tw_issued w !! id);
  wi_fresh : ∀ id x, tw_issued w !! id = Some x → (id < sn_next (tw_s w))%nat;
  wi_channel : ∀ id c pos, tw_issued w !! id = Some (c, pos) → channel_ok w id c pos
}.

Lemma hit_snoc log L t c pos : (pos ≤ length log)%nat → hit (log ++ [(L, t)]) c pos ↔ hit log c pos ∨ revokedLocked L c = true.
Proof.
  intros Hp. split.
  - intros (k & L' & t' & Hk & Hl & Hr). apply lookup_app_Some in Hl as [Hl|[Hk' Hl]]; [left; by exists k, L', t'|].
    apply list_lookup_singleton_Some in Hl as [_ [= -> ->]]. by right.
  - intros [(k & L' & t' & Hk & Hl & Hr)|Hr]; [exists k, L', t'; split_and!; [done| |done]; by apply lookup_app_l_Some|].
    exists (length log), L, t. split_and!; [done| |done]. by apply list_lookup_middle.
Qed.

Lemma hit_last log L t c : last log = Some (L, t) → hit log c (pred (length log)) ↔ revokedLocked L c = true.
Proof.
  rewrite last_lookup. intros Hl. split.
  - intros (k & L' & t' & Hk & Hl' & Hr). assert (k = pred (length log)) as ->; [|congruence].
    apply lookup_lt_Some in Hl'. lia.
  - intros Hr. by exists (pred (length log)), L, t.
Qed.

(** A step that leaves watchers, channels and lists alone. *)
Lemma winv_same w s' :
  winv w → sn_watchers s' = sn_watchers (tw_s w) → sn_closed s' = sn_closed (tw_s w) → sn_next s' = sn_next (tw_s w) →
  sn_revoked s' = sn_revoked (tw_s w) → sn_updatedAt s' = sn_updatedAt (tw_s w) →
  winv (mkWorld s' (tw_log w) (tw_issued w) (tw_released w)).
Proof.
  intros [H1 H2 H3 H4 H5 H6] E1 E2 E3 E4 E5. split; cbn; rewrite ?E1, ?E2, ?E3, ?E4, ?E5; try done.
  intros id c pos [A B C D]%H6. split; cbn; by rewrite ?E1, ?E2.
Qed.

Lemma ReplaceJWKS_cases data s :
  ReplaceJWKS data s = (Some ErrSnapshotInvalid, s) ∨ ∃ next, ReplaceJWKS data s = (None, s <| sn_keys := next |>).
Proof. unfold ReplaceJWKS. repeat case_match; eauto. Qed.

Lemma hit_watchers lists (m : gmap nat Claims) id :
  id ∈ dom (filter (λ kv : nat * Claims, revokedLocked lists kv.2 = true) m) ↔ ∃ c, m !! id = Some c ∧ revokedLocked lists c = true.
Proof.
  rewrite elem_of_dom. split.
  - intros [c [Hc Hr]%map_lookup_filter_Some]. eauto.
  - intros (c & Hc & Hr). exists c. by apply map_lookup_filter_Some.
Qed.

Lemma install_inv w lists now :
  winv w → winv (mkWorld (install_lists lists now (tw_s w)) (tw_log w ++ [(lists, now)]) (tw_issued w) (tw_released w)).
Proof.
  intros [H1 H2 H3 H4 H5 H6]. split; cbn.
  - by rewrite last_snoc.
  - etrans; [|exact H2]. apply inj_le, map_subseteq_size, map_filter_subseteq.
  - intros id c [Hc _]%map_lookup_filter_Some. eauto.
  - intros id [(c & Hc & _)%hit_watchers|?]%elem_of_union; [|eauto]. destruct (H3 _ _ Hc). eauto.
  - done.
  - intros id c pos Hi. destruct (H6 _ _ _ Hi) as [A B C D]. split; cbn.
    + rewrite length_app. lia.
    + intros [(c' & Hc & Hr)%hit_watchers|?]%elem_of_union; apply hit_snoc; [lia| |lia|auto].
      destruct (H3 _ _ Hc) as [pos' Hi']. assert (c' = c) as -> by congruence. auto.
    + intros Hr [Hn1 Hn2]%not_elem_of_union. apply map_lookup_filter_Some. specialize (C Hr Hn2). split; [done|]. cbn.
      destruct (revokedLocked lists c) eqn:E; [|done]. destruct Hn1. apply hit_watchers. eauto.
    + intros [Hc Hr]%map_lookup_filter_Some. cbn in Hr. destruct (D Hc) as [D1 D2]. split.
      * rewrite elem_of_union, hit_watchers. intros [(c' & Hc' & Hr')|?]; [congruence|done].
      * rewrite hit_snoc by lia. intros [?|?]; [done|congruence].
Qed.

Lemma Watch_inv w now c :
  winv w → winv (tstep (TWatch now c) w).
Proof.
  intros I. unfold tstep, Watch. destruct (_ || _); [by destruct w|]. destruct (negb _); [by destruct w|].
  destruct I as [H1 H2 H3 H4 H5 H6]. set (id := sn_next (tw_s w)).
  assert (tw_issued w !! id = None) as Hf.
  { destruct (tw_issued w !! id) eqn:E; [|done]. apply H5 in E. unfold id in E. lia. }
  assert (0 < length (tw_log w))%nat as Hlen by (destruct (tw_log w); [done|cbn; lia]).
  assert (∀ i x, tw_issued w !! i = Some x → i ≠ id) as Hne by congruence.
  assert (id ∉ sn_closed (tw_s w)) as Hnc by (intros [? ?]%H4; congruence).
  assert (sn_watchers (tw_s w) !! id = None) as Hnw.
  { destruct (sn_watchers (tw_s w) !! id) eqn:E; [|done]. destruct (H3 _ _ E). congruence. }
  destruct (revokedLocked _ c) eqn:Hr; [|destruct (_ <=? _) eqn:Hs; [by destruct w|]]; bools; split; cbn; try done.
  - intros i c' Hi. destruct (H3 _ _ Hi) as [pos Hp]. exists pos. rewrite lookup_insert_ne; [done|]. intros ->. congruence.
  - intros i [->%elem_of_singleton|Hi%H4]%elem_of_union; [rewrite lookup_insert_eq; eauto|].
    destruct (decide (i = id)) as [->|]; [rewrite lookup_insert_eq; eauto|by rewrite lookup_insert_ne].
  - intros i x [[-> _]|[? ?%H5]]%lookup_insert_Some; lia.
  - intros i c' pos [[<- [= <- <-]]|[Hn Hi]]%lookup_insert_Some.
    + split; cbn; [lia| | |]; [intros _; by eapply hit_last|set_solver|congruence].
    + destruct (H6 _ _ _ Hi) as [A B C D]. split; cbn; [done| | |].
      * intros [->%elem_of_singleton|?]%elem_of_union; [done|auto].
      * intros ? [? ?]%not_elem_of_union. auto.
      * intros ?%D. set_solver.
  - pose proof (size_insert_le (sn_watchers (tw_s w)) id c). rewrite map_size_insert_None by done. lia.
  - intros i c' [[<- <-]|[Hn Hi]]%lookup_insert_Some; [rewrite lookup_insert_eq; eauto|]. rewrite lookup_insert_ne by done. eauto.
  - intros i Hi%H4. destruct (decide (i = id)) as [->|]; [rewrite lookup_insert_eq; eauto|by rewrite lookup_insert_ne].
  - intros i x [[-> _]|[? ?%H5]]%lookup_insert_Some; lia.
  - intros i c' pos [[<- [= <- <-]]|[Hn Hi]]%lookup_insert_Some.
    + split; cbn; [lia|done|by rewrite lookup_insert_eq|]. intros _. split; [done|]. rewrite (hit_last _ _ _ _ H1). congruence.
    + destruct (H6 _ _ _ Hi) as [A B C D]. split; cbn; [done|done| |]; rewrite lookup_insert_ne by done; done.
Qed.

Lemma watch_release_inv w id :
  winv w → is_Some (tw_issued w !! id) →
  winv (mkWorld (release id (tw_s w)) (tw_log w) (tw_issued w) ({[id]} ∪ tw_released w)).
Proof.
  intros [H1 H2 H3 H4 H5 H6] _. split; cbn; try done.
  - etrans; [|exact H2]. apply inj_le, map_subseteq_size, delete_subseteq.
  - intros i c [_ Hi]%lookup_delete_Some. eauto.
  - intros i c pos Hi. destruct (H6 _ _ _ Hi) as [A B C D]. split; cbn; [done..| |].
    + intros [Hn ?]%not_elem_of_union ?. rewrite lookup_delete_ne by set_solver. auto.
    + intros [_ ?]%lookup_delete_Some. auto.
Qed.

Lemma treach_inv w : treach w → winv w.
Proof.
  induction 1 as [|w o _ IH Hr].
  - split; cbn; try done; intros; by rewrite ?lookup_empty in *.
  - destruct o as [data|maxAge|data now|now c|id]; [| | |by apply Watch_inv|].
    + cbn. destruct (ReplaceJWKS_cases data (tw_s w)) as [->|[next ->]]; by apply winv_same.
    + by apply winv_same.
    + cbn. unfold ReplaceRevocations. destruct (accepted_lists data); [by apply install_inv|by apply winv_same].
    + exact (watch_release_inv w id IH Hr).
Qed.

Lemma treach_log w : treach w → ∃ l, tw_log w = (noLists, 0) :: l.
Proof.
  induction 1 as [|w o _ [l IH] _]; [by exists []|]. destruct o as [data|maxAge|data now|now c|id]; try (exists l; exact IH).
  - cbn. destruct (accepted_lists data); [|by exists l]. cbn. rewrite IH. by eexists.
  - unfold tstep. destruct (Watch now c (tw_s w)) as [[]]; by exists l.
Qed.

Lemma collect_keys_spec items next result :
  collect_keys items next = Some result →
  ∀ kid raw, result !! kid = Some raw ↔ next !! kid = Some raw ∨ ∃ item, item ∈ items ∧ jw_KeyID item = kid ∧ item_key item = Some raw.
Proof.
  revert next. induction items as [|item items IH]; intros next; cbn.
  { intros [= <-] kid raw. split; [auto|]. intros [?|(? & []%not_elem_of_nil & _)]; done. }
  destruct (item_key item) as [raw0|] eqn:Hk; [|done]. destruct (next !! jw_KeyID item) eqn:Hn; [done|]. intros Hr kid raw.
  rewrite (IH _ Hr kid raw), lookup_insert_Some. split.
  - intros [[[<- <-]|[? ?]]|(x & ? & ? & ?)]; [right; exists item; split; [left|done]|auto|right; exists x; split; [by right|done]].
  - intros [?|(x & [->|?]%elem_of_cons & <- & Hx)]; [left; right; split; [congruence|done]|left; left; split; congruence|eauto].
Qed.

(** ** Theorems *)

(** Revocation reaches whoever watches: as long as a channel was not released, it is closed
    exactly if a list that revokes its credential is in force or was in force since the
    channel was made; a released channel is closed only for that reason.  At most
    [maximumRevocationWatchers] channels are watched. *)
Theorem revocation_watch_exact w id c pos :
  treach w → tw_issued w !! id = Some (c, pos) →
  (id ∈ sn_closed (tw_s w) → hit (tw_log w) c pos)
  ∧ ((id ∉ tw_released w) → hit (tw_log w) c pos → id ∈ sn_closed (tw_s w))
  ∧ Z.of_nat (size (sn_watchers (tw_s w))) ≤ maximumRevocationWatchers.
Proof.
  intros I%treach_inv Hi. destruct (wi_channel _ I _ _ _ Hi) as [A B C D]. split_and!; [done| |by apply wi_size].
  intros Hr Hh. destruct (decide (id ∈ sn_closed (tw_s w))) as [|Hn]; [done|]. by destruct (D (C Hr Hn)).
Qed.

(** An answer about revocation is not stale: with a freshness limit, [Revoked] answers only
    from the list that was installed last, at most the limit ago, and says what it says. *)
Theorem revocation_answer_recent w now c b :
  treach w → 0 < sn_maxAge (tw_s w) < two63 - 1 → Revoked now c (tw_s w) = inr b →
  ∃ L t, last (tw_log w) = Some (L, t) ∧ (1 < length (tw_log w))%nat ∧ t ≤ now ≤ t + sn_maxAge (tw_s w) ∧ b = revokedLocked L c.
Proof.
  intros Hr [Ha Hb]. unfold Revoked, revocationsFreshLocked. destruct (sn_maxAge (tw_s w) <=? 0) eqn:E; [bools; lia|].
  unfold IsZero. destruct (sn_updatedAt (tw_s w) =? 0) eqn:Hz; [done|]. destruct (_ && _) eqn:Hf; [|done]. cbn. intros [= <-].
  unfold Before in Hf. bools. exists (sn_revoked (tw_s w)), (sn_updatedAt (tw_s w)).
  pose proof (wi_last _ (treach_inv w Hr)) as Hl. split; [done|]. split; [|split; [|done]].
  - destruct (treach_log w Hr) as [l El]. rewrite El in *. destruct l; [|cbn; lia]. injection Hl as _ Hl. lia.
  - assert (¬ sn_maxAge (tw_s w) < now - sn_updatedAt (tw_s w)) as Hn; [|lia].
    rewrite <- (Sub_gt now (sn_updatedAt (tw_s w)) (sn_maxAge (tw_s w))) by lia. lia.
Qed.

(** Keys are installed as a whole: after an accepted document the snapshot holds exactly the
    keys of its items, each an Ed25519 key of 32 bytes in its only spelling; a refused one
    changes nothing. *)
Theorem jwks_replace_exact data s e s' :
  ReplaceJWKS data s = (e, s') →
  match e with
  | Some _ => s' = s
  | None => ∃ document, Decode decode_jwks (text_of data) maxSnapshotJSONDepth = inr document
      ∧ ∀ kid raw, sn_keys s' !! kid = Some raw ↔
          blen raw = PublicKeySize ∧ ∃ item, item ∈ sl_items document ∧ jw_KeyID item = kid ∧ jw_X item = EncodeToString raw
            ∧ is_Some (item_key item)
  end.
Proof.
  unfold ReplaceJWKS. destruct (_ || _); [by intros [= <- <-]|]. destruct (Decode _ _ _) as [|document] eqn:Hd; [by intros [= <- <-]|].
  destruct (_ || _); [by intros [= <- <-]|]. destruct (collect_keys _ _) as [next|] eqn:Hc; [|by intros [= <- <-]].
  intros [= <- <-]. exists document. split; [done|]. intros kid raw. cbn. rewrite (collect_keys_spec _ _ _ Hc), lookup_empty.
  assert (∀ item raw, item_key item = Some raw → blen raw = PublicKeySize ∧ jw_X item = EncodeToString raw) as Hik.
  { intros item raw'. unfold item_key. destruct (_ || _); [done|]. destruct (DecodeLenient _) as [r|]; [|done].
    destruct (_ || _) eqn:E; [done|]. intros [= <-]. bools. split; [lia|done]. }
  split.
  - intros [?|(item & Hi & Hk & Hr)]; [done|]. destruct (Hik _ _ Hr). eauto 10.
  - intros (Hb & item & Hi & Hk & Hx & [raw' Hr]). right. exists item. split_and!; [done..|].
    destruct (Hik _ _ Hr) as [_ Hx']. rewrite Hr. f_equal. rewrite Hx in Hx'.
    pose proof (DecodeString_EncodeToString raw) as E. rewrite Hx', DecodeString_EncodeToString in E. congruence.
Qed.

End TrustProofs.
