(* ===== verification/Verifier.v ===== *)
(** * Credential verifier

    Models [internal/auth/verifier.go]: signed credentials in three base64url segments, and
    the five methods that accept one class of them each, for connectors, peer signaling,
    relayed peers, path-MTU probes and access to a helper.  Keys and revocations come from
    the interface [TrustSource], which the snapshot and a static key map implement.  Ed25519
    is a parameter; [now] and [trustNow] are the readings of the two clocks. *)
From S2P Require Import Prelude Go Strings Relay Journal Admission Utf8 JSON StreamFrames SignalProtocol Signaling StrictDecode Trust.

(** What the verifier asks of its sources of keys and revocations: [Revocations] may be nil,
    and may offer watchers. *)
Inductive revocations (S : Type) :=
  | NoRevocations
  | CheckOnly (Revoked : Time → Admission.Claims → S → err + bool)
  | Watching (Revoked : Time → Admission.Claims → S → err + bool) (Watch : Time → Admission.Claims → S → (err + nat) * S)
      (release : nat → S → S) (closed : nat → S → bool).
Arguments NoRevocations {_}.
Arguments CheckOnly {_} _.
Arguments Watching {_} _ _ _ _.

Class TrustSource (S : Type) := {
  ts_Key : string → S → err + bytes;
  ts_Revocations : revocations S
}.

Module Verifier.
Import EdgeErrors StreamFrames StrictDecode Trust.

#[export] Instance Snapshot_source : TrustSource Snapshot :=
  {| ts_Key := Trust.Key; ts_Revocations := Watching Trust.Revoked Trust.Watch Trust.release Trust.is_closed |}.

(** [StaticKeys] without revocations. *)
Definition StaticKeys : Type := gmap string bytes.
Definition StaticKeys_Key (keyID : string) (keys : StaticKeys) : err + bytes :=
  match keys !! keyID with Some key => inr key | None => inl (EPlain "unknown key") end.
#[export] Instance StaticKeys_source : TrustSource StaticKeys :=
  {| ts_Key := StaticKeys_Key; ts_Revocations := NoRevocations |}.

#[export] Instance Claims_eta : Eta Admission.Claims := λ c,
  Admission.mkClaims (Admission.cl_KeyID c) (Admission.cl_Issuer c) (Admission.cl_Audience c) (Admission.cl_JTI c)
    (Admission.cl_CredentialClass c) (Admission.cl_Scopes c) (Admission.cl_EnvironmentID c) (Admission.cl_MachineID c)
    (Admission.cl_InstallationGeneration c) (Admission.cl_HelperID c) (Admission.cl_ConnectorID c)
    (Admission.cl_ConnectorGeneration c) (Admission.cl_EdgePool c) (Admission.cl_EdgeNodeID c) (Admission.cl_RouteBinding c)
    (Admission.cl_ExpiresAt c) (Admission.cl_Revoked c).

Definition maxCredentialBytes : Z := 8192.

(** ** Segments of a token *)

Record header := mkHeader { hd_Algorithm : string; hd_KeyID : string; hd_Type : string }.
#[export] Instance header_eta : Eta header := λ h, mkHeader (hd_Algorithm h) (hd_KeyID h) (hd_Type h).

Definition header_set (name : string) (v : json) : header → option header :=
  if name == "alg" then string_field (λ x r, r <| hd_Algorithm := x |>) v
  else if name == "kid" then string_field (λ x r, r <| hd_KeyID := x |>) v
  else if name == "typ" then string_field (λ x r, r <| hd_Type := x |>) v
  else λ _, None.
Definition decode_header : json → option header := decode_struct ["alg"; "kid"; "typ"] header_set (mkHeader "" "" "").

Record fileTransferPolicy := mkPolicy {
  fp_Revision : string;
  fp_MaxFileBytes : Z;
  fp_MaxBatchFiles : Z;
  fp_MaxBatchBytes : Z;
  fp_MaxConcurrentTransfers : Z;
  fp_RetentionSeconds : Z;
  fp_DeliveryTimeoutSeconds : Z;
  fp_MaxPendingSpoolBytes : Z
}.
#[export] Instance fileTransferPolicy_eta : Eta fileTransferPolicy := λ p,
  mkPolicy (fp_Revision p) (fp_MaxFileBytes p) (fp_MaxBatchFiles p) (fp_MaxBatchBytes p) (fp_MaxConcurrentTransfers p)
    (fp_RetentionSeconds p) (fp_DeliveryTimeoutSeconds p) (fp_MaxPendingSpoolBytes p).
Definition zeroPolicy : fileTransferPolicy := mkPolicy "" 0 0 0 0 0 0 0.

Definition policy_names : list string :=
  ["revision"; "max_file_bytes"; "max_batch_files"; "max_batch_bytes"; "max_concurrent_transfers"; "retention_seconds";
   "delivery_timeout_seconds"; "max_pending_spool_bytes"].
Definition policy_set (name : string) (v : json) : fileTransferPolicy → option fileTransferPolicy :=
  if name == "revision" then string_field (λ x r, r <| fp_Revision := x |>) v
  else if name == "max_file_bytes" then int64_field (λ x r, r <| fp_MaxFileBytes := x |>) v
  else if name == "max_batch_files" then int64_field (λ x r, r <| fp_MaxBatchFiles := x |>) v
  else if name == "max_batch_bytes" then int64_field (λ x r, r <| fp_MaxBatchBytes := x |>) v
  else if name == "max_concurrent_transfers" then int64_field (λ x r, r <| fp_MaxConcurrentTransfers := x |>) v
  else if name == "retention_seconds" then int64_field (λ x r, r <| fp_RetentionSeconds := x |>) v
  else if name == "delivery_timeout_seconds" then int64_field (λ x r, r <| fp_DeliveryTimeoutSeconds := x |>) v
  else if name == "max_pending_spool_bytes" then int64_field (λ x r, r <| fp_MaxPendingSpoolBytes := x |>) v
  else λ _, None.

Definition validFileTransferPolicy (policy : option fileTransferPolicy) : bool :=
  match policy with
  | None => false
  | Some p =>
      (fp_Revision p != "") && (0 <? fp_MaxFileBytes p) && (fp_MaxFileBytes p <=? 50 * 2 ^ 20)
      && (0 <? fp_MaxBatchFiles p) && (fp_MaxBatchFiles p <=? 10) && (fp_MaxFileBytes p <=? fp_MaxBatchBytes p)
      && (fp_MaxBatchBytes p <=? 500 * 2 ^ 20) && (0 <? fp_MaxConcurrentTransfers p) && (fp_MaxConcurrentTransfers p <=? 2)
      && (0 <? fp_RetentionSeconds p) && (0 <? fp_DeliveryTimeoutSeconds p) && (fp_MaxBatchBytes p <=? fp_MaxPendingSpoolBytes p)
  end.

Record claims := mkClaims {
  tc_Issuer : string;
  tc_Audience : string;
  tc_Subject : string;
  tc_JTI : string;
  tc_IssuedAt : Z;
  tc_Expires : Z;
  tc_Scope : Slice string;
  tc_CredentialClass : string;
  tc_EnvironmentID : string;
  tc_MachineID : string;
  tc_InstallationGeneration : Z;
  tc_SourceMachineID : string;
  tc_HelperID : string;
  tc_ConnectorID : string;
  tc_ConnectorGeneration : Z;
  tc_EdgePool : string;
  tc_EdgeNodeID : string;
  tc_RouteBinding : string;
  tc_FileTransferPolicy : option fileTransferPolicy;
  tc_AccountID : string;
  tc_UserID : string;
  tc_ActorID : string;
  tc_CLIClientSessionID : string;
  tc_SessionID : string;
  tc_OperationID : string;
  tc_PreviewID : string;
  tc_OwnerSessionID : string;
  tc_IdempotencyKey : string;
  tc_RequestID : string;
  tc_CorrelationID : string;
  tc_TargetScheme : string;
  tc_TargetAddress : string;
  tc_AccessMode : string;
  tc_PreviewEndpoint : string;
  tc_LeaseDeadline : Z;
  tc_UserDeadline : option Z;
  tc_LeaseETag : string;
  tc_State : string;
  tc_AllocationState : string;
  tc_EdgeState : string;
  tc_OriginState : string;
  tc_CreatedAt : Z;
  tc_LastRenewedAt : Z;
  tc_ExpectedGeneration : Z;
  tc_RequestHash : string;
  tc_IntentID : string;
  tc_EndpointID : string;
  tc_PeerEndpointID : string;
  tc_AttemptGeneration : Z;
  tc_NetworkGeneration : Z;
  tc_PeerRole : string;
  tc_RouteAllocation : string;
  tc_RouteGeneration : Z;
  tc_InitiatorEndpointID : string;
  tc_ResponderEndpointID : string;
  tc_RelayByteLimit : Z;
  tc_RelayCarriers : Slice string
}.
#[export] Instance claims_eta : Eta claims := λ c,
  mkClaims (tc_Issuer c) (tc_Audience c) (tc_Subject c) (tc_JTI c) (tc_IssuedAt c) (tc_Expires c) (tc_Scope c)
    (tc_CredentialClass c) (tc_EnvironmentID c) (tc_MachineID c) (tc_InstallationGeneration c) (tc_SourceMachineID c)
    (tc_HelperID c) (tc_ConnectorID c) (tc_ConnectorGeneration c) (tc_EdgePool c) (tc_EdgeNodeID c) (tc_RouteBinding c)
    (tc_FileTransferPolicy c) (tc_AccountID c) (tc_UserID c) (tc_ActorID c) (tc_CLIClientSessionID c) (tc_SessionID c)
    (tc_OperationID c) (tc_PreviewID c) (tc_OwnerSessionID c) (tc_IdempotencyKey c) (tc_RequestID c) (tc_CorrelationID c)
    (tc_TargetScheme c) (tc_TargetAddress c) (tc_AccessMode c) (tc_PreviewEndpoint c) (tc_LeaseDeadline c)
    (tc_UserDeadline c) (tc_LeaseETag c) (tc_State c) (tc_AllocationState c) (tc_EdgeState c) (tc_OriginState c)
    (tc_CreatedAt c) (tc_LastRenewedAt c) (tc_ExpectedGeneration c) (tc_RequestHash c) (tc_IntentID c) (tc_EndpointID c)
    (tc_PeerEndpointID c) (tc_AttemptGeneration c) (tc_NetworkGeneration c) (tc_PeerRole c) (tc_RouteAllocation c)
    (tc_RouteGeneration c) (tc_InitiatorEndpointID c) (tc_ResponderEndpointID c) (tc_RelayByteLimit c) (tc_RelayCarriers c).
Definition zeroClaims : claims :=
  mkClaims "" "" "" "" 0 0 nil_slice "" "" "" 0 "" "" "" 0 "" "" "" None "" "" "" "" "" "" "" "" "" "" "" "" "" "" "" 0 None "" "" "" "" "" 0 0 0 "" "" "" "" 0 0 "" "" 0 "" "" 0 nil_slice.

Definition claims_names : list string :=
  ["iss"; "aud"; "sub"; "jti"; "iat"; "exp"; "scope"; "credential_class"; "environment_id"; "machine_id"; 
   "installation_generation"; "source_machine_id"; "helper_id"; "connector_id"; "connector_generation"; "edge_pool"; 
   "edge_node_id"; "route_binding"; "file_transfer_policy"; "account_id"; "user_id"; "actor_id"; "cli_client_session_id"; 
   "session_id"; "operation_id"; "preview_id"; "owner_session_id"; "idempotency_key"; "request_id"; "correlation_id"; 
   "target_scheme"; "target_address"; "access_mode"; "endpoint"; "lease_deadline"; "user_deadline"; "lease_etag"; "state"; 
   "allocation_state"; "edge_state"; "origin_state"; "created_at"; "last_renewed_at"; "expected_generation"; "request_hash"; 
   "intent_id"; "endpoint_id"; "peer_endpoint_id"; "attempt_generation"; "network_generation"; "peer_role"; 
   "route_allocation"; "route_generation"; "initiator_endpoint_id"; "responder_endpoint_id"; "relay_byte_limit"; 
   "relay_carriers"].

Definition claims_set (name : string) (v : json) : claims → option claims :=
  if name == "iss" then string_field (λ x r, r <| tc_Issuer := x |>) v
  else if name == "aud" then string_field (λ x r, r <| tc_Audience := x |>) v
  else if name == "sub" then string_field (λ x r, r <| tc_Subject := x |>) v
  else if name == "jti" then string_field (λ x r, r <| tc_JTI := x |>) v
  else if name == "iat" then int64_field (λ x r, r <| tc_IssuedAt := x |>) v
  else if name == "exp" then int64_field (λ x r, r <| tc_Expires := x |>) v
  else if name == "scope" then strings_field tc_Scope (λ x r, r <| tc_Scope := x |>) v
  else if name == "credential_class" then string_field (λ x r, r <| tc_CredentialClass := x |>) v
  else if name == "environment_id" then string_field (λ x r, r <| tc_EnvironmentID := x |>) v
  else if name == "machine_id" then string_field (λ x r, r <| tc_MachineID := x |>) v
  else if name == "installation_generation" then int64_field (λ x r, r <| tc_InstallationGeneration := x |>) v
  else if name == "source_machine_id" then string_field (λ x r, r <| tc_SourceMachineID := x |>) v
  else if name == "helper_id" then string_field (λ x r, r <| tc_HelperID := x |>) v
  else if name == "connector_id" then string_field (λ x r, r <| tc_ConnectorID := x |>) v
  else if name == "connector_generation" then uint64_field (λ x r, r <| tc_ConnectorGeneration := x |>) v
  else if name == "edge_pool" then string_field (λ x r, r <| tc_EdgePool := x |>) v
  else if name == "edge_node_id" then string_field (λ x r, r <| tc_EdgeNodeID := x |>) v
  else if name == "route_binding" then string_field (λ x r, r <| tc_RouteBinding := x |>) v
  else if name == "file_transfer_policy" then pointer_field tc_FileTransferPolicy (λ x r, r <| tc_FileTransferPolicy := x |>) (store_struct policy_names policy_set) zeroPolicy v
  else if name == "account_id" then string_field (λ x r, r <| tc_AccountID := x |>) v
  else if name == "user_id" then string_field (λ x r, r <| tc_UserID := x |>) v
  else if name == "actor_id" then string_field (λ x r, r <| tc_ActorID := x |>) v
  else if name == "cli_client_session_id" then string_field (λ x r, r <| tc_CLIClientSessionID := x |>) v
  else if name == "session_id" then string_field (λ x r, r <| tc_SessionID := x |>) v
  else if name == "operation_id" then string_field (λ x r, r <| tc_OperationID := x |>) v
  else if name == "preview_id" then string_field (λ x r, r <| tc_PreviewID := x |>) v
  else if name == "owner_session_id" then string_field (λ x r, r <| tc_OwnerSessionID := x |>) v
  else if name == "idempotency_key" then string_field (λ x r, r <| tc_IdempotencyKey := x |>) v
  else if name == "request_id" then string_field (λ x r, r <| tc_RequestID := x |>) v
  else if name == "correlation_id" then string_field (λ x r, r <| tc_CorrelationID := x |>) v
  else if name == "target_scheme" then string_field (λ x r, r <| tc_TargetScheme := x |>) v
  else if name == "target_address" then string_field (λ x r, r <| tc_TargetAddress := x |>) v
  else if name == "access_mode" then string_field (λ x r, r <| tc_AccessMode := x |>) v
  else if name == "endpoint" then string_field (λ x r, r <| tc_PreviewEndpoint := x |>) v
  else if name == "lease_deadline" then int64_field (λ x r, r <| tc_LeaseDeadline := x |>) v
  else if name == "user_deadline" then pointer_field tc_UserDeadline (λ x r, r <| tc_UserDeadline := x |>) (int64_field (λ x _, x)) 0 v
  else if name == "lease_etag" then string_field (λ x r, r <| tc_LeaseETag := x |>) v
  else if name == "state" then string_field (λ x r, r <| tc_State := x |>) v
  else if name == "allocation_state" then string_field (λ x r, r <| tc_AllocationState := x |>) v
  else if name == "edge_state" then string_field (λ x r, r <| tc_EdgeState := x |>) v
  else if name == "origin_state" then string_field (λ x r, r <| tc_OriginState := x |>) v
  else if name == "created_at" then int64_field (λ x r, r <| tc_CreatedAt := x |>) v
  else if name == "last_renewed_at" then int64_field (λ x r, r <| tc_LastRenewedAt := x |>) v
  else if name == "expected_generation" then int64_field (λ x r, r <| tc_ExpectedGeneration := x |>) v
  else if name == "request_hash" then string_field (λ x r, r <| tc_RequestHash := x |>) v
  else if name == "intent_id" then string_field (λ x r, r <| tc_IntentID := x |>) v
  else if name == "endpoint_id" then string_field (λ x r, r <| tc_EndpointID := x |>) v
  else if name == "peer_endpoint_id" then string_field (λ x r, r <| tc_PeerEndpointID := x |>) v
  else if name == "attempt_generation" then uint64_field (λ x r, r <| tc_AttemptGeneration := x |>) v
  else if name == "network_generation" then uint64_field (λ x r, r <| tc_NetworkGeneration := x |>) v
  else if name == "peer_role" then string_field (λ x r, r <| tc_PeerRole := x |>) v
  else if name == "route_allocation" then string_field (λ x r, r <| tc_RouteAllocation := x |>) v
  else if name == "route_generation" then uint64_field (λ x r, r <| tc_RouteGeneration := x |>) v
  else if name == "initiator_endpoint_id" then string_field (λ x r, r <| tc_InitiatorEndpointID := x |>) v
  else if name == "responder_endpoint_id" then string_field (λ x r, r <| tc_ResponderEndpointID := x |>) v
  else if name == "relay_byte_limit" then uint64_field (λ x r, r <| tc_RelayByteLimit := x |>) v
  else if name == "relay_carriers" then strings_field tc_RelayCarriers (λ x r, r <| tc_RelayCarriers := x |>) v
  else λ _, None.

Definition decode_claims : json → option claims := decode_struct claims_names claims_set zeroClaims.

Definition invalid : error := New "credential_invalid" "credential is invalid" "request a fresh admission".
Definition unavailable : error := New "credential_invalid" "credential is unavailable" "request a fresh peer session".
Definition stale_revocations : error :=
  New "credential_invalid" "credential revocation state is unavailable" "retry after revocation synchronization".

Definition strictJSON {R} (store : json → option R) (data : bytes) : err + R :=
  Decode store (text_of data) maxSnapshotJSONDepth.

Definition decodeCredentialSegment (encoded : string) : option bytes :=
  match DecodeLenient encoded with
  | Some decoded => if EncodeToString decoded != encoded then None else Some decoded
  | None => None
  end.

(** [base64.RawURLEncoding.Strict] with the comparison that follows it. *)
Definition canonical_bytes (n : Z) (value : string) : option bytes :=
  match DecodeString value with
  | Some raw => if negb (blen raw =? n) || (EncodeToString raw != value) then None else Some raw
  | None => None
  end.

(** The loop over the expected scopes, then over the actual ones. *)
Fixpoint expect_scopes (expected : list string) (remaining : gset string) : option (gset string) :=
  match expected with
  | [] => Some remaining
  | scope :: expected =>
      if (scope == "") || bool_decide (scope ∈ remaining) then None else expect_scopes expected ({[scope]} ∪ remaining)
  end.

Fixpoint take_scopes (actual : list string) (remaining : gset string) : option (gset string) :=
  match actual with
  | [] => Some remaining
  | scope :: actual => if bool_decide (scope ∈ remaining) then take_scopes actual (remaining ∖ {[scope]}) else None
  end.

Definition exactScopes (actual expected : list string) : bool :=
  if negb (Z.of_nat (length actual) =? Z.of_nat (length expected)) then false
  else match expect_scopes expected ∅ ≫= take_scopes actual with
  | Some remaining => bool_decide (remaining = ∅)
  | None => false
  end.

Definition exactRelayCarriers (carriers : list string) : bool := bool_decide (carriers = ["relay_quic"; "relay_wss"]).

(** [time.Unix(seconds, 0)], whose seconds since the zero time wrap. *)
Definition Unix (seconds : Z) : Time := Second * i64 (seconds + 62135596800).

Record Verifier := mkVerifier {
  vf_Keys : bool;            (** [v.Keys != nil] *)
  vf_Issuer : string;
  vf_NodeID : string;
  vf_ClockSkew : Duration
}.

(** The checks of the life time that end every condition. *)
Definition lifetime_invalid (c : claims) : bool :=
  (tc_Expires c <=? tc_IssuedAt c) || (300 <? i64 (tc_Expires c - tc_IssuedAt c)).
Definition not_yet_valid (v : Verifier) (now : Time) (c : claims) : bool := After (Unix (tc_IssuedAt c)) (now + vf_ClockSkew v).
Definition expired (now : Time) (c : claims) : bool := negb (After (Unix (tc_Expires c)) now).
Definition untimely (v : Verifier) (now : Time) (c : claims) : bool :=
  lifetime_invalid c || not_yet_valid v now c || expired now c.

Definition misconfigured (v : Verifier) : bool :=
  negb (vf_Keys v) || (vf_Issuer v == "") || (vf_ClockSkew v <? 0) || (Minute <? vf_ClockSkew v).

Definition bad_size (token : string) : bool := (len token =? 0) || (maxCredentialBytes <? len token).

Definition header_valid (h : header) : bool :=
  (hd_Algorithm h == "EdDSA") && (hd_Type h == "paperboat-credential+jwt") && (hd_KeyID h != "") && (len (hd_KeyID h) <=? 128).

(** Three segments that are not empty. *)
Definition segments (token : string) : option (string * string * string) :=
  match Split token 46 with
  | [a; b; c] => if (a == "") || (b == "") || (c == "") then None else Some (a, b, c)
  | _ => None
  end.

Section Methods.
Context {S : Type} `{TrustSource S}.
Variable ed25519_Verify : bytes → bytes → bytes → bool.

(** The point at which a token is refused; [Verify] and [verifySigned] read it in the same
    order and differ in the error they return. *)
Inductive refusal := BadStructure | BadHeaderText | BadHeader | NoKey | BadSignature | BadPayload.

Definition read_signed (token : string) (s : S) : refusal + (header * claims) :=
  match segments token with
  | None => inl BadStructure
  | Some (a, b, c) =>
  match decodeCredentialSegment a with
  | None => inl BadHeaderText
  | Some headerBytes =>
  match strictJSON decode_header headerBytes with
  | inl _ => inl BadHeader
  | inr h =>
  if negb (header_valid h) then inl BadHeader
  else match ts_Key (hd_KeyID h) s with
  | inl _ => inl NoKey
  | inr key =>
  if negb (blen key =? PublicKeySize) then inl NoKey
  else match decodeCredentialSegment c with
  | None => inl BadSignature
  | Some signature =>
  if negb (ed25519_Verify key (sbytes (a +:+ "." +:+ b)) signature) then inl BadSignature
  else match decodeCredentialSegment b with
  | None => inl BadPayload
  | Some payload =>
  match strictJSON decode_claims payload with
  | inl _ => inl BadPayload
  | inr parsed => inr (h, parsed)
  end end end end end end end.

Definition verifySigned (token : string) (s : S) : error + (header * claims) :=
  match read_signed token s with
  | inr r => inr r
  | inl NoKey => inl (New "credential_invalid" "credential signing key is unavailable" "retry after key synchronization")
  | inl _ => inl invalid
  end.

(** [Revocations.Revoked], when there is one. *)
Definition check_revoked (trustNow : Time) (c : Admission.Claims) (s : S) : err + bool :=
  match ts_Revocations with
  | NoRevocations => inr false
  | CheckOnly Revoked | Watching Revoked _ _ _ => Revoked trustNow c s
  end.

Definition verify_error (r : refusal) : error :=
  match r with
  | BadStructure => New "credential_malformed" "credential structure is invalid" "request a fresh admission"
  | BadHeaderText => New "credential_malformed" "credential header is malformed" "request a fresh admission"
  | BadHeader => New "credential_malformed" "credential header is invalid" "request a fresh admission"
  | NoKey => New "credential_key_unavailable" "credential signing key is unavailable" "retry after key synchronization"
  | BadSignature => New "credential_signature_invalid" "credential signature is invalid" "request a fresh admission"
  | BadPayload => New "credential_malformed" "credential payload is malformed" "request a fresh admission"
  end.

(** The claims [Verify] accepts. *)
Definition connector_claims (v : Verifier) (c : claims) : bool :=
  (tc_Issuer c == vf_Issuer v) && (tc_Audience c == "paperboat-edge") && (tc_Subject c != "") && (tc_JTI c != "")
  && (tc_CredentialClass c == "connector_admission") && bool_decide (sl_items (tc_Scope c) = ["connector:admit"])
  && (tc_EnvironmentID c != "") && (tc_MachineID c != "") && (1 <=? tc_InstallationGeneration c) && (tc_ConnectorID c != "")
  && negb (tc_ConnectorGeneration c =? 0) && (tc_EdgePool c != "") && (tc_EdgeNodeID c != "")
  && nonnil (canonical_bytes 32 (tc_RouteBinding c)) && validFileTransferPolicy (tc_FileTransferPolicy c)
  && negb (lifetime_invalid c).

Definition Verify (v : Verifier) (token : string) (now trustNow : Time) (s : S) : error + Admission.Claims :=
  if misconfigured v
  then inl (New "service_unavailable" "credential verifier is unavailable" "retry after edge recovery")
  else if bad_size token then inl (New "credential_malformed" "credential size is invalid" "request a fresh admission")
  else match read_signed token s with
  | inl r => inl (verify_error r)
  | inr (h, c) =>
  if negb (connector_claims v c)
  then inl (New "credential_binding_invalid" "credential claims are invalid" "request a fresh admission")
  else if not_yet_valid v now c
  then inl (New "credential_not_yet_valid" "credential is not yet valid" "synchronize clocks and request a fresh admission")
  else if expired now c then inl (New "credential_expired" "credential is expired" "request a fresh admission")
  else
    let result := Admission.mkClaims (hd_KeyID h) (tc_Issuer c) (tc_Audience c) (tc_JTI c) (tc_CredentialClass c)
                    (sl_items (tc_Scope c)) (tc_EnvironmentID c) (tc_MachineID c) (tc_InstallationGeneration c) ""
                    (tc_ConnectorID c) (tc_ConnectorGeneration c) (tc_EdgePool c) (tc_EdgeNodeID c) (tc_RouteBinding c)
                    (Unix (tc_Expires c)) false in
    match check_revoked trustNow result s with
    | inl _ => inl (New "credential_revocation_unavailable" "credential revocation state is unavailable"
                      "retry after revocation synchronization")
    | inr revoked => inr (if revoked then result <| Admission.cl_Revoked := true |> else result)
    end
  end.

(** The claims under which a peer credential is looked up. *)
Definition peer_claims (h : header) (c : claims) : Admission.Claims :=
  Admission.mkClaims (hd_KeyID h) "" "" (tc_JTI c) (tc_CredentialClass c) [] (tc_EnvironmentID c) "" 0 "" "" 0 "" "" ""
    (Unix (tc_Expires c)) false.

Definition peer_revoked (trustNow : Time) (h : header) (c : claims) (s : S) : bool :=
  match check_revoked trustNow (peer_claims h c) s with inl _ => true | inr revoked => revoked end.

(** ** Peer signaling *)

Definition signaling_claims (v : Verifier) (c : claims) : bool :=
  (tc_Issuer c == vf_Issuer v) && (tc_Audience c == "paperboat-edge") && (tc_Subject c == tc_EndpointID c) && (tc_JTI c != "")
  && (tc_CredentialClass c == "peer_signaling") && exactScopes (sl_items (tc_Scope c)) ["peer:signal"]
  && (tc_EnvironmentID c != "") && (tc_EdgeNodeID c != "") && (tc_IntentID c != "") && (tc_EndpointID c != "")
  && (tc_PeerEndpointID c != "") && (tc_EndpointID c != tc_PeerEndpointID c) && negb (tc_AttemptGeneration c =? 0)
  && negb (tc_NetworkGeneration c =? 0)
  && ((tc_PeerRole c == SignalProtocol.RoleControlling) || (tc_PeerRole c == SignalProtocol.RoleControlled)).

Definition signaling_admission (c : claims) : Signaling.Admission :=
  Signaling.mkAdmission (tc_JTI c) (tc_EnvironmentID c) (tc_EdgeNodeID c) (tc_IntentID c) (tc_EndpointID c) (tc_PeerEndpointID c)
    (tc_AttemptGeneration c) (tc_NetworkGeneration c) (tc_PeerRole c) (Unix (tc_Expires c)).

(** The admission, and the watcher that [Revoked] and [Release] are of. *)
Definition Authenticate (v : Verifier) (token : string) (now trustNow : Time) (s : S)
    : (error + (Signaling.Admission * option nat)) * S :=
  if misconfigured v || bad_size token then (inl invalid, s)
  else match verifySigned token s with
  | inl e => (inl e, s)
  | inr (h, c) =>
  if negb (signaling_claims v c) || untimely v now c then (inl invalid, s)
  else match ts_Revocations with
  | Watching _ Watch release closed =>
      match Watch trustNow (peer_claims h c) s with
      | (inl _, s) => (inl stale_revocations, s)
      | (inr id, s) => if closed id s then (inl unavailable, release id s) else (inr (signaling_admission c, Some id), s)
      end
  | _ => if peer_revoked trustNow h c s then (inl unavailable, s) else (inr (signaling_admission c, None), s)
  end end.

(** ** Relayed peers and path-MTU probes *)

(** [peerrelayhttp.Attachment]. *)
Record Attachment := mkAttachment { at_StreamHandle : bytes; at_EndpointID : string; at_Role : Z; at_Carrier : Z }.

(** What the two relay classes have in common. *)
Definition relay_claims (v : Verifier) (class scope : string) (c : claims) : bool :=
  nonnil (canonical_bytes 16 (tc_RouteAllocation c))
  && (tc_Issuer c == vf_Issuer v) && (tc_Audience c == "paperboat-edge") && (tc_Subject c == tc_IntentID c) && (tc_JTI c != "")
  && (tc_CredentialClass c == class) && exactScopes (sl_items (tc_Scope c)) [scope]
  && (tc_EnvironmentID c != "") && (tc_EdgeNodeID c == vf_NodeID v) && (tc_IntentID c != "")
  && (tc_InitiatorEndpointID c != "") && (tc_ResponderEndpointID c != "") && (tc_InitiatorEndpointID c != tc_ResponderEndpointID c)
  && negb (tc_AttemptGeneration c =? 0) && negb (tc_NetworkGeneration c =? 0) && negb (tc_RouteGeneration c =? 0).

Definition valid_endpoint (a : Attachment) (c : claims) : bool :=
  (at_Role a =? Relay.RoleInitiator) && (at_EndpointID a == tc_InitiatorEndpointID c)
  || (at_Role a =? Relay.RoleHost) && (at_EndpointID a == tc_ResponderEndpointID c).

Definition relay_admission (a : Attachment) (c : claims) : Relay.Admission :=
  Relay.mkAdmission
    (Relay.mkBinding (default [] (canonical_bytes 16 (tc_RouteAllocation c))) (at_StreamHandle a) (tc_EnvironmentID c)
       ("peer_" +:+ tc_RouteAllocation c) (tc_RouteGeneration c) (tc_IntentID c) (tc_AttemptGeneration c) (tc_NetworkGeneration c)
       (Unix (tc_Expires c)) (tc_RelayByteLimit c))
    (at_Role a) (at_Carrier a).

Definition AuthenticateRelay (v : Verifier) (token : string) (a : Attachment) (now trustNow : Time) (s : S)
    : error + Relay.Admission :=
  if misconfigured v || (vf_NodeID v == "") || bad_size token || (at_StreamHandle a == Relay.zero16)
     || negb ((at_Carrier a =? Relay.CarrierQUIC) || (at_Carrier a =? Relay.CarrierWSS))
  then inl invalid
  else match verifySigned token s with
  | inl e => inl e
  | inr (h, c) =>
      if negb (relay_claims v "peer_relay" "peer:relay" c) || (tc_RelayByteLimit c =? 0) || (2 ^ 40 <? tc_RelayByteLimit c)
         || negb (exactRelayCarriers (sl_items (tc_RelayCarriers c))) || untimely v now c
      then inl invalid
      else if negb (valid_endpoint a c) then inl invalid
      else if peer_revoked trustNow h c s then inl unavailable
      else inr (relay_admission a c)
  end.

Definition AuthenticatePMTU (v : Verifier) (token : string) (now trustNow : Time) (s : S) : option error :=
  if misconfigured v || (vf_NodeID v == "") || bad_size token then Some invalid
  else match verifySigned token s with
  | inl e => Some e
  | inr (h, c) =>
      if negb (relay_claims v "peer_pmtu" "peer:pmtu" c) || negb (bool_decide (sl_items (tc_RelayCarriers c) = []))
         || untimely v now c
      then Some invalid
      else if peer_revoked trustNow h c s then Some unavailable
      else None
  end.

(** ** Access to a helper *)

Definition wanted_scopes (class : string) : option (list string) :=
  if class == "terminal_operation" then Some ["terminal:operate"]
  else if class == "file_transfer" then Some ["file:transfer"]
  else if class == "codex_connect" then Some ["codex:connect"]
  else if class == "codex_manage" then Some ["codex:prepare"; "codex:browse"; "codex:renew"; "codex:stop"]
  else if class == "preview_launch" then Some ["preview:launch"]
  else None.

Definition helper_claims (v : Verifier) (scopes : list string) (c : claims) : bool :=
  let class := tc_CredentialClass c in
  let codex := (class == "codex_connect") || (class == "codex_manage") in
  (tc_Issuer c == vf_Issuer v) && (tc_Audience c == "paperboat-machine") && (tc_Subject c != "") && (tc_JTI c != "")
  && exactScopes (sl_items (tc_Scope c)) scopes && (tc_EnvironmentID c != "") && (tc_MachineID c != "")
  && negb ((class == "file_transfer") && (tc_SourceMachineID c == ""))
  && negb ((class == "terminal_operation") && (tc_SessionID c == ""))
  && negb (codex && ((tc_SessionID c == "") || (tc_InstallationGeneration c <? 1) || (tc_ConnectorID c == "")
                     || (tc_ConnectorGeneration c <? 1) || (tc_EdgePool c == "") || (tc_EdgeNodeID c == "")))
  && (tc_UserID c != "") && negb ((class != "preview_launch") && (tc_CLIClientSessionID c == "")).

Definition VerifyHelperAccess (v : Verifier) (token : string) (now trustNow : Time) (s : S) : error + Admission.Claims :=
  if misconfigured v || bad_size token then inl invalid
  else match verifySigned token s with
  | inl e => inl e
  | inr (h, c) =>
  match wanted_scopes (tc_CredentialClass c) with
  | None => inl invalid
  | Some scopes =>
  if negb (helper_claims v scopes c) || untimely v now c then inl invalid
  else
    let result := Admission.mkClaims (hd_KeyID h) (tc_Issuer c) (tc_Audience c) (tc_JTI c) (tc_CredentialClass c)
                    (sl_items (tc_Scope c)) (tc_EnvironmentID c) (tc_MachineID c) 0 (tc_HelperID c) "" (tc_ConnectorGeneration c)
                    "" "" "" (Unix (tc_Expires c)) false in
    match check_revoked trustNow result s with
    | inl _ => inl stale_revocations
    | inr revoked => inr (result <| Admission.cl_Revoked := revoked |>)
    end
  end end.

End Methods.
End Verifier.
