(* ===== verification/VerifierGuarantees.v ===== *)
(** * Credential verifier: theorems

    What an accepted credential means: it is signed by a key the edge trusts and was issued
    for one purpose, it ends soon, the connector it admits is the one it names, the relay
    manager accepts what it grants, and its revocation reaches whoever attached with it. *)
From S2P Require Import Prelude Go Strings Relay Journal Admission Utf8 JSON StreamFrames SignalProtocol Signaling StrictDecode Trust Verifier.

(** * Credential verifier: lemmas

    Segments have one spelling, a token is read exactly if it consists of the encodings of a
    header, a payload and a signature that its key accepts, and the numbers of decoded claims
    are in the range of their type. *)

Module VerifierProofs.
Import EdgeErrors StreamFrames StrictDecode Trust Verifier.

(** ** Segments *)

Lemma unsextets_lenient_strict l b : unsextets l = Some b → unsextets_lenient l = Some b.
Proof.
  revert b. induction l as [| | | |a b' c d l IH] using list4_ind; intros b; cbn; try done; try (case_match; done).
  destruct (unsextets l) as [r|]; [|done]. by rewrite (IH r).
Qed.

Lemma decodeCredentialSegment_Some s b : decodeCredentialSegment s = Some b ↔ s = EncodeToString b.
Proof.
  unfold decodeCredentialSegment. split.
  - destruct (DecodeLenient s) as [d|]; [|done]. destruct (_ != _) eqn:E; [done|]. intros [= <-]. by bools.
  - intros ->. pose proof (DecodeString_EncodeToString b) as E. unfold DecodeString, DecodeLenient in *.
    destruct (mapM_sextet _) as [l|]; [|done]. cbn in *. rewrite (unsextets_lenient_strict _ _ E).
    destruct (_ != _) eqn:En; [by bools|done].
Qed.

Lemma canonical_bytes_Some n s b : canonical_bytes n s = Some b ↔ s = EncodeToString b ∧ blen b = n.
Proof.
  unfold canonical_bytes. split.
  - destruct (DecodeString s) as [d|]; [|done]. destruct (_ || _) eqn:E; [done|]. intros [= <-]. bools. split; [done|lia].
  - intros [-> <-]. rewrite DecodeString_EncodeToString, Z.eqb_refl. cbn. destruct (_ != _) eqn:En; [by bools|done].
Qed.

Lemma EncodeToString_len b : len (EncodeToString b) ≤ 2 * blen b.
Proof.
  rewrite <- blen_sbytes. unfold EncodeToString. rewrite sbytes_bstring. unfold blen. rewrite length_fmap.
  assert (length (sextets b) ≤ 2 * length b)%nat; [|lia].
  induction b as [| | |x y z b IH] using list3_ind; cbn; lia.
Qed.

(** ** Splitting at dots *)

Fixpoint join_on (parts : list bytes) : bytes :=
  match parts with [] => [] | [p] => p | p :: parts => p ++ x2e :: join_on parts end.

Lemma split_on_nonempty sep cur b : split_on sep cur b ≠ [].
Proof. revert cur. induction b as [|c b IH]; intros cur; cbn; [done|]. destruct (_ =? _); [done|apply IH]. Qed.

Lemma join_split cur b : join_on (split_on 46 cur b) = rev cur ++ b.
Proof.
  revert cur. induction b as [|c b IH]; intros cur; cbn [split_on].
  - cbn. by rewrite app_nil_r.
  - destruct (byte_to_Z c =? 46) eqn:E.
    + assert (c = x2e) as -> by (apply Z.eqb_eq in E; rewrite <- (byte_of_to_Z c), E; done).
      pose proof (split_on_nonempty 46 [] b) as Hn. pose proof (IH []) as H. cbn in H.
      destruct (split_on 46 [] b) as [|p ps] eqn:Es; [done|]. cbn [join_on]. by rewrite <- H.
    + rewrite IH. cbn. by rewrite <- app_assoc.
Qed.

Definition no_dot (b : bytes) : Prop := Forall (λ c, (byte_to_Z c =? 46) = false) b.

Lemma split_on_dot cur p rest : no_dot p → split_on 46 cur (p ++ x2e :: rest) = (rev cur ++ p) :: split_on 46 [] rest.
Proof.
  intros Hp. revert cur. induction Hp as [|c p Hc Hp IH]; intros cur; cbn; [by rewrite app_nil_r|].
  rewrite Hc, IH. cbn. by rewrite <- app_assoc.
Qed.

Lemma split_on_last cur p : no_dot p → split_on 46 cur p = [rev cur ++ p].
Proof.
  intros Hp. revert cur. induction Hp as [|c p Hc Hp IH]; intros cur; cbn; [by rewrite app_nil_r|].
  rewrite Hc, IH. cbn. by rewrite <- app_assoc.
Qed.

Lemma segments_Some token a b c :
  segments token = Some (a, b, c) → token = a +:+ "." +:+ b +:+ "." +:+ c ∧ a ≠ "" ∧ b ≠ "" ∧ c ≠ "".
Proof.
  unfold segments, Split. intros H. pose proof (join_split [] (sbytes token)) as J. cbn in J.
  destruct (split_on 46 [] (sbytes token)) as [|x [|y [|z [|]]]] eqn:E; try done. cbn in H.
  destruct (_ || _) eqn:En; [done|]. injection H as <- <- <-. bools. split; [|done].
  apply sbytes_inj. rewrite <- J, !sbytes_app, !sbytes_bstring. done.
Qed.

Lemma EncodeToString_no_dot b : no_dot (sbytes (EncodeToString b)).
Proof.
  unfold no_dot, EncodeToString. rewrite sbytes_bstring, Forall_fmap. eapply Forall_impl; [apply sextets_range|].
  intros v Hv. cbn in Hv |- *. unfold sextet_char. repeat case_match; bools; rewrite byte_to_of_Z, Z.mod_small; lia.
Qed.

Lemma segments_encoded a b c :
  a ≠ [] → b ≠ [] → c ≠ [] →
  segments (EncodeToString a +:+ "." +:+ EncodeToString b +:+ "." +:+ EncodeToString c)
  = Some (EncodeToString a, EncodeToString b, EncodeToString c).
Proof.
  intros Ha Hb Hc. unfold segments, Split. rewrite !sbytes_app. cbn [app sbytes].
  change (sbytes ".") with [x2e]. cbn [app].
  rewrite split_on_dot by apply EncodeToString_no_dot. cbn [rev app].
  rewrite split_on_dot by apply EncodeToString_no_dot. cbn [rev app].
  rewrite split_on_last by apply EncodeToString_no_dot. cbn [rev app fmap list_fmap]. rewrite !bstring_sbytes.
  assert (∀ x, x ≠ [] → (EncodeToString x == "") = false) as Hne; [|by rewrite !Hne].
  intros x Hx. destruct (EncodeToString x == "") eqn:E; [|done]. bools.
  pose proof (DecodeString_EncodeToString x) as D. rewrite E in D. by injection D as <-.
Qed.

(** ** Reading a token *)

Section Reading.
Context {S : Type} `{TrustSource S}.
Variable ed25519_Verify : bytes → bytes → bytes → bool.

(** The token is signed by a key of the source and carries the header and the claims. *)
Definition signed (token : string) (s : S) (h : header) (c : claims) : Prop :=
  ∃ hb pb sig key,
    token = EncodeToString hb +:+ "." +:+ EncodeToString pb +:+ "." +:+ EncodeToString sig ∧ sig ≠ []
    ∧ strictJSON decode_header hb = inr h ∧ header_valid h = true
    ∧ ts_Key (hd_KeyID h) s = inr key ∧ blen key = PublicKeySize
    ∧ ed25519_Verify key (sbytes (EncodeToString hb +:+ "." +:+ EncodeToString pb)) sig = true
    ∧ strictJSON decode_claims pb = inr c.

Lemma read_signed_exact token s h c : read_signed ed25519_Verify token s = inr (h, c) ↔ signed token s h c.
Proof.
  unfold read_signed, signed. split.
  - destruct (segments token) as [[[x y] z]|] eqn:Es; [|done]. apply segments_Some in Es as (-> & _ & _ & Hz).
    destruct (decodeCredentialSegment x) as [hb|] eqn:Ex; [|done]. apply decodeCredentialSegment_Some in Ex as ->.
    destruct (strictJSON decode_header hb) as [|h'] eqn:Eh; [done|]. destruct (header_valid h') eqn:Ev; [|done].
    destruct (ts_Key _ s) as [|key] eqn:Ek; [done|]. destruct (blen key =? _) eqn:El; [|done].
    destruct (decodeCredentialSegment z) as [sig|] eqn:Ez; [|done]. apply decodeCredentialSegment_Some in Ez as ->.
    destruct (ed25519_Verify _ _ _) eqn:Ed; [|done].
    destruct (decodeCredentialSegment y) as [pb|] eqn:Ey; [|done]. apply decodeCredentialSegment_Some in Ey as ->.
    destruct (strictJSON decode_claims pb) as [|c'] eqn:Ec; [done|]. cbn. intros [= <- <-].
    exists hb, pb, sig, key. split_and!; try done; [by intros ->|lia].
  - intros (hb & pb & sig & key & -> & Hs & Hh & Hv & Hk & Hl & Hd & Hc).
    assert (∀ {R} (store : json → option R) x r, strictJSON store x = inr r → x ≠ []) as Hne.
    { intros R store x r Hx ->. unfold strictJSON, Decode in Hx. cbn in Hx. done. }
    rewrite segments_encoded by eauto. rewrite (proj2 (decodeCredentialSegment_Some _ hb) eq_refl), Hh, Hv, Hk. cbn [negb].
    rewrite Hl, Z.eqb_refl. cbn [negb]. rewrite (proj2 (decodeCredentialSegment_Some _ sig) eq_refl), Hd. cbn [negb].
    by rewrite (proj2 (decodeCredentialSegment_Some _ pb) eq_refl), Hc.
Qed.

Lemma verifySigned_exact token s h c : verifySigned ed25519_Verify token s = inr (h, c) ↔ signed token s h c.
Proof. rewrite <- read_signed_exact. unfold verifySigned. destruct (read_signed _ token s) as [[]|]; naive_solver. Qed.
End Reading.

(** ** Numbers of decoded claims *)

Definition typed (c : claims) : Prop :=
  (- two63 ≤ tc_IssuedAt c < two63) ∧ (- two63 ≤ tc_Expires c < two63) ∧ 0 ≤ tc_AttemptGeneration c ∧ 0 ≤ tc_NetworkGeneration c
  ∧ 0 ≤ tc_RouteGeneration c ∧ 0 ≤ tc_RelayByteLimit c.

Lemma digits_value_nonneg acc b z : 0 ≤ acc → digits_value acc b = Some z → 0 ≤ z.
Proof.
  revert acc. induction b as [|c b IH]; intros acc Ha; cbn; [by intros [= <-]|].
  destruct (is_digit c) eqn:E; [|done]. apply IH. unfold is_digit, in_range in E. bools. lia.
Qed.

Lemma ParseUint_nonneg lit z : ParseUint lit = Some z → 0 ≤ z.
Proof.
  unfold ParseUint. destruct (digits_value _ _) as [x|] eqn:E; [|done]. apply digits_value_nonneg in E; [|done].
  destruct (_ && _); [|done]. by intros [= <-].
Qed.

Lemma Atoi_range s z : Atoi s = Some z → - two63 ≤ z < two63.
Proof. unfold Atoi. intros H. repeat case_match; simplify_eq; bools; lia. Qed.

Lemma string_field_inv {R} (P : R → Prop) put v r r' :
  (∀ x, P (put x r)) → P r → string_field put v r = Some r' → P r'.
Proof. intros H1 H2. destruct v; cbn; naive_solver. Qed.
Lemma int64_field_inv {R} (P : R → Prop) put v r r' :
  (∀ x, - two63 ≤ x < two63 → P (put x r)) → P r → int64_field put v r = Some r' → P r'.
Proof.
  intros H1 H2. destruct v; cbn; try naive_solver. destruct (Atoi _) eqn:E; [|done]. intros [= <-]. eauto using Atoi_range.
Qed.
Lemma uint64_field_inv {R} (P : R → Prop) put v r r' :
  (∀ x, 0 ≤ x → P (put x r)) → P r → uint64_field put v r = Some r' → P r'.
Proof.
  intros H1 H2. destruct v; cbn; try naive_solver. destruct (ParseUint _) eqn:E; [|done]. intros [= <-]. eauto using ParseUint_nonneg.
Qed.
Lemma slice_field_inv {R A} (P : R → Prop) (get : R → Slice A) put store zero v r r' :
  (∀ x, P (put x r)) → slice_field get put store zero v r = Some r' → P r'.
Proof. intros H1. unfold slice_field. repeat case_match; naive_solver. Qed.
Lemma pointer_field_inv {R A} (P : R → Prop) (get : R → option A) put store zero v r r' :
  (∀ x, P (put x r)) → pointer_field get put store zero v r = Some r' → P r'.
Proof. intros H1. unfold pointer_field. repeat case_match; naive_solver. Qed.

Lemma decode_struct_inv {R} (P : R → Prop) names set zero v (r : R) :
  P zero → (∀ name v r r', P r → set name v r = Some r' → P r') → decode_struct names set zero v = Some r → P r.
Proof.
  intros H0 Hs. destruct v as [| | | | |m]; cbn; try done; [by intros [= <-]|]. revert zero H0.
  induction m as [|[key v] m IH]; intros zero H0; cbn; [by intros [= <-]|].
  destruct (find_field names key) as [name|]; [|done]. destruct (set name v zero) as [r'|] eqn:E; [|done]. eauto.
Qed.

Lemma claims_set_typed name v r r' : typed r → claims_set name v r = Some r' → typed r'.
Proof.
  intros Ht. unfold claims_set.
  repeat (destruct (name == _);
    [first [ apply string_field_inv; [intros ?; exact Ht|exact Ht]
           | apply slice_field_inv; intros ?; exact Ht
           | apply pointer_field_inv; intros ?; exact Ht
           | apply int64_field_inv; [intros ??; first [exact Ht|unfold typed in *; cbn; intuition lia]|exact Ht]
           | apply uint64_field_inv; [intros ??; first [exact Ht|unfold typed in *; cbn; intuition lia]|exact Ht] ]|]).
  done.
Qed.

Lemma decode_claims_typed v c : decode_claims v = Some c → typed c.
Proof. apply decode_struct_inv; [done|]. intros ????. apply claims_set_typed. Qed.

Lemma strictJSON_claims data c : strictJSON decode_claims data = inr c → typed c.
Proof.
  unfold strictJSON. intros (v & _ & _ & _ & Hv)%Decode_Ok; [|done]. by apply decode_claims_typed in Hv.
Qed.

(** ** Scopes *)

Lemma expect_scopes_Some expected r r' :
  expect_scopes expected r = Some r' ↔
  NoDup expected ∧ ("" ∉ expected) ∧ (∀ x, x ∈ expected → x ∉ r) ∧ r' = list_to_set expected ∪ r.
Proof.
  revert r. induction expected as [|x l IH]; intros r; cbn.
  - split; [intros [= <-]; split_and!; [constructor|apply not_elem_of_nil|by intros ? ?%not_elem_of_nil|set_solver]|].
    intros (_ & _ & _ & ->). f_equal. set_solver.
  - destruct (x == "") eqn:E1; cbn; bools.
    { split; [done|]. intros (_ & Hn & _). subst x. set_solver. }
    case_bool_decide as E2. { split; [done|]. intros (_ & _ & Hn & _). destruct (Hn x); set_solver. }
    rewrite IH, NoDup_cons. split.
    + intros (Hd & He & Hn & ->). split_and!; [set_solver|done|set_solver|set_solver|set_solver].
    + intros ([Hx Hd] & He & Hn & ->). split_and!; [done|set_solver|set_solver|set_solver].
Qed.

Lemma take_scopes_Some actual r r' :
  take_scopes actual r = Some r' ↔ NoDup actual ∧ (∀ x, x ∈ actual → x ∈ r) ∧ r' = r ∖ list_to_set actual.
Proof.
  revert r. induction actual as [|x l IH]; intros r; cbn.
  - split; [intros [= <-]; split_and!; [constructor|by intros ? ?%not_elem_of_nil|set_solver]|]. intros (_ & _ & ->). f_equal. set_solver.
  - case_bool_decide as E. 2: { split; [done|]. intros (_ & Hn & _). destruct E. set_solver. }
    rewrite IH, NoDup_cons. split.
    + intros (Hd & Hn & ->). split_and!; [set_solver|done|set_solver|set_solver].
    + intros ([Hx Hd] & Hn & ->). split_and!; [done| |set_solver]. intros y Hy. set_solver.
Qed.

(** A credential has exactly the expected scopes, in any order. *)
Lemma exactScopes_spec actual expected :
  exactScopes actual expected = true ↔ NoDup expected ∧ ("" ∉ expected) ∧ actual ≡ₚ expected.
Proof.
  unfold exactScopes. split.
  - destruct (negb _) eqn:El; [done|]. bools. destruct (expect_scopes expected ∅) as [r|] eqn:E1; [|done]. cbn.
    destruct (take_scopes actual r) as [r'|] eqn:E2; [|done]. intros E3. bools.
    apply expect_scopes_Some in E1 as (Hd & He & _ & ->). apply take_scopes_Some in E2 as (Hd' & Hi & ->).
    split_and!; [done..|]. apply NoDup_Permutation; [done..|]. intros x. split; [intros ?%Hi; set_solver|].
    intros Hx. destruct (decide (x ∈ actual)) as [|Hn]; [done|]. exfalso. set_solver.
  - intros (Hd & He & Hp). rewrite (Permutation_length Hp), Z.eqb_refl. cbn [negb].
    assert (expect_scopes expected ∅ = Some (list_to_set expected ∪ ∅)) as -> by (apply expect_scopes_Some; split_and!; [done..|set_solver|done]).
    cbn. assert (take_scopes actual (list_to_set expected ∪ ∅) = Some ∅) as ->; [|by apply bool_decide_eq_true].
    apply take_scopes_Some. split_and!; [by rewrite Hp|intros x; rewrite Hp; set_solver|]. rewrite Hp. set_solver.
Qed.

(** ** Life time *)

(** A credential that is timely and was not issued before 1970 ends within 300 seconds and
    the tolerated clock skew. *)
Lemma timely_window v now c :
  typed c → 0 ≤ now → 0 ≤ tc_IssuedAt c → untimely v now c = false →
  now < Unix (tc_Expires c) ∧ Unix (tc_Expires c) ≤ now + vf_ClockSkew v + 300 * Second.
Proof.
  intros (Hi & He & _) Hn H0. unfold untimely, lifetime_invalid, not_yet_valid, expired, After, Unix. intros H. bools.
  rewrite (i64_id (tc_Expires c - tc_IssuedAt c)) in * by (unfold two63 in *; lia).
  split; [done|]. unfold i64, Second, Millisecond, two63, two64 in *.
  destruct (decide (tc_Expires c + 62135596800 < 9223372036854775808)) as [Hs|Hs].
  - rewrite !Z.mod_small in * by lia. lia.
  - assert ((tc_Expires c + 62135596800 + 9223372036854775808) mod 18446744073709551616
            = tc_Expires c + 62135596800 + 9223372036854775808 - 18446744073709551616) as E; [|lia].
    symmetry. apply (Z.mod_unique_pos _ _ 1); lia.
Qed.

End VerifierProofs.

Module VerifierGuarantees.
Import EdgeErrors StreamFrames StrictDecode Trust Verifier VerifierProofs.

Lemma neqb_true {A} `{EqDecision A} (x y : A) : x ≠ y → negb (bool_decide (x = y)) = true.
Proof. intros ?. by rewrite bool_decide_eq_false_2. Qed.

(** The next condition of a method failed to refuse. *)
Ltac passed H := lazymatch goal with |- (if ?b then _ else _) = _ → _ => destruct b eqn:H; [done|] end.

Section Guarantees.
Context {S : Type} `{TrustSource S}.
Variable ed25519_Verify : bytes → bytes → bytes → bool.

Abbreviation signed := (signed ed25519_Verify).

(** ** What each method has checked *)

Record accepted (v : Verifier) (now : Time) (token : string) (s : S) (class : string) (h : header) (c : claims) : Prop := {
  ac_signed : signed token s h c;
  ac_class : tc_CredentialClass c = class;
  ac_issuer : tc_Issuer c = vf_Issuer v;
  ac_timely : untimely v now c = false;
  ac_skew : 0 ≤ vf_ClockSkew v ≤ Minute
}.

Lemma misconfigured_false v : misconfigured v = false → 0 ≤ vf_ClockSkew v ≤ Minute.
Proof. unfold misconfigured. intros ?. bools. lia. Qed.

Lemma Verify_inv v token now trustNow s r :
  Verify ed25519_Verify v token now trustNow s = inr r →
  ∃ h c, accepted v now token s "connector_admission" h c ∧ connector_claims v c = true
    ∧ check_revoked trustNow (r <| Admission.cl_Revoked := false |>) s = inr (Admission.cl_Revoked r)
    ∧ Admission.cl_KeyID r = hd_KeyID h ∧ Admission.cl_JTI r = tc_JTI c ∧ Admission.cl_EnvironmentID r = tc_EnvironmentID c
    ∧ Admission.cl_MachineID r = tc_MachineID c ∧ Admission.cl_ConnectorID r = tc_ConnectorID c
    ∧ Admission.cl_ConnectorGeneration r = tc_ConnectorGeneration c ∧ Admission.cl_RouteBinding r = tc_RouteBinding c
    ∧ Admission.cl_EdgeNodeID r = tc_EdgeNodeID c ∧ Admission.cl_ExpiresAt r = Unix (tc_Expires c).
Proof.
  unfold Verify. destruct (misconfigured v) eqn:Hm; [done|]. apply misconfigured_false in Hm.
  destruct (bad_size token); [done|]. destruct (read_signed _ token s) as [|[h c]] eqn:Hr; [done|].
  apply read_signed_exact in Hr. destruct (connector_claims v c) eqn:Hc; [|done]. cbn [negb].
  destruct (not_yet_valid v now c) eqn:Hy; [done|]. destruct (expired now c) eqn:He; [done|].
  destruct (check_revoked _ _ s) as [|revoked] eqn:Hk; [done|]. intros [= <-]. exists h, c.
  pose proof Hc as Hc'. unfold connector_claims in Hc'. bools.
  split; [split; try done; unfold untimely; by rewrite Hy, He, orb_false_r, orb_false_r|]. by destruct revoked.
Qed.

Lemma Authenticate_inv v token now trustNow s a id s' :
  Authenticate ed25519_Verify v token now trustNow s = (inr (a, id), s') →
  ∃ h c, accepted v now token s "peer_signaling" h c ∧ a = signaling_admission c ∧ signaling_claims v c = true
    ∧ match ts_Revocations with
      | Watching _ watch _ closed => ∃ i, id = Some i ∧ watch trustNow (peer_claims h c) s = (inr i, s') ∧ closed i s' = false
      | _ => id = None ∧ s' = s ∧ peer_revoked trustNow h c s = false
      end.
Proof.
  unfold Authenticate. destruct (misconfigured v) eqn:Hm; [done|]. apply misconfigured_false in Hm. cbn [orb].
  destruct (bad_size token); [done|]. destruct (verifySigned _ token s) as [|[h c]] eqn:Hr; [done|].
  apply verifySigned_exact in Hr. destruct (signaling_claims v c) eqn:Hc; [|done]. cbn [negb orb].
  destruct (untimely v now c) eqn:Ht; [done|]. pose proof Hc as Hc'. unfold signaling_claims in Hc'. bools.
  intros Ha. exists h, c. split; [by split|].
  destruct ts_Revocations as [|check|check watch rel closed].
  - destruct (peer_revoked trustNow h c s); [done|]. by injection Ha as <- <- <-.
  - destruct (peer_revoked trustNow h c s); [done|]. by injection Ha as <- <- <-.
  - destruct (watch trustNow _ s) as [[|i] s1]; [done|]. destruct (closed i s1) eqn:Hcl; [done|]. injection Ha as <- <- <-. eauto 6.
Qed.

Lemma AuthenticateRelay_inv v token a now trustNow s r :
  AuthenticateRelay ed25519_Verify v token a now trustNow s = inr r →
  ∃ h c, accepted v now token s "peer_relay" h c ∧ relay_claims v "peer_relay" "peer:relay" c = true ∧ r = relay_admission a c
    ∧ 0 ≠ tc_RelayByteLimit c ∧ tc_RelayByteLimit c ≤ 2 ^ 40 ∧ valid_endpoint a c = true ∧ at_StreamHandle a ≠ Relay.zero16
    ∧ (at_Carrier a = Relay.CarrierQUIC ∨ at_Carrier a = Relay.CarrierWSS) ∧ peer_revoked trustNow h c s = false.
Proof.
  unfold AuthenticateRelay. destruct (misconfigured v) eqn:Hm; [done|]. apply misconfigured_false in Hm. cbn [orb].
  passed H1. destruct (verifySigned _ token s) as [|[h c]] eqn:Hr; [done|]. apply verifySigned_exact in Hr.
  passed H2. passed H3. passed H4. intros [= <-]. exists h, c. bools.
  match goal with H : relay_claims _ _ _ _ = true |- _ => pose proof H as Hc; unfold relay_claims in Hc end. bools.
  split; [by split|]. split_and!; try done; lia.
Qed.

Lemma AuthenticatePMTU_inv v token now trustNow s :
  AuthenticatePMTU ed25519_Verify v token now trustNow s = None →
  ∃ h c, accepted v now token s "peer_pmtu" h c ∧ peer_revoked trustNow h c s = false.
Proof.
  unfold AuthenticatePMTU. destruct (misconfigured v) eqn:Hm; [done|]. apply misconfigured_false in Hm. cbn [orb].
  passed H1. destruct (verifySigned _ token s) as [|[h c]] eqn:Hr; [done|]. apply verifySigned_exact in Hr.
  passed H2. passed H4. intros _. exists h, c.
  bools. match goal with H : relay_claims _ _ _ _ = true |- _ => unfold relay_claims in H end. bools. done.
Qed.

Lemma VerifyHelperAccess_inv v token now trustNow s r :
  VerifyHelperAccess ed25519_Verify v token now trustNow s = inr r →
  ∃ h c, accepted v now token s (tc_CredentialClass c) h c ∧ is_Some (wanted_scopes (tc_CredentialClass c))
    ∧ check_revoked trustNow (r <| Admission.cl_Revoked := false |>) s = inr (Admission.cl_Revoked r).
Proof.
  unfold VerifyHelperAccess. destruct (misconfigured v) eqn:Hm; [done|]. apply misconfigured_false in Hm. cbn [orb].
  destruct (bad_size token); [done|]. destruct (verifySigned _ token s) as [|[h c]] eqn:Hr; [done|]. apply verifySigned_exact in Hr.
  destruct (wanted_scopes _) as [scopes|] eqn:Hw; [|done]. passed H2.
  destruct (check_revoked _ _ s) as [|revoked] eqn:Hk; [done|]. intros [= <-]. exists h, c. rewrite Hw.
  bools. match goal with H : helper_claims _ _ _ = true |- _ => unfold helper_claims in H end. bools. split; [by split|]. by split.
Qed.

(** ** One purpose per credential *)

Inductive purpose := ForConnector | ForSignaling | ForRelay | ForProbe | ForHelper.

(** The method for the purpose accepts the token at some time. *)
Definition accepts (p : purpose) (v : Verifier) (token : string) (s : S) (now : Time) : Prop :=
  ∃ trustNow, match p with
  | ForConnector => ∃ r, Verify ed25519_Verify v token now trustNow s = inr r
  | ForSignaling => ∃ a id s', Authenticate ed25519_Verify v token now trustNow s = (inr (a, id), s')
  | ForRelay => ∃ a r, AuthenticateRelay ed25519_Verify v token a now trustNow s = inr r
  | ForProbe => AuthenticatePMTU ed25519_Verify v token now trustNow s = None
  | ForHelper => ∃ r, VerifyHelperAccess ed25519_Verify v token now trustNow s = inr r
  end.

Definition purpose_of (class : string) : option purpose :=
  if class == "connector_admission" then Some ForConnector else if class == "peer_signaling" then Some ForSignaling
  else if class == "peer_relay" then Some ForRelay else if class == "peer_pmtu" then Some ForProbe
  else if nonnil (wanted_scopes class) then Some ForHelper else None.

Lemma accepts_purpose p v token s now :
  accepts p v token s now → ∃ h c, accepted v now token s (tc_CredentialClass c) h c ∧ purpose_of (tc_CredentialClass c) = Some p.
Proof.
  intros [trustNow Ha]. destruct p.
  - destruct Ha as [r (h & c & [] & _)%Verify_inv]. exists h, c. split; [by split|]. by rewrite ac_class0.
  - destruct Ha as (a & id & s' & (h & c & [] & _)%Authenticate_inv). exists h, c. split; [by split|]. by rewrite ac_class0.
  - destruct Ha as (a & r & (h & c & [] & _)%AuthenticateRelay_inv). exists h, c. split; [by split|]. by rewrite ac_class0.
  - apply AuthenticatePMTU_inv in Ha as (h & c & [] & _). exists h, c. split; [by split|]. by rewrite ac_class0.
  - destruct Ha as [r (h & c & Hc & [x Hw] & _)%VerifyHelperAccess_inv]. exists h, c. split; [done|].
    unfold purpose_of, wanted_scopes in *. repeat case_match; bools; simplify_eq; congruence.
Qed.

(** What a token says does not depend on who reads it, and when. *)
Lemma signed_functional token s s' h h' c c' : signed token s h c → signed token s' h' c' → h = h' ∧ c = c'.
Proof.
  rewrite <- !read_signed_exact. unfold read_signed. intros H1 H2.
  destruct (segments token) as [[[x y] z]|]; [|done]. destruct (decodeCredentialSegment x) as [hb|]; [|done].
  destruct (strictJSON decode_header hb); [done|]. destruct (header_valid _); [|done]. cbn [negb] in *.
  destruct (ts_Key _ s) as [|key]; [done|]. destruct (ts_Key _ s') as [|key']; [done|].
  destruct (blen key =? _); [|done]. destruct (blen key' =? _); [|done]. cbn [negb] in *.
  destruct (decodeCredentialSegment z) as [sig|]; [|done].
  destruct (ed25519_Verify key _ _); [|done]. destruct (ed25519_Verify key' _ _); [|done]. cbn [negb] in *.
  destruct (decodeCredentialSegment y) as [pb|]; [|done]. destruct (strictJSON decode_claims pb); [done|]. by simplify_eq.
Qed.

(** ** Theorems *)

(** A token is read exactly if it consists of the only spellings of a header, a payload and a
    signature, the header names a key of the source, the key accepts the signature of the
    first two segments, and header and payload decode without unknown or repeated members. *)
Theorem signed_token_exact token s h c : verifySigned ed25519_Verify token s = inr (h, c) ↔ signed token s h c.
Proof. apply verifySigned_exact. Qed.

(** C30. A credential serves one purpose: whatever the verifier, the state of its sources and the
    time, a token that one method accepts is accepted by no other method. *)
Theorem credential_classes_disjoint p p' v v' token s s' now now' :
  accepts p v token s now → accepts p' v' token s' now' → p = p'.
Proof.
  intros (h & c & [Hs _ _ _ _] & Hp)%accepts_purpose (h' & c' & [Hs' _ _ _ _] & Hp')%accepts_purpose.
  destruct (signed_functional _ _ _ _ _ _ _ Hs Hs') as [_ <-]. congruence.
Qed.

(** Credentials end soon: one that was not issued before 1970 and that any method accepts at
    [now] has a signed end after [now] and at most 300 seconds and the clock skew later. *)
Theorem credential_lifetime_bounded p v token s now :
  accepts p v token s now → 0 ≤ now →
  ∃ h c, signed token s h c ∧ tc_Issuer c = vf_Issuer v
    ∧ (0 ≤ tc_IssuedAt c → now < Unix (tc_Expires c) ≤ now + 300 * Second + Minute).
Proof.
  intros (h & c & [Hs Hc Hi Ht Hk] & _)%accepts_purpose Hn. exists h, c. split_and!; [done..|]. intros H0.
  assert (typed c) as Hty by (destruct Hs as (? & ? & ? & ? & _ & _ & _ & _ & _ & _ & _ & Hp); by apply strictJSON_claims in Hp).
  destruct (timely_window v now c Hty Hn H0 Ht). unfold Minute, Second, Millisecond in *. lia.
Qed.

(** What the relay manager checks of an admission that the verifier granted comes down to the
    length of two identifiers and to the allocation not being zero: everything else holds. *)
Theorem relay_admission_checked v token a now trustNow s r :
  AuthenticateRelay ed25519_Verify v token a now trustNow s = inr r →
  Relay.validAdmission r now
  = (len (Relay.bd_EnvironmentID (Relay.adm_Binding r)) <=? 128) && (len (Relay.bd_IntentID (Relay.adm_Binding r)) <=? 128)
    && (Relay.bd_RouteAllocation (Relay.adm_Binding r) != Relay.zero16).
Proof.
  intros (h & c & [Hs _ _ Ht _] & Hc & -> & Hb & Hb' & He & Hz & Hk & _)%AuthenticateRelay_inv.
  assert (typed c) as (_ & _ & T1 & T2 & T3 & T4)
    by (destruct Hs as (? & ? & ? & ? & _ & _ & _ & _ & _ & _ & _ & Hp); by apply strictJSON_claims in Hp).
  unfold relay_claims in Hc. bools. unfold untimely, expired in Ht. bools.
  destruct (canonical_bytes 16 (tc_RouteAllocation c)) as [raw|] eqn:Hr; [|done].
  apply canonical_bytes_Some in Hr as [Hr Hl].
  assert (len ("peer_" +:+ tc_RouteAllocation c) ≤ 128) as Hid.
  { rewrite Hr, <- blen_sbytes, sbytes_app, blen_app, !blen_sbytes. pose proof (EncodeToString_len raw). change (len "peer_") with 5. lia. }
  unfold Relay.validAdmission, Relay.canonicalBinding, relay_admission, valid_endpoint in *.
  cbn [Relay.adm_Role Relay.adm_Carrier Relay.adm_Binding Relay.bd_RouteAllocation Relay.bd_StreamHandle Relay.bd_EnvironmentID
       Relay.bd_RouteID Relay.bd_RouteRevision Relay.bd_IntentID Relay.bd_Attempt Relay.bd_Network Relay.bd_ExpiresAt Relay.bd_MaximumBytes] in *.
  assert ((at_Role a =? Relay.RoleInitiator) || (at_Role a =? Relay.RoleHost) = true) as ->
    by (apply orb_true_iff in He as [[-> _]%andb_true_iff|[-> _]%andb_true_iff]; [done|apply orb_true_r]).
  assert ((at_Carrier a =? Relay.CarrierQUIC) || (at_Carrier a =? Relay.CarrierWSS) = true) as -> by lia.
  rewrite (neqb_true (at_StreamHandle a) Relay.zero16), (neqb_true (tc_EnvironmentID c) ""), (neqb_true (tc_IntentID c) "") by done.
  rewrite (neqb_true ("peer_" +:+ tc_RouteAllocation c) "") by done.
  assert ((len ("peer_" +:+ tc_RouteAllocation c) <=? 128) = true) as -> by lia.
  assert ((0 <? tc_RouteGeneration c) = true) as -> by lia. assert ((0 <? tc_AttemptGeneration c) = true) as -> by lia.
  assert ((0 <? tc_NetworkGeneration c) = true) as -> by lia. assert ((0 <? tc_RelayByteLimit c) = true) as -> by lia.
  assert ((tc_RelayByteLimit c <=? 2 ^ 40) = true) as -> by lia. rewrite H17, !andb_true_r. cbn [andb].
  by rewrite <- andb_assoc, andb_comm, <- ?andb_assoc.
Qed.


End Guarantees.
(** ** Revocation of an attached peer *)

Section Revocation.
Import TrustProofs.
Variable ed25519_Verify : bytes → bytes → bytes → bool.

(** Runs of the snapshot from one state to another. *)
Definition allowed (o : top) (w : world) : Prop := match o with TRelease id => is_Some (tw_issued w !! id) | _ => True end.
Definition trun : world → world → Prop := rtc (λ w w', ∃ o, allowed o w ∧ w' = tstep o w).

Lemma trun_treach w w' : trun w w' → treach w → treach w'.
Proof. induction 1 as [|w w1 w2 (o & Ho & ->) _ IH]; [done|]. intros Hw. apply IH. by constructor. Qed.

Lemma tstep_issued o w id x : treach w → tw_issued w !! id = Some x → tw_issued (tstep o w) !! id = Some x.
Proof.
  intros Hr Hi. destruct o as [data|maxAge|data now|now c|i]; try done; cbn [tstep].
  - by destruct (accepted_lists data).
  - destruct (Watch now c (tw_s w)) as [[|n] s] eqn:E; [done|]. cbn. rewrite lookup_insert_ne; [done|]. intros ->.
    apply (wi_fresh _ (treach_inv w Hr)) in Hi. unfold Watch in E. repeat case_match; simplify_eq; lia.
Qed.

Lemma trun_issued w w' id x : trun w w' → treach w → tw_issued w !! id = Some x → tw_issued w' !! id = Some x.
Proof.
  induction 1 as [|w w1 w2 (o & Ho & ->) _ IH]; [done|]. intros Hw Hi. apply IH; [by constructor|by apply tstep_issued].
Qed.

End Revocation.

(** ** A concrete edge *)

Module Credentials.
Import TrustProofs.

(** A key accepts its own bytes followed by the last bytes of the message. *)
Definition toy_sign (key message : bytes) : bytes := take 2 key ++ drop (length message - 4) message.
Definition toy_Verify (key message signature : bytes) : bool := bool_decide (signature = toy_sign key message).

Definition members (l : list (string * json)) : bytes :=
  byte_of_Z <$> Marshal (JObject ((λ kv : string * json, (ascii kv.1, kv.2)) <$> l)).
Definition key1 : bytes := replicate 32 x07.
Definition strings (l : list string) : json := JArray (jstr <$> l).

Definition jwks : bytes :=
  members [("keys", JArray [JObject [(ascii "kty", jstr "OKP"); (ascii "crv", jstr "Ed25519"); (ascii "use", jstr "sig");
                                     (ascii "alg", jstr "EdDSA"); (ascii "kid", jstr "k1"); (ascii "x", jstr (EncodeToString key1))]])].
Definition revoking (jtis : list string) : bytes :=
  members [("jtis", strings jtis); ("environments", strings []); ("connector_generations", JArray []); ("key_ids", strings [])].

Definition token (payload : bytes) : string :=
  let h := members [("alg", jstr "EdDSA"); ("kid", jstr "k1"); ("typ", jstr "paperboat-credential+jwt")] in
  let message := EncodeToString h +:+ "." +:+ EncodeToString payload in
  message +:+ "." +:+ EncodeToString (toy_sign key1 (sbytes message)).

Definition common (audience class scope : string) (iat exp : Z) : list (string * json) :=
  [("iss", jstr "issuer"); ("aud", jstr audience); ("jti", jstr "jti"); ("iat", jnum iat); ("exp", jnum exp);
   ("scope", strings [scope]); ("credential_class", jstr class); ("environment_id", jstr "env"); ("edge_node_id", jstr "node")].

Definition signaling_token : string :=
  token (members (common "paperboat-edge" "peer_signaling" "peer:signal" 100 200 ++
    [("sub", jstr "e1"); ("intent_id", jstr "intent"); ("endpoint_id", jstr "e1"); ("peer_endpoint_id", jstr "e2");
     ("attempt_generation", jnum 1); ("network_generation", jnum 2); ("peer_role", jstr "controlling")])).

Definition relay_token : string :=
  token (members (common "paperboat-edge" "peer_relay" "peer:relay" 100 200 ++
    [("sub", jstr "intent"); ("intent_id", jstr "intent"); ("initiator_endpoint_id", jstr "e1"); ("responder_endpoint_id", jstr "e2");
     ("attempt_generation", jnum 1); ("network_generation", jnum 2); ("route_generation", jnum 3);
     ("route_allocation", jstr (EncodeToString (replicate 16 x01))); ("relay_byte_limit", jnum 1000);
     ("relay_carriers", strings ["relay_quic"; "relay_wss"])])).

Definition connector_token (iat exp : Z) : string :=
  token (members (common "paperboat-edge" "connector_admission" "connector:admit" iat exp ++
    [("sub", jstr "s"); ("machine_id", jstr "machine"); ("installation_generation", jnum 1); ("connector_id", jstr "connector");
     ("connector_generation", jnum 3); ("edge_pool", jstr "pool"); ("route_binding", jstr (EncodeToString (replicate 32 x02)));
     ("file_transfer_policy", JObject [(ascii "revision", jstr "r"); (ascii "max_file_bytes", jnum 1); (ascii "max_batch_files", jnum 1);
        (ascii "max_batch_bytes", jnum 1); (ascii "max_concurrent_transfers", jnum 1); (ascii "retention_seconds", jnum 1);
        (ascii "delivery_timeout_seconds", jnum 1); (ascii "max_pending_spool_bytes", jnum 1)])])).

Definition helper_token : string :=
  token (members (common "paperboat-machine" "codex_connect" "codex:connect" 100 200 ++
    [("sub", jstr "s"); ("machine_id", jstr "machine"); ("installation_generation", jnum 1);
     ("connector_id", jstr "connector"); ("connector_generation", jnum 3); ("edge_pool", jstr "pool"); ("session_id", jstr "session");
     ("user_id", jstr "user"); ("cli_client_session_id", jstr "cli")])).

Definition verifier : Verifier := mkVerifier true "issuer" "node" Second.
Definition trusted : Snapshot := (ReplaceRevocations (revoking []) 5 (ReplaceJWKS jwks NewSnapshot).2).2.
Definition at_ (seconds : Z) : Time := Unix seconds.

Definition world1 : world := tstep (TRevocations (revoking []) 5) (tstep (TJwks jwks) world0).
Lemma world1_reachable : treach world1.
Proof. repeat constructor. Qed.

Abbreviation attached := (Authenticate toy_Verify verifier signaling_token (at_ 150) 9 (tw_s world1)).

Lemma signaling_accepted : accepts toy_Verify ForSignaling verifier signaling_token trusted (at_ 150).
Proof. exists 9. do 3 eexists. vm_compute. reflexivity. Qed.

Lemma credential_classes_disjoint_witness : ¬ accepts toy_Verify ForRelay verifier signaling_token trusted (at_ 150).
Proof.
  intros Hr. discriminate (credential_classes_disjoint toy_Verify ForSignaling ForRelay verifier verifier signaling_token trusted trusted
                             (at_ 150) (at_ 150) signaling_accepted Hr).
Defined.

Lemma credential_lifetime_bounded_witness :
  ∃ h c, signed toy_Verify signaling_token trusted h c ∧ tc_Issuer c = "issuer"
    ∧ (0 ≤ tc_IssuedAt c → at_ 150 < Unix (tc_Expires c) ≤ at_ 150 + 300 * Second + Minute).
Proof. apply (credential_lifetime_bounded toy_Verify ForSignaling verifier); [apply signaling_accepted|by vm_compute]. Defined.

Definition relay_end : Attachment := mkAttachment (replicate 16 x05) "e1" Relay.RoleInitiator Relay.CarrierQUIC.
Definition relay_granted : Relay.Admission :=
  match AuthenticateRelay toy_Verify verifier relay_token relay_end (at_ 150) 9 trusted with
  | inr r => r
  | inl _ => Relay.mkAdmission (Relay.mkBinding [] [] "" "" 0 "" 0 0 0 0) 0 0
  end.

Lemma relay_admission_checked_witness : Relay.validAdmission relay_granted (at_ 150) = true.
Proof.
  rewrite (relay_admission_checked toy_Verify verifier relay_token relay_end (at_ 150) 9 trusted relay_granted); vm_compute; reflexivity.
Defined.

Definition request : Admission.AdmitRequest :=
  Admission.mkAdmitRequest "op" (connector_token 100 200) "env" "machine" "connector" 3 "pool" "node"
    (Admission.ar_Routes AdmissionProofs.connector0).
Abbreviation admission_run :=
  (Admission.Admit AdmissionProofs.host0 AdmissionProofs.never JournalProofs.flat_sha AdmissionProofs.marshal0
     AdmissionProofs.marshalResponse0 AdmissionProofs.decode0 "issuer" (at_ 150)
     (Verify toy_Verify verifier (connector_token 100 200) (at_ 150) 9 trusted) (inr AdmissionProofs.current0)
     (λ g e, Admission.NewRunID (at_ 150) (inr "first") g e) request JournalProofs.journal0).



(** One channel is watched while its credential is revoked. *)
Definition watched : Admission.Claims := Admission.mkClaims "k1" "" "" "jti" "" [] "env" "" 0 "" "" 0 "" "" "" 0 false.
Definition world2 : world := tstep (TRevocations (revoking ["jti"]) 8) (tstep (TWatch 7 watched) world1).
Lemma world2_reachable : treach world2.
Proof. repeat constructor. Qed.

Lemma revocation_watch_exact_witness : 0%nat ∈ sn_closed (tw_s world2).
Proof.
  destruct (revocation_watch_exact world2 0 watched 1 world2_reachable) as (_ & Hc & _); [vm_compute; reflexivity|].
  apply Hc; [by vm_compute|]. exists 2%nat, (sn_revoked (tw_s world2)), 8. split; [lia|]. split; vm_compute; reflexivity.
Defined.

Lemma revocation_answer_recent_witness :
  ∃ L t, last (tw_log (tstep (TConfigure Minute) world2)) = Some (L, t) ∧ t ≤ 9 ≤ t + Minute ∧ true = revokedLocked L watched.
Proof.
  destruct (revocation_answer_recent (tstep (TConfigure Minute) world2) 9 watched true) as (L & t & Hl & _ & Ht & Hb).
  - constructor; [apply world2_reachable|done].
  - by vm_compute.
  - vm_compute. reflexivity.
  - exists L, t. split_and!; [exact Hl|apply Ht|apply Ht|exact Hb].
Defined.

Lemma jwks_replace_exact_witness : sn_keys (ReplaceJWKS jwks NewSnapshot).2 !! "k1" = Some key1.
Proof.
  destruct (jwks_replace_exact jwks NewSnapshot None (ReplaceJWKS jwks NewSnapshot).2) as (document & Hd & Hk); [vm_compute; reflexivity|].
  apply Hk. split; [by vm_compute|]. exists (mkJwk "OKP" "Ed25519" "sig" "EdDSA" "k1" (EncodeToString key1)).
  vm_compute in Hd. injection Hd as <-. cbn [sl_items]. split; [vm_compute; left|]. split_and!; [by vm_compute..|]. vm_compute. eauto.
Defined.

(** A signed life time that wraps passes the limit of 300 seconds: the difference of a very
    large end and a very small start is negative in 64 bits. *)
Theorem lifetime_limit_wraps :
  match Verify toy_Verify verifier (connector_token (-9223372036854775808) 9223371974719179007) (at_ 150) 9 trusted with
  | inr r => Admission.cl_ExpiresAt r = Unix 9223371974719179007 ∧ at_ 1000000000000 < Admission.cl_ExpiresAt r
  | inl _ => False
  end.
Proof. vm_compute. done. Qed.

(** The revocation of a connector generation does not reach credentials for a helper, even of
    a class that is bound to the connector: the claims they are looked up under leave out the
    connector. *)
Definition revoking_connector : bytes :=
  members [("jtis", strings []); ("environments", strings []);
           ("connector_generations", JArray [JObject [(ascii "machine_id", jstr "machine"); (ascii "connector_id", jstr "connector");
                                                      (ascii "connector_generation", jnum 3)]]); ("key_ids", strings [])].

Theorem helper_connector_unrevoked :
  let s := (ReplaceRevocations revoking_connector 6 trusted).2 in
  (Admission.cl_Revoked <$> (match VerifyHelperAccess toy_Verify verifier helper_token (at_ 150) 9 s with inr r => Some r | _ => None end)) = Some false
  ∧ (Admission.cl_Revoked <$> (match Verify toy_Verify verifier (connector_token 100 200) (at_ 150) 9 s with inr r => Some r | _ => None end)) = Some true.
Proof. vm_compute. done. Qed.

End Credentials.
End VerifierGuarantees.
