(* ===== verification/Ingress.v ===== *)
(** * Ingress decisions

    Models [internal/connectorprotocol/ingress.go]: the binding of a public route to its
    target, the short-lived decision by which the control plane lets the edge use it, the
    check of a decision against the current authority and a stream, and the frame that
    carries a decision; and the cache of decisions of
    [internal/control/ingress_authority.go].  Whether a text is a loopback address is the
    interface [AddrLib]; JSON with times is a parameter of the frames, as in
    [StreamFrames]. *)
From S2P Require Import Prelude Go Strings Protocol Route Utf8 JSON StrictJSON StreamFrames DurableAdmission.

(** [net.ParseIP] yields a loopback address. *)
Class AddrLib := loopback : string → bool.

Module Ingress.
Import StrictJSON StreamFrames.
Import Route (TextLib, unicode_lower, RouteRule, rr_ID, rr_RouteID, rr_TunnelID, rr_AccountID, rr_ConnectorID, rr_ConnectorSessionID, rr_ConnectorProcessGeneration, rr_ConfigGeneration, rr_AssignmentGeneration, rr_RouteGeneration).

Definition IngressAuthorityLifetime : Duration := 10 * Second.
Definition IngressRefreshInterval : Duration := 5 * Second.
Definition TunnelEphemeral := "ephemeral".
Definition TunnelDurable := "durable".
Definition ErrIngressDenied : err := EPlain "connector ingress authority denied".

Record IngressBinding := mkIngressBinding {
  ib_EnvironmentID : string;
  ib_AccountID : string;
  ib_TunnelID : string;
  ib_Lifecycle : string;
  ib_ResourceGeneration : Z;
  ib_RouteID : string;
  ib_RouteGeneration : Z;
  ib_TargetID : string;
  ib_TargetGeneration : Z;
  ib_HostID : string;
  ib_InstallationGeneration : Z;
  ib_Audience : string;
  ib_ConnectionMethod : string;
  ib_Protocol : string;
  ib_Hostname : string;
  ib_PathPrefix : string;
  ib_OriginScheme : string;
  ib_OriginAddress : string;
  ib_TLSServerName : string;
  ib_TLSVerification : string;
  ib_CAReference : string;
  ib_MTLSCredentialReference : string;
  ib_PublicationID : string;
  ib_PublicationGeneration : Z;
  ib_ListenerID : string;
  ib_PublicPort : Z
}.
#[export] Instance IngressBinding_eta : Eta IngressBinding := λ r,
  mkIngressBinding (ib_EnvironmentID r) (ib_AccountID r) (ib_TunnelID r) (ib_Lifecycle r) (ib_ResourceGeneration r)
    (ib_RouteID r) (ib_RouteGeneration r) (ib_TargetID r) (ib_TargetGeneration r) (ib_HostID r) (ib_InstallationGeneration r)
    (ib_Audience r) (ib_ConnectionMethod r) (ib_Protocol r) (ib_Hostname r) (ib_PathPrefix r) (ib_OriginScheme r)
    (ib_OriginAddress r) (ib_TLSServerName r) (ib_TLSVerification r) (ib_CAReference r) (ib_MTLSCredentialReference r)
    (ib_PublicationID r) (ib_PublicationGeneration r) (ib_ListenerID r) (ib_PublicPort r).
#[export] Instance IngressBinding_eq_dec : EqDecision IngressBinding.
Proof. solve_decision. Defined.

Record IngressDecision := mkDecision {
  ig_Binding : IngressBinding;
  ig_DecisionID : string;
  ig_PolicyGeneration : Z;
  ig_EdgeNodeID : string;
  ig_EdgeProcessEpoch : string;
  ig_ConnectorID : string;
  ig_SessionID : string;
  ig_ProcessGeneration : Z;
  ig_ConfigGeneration : Z;
  ig_AssignmentGeneration : Z;
  ig_PrincipalID : string;
  ig_GrantID : string;
  ig_GrantGeneration : Z;
  ig_MembershipGeneration : Z;
  ig_Action : string;
  ig_IssuedAt : Time;
  ig_ExpiresAt : Time
}.
#[export] Instance IngressDecision_eta : Eta IngressDecision := λ r,
  mkDecision (ig_Binding r) (ig_DecisionID r) (ig_PolicyGeneration r) (ig_EdgeNodeID r) (ig_EdgeProcessEpoch r)
    (ig_ConnectorID r) (ig_SessionID r) (ig_ProcessGeneration r) (ig_ConfigGeneration r) (ig_AssignmentGeneration r)
    (ig_PrincipalID r) (ig_GrantID r) (ig_GrantGeneration r) (ig_MembershipGeneration r) (ig_Action r) (ig_IssuedAt r)
    (ig_ExpiresAt r).
#[export] Instance IngressDecision_eq_dec : EqDecision IngressDecision.
Proof. solve_decision. Defined.

(** [path.Clean] of a path that starts with a slash. *)
Fixpoint clean_segments (segments stack : list string) : list string :=
  match segments with
  | [] => rev stack
  | s :: segments =>
      if (s == "") || (s == ".") then clean_segments segments stack
      else if s == ".." then clean_segments segments (tail stack)
      else clean_segments segments (s :: stack)
  end.

Definition path_IsAbs (p : string) : bool := HasPrefix p "/".
Definition path_Clean (p : string) : string :=
  match clean_segments (Split p 47) [] with
  | [] => "/"
  | l => foldr (λ s r, "/" +:+ s +:+ r) "" l
  end.

Section Decisions.
Context `{TextLib} `{AddrLib}.

Definition bad_origin (b : IngressBinding) : bool :=
  if ib_OriginScheme b == "unix"
  then (ib_Protocol b != "http") || (512 <? len (ib_OriginAddress b)) || negb (path_IsAbs (ib_OriginAddress b))
       || (path_Clean (ib_OriginAddress b) != ib_OriginAddress b) || ContainsAny (ib_OriginAddress b) [0; 13; 10]
  else match SplitHostPort (ib_OriginAddress b) with
  | None => true
  | Some (host, port) =>
      match Atoi port with
      | None => true
      | Some n => (n <? 1) || (65535 <? n) || negb (loopback host)
      end
  end.

Definition bad_host (b : IngressBinding) : bool :=
  (ib_Hostname b == "") || (253 <? len (ib_Hostname b)) || (ib_Hostname b != ToLower unicode_lower (ib_Hostname b))
  || ContainsAny (ib_Hostname b) [32; 47; 92; 58; 64; 13; 10].

Definition bad_protocol (b : IngressBinding) : bool :=
  if ib_Protocol b == "http"
  then (ib_ListenerID b != "") || negb (ib_PublicPort b =? 0) || negb (HasPrefix (ib_PathPrefix b) "/")
       || ContainsAny (ib_PathPrefix b) [63; 35; 13; 10]
       || negb (mem_str ["http"; "https"; "h2c"; "unix"] (ib_OriginScheme b))
  else if ib_Protocol b == "tcp"
  then (ib_Audience b != "public") || badID (ib_ListenerID b) || (ib_PublicPort b =? 0) || (ib_PathPrefix b != "")
       || (ib_OriginScheme b != "tcp")
  else true.

Definition bad_tls (b : IngressBinding) : bool :=
  if ib_OriginScheme b == "https"
  then (ib_TLSVerification b != "system") && (ib_TLSVerification b != "custom_ca")
       || (ib_TLSVerification b == "custom_ca") && (ib_CAReference b == "")
  else (ib_TLSVerification b != "not_applicable") || (ib_TLSServerName b != "") || (ib_CAReference b != "")
       || (ib_MTLSCredentialReference b != "").

Definition Ingress_Binding_Validate (b : IngressBinding) : option err :=
  if existsb badID [ib_EnvironmentID b; ib_AccountID b; ib_TunnelID b; ib_RouteID b; ib_TargetID b; ib_HostID b; ib_PublicationID b]
  then Some ErrIngressDenied
  else if (ib_Lifecycle b != TunnelEphemeral) && (ib_Lifecycle b != TunnelDurable) || (ib_ConnectionMethod b != "edge")
          || (ib_ResourceGeneration b =? 0) || (ib_RouteGeneration b =? 0) || (ib_TargetGeneration b =? 0)
          || (ib_InstallationGeneration b =? 0) || (ib_PublicationGeneration b =? 0)
  then Some ErrIngressDenied
  else if negb (mem_str ["public"; "private"; "team"] (ib_Audience b)) then Some ErrIngressDenied
  else if bad_origin b || bad_host b || bad_protocol b || bad_tls b then Some ErrIngressDenied
  else None.

(** The grant of a viewer, which only a restricted audience has. *)
Definition bad_grant (d : IngressDecision) : bool :=
  if ib_Audience (ig_Binding d) == "public"
  then (ig_PrincipalID d != "") || (ig_GrantID d != "") || negb (ig_GrantGeneration d =? 0) || negb (ig_MembershipGeneration d =? 0)
  else badID (ig_PrincipalID d) || badID (ig_GrantID d) || (ig_GrantGeneration d =? 0)
       || (ib_Audience (ig_Binding d) == "team") && (ig_MembershipGeneration d =? 0).

Definition Decision_Validate (d : IngressDecision) (now : Time) : option err :=
  if failed (Ingress_Binding_Validate (ig_Binding d)) || IsZero now || IsZero (ig_IssuedAt d) || After (ig_IssuedAt d) now
     || negb (After (ig_ExpiresAt d) now) || (IngressAuthorityLifetime <? Sub (ig_ExpiresAt d) (ig_IssuedAt d))
     || (ig_Action d != "view")
  then Some ErrIngressDenied
  else if existsb badID [ig_DecisionID d; ig_EdgeNodeID d; ig_ConnectorID d; ig_SessionID d] then Some ErrIngressDenied
  else if failed (ValidateOpaqueEpoch (ig_EdgeProcessEpoch d)) || (ig_PolicyGeneration d =? 0) || (ig_ProcessGeneration d =? 0)
          || (ig_ConfigGeneration d =? 0) || (ig_AssignmentGeneration d =? 0)
  then Some ErrIngressDenied
  else if bad_grant d then Some ErrIngressDenied
  else None.

Definition Decision_Authorize (d authority : IngressDecision) (open : StreamOpen) (edgeNodeID edgeEpoch : string) (now : Time)
    : option err :=
  let current := ig_Binding authority in
  if failed (Decision_Validate d now) || failed (Decision_Validate authority now) || (ig_Binding d != current)
     || failed (StreamOpen_Validate open)
     || negb (ig_PolicyGeneration d =? ig_PolicyGeneration authority) || negb (ig_AssignmentGeneration d =? ig_AssignmentGeneration authority)
     || (ig_ConnectorID d != ig_ConnectorID authority) || (ig_SessionID d != ig_SessionID authority)
     || negb (ig_ProcessGeneration d =? ig_ProcessGeneration authority) || negb (ig_ConfigGeneration d =? ig_ConfigGeneration authority)
     || (ig_EdgeNodeID d != ig_EdgeNodeID authority) || (ig_EdgeProcessEpoch d != ig_EdgeProcessEpoch authority)
     || (ig_PrincipalID d != ig_PrincipalID authority) || (ig_GrantID d != ig_GrantID authority)
     || negb (ig_GrantGeneration d =? ig_GrantGeneration authority) || negb (ig_MembershipGeneration d =? ig_MembershipGeneration authority)
     || (so_AccountID open != ib_AccountID current) || (so_TunnelID open != ib_TunnelID current) || (so_RouteID open != ib_RouteID current)
     || (ig_ConnectorID d != so_ConnectorID open) || (ig_SessionID d != so_SessionID open)
     || negb (ig_ProcessGeneration d =? so_ProcessGeneration open) || negb (ig_ConfigGeneration d =? so_Generation open)
     || (ig_EdgeNodeID d != edgeNodeID) || (ig_EdgeProcessEpoch d != edgeEpoch)
  then Some ErrIngressDenied else None.

(** ** The frame of a decision *)

Section Frames.
Context (marshal : IngressDecision → option bytes) (decode : json → option IngressDecision).

Definition WriteIngressDecision {W} `{Writer W} (w : W) (d : IngressDecision) (now : Time) : option (W * option err) :=
  if failed (Decision_Validate d now) then Some (w, Some ErrIngressDenied)
  else match marshal d with
  | None => Some (w, Some ErrIngressDenied)
  | Some p =>
      if MaxStreamOpenBytes <? blen p then Some (w, Some ErrIngressDenied)
      else match writeAllStreamOpen w (put_uint32 (blen p)) with
      | None => None
      | Some (w, (_, Some e)) => Some (w, Some e)
      | Some (w, (_, None)) =>
          match writeAllStreamOpen w p with
          | None => None
          | Some (w, (_, e)) => Some (w, e)
          end
      end
  end.

(** The decision and what follows it on the stream. *)
Definition ReadIngressDecision (input : bytes) (now : Time) : err + IngressDecision * bytes :=
  match ReadFull 4 input with
  | inl _ => inl ErrIngressDenied
  | inr (h, input) =>
      let n := uint32_of h in
      if (n =? 0) || (MaxStreamOpenBytes <? n) then inl ErrIngressDenied
      else match ReadFull n input with
      | inl _ => inl ErrIngressDenied
      | inr (p, input) =>
          match decodeStrict decode p with
          | inl _ => inl ErrIngressDenied
          | inr d => if failed (Decision_Validate d now) then inl ErrIngressDenied else inr (d, input)
          end
      end
  end.
End Frames.

(** ** The authority of an edge process *)

Record IngressAuthority := mkAuthority {
  ia_NodeID : string;
  ia_ProcessEpoch : string;
  ia_decisions : list IngressDecision;
  ia_fetched : Time
}.
#[export] Instance IngressAuthority_eta : Eta IngressAuthority := λ a,
  mkAuthority (ia_NodeID a) (ia_ProcessEpoch a) (ia_decisions a) (ia_fetched a).

Definition ErrControlInvalid : err := EPlain "private control configuration is invalid".
Definition ErrControlUnavailable : err := EPlain "private control is unavailable".

(** [IngressDecisions]: the checks of an answer of the control plane, which says whether it
    is complete. *)
Definition IngressDecisions (nodeID epoch : string) (answer : err + (bool * list IngressDecision)) (now : Time)
    : err + list IngressDecision :=
  if badID nodeID || failed (ValidateOpaqueEpoch epoch) then inl ErrControlInvalid
  else match answer with
  | inl e => inl e
  | inr (complete, decisions) =>
      if negb complete || (4096 <? Z.of_nat (length decisions)) then inl ErrControlUnavailable
      else if existsb (λ d, failed (Decision_Validate d now) || (ig_EdgeNodeID d != nodeID) || (ig_EdgeProcessEpoch d != epoch)) decisions
      then inl ErrControlUnavailable
      else inr decisions
  end.

(** [Snapshot]; the fetch reads its own clock after the answer. *)
Definition Authority_Snapshot (answer : err + (bool * list IngressDecision)) (now fetchNow : Time) (a : IngressAuthority)
    : (err + list IngressDecision) * IngressAuthority :=
  if IsZero (ia_fetched a) || (IngressRefreshInterval <=? Sub now (ia_fetched a))
  then match IngressDecisions (ia_NodeID a) (ia_ProcessEpoch a) answer fetchNow with
       | inl e => (inl e, a <| ia_decisions := [] |> <| ia_fetched := 0 |>)
       | inr decisions => (inr decisions, a <| ia_decisions := decisions |> <| ia_fetched := now |>)
       end
  else (inr (ia_decisions a), a).

Definition candidate_open (candidate : IngressDecision) : StreamOpen :=
  mkOpen ProtocolName ProtocolVersion (ib_AccountID (ig_Binding candidate)) (ib_TunnelID (ig_Binding candidate))
    (ig_ConnectorID candidate) (ig_SessionID candidate) (ig_ProcessGeneration candidate) (ig_ConfigGeneration candidate)
    (ib_RouteID (ig_Binding candidate)) "tcp-authority-refresh" "tcp_public".

Definition ResolveDecision (answer : err + (bool * list IngressDecision)) (now fetchNow checkNow : Time) (candidate : IngressDecision)
    (a : IngressAuthority) : (err + IngressDecision) * IngressAuthority :=
  match Authority_Snapshot answer now fetchNow a with
  | (inl e, a) => (inl e, a)
  | (inr decisions, a) =>
      match List.find (λ current, negb (failed (Decision_Authorize candidate current (candidate_open candidate)
                                          (ia_NodeID a) (ia_ProcessEpoch a) checkNow))) decisions with
      | Some current => (inr current, a)
      | None => (inl ErrIngressDenied, a)
      end
  end.

(** A decision for the rule; each one is checked at its own reading of the clock, of which
    only the one that accepts matters. *)
Definition serves_rule (r : RouteRule) (d : IngressDecision) : bool :=
  let id := if rr_RouteID r == "" then rr_ID r else rr_RouteID r in
  let b := ig_Binding d in
  (ib_RouteID b == id) && (ib_TunnelID b == rr_TunnelID r) && (ib_AccountID b == rr_AccountID r)
  && (ig_ConnectorID d == rr_ConnectorID r) && (ig_SessionID d == rr_ConnectorSessionID r)
  && (ig_ProcessGeneration d =? rr_ConnectorProcessGeneration r) && (ig_ConfigGeneration d =? rr_ConfigGeneration r)
  && (ig_AssignmentGeneration d =? rr_AssignmentGeneration r) && (ib_RouteGeneration b =? rr_RouteGeneration r).

Definition Authority_Resolve (answer : err + (bool * list IngressDecision)) (now fetchNow : Time) (checkNow : nat → Time) (r : RouteRule)
    (a : IngressAuthority) : (err + IngressDecision) * IngressAuthority :=
  match Authority_Snapshot answer now fetchNow a with
  | (inl e, a) => (inl e, a)
  | (inr decisions, a) =>
      match List.find (λ id : nat * IngressDecision, serves_rule r id.2 && negb (failed (Decision_Validate id.2 (checkNow id.1))))
              (combine (seq 0 (length decisions)) decisions) with
      | Some (_, d) => (inr d, a)
      | None => (inl ErrIngressDenied, a)
      end
  end.

End Decisions.
End Ingress.

(** * Limits of public ingress

    Models [internal/edgehttp/ingress_limits.go]: how many connections a publication and an
    account may hold at a time, the leases that count them, and the stream that paces and
    bills what it carries.  A limit state is shared by the map it is filed in and by the
    leases that hold it, so states and leases live in a heap.  The token buckets of
    [golang.org/x/time/rate] are the interface [RateLimiter]. *)

(** [rate.Limit] and [*rate.Limiter]: a positive rate, and whether the bucket holds a token,
    or is full, at an instant. *)
Class RateLimiter (Rate L : Type) := {
  positive : Rate → bool;
  NewLimiter : Rate → Z → L;
  has_token : L → Time → bool;            (** [TokensAt(now) >= 1] *)
  is_full : L → Time → bool;              (** [TokensAt(now) >= float64(Burst())] *)
  AllowN : L → Time → Z → L
}.

Module IngressLimits.
Import StreamFrames Ingress.
Import DurableAdmission (nul_join).

Definition maximumIngressLimitEntries : Z := 4096.
Definition ingressPacingChunk : Z := 32768.
Definition ErrIngressLimitExceeded : err := EPlain "ingress limit exceeded".

Section Limits.
Context {Rate L : Type} `{RateLimiter Rate L}.

Record IngressLimitConfig := mkLimitConfig {
  lc_Connections : Z;
  lc_OpenRate : Rate;
  lc_OpenBurst : Z;
  lc_ByteRate : Rate;
  lc_ByteBurst : Z
}.

Record ingressLimitState := mkLimitState {
  lm_active : Z;
  lm_opens : L;
  lm_bytes : L;
  lm_lastUsed : Time
}.
#[export] Instance ingressLimitState_eta : Eta ingressLimitState := λ s,
  mkLimitState (lm_active s) (lm_opens s) (lm_bytes s) (lm_lastUsed s).

Record IngressLease := mkLease {
  le_publication : nat;
  le_account : nat;
  le_decision : IngressDecision;
  le_once : bool                      (** [Release] ran *)
}.
#[export] Instance IngressLease_eta : Eta IngressLease := λ l,
  mkLease (le_publication l) (le_account l) (le_decision l) (le_once l).

Record IngressLimits := mkLimits {
  il_Publication : IngressLimitConfig;
  il_Account : IngressLimitConfig;
  il_publications : gmap string nat;
  il_accounts : gmap string nat;
  il_states : gmap nat ingressLimitState;
  il_leases : gmap nat IngressLease
}.
#[export] Instance IngressLimits_eta : Eta IngressLimits := λ l,
  mkLimits (il_Publication l) (il_Account l) (il_publications l) (il_accounts l) (il_states l) (il_leases l).

Definition validIngressLimit (c : IngressLimitConfig) : bool :=
  (0 <? lc_Connections c) && positive (lc_OpenRate c) && (0 <? lc_OpenBurst c) && positive (lc_ByteRate c)
  && (ingressPacingChunk <=? lc_ByteBurst c).

Definition newIngressLimits (publication account : IngressLimitConfig) : err + IngressLimits :=
  if negb (validIngressLimit publication) || negb (validIngressLimit account) then inl ErrIngressLimitExceeded
  else inr (mkLimits publication account ∅ ∅ ∅ ∅).

Definition newIngressLimitState (config : IngressLimitConfig) (now : Time) : ingressLimitState :=
  mkLimitState 0 (NewLimiter (lc_OpenRate config) (lc_OpenBurst config)) (NewLimiter (lc_ByteRate config) (lc_ByteBurst config)) now.

Definition idle (now : Time) (s : ingressLimitState) : bool :=
  (lm_active s =? 0) && (Minute <=? Sub now (lm_lastUsed s)) && is_full (lm_opens s) now && is_full (lm_bytes s) now.

(** A key is kept while its state is in use or recently used. *)
Definition kept (now : Time) (states : gmap nat ingressLimitState) (kv : string * nat) : Prop :=
  match states !! kv.2 with Some s => idle now s = false | None => False end.
#[export] Instance kept_dec now states kv : Decision (kept now states kv).
Proof. unfold kept. destruct (states !! kv.2); apply _. Defined.

Definition expireIdle (now : Time) (l : IngressLimits) : IngressLimits :=
  l <| il_publications := filter (kept now (il_states l)) (il_publications l) |>
    <| il_accounts := filter (kept now (il_states l)) (il_accounts l) |>.

Definition publicationKey (d : IngressDecision) : string := nul_join [ib_AccountID (ig_Binding d); ib_PublicationID (ig_Binding d)].
Definition accountKey (d : IngressDecision) : string := ib_AccountID (ig_Binding d).

(** The state of a key, or a new one at a free address. *)
Definition lookup_state (states : gmap nat ingressLimitState) (m : gmap string nat) (key : string) (config : IngressLimitConfig)
    (now : Time) : nat * ingressLimitState :=
  match m !! key with
  | Some i => (i, default (newIngressLimitState config now) (states !! i))
  | None => (fresh (dom states), newIngressLimitState config now)
  end.

Definition taken (now : Time) (s : ingressLimitState) : ingressLimitState :=
  s <| lm_opens := AllowN (lm_opens s) now 1 |> <| lm_active := lm_active s + 1 |> <| lm_lastUsed := now |>.

Definition new_entries (l : IngressLimits) (d : IngressDecision) : Z :=
  (if nonnil (il_publications l !! publicationKey d) then 0 else 1) + (if nonnil (il_accounts l !! accountKey d) then 0 else 1).

Definition acquire (d : IngressDecision) (now : Time) (l : IngressLimits) : (err + nat) * IngressLimits :=
  let l := expireIdle now l in
  if maximumIngressLimitEntries <? Z.of_nat (size (il_publications l)) + Z.of_nat (size (il_accounts l)) + new_entries l d
  then (inl ErrIngressLimitExceeded, l)
  else
    let '(p, publication) := lookup_state (il_states l) (il_publications l) (publicationKey d) (il_Publication l) now in
    let '(a, account) := lookup_state (<[p := publication]> (il_states l)) (il_accounts l) (accountKey d) (il_Account l) now in
    if (lc_Connections (il_Publication l) <=? lm_active publication) || (lc_Connections (il_Account l) <=? lm_active account)
       || negb (has_token (lm_opens publication) now) || negb (has_token (lm_opens account) now)
    then (inl ErrIngressLimitExceeded, l)
    else
      let id := fresh (dom (il_leases l)) in
      (inr id,
       l <| il_states := <[a := taken now account]> (<[p := taken now publication]> (il_states l)) |>
         <| il_publications := <[publicationKey d := p]> (il_publications l) |>
         <| il_accounts := <[accountKey d := a]> (il_accounts l) |>
         <| il_leases := <[id := mkLease p a d false]> (il_leases l) |>).

(** [AcquireIngress]; [checkNow] is the reading the decision is checked at. *)
Definition AcquireIngress `{Route.TextLib} `{AddrLib} (d : IngressDecision) (checkNow now : Time) (l : IngressLimits) : (err + nat) * IngressLimits :=
  if failed (Decision_Validate d checkNow) then (inl ErrIngressLimitExceeded, l) else acquire d now l.

Definition given_back (now : Time) (s : ingressLimitState) : ingressLimitState :=
  s <| lm_active := lm_active s - 1 |> <| lm_lastUsed := now |>.

(** [Release] of a lease, under its [sync.Once]. *)
Definition Release (id : nat) (now : Time) (l : IngressLimits) : IngressLimits :=
  match il_leases l !! id with
  | Some lease =>
      if le_once lease then l
      else l <| il_states := alter (given_back now) (le_account lease) (alter (given_back now) (le_publication lease) (il_states l)) |>
             <| il_leases := <[id := lease <| le_once := true |>]> (il_leases l) |>
  | None => l
  end.

End Limits.
Arguments IngressLimitConfig : clear implicits.
Arguments ingressLimitState : clear implicits.
Arguments IngressLimits : clear implicits.

(** ** The metered stream

    [waits] and [usage] answer the calls of [WaitN] and [Record], in order; the log holds the
    bytes of every record, with their direction. *)
Section Transfer.
Context {W : Type} `{Writer W} (waits : nat → option err) (usage : option (nat → option err)).

(** How many bytes a read returned. *)
Variable stream_Read : W → Z → W * (Z * option err).

Definition ErrNoProgress : err := EPlain "multiple Read calls return no data or error".

Record transferred := mkTransferred {
  tr_stream : W;
  tr_records : list (bool * Z);
  tr_total : Z;
  tr_err : option err
}.

(** [Record] of [n] bytes, unless there is nothing to record. *)
Definition record (ingress : bool) (n : Z) (log : list (bool * Z)) : list (bool * Z) * option err :=
  match usage with
  | Some answer => if 0 <? n then (log ++ [(ingress, n)], answer (length log)) else (log, None)
  | None => (log, None)
  end.

(** The loop of [transfer]; [None] is running out of fuel. *)
Fixpoint transfer (fuel : nat) (ingress : bool) (k : nat) (w : W) (log : list (bool * Z)) (payload : bytes) (total : Z)
    : option transferred :=
  match fuel with
  | O => None
  | S fuel =>
      if 0 <? blen payload then
        let chunk := Z.min (blen payload) ingressPacingChunk in
        match waits k with
        | Some e => Some (mkTransferred w log total (Some e))
        | None =>
            let '(w, (n, e)) := if ingress then Write w (take (Z.to_nat chunk) payload) else stream_Read w chunk in
            let total := if 0 <? n then total + n else total in
            let '(log, usageErr) := record ingress n log in
            match usageErr with
            | Some e => Some (mkTransferred w log total (Some e))
            | None =>
                match e with
                | Some e => Some (mkTransferred w log total (Some e))
                | None =>
                    if n =? 0 then Some (mkTransferred w log total (Some ErrNoProgress))
                    else if negb ingress then Some (mkTransferred w log total None)
                    else transfer fuel ingress (S k) w log (drop (Z.to_nat n) payload) total
                end
            end
        end
      else Some (mkTransferred w log total None)
  end.

(** A call of [Write] or [Read]. *)
Definition stream_transfer (ingress : bool) (w : W) (payload : bytes) : option transferred :=
  transfer (S (length payload)) ingress 0 w [] payload 0.

End Transfer.
End IngressLimits.
