(* ===== verification/IngressProofs.v ===== *)
(** * Limits of public ingress: theorems

    However leases are taken and given back, the connections of a publication and of an
    account are counted exactly and stay within their limits, although idle limit states are
    dropped and made again; and what a metered stream carries is what it bills. *)
From S2P Require Import Prelude Go Strings Protocol Route Utf8 JSON StreamFrames StreamFramesProofs Carrier PreviewAdmission DurableAdmission DurableAdmissionProofs Ingress.

Module IngressProofs.
Import StreamFrames StreamFramesProofs Ingress IngressLimits.
Import DurableAdmission (nul_join).

Section Limits.
Context {Rate L : Type} `{RateLimiter Rate L} `{Route.TextLib} `{AddrLib}.
Implicit Types l : IngressLimits Rate L.

(** ** Leases that are held *)

Definition held (key : IngressDecision → string) (k : string) (m : gmap nat IngressLease) : Z :=
  sum_map (λ x, if negb (le_once x) && bool_decide (key (le_decision x) = k) then 1 else 0) m.

Lemma held_nonneg key k m : 0 ≤ held key k m.
Proof. apply sum_map_nonneg. intros ? ? _. by destruct (_ && _). Qed.

Lemma held_new key k m id x :
  m !! id = None → le_once x = false →
  held key k (<[id := x]> m) = held key k m + (if bool_decide (key (le_decision x) = k) then 1 else 0).
Proof. intros Hn Ho. unfold held. rewrite sum_map_insert by done. rewrite Ho. cbn. lia. Qed.

Lemma held_release key k m id x :
  m !! id = Some x → le_once x = false →
  held key k (<[id := x <| le_once := true |>]> m) = held key k m - (if bool_decide (key (le_decision x) = k) then 1 else 0).
Proof. intros Hn Ho. unfold held. rewrite (sum_map_replace _ m id x) by done. rewrite Ho. cbn. lia. Qed.

Lemma held_one key m id x : m !! id = Some x → le_once x = false → 1 ≤ held key (key (le_decision x)) m.
Proof.
  intros Hn Ho. unfold held.
  pose proof (sum_map_ge (λ y, if negb (le_once y) && bool_decide (key (le_decision y) = key (le_decision x)) then 1 else 0) m id x) as Hg.
  cbn beta in Hg. rewrite Ho, bool_decide_eq_true_2 in Hg by done. cbn in Hg. apply Hg; [|done].
  intros ? ? _. by destruct (_ && _).
Qed.

(** ** One map of limit states *)

Record filed (key : IngressDecision → string) (m : gmap string nat) (states : gmap nat (ingressLimitState L)) (maximum : Z)
    (leases : gmap nat IngressLease) (state_of : IngressLease → nat) : Prop := {
  fi_exact : ∀ k i, m !! k = Some i → ∃ s, states !! i = Some s ∧ lm_active s = held key k leases;
  fi_max : ∀ k, held key k leases ≤ maximum;
  fi_held : ∀ id x, leases !! id = Some x → le_once x = false → m !! key (le_decision x) = Some (state_of x);
  fi_inj : ∀ k k' i, m !! k = Some i → m !! k' = Some i → k = k'
}.

Lemma sum_map_zero {K A} `{Countable K} (f : A → Z) (m : gmap K A) : (∀ j y, m !! j = Some y → f y = 0) → sum_map f m = 0.
Proof.
  induction m as [|j y m Hj IH] using map_ind; intros Hm; [apply sum_map_empty|]. rewrite sum_map_insert by done.
  rewrite (Hm j y) by apply lookup_insert_eq. rewrite IH; [done|]. intros j' y' Hj'. apply (Hm j'). rewrite lookup_insert_ne; congruence.
Qed.

Lemma filed_absent key m states mx leases so k : filed key m states mx leases so → m !! k = None → held key k leases = 0.
Proof.
  intros F Hk. apply sum_map_zero. intros id x Hx. destruct (le_once x) eqn:Ho; [done|]. cbn. case_bool_decide as E; [|done].
  pose proof (fi_held _ _ _ _ _ _ F _ _ Hx Ho). congruence.
Qed.

Lemma filed_frame key m states states' mx leases so :
  filed key m states mx leases so → (∀ k i, m !! k = Some i → states' !! i = states !! i) → filed key m states' mx leases so.
Proof. intros [A B C D] Hs. split; try done. intros k i Hi. destruct (A _ _ Hi) as (x & ? & ?). exists x. by rewrite (Hs _ _ Hi). Qed.

(** A state in use is never dropped. *)
Lemma filed_expire key m states mx leases so now :
  filed key m states mx leases so → filed key (filter (kept now states) m) states mx leases so.
Proof.
  intros F. pose proof F as [A B C D]. split; [|done| |].
  - intros k i [Hi _]%map_lookup_filter_Some. by apply A.
  - intros id x Hx Ho. specialize (C _ _ Hx Ho). apply map_lookup_filter_Some. split; [done|]. unfold kept. cbn.
    destruct (A _ _ C) as (st & -> & Ha). unfold idle. pose proof (held_one key leases id x Hx Ho).
    destruct (lm_active st =? 0) eqn:E; [bools; lia|done].
  - intros k k' i [Hi _]%map_lookup_filter_Some [Hi' _]%map_lookup_filter_Some. eauto.
Qed.

Lemma lookup_state_spec key m states mx leases so k config now i (st : ingressLimitState L) :
  filed key m states mx leases so → lookup_state states m k config now = (i, st) →
  lm_active st = held key k leases ∧ (m !! k = Some i ∨ m !! k = None ∧ states !! i = None).
Proof.
  intros F. unfold lookup_state. destruct (m !! k) as [j|] eqn:E.
  - destruct (fi_exact _ _ _ _ _ _ F _ _ E) as (x & Hx & Ha). rewrite Hx. cbn. intros [= <- <-]. auto.
  - intros [= <- <-]. rewrite (filed_absent _ _ _ _ _ _ _ F E). cbn. split; [done|]. right. split; [done|]. apply not_elem_of_dom, is_fresh.
Qed.

Lemma filed_take key m (states states' : gmap nat (ingressLimitState L)) mx leases so k i (st : ingressLimitState L) id x :
  filed key m states mx leases so → lm_active st = held key k leases → lm_active st < mx →
  (m !! k = Some i ∨ m !! k = None ∧ states !! i = None) →
  leases !! id = None → le_once x = false → key (le_decision x) = k → so x = i →
  (∃ st', states' !! i = Some st' ∧ lm_active st' = lm_active st + 1) →
  (∀ k' j, m !! k' = Some j → j ≠ i → states' !! j = states !! j) →
  filed key (<[k := i]> m) states' mx (<[id := x]> leases) so.
Proof.
  intros F Ha Hm Hk Hid Ho Hkey Hso (st' & Hst' & Ha') Hs. pose proof F as [A B C D].
  assert (∀ k' j, m !! k' = Some j → k' ≠ k → j ≠ i) as Hne.
  { intros k' j Hj Hn ->. destruct Hk as [Hk|[_ Hk]]; [by destruct (Hn (D _ _ _ Hj Hk))|]. destruct (A _ _ Hj) as (? & ? & _). congruence. }
  split.
  - intros k' j [[<- <-]|[Hn Hj]]%lookup_insert_Some.
    + exists st'. split; [done|]. rewrite held_new, Hkey, bool_decide_eq_true_2 by done. lia.
    + destruct (A _ _ Hj) as (y & Hy & Hy'). exists y. rewrite (Hs _ _ Hj) by (by eapply Hne). split; [done|].
      rewrite held_new, Hkey, bool_decide_eq_false_2 by done. lia.
  - intros k'. rewrite held_new, Hkey by done. case_bool_decide as E; [subst k'; lia|]. specialize (B k'). lia.
  - intros id' x' [[<- <-]|[Hn Hx]]%lookup_insert_Some Ho'; [by rewrite Hkey, lookup_insert_eq, Hso|].
    specialize (C _ _ Hx Ho'). destruct (decide (key (le_decision x') = k)) as [E|E].
    + rewrite E, lookup_insert_eq. rewrite E in C. destruct Hk as [Hk|[Hk _]]; congruence.
    + by rewrite lookup_insert_ne.
  - intros k1 k2 j [[<- <-]|[Hn Hj]]%lookup_insert_Some [[E1 E2]|[Hn' Hj']]%lookup_insert_Some; try congruence; [| |eauto].
    + by destruct (Hne _ _ Hj' (not_eq_sym Hn')).
    + subst j. by destruct (Hne _ _ Hj (not_eq_sym Hn)).
Qed.

Lemma filed_release key m (states states' : gmap nat (ingressLimitState L)) mx leases so id x :
  filed key m states mx leases so → leases !! id = Some x → le_once x = false →
  (∀ st, states !! so x = Some st → ∃ st' : ingressLimitState L, states' !! so x = Some st' ∧ lm_active st' = lm_active st - 1) →
  (∀ k' j, m !! k' = Some j → j ≠ so x → states' !! j = states !! j) →
  (∀ y, so (y <| le_once := true |>) = so y) →
  filed key m states' mx (<[id := x <| le_once := true |>]> leases) so.
Proof.
  intros F Hx Ho Hs Hs' _. pose proof F as [A B C D]. pose proof (C _ _ Hx Ho) as Hi. split; [| | |done].
  - intros k j Hj. rewrite held_release by done. case_bool_decide as E.
    + subst k. assert (j = so x) as -> by congruence. destruct (A _ _ Hi) as (st & Hst & Ha). destruct (Hs _ Hst) as (st' & -> & Ha').
      exists st'. split; [done|lia].
    + destruct (A _ _ Hj) as (st & Hst & Ha). exists st. rewrite (Hs' _ _ Hj); [split; [done|lia]|].
      intros ->. apply E. by apply (D _ _ (so x)).
  - intros k. rewrite held_release by done. specialize (B k). case_bool_decide; lia.
  - intros id' x' [[<- <-]|[Hn Hx']]%lookup_insert_Some Ho'; [done|]. eauto.
Qed.

(** ** The invariant *)

Record linv l : Prop := {
  li_pub : filed publicationKey (il_publications l) (il_states l) (lc_Connections (il_Publication l)) (il_leases l) le_publication;
  li_acc : filed accountKey (il_accounts l) (il_states l) (lc_Connections (il_Account l)) (il_leases l) le_account;
  li_apart : ∀ k k' i, il_publications l !! k = Some i → il_accounts l !! k' = Some i → False;
  li_size : Z.of_nat (size (il_publications l)) + Z.of_nat (size (il_accounts l)) ≤ maximumIngressLimitEntries;
  li_ids : ∀ id x, il_leases l !! id = Some x → badID (ib_AccountID (ig_Binding (le_decision x))) = false
                                                ∧ badID (ib_PublicationID (ig_Binding (le_decision x))) = false
}.

Lemma expireIdle_inv now l : linv l → linv (expireIdle now l).
Proof.
  intros [A B C D E]. unfold expireIdle. split; cbn; [by apply filed_expire|by apply filed_expire| | |done].
  - intros k k' i [? _]%map_lookup_filter_Some [? _]%map_lookup_filter_Some. eauto.
  - pose proof (map_subseteq_size _ _ (map_filter_subseteq (kept now (il_states l)) (il_publications l))).
    pose proof (map_subseteq_size _ _ (map_filter_subseteq (kept now (il_states l)) (il_accounts l))). lia.
Qed.

Lemma Release_inv id now l : linv l → linv (Release id now l).
Proof.
  intros I. unfold Release. destruct (il_leases l !! id) as [x|] eqn:Hx; [|done]. destruct (le_once x) eqn:Ho; [done|].
  destruct I as [A B C D E]. pose proof (fi_held _ _ _ _ _ _ A _ _ Hx Ho) as Hp. pose proof (fi_held _ _ _ _ _ _ B _ _ Hx Ho) as Ha.
  assert (le_publication x ≠ le_account x) as Hne by (intros Eq; rewrite Eq in Hp; by eapply C).
  split; cbn; [| |done|done|].
  - eapply filed_release; [done..| | |done].
    + intros st Hst. exists (given_back now st). rewrite lookup_alter_ne by done. by rewrite lookup_alter_eq, Hst.
    + intros k j Hj Hn. rewrite !lookup_alter_ne; [done|done|]. intros <-. eauto.
  - eapply filed_release; [done..| | |done].
    + intros st Hst. exists (given_back now st). rewrite lookup_alter_eq, lookup_alter_ne by done. by rewrite Hst.
    + intros k j Hj Hn. rewrite !lookup_alter_ne; [done| |done]. intros <-. eauto.
  - intros id' x' [[<- <-]|[_ Hx']]%lookup_insert_Some; [apply (E _ _ Hx)|apply (E _ _ Hx')].
Qed.

(** A key that is filed is not a new entry. *)
Lemma size_filed (m : gmap string nat) k i :
  Z.of_nat (size (<[k := i]> m)) = Z.of_nat (size m) + (if nonnil (m !! k) then 0 else 1).
Proof.
  destruct (m !! k) eqn:E; cbn.
  - rewrite map_size_insert_Some by eauto. lia.
  - rewrite map_size_insert_None by done. lia.
Qed.

(** The two states [acquire] works on, and their addresses. *)
Lemma acquire_lookup d now l p publication a account :
  linv l → lookup_state (il_states l) (il_publications l) (publicationKey d) (il_Publication l) now = (p, publication) →
  lookup_state (<[p := publication]> (il_states l)) (il_accounts l) (accountKey d) (il_Account l) now = (a, account) →
  (lm_active publication = held publicationKey (publicationKey d) (il_leases l)
   ∧ (il_publications l !! publicationKey d = Some p ∨ il_publications l !! publicationKey d = None ∧ il_states l !! p = None))
  ∧ (filed accountKey (il_accounts l) (<[p := publication]> (il_states l)) (lc_Connections (il_Account l)) (il_leases l) le_account
     ∧ lm_active account = held accountKey (accountKey d) (il_leases l)
     ∧ (il_accounts l !! accountKey d = Some a ∨ il_accounts l !! accountKey d = None ∧ <[p := publication]> (il_states l) !! a = None))
  ∧ a ≠ p ∧ (∀ k i, il_accounts l !! k = Some i → i ≠ p) ∧ (∀ k i, il_publications l !! k = Some i → i ≠ a).
Proof.
  intros [A B C D E] Ep Ea. destruct (lookup_state_spec _ _ _ _ _ _ _ _ _ _ _ A Ep) as [Hpa Hpk].
  assert (∀ k i, il_accounts l !! k = Some i → i ≠ p) as Hap.
  { intros k i Hi ->. destruct Hpk as [Hpk|[_ Hpk]]; [by eapply C|]. destruct (fi_exact _ _ _ _ _ _ B _ _ Hi) as (? & ? & _). congruence. }
  assert (filed accountKey (il_accounts l) (<[p := publication]> (il_states l)) (lc_Connections (il_Account l)) (il_leases l) le_account) as B'.
  { apply (filed_frame _ _ _ _ _ _ _ B). intros k i Hi. rewrite lookup_insert_ne; [done|]. intros <-. by eapply Hap. }
  destruct (lookup_state_spec _ _ _ _ _ _ _ _ _ _ _ B' Ea) as [Haa Hak].
  assert (a ≠ p) as Hne.
  { destruct Hak as [Hak|[_ Hak]]; [by eapply Hap|]. intros ->. by rewrite lookup_insert_eq in Hak. }
  split_and!; try done.
  intros k i Hi ->. destruct Hak as [Hak|[_ Hak]]; [by eapply C|]. rewrite lookup_insert_ne in Hak by done.
  destruct (fi_exact _ _ _ _ _ _ A _ _ Hi) as (? & ? & _). congruence.
Qed.

Lemma acquire_inv d now l :
  linv l → badID (ib_AccountID (ig_Binding d)) = false → badID (ib_PublicationID (ig_Binding d)) = false →
  linv (acquire d now l).2.
Proof.
  intros I%(expireIdle_inv now) Ha Hp. unfold acquire. set (l0 := expireIdle now l) in *. clearbody l0.
  case_match eqn:Hsz; [done|].
  destruct (lookup_state (il_states l0) (il_publications l0) (publicationKey d) (il_Publication l0) now) as [p publication] eqn:Ep.
  destruct (lookup_state (<[p := publication]> (il_states l0)) (il_accounts l0) (accountKey d) (il_Account l0) now) as [a account] eqn:Ea.
  destruct (acquire_lookup _ _ _ _ _ _ _ I Ep Ea) as ((Hpa & Hpk) & (B' & Haa & Hak) & Hne & Hap & Hpa').
  destruct I as [A B C D E]. case_match eqn:Hlim; [done|]. bools. cbn [snd].
  assert (il_leases l0 !! fresh (dom (il_leases l0)) = None) as Hfresh by apply not_elem_of_dom, is_fresh.
  split; cbn -[publicationKey accountKey].
  - eapply (filed_take _ _ (il_states l0)); [done|exact Hpa|lia|exact Hpk|done..| |].
    + exists (taken now publication). by rewrite lookup_insert_ne, lookup_insert_eq by done.
    + intros k j Hj Hn. rewrite !lookup_insert_ne; [done|done|]. intros <-. by eapply Hpa'.
  - eapply (filed_take _ _ (<[p := publication]> (il_states l0))); [done|exact Haa|lia|exact Hak|done..| |].
    + exists (taken now account). by rewrite lookup_insert_eq.
    + intros k j Hj Hn. assert (j ≠ p) by by eapply Hap. by rewrite !lookup_insert_ne by done.
  - intros k k' i [[<- <-]|[_ Hi]]%lookup_insert_Some [[E1 E2]|[_ Hi']]%lookup_insert_Some; subst; try done.
    + by eapply Hap.
    + by eapply Hpa'.
    + by eapply C.
  - unfold new_entries in Hsz. rewrite !size_filed. lia.
  - intros id' x' [[<- <-]|[_ Hx']]%lookup_insert_Some; [done|by eapply E].
Qed.

(** ** Every history of leases *)

Inductive limits_run (publication account : IngressLimitConfig Rate) : IngressLimits Rate L → Prop :=
| run_new l : newIngressLimits publication account = inr l → limits_run publication account l
| run_acquire l d checkNow now :
    limits_run publication account l → limits_run publication account (AcquireIngress d checkNow now l).2
| run_release l id now : limits_run publication account l → limits_run publication account (Release id now l).

Lemma Decision_ids d now :
  Decision_Validate d now = None → badID (ib_AccountID (ig_Binding d)) = false ∧ badID (ib_PublicationID (ig_Binding d)) = false.
Proof.
  unfold Decision_Validate. case_match eqn:E; [done|]. intros _. bools. rename select (failed (Ingress_Binding_Validate _) = false) into Hb.
  unfold Ingress_Binding_Validate in Hb. case_match eqn:E'; [done|]. cbn in E'. bools. done.
Qed.

Lemma AcquireIngress_inv d checkNow now l : linv l → linv (AcquireIngress d checkNow now l).2.
Proof.
  intros I. unfold AcquireIngress. destruct (Decision_Validate d checkNow) eqn:E; [done|]. destruct (Decision_ids _ _ E). by apply acquire_inv.
Qed.

Lemma limits_run_inv publication account l :
  limits_run publication account l → linv l ∧ il_Publication l = publication ∧ il_Account l = account.
Proof.
  induction 1 as [l Hl|l d checkNow now _ (I & IP & IA)|l id now _ (I & IP & IA)].
  - unfold newIngressLimits in Hl. case_match eqn:E; [done|]. injection Hl as <-. bools. unfold validIngressLimit in *. bools.
    split_and!; [|done..].
    assert (∀ key k, held key k ∅ = 0) as Hz by (intros; apply sum_map_empty).
    split; cbn; try done; split; cbn; try done; intros; rewrite ?Hz; lia.
  - split_and!; [by apply AcquireIngress_inv|..]; unfold AcquireIngress, acquire; repeat case_match; done.
  - split_and!; [by apply Release_inv|..]; unfold Release; repeat case_match; done.
Qed.

(** The leases an account, or one of its publications, holds. *)
Definition held_by (account : string) l : Z :=
  sum_map (λ x, if negb (le_once x) && (ib_AccountID (ig_Binding (le_decision x)) == account) then 1 else 0) (il_leases l).

Definition held_on (account publication : string) l : Z :=
  sum_map (λ x, if negb (le_once x) && (ib_AccountID (ig_Binding (le_decision x)) == account)
                   && (ib_PublicationID (ig_Binding (le_decision x)) == publication) then 1 else 0) (il_leases l).

Lemma held_by_key a l : held_by a l = held accountKey a (il_leases l).
Proof. done. Qed.

Lemma publicationKey_inj d d' :
  badID (ib_AccountID (ig_Binding d)) = false → badID (ib_PublicationID (ig_Binding d)) = false →
  badID (ib_AccountID (ig_Binding d')) = false → badID (ib_PublicationID (ig_Binding d')) = false →
  publicationKey d = publicationKey d' ↔
  ib_AccountID (ig_Binding d) = ib_AccountID (ig_Binding d') ∧ ib_PublicationID (ig_Binding d) = ib_PublicationID (ig_Binding d').
Proof.
  intros. split; [|intros [E1 E2]; unfold publicationKey; by rewrite E1, E2]. unfold publicationKey. intros E.
  apply DurableAdmissionProofs.nul_join_inj in E; [by injection E|done|..];
    repeat (apply Forall_cons; split); try constructor; by apply DurableAdmissionProofs.badID_nul_free.
Qed.

Lemma held_on_key d l :
  linv l → badID (ib_AccountID (ig_Binding d)) = false → badID (ib_PublicationID (ig_Binding d)) = false →
  held_on (ib_AccountID (ig_Binding d)) (ib_PublicationID (ig_Binding d)) l = held publicationKey (publicationKey d) (il_leases l).
Proof.
  intros I Ha Hp. unfold held_on, held. apply sum_map_ext. intros id x Hx. destruct (li_ids _ I _ _ Hx) as [Hxa Hxp].
  pose proof (publicationKey_inj (le_decision x) d Hxa Hxp Ha Hp) as Hk.
  rewrite <- andb_assoc, <- bool_decide_and. by rewrite (bool_decide_ext _ _ Hk).
Qed.

Lemma held_on_max a p l : linv l → 0 ≤ lc_Connections (il_Publication l) → held_on a p l ≤ lc_Connections (il_Publication l).
Proof.
  intros I Hc. destruct (decide (held_on a p l = 0)) as [->|Hn]; [done|].
  destruct (badID a) eqn:Ha; [|destruct (badID p) eqn:Hp].
  3: { set (d := mkDecision (mkIngressBinding "" a "" "" 0 "" 0 "" 0 "" 0 "" "" "" "" "" "" "" "" "" "" "" p 0 "" 0)
                   "" 0 "" "" "" "" 0 0 0 "" "" 0 0 "" 0 0).
       change (held_on a p l) with (held_on (ib_AccountID (ig_Binding d)) (ib_PublicationID (ig_Binding d)) l).
       rewrite (held_on_key d l I Ha Hp). apply (fi_max _ _ _ _ _ _ (li_pub _ I)). }
  all: exfalso; apply Hn, sum_map_zero; intros id x Hx; destruct (li_ids _ I _ _ Hx) as [Hxa Hxp];
    repeat case_bool_decide; rewrite ?andb_false_r; try done; congruence.
Qed.

(** What a refused [acquire] found. *)
Lemma acquire_refused d now e l l' :
  linv l → badID (ib_AccountID (ig_Binding d)) = false → badID (ib_PublicationID (ig_Binding d)) = false →
  acquire d now l = (inl e, l') →
  lc_Connections (il_Publication l) = held_on (ib_AccountID (ig_Binding d)) (ib_PublicationID (ig_Binding d)) l
  ∨ lc_Connections (il_Account l) = held_by (ib_AccountID (ig_Binding d)) l
  ∨ 4095 ≤ Z.of_nat (size (il_publications l')) + Z.of_nat (size (il_accounts l'))
  ∨ ∃ s, (s = newIngressLimitState (il_Publication l) now ∨ s = newIngressLimitState (il_Account l) now
          ∨ ∃ i, il_states l !! i = Some s ∧ (il_publications l !! publicationKey d = Some i ∨ il_accounts l !! accountKey d = Some i))
         ∧ has_token (lm_opens s) now = false.
Proof.
  intros I Ha Hp. pose proof (expireIdle_inv now l I) as I0. unfold acquire.
  change (il_Publication (expireIdle now l)) with (il_Publication l). change (il_Account (expireIdle now l)) with (il_Account l).
  case_match eqn:Hsz.
  { intros [= <- <-]. right; right; left. bools. unfold new_entries in Hsz. unfold maximumIngressLimitEntries in Hsz. repeat case_match; lia. }
  destruct (lookup_state _ (il_publications _) _ _ _) as [p publication] eqn:Ep.
  destruct (lookup_state _ (il_accounts _) _ _ _) as [a account] eqn:Ea.
  destruct (acquire_lookup _ _ (expireIdle now l) _ _ _ _ I0 Ep Ea) as ((Hpa & _) & (_ & Haa & _) & _ & Hap & _).
  rewrite <- (held_on_key d (expireIdle now l) I0 Ha Hp) in Hpa. rewrite <- held_by_key in Haa.
  change (held_on _ _ (expireIdle now l)) with (held_on (ib_AccountID (ig_Binding d)) (ib_PublicationID (ig_Binding d)) l) in Hpa.
  change (held_by _ (expireIdle now l)) with (held_by (ib_AccountID (ig_Binding d)) l) in Haa.
  pose proof (held_on_max (ib_AccountID (ig_Binding d)) (ib_PublicationID (ig_Binding d)) l I) as Hm.
  pose proof (fi_max _ _ _ _ _ _ (li_acc _ I) (accountKey d)) as Hm'. rewrite <- held_by_key in Hm'.
  case_match eqn:Hlim; [|done]. intros [= <- <-]. apply orb_true_iff in Hlim as [[[Hl|Hl]%orb_true_iff|Hl]%orb_true_iff|Hl]; bools.
  - left. pose proof (held_nonneg publicationKey (publicationKey d) (il_leases l)) as Hnn.
    rewrite <- (held_on_key d l I Ha Hp) in Hnn. destruct (decide (0 ≤ lc_Connections (il_Publication l))); [lia|].
    pose proof (fi_max _ _ _ _ _ _ (li_pub _ I) (publicationKey d)). rewrite <- (held_on_key d l I Ha Hp) in *. lia.
  - right; left. unfold accountKey in *. lia.
  - do 3 right. exists publication. split; [|done]. unfold lookup_state in Ep. destruct (il_publications (expireIdle now l) !! publicationKey d) as [i|] eqn:E.
    + apply map_lookup_filter_Some in E as [E _]. injection Ep as <- <-. right; right. exists i.
      destruct (fi_exact _ _ _ _ _ _ (li_pub _ I) _ _ E) as (s & Hs & _). change (il_states (expireIdle now l)) with (il_states l). rewrite Hs. auto.
    + injection Ep as <- <-. by left.
  - do 3 right. exists account. split; [|done]. unfold lookup_state in Ea. destruct (il_accounts (expireIdle now l) !! accountKey d) as [i|] eqn:E.
    + pose proof (Hap _ _ E). apply map_lookup_filter_Some in E as [E _]. injection Ea as <- <-. right; right. exists i.
      destruct (fi_exact _ _ _ _ _ _ (li_acc _ I) _ _ E) as (s & Hs & _). change (il_states (expireIdle now l)) with (il_states l).
      rewrite lookup_insert_ne by done. rewrite Hs. auto.
    + injection Ea as <- <-. by right; left.
Qed.


End Limits.

(** ** The metered stream *)

Definition billed (records : list (bool * Z)) : Z := foldr (λ r n, r.2 + n) 0 records.

Lemma billed_app xs ys : billed (xs ++ ys) = billed xs + billed ys.
Proof. induction xs as [|[]]; cbn; [done|]. unfold billed in *. lia. Qed.

Section Stream.
Context {W : Type} `{ConformingWriter W} (waits : nat → option err) (stream_Read : W → Z → W * (Z * option err)).

Lemma record_spec usage ingress n log log' e :
  record usage ingress n log = (log', e) → 0 ≤ n →
  ∃ new, log' = log ++ new ∧ Forall (λ r, r.1 = ingress ∧ 0 < r.2 ≤ n) new ∧ (nonnil usage = true → billed new = n) ∧ (nonnil usage = false → new = [] ∧ e = None).
Proof.
  unfold record. intros Hr Hn. destruct usage as [answer|]; [destruct (0 <? n) eqn:E|]; bools; injection Hr as <- <-.
  - exists [(ingress, n)]. split_and!; [done| |cbn; lia|done]. repeat constructor; cbn; lia.
  - exists []. rewrite app_nil_r. split_and!; try done. cbn. lia.
  - exists []. by rewrite app_nil_r.
Qed.

Lemma transfer_write_spec usage fuel k w log payload total :
  (length payload < fuel)%nat →
  ∃ t new sent_now, transfer waits usage stream_Read fuel true k w log payload total = Some t
    ∧ tr_records t = log ++ new ∧ Forall (λ r, r.1 = true ∧ 0 < r.2 ≤ ingressPacingChunk) new
    ∧ tr_total t = total + sent_now ∧ 0 ≤ sent_now ≤ blen payload
    ∧ sent (tr_stream t) = sent w ++ take (Z.to_nat sent_now) payload
    ∧ (nonnil usage = true → billed new = sent_now) ∧ (tr_err t = None → sent_now = blen payload).
Proof.
  revert k w log payload total. induction fuel as [|fuel IH]; intros k w log payload total Hf; [lia|]. cbn [transfer].
  pose proof (blen_nonneg payload) as Hnn.
  destruct (0 <? blen payload) eqn:Ep; bools.
  2: { exists (mkTransferred w log total None), [], 0. cbn. rewrite !app_nil_r. split_and!; try done; try lia. }
  destruct (waits k) as [e|].
  { exists (mkTransferred w log total (Some e)), [], 0. cbn. rewrite !app_nil_r. split_and!; try done; try lia. }
  set (chunk := Z.min (blen payload) ingressPacingChunk).
  assert (0 < chunk ≤ blen payload ∧ chunk ≤ ingressPacingChunk) as Hc by (unfold chunk, ingressPacingChunk; lia).
  pose proof (write_counts w (take (Z.to_nat chunk) payload)) as Hw.
  assert (blen (take (Z.to_nat chunk) payload) = chunk) as Hbl by (unfold blen in *; rewrite length_take; lia).
  destruct (Write w (take (Z.to_nat chunk) payload)) as [w1 [n e]]. destruct Hw as [Hn Hs]. rewrite Hbl in Hn.
  rewrite take_take, Nat.min_l in Hs by lia.
  destruct (record usage true n log) as [log1 ue] eqn:Er. destruct (record_spec _ _ _ _ _ _ Er) as (new & -> & Hnew & Hb & _); [lia|].
  assert (Forall (λ r : bool * Z, r.1 = true ∧ 0 < r.2 ≤ ingressPacingChunk) new) as Hnew'.
  { eapply Forall_impl; [exact Hnew|]. cbn. intros [] [? ?]. cbn in *. split; [done|lia]. }
  assert ((if 0 <? n then total + n else total) = total + n) as -> by (destruct (0 <? n) eqn:E; bools; lia).
  assert (∀ ef, ef ≠ None → ∃ t new0 sent_now, Some (mkTransferred w1 (log ++ new) (total + n) ef) = Some t
    ∧ tr_records t = log ++ new0 ∧ Forall (λ r : bool * Z, r.1 = true ∧ 0 < r.2 ≤ ingressPacingChunk) new0
    ∧ tr_total t = total + sent_now ∧ 0 ≤ sent_now ≤ blen payload
    ∧ sent (tr_stream t) = sent w ++ take (Z.to_nat sent_now) payload
    ∧ (nonnil usage = true → billed new0 = sent_now) ∧ (tr_err t = None → sent_now = blen payload)) as Hstop.
  { intros ef Hef. eexists _, new, n. cbn. split_and!; try done; lia. }
  destruct ue as [ue|]; [by apply Hstop|]. destruct e as [e|]; [by apply Hstop|]. destruct (n =? 0) eqn:En; [by apply Hstop|]. bools. cbn [negb].
  destruct (IH (S k) w1 (log ++ new) (drop (Z.to_nat n) payload) (total + n)) as (t & new' & m & -> & Hr & Hf' & Ht & Hm & Hs' & Hb' & He).
  { rewrite length_drop. unfold blen in *. lia. }
  assert (blen (drop (Z.to_nat n) payload) = blen payload - n) as Hd by (unfold blen in *; rewrite length_drop; lia). rewrite Hd in *.
  exists t, (new ++ new'), (n + m). split_and!; try done; try lia.
  - by rewrite Hr, app_assoc.
  - by apply Forall_app.
  - rewrite Hs', Hs, <- app_assoc. f_equal. replace (Z.to_nat (n + m)) with (Z.to_nat n + Z.to_nat m)%nat by lia. by rewrite <- take_take_drop.
  - intros Hu. rewrite billed_app, Hb, Hb' by done. lia.
  - intros Hn'. rewrite (He Hn'). lia.
Qed.


End Stream.

(** ** The authority *)

Section Authority.
Context `{Route.TextLib} `{AddrLib}.

(** The answer a snapshot asked for, if it asked. *)
Definition asked (now : Time) (a : IngressAuthority) : bool :=
  IsZero (ia_fetched a) || (IngressRefreshInterval <=? Sub now (ia_fetched a)).

Abbreviation answer_log := (list (Time * (err + (bool * list IngressDecision)))).

Inductive authority_run (nodeID epoch : string) : answer_log → IngressAuthority → Prop :=
| authority_new : authority_run nodeID epoch [] (mkAuthority nodeID epoch [] 0)
| authority_snapshot log a answer now fetchNow :
    authority_run nodeID epoch log a →
    authority_run nodeID epoch (if asked now a then (now, answer) :: log else log) (Authority_Snapshot answer now fetchNow a).2.

Lemma Snapshot_node answer now fetchNow a :
  ia_NodeID (Authority_Snapshot answer now fetchNow a).2 = ia_NodeID a
  ∧ ia_ProcessEpoch (Authority_Snapshot answer now fetchNow a).2 = ia_ProcessEpoch a.
Proof. unfold Authority_Snapshot. repeat case_match; done. Qed.

Lemma IngressDecisions_inr nodeID epoch answer now ds :
  IngressDecisions nodeID epoch answer now = inr ds →
  answer = inr (true, ds) ∧ Forall (λ d, Decision_Validate d now = None ∧ ig_EdgeNodeID d = nodeID ∧ ig_EdgeProcessEpoch d = epoch) ds.
Proof.
  unfold IngressDecisions. destruct (badID nodeID || _); [done|]. destruct answer as [|[complete l]]; [done|]. destruct (negb complete || _) eqn:E; [done|].
  destruct (existsb _ _) eqn:E'; [done|].
  intros [= ->]. bools. subst complete. split; [done|]. apply Forall_forall. intros d Hd%list_elem_of_In.
  destruct (failed (Decision_Validate d now) || (ig_EdgeNodeID d != nodeID) || (ig_EdgeProcessEpoch d != epoch)) eqn:Eb.
  - assert (existsb (λ d, failed (Decision_Validate d now) || (ig_EdgeNodeID d != nodeID) || (ig_EdgeProcessEpoch d != epoch)) ds = true);
      [apply existsb_exists; eauto|congruence].
  - bools. destruct (Decision_Validate d now); [done|]. done.
Qed.

(** What the cache holds is the last answer. *)
Definition cached_last (log : answer_log) (a : IngressAuthority) : Prop :=
  IsZero (ia_fetched a) = false →
  head log = Some (ia_fetched a, inr (true, ia_decisions a))
  ∧ Forall (λ d, ig_EdgeNodeID d = ia_NodeID a ∧ ig_EdgeProcessEpoch d = ia_ProcessEpoch a) (ia_decisions a).

Lemma Snapshot_last log answer now fetchNow a :
  cached_last log a → cached_last (if asked now a then (now, answer) :: log else log) (Authority_Snapshot answer now fetchNow a).2.
Proof.
  intros Hc. unfold Authority_Snapshot. fold (asked now a). destruct (asked now a); [|done].
  destruct (IngressDecisions _ _ _ _) as [e|ds] eqn:E; [by intros ?|]. apply IngressDecisions_inr in E as [-> Hf]. intros _. cbn. split; [done|].
  eapply Forall_impl; [exact Hf|]. intros d (_ & ? & ?). done.
Qed.

Lemma authority_run_last nodeID epoch log a :
  authority_run nodeID epoch log a → cached_last log a ∧ ia_NodeID a = nodeID ∧ ia_ProcessEpoch a = epoch.
Proof.
  induction 1 as [|log a answer now fetchNow _ (Hc & Hn & He)]; [done|].
  destruct (Snapshot_node answer now fetchNow a) as [-> ->]. split; [by apply Snapshot_last|done].
Qed.

(** A route is opened only on authority that is at most five seconds old: the decision was
    valid when it was used, it is for this rule, this edge and this process, and it is in the
    last answer of the control plane, which was complete and was fetched less than the
    refresh interval ago; so a decision the control plane dropped, or an answer that failed,
    closes the route within that interval. *)
Theorem ingress_authority_recent nodeID epoch log a answer now fetchNow checkNow r d a' :
  authority_run nodeID epoch log a → IsZero now = false → Authority_Resolve answer now fetchNow checkNow r a = (inr d, a') →
  serves_rule r d = true ∧ (∃ i, Decision_Validate d (checkNow i) = None)
  ∧ ig_EdgeNodeID d = nodeID ∧ ig_EdgeProcessEpoch d = epoch
  ∧ ∃ at_ ds, head (if asked now a then (now, answer) :: log else log) = Some (at_, inr (true, ds))
      ∧ In d ds ∧ Sub now at_ < 5 * Second.
Proof.
  intros R Hnow. destruct (authority_run_last _ _ _ _ R) as (Hc & Hn & He).
  pose proof (Snapshot_last log answer now fetchNow a Hc) as Hc'. pose proof (Snapshot_node answer now fetchNow a) as [Hn' He'].
  unfold Authority_Resolve. destruct (Authority_Snapshot answer now fetchNow a) as [[e|ds] a1] eqn:Es; [done|]. cbn [snd] in *.
  destruct (List.find _ _) as [[i d0]|] eqn:Ef; [|done]. intros [= -> ->]. apply find_some in Ef as [Hin Hs]. cbn in Hs. bools.
  apply in_combine_r in Hin. destruct (Decision_Validate d (checkNow i)) eqn:Ev; [done|].
  assert (IsZero (ia_fetched a') = false ∧ ds = ia_decisions a' ∧ Sub now (ia_fetched a') < 5 * Second) as (Hz & -> & Hold).
  { unfold Authority_Snapshot in Es. fold (asked now a) in Es. destruct (asked now a) eqn:Ea.
    - destruct (IngressDecisions _ _ _ _); [done|]. injection Es as <- <-. cbn. split_and!; try done. unfold Sub. rewrite Z.sub_diag. done.
    - injection Es as <- <-. unfold asked in Ea. bools. split_and!; try done. }
  destruct (Hc' Hz) as [Hlast Hall]. rewrite Forall_forall in Hall. specialize (Hall d ltac:(by apply list_elem_of_In)) as [? ?].
  split_and!; [done|by exists i|congruence..|]. by exists (ia_fetched a'), (ia_decisions a').
Qed.

End Authority.

(** ** One publication with room for one connection *)

Module Sample.
Import Wire.

#[local] Instance sample_text : Route.TextLib := {|
  Route.unicode_lower := λ s, s; Route.ToASCII := Some; Route.isIP := λ _, false; Route.ValidUTF8 := λ _, true |}.
#[local] Instance sample_addr : AddrLib := λ s, s == "127.0.0.1".
(** A bucket that is never refilled. *)
#[local] Instance sample_rate : RateLimiter Z Z := {|
  positive := λ r, 0 <? r; NewLimiter := λ _ b, b; has_token := λ l _, 1 <=? l; is_full := λ _ _, false; AllowN := λ l _ n, l - n |}.

Definition config (connections : Z) : IngressLimitConfig Z := mkLimitConfig connections 10 32 8388608 262144.

Definition binding0 : IngressBinding :=
  mkIngressBinding "env" "acct" "tun" "durable" 1 "route" 1 "target" 1 "host" 1 "public" "edge" "http" "app.example.com" "/"
    "http" "127.0.0.1:8080" "" "not_applicable" "" "" "pub" 1 "" 0.

Definition t0 : Time := 1000 * Second.
Definition decision0 : IngressDecision :=
  mkDecision binding0 "decision" 1 "edge" "epoch-0123456789abcdef0123456789abcdef" "con" "sess" 1 1 1 "" "" 0 0 "view" t0 (t0 + 10 * Second).

Definition rule0 : Route.RouteRule :=
  Route.mkRule "route" 1 1 "" 1 "asg" 1 "tunnel" 1 "env" "acct" "host" "" "" "tun" "con" "sess" 1 1 "" "edge" "" "" "https" "exact"
    "app.example.com" "" "/" 0 "" "http" "" 0 "http" "public" false "" "active" "active" "".

Definition limits0 : IngressLimits Z Z := mkLimits (config 1) (config 2) ∅ ∅ ∅ ∅.
Definition limits1 : IngressLimits Z Z := (AcquireIngress decision0 t0 t0 limits0).2.

Lemma run1 : limits_run (config 1) (config 2) limits1.
Proof. apply run_acquire, run_new. reflexivity. Qed.


Definition authority0 : IngressAuthority := mkAuthority "edge" "epoch-0123456789abcdef0123456789abcdef" [] 0.
Definition answer0 : err + (bool * list IngressDecision) := inr (true, [decision0]).
Definition authority1 : IngressAuthority := (Authority_Snapshot answer0 t0 t0 authority0).2.

Lemma ingress_authority_recent_witness :
  (Authority_Resolve (inl ErrControlUnavailable) (t0 + 4 * Second) 0 (λ _, t0 + 4 * Second) rule0 authority1).1 = inr decision0
  ∧ (Authority_Resolve (inl ErrControlUnavailable) (t0 + 5 * Second) 0 (λ _, t0 + 5 * Second) rule0 authority1).1 = inl ErrControlUnavailable
  ∧ ∃ at_ ds, [(t0, answer0)] !! 0%nat = Some (at_, inr (true, ds)) ∧ In decision0 ds ∧ Sub (t0 + 4 * Second) at_ < 5 * Second.
Proof.
  assert (authority_run "edge" "epoch-0123456789abcdef0123456789abcdef" [(t0, answer0)] authority1) as R
    by exact (authority_snapshot _ _ [] authority0 answer0 t0 t0 (authority_new _ _)).
  destruct (Authority_Resolve (inl ErrControlUnavailable) (t0 + 4 * Second) 0 (λ _, t0 + 4 * Second) rule0 authority1) as [res a'] eqn:E.
  assert (res = inr decision0) as -> by (vm_compute in E; injection E as <- _; reflexivity).
  split; [reflexivity|]. split; [vm_compute; reflexivity|].
  exact (proj2 (proj2 (proj2 (proj2 (ingress_authority_recent _ _ _ _ _ (t0 + 4 * Second) _ _ _ _ _ R eq_refl E))))).
Defined.


End Sample.
End IngressProofs.
