(* ===== verification/HTTP.v ===== *)
(** * HTTP headers and cookies

    The parts of [net/http] and [net/textproto] the edge policy is written with: header maps
    with canonical keys, the cookies of a request, what a handler sends back, and the pieces
    of [net/url] as the interface [URLLib]. *)
From S2P Require Import Prelude Go Strings Protocol Route StreamFrames PreviewAdmission Ingress.

(** [*url.URL], with the text [String] prints. *)
Record URL := mkURL {
  u_Scheme : string;
  u_Host : string;
  u_User : bool;                        (** [User != nil] *)
  u_Path : string;
  u_RawQuery : string;
  u_Fragment : string;
  u_String : string
}.

Class URLLib := {
  url_Parse : string → option URL;
  ParseRequestURI : string → option URL;
  QueryEscape : string → string
}.

Module HTTP.

(** ** Header keys *)

Definition token_byte (b : byte) : bool :=
  is_alnum b || one_of [33; 35; 36; 37; 38; 39; 42; 43; 45; 46; 94; 95; 96; 124; 126] b.

Definition upper_byte (b : byte) : byte := if is_lower b then byte_of_Z (byte_to_Z b - 32) else b.

Fixpoint canonical_bytes (upper : bool) (b : bytes) : bytes :=
  match b with
  | [] => []
  | c :: b => (if upper then upper_byte c else lower_byte c) :: canonical_bytes (byte_to_Z c =? 45) b
  end.

(** [textproto.CanonicalMIMEHeaderKey]. *)
Definition CanonicalKey (s : string) : string :=
  if forallb token_byte (sbytes s) then bstring (canonical_bytes true (sbytes s)) else s.

Abbreviation Header := (gmap string (list string)).

Definition Values (h : Header) (key : string) : list string := default [] (h !! CanonicalKey key).
Definition Get (h : Header) (key : string) : string := default "" (head (Values h key)).
Definition Del (key : string) (h : Header) : Header := delete (CanonicalKey key) h.
Definition Set_ (key value : string) (h : Header) : Header := <[CanonicalKey key := [value]]> h.
Definition Add (key value : string) (h : Header) : Header := <[CanonicalKey key := Values h key ++ [value]]> h.

(** A [range] loop that deletes the names it selects. *)
Definition del_selected (select : string → bool) (h : Header) : Header :=
  foldr (λ name h, if select name then Del name h else h) h (elements (dom h)).

(** ** Strings *)

(** [strings.Cut] at a one-byte separator. *)
Definition Cut (s : string) (sep : Z) : option (string * string) :=
  match IndexByte (sbytes s) sep with
  | Some i => Some (bstring (take i (sbytes s)), bstring (drop (S i) (sbytes s)))
  | None => None
  end.

(** [textproto.TrimString]. *)
Definition ascii_space (b : byte) : bool := one_of [32; 9; 10; 13] b.

Fixpoint trim_left (p : byte → bool) (b : bytes) : bytes :=
  match b with
  | c :: b' => if p c then trim_left p b' else b
  | [] => []
  end.

Definition trim_bytes (p : byte → bool) (b : bytes) : bytes := rev (trim_left p (rev (trim_left p b))).
Definition TrimString (s : string) : string := bstring (trim_bytes ascii_space (sbytes s)).

(** ** Cookies of a request *)

Definition cookie_value_byte (b : byte) : bool :=
  (32 <=? byte_to_Z b) && (byte_to_Z b <? 127) && negb (one_of [34; 59; 92] b).

(** [parseCookieValue], which allows quotes around a value. *)
Definition parseCookieValue (raw : string) : option string :=
  let b := sbytes raw in
  let b := match b with
           | c :: rest => if bool_decide (1 < length b)%nat && (byte_to_Z c =? 34) && (byte_to_Z (List.last b x00) =? 34)
                          then removelast rest else b
           | [] => b
           end in
  if forallb cookie_value_byte b then Some (bstring b) else None.

Definition isToken (s : string) : bool := (s != "") && forallb token_byte (sbytes s).

Definition cookie_of (part : string) : option (string * string) :=
  let part := TrimString part in
  if part == "" then None
  else
    let '(name, val) := default (part, "") (Cut part 61) in
    let name := TrimString name in
    if negb (isToken name) then None
    else match parseCookieValue val with Some val => Some (name, val) | None => None end.

(** [Request.Cookies]: the names and values. *)
Definition Cookies (h : Header) : list (string * string) :=
  default [] (h !! "Cookie") ≫= λ line, omap cookie_of (Split (TrimString line) 59).

(** ** Requests and answers *)

Section Requests.
Context {D : Type}.

(** A request with what the policy keeps in its context: the matched route and the decision
    of a browser. *)
Record Request := mkRequest {
  hr_Method : string;
  hr_Host : string;
  hr_URL : URL;
  hr_RequestURI : string;               (** [URL.RequestURI()] *)
  hr_Header : Header;
  hr_ContentLength : Z;
  hr_RemoteAddr : string;
  hr_match : option Route.RouteMatch;
  hr_decision : option D
}.
#[export] Instance Request_eta : Eta Request := λ r,
  mkRequest (hr_Method r) (hr_Host r) (hr_URL r) (hr_RequestURI r) (hr_Header r) (hr_ContentLength r) (hr_RemoteAddr r)
    (hr_match r) (hr_decision r).
End Requests.
Arguments Request : clear implicits.

Record SetCookie := mkCookie {
  sc_Name : string;
  sc_Value : string;
  sc_SameSite : string;
  sc_Expires : Time;                    (** 0 is unset *)
  sc_MaxAge : Z
}.

(** What a handler answered: the headers it set, its cookies, all of them for the path [/],
    secure and hidden from scripts, the status, the text of an error and the target of a
    redirect. *)
Record Answer := mkAnswer {
  an_Header : Header;
  an_Cookies : list SetCookie;
  an_Status : Z;
  an_Body : string;
  an_Location : string
}.

Definition Error (h : Header) (cookies : list SetCookie) (body : string) (status : Z) : Answer := mkAnswer h cookies status body "".
Definition NotFound (h : Header) : Answer := Error h [] "404 page not found" 404.
Definition Redirect (h : Header) (cookies : list SetCookie) (location : string) : Answer := mkAnswer h cookies 303 "" location.

Definition StatusText (status : Z) : string :=
  if status =? 401 then "Unauthorized" else if status =? 403 then "Forbidden" else if status =? 404 then "Not Found"
  else if status =? 410 then "Gone" else if status =? 502 then "Bad Gateway" else if status =? 503 then "Service Unavailable"
  else if status =? 200 then "OK" else "".

Definition StatusError (h : Header) (status : Z) : Answer := Error h [] (StatusText status) status.

Section Upgrade.
Context `{FoldLib}.

Definition isWebSocketUpgrade (h : Header) : bool :=
  EqualFold (TrimSpace (Get h "Upgrade")) "websocket"
  && existsb (λ value, EqualFold (TrimSpace value) "upgrade") (Split (Get h "Connection") 44).
End Upgrade.

Example header_examples :
  CanonicalKey "x-paperboat-private-carrier" = "X-Paperboat-Private-Carrier" ∧ CanonicalKey "a b" = "a b" ∧ CanonicalKey "TE" = "Te"
  ∧ Cookies {["Cookie" := ["a=1; b=x y;; =2; c"; " d =3"]]} = [("a", "1"); ("b", "x y"); ("c", ""); ("d", "3")].
Proof. vm_compute. auto. Qed.

End HTTP.

(** * Browser access to restricted routes

    Models [internal/edgehttp/browser_access.go]: the cookies and headers reserved for the
    edge, the login hand-over, the authorization of a request by a decision of the control
    plane, and the loop that renews it while the request runs.  The control plane is the
    record [BrowserAuthority]; its contexts and timeouts are part of its answers. *)

Module Browser.
Import HTTP Ingress.
Import Route (RouteMatch, rm_Rule, rm_Host, rr_ID, rr_RouteID, rr_RouteGeneration, rr_Revision, rr_AccountID, rr_ResourceKind, rr_TunnelID,
  rr_AccessMode, rr_Node, rr_EdgeProcessEpoch, rr_ConnectorID, rr_ConnectorSessionID, rr_ConnectorProcessGeneration, rr_ConfigGeneration,
  rr_Kind, PreviewHTTPSWSS, TextLib, lower).

Definition browserCallbackPath := "/.paperboat/access/callback".
Definition browserEdgeCookie := "__Host-pb-edge".
Definition browserHandoffCookie := "__Host-pb-handoff".
Definition dataCarrierPreviewPrivateRouteKind := "preview_private_https_wss".

Definition ErrBrowserUnauthenticated := "browser authentication required".
Definition ErrBrowserDenied := "browser resource unavailable".
Definition ErrLazyHostOffline := "lazy preview host offline".
Definition ErrLazyOriginUnavailable := "lazy preview origin unavailable".
Definition ErrLazyActivationTimeout := "lazy preview activation timed out".
Definition ErrLazyGenerationConflict := "lazy preview generation changed".
Definition ErrLazyForwardingFailed := "lazy preview forwarding failed".
Definition ErrLazyCooldown := "lazy preview activation cooling down".
Definition ErrLazyCapacity := "lazy preview activation capacity exceeded".
Definition DeadlineExceeded := "context deadline exceeded".

Record BrowserBegin := mkBegin { bb_TransactionID : string; bb_State : string; bb_ExpiresAt : Time }.
Record BrowserSession := mkSession { bs_Token : string; bs_ReturnPath : string; bs_ExpiresAt : Time }.
Record BrowserAuthorizeRequest := mkAuthorizeRequest {
  ba_Token : string;
  ba_Host : string;
  ba_ResourceKind : string;
  ba_ResourceID : string;
  ba_RouteID : string;
  ba_CredentialKind : string
}.

Record BrowserAuthority := mkBrowserAuthority {
  Begin : string → string → err + BrowserBegin;
  Redeem : string → string → string → string → err + BrowserSession;
  Authorize : BrowserAuthorizeRequest → err + IngressDecision;
  Activates : option (BrowserAuthorizeRequest → option err)             (** the authority is a [LazyAuthority] *)
}.

Record BrowserAccess := mkBrowserAccess {
  bw_Authority : option BrowserAuthority;
  bw_LazyAuthority : option (BrowserAuthorizeRequest → option err);     (** [Activate], without the decision it returns *)
  bw_LoginOrigin : string
}.

Section Access.
Context `{TextLib} `{FoldLib} `{URLLib} `{AddrLib}.
Implicit Types r : Request IngressDecision.

(** [dispatchHost] of the policy. *)
Definition dispatchHost (value : string) : option string :=
  let host := lower (TrimSuffix (TrimSpace value) ".") in
  if (host == "") || ContainsAny host [13; 10; 0; 32; 47; 63] then None
  else
    let valid host := if (host == "") || Route.isIP host then None else Some host in
    match SplitHostPort host with
    | Some (parsed, _) => valid parsed
    | None => if ContainsByte host 58 then None else valid host
    end.

Definition reservedBrowserCookie (name : string) : bool :=
  let n := lower name in
  HasPrefix n "__host-pb-" || HasPrefix n "pb-dev-" || HasPrefix n "paperboat_".

(** The parts of the cookie lines that stay. *)
Definition kept_cookies (h : Header) : list string :=
  Values h "Cookie" ≫= λ line,
    omap (λ part, match Cut (TrimSpace part) 61 with
                  | Some (name, _) => if reservedBrowserCookie name then None else Some (TrimSpace part)
                  | None => None
                  end) (Split line 59).

Definition stripBrowserRequestCredentials (h : Header) : Header :=
  let h := del_selected (λ name, HasPrefix (lower name) "paperboat-") h in
  let cookies := kept_cookies h in
  let h := Del "Cookie" h in
  if bool_decide (cookies = []) then h else Set_ "Cookie" (String.concat "; " cookies) h.

Definition stripBrowserResponseCredentials (h : Header) : Header :=
  let values := Values h "Set-Cookie" in
  let h := Del "Set-Cookie" h in
  let h := fold_left (λ h value, match Cut value 61 with
                                 | Some (name, _) => if reservedBrowserCookie (TrimSpace name) then h else Add "Set-Cookie" value h
                                 | None => h
                                 end) values h in
  del_selected (λ name, HasPrefix (lower name) "paperboat-" || HasPrefix (lower name) "x-paperboat-") h.

Definition validate (b : BrowserAccess) : bool :=
  nonnil (bw_Authority b)
  && match url_Parse (bw_LoginOrigin b) with
     | Some u => (u_Scheme u == "https") && (u_Host u != "") && negb (u_User u) && (u_Path u == "") && (u_RawQuery u == "")
                 && (u_Fragment u == "") && (u_String u == bw_LoginOrigin b)
     | None => false
     end.

(** The value of the only cookie of this name. *)
Definition browserCookie r (name : string) : option string :=
  match List.filter (λ c, c.1 == name) (Cookies (hr_Header r)) with
  | [(_, value)] => if value == "" then None else Some value
  | _ => None
  end.

Fixpoint has_duplicate (seen : list string) (names : list string) : bool :=
  match names with
  | [] => false
  | n :: names => if bool_decide (n ∈ seen) then true else has_duplicate (n :: seen) names
  end.

Definition browserReservedDuplicates r : bool :=
  has_duplicate [] (List.filter (λ n, HasPrefix (lower n) "__host-pb-") (fst <$> Cookies (hr_Header r))).

Definition browserSecurityHeaders (h : Header) : Header :=
  Set_ "X-Content-Type-Options" "nosniff"
    (Set_ "Content-Security-Policy" "default-src 'none'; frame-ancestors 'none'; form-action 'none'"
      (Set_ "Referrer-Policy" "no-referrer" (Set_ "Cache-Control" "no-store" h))).

Definition clearBrowserHandoff : SetCookie := mkCookie browserHandoffCookie "" "None" 0 (-1).

Definition safeBrowserReturn (path : string) : bool :=
  if (len path =? 0) || (2048 <? len path) || negb (HasPrefix path "/") || HasPrefix path "//" || ContainsAny path [92; 13; 10; 0]
  then false
  else match ParseRequestURI path with
  | Some u => (u_Scheme u == "") && (u_Host u == "") && negb (u_User u) && negb (HasPrefix (u_Path u) "//")
              && negb (ContainsAny (u_Path u) [92; 13; 10; 0])
  | None => false
  end.

Definition browserNavigation r : bool :=
  ((hr_Method r == "GET") || (hr_Method r == "HEAD")) && (Get (hr_Header r) "Sec-Fetch-Mode" == "navigate")
  && (Get (hr_Header r) "Sec-Fetch-Dest" == "document") && negb (isWebSocketUpgrade (hr_Header r)).

Definition browserError (h : Header) (cookies : list SetCookie) (e : err) : Answer :=
  if Is e ErrBrowserUnauthenticated then Error h cookies "Authentication required" 401
  else if Is e ErrBrowserDenied then Error h cookies "404 page not found" 404
  else Error h cookies "Browser authorization unavailable" 503.

(** [callback]; [form] is the parsed body, [None] when it does not parse. *)
Definition callback (b : BrowserAccess) (form : option (gmap string (list string))) (now : Time) r : Answer :=
  let h := browserSecurityHeaders ∅ in
  match bw_Authority b with
  | None => Error h [] "Browser access unavailable" 503
  | Some authority =>
      if negb (validate b) then Error h [] "Browser access unavailable" 503
      else if (hr_Method r != "POST") || negb (Z.of_nat (length (Values (hr_Header r) "Origin")) =? 1)
              || (Get (hr_Header r) "Origin" != bw_LoginOrigin b) || browserReservedDuplicates r
      then Error h [] "Invalid login return" 403
      else match browserCookie r browserHandoffCookie with
      | None => Error h [] "Login transaction expired" 401
      | Some state =>
          match (if Get (hr_Header r) "Content-Type" == "application/x-www-form-urlencoded" then form else None) with
          | None => Error h [] "Invalid login return" 400
          | Some form =>
              match form !! "transaction_id", form !! "handoff" with
              | Some [transaction_id], Some [handoff] =>
                  if negb (Z.of_nat (size form) =? 2) then Error h [] "Invalid login return" 400
                  else match Cut state 46 with
                  | None => Error h [] "Invalid login return" 403
                  | Some (transaction, nonce) =>
                      if transaction != transaction_id then Error h [] "Invalid login return" 403
                      else match dispatchHost (hr_Host r) with
                      | None => Error h [] "Invalid login return" 400
                      | Some host =>
                          if hr_Host r != host then Error h [] "Invalid login return" 400
                          else match Redeem authority transaction nonce handoff host with
                          | inl e => browserError h [clearBrowserHandoff] e
                          | inr session =>
                              if (bs_Token session == "") || negb (After (bs_ExpiresAt session) now) || negb (safeBrowserReturn (bs_ReturnPath session))
                              then Error h [clearBrowserHandoff] "Browser access unavailable" 503
                              else Redirect h [clearBrowserHandoff; mkCookie browserEdgeCookie (bs_Token session) "Lax" (bs_ExpiresAt session) 0]
                                     (bs_ReturnPath session)
                          end
                      end
                  end
              | _, _ => Error h [] "Invalid login return" 400
              end
          end
      end
  end.

Definition lazyActivationError (h : Header) (e : err) : Answer :=
  if Is e ErrBrowserUnauthenticated then Error h [] "Authentication required" 401
  else if Is e ErrBrowserDenied then NotFound h
  else if Is e ErrLazyGenerationConflict then Error h [] "Preview policy generation changed" 409
  else if Is e ErrLazyCapacity then Error (Set_ "Retry-After" "1" h) [] "Lazy preview activation capacity exceeded" 429
  else if Is e ErrLazyForwardingFailed then Error h [] "Preview forwarding failed; no request was replayed" 503
  else if Is e ErrLazyCooldown
  then Error (Set_ "Retry-After" "2" h) [] "Preview activation recently failed; retry after two seconds" 503
  else if Is e ErrLazyHostOffline then Error h [] "Preview host is offline" 503
  else if Is e ErrLazyOriginUnavailable then Error h [] "Preview origin is unavailable" 503
  else if Is e ErrLazyActivationTimeout || Is e DeadlineExceeded then Error h [] "Preview activation timed out" 504
  else Error h [] "Preview activation unavailable" 503.

Definition lazyAuthority (b : BrowserAccess) : option (BrowserAuthorizeRequest → option err) :=
  match bw_LazyAuthority b with
  | Some activate => Some activate
  | None => match bw_Authority b with Some authority => Activates authority | None => None end
  end.

Definition activateLazy (b : BrowserAccess) (host token : string) (machine : bool) : option err :=
  match lazyAuthority b with
  | None => Some ErrControlUnavailable
  | Some activate => activate (mkAuthorizeRequest token host "lazy_policy" "" "" (if machine then "machine" else ""))
  end.

Definition begin (b : BrowserAccess) (now : Time) r (host : string) : Answer :=
  let h := browserSecurityHeaders ∅ in
  if negb (browserNavigation r) then Error h [] "Authentication required" 401
  else
    let path := hr_RequestURI r in
    if negb (safeBrowserReturn path) then Error h [] "Invalid return path" 400
    else match bw_Authority b with
    | None => Error h [] "Browser authorization unavailable" 503
    | Some authority =>
        match Begin authority host path with
        | inl e => browserError h [] e
        | inr tx =>
            if (bb_TransactionID tx == "") || (bb_State tx == "") || ContainsByte (bb_TransactionID tx) 46 || negb (After (bb_ExpiresAt tx) now)
            then Error h [] "Browser authorization unavailable" 503
            else Redirect h [mkCookie browserHandoffCookie (bb_TransactionID tx +:+ "." +:+ bb_State tx) "None" (bb_ExpiresAt tx) 0]
                   (bw_LoginOrigin b +:+ "/.paperboat/access/login?transaction_id=" +:+ QueryEscape (bb_TransactionID tx))
        end
    end.

(** ** Decisions *)

Definition browserDecisionMatches (d : IngressDecision) (m : RouteMatch) (now : Time) : bool :=
  let r := rm_Rule m in
  let b := ig_Binding d in
  let id := if rr_RouteID r == "" then rr_ID r else rr_RouteID r in
  let generation := if rr_RouteGeneration r =? 0 then rr_Revision r else rr_RouteGeneration r in
  negb (failed (Decision_Validate d now)) && (ib_Hostname b == rm_Host m) && (ib_RouteID b == id) && (ib_RouteGeneration b =? generation)
  && (ib_AccountID b == rr_AccountID r)
  && ((rr_ResourceKind r == "preview") && (ib_PublicationID b == rr_TunnelID r)
      || (rr_ResourceKind r != "preview") && (ib_TunnelID b == rr_TunnelID r))
  && (ib_Audience b == rr_AccessMode r) && (ig_EdgeNodeID d == rr_Node r) && (ig_EdgeProcessEpoch d == rr_EdgeProcessEpoch r)
  && (ig_ConnectorID d == rr_ConnectorID r) && (ig_SessionID d == rr_ConnectorSessionID r)
  && (ig_ProcessGeneration d =? rr_ConnectorProcessGeneration r) && (ig_ConfigGeneration d =? rr_ConfigGeneration r).

Definition authorize_input r (m : RouteMatch) (token : string) (machine : bool) : BrowserAuthorizeRequest :=
  let rule := rm_Rule m in
  let kind := if rr_ResourceKind rule == ""
              then if (rr_Kind rule == PreviewHTTPSWSS) || (rr_Kind rule == dataCarrierPreviewPrivateRouteKind) then "preview" else "tunnel"
              else rr_ResourceKind rule in
  let id := if rr_RouteID rule == "" then rr_ID rule else rr_RouteID rule in
  mkAuthorizeRequest token (rm_Host m) kind (rr_TunnelID rule) id (if machine then "machine" else "").

(** The goroutine that renews a decision: the decision of the request, when it ends, and
    whether the context of the request was cancelled. *)
Record refresher := mkRefresher {
  rf_input : BrowserAuthorizeRequest;
  rf_decision : IngressDecision;
  rf_deadline : Time;
  rf_cancelled : bool
}.

(** The credential of a request: none, a bad one, or a token and whether it is a machine's. *)
Definition access_token r : option (option (string * bool)) :=
  match Values (hr_Header r) "Paperboat-Access-Token" with
  | [] => match browserCookie r browserEdgeCookie with Some token => Some (Some (token, false)) | None => Some None end
  | [value] => if (value == "") || (TrimSpace value != value) then None else Some (Some (value, true))
  | _ => None
  end.

(** [authorize]: an answer that ends the request, or the request with its decision and the
    goroutine that renews it.  [started] and [now] are the readings before and after the
    lookup. *)
Definition authorize (b : BrowserAccess) r (m : RouteMatch) (started now : Time) : Answer + (Request IngressDecision * refresher) :=
  match bw_Authority b with
  | None => inl (Error ∅ [] "Browser access unavailable" 503)
  | Some authority =>
      if negb (validate b) then inl (Error ∅ [] "Browser access unavailable" 503)
      else if browserReservedDuplicates r then inl (Error ∅ [] "Invalid access cookie" 401)
      else match access_token r with
      | None => inl (Error ∅ [] "Invalid access credential" 401)
      | Some None => inl (begin b started r (rm_Host m))
      | Some (Some (token, machine)) =>
          if negb machine
             && ((hr_Method r != "GET") && (hr_Method r != "HEAD") && (hr_Method r != "OPTIONS") || isWebSocketUpgrade (hr_Header r))
             && (negb (Z.of_nat (length (Values (hr_Header r) "Origin")) =? 1) || (Get (hr_Header r) "Origin" != "https://" +:+ rm_Host m))
          then inl (Error ∅ [] "Origin is not authorized" 403)
          else
            let input := authorize_input r m token machine in
            match Authorize authority input with
            | inl e => inl (browserError ∅ [] e)
            | inr d =>
                if negb (browserDecisionMatches d m now) then inl (NotFound ∅)
                else inr (r <| hr_decision := Some d |>,
                          mkRefresher input d (started + Sub (ig_ExpiresAt d) (ig_IssuedAt d)) false)
            end
      end
  end.

(** One round of the renewing goroutine. *)
Definition refresh_tick (m : RouteMatch) (answer : err + IngressDecision) (start now : Time) (f : refresher) : refresher :=
  if rf_cancelled f then f
  else match answer with
  | inl _ => mkRefresher (rf_input f) (rf_decision f) (rf_deadline f) true
  | inr next =>
      let prior := rf_decision f <| ig_IssuedAt := ig_IssuedAt next |> <| ig_ExpiresAt := ig_ExpiresAt next |>
                     <| ig_DecisionID := ig_DecisionID next |> in
      if negb (browserDecisionMatches next m now) || (prior != next)
      then mkRefresher (rf_input f) (rf_decision f) (rf_deadline f) true
      else mkRefresher (rf_input f) next (start + Sub (ig_ExpiresAt next) (ig_IssuedAt next)) false
  end.

Definition refresh_expire (f : refresher) : refresher := mkRefresher (rf_input f) (rf_decision f) (rf_deadline f) true.

Definition hasBrowserDecision r (m : RouteMatch) (now : Time) : bool :=
  match hr_decision r with Some d => browserDecisionMatches d m now | None => false end.

End Access.
End Browser.
