(* ===== verification/PrivateAccess.v ===== *)
(** * Private access of machines

    Models [internal/edgehttp/private_connection.go], [internal/edgehttp/private_access_stream.go]
    and the decision check of [internal/control/private_access_grant.go]: an authenticated
    machine opens a stream on its carrier with a signed grant, the control plane allows it,
    the edge dials its own gateway and registers the connection with the request that was
    allowed, and a request on a private route is served only on such a connection. *)
From S2P Require Import Prelude Go Strings Protocol Route StreamFrames Carrier Ingress.

Module PrivateAccess.
Import StreamFrames Ingress.
Import Carrier (Identity, id_AccountID, id_HostID, id_TunnelID, id_ConnectorID, id_SessionID, id_ProcessGeneration, id_Generation).
Import Route.

Definition ErrPrivateConnectionInvalid : err := EPlain "invalid private access connection".
Definition ErrPrivateAccessStreamInvalid : err := EPlain "invalid private access stream bridge".
Definition ErrPrivateAccessGrantInvalid : err := EPlain "invalid private access grant authorization".
Definition ErrPrivateAccessGrantUnauthorized := "private access machine authentication required".
Definition ErrPrivateAccessGrantForbidden := "private access route forbidden".
Definition ErrPrivateAccessGrantUnavailable : err := EPlain "private access authorization unavailable".

(** ** Connections of the edge to its gateway *)

Record privateConnectionEntry := mkEntry {
  pe_request : PrivateAccessRequest;
  pe_expires : Time;
  pe_token : Z
}.

Record PrivateAccessConnectionRegistry := mkConnections {
  pc_next : Z;
  pc_maximum : Z;
  pc_entries : gmap string privateConnectionEntry;
  pc_closed : bool
}.
#[export] Instance PrivateAccessConnectionRegistry_eta : Eta PrivateAccessConnectionRegistry := λ r,
  mkConnections (pc_next r) (pc_maximum r) (pc_entries r) (pc_closed r).

Definition NewPrivateAccessConnectionRegistry (maximum : Z) : err + PrivateAccessConnectionRegistry :=
  if (maximum <? 1) || (4096 <? maximum) then inl ErrPrivateConnectionInvalid else inr (mkConnections 0 maximum ∅ false).

Definition hostOnly (address : string) : string := match SplitHostPort address with Some (host, _) => host | None => "" end.

Section Connections.
Context `{TextLib}.

(** [Register]; [now] and [now'] are its two readings of the clock. *)
Definition Register (address : string) (request : PrivateAccessRequest) (expires now now' : Time) (r : PrivateAccessConnectionRegistry)
    : (err + Z) * PrivateAccessConnectionRegistry :=
  if negb (isIP (hostOnly address)) || failed (AccessRequest_Validate request now) || negb (expires =? pa_ExpiresAt request)
     || negb (After expires now')
  then (inl ErrPrivateConnectionInvalid, r)
  else if pc_closed r || negb (nonnil (pc_entries r !! address)) && (pc_maximum r <=? Z.of_nat (size (pc_entries r)))
  then (inl ErrPrivateConnectionInvalid, r)
  else let token := u64 (pc_next r + 1) in
       (inr token, r <| pc_next := token |> <| pc_entries := <[address := mkEntry request expires token]> (pc_entries r) |>).

Definition Remove (address : string) (token : Z) (r : PrivateAccessConnectionRegistry) : PrivateAccessConnectionRegistry :=
  match pc_entries r !! address with
  | Some v => if pe_token v =? token then r <| pc_entries := delete address (pc_entries r) |> else r
  | None => r
  end.

(** The request of a connection names exactly this route. *)
Definition connection_matches (q : PrivateAccessRequest) (m : RouteMatch) : bool :=
  let rule := rm_Rule m in
  let routeID := if rr_RouteID rule == "" then rr_ID rule else rr_RouteID rule in
  let routeGeneration := if rr_RouteGeneration rule =? 0 then rr_Revision rule else rr_RouteGeneration rule in
  (pa_Host q == rm_Host m) && (pa_ResourceKind q == rr_ResourceKind rule) && (pa_RouteID q == routeID)
  && (pa_RouteGeneration q =? routeGeneration) && (pa_AccountID q == rr_AccountID rule)
  && ((pa_ResourceID q == rr_TunnelID rule) || (pa_ResourceID q == rr_Environment rule)) && (pa_ConnectorID q == rr_ConnectorID rule)
  && (pa_CarrierSessionID q == rr_ConnectorSessionID rule) && (pa_ProcessGeneration q =? rr_ConnectorProcessGeneration rule)
  && (pa_ConfigGeneration q =? rr_ConfigGeneration rule) && (pa_SessionGeneration q =? rr_SessionGeneration rule)
  && (pa_AssignmentGeneration q =? rr_AssignmentGeneration rule) && (pa_EdgeNodeID q == rr_Node rule)
  && (pa_EdgeProcessEpoch q == rr_EdgeProcessEpoch rule).

Definition Connection_Authorize (address : string) (m : RouteMatch) (now : Time) (r : PrivateAccessConnectionRegistry)
    : Z * bool * PrivateAccessConnectionRegistry :=
  match pc_entries r !! address with
  | None => (401, false, r)
  | Some entry =>
      if negb (After (pe_expires entry) now) then (401, false, r <| pc_entries := delete address (pc_entries r) |>)
      else if connection_matches (pe_request entry) m then (200, true, r) else (403, false, r)
  end.

(** ** Decisions about grants *)

Record PrivateAccessGrantDecision := mkGrantDecision {
  gd_Schema : string;
  gd_Kind : string;
  gd_DecisionID : string;
  gd_Allowed : bool;
  gd_Reason : string;
  gd_ExpiresAt : Time;
  gd_RequestID : string;
  gd_CorrelationID : string;
  gd_ResourceKind : string;
  gd_ResourceID : string;
  gd_RouteID : string;
  gd_OperationID : string;
  gd_ConnectorID : string;
  gd_CarrierSessionID : string;
  gd_RouteGeneration : Z;
  gd_SessionGeneration : Z;
  gd_ProcessGeneration : Z;
  gd_ConfigGeneration : Z;
  gd_AssignmentGeneration : Z;
  gd_Protocol : string
}.

Definition validatePrivateAccessGrantDecision (d : PrivateAccessGrantDecision) (q : PrivateAccessRequest) (now : Time) : option err :=
  if (gd_Schema d != PrivateAccessSchema) || (gd_Kind d != "private_access_authorization") || negb (gd_Allowed d)
     || (gd_Reason d != "allowed") || (gd_DecisionID d == "") || IsZero (gd_ExpiresAt d) || negb (After (gd_ExpiresAt d) now)
     || After (gd_ExpiresAt d) (pa_ExpiresAt q) || (gd_RequestID d != pa_RequestID q) || (gd_CorrelationID d != pa_CorrelationID q)
     || (gd_ResourceKind d != pa_ResourceKind q) || (gd_ResourceID d != pa_ResourceID q) || (gd_RouteID d != pa_RouteID q)
     || (gd_OperationID d != pa_OperationID q) || (gd_ConnectorID d != pa_ConnectorID q)
     || (gd_CarrierSessionID d != pa_CarrierSessionID q) || negb (gd_RouteGeneration d =? pa_RouteGeneration q)
     || negb (gd_SessionGeneration d =? pa_SessionGeneration q) || negb (gd_ProcessGeneration d =? pa_ProcessGeneration q)
     || negb (gd_ConfigGeneration d =? pa_ConfigGeneration q) || negb (gd_AssignmentGeneration d =? pa_AssignmentGeneration q)
     || (gd_Protocol d != pa_Protocol q)
  then Some ErrPrivateAccessGrantInvalid else None.

(** What the control plane answered: no answer, a request or answer that does not encode or
    decode within its limits, or a status and a decision. *)
Inductive grant_answer :=
  | NoAnswer
  | BadAnswer
  | Answered (status : Z) (d : PrivateAccessGrantDecision).

(** [AuthorizePrivateAccessGrant], without the decision it returns beside an error; [post]
    sends the request. *)
Definition AuthorizePrivateAccessGrant (post : string → PrivateAccessRequest → grant_answer) (grant : string) (q : PrivateAccessRequest)
    (now now' : Time) : err + PrivateAccessGrantDecision :=
  if (len grant =? 0) || (16384 <? len grant) || failed (AccessRequest_Validate q now) then inl ErrPrivateAccessGrantInvalid
  else match post grant q with
  | NoAnswer => inl (EWrap "" ErrPrivateAccessGrantUnavailable)
  | BadAnswer => inl ErrPrivateAccessGrantInvalid
  | Answered status d =>
      if status =? 200
      then match validatePrivateAccessGrantDecision d q now' with Some e => inl e | None => inr d end
      else if status =? 401 then inl (EPlain ErrPrivateAccessGrantUnauthorized)
      else if status =? 403 then inl (EPlain ErrPrivateAccessGrantForbidden)
      else if (status =? 503) || (status =? 429) || (500 <=? status) then inl ErrPrivateAccessGrantUnavailable
      else inl ErrPrivateAccessGrantInvalid
  end.

(** ** The bridge *)

Definition privateAccessMetadataMatches (metadata : StreamOpen) (q : PrivateAccessRequest) (identity : Identity) : bool :=
  let wantKind := if pa_Protocol q == "tcp" then PrivateAccessTCP else PrivateAccessHTTP in
  (id_AccountID identity == pa_AccountID q) && (id_HostID identity == pa_DeviceID q) && (id_TunnelID identity == so_TunnelID metadata)
  && (id_ConnectorID identity == so_ConnectorID metadata) && (id_SessionID identity == so_SessionID metadata)
  && (id_ProcessGeneration identity =? so_ProcessGeneration metadata) && (id_Generation identity =? so_Generation metadata)
  && (so_Kind metadata == wantKind) && (so_AccountID metadata == pa_AccountID q) && (so_RouteID metadata == pa_RouteID q)
  && (so_SessionID metadata == pa_CarrierSessionID q) && (so_ProcessGeneration metadata =? pa_ProcessGeneration q)
  && (so_Generation metadata =? pa_ConfigGeneration q) && (so_RequestID metadata == pa_RequestID q).

Definition privateAccessErrorStatus (e : err) : Z :=
  if Is e ErrPrivateAccessGrantUnauthorized then 401 else if Is e ErrPrivateAccessGrantForbidden then 403 else 503.

Definition access_result (status : Z) (expires : Time) : PrivateAccessResult :=
  mkAccessResult PrivateAccessSchema PrivateAccessKind status expires.

(** What a served stream does, in order. *)
Inductive bridge_event :=
  | BResult (r : PrivateAccessResult)
  | BOpen (q : PrivateAccessRequest)
  | BCopy (q : PrivateAccessRequest) (until : Time)
  | BCloseTarget
  | BCloseStream.

(** [serveStream]: [read] is the open frame or the failure to read one, [authorized] the
    answer of the authorizer, [opened] whether the target was opened, [written] whether the
    result frame went out. *)
Definition serveStream (metadata : StreamOpen) (identity : Identity) (read : err + PrivateAccessOpen)
    (authorize : string → PrivateAccessRequest → err + PrivateAccessGrantDecision) (now' : Time) (opened : PrivateAccessRequest → bool)
    (written : bool) : list bridge_event :=
  match read with
  | inl _ => [BResult (access_result 401 0); BCloseStream]
  | inr open =>
      let q := po_Request open in
      if negb (privateAccessMetadataMatches metadata q identity) then [BResult (access_result 401 0); BCloseStream]
      else match authorize (po_Grant open) q with
      | inl e => [BResult (access_result (privateAccessErrorStatus e) 0); BCloseStream]
      | inr decision =>
          if negb (gd_Allowed decision) || negb (After (gd_ExpiresAt decision) now') then [BResult (access_result 403 0); BCloseStream]
          else if negb (opened q) then [BOpen q; BResult (access_result 503 0); BCloseStream]
          else [BOpen q; BResult (access_result 200 (gd_ExpiresAt decision))]
               ++ (if written then [BCopy q (gd_ExpiresAt decision)] else []) ++ [BCloseTarget; BCloseStream]
      end
  end.

(** [PrivateAccessCaddyTarget]: dial the gateway of this host and register the connection;
    [local] is the address the connection got. *)
Definition OpenPrivateAccessTarget `{AddrLib} (address : string) (local : option string) (q : PrivateAccessRequest) (now now' : Time)
    (r : PrivateAccessConnectionRegistry) : (err + (string * Z)) * PrivateAccessConnectionRegistry :=
  if pa_Protocol q != "http" then (inl ErrPrivateAccessStreamInvalid, r)
  else match SplitHostPort address with
  | None => (inl ErrPrivateAccessStreamInvalid, r)
  | Some (host, port) =>
      if negb (loopback host) || (port == "") || (port == "0") then (inl ErrPrivateAccessStreamInvalid, r)
      else match local with
      | None => (inl (EPlain "dial failed"), r)
      | Some local =>
          match Register local q (pa_ExpiresAt q) now now' r with
          | (inl e, r) => (inl e, r)
          | (inr token, r) => (inr (local, token), r)
          end
      end
  end.

Definition privateTCPRuleMatches (rule : RouteRule) (q : PrivateAccessRequest) : bool :=
  (rr_RouteID rule == pa_RouteID q) && (rr_Kind rule == TunnelPrivateTCP) && (rr_AccountID rule == pa_AccountID q)
  && (rr_TunnelID rule == pa_ResourceID q) && (rr_ConnectorID rule == pa_ConnectorID q)
  && (rr_ConnectorSessionID rule == pa_CarrierSessionID q) && (rr_RouteGeneration rule =? pa_RouteGeneration q)
  && (rr_SessionGeneration rule =? pa_SessionGeneration q) && (rr_ConnectorProcessGeneration rule =? pa_ProcessGeneration q)
  && (rr_ConfigGeneration rule =? pa_ConfigGeneration q) && (rr_AssignmentGeneration rule =? pa_AssignmentGeneration q)
  && (rr_Node rule == pa_EdgeNodeID q) && (rr_EdgeProcessEpoch rule == pa_EdgeProcessEpoch q) && (rr_AccessMode rule == "private")
  && (rr_Protocol rule == "private_tcp").

(** The only rule that matches. *)
Definition privateTCPRule (rules : list RouteRule) (q : PrivateAccessRequest) : err + RouteRule :=
  match List.filter (λ rule, privateTCPRuleMatches rule q) rules with
  | [rule] => inr rule
  | _ => inl ErrPrivateAccessStreamInvalid
  end.

End Connections.
End PrivateAccess.
