(* ===== verification/Policy.v ===== *)
(** * The policy of the public gateway

    Models [internal/edgehttp/policy.go] and the composite matcher of [route_matcher.go]: how
    a request of the Internet is matched to a route, authorized, stripped of what only the
    edge may say, and handed to the transport of its route kind.  Routes, readiness, the
    verifier of helper credentials and the addresses of clients are the record [Env]. *)
From S2P Require Import Prelude Go Strings Protocol Admission Route StreamFrames Carrier PreviewAdmission Ingress HTTP PrivateAccess.

(** [net.IP]: the canonical text of an address, whether it has a 4-byte form, and whether a
    configured proxy network contains it. *)
Class IPLib := {
  ip_String : string → option string;
  ip_is4 : string → bool
}.

Module Policy.
Import HTTP Ingress Browser PrivateAccess.
Import Route (RouteMatch, RouteRule, rm_Rule, rm_Host, rr_ID, rr_Kind, rr_MatchType, rr_AccessMode, rr_HostOverride, rr_ObservedState, rr_Reason,
  TextLib, lower, ErrNoMatch, ErrMatchConflict, MatchManagedExact, TunnelHTTPSWSS, PreviewHTTPSWSS, ValidManagedTunnelHostname).
Import Admission (Claims, cl_CredentialClass, cl_Revoked).

Definition inspectorEdgePrefix := "/.paperboat/inspector/v1".

Record Config := mkConfig {
  pg_BrowserAccess : option BrowserAccess;
  pg_InspectorAccess : bool;                     (** [InspectorAccess != nil] *)
  pg_PreviewBaseDomain : string;
  pg_TunnelBaseDomain : string;
  pg_RuntimeBaseDomain : string;
  pg_MaxHeaderBytes : Z;
  pg_MaxBodyBytes : Z;
  pg_PrivateAccessToken : string;
  pg_RevocationCheckInterval : Duration
}.

(** What the policy asks during one request.  [en_Acquire] is [None] without a route
    matcher; its first argument numbers the calls.  [en_Readiness] answers the kind, state
    and reason of a host.  [en_RequestID] is what the configured function returned. *)
Record Env := mkEnv {
  en_Acquire : option (nat → string → string → Route.error + RouteMatch);
  en_Readiness : option (string → option (string * string * string));
  en_HelperAccess : option (string → err + Claims);
  en_Revocations : bool;                         (** [Revocations != nil] *)
  en_trusted : string → bool;                    (** the address is in a trusted network *)
  en_forwardedClient : Header → string → string; (** [clientStrategy.ClientIP] *)
  en_RequestID : option string;
  en_random : option string;                     (** the hexadecimal form of 16 random bytes *)
  en_form : option (gmap string (list string));
  en_websocketKey : string → bool;               (** standard base64 of 16 bytes *)
  en_hijack : bool;
  en_now : nat → Time
}.

(** How a request ended. *)
Inductive served :=
  | Inspected
  | Refused (a : Answer)
  | UpgradeClosed
  | Forwarded (r : Request IngressDecision) (w : Header) (renewed : option refresher) (claims : option Claims).

Section Policy.
Context `{TextLib} `{FoldLib} `{URLLib} `{AddrLib} `{IPLib} (p : Config) (en : Env).
Implicit Types r : Request IngressDecision.

Definition New : bool :=
  negb ((pg_PreviewBaseDomain p == "") || (pg_TunnelBaseDomain p == "") || (pg_RuntimeBaseDomain p == "") || (pg_MaxHeaderBytes p <? 1024)
        || (pg_MaxBodyBytes p <? 1)
        || (pg_PrivateAccessToken p != "")
           && ((len (pg_PrivateAccessToken p) <? 32) || (256 <? len (pg_PrivateAccessToken p)) || (TrimSpace (pg_PrivateAccessToken p) != pg_PrivateAccessToken p)
               || ContainsAny (pg_PrivateAccessToken p) [13; 10; 0])).

(** ** Hosts *)

Definition normalized_host (value : string) : string :=
  let host := lower (TrimSuffix (TrimSpace value) ".") in
  match SplitHostPort host with Some (parsed, _) => parsed | None => host end.

Fixpoint allowed_suffix (host : string) (candidates : list (string * string)) : option string :=
  match candidates with
  | [] => None
  | (domain, kind) :: candidates =>
      match CutSuffix host ("." +:+ lower domain) with
      | Some prefix => if (prefix != "") && negb (ContainsByte prefix 46) && negb (Route.isIP host) then Some kind else allowed_suffix host candidates
      | None => allowed_suffix host candidates
      end
  end.

Definition allowedHost (value : string) : string * option string :=
  let host := normalized_host value in
  (host, allowed_suffix host [(pg_PreviewBaseDomain p, "preview_public_https_wss"); (pg_RuntimeBaseDomain p, "runtime_https_wss")]).

Definition lazyPreviewHostname (rawHost canonicalHost baseDomain : string) : bool :=
  let baseDomain := lower (TrimSuffix (TrimSpace baseDomain) ".") in
  if (rawHost != canonicalHost) || (canonicalHost != lower canonicalHost) || (baseDomain == "") then false
  else match CutSuffix canonicalHost ("." +:+ baseDomain) with
  | None => false
  | Some label =>
      if ContainsByte label 46 || negb (HasPrefix label "p") then false
      else match Cut (bstring (drop 1 (sbytes label))) 45 with
      | None => false
      | Some (portText, environment) =>
          if negb (len environment =? 16) || (portText == "") || HasPrefix portText "0" then false
          else match Atoi portText with
          | None => false
          | Some port => (1 <=? port) && (port <=? 65535) && forallb (λ b, is_lower b || is_digit b) (sbytes environment)
          end
      end
  end.

Definition normalizeRequestTarget r (canonicalHost : string) : option (Request IngressDecision) :=
  let u := hr_URL r in
  if u_Scheme u == "" then Some r
  else
    let absoluteHost := normalized_host (u_Host u) in
    if negb (EqualFold (u_Scheme u) "https") || (absoluteHost != canonicalHost) || u_User u then None
    else Some (r <| hr_URL := mkURL "" "" (u_User u) (u_Path u) (u_RawQuery u) (u_Fragment u) (u_String u) |>).

(** ** Headers *)

Definition headerBytes (h : Header) : Z :=
  map_fold (λ name values size, size + len name + foldr (λ v n, len v + n) 0 values) 0 h.

Definition hop_headers : list string :=
  ["Connection"; "Proxy-Connection"; "Keep-Alive"; "Proxy-Authenticate"; "Proxy-Authorization"; "Te"; "Trailer"; "Transfer-Encoding";
   "Upgrade"; "Forwarded"; "X-Forwarded-For"; "X-Forwarded-Host"; "X-Forwarded-Proto"; "X-Real-IP"; "X-Request-ID"].

Definition stripHopByHop (h : Header) : Header :=
  let named := Values h "Connection" ≫= λ value, TrimSpace <$> Split value 44 in
  foldr Del h (named ++ hop_headers).

Definition helperOperationHeaders : list string :=
  ["x-paperboat-request-id"; "x-paperboat-operation-id"; "x-paperboat-deadline-ms"; "x-paperboat-file-name"; "x-paperboat-file-mime";
   "x-paperboat-file-size"; "x-paperboat-file-sha256"].

Definition private_header (routeKind name : string) : bool :=
  let normalized := lower name in
  HasPrefix normalized "x-paperboat-" && ((routeKind != "runtime_https_wss") || negb (mem_str helperOperationHeaders normalized)).

Definition stripPrivate (routeKind : string) (h : Header) : Header :=
  del_selected (private_header routeKind) (stripBrowserRequestCredentials h).

Definition upgrade_headers (websocket : bool) (h : Header) : Header :=
  if websocket then Set_ "Upgrade" "websocket" (Set_ "Connection" "Upgrade" h) else h.

(** ** Clients *)

Definition clientIP r : string :=
  let remoteHost := match SplitHostPort (hr_RemoteAddr r) with Some (host, _) => host | None => hr_RemoteAddr r end in
  match ip_String remoteHost with
  | None => remoteHost
  | Some remote =>
      if negb (en_trusted en remote) then remoteHost
      else let client := en_forwardedClient en (hr_Header r) (hr_RemoteAddr r) in if client == "" then remote else client
  end.

Definition validRequestID (value : string) : bool :=
  if (value == "") || (128 <? len value) then false
  else forallb (λ b, is_alnum b || one_of [45; 95; 46; 58] b) (sbytes value).

Definition trustedRequestID : option string :=
  match en_RequestID en with
  | Some value => if validRequestID value then Some value else en_random en
  | None => en_random en
  end.

Definition formatForwarded (clientIP host : string) : string :=
  let forValue := match ip_String (TrimSpace clientIP) with
                  | Some text => if ip_is4 (TrimSpace clientIP) then text else bstring [x22; x5b] +:+ text +:+ bstring [x5d; x22]
                  | None => "_"
                  end in
  let host := if (host == "") || ContainsAny host [13; 10; 0; 59; 44] then "_" else host in
  "for=" +:+ forValue +:+ ";proto=https;host=" +:+ host.

(** ** Private carriers *)

(** The only value of the carrier header is the token of this process. *)
Definition consumePrivateCarrierToken (h : Header) : bool * Header :=
  (match Values h "X-Paperboat-Private-Carrier" with
   | [value] => value == pg_PrivateAccessToken p
   | _ => false
   end, Del "X-Paperboat-Private-Carrier" h).

(** ** Helper routes *)

Definition helperAccessPath (path : string) : bool :=
  (path == "/v1/runtime") || (path == "/v1/preview-launches") || (path == "/v1/file-transfers") || HasPrefix path "/v1/file-transfers/".

Definition helperPublicPath (path : string) : bool := (path == "/healthz") || helperAccessPath path.

Definition credentialAllowsHelperPath (class path : string) : bool :=
  if path == "/v1/runtime" then class == "terminal_operation"
  else if path == "/v1/preview-launches" then class == "preview_launch"
  else if (path == "/v1/file-transfers") || HasPrefix path "/v1/file-transfers/" then class == "file_transfer"
  else false.

Definition authorizeHelperAccess (w : Header) r : Answer + Claims :=
  match en_HelperAccess en with
  | None => inl (StatusError w 503)
  | Some verify =>
      if negb (en_Revocations en) || (pg_RevocationCheckInterval p <=? 0) then inl (StatusError w 503)
      else match Cut (TrimSpace (Get (hr_Header r) "Authorization")) 32 with
      | None => inl (StatusError w 401)
      | Some (scheme, token) =>
          if negb (EqualFold scheme "Bearer") || (TrimSpace token != token) || (token == "") then inl (StatusError w 401)
          else match verify token with
          | inl _ => inl (StatusError w 401)
          | inr claims => if cl_Revoked claims then inl (StatusError w 401) else inr claims
          end
      end
  end.

(** One round of [cancelWhenAccessRevoked]: whether it cancels the request. *)
Definition revocation_tick (answer : err + bool) : bool := match answer with inl _ => true | inr revoked => revoked end.

(** ** Readiness *)

Definition PreviewHTTPStatus (state reason : string) : Z * bool :=
  if state == "registering" then (503, true)
  else if state == "degraded" then if reason == "target_unhealthy" then (502, false) else (503, true)
  else if state == "offline" then (503, true)
  else if state == "expired" then (410, false)
  else if (state == "removed") || (state == "") then (404, false)
  else if state == "ready" then (200, false)
  else (404, false).

(** The frame [writeWebSocketClose] sends for [payload]. *)
Definition websocket_close_frame (payload : bytes) : bytes := byte_of_Z 136 :: byte_of_Z (blen payload) :: payload.
Definition retry_later : bytes := put_uint16 1013 ++ sbytes "Try Again Later".

Definition closeRetryableWebSocket r : bool :=
  en_websocketKey en (TrimSpace (Get (hr_Header r) "Sec-WebSocket-Key")) && (Get (hr_Header r) "Sec-WebSocket-Version" == "13") && en_hijack en.

(** ** The handler *)

(** The paths no route gets. *)
Definition reserved_path r : option served :=
  let path := u_Path (hr_URL r) in
  if HasPrefix path inspectorEdgePrefix then Some (if pg_InspectorAccess p then Inspected else Refused (NotFound ∅))
  else if HasPrefix path "/.paperboat/access/"
  then match pg_BrowserAccess p with
       | Some b => if path == browserCallbackPath then Some (Refused (callback b (en_form en) (en_now en 0) r)) else Some (Refused (NotFound ∅))
       | None => Some (Refused (NotFound ∅))
       end
  else None.

(** The session or access token of a request without a route. *)
Definition session_token r : option (string * bool) :=
  match Values (hr_Header r) "Paperboat-Access-Token" with
  | [value] => if (value != "") && (TrimSpace value == value) then Some (value, true)
               else match browserCookie r browserEdgeCookie with Some token => Some (token, false) | None => None end
  | _ => match browserCookie r browserEdgeCookie with Some token => Some (token, false) | None => None end
  end.

Definition is_no_match (e : Route.error) : bool := match e with ErrNoMatch => true | _ => false end.

(** A request that no route matched: a preview may be activated for it, or a login begun. *)
Definition unmatched (acquire : nat → string → string → Route.error + RouteMatch) (host : string) (e : Route.error) r : served + RouteMatch :=
  let session := session_token r in
  let missed :=
    match pg_BrowserAccess p with
    | Some b =>
        if negb (nonnil session) && (Get (hr_Header r) "Paperboat-Access-Token" == "") && validate b && browserNavigation r
        then inl (Refused (begin b (en_now en 0) r host)) else inl (Refused (NotFound ∅))
    | None => inl (Refused (NotFound ∅))
    end in
  match session, pg_BrowserAccess p with
  | Some (token, machine), Some b =>
      if is_no_match e && negb (browserReservedDuplicates r) && lazyPreviewHostname (hr_Host r) host (pg_PreviewBaseDomain p)
      then match activateLazy b host token machine with
           | Some e => inl (Refused (lazyActivationError ∅ e))
           | None => match acquire 1%nat host (u_Path (hr_URL r)) with inr m => inr m | inl _ => missed end
           end
      else missed
  | _, _ => missed
  end.

(** A managed host name of the tunnel domain that is not one. *)
Definition bad_managed_host (m : RouteMatch) : bool :=
  let rule := rm_Rule m in
  (rr_Kind rule == TunnelHTTPSWSS)
  && ((rr_MatchType rule == MatchManagedExact) || HasSuffix (rm_Host m) ("." +:+ lower (pg_TunnelBaseDomain p)))
  && negb (ValidManagedTunnelHostname (rm_Host m) (pg_TunnelBaseDomain p)).

Definition mode_of (m : option RouteMatch) : string := match m with Some m => rr_AccessMode (rm_Rule m) | None => "" end.
Definition restricted (m : option RouteMatch) : bool := (mode_of m == "private") || (mode_of m == "team").

(** The authorization of a request, after its hop-by-hop headers are gone. *)
Definition authorize_route (matched : option RouteMatch) (kind : string) r (conns : option PrivateAccessConnectionRegistry)
    : (Answer + (Request IngressDecision * option refresher)) * option PrivateAccessConnectionRegistry :=
  match matched with
  | None => (inr (r, None), conns)
  | Some m =>
      let browser :=
        match pg_BrowserAccess p with
        | Some b => if restricted matched && (Get (hr_Header r) "X-Paperboat-Private-Carrier" == "")
                    then match authorize b r m (en_now en 1) (en_now en 2) with inl a => Some (inl a) | inr x => Some (inr x) end
                    else None
        | None => None
        end in
      match browser with
      | Some (inl a) => (inl a, conns)
      | Some (inr (r, f)) => (inr (r, Some f), conns)
      | None =>
          if mode_of matched == "team" then (inl (Error ∅ [] "Authentication required" 401), conns)
          else if (mode_of matched == "private") && ((kind == dataCarrierPreviewPrivateRouteKind) || (kind == TunnelHTTPSWSS))
          then
            let connectionID := Get (hr_Header r) "X-Paperboat-Private-Connection" in
            let '(valid, h) := consumePrivateCarrierToken (hr_Header r) in
            if negb valid then (inl (StatusError ∅ 401), conns)
            else match conns with
            | None => (inl (StatusError ∅ 503), None)
            | Some conns =>
                let '(status, allowed, conns) := Connection_Authorize connectionID m (en_now en 3) conns in
                if allowed then (inr (r <| hr_Header := Del "X-Paperboat-Private-Connection" h |>, None), Some conns)
                else (inl (StatusError ∅ status), Some conns)
            end
          else (inr (r, None), conns)
      end
  end.

(** The headers the origin sees. *)
Definition forward_headers (kind client host requestID : string) (h : Header) : Header :=
  Set_ "X-Request-ID" requestID (Set_ "Forwarded" (formatForwarded client host)
    (Set_ "X-Forwarded-Proto" "https" (Set_ "X-Forwarded-Host" host (Set_ "X-Forwarded-For" client (stripPrivate kind h))))).

Definition response_headers : Header :=
  Set_ "X-Robots-Tag" "noindex, nofollow, noarchive" (Set_ "X-Frame-Options" "DENY"
    (Set_ "Referrer-Policy" "no-referrer" (Set_ "X-Content-Type-Options" "nosniff" ∅))).

(** The kind, state and reason of a route that must be ready. *)
Definition observed_state (matched : option RouteMatch) (host : string) : option (option (string * string * string)) :=
  let rule := rm_Rule <$> matched in
  let named := match rule with Some rule => rr_ID rule != "" | None => false end in
  match en_Readiness en, rule with
  | Some state, Some rule => Some (if named && (rr_ObservedState rule != "") then Some (rr_Kind rule, rr_ObservedState rule, rr_Reason rule) else state host)
  | Some state, None => Some (state host)
  | None, Some rule => if named then Some (Some (rr_Kind rule, if rr_ObservedState rule == "" then "ready" else rr_ObservedState rule,
                                                if rr_ObservedState rule == "" then "" else rr_Reason rule)) else None
  | None, None => None
  end.

(** Whether the route is not ready, and what is answered then. *)
Definition not_ready (matched : option RouteMatch) (kind host : string) (websocket : bool) r : option served :=
  let w := response_headers in
  match observed_state matched host with
  | None => None
  | Some None => Some (Refused (NotFound w))
  | Some (Some (observed, state, reason)) =>
      if observed != kind then Some (Refused (NotFound w))
      else if (observed == "runtime_https_wss") && (state != "ready") then Some (Refused (StatusError (Set_ "Retry-After" "5" w) 503))
      else if ((observed == "preview_public_https_wss") || (observed == dataCarrierPreviewPrivateRouteKind)) && (state != "ready")
      then let '(status, retry) := PreviewHTTPStatus state reason in
           let w := if retry then Set_ "Retry-After" "5" w else w in
           if websocket && retry && closeRetryableWebSocket r then Some UpgradeClosed else Some (Refused (StatusError w status))
      else None
  end.

(** The last part: an authorized request is given its headers and forwarded when its route
    is ready and a helper route got its credential. *)
Definition forward (matched : option RouteMatch) (kind host client : string) (websocket : bool) (renewed : option refresher) r : served :=
  match trustedRequestID with
  | None => Refused (StatusError ∅ 503)
  | Some requestID =>
      let r := r <| hr_Header := forward_headers kind client host requestID (hr_Header r) |> in
      let r := match matched with
               | Some m => if rr_HostOverride (rm_Rule m) == "" then r else r <| hr_Host := rr_HostOverride (rm_Rule m) |>
               | None => r
               end in
      let path := u_Path (hr_URL r) in
      match not_ready matched kind host websocket r with
      | Some s => s
      | None =>
          if (kind == "runtime_https_wss") && negb (helperPublicPath path) then Refused (NotFound response_headers)
          else if (kind == "runtime_https_wss") && helperAccessPath path
          then match authorizeHelperAccess response_headers r with
               | inl a => Refused a
               | inr claims =>
                   if credentialAllowsHelperPath (cl_CredentialClass claims) path
                   then Forwarded r response_headers renewed (Some claims) else Refused (StatusError response_headers 403)
               end
          else Forwarded r response_headers renewed None
      end
  end.

(** A matched request within the limits. *)
Definition serve_matched (matched : option RouteMatch) (kind : option string) (host : string) r (conns : option PrivateAccessConnectionRegistry)
    : served * option PrivateAccessConnectionRegistry :=
  match kind, normalizeRequestTarget r host with
  | Some kind, Some r =>
      if pg_MaxHeaderBytes p <? headerBytes (hr_Header r) then (Refused (NotFound ∅), conns)
      else if pg_MaxBodyBytes p <? hr_ContentLength r then (Refused (Error ∅ [] "request too large" 413), conns)
      else
        let client := clientIP r in
        let websocket := isWebSocketUpgrade (hr_Header r) in
        let r := r <| hr_Header := upgrade_headers websocket (stripHopByHop (hr_Header r)) |> in
        match authorize_route matched kind r conns with
        | (inl a, conns) => (Refused a, conns)
        | (inr (r, renewed), conns) => (forward matched kind host client websocket renewed r, conns)
        end
  | _, _ => (Refused (NotFound ∅), conns)
  end.

(** [ServeHTTP]: the end of the request, what became of its route lease ([Some true] closed
    when the handler returns, [Some false] left to its context), and the connections. *)
Definition ServeHTTP r (conns : option PrivateAccessConnectionRegistry) : served * option bool * option PrivateAccessConnectionRegistry :=
  match reserved_path r with
  | Some s => (s, None, conns)
  | None =>
      match en_Acquire en with
      | None => let '(host, kind) := allowedHost (hr_Host r) in let '(s, conns) := serve_matched None kind host r conns in (s, None, conns)
      | Some acquire =>
          match dispatchHost (hr_Host r) with
          | None => (Refused (NotFound ∅), None, conns)
          | Some candidate =>
              let found := match acquire 0%nat candidate (u_Path (hr_URL r)) with
                           | inr m => inr m
                           | inl e => unmatched acquire candidate e r
                           end in
              match found with
              | inl s => (s, None, conns)
              | inr m =>
                  if bad_managed_host m then (Refused (NotFound ∅), Some false, conns)
                  else let '(s, conns) := serve_matched (Some m) (Some (rr_Kind (rm_Rule m))) (rm_Host m) (r <| hr_match := Some m |>) conns in
                       (s, Some true, conns)
              end
          end
      end
  end.

End Policy.

(** ** Behind the policy *)

(** The transport a forwarded request goes to. *)
Inductive upstream := Canonical | Preview | Legacy | NoUpstream.

Definition dispatch `{TextLib} (p : Config) (preview canonical legacy : bool) (r : Request IngressDecision) : upstream :=
  let fallback := if legacy then Legacy else NoUpstream in
  if negb preview && negb canonical then fallback
  else
    let by_host := if preview && HasSuffix (lower (hr_Host r)) ("." +:+ lower (pg_PreviewBaseDomain p)) then Preview else fallback in
    match hr_match r with
    | Some m =>
        if rr_Kind (rm_Rule m) == TunnelHTTPSWSS then if canonical then Canonical else NoUpstream
        else if ((rr_Kind (rm_Rule m) == PreviewHTTPSWSS) || (rr_Kind (rm_Rule m) == dataCarrierPreviewPrivateRouteKind)) && preview then Preview
        else by_host
    | None => by_host
    end.

Definition retryablePreviewRequest `{FoldLib} (hasBody : bool) (r : Request IngressDecision) : bool :=
  if hasBody || isWebSocketUpgrade (hr_Header r) then false
  else (hr_Method r == "GET") || (hr_Method r == "HEAD") || (hr_Method r == "OPTIONS").

Definition retryablePreviewTransportError (isNetError : err → bool) (e : err) : bool :=
  if Is e "context canceled" || Is e "context deadline exceeded" then false
  else if Is e "EOF" || Is e "unexpected EOF" || Is e "use of closed network connection" then true
  else isNetError e.

(** [RoundTrip] of the preview transport, which tries a request once more at most: the
    answer and the number of attempts. *)
Definition retry_RoundTrip `{FoldLib} {A} (isNetError : err → bool) (attempt : nat → err + A) (hasBody : bool) (r : Request IngressDecision)
    : (err + A) * nat :=
  match attempt 0%nat with
  | inr a => (inr a, 1%nat)
  | inl e =>
      if nonnil (hr_decision r) || negb (retryablePreviewRequest hasBody r) || negb (retryablePreviewTransportError isNetError e)
      then (inl e, 1%nat)
      else (attempt 1%nat, 2%nat)
  end.

(** ** Several owners of routes *)

(** [Acquire] of a composite matcher: every owner is asked in order, until one fails with
    another error than no match.  The leases that were taken and not handed out are closed:
    their owners are the second result. *)
Fixpoint acquire_all (answers : list (Route.error + RouteMatch)) (i : nat) (taken : list (nat * RouteMatch))
    : (Route.error + list (nat * RouteMatch)) * list nat :=
  match answers with
  | [] => (inr (rev taken), [])
  | inl e :: answers =>
      match e with
      | ErrNoMatch => acquire_all answers (S i) taken
      | _ => (inl e, fst <$> rev taken)
      end
  | inr m :: answers => acquire_all answers (S i) ((i, m) :: taken)
  end.

Definition Composite_Acquire (answers : list (Route.error + RouteMatch)) : (Route.error + (nat * RouteMatch)) * list nat :=
  match acquire_all answers 0 [] with
  | (inl e, closed) => (inl e, closed)
  | (inr [], _) => (inl ErrNoMatch, [])
  | (inr [x], _) => (inr x, [])
  | (inr taken, _) => (inl ErrMatchConflict, fst <$> taken)
  end.

Definition Composite_Match (answers : list (Route.error + RouteMatch)) : Route.error + RouteMatch :=
  match acquire_all answers 0 [] with
  | (inl e, _) => inl e
  | (inr [], _) => inl ErrNoMatch
  | (inr [(_, m)], _) => inr m
  | (inr _, _) => inl ErrMatchConflict
  end.

End Policy.
