(* ===== verification/PolicyProofs.v ===== *)
(** * The policy of the public gateway: theorems

    Nothing reaches an origin around the policy: a restricted route is served only with a
    decision about this viewer or on a granted connection of a machine, helper routes only
    with a credential of the right class, and no origin sees a header or a cookie of the
    edge. *)
From S2P Require Import Prelude Go Strings Protocol Admission Route StreamFrames Carrier PreviewAdmission Ingress HTTP PrivateAccess Policy.

(** * HTTP headers and cookies: lemmas

    Deleting selected headers, and what is left of the cookies of a request when the edge has
    taken out the ones it reserves for itself. *)

Module HTTPProofs.
Import HTTP Browser.

(** ** Headers *)

Definition canonical_keys (h : Header) : Prop := ∀ k, is_Some (h !! k) → CanonicalKey k = k.

Lemma canonical_subset h h' : canonical_keys h → (∀ k, is_Some (h' !! k) → is_Some (h !! k)) → canonical_keys h'.
Proof. intros Hc Hs k Hk. auto. Qed.

Lemma Del_subset name h k : is_Some (Del name h !! k) → is_Some (h !! k).
Proof. unfold Del. intros [v [_ Hv]%lookup_delete_Some]. eauto. Qed.

Lemma canonical_Del name h : canonical_keys h → canonical_keys (Del name h).
Proof. intros Hc. eapply canonical_subset; [done|]. intros k. apply Del_subset. Qed.

Lemma canonical_Set name v h : CanonicalKey (CanonicalKey name) = CanonicalKey name → canonical_keys h → canonical_keys (Set_ name v h).
Proof. unfold Set_. intros Hn Hc k [x [[<- _]|[_ Hk]]%lookup_insert_Some]; [done|]. apply Hc. eauto. Qed.

Lemma foldr_Del_subset names h k : is_Some (foldr Del h names !! k) → is_Some (h !! k).
Proof. induction names as [|n names IH]; cbn; [done|]. intros Hk%Del_subset. auto. Qed.

Lemma foldr_Del_same names h k : is_Some (foldr Del h names !! k) → foldr Del h names !! k = h !! k.
Proof.
  induction names as [|x names IH]; [done|]. change (foldr Del h (x :: names)) with (delete (CanonicalKey x) (foldr Del h names)).
  intros [y [Hne Hy]%lookup_delete_Some]. rewrite lookup_delete_ne by done. apply IH. eauto.
Qed.

Lemma foldr_Del_absent names h n : n ∈ names → foldr Del h names !! CanonicalKey n = None.
Proof.
  induction names as [|x names IH]; [by intros ?%not_elem_of_nil|]. cbn. intros [->|Hn]%elem_of_cons.
  - apply lookup_delete_eq.
  - unfold Del. apply lookup_delete_None. auto.
Qed.

Lemma del_selected_lookup select h k :
  canonical_keys h → del_selected select h !! k = if select k then None else h !! k.
Proof.
  intros Hc. unfold del_selected.
  assert (∀ l, (∀ n, n ∈ l → CanonicalKey n = n) →
    foldr (λ name h, if select name then Del name h else h) h l !! k = if bool_decide (k ∈ l) && select k then None else h !! k) as Hl.
  { induction l as [|n l IH]; intros Hn; cbn; [by rewrite bool_decide_eq_false_2 by apply not_elem_of_nil|].
    assert (foldr (λ name h, if select name then Del name h else h) h l !! k = if bool_decide (k ∈ l) && select k then None else h !! k) as IH'.
    { apply IH. intros x Hx. apply Hn. by right. }
    destruct (decide (k = n)) as [->|Hne].
    - rewrite (bool_decide_eq_true_2 (n ∈ n :: l)) by (by left). cbn. destruct (select n).
      + unfold Del. rewrite Hn by (by left). apply lookup_delete_eq.
      + rewrite IH'. by rewrite andb_false_r.
    - assert (bool_decide (k ∈ n :: l) = bool_decide (k ∈ l)) as ->.
      { apply bool_decide_ext. rewrite elem_of_cons. naive_solver. }
      destruct (select n); [|done]. unfold Del. rewrite Hn by (by left). by rewrite lookup_delete_ne. }
  rewrite Hl by (intros n Hn%elem_of_elements%elem_of_dom; auto).
  destruct (h !! k) as [v|] eqn:E; [|by destruct (_ && _), (select k)].
  rewrite bool_decide_eq_true_2; [done|]. apply elem_of_elements, elem_of_dom. eauto.
Qed.

Lemma canonical_del_selected select h : canonical_keys h → canonical_keys (del_selected select h).
Proof.
  intros Hc. eapply canonical_subset; [done|]. intros k. rewrite del_selected_lookup by done. by destruct (select k).
Qed.

(** ** Splitting *)

Definition free (sep : Z) (b : bytes) : Prop := Forall (λ c, byte_to_Z c ≠ sep) b.


Lemma free_rev sep b : free sep b → free sep (rev b).
Proof. unfold free. rewrite !Forall_forall. intros Hf x Hx. apply Hf. apply list_elem_of_In, in_rev, list_elem_of_In. done. Qed.

Lemma split_on_parts sep cur b : free sep cur → Forall (free sep) (split_on sep cur b).
Proof.
  revert cur. induction b as [|c b IH]; intros cur Hc; cbn.
  - apply Forall_singleton. by apply free_rev.
  - destruct (byte_to_Z c =? sep) eqn:E; bools.
    + constructor; [by apply free_rev|]. apply IH. constructor.
    + apply IH. by constructor.
Qed.

Lemma split_on_one sep cur b : free sep b → split_on sep cur b = [rev cur ++ b].
Proof.
  revert cur. induction b as [|c b IH]; intros cur Hb; cbn; [by rewrite app_nil_r|]. apply Forall_cons in Hb as [Hc Hb].
  rewrite (proj2 (Z.eqb_neq _ _) Hc), IH by done. cbn. by rewrite <- app_assoc.
Qed.

Lemma split_on_app sep cur b c rest :
  free sep b → byte_to_Z c = sep → split_on sep cur (b ++ c :: rest) = (rev cur ++ b) :: split_on sep [] rest.
Proof.
  intros Hb Hc. revert cur. induction b as [|x b IH]; intros cur; cbn.
  - by rewrite (proj2 (Z.eqb_eq _ _) Hc), app_nil_r.
  - apply Forall_cons in Hb as [Hx Hb]. rewrite (proj2 (Z.eqb_neq _ _) Hx), IH by done. cbn. by rewrite <- app_assoc.
Qed.

Lemma concat_bytes p ps : sbytes (String.concat "; " (p :: ps)) = sbytes p ++ (ps ≫= λ q, x3b :: x20 :: sbytes q).
Proof.
  revert p. induction ps as [|q ps IH]; intros p; [by rewrite app_nil_r|].
  change (String.concat "; " (p :: q :: ps)) with (p +:+ ("; " +:+ String.concat "; " (q :: ps))).
  rewrite !sbytes_app, IH. done.
Qed.

(** Joined parts are split again, with the space of the separator in front. *)
Lemma split_concat p ps :
  free 59 (sbytes p) → Forall (λ q, free 59 (sbytes q)) ps →
  split_on 59 [] (sbytes (String.concat "; " (p :: ps))) = sbytes p :: ((λ q, x20 :: sbytes q) <$> ps).
Proof.
  intros Hp Hps. rewrite concat_bytes. revert p Hp. induction Hps as [|q ps Hq _ IH]; intros p Hp; cbn.
  - rewrite app_nil_r. by apply split_on_one.
  - rewrite split_on_app by done. cbn. f_equal. specialize (IH q Hq).
    replace (split_on 59 [] (x20 :: sbytes q ++ (ps ≫= λ q, x3b :: x20 :: sbytes q)))
      with (split_on 59 [x20] (sbytes q ++ (ps ≫= λ q, x3b :: x20 :: sbytes q))) by done.
    destruct ps as [|q' ps]; cbn in *.
    + rewrite app_nil_r. by rewrite split_on_one.
    + rewrite split_on_app in IH |- * by done. cbn in *. injection IH as IH. by rewrite IH.
Qed.

(** ** Trimming *)

Definition starts (p : byte → bool) (b : bytes) : bool := match b with c :: _ => p c | [] => false end.

Lemma trim_left_spec p b : ∃ sp, b = sp ++ trim_left p b ∧ forallb p sp = true ∧ starts p (trim_left p b) = false.
Proof.
  induction b as [|c b (sp & Hb & Hp & Hs)]; [by exists []|]. cbn. destruct (p c) eqn:E.
  - exists (c :: sp). cbn. rewrite E. split_and!; [by f_equal|done|done].
  - by exists [].
Qed.

Lemma trim_left_id p b : starts p b = false → trim_left p b = b.
Proof. destruct b as [|c b]; [done|]. cbn. by intros ->. Qed.

Lemma trim_bytes_id p b : starts p b = false → starts p (rev b) = false → trim_bytes p b = b.
Proof. intros H1 H2. unfold trim_bytes. by rewrite trim_left_id, trim_left_id, rev_involutive by (rewrite ?trim_left_id; done). Qed.

(** A string that does not start with a space loses only spaces at its end. *)
Lemma trim_bytes_suffix p b : starts p b = false → ∃ sp, b = trim_bytes p b ++ sp ∧ forallb p sp = true.
Proof.
  intros Hs. unfold trim_bytes. rewrite (trim_left_id p b) by done. destruct (trim_left_spec p (rev b)) as (sp & Hb & Hp & _).
  exists (rev sp). split.
  - rewrite <- rev_app_distr, <- Hb. by rewrite rev_involutive.
  - apply forallb_forall. intros x Hx%in_rev. rewrite rev_involutive in Hx || idtac. revert x Hx. by apply forallb_forall.
Qed.

Lemma trim_runes_done fuel enc b :
  (∀ r, r ∈ space_runes → r ≠ []) → (length b ≤ fuel)%nat → space_at enc (trim_runes fuel enc b) = None ∨ trim_runes fuel enc b = [].
Proof.
  intros Hr. revert b. induction fuel as [|fuel IH]; intros b Hf; cbn; [destruct b; [by right|cbn in Hf; lia]|].
  destruct (space_at enc b) as [n|] eqn:E; [|by left]. apply IH. rewrite length_drop.
  unfold space_at in E. destruct (List.find _ _) as [r|] eqn:Ef; [|done]. injection E as <-. apply find_some in Ef as [Hin _].
  specialize (Hr r ltac:(by apply list_elem_of_In)). destruct r; [done|]. cbn. lia.
Qed.

Lemma trim_runes_suffix fuel enc b : ∃ sp, b = sp ++ trim_runes fuel enc b.
Proof.
  revert b. induction fuel as [|fuel IH]; intros b; cbn; [by exists []|]. destruct (space_at enc b) as [n|]; [|by exists []].
  destruct (IH (drop n b)) as (sp & Hd). exists (take n b ++ sp). rewrite <- app_assoc, <- Hd. by rewrite take_drop.
Qed.

Lemma space_runes_nonempty r : r ∈ space_runes → r ≠ [].
Proof. intros Hr ->. apply list_elem_of_In in Hr. vm_compute in Hr. repeat destruct Hr as [Hr|Hr]; try discriminate Hr. done. Qed.

Lemma no_space_starts enc b : (∀ z, enc [z] = [z]) → space_at enc b = None → starts ascii_space b = false.
Proof.
  intros He Hs. destruct b as [|c b]; [done|]. cbn. unfold ascii_space, one_of.
  destruct (existsb (Z.eqb (byte_to_Z c)) [32; 9; 10; 13]) eqn:E; [|done]. exfalso.
  apply existsb_exists in E as (z & Hz & Ez). bools. unfold space_at in Hs.
  destruct (List.find _ _) eqn:Ef; [done|]. pose proof (find_none _ _ Ef [z]) as Hn. cbn beta in Hn. rewrite He in Hn. cbn in Hn.
  rewrite (proj2 (Z.eqb_eq z (byte_to_Z c))) in Hn by done. cbn in Hn. enough (true = false) by done. apply Hn.
  cbn in Hz. repeat destruct Hz as [Hz|Hz]; [..|done]; subst z; vm_compute; repeat (first [left; reflexivity|right]).
Qed.

Lemma TrimSpace_ends s : starts ascii_space (sbytes (TrimSpace s)) = false ∧ starts ascii_space (rev (sbytes (TrimSpace s))) = false.
Proof.
  unfold TrimSpace. rewrite sbytes_bstring, rev_involutive.
  set (b := trim_runes (length (sbytes s)) id (sbytes s)).
  assert (starts ascii_space b = false) as Hb.
  { destruct (trim_runes_done (length (sbytes s)) id (sbytes s) space_runes_nonempty) as [Hn|Hn]; [lia| |].
    - by apply (no_space_starts id).
    - unfold b. by rewrite Hn. }
  split.
  - destruct (trim_runes_suffix (length b) (@rev Z) (rev b)) as (sp & Hsp).
    destruct (trim_runes (length b) (@rev Z) (rev b)) as [|c l] eqn:El; [done|]. cbn.
    apply (f_equal (@rev byte)) in Hsp. rewrite rev_involutive, rev_app_distr in Hsp. cbn in Hsp. rewrite Hsp in Hb.
    destruct (rev l) as [|y l'] eqn:Er; cbn in *; [done|]. done.
  - destruct (trim_runes_done (length b) (@rev Z) (rev b) space_runes_nonempty) as [Hn|Hn]; [by rewrite length_rev| |].
    + by apply (no_space_starts (@rev Z)).
    + by rewrite Hn.
Qed.

(** ** Cookies *)

Section Cookies.
Context `{Route.TextLib}.

Lemma space_not_upper b : ascii_space b = true → lower_byte b = b ∧ (byte_to_Z b <? 128) = true.
Proof.
  unfold ascii_space, one_of. intros (z & Hz & Ez)%existsb_exists. bools. unfold lower_byte, is_upper, in_range. rewrite Ez.
  cbn in Hz. repeat destruct Hz as [Hz|Hz]; [..|done]; subst z; by vm_compute.
Qed.

Lemma lower_trim name :
  starts ascii_space (sbytes name) = false → isToken (TrimString name) = true →
  ∃ sp, sbytes (Route.lower name) = sbytes (Route.lower (TrimString name)) ++ sp.
Proof.
  intros Hs Ht. unfold isToken in Ht. bools. destruct (trim_bytes_suffix ascii_space (sbytes name) Hs) as (sp & Hn & Hsp).
  assert (∀ b, token_byte b = true → (byte_to_Z b <? 128) = true) as Htok by (intros []; vm_compute; done).
  assert (is_ascii (TrimString name) = true) as Ha.
  { unfold is_ascii. apply forallb_forall. intros x Hx. apply Htok. by eapply forallb_forall in Hx. }
  assert (is_ascii name = true) as Ha'.
  { unfold is_ascii. rewrite Hn, forallb_app. unfold is_ascii, TrimString in Ha. rewrite sbytes_bstring in Ha. rewrite Ha. cbn.
    apply forallb_forall. intros x Hx. eapply forallb_forall in Hsp; [|exact Hx]. by apply space_not_upper. }
  unfold Route.lower, ToLower. rewrite Ha, Ha'. exists (lower_byte <$> sp). rewrite !sbytes_bstring. unfold TrimString. rewrite sbytes_bstring.
  rewrite <- fmap_app. by rewrite <- Hn.
Qed.

Lemma reserved_trim name :
  starts ascii_space (sbytes name) = false → isToken (TrimString name) = true →
  reservedBrowserCookie (TrimString name) = true → reservedBrowserCookie name = true.
Proof.
  intros Hs Ht. destruct (lower_trim name Hs Ht) as (sp & Hl). unfold reservedBrowserCookie.
  assert (∀ q, HasPrefix (Route.lower (TrimString name)) q = true → HasPrefix (Route.lower name) q = true) as Hq.
  { intros q. unfold HasPrefix. rewrite !bool_decide_eq_true, Hl. intros Hp. by apply prefix_app_r. }
  intros [[Hp|Hp]%orb_true_iff|Hp]%orb_true_iff; rewrite (Hq _ Hp); by rewrite ?orb_true_r.
Qed.

(** A part that was kept: trimmed, without a separator, its name not reserved. *)
Definition kept_part (p : string) : Prop :=
  free 59 (sbytes p) ∧ starts ascii_space (sbytes p) = false ∧ starts ascii_space (rev (sbytes p)) = false
  ∧ ∃ name value, Cut p 61 = Some (name, value) ∧ reservedBrowserCookie name = false.

Lemma free_sublist sep b b' sp : free sep b → b = sp ++ b' → free sep b'.
Proof. intros Hf ->. by apply Forall_app in Hf as [_ ?]. Qed.

Lemma TrimSpace_free sep s : free sep (sbytes s) → free sep (sbytes (TrimSpace s)).
Proof.
  intros Hf. unfold TrimSpace. rewrite sbytes_bstring. set (b := trim_runes (length (sbytes s)) id (sbytes s)).
  destruct (trim_runes_suffix (length (sbytes s)) id (sbytes s)) as (sp & E). fold b in E.
  apply free_rev. destruct (trim_runes_suffix (length b) (@rev Z) (rev b)) as (sp' & E'). eapply free_sublist; [|exact E'].
  apply free_rev. by eapply free_sublist.
Qed.

Lemma kept_cookies_parts h : Forall kept_part (kept_cookies h).
Proof.
  apply Forall_forall. intros p. unfold kept_cookies. intros (line & Hp & _)%list_elem_of_bind.
  apply list_elem_of_omap in Hp as (part & Hpart & Hp).
  destruct (Cut (TrimSpace part) 61) as [[name value]|] eqn:Ec; [|done]. destruct (reservedBrowserCookie name) eqn:Er; [done|].
  injection Hp as <-. destruct (TrimSpace_ends part). split_and!; [|done..|by exists name, value].
  apply TrimSpace_free. unfold Split in Hpart. apply list_elem_of_fmap in Hpart as (b & -> & Hb). rewrite sbytes_bstring.
  pose proof (split_on_parts 59 [] (sbytes line) ltac:(constructor)) as Hf. rewrite Forall_forall in Hf. auto.
Qed.

Lemma Cut_take s sep name value : Cut s sep = Some (name, value) → ∃ n, sbytes name = take n (sbytes s).
Proof. unfold Cut. destruct (IndexByte _ _) as [i|]; [|done]. intros [= <- <-]. exists i. by rewrite sbytes_bstring. Qed.

(** A kept part yields no reserved cookie, with or without a space in front. *)
Lemma cookie_of_kept p part n v :
  kept_part p → sbytes part = sbytes p ∨ sbytes part = x20 :: sbytes p → cookie_of part = Some (n, v) → reservedBrowserCookie n = false.
Proof.
  intros (_ & Hs & He & name & value & Hc & Hr) Hpart.
  assert (TrimString part = p) as Ht.
  { unfold TrimString. apply sbytes_inj. rewrite sbytes_bstring. destruct Hpart as [->| ->]; [by apply trim_bytes_id|].
    unfold trim_bytes. cbn [trim_left]. change (ascii_space x20) with true. cbn iota. by apply trim_bytes_id. }
  unfold cookie_of. rewrite Ht. destruct (p == "") eqn:E; [done|]. rewrite Hc. cbn -[isToken TrimString parseCookieValue].
  destruct (isToken (TrimString name)) eqn:Etok; cbn; [|done]. destruct (parseCookieValue value); [|done]. intros [= <- <-].
  destruct (reservedBrowserCookie (TrimString name)) eqn:Et; [|done].
  rewrite (reserved_trim name) in Hr; [done| |done|done].
  destruct (Cut_take _ _ _ _ Hc) as (k & ->). destruct (sbytes p) as [|c b]; [by rewrite take_nil|]. destruct k; done.
Qed.

Lemma kept_nonempty p : kept_part p → sbytes p ≠ [].
Proof. intros (_ & _ & _ & name & value & Hc & _) E. unfold Cut in Hc. by rewrite E in Hc. Qed.

Lemma last_not_space p ps :
  Forall kept_part (p :: ps) → starts ascii_space (rev (sbytes (String.concat "; " (p :: ps)))) = false.
Proof.
  intros Hk. rewrite concat_bytes. revert p Hk. induction ps as [|q ps IH]; intros p [Hp Hps]%Forall_cons.
  - rewrite app_nil_r. apply Hp.
  - specialize (IH q Hps). cbn. rewrite rev_app_distr. cbn.
    change (mbind (λ q0 : string, x3b :: x20 :: sbytes q0) ps) with (ps ≫= λ q0, x3b :: x20 :: sbytes q0) in *.
    destruct (rev (sbytes q ++ (ps ≫= λ q0, x3b :: x20 :: sbytes q0))) as [|c l] eqn:E.
    + apply (f_equal (@rev byte)) in E. rewrite rev_involutive in E. apply app_eq_nil in E as [E _].
      apply Forall_cons in Hps as [Hq _]. by destruct (kept_nonempty q Hq).
    + done.
Qed.

(** No cookie of a stripped request is reserved. *)
Lemma strip_cookies h n v : (n, v) ∈ Cookies (stripBrowserRequestCredentials h) → reservedBrowserCookie n = false.
Proof.
  unfold stripBrowserRequestCredentials. set (h' := del_selected _ h). pose proof (kept_cookies_parts h') as Hk.
  unfold Cookies. case_bool_decide as E.
  { unfold Del. change (CanonicalKey "Cookie") with "Cookie". rewrite lookup_delete_eq. cbn. by intros ?%not_elem_of_nil. }
  unfold Set_. change (CanonicalKey "Cookie") with "Cookie". rewrite lookup_insert_eq. cbn [default mbind list_bind].
  destruct (kept_cookies h') as [|p ps]; [done|]. unfold id. cbn -[TrimString Split String.concat]. rewrite ?app_nil_r.
  assert (TrimString (String.concat "; " (p :: ps)) = String.concat "; " (p :: ps)) as ->.
  { unfold TrimString. apply sbytes_inj. rewrite sbytes_bstring. apply trim_bytes_id; [|by apply last_not_space].
    rewrite concat_bytes. apply Forall_cons in Hk as [Hp _]. pose proof (kept_nonempty p Hp). destruct Hp as (_ & Hp & _).
    by destruct (sbytes p). }
  unfold Split. rewrite split_concat; [|apply Forall_cons in Hk as [Hp _]; apply Hp|].
  2: { apply Forall_cons in Hk as [_ Hk]. eapply Forall_impl; [exact Hk|]. intros q Hq. apply Hq. }
  intros (part & Hpart & Hc)%list_elem_of_omap. apply list_elem_of_fmap in Hpart as (b & -> & Hb).
  rewrite Forall_forall in Hk. apply elem_of_cons in Hb as [->|(q & -> & Hq)%list_elem_of_fmap].
  - eapply (cookie_of_kept p); [apply Hk; by left| |exact Hc]. left. by rewrite sbytes_bstring.
  - eapply (cookie_of_kept q); [apply Hk; by right| |exact Hc]. right. by rewrite sbytes_bstring.
Qed.

End Cookies.
End HTTPProofs.

Module PolicyProofs.
Import HTTP Ingress Browser PrivateAccess Policy HTTPProofs.
Import Route (RouteMatch, rm_Rule, rm_Host, rr_ID, rr_Kind, rr_AccessMode, rr_HostOverride, TextLib, lower, TunnelHTTPSWSS, PreviewHTTPSWSS, HelperHTTPSWSS).
Import Admission (Claims, cl_CredentialClass, cl_Revoked).

Section Policy.
Context `{TextLib} `{FoldLib} `{URLLib} `{AddrLib} `{IPLib} (p : Config) (en : Env).
Implicit Types r : Request IngressDecision.

(** ** Headers *)

Lemma canonical_stripHop h : canonical_keys h → canonical_keys (stripHopByHop h).
Proof. intros Hc. eapply canonical_subset; [done|]. intros k. apply foldr_Del_subset. Qed.

Lemma canonical_upgrade ws h : canonical_keys h → canonical_keys (upgrade_headers ws h).
Proof. intros Hc. unfold upgrade_headers. destruct ws; [|done]. by repeat apply canonical_Set. Qed.

Lemma canonical_stripBrowser h : canonical_keys h → canonical_keys (stripBrowserRequestCredentials h).
Proof.
  intros Hc. unfold stripBrowserRequestCredentials. case_bool_decide; [|apply canonical_Set; [done|]]; apply canonical_Del; by apply canonical_del_selected.
Qed.

Definition edge_header (kind name : string) : bool := private_header kind name || HasPrefix (lower name) "paperboat-".

Lemma stripPrivate_lookup kind h name :
  canonical_keys h → stripPrivate kind h !! name = if private_header kind name then None else stripBrowserRequestCredentials h !! name.
Proof. intros Hc. unfold stripPrivate. rewrite del_selected_lookup by (by apply canonical_stripBrowser). done. Qed.

Lemma stripBrowser_clean h name :
  canonical_keys h → is_Some (stripBrowserRequestCredentials h !! name) → HasPrefix (lower name) "paperboat-" = false.
Proof.
  intros Hc Hs. destruct (HasPrefix (lower name) "paperboat-") eqn:E; [exfalso|done].
  unfold stripBrowserRequestCredentials in Hs.
  assert (del_selected (λ name, HasPrefix (lower name) "paperboat-") h !! name = None) as Hd.
  { rewrite del_selected_lookup by done. cbn beta. by rewrite E. }
  case_bool_decide; unfold Set_ in *.
  - apply Del_subset in Hs as [? Hs]. congruence.
  - destruct Hs as [v [[<- _]|[_ Hv]]%lookup_insert_Some].
    + by vm_compute in E.
    + assert (is_Some (Del "Cookie" (del_selected (λ name, HasPrefix (lower name) "paperboat-") h) !! name)) as [? Hs]%Del_subset by eauto. congruence.
Qed.

Lemma forward_headers_clean kind client host id h name :
  canonical_keys h → is_Some (forward_headers kind client host id h !! name) → edge_header kind name = false.
Proof.
  intros Hc. unfold forward_headers, Set_. unfold edge_header.
  repeat (intros [v [[<- _]|[_ Hv]]%lookup_insert_Some]; [by destruct (kind == "runtime_https_wss"); vm_compute|];
          assert (is_Some (_ !! name)) as Hs by (exact (ex_intro _ v Hv)); revert Hs; clear Hv v).
  rewrite stripPrivate_lookup by done. intros Hs. destruct (private_header kind name); [by destruct Hs|]. cbn. by eapply stripBrowser_clean.
Qed.

Lemma forward_headers_cookie kind client host id h :
  canonical_keys h → forward_headers kind client host id h !! "Cookie" = stripBrowserRequestCredentials h !! "Cookie".
Proof.
  intros Hc. unfold forward_headers, Set_. rewrite !lookup_insert_ne by (by vm_compute). rewrite stripPrivate_lookup by done. done.
Qed.

Lemma forward_headers_cookies kind client host id h n v :
  canonical_keys h → (n, v) ∈ Cookies (forward_headers kind client host id h) → reservedBrowserCookie n = false.
Proof. intros Hc. unfold Cookies. rewrite forward_headers_cookie by done. apply strip_cookies. Qed.

Lemma forward_headers_values kind client host id h :
  let h' := forward_headers kind client host id h in
  Values h' "X-Forwarded-For" = [client] ∧ Values h' "X-Forwarded-Host" = [host] ∧ Values h' "X-Forwarded-Proto" = ["https"]
  ∧ Values h' "Forwarded" = [formatForwarded client host] ∧ Values h' "X-Request-ID" = [id].
Proof.
  cbn zeta. unfold Values, forward_headers, Set_. split_and!;
    repeat (rewrite lookup_insert_ne by (by vm_compute)); rewrite lookup_insert_eq; done.
Qed.

(** ** What was forwarded *)

(** How the route of a request was found. *)
Definition found_route r (matched : option RouteMatch) (kind host : string) : Prop :=
  match en_Acquire en with
  | None => matched = None ∧ allowedHost p (hr_Host r) = (host, Some kind)
  | Some acquire => ∃ m i candidate, matched = Some m ∧ kind = rr_Kind (rm_Rule m) ∧ host = rm_Host m
      ∧ dispatchHost (hr_Host r) = Some candidate ∧ acquire i candidate (u_Path (hr_URL r)) = inr m ∧ bad_managed_host p m = false
  end.

Lemma unmatched_route acquire host e r m :
  unmatched p en acquire host e r = inr m → acquire 1%nat host (u_Path (hr_URL r)) = inr m.
Proof.
  unfold unmatched. intros Hu. repeat (case_match; try discriminate Hu; simplify_eq); try done.
Qed.

Lemma serve_matched_forwarded matched kind host r conns r' w f claims conns' :
  serve_matched p en matched kind host r conns = (Forwarded r' w f claims, conns') →
  ∃ k r1 r2, kind = Some k ∧ normalizeRequestTarget r host = Some r1
    ∧ authorize_route p en matched k (r1 <| hr_Header := upgrade_headers (isWebSocketUpgrade (hr_Header r1)) (stripHopByHop (hr_Header r1)) |>) conns
      = (inr (r2, f), conns')
    ∧ forward p en matched k host (clientIP en r1) (isWebSocketUpgrade (hr_Header r1)) f r2 = Forwarded r' w f claims.
Proof.
  unfold serve_matched. destruct kind as [k|]; [|done]. destruct (normalizeRequestTarget r host) as [r1|]; [|done].
  case_match; [done|]. case_match; [done|]. destruct (authorize_route _ _ _ _ _ _) as [[a|[r2 f']] c] eqn:Ea; [done|].
  intros [= Hf <-]. exists k, r1, r2. split_and!; try done.
  - rewrite Ea. do 3 f_equal. revert Hf. clear. unfold forward, not_ready. intros Hf. repeat (case_match; try discriminate Hf; simplify_eq); done.
  - rewrite <- Hf. f_equal. revert Hf. clear. unfold forward, not_ready. intros Hf. repeat (case_match; try discriminate Hf; simplify_eq); done.
Qed.

Definition entered r (matched : option RouteMatch) : Request IngressDecision :=
  match matched with Some m => r <| hr_match := Some m |> | None => r end.

Definition stripped r : Request IngressDecision :=
  r <| hr_Header := upgrade_headers (isWebSocketUpgrade (hr_Header r)) (stripHopByHop (hr_Header r)) |>.

Lemma ServeHTTP_forwarded r conns r' w f claims lease conns' :
  ServeHTTP p en r conns = (Forwarded r' w f claims, lease, conns') →
  ∃ matched kind host r1 r2, found_route r matched kind host ∧ normalizeRequestTarget (entered r matched) host = Some r1
    ∧ authorize_route p en matched kind (stripped r1) conns = (inr (r2, f), conns')
    ∧ forward p en matched kind host (clientIP en r1) (isWebSocketUpgrade (hr_Header r1)) f r2 = Forwarded r' w f claims.
Proof.
  unfold ServeHTTP. destruct (reserved_path p en r) as [s|] eqn:Er.
  { intros [= -> _ _]. exfalso. revert Er. unfold reserved_path. repeat case_match; done. }
  unfold found_route. destruct (en_Acquire en) as [acquire|] eqn:Ea.
  - destruct (dispatchHost (hr_Host r)) as [candidate|] eqn:Ed; [|done].
    destruct (match acquire 0%nat candidate (u_Path (hr_URL r)) with inr m => inr m | inl e => unmatched p en acquire candidate e r end)
      as [s|m] eqn:Ef.
    { intros [= -> _ _]. exfalso. destruct (acquire 0%nat candidate _) as [e|]; [|done]. revert Ef. unfold unmatched. repeat case_match; done. }
    assert (∃ i, acquire i candidate (u_Path (hr_URL r)) = inr m) as (i & Hi).
    { destruct (acquire 0%nat candidate _) as [e|m'] eqn:E0; [exists 1%nat; by eapply unmatched_route|]. exists 0%nat. congruence. }
    destruct (bad_managed_host p m) eqn:Eb; [done|].
    destruct (serve_matched p en (Some m) _ _ _ _) as [s c] eqn:Es. intros [= -> <- <-].
    destruct (serve_matched_forwarded _ _ _ _ _ _ _ _ _ _ Es) as (k & r1 & r2 & [= <-] & Hn & Ha & Hf).
    exists (Some m), (rr_Kind (rm_Rule m)), (rm_Host m), r1, r2. split_and!; try done. by exists m, i, candidate.
  - destruct (allowedHost p (hr_Host r)) as [host kind] eqn:Eh.
    destruct (serve_matched p en None kind host r conns) as [s c] eqn:Es. intros [= -> <- <-].
    destruct (serve_matched_forwarded _ _ _ _ _ _ _ _ _ _ Es) as (k & r1 & r2 & -> & Hn & Ha & Hf).
    exists None, k, host, r1, r2. by split_and!.
Qed.

Lemma normalizeRequestTarget_same r host r1 :
  normalizeRequestTarget r host = Some r1 →
  hr_Header r1 = hr_Header r ∧ hr_match r1 = hr_match r ∧ hr_decision r1 = hr_decision r ∧ u_Path (hr_URL r1) = u_Path (hr_URL r)
  ∧ hr_Method r1 = hr_Method r ∧ u_Scheme (hr_URL r1) = "".
Proof.
  unfold normalizeRequestTarget. case_bool_decide as E; [by intros [= <-]|]. case_match; [done|]. by intros [= <-].
Qed.

(** A browser decision: from the authority, about this route, with the goroutine that renews it. *)
Definition by_browser r2 (f : option refresher) (m : RouteMatch) : Prop :=
  ∃ b authority d input deadline, pg_BrowserAccess p = Some b ∧ bw_Authority b = Some authority ∧ Authorize authority input = inr d
    ∧ browserDecisionMatches d m (en_now en 2) = true ∧ hr_decision r2 = Some d
    ∧ f = Some (mkRefresher input d deadline false) ∧ deadline = en_now en 1 + Sub (ig_ExpiresAt d) (ig_IssuedAt d).

(** A connection of a machine: the request carries the token of this process and names a
    registered connection, unexpired, whose request is for this route. *)
Definition by_connection h (conns : option PrivateAccessConnectionRegistry) (m : RouteMatch) : Prop :=
  rr_AccessMode (rm_Rule m) = "private" ∧ Values h "X-Paperboat-Private-Carrier" = [pg_PrivateAccessToken p]
  ∧ ∃ c e, conns = Some c ∧ pc_entries c !! Get h "X-Paperboat-Private-Connection" = Some e
      ∧ After (pe_expires e) (en_now en 3) = true ∧ connection_matches (pe_request e) m = true.

Lemma authorize_inr b r m started now r2 f :
  authorize b r m started now = inr (r2, f) →
  ∃ authority d input, bw_Authority b = Some authority ∧ Authorize authority input = inr d ∧ browserDecisionMatches d m now = true
    ∧ r2 = r <| hr_decision := Some d |> ∧ f = mkRefresher input d (started + Sub (ig_ExpiresAt d) (ig_IssuedAt d)) false.
Proof.
  unfold authorize. destruct (bw_Authority b) as [authority|]; [|done]. case_match; [done|]. case_match; [done|].
  destruct (access_token r) as [[[token machine]|]|]; try done. case_match; [done|].
  destruct (Authorize authority _) as [e|d] eqn:Ed; [done|]. destruct (browserDecisionMatches d m now) eqn:Em; [|done]. cbn.
  intros [= <- <-]. eauto 10.
Qed.

Lemma authorize_route_inr matched kind r conns r2 f conns' :
  authorize_route p en matched kind r conns = (inr (r2, f), conns') →
  (hr_match r2 = hr_match r ∧ u_Path (hr_URL r2) = u_Path (hr_URL r)
   ∧ (canonical_keys (hr_Header r) → canonical_keys (hr_Header r2)))
  ∧ match matched with
    | Some m => restricted matched = true →
                by_browser r2 f m ∨ by_connection (hr_Header r) conns m
                ∨ rr_AccessMode (rm_Rule m) = "private" ∧ kind ≠ dataCarrierPreviewPrivateRouteKind ∧ kind ≠ TunnelHTTPSWSS
    | None => True
    end.
Proof.
  unfold authorize_route. destruct matched as [m|]; [|by intros [= <- <- <-]].
  destruct (match pg_BrowserAccess p with
            | Some b => if restricted (Some m) && (Get (hr_Header r) "X-Paperboat-Private-Carrier" == "")
                        then match authorize b r m (en_now en 1) (en_now en 2) with inl a => Some (inl a) | inr x => Some (inr x) end else None
            | None => None end) as [[a|[r3 f3]]|] eqn:Eb.
  - done.
  - intros [= <- <- <-]. destruct (pg_BrowserAccess p) as [b|] eqn:Ebr; [|done]. case_match; [|done].
    destruct (authorize b r m _ _) as [a|[r4 f4]] eqn:Ea; [done|]. injection Eb as <- <-.
    destruct (authorize_inr _ _ _ _ _ _ _ Ea) as (authority & d & input & Hb & Hd & Hm & -> & ->).
    split; [done|]. intros _. left. unfold by_browser. eauto 15.
  - clear Eb. case_bool_decide as Et; [done|]. cbn [mode_of] in *.
    destruct (_ && _) eqn:Ek; [|intros [= <- <- <-]; split; [done|]; intros Hr; right; right].
    + unfold consumePrivateCarrierToken. destruct (match Values (hr_Header r) _ with [value] => _ | _ => _ end) eqn:Ev; [|done]. cbn.
      destruct conns as [c|]; [|done]. unfold Connection_Authorize. destruct (pc_entries c !! _) as [e|] eqn:Ee; [|done].
      destruct (After (pe_expires e) _) eqn:Eexp; cbn; [|done]. destruct (connection_matches _ m) eqn:Em; [|done].
      intros [= <- <- <-]. cbn -[Del]. split_and!; [done|done|intros Hc; by apply (canonical_Del "X-Paperboat-Private-Connection"), (canonical_Del "X-Paperboat-Private-Carrier")|]. intros _. right; left.
      bools. split; [done|]. destruct (Values (hr_Header r) _) as [|v [|]] eqn:Evs; try done. bools. subst v. split; [done|]. exists c, e. done.
    + unfold restricted in Hr. cbn [mode_of] in Hr. apply orb_true_iff in Hr as [Hr|Hr]; bools; [|done]. split; [done|].
      rewrite (bool_decide_eq_true_2 _ Hr) in Ek. cbn in Ek. bools. done.
Qed.

Lemma forward_inr matched kind host client ws f r2 r' w claims :
  forward p en matched kind host client ws f r2 = Forwarded r' w f claims →
  ∃ requestID, trustedRequestID en = Some requestID
    ∧ hr_Header r' = forward_headers kind client host requestID (hr_Header r2) ∧ hr_match r' = hr_match r2 ∧ hr_decision r' = hr_decision r2
    ∧ u_Path (hr_URL r') = u_Path (hr_URL r2)
    ∧ (kind = HelperHTTPSWSS → u_Path (hr_URL r2) = "/healthz" ∨
         ∃ c verify token, claims = Some c ∧ en_HelperAccess en = Some verify ∧ verify token = inr c ∧ cl_Revoked c = false
           ∧ credentialAllowsHelperPath (cl_CredentialClass c) (u_Path (hr_URL r2)) = true).
Proof.
  unfold forward. destruct (trustedRequestID en) as [id|]; [|done]. cbn zeta.
  set (r3 := match matched with Some m => _ | None => _ end).
  assert (hr_Header r3 = forward_headers kind client host id (hr_Header r2) ∧ hr_match r3 = hr_match r2 ∧ hr_decision r3 = hr_decision r2
          ∧ u_Path (hr_URL r3) = u_Path (hr_URL r2)) as (Hh & Hm & Hd & Hp) by (unfold r3; destruct matched; [case_match|]; done).
  clearbody r3. destruct (not_ready _ _ _ _ _ _) as [s|] eqn:En.
  { intros ->. exfalso. revert En. unfold not_ready. repeat case_match; done. }
  rewrite Hp. destruct ((kind == "runtime_https_wss") && negb (helperPublicPath (u_Path (hr_URL r2)))) eqn:E1; [done|].
  destruct ((kind == "runtime_https_wss") && helperAccessPath (u_Path (hr_URL r2))) eqn:E2.
  - unfold authorizeHelperAccess. destruct (en_HelperAccess en) as [verify|]; [|done]. destruct (negb (en_Revocations en) || _); [done|].
    destruct (Cut (TrimSpace (Get (hr_Header r3) "Authorization")) 32) as [[scheme token]|]; [|done].
    destruct (negb (EqualFold scheme "Bearer") || _ || _); [done|]. destruct (verify token) as [e|c] eqn:Ev; [done|].
    destruct (cl_Revoked c) eqn:Erv; [done|]. destruct (credentialAllowsHelperPath _ _) eqn:Ec; [|done]. intros [= <- <- <-].
    exists id. split_and!; try done. intros _. right. by exists c, verify, token.
  - intros [= <- <- <-]. exists id. split_and!; try done. intros ->. left.
    unfold HelperHTTPSWSS, helperPublicPath in *. rewrite bool_decide_eq_true_2 in E1, E2 by done. cbn in E1, E2. rewrite E2, orb_false_r in E1.
    bools. done.
Qed.

(** *** Theorems *)


(** C27. Nothing the edge keeps to itself leaves it, and nothing a client says about itself is
    believed: of a forwarded request, whose headers had canonical names as the server gives
    them, no header name starts with the prefixes of the edge (but for the seven operation
    headers of a helper route), no cookie is one of the reserved ones, and address, host,
    scheme and request identifier are the ones the policy determined. *)
Theorem forwarded_request_clean r conns r' w f claims lease conns' :
  ServeHTTP p en r conns = (Forwarded r' w f claims, lease, conns') → canonical_keys (hr_Header r) →
  ∃ kind host r1 requestID, trustedRequestID en = Some requestID ∧ hr_Header r1 = hr_Header r ∧ hr_RemoteAddr r1 = hr_RemoteAddr r
    ∧ (∀ name, is_Some (hr_Header r' !! name) → HasPrefix (lower name) "paperboat-" = false
         ∧ (HasPrefix (lower name) "x-paperboat-" = true → kind = HelperHTTPSWSS ∧ mem_str helperOperationHeaders (lower name) = true))
    ∧ (∀ n v, (n, v) ∈ Cookies (hr_Header r') → reservedBrowserCookie n = false)
    ∧ Values (hr_Header r') "X-Forwarded-For" = [clientIP en r1] ∧ Values (hr_Header r') "X-Forwarded-Host" = [host]
    ∧ Values (hr_Header r') "X-Forwarded-Proto" = ["https"] ∧ Values (hr_Header r') "Forwarded" = [formatForwarded (clientIP en r1) host]
    ∧ Values (hr_Header r') "X-Request-ID" = [requestID]
    ∧ ∀ m, hr_match r = None → hr_match r' = Some m → host = rm_Host m ∧ kind = rr_Kind (rm_Rule m).
Proof.
  intros Hs Hc. destruct (ServeHTTP_forwarded _ _ _ _ _ _ _ _ Hs) as (matched & kind & host & r1 & r2 & Hfound & Hn & Ha & Hf).
  destruct (forward_inr _ _ _ _ _ _ _ _ _ _ Hf) as (id & Hid & Hh & Hmr & _). destruct (authorize_route_inr _ _ _ _ _ _ _ Ha) as [(Hm2 & _ & Hcan) _].
  assert (hr_RemoteAddr r1 = hr_RemoteAddr r) as Hra.
  { revert Hn. unfold normalizeRequestTarget, entered. destruct matched; cbn; repeat case_match; try done; by intros [= <-]. }
  apply normalizeRequestTarget_same in Hn as (Hh1 & Hm1 & _).
  assert (hr_Header r1 = hr_Header r) as Hr1 by (rewrite Hh1; by destruct matched).
  assert (canonical_keys (hr_Header r2)) as Hc2.
  { apply Hcan. unfold stripped. cbn. apply canonical_upgrade, canonical_stripHop. by rewrite Hr1. }
  exists kind, host, r1, id. rewrite Hh. destruct (forward_headers_values kind (clientIP en r1) host id (hr_Header r2)) as (? & ? & ? & ? & ?).
  split_and!; try done.
  - intros name Hname. pose proof (forward_headers_clean kind (clientIP en r1) host id (hr_Header r2) name Hc2 Hname) as Hclean.
    unfold edge_header, private_header in Hclean. bools. split; [done|]. intros Hx. rewrite Hx in *. cbn in *. bools. done.
  - intros n v Hv. by eapply forward_headers_cookies.
  - intros m Hr Hm. rewrite Hmr, Hm2 in Hm. unfold stripped in Hm. cbn in Hm.
    rewrite Hm1 in Hm. destruct matched as [m'|]; cbn in Hm; [|congruence]. injection Hm as ->.
    unfold found_route in Hfound. destruct (en_Acquire en); [|by destruct Hfound]. by destruct Hfound as (m' & ? & ? & [= <-] & -> & -> & _).
Qed.

End Policy.
End PolicyProofs.
