(* ===== verification/PolicyGuarantees.v ===== *)
(** * The policy of the public gateway: composition

    Restricted access from its grant to the origin: a machine reaches a private route only
    after the control plane granted that access, a browser only while its decision is
    renewed; helper credentials fit the path they are used for; and a host with several route
    owners is served by exactly one. *)
From S2P Require Import Prelude Go Strings Protocol Admission Route StreamFrames Carrier PreviewAdmission Ingress HTTP PrivateAccess Policy PolicyProofs.

Module PolicyGuarantees.
Import HTTP StreamFrames Ingress Browser PrivateAccess Policy HTTPProofs PolicyProofs.
Import Route (RouteMatch, mkMatch, rm_Rule, rm_Host, rr_ID, rr_Kind, rr_AccessMode, rr_ResourceKind, rr_ConnectorID, TextLib, TunnelHTTPSWSS, HelperHTTPSWSS, ErrNoMatch, ErrMatchConflict).
Import Carrier (Identity, id_AccountID, id_HostID, mkIdentity).
Import Admission (Claims, cl_CredentialClass, cl_Revoked).

Section Grants.
Context `{TextLib} `{AddrLib} (post : string → PrivateAccessRequest → grant_answer).

(** A stream that was served: the identity of its carrier, its open frame, and the decision. *)
Record grant := mkGrant {
  gr_identity : Identity;
  gr_metadata : StreamOpen;
  gr_open : PrivateAccessOpen;
  gr_decision : PrivateAccessGrantDecision;
  gr_checked : Time                        (** when the decision was checked *)
}.

(** The registry under every history of served streams, closed connections and requests. *)
Inductive connections_run (maximum : Z) : list grant → PrivateAccessConnectionRegistry → Prop :=
| connections_new r : NewPrivateAccessConnectionRegistry maximum = inr r → connections_run maximum [] r
| connections_serve log r metadata identity open now1 now2 now3 opened written d address local n1 n2 :
    connections_run maximum log r →
    AuthorizePrivateAccessGrant post (po_Grant open) (po_Request open) now1 now2 = inr d →
    BOpen (po_Request open) ∈ serveStream metadata identity (inr open) (λ g q, AuthorizePrivateAccessGrant post g q now1 now2) now3 opened written →
    connections_run maximum (mkGrant identity metadata open d now2 :: log) (OpenPrivateAccessTarget address local (po_Request open) n1 n2 r).2
| connections_remove log r address token : connections_run maximum log r → connections_run maximum log (Remove address token r)
| connections_authorize log r address m now : connections_run maximum log r → connections_run maximum log (Connection_Authorize address m now r).2.

Definition granted (g : grant) (q : PrivateAccessRequest) : Prop :=
  po_Request (gr_open g) = q ∧ privateAccessMetadataMatches (gr_metadata g) q (gr_identity g) = true
  ∧ post (po_Grant (gr_open g)) q = Answered 200 (gr_decision g) ∧ validatePrivateAccessGrantDecision (gr_decision g) q (gr_checked g) = None.

Lemma serve_granted metadata identity open now1 now2 now3 opened written d :
  AuthorizePrivateAccessGrant post (po_Grant open) (po_Request open) now1 now2 = inr d →
  BOpen (po_Request open) ∈ serveStream metadata identity (inr open) (λ g q, AuthorizePrivateAccessGrant post g q now1 now2) now3 opened written →
  granted (mkGrant identity metadata open d now2) (po_Request open).
Proof.
  unfold serveStream. intros Ha Hb. destruct (privateAccessMetadataMatches metadata (po_Request open) identity) eqn:Em.
  2: { cbn in Hb. apply list_elem_of_In in Hb. by destruct Hb as [Hb|[Hb|[]]]. }
  split_and!; [done|done|..]; unfold AuthorizePrivateAccessGrant in Ha; (destruct (_ || _) in Ha; [done|]); cbn;
    (destruct (post (po_Grant open) (po_Request open)) as [| |status d']; [done|done|]); (destruct (status =? 200) eqn:Es; [|by repeat case_match]);
    (destruct (validatePrivateAccessGrantDecision d' (po_Request open) now2) eqn:Ev; [done|]); injection Ha as <-; bools; by subst.
Qed.

Definition entries_granted (log : list grant) (r : PrivateAccessConnectionRegistry) : Prop :=
  ∀ address e, pc_entries r !! address = Some e → pe_expires e = pa_ExpiresAt (pe_request e) ∧ ∃ g, g ∈ log ∧ granted g (pe_request e).

Lemma entries_subset log r r' :
  entries_granted log r → (∀ address e, pc_entries r' !! address = Some e → pc_entries r !! address = Some e) → entries_granted log r'.
Proof. intros Hg Hs address e He. eauto. Qed.

Lemma OpenTarget_entries address local q n1 n2 r a e :
  pc_entries (OpenPrivateAccessTarget address local q n1 n2 r).2 !! a = Some e →
  pc_entries r !! a = Some e ∨ pe_request e = q ∧ pe_expires e = pa_ExpiresAt q.
Proof.
  unfold OpenPrivateAccessTarget, Register. repeat case_match; simplify_eq; cbn; try (by left); cbn;
    intros [[<- <-]|[_ ?]]%lookup_insert_Some; cbn; auto.
Qed.

Lemma connections_run_granted maximum log r : connections_run maximum log r → entries_granted log r.
Proof.
  induction 1 as [r Hr|log r metadata identity open now1 now2 now3 opened written d address local n1 n2 _ IH Ha Hb|log r address token _ IH|log r address m now _ IH].
  - unfold NewPrivateAccessConnectionRegistry in Hr. case_match; [done|]. injection Hr as <-. intros a e He. cbn in He. by rewrite lookup_empty in He.
  - intros a e [He|[Hq Hx]]%OpenTarget_entries.
    + destruct (IH _ _ He) as (Hexp & g & Hg & Hgr). split; [done|]. exists g. split; [by right|done].
    + split; [congruence|]. exists (mkGrant identity metadata open d now2). split; [by left|]. rewrite Hq. by eapply serve_granted.
  - eapply entries_subset; [done|]. intros a e. unfold Remove. repeat case_match; try done. cbn. by intros [_ ?]%lookup_delete_Some.
  - eapply entries_subset; [done|]. intros a e. unfold Connection_Authorize. repeat case_match; try done. cbn. by intros [_ ?]%lookup_delete_Some.
Qed.

End Grants.

Section Access.
Context `{TextLib} `{FoldLib} `{URLLib} `{AddrLib} `{IPLib} (p : Config) (en : Env).
Implicit Types r : Request IngressDecision.


(** Helper routes are served only for their own credentials: a request forwarded on a helper
    route asks for its health, or carries a token that the verifier accepted, that is not
    revoked and whose class is the one for that path. *)
Theorem helper_forward_authorized r conns r' w f claims lease conns' m :
  ServeHTTP p en r conns = (Forwarded r' w f claims, lease, conns') → hr_match r = None → hr_match r' = Some m → rr_Kind (rm_Rule m) = HelperHTTPSWSS →
  u_Path (hr_URL r) = "/healthz"
  ∨ ∃ c verify token, claims = Some c ∧ en_HelperAccess en = Some verify ∧ verify token = inr c ∧ cl_Revoked c = false
      ∧ credentialAllowsHelperPath (cl_CredentialClass c) (u_Path (hr_URL r)) = true.
Proof.
  intros Hs Hr Hm Hk. destruct (ServeHTTP_forwarded _ _ _ _ _ _ _ _ _ _ Hs) as (matched & kind & host & r1 & r2 & Hfound & Hn & Ha & Hf).
  destruct (forward_inr _ _ _ _ _ _ _ _ _ _ _ _ Hf) as (id & _ & _ & Hmr & _ & _ & Hhelper). apply normalizeRequestTarget_same in Hn as (_ & Hm1 & _ & Hp & _).
  destruct (authorize_route_inr _ _ _ _ _ _ _ _ _ Ha) as [(Hm2 & Hp2 & _) _]. unfold stripped in Hm2, Hp2. cbn in Hm2, Hp2.
  rewrite Hmr, Hm2, Hm1 in Hm. destruct matched as [m'|]; cbn in Hm; [injection Hm as ->|congruence].
  assert (u_Path (hr_URL r2) = u_Path (hr_URL r)) as Hpath by (rewrite Hp2, Hp; done). rewrite <- Hpath. apply Hhelper.
  unfold found_route in Hfound. destruct (en_Acquire en); [|by destruct Hfound]. destruct Hfound as (m' & ? & ? & [= <-] & -> & _). done.
Qed.

(** ** Renewal *)

Inductive refresh_step (m : RouteMatch) : Time → refresher → refresher → Prop :=
| step_tick answer start now f : start ≤ now → refresh_step m start f (refresh_tick m answer start now f)
| step_timer now f : rf_deadline f ≤ now → refresh_step m now f (refresh_expire f).

(** The refresher after rounds that started at the given times, the last first. *)
Inductive refresh_run (m : RouteMatch) (f0 : refresher) (started : Time) : list Time → refresher → Prop :=
| refresh_begin : refresh_run m f0 started [] f0
| refresh_next times f t f' : refresh_run m f0 started times f → refresh_step m t f f' → refresh_run m f0 started (t :: times) f'.

Definition same_grant (d d' : IngressDecision) : Prop :=
  d' = d <| ig_IssuedAt := ig_IssuedAt d' |> <| ig_ExpiresAt := ig_ExpiresAt d' |> <| ig_DecisionID := ig_DecisionID d' |>.

Lemma matches_lifetime d m now : browserDecisionMatches d m now = true → Sub (ig_ExpiresAt d) (ig_IssuedAt d) ≤ 10 * Second.
Proof.
  unfold browserDecisionMatches. intros Hd. bools. destruct (Decision_Validate d now) eqn:Ev; [done|].
  unfold Decision_Validate in Ev. destruct (_ || _) eqn:Eb in Ev; [done|]. bools. unfold IngressAuthorityLifetime in *. lia.
Qed.

Lemma refresh_run_inv b r m started now r2 f0 times f :
  authorize b r m started now = inr (r2, f0) → refresh_run m f0 started times f → rf_cancelled f = false →
  same_grant (rf_decision f0) (rf_decision f)
  ∧ ∃ t, (t = started ∨ t ∈ times) ∧ rf_deadline f ≤ t + 10 * Second ∧ (∃ now, browserDecisionMatches (rf_decision f) m now = true).
Proof.
  intros Ha. destruct (authorize_inr _ _ _ _ _ _ _ Ha) as (authority & d & input & _ & _ & Hm & _ & ->).
  induction 1 as [|times f t f' _ IH Hstep]; intros Hc.
  - split; [by destruct d|]. exists started. cbn. pose proof (matches_lifetime _ _ _ Hm). split_and!; [by left|lia|by exists now].
  - destruct Hstep as [answer start n f Hle|n f Hdl]; [|done]. unfold refresh_tick in *. destruct (rf_cancelled f) eqn:Ec; [by rewrite Ec in Hc|].
    destruct (IH eq_refl) as (Hsame & _). destruct answer as [e|next]; [done|]. case_match eqn:Eb; [done|]. bools.
    rename select (browserDecisionMatches next m n = true) into Hnext.
    match goal with Hx : _ = next |- _ => rename Hx into Heq end. cbn [rf_decision rf_deadline] in *. split.
    + unfold same_grant in *. rewrite <- Heq. rewrite Hsame. done.
    + exists start. pose proof (matches_lifetime _ _ _ Hnext). split_and!; [right; by left|lia|by exists n].
Qed.

(** C28. A restricted request lives only as long as the control plane keeps agreeing: whatever
    rounds its refresher ran, while the request is not cancelled its decision still names
    the same viewer, grant, route and generations as the first, it passed the match with the
    route, and it ends at most ten seconds after the round that renewed it was started; an
    error, a denial or any difference cancels the request, as does reaching the end. *)
Theorem browser_grant_renewed b r m started now r2 f0 times f :
  authorize b r m started now = inr (r2, f0) → refresh_run m f0 started times f →
  (rf_cancelled f = false →
     same_grant (rf_decision f0) (rf_decision f)
     ∧ ∃ t, (t = started ∨ t ∈ times) ∧ rf_deadline f ≤ t + 10 * Second ∧ ∃ now, browserDecisionMatches (rf_decision f) m now = true)
  ∧ (∀ answer start n, (∀ next, answer = inr next → ¬ same_grant (rf_decision f) next ∨ browserDecisionMatches next m n = false) →
       rf_cancelled (refresh_tick m answer start n f) = true)
  ∧ rf_cancelled (refresh_expire f) = true.
Proof.
  intros Ha Hrun. split_and!; [by intros; eapply refresh_run_inv| |done].
  intros answer start n Hbad. unfold refresh_tick. destruct (rf_cancelled f) eqn:Ec; [done|]. destruct answer as [e|next]; [done|].
  case_match eqn:Eb; [done|]. bools. destruct (Hbad next eq_refl) as [Hn|Hn]; [|congruence]. destruct Hn. unfold same_grant. congruence.
Qed.

End Access.

(** ** Several route owners *)

(** The owners that answered, with their matches, in order. *)
Definition owners (answers : list (Route.error + RouteMatch)) (i : nat) : list (nat * RouteMatch) :=
  omap (λ x : nat * (Route.error + RouteMatch), match x.2 with inr m => Some (x.1, m) | inl _ => None end)
    (combine (seq i (length answers)) answers).

Lemma acquire_all_spec answers i taken :
  match acquire_all answers i taken with
  | (inl e, closed) => e ≠ ErrNoMatch ∧ inl e ∈ answers ∧ ∃ pre post, answers = pre ++ inl e :: post ∧ closed = (rev taken ++ owners pre i).*1
                       ∧ ∀ e', inl e' ∈ pre → e' = ErrNoMatch
  | (inr l, closed) => closed = [] ∧ l = rev taken ++ owners answers i ∧ ∀ e, inl e ∈ answers → e = ErrNoMatch
  end.
Proof.
  revert i taken. induction answers as [|[e|m] answers IH]; intros i taken; cbn.
  - split_and!; [done|by rewrite app_nil_r|]. by intros e ?%not_elem_of_nil.
  - destruct e; try (split_and!; [done|by left|]; eexists [], answers; cbn; rewrite app_nil_r; split_and!; [done|done|by intros e' ?%not_elem_of_nil]).
    specialize (IH (S i) taken). destruct (acquire_all answers (S i) taken) as [[e|l] closed].
    + destruct IH as (He & Hin & pre & post & -> & -> & Hpre). split_and!; [done|by right|]. exists (inl ErrNoMatch :: pre), post.
      split_and!; [done|done|]. intros e' [[= ->]|Hp]%elem_of_cons; [done|auto].
    + destruct IH as (-> & -> & Hall). split_and!; [done|done|]. intros e [[= ->]|He]%elem_of_cons; [done|auto].
  - specialize (IH (S i) ((i, m) :: taken)). destruct (acquire_all answers (S i) ((i, m) :: taken)) as [[e|l] closed].
    + destruct IH as (He & Hin & pre & post & -> & -> & Hpre). split_and!; [done|by right|]. exists (inr m :: pre), post.
      split_and!; [done|cbn; by rewrite <- app_assoc|]. intros e' [[=]|Hp]%elem_of_cons. auto.
    + destruct IH as (-> & -> & Hall). split_and!; [done|cbn; by rewrite <- app_assoc|]. intros e [[=]|He]%elem_of_cons. auto.
Qed.

(** A host is served by exactly one route owner or by none, whatever the order of the
    owners: a match is returned exactly when one owner has one and all others have none,
    then no lease is closed; otherwise every lease that was taken is closed again. *)
Theorem composite_single_owner answers i m :
  (∃ closed, Composite_Acquire answers = (inr (i, m), closed)) ↔
  owners answers 0 = [(i, m)] ∧ ∀ e, inl e ∈ answers → e = ErrNoMatch.
Proof.
  unfold Composite_Acquire. pose proof (acquire_all_spec answers 0 []) as Hs. destruct (acquire_all answers 0 []) as [[e|l] closed].
  - split; [by intros (? & ?)|]. intros [_ Hall]. destruct Hs as (He & Hin & _). by destruct (He (Hall _ Hin)).
  - destruct Hs as (_ & -> & Hall). cbn [rev app]. destruct (owners answers 0) as [|x [|y l]]; split.
    + by intros (? & ?).
    + by intros [? _].
    + intros (? & [= <- _]). done.
    + intros [[= ->] _]. by exists [].
    + by intros (? & ?).
    + by intros [? _].
Qed.

(** Every lease that was taken is handed out or closed. *)
Lemma composite_leases answers :
  match Composite_Acquire answers with
  | (inr (i, _), closed) => (owners answers 0).*1 = [i] ∧ closed = []
  | (inl _, closed) => ∃ pre, pre `prefix_of` answers ∧ closed = (owners pre 0).*1
  end.
Proof.
  unfold Composite_Acquire. pose proof (acquire_all_spec answers 0 []) as Hs. destruct (acquire_all answers 0 []) as [[e|l] closed].
  - destruct Hs as (_ & _ & pre & post & -> & -> & _). exists pre. split; [by eexists|done].
  - destruct Hs as (-> & -> & _). cbn [rev app]. destruct (owners answers 0) as [|[j m] [|y l]] eqn:E; [|done|].
    + exists []. split; [apply prefix_nil|done].
    + exists answers. rewrite E. done.
Qed.

(** ** A private preview is never served to a machine *)

(** A valid access request for a preview names no connector, while the rule of a preview names
    the connector that serves it: such a connection matches no route. *)
Theorem private_preview_never_matches `{TextLib} q m now :
  AccessRequest_Validate q now = None → rr_ResourceKind (rm_Rule m) = "preview" → rr_ConnectorID (rm_Rule m) ≠ "" → connection_matches q m = false.
Proof.
  intros Hv Hk Hc. destruct (connection_matches q m) eqn:E; [exfalso|done]. unfold connection_matches in E. bools.
  unfold AccessRequest_Validate in Hv. destruct (existsb _ _); [done|]. destruct (_ || _) in Hv; [done|].
  assert (pa_ResourceKind q = "preview") as Hp by congruence. rewrite (bool_decide_eq_true_2 _ Hp) in Hv.
  destruct (badID (pa_OperationID q) || (pa_ConnectorID q != "")) eqn:Eb; [done|]. bools. congruence.
Qed.

(** ** A private route, seen by a browser and by a machine *)

Module Gateway.

#[local] Instance sample_text : Route.TextLib := {|
  Route.unicode_lower := λ s, s; Route.ToASCII := Some; Route.isIP := λ s, s == "127.0.0.1"; Route.ValidUTF8 := λ _, true |}.
#[local] Instance sample_fold : FoldLib := λ _ _, false.
#[local] Instance sample_addr : AddrLib := λ s, s == "127.0.0.1".
#[local] Instance sample_ip : IPLib := {| ip_String := Some; ip_is4 := λ _, true |}.
#[local] Instance sample_url : URLLib := {|
  url_Parse := λ s, Some (mkURL "https" "login.example.com" false "" "" "" s);
  ParseRequestURI := λ s, Some (mkURL "" "" false s "" "" s); QueryEscape := λ s, s |}.

Definition epoch0 := "epoch-0123456789abcdef0123456789abcdef".
Definition token0 := "0123456789abcdef0123456789abcdef".
Definition t0 : Time := 1000 * Second.

Definition rule (kind mode : string) : Route.RouteRule :=
  Route.mkRule "route" 1 1 "" 1 "asg" 1 "tunnel" 1 "env" "acct" "host" "" "" "tun" "con" "sess" 1 1 "" "edge" epoch0 "" kind "exact"
    "app.example.com" "" "/" 0 "" "http" "" 0 "http" mode false "" "active" "" "".
Definition match_of (kind mode : string) : RouteMatch := mkMatch (rule kind mode) "app.example.com" "/" 1.
Definition private0 : RouteMatch := match_of TunnelHTTPSWSS "private".
Definition helper0 : RouteMatch := match_of HelperHTTPSWSS "public".

Definition binding0 : IngressBinding :=
  mkIngressBinding "env" "acct" "tun" "durable" 1 "route" 1 "target" 1 "host" 1 "private" "edge" "http" "app.example.com" "/"
    "http" "127.0.0.1:8080" "" "not_applicable" "" "" "pub" 1 "" 0.
Definition decision0 : IngressDecision :=
  mkDecision binding0 "decision" 1 "edge" epoch0 "con" "sess" 1 1 1 "viewer" "grant" 1 0 "view" t0 (t0 + 10 * Second).

Definition browser0 : BrowserAccess :=
  mkBrowserAccess (Some (mkBrowserAuthority (λ _ _, inl ErrIngressDenied) (λ _ _ _ _, inl ErrIngressDenied)
    (λ q, if ba_Token q == "tok" then inr decision0 else inl ErrIngressDenied) None)) None "https://login.example.com".

Definition config (b : option BrowserAccess) : Config :=
  mkConfig b false "preview.example.com" "tunnel.example.com" "run.example.com" 32768 1048576 token0 Second.

Definition env (m : RouteMatch) (verify : option (string → err + Claims)) : Env :=
  mkEnv (Some (λ _ _ _, inr m)) None verify true (λ _, false) (λ _ _, "") (Some "req-1") None None (λ _, false) false (λ _, t0).

Definition request (path : string) (h : Header) : Request IngressDecision :=
  mkRequest "GET" "app.example.com" (mkURL "" "" false path "" "" path) path h 0 "192.0.2.1:5000" None None.

(** What a test of a forwarded request looks at. *)
Definition seen {A} (look : Request IngressDecision → option Claims → A) (x : served * option bool * option PrivateAccessConnectionRegistry) : option A :=
  match x with (Forwarded r' _ _ claims, _, _) => Some (look r' claims) | _ => None end.

Definition viewer : Request IngressDecision := request "/" {["Cookie" := ["theme=dark; __Host-pb-edge=tok"]; "X-Paperboat-Trace" := ["1"]]}.


Lemma forwarded_request_clean_witness :
  match ServeHTTP (config (Some browser0)) (env private0 None) viewer None with
  | (Forwarded r' _ _ _, _, _) => Cookies (hr_Header r') = [("theme", "dark")] ∧ hr_Header r' !! "X-Paperboat-Trace" = None
      ∧ ∀ n v, (n, v) ∈ Cookies (hr_Header r') → reservedBrowserCookie n = false
  | _ => False
  end.
Proof.
  assert (seen (λ r' _, (Cookies (hr_Header r'), hr_Header r' !! "X-Paperboat-Trace"))
            (ServeHTTP (config (Some browser0)) (env private0 None) viewer None) = Some ([("theme", "dark")], None)) as Hx by (vm_compute; reflexivity).
  destruct (ServeHTTP (config (Some browser0)) (env private0 None) viewer None) as [[s lease] c] eqn:E.
  destruct s as [|a| |r' w f claims]; [discriminate Hx..|]. injection Hx as Hcookies Htrace.
  assert (canonical_keys (hr_Header viewer)) as Hc.
  { intros k [v Hv]. unfold viewer, request in Hv. cbn [hr_Header] in Hv. apply lookup_insert_Some in Hv as [[<- _]|[_ Hv]]; [vm_compute; reflexivity|].
    apply lookup_singleton_Some in Hv as [<- _]. vm_compute. reflexivity. }
  destruct (forwarded_request_clean _ _ viewer None r' w f claims lease c E Hc) as (kind & host & r1 & id & _ & _ & _ & _ & Hck & _).
  split; [exact Hcookies|]. split; [exact Htrace|]. exact Hck.
Defined.

Definition claims0 : Claims := Admission.mkClaims "k" "iss" "aud" "jti" "terminal_operation" [] "env" "m" 1 "h" "con" 1 "pool" "edge" "" (t0 + Second) false.
Definition helper_env : Env := env helper0 (Some (λ t, if t == "tok" then inr claims0 else inl ErrIngressDenied)).
Definition helper_request : Request IngressDecision := request "/v1/runtime" {["Authorization" := ["Bearer tok"]]}.

Lemma helper_forward_authorized_witness :
  match ServeHTTP (config None) helper_env helper_request None with
  | (Forwarded r' _ _ claims, _, _) => claims = Some claims0 ∧ credentialAllowsHelperPath (cl_CredentialClass claims0) "/v1/runtime" = true
  | _ => False
  end.
Proof.
  assert (seen (λ r' claims, (hr_match r', claims)) (ServeHTTP (config None) helper_env helper_request None) = Some (Some helper0, Some claims0)) as Hx
    by (vm_compute; reflexivity).
  destruct (ServeHTTP (config None) helper_env helper_request None) as [[s lease] c] eqn:E.
  destruct s as [|a| |r' w f claims]; [discriminate Hx..|]. injection Hx as Hm Hc.
  destruct (helper_forward_authorized _ _ helper_request None r' w f claims lease c helper0 E eq_refl Hm eq_refl)
    as [Hp|(cl & verify & token & Hcl & _ & _ & _ & Hclass)]; [discriminate Hp|].
  split; [exact Hc|]. rewrite Hc in Hcl. injection Hcl as <-. exact Hclass.
Defined.

(** *** The machine *)

Definition access0 : PrivateAccessRequest :=
  mkAccess "acct" "tunnel" "tun" "route" "paperboat-tunnel-http" "device" "msess" 1 (t0 + 60 * Second) "nonce" "" "con" "sess" 1 1 1 1 1 "edge" epoch0
    "http" "GET" "app.example.com" "/" "idem" "req-7" "corr".
Definition grant_decision0 : PrivateAccessGrantDecision :=
  mkGrantDecision PrivateAccessSchema "private_access_authorization" "dec" true "allowed" (t0 + 30 * Second) "req-7" "corr" "tunnel" "tun" "route" ""
    "con" "sess" 1 1 1 1 1 "http".
Definition post0 (g : string) (_ : PrivateAccessRequest) : grant_answer := if g == "signed" then Answered 200 grant_decision0 else Answered 401 grant_decision0.
Definition open0 : PrivateAccessOpen := mkAccessOpen PrivateAccessSchema PrivateAccessKind "signed" access0.
Definition identity0 : Identity := mkIdentity "acct" "device" "mtun" "mcon" "sess" 1 1.
Definition metadata0 : StreamOpen := mkOpen ProtocolName ProtocolVersion "acct" "mtun" "mcon" "sess" 1 1 "route" "req-7" "private_access_http".
Definition registry0 : PrivateAccessConnectionRegistry := mkConnections 0 8 ∅ false.
Definition registry1 : PrivateAccessConnectionRegistry :=
  (OpenPrivateAccessTarget "127.0.0.1:8443" (Some "127.0.0.1:9000") access0 t0 t0 registry0).2.

Lemma registry1_run : connections_run post0 8 [mkGrant identity0 metadata0 open0 grant_decision0 t0] registry1.
Proof.
  apply (connections_serve _ _ [] registry0 metadata0 identity0 open0 t0 t0 t0 (λ _, true) true); [by apply connections_new|by vm_compute|].
  apply list_elem_of_In. vm_compute. left. reflexivity.
Qed.

Definition machine : Request IngressDecision :=
  request "/" {["X-Paperboat-Private-Carrier" := [token0]; "X-Paperboat-Private-Connection" := ["127.0.0.1:9000"]]}.


Definition renewed0 : IngressDecision :=
  mkDecision binding0 "decision-2" 1 "edge" epoch0 "con" "sess" 1 1 1 "viewer" "grant" 1 0 "view" (t0 + 5 * Second) (t0 + 15 * Second).

Lemma browser_grant_renewed_witness :
  match authorize browser0 viewer private0 t0 t0 with
  | inr (_, f0) =>
      let f := refresh_tick private0 (inr renewed0) (t0 + 5 * Second) (t0 + 5 * Second) f0 in
      rf_cancelled f = false ∧ rf_deadline f = t0 + 15 * Second ∧ same_grant (rf_decision f0) (rf_decision f)
  | inl _ => False
  end.
Proof.
  destruct (authorize browser0 viewer private0 t0 t0) as [a|[r2 f0]] eqn:E; [vm_compute in E; discriminate E|]. cbn zeta.
  assert (refresh_run private0 f0 t0 [t0 + 5 * Second] (refresh_tick private0 (inr renewed0) (t0 + 5 * Second) (t0 + 5 * Second) f0)) as R.
  { eapply refresh_next; [apply refresh_begin|]. apply step_tick. lia. }
  assert (rf_cancelled (refresh_tick private0 (inr renewed0) (t0 + 5 * Second) (t0 + 5 * Second) f0) = false) as Hc
    by (vm_compute in E; injection E as _ <-; vm_compute; reflexivity).
  split; [exact Hc|]. split; [vm_compute in E; injection E as _ <-; vm_compute; reflexivity|].
  exact (proj1 (proj1 (browser_grant_renewed browser0 viewer private0 t0 t0 r2 f0 _ _ E R) Hc)).
Defined.

End Gateway.
End PolicyGuarantees.
