(* ===== verification/Replicas.v ===== *)
(** * The registry of durable carriers

    Models [internal/edgehttp/durable_carrier_transport.go] and [ingress.go]: the carriers
    that serve durable routes, what is known of each replica, the choice of one for a
    request, and the opening of a stream with its ingress decision and lease.  Entries are
    shared by the map and by the goroutines that watch them, so they live in a heap; a carrier
    is an address with an identity that never changes.  SHA-256 is a parameter. *)
From S2P Require Import Prelude Go Strings Protocol Route Utf8 JSON StreamFrames StreamFramesProofs Carrier PreviewAdmission DurableAdmission DurableAdmissionProofs Ingress IngressProofs HTTP.

Module Replicas.
Import StreamFrames Ingress IngressLimits Browser HTTP.
Import Carrier (Identity, mkIdentity, id_AccountID, id_HostID, id_TunnelID, id_ConnectorID, id_SessionID, id_ProcessGeneration, id_Generation, Identity_Validate).
Import DurableAdmission (nul_join).
Import Route.
#[local] Existing Instance Carrier.Identity_eq_dec.

Definition maximumDataCarrierRoutes : Z := 4096.
Definition ErrDataCarrierRouteInvalid : err := EPlain "invalid durable data-carrier route".
Definition ErrDataCarrierRouteUnavailable : err := EPlain "durable data-carrier route is unavailable".
Definition ErrDataCarrierRouteTransport : err := EPlain "durable data-carrier route transport failed".

Record ReplicaRouteBinding := mkReplicaBinding {
  rb_RouteID : string;
  rb_AssignmentID : string;
  rb_AssignmentGeneration : Z;
  rb_RouteGeneration : Z;
  rb_ConfigContentHash : string
}.

Record ReplicaState := mkReplicaState {
  rs_Ready : bool;
  rs_Generation : Z;
  rs_RouteIDs : list string;
  rs_HealthyRoutes : list string;
  rs_RouteBindings : list ReplicaRouteBinding;
  rs_FailureDomain : string;
  rs_Latency : Duration;
  rs_Capacity : Z
}.
#[export] Instance ReplicaState_eta : Eta ReplicaState := λ s,
  mkReplicaState (rs_Ready s) (rs_Generation s) (rs_RouteIDs s) (rs_HealthyRoutes s) (rs_RouteBindings s) (rs_FailureDomain s) (rs_Latency s)
    (rs_Capacity s).

Record dataCarrierRouteEntry := mkRouteEntry {
  ce_identity : Identity;
  ce_machineKey : string;
  ce_machineThumbprint : string;
  ce_server : nat;
  ce_done : bool;
  ce_state : ReplicaState
}.
#[export] Instance dataCarrierRouteEntry_eta : Eta dataCarrierRouteEntry := λ e,
  mkRouteEntry (ce_identity e) (ce_machineKey e) (ce_machineThumbprint e) (ce_server e) (ce_done e) (ce_state e).

Record DataCarrierRouteRegistry := mkRegistry {
  rg_maximum : Z;
  rg_done : bool;
  rg_closed : bool;
  rg_byKey : gmap string nat;
  rg_entries : gmap nat dataCarrierRouteEntry
}.
#[export] Instance DataCarrierRouteRegistry_eta : Eta DataCarrierRouteRegistry := λ r,
  mkRegistry (rg_maximum r) (rg_done r) (rg_closed r) (rg_byKey r) (rg_entries r).

(** The registry of [NewDataCarrierRouteRegistry], without its limits. *)
Definition new_registry (maximum : Z) : err + DataCarrierRouteRegistry :=
  let maximum := if maximum =? 0 then maximumDataCarrierRoutes else maximum in
  if (maximum <? 1) || (maximumDataCarrierRoutes <? maximum) then inl ErrDataCarrierRouteInvalid
  else inr (mkRegistry maximum false false ∅ ∅).

(** ** Sorted lists *)

(** [sort.Search] on [n] elements, with the loop's bounds as arguments. *)
Fixpoint search (fuel : nat) (f : nat → bool) (i j : nat) : nat :=
  match fuel with
  | O => i
  | S fuel => if (i <? j)%nat then let h := ((i + j) / 2)%nat in if f h then search fuel f i h else search fuel f (S h) j else i
  end.
Definition Search (n : nat) (f : nat → bool) : nat := search (S n) f 0 n.

(** [a >= b]. *)
Definition string_geb (a b : string) : bool := negb (String.ltb a b).

Definition sortedContains (values : list string) (wanted : string) : bool :=
  let index := Search (length values) (λ i, match values !! i with Some v => string_geb v wanted | None => true end) in
  match values !! index with Some v => v == wanted | None => false end.

Definition replicaRouteBinding (bindings : list ReplicaRouteBinding) (routeID : string) : option ReplicaRouteBinding :=
  let index := Search (length bindings) (λ i, match bindings !! i with Some b => string_geb (rb_RouteID b) routeID | None => true end) in
  match bindings !! index with Some b => if rb_RouteID b == routeID then Some b else None | None => None end.

Definition normalizeReplicaState (s : ReplicaState) : ReplicaState :=
  s <| rs_RouteIDs := sort_by (λ x, x) (rs_RouteIDs s) |> <| rs_HealthyRoutes := sort_by (λ x, x) (rs_HealthyRoutes s) |>
    <| rs_RouteBindings := sort_by rb_RouteID (rs_RouteBindings s) |>.

Definition validRouteContentHash (value : string) : bool :=
  (len value =? 71) && HasPrefix value "sha256:" && forallb (λ b, is_digit b || in_range 97 102 b) (drop 7 (sbytes value)).

(** Identifiers that are valid and distinct. *)
Fixpoint distinct_ids (ids seen : list string) : bool :=
  match ids with
  | [] => true
  | id :: ids => negb (badID id) && negb (bool_decide (id ∈ seen)) && distinct_ids ids (id :: seen)
  end.

Fixpoint bindings_ok (seen bound : list string) (bindings : list ReplicaRouteBinding) : bool :=
  match bindings with
  | [] => true
  | b :: bindings =>
      bool_decide (rb_RouteID b ∈ seen) && negb (bool_decide (rb_RouteID b ∈ bound)) && negb (badID (rb_AssignmentID b))
      && negb (rb_AssignmentGeneration b =? 0) && negb (rb_RouteGeneration b =? 0) && validRouteContentHash (rb_ConfigContentHash b)
      && bindings_ok seen (rb_RouteID b :: bound) bindings
  end.

Definition carrierRouteIdentityKey (i : Identity) : string :=
  nul_join [id_AccountID i; id_HostID i; id_TunnelID i; id_ConnectorID i; id_SessionID i; Itoa (id_ProcessGeneration i); Itoa (id_Generation i)].
Arguments carrierRouteIdentityKey : simpl never.

Section Registry.
Context (identity_of : nat → Identity).
Implicit Types r : DataCarrierRouteRegistry.

Definition validateReplicaState (server : nat) (s : ReplicaState) : option err :=
  if (rs_Generation s =? 0) || negb (rs_Generation s =? id_Generation (identity_of server)) || (rs_FailureDomain s == "")
     || (rs_Latency s <? 0) || (rs_Capacity s =? 0)
  then Some ErrDataCarrierRouteInvalid
  else if bool_decide (rs_RouteIDs s = []) || (maximumDataCarrierRoutes <? Z.of_nat (length (rs_RouteIDs s)))
          || bool_decide (length (rs_RouteIDs s) < length (rs_HealthyRoutes s))%nat
          || negb (bool_decide (length (rs_RouteBindings s) = length (rs_RouteIDs s)))
  then Some ErrDataCarrierRouteInvalid
  else if negb (distinct_ids (rs_RouteIDs s) []) || negb (forallb (λ id, bool_decide (id ∈ rs_RouteIDs s)) (rs_HealthyRoutes s))
          || negb (bindings_ok (rs_RouteIDs s) [] (rs_RouteBindings s))
  then Some ErrDataCarrierRouteInvalid
  else None.

Definition close_entry (i : nat) r : DataCarrierRouteRegistry := r <| rg_entries := alter (λ e, e <| ce_done := true |>) i (rg_entries r) |>.

(** [attachState]; a new entry is watched from then on. *)
Definition attachState (server : nat) (key thumbprint : string) (s : ReplicaState) r : option err * DataCarrierRouteRegistry :=
  let identity := identity_of server in
  if failed (Identity_Validate identity) then (Some ErrDataCarrierRouteInvalid, r)
  else if rg_closed r then (Some ErrDataCarrierRouteUnavailable, r)
  else
    let k := carrierRouteIdentityKey identity in
    let install r :=
      let i := fresh (dom (rg_entries r)) in
      (None, r <| rg_entries := <[i := mkRouteEntry identity key thumbprint server false (normalizeReplicaState s)]> (rg_entries r) |>
               <| rg_byKey := <[k := i]> (rg_byKey r) |>) in
    match rg_byKey r !! k with
    | Some i =>
        match rg_entries r !! i with
        | Some old =>
            if bool_decide (ce_server old = server)
            then if (ce_machineKey old != "") && ((ce_machineKey old != key) || (ce_machineThumbprint old != thumbprint))
                 then (Some ErrDataCarrierRouteUnavailable, r)
                 else (None, r <| rg_entries := <[i := old <| ce_machineKey := key |> <| ce_machineThumbprint := thumbprint |>]> (rg_entries r) |>)
            else install (close_entry i r)
        | None => install r
        end
    | None => if rg_maximum r <=? Z.of_nat (size (rg_byKey r)) then (Some ErrDataCarrierRouteInvalid, r) else install r
    end.

Definition zeroReplicaState (generation : Z) : ReplicaState := mkReplicaState false generation [] [] [] "" 0 0.

Definition attach (server : nat) (key thumbprint : string) : DataCarrierRouteRegistry → option err * DataCarrierRouteRegistry :=
  attachState server key thumbprint (zeroReplicaState (id_Generation (identity_of server))).

Definition Attach (server : nat) : DataCarrierRouteRegistry → option err * DataCarrierRouteRegistry := attach server "" "".

Definition AttachBound (server : nat) (key thumbprint : string) r : option err * DataCarrierRouteRegistry :=
  if (key == "") || (thumbprint == "") then (Some ErrDataCarrierRouteInvalid, r) else attach server key thumbprint r.

Definition AttachReplica (server : nat) (key thumbprint : string) (s : ReplicaState) r : option err * DataCarrierRouteRegistry :=
  match validateReplicaState server s with
  | Some e => (Some e, r)
  | None => attachState server key thumbprint s r
  end.

Definition UpdateReplicaState (server : nat) (s : ReplicaState) r : option err * DataCarrierRouteRegistry :=
  match validateReplicaState server s with
  | Some e => (Some e, r)
  | None =>
      match rg_byKey r !! carrierRouteIdentityKey (identity_of server) with
      | Some i =>
          match rg_entries r !! i with
          | Some entry =>
              if bool_decide (ce_server entry = server)
              then (None, r <| rg_entries := <[i := entry <| ce_state := normalizeReplicaState s |>]> (rg_entries r) |>)
              else (Some ErrDataCarrierRouteUnavailable, r)
          | None => (Some ErrDataCarrierRouteUnavailable, r)
          end
      | None => (Some ErrDataCarrierRouteUnavailable, r)
      end
  end.

(** The moving average of setup times, in 64 bits. *)
Definition next_latency (latency sample : Duration) : Duration :=
  if latency <=? 0 then sample else Z.quot (i64 (i64 (latency * 7) + sample)) 8.

Definition recordOpenLatency (i : nat) (sample : Duration) r : DataCarrierRouteRegistry :=
  match rg_entries r !! i with
  | Some entry =>
      if sample <=? 0 then r
      else if bool_decide (rg_byKey r !! carrierRouteIdentityKey (ce_identity entry) = Some i) && negb (bool_decide (rs_RouteIDs (ce_state entry) = []))
      then r <| rg_entries := <[i := entry <| ce_state := ce_state entry <| rs_Latency := next_latency (rs_Latency (ce_state entry)) sample |> |>]> (rg_entries r) |>
      else r
  | None => r
  end.

(** [detach] of an entry whose carrier ended, by its watcher, which an entry that was
    replaced or a closed registry has stopped. *)
Definition detach (i : nat) r : DataCarrierRouteRegistry :=
  match rg_entries r !! i with
  | Some entry =>
      let k := carrierRouteIdentityKey (ce_identity entry) in
      if bool_decide (rg_byKey r !! k = Some i) then close_entry i (r <| rg_byKey := delete k (rg_byKey r) |>) else r
  | None => r
  end.

Definition Detach (server : nat) r : option err * DataCarrierRouteRegistry :=
  let k := carrierRouteIdentityKey (identity_of server) in
  match rg_byKey r !! k with
  | None => (None, r)
  | Some i =>
      match rg_entries r !! i with
      | Some entry =>
          if bool_decide (ce_server entry = server) then (None, close_entry i (r <| rg_byKey := delete k (rg_byKey r) |>))
          else (Some ErrDataCarrierRouteUnavailable, r)
      | None => (None, r)
      end
  end.

Definition Registry_Close r : DataCarrierRouteRegistry :=
  if rg_done r then r
  else let closed := list_to_set (map_to_list (rg_byKey r)).*2 : gset nat in
       r <| rg_closed := true |> <| rg_byKey := ∅ |> <| rg_done := true |>
         <| rg_entries := map_imap (λ i e, Some (if bool_decide (i ∈ closed) then e <| ce_done := true |> else e)) (rg_entries r) |>.

(** ** The choice of a replica *)

Section Choice.
Context `{TextLib} (sha256_sum : bytes → bytes) (ended : nat → bool) (active : nat → Z).

Definition carrierRouteID (rule : RouteRule) : string :=
  if TrimSpace (rr_RouteID rule) != "" then rr_RouteID rule else if TrimSpace (rr_Target rule) != "" then rr_Target rule else rr_ID rule.

Definition durableStreamKind (protocol : string) : string :=
  let protocol := lower (TrimSpace protocol) in
  if (protocol == "private_tcp") || (protocol == "tcp") then "tcp_private"
  else if protocol == "http" then "http" else if protocol == "https" then "https" else if protocol == "h2c" then "h2c"
  else if (protocol == "websocket") || (protocol == "wss") then "websocket"
  else if protocol == "sse" then "sse" else if protocol == "grpc" then "grpc" else "https".

Definition rule_incomplete (rule : RouteRule) : bool :=
  (rr_AccountID rule == "") || (rr_HostID rule == "") || (rr_TunnelID rule == "") || (rr_ConnectorID rule == "")
  || (rr_ConnectorSessionID rule == "") || (rr_ConnectorProcessGeneration rule =? 0) || (rr_ConfigGeneration rule =? 0).

Definition rule_identity (rule : RouteRule) : Identity :=
  mkIdentity (rr_AccountID rule) (rr_HostID rule) (rr_TunnelID rule) (rr_ConnectorID rule) (rr_ConnectorSessionID rule)
    (rr_ConnectorProcessGeneration rule) (rr_ConfigGeneration rule).

Definition at_capacity (e : dataCarrierRouteEntry) : bool := rs_Capacity (ce_state e) <=? active (ce_server e) mod 4294967296.

(** An entry without replica state serves only its own assignment. *)
Definition legacy_matches (rule : RouteRule) (e : dataCarrierRouteEntry) : bool :=
  (id_HostID (ce_identity e) == rr_HostID rule) && (id_ConnectorID (ce_identity e) == rr_ConnectorID rule)
  && (id_SessionID (ce_identity e) == rr_ConnectorSessionID rule) && (id_ProcessGeneration (ce_identity e) =? rr_ConnectorProcessGeneration rule)
  && (id_Generation (ce_identity e) =? rr_ConfigGeneration rule)
  && ((rr_MachineIdentityPublicKey rule == "")
      || (ce_machineKey e == rr_MachineIdentityPublicKey rule) && (ce_machineThumbprint e == rr_MachineIdentityThumbprint rule)).

Definition replica_matches (rule : RouteRule) (e : dataCarrierRouteEntry) : bool :=
  let s := ce_state e in
  let routeID := carrierRouteID rule in
  match replicaRouteBinding (rs_RouteBindings s) routeID with
  | Some b => rs_Ready s && (rs_Generation s =? rr_ConfigGeneration rule) && (id_Generation (ce_identity e) =? rr_ConfigGeneration rule)
              && sortedContains (rs_RouteIDs s) routeID && sortedContains (rs_HealthyRoutes s) routeID
              && (rb_RouteGeneration b =? rr_RouteGeneration rule) && (rb_ConfigContentHash b == rr_ConfigContentHash rule)
              && negb (at_capacity e)
  | None => false
  end.

Definition eligible (rule : RouteRule) (e : dataCarrierRouteEntry) : bool :=
  (id_AccountID (ce_identity e) == rr_AccountID rule) && (id_TunnelID (ce_identity e) == rr_TunnelID rule) && negb (ended (ce_server e))
  && (if bool_decide (rs_RouteIDs (ce_state e) = []) then legacy_matches rule e else replica_matches rule e).

Definition replicaTieScore (requestID failureDomain : string) : Z :=
  fold_left (λ acc b, 256 * acc + byte_to_Z b) (take 8 (sha256_sum (sbytes (nul_join [requestID; failureDomain])))) 0.

Definition load (e other : dataCarrierRouteEntry) : Z := u64 (u64 (active (ce_server e)) * rs_Capacity (ce_state other)).

Definition replicaLess (requestID : string) (left right : dataCarrierRouteEntry) : bool :=
  if negb (rs_Latency (ce_state left) =? rs_Latency (ce_state right)) then rs_Latency (ce_state left) <? rs_Latency (ce_state right)
  else if negb (load left right =? load right left) then load left right <? load right left
  else
    let leftScore := replicaTieScore requestID (rs_FailureDomain (ce_state left)) in
    let rightScore := replicaTieScore requestID (rs_FailureDomain (ce_state right)) in
    if negb (leftScore =? rightScore) then rightScore <? leftScore
    else String.ltb (carrierRouteIdentityKey (ce_identity left)) (carrierRouteIdentityKey (ce_identity right)).

(** [sort.Slice] by a comparison. *)
Fixpoint insert_less {A} (less : A → A → bool) (x : A) (l : list A) : list A :=
  match l with
  | [] => [x]
  | y :: l => if less y x then y :: insert_less less x l else x :: y :: l
  end.
Definition sort_less {A} (less : A → A → bool) (l : list A) : list A := foldr (insert_less less) [] l.

(** The choice among the entries as a [range] over the map visits them. *)
Definition choose (rule : RouteRule) (requestID : string) (visited : list (nat * dataCarrierRouteEntry)) : option (nat * dataCarrierRouteEntry) :=
  head (sort_less (λ x y, replicaLess requestID x.2 y.2) (List.filter (λ x, eligible rule x.2) visited)).

(** The live entries of the registry. *)
Definition live r : list (nat * dataCarrierRouteEntry) :=
  omap (λ kv : string * nat, match rg_entries r !! kv.2 with Some e => Some (kv.2, e) | None => None end) (map_to_list (rg_byKey r)).

Definition route_kind_ok (rule : RouteRule) : bool :=
  (rr_Kind rule == TunnelHTTPSWSS) || (rr_Kind rule == TunnelTCP) || (rr_Kind rule == TunnelPrivateTCP).

Definition entryFor (rule : RouteRule) (requestID : string) r : err + (nat * dataCarrierRouteEntry) :=
  if negb (route_kind_ok rule) || rule_incomplete rule then inl ErrDataCarrierRouteInvalid
  else match choose rule requestID (live r) with
  | Some x => inr x
  | None => inl ErrDataCarrierRouteUnavailable
  end.

(** [entryForExactAssignment]; the texts of its errors are left out. *)
Definition entryForExactAssignment (rule : RouteRule) r : err + (nat * dataCarrierRouteEntry) :=
  if rule_incomplete rule then inl ErrDataCarrierRouteInvalid
  else
    let identity := rule_identity rule in
    let unavailable := inl (EWrap "" ErrDataCarrierRouteUnavailable) in
    match rg_byKey r !! carrierRouteIdentityKey identity with
    | None => unavailable
    | Some i =>
        match rg_entries r !! i with
        | None => unavailable
        | Some e =>
            let s := ce_state e in
            if negb (bool_decide (ce_identity e = identity)) || negb (rs_Ready s) || negb (rs_Generation s =? rr_ConfigGeneration rule) || at_capacity e
            then unavailable
            else if ended (ce_server e) then inl ErrDataCarrierRouteUnavailable
            else match replicaRouteBinding (rs_RouteBindings s) (carrierRouteID rule) with
            | None => unavailable
            | Some b =>
                if negb (sortedContains (rs_HealthyRoutes s) (carrierRouteID rule)) || (rb_AssignmentID b != rr_AssignmentID rule)
                   || negb (rb_AssignmentGeneration b =? rr_AssignmentGeneration rule) || negb (rb_RouteGeneration b =? rr_RouteGeneration rule)
                   || (rb_ConfigContentHash b != rr_ConfigContentHash rule)
                then unavailable else inr (i, e)
            end
        end
    end.

Definition open_of (e : dataCarrierRouteEntry) (rule : RouteRule) (requestID kind : string) : StreamOpen :=
  let i := ce_identity e in
  mkOpen ProtocolName ProtocolVersion (id_AccountID i) (id_TunnelID i) (id_ConnectorID i) (id_SessionID i) (id_ProcessGeneration i) (id_Generation i)
    (carrierRouteID rule) requestID kind.

(** ** Opening a stream *)

Section Open.
Context `{FoldLib} `{AddrLib} {Rate L : Type} `{RateLimiter Rate L}.

Definition NewDataCarrierRouteRegistry (maximum : Z) (publication account : IngressLimitConfig Rate) : err + IngressLimits Rate L * DataCarrierRouteRegistry :=
  match new_registry maximum with
  | inl e => inl e
  | inr r =>
      match newIngressLimits publication account with
      | inl _ => inl ErrDataCarrierRouteInvalid
      | inr limits => inr (limits, r)
      end
  end.

(** [ingressDecision]: [browser] is the decision of the request, [resolve] asks the
    authority; no decision at all is needed when there is no authority. *)
Definition ingressDecision (browser : option IngressDecision) (resolve : option (RouteRule → err + IngressDecision)) (rule : RouteRule)
    (open : StreamOpen) (now : Time) : err + option IngressDecision :=
  if (rr_AccessMode rule == "private") || (rr_AccessMode rule == "team")
  then match browser with
       | Some d => if negb (browserDecisionMatches d (mkMatch rule (rr_Hostname rule) "" 0) now)
                      || failed (Decision_Authorize d d open (rr_Node rule) (rr_EdgeProcessEpoch rule) now)
                   then inl ErrIngressDenied else inr (Some d)
       | None => inl ErrIngressDenied
       end
  else match resolve with
  | None => inr None
  | Some resolve =>
      match resolve rule with
      | inl e => inl e
      | inr d => if failed (Decision_Authorize d d open (rr_Node rule) (rr_EdgeProcessEpoch rule) now) || (ib_Audience (ig_Binding d) != "public")
                 then inl ErrIngressDenied else inr (Some d)
      end
  end.

(** What opening a route did: the carrier and preface it opened a stream with, the decision
    frame it wrote, and the lease that the stream holds. *)
Record opened := mkOpened {
  op_server : nat;
  op_open : StreamOpen;
  op_decision : option IngressDecision;
  op_lease : option nat
}.

(** [openWithTimeout], and [OpenRouteStream] behind its check of the request identifier:
    [stream] is what the carrier answered, [frame] whether the decision went out. *)
Definition open_route (browser : option IngressDecision) (resolve : option (RouteRule → err + IngressDecision)) (stream frame : option err)
    (sample : Duration) (now : Time) (rule : RouteRule) (requestID : string) (limits : IngressLimits Rate L) r
    : (err + opened) * IngressLimits Rate L * DataCarrierRouteRegistry :=
  match entryFor rule requestID r with
  | inl e => (inl e, limits, r)
  | inr (i, entry) =>
      let open := open_of entry rule requestID (durableStreamKind (rr_Protocol rule)) in
      match ingressDecision browser resolve rule open now with
      | inl e => (inl e, limits, r)
      | inr decision =>
          let '(lease, limits) :=
            match decision with
            | None => (inr None, limits)
            | Some d => match AcquireIngress d now now limits with (inl e, limits) => (inl e, limits) | (inr id, limits) => (inr (Some id), limits) end
            end in
          match lease with
          | inl e => (inl e, limits, r)
          | inr lease =>
              let give_back limits := match lease with Some id => Release id now limits | None => limits end in
              match stream with
              | Some e => (inl (EJoin ErrDataCarrierRouteTransport e), give_back limits, r)
              | None =>
                  match decision, frame with
                  | Some _, Some e => (inl e, give_back limits, r)
                  | _, _ => (inr (mkOpened (ce_server entry) open decision lease), limits, recordOpenLatency i sample r)
                  end
              end
          end
      end
  end.

Definition OpenRouteStream browser resolve stream frame sample now (rule : RouteRule) (requestID : string) (limits : IngressLimits Rate L) r
    : (err + opened) * IngressLimits Rate L * DataCarrierRouteRegistry :=
  if (requestID == "") || badID requestID then (inl ErrDataCarrierRouteInvalid, limits, r)
  else open_route browser resolve stream frame sample now rule requestID limits r.

Definition openExactAssignmentWithTimeout (stream : option err) (sample : Duration) (rule : RouteRule) (requestID : string) (readiness : bool) r
    : (err + opened) * DataCarrierRouteRegistry :=
  if (requestID == "") || badID requestID then (inl ErrDataCarrierRouteInvalid, r)
  else match entryForExactAssignment rule r with
  | inl e => (inl e, r)
  | inr (i, entry) =>
      let open := open_of entry rule requestID (if readiness then "connector_ready" else durableStreamKind (rr_Protocol rule)) in
      match stream with
      | Some e => (inl (EJoin ErrDataCarrierRouteTransport e), r)
      | None => (inr (mkOpened (ce_server entry) open None None), recordOpenLatency i sample r)
      end
  end.

Definition OpenPrivateTCPStream (stream : option err) (sample : Duration) (rule : RouteRule) (requestID : string) r
    : (err + opened) * DataCarrierRouteRegistry :=
  if (requestID == "") || badID requestID || (rr_Kind rule != TunnelPrivateTCP) || (rr_AccessMode rule != "private") || (rr_Protocol rule != "private_tcp")
  then (inl ErrDataCarrierRouteInvalid, r)
  else openExactAssignmentWithTimeout stream sample rule requestID false r.

End Open.
End Choice.
End Registry.
End Replicas.

(** * The registry of durable carriers: theorems

    Whatever carriers attach, report and end, in any order: a stream for a route is opened
    only on a live carrier that serves exactly that route, the choice among replicas does
    not depend on the order of the map, and a connection that is not opened keeps no lease. *)

Module ReplicasProofs.
Import StreamFrames Ingress IngressLimits IngressProofs Browser HTTP Replicas.
Import Carrier (Identity, mkIdentity, id_AccountID, id_HostID, id_TunnelID, id_ConnectorID, id_SessionID, id_ProcessGeneration, id_Generation, Identity_Validate).
Import Route.

(** ** Strings in order *)

Definition str_lt (a b : string) : Prop := String.compare a b = Lt.

Lemma ltb_spec a b : String.ltb a b = true ↔ str_lt a b.
Proof. unfold String.ltb, str_lt. destruct (String.compare a b); done. Qed.

Lemma ascii_compare_lt a b : Ascii.compare a b = Lt ↔ (Ascii.N_of_ascii a < Ascii.N_of_ascii b)%N.
Proof. unfold Ascii.compare. apply N.compare_lt_iff. Qed.

Lemma str_lt_trans a b c : str_lt a b → str_lt b c → str_lt a c.
Proof.
  unfold str_lt. revert b c. induction a as [|x a IH]; intros [|y b] [|z c]; cbn; try done.
  destruct (Ascii.compare x y) eqn:E1; destruct (Ascii.compare y z) eqn:E2; try done; intros H1 H2.
  - apply Ascii.compare_eq_iff in E1, E2. subst. assert (Ascii.compare z z = Eq) as -> by (unfold Ascii.compare; apply N.compare_refl). eauto.
  - apply Ascii.compare_eq_iff in E1. subst. by rewrite E2.
  - apply Ascii.compare_eq_iff in E2. subst. by rewrite E1.
  - apply ascii_compare_lt in E1, E2. assert (Ascii.compare x z = Lt) as ->; [|done]. apply ascii_compare_lt. by eapply N.lt_trans.
Qed.

Lemma str_lt_irrefl a : ¬ str_lt a a.
Proof. unfold str_lt. pose proof (String.compare_antisym a a). destruct (String.compare a a); try done. Qed.

Lemma str_lt_total a b : str_lt a b ∨ a = b ∨ str_lt b a.
Proof.
  unfold str_lt. destruct (String.compare a b) eqn:E; [right; left; by apply String.compare_eq_iff|by left|].
  right; right. rewrite String.compare_antisym, E. done.
Qed.

Lemma string_geb_spec a b : string_geb a b = true ↔ a = b ∨ str_lt b a.
Proof.
  unfold string_geb. rewrite negb_true_iff. split.
  - intros Hn. destruct (str_lt_total a b) as [Hl|[?|?]]; auto. apply ltb_spec in Hl. congruence.
  - intros [->|Hl]; apply not_true_iff_false; rewrite ltb_spec; [apply str_lt_irrefl|]. intros Hl'. by apply (str_lt_irrefl a), (str_lt_trans _ b).
Qed.

(** ** Binary search *)

(** On a predicate that stays true once it is true, the search finds where it turns true. *)
Lemma search_spec fuel f i j n :
  (∀ a b, (a ≤ b < n)%nat → f a = true → f b = true) → (i ≤ j ≤ n)%nat → (j - i < fuel)%nat →
  (∀ a, (a < i)%nat → f a = false) → (∀ a, (j ≤ a < n)%nat → f a = true) →
  let k := search fuel f i j in (k ≤ n)%nat ∧ (∀ a, (a < k)%nat → f a = false) ∧ (∀ a, (k ≤ a < n)%nat → f a = true).
Proof.
  intros Hmono. revert i j. induction fuel as [|fuel IH]; intros i j Hij Hf Hlo Hhi; [lia|]. cbn [search].
  destruct (i <? j)%nat eqn:E; [apply Nat.ltb_lt in E|apply Nat.ltb_ge in E].
  2: { cbn. split_and!; [lia|done|]. intros a Ha. apply Hhi. lia. }
  pose proof (Nat.Div0.div_lt_upper_bound (i + j) 2 j ltac:(lia)). pose proof (Nat.div_le_lower_bound (i + j) 2 i ltac:(lia) ltac:(lia)).
  destruct (f ((i + j) / 2)%nat) eqn:Ef; apply IH; try lia; try done.
  - intros a Ha. apply (Hmono ((i + j) / 2)%nat); [lia|done].
  - intros a Ha. destruct (f a) eqn:Ea; [|done]. rewrite (Hmono a ((i + j) / 2)%nat) in Ef; [done|lia|done].
Qed.

(** A list in order of its keys. *)
Definition ordered {A} (key : A → string) (l : list A) : Prop :=
  ∀ i j x y, (i ≤ j)%nat → l !! i = Some x → l !! j = Some y → key x = key y ∨ str_lt (key x) (key y).

Lemma ordered_cons {A} (key : A → string) x l :
  (∀ y, y ∈ l → key x = key y ∨ str_lt (key x) (key y)) → ordered key l → ordered key (x :: l).
Proof.
  intros Hx Hl [|i] [|j] a b Hij; cbn; intros Ha Hb; simplify_eq; [by left|by eapply Hx, list_elem_of_lookup_2|lia|]. apply (Hl i j); [lia|done|done].
Qed.

Lemma insert_by_ordered {A} (key : A → string) x l : ordered key l → ordered key (insert_by key x l).
Proof.
  induction l as [|y l IH]; intros Hl; cbn; [apply ordered_cons; [by intros ? ?%not_elem_of_nil|]; intros ???? _ Hn; by rewrite lookup_nil in Hn|].
  assert (ordered key l) as Hl' by (intros i j a b Hij Ha Hb; apply (Hl (S i) (S j)); [lia|done|done]).
  assert (∀ z, z ∈ l → key y = key z ∨ str_lt (key y) (key z)) as Hy.
  { intros z (i & Hi)%list_elem_of_lookup_1. apply (Hl 0%nat (S i)); [lia|done|done]. }
  destruct (String.ltb (key y) (key x)) eqn:E.
  - apply ltb_spec in E. apply ordered_cons; [|by apply IH]. intros z Hz. rewrite (insert_by_Permutation key x l) in Hz.
    apply elem_of_cons in Hz as [->|Hz]; [by right|auto].
  - apply not_true_iff_false in E. rewrite ltb_spec in E. assert (key x = key y ∨ str_lt (key x) (key y)) as Hxy.
    { destruct (str_lt_total (key x) (key y)) as [?|[?|?]]; auto. done. }
    apply ordered_cons; [|by apply ordered_cons]. intros z [->|Hz]%elem_of_cons; [done|].
    destruct Hxy as [->|Hxy]; [auto|]. destruct (Hy z Hz) as [<-|?]; [by right|]. right. by eapply str_lt_trans.
Qed.

Lemma sort_by_ordered {A} (key : A → string) l : ordered key (sort_by key l).
Proof.
  induction l as [|x l IH]; cbn; [intros ???? _ Hn; by rewrite lookup_nil in Hn|]. by apply insert_by_ordered.
Qed.

(** Where the search of a key in an ordered list ends. *)
Lemma ordered_search {A} (key : A → string) l wanted :
  ordered key l →
  let k := Search (length l) (λ i, match l !! i with Some v => string_geb (key v) wanted | None => true end) in
  (∀ x, l !! k = Some x → key x = wanted ∨ str_lt wanted (key x)) ∧ ∀ i x, l !! i = Some x → (i < k)%nat → str_lt (key x) wanted.
Proof.
  intros Hl. cbn zeta. unfold Search.
  destruct (search_spec (S (length l)) (λ i, match l !! i with Some v => string_geb (key v) wanted | None => true end) 0 (length l) (length l))
    as (Hk & Hlo & Hhi); [|lia|lia|lia|lia|].
  { intros a b Hab Ha. destruct (l !! a) as [x|] eqn:Ea; [|apply lookup_ge_None in Ea; lia]. destruct (l !! b) as [y|] eqn:Eb; [|done].
    apply string_geb_spec in Ha. apply string_geb_spec. destruct (Hl a b x y ltac:(lia) Ea Eb) as [<-|Hxy]; [done|]. right.
    destruct Ha as [<-|Ha]; [done|by eapply str_lt_trans]. }
  split.
  - intros x Hx. specialize (Hhi _ (conj (Nat.le_refl _) (lookup_lt_Some _ _ _ Hx))). rewrite Hx in Hhi. by apply string_geb_spec.
  - intros i x Hx Hi. specialize (Hlo i Hi). rewrite Hx in Hlo. destruct (str_lt_total (key x) wanted) as [?|Ho]; [done|].
    assert (string_geb (key x) wanted = true) by (apply string_geb_spec; tauto). congruence.
Qed.

(** The binary search finds what a linear one finds. *)
Lemma sortedContains_in values wanted : ordered (λ x, x) values → sortedContains values wanted = true ↔ wanted ∈ values.
Proof.
  intros Hl. unfold sortedContains. destruct (ordered_search (λ x, x) values wanted Hl) as [Hat Hbefore]. cbn beta zeta in *.
  set (k := Search _ _) in *. split.
  - destruct (values !! k) as [v|] eqn:E; [|done]. intros Hv. bools. subst v. by eapply list_elem_of_lookup_2.
  - intros (i & Hi)%list_elem_of_lookup_1. destruct (decide (i < k)%nat) as [Hlt|Hge]; [by destruct (str_lt_irrefl wanted (Hbefore i wanted Hi Hlt))|].
    destruct (values !! k) as [v|] eqn:E; [|apply lookup_ge_None in E; apply lookup_lt_Some in Hi; lia]. apply bool_decide_eq_true.
    destruct (Hat v eq_refl) as [?|Hv]; [done|]. destruct (Hl k i v wanted ltac:(lia) E Hi) as [?|Hv']; [done|].
    by destruct (str_lt_irrefl v (str_lt_trans _ _ _ Hv' Hv)).
Qed.

Lemma replicaRouteBinding_in bindings id b : replicaRouteBinding bindings id = Some b → b ∈ bindings ∧ rb_RouteID b = id.
Proof.
  unfold replicaRouteBinding. destruct (bindings !! _) as [x|] eqn:E; [|done]. case_match; [|done]. intros [= ->]. bools.
  split; [by eapply list_elem_of_lookup_2|done].
Qed.

(** ** The least element *)

Section Least.
Context {A : Type} (less : A → A → bool) (P : A → Prop).
Hypothesis less_irrefl : ∀ x, P x → less x x = false.
Hypothesis less_trans : ∀ x y z, P x → P y → P z → less x y = true → less y z = true → less x z = true.
Hypothesis less_total : ∀ x y, P x → P y → x = y ∨ less x y = true ∨ less y x = true.

Lemma insert_less_Permutation x l : insert_less less x l ≡ₚ x :: l.
Proof. induction l as [|y l IH]; cbn; [done|]. destruct (less y x); [|done]. rewrite IH. apply Permutation_swap. Qed.

Lemma sort_less_Permutation l : sort_less less l ≡ₚ l.
Proof. induction l as [|x l IH]; cbn; [done|]. by rewrite insert_less_Permutation, IH. Qed.

Lemma sort_less_head l h : Forall P l → head (sort_less less l) = Some h → h ∈ l ∧ ∀ y, y ∈ l → y = h ∨ less h y = true.
Proof.
  intros Hl. revert h. induction Hl as [|x l Hx Hl IH]; intros h; cbn; [done|]. pose proof (sort_less_Permutation l) as Hp.
  change (foldr (insert_less less) [] l) with (sort_less less l). destruct (sort_less less l) as [|h' t] eqn:E; cbn.
  { intros [= <-]. apply Permutation_nil in Hp. subst l. split; [by left|]. intros y [->|?%not_elem_of_nil]%elem_of_cons; [by left|done]. }
  destruct (IH h' eq_refl) as [Hh' Hleast]. rewrite Forall_forall in Hl. pose proof (Hl h' Hh') as Ph'.
  destruct (less h' x) eqn:El; cbn; intros [= <-].
  - split; [by right|]. intros y [->|Hy]%elem_of_cons; [by right|auto].
  - split; [by left|]. intros y [->|Hy]%elem_of_cons; [by left|].
    assert (x = h' ∨ less x h' = true) as Hxh by (destruct (less_total x h' Hx Ph') as [?|[?|?]]; auto; congruence).
    destruct (Hleast y Hy) as [->|Hhy].
    + destruct Hxh as [->|?]; [by left|by right].
    + right. destruct Hxh as [->|Hxh]; [done|]. apply (less_trans _ h'); auto.
Qed.

Lemma sort_less_unique l l' : Forall P l → l ≡ₚ l' → head (sort_less less l) = head (sort_less less l').
Proof.
  intros Hl Hp. assert (Forall P l') as Hl' by by rewrite <- Hp.
  destruct (head (sort_less less l)) as [h|] eqn:E, (head (sort_less less l')) as [h'|] eqn:E'.
  - destruct (sort_less_head _ _ Hl E) as [Hh Hm], (sort_less_head _ _ Hl' E') as [Hh' Hm']. f_equal. rewrite Forall_forall in Hl, Hl'.
    destruct (Hm h') as [?|H1]; [by rewrite Hp|done|]. destruct (Hm' h) as [?|H2]; [by rewrite <- Hp|done|].
    assert (less h h = true) as Hbad by (apply (less_trans _ h'); auto). rewrite less_irrefl in Hbad by auto. done.
  - apply (sort_less_head _ _ Hl) in E as [Hh _]. rewrite Hp in Hh. pose proof (sort_less_Permutation l') as Hq. destruct (sort_less less l'); [|done].
    rewrite <- Hq in Hh. by apply not_elem_of_nil in Hh.
  - apply (sort_less_head _ _ Hl') in E' as [Hh _]. rewrite <- Hp in Hh. pose proof (sort_less_Permutation l) as Hq. destruct (sort_less less l); [|done].
    rewrite <- Hq in Hh. by apply not_elem_of_nil in Hh.
  - done.
Qed.
End Least.

(** ** Comparing replicas *)

Section Compare.
Context (sha256_sum : bytes → bytes) (active : nat → Z) (requestID : string).

(** What [validateReplicaState] and the types of the fields give. *)
Definition measured (e : dataCarrierRouteEntry) : Prop := 0 < rs_Capacity (ce_state e) < 4294967296 ∧ 0 ≤ active (ce_server e) < 4294967296.

Lemma load_exact e e' : measured e → measured e' → load active e e' = active (ce_server e) * rs_Capacity (ce_state e').
Proof.
  intros [_ Ha] [Hc _]. unfold load, u64. rewrite (Z.mod_small (active _)) by (unfold two64; lia). apply Z.mod_small. unfold two64. nia.
Qed.

Abbreviation lat e := (rs_Latency (ce_state e)).
Abbreviation busy e := (active (ce_server e)).
Abbreviation cap e := (rs_Capacity (ce_state e)).
Abbreviation score e := (replicaTieScore sha256_sum requestID (rs_FailureDomain (ce_state e))).
Abbreviation key e := (carrierRouteIdentityKey (ce_identity e)).

Lemma replicaLess_iff a b :
  measured a → measured b →
  replicaLess sha256_sum active requestID a b = true ↔
  lat a < lat b ∨ lat a = lat b ∧ (busy a * cap b < busy b * cap a ∨ busy a * cap b = busy b * cap a ∧
    (score b < score a ∨ score b = score a ∧ str_lt (key a) (key b))).
Proof.
  intros Ha Hb. unfold replicaLess. rewrite !load_exact by done. generalize (busy a * cap b) (busy b * cap a). intros x y.
  destruct (lat a =? lat b) eqn:E1; cbn [negb]; [|rewrite Z.ltb_lt; bools; lia].
  destruct (x =? y) eqn:E2; cbn [negb]; [|rewrite Z.ltb_lt; bools; lia].
  destruct (score a =? score b) eqn:E3; cbn [negb]; [|rewrite Z.ltb_lt; bools; lia]. rewrite ltb_spec. bools. intuition lia.
Qed.

Lemma ratio_le a1 c1 a2 c2 a3 c3 :
  0 < c1 → 0 < c2 → 0 < c3 → a1 * c2 ≤ a2 * c1 → a2 * c3 ≤ a3 * c2 →
  a1 * c3 ≤ a3 * c1 ∧ (a1 * c2 < a2 * c1 ∨ a2 * c3 < a3 * c2 → a1 * c3 < a3 * c1).
Proof.
  intros H1 H2 H3 Ha Hb.
  assert (a1 * c2 * c3 ≤ a2 * c1 * c3) as A by (apply Z.mul_le_mono_nonneg_r; lia).
  assert (a2 * c3 * c1 ≤ a3 * c2 * c1) as B by (apply Z.mul_le_mono_nonneg_r; lia).
  split.
  - apply (Z.mul_le_mono_pos_r _ _ c2 H2). lia.
  - intros [Hlt|Hlt]; apply (Z.mul_lt_mono_pos_r c2 _ _ H2).
    + assert (a1 * c2 * c3 < a2 * c1 * c3) by (apply Z.mul_lt_mono_pos_r; lia). lia.
    + assert (a2 * c3 * c1 < a3 * c2 * c1) by (apply Z.mul_lt_mono_pos_r; lia). lia.
Qed.

Lemma replicaLess_trans a b c :
  measured a → measured b → measured c →
  replicaLess sha256_sum active requestID a b = true → replicaLess sha256_sum active requestID b c = true → replicaLess sha256_sum active requestID a c = true.
Proof.
  intros Ma Mb Mc. rewrite !replicaLess_iff by done. intros [?|(? & H1)] [?|(? & H2)]; [lia..|]. right. split; [lia|].
  destruct (ratio_le (busy a) (cap a) (busy b) (cap b) (busy c) (cap c)) as [Hle Hlt]; [apply Ma|apply Mb|apply Mc|lia|lia|].
  destruct H1 as [H1|(H1 & H1')]; [left; apply Hlt; lia|]. destruct H2 as [H2|(H2 & H2')]; [left; apply Hlt; lia|].
  destruct (decide (busy a * cap c < busy c * cap a)) as [|Hn]; [by left|]. right. split; [lia|].
  destruct H1' as [?|(? & ?)], H2' as [?|(? & ?)]; [left; lia..|]. right. split; [lia|by eapply str_lt_trans].
Qed.

Lemma replicaLess_irrefl a : measured a → replicaLess sha256_sum active requestID a a = false.
Proof.
  intros Ma. apply not_true_iff_false. rewrite replicaLess_iff by done. intros [?|(_ & [?|(_ & [?|(_ & Hk)])])]; [lia..|]. by apply str_lt_irrefl in Hk.
Qed.

Lemma replicaLess_total a b :
  measured a → measured b → key a = key b ∨ replicaLess sha256_sum active requestID a b = true ∨ replicaLess sha256_sum active requestID b a = true.
Proof.
  intros Ma Mb. rewrite !replicaLess_iff by done. generalize (busy a * cap b) (busy b * cap a). intros x y.
  destruct (str_lt_total (key a) (key b)) as [?|[?|?]]; [|by left|]; right;
    (destruct (Z.lt_trichotomy (lat a) (lat b)) as [?|[?|?]]; [left; by left| |right; by left]);
    (destruct (Z.lt_trichotomy x y) as [?|[?|?]]; [left; right; split; [done|by left]| |right; right; split; [lia|by left]]);
    (destruct (Z.lt_trichotomy (score a) (score b)) as [?|[?|?]]; [right; right; split; [lia|right; split; [lia|by left]]| |left; right; split; [lia|right; split; [lia|by left]]]).
  - left. right. split; [done|]. right. split; [done|]. right. split; [lia|done].
  - right. right. split; [lia|]. right. split; [lia|]. right. split; [lia|done].
Qed.

(** The choice among replicas does not depend on the order in which the registry's map is
    visited: for any two orders of the same entries, whose keys are distinct and whose
    capacities and stream counts are in range, the same replica is chosen. *)
Theorem replica_choice_order_free `{TextLib} ended rule visited visited' :
  visited ≡ₚ visited' → Forall (λ x, measured x.2) visited → (∀ x y, x ∈ visited → y ∈ visited → key x.2 = key y.2 → x = y) →
  choose sha256_sum ended active rule requestID visited = choose sha256_sum ended active rule requestID visited'.
Proof.
  intros Hp Hm Hk. unfold choose. apply (sort_less_unique _ (λ x : nat * dataCarrierRouteEntry, measured x.2 ∧ x ∈ visited)).
  - intros x [Hx _]. by apply replicaLess_irrefl.
  - intros x y z [Hx _] [Hy _] [Hz _]. by apply replicaLess_trans.
  - intros x y [Hx Hxv] [Hy Hyv]. destruct (replicaLess_total x.2 y.2 Hx Hy) as [?|?]; [left; by apply Hk|by right].
  - apply Forall_forall. intros x Hx. apply list_elem_of_In, filter_In in Hx as [Hx%list_elem_of_In _]. rewrite Forall_forall in Hm. auto.
  - apply Permutation_filter_bool || (clear -Hp; induction Hp; cbn; repeat case_match; try done; [by constructor|by constructor|by etransitivity]).
Qed.

End Compare.
End ReplicasProofs.
