(* ===== verification/ReplicasGuarantees.v ===== *)
(** * The registry of durable carriers: invariants and composition

    The registry under every history of its operations, and what opening a route does with
    the carrier, the ingress decision and the lease. *)
From S2P Require Import Prelude Go Strings Protocol Route Utf8 JSON StreamFrames StreamFramesProofs Carrier PreviewAdmission DurableAdmission DurableAdmissionProofs Ingress IngressProofs HTTP Replicas.

Module ReplicasGuarantees.
Import StreamFrames Ingress IngressLimits IngressProofs Browser HTTP Replicas ReplicasProofs.
Import Carrier (Identity, mkIdentity, id_AccountID, id_HostID, id_TunnelID, id_ConnectorID, id_SessionID, id_ProcessGeneration, id_Generation, Identity_Validate).
Import Route.

Section Registry.
Context (identity_of : nat → Identity).
Implicit Types r : DataCarrierRouteRegistry.

(** ** The invariant *)

Definition normal (s : ReplicaState) : Prop := ordered (λ x, x) (rs_RouteIDs s) ∧ ordered (λ x, x) (rs_HealthyRoutes s).

Definition entry_ok (e : dataCarrierRouteEntry) : Prop := ce_identity e = identity_of (ce_server e) ∧ normal (ce_state e).

Record rinv r : Prop := {
  ri_key : ∀ k i, rg_byKey r !! k = Some i → ∃ e, rg_entries r !! i = Some e ∧ carrierRouteIdentityKey (ce_identity e) = k;
  ri_entry : ∀ i e, rg_entries r !! i = Some e → entry_ok e;
  ri_size : Z.of_nat (size (rg_byKey r)) ≤ rg_maximum r;
  ri_closed : rg_closed r = true → rg_byKey r = ∅
}.

Lemma normal_normalize s : normal (normalizeReplicaState s).
Proof. split; cbn; apply sort_by_ordered. Qed.

(** Changing an entry without touching its identity, and forgetting a key. *)
Lemma rinv_update r i e e' :
  rinv r → rg_entries r !! i = Some e → ce_identity e' = ce_identity e → entry_ok e' → rinv (r <| rg_entries := <[i := e']> (rg_entries r) |>).
Proof.
  intros [A B C D] He Hid Hok. split; cbn; [|intros j x [[<- <-]|[_ Hx]]%lookup_insert_Some; eauto|done|done].
  intros k j Hj. destruct (A _ _ Hj) as (x & Hx & Hk). destruct (decide (i = j)) as [->|Hne].
  - exists e'. rewrite lookup_insert_eq. split; [done|]. rewrite Hid. congruence.
  - exists x. by rewrite lookup_insert_ne.
Qed.

Lemma rinv_close r i : rinv r → rinv (close_entry i r).
Proof.
  intros I. unfold close_entry. destruct (rg_entries r !! i) as [e|] eqn:E.
  - assert (alter (λ e, e <| ce_done := true |>) i (rg_entries r) = <[i := e <| ce_done := true |>]> (rg_entries r)) as ->.
    { apply map_eq. intros j. destruct (decide (i = j)) as [->|?]; [by rewrite lookup_alter_eq, lookup_insert_eq, E|by rewrite lookup_alter_ne, lookup_insert_ne]. }
    eapply rinv_update; [done|done|done|]. by destruct (ri_entry _ I _ _ E).
  - assert (alter (λ e, e <| ce_done := true |>) i (rg_entries r) = rg_entries r) as ->; [|by destruct r].
    apply map_eq. intros j. destruct (decide (i = j)) as [->|?]; [by rewrite lookup_alter_eq, E|by rewrite lookup_alter_ne].
Qed.

Lemma rinv_forget r k : rinv r → rinv (r <| rg_byKey := delete k (rg_byKey r) |>).
Proof.
  intros [A B C D]. split; cbn; [by intros k' i [_ ?]%lookup_delete_Some; eauto|done| |].
  - pose proof (map_subseteq_size _ _ (delete_subseteq (rg_byKey r) k)). lia.
  - intros Hc. rewrite (D Hc). apply delete_empty.
Qed.

Lemma rinv_install r server key thumbprint s :
  rinv r → rg_closed r = false →
  (rg_byKey r !! carrierRouteIdentityKey (identity_of server) = None → Z.of_nat (size (rg_byKey r)) < rg_maximum r) →
  let i := fresh (dom (rg_entries r)) in
  rinv (r <| rg_entries := <[i := mkRouteEntry (identity_of server) key thumbprint server false (normalizeReplicaState s)]> (rg_entries r) |>
          <| rg_byKey := <[carrierRouteIdentityKey (identity_of server) := i]> (rg_byKey r) |>).
Proof.
  intros [A B C D] Hc Hs. cbn zeta. set (i := fresh (dom (rg_entries r))).
  assert (rg_entries r !! i = None) as Hi by apply not_elem_of_dom, is_fresh. split; cbn.
  - intros k j [[<- <-]|[_ Hj]]%lookup_insert_Some; [eexists; rewrite lookup_insert_eq; done|].
    destruct (A _ _ Hj) as (e & He & Hk). exists e. rewrite lookup_insert_ne; [done|]. congruence.
  - intros j e [[<- <-]|[_ He]]%lookup_insert_Some; [|eauto]. split; [done|apply normal_normalize].
  - destruct (rg_byKey r !! carrierRouteIdentityKey (identity_of server)) eqn:E.
    + by rewrite map_size_insert_Some by eauto.
    + rewrite map_size_insert_None by done. specialize (Hs eq_refl). lia.
  - congruence.
Qed.

Lemma attachState_inv server key thumbprint s r : rinv r → rinv (attachState identity_of server key thumbprint s r).2.
Proof.
  intros I. unfold attachState. destruct (Identity_Validate _); [done|]. cbn [failed]. destruct (rg_closed r) eqn:Ec; [done|].
  destruct (rg_byKey r !! _) as [i|] eqn:Ek.
  - destruct (ri_key _ I _ _ Ek) as (e & He & Hk). rewrite He. case_bool_decide as Es.
    + case_match; [done|]. cbn [snd]. eapply rinv_update; [done|done|done|]. by destruct (ri_entry _ I _ _ He).
    + cbn [snd]. apply (rinv_install (close_entry i r) server key thumbprint s); [by apply rinv_close|done|]. cbn. congruence.
  - destruct (rg_maximum r <=? _) eqn:Em; [done|]. cbn [snd]. bools. by apply rinv_install.
Qed.

Lemma UpdateReplicaState_inv server s r : rinv r → rinv (UpdateReplicaState identity_of server s r).2.
Proof.
  intros I. unfold UpdateReplicaState. repeat case_match; try done. cbn [snd].
  match goal with E : rg_entries r !! _ = Some ?e |- _ => eapply (rinv_update r _ e); [done|done|done|]; destruct (ri_entry _ I _ _ E) end.
  split; [done|apply normal_normalize].
Qed.

Lemma recordOpenLatency_inv i sample r : rinv r → rinv (recordOpenLatency i sample r).
Proof.
  intros I. unfold recordOpenLatency. repeat case_match; try done.
  match goal with E : rg_entries r !! _ = Some ?e |- _ => eapply (rinv_update r _ e); [done|done|done|]; by destruct (ri_entry _ I _ _ E) end.
Qed.

Lemma detach_inv i r : rinv r → rinv (detach i r).
Proof. intros I. unfold detach. repeat case_match; try done. by apply rinv_close, rinv_forget. Qed.

Lemma Detach_inv server r : rinv r → rinv (Detach identity_of server r).2.
Proof. intros I. unfold Detach. repeat case_match; try done. cbn [snd]. by apply rinv_close, rinv_forget. Qed.

Lemma Registry_Close_inv r : rinv r → rinv (Registry_Close r).
Proof.
  intros [A B C D]. unfold Registry_Close. destruct (rg_done r); [done|]. split; cbn; [done| | |done].
  - intros i e He. rewrite map_lookup_imap in He. destruct (rg_entries r !! i) as [x|] eqn:E; [|done]. cbn in He. injection He as <-.
    destruct (B _ _ E). by case_bool_decide.
  - rewrite map_size_empty. lia.
Qed.

(** ** Every history *)

Inductive registry_run (maximum : Z) : DataCarrierRouteRegistry → Prop :=
| registry_new r : new_registry maximum = inr r → registry_run maximum r
| registry_attach r server : registry_run maximum r → registry_run maximum (Attach identity_of server r).2
| registry_bound r server key thumbprint : registry_run maximum r → registry_run maximum (AttachBound identity_of server key thumbprint r).2
| registry_replica r server key thumbprint s : registry_run maximum r → registry_run maximum (AttachReplica identity_of server key thumbprint s r).2
| registry_update r server s : registry_run maximum r → registry_run maximum (UpdateReplicaState identity_of server s r).2
| registry_latency r i sample : registry_run maximum r → registry_run maximum (recordOpenLatency i sample r)
| registry_watch r i : registry_run maximum r → registry_run maximum (detach i r)
| registry_detach r server : registry_run maximum r → registry_run maximum (Detach identity_of server r).2
| registry_close r : registry_run maximum r → registry_run maximum (Registry_Close r).

Lemma registry_run_inv maximum r : registry_run maximum r → rinv r.
Proof.
  induction 1 as [r Hr| | | | | | | |].
  - unfold new_registry in Hr. case_match eqn:E; [done|]. injection Hr as <-. bools. split; cbn; try done. rewrite map_size_empty. lia.
  - by apply attachState_inv.
  - unfold AttachBound. case_match; [done|]. by apply attachState_inv.
  - unfold AttachReplica. case_match; [done|]. by apply attachState_inv.
  - by apply UpdateReplicaState_inv.
  - by apply recordOpenLatency_inv.
  - by apply detach_inv.
  - by apply Detach_inv.
  - by apply Registry_Close_inv.
Qed.

(** The entries a choice visits are distinct, with distinct keys. *)
Lemma live_keys r x y :
  rinv r → x ∈ live r → y ∈ live r → carrierRouteIdentityKey (ce_identity x.2) = carrierRouteIdentityKey (ce_identity y.2) → x = y.
Proof.
  intros I Hx Hy Hk.
  assert (∀ z, z ∈ live r → ∃ k, rg_byKey r !! k = Some z.1 ∧ rg_entries r !! z.1 = Some z.2 ∧ carrierRouteIdentityKey (ce_identity z.2) = k) as Hz.
  { intros z Hz. unfold live in Hz. apply list_elem_of_omap in Hz as ([k i] & Hki & Hz). apply elem_of_map_to_list in Hki. cbn in Hz.
    destruct (ri_key _ I _ _ Hki) as (e & He & Hk'). rewrite He in Hz. injection Hz as <-. exists k. done. }
  destruct (Hz _ Hx) as (k & H1 & H2 & H3), (Hz _ Hy) as (k' & H1' & H2' & H3'). destruct x as [i e], y as [i' e']. cbn in *.
  assert (i = i') as <- by congruence. congruence.
Qed.

Lemma live_entry r x : x ∈ live r → ∃ k, rg_byKey r !! k = Some x.1 ∧ rg_entries r !! x.1 = Some x.2.
Proof.
  unfold live. intros ([k i] & Hki & Hx)%list_elem_of_omap. apply elem_of_map_to_list in Hki. cbn in Hx.
  destruct (rg_entries r !! i) as [e|] eqn:E; [|done]. injection Hx as <-. by exists k.
Qed.

(** ** Opening a route *)

Section Open.
Context `{TextLib} (sha256_sum : bytes → bytes) (ended : nat → bool) (active : nat → Z).
Context `{FoldLib} `{AddrLib} {Rate L : Type} `{RateLimiter Rate L}.

Lemma acquire_held d now (l : IngressLimits Rate L) e l' : acquire d now l = (inl e, l') → il_leases l' = il_leases l.
Proof.
  unfold acquire. destruct (maximumIngressLimitEntries <? _); [by intros [= <- <-]|]. destruct (lookup_state _ _ _ _ _) as [i pub].
  destruct (lookup_state _ _ _ _ _) as [j acc]. destruct ((_ <=? _) || _ || _ || _); [by intros [= <- <-]|done].
Qed.

Lemma AcquireIngress_held d checkNow now (l : IngressLimits Rate L) e l' a p :
  AcquireIngress d checkNow now l = (inl e, l') → held_on a p l' = held_on a p l.
Proof.
  unfold AcquireIngress, held_on. case_match; [by intros [= <- <-]|]. intros Hr. by rewrite (acquire_held _ _ _ _ _ Hr).
Qed.

Lemma AcquireIngress_lease d checkNow now (l : IngressLimits Rate L) id l' :
  AcquireIngress d checkNow now l = (inr id, l') →
  ∃ x, il_leases l !! id = None ∧ le_decision x = d ∧ le_once x = false ∧ il_leases l' = <[id := x]> (il_leases l).
Proof.
  unfold AcquireIngress, acquire. destruct (failed _); [done|]. destruct (maximumIngressLimitEntries <? _); [done|].
  destruct (lookup_state _ _ _ _ _) as [i pub]. destruct (lookup_state _ _ _ _ _) as [j acc]. destruct ((_ <=? _) || _ || _ || _); [done|]. intros [= <- <-].
  exists (mkLease i j d false). cbn. split_and!; [apply not_elem_of_dom, is_fresh|done..].
Qed.

(** A carrier that serves this route: the very assignment of the rule, or a ready replica
    with the rule's generation and content, healthy, and with room for a stream. *)
Definition serves (rule : RouteRule) (e : dataCarrierRouteEntry) : Prop :=
  rs_RouteIDs (ce_state e) = [] ∧ ce_identity e = rule_identity rule
  ∨ rs_Ready (ce_state e) = true ∧ carrierRouteID rule ∈ rs_RouteIDs (ce_state e) ∧ carrierRouteID rule ∈ rs_HealthyRoutes (ce_state e)
    ∧ active (ce_server e) mod 4294967296 < rs_Capacity (ce_state e)
    ∧ ∃ b, b ∈ rs_RouteBindings (ce_state e) ∧ rb_RouteID b = carrierRouteID rule ∧ rb_RouteGeneration b = rr_RouteGeneration rule
        ∧ rb_ConfigContentHash b = rr_ConfigContentHash rule.

Lemma eligible_serves rule e :
  entry_ok e → eligible ended active rule e = true →
  id_AccountID (ce_identity e) = rr_AccountID rule ∧ id_TunnelID (ce_identity e) = rr_TunnelID rule
  ∧ id_Generation (ce_identity e) = rr_ConfigGeneration rule ∧ ended (ce_server e) = false ∧ serves rule e.
Proof.
  intros [_ [Hn1 Hn2]] He. unfold eligible in He. bools. destruct (bool_decide (rs_RouteIDs (ce_state e) = [])) eqn:Er.
  - rename select (legacy_matches rule e = true) into Hl. unfold legacy_matches in Hl. bools. split_and!; try done. left. split; [done|].
    unfold rule_identity. destruct (ce_identity e). cbn in *. congruence.
  - rename select (replica_matches _ rule e = true) into Hr. unfold replica_matches in Hr.
    destruct (replicaRouteBinding _ _) as [b|] eqn:Eb; [|done]. apply replicaRouteBinding_in in Eb as [Hb Hid]. unfold at_capacity in Hr. bools.
    split_and!; try done. right. rewrite !sortedContains_in in * by done. split_and!; try done. by exists b.
Qed.

Lemma entryFor_serves rule requestID r i e :
  rinv r → entryFor sha256_sum ended active rule requestID r = inr (i, e) →
  (∃ k, rg_byKey r !! k = Some i) ∧ rg_entries r !! i = Some e ∧ ce_identity e = identity_of (ce_server e)
  ∧ id_AccountID (ce_identity e) = rr_AccountID rule ∧ id_TunnelID (ce_identity e) = rr_TunnelID rule
  ∧ id_Generation (ce_identity e) = rr_ConfigGeneration rule ∧ ended (ce_server e) = false ∧ serves rule e.
Proof.
  intros I. unfold entryFor. destruct (negb _ || _); [done|]. destruct (choose _ _ _ _ _ _) as [x|] eqn:Ec; [|done]. intros [= ->].
  unfold choose in Ec. assert ((i, e) ∈ List.filter (λ x : nat * dataCarrierRouteEntry, eligible ended active rule x.2) (live r)) as Hin.
  { rewrite <- (sort_less_Permutation (λ x y : nat * dataCarrierRouteEntry, replicaLess sha256_sum active requestID x.2 y.2)).
    destruct (sort_less _ _); [done|]. cbn in Ec. injection Ec as ->. by left. }
  apply list_elem_of_In, filter_In in Hin as [Hl%list_elem_of_In He]. destruct (live_entry _ _ Hl) as (k & Hk & Hi). cbn in *.
  pose proof (ri_entry _ I _ _ Hi) as Hok. destruct (eligible_serves _ _ Hok He) as (? & ? & ? & ? & ?).
  split_and!; try done; [by exists k|]. by destruct Hok.
Qed.

(** C32. A stream is opened only where the route is served: for every history of the registry,
    when opening a route succeeds, the stream goes to a carrier that is registered and has
    not ended, its preface names that carrier's own identity and this route, in the account,
    tunnel and configuration generation of the rule, and the carrier serves exactly this
    route.  A restricted route got the decision of its viewer, about this route; a public
    one, where there is an authority, a public decision; and the decision authorizes the
    preface. *)
Theorem route_stream_bound maximum r browser resolve stream frame sample now rule requestID limits o (limits' : IngressLimits Rate L) r' :
  registry_run maximum r →
  OpenRouteStream sha256_sum ended active browser resolve stream frame sample now rule requestID limits r = (inr o, limits', r') →
  (∃ k i e, rg_byKey r !! k = Some i ∧ rg_entries r !! i = Some e ∧ op_server o = ce_server e ∧ ended (ce_server e) = false ∧ serves rule e)
  ∧ let id := identity_of (op_server o) in
    op_open o = mkOpen ProtocolName ProtocolVersion (rr_AccountID rule) (rr_TunnelID rule) (id_ConnectorID id) (id_SessionID id)
                  (id_ProcessGeneration id) (rr_ConfigGeneration rule) (carrierRouteID rule) requestID (durableStreamKind (rr_Protocol rule))
    ∧ (rr_AccessMode rule = "private" ∨ rr_AccessMode rule = "team" → op_decision o = browser ∧ nonnil browser = true)
    ∧ (∀ d, op_decision o = Some d → Decision_Authorize d d (op_open o) (rr_Node rule) (rr_EdgeProcessEpoch rule) now = None
         ∧ nonnil (op_lease o) = true)
    ∧ (rr_AccessMode rule ≠ "private" → rr_AccessMode rule ≠ "team" → nonnil resolve = true →
         ∃ d, op_decision o = Some d ∧ ib_Audience (ig_Binding d) = "public").
Proof.
  intros R%registry_run_inv. unfold OpenRouteStream, open_route. destruct (_ || badID requestID); [done|].
  destruct (entryFor _ _ _ _ _ _) as [e|[i e]] eqn:Ee; [done|].
  destruct (entryFor_serves _ _ _ _ _ R Ee) as ((k & Hk) & Hi & Hid & Ha & Ht & Hg & Hend & Hs).
  destruct (ingressDecision browser resolve rule _ now) as [e'|decision] eqn:Ed; [done|].
  set (open := open_of e rule requestID (durableStreamKind (rr_Protocol rule))) in *.
  assert (open = mkOpen ProtocolName ProtocolVersion (rr_AccountID rule) (rr_TunnelID rule) (id_ConnectorID (identity_of (ce_server e)))
                   (id_SessionID (identity_of (ce_server e))) (id_ProcessGeneration (identity_of (ce_server e))) (rr_ConfigGeneration rule)
                   (carrierRouteID rule) requestID (durableStreamKind (rr_Protocol rule))) as Hopen.
  { unfold open, open_of. rewrite <- Hid. congruence. }
  destruct (match decision with None => _ | Some d => _ end) as [[el|lease] lim] eqn:El; [done|].
  destruct stream; [done|]. intros Hres.
  assert (o = mkOpened (ce_server e) open decision lease) as -> by (destruct decision, frame; by injection Hres).
  split; [by exists k, i, e|]. cbn. split; [done|]. unfold ingressDecision in Ed. split_and!.
  - intros Hm. assert ((rr_AccessMode rule == "private") || (rr_AccessMode rule == "team") = true) as Hb.
    { apply orb_true_iff. rewrite !bool_decide_eq_true. done. }
    rewrite Hb in Ed. destruct browser; [|done]. destruct (negb _ || _); [done|]. by injection Ed as <-.
  - intros d ->. split.
    + repeat (case_match; try done); simplify_eq; bools; by destruct (Decision_Authorize _ _ _ _ _ _).
    + destruct (AcquireIngress d now now limits) as [[|id] l']; [done|]. by injection El as <- <-.
  - intros Hp1 Hp2 Hr. rewrite (bool_decide_eq_false_2 _ Hp1), (bool_decide_eq_false_2 _ Hp2) in Ed. cbn in Ed. destruct resolve as [f|]; [|done].
    destruct (f rule) as [|d]; [done|]. destruct (failed _ || _) eqn:Eb; [done|]. injection Ed as <-. exists d. bools. done.
Qed.

(** A connection that does not open keeps nothing: whether the limit refuses it, the carrier
    cannot open the stream or the decision cannot be written, the connections counted for
    every account and publication are what they were; and an opened one counts once, for
    the publication of its decision. *)
Theorem route_open_leases browser resolve stream frame sample now rule requestID (limits : IngressLimits Rate L) r res limits' r' a p :
  open_route sha256_sum ended active browser resolve stream frame sample now rule requestID limits r = (res, limits', r') →
  held_on a p limits' = held_on a p limits +
    match res with
    | inr o => match op_decision o with
               | Some d => if bool_decide (ib_AccountID (ig_Binding d) = a) && bool_decide (ib_PublicationID (ig_Binding d) = p) then 1 else 0
               | None => 0
               end
    | inl _ => 0
    end.
Proof.
  unfold open_route. destruct (entryFor _ _ _ _ _ _) as [e|[i e]]; [intros [= <- <- <-]; lia|].
  destruct (ingressDecision _ _ _ _ _) as [e'|[d|]]; [intros [= <- <- <-]; lia| |].
  - destruct (AcquireIngress d now now limits) as [[e'|id] l1] eqn:El.
    { intros [= <- <- <-]. rewrite (AcquireIngress_held _ _ _ _ _ _ _ _ El). lia. }
    destruct (AcquireIngress_lease _ _ _ _ _ _ El) as (x & Hx & Hd & Ho & Hleases).
    assert (held_on a p l1 = held_on a p limits
            + if bool_decide (ib_AccountID (ig_Binding d) = a) && bool_decide (ib_PublicationID (ig_Binding d) = p) then 1 else 0) as Hone.
    { unfold held_on. rewrite Hleases, sum_map_insert by done. rewrite Ho, Hd. cbn. lia. }
    assert (held_on a p (Release id now l1) = held_on a p limits) as Htwo.
    { unfold Release. rewrite Hleases, lookup_insert_eq, Ho. unfold held_on. cbn. rewrite insert_insert_eq, sum_map_insert by done. cbn. lia. }
    destruct stream; [intros [= <- <- <-]; lia|]. destruct frame; intros [= <- <- <-]; cbn; lia.
  - destruct stream; [intros [= <- <- <-]; lia|]. destruct frame; intros [= <- <- <-]; cbn; lia.
Qed.

End Open.

(** Attaching a carrier that is registered already answers success and leaves its replica
    state as it was, whatever state it is attached with. *)
Lemma attach_replica_ignored server key thumbprint s r i e :
  validateReplicaState identity_of server s = None → Identity_Validate (identity_of server) = None → rg_closed r = false →
  rg_byKey r !! carrierRouteIdentityKey (identity_of server) = Some i → rg_entries r !! i = Some e → ce_server e = server → ce_machineKey e = "" →
  let '(res, r') := AttachReplica identity_of server key thumbprint s r in
  res = None ∧ ∃ e', rg_entries r' !! i = Some e' ∧ ce_state e' = ce_state e.
Proof.
  intros Hv Hid Hc Hk He Hs Hm. unfold AttachReplica, attachState. rewrite Hv, Hid. cbn [failed]. rewrite Hc, Hk, He, bool_decide_eq_true_2 by done.
  rewrite Hm. cbn. split; [done|]. eexists. split; [apply lookup_insert_eq|done].
Qed.

End Registry.

(** ** Two replicas of one route *)

Module Fleet.

#[local] Instance sample_text : Route.TextLib := {|
  Route.unicode_lower := λ s, s; Route.ToASCII := Some; Route.isIP := λ _, false; Route.ValidUTF8 := λ _, true |}.
#[local] Instance sample_fold : FoldLib := λ _ _, false.
#[local] Instance sample_addr : AddrLib := λ s, s == "127.0.0.1".
#[local] Instance sample_rate : RateLimiter Z Z := {|
  positive := λ r, 0 <? r; NewLimiter := λ _ b, b; has_token := λ l _, 1 <=? l; is_full := λ _ _, false; AllowN := λ l _ n, l - n |}.

Definition hash0 := "sha256:0123456789abcdef0123456789abcdef0123456789abcdef0123456789abcdef".
Definition identity_of (server : nat) : Identity := mkIdentity "acct" "host" "tun" "con" (if server is O then "sess" else "sess2") 1 1.
Definition state (latency : Duration) : ReplicaState :=
  mkReplicaState true 1 ["route"; "other"] ["route"] [mkReplicaBinding "route" "asg" 1 1 hash0; mkReplicaBinding "other" "asg2" 1 1 hash0] "zone" latency 8.
Definition rule0 : RouteRule :=
  mkRule "rule" 1 1 "route" 1 "asg" 1 "tunnel" 1 "env" "acct" "host" "" "" "tun" "con" "sess" 1 1 hash0 "edge" Sample.authority0.(ia_ProcessEpoch) ""
    TunnelHTTPSWSS "exact" "app.example.com" "" "/" 0 "" "http" "" 0 "http" "public" false "" "active" "active" "".

Definition fleet0 : DataCarrierRouteRegistry := mkRegistry 8 false false ∅ ∅.
Definition fleet1 := (AttachReplica identity_of 0 "" "" (state 30) fleet0).2.
Definition fleet2 := (AttachReplica identity_of 1 "" "" (state 20) fleet1).2.

Lemma run2 : registry_run identity_of 8 fleet2.
Proof. apply registry_replica, registry_replica, registry_new. reflexivity. Qed.

Definition t0 : Time := Sample.t0.
Definition open0 := OpenRouteStream (λ _, []) (λ s, bool_decide (s = 1%nat)) (λ _, 3) None (Some (λ _, inr Sample.decision0)) None None 5 t0 rule0 "req-1"
                      Sample.limits0 fleet2.

(** The faster replica has ended, so the other one gets the stream. *)
Lemma route_stream_bound_witness :
  match open0 with
  | (inr o, _, _) => op_server o = 0%nat ∧ op_lease o = Some 0%nat
      ∧ ∃ k i e, rg_byKey fleet2 !! k = Some i ∧ rg_entries fleet2 !! i = Some e ∧ op_server o = ce_server e ∧ serves (λ _, 3) rule0 e
  | _ => False
  end.
Proof.
  assert (match open0 with (inr o, _, _) => Some (op_server o, op_lease o) | _ => None end = Some (0%nat, Some 0%nat)) as Hx by (vm_compute; reflexivity).
  destruct open0 as [[[e|o] limits'] r'] eqn:E; [discriminate Hx|]. injection Hx as Hs Hl. split; [exact Hs|]. split; [exact Hl|].
  destruct (route_stream_bound identity_of (λ _, []) (λ s, bool_decide (s = 1%nat)) (λ _, 3) 8 fleet2 _ _ _ _ _ _ _ _ _ _ _ _ run2 E)
    as [(k & i & e & Hk & Hi & Ho & _ & Hserves) _].
  exists k, i, e. split; [exact Hk|]. split; [exact Hi|]. split; [exact Ho|exact Hserves].
Defined.

Lemma route_open_leases_witness :
  match open_route (λ _, []) (λ s, bool_decide (s = 1%nat)) (λ _, 3) None (Some (λ _, inr Sample.decision0)) (Some ErrIngressDenied) None 5 t0 rule0 "req-1" Sample.limits0 fleet2 with
  | (inl _, limits', _) => held_on "acct" "pub" limits' = held_on "acct" "pub" Sample.limits0 + 0 ∧ size (il_leases limits') = 1%nat
  | _ => False
  end.
Proof.
  destruct (open_route _ _ _ _ _ _ _ _ _ _ _ _ _) as [[[e|o] limits'] r'] eqn:E.
  - split; [exact (route_open_leases _ _ _ _ _ _ _ _ _ _ _ _ _ _ _ _ "acct" "pub" E)|].
    assert (match open_route (λ _, []) (λ s, bool_decide (s = 1%nat)) (λ _, 3) None (Some (λ _, inr Sample.decision0)) (Some ErrIngressDenied) None 5 t0 rule0 "req-1" Sample.limits0 fleet2
            with (_, l, _) => size (il_leases l) end = 1%nat) as Hx by (vm_compute; reflexivity).
    rewrite E in Hx. exact Hx.
  - assert (match open_route (λ _, []) (λ s, bool_decide (s = 1%nat)) (λ _, 3) None (Some (λ _, inr Sample.decision0)) (Some ErrIngressDenied) None 5 t0 rule0 "req-1" Sample.limits0 fleet2
            with (inl _, _, _) => true | _ => false end = true) as Hx by (vm_compute; reflexivity).
    rewrite E in Hx. discriminate Hx.
Defined.

Lemma capacities_measured (visited : list (nat * dataCarrierRouteEntry)) :
  forallb (λ x, rs_Capacity (ce_state x.2) =? 8) visited = true → Forall (λ x, measured (λ _, 3) x.2) visited.
Proof.
  intros Hc. apply Forall_forall. intros x Hx. unfold measured. rewrite forallb_forall in Hc.
  apply list_elem_of_In in Hx. specialize (Hc x Hx). bools. lia.
Qed.

Lemma replica_choice_order_free_witness :
  choose (λ _, []) (λ _, false) (λ _, 3) rule0 "req-1" (live fleet2) = choose (λ _, []) (λ _, false) (λ _, 3) rule0 "req-1" (rev (live fleet2))
  ∧ fst <$> choose (λ _, []) (λ _, false) (λ _, 3) rule0 "req-1" (live fleet2) = Some 1%nat.
Proof.
  split; [|vm_compute; reflexivity].
  refine (replica_choice_order_free (λ _, []) (λ _, 3) "req-1" (λ _, false) rule0 (live fleet2) (rev (live fleet2)) _ _ _).
  - apply Permutation_rev.
  - apply capacities_measured. vm_compute. reflexivity.
  - intros x y Hx Hy. exact (live_keys identity_of fleet2 x y (registry_run_inv identity_of 8 fleet2 run2) Hx Hy).
Defined.

End Fleet.
End ReplicasGuarantees.
