(* ===== verification/PreviewRegistry.v ===== *)
(** * The registry of preview routes

    Models [internal/edgehttp/preview_carrier_transport.go], [preview_carrier_alias.go] and
    the adapter of [route_matcher.go]: the routes of attached preview carriers with their
    custom host names, what a request finds under a host, the leases of requests and the
    opening of a stream.  A registered route is shared by the two indexes, by the goroutine
    that watches its carrier and by leases, so it lives in a heap; a carrier is an address
    with an identity that never changes, and is never nil.  A [range] over a map follows an
    order given by the class [RangeOrder]. *)
From S2P Require Import Prelude Go Strings Protocol Route RotationMessages StreamFrames Carrier PreviewAdmission Ingress HTTP.

(** The order in which [range] visits a map: some permutation of its entries. *)
Class RangeOrder := {
  range_of {A : Type} : gmap string A → list (string * A);
  range_of_perm {A : Type} (m : gmap string A) : range_of m ≡ₚ map_to_list m
}.

Module PreviewRegistry.
Import Route PreviewAdmission StreamFrames Ingress HTTP.
Import Browser (dataCarrierPreviewPrivateRouteKind).
Import Carrier (Identity, mkIdentity, id_AccountID, id_HostID, id_TunnelID, id_ConnectorID, id_SessionID, id_ProcessGeneration, id_Generation, Identity_Validate, zeroIdentity).
#[local] Existing Instance Carrier.Identity_eq_dec.

Definition ErrPreviewRegistryInvalid : err := EPlain "invalid data-carrier preview registry entry".
Definition ErrPreviewRegistryClosed : err := EPlain "data-carrier preview registry is closed".
Definition ErrPreviewRegistryConflict : err := EPlain "data-carrier preview route conflicts with an existing route".
Definition ErrPreviewRegistryStale : err := EPlain "stale data-carrier preview route registration".
Definition ErrPreviewRegistryUnavailable : err := EPlain "data-carrier preview carrier unavailable".
Definition ErrPreviewTransport : err := EPlain "data-carrier preview transport failed".
Definition dataCarrierPreviewRouteKind := "preview_public_https_wss".
Definition dataCarrierPreviewMaxRoutes : Z := 4096.

Record DataCarrierPreviewRoute := mkPreview {
  pv_RouteID : string;
  pv_Hostname : string;
  pv_Kind : string;
  pv_Revision : Z;
  pv_Identity : Identity;
  pv_Server : nat;
  pv_PreviewID : string;
  pv_OperationID : string;
  pv_OwnerDeviceID : string;
  pv_OwnerSessionID : string;
  pv_AccessMode : string;
  pv_EdgeNodeID : string;
  pv_EdgeProcessEpoch : string;
  pv_ServerSPKI : string;
  pv_ServerChainPEM : string;
  pv_LeaseGeneration : Z;
  pv_AttachmentGeneration : Z;
  pv_ConfigContentHash : string;
  pv_Endpoint : string;
  pv_ExpiresAt : Time;
  pv_MachineIdentityPublicKey : string;
  pv_MachineIdentityThumbprint : string
}.
#[export] Instance DataCarrierPreviewRoute_eta : Eta DataCarrierPreviewRoute := λ r,
  mkPreview (pv_RouteID r) (pv_Hostname r) (pv_Kind r) (pv_Revision r) (pv_Identity r) (pv_Server r) (pv_PreviewID r) (pv_OperationID r)
    (pv_OwnerDeviceID r) (pv_OwnerSessionID r) (pv_AccessMode r) (pv_EdgeNodeID r) (pv_EdgeProcessEpoch r) (pv_ServerSPKI r)
    (pv_ServerChainPEM r) (pv_LeaseGeneration r) (pv_AttachmentGeneration r) (pv_ConfigContentHash r) (pv_Endpoint r) (pv_ExpiresAt r)
    (pv_MachineIdentityPublicKey r) (pv_MachineIdentityThumbprint r).

Record DataCarrierPreviewAlias := mkAlias {
  al_DomainID : string;
  al_RouteID : string;
  al_Hostname : string;
  al_MatchType : string;
  al_PreviewGeneration : Z;
  al_DomainGeneration : Z;
  al_CertificateGeneration : Z
}.
#[export] Instance DataCarrierPreviewAlias_eta : Eta DataCarrierPreviewAlias := λ a,
  mkAlias (al_DomainID a) (al_RouteID a) (al_Hostname a) (al_MatchType a) (al_PreviewGeneration a) (al_DomainGeneration a) (al_CertificateGeneration a).
#[export] Instance DataCarrierPreviewAlias_eq_dec : EqDecision DataCarrierPreviewAlias.
Proof. solve_decision. Defined.

Record dataCarrierPreviewRouteEntry := mkPreviewEntry {
  pe_route : DataCarrierPreviewRoute;
  pe_host : string;
  pe_done : bool
}.
#[export] Instance dataCarrierPreviewRouteEntry_eta : Eta dataCarrierPreviewRouteEntry := λ e,
  mkPreviewEntry (pe_route e) (pe_host e) (pe_done e).

Record DataCarrierPreviewRegistry := mkPreviewRegistry {
  pr_baseDomain : string;
  pr_processEpoch : string;
  pr_maximum : Z;
  pr_closed : bool;                     (** also the state of the channel [done] *)
  pr_byRoute : gmap string nat;
  pr_byHost : gmap string nat;
  pr_aliasesByID : gmap string DataCarrierPreviewAlias;
  pr_aliasIDsByRoute : gmap string (gset string);
  pr_desiredAliases : gmap string DataCarrierPreviewAlias;
  pr_entries : gmap nat dataCarrierPreviewRouteEntry
}.
#[export] Instance DataCarrierPreviewRegistry_eta : Eta DataCarrierPreviewRegistry := λ r,
  mkPreviewRegistry (pr_baseDomain r) (pr_processEpoch r) (pr_maximum r) (pr_closed r) (pr_byRoute r) (pr_byHost r) (pr_aliasesByID r)
    (pr_aliasIDsByRoute r) (pr_desiredAliases r) (pr_entries r).

(** ** Hosts *)

Section Hosts.
Context `{TextLib}.

Definition normalizePreviewCarrierHost (value : string) : string :=
  let host := lower (TrimSuffix (TrimSpace value) ".") in
  TrimSuffix (match SplitHostPort host with Some (parsed, _) => parsed | None => host end) ".".

Definition validPreviewCarrierHost (value : string) : bool :=
  negb ((value == "") || (253 <? len value) || ContainsAny value [47; 58; 64; 91; 93; 32; 9; 13; 10] || isIP value)
  && forallb admission_label_ok (Split value 46).

Definition previewHostInBaseDomain (host base : string) : bool :=
  match CutSuffix host ("." +:+ base) with
  | Some prefix => (prefix != "") && negb (ContainsByte prefix 46)
  | None => false
  end.

Definition NewDataCarrierPreviewRegistry (baseDomain processEpoch : string) (maximum : Z) : err + DataCarrierPreviewRegistry :=
  let base := normalizePreviewCarrierHost baseDomain in
  let limit := if maximum =? 0 then dataCarrierPreviewMaxRoutes else maximum in
  if (baseDomain != "") && negb (validPreviewCarrierHost base) then inl ErrPreviewRegistryInvalid
  else if (limit <? 1) || (dataCarrierPreviewMaxRoutes <? limit) then inl ErrPreviewRegistryInvalid
  else if failed (ValidateOpaqueEpoch processEpoch) then inl ErrPreviewRegistryInvalid
  else inr (mkPreviewRegistry base processEpoch limit false ∅ ∅ ∅ ∅ ∅ ∅).

Definition PreviewAliasExact := "exact".
Definition PreviewAliasOneLabelWildcard := "one_label_wildcard".

(** [normalize] of an alias. *)
Definition normalize (a : DataCarrierPreviewAlias) : err + DataCarrierPreviewAlias :=
  let a := a <| al_DomainID := TrimSpace (al_DomainID a) |> <| al_RouteID := TrimSpace (al_RouteID a) |>
             <| al_Hostname := normalizePreviewCarrierHost (al_Hostname a) |> in
  if badID (al_DomainID a) || badID (al_RouteID a) || (al_PreviewGeneration a =? 0) || (al_DomainGeneration a =? 0)
     || (al_CertificateGeneration a =? 0)
  then inl ErrPreviewRegistryInvalid
  else if al_MatchType a == PreviewAliasExact
  then if negb (validPreviewCarrierHost (al_Hostname a)) || HasPrefix (al_Hostname a) "*." then inl ErrPreviewRegistryInvalid else inr a
  else if al_MatchType a == PreviewAliasOneLabelWildcard
  then if negb (HasPrefix (al_Hostname a) "*.") || negb (validPreviewCarrierHost (TrimPrefix (al_Hostname a) "*."))
       then inl ErrPreviewRegistryInvalid else inr a
  else inl ErrPreviewRegistryInvalid.
End Hosts.

(** ** Comparing routes *)

Definition sameDataCarrierPreviewRoute (left right : DataCarrierPreviewRoute) : bool :=
  (pv_RouteID left == pv_RouteID right) && (pv_Hostname left == pv_Hostname right) && (pv_Kind left == pv_Kind right)
  && (pv_Revision left =? pv_Revision right) && (pv_Identity left == pv_Identity right) && (pv_Server left == pv_Server right)
  && (pv_PreviewID left == pv_PreviewID right) && (pv_OperationID left == pv_OperationID right)
  && (pv_OwnerDeviceID left == pv_OwnerDeviceID right) && (pv_OwnerSessionID left == pv_OwnerSessionID right)
  && (pv_AccessMode left == pv_AccessMode right) && (pv_EdgeNodeID left == pv_EdgeNodeID right)
  && (pv_EdgeProcessEpoch left == pv_EdgeProcessEpoch right) && (pv_LeaseGeneration left =? pv_LeaseGeneration right)
  && (pv_AttachmentGeneration left =? pv_AttachmentGeneration right) && (pv_ConfigContentHash left == pv_ConfigContentHash right)
  && (pv_Endpoint left == pv_Endpoint right) && (pv_ExpiresAt left =? pv_ExpiresAt right)
  && (pv_MachineIdentityPublicKey left == pv_MachineIdentityPublicKey right)
  && (pv_MachineIdentityThumbprint left == pv_MachineIdentityThumbprint right).

Definition newerDataCarrierPreviewRoute (old next : DataCarrierPreviewRoute) : bool :=
  if (pv_RouteID next != pv_RouteID old) || (pv_Hostname next != pv_Hostname old) || (pv_Kind next != pv_Kind old)
     || (id_AccountID (pv_Identity next) != id_AccountID (pv_Identity old)) || (id_HostID (pv_Identity next) != id_HostID (pv_Identity old))
     || (id_TunnelID (pv_Identity next) != id_TunnelID (pv_Identity old)) || (id_ConnectorID (pv_Identity next) != id_ConnectorID (pv_Identity old))
     || (pv_OperationID next != pv_OperationID old) || (pv_PreviewID next != pv_PreviewID old) || (pv_OwnerDeviceID next != pv_OwnerDeviceID old)
     || (pv_OwnerSessionID next != pv_OwnerSessionID old) || (pv_AccessMode next != pv_AccessMode old) || (pv_EdgeNodeID next != pv_EdgeNodeID old)
  then false
  else if negb (pv_AttachmentGeneration next =? 0) && negb (pv_AttachmentGeneration old =? 0)
          && (pv_AttachmentGeneration next <? pv_AttachmentGeneration old)
  then false
  else if (pv_EdgeProcessEpoch next != pv_EdgeProcessEpoch old)
          || (id_ProcessGeneration (pv_Identity next) <? id_ProcessGeneration (pv_Identity old))
          || (id_Generation (pv_Identity next) <? id_Generation (pv_Identity old))
  then false
  else if (id_ProcessGeneration (pv_Identity next) =? id_ProcessGeneration (pv_Identity old))
          && (id_SessionID (pv_Identity next) != id_SessionID (pv_Identity old))
  then false
  else (pv_AttachmentGeneration old <? pv_AttachmentGeneration next)
       || (id_ProcessGeneration (pv_Identity old) <? id_ProcessGeneration (pv_Identity next))
       || (id_Generation (pv_Identity old) <? id_Generation (pv_Identity next)) || (pv_Revision old <? pv_Revision next).

(** ** Aliases *)

Implicit Types r : DataCarrierPreviewRegistry.

Definition removeAliasLocked (a : DataCarrierPreviewAlias) r : DataCarrierPreviewRegistry :=
  let r := r <| pr_aliasesByID := delete (al_DomainID a) (pr_aliasesByID r) |> <| pr_byHost := delete (al_Hostname a) (pr_byHost r) |> in
  match pr_aliasIDsByRoute r !! al_RouteID a with
  | None => r
  | Some ids =>
      let ids := ids ∖ {[al_DomainID a]} in
      r <| pr_aliasIDsByRoute := if bool_decide (ids = ∅) then delete (al_RouteID a) (pr_aliasIDsByRoute r)
                                 else <[al_RouteID a := ids]> (pr_aliasIDsByRoute r) |>
  end.

(** The body of the loop of [removeAliasesForRouteLocked]. *)
Definition remove_alias_id r (domainID : string) : DataCarrierPreviewRegistry :=
  match pr_aliasesByID r !! domainID with Some a => removeAliasLocked a r | None => r end.

Definition removeAliasesForRouteLocked (routeID : string) r : DataCarrierPreviewRegistry :=
  let r := List.fold_left remove_alias_id (elements (default ∅ (pr_aliasIDsByRoute r !! routeID))) r in
  r <| pr_aliasIDsByRoute := delete routeID (pr_aliasIDsByRoute r) |>.

Definition put_alias (next : DataCarrierPreviewAlias) (i : nat) r : DataCarrierPreviewRegistry :=
  r <| pr_aliasesByID := <[al_DomainID next := next]> (pr_aliasesByID r) |>
    <| pr_aliasIDsByRoute := <[al_RouteID next := {[al_DomainID next]} ∪ default ∅ (pr_aliasIDsByRoute r !! al_RouteID next)]> (pr_aliasIDsByRoute r) |>
    <| pr_byHost := <[al_Hostname next := i]> (pr_byHost r) |>.

(** A change of an attached alias that the registry refuses. *)
Definition alias_regresses (current next : DataCarrierPreviewAlias) : bool :=
  (al_RouteID current != al_RouteID next) || (al_Hostname current != al_Hostname next) || (al_MatchType current != al_MatchType next)
  || (al_PreviewGeneration next <? al_PreviewGeneration current) || (al_DomainGeneration next <=? al_DomainGeneration current)
  || (al_CertificateGeneration next <? al_CertificateGeneration current).

Definition attachAliasLocked (next : DataCarrierPreviewAlias) r : option err * DataCarrierPreviewRegistry :=
  match pr_byRoute r !! al_RouteID next with
  | None => (Some ErrPreviewRegistryStale, r)
  | Some i =>
  match pr_entries r !! i with
  | None => (Some ErrPreviewRegistryStale, r)
  | Some routeEntry =>
  if negb (pv_LeaseGeneration (pe_route routeEntry) =? al_PreviewGeneration next) then (Some ErrPreviewRegistryStale, r)
  else if al_Hostname next == pe_host routeEntry then (Some ErrPreviewRegistryConflict, r)
  else
    let publish r :=
      match pr_byHost r !! al_Hostname next with
      | Some occupied => if occupied != i then (Some ErrPreviewRegistryConflict, r) else (None, put_alias next i r)
      | None => (None, put_alias next i r)
      end in
    match pr_aliasesByID r !! al_DomainID next with
    | Some current =>
        if current == next then (None, r)
        else if alias_regresses current next then (Some ErrPreviewRegistryStale, r)
        else publish (r <| pr_byHost := delete (al_Hostname current) (pr_byHost r) |>)
    | None => publish r
    end
  end
  end.

(** ** Routes *)

Definition close_preview (i : nat) r : DataCarrierPreviewRegistry := r <| pr_entries := alter (λ e, e <| pe_done := true |>) i (pr_entries r) |>.

(** What the four removals of a route share. *)
Definition drop_route (routeID : string) (i : nat) (host : string) r : DataCarrierPreviewRegistry :=
  close_preview i (removeAliasesForRouteLocked routeID (r <| pr_byRoute := delete routeID (pr_byRoute r) |> <| pr_byHost := delete host (pr_byHost r) |>)).

(** [detachEntry], by the goroutine that watches the carrier of the entry. *)
Definition detachEntry (i : nat) r : DataCarrierPreviewRegistry :=
  match pr_entries r !! i with
  | Some e => if bool_decide (pr_byRoute r !! pv_RouteID (pe_route e) = Some i) then drop_route (pv_RouteID (pe_route e)) i (pe_host e) r else r
  | None => r
  end.

(** The registration of a route identifier. *)
Definition current r (routeID : string) : option (nat * dataCarrierPreviewRouteEntry) :=
  match pr_byRoute r !! routeID with
  | Some i => match pr_entries r !! i with Some e => Some (i, e) | None => None end
  | None => None
  end.

Definition Preview_Detach (routeID : string) (identity : Identity) (revision : Z) r : option err * DataCarrierPreviewRegistry :=
  if badID routeID || (revision =? 0) then (Some ErrPreviewRegistryInvalid, r)
  else if pr_closed r then (None, r)
  else match current r routeID with
  | None => (None, r)
  | Some (i, e) =>
      if negb (pv_Revision (pe_route e) =? revision) || (pv_Identity (pe_route e) != identity) then (Some ErrPreviewRegistryStale, r)
      else (None, drop_route routeID i (pe_host e) r)
  end.

(** The registration a server admission stands for. *)
Definition admission_names (a : ExpectedAdmission) (p : DataCarrierPreviewRoute) : bool :=
  (pv_OperationID p == ea_OperationID a) && (pv_AttachmentGeneration p =? ea_AttachmentGeneration a) && (pv_Identity p == ea_Identity a)
  && (pv_Revision p =? ea_RouteRevision a) && (pv_EdgeProcessEpoch p == ea_EdgeProcessEpoch a).

Definition DetachAdmission (a : ExpectedAdmission) r : option err * DataCarrierPreviewRegistry :=
  if badID (ea_RouteID a) || badID (ea_OperationID a) || (ea_AttachmentGeneration a =? 0) then (Some ErrPreviewRegistryInvalid, r)
  else if pr_closed r then (None, r)
  else match current r (ea_RouteID a) with
  | None => (None, r)
  | Some (i, e) => if negb (admission_names a (pe_route e)) then (Some ErrPreviewRegistryStale, r)
                   else (None, drop_route (ea_RouteID a) i (pe_host e) r)
  end.

Definition Preview_Close r : DataCarrierPreviewRegistry :=
  if pr_closed r then r
  else
    let attached := list_to_set (map_to_list (pr_byRoute r)).*2 : gset nat in
    mkPreviewRegistry (pr_baseDomain r) (pr_processEpoch r) (pr_maximum r) true ∅ ∅ ∅ ∅ ∅
      (map_imap (λ i e, Some (if bool_decide (i ∈ attached) then e <| pe_done := true |> else e)) (pr_entries r)).

Section Registry.
Context `{TextLib} `{RangeOrder} (identity_of : nat → Identity).

Definition activateDesiredAliasesForRouteLocked (routeID : string) r : DataCarrierPreviewRegistry :=
  List.fold_left (λ r (kv : string * DataCarrierPreviewAlias), if al_RouteID kv.2 == routeID then (attachAliasLocked kv.2 r).2 else r)
    (range_of (pr_desiredAliases r)) r.

Definition missing_owner (identity : Identity) (p : DataCarrierPreviewRoute) (now : Time) : bool :=
  badID (pv_OperationID p) || badID (pv_PreviewID p) || badID (pv_OwnerDeviceID p) || badID (pv_OwnerSessionID p)
  || (pv_OwnerDeviceID p != id_HostID identity) || (pv_LeaseGeneration p =? 0) || (pv_ConfigContentHash p == "")
  || (pv_Endpoint p == "") || IsZero (pv_ExpiresAt p) || negb (After (pv_ExpiresAt p) now).

Definition validateRoute (p : DataCarrierPreviewRoute) (now : Time) r : err + DataCarrierPreviewRoute :=
  let invalid := inl ErrPreviewRegistryInvalid in
  let private := pv_Kind p == dataCarrierPreviewPrivateRouteKind in
  let public := pv_Kind p == dataCarrierPreviewRouteKind in
  if badID (pv_RouteID p) || (pv_Revision p =? 0) || negb public && negb private then invalid
  else if private && (pv_AccessMode p != "private") && (pv_AccessMode p != "team")
          || public && (pv_AccessMode p != "") && (pv_AccessMode p != "public")
  then invalid
  else if (pv_AccessMode p == "") && private then invalid
  else
    let p := if pv_AccessMode p == "" then p <| pv_AccessMode := "public" |> else p in
    if (pv_AccessMode p != "public") && (pv_AccessMode p != "private") && (pv_AccessMode p != "team") then invalid
    else if failed (ValidateOpaqueEpoch (pv_EdgeProcessEpoch p)) || (pv_EdgeProcessEpoch p != pr_processEpoch r) then invalid
    else
      let host := normalizePreviewCarrierHost (pv_Hostname p) in
      if negb (validPreviewCarrierHost host) || (pr_baseDomain r != "") && negb (previewHostInBaseDomain host (pr_baseDomain r)) then invalid
      else
        let identity := identity_of (pv_Server p) in
        if failed (Identity_Validate identity) then invalid
        else if (pv_Identity p != zeroIdentity) && (pv_Identity p != identity) then invalid
        else
          let p := p <| pv_Hostname := host |> <| pv_Identity := identity |> in
          if negb (pv_AttachmentGeneration p =? 0)
             && (missing_owner identity p now || (pv_MachineIdentityPublicKey p == "") || (pv_MachineIdentityThumbprint p == ""))
          then invalid
          else inr p.

(** The end of [Attach]: the route is entered and its aliases become routable. *)
Definition publish_route (p : DataCarrierPreviewRoute) (host : string) r : DataCarrierPreviewRegistry :=
  let i := fresh (dom (pr_entries r)) in
  activateDesiredAliasesForRouteLocked (pv_RouteID p)
    (r <| pr_entries := <[i := mkPreviewEntry p host false]> (pr_entries r) |>
       <| pr_byRoute := <[pv_RouteID p := i]> (pr_byRoute r) |> <| pr_byHost := <[host := i]> (pr_byHost r) |>).

(** A host that another route occupies. *)
Definition host_taken (host routeID : string) r : bool :=
  match pr_byHost r !! host with
  | Some i => match pr_entries r !! i with Some e => pv_RouteID (pe_route e) != routeID | None => false end
  | None => false
  end.

Definition Preview_Attach (p : DataCarrierPreviewRoute) (now : Time) r : option err * DataCarrierPreviewRegistry :=
  match validateRoute p now r with
  | inl e => (Some e, r)
  | inr validated =>
      let host := normalizePreviewCarrierHost (pv_Hostname validated) in
      let routeID := pv_RouteID validated in
      if pr_closed r then (Some ErrPreviewRegistryClosed, r)
      else match current r routeID with
      | Some (i, old) =>
          if sameDataCarrierPreviewRoute (pe_route old) validated then (None, r)
          else if negb (newerDataCarrierPreviewRoute (pe_route old) validated) then (Some ErrPreviewRegistryStale, r)
          else if host_taken host routeID r then (Some ErrPreviewRegistryConflict, r)
          else
            let r := close_preview i r <| pr_byHost := delete (pe_host old) (pr_byHost r) |> in
            (None, publish_route validated host (removeAliasesForRouteLocked (pv_RouteID (pe_route old)) r))
      | None =>
          if host_taken host routeID r then (Some ErrPreviewRegistryConflict, r)
          else if pr_maximum r <=? Z.of_nat (size (pr_byRoute r)) then (Some ErrPreviewRegistryConflict, r)
          else (None, publish_route validated host r)
      end
  end.

Definition admitted_route (a : ExpectedAdmission) (server : nat) : DataCarrierPreviewRoute :=
  mkPreview (ea_RouteID a) (ea_Hostname a) (ea_RouteKind a) (ea_RouteRevision a) (ea_Identity a) server (ea_PreviewID a) (ea_OperationID a)
    (ea_OwnerDeviceID a) (ea_OwnerSessionID a) (ea_AccessMode a) (ea_EdgeNodeID a) (ea_EdgeProcessEpoch a) (ea_ServerSPKI a)
    (ea_ServerChainPEM a) (ea_LeaseGeneration a) (ea_AttachmentGeneration a) (ea_ConfigContentHash a) (ea_Endpoint a) (ea_ExpiresAt a)
    (ea_MachineIdentityPublicKey a) (ea_MachineIdentityThumbprint a).

Definition AttachAdmission `{RotationMessages.RotationLib} `{FoldLib} (a : ExpectedAdmission) (server : nat) (now : Time) r : option err * DataCarrierPreviewRegistry :=
  if failed (Expected_Validate a now (ea_EdgeNodeID a)) then (Some ErrPreviewRegistryInvalid, r)
  else if identity_of server != ea_Identity a then (Some ErrPreviewRegistryStale, r)
  else Preview_Attach (admitted_route a server) now r.

Definition AttachAlias (a : DataCarrierPreviewAlias) r : option err * DataCarrierPreviewRegistry :=
  match normalize a with
  | inl e => (Some e, r)
  | inr next => if pr_closed r then (Some ErrPreviewRegistryClosed, r) else attachAliasLocked next r
  end.

Definition DetachAlias (a : DataCarrierPreviewAlias) r : option err * DataCarrierPreviewRegistry :=
  match normalize a with
  | inl e => (Some e, r)
  | inr want =>
      match pr_aliasesByID r !! al_DomainID want with
      | None => (None, r)
      | Some current => if current != want then (Some ErrPreviewRegistryStale, r) else (None, removeAliasLocked current r)
      end
  end.

(** The first loop of [ReconcilePreviewAliases]: domains and host names are unique. *)
Fixpoint collect_aliases (aliases : list DataCarrierPreviewAlias) (next : gmap string DataCarrierPreviewAlias) (hosts : gmap string string)
    : err + gmap string DataCarrierPreviewAlias :=
  match aliases with
  | [] => inr next
  | candidate :: aliases =>
      match normalize candidate with
      | inl e => inl e
      | inr a =>
          match next !! al_DomainID a with
          | Some _ => inl ErrPreviewRegistryConflict
          | None =>
              match hosts !! al_Hostname a with
              | Some owner => if owner != al_DomainID a then inl ErrPreviewRegistryConflict
                              else collect_aliases aliases (<[al_DomainID a := a]> next) (<[al_Hostname a := al_DomainID a]> hosts)
              | None => collect_aliases aliases (<[al_DomainID a := a]> next) (<[al_Hostname a := al_DomainID a]> hosts)
              end
          end
      end
  end.

Definition desired_regresses (next : gmap string DataCarrierPreviewAlias) (kv : string * DataCarrierPreviewAlias) : bool :=
  match next !! kv.1 with
  | Some candidate =>
      (al_RouteID candidate != al_RouteID kv.2) || (al_Hostname candidate != al_Hostname kv.2) || (al_MatchType candidate != al_MatchType kv.2)
      || (al_PreviewGeneration candidate <? al_PreviewGeneration kv.2) || (al_DomainGeneration candidate <? al_DomainGeneration kv.2)
      || (al_CertificateGeneration candidate <? al_CertificateGeneration kv.2)
  | None => false
  end.

(** The loop over the attached aliases. *)
Definition prune_aliases (next : gmap string DataCarrierPreviewAlias) r : DataCarrierPreviewRegistry :=
  List.fold_left (λ r (kv : string * DataCarrierPreviewAlias), if bool_decide (next !! kv.1 = Some kv.2) then r else removeAliasLocked kv.2 r)
    (range_of (pr_aliasesByID r)) r.

Definition ReconcilePreviewAliases (aliases : list DataCarrierPreviewAlias) r : option err * DataCarrierPreviewRegistry :=
  match collect_aliases aliases ∅ ∅ with
  | inl e => (Some e, r)
  | inr next =>
      if pr_closed r then (Some ErrPreviewRegistryClosed, r)
      else if existsb (desired_regresses next) (range_of (pr_desiredAliases r)) then (Some ErrPreviewRegistryStale, r)
      else
        let r := prune_aliases next r <| pr_desiredAliases := next |> in
        (None, List.fold_left (λ r (kv : string * nat), activateDesiredAliasesForRouteLocked kv.1 r) (range_of (pr_byRoute r)) r)
  end.

(** ** Finding a route *)

Definition lookupHostLocked (host : string) r : option nat :=
  match pr_byHost r !! host with
  | Some i => Some i
  | None =>
      match IndexByte (sbytes host) 46 with
      | None => None
      | Some dot =>
          if (Z.of_nat dot <=? 0) || (Z.of_nat dot =? len host - 1) then None
          else pr_byHost r !! ("*." +:+ bstring (drop (S dot) (sbytes host)))
      end
  end.

(** [acquire]: the route as found under the host, with the entry whose channel ends it. *)
Definition Preview_acquire (host : string) r : option (DataCarrierPreviewRoute * nat) :=
  let normalized := normalizePreviewCarrierHost host in
  match lookupHostLocked normalized r with
  | None => None
  | Some i => match pr_entries r !! i with Some e => Some (pe_route e <| pv_Hostname := normalized |>, i) | None => None end
  end.

Definition Lookup (host : string) r : option DataCarrierPreviewRoute := fst <$> Preview_acquire host r.

Definition expired_at (now : Time) (p : DataCarrierPreviewRoute) : bool := negb (IsZero (pv_ExpiresAt p)) && negb (After (pv_ExpiresAt p) now).

Section Carriers.
(** Which carriers have ended. *)
Context (ended : nat → bool).

Definition Preview_RouteState (host : string) (now : Time) r : option (string * string * string) :=
  match Lookup host r with
  | None => None
  | Some p => if expired_at now p then Some (pv_Kind p, "expired", "attachment_expired")
              else if ended (pv_Server p) then None else Some (pv_Kind p, "ready", "")
  end.

Definition Preview_Snapshot r : list DataCarrierPreviewRoute :=
  sort_by pv_OperationID (sort_by pv_RouteID (omap (λ kv : string * nat, pe_route <$> pr_entries r !! kv.2) (range_of (pr_byRoute r)))).

(** *** The matcher *)

Definition validPreviewMatcherPath (requestPath : string) : bool :=
  (requestPath != "") && HasPrefix requestPath "/" && negb (ContainsAny requestPath [13; 10; 0; 63; 35]) && negb (ContainsDouble requestPath 47).

Definition matcher_lookup (host requestPath : string) (now : Time) r : option (DataCarrierPreviewRoute * nat) :=
  if negb (validPreviewMatcherPath requestPath) then None
  else match Preview_acquire host r with
  | None => None
  | Some (p, i) =>
      if (pv_Kind p != dataCarrierPreviewRouteKind) && (pv_Kind p != dataCarrierPreviewPrivateRouteKind) || expired_at now p then None
      else if ended (pv_Server p) then None else Some (p, i)
  end.

Definition previewRouteMatch (p : DataCarrierPreviewRoute) : RouteMatch :=
  let generation := if pv_AttachmentGeneration p =? 0 then id_Generation (pv_Identity p) else pv_AttachmentGeneration p in
  let kind := if pv_Kind p == dataCarrierPreviewPrivateRouteKind then dataCarrierPreviewPrivateRouteKind else PreviewHTTPSWSS in
  let i := pv_Identity p in
  mkMatch
    (mkRule (pv_RouteID p) (pv_Revision p) generation "" 0 "" (pv_LeaseGeneration p) "preview" (pv_LeaseGeneration p) (pv_PreviewID p)
       (id_AccountID i) (id_HostID i) "" "" (pv_PreviewID p) (id_ConnectorID i) (id_SessionID i) (id_ProcessGeneration i) (id_Generation i) ""
       (pv_EdgeNodeID p) (pv_EdgeProcessEpoch p) "" kind MatchExact (pv_Hostname p) "" "/" 0 (pv_Endpoint p) "https" "" 0 "http"
       (pv_AccessMode p) true "" "active" "ready" "")
    (pv_Hostname p) "/" generation.

Definition with_path (m : RouteMatch) (requestPath : string) : RouteMatch := mkMatch (rm_Rule m) (rm_Host m) requestPath (rm_Generation m).

Definition Matcher_Match (host requestPath : string) (now : Time) r : error + RouteMatch :=
  match matcher_lookup host requestPath now r with
  | None => inl ErrNoMatch
  | Some (p, _) => inr (with_path (previewRouteMatch p) requestPath)
  end.

(** A lease with what its goroutine waits for. *)
Record previewLease := mkPreviewLease {
  vl_match : RouteMatch;
  vl_server : nat;
  vl_entry : nat
}.

Definition Matcher_Acquire (host requestPath : string) (now : Time) r : error + previewLease :=
  match matcher_lookup host requestPath now r with
  | None => inl ErrNoMatch
  | Some (p, i) => inr (mkPreviewLease (with_path (previewRouteMatch p) requestPath) (pv_Server p) i)
  end.

(** The goroutine cancels the context of the lease. *)
Definition lease_cancelled (l : previewLease) r : bool :=
  ended (vl_server l) || match pr_entries r !! vl_entry l with Some e => pe_done e | None => false end.

(** ** Opening a stream *)

Definition previewStreamKind `{FoldLib} (h : Header) : string :=
  if EqualFold (TrimSpace (Get h "Upgrade")) "websocket" then "websocket"
  else if HasPrefix (lower (Get h "Content-Type")) "application/grpc" then "grpc"
  else "https".

(** A decision about another preview than the one of the route. *)
Definition decision_foreign (p : DataCarrierPreviewRoute) (d : IngressDecision) : bool :=
  let b := ig_Binding d in
  (ib_Audience b != pv_AccessMode p) || (ib_PublicationID b != pv_PreviewID p) || (ib_Hostname b != pv_Hostname p)
  || negb (ib_RouteGeneration b =? pv_Revision p).

Definition preview_open (p : DataCarrierPreviewRoute) (n : Z) (kind : string) : StreamOpen :=
  let i := pv_Identity p in
  mkOpen ProtocolName ProtocolVersion (id_AccountID i) (id_TunnelID i) (id_ConnectorID i) (id_SessionID i) (id_ProcessGeneration i)
    (id_Generation i) (pv_RouteID p) ("preview-http-" +:+ Itoa n) kind.

Definition interrupted (e : err) : bool := Is e "context canceled" || Is e "context deadline exceeded".

Record previewStream := mkPreviewStream {
  ps_server : nat;
  ps_open : StreamOpen;
  ps_decision : option IngressDecision
}.

(** [RoundTrip] up to the point where the request is written: [host] is the host of the
    request or of its URL, [browser] the decision in its context, [stream] and [frame] what
    opening the stream and writing the decision answered, and [n] the counter of the
    transport after it was advanced. *)
Definition RoundTrip_open `{FoldLib} `{AddrLib} (ctxErr : option err) (host : string) (h : Header) (browser : option IngressDecision)
    (stream frame : option err) (now : Time) (n : Z) r : err + previewStream :=
  match ctxErr with
  | Some e => inl e
  | None =>
      match Lookup host r with
      | None => inl (EWrap "" ErrPreviewRegistryUnavailable)
      | Some p =>
          if expired_at now p then inl (EWrap "" ErrPreviewRegistryUnavailable)
          else
            let restricted := (pv_AccessMode p == "private") || (pv_AccessMode p == "team") in
            let opened open decision :=
              match stream with
              | Some e => inl (if interrupted e then e else EJoin ErrPreviewTransport e)
              | None => match decision, frame with
                        | Some _, Some e => inl e
                        | _, _ => inr (mkPreviewStream (pv_Server p) open decision)
                        end
              end in
            match restricted, browser with
            | true, None => inl ErrPreviewTransport
            | true, Some d =>
                let open := preview_open p n "http_browser" in
                if decision_foreign p d then inl ErrPreviewTransport
                else if failed (Decision_Authorize d d open (pv_EdgeNodeID p) (pv_EdgeProcessEpoch p) now) then inl ErrPreviewTransport
                else opened open (Some d)
            | false, Some _ => inl ErrPreviewTransport
            | false, None => opened (preview_open p n (previewStreamKind h)) None
            end
      end
  end.

End Carriers.
End Registry.

(** ** The limit on response headers *)

Record boundedHeaderReader := mkHeaderReader {
  hr_read : Z;
  hr_matched : nat;
  hr_ended : bool
}.

Definition separator : list Z := [13; 10; 13; 10].

(** One byte of the loop in [Read]; [None] is the error. *)
Definition header_byte (maximum : Z) (s : boundedHeaderReader) (b : byte) : option boundedHeaderReader :=
  let s := mkHeaderReader (hr_read s + 1) (hr_matched s) (hr_ended s) in
  if maximum <? hr_read s then None
  else if bool_decide (separator !! hr_matched s = Some (byte_to_Z b))
  then Some (mkHeaderReader (hr_read s) (S (hr_matched s)) (bool_decide (S (hr_matched s) = length separator)))
  else if byte_to_Z b =? 13 then Some (mkHeaderReader (hr_read s) 1 (hr_ended s))
  else Some (mkHeaderReader (hr_read s) 0 (hr_ended s)).

(** [Read] on the bytes the stream returned: all of them pass, or none. *)
Fixpoint header_scan (maximum : Z) (s : boundedHeaderReader) (b : bytes) : option boundedHeaderReader :=
  match b with
  | [] => Some s
  | c :: b =>
      match header_byte maximum s c with
      | None => None
      | Some s => if hr_ended s then Some s else header_scan maximum s b
      end
  end.

Definition header_Read (maximum : Z) (s : boundedHeaderReader) (chunk : bytes) : option boundedHeaderReader :=
  if hr_ended s then Some s else header_scan maximum s chunk.

Definition new_header_reader : boundedHeaderReader := mkHeaderReader 0 0 false.

End PreviewRegistry.
