(* ===== verification/PreviewRegistryProofs.v ===== *)
(** * Invariants of the preview registry

    Two invariants of the registry of preview routes: one that every operation keeps, and a
    stronger one for the operations the worker uses, where aliases are only installed as a
    whole.  Removing a route and replacing it are first put in a form in which its aliases
    go before the route does. *)
From S2P Require Import Prelude Go Strings Protocol Route RotationMessages StreamFrames Carrier PreviewAdmission Ingress HTTP PreviewRegistry.

Module PreviewRegistryProofs.
Import Route PreviewAdmission StreamFrames Ingress HTTP PreviewRegistry.
Import Carrier (Identity, Identity_Validate).
#[local] Existing Instance Carrier.Identity_eq_dec.

Implicit Types r : DataCarrierPreviewRegistry.
#[local] Arguments removeAliasesForRouteLocked : simpl never.
#[local] Arguments removeAliasLocked : simpl never.
#[local] Arguments attachAliasLocked : simpl never.
#[local] Arguments drop_route : simpl never.

(** ** What the alias operations leave alone *)

(** The fields of a registry that alias operations do not touch. *)
Record same_routes r r' : Prop := {
  sr_byRoute : pr_byRoute r' = pr_byRoute r;
  sr_entries : pr_entries r' = pr_entries r;
  sr_desired : pr_desiredAliases r' = pr_desiredAliases r;
  sr_closed : pr_closed r' = pr_closed r;
  sr_epoch : pr_processEpoch r' = pr_processEpoch r;
  sr_maximum : pr_maximum r' = pr_maximum r
}.

#[export] Instance same_routes_preorder : PreOrder same_routes.
Proof. split; [done|]. intros r1 r2 r3 [] []. split; congruence. Qed.

Lemma removeAlias_routes a r : same_routes r (removeAliasLocked a r).
Proof. unfold removeAliasLocked. destruct (_ !! _); by split. Qed.

Lemma fold_routes {A} (f : DataCarrierPreviewRegistry → A → DataCarrierPreviewRegistry) l r :
  (∀ r x, same_routes r (f r x)) → same_routes r (List.fold_left f l r).
Proof. intros Hf. revert r. induction l as [|x l IH]; intros r; [done|]. cbn. etransitivity; [apply Hf|apply IH]. Qed.

Lemma removeAliases_routes id r : same_routes r (removeAliasesForRouteLocked id r).
Proof.
  unfold removeAliasesForRouteLocked. set (r1 := List.fold_left _ _ r). transitivity r1; [|by split].
  apply (fold_routes remove_alias_id). intros r' d. unfold remove_alias_id. destruct (_ !! d); [apply removeAlias_routes|done].
Qed.

Lemma attachAlias_routes a r : same_routes r (attachAliasLocked a r).2.
Proof.
  unfold attachAliasLocked. destruct (_ !! _) as [i|]; [|done]. destruct (_ !! i) as [e|]; [|done].
  destruct (negb _); [done|]. destruct (_ == _); [done|].
  destruct (pr_aliasesByID r !! _) as [c|].
  - destruct (c == a); [done|]. destruct (alias_regresses _ _); [done|]. cbn. rewrite lookup_delete. destruct (decide _); [by split|].
    destruct (_ !! _); [destruct (_ != _)|]; by split.
  - destruct (_ !! _); [destruct (_ != _)|]; by split.
Qed.

Section Activation.
Context `{RangeOrder}.

Lemma activate_routes id r : same_routes r (activateDesiredAliasesForRouteLocked id r).
Proof.
  apply (fold_routes (λ r (kv : string * DataCarrierPreviewAlias), if al_RouteID kv.2 == id then (attachAliasLocked kv.2 r).2 else r)).
  intros r' kv. destruct (_ == _); [apply attachAlias_routes|done].
Qed.
End Activation.

Lemma current_same r r' id : same_routes r r' → current r' id = current r id.
Proof. intros [Hb He _ _ _ _]. unfold current. by rewrite Hb, He. Qed.

Lemma current_Some r id i e : current r id = Some (i, e) ↔ pr_byRoute r !! id = Some i ∧ pr_entries r !! i = Some e.
Proof.
  unfold current. destruct (pr_byRoute r !! id) as [j|]; [|naive_solver]. destruct (pr_entries r !! j) as [e'|] eqn:E; naive_solver.
Qed.

(** ** The invariant *)

Section Invariant.
Context `{TextLib} `{RangeOrder} (identity_of : nat → Identity).

(** A route that passed validation. *)
Record checked (epoch : string) (p : DataCarrierPreviewRoute) : Prop := {
  ck_identity : pv_Identity p = identity_of (pv_Server p);
  ck_valid : Identity_Validate (pv_Identity p) = None;
  ck_epoch : pv_EdgeProcessEpoch p = epoch;
  ck_id : badID (pv_RouteID p) = false ∧ pv_Revision p ≠ 0;
  ck_host : validPreviewCarrierHost (pv_Hostname p) = true;
  ck_mode : pv_Kind p = dataCarrierPreviewRouteKind ∧ pv_AccessMode p = "public"
            ∨ pv_Kind p = Browser.dataCarrierPreviewPrivateRouteKind ∧ (pv_AccessMode p = "private" ∨ pv_AccessMode p = "team")
}.

Definition normal (a : DataCarrierPreviewAlias) : Prop := ∃ raw, normalize raw = inr a.

Record vinv r : Prop := {
  v_route id i : pr_byRoute r !! id = Some i →
    ∃ e, pr_entries r !! i = Some e ∧ pv_RouteID (pe_route e) = id ∧ pe_done e = false
      ∧ checked (pr_processEpoch r) (pe_route e) ∧ pe_host e = normalizePreviewCarrierHost (pv_Hostname (pe_route e));
  v_open i e : pr_entries r !! i = Some e → pe_done e = false → pr_byRoute r !! pv_RouteID (pe_route e) = Some i;
  v_host h i : pr_byHost r !! h = Some i →
    ∃ e, pr_entries r !! i = Some e ∧ pr_byRoute r !! pv_RouteID (pe_route e) = Some i
      ∧ (h = pe_host e ∨ ∃ d a, pr_aliasesByID r !! d = Some a ∧ al_Hostname a = h ∧ al_RouteID a = pv_RouteID (pe_route e));
  v_alias d a : pr_aliasesByID r !! d = Some a →
    al_DomainID a = d ∧ normal a
    ∧ ∃ i e, current r (al_RouteID a) = Some (i, e) ∧ pv_LeaseGeneration (pe_route e) = al_PreviewGeneration a ∧ al_Hostname a ≠ pe_host e;
  v_listed d a : pr_aliasesByID r !! d = Some a → ∃ ids, pr_aliasIDsByRoute r !! al_RouteID a = Some ids ∧ d ∈ ids;
  v_ids id ids d : pr_aliasIDsByRoute r !! id = Some ids → d ∈ ids → ∃ a, pr_aliasesByID r !! d = Some a ∧ al_RouteID a = id;
  v_desired d a : pr_desiredAliases r !! d = Some a → al_DomainID a = d ∧ normal a;
  v_maximum : Z.of_nat (size (pr_byRoute r)) ≤ pr_maximum r;
  v_closed : pr_closed r = true → pr_byRoute r = ∅
}.

(** *** Removing aliases *)

Lemma removeAlias_ids a r id :
  pr_aliasIDsByRoute (removeAliasLocked a r) !! id =
  if decide (id = al_RouteID a)
  then match pr_aliasIDsByRoute r !! id with
       | Some ids => if decide (ids ∖ {[al_DomainID a]} = ∅) then None else Some (ids ∖ {[al_DomainID a]})
       | None => None
       end
  else pr_aliasIDsByRoute r !! id.
Proof.
  unfold removeAliasLocked. cbn. destruct (pr_aliasIDsByRoute r !! al_RouteID a) as [ids|] eqn:E; cbn.
  - destruct (decide (id = al_RouteID a)) as [->|Hne].
    + rewrite E. case_bool_decide as Hd; destruct (decide _) as [Hd'|Hd']; try done; [by rewrite lookup_delete_eq|by rewrite lookup_insert_eq].
    + case_bool_decide; [by rewrite lookup_delete_ne|by rewrite lookup_insert_ne].
  - destruct (decide _) as [->|]; [by rewrite E|done].
Qed.

Lemma removeAlias_aliases a r : pr_aliasesByID (removeAliasLocked a r) = delete (al_DomainID a) (pr_aliasesByID r).
Proof. unfold removeAliasLocked. cbn. by destruct (_ !! _). Qed.

Lemma removeAlias_hosts a r : pr_byHost (removeAliasLocked a r) = delete (al_Hostname a) (pr_byHost r).
Proof. unfold removeAliasLocked. cbn. by destruct (_ !! _). Qed.

Lemma removeAlias_inv a r : vinv r → pr_aliasesByID r !! al_DomainID a = Some a → vinv (removeAliasLocked a r).
Proof.
  intros Hv Ha. pose proof (removeAlias_routes a r) as Hs. pose proof Hs as [Hb He Hd Hc Hp Hm].
  split.
  - intros id i. rewrite Hb, He, Hp. apply Hv.
  - intros i e. rewrite Hb, He. apply Hv.
  - intros h i. rewrite removeAlias_hosts, removeAlias_aliases, He, Hb. intros [Hne Hh]%lookup_delete_Some.
    destruct (v_host _ Hv h i Hh) as (e & Hi & Hcur & [Ho|(d & a' & Ha' & Hh' & Hr)]); exists e; split_and!; auto.
    right. exists d, a'. split_and!; auto. apply lookup_delete_Some. split; [|done]. intros <-. congruence.
  - intros d a'. rewrite removeAlias_aliases. intros [Hne Ha']%lookup_delete_Some.
    destruct (v_alias _ Hv d a' Ha') as (? & ? & i & e & Hcur & ?). split_and!; auto. exists i, e. by rewrite (current_same r).
  - intros d a'. rewrite removeAlias_aliases. intros [Hne Ha']%lookup_delete_Some.
    destruct (v_listed _ Hv d a' Ha') as (ids & Hi & Hin). rewrite removeAlias_ids. destruct (decide _) as [E|]; [|eauto].
    rewrite Hi. destruct (decide _) as [E'|]; [exfalso; set_solver|]. eexists. split; [done|]. set_solver.
  - intros id ids d. rewrite removeAlias_ids, removeAlias_aliases. intros Hi Hin.
    assert (∃ ids0, pr_aliasIDsByRoute r !! id = Some ids0 ∧ d ∈ ids0 ∧ (id = al_RouteID a → d ≠ al_DomainID a)) as (ids0 & Hi0 & Hin0 & Hne).
    { destruct (decide _) as [->|]; [|naive_solver]. destruct (pr_aliasIDsByRoute r !! _) as [ids0|]; [|done]. destruct (decide (_ = ∅)); [done|]. injection Hi as <-.
      exists ids0. set_solver. }
    destruct (v_ids _ Hv id ids0 d Hi0 Hin0) as (a' & Ha' & Hr). exists a'. split; [|done]. apply lookup_delete_Some. split; [|done].
    intros <-. rewrite Ha in Ha'. injection Ha' as <-. by apply Hne.
  - intros d a'. rewrite Hd. apply Hv.
  - rewrite Hb, Hm. apply Hv.
  - rewrite Hb, Hc. apply Hv.
Qed.

(** The aliases that are left after some domains were removed. *)
Lemma remove_ids_spec l r :
  vinv r → let r' := List.fold_left remove_alias_id l r in
  vinv r' ∧ (∀ d a, pr_aliasesByID r' !! d = Some a ↔ pr_aliasesByID r !! d = Some a ∧ d ∉ l)
  ∧ (∀ h i, pr_byHost r' !! h = Some i ↔ pr_byHost r !! h = Some i ∧ ∀ d a, d ∈ l → pr_aliasesByID r !! d = Some a → al_Hostname a ≠ h).
Proof.
  revert r. induction l as [|d l IH]; intros r Hv; cbn.
  { split_and!; [done| |]; intros; [split; [|by intros [? _]]|split; [|by intros [? _]]]; intros ?; (split; [done|]); [by intros ?%not_elem_of_nil|by intros ?? ?%not_elem_of_nil]. }
  assert (vinv (remove_alias_id r d)) as Hv1.
  { unfold remove_alias_id. destruct (_ !! d) as [a|] eqn:E; [|done]. pose proof (v_alias _ Hv d a E) as [<- _]. by apply removeAlias_inv. }
  assert (∀ d' a, pr_aliasesByID (remove_alias_id r d) !! d' = Some a ↔ pr_aliasesByID r !! d' = Some a ∧ d' ≠ d) as Ha1.
  { intros d' a. unfold remove_alias_id. destruct (_ !! d) as [b|] eqn:E.
    - pose proof (v_alias _ Hv d b E) as [<- _]. rewrite removeAlias_aliases, lookup_delete_Some. naive_solver.
    - split; [|naive_solver]. intros ?. split; [done|]. congruence. }
  assert (∀ h i, pr_byHost (remove_alias_id r d) !! h = Some i ↔ pr_byHost r !! h = Some i ∧ ∀ a, pr_aliasesByID r !! d = Some a → al_Hostname a ≠ h) as Hh1.
  { intros h i. unfold remove_alias_id. destruct (_ !! d) as [b|] eqn:E; [|naive_solver]. rewrite removeAlias_hosts, lookup_delete_Some. naive_solver. }
  destruct (IH _ Hv1) as (Hv2 & Ha2 & Hh2). split_and!; [done| |].
  - intros d' a. rewrite Ha2, Ha1, not_elem_of_cons. naive_solver.
  - intros h i. rewrite Hh2, Hh1. split.
    + intros [[Hh Hd] Hl]. split; [done|]. intros d' a [->|Hin]%elem_of_cons Ha; [by apply Hd|].
      destruct (decide (d' = d)) as [->|Hne]; [by apply Hd|]. apply (Hl d'); [done|]. by apply Ha1.
    + intros [Hh Hl]. split_and!; [done| |].
      * intros a Ha. apply (Hl d); [by left|done].
      * intros d' a Hin [Ha _]%Ha1. apply (Hl d'); [by right|done].
Qed.

Lemma removeAliases_spec id r :
  vinv r → let r' := removeAliasesForRouteLocked id r in
  vinv r' ∧ (∀ d a, pr_aliasesByID r' !! d = Some a ↔ pr_aliasesByID r !! d = Some a ∧ al_RouteID a ≠ id)
  ∧ (∀ h i, pr_byHost r' !! h = Some i ↔ pr_byHost r !! h = Some i ∧ ∀ d a, pr_aliasesByID r !! d = Some a → al_RouteID a = id → al_Hostname a ≠ h).
Proof.
  intros Hv. unfold removeAliasesForRouteLocked. set (l := elements (default ∅ (pr_aliasIDsByRoute r !! id))).
  assert (∀ d a, pr_aliasesByID r !! d = Some a → d ∈ l ↔ al_RouteID a = id) as Hl.
  { intros d a Ha. unfold l. rewrite elem_of_elements. split.
    - destruct (_ !! id) as [ids|] eqn:E; cbn; [|set_solver]. intros Hin. destruct (v_ids _ Hv id ids d E Hin) as (a' & Ha' & <-). congruence.
    - intros <-. destruct (v_listed _ Hv d a Ha) as (ids & -> & Hin). done. }
  destruct (remove_ids_spec l r Hv) as (Hv1 & Ha1 & Hh1). cbn. cbn in Hv1, Ha1, Hh1. set (r1 := List.fold_left remove_alias_id l r) in *.
  assert (∀ d a, pr_aliasesByID r1 !! d = Some a → al_RouteID a ≠ id) as Hno.
  { intros d a [Ha Hd]%Ha1 Hr. by apply Hd, (Hl d a Ha). }
  split_and!.
  - destruct Hv1 as [V1 V2 V3 V4 V5 V6 V7 V8 V9]. split; try done; cbn.
    + intros d a Ha. destruct (V5 d a Ha) as (ids & Hi & Hin). exists ids. split; [|done]. rewrite lookup_delete_ne; [done|].
      intros E. by apply (Hno d a Ha).
    + intros id' ids d [_ Hi]%lookup_delete_Some. by apply V6.
  - intros d a. rewrite Ha1. split; intros [Ha Hd]; (split; [done|]); intros Hx; apply Hd; by apply (Hl d a Ha).
  - intros h i. rewrite Hh1. split; intros [Hh Hd]; (split; [done|]).
    + intros d a Ha Hr. apply (Hd d a); [by apply (Hl d a)|done].
    + intros d a Hin Ha. apply (Hd d a Ha). by apply (Hl d a).
Qed.

(** *** Removing a route *)

(** Changes of the route index, one host and the heap, which commute with removing aliases. *)
Definition relink (f : gmap string nat → gmap string nat) (host : string) (g : gmap nat dataCarrierPreviewRouteEntry → gmap nat dataCarrierPreviewRouteEntry) r
    : DataCarrierPreviewRegistry :=
  r <| pr_byRoute := f (pr_byRoute r) |> <| pr_byHost := delete host (pr_byHost r) |> <| pr_entries := g (pr_entries r) |>.

Lemma relink_removeAlias f host g a r : removeAliasLocked a (relink f host g r) = relink f host g (removeAliasLocked a r).
Proof.
  unfold removeAliasLocked, relink. cbn. rewrite delete_delete. by destruct (pr_aliasIDsByRoute r !! _).
Qed.

Lemma relink_removeAliases f host g id r :
  removeAliasesForRouteLocked id (relink f host g r) = relink f host g (removeAliasesForRouteLocked id r).
Proof.
  unfold removeAliasesForRouteLocked. change (pr_aliasIDsByRoute (relink f host g r)) with (pr_aliasIDsByRoute r).
  generalize (elements (default ∅ (pr_aliasIDsByRoute r !! id))). intros l.
  assert (List.fold_left remove_alias_id l (relink f host g r) = relink f host g (List.fold_left remove_alias_id l r)) as ->; [|done].
  revert r. induction l as [|d l IH]; intros r; [done|]. cbn. rewrite <- IH. f_equal. unfold remove_alias_id. cbn.
  destruct (_ !! d); [apply relink_removeAlias|done].
Qed.

Definition ending (i : nat) : gmap nat dataCarrierPreviewRouteEntry → gmap nat dataCarrierPreviewRouteEntry := alter (λ e, e <| pe_done := true |>) i.

Lemma drop_route_eq id i host r : drop_route id i host r = relink (delete id) host (ending i) (removeAliasesForRouteLocked id r).
Proof.
  unfold drop_route. change (r <| pr_byRoute := delete id (pr_byRoute r) |> <| pr_byHost := delete host (pr_byHost r) |>) with (relink (delete id) host (λ x, x) r).
  by rewrite relink_removeAliases.
Qed.

Lemma drop_current id i host r id' :
  vinv r → pr_byRoute r !! id = Some i → current (drop_route id i host r) id' = if decide (id' = id) then None else current r id'.
Proof.
  intros Hv Hi. rewrite drop_route_eq. pose proof (removeAliases_routes id r) as Hs. unfold current. cbn. rewrite (sr_byRoute _ _ Hs), (sr_entries _ _ Hs).
  destruct (decide (id' = id)) as [->|Hne]; [by rewrite lookup_delete_eq|]. rewrite lookup_delete_ne by done.
  destruct (pr_byRoute r !! id') as [j|] eqn:Hj; [|done]. unfold ending. rewrite lookup_alter_ne; [done|]. intros ->.
  destruct (v_route _ Hv _ _ Hi) as (e & He & Hr & _), (v_route _ Hv _ _ Hj) as (e' & He' & Hr' & _). congruence.
Qed.

Lemma drop_inv id i e r : vinv r → current r id = Some (i, e) → vinv (drop_route id i (pe_host e) r).
Proof.
  intros Hv [Hid Hi]%current_Some. destruct (v_route _ Hv _ _ Hid) as (e0 & He0 & Hrid & _). rewrite Hi in He0. injection He0 as <-.
  pose proof (drop_current id i (pe_host e) r) as Hcur. rewrite drop_route_eq in *. destruct (removeAliases_spec id r Hv) as (Hv1 & Ha & _).
  pose proof (removeAliases_routes id r) as Hs. set (r1 := removeAliasesForRouteLocked id r) in *.
  assert (∀ d a, pr_aliasesByID r1 !! d = Some a → al_RouteID a ≠ id) as Hno by (intros d a [_ ?]%Ha; done).
  rewrite <- (sr_byRoute _ _ Hs) in Hid. rewrite <- (sr_entries _ _ Hs) in Hi.
  split; cbn; unfold ending.
  - intros id' j [Hne Hj]%lookup_delete_Some. destruct (v_route _ Hv1 _ _ Hj) as (e' & He' & Hr' & Hrest). exists e'. split; [|done].
    rewrite lookup_alter_ne; [done|]. intros ->. congruence.
  - intros j e'. rewrite lookup_alter_Some. intros [(-> & e1 & _ & ->)|[Hne He']]; [done|]. intros Hd. apply lookup_delete_Some.
    pose proof (v_open _ Hv1 _ _ He' Hd) as Hj. split; [|done]. intros E. congruence.
  - intros h j [Hne Hj]%lookup_delete_Some. destruct (v_host _ Hv1 _ _ Hj) as (e' & He' & Hr' & Hor).
    assert (j ≠ i) as Hji. { intros ->. rewrite Hi in He'. injection He' as <-. destruct Hor as [->|(d & a & Hda & _ & Hr)]; [done|]. by apply (Hno d a Hda); rewrite Hr. }
    exists e'. split_and!; [by rewrite lookup_alter_ne| |done]. apply lookup_delete_Some. split; [|done]. intros E. congruence.
  - intros d a Hda. destruct (v_alias _ Hv1 d a Hda) as (? & ? & j & e' & Hc & ?). split_and!; [done|done|]. exists j, e'. split; [|done].
    rewrite Hcur by (try done; by rewrite <- (sr_byRoute _ _ Hs)). rewrite decide_False by (by apply (Hno d a)). by rewrite <- (current_same r r1).
  - apply (v_listed _ Hv1).
  - apply (v_ids _ Hv1).
  - apply (v_desired _ Hv1).
  - pose proof (v_maximum _ Hv1). pose proof (map_size_delete id (pr_byRoute r1)) as Hsz. rewrite Hid in Hsz. lia.
  - intros Hcl. rewrite (v_closed _ Hv1 Hcl), delete_empty. done.
Qed.

(** *** Attaching an alias *)

(** What [attachAliasLocked] needs to publish an alias on entry [i]. *)
Record publishable (next : DataCarrierPreviewAlias) (i : nat) r : Prop := {
  pb_route : ∃ e, current r (al_RouteID next) = Some (i, e) ∧ pv_LeaseGeneration (pe_route e) = al_PreviewGeneration next ∧ al_Hostname next ≠ pe_host e;
  pb_prior c : pr_aliasesByID r !! al_DomainID next = Some c → al_RouteID c = al_RouteID next ∧ al_Hostname c = al_Hostname next
}.

Lemma attachAlias_cases next r :
  (∃ e, attachAliasLocked next r = (Some e, r))
  ∨ (attachAliasLocked next r = (None, r) ∧ pr_aliasesByID r !! al_DomainID next = Some next)
  ∨ ∃ i, attachAliasLocked next r = (None, put_alias next i r) ∧ publishable next i r
      ∧ (pr_aliasesByID r !! al_DomainID next = None → ∀ j, pr_byHost r !! al_Hostname next = Some j → j = i).
Proof.
  unfold attachAliasLocked. destruct (pr_byRoute r !! _) as [i|] eqn:Ei; [|eauto]. destruct (pr_entries r !! i) as [e|] eqn:Ee; [|eauto].
  destruct (pv_LeaseGeneration (pe_route e) =? al_PreviewGeneration next) eqn:El; cbn; [|eauto]. apply Z.eqb_eq in El.
  case_bool_decide as Eh; [eauto|].
  assert (∃ e, current r (al_RouteID next) = Some (i, e) ∧ pv_LeaseGeneration (pe_route e) = al_PreviewGeneration next ∧ al_Hostname next ≠ pe_host e) as Hr.
  { exists e. split; [by apply current_Some|done]. }
  destruct (pr_aliasesByID r !! al_DomainID next) as [c|] eqn:Ec.
  - case_bool_decide as Ecn; [right; left; by subst|]. destruct (alias_regresses c next) eqn:Er; [eauto|]. unfold alias_regresses in Er. bools.
    assert (al_Hostname c = al_Hostname next) as Ech by done. cbn. rewrite Ech, lookup_delete_eq. right. right. exists i. split_and!; [|split; [done|]|done].
    + unfold put_alias. cbn. by rewrite insert_delete_eq.
    + intros c' E'. rewrite Ec in E'. by injection E' as <-.
  - destruct (pr_byHost r !! al_Hostname next) as [j|] eqn:Ej.
    + case_bool_decide as Eji; cbn; [|eauto]. subst. right. right. exists i. split_and!; [done|split; [done|by rewrite Ec]|]. intros _ j [= <-]. done.
    + right. right. exists i. split_and!; [done|split; [done|by rewrite Ec]|done].
Qed.

Lemma attachAlias_publishes next i r :
  publishable next i r → pr_aliasesByID r !! al_DomainID next = None → (∀ j, pr_byHost r !! al_Hostname next = Some j → j = i) →
  attachAliasLocked next r = (None, put_alias next i r).
Proof.
  intros [(e & [Hb He]%current_Some & Hl & Hh) _] Ha Hj. unfold attachAliasLocked. rewrite Hb, He, Hl, Z.eqb_refl. cbn.
  rewrite bool_decide_eq_false_2 by done. rewrite Ha. destruct (pr_byHost r !! al_Hostname next) as [j|] eqn:E; [|done].
  rewrite (Hj j eq_refl), bool_decide_eq_true_2 by done. done.
Qed.

Lemma put_alias_inv next i r : vinv r → normal next → publishable next i r → vinv (put_alias next i r).
Proof.
  intros Hv Hn [(e & Hcur & Hl & Hh) Hprior]. pose proof Hcur as [Hb He]%current_Some.
  destruct (v_route _ Hv _ _ Hb) as (e0 & He0 & Hrid & _). rewrite He in He0. injection He0 as <-.
  split; cbn.
  - apply (v_route _ Hv).
  - apply (v_open _ Hv).
  - intros h j. rewrite lookup_insert_Some. intros [[<- <-]|[Hne Hj]].
    + exists e. split_and!; [done|by rewrite Hrid|]. right. exists (al_DomainID next), next. by rewrite lookup_insert_eq.
    + destruct (v_host _ Hv h j Hj) as (e' & He' & Hr' & Hor). exists e'. split_and!; [done..|]. destruct Hor as [?|(d & a & Ha & Hah & Har)]; [by left|].
      right. exists d, a. split; [|done]. rewrite lookup_insert_ne; [done|]. intros <-. destruct (Hprior a Ha) as [_ ?]. congruence.
  - intros d a. rewrite lookup_insert_Some. intros [[<- <-]|[Hne Ha]]; [eauto 10|]. apply (v_alias _ Hv d a Ha).
  - intros d a. rewrite lookup_insert_Some. intros [[<- <-]|[Hne Ha]].
    + eexists. split; [by rewrite lookup_insert_eq|set_solver].
    + destruct (v_listed _ Hv d a Ha) as (ids & Hi & Hin). destruct (decide (al_RouteID next = al_RouteID a)) as [E|E].
      * rewrite E, lookup_insert_eq, Hi. eexists. split; [done|]. cbn. set_solver.
      * rewrite lookup_insert_ne by done. eauto.
  - intros id ids d. rewrite lookup_insert_Some. intros [[<- <-]|[Hne Hi]] Hin.
    + destruct (decide (d = al_DomainID next)) as [->|Hd]; [exists next; by rewrite lookup_insert_eq|].
      destruct (pr_aliasIDsByRoute r !! al_RouteID next) as [ids|] eqn:E; cbn in Hin; [|set_solver].
      destruct (v_ids _ Hv _ ids d E) as (a & Ha & Har); [set_solver|]. exists a. by rewrite lookup_insert_ne.
    + destruct (v_ids _ Hv id ids d Hi Hin) as (a & Ha & Har). destruct (decide (d = al_DomainID next)) as [->|Hd].
      * destruct (Hprior a Ha) as [? _]. congruence.
      * exists a. by rewrite lookup_insert_ne.
  - apply (v_desired _ Hv).
  - apply (v_maximum _ Hv).
  - apply (v_closed _ Hv).
Qed.

Lemma attachAlias_inv next r : vinv r → normal next → vinv (attachAliasLocked next r).2.
Proof.
  intros Hv Hn. destruct (attachAlias_cases next r) as [[e ->]|[[-> _]|(i & -> & Hp & _)]]; [done..|]. by apply put_alias_inv.
Qed.

(** A property of the registry that attaching the desired aliases keeps. *)
Lemma activate_ind (P : DataCarrierPreviewRegistry → Prop) id r :
  P r → (∀ r' d a, same_routes r r' → P r' → pr_desiredAliases r !! d = Some a → al_RouteID a = id → P (attachAliasLocked a r').2) →
  P (activateDesiredAliasesForRouteLocked id r).
Proof.
  intros Hr Hstep. unfold activateDesiredAliasesForRouteLocked.
  assert (∀ kv, kv ∈ range_of (pr_desiredAliases r) → pr_desiredAliases r !! kv.1 = Some kv.2) as Hin.
  { intros [d a] Hkv. rewrite range_of_perm in Hkv. by apply elem_of_map_to_list. }
  revert Hin. generalize (range_of (pr_desiredAliases r)). intros l Hin.
  assert (∀ r', same_routes r r' → P r' → P (List.fold_left (λ r (kv : string * DataCarrierPreviewAlias), if al_RouteID kv.2 == id then (attachAliasLocked kv.2 r).2 else r) l r')) as Hl.
  { induction l as [|kv l IH]; intros r' Hs HP; [done|]. cbn. apply IH; [intros; apply Hin; by right| |].
    - case_bool_decide; [|done]. etransitivity; [done|apply attachAlias_routes].
    - case_bool_decide as E; [|done]. apply (Hstep r' kv.1); try done. apply Hin. by left. }
  by apply Hl.
Qed.

Lemma activateAliases_inv id r : vinv r → vinv (activateDesiredAliasesForRouteLocked id r).
Proof.
  intros Hv. apply activate_ind; [done|]. intros r' d a Hs Hv' Ha _. apply attachAlias_inv; [done|]. by apply (v_desired _ Hv d a).
Qed.

(** *** Attaching a route *)

Definition link (p : DataCarrierPreviewRoute) (host : string) r : DataCarrierPreviewRegistry :=
  let i := fresh (dom (pr_entries r)) in
  r <| pr_entries := <[i := mkPreviewEntry p host false]> (pr_entries r) |>
    <| pr_byRoute := <[pv_RouteID p := i]> (pr_byRoute r) |> <| pr_byHost := <[host := i]> (pr_byHost r) |>.

Lemma publish_link p host r : publish_route p host r = activateDesiredAliasesForRouteLocked (pv_RouteID p) (link p host r).
Proof. done. Qed.

Lemma fresh_entry r : pr_entries r !! fresh (dom (pr_entries r)) = None.
Proof. apply not_elem_of_dom, is_fresh. Qed.

Lemma link_current p host r id :
  vinv r → current (link p host r) id = if decide (id = pv_RouteID p) then Some (fresh (dom (pr_entries r)), mkPreviewEntry p host false) else current r id.
Proof.
  intros Hv. unfold current, link. cbn -[fresh]. destruct (decide _) as [->|Hne]; [by rewrite !lookup_insert_eq|].
  rewrite lookup_insert_ne by done. destruct (pr_byRoute r !! id) as [i|] eqn:Ei; [|done]. destruct (v_route _ Hv _ _ Ei) as (e & He & _).
  rewrite lookup_insert_ne; [done|]. intros E. pose proof (fresh_entry r). congruence.
Qed.

Lemma link_inv p host r :
  vinv r → pr_byRoute r !! pv_RouteID p = None → pr_byHost r !! host = None → checked (pr_processEpoch r) p →
  host = normalizePreviewCarrierHost (pv_Hostname p) → Z.of_nat (size (pr_byRoute r)) < pr_maximum r → pr_closed r = false → vinv (link p host r).
Proof.
  intros Hv Hb Hh Hck Hhost Hsz Hcl. pose proof (link_current p host r) as Hcur. pose proof (fresh_entry r) as Hf.
  unfold link in *. set (i := fresh (dom (pr_entries r))) in *.
  assert (∀ j e, pr_entries r !! j = Some e → i ≠ j) as Hne by (intros j e He ->; congruence).
  split; cbn.
  - intros id j. rewrite lookup_insert_Some. intros [[<- <-]|[Hid Hj]]; [eexists; split; [by rewrite lookup_insert_eq|done]|].
    destruct (v_route _ Hv _ _ Hj) as (e & He & ?). exists e. by rewrite lookup_insert_ne by (by eapply Hne).
  - intros j e. rewrite lookup_insert_Some. intros [[<- <-]|[Hj He]] Hd; [by rewrite lookup_insert_eq|].
    pose proof (v_open _ Hv _ _ He Hd). rewrite lookup_insert_ne; [done|]. intros E. cbn in E. congruence.
  - intros h j. rewrite lookup_insert_Some. intros [[<- <-]|[Hhn Hj]]; [eexists; split; [by rewrite lookup_insert_eq|]; cbn; by rewrite lookup_insert_eq; auto|].
    destruct (v_host _ Hv _ _ Hj) as (e & He & Hr & Hor). exists e. split_and!; [by rewrite lookup_insert_ne by (by eapply Hne)| |done].
    rewrite lookup_insert_ne; [done|]. intros E. congruence.
  - intros d a Ha. destruct (v_alias _ Hv d a Ha) as (? & ? & j & e & Hc & ?). split_and!; [done..|]. exists j, e. split; [|done].
    rewrite Hcur by done. rewrite decide_False; [done|]. intros E. apply current_Some in Hc as [Hc _]. congruence.
  - apply (v_listed _ Hv).
  - apply (v_ids _ Hv).
  - apply (v_desired _ Hv).
  - rewrite map_size_insert, Hb. cbn. lia.
  - by rewrite Hcl.
Qed.

Lemma access_mode_checked (k m : string) :
  negb (k == dataCarrierPreviewRouteKind) && negb (k == Browser.dataCarrierPreviewPrivateRouteKind) = false →
  (k == Browser.dataCarrierPreviewPrivateRouteKind) && (m != "private") && (m != "team") || (k == dataCarrierPreviewRouteKind) && (m != "") && (m != "public") = false →
  (m == "") && (k == Browser.dataCarrierPreviewPrivateRouteKind) = false →
  let m' := if m == "" then "public" else m in
  k = dataCarrierPreviewRouteKind ∧ m' = "public" ∨ k = Browser.dataCarrierPreviewPrivateRouteKind ∧ (m' = "private" ∨ m' = "team").
Proof.
  intros H1 H2 H3. cbn. destruct (decide (k = dataCarrierPreviewRouteKind)) as [->|Hk].
  - left. split; [done|]. cbn in H2. by destruct (bool_decide_reflect (m = "")), (bool_decide_reflect (m = "public")).
  - rewrite (bool_decide_eq_false_2 _ Hk) in *. destruct (decide (k = Browser.dataCarrierPreviewPrivateRouteKind)) as [->|Hk']; [|by rewrite (bool_decide_eq_false_2 _ Hk') in H1].
    right. split; [done|]. cbn in H2, H3. destruct (bool_decide_reflect (m = "")); [done|].
    destruct (bool_decide_reflect (m = "private")), (bool_decide_reflect (m = "team")); try done; auto.
Qed.

Lemma default_mode p (p1 := if pv_AccessMode p == "" then p <| pv_AccessMode := "public" |> else p) :
  pv_Kind p1 = pv_Kind p ∧ pv_Server p1 = pv_Server p ∧ pv_RouteID p1 = pv_RouteID p
  ∧ pv_AccessMode p1 = if pv_AccessMode p == "" then "public" else pv_AccessMode p.
Proof. subst p1. by case_bool_decide. Qed.

Lemma validateRoute_checked p now r q : validateRoute identity_of p now r = inr q → checked (pr_processEpoch r) q ∧ pv_Server q = pv_Server p ∧ pv_RouteID q = pv_RouteID p.
Proof.
  unfold validateRoute. intros Hq. destruct (badID _ || _ || _) eqn:E1; [done|]. destruct (_ && _ && _ || _) eqn:E2; [done|].
  destruct (_ && _) eqn:E3 in Hq; [done|].
  set (p1 := if pv_AccessMode p == "" then p <| pv_AccessMode := "public" |> else p) in *.
  destruct (_ && _) eqn:E4 in Hq; [done|]. destruct (failed _ || _) eqn:E5 in Hq; [done|]. destruct (negb _ || _) eqn:E6 in Hq; [done|].
  destruct (failed _) eqn:E7 in Hq; [done|]. destruct (_ && _) eqn:E8 in Hq; [done|]. destruct (_ && _) eqn:E9 in Hq; [done|]. injection Hq as <-.
  destruct (default_mode p) as (Hk & Hs & Hr & Hm). fold p1 in Hk, Hs, Hr, Hm.
  assert (pv_Revision p1 = pv_Revision p) as Hrev by (subst p1; clear; by case_bool_decide).
  split; [|done]. apply orb_false_iff in E1 as [E0 E1], E5 as [_ E5], E6 as [E6 _]. split; cbn; try done.
  - by apply failed_false.
  - by apply negb_false_iff, bool_decide_eq_true in E5.
  - rewrite Hr, Hrev. apply orb_false_iff in E0 as [E0 E0']. split; [done|lia].
  - by apply negb_false_iff in E6.
  - rewrite Hk, Hm. by apply access_mode_checked.
Qed.

(** A successful change by [Attach]: what was registered goes first. *)
Definition vacate (id : string) r : DataCarrierPreviewRegistry :=
  match current r id with Some (i, e) => drop_route id i (pe_host e) r | None => r end.

Lemma vacate_inv id r : vinv r → vinv (vacate id r).
Proof. intros Hv. unfold vacate. destruct (current r id) as [[i e]|] eqn:E; [by apply drop_inv|done]. Qed.

Lemma publish_vacated p host i e r :
  vinv r → current r (pv_RouteID p) = Some (i, e) →
  publish_route p host (removeAliasesForRouteLocked (pv_RouteID (pe_route e)) (close_preview i r <| pr_byHost := delete (pe_host e) (pr_byHost r) |>))
  = publish_route p host (drop_route (pv_RouteID p) i (pe_host e) r).
Proof.
  intros Hv [Hb He]%current_Some. destruct (v_route _ Hv _ _ Hb) as (e0 & He0 & Hr & _). rewrite He in He0. injection He0 as <-. rewrite Hr.
  change (close_preview i r <| pr_byHost := delete (pe_host e) (pr_byHost r) |>) with (relink (λ x, x) (pe_host e) (ending i) r).
  rewrite relink_removeAliases, drop_route_eq, !publish_link. f_equal. unfold link. cbn. by rewrite insert_delete_eq.
Qed.

Lemma PreviewAttach_cases p now r :
  vinv r → (Preview_Attach identity_of p now r).2 = r
  ∨ ∃ q, validateRoute identity_of p now r = inr q ∧ pr_closed r = false ∧ let host := normalizePreviewCarrierHost (pv_Hostname q) in
      Preview_Attach identity_of p now r = (None, publish_route q host (vacate (pv_RouteID q) r))
      ∧ (∀ i e, current r (pv_RouteID q) = Some (i, e) → newerDataCarrierPreviewRoute (pe_route e) q = true)
      ∧ host_taken host (pv_RouteID q) r = false ∧ (current r (pv_RouteID q) = None → Z.of_nat (size (pr_byRoute r)) < pr_maximum r).
Proof.
  intros Hv. unfold Preview_Attach. destruct (validateRoute _ _ _ _) as [|q] eqn:Eq; [by left|]. destruct (pr_closed r) eqn:Ec; [by left|].
  unfold vacate. destruct (current r (pv_RouteID q)) as [[i e]|] eqn:E.
  - destruct (sameDataCarrierPreviewRoute _ _); [by left|]. destruct (newerDataCarrierPreviewRoute _ _) eqn:En; [|by left].
    destruct (host_taken _ _ _) eqn:Eh; [by left|]. cbn [negb]. right. exists q. rewrite E. split_and!; try done.
    + rewrite (publish_vacated q _ i e r) by done. done.
    + by intros i' e' [= <- <-].
  - destruct (host_taken _ _ _) eqn:Eh; [by left|]. destruct (_ <=? _) eqn:Em; [by left|]. right. exists q. rewrite E. split_and!; try done. intros _. lia.
Qed.

Lemma vacate_current id r id' : vinv r → current (vacate id r) id' = if decide (id' = id) then None else current r id'.
Proof.
  intros Hv. unfold vacate. destruct (current r id) as [[i e]|] eqn:E.
  - apply drop_current; [done|]. by apply current_Some in E as [? _].
  - destruct (decide _) as [->|]; done.
Qed.

Lemma byRoute_current r id : vinv r → (pr_byRoute r !! id = None ↔ current r id = None).
Proof.
  intros Hv. unfold current. destruct (_ !! id) as [i|] eqn:E; [|done]. destruct (v_route _ Hv _ _ E) as (e & -> & _). done.
Qed.

Lemma vacate_frame id r : pr_maximum (vacate id r) = pr_maximum r ∧ pr_processEpoch (vacate id r) = pr_processEpoch r ∧ pr_desiredAliases (vacate id r) = pr_desiredAliases r
  ∧ pr_closed (vacate id r) = pr_closed r.
Proof.
  unfold vacate. destruct (current r id) as [[i e]|]; [|done]. rewrite drop_route_eq. pose proof (removeAliases_routes id r) as []. by cbn.
Qed.

(** The host of a route to be attached is free once what it replaces is gone. *)
Lemma vacate_host id host r : vinv r → host_taken host id r = false → pr_byHost (vacate id r) !! host = None.
Proof.
  intros Hv Ht. destruct (pr_byHost (vacate id r) !! host) as [j|] eqn:Ej; [exfalso|done].
  destruct (v_host _ (vacate_inv id r Hv) _ _ Ej) as (e & He & Hr & _).
  assert (current (vacate id r) (pv_RouteID (pe_route e)) = Some (j, e)) as Hc by (by apply current_Some).
  rewrite vacate_current in Hc by done. destruct (decide _) as [|Hne]; [done|]. apply current_Some in Hc as [_ He0].
  unfold host_taken in Ht. assert (pr_byHost r !! host = Some j) as Hj.
  { unfold vacate in Ej. destruct (current r id) as [[i e1]|]; [|done]. rewrite drop_route_eq in Ej. cbn in Ej. apply lookup_delete_Some in Ej as [_ Ej].
    by apply (removeAliases_spec id r Hv) in Ej as [? _]. }
  rewrite Hj, He0 in Ht. by rewrite bool_decide_eq_false_2 in Ht.
Qed.

Lemma attach_linked q r :
  vinv r → checked (pr_processEpoch r) q → host_taken (normalizePreviewCarrierHost (pv_Hostname q)) (pv_RouteID q) r = false →
  (current r (pv_RouteID q) = None → Z.of_nat (size (pr_byRoute r)) < pr_maximum r) → pr_closed r = false →
  vinv (link q (normalizePreviewCarrierHost (pv_Hostname q)) (vacate (pv_RouteID q) r)).
Proof.
  intros Hv Hck Ht Hsz Hcl. pose proof (vacate_inv (pv_RouteID q) r Hv) as Hv1. destruct (vacate_frame (pv_RouteID q) r) as (Hm & Hp & _ & Hcl').
  apply link_inv; try done.
  - apply byRoute_current; [done|]. rewrite vacate_current by done. by rewrite decide_True.
  - by apply vacate_host.
  - by rewrite Hp.
  - rewrite Hm. unfold vacate. destruct (current r (pv_RouteID q)) as [[i e]|] eqn:E; [|by apply Hsz]. apply current_Some in E as [E _].
    rewrite drop_route_eq. cbn. pose proof (removeAliases_routes (pv_RouteID q) r) as Hs. rewrite (sr_byRoute _ _ Hs).
    pose proof (map_size_delete (pv_RouteID q) (pr_byRoute r)) as Hz. rewrite E in Hz. pose proof (v_maximum _ Hv).
    assert (size (pr_byRoute r) ≠ 0%nat) by (intros Z0%map_size_empty_iff; rewrite Z0 in E; done). lia.
  - by rewrite Hcl'.
Qed.

Lemma PreviewAttach_inv p now r : vinv r → vinv (Preview_Attach identity_of p now r).2.
Proof.
  intros Hv. destruct (PreviewAttach_cases p now r Hv) as [->|(q & Hq & Hcl & -> & _ & Ht & Hsz)]; [done|]. cbn [snd]. rewrite publish_link. apply activateAliases_inv.
  apply attach_linked; [done| |done|done|done]. by destruct (validateRoute_checked _ _ _ _ Hq).
Qed.

(** *** The other operations *)

Lemma detachEntry_inv i r : vinv r → vinv (detachEntry i r).
Proof.
  intros Hv. unfold detachEntry. destruct (_ !! i) as [e|] eqn:E; [|done]. case_bool_decide as Hb; [|done]. apply drop_inv; [done|by apply current_Some].
Qed.

Lemma PreviewDetach_inv id identity revision r : vinv r → vinv (Preview_Detach id identity revision r).2.
Proof.
  intros Hv. unfold Preview_Detach. destruct (badID _ || _); [done|]. destruct (pr_closed r); [done|]. destruct (current r id) as [[i e]|] eqn:E; [|done].
  destruct (negb _ || _); [done|]. by apply drop_inv.
Qed.

Lemma DetachAdmission_inv a r : vinv r → vinv (DetachAdmission a r).2.
Proof.
  intros Hv. unfold DetachAdmission. destruct (_ || _); [done|]. destruct (pr_closed r); [done|]. destruct (current r _) as [[i e]|] eqn:E; [|done].
  destruct (negb _); [done|]. by apply drop_inv.
Qed.

Lemma Close_entries r i e : pr_entries (Preview_Close r) !! i = Some e → pr_closed r = false → vinv r → pe_done e = true.
Proof.
  intros He Hc Hv. unfold Preview_Close in He. rewrite Hc in He. cbn -[map_to_list] in He. rewrite map_lookup_imap in He. destruct (_ !! i) as [e0|] eqn:E; [|done].
  cbn -[map_to_list] in He. injection He as <-. case_bool_decide as Hin; [done|]. destruct (pe_done e0) eqn:Hd; [done|]. exfalso. apply Hin.
  rewrite elem_of_list_to_set, list_elem_of_fmap. pose proof (v_open _ Hv _ _ E Hd) as Hb. eexists (_, i). split; [done|]. by apply elem_of_map_to_list.
Qed.

Lemma PreviewClose_inv r : vinv r → vinv (Preview_Close r).
Proof.
  intros Hv. destruct (pr_closed r) eqn:Hc; [unfold Preview_Close; by rewrite Hc|]. pose proof (Close_entries r) as Hce.
  pose proof (v_maximum _ Hv) as Hmax. pose proof (Nat2Z.is_nonneg (size (pr_byRoute r))).
  unfold Preview_Close in *. rewrite Hc in *. split; cbn [pr_byRoute pr_byHost pr_aliasesByID pr_aliasIDsByRoute pr_desiredAliases pr_maximum].
  - by intros id i ?%lookup_empty_Some.
  - intros i e He Hd. by rewrite (Hce i e He eq_refl Hv) in Hd.
  - by intros h i ?%lookup_empty_Some.
  - by intros d a ?%lookup_empty_Some.
  - by intros d a ?%lookup_empty_Some.
  - by intros id ids d ?%lookup_empty_Some.
  - by intros d a ?%lookup_empty_Some.
  - rewrite map_size_empty. lia.
  - done.
Qed.

Lemma AttachAlias_inv a r : vinv r → vinv (AttachAlias a r).2.
Proof.
  intros Hv. unfold AttachAlias. destruct (normalize a) as [|next] eqn:E; [done|]. destruct (pr_closed r); [done|]. apply attachAlias_inv; [done|by exists a].
Qed.

Lemma DetachAlias_inv a r : vinv r → vinv (DetachAlias a r).2.
Proof.
  intros Hv. unfold DetachAlias. destruct (normalize a) as [|want]; [done|]. destruct (_ !! _) as [c|] eqn:E; [|done]. case_bool_decide; cbn [negb snd]; [|done].
  subst. by apply removeAlias_inv.
Qed.

(** Pruning removes exactly the attached aliases that are not in the new set. *)
Lemma prune_spec next r :
  vinv r → let r' := prune_aliases next r in
  vinv r' ∧ same_routes r r' ∧ (∀ d a, pr_aliasesByID r' !! d = Some a ↔ pr_aliasesByID r !! d = Some a ∧ next !! d = Some a)
  ∧ (∀ h i, pr_byHost r' !! h = Some i ↔ pr_byHost r !! h = Some i ∧ ∀ d a, pr_aliasesByID r !! d = Some a → next !! d ≠ Some a → al_Hostname a ≠ h).
Proof.
  intros Hv. cbn. unfold prune_aliases.
  assert (∀ kv, kv ∈ range_of (pr_aliasesByID r) ↔ pr_aliasesByID r !! kv.1 = Some kv.2) as Hin.
  { intros [d a]. rewrite range_of_perm. apply elem_of_map_to_list. }
  assert (NoDup (range_of (pr_aliasesByID r)).*1) as Hnd.
  { rewrite range_of_perm. apply NoDup_fst_map_to_list. }
  set (l := range_of (pr_aliasesByID r)) in *.
  set (dropped := (List.filter (λ kv : string * DataCarrierPreviewAlias, negb (bool_decide (next !! kv.1 = Some kv.2))) l).*1).
  assert (∀ r0, vinv r0 → (∀ kv, kv ∈ l → pr_aliasesByID r0 !! kv.1 = Some kv.2) →
    List.fold_left (λ r (kv : string * DataCarrierPreviewAlias), if bool_decide (next !! kv.1 = Some kv.2) then r else removeAliasLocked kv.2 r) l r0
    = List.fold_left remove_alias_id dropped r0) as Hfold.
  { unfold dropped. clear -Hnd. induction l as [|[d a] l IH]; intros r0 Hv0 Hl; [done|]. cbn. apply NoDup_cons in Hnd as [Hd Hnd].
    case_bool_decide as E; cbn; [apply IH; [done|done|]; intros kv Hkv; apply Hl; by right|].
    assert (pr_aliasesByID r0 !! d = Some a) as Ha by (apply (Hl (d, a)); by left). unfold remove_alias_id at 2. rewrite Ha.
    pose proof (v_alias _ Hv0 d a Ha) as [Hdom _]. apply IH; [done|apply removeAlias_inv; [done|by rewrite Hdom]|].
    intros kv Hkv. rewrite removeAlias_aliases, lookup_delete_ne; [apply Hl; by right|]. intros E'. apply Hd. rewrite <- Hdom, E'.
    apply list_elem_of_fmap. by exists kv. }
  rewrite Hfold by (try done; intros kv Hkv; by apply Hin).
  assert (∀ d, d ∈ dropped ↔ ∃ a, pr_aliasesByID r !! d = Some a ∧ next !! d ≠ Some a) as Hdr.
  { intros d. unfold dropped. rewrite list_elem_of_fmap. split.
    - intros ([d' a] & -> & Hx). apply list_elem_of_In, filter_In in Hx as [Hx%list_elem_of_In Hx']. exists a. split; [by apply (Hin (d', a))|]. cbn in Hx'. by bools.
    - intros (a & Ha & Hn). exists (d, a). split; [done|]. apply list_elem_of_In, filter_In. split; [apply list_elem_of_In; by apply Hin|]. cbn. by rewrite bool_decide_eq_false_2. }
  destruct (remove_ids_spec dropped r Hv) as (Hv1 & Ha1 & Hh1). cbn in Hv1, Ha1, Hh1. split_and!; [done| | |].
  - apply (fold_routes remove_alias_id). intros r' d. unfold remove_alias_id. destruct (_ !! d); [apply removeAlias_routes|done].
  - intros d a. rewrite Ha1, Hdr. split; intros [Ha Hd]; (split; [done|]).
    + destruct (decide (next !! d = Some a)); [done|]. exfalso. apply Hd. eauto.
    + intros (a' & Ha' & Hn). congruence.
  - intros h i. rewrite Hh1. split; intros [Hh Hd]; (split; [done|]).
    + intros d a Ha Hn. apply (Hd d a); [apply Hdr; eauto|done].
    + intros d a [a' [Ha' Hn]]%Hdr Ha. apply (Hd d a Ha). congruence.
Qed.

(** The desired set: every alias normalized, under its domain, and one host name per domain. *)
Lemma collect_spec aliases next hosts result :
  collect_aliases aliases next hosts = inr result →
  (∀ d a, next !! d = Some a → hosts !! al_Hostname a = Some d) →
  (∀ d a, result !! d = Some a ↔ next !! d = Some a ∨ ∃ raw, raw ∈ aliases ∧ normalize raw = inr a ∧ al_DomainID a = d)
  ∧ (∀ d a d' a', result !! d = Some a → result !! d' = Some a' → al_Hostname a = al_Hostname a' → d = d').
Proof.
  revert next hosts. induction aliases as [|c aliases IH]; intros next hosts; cbn.
  { intros [= <-] Hh. split; [intros d a; split; [by left|]; intros [?|(raw & Hx & _)]; [done|by apply not_elem_of_nil in Hx]|].
    intros d a d' a' Ha Ha' E. apply Hh in Ha, Ha'. rewrite E in Ha. congruence. }
  destruct (normalize c) as [|a] eqn:Ea; [done|]. destruct (next !! al_DomainID a) eqn:En; [done|]. intros Hc Hh.
  assert (collect_aliases aliases (<[al_DomainID a := a]> next) (<[al_Hostname a := al_DomainID a]> hosts) = inr result
          ∧ ∀ d, hosts !! al_Hostname a = Some d → d = al_DomainID a) as [Hc' Hfree].
  { destruct (hosts !! al_Hostname a) as [o|]; [|done]. case_bool_decide as Eo; cbn in Hc; [|done]. split; [done|]. by intros d [= <-]. }
  destruct (IH _ _ Hc') as [Hin Hdist].
  { intros d b. rewrite lookup_insert_Some. intros [[<- <-]|[Hne Hb]]; [by rewrite lookup_insert_eq|].
    pose proof (Hh d b Hb) as Hhb. rewrite lookup_insert_ne; [done|]. intros E. rewrite <- E in Hhb. apply Hfree in Hhb. congruence. }
  split; [|done]. intros d b. rewrite Hin, lookup_insert_Some. setoid_rewrite elem_of_cons. split.
  - intros [[[<- <-]|[_ Hb]]|(raw & Hr & ?)]; [right; exists c; auto|by left|right; exists raw; auto].
  - intros [Hb|(raw & [->|Hr] & Hn & Hd)]; [|left; left; rewrite Ea in Hn; by injection Hn as <-|right; eauto].
    left. right. split; [|done]. intros <-. congruence.
Qed.

(** The fold over the routes of [ReconcilePreviewAliases]. *)
Definition activate_routes_of (l : list (string * nat)) r : DataCarrierPreviewRegistry :=
  List.fold_left (λ r (kv : string * nat), activateDesiredAliasesForRouteLocked kv.1 r) l r.

Lemma Reconcile_cases aliases r :
  vinv r → (ReconcilePreviewAliases aliases r).2 = r ∧ (ReconcilePreviewAliases aliases r).1 ≠ None
  ∨ ∃ next, collect_aliases aliases ∅ ∅ = inr next ∧
      let r1 := prune_aliases next r <| pr_desiredAliases := next |> in
      ReconcilePreviewAliases aliases r = (None, activate_routes_of (range_of (pr_byRoute r1)) r1) ∧ vinv r1.
Proof.
  intros Hv. unfold ReconcilePreviewAliases. destruct (collect_aliases _ _ _) as [|next] eqn:E; [by left|]. destruct (pr_closed r); [by left|].
  destruct (existsb _ _); [by left|]. right. exists next. split_and!; [done|done|].
  destruct (collect_spec _ _ _ _ E) as [Hn _]; [by intros ?? ?%lookup_empty_Some|].
  destruct (prune_spec next r Hv) as (Hv1 & _). destruct Hv1 as [V1 V2 V3 V4 V5 V6 V7 V8 V9]. split; try done. cbn.
  intros d a [Ha%lookup_empty_Some|(raw & _ & Hraw & <-)]%Hn; [done|]. split; [done|by exists raw].
Qed.

Lemma activate_routes_of_inv l r : vinv r → vinv (activate_routes_of l r).
Proof. revert r. induction l as [|kv l IH]; intros r Hv; [done|]. cbn. apply IH. by apply activateAliases_inv. Qed.

Lemma Reconcile_inv aliases r : vinv r → vinv (ReconcilePreviewAliases aliases r).2.
Proof.
  intros Hv. destruct (Reconcile_cases aliases r Hv) as [[-> _]|(next & _ & -> & Hv1)]; [done|]. by apply activate_routes_of_inv.
Qed.

End Invariant.
End PreviewRegistryProofs.
