(* ===== verification/PreviewRegistryGuarantees.v ===== *)
(** * Guarantees of the preview registry

    Runs of the registry as sequences of its operations, the stronger invariant of the runs
    in which aliases are installed only as a whole, and the theorems about what a host
    resolves to, which registrations replace which, and what a request is forwarded over. *)
From S2P Require Import Prelude Go Strings Protocol Route RotationMessages StreamFrames Carrier PreviewAdmission Ingress HTTP PreviewRegistry PreviewRegistryProofs.

Module PreviewRegistryGuarantees.
Import Route PreviewAdmission StreamFrames Ingress HTTP PreviewRegistry PreviewRegistryProofs.
Import Carrier (Identity, Identity_Validate, id_AccountID, id_TunnelID, id_ConnectorID, id_SessionID, id_ProcessGeneration, id_Generation).
#[local] Existing Instance Carrier.Identity_eq_dec.

Implicit Types r : DataCarrierPreviewRegistry.
#[local] Arguments removeAliasesForRouteLocked : simpl never.
#[local] Arguments removeAliasLocked : simpl never.
#[local] Arguments attachAliasLocked : simpl never.
#[local] Arguments drop_route : simpl never.
#[local] Arguments prune_aliases : simpl never.
#[local] Arguments sbytes : simpl never.
#[local] Arguments bstring : simpl never.

Inductive op :=
  | OAttach (p : DataCarrierPreviewRoute) (now : Time)
  | OAttachAdmission (a : ExpectedAdmission) (server : nat) (now : Time)
  | ODetach (id : string) (identity : Identity) (revision : Z)
  | ODetachAdmission (a : ExpectedAdmission)
  | OEnded (i : nat)                        (** the watcher of entry [i] *)
  | OClose
  | OAttachAlias (a : DataCarrierPreviewAlias)
  | ODetachAlias (a : DataCarrierPreviewAlias)
  | OReconcile (aliases : list DataCarrierPreviewAlias).

Section Runs.
Context `{TextLib} `{RangeOrder} `{RotationMessages.RotationLib} `{FoldLib} (identity_of : nat → Identity).

Abbreviation vinv := (vinv identity_of).
Abbreviation checked := (checked identity_of).

Definition exec (o : op) r : option err * DataCarrierPreviewRegistry :=
  match o with
  | OAttach p now => Preview_Attach identity_of p now r
  | OAttachAdmission a server now => AttachAdmission identity_of a server now r
  | ODetach id identity revision => Preview_Detach id identity revision r
  | ODetachAdmission a => DetachAdmission a r
  | OEnded i => (None, detachEntry i r)
  | OClose => (None, Preview_Close r)
  | OAttachAlias a => AttachAlias a r
  | ODetachAlias a => DetachAlias a r
  | OReconcile aliases => ReconcilePreviewAliases aliases r
  end.

(** The operations of the worker and of the carriers: aliases change only as a whole. *)
Definition managed (o : op) : bool := match o with OAttachAlias _ | ODetachAlias _ => false | _ => true end.

(** What is reached by operations that [allowed] accepts. *)
Inductive preview_run (allowed : op → bool) (base epoch : string) (maximum : Z) : DataCarrierPreviewRegistry → Prop :=
  | run_new r : NewDataCarrierPreviewRegistry base epoch maximum = inr r → preview_run allowed base epoch maximum r
  | run_exec o r : preview_run allowed base epoch maximum r → allowed o = true → preview_run allowed base epoch maximum (exec o r).2.

Lemma preview_exec_inv o r : vinv r → vinv (exec o r).2.
Proof.
  intros Hv. destruct o; cbn.
  - by apply PreviewAttach_inv.
  - unfold AttachAdmission. destruct (failed _); [done|]. destruct (_ != _); [done|]. by apply PreviewAttach_inv.
  - by apply PreviewDetach_inv.
  - by apply DetachAdmission_inv.
  - by apply detachEntry_inv.
  - by apply PreviewClose_inv.
  - by apply AttachAlias_inv.
  - by apply DetachAlias_inv.
  - by apply Reconcile_inv.
Qed.

Lemma new_inv base epoch maximum r : NewDataCarrierPreviewRegistry base epoch maximum = inr r → vinv r.
Proof.
  unfold NewDataCarrierPreviewRegistry. destruct (_ && _); [done|]. destruct (_ || _) eqn:E; [done|]. destruct (failed _); [done|]. intros [= <-]. bools.
  split; cbn [pr_byRoute pr_byHost pr_aliasesByID pr_aliasIDsByRoute pr_desiredAliases pr_maximum pr_entries]; try (intros * ?%lookup_empty_Some; done); [rewrite map_size_empty; lia|done].
Qed.

Lemma run_inv allowed base epoch maximum r : preview_run allowed base epoch maximum r → vinv r.
Proof. induction 1 as [r Hr|o r _ IH _]; [by eapply new_inv|by apply preview_exec_inv]. Qed.

(** ** The stronger invariant *)

Record sinv r : Prop := {
  s_v : vinv r;
  s_own id i e : current r id = Some (i, e) → pr_byHost r !! pe_host e = Some i;
  s_alias d a : pr_aliasesByID r !! d = Some a → pr_byHost r !! al_Hostname a = pr_byRoute r !! al_RouteID a;
  s_sub d a : pr_aliasesByID r !! d = Some a → pr_desiredAliases r !! d = Some a;
  s_dist d a d' a' : pr_desiredAliases r !! d = Some a → pr_desiredAliases r !! d' = Some a' → al_Hostname a = al_Hostname a' → d = d'
}.

(** The host of an attached alias is no route's own host. *)
Lemma alias_not_own r d a id i e : sinv r → pr_aliasesByID r !! d = Some a → current r id = Some (i, e) → al_Hostname a ≠ pe_host e.
Proof.
  intros Hs Ha Hc E. pose proof (s_alias _ Hs d a Ha) as Hb. rewrite E, (s_own _ Hs _ _ _ Hc) in Hb.
  destruct (v_alias _ _ (s_v _ Hs) d a Ha) as (_ & _ & j & e' & Hc' & _ & Hne). apply current_Some in Hc as [Hc He], Hc' as [Hc' He'].
  rewrite Hc' in Hb. injection Hb as <-. rewrite He in He'. injection He' as <-. done.
Qed.

(** Two attached aliases, or an alias and its own removal, do not share a host. *)
Lemma alias_hosts_distinct r d a d' a' :
  sinv r → pr_aliasesByID r !! d = Some a → pr_aliasesByID r !! d' = Some a' → al_Hostname a = al_Hostname a' → d = d'.
Proof. intros Hs Ha Ha'. apply (s_dist _ Hs); by apply (s_sub _ Hs). Qed.

Lemma removeAliases_sinv id r : sinv r → sinv (removeAliasesForRouteLocked id r).
Proof.
  intros Hs. destruct (removeAliases_spec identity_of id r (s_v _ Hs)) as (Hv & Ha & Hh). pose proof (removeAliases_routes id r) as Hr. cbn in Hv, Ha, Hh.
  split; [done| | | |].
  - intros id' i e. rewrite (current_same r) by done. intros Hc. apply Hh. split; [by apply (s_own _ Hs id' i e)|]. intros d a Hda _. by eapply alias_not_own.
  - intros d a [Hda Hne]%Ha. rewrite (sr_byRoute _ _ Hr), <- (s_alias _ Hs d a Hda). destruct (pr_byHost r !! al_Hostname a) as [i|] eqn:E.
    + apply Hh. split; [done|]. intros d' a' Ha' Hid Eh. assert (d' = d) as -> by (by eapply alias_hosts_distinct). congruence.
    + destruct (pr_byHost (removeAliasesForRouteLocked id r) !! al_Hostname a) as [i|] eqn:E'; [|done]. apply Hh in E' as [E' _]. congruence.
  - intros d a [Hda _]%Ha. rewrite (sr_desired _ _ Hr). by apply (s_sub _ Hs).
  - rewrite (sr_desired _ _ Hr). apply (s_dist _ Hs).
Qed.

Lemma drop_sinv id i e r : sinv r → current r id = Some (i, e) → sinv (drop_route id i (pe_host e) r).
Proof.
  intros Hs Hc. pose proof (drop_inv identity_of id i e r (s_v _ Hs) Hc) as Hv. pose proof Hc as [Hid Hi]%current_Some.
  pose proof (λ id', drop_current identity_of id i (pe_host e) r id' (s_v _ Hs) Hid) as Hcur.
  pose proof (removeAliases_sinv id r Hs) as Hs1. destruct (removeAliases_spec identity_of id r (s_v _ Hs)) as (_ & Ha & _). cbn in Ha.
  pose proof (removeAliases_routes id r) as Hr. rewrite drop_route_eq in *. set (r1 := removeAliasesForRouteLocked id r) in *.
  assert (current r1 id = Some (i, e)) as Hc1 by (by rewrite (current_same r)).
  split; [done| | | |]; cbn.
  - intros id' j e'. rewrite Hcur. destruct (decide _) as [|Hne]; [done|]. intros Hc'. rewrite <- (current_same r r1) in Hc' by done.
    apply lookup_delete_Some. split; [|by apply (s_own _ Hs1 id')]. intros E. pose proof (s_own _ Hs1 _ _ _ Hc1) as Ho. rewrite E, (s_own _ Hs1 _ _ _ Hc') in Ho.
    injection Ho as ->. apply current_Some in Hc' as [Hb' _]. destruct (v_route _ _ (s_v _ Hs1) _ _ Hb') as (x & Hx & Hxr & _).
    apply current_Some in Hc1 as [Hb1 He1]. destruct (v_route _ _ (s_v _ Hs1) _ _ Hb1) as (y & Hy & Hyr & _). congruence.
  - intros d a Hda. rewrite !lookup_delete_ne; [by apply (s_alias _ Hs1 d)| |].
    + intros E. by apply Ha in Hda as [_ ?].
    + intros E. symmetry in E. by eapply (alias_not_own r1).
  - apply (s_sub _ Hs1).
  - apply (s_dist _ Hs1).
Qed.

Lemma vacate_sinv id r : sinv r → sinv (vacate id r).
Proof. intros Hs. unfold vacate. destruct (current r id) as [[i e]|] eqn:E; [by apply drop_sinv|done]. Qed.

Lemma link_sinv p host r :
  sinv r → vinv (link p host r) → pr_byRoute r !! pv_RouteID p = None → pr_byHost r !! host = None → sinv (link p host r).
Proof.
  intros Hs Hv Hb Hh. pose proof (λ id, link_current identity_of p host r id (s_v _ Hs)) as Hcur. unfold link in *. set (i := fresh (dom (pr_entries r))) in *.
  split; [done| | | |]; cbn.
  - intros id j e. rewrite Hcur. destruct (decide _) as [->|Hne]; [intros [= <- <-]; cbn; by rewrite lookup_insert_eq|]. intros Hc.
    pose proof (s_own _ Hs _ _ _ Hc) as Ho. rewrite lookup_insert_ne; [done|]. intros E. congruence.
  - intros d a Ha. pose proof (s_alias _ Hs d a Ha) as E. destruct (v_alias _ _ (s_v _ Hs) d a Ha) as (_ & _ & j & e & [Hc _]%current_Some & _).
    rewrite !lookup_insert_ne; [done| |]; intros E'; congruence.
  - apply (s_sub _ Hs).
  - apply (s_dist _ Hs).
Qed.

(** In such a state an alias of the desired set is attached already, or published, or refused
    because another route owns the host. *)
Lemma attachAlias_sinv d a r : sinv r → pr_desiredAliases r !! d = Some a → sinv (attachAliasLocked a r).2.
Proof.
  intros Hs Hd. destruct (v_desired _ _ (s_v _ Hs) d a Hd) as [Hdom Hn].
  destruct (attachAlias_cases a r) as [[e ->]|[[-> _]|(i & -> & Hp & Hfree)]]; [done..|]. cbn [snd].
  pose proof (put_alias_inv identity_of a i r (s_v _ Hs) Hn Hp) as Hv. destruct Hp as [(e & Hc & Hl & Hne) Hprior]. pose proof Hc as [Hb He]%current_Some.
  destruct (pr_aliasesByID r !! al_DomainID a) as [c|] eqn:Ec.
  { assert (c = a) as ->. { pose proof (s_sub _ Hs _ _ Ec) as Hc'. rewrite Hdom, Hd in Hc'. congruence. }
    pose proof (s_alias _ Hs _ _ Ec) as Hha. rewrite Hb in Hha. split; [done| | | |]; cbn.
    - intros id j e' Hc'. destruct (decide (pe_host e' = al_Hostname a)) as [E|E]; [exfalso; by apply (alias_not_own r (al_DomainID a) a id j e' Hs Ec Hc')|].
      rewrite lookup_insert_ne by done. by apply (s_own _ Hs id).
    - intros d' a'. rewrite lookup_insert_Some. intros [[<- <-]|[Hd' Ha']]; [by rewrite lookup_insert_eq|].
      rewrite lookup_insert_ne; [by apply (s_alias _ Hs d')|]. intros E. apply Hd'. by eapply (alias_hosts_distinct r).
    - intros d' a'. rewrite lookup_insert_Some. intros [[<- <-]|[_ Ha']]; [by apply (s_sub _ Hs)|by apply (s_sub _ Hs)].
    - apply (s_dist _ Hs). }
  assert (pr_byHost r !! al_Hostname a = None) as Hnone.
  { destruct (pr_byHost r !! al_Hostname a) as [j|] eqn:Ej; [exfalso|done]. rewrite (Hfree eq_refl j eq_refl) in Ej.
    destruct (v_host _ _ (s_v _ Hs) _ _ Ej) as (e' & He' & _ & [Ho|(d' & a' & Ha' & Hh' & _)]).
    - rewrite He in He'. injection He' as <-. done.
    - assert (d' = d) as -> by (apply (s_dist _ Hs d' a' d a); [by apply (s_sub _ Hs)|done|done]). rewrite Hdom in Ec. congruence. }
  split; [done| | | |]; cbn.
  - intros id j e' Hc'. pose proof (s_own _ Hs _ _ _ Hc') as Ho. rewrite lookup_insert_ne; [done|]. intros E. congruence.
  - intros d' a'. rewrite lookup_insert_Some. intros [[<- <-]|[Hd' Ha']]; [by rewrite lookup_insert_eq|].
    pose proof (s_alias _ Hs d' a' Ha') as E. destruct (v_alias _ _ (s_v _ Hs) d' a' Ha') as (_ & _ & j & e' & [Hj _]%current_Some & _).
    rewrite lookup_insert_ne; [done|]. intros E'. congruence.
  - intros d' a'. rewrite lookup_insert_Some. intros [[<- <-]|[_ Ha']]; [by rewrite Hdom|by apply (s_sub _ Hs)].
  - apply (s_dist _ Hs).
Qed.

Lemma activate_sinv id r : sinv r → sinv (activateDesiredAliasesForRouteLocked id r).
Proof.
  intros Hs. apply activate_ind; [done|]. intros r' d a Hr Hs' Ha _. apply (attachAlias_sinv d); [done|]. by rewrite (sr_desired _ _ Hr).
Qed.

(** ** Installing a set of aliases *)

Lemma attachAlias_keeps d a d' a' r :
  sinv r → pr_desiredAliases r !! d' = Some a' → pr_aliasesByID r !! d = Some a → pr_aliasesByID (attachAliasLocked a' r).2 !! d = Some a.
Proof.
  intros Hs Hd' Ha. destruct (attachAlias_cases a' r) as [[e ->]|[[-> _]|(i & -> & _)]]; [done..|]. cbn.
  destruct (v_desired _ _ (s_v _ Hs) d' a' Hd') as [Hdom _]. rewrite lookup_insert_Some. destruct (decide (al_DomainID a' = d)) as [E|E]; [left|by right].
  split; [done|]. pose proof (s_sub _ Hs d a Ha) as Hda. rewrite <- E, Hdom, Hd' in Hda. congruence.
Qed.

(** A desired alias whose route is there in its lease generation and whose host is not a route's own. *)
Record attachable (d : string) (a : DataCarrierPreviewAlias) r : Prop := {
  el_desired : pr_desiredAliases r !! d = Some a;
  el_route : ∃ i e, current r (al_RouteID a) = Some (i, e) ∧ pv_LeaseGeneration (pe_route e) = al_PreviewGeneration a;
  el_host id i e : current r id = Some (i, e) → pe_host e ≠ al_Hostname a
}.

Lemma attachable_same d a r r' : same_routes r r' → attachable d a r → attachable d a r'.
Proof.
  intros Hr [Hd Hc Hh]. split.
  - by rewrite (sr_desired _ _ Hr).
  - destruct Hc as (i & e & ?). exists i, e. by rewrite (current_same r).
  - intros id i e. rewrite (current_same r) by done. apply Hh.
Qed.

Lemma attachAlias_lands d a r : sinv r → attachable d a r → pr_aliasesByID (attachAliasLocked a r).2 !! d = Some a.
Proof.
  intros Hs [Hd (i & e & Hc & Hl) Hh]. destruct (v_desired _ _ (s_v _ Hs) d a Hd) as [Hdom _].
  destruct (pr_aliasesByID r !! d) as [c|] eqn:Ec.
  { apply (attachAlias_keeps d a d); [done|done|]. pose proof (s_sub _ Hs _ _ Ec). congruence. }
  rewrite (attachAlias_publishes a i r).
  - cbn. by rewrite Hdom, lookup_insert_eq.
  - split; [exists e; split_and!; [done|done|]; intros E; by apply (Hh _ _ _ Hc)|]. rewrite Hdom, Ec. done.
  - by rewrite Hdom.
  - intros j Hj. destruct (v_host _ _ (s_v _ Hs) _ _ Hj) as (e' & He' & Hr' & [Ho|(d' & a' & Ha' & Hh' & _)]).
    + exfalso. apply (Hh (pv_RouteID (pe_route e')) j e'); [by apply current_Some|done].
    + assert (d' = d) as -> by (apply (s_dist _ Hs d' a' d a); [by apply (s_sub _ Hs)|done|done]). congruence.
Qed.

Abbreviation attach_if id := (λ r (kv : string * DataCarrierPreviewAlias), if al_RouteID kv.2 == id then (attachAliasLocked kv.2 r).2 else r).

(** Attaching aliases of the desired set one after the other. *)
Lemma attach_list id l r :
  sinv r → (∀ kv, kv ∈ l → pr_desiredAliases r !! kv.1 = Some kv.2) →
  let r' := List.fold_left (attach_if id) l r in
  sinv r' ∧ same_routes r r' ∧ (∀ d a, pr_aliasesByID r !! d = Some a → pr_aliasesByID r' !! d = Some a)
  ∧ (∀ d a, (d, a) ∈ l → al_RouteID a = id → attachable d a r → pr_aliasesByID r' !! d = Some a).
Proof.
  revert r. induction l as [|[d0 a0] l IH]; intros r Hs Hl; cbn.
  { split_and!; [done|done|done|]. by intros d a ?%not_elem_of_nil. }
  assert (pr_desiredAliases r !! d0 = Some a0) as Hd0 by (apply (Hl (d0, a0)); by left).
  set (r1 := if al_RouteID a0 == id then (attachAliasLocked a0 r).2 else r).
  assert (same_routes r r1) as Hr1 by (unfold r1; case_bool_decide; [apply attachAlias_routes|done]).
  assert (sinv r1) as Hs1 by (unfold r1; case_bool_decide; [by apply (attachAlias_sinv d0)|done]).
  destruct (IH r1 Hs1) as (Hs2 & Hr2 & Hk & Hland); [intros kv Hkv; rewrite (sr_desired _ _ Hr1); apply Hl; by right|].
  split_and!; [done|by etransitivity| |].
  - intros d a Ha. apply Hk. unfold r1. case_bool_decide; [by apply (attachAlias_keeps d a d0)|done].
  - intros d a [[= -> ->]|Hin]%elem_of_cons Hid He.
    + apply Hk. unfold r1. rewrite bool_decide_eq_true_2 by done. by apply attachAlias_lands.
    + apply Hland; [done|done|]. by eapply attachable_same.
Qed.

Lemma activate_spec id r :
  sinv r → let r' := activateDesiredAliasesForRouteLocked id r in
  sinv r' ∧ same_routes r r' ∧ (∀ d a, pr_aliasesByID r !! d = Some a → pr_aliasesByID r' !! d = Some a)
  ∧ (∀ d a, al_RouteID a = id → attachable d a r → pr_aliasesByID r' !! d = Some a).
Proof.
  intros Hs. cbn. destruct (attach_list id (range_of (pr_desiredAliases r)) r Hs) as (H1' & H2' & H3' & H4').
  { intros [d a] Hkv. rewrite range_of_perm in Hkv. by apply elem_of_map_to_list. }
  split_and!; [done..|]. intros d a Hid He. apply H4'; [|done|done]. rewrite range_of_perm. apply elem_of_map_to_list, He.
Qed.

Lemma activate_routes_spec l r :
  sinv r → let r' := activate_routes_of l r in
  sinv r' ∧ same_routes r r' ∧ (∀ d a, pr_aliasesByID r !! d = Some a → pr_aliasesByID r' !! d = Some a)
  ∧ (∀ d a, al_RouteID a ∈ l.*1 → attachable d a r → pr_aliasesByID r' !! d = Some a).
Proof.
  revert r. induction l as [|[id i] l IH]; intros r Hs; cbn.
  { split_and!; [done|done|done|]. by intros d a ?%not_elem_of_nil. }
  destruct (activate_spec id r Hs) as (Hs1 & Hr1 & Hk1 & Hl1). destruct (IH _ Hs1) as (Hs2 & Hr2 & Hk2 & Hl2).
  split_and!; [done|by etransitivity|by auto|]. intros d a [Hid|Hin]%elem_of_cons He.
  - apply Hk2, Hl1; done.
  - apply Hl2; [done|]. by eapply attachable_same.
Qed.

Lemma prune_sinv aliases next r :
  sinv r → collect_aliases aliases ∅ ∅ = inr next → vinv (prune_aliases next r <| pr_desiredAliases := next |>) →
  sinv (prune_aliases next r <| pr_desiredAliases := next |>).
Proof.
  intros Hs Hc Hv. destruct (prune_spec identity_of next r (s_v _ Hs)) as (_ & Hr & Ha & Hh). cbn in Hr, Ha, Hh.
  split; [done| | | |]; cbn.
  - intros id i e Hcur. change (current (prune_aliases next r) id = Some (i, e)) in Hcur. rewrite (current_same r) in Hcur by done.
    apply Hh. split; [by apply (s_own _ Hs id)|]. intros d a Hda _. by eapply alias_not_own.
  - intros d a [Hda Hn]%Ha. rewrite (sr_byRoute _ _ Hr), <- (s_alias _ Hs d a Hda).
    destruct (pr_byHost r !! al_Hostname a) as [i|] eqn:E.
    + apply Hh. split; [done|]. intros d' a' Ha' Hn' Eh. assert (d' = d) as -> by (by eapply alias_hosts_distinct). congruence.
    + destruct (pr_byHost (prune_aliases next r) !! al_Hostname a) as [i|] eqn:E'; [|done]. apply Hh in E' as [E' _]. congruence.
  - by intros d a [_ Hn]%Ha.
  - destruct (collect_spec _ _ _ _ Hc) as [_ Hd]; [by intros ?? ?%lookup_empty_Some|]. apply Hd.
Qed.

Lemma exec_sinv o r : managed o = true → sinv r → sinv (exec o r).2.
Proof.
  intros Hm Hs. assert (∀ p now, sinv (Preview_Attach identity_of p now r).2) as Hattach.
  { intros p now. destruct (PreviewAttach_cases identity_of p now r (s_v _ Hs)) as [->|(q & Hq & Hcl & -> & _ & Ht & Hsz)]; [done|]. cbn [snd]. rewrite publish_link.
    destruct (validateRoute_checked _ _ _ _ _ Hq) as [Hck _]. apply activate_sinv, link_sinv.
    - by apply vacate_sinv.
    - apply attach_linked; [apply Hs|done..].
    - apply (byRoute_current identity_of); [apply (vacate_inv identity_of), Hs|]. rewrite (vacate_current identity_of) by apply Hs. by rewrite decide_True.
    - apply (vacate_host identity_of); [apply Hs|done]. }
  destruct o; try done; cbn [exec].
  - apply Hattach.
  - unfold AttachAdmission. destruct (failed _); [done|]. destruct (_ != _); [done|]. apply Hattach.
  - unfold Preview_Detach. destruct (badID _ || _); [done|]. destruct (pr_closed r); [done|]. destruct (current r id) as [[i e]|] eqn:E; [|done].
    destruct (negb _ || _); [done|]. by apply drop_sinv.
  - unfold DetachAdmission. destruct (_ || _); [done|]. destruct (pr_closed r); [done|]. destruct (current r _) as [[i e]|] eqn:E; [|done].
    destruct (negb _); [done|]. by apply drop_sinv.
  - cbn [snd]. unfold detachEntry. destruct (_ !! i) as [e|] eqn:E; [|done]. case_bool_decide as Hb; [|done]. apply drop_sinv; [done|by apply current_Some].
  - cbn [snd]. pose proof (PreviewClose_inv identity_of r (s_v _ Hs)) as Hv. unfold Preview_Close in *. destruct (pr_closed r); [done|].
    split; [done|..]; cbn [pr_byRoute pr_byHost pr_aliasesByID pr_desiredAliases]; try (intros * ?%lookup_empty_Some; done).
    intros id i e [Hx _]%current_Some. cbn [pr_byRoute] in Hx. by apply lookup_empty_Some in Hx.
  - destruct (Reconcile_cases identity_of aliases r (s_v _ Hs)) as [[-> _]|(next & Hn & -> & Hv1)]; [done|]. cbn [snd]. apply activate_routes_spec.
    by apply (prune_sinv aliases).
Qed.

Lemma new_sinv base epoch maximum r : NewDataCarrierPreviewRegistry base epoch maximum = inr r → sinv r.
Proof.
  intros Hr. pose proof (new_inv _ _ _ _ Hr) as Hv. unfold NewDataCarrierPreviewRegistry in Hr. destruct (_ && _); [done|]. destruct (_ || _); [done|].
  destruct (failed _); [done|]. injection Hr as <-. split; [done|..]; cbn [pr_byRoute pr_byHost pr_aliasesByID pr_desiredAliases]; try (intros * ?%lookup_empty_Some; done).
  intros id i e [Hx _]%current_Some. cbn [pr_byRoute] in Hx. by apply lookup_empty_Some in Hx.
Qed.

Lemma run_sinv base epoch maximum r : preview_run managed base epoch maximum r → sinv r.
Proof. induction 1 as [r Hr|o r _ IH Ho]; [by eapply new_sinv|by apply exec_sinv]. Qed.

(** C39. Installing a set of aliases is exact: after any run in which aliases came as whole sets,
    a set that is accepted leaves the routes alone, and then the hosts that resolve are
    exactly the own hosts of the registered routes, and the host names of those aliases of
    the set whose route is registered in the lease generation they were issued for and whose
    host is not a route's own; each resolves to its route, whatever order the maps are
    visited in. *)
Theorem preview_hosts_reconciled base epoch maximum r aliases r' :
  preview_run managed base epoch maximum r → ReconcilePreviewAliases aliases r = (None, r') →
  (∀ id, current r' id = current r id)
  ∧ ∀ h i, pr_byHost r' !! h = Some i ↔
      ∃ e, current r' (pv_RouteID (pe_route e)) = Some (i, e)
        ∧ (h = pe_host e
           ∨ ∃ raw a, raw ∈ aliases ∧ normalize raw = inr a ∧ al_Hostname a = h ∧ al_RouteID a = pv_RouteID (pe_route e)
               ∧ al_PreviewGeneration a = pv_LeaseGeneration (pe_route e) ∧ ∀ id j e', current r' id = Some (j, e') → pe_host e' ≠ h).
Proof.
  intros Hs%run_sinv Hrec. destruct (Reconcile_cases identity_of aliases r (s_v _ Hs)) as [[_ Hne]|(next & Hn & Heq & Hv1)]; [by rewrite Hrec in Hne|].
  rewrite Hrec in Heq. set (r1 := prune_aliases next r <| pr_desiredAliases := next |>) in *.
  assert (r' = activate_routes_of (range_of (pr_byRoute r1)) r1) as -> by congruence. clear Heq Hrec.
  pose proof (prune_sinv aliases next r Hs Hn Hv1 : sinv r1) as Hs1. destruct (prune_spec identity_of next r (s_v _ Hs)) as (_ & Hr0 & _).
  destruct (activate_routes_spec (range_of (pr_byRoute r1)) r1 Hs1) as (Hs2 & Hr2 & _ & Hland).
  destruct (collect_spec _ _ _ _ Hn) as [Hin _]; [by intros ?? ?%lookup_empty_Some|].
  set (r2 := activate_routes_of (range_of (pr_byRoute r1)) r1) in *. split.
  { intros id. rewrite (current_same r1) by done. change (current r1 id) with (current (prune_aliases next r) id). by apply current_same. }
  intros h i. split.
  - intros Hh. destruct (v_host _ _ (s_v _ Hs2) h i Hh) as (e & He & Hb & Hor). exists e. split; [by apply current_Some|].
    destruct Hor as [?|(d & a & Ha & Hah & Hr)]; [by left|right]. pose proof (s_sub _ Hs2 d a Ha) as Hd. rewrite (sr_desired _ _ Hr2) in Hd. cbn in Hd.
    apply Hin in Hd as [Hd%lookup_empty_Some|(raw & Hraw & Hnorm & Hdom)]; [done|]. exists raw, a. split_and!; try done.
    + destruct (v_alias _ _ (s_v _ Hs2) d a Ha) as (_ & _ & j & e' & [Hb' He']%current_Some & Hl & _). rewrite Hr, Hb in Hb'. injection Hb' as <-. congruence.
    + intros id j e' Hc' E. subst h. by apply (alias_not_own r2 d a id j e').
  - intros (e & Hc & Hor). destruct Hor as [->|(raw & a & Hraw & Hnorm & Hah & Hr & Hl & Hfree)]; [by apply (s_own _ Hs2 _ _ _ Hc)|].
    assert (pr_aliasesByID r2 !! al_DomainID a = Some a) as Ha.
    { apply Hland.
      - rewrite Hr. apply current_Some in Hc as [Hc _]. rewrite (sr_byRoute _ _ Hr2) in Hc. apply list_elem_of_fmap. exists (pv_RouteID (pe_route e), i). split; [done|].
        rewrite range_of_perm. by apply elem_of_map_to_list.
      - split.
        + cbn. apply Hin. right. eauto.
        + exists i, e. rewrite Hr, <- (current_same r1 r2) by done. done.
        + intros id j e'. rewrite <- (current_same r1 r2) by done. rewrite Hah. apply Hfree. }
    rewrite <- Hah, (s_alias _ Hs2 _ _ Ha), Hr. by apply current_Some in Hc as [? _].
Qed.

(** ** Registrations *)

(** The operations that may take a registered route away. *)
Definition retires (o : op) (id : string) (i : nat) (p : DataCarrierPreviewRoute) : Prop :=
  match o with
  | ODetach id' identity revision => id' = id ∧ identity = pv_Identity p ∧ revision = pv_Revision p
  | ODetachAdmission a => ea_RouteID a = id ∧ admission_names a p = true
  | OEnded j => j = i
  | OClose => True
  | _ => False
  end.

(** Entry [i] no longer serves: whoever holds a lease on it is told. *)
Definition told (i : nat) r : Prop := ∃ e, pr_entries r !! i = Some e ∧ pe_done e = true.

Lemma drop_told id i host r : is_Some (pr_entries r !! i) → told i (drop_route id i host r).
Proof.
  intros [e He]. rewrite drop_route_eq. pose proof (removeAliases_routes id r) as Hr. unfold told. cbn. unfold ending. rewrite lookup_alter_eq, (sr_entries _ _ Hr), He.
  by eexists.
Qed.

Lemma told_link i p host r : told i r → told i (link p host r).
Proof.
  intros (e & He & Hd). exists e. split; [|done]. unfold link. cbn. rewrite lookup_insert_ne; [done|]. intros E. pose proof (fresh_entry r). congruence.
Qed.

Lemma told_same i r r' : same_routes r r' → told i r → told i r'.
Proof. intros Hr (e & He & Hd). exists e. by rewrite (sr_entries _ _ Hr). Qed.

(** What happened to a registration. *)
Definition succeeded_by (o : op) (id : string) (i : nat) (e : dataCarrierPreviewRouteEntry) r' : Prop :=
  match current r' id with
  | Some (j, e') => j = i ∧ e' = e ∨ newerDataCarrierPreviewRoute (pe_route e) (pe_route e') = true ∧ checked (pr_processEpoch r') (pe_route e') ∧ told i r'
  | None => retires o id i (pe_route e) ∧ told i r'
  end.

Lemma kept_succession o id i e r : current r id = Some (i, e) → succeeded_by o id i e r.
Proof. intros Hc. unfold succeeded_by. rewrite Hc. by left. Qed.

Lemma same_succession o id i e r r' : current r id = Some (i, e) → same_routes r r' → succeeded_by o id i e r'.
Proof. intros Hc Hr. apply kept_succession. by rewrite (current_same r). Qed.

Lemma drop_succession o id i e id' i' e' r :
  vinv r → current r id = Some (i, e) → current r id' = Some (i', e') → retires o id' i' (pe_route e') →
  succeeded_by o id i e (drop_route id' i' (pe_host e') r).
Proof.
  intros Hv Hc Hc' Ho. pose proof Hc' as [Hb' He']%current_Some. unfold succeeded_by. rewrite (drop_current identity_of) by done.
  destruct (decide (id = id')) as [->|Hne]; [|rewrite Hc; by left]. rewrite Hc in Hc'. injection Hc' as -> ->. split; [done|]. apply drop_told. by eexists.
Qed.

Lemma attach_succession o id i e p now r : vinv r → current r id = Some (i, e) → succeeded_by o id i e (Preview_Attach identity_of p now r).2.
Proof.
  intros Hv Hc. destruct (PreviewAttach_cases identity_of p now r Hv) as [->|(q & Hq & _ & -> & Hnew & Ht & Hsz)]; [by apply kept_succession|]. cbn [snd]. rewrite publish_link.
  destruct (validateRoute_checked _ _ _ _ _ Hq) as [Hck _]. set (host := normalizePreviewCarrierHost (pv_Hostname q)) in *.
  pose proof (activate_routes (pv_RouteID q) (link q host (vacate (pv_RouteID q) r))) as Hr.
  unfold succeeded_by. rewrite (current_same _ _ _ Hr), (link_current identity_of), (vacate_current identity_of) by (try done; by apply vacate_inv).
  destruct (decide (id = pv_RouteID q)) as [->|Hne]; [|rewrite Hc; by left]. right. split_and!; [by apply (Hnew i e)| |].
  - rewrite (sr_epoch _ _ Hr). cbn. destruct (vacate_frame (pv_RouteID q) r) as (_ & -> & _). done.
  - eapply told_same; [done|]. apply told_link. unfold vacate. rewrite Hc. apply drop_told. apply current_Some in Hc as [_ He]. by eexists.
Qed.

(** A registration is fenced: one operation leaves it as it is, or puts a validated route in
    its place that is newer (for the same host, owner and connector, with no generation
    going back), or takes it away, and then the operation named exactly this registration,
    its carrier has ended, or the registry was closed.  Once it is not current any more,
    every lease on it is cancelled. *)
Theorem preview_route_fenced allowed base epoch maximum r o id i e :
  preview_run allowed base epoch maximum r → current r id = Some (i, e) → succeeded_by o id i e (exec o r).2.
Proof.
  intros Hv%run_inv Hc. destruct o as [p now|a server now|id' identity revision|a|j| |a|a|aliases]; cbn [exec].
  - by apply attach_succession.
  - unfold AttachAdmission. destruct (failed _); [by apply kept_succession|]. destruct (_ != _); [by apply kept_succession|]. by apply attach_succession.
  - unfold Preview_Detach. destruct (badID _ || _); [by apply kept_succession|]. destruct (pr_closed r); [by apply kept_succession|].
    destruct (current r id') as [[i' e']|] eqn:E; [|by apply kept_succession]. destruct (negb _ || _) eqn:Ee; [by apply kept_succession|]. cbn [snd].
    bools. apply drop_succession; try done.
  - unfold DetachAdmission. destruct (_ || _); [by apply kept_succession|]. destruct (pr_closed r); [by apply kept_succession|].
    destruct (current r (ea_RouteID a)) as [[i' e']|] eqn:E; [|by apply kept_succession]. destruct (negb _) eqn:Ee; [by apply kept_succession|]. cbn [snd].
    apply drop_succession; try done. cbn. split; [done|by apply negb_false_iff in Ee].
  - cbn [snd]. unfold detachEntry. destruct (_ !! j) as [e'|] eqn:E; [|by apply kept_succession]. case_bool_decide as Hb; [|by apply kept_succession].
    apply drop_succession; try done. by apply current_Some.
  - cbn [snd]. unfold succeeded_by. destruct (pr_closed r) eqn:Hcl; [unfold Preview_Close; rewrite Hcl, Hc; by left|].
    pose proof (Close_entries identity_of r) as Hce. unfold Preview_Close in *. rewrite Hcl in *. apply current_Some in Hc as [_ He].
    unfold current. cbn [pr_byRoute]. rewrite lookup_empty. split; [done|]. unfold told. cbn [pr_entries] in *.
    destruct (map_imap _ (pr_entries r) !! i) as [e'|] eqn:E; [exists e'; split; [done|by eapply Hce]|]. rewrite map_lookup_imap, He in E. done.
  - unfold AttachAlias. destruct (normalize a); [by apply kept_succession|]. destruct (pr_closed r); [by apply kept_succession|].
    eapply same_succession; [done|apply attachAlias_routes].
  - unfold DetachAlias. destruct (normalize a); [by apply kept_succession|]. destruct (_ !! _); [|by apply kept_succession]. destruct (_ != _); [by apply kept_succession|].
    eapply same_succession; [done|apply removeAlias_routes].
  - destruct (Reconcile_cases identity_of aliases r Hv) as [[-> _]|(next & Hn & -> & Hv1)]; [by apply kept_succession|]. cbn [snd].
    destruct (prune_spec identity_of next r Hv) as (_ & Hr & _). cbn in Hr. apply kept_succession.
    rewrite <- Hc. transitivity (current (prune_aliases next r <| pr_desiredAliases := next |>) id); [|by apply (current_same r (prune_aliases next r))].
    apply current_same. unfold activate_routes_of. apply (fold_routes (λ r (kv : string * nat), activateDesiredAliasesForRouteLocked kv.1 r)). intros r' kv. apply activate_routes.
Qed.

(** ** What a host resolves to *)

Lemma trim_runes_Forall (P : byte → Prop) fuel enc b : Forall P b → Forall P (trim_runes fuel enc b).
Proof.
  revert b. induction fuel as [|fuel IH]; intros b Hb; cbn; [done|]. destruct (space_at enc b); [|done]. by apply IH, Forall_drop.
Qed.

Lemma TrimSpace_Forall (P : byte → Prop) s : Forall P (sbytes s) → Forall P (sbytes (TrimSpace s)).
Proof.
  intros Hs. unfold TrimSpace. rewrite sbytes_bstring. apply Forall_rev, trim_runes_Forall, Forall_rev. by apply trim_runes_Forall.
Qed.

Lemma TrimSuffix_Forall (P : byte → Prop) s x : Forall P (sbytes s) → Forall P (sbytes (TrimSuffix s x)).
Proof.
  intros Hs. unfold TrimSuffix, CutSuffix. destruct (HasSuffix s x); cbn; [|done]. rewrite sbytes_bstring. by apply Forall_take.
Qed.

Lemma SplitHostPort_Forall (P : byte → Prop) s host port : Forall P (sbytes s) → SplitHostPort s = Some (host, port) → Forall P (sbytes host).
Proof.
  intros Hs. unfold SplitHostPort. destruct (LastIndexByte _ _) as [i|]; [|done]. destruct (sbytes s) as [|c b] eqn:E; [done|].
  destruct (byte_to_Z c =? 91).
  - destruct (IndexByte _ _) as [e|]; [|done]. destruct (bool_decide _); [|done]. destruct (_ || _); [done|]. intros [= <- _]. rewrite sbytes_bstring.
    apply Forall_take, Forall_drop. by apply Forall_cons in Hs as [_ ?].
  - destruct (nonnil _); [done|]. destruct (_ || _); [done|]. intros [= <- _]. rewrite sbytes_bstring. by apply Forall_take.
Qed.

(** The bytes of a valid host name. *)
Definition host_byte (b : byte) : Prop := byte_to_Z b = 46 ∨ byte_to_Z b = 45 ∨ is_lower b = true ∨ is_digit b = true.

Lemma host_byte_plain b : host_byte b → byte_to_Z b < 128 ∧ byte_to_Z b ≠ 42 ∧ lower_byte b = b.
Proof.
  unfold host_byte, lower_byte, is_lower, is_digit, is_upper, in_range. intros Hb. rewrite !andb_true_iff, !Z.leb_le in Hb. split_and!; [lia..|].
  destruct (_ && _) eqn:E; [|done]. apply andb_true_iff in E as [?%Z.leb_le ?%Z.leb_le]. lia.
Qed.

Lemma split_on_bytes (P : byte → Prop) sep b : (∀ c, byte_to_Z c = sep → P c) → ∀ cur, Forall (Forall P) (split_on sep cur b) → Forall P (rev cur ++ b).
Proof.
  intros Hsep. induction b as [|c b IH]; intros cur; cbn; [by rewrite app_nil_r, Forall_singleton|].
  destruct (byte_to_Z c =? sep) eqn:E; rewrite ?Forall_cons.
  - intros [Hc Hb]. apply Forall_app. split; [done|]. constructor; [apply Hsep; lia|]. by apply (IH []).
  - intros Hb%IH. cbn in Hb. by rewrite <- app_assoc in Hb.
Qed.

Lemma valid_host_bytes h : validPreviewCarrierHost h = true → Forall host_byte (sbytes h).
Proof.
  unfold validPreviewCarrierHost. intros [_ Hl]%andb_true_iff. apply (split_on_bytes host_byte 46 (sbytes h)) with (cur := []); [by left|].
  unfold Split in Hl. rewrite forallb_forall in Hl. apply Forall_forall. intros b Hb. specialize (Hl (bstring b)).
  assert (admission_label_ok (bstring b) = true) as Hok by (apply Hl, list_elem_of_In; by apply list_elem_of_fmap_2).
  unfold admission_label_ok in Hok. rewrite sbytes_bstring in Hok. destruct b as [|c b]; [constructor|]. apply andb_true_iff in Hok as [_ Hok].
  rewrite forallb_forall in Hok. apply Forall_forall. intros x Hx. apply list_elem_of_In in Hx. specialize (Hok x Hx).
  unfold host_byte. rewrite !orb_true_iff, Z.eqb_eq in Hok. tauto.
Qed.

Lemma normalized_bytes h : Forall host_byte (sbytes h) → Forall host_byte (sbytes (normalizePreviewCarrierHost h)).
Proof.
  intros Hh. unfold normalizePreviewCarrierHost. apply TrimSuffix_Forall.
  assert (Forall host_byte (sbytes (lower (TrimSuffix (TrimSpace h) ".")))) as Hl.
  { pose proof (TrimSuffix_Forall host_byte (TrimSpace h) "." (TrimSpace_Forall _ _ Hh)) as Ht. unfold lower, ToLower.
    assert (is_ascii (TrimSuffix (TrimSpace h) ".") = true) as ->.
    { unfold is_ascii. apply forallb_forall. intros b Hb. rewrite Forall_forall in Ht. apply Z.ltb_lt. by apply host_byte_plain, Ht, list_elem_of_In. }
    rewrite sbytes_bstring. apply Forall_fmap. eapply Forall_impl; [exact Ht|]. intros b Hb. cbn. destruct (host_byte_plain b Hb) as (_ & _ & ->). done. }
  destruct (SplitHostPort _) as [[host port]|] eqn:E; [|done]. by eapply SplitHostPort_Forall.
Qed.

Lemma own_host_plain r id i e : vinv r → current r id = Some (i, e) → ∀ rest, pe_host e ≠ "*." +:+ rest.
Proof.
  intros Hv [Hb He]%current_Some rest E. destruct (v_route _ _ Hv _ _ Hb) as (e' & He' & _ & _ & Hck & Hh). rewrite He in He'. injection He' as <-.
  pose proof (normalized_bytes _ (valid_host_bytes _ (ck_host _ _ _ Hck))) as Hf. rewrite <- Hh, E, sbytes_app in Hf. apply Forall_app in Hf as [Hf _].
  apply Forall_inv in Hf. by apply host_byte_plain in Hf as (_ & ? & _).
Qed.

(** The names under which entry [e] is found: its own, that of an attached alias, or a name
    one label below that of a wildcard alias. *)
Definition named (host : string) (e : dataCarrierPreviewRouteEntry) r : Prop :=
  host = pe_host e
  ∨ ∃ d a, pr_aliasesByID r !! d = Some a ∧ al_RouteID a = pv_RouteID (pe_route e) ∧ al_PreviewGeneration a = pv_LeaseGeneration (pe_route e)
      ∧ (al_Hostname a = host
         ∨ ∃ label rest, sbytes host = label ++ x2e :: sbytes rest ∧ label ≠ [] ∧ Forall (λ b, byte_to_Z b ≠ 46) label ∧ al_Hostname a = "*." +:+ rest).

Lemma index_from_Some n c b k :
  index_from n c b = Some k → ∃ l x rest, b = l ++ x :: rest ∧ byte_to_Z x = c ∧ Forall (λ b, byte_to_Z b ≠ c) l ∧ k = (n + length l)%nat.
Proof.
  revert n. induction b as [|x b IH]; intros n; cbn; [done|]. destruct (byte_to_Z x =? c) eqn:E.
  - intros [= <-]. exists [], x, b. split_and!; [done|lia|constructor|cbn; lia].
  - intros (l & y & rest & -> & Hy & Hl & ->)%IH. exists (x :: l), y, rest. split_and!; [done|done|constructor; [lia|done]|cbn; lia].
Qed.

Lemma alias_lease r d a i e :
  vinv r → pr_aliasesByID r !! d = Some a → al_RouteID a = pv_RouteID (pe_route e) → current r (pv_RouteID (pe_route e)) = Some (i, e) →
  al_PreviewGeneration a = pv_LeaseGeneration (pe_route e).
Proof.
  intros Hv Ha Hr Hc. destruct (v_alias _ _ Hv d a Ha) as (_ & _ & j & e' & Hc' & <- & _). rewrite Hr, Hc in Hc'. by injection Hc' as <- <-.
Qed.

Lemma lookup_named r host i :
  vinv r → lookupHostLocked host r = Some i →
  ∃ e, current r (pv_RouteID (pe_route e)) = Some (i, e) ∧ pe_done e = false ∧ checked (pr_processEpoch r) (pe_route e) ∧ named host e r.
Proof.
  intros Hv Hl.
  assert (∃ name, pr_byHost r !! name = Some i
          ∧ (name = host ∨ ∃ label rest, sbytes host = label ++ x2e :: sbytes rest ∧ label ≠ [] ∧ Forall (λ b, byte_to_Z b ≠ 46) label ∧ name = "*." +:+ rest)) as (name & Hn & Hor).
  { unfold lookupHostLocked in Hl. destruct (pr_byHost r !! host) as [j|] eqn:E; [exists host; split; [congruence|by left]|].
    destruct (IndexByte (sbytes host) 46) as [dot|] eqn:Ed; [|done]. destruct (_ || _) eqn:Eb in Hl; [done|]. eexists. split; [exact Hl|]. right.
    apply index_from_Some in Ed as (l & x & rest & Es & Hx & Hf & ->). exists l, (bstring rest). rewrite sbytes_bstring. bools. split_and!; try done.
    - rewrite Es. f_equal. f_equal. rewrite <- (byte_of_to_Z x), Hx. done.
    - intros ->. cbn in *. lia.
    - cbn. f_equal. f_equal. f_equal. rewrite Es. change (S (0 + length l)) with (S (length l)). clear. induction l; [done|]. cbn. done. }
  destruct (v_host _ _ Hv name i Hn) as (e & He & Hb & Hor'). destruct (v_route _ _ Hv _ _ Hb) as (e' & He' & _ & Hd & Hck & _). rewrite He in He'. injection He' as <-.
  assert (current r (pv_RouteID (pe_route e)) = Some (i, e)) as Hc by (by apply current_Some). exists e. split_and!; [done..|].
  destruct Hor' as [Ho|(d & a & Ha & Hah & Hr)].
  - destruct Hor as [->|(label & rest & _ & _ & _ & ->)]; [by left|]. exfalso. symmetry in Ho. by eapply own_host_plain.
  - right. exists d, a. split_and!; [done|done|by eapply alias_lease|]. rewrite Hah. destruct Hor as [->|?]; [by left|by right].
Qed.

Lemma drop_epoch id i host r : pr_processEpoch (drop_route id i host r) = pr_processEpoch r.
Proof. rewrite drop_route_eq. apply (sr_epoch _ _ (removeAliases_routes id r)). Qed.

Lemma attach_epoch p now r : vinv r → pr_processEpoch (Preview_Attach identity_of p now r).2 = pr_processEpoch r.
Proof.
  intros Hv. destruct (PreviewAttach_cases identity_of p now r Hv) as [->|(q & _ & _ & -> & _)]; [done|]. cbn [snd]. rewrite publish_link, (sr_epoch _ _ (activate_routes _ _)). cbn.
  by destruct (vacate_frame (pv_RouteID q) r) as (_ & -> & _).
Qed.

Lemma exec_epoch o r : vinv r → pr_processEpoch (exec o r).2 = pr_processEpoch r.
Proof.
  intros Hv. destruct o as [p now|a server now|id' identity revision|a|j| |a|a|aliases]; cbn [exec].
  - by apply attach_epoch.
  - unfold AttachAdmission. destruct (failed _); [done|]. destruct (_ != _); [done|]. by apply attach_epoch.
  - unfold Preview_Detach. destruct (_ || _); [done|]. destruct (pr_closed r); [done|]. destruct (current r id') as [[i' e']|]; [|done]. destruct (_ || _); [done|]. apply drop_epoch.
  - unfold DetachAdmission. destruct (_ || _); [done|]. destruct (pr_closed r); [done|]. destruct (current r _) as [[i' e']|]; [|done]. destruct (negb _); [done|]. apply drop_epoch.
  - cbn [snd]. unfold detachEntry. destruct (_ !! j) as [e'|]; [|done]. destruct (bool_decide _); [|done]. apply drop_epoch.
  - cbn [snd]. unfold Preview_Close. by destruct (pr_closed r).
  - unfold AttachAlias. destruct (normalize a); [done|]. destruct (pr_closed r); [done|]. apply (sr_epoch _ _ (attachAlias_routes _ _)).
  - unfold DetachAlias. destruct (normalize a); [done|]. destruct (_ !! _); [|done]. destruct (_ != _); [done|]. apply (sr_epoch _ _ (removeAlias_routes _ _)).
  - destruct (Reconcile_cases identity_of aliases r Hv) as [[-> _]|(next & _ & -> & _)]; [done|]. cbn [snd].
    transitivity (pr_processEpoch (prune_aliases next r <| pr_desiredAliases := next |>)).
    + apply (sr_epoch _ _). unfold activate_routes_of. apply (fold_routes (λ r (kv : string * nat), activateDesiredAliasesForRouteLocked kv.1 r)). intros r' kv. apply activate_routes.
    + destruct (prune_spec identity_of next r Hv) as (_ & Hr & _). apply (sr_epoch _ _ Hr).
Qed.

Lemma run_epoch allowed base epoch maximum r : preview_run allowed base epoch maximum r → pr_processEpoch r = epoch.
Proof.
  induction 1 as [r Hr|o r Hrun IH _]; [|rewrite exec_epoch; [done|by eapply run_inv]].
  unfold NewDataCarrierPreviewRegistry in Hr. destruct (_ && _); [done|]. destruct (_ || _); [done|]. destruct (failed _); [done|]. by injection Hr as <-.
Qed.

(** The decision that lets a restricted preview be opened: about this preview, under the name
    of the request, and authorizing the preface. *)
Definition decided (p : DataCarrierPreviewRoute) (host : string) (s : previewStream) (d : IngressDecision) `{AddrLib} (now : Time) : Prop :=
  ib_Audience (ig_Binding d) = pv_AccessMode p ∧ ib_PublicationID (ig_Binding d) = pv_PreviewID p ∧ ib_Hostname (ig_Binding d) = host
  ∧ ib_RouteGeneration (ig_Binding d) = pv_Revision p
  ∧ Decision_Authorize d d (ps_open s) (pv_EdgeNodeID p) (pv_EdgeProcessEpoch p) now = None.

(** C40. A request reaches a preview only over its own carrier: for every history of the
    registry, when a stream is opened for a request, the host names a route that is
    registered, unexpired and of this process, by its own name or by an alias of its lease
    generation; the stream goes to the carrier of that route and its preface names the
    identity of the carrier and the route.  A private or team preview got the decision of
    its viewer, about exactly this preview; a public one carries none. *)
Theorem preview_stream_bound `{AddrLib} allowed base epoch maximum r ctxErr host h browser stream frame now n s :
  preview_run allowed base epoch maximum r → RoundTrip_open ctxErr host h browser stream frame now n r = inr s →
  ∃ i e, let p := pe_route e in
    current r (pv_RouteID p) = Some (i, e) ∧ named (normalizePreviewCarrierHost host) e r
    ∧ expired_at now p = false ∧ pv_EdgeProcessEpoch p = epoch ∧ ps_server s = pv_Server p
    ∧ (let c := identity_of (ps_server s) in
       ps_open s = mkOpen ProtocolName ProtocolVersion (id_AccountID c) (id_TunnelID c) (id_ConnectorID c) (id_SessionID c) (id_ProcessGeneration c)
                     (id_Generation c) (pv_RouteID p) (so_RequestID (ps_open s)) (so_Kind (ps_open s)))
    ∧ (pv_AccessMode p = "public" → ps_decision s = None ∧ browser = None)
    ∧ (pv_AccessMode p ≠ "public" → ∃ d, browser = Some d ∧ ps_decision s = Some d ∧ decided p (normalizePreviewCarrierHost host) s d now).
Proof.
  intros Hrun Hs. pose proof (run_inv _ _ _ _ _ Hrun) as Hv. pose proof (run_epoch _ _ _ _ _ Hrun) as Hep.
  unfold RoundTrip_open in Hs. destruct ctxErr; [done|]. unfold Lookup, Preview_acquire in Hs. set (hn := normalizePreviewCarrierHost host) in *.
  destruct (lookupHostLocked hn r) as [i|] eqn:El; [|done]. destruct (lookup_named r hn i Hv El) as (e & Hc & _ & Hck & Hn). pose proof Hc as [_ He]%current_Some.
  rewrite He in Hs. cbn [fmap option_fmap option_map fst] in Hs. exists i, e. cbn zeta.
  set (p' := pe_route e <| pv_Hostname := hn |>) in *.
  destruct (expired_at now p') eqn:Ex; [done|]. rewrite Hep in Hck. pose proof (ck_identity _ _ _ Hck) as Hid.
  assert (∀ open d, match stream with Some e0 => inl (if interrupted e0 then e0 else EJoin ErrPreviewTransport e0)
                    | None => match d, frame with Some _, Some e0 => inl e0 | _, _ => inr (mkPreviewStream (pv_Server p') open d) end end = inr s →
          s = mkPreviewStream (pv_Server (pe_route e)) open d) as Hopen.
  { intros open d Hx. destruct stream; [done|]. destruct d, frame; try done; by injection Hx as <-. }
  destruct (decide (pv_AccessMode (pe_route e) = "public")) as [Hp|Hp].
  - assert ((pv_AccessMode p' == "private") || (pv_AccessMode p' == "team") = false) as Er by (cbn; by rewrite Hp). rewrite Er in Hs.
    destruct browser; [done|]. apply (Hopen _ None) in Hs as ->. cbn [ps_server ps_open ps_decision]. split_and!; try done; [apply Hck|]. unfold preview_open. cbn. by rewrite Hid.
  - assert ((pv_AccessMode p' == "private") || (pv_AccessMode p' == "team") = true) as Er.
    { cbn. destruct (ck_mode _ _ _ Hck) as [[_ ?]|[_ [->| ->]]]; done. }
    rewrite Er in Hs. destruct browser as [d|]; [|done]. destruct (decision_foreign p' d) eqn:Ef; [done|]. destruct (failed _) eqn:Ea in Hs; [done|].
    apply (Hopen _ (Some d)) in Hs as ->. cbn [ps_server ps_open ps_decision]. split_and!; try done; [apply Hck|unfold preview_open; cbn; by rewrite Hid|].
    intros _. exists d. split_and!; try done. unfold decision_foreign in Ef. cbn in Ef. bools. unfold decided. cbn [ps_open].
    split_and!; try done; try lia. by apply failed_false.
Qed.

End Runs.
(** ** The limit on response headers *)

(** The blank line that ends the headers, searched for directly. *)
Definition blank_line (b : bytes) : bool :=
  match b with
  | w :: x :: y :: z :: _ => (byte_to_Z w =? 13) && (byte_to_Z x =? 10) && (byte_to_Z y =? 13) && (byte_to_Z z =? 10)
  | _ => false
  end.

Fixpoint find_end (b : bytes) : option nat :=
  if blank_line b then Some 4%nat else match b with [] => None | _ :: b => S <$> find_end b end.

(** The reader on the chunks the stream returns. *)
Fixpoint header_reads (maximum : Z) (s : boundedHeaderReader) (chunks : list bytes) : option boundedHeaderReader :=
  match chunks with
  | [] => Some s
  | c :: chunks => match header_Read maximum s c with Some s => header_reads maximum s chunks | None => None end
  end.

Lemma header_scan_app maximum s b b' :
  hr_ended s = false →
  header_scan maximum s (b ++ b') = match header_scan maximum s b with Some s' => header_Read maximum s' b' | None => None end.
Proof.
  revert s. induction b as [|c b IH]; intros s Hs; cbn; [unfold header_Read; by rewrite Hs|].
  destruct (header_byte maximum s c) as [s'|]; [|done]. destruct (hr_ended s') eqn:E; [unfold header_Read; by rewrite E|by apply IH].
Qed.

Lemma header_reads_concat maximum s chunks : header_reads maximum s chunks = header_Read maximum s (concat chunks).
Proof.
  revert s. induction chunks as [|c chunks IH]; intros s; cbn; [unfold header_Read; by destruct (hr_ended s)|].
  unfold header_Read at 1 2. destruct (hr_ended s) eqn:E; [rewrite IH; unfold header_Read; by rewrite E|]. rewrite header_scan_app by done.
  destruct (header_scan maximum s c); [apply IH|done].
Qed.

(** What was matched of the separator so far. *)
Definition matched (k : nat) : bytes := take k [x0d; x0a; x0d; x0a].

Definition scanned (maximum read : Z) (k : nat) (b : bytes) (result : option boundedHeaderReader) : Prop :=
  match find_end (matched k ++ b) with
  | Some n => let total := read + Z.of_nat n - Z.of_nat k in
              if total <=? maximum then ∃ s, result = Some s ∧ hr_ended s = true ∧ hr_read s = total else result = None
  | None => if read + blen b <=? maximum then ∃ s, result = Some s ∧ hr_ended s = false ∧ hr_read s = read + blen b else result = None
  end.

#[local] Arguments blank_line : simpl never.

Lemma find_end_cons c b : find_end (c :: b) = if blank_line (c :: b) then Some 4%nat else S <$> find_end b.
Proof. done. Qed.

Lemma find_end_least b n : find_end b = Some n → (4 ≤ n)%nat.
Proof.
  revert n. induction b as [|c b IH]; intros n; [done|]. rewrite find_end_cons. destruct (blank_line (c :: b)); [intros [= <-]; lia|].
  destruct (find_end b) as [m|] eqn:E; [|done]. intros [= <-]. pose proof (IH m eq_refl). lia.
Qed.

Lemma blank_line_not b k c z : (b !! k = Some c) → [13; 10; 13; 10] !! k = Some z → byte_to_Z c ≠ z → blank_line b = false.
Proof.
  intros Hb Hz Hne. unfold blank_line. destruct b as [|b0 [|b1 [|b2 [|b3 b]]]]; try done.
  destruct k as [|[|[|[|k]]]]; cbn in Hb, Hz; simplify_eq; rewrite (proj2 (Z.eqb_neq _ _) Hne), ?andb_false_r; done.
Qed.

(** A byte that does not go on with the separator: no blank line starts before it. *)
Lemma find_end_skip k c b :
  (k ≤ 3)%nat → separator !! k ≠ Some (byte_to_Z c) → find_end (matched k ++ c :: b) = Nat.add k <$> find_end (c :: b).
Proof.
  assert (∀ o : option nat, S <$> o = Nat.add 1 <$> o) as H1 by (by intros []). unfold separator.
  intros Hk Hs. destruct k as [|[|[|[|k]]]]; [|cbn in Hs|cbn in Hs|cbn in Hs|lia]; cbn [matched take app].
  - by destruct (find_end (c :: b)).
  - rewrite find_end_cons, (blank_line_not _ 1 c 10) by (done || congruence). done.
  - rewrite find_end_cons, (blank_line_not _ 2 c 13) by (done || congruence). rewrite find_end_cons, (blank_line_not _ 0 x0a 13) by done. by destruct (find_end (c :: b)).
  - rewrite find_end_cons, (blank_line_not _ 3 c 10) by (done || congruence). rewrite find_end_cons, (blank_line_not _ 0 x0a 13) by done.
    rewrite find_end_cons, (blank_line_not _ 1 c 10) by (done || congruence). by destruct (find_end (c :: b)).
Qed.

Lemma scanned_skip maximum read k c b result (k' : nat) :
  (k ≤ 3)%nat → find_end (matched k ++ c :: b) = Nat.add (S k - k')%nat <$> find_end (matched k' ++ b) → (k' ≤ 1)%nat →
  scanned maximum (read + 1) k' b result → scanned maximum read k (c :: b) result.
Proof.
  intros Hk Hf Hk' Hs. unfold scanned in *. rewrite Hf. destruct (find_end (matched k' ++ b)) as [n|] eqn:En; cbn.
  - replace (read + Z.of_nat (S k - k' + n) - Z.of_nat k) with (read + 1 + Z.of_nat n - Z.of_nat k') by lia. done.
  - unfold blen in *. cbn. replace (read + Z.of_nat (S (length b))) with (read + 1 + Z.of_nat (length b)) by lia. done.
Qed.

Lemma header_scan_spec maximum b read k :
  (k ≤ 3)%nat → read ≤ maximum → scanned maximum read k b (header_scan maximum (mkHeaderReader read k false) b).
Proof.
  revert read k. induction b as [|c b IH]; intros read k Hk Hr.
  { unfold scanned. rewrite app_nil_r. assert (find_end (matched k) = None) as -> by (destruct k as [|[|[|[|k]]]]; (done || lia)).
    unfold blen. cbn. rewrite (proj2 (Z.leb_le _ _)) by lia. eexists. split_and!; [done|done|cbn; lia]. }
  cbn [header_scan]. unfold header_byte. cbn [hr_read hr_matched hr_ended]. destruct (maximum <? read + 1) eqn:Em.
  { unfold scanned. destruct (find_end _) as [n|] eqn:En.
    - pose proof (find_end_least _ _ En). by rewrite (proj2 (Z.leb_gt _ _)) by lia.
    - unfold blen. cbn. by rewrite (proj2 (Z.leb_gt _ _)) by lia. }
  case_bool_decide as Hs.
  - assert (c = default x00 ([x0d; x0a; x0d; x0a] !! k)) as ->.
    { rewrite <- (byte_of_to_Z c). destruct k as [|[|[|[|k]]]]; cbn in Hs; try (by injection Hs as <-); lia. }
    destruct (decide (k = 3%nat)) as [->|Hk3].
    + unfold scanned. assert (find_end (matched 3 ++ default x00 ([x0d; x0a; x0d; x0a] !! 3%nat) :: b) = Some 4%nat) as -> by done.
      cbn zeta. rewrite (proj2 (Z.leb_le _ _)) by lia. eexists. split_and!; [done|done|cbn [hr_read]; lia].
    + assert (bool_decide (S k = length separator) = false) as -> by (apply bool_decide_eq_false_2; cbn; lia). cbn [hr_ended].
      specialize (IH (read + 1) (S k)). unfold scanned in *.
      assert (matched k ++ default x00 ([x0d; x0a; x0d; x0a] !! k) :: b = matched (S k) ++ b) as -> by (destruct k as [|[|[|k]]]; (done || lia)).
      specialize (IH ltac:(lia) ltac:(lia)). destruct (find_end (matched (S k) ++ b)) as [n|].
      * by replace (read + Z.of_nat n - Z.of_nat k) with (read + 1 + Z.of_nat n - Z.of_nat (S k)) by lia.
      * unfold blen in *. cbn. by replace (read + Z.of_nat (S (length b))) with (read + 1 + Z.of_nat (length b)) by lia.
  - pose proof (find_end_skip k c b Hk Hs) as Hf. destruct (byte_to_Z c =? 13) eqn:Ec; cbn [hr_ended].
    + apply (scanned_skip maximum read k c b _ 1); [done| |lia|apply IH; lia]. replace (S k - 1)%nat with k by lia. rewrite Hf. cbn [matched take app].
      assert (c = x0d) as -> by (rewrite <- (byte_of_to_Z c); apply Z.eqb_eq in Ec; by rewrite Ec). done.
    + apply (scanned_skip maximum read k c b _ 0); [done| |lia|apply IH; lia]. rewrite Hf, find_end_cons, (blank_line_not _ 0 c 13) by (done || lia). cbn [matched take app].
      replace (S k - 0)%nat with (S k) by lia. destruct (find_end b); cbn; [f_equal; lia|done].
Qed.

(** The reader enforces exactly its limit, however the stream cuts the response into chunks:
    if the headers end within the limit all chunks pass, and the reader has counted the
    bytes up to and including the blank line; if they end later, or do not end within that
    many bytes, reading fails. *)
Theorem header_limit_exact maximum chunks :
  0 ≤ maximum →
  let result := header_reads maximum new_header_reader chunks in
  match find_end (concat chunks) with
  | Some n => if Z.of_nat n <=? maximum then ∃ s, result = Some s ∧ hr_ended s = true ∧ hr_read s = Z.of_nat n else result = None
  | None => if blen (concat chunks) <=? maximum then ∃ s, result = Some s ∧ hr_ended s = false ∧ hr_read s = blen (concat chunks) else result = None
  end.
Proof.
  intros Hm. cbn zeta. rewrite header_reads_concat. pose proof (header_scan_spec maximum (concat chunks) 0 0 ltac:(lia) Hm) as Hs.
  unfold scanned in Hs. cbn [matched take app] in Hs. unfold header_Read, new_header_reader. cbn [hr_ended]. destruct (find_end (concat chunks)) as [n|]; [|done].
  by replace (0 + Z.of_nat n - Z.of_nat 0) with (Z.of_nat n) in Hs by lia.
Qed.

(** ** A registry with two previews *)

Module Aliases.
Import Carrier (mkIdentity, zeroIdentity).

#[local] Instance sample_rotation : RotationMessages.RotationLib := {|
  RotationMessages.sha256_sum b := take 32 b;
  RotationMessages.ed25519_Verify _ _ _ := true;
  RotationMessages.url_Parse _ := None;
  RotationMessages.marshal_plan _ _ _ _ := None;
  RotationMessages.marshal_proof _ := None
|}.
#[local] Instance sample_text : TextLib := {|
  unicode_lower s := s; ToASCII s := Some s; isIP s := s == "127.0.0.1"; ValidUTF8 _ := true |}.
#[local] Instance sample_fold : FoldLib := λ _ _, false.
#[local] Instance sample_addr : AddrLib := λ s, s == "127.0.0.1".
#[local] Instance sample_range : RangeOrder := {| range_of A m := map_to_list m; range_of_perm A m := Permutation_refl _ |}.

Definition epoch0 := "epoch-0123456789abcdef0123456789abcdef".
Definition identity_of (server : nat) : Identity := mkIdentity "acct" "host" "tun" (if (server =? 1)%nat then "con1" else "con2") "sess" 1 1.

Definition route (id host : string) (mode : string) (server : nat) (revision : Z) : DataCarrierPreviewRoute :=
  mkPreview id host (if mode == "public" then dataCarrierPreviewRouteKind else Browser.dataCarrierPreviewPrivateRouteKind) revision zeroIdentity server
    "pub" "op" "host" "owner" mode "edge" epoch0 "" "" 5 0 "" "" 0 "" "".

Definition alias (domain routeID host match_type : string) : DataCarrierPreviewAlias := mkAlias domain routeID host match_type 5 1 1.

Definition registry0 : DataCarrierPreviewRegistry := mkPreviewRegistry "preview.example.com" epoch0 8 false ∅ ∅ ∅ ∅ ∅ ∅.

Definition after (os : list op) : DataCarrierPreviewRegistry := List.fold_left (λ r o, (exec identity_of o r).2) os registry0.

Lemma after_run allowed os : forallb allowed os = true → preview_run identity_of allowed "preview.example.com" epoch0 8 (after os).
Proof.
  intros Ho. assert (preview_run identity_of allowed "preview.example.com" epoch0 8 registry0) as Hr by (apply run_new; vm_compute; reflexivity).
  unfold after. revert Hr. generalize registry0. induction os as [|o os IH]; intros r Hr; [exact Hr|]. cbn in Ho. apply andb_true_iff in Ho as [Ho Hos].
  cbn. apply (IH Hos). by constructor.
Qed.

(** A private preview with a custom domain and a wildcard. *)
Definition aliases0 := [alias "dom1" "route1" "Shop.example.net." "exact"; alias "dom2" "route1" "*.example.org" "one_label_wildcard";
                        alias "dom3" "route3" "late.example.net" "exact"].
Definition ops0 : list op :=
  [OAttach (route "route1" "app.preview.example.com" "private" 1 1) 1; OAttach (route "route2" "b.preview.example.com" "public" 2 1) 1; OReconcile aliases0].

Definition binding0 : IngressBinding :=
  mkIngressBinding "env" "acct" "tun" "ephemeral" 1 "route1" 1 "target" 1 "host" 1 "private" "edge" "http" "www.example.org" "/"
    "http" "127.0.0.1:8080" "" "not_applicable" "" "" "pub" 1 "" 0.
Definition t0 : Time := 1000 * Second.
Definition decision0 : IngressDecision :=
  mkDecision binding0 "decision" 1 "edge" epoch0 "con1" "sess" 1 1 1 "viewer" "grant" 1 0 "view" t0 (t0 + 5 * Second).

Example aliases_resolve :
  (λ p, (pv_RouteID p, pv_Hostname p)) <$> Lookup "shop.EXAMPLE.net:443" (after ops0) = Some ("route1", "shop.example.net")
  ∧ pv_RouteID <$> Lookup "www.example.org" (after ops0) = Some "route1" ∧ pv_RouteID <$> Lookup "a.b.example.org" (after ops0) = None
  ∧ pv_RouteID <$> Lookup "late.example.net" (after ops0) = None ∧ pv_RouteID <$> Lookup "b.preview.example.com" (after ops0) = Some "route2".
Proof. vm_compute. auto 10. Qed.

Lemma preview_hosts_reconciled_witness :
  pr_byHost (after ops0) !! "*.example.org" = Some 0%nat
  ∧ ∃ e, current (after ops0) (pv_RouteID (pe_route e)) = Some (0%nat, e) ∧ ("*.example.org" = pe_host e ∨ ∃ raw a, raw ∈ aliases0 ∧ normalize raw = inr a).
Proof.
  assert (pr_byHost (after ops0) !! "*.example.org" = Some 0%nat) as Hh by (vm_compute; reflexivity). split; [exact Hh|].
  destruct (preview_hosts_reconciled identity_of "preview.example.com" epoch0 8 (after (take 2 ops0)) aliases0 (after ops0)) as [_ Hx].
  - apply after_run. reflexivity.
  - vm_compute. reflexivity.
  - apply Hx in Hh as (e & Hc & Hor). exists e. split; [exact Hc|]. destruct Hor as [Ho|(raw & a & Hr & Hn & _)]; [left; exact Ho|right; exists raw, a; exact (conj Hr Hn)].
Defined.

Lemma preview_stream_bound_witness :
  ∃ s, RoundTrip_open None "www.example.org" ∅ (Some decision0) None None t0 1 (after ops0) = inr s ∧ ps_server s = 1%nat ∧ ps_decision s = Some decision0
    ∧ ∃ i e, current (after ops0) (pv_RouteID (pe_route e)) = Some (i, e) ∧ named "www.example.org" e (after ops0).
Proof.
  eexists. split; [vm_compute; reflexivity|]. split; [reflexivity|]. split; [reflexivity|].
  destruct (preview_stream_bound identity_of (λ _, true) "preview.example.com" epoch0 8 (after ops0) None "www.example.org" ∅ (Some decision0) None None t0 1
    (mkPreviewStream 1 (preview_open (route "route1" "www.example.org" "private" 1 1 <| pv_Identity := identity_of 1 |>) 1 "http_browser") (Some decision0))) as (i & e & Hc & Hn & _).
  - apply after_run. reflexivity.
  - vm_compute. reflexivity.
  - exists i, e. split; [exact Hc|exact Hn].
Defined.

Definition entry1 : dataCarrierPreviewRouteEntry := default (mkPreviewEntry (route "" "" "" 0 0) "" true) (pr_entries (after ops0) !! 0%nat).

Lemma preview_route_fenced_witness :
  current (after ops0) "route1" = Some (0%nat, entry1) ∧ succeeded_by identity_of (OEnded 0) "route1" 0 entry1 (exec identity_of (OEnded 0) (after ops0)).2
  ∧ current (exec identity_of (OEnded 0) (after ops0)).2 "route1" = None.
Proof.
  assert (current (after ops0) "route1" = Some (0%nat, entry1)) as Hc by (vm_compute; reflexivity). split; [exact Hc|]. split; [|vm_compute; reflexivity].
  apply (preview_route_fenced identity_of (λ _, true) "preview.example.com" epoch0 8 (after ops0) (OEnded 0) "route1" 0 entry1); [|exact Hc]. apply after_run. reflexivity.
Defined.

Lemma header_limit_exact_witness :
  ∃ s, header_reads 8 new_header_reader [sbytes "ab"; [x0d; x0a]; [x0d]; [x0a; x21]] = Some s ∧ hr_ended s = true ∧ hr_read s = 6.
Proof. exact (header_limit_exact 8 [sbytes "ab"; [x0d; x0a]; [x0d]; [x0a; x21]] ltac:(lia)). Defined.

(** With aliases attached one by one, two domains may share a host name.  Removing the first
    frees the name, a second preview takes it as its own, and removing the other domain takes
    the name away from that preview: it is registered and not reachable. *)
Definition ops1 : list op :=
  [OAttach (route "route1" "app.preview.example.com" "public" 1 1) 1;
   OAttachAlias (alias "dom1" "route1" "b.preview.example.com" "exact"); OAttachAlias (alias "dom2" "route1" "b.preview.example.com" "exact");
   ODetachAlias (alias "dom1" "route1" "b.preview.example.com" "exact"); OAttach (route "route2" "b.preview.example.com" "public" 2 1) 1;
   ODetachAlias (alias "dom2" "route1" "b.preview.example.com" "exact")].

Example alias_removal_unroutes :
  (pe_host ∘ snd) <$> current (after ops1) "route2" = Some "b.preview.example.com" ∧ pv_RouteID <$> Lookup "b.preview.example.com" (after (take 5 ops1)) = Some "route2"
  ∧ Lookup "b.preview.example.com" (after ops1) = None.
Proof. vm_compute. auto. Qed.

End Aliases.

End PreviewRegistryGuarantees.
