(* ===== verification/PreviewWorker.v ===== *)
(** * The preview worker and the carrier handler

    Models [internal/runtime/preview_carrier.go]: the worker that brings the admissions and
    aliases the control plane wants into the two registries of the edge, removes routes that
    were withdrawn or expired and reports them, and the handler that attaches the routes of
    one carrier.  The calls to the control plane are arguments that hold their answers; a
    round of the worker and a round of a handler are functions on the registries they share.
    The loops that start them, timers and shutdown signals are left out. *)
From S2P Require Import Prelude Go Strings Protocol Route RotationMessages StreamFrames Carrier PreviewAdmission PreviewAdmissionProofs Ingress HTTP PreviewRegistry PreviewRegistryProofs PreviewRegistryGuarantees.

(** * Preview documents of the control plane

    Models [internal/control/preview_carrier.go] and the check of a carrier's certificate
    chain in [contracts.go]: the admissions, observations and detachments of preview
    carriers, how an admission is normalized and checked, and what it is for the edge.  PEM
    and X.509 parsing are the interface [CertLib], URL parsing [RotationLib].  The first edge
    endpoint is used before it is checked: the result [None] of a check is the panic on one
    that is not a URL.  Detail texts of errors are left out. *)

(** A parsed certificate, as far as the check looks at it. *)
Record Certificate := mkCert {
  x_NotBefore : Time;
  x_NotAfter : Time;
  x_VerifyHostname : string → bool;
  x_RawSPKI : bytes
}.

(** [pem.Decode] with the type, the number of headers and the content of a block, and
    [x509.ParseCertificate]. *)
Class CertLib := {
  pem_Decode : bytes → option (string * Z * bytes * bytes);
  ParseCertificate : bytes → option Certificate
}.

Module PreviewDocuments.
Import Route PreviewAdmission StreamFrames RotationMessages.
Import Carrier (Identity, mkIdentity).
Import Ingress (ErrControlInvalid, ErrControlUnavailable).

Definition ErrPreviewCarrierInvalid : err := EPlain "invalid preview carrier control document".
Definition ErrPreviewCarrierStale : err := EPlain "preview carrier control document is stale".
Definition maxPreviewCarrierAdmissions : Z := 4096.
Definition maxPreviewCarrierAliases : Z := 64.
Definition maximumCarrierServerCertificateChainPEM : Z := 65536.

Record PreviewCarrierBinding := mkCarrierBinding {
  pb_AccountID : string;
  pb_PreviewID : string;
  pb_OperationID : string;
  pb_OwnerDeviceID : string;
  pb_OwnerSessionID : string;
  pb_HostID : string;
  pb_LeaseGeneration : Z;
  pb_TunnelID : string;
  pb_ConnectorID : string;
  pb_SessionID : string;
  pb_ProcessGeneration : Z;
  pb_ConfigGeneration : Z;
  pb_RouteID : string;
  pb_RouteGeneration : Z;
  pb_EdgeNodeID : string;
  pb_EdgeProcessEpoch : string;
  pb_ServerSPKI : string;
  pb_ServerChainPEM : string;
  pb_MachineIdentityPublicKey : string;
  pb_MachineIdentityThumbprint : string
}.

Record PreviewCarrierAlias := mkCarrierAlias {
  ca_DomainID : string;
  ca_Hostname : string;
  ca_MatchType : string;
  ca_WildcardLabels : option Z;
  ca_PreviewGeneration : Z;
  ca_DomainGeneration : Z;
  ca_CertificateGeneration : Z
}.

Record PreviewCarrierAdmission := mkAdmission {
  cd_Schema : string;
  cd_Kind : string;
  cd_Binding : PreviewCarrierBinding;
  cd_AttachmentGeneration : Z;
  cd_ConfigContentHash : string;
  cd_EdgeEndpoints : list string;
  cd_Endpoint : string;
  cd_ExpiresAt : Time;
  cd_AccessMode : string;
  cd_State : string;
  cd_Hostname : string;
  cd_RouteKind : string;
  cd_RouteRevision : Z;
  cd_Aliases : list PreviewCarrierAlias
}.
#[export] Instance PreviewCarrierAdmission_eta : Eta PreviewCarrierAdmission := λ a,
  mkAdmission (cd_Schema a) (cd_Kind a) (cd_Binding a) (cd_AttachmentGeneration a) (cd_ConfigContentHash a) (cd_EdgeEndpoints a) (cd_Endpoint a)
    (cd_ExpiresAt a) (cd_AccessMode a) (cd_State a) (cd_Hostname a) (cd_RouteKind a) (cd_RouteRevision a) (cd_Aliases a).

Record PreviewCarrierObservation := mkObservation {
  ob_Schema : string;
  ob_Kind : string;
  ob_Binding : PreviewCarrierBinding;
  ob_AttachmentGeneration : Z;
  ob_State : string;
  ob_Reason : string;
  ob_ObservedAt : Time
}.

Record PreviewCarrierDetachment := mkDetachment {
  dt_Schema : string;
  dt_Kind : string;
  dt_Binding : PreviewCarrierBinding;
  dt_AttachmentGeneration : Z;
  dt_Reason : string;
  dt_ObservedAt : Time
}.

Definition invalid : err := EWrap "" ErrPreviewCarrierInvalid.

Section Documents.
Context `{RotationLib} `{TextLib} `{CertLib}.

(** ** Certificates *)

(** [hex.EncodeToString]. *)
Definition hex_digit (v : Z) : byte := byte_of_Z (if v <? 10 then 48 + v else 87 + v).
Definition hex_EncodeToString (b : bytes) : string := bstring (b ≫= λ c, [hex_digit (byte_to_Z c / 16); hex_digit (byte_to_Z c mod 16)]).

(** The loop over the blocks; the ninth certificate is an error, which is the bound of the
    recursion. *)
Fixpoint chain_leaf (fuel : nat) (rest : bytes) (leaf : option Certificate) : option Certificate :=
  match rest with
  | [] => leaf
  | _ =>
      match fuel with
      | O => None
      | S fuel =>
          match pem_Decode rest with
          | Some (type, headers, content, next) =>
              if (type != "CERTIFICATE") || negb (headers =? 0) || (blen content =? 0) then None
              else match ParseCertificate content with
              | None => None
              | Some certificate => chain_leaf fuel next (match leaf with Some l => Some l | None => Some certificate end)
              end
          | None => None
          end
      end
  end.

Definition ValidateCarrierServerCertificateChain (chainPEM pin hostname : string) (now : Time) : bool :=
  if (len chainPEM =? 0) || (maximumCarrierServerCertificateChainPEM <? len chainPEM) || negb (valid_spki pin) then false
  else match chain_leaf 8 (sbytes chainPEM) None with
  | None => false
  | Some leaf => negb (now <? x_NotBefore leaf) && (now <? x_NotAfter leaf) && x_VerifyHostname leaf hostname
                 && (pin == "sha256:" +:+ hex_EncodeToString (sha256_sum (x_RawSPKI leaf)))
  end.

(** ** Admissions *)

Definition machineKey (value thumbprint : string) : option err :=
  match DecodeString value with
  | Some decoded =>
      if negb (blen decoded =? PublicKeySize) then Some ErrPreviewCarrierInvalid
      else if thumbprint != key_thumbprint decoded then Some ErrPreviewCarrierInvalid else None
  | None => Some ErrPreviewCarrierInvalid
  end.

Definition validPreviewCarrierHostname (value : string) : bool :=
  negb ((value == "") || (253 <? len value) || ContainsAny value [47; 58; 64; 91; 93; 32; 9; 13; 10])
  && forallb admission_label_ok (Split (lower (TrimSuffix value ".")) 46).

Definition validPreviewCarrierAliasHostname (hostname matchType : string) (wildcardLabels : option Z) : bool :=
  if matchType == "exact" then negb (nonnil wildcardLabels) && negb (HasPrefix hostname "*.") && validPreviewCarrierHostname hostname
  else if matchType == "one_label_wildcard"
  then bool_decide (wildcardLabels = Some 1) && HasPrefix hostname "*." && validPreviewCarrierHostname (TrimPrefix hostname "*.")
  else false.

Definition normalize_alias (a : PreviewCarrierAlias) : PreviewCarrierAlias :=
  mkCarrierAlias (TrimSpace (ca_DomainID a)) (lower (TrimSuffix (TrimSpace (ca_Hostname a)) ".")) (ca_MatchType a) (ca_WildcardLabels a)
    (ca_PreviewGeneration a) (ca_DomainGeneration a) (ca_CertificateGeneration a).

Definition default_mode (a : PreviewCarrierAdmission) : option string :=
  if cd_AccessMode a != "" then Some (cd_AccessMode a)
  else if cd_RouteKind a == PreviewCarrierRoute then Some "public" else if cd_RouteKind a == PreviewCarrierPrivateRoute then Some "private" else None.

Definition default_kind (a : PreviewCarrierAdmission) : option string :=
  if cd_RouteKind a != "" then Some (cd_RouteKind a)
  else if cd_AccessMode a == "public" then Some PreviewCarrierRoute
  else if (cd_AccessMode a == "private") || (cd_AccessMode a == "team") then Some PreviewCarrierPrivateRoute else None.

Definition endpoint_host (u : URL) : string := lower (TrimSuffix (Hostname (url_Host u)) ".").

Definition Normalize (a : PreviewCarrierAdmission) : err + PreviewCarrierAdmission :=
  match (if cd_Hostname a == "" then match url_Parse (cd_Endpoint a) with Some u => Some (endpoint_host u) | None => None end else Some (cd_Hostname a)) with
  | None => inl invalid
  | Some hostname =>
      let a := a <| cd_Hostname := hostname |> in
      match default_mode a with
      | None => inl invalid
      | Some mode =>
          let a := a <| cd_AccessMode := mode |> in
          match default_kind a with
          | None => inl invalid
          | Some kind =>
              let a := a <| cd_RouteKind := kind |> in
              let a := if cd_RouteRevision a =? 0 then a <| cd_RouteRevision := pb_RouteGeneration (cd_Binding a) |> else a in
              inr (a <| cd_Aliases := normalize_alias <$> cd_Aliases a |>)
          end
      end
  end.

(** [URL.Port]. *)
Definition Port (host : string) : string :=
  match LastIndexByte (sbytes host) 58 with
  | Some i => if valid_optional_port (drop i (sbytes host)) then bstring (drop (S i) (sbytes host)) else ""
  | None => ""
  end.

Fixpoint edge_endpoints_ok (endpoints seen : list string) : bool :=
  match endpoints with
  | [] => mem_str seen "h2" && mem_str seen "h3"
  | e :: endpoints =>
      match url_Parse e with
      | None => false
      | Some u =>
          negb ((url_Host u == "") || url_hasUser u || (url_RawQuery u != "") || (url_Fragment u != "") || (url_Path u != "")
                || (url_Scheme u != "h2") && (url_Scheme u != "h3") || (Port (url_Host u) == ""))
          && (match Atoi (Port (url_Host u)) with Some port => (1 <=? port) && (port <=? 65535) | None => false end)
          && negb (mem_str seen (url_Scheme u)) && edge_endpoints_ok endpoints (url_Scheme u :: seen)
      end
  end.

Fixpoint aliases_ok (lease : Z) (aliases : list PreviewCarrierAlias) (ids hosts : list string) : bool :=
  match aliases with
  | [] => true
  | a :: aliases =>
      negb (badID (ca_DomainID a) || negb (ca_PreviewGeneration a =? lease) || (ca_DomainGeneration a =? 0) || (ca_CertificateGeneration a =? 0)
            || negb (validPreviewCarrierAliasHostname (ca_Hostname a) (ca_MatchType a) (ca_WildcardLabels a)))
      && negb (mem_str ids (ca_DomainID a)) && negb (mem_str hosts (ca_Hostname a))
      && aliases_ok lease aliases (ca_DomainID a :: ids) (ca_Hostname a :: hosts)
  end.

Definition endpoint_bound (a : PreviewCarrierAdmission) : bool :=
  match url_Parse (cd_Endpoint a) with
  | None => false
  | Some u => ((url_Scheme u == "https") || (url_Scheme u == "http")) && (url_Host u != "") && negb (url_hasUser u) && (url_RawQuery u == "")
              && (url_Fragment u == "") && (endpoint_host u == cd_Hostname a)
  end.

(** The checks before the certificate chain, and those after it. *)
Definition admission_bound (a : PreviewCarrierAdmission) (nodeID : string) (processEpoch : option string) : bool :=
  let b := cd_Binding a in
  negb (badID nodeID || match processEpoch with Some e => failed (ValidateOpaqueEpoch e) | None => false end)
  && negb ((cd_Schema a != PreviewCarrierSchema) || (cd_Kind a != PreviewCarrierKind) || (pb_EdgeNodeID b != nodeID)
           || match processEpoch with Some e => pb_EdgeProcessEpoch b != e | None => false end)
  && negb (existsb badID [pb_AccountID b; pb_PreviewID b; pb_OperationID b; pb_OwnerDeviceID b; pb_OwnerSessionID b; pb_HostID b; pb_TunnelID b;
                          pb_ConnectorID b; pb_SessionID b; pb_RouteID b])
  && negb (failed (ValidateOpaqueEpoch (pb_EdgeProcessEpoch b)))
  && negb ((pb_HostID b != pb_OwnerDeviceID b) || (pb_TunnelID b == pb_ConnectorID b))
  && negb ((pb_LeaseGeneration b =? 0) || (pb_ProcessGeneration b =? 0) || (pb_ConfigGeneration b =? 0) || (pb_RouteGeneration b =? 0)
           || (cd_AttachmentGeneration a =? 0) || (cd_RouteRevision a =? 0) || negb (cd_RouteRevision a =? pb_RouteGeneration b))
  && mem_str ["public"; "private"; "team"] (cd_AccessMode a)
  && (cd_RouteKind a == (if (cd_AccessMode a == "private") || (cd_AccessMode a == "team") then PreviewCarrierPrivateRoute else PreviewCarrierRoute))
  && validPreviewCarrierHostname (cd_Hostname a)
  && mem_str [""; "pending"; "admitted"; "edge_ready"; "ready"] (cd_State a)
  && endpoint_bound a && validAdmissionContentHash (cd_ConfigContentHash a) && bool_decide (length (cd_EdgeEndpoints a) = 2%nat).

Definition admission_current (a : PreviewCarrierAdmission) (now : Time) : option err :=
  let b := cd_Binding a in
  if negb (edge_endpoints_ok (cd_EdgeEndpoints a) []) then Some invalid
  else if IsZero (cd_ExpiresAt a) || negb (After (cd_ExpiresAt a) now) then Some ErrPreviewCarrierStale
  else if maxPreviewCarrierAliases <? Z.of_nat (length (cd_Aliases a)) then Some invalid
  else if negb (aliases_ok (pb_LeaseGeneration b) (cd_Aliases a) [] []) then Some invalid
  else machineKey (pb_MachineIdentityPublicKey b) (pb_MachineIdentityThumbprint b).

(** [Validate]; [None] is a panic. *)
Definition Admission_Validate (a : PreviewCarrierAdmission) (nodeID : string) (now : Time) (processEpoch : option string) : option (option err) :=
  match Normalize a with
  | inl e => Some (Some e)
  | inr a =>
      if negb (admission_bound a nodeID processEpoch) then Some (Some invalid)
      else match cd_EdgeEndpoints a with
      | [] => Some (Some invalid)
      | first :: _ =>
          match url_Parse first with
          | None => None
          | Some u => if negb (ValidateCarrierServerCertificateChain (pb_ServerChainPEM (cd_Binding a)) (pb_ServerSPKI (cd_Binding a)) (Hostname (url_Host u)) now)
                      then Some (Some invalid) else Some (admission_current a now)
          end
      end
  end.

Definition binding_identity (b : PreviewCarrierBinding) : Identity :=
  mkIdentity (pb_AccountID b) (pb_HostID b) (pb_TunnelID b) (pb_ConnectorID b) (pb_SessionID b) (pb_ProcessGeneration b) (pb_ConfigGeneration b).

Definition expected_of (a : PreviewCarrierAdmission) : ExpectedAdmission :=
  let b := cd_Binding a in
  mkExpected (cd_Schema a) (cd_Kind a) (pb_EdgeNodeID b) (pb_PreviewID b) (pb_OperationID b) (pb_OwnerDeviceID b) (pb_OwnerSessionID b) (binding_identity b)
    (pb_LeaseGeneration b) (pb_ConfigGeneration b) (cd_ConfigContentHash a) (pb_RouteID b) (pb_EdgeProcessEpoch b) (pb_ServerSPKI b) (pb_ServerChainPEM b)
    (cd_AccessMode a) (cd_RouteKind a) (cd_Hostname a) (cd_RouteRevision a) (cd_AttachmentGeneration a) (cd_Endpoint a) (cd_ExpiresAt a)
    (pb_MachineIdentityPublicKey b) (pb_MachineIdentityThumbprint b) false.

Definition Expected (a : PreviewCarrierAdmission) (nodeID : string) (now : Time) : option (err + ExpectedAdmission) :=
  match Normalize a with
  | inl e => Some (inl e)
  | inr a =>
      match Admission_Validate a nodeID now None with
      | None => None
      | Some (Some e) => Some (inl e)
      | Some None => Some (inr (expected_of a))
      end
  end.

(** ** Observations and detachments *)

Definition validatePreviewCarrierBinding (nodeID processEpoch : string) (b : PreviewCarrierBinding) : option err :=
  if existsb badID [pb_AccountID b; pb_PreviewID b; pb_OperationID b; pb_OwnerDeviceID b; pb_OwnerSessionID b; pb_HostID b; pb_TunnelID b;
                    pb_ConnectorID b; pb_SessionID b; pb_RouteID b; pb_EdgeNodeID b]
  then Some ErrPreviewCarrierInvalid
  else if failed (ValidateOpaqueEpoch (pb_EdgeProcessEpoch b)) then Some ErrPreviewCarrierInvalid
  else if (pb_EdgeNodeID b != nodeID) || (pb_EdgeProcessEpoch b != processEpoch) || (pb_HostID b != pb_OwnerDeviceID b)
          || (pb_TunnelID b == pb_ConnectorID b) || (pb_LeaseGeneration b =? 0) || (pb_ProcessGeneration b =? 0)
          || (pb_ConfigGeneration b =? 0) || (pb_RouteGeneration b =? 0)
  then Some ErrPreviewCarrierInvalid
  else machineKey (pb_MachineIdentityPublicKey b) (pb_MachineIdentityThumbprint b).

Definition validatePreviewCarrierObservation (nodeID processEpoch : string) (o : PreviewCarrierObservation) : option err :=
  if (ob_Schema o != PreviewCarrierSchema) || (ob_Kind o != PreviewCarrierKind) || (pb_EdgeNodeID (ob_Binding o) != nodeID)
     || (pb_EdgeProcessEpoch (ob_Binding o) != processEpoch) || (ob_AttachmentGeneration o =? 0) || IsZero (ob_ObservedAt o)
     || (ob_Reason o != "") && (512 <? len (ob_Reason o)) || ContainsAny (ob_Reason o) [13; 10; 0]
  then Some ErrPreviewCarrierInvalid
  else if negb (mem_str ["edge_ready"; "detached"; "expired"] (ob_State o)) then Some ErrPreviewCarrierInvalid
  else validatePreviewCarrierBinding nodeID processEpoch (ob_Binding o).

Definition validatePreviewCarrierDetachment (nodeID processEpoch : string) (d : PreviewCarrierDetachment) : option err :=
  if (dt_Schema d != PreviewCarrierSchema) || (dt_Kind d != PreviewCarrierKind) || (pb_EdgeNodeID (dt_Binding d) != nodeID)
     || (pb_EdgeProcessEpoch (dt_Binding d) != processEpoch) || (dt_AttachmentGeneration d =? 0) || IsZero (dt_ObservedAt d)
     || (dt_Reason d == "") || (512 <? len (dt_Reason d)) || ContainsAny (dt_Reason d) [13; 10; 0]
  then Some ErrPreviewCarrierInvalid
  else validatePreviewCarrierBinding nodeID processEpoch (dt_Binding d).

(** The answer of the control plane to a pull; its two lists may be missing. *)
Record snapshotDocument := mkSnapshotDocument {
  sd_Schema : string;
  sd_Kind : string;
  sd_Complete : bool;
  sd_Admissions : option (list PreviewCarrierAdmission);
  sd_Detachments : option (list PreviewCarrierDetachment)
}.

(** The loop that checks every admission; [None] is a panic, and [Some false] an error. *)
Fixpoint admissions_valid (nodeID processEpoch : string) (now : Time) (admissions : list PreviewCarrierAdmission) : option bool :=
  match admissions with
  | [] => Some true
  | a :: admissions =>
      match Normalize a with
      | inl _ => Some false
      | inr _ => match Admission_Validate a nodeID now (Some processEpoch) with
                 | None => None
                 | Some (Some _) => Some false
                 | Some None => admissions_valid nodeID processEpoch now admissions
                 end
      end
  end.

(** [PreviewCarrierSnapshot], with the answer of the request. *)
Definition PreviewCarrierSnapshot (nodeID processEpoch : string) (answer : err + snapshotDocument) (now : Time)
    : option (err + (list PreviewCarrierAdmission * list PreviewCarrierDetachment)) :=
  if badID nodeID || failed (ValidateOpaqueEpoch processEpoch) then Some (inl ErrControlInvalid)
  else match answer with
  | inl e => Some (inl e)
  | inr doc =>
      match sd_Admissions doc, sd_Detachments doc with
      | Some admissions, Some detachments =>
          if (sd_Schema doc != PreviewCarrierSchema) || (sd_Kind doc != PreviewCarrierKind) || negb (sd_Complete doc)
             || (maxPreviewCarrierAdmissions <? Z.of_nat (length admissions)) || (maxPreviewCarrierAdmissions <? Z.of_nat (length detachments))
          then Some (inl ErrControlUnavailable)
          else match admissions_valid nodeID processEpoch now admissions with
          | None => None
          | Some false => Some (inl ErrControlUnavailable)
          | Some true => if existsb (λ d, failed (validatePreviewCarrierDetachment nodeID processEpoch d)) detachments then Some (inl ErrControlUnavailable)
                         else Some (inr (admissions, detachments))
          end
      | _, _ => Some (inl ErrControlUnavailable)
      end
  end.

(** *** The calls to the control plane *)

Fixpoint first_error {A} (f : A → option err) (l : list A) : option err :=
  match l with
  | [] => None
  | x :: l => match f x with Some e => Some e | None => first_error f l end
  end.

(** What the two reports share; [post] is the request. *)
Definition checked_post {A} (nodeID processEpoch : string) (check : A → option err) (post : list A → option err) (values : list A) : option err :=
  if badID nodeID || failed (ValidateOpaqueEpoch processEpoch) || (maxPreviewCarrierAdmissions <? Z.of_nat (length values)) then Some ErrControlInvalid
  else match first_error check values with
  | Some e => Some e
  | None => match values with [] => None | _ => post values end
  end.

Definition ObservePreviewCarriers (nodeID processEpoch : string) (post : list PreviewCarrierObservation → option err) (values : list PreviewCarrierObservation)
    : option err :=
  checked_post nodeID processEpoch (validatePreviewCarrierObservation nodeID processEpoch) post values.

Definition DetachPreviewCarriers (nodeID processEpoch : string) (post : list PreviewCarrierDetachment → option err) (values : list PreviewCarrierDetachment)
    : option err :=
  checked_post nodeID processEpoch (validatePreviewCarrierDetachment nodeID processEpoch) post values.

(** The loop that normalizes and checks what is acknowledged; [None] is a panic. *)
Fixpoint normalized_valid (nodeID processEpoch : string) (now : Time) (admissions : list PreviewCarrierAdmission) : option (err + list PreviewCarrierAdmission) :=
  match admissions with
  | [] => Some (inr [])
  | a :: admissions =>
      match Normalize a with
      | inl e => Some (inl e)
      | inr n => match Admission_Validate n nodeID now (Some processEpoch) with
                 | None => None
                 | Some (Some e) => Some (inl e)
                 | Some None => match normalized_valid nodeID processEpoch now admissions with
                                | Some (inr l) => Some (inr (n :: l))
                                | other => other
                                end
                 end
      end
  end.

Definition AcknowledgePreviewCarrierAdmissions (nodeID processEpoch : string) (now : Time) (post : list PreviewCarrierAdmission → option err)
    (admissions : list PreviewCarrierAdmission) : option (option err) :=
  if badID nodeID || failed (ValidateOpaqueEpoch processEpoch) || (maxPreviewCarrierAdmissions <? Z.of_nat (length admissions)) then Some (Some ErrControlInvalid)
  else match normalized_valid nodeID processEpoch now admissions with
  | None => None
  | Some (inl e) => Some (Some e)
  | Some (inr []) => Some None
  | Some (inr normalized) => Some (post normalized)
  end.

End Documents.
End PreviewDocuments.

(** * The rounds of the worker and of the handler *)

Module PreviewWorker.
Import Route PreviewAdmission StreamFrames RotationMessages PreviewRegistry PreviewDocuments.
Import PreviewAdmissionProofs (acknowledged).
Import Carrier (Identity, mkIdentity, id_AccountID, id_HostID, id_TunnelID, id_ConnectorID, id_SessionID, id_ProcessGeneration, id_Generation).
#[local] Existing Instance Carrier.Identity_eq_dec.

(** What the worker keeps, with the registries it works on; [pw_sent] records the
    detachments that were reported, latest first. *)
Record Worker := mkWorker {
  pw_nodeID : string;
  pw_expected : ExpectedAdmissionRegistry;
  pw_registry : DataCarrierPreviewRegistry;
  pw_pending : gmap string PreviewCarrierDetachment;
  pw_observations : gmap string PreviewCarrierObservation;
  pw_sent : list (list PreviewCarrierDetachment)
}.
#[export] Instance Worker_eta : Eta Worker := λ w,
  mkWorker (pw_nodeID w) (pw_expected w) (pw_registry w) (pw_pending w) (pw_observations w) (pw_sent w).

Implicit Types w : Worker.

(** [OperationID + "\x00" + RouteID]. *)
Definition pair_key (operation route : string) : string := operation +:+ String Ascii.zero route.
Definition detachment_key (d : PreviewCarrierDetachment) : string := pair_key (pb_OperationID (dt_Binding d)) (pb_RouteID (dt_Binding d)).
Definition observation_key (o : PreviewCarrierObservation) : string := pair_key (pb_OperationID (ob_Binding o)) (pb_RouteID (ob_Binding o)).

Definition route_binding (p : DataCarrierPreviewRoute) : PreviewCarrierBinding :=
  let i := pv_Identity p in
  mkCarrierBinding (id_AccountID i) (pv_PreviewID p) (pv_OperationID p) (pv_OwnerDeviceID p) (pv_OwnerSessionID p) (id_HostID i) (pv_LeaseGeneration p)
    (id_TunnelID i) (id_ConnectorID i) (id_SessionID i) (id_ProcessGeneration i) (id_Generation i) (pv_RouteID p) (pv_Revision p) (pv_EdgeNodeID p)
    (pv_EdgeProcessEpoch p) (pv_ServerSPKI p) (pv_ServerChainPEM p) (pv_MachineIdentityPublicKey p) (pv_MachineIdentityThumbprint p).

Definition bindingFromAdmission (a : ExpectedAdmission) : PreviewCarrierBinding :=
  let i := ea_Identity a in
  mkCarrierBinding (id_AccountID i) (ea_PreviewID a) (ea_OperationID a) (ea_OwnerDeviceID a) (ea_OwnerSessionID a) (id_HostID i) (ea_LeaseGeneration a)
    (id_TunnelID i) (id_ConnectorID i) (id_SessionID i) (id_ProcessGeneration i) (id_Generation i) (ea_RouteID a) (ea_RouteRevision a) (ea_EdgeNodeID a)
    (ea_EdgeProcessEpoch a) (ea_ServerSPKI a) (ea_ServerChainPEM a) (ea_MachineIdentityPublicKey a) (ea_MachineIdentityThumbprint a).

Definition observationFromRoute (p : DataCarrierPreviewRoute) (observedAt : Time) (state reason : string) : PreviewCarrierObservation :=
  mkObservation PreviewCarrierSchema PreviewCarrierKind (route_binding p) (pv_AttachmentGeneration p) state reason observedAt.

Definition observationFromAdmission (a : ExpectedAdmission) (state reason : string) (observedAt : Time) : PreviewCarrierObservation :=
  mkObservation PreviewCarrierSchema PreviewCarrierKind (bindingFromAdmission a) (ea_AttachmentGeneration a) state reason observedAt.

Definition ErrPreviewCarrierRuntimeInvalid : err := EPlain "invalid preview carrier runtime".
Definition defaultPreviewCarrierPollInterval : Duration := 15 * Second.
Definition defaultPreviewCarrierWaitTimeout : Duration := 30 * Second.
Definition maxPreviewCarrierPollInterval : Duration := 5 * Minute.

Definition NewPreviewCarrierWorker (er : ExpectedAdmissionRegistry) (r : DataCarrierPreviewRegistry) (nodeID processEpoch : string) (interval timeout : Duration)
    : err + (Worker * Duration * Duration) :=
  if badID nodeID || failed (ValidateOpaqueEpoch processEpoch) || (er_nodeID er != nodeID) || (er_processEpoch er != processEpoch)
  then inl ErrPreviewCarrierRuntimeInvalid
  else
    let interval := if interval =? 0 then defaultPreviewCarrierPollInterval else interval in
    let timeout := if timeout =? 0 then defaultPreviewCarrierWaitTimeout else timeout in
    if (interval <=? 0) || (maxPreviewCarrierPollInterval <? interval) || (timeout <=? 0) || (Minute <? timeout) then inl ErrPreviewCarrierRuntimeInvalid
    else inr (mkWorker nodeID er r ∅ ∅ [], interval, timeout).

Section Rounds.
Context `{RotationLib} `{TextLib} `{FoldLib} `{CertLib} `{RangeOrder}.

(** [ExpectedAdmissionRegistry.Snapshot]. *)
Definition Expected_Snapshot (r : ExpectedAdmissionRegistry) : list ExpectedAdmission :=
  sort_by ea_OperationID (sort_by ea_RouteID (range_of (er_byKey r)).*2).

Definition detach_route (p : DataCarrierPreviewRoute) w : Worker :=
  w <| pw_registry := (Preview_Detach (pv_RouteID p) (pv_Identity p) (pv_Revision p) (pw_registry w)).2 |>.

Definition remove_admission (a : ExpectedAdmission) w : Worker := w <| pw_expected := (Remove a (pw_expected w)).2 |>.

(** ** Expiry *)

Definition admission_of_route (p : DataCarrierPreviewRoute) (a : ExpectedAdmission) : bool :=
  (ea_OperationID a == pv_OperationID p) && (ea_RouteID a == pv_RouteID p) && (ea_AttachmentGeneration a =? pv_AttachmentGeneration p).

Definition expire_one (now : Time) w (p : DataCarrierPreviewRoute) : Worker :=
  if IsZero (pv_ExpiresAt p) || After (pv_ExpiresAt p) now then w
  else
    let w := detach_route p w in
    let w := match List.find (admission_of_route p) (Expected_Snapshot (pw_expected w)) with Some a => remove_admission a w | None => w end in
    w <| pw_observations := <[pair_key (pv_OperationID p) (pv_RouteID p) := observationFromRoute p now "expired" "lease_expired"]> (pw_observations w) |>.

Definition expireLocal (now : Time) w : Worker := List.fold_left (expire_one now) (Preview_Snapshot (pw_registry w)) w.

(** ** Withdrawn routes *)

Definition still_allowed (allowed : gmap string ExpectedAdmission) (now : Time) (p : DataCarrierPreviewRoute) : bool :=
  match allowed !! pair_key (pv_OperationID p) (pv_RouteID p) with
  | Some a => (ea_Identity a == pv_Identity p) && (ea_AttachmentGeneration a =? pv_AttachmentGeneration p) && (ea_RouteRevision a =? pv_Revision p)
              && After (ea_ExpiresAt a) now
  | None => false
  end.

Definition detachRemoved (expected : list ExpectedAdmission) (now : Time) w : Worker :=
  List.fold_left (λ w p, if still_allowed (by_key expected) now p then w else detach_route p w) (Preview_Snapshot (pw_registry w)) w.

(** A route, or an admission, that a terminal command of the server is about. *)
Definition detachment_covers (d : PreviewCarrierDetachment) (p : DataCarrierPreviewRoute) : bool :=
  let b := dt_Binding d in
  (pv_OperationID p == pb_OperationID b) && (pv_RouteID p == pb_RouteID b) && (pv_Identity p == binding_identity b)
  && (pv_Revision p =? pb_RouteGeneration b) && (pv_OwnerDeviceID p == pb_OwnerDeviceID b) && (pv_OwnerSessionID p == pb_OwnerSessionID b)
  && (pv_AttachmentGeneration p <? dt_AttachmentGeneration d).

Definition detachment_revokes (d : PreviewCarrierDetachment) (a : ExpectedAdmission) : bool :=
  let b := dt_Binding d in
  (ea_OperationID a == pb_OperationID b) && (ea_RouteID a == pb_RouteID b) && (ea_Identity a == binding_identity b)
  && (ea_RouteRevision a =? pb_RouteGeneration b) && (ea_AttachmentGeneration a <? dt_AttachmentGeneration d).

Definition apply_detachment w (d : PreviewCarrierDetachment) : Worker :=
  let w := List.fold_left (λ w p, if detachment_covers d p then detach_route p w else w) (Preview_Snapshot (pw_registry w)) w in
  List.fold_left (λ w a, if detachment_revokes d a then remove_admission a w else w) (Expected_Snapshot (pw_expected w)) w.

(** [live] is the state of the context, [answer] that of the report. *)
Definition applyServerDetachments (live : bool) (answer : option err) (detachments : list PreviewCarrierDetachment) w : Worker :=
  match detachments with
  | [] => w
  | _ =>
      if negb live then w
      else
        let w := List.fold_left apply_detachment detachments w in
        let w := w <| pw_sent := detachments :: pw_sent w |> in
        match answer with
        | None => w
        | Some _ => w <| pw_pending := List.fold_left (λ m d, <[detachment_key d := d]> m) detachments (pw_pending w) |>
        end
  end.

(** ** Reports that are retried *)

Definition flushPending (answer : option err) w : option err * Worker :=
  if bool_decide (pw_pending w = ∅) then (None, w)
  else
    let values := sort_by (λ d, pb_OperationID (dt_Binding d)) (sort_by (λ d, pb_RouteID (dt_Binding d)) (range_of (pw_pending w)).*2) in
    let w := w <| pw_sent := values :: pw_sent w |> in
    match answer with
    | Some e => (Some e, w)
    | None => (None, w <| pw_pending := List.fold_left (λ m d, delete (detachment_key d) m) values (pw_pending w) |>)
    end.

Definition flushPendingObservations (answer : option err) w : option err * Worker :=
  if bool_decide (pw_observations w = ∅) then (None, w)
  else
    let values := sort_by (λ o, pb_OperationID (ob_Binding o)) (sort_by (λ o, pb_RouteID (ob_Binding o)) (range_of (pw_observations w)).*2) in
    match answer with
    | Some e => (Some e, w)
    | None => (None, w <| pw_observations := List.fold_left (λ m o, delete (observation_key o) m) values (pw_observations w) |>)
    end.

(** ** A round of the worker *)

(** Every admission converted; [None] is a panic. *)
Fixpoint convert (nodeID : string) (now : Time) (admissions : list PreviewCarrierAdmission) : option (err + list ExpectedAdmission) :=
  match admissions with
  | [] => Some (inr [])
  | a :: admissions =>
      match Expected a nodeID now with
      | None => None
      | Some (inl e) => Some (inl e)
      | Some (inr x) =>
          match convert nodeID now admissions with
          | Some (inr l) => Some (inr (x :: l))
          | other => other
          end
      end
  end.

Definition route_alias (routeID : string) (a : PreviewCarrierAlias) : DataCarrierPreviewAlias :=
  mkAlias (ca_DomainID a) routeID (ca_Hostname a) (ca_MatchType a) (ca_PreviewGeneration a) (ca_DomainGeneration a) (ca_CertificateGeneration a).

Fixpoint wanted_aliases (admissions : list PreviewCarrierAdmission) : err + list DataCarrierPreviewAlias :=
  match admissions with
  | [] => inr []
  | a :: admissions =>
      match Normalize a with
      | inl e => inl e
      | inr n => match wanted_aliases admissions with
                 | inl e => inl e
                 | inr l => inr ((route_alias (pb_RouteID (cd_Binding n)) <$> cd_Aliases n) ++ l)
                 end
      end
  end.

(** What the control plane answers during a round. *)
Record answers := mkAnswers {
  an_ack : option err;
  an_live : bool;
  an_detached : option err;
  an_flushed : option err;
  an_observed : option err
}.

(** The end of a round, once the pulled set is committed. *)
Definition settle (expected : list ExpectedAdmission) (detachments : list PreviewCarrierDetachment) (now : Time) (q : answers) w : Worker :=
  let w := expireLocal now (applyServerDetachments (an_live q) (an_detached q) detachments (detachRemoved expected now w)) in
  (flushPendingObservations (an_observed q) (flushPending (an_flushed q) w).2).2.

(** [reconcile]: [None] is a panic, the flag tells whether the round ran to its end. *)
Definition Worker_reconcile (pull : option (err + (list PreviewCarrierAdmission * list PreviewCarrierDetachment))) (now : Time) (q : answers) w
    : option (bool * Worker) :=
  let w := expireLocal now w in
  match pull with
  | None => None
  | Some (inl _) => Some (false, w)
  | Some (inr (admissions, detachments)) =>
      match convert (pw_nodeID w) now admissions with
      | None => None
      | Some (inl _) => Some (false, w)
      | Some (inr expected) =>
          match InstallPending expected now (pw_expected w) with
          | (Some _, _) => Some (false, w)
          | (None, er) =>
              let w := w <| pw_expected := er |> in
              if failed (an_ack q) then Some (false, w)
              else
                let expected := acknowledged <$> expected in
                match MarkAdmitted expected (pw_expected w) with
                | (Some _, _) => Some (false, w)
                | (None, er) =>
                    let w := w <| pw_expected := er |> in
                    match Commit expected (pw_expected w) with
                    | (Some _, _) => Some (false, w)
                    | (None, er) =>
                        let w := w <| pw_expected := er |> in
                        match wanted_aliases admissions with
                        | inl _ => Some (false, w)
                        | inr aliases =>
                            match ReconcilePreviewAliases aliases (pw_registry w) with
                            | (Some _, _) => Some (false, w)
                            | (None, r) => Some (true, settle expected detachments now q (w <| pw_registry := r |>))
                            end
                        end
                    end
                end
          end
      end
  end.

(** The part of [Shutdown] after the loop has stopped. *)
Definition Worker_Shutdown (now : Time) (observed flushed observedAgain : option err) (live : bool) w : Worker :=
  let routes := Preview_Snapshot (pw_registry w) in
  let w := List.fold_left (λ w p, detach_route p w) routes w in
  let reports := (λ p, observationFromRoute p now "detached" "edge_shutdown") <$> routes in
  let w := match reports, observed with
           | _ :: _, Some _ => if live then w <| pw_observations := List.fold_left (λ m o, <[observation_key o := o]> m) reports (pw_observations w) |> else w
           | _, _ => w
           end in
  match flushPending flushed w with
  | (Some _, w) => w
  | (None, w) => (flushPendingObservations observedAgain w).2
  end.

(** ** A round of the handler of a carrier *)

Record Handler := mkHandler {
  hd_attached : gmap string ExpectedAdmission;
  hd_pendingReady : gmap string (ExpectedAdmission * Time)
}.
#[export] Instance Handler_eta : Eta Handler := λ h, mkHandler (hd_attached h) (hd_pendingReady h).

Definition previewCarrierAdmissionEqual (left right : ExpectedAdmission) : bool :=
  (left <| ea_Admitted := false |>) == (right <| ea_Admitted := false |>).

Definition retryInterval : Duration := Second.

Context (identity_of : nat → Identity).

(** The first loop: what is attached and no longer wanted in this form is detached. *)
Definition withdraw (desired : gmap string ExpectedAdmission) (attached : gmap string ExpectedAdmission) (r : DataCarrierPreviewRegistry)
    : DataCarrierPreviewRegistry :=
  List.fold_left (λ r (kv : string * ExpectedAdmission),
    match desired !! kv.1 with
    | Some next => if previewCarrierAdmissionEqual kv.2 next then r else (DetachAdmission kv.2 r).2
    | None => (DetachAdmission kv.2 r).2
    end) (range_of attached) r.

Definition unchanged (desired : gmap string ExpectedAdmission) (k : string) (a : ExpectedAdmission) : bool :=
  match desired !! k with Some next => previewCarrierAdmissionEqual a next | None => false end.

(** The last loop: one wanted admission; [observe] is the answer to its readiness report. *)
Definition attach_wanted (server : nat) (now clock : Time) (observe : ExpectedAdmission → option err)
    (s : Handler * DataCarrierPreviewRegistry) (a : ExpectedAdmission) : Handler * DataCarrierPreviewRegistry :=
  let '(h, r) := s in
  let k := key a in
  let wait h := h <| hd_pendingReady := <[k := (a, clock + retryInterval)]> (hd_pendingReady h) |> in
  match hd_attached h !! k with
  | Some _ => (h, r)
  | None =>
      let '(skip, h) :=
        match hd_pendingReady h !! k with
        | Some (p, retryAt) =>
            if negb (previewCarrierAdmissionEqual p a) then (false, h <| hd_pendingReady := delete k (hd_pendingReady h) |>)
            else (clock <? retryAt, h)
        | None => (false, h)
        end in
      if skip then (h, r)
      else match AttachAdmission identity_of a server now r with
      | (Some _, r) => (wait h, r)
      | (None, r) =>
          if failed (observe a) then (wait h, (DetachAdmission a r).2)
          else (h <| hd_attached := <[k := a]> (hd_attached h) |> <| hd_pendingReady := delete k (hd_pendingReady h) |>, r)
      end
  end.

(** [reconcile] of the handler; [clock] is the clock of the process. *)
Definition Handler_reconcile (server : nat) (now clock : Time) (observe : ExpectedAdmission → option err) (er : ExpectedAdmissionRegistry)
    (h : Handler) (r : DataCarrierPreviewRegistry) : Handler * DataCarrierPreviewRegistry :=
  let desired := sort_by key (ForIdentity (identity_of server) now er) in
  let wanted := by_key desired in
  let r := withdraw wanted (hd_attached h) r in
  let h := mkHandler (map_imap (λ k a, if unchanged wanted k a then Some a else None) (hd_attached h))
                     (map_imap (λ k p, if unchanged wanted k p.1 then Some p else None) (hd_pendingReady h)) in
  List.fold_left (attach_wanted server now clock observe) desired (h, r).

(** [closeAttached]: every attached route is taken down. *)
Definition closeAttached (h : Handler) (r : DataCarrierPreviewRegistry) : DataCarrierPreviewRegistry :=
  List.fold_left (λ r a, (DetachAdmission a r).2) (sort_by key (range_of (hd_attached h)).*2) r.

End Rounds.
End PreviewWorker.

(** * Guarantees of the preview worker *)

Module PreviewWorkerGuarantees.
Import Route PreviewAdmission StreamFrames RotationMessages PreviewRegistry PreviewRegistryProofs PreviewRegistryGuarantees PreviewDocuments PreviewWorker.
Import PreviewAdmissionProofs (acknowledged, InstallPending_ok, by_key_lookup, key_fmap_acknowledged, preview_pull_installs).
Import Carrier (Identity, mkIdentity).
#[local] Existing Instance Carrier.Identity_eq_dec.

Implicit Types (r : DataCarrierPreviewRegistry) (w : Worker) (p : DataCarrierPreviewRoute).
#[local] Arguments drop_route : simpl never.
#[local] Arguments Preview_Detach : simpl never.
#[local] Arguments Preview_Snapshot : simpl never.
#[local] Arguments Expected_Snapshot : simpl never.
#[local] Arguments ReconcilePreviewAliases : simpl never.

Section Rounds.
Context `{RotationLib} `{TextLib} `{FoldLib} `{CertLib} `{RangeOrder} (identity_of : nat → Identity).
Abbreviation vinv := (PreviewRegistryProofs.vinv identity_of).

(** ** Sweeps over the registered routes *)

(** [r'] is [r] without the routes for which [drop] holds. *)
Record swept (drop : DataCarrierPreviewRoute → bool) r r' : Prop := {
  sw_inv : vinv r';
  sw_current id x : current r' id = Some x ↔ current r id = Some x ∧ drop (pe_route x.2) = false
}.

Lemma swept_refl drop r : vinv r → (∀ id x, current r id = Some x → drop (pe_route x.2) = false) → swept drop r r.
Proof. intros Hv Hd. split; [done|]. intros id x. split; [eauto|by intros [? _]]. Qed.

Lemma swept_trans d1 d2 r1 r2 r3 : swept d1 r1 r2 → swept d2 r2 r3 → swept (λ p, d1 p || d2 p) r1 r3.
Proof. intros H12 H23. split; [apply H23|]. intros id x. rewrite (sw_current _ _ _ H23), (sw_current _ _ _ H12), orb_false_iff. tauto. Qed.

Lemma swept_ext d d' r r' : (∀ p, d p = d' p) → swept d r r' → swept d' r r'.
Proof. intros E [Hv Hc]. split; [done|]. intros id x. by rewrite Hc, E. Qed.

Lemma Snapshot_current r p : vinv r → p ∈ Preview_Snapshot r ↔ ∃ i e, current r (pv_RouteID p) = Some (i, e) ∧ pe_route e = p.
Proof.
  intros Hv. unfold Preview_Snapshot. rewrite !sort_by_Permutation, list_elem_of_omap. setoid_rewrite range_of_perm. setoid_rewrite elem_of_map_to_list'. split.
  - intros ([id i] & Hb & Hp). cbn in Hb, Hp. destruct (v_route _ _ Hv _ _ Hb) as (e & He & Hid & _). rewrite He in Hp. injection Hp as <-.
    exists i, e. by rewrite Hid, current_Some.
  - intros (i & e & [Hb He]%current_Some & <-). exists (pv_RouteID (pe_route e), i). cbn. by rewrite Hb, He.
Qed.

Lemma Snapshot_ids r : vinv r → NoDup (pv_RouteID <$> Preview_Snapshot r).
Proof.
  intros Hv. unfold Preview_Snapshot. rewrite !sort_by_Permutation.
  assert (∀ kv, kv ∈ range_of (pr_byRoute r) → pr_byRoute r !! kv.1 = Some kv.2) as Hin by (intros [id i]; rewrite range_of_perm; apply elem_of_map_to_list).
  assert (NoDup (range_of (pr_byRoute r)).*1) as Hnd by (rewrite range_of_perm; apply NoDup_fst_map_to_list).
  assert (pv_RouteID <$> omap (λ kv : string * nat, pe_route <$> pr_entries r !! kv.2) (range_of (pr_byRoute r)) = (range_of (pr_byRoute r)).*1) as ->; [|done].
  revert Hin. generalize (range_of (pr_byRoute r)). intros l. clear Hnd. induction l as [|[id i] l IH]; intros Hin; [done|]. cbn.
  destruct (v_route _ _ Hv id i) as (e & He & Hid & _); [apply (Hin (id, i)); by left|]. rewrite He. cbn. rewrite Hid. f_equal. apply IH. intros kv Hkv. apply Hin. by right.
Qed.

(** Detaching the registered route takes exactly it away. *)
Lemma Detach_registered r id i e :
  vinv r → current r id = Some (i, e) → swept (λ p, pv_RouteID p == id) r (Preview_Detach id (pv_Identity (pe_route e)) (pv_Revision (pe_route e)) r).2.
Proof.
  intros Hv Hc. pose proof Hc as [Hb He]%current_Some. destruct (v_route _ _ Hv _ _ Hb) as (e0 & He0 & Hid & _ & Hck & _). rewrite He in He0. injection He0 as <-.
  destruct (ck_id _ _ _ Hck) as [Hbad Hrev]. rewrite Hid in Hbad. split; [by apply PreviewDetach_inv|]. unfold Preview_Detach. rewrite Hbad, (proj2 (Z.eqb_neq _ _) Hrev). cbn [orb].
  destruct (pr_closed r) eqn:Ecl; [by rewrite (v_closed _ _ Hv Ecl), lookup_empty in Hb|]. rewrite Hc, Z.eqb_refl, bool_decide_eq_true_2 by done. cbn [negb orb snd].
  intros id' [j e']. rewrite (drop_current identity_of) by done. cbn [snd]. destruct (decide (id' = id)) as [->|Hne].
  - split; [done|]. rewrite Hc. intros [[= <- <-] Hd]. by rewrite Hid, bool_decide_eq_true_2 in Hd.
  - split; [|by intros [? _]]. intros Hc'. split; [done|]. apply current_Some in Hc' as [Hb' He']. destruct (v_route _ _ Hv _ _ Hb') as (e1 & He1 & Hid1 & _).
    apply bool_decide_eq_false_2. congruence.
Qed.

Definition sweep (drop : DataCarrierPreviewRoute → bool) (l : list DataCarrierPreviewRoute) r : DataCarrierPreviewRegistry :=
  List.fold_left (λ r p, if drop p then (Preview_Detach (pv_RouteID p) (pv_Identity p) (pv_Revision p) r).2 else r) l r.

Lemma current_id r id i e : vinv r → current r id = Some (i, e) → pv_RouteID (pe_route e) = id.
Proof. intros Hv [Hb He]%current_Some. destruct (v_route _ _ Hv _ _ Hb) as (e0 & He0 & Hid & _). congruence. Qed.

Lemma sweep_list drop l r :
  vinv r → NoDup (pv_RouteID <$> l) → (∀ p, p ∈ l → ∃ i e, current r (pv_RouteID p) = Some (i, e) ∧ pe_route e = p) →
  vinv (sweep drop l r) ∧ ∀ id x, current (sweep drop l r) id = Some x ↔ current r id = Some x ∧ (pe_route x.2 ∈ l → drop (pe_route x.2) = false).
Proof.
  revert r. induction l as [|p l IH]; intros r Hv Hnd Hl; cbn.
  { split; [done|]. intros id x. split; [|by intros [? _]]. intros ?. split; [done|]. by intros ?%not_elem_of_nil. }
  apply NoDup_cons in Hnd as [Hp Hnd]. destruct (Hl p) as (i & e & Hc & He); [by left|].
  set (r1 := if drop p then (Preview_Detach (pv_RouteID p) (pv_Identity p) (pv_Revision p) r).2 else r).
  assert (vinv r1 ∧ ∀ id x, current r1 id = Some x ↔ current r id = Some x ∧ (pe_route x.2 = p → drop p = false)) as [Hv1 Hc1].
  { unfold r1. destruct (drop p) eqn:Ed; [|split; [done|tauto]]. pose proof (Detach_registered r _ i e Hv Hc) as [Hv1 Hs]. rewrite He in *.
    split; [done|]. intros id [j e']. rewrite Hs. cbn. rewrite bool_decide_eq_false. split; intros [Hx Hn]; (split; [done|]).
    - intros E. by rewrite E in Hn.
    - intros E. discriminate Hn. pose proof (current_id _ _ _ _ Hv Hx) as <-. rewrite E, Hc in Hx. congruence. }
  destruct (IH r1 Hv1 Hnd) as [Hv2 Hc2].
  - intros q Hq. destruct (Hl q) as (j & e' & Hq' & <-); [by right|]. exists j, e'. split; [|done]. apply Hc1. split; [done|]. cbn.
    intros E. exfalso. apply Hp. apply list_elem_of_fmap. exists (pe_route e'). by rewrite E in *.
  - split; [done|]. intros id x. rewrite Hc2, Hc1, elem_of_cons. split.
    + intros [[Hx Hn] Hd]. split; [done|]. intros [E|Hi]; [rewrite E; by apply Hn|by apply Hd].
    + intros [Hx Hd]. split; [split; [done|]|]; [intros E; rewrite <- E; apply Hd; by left|intros Hi; apply Hd; by right].
Qed.

(** A sweep over a snapshot looks at every route. *)
Lemma sweep_snapshot drop r : vinv r → swept drop r (sweep drop (Preview_Snapshot r) r).
Proof.
  intros Hv. destruct (sweep_list drop (Preview_Snapshot r) r Hv) as [Hv' Hc].
  - apply Snapshot_ids. done.
  - intros p Hp. by apply Snapshot_current in Hp.
  - split; [done|]. intros id [i e]. rewrite Hc. cbn. split; intros [Hx Hd]; (split; [done|]); [|done]. apply Hd, Snapshot_current; [done|].
    pose proof (current_id _ _ _ _ Hv Hx) as <-. eauto.
Qed.

(** What a fold over the worker does to its registry. *)
Lemma fold_registry {A} (f : Worker → A → Worker) (g : DataCarrierPreviewRegistry → A → DataCarrierPreviewRegistry) l w :
  (∀ w x, pw_registry (f w x) = g (pw_registry w) x) → pw_registry (List.fold_left f l w) = List.fold_left g l (pw_registry w).
Proof. intros Hf. revert w. induction l as [|x l IH]; intros w; [done|]. cbn. by rewrite IH, Hf. Qed.

Definition lapsed (now : Time) p : bool := negb (IsZero (pv_ExpiresAt p) || After (pv_ExpiresAt p) now).

Lemma expire_swept now w : vinv (pw_registry w) → swept (lapsed now) (pw_registry w) (pw_registry (expireLocal now w)).
Proof.
  intros Hv. unfold expireLocal. rewrite (fold_registry _ (λ r p, if lapsed now p then (Preview_Detach (pv_RouteID p) (pv_Identity p) (pv_Revision p) r).2 else r)).
  - by apply sweep_snapshot.
  - intros w' p. unfold expire_one, lapsed. destruct (_ || _); [done|]. by destruct (List.find _ _).
Qed.

Lemma removed_swept expected now w :
  vinv (pw_registry w) → swept (λ p, negb (still_allowed (by_key expected) now p)) (pw_registry w) (pw_registry (detachRemoved expected now w)).
Proof.
  intros Hv. unfold detachRemoved.
  rewrite (fold_registry _ (λ r p, if negb (still_allowed (by_key expected) now p) then (Preview_Detach (pv_RouteID p) (pv_Identity p) (pv_Revision p) r).2 else r)).
  - by apply sweep_snapshot.
  - intros w' p. by destruct (still_allowed _ _ _).
Qed.

Lemma command_swept d w : vinv (pw_registry w) → swept (detachment_covers d) (pw_registry w) (pw_registry (apply_detachment w d)).
Proof.
  intros Hv. unfold apply_detachment. rewrite (fold_registry _ (λ r _, r)) by (intros w' a; by destruct (detachment_revokes d a)).
  assert (∀ (l : list ExpectedAdmission) r, List.fold_left (λ r _, r) l r = r) as -> by (intros l; induction l; auto).
  rewrite (fold_registry _ (λ r p, if detachment_covers d p then (Preview_Detach (pv_RouteID p) (pv_Identity p) (pv_Revision p) r).2 else r)).
  - by apply sweep_snapshot.
  - intros w' p. by destruct (detachment_covers d p).
Qed.

Lemma commands_swept l w : vinv (pw_registry w) → swept (λ p, existsb (λ d, detachment_covers d p) l) (pw_registry w) (pw_registry (List.fold_left apply_detachment l w)).
Proof.
  revert w. induction l as [|d l IH]; intros w Hv; cbn; [by apply swept_refl|]. pose proof (command_swept d w Hv) as Hs1.
  eapply swept_trans; [exact Hs1|apply IH, Hs1].
Qed.

Lemma applied_swept live answer l w :
  vinv (pw_registry w) → swept (λ p, live && existsb (λ d, detachment_covers d p) l) (pw_registry w) (pw_registry (applyServerDetachments live answer l w)).
Proof.
  intros Hv. unfold applyServerDetachments. destruct l as [|d l]; [apply swept_refl; [done|]; intros; by rewrite andb_false_r|].
  destruct live; cbn [negb]; [|by apply swept_refl]. pose proof (commands_swept (d :: l) w Hv) as Hs. by destruct answer.
Qed.

Lemma flushed_registry answer w : pw_registry (flushPending answer w).2 = pw_registry w.
Proof. unfold flushPending. case_bool_decide; [done|]. by destruct answer. Qed.

Lemma observed_registry answer w : pw_registry (flushPendingObservations answer w).2 = pw_registry w.
Proof. unfold flushPendingObservations. case_bool_decide; [done|]. by destruct answer. Qed.

Definition withdrawn (expected : list ExpectedAdmission) (detachments : list PreviewCarrierDetachment) (now : Time) (q : answers) p : bool :=
  negb (still_allowed (by_key expected) now p) || (an_live q && existsb (λ d, detachment_covers d p) detachments).

Lemma settle_swept expected detachments now q w :
  vinv (pw_registry w) →
  swept (λ p, withdrawn expected detachments now q p || lapsed now p) (pw_registry w) (pw_registry (settle expected detachments now q w)).
Proof.
  intros Hv. unfold settle. rewrite observed_registry, flushed_registry. pose proof (removed_swept expected now w Hv) as Hs1.
  pose proof (applied_swept (an_live q) (an_detached q) detachments _ (sw_inv _ _ _ Hs1)) as Hs2. pose proof (expire_swept now _ (sw_inv _ _ _ Hs2)) as Hs3.
  exact (swept_trans _ _ _ _ _ (swept_trans _ _ _ _ _ Hs1 Hs2) Hs3).
Qed.

(** ** A round *)

Definition unexpired (now : Time) p : Prop := pv_ExpiresAt p = 0 ∨ now < pv_ExpiresAt p.

Lemma lapsed_false now p : lapsed now p = false ↔ unexpired now p.
Proof. unfold lapsed, unexpired, IsZero, After. rewrite negb_false_iff, orb_true_iff. split; intros [?|?]; (left + right; lia). Qed.

(** An admission of the pulled set that stands for the registered route, for the same
    attachment. *)
Definition backed (expected : list ExpectedAdmission) (now : Time) p : Prop :=
  ∃ a, a ∈ expected ∧ key a = pair_key (pv_OperationID p) (pv_RouteID p) ∧ ea_Identity a = pv_Identity p
    ∧ ea_AttachmentGeneration a = pv_AttachmentGeneration p ∧ ea_RouteRevision a = pv_Revision p ∧ now < ea_ExpiresAt a.

Lemma still_allowed_backed expected now p :
  NoDup (key <$> expected) → still_allowed (by_key (acknowledged <$> expected)) now p = true ↔ backed expected now p.
Proof.
  intros Hnd. rewrite <- key_fmap_acknowledged in Hnd. unfold still_allowed, backed. destruct (by_key _ !! _) as [a|] eqn:E.
  - apply by_key_lookup in E as [(b & -> & Hb)%list_elem_of_fmap Hk]; [|done]. unfold After. cbn. split.
    + intros Hc. bools. exists b. split_and!; (done || lia).
    + intros (b' & Hb' & Hk' & Hi & Hg & Hr & He). assert (b' = b) as ->.
      { rewrite key_fmap_acknowledged in Hnd. pose proof (proj2 (by_key_lookup expected _ b Hnd) (conj Hb Hk)). pose proof (proj2 (by_key_lookup expected _ b' Hnd) (conj Hb' Hk')).
        congruence. }
      rewrite Hi, Hg, Hr, !Z.eqb_refl, bool_decide_eq_true_2 by done. cbn. lia.
  - split; [done|]. intros (b & Hb & Hk & _). exfalso. assert (by_key (acknowledged <$> expected) !! key b = Some (acknowledged b)) as E'; [|congruence].
    apply by_key_lookup; [done|]. split; [by apply list_elem_of_fmap_2|done].
Qed.

(** The route is what a terminal command of the server is about: a later generation of the
    same attachment. *)
Definition covered (d : PreviewCarrierDetachment) p : Prop :=
  pv_OperationID p = pb_OperationID (dt_Binding d) ∧ pv_RouteID p = pb_RouteID (dt_Binding d) ∧ pv_Identity p = binding_identity (dt_Binding d)
  ∧ pv_Revision p = pb_RouteGeneration (dt_Binding d) ∧ pv_OwnerDeviceID p = pb_OwnerDeviceID (dt_Binding d)
  ∧ pv_OwnerSessionID p = pb_OwnerSessionID (dt_Binding d) ∧ pv_AttachmentGeneration p < dt_AttachmentGeneration d.

Lemma covers_covered d p : detachment_covers d p = true ↔ covered d p.
Proof. unfold detachment_covers, covered. rewrite !andb_true_iff, !bool_decide_eq_true, Z.eqb_eq, Z.ltb_lt. tauto. Qed.

Lemma withdrawn_false expected detachments now q p :
  NoDup (key <$> expected) →
  withdrawn (acknowledged <$> expected) detachments now q p = false
  ↔ backed expected now p ∧ (an_live q = true → ∀ d, d ∈ detachments → ¬ covered d p).
Proof.
  intros Hnd. unfold withdrawn. rewrite orb_false_iff, negb_false_iff, still_allowed_backed by done. apply and_iff_compat_l. destruct (an_live q); cbn; [|done].
  rewrite <- not_true_iff_false, existsb_exists. setoid_rewrite <- covers_covered. setoid_rewrite list_elem_of_In. naive_solver.
Qed.

(** The pulled set of a round that ran to its end. *)
Definition pulled (pull : option (err + (list PreviewCarrierAdmission * list PreviewCarrierDetachment))) (now : Time) w
    (expected : list ExpectedAdmission) (detachments : list PreviewCarrierDetachment) : Prop :=
  ∃ admissions, pull = Some (inr (admissions, detachments)) ∧ convert (pw_nodeID w) now admissions = Some (inr expected).

Lemma expire_node now w : pw_nodeID (expireLocal now w) = pw_nodeID w.
Proof.
  unfold expireLocal. generalize (Preview_Snapshot (pw_registry w)). intros l. revert w. induction l as [|p l IH]; intros w; [done|]. cbn. rewrite IH.
  unfold expire_one. destruct (_ || _); [done|]. by destruct (List.find _ _).
Qed.

Lemma reconcile_cases pull now q w ran w' :
  Worker_reconcile pull now q w = Some (ran, w') →
  if ran then ∃ expected detachments er aliases r, pulled pull now w expected detachments
      ∧ NoDup (key <$> expected) ∧ (∀ k x, er_byKey er !! k = Some x ↔ ∃ a, a ∈ expected ∧ key a = k ∧ x = acknowledged a)
      ∧ ReconcilePreviewAliases aliases (pw_registry (expireLocal now w)) = (None, r)
      ∧ w' = settle (acknowledged <$> expected) detachments now q (expireLocal now w <| pw_expected := er |> <| pw_registry := r |>)
  else pw_registry w' = pw_registry (expireLocal now w) ∧ pw_pending w' = pw_pending (expireLocal now w) ∧ pw_sent w' = pw_sent (expireLocal now w).
Proof.
  unfold Worker_reconcile, pulled. rewrite expire_node. set (w1 := expireLocal now w). clearbody w1.
  destruct pull as [[e|[admissions detachments]]|]; [by intros [= <- <-]| |done].
  destruct (convert _ _ _) as [[e|expected]|] eqn:Ec; [by intros [= <- <-]| |done].
  destruct (InstallPending _ _ _) as [[e|] er] eqn:Ei; [by intros [= <- <-]|]. destruct (failed _); [by intros [= <- <-]|].
  destruct (preview_pull_installs _ _ _ _ Ei) as (r2 & r3 & Hm & Hcm & _ & Hk). apply InstallPending_ok in Ei as (_ & Hnd & _). cbn. rewrite Hm. cbn. rewrite Hcm. cbn.
  destruct (wanted_aliases admissions) as [e|aliases]; [by intros [= <- <-]|]. destruct (ReconcilePreviewAliases _ _) as [[e|] r] eqn:Er; [by intros [= <- <-]|].
  intros [= <- <-]. exists expected, detachments, r3, aliases, r. split_and!; try done. by exists admissions.
Qed.

Lemma Reconcile_current aliases r r' id : vinv r → ReconcilePreviewAliases aliases r = (None, r') → vinv r' ∧ current r' id = current r id.
Proof.
  intros Hv E. split; [pose proof (Reconcile_inv identity_of aliases r Hv) as Hi; by rewrite E in Hi|].
  destruct (Reconcile_cases identity_of aliases r Hv) as [[_ Hn]|(next & _ & E' & _)]; [by rewrite E in Hn|]. rewrite E in E'. injection E' as ->.
  rewrite (current_same (prune_aliases next r <| pr_desiredAliases := next |>)).
  - destruct (prune_spec identity_of next r Hv) as (_ & Hs & _). exact (current_same r _ id Hs).
  - apply fold_routes. intros r0 kv. apply activate_routes.
Qed.

(** *** The admissions after a round *)

(** [er'] has only entries of [er]. *)
Definition shrinks (er er' : ExpectedAdmissionRegistry) : Prop := ∀ k a, er_byKey er' !! k = Some a → er_byKey er !! k = Some a.

Lemma Remove_shrinks a er : shrinks er (Remove a er).2.
Proof.
  unfold shrinks, Remove. destruct (_ !! key a) as [b|]; [|done]. destruct (negb _); [done|]. cbn. intros k x [_ ?]%lookup_delete_Some. done.
Qed.

Lemma fold_shrinks {A} (f : Worker → A → Worker) l w :
  (∀ w x, shrinks (pw_expected w) (pw_expected (f w x))) → shrinks (pw_expected w) (pw_expected (List.fold_left f l w)).
Proof. intros Hf. revert w. induction l as [|x l IH]; intros w k a; [done|]. cbn. intros Hx%IH. by apply Hf in Hx. Qed.

Lemma expire_shrinks now w : shrinks (pw_expected w) (pw_expected (expireLocal now w)).
Proof.
  apply fold_shrinks. intros w' p. unfold expire_one. destruct (_ || _); [by intros ??|]. destruct (List.find _ _); [apply Remove_shrinks|by intros ??].
Qed.

Lemma settle_shrinks expected detachments now q w : shrinks (pw_expected w) (pw_expected (settle expected detachments now q w)).
Proof.
  intros k a Ha. unfold settle in Ha.
  assert (∀ w, pw_expected (flushPendingObservations (an_observed q) w).2 = pw_expected w) as Ho by (intros w'; unfold flushPendingObservations; case_bool_decide; [done|]; by destruct (an_observed q)).
  assert (∀ w, pw_expected (flushPending (an_flushed q) w).2 = pw_expected w) as Hf by (intros w'; unfold flushPending; case_bool_decide; [done|]; by destruct (an_flushed q)).
  rewrite Ho, Hf in Ha. apply expire_shrinks in Ha. set (w1 := detachRemoved expected now w) in *.
  assert (er_byKey (pw_expected w1) !! k = Some a) as Ha1; [|revert Ha1; apply fold_shrinks; intros w' p; by destruct (still_allowed _ _ _); intros ??]. clearbody w1.
  revert Ha. unfold applyServerDetachments. destruct detachments as [|d l]; [done|]. destruct (negb (an_live q)); [done|].
  assert (shrinks (pw_expected w1) (pw_expected (List.fold_left apply_detachment (d :: l) w1))) as Hs.
  { apply fold_shrinks. intros w' x. unfold apply_detachment. intros k' a' Ha'. apply fold_shrinks in Ha'.
    - revert Ha'. apply fold_shrinks. intros w2 p. by destruct (detachment_covers x p); intros ??.
    - intros w2 b. destruct (detachment_revokes x b); [apply Remove_shrinks|by intros ??]. }
  destruct (an_detached q); apply Hs.
Qed.

(** C36. A round of the worker leaves exactly the right routes.  Whatever happens, the routes
    registered afterwards are routes that were registered before and have not expired.  A
    round that stops early, because the pull or a later step failed, keeps all of those; one
    that runs to its end keeps those that a pulled admission stands for, for the same
    attachment, and that no pulled terminal command covers, and every admission that is
    then open was pulled and acknowledged in this round. *)
Theorem preview_round_exact allowed base epoch maximum pull now q w ran w' :
  preview_run identity_of allowed base epoch maximum (pw_registry w) → Worker_reconcile pull now q w = Some (ran, w') →
  (∀ id x, current (pw_registry w') id = Some x ↔
     current (pw_registry w) id = Some x ∧ unexpired now (pe_route x.2)
     ∧ (ran = true → ∃ expected detachments, pulled pull now w expected detachments ∧ backed expected now (pe_route x.2)
                      ∧ (an_live q = true → ∀ d, d ∈ detachments → ¬ covered d (pe_route x.2))))
  ∧ (ran = true → ∀ k a, er_byKey (pw_expected w') !! k = Some a →
       ∃ expected detachments b, pulled pull now w expected detachments ∧ b ∈ expected ∧ key b = k ∧ a = acknowledged b).
Proof.
  intros Hv%run_inv Hr. apply reconcile_cases in Hr. pose proof (expire_swept now w Hv) as Hs1. pose proof (sw_inv _ _ _ Hs1) as Hv1. destruct ran.
  - destruct Hr as (expected & detachments & er & aliases & r & Hp & Hnd & Hk & Ha & ->).
    assert (∀ expected' detachments', pulled pull now w expected' detachments' → expected' = expected ∧ detachments' = detachments) as Hfun.
    { intros e' d' (a' & Hp' & Hc'). destruct Hp as (a & Hp & Hc). rewrite Hp in Hp'. injection Hp' as <- <-. rewrite Hc in Hc'. by injection Hc' as <-. }
    split.
    + intros id x. destruct (Reconcile_current aliases _ r id Hv1 Ha) as [Hv2 Hcur].
      set (w2 := expireLocal now w <| pw_expected := er |> <| pw_registry := r |>). pose proof (settle_swept (acknowledged <$> expected) detachments now q w2 Hv2) as Hs2.
      rewrite (sw_current _ _ _ Hs2). change (pw_registry w2) with r. rewrite Hcur, (sw_current _ _ _ Hs1), orb_false_iff, withdrawn_false, lapsed_false by done. split.
      * intros [[Hc _] [[Hb Hd] Hl]]. split_and!; [done|done|]. intros _. exists expected, detachments. done.
      * intros (Hc & Hl & Hx). destruct (Hx eq_refl) as (e' & d' & Hp' & Hb & Hd). apply Hfun in Hp' as [-> ->]. done.
    + intros _ k a Hin. apply settle_shrinks in Hin. apply Hk in Hin as (b & Hb & Hkb & ->). by exists expected, detachments, b.
  - destruct Hr as (-> & _). split; [|done]. intros id x. rewrite (sw_current _ _ _ Hs1), lapsed_false. split; [intros [? ?]; by split_and!|by intros (? & ? & _)].
Qed.

(** ** Reports of terminal commands *)

Definition commands (pull : option (err + (list PreviewCarrierAdmission * list PreviewCarrierDetachment))) : list PreviewCarrierDetachment :=
  match pull with Some (inr (_, detachments)) => detachments | _ => [] end.

(** Runs of a worker, with the commands pulled so far; between its rounds other goroutines
    change the registries. *)
Inductive worker_run : list PreviewCarrierDetachment → Worker → Prop :=
  | wr_new er r nodeID epoch interval timeout w i t : NewPreviewCarrierWorker er r nodeID epoch interval timeout = inr (w, i, t) → worker_run [] w
  | wr_round l w pull now q ran w' : worker_run l w → Worker_reconcile pull now q w = Some (ran, w') → worker_run (commands pull ++ l) w'
  | wr_others l w er r : worker_run l w → worker_run l (w <| pw_expected := er |> <| pw_registry := r |>)
  | wr_shutdown l w now observed flushed again live : worker_run l w → worker_run l (Worker_Shutdown now observed flushed again live w).

(** What is kept for a retry and what was reported are commands of [l]. *)
Record told_of (l : list PreviewCarrierDetachment) w : Prop := {
  to_pending k d : pw_pending w !! k = Some d → detachment_key d = k ∧ d ∈ l;
  to_sent batch d : batch ∈ pw_sent w → d ∈ batch → d ∈ l
}.

(** The reports of two workers are the same. *)
Definition same_reports w w' : Prop := pw_pending w' = pw_pending w ∧ pw_sent w' = pw_sent w.

Lemma fold_reports {A} (f : Worker → A → Worker) l w : (∀ w x, same_reports w (f w x)) → same_reports w (List.fold_left f l w).
Proof.
  intros Hf. revert w. induction l as [|x l IH]; intros w; [done|]. cbn. destruct (Hf w x) as [E1 E2], (IH (f w x)) as [E3 E4]. split; congruence.
Qed.

Lemma expire_reports now w : same_reports w (expireLocal now w).
Proof. apply fold_reports. intros w' p. unfold expire_one. destruct (_ || _); [done|]. by destruct (List.find _ _). Qed.

Lemma removed_reports expected now w : same_reports w (detachRemoved expected now w).
Proof. apply fold_reports. intros w' p. by destruct (still_allowed _ _ _). Qed.

Lemma commands_reports l w : same_reports w (List.fold_left apply_detachment l w).
Proof.
  apply fold_reports. intros w' d. unfold apply_detachment. set (w1 := List.fold_left _ (Preview_Snapshot _) w').
  assert (same_reports w' w1) as [E1 E2] by (apply fold_reports; intros w2 p; by destruct (detachment_covers d p)).
  match goal with |- same_reports _ ?x => assert (same_reports w1 x) as [E3 E4] end; [|split; congruence].
  apply fold_reports. intros w2 a. by destruct (detachment_revokes d a).
Qed.

Lemma observed_reports answer w : same_reports w (flushPendingObservations answer w).2.
Proof. unfold flushPendingObservations. case_bool_decide; [done|]. by destruct answer. Qed.

Lemma told_same_reports l w w' : same_reports w w' → told_of l w → told_of l w'.
Proof. intros [E1 E2] [Hp Hs]. split; [by rewrite E1|by rewrite E2]. Qed.

Lemma told_more l l' w : told_of l w → told_of (l' ++ l) w.
Proof. intros [Hp Hs]. split; [intros k d [? ?]%Hp; split; [done|]; apply elem_of_app; by right|]. intros batch d Hb Hd. apply elem_of_app. right. by eapply Hs. Qed.

(** The commands of a failed report, entered one after the other. *)
Lemma enter_spec (l : list PreviewCarrierDetachment) (m : gmap string PreviewCarrierDetachment) :
  let m' := List.fold_left (λ m d, <[detachment_key d := d]> m) l m in
  (∀ k d, m' !! k = Some d → d ∈ l ∧ detachment_key d = k ∨ m !! k = Some d)
  ∧ (∀ k, is_Some (m !! k) → is_Some (m' !! k)) ∧ ∀ d, d ∈ l → ∃ d', d' ∈ l ∧ m' !! detachment_key d = Some d'.
Proof.
  revert m. induction l as [|x l IH]; intros m; cbn; [split_and!; [by right|done|by intros d ?%not_elem_of_nil]|].
  destruct (IH (<[detachment_key x := x]> m)) as (Hi1 & Hi2 & Hi3). split_and!.
  - intros k d [[Hd <-]|Hd]%Hi1; [left; split; [by right|done]|]. apply lookup_insert_Some in Hd as [[<- <-]|[_ Hd]]; [left; split; [by left|done]|by right].
  - intros k Hk. apply Hi2. rewrite lookup_insert_is_Some. destruct (decide (detachment_key x = k)); auto.
  - intros d [->|Hd]%elem_of_cons; [|destruct (Hi3 d Hd) as (d' & Hd' & E); exists d'; split; [by right|done]].
    destruct (Hi2 (detachment_key x)) as [d' Hd']; [rewrite lookup_insert_eq; eauto|]. exists d'. split; [|done].
    apply Hi1 in Hd' as [[Hin _]|Hd']; [by right|]. rewrite lookup_insert_eq in Hd'. injection Hd' as <-. by left.
Qed.

Lemma pending_values w d :
  d ∈ sort_by (λ d, pb_OperationID (dt_Binding d)) (sort_by (λ d, pb_RouteID (dt_Binding d)) (range_of (pw_pending w)).*2) ↔ ∃ k, pw_pending w !! k = Some d.
Proof.
  rewrite !sort_by_Permutation, range_of_perm, list_elem_of_fmap. split.
  - intros ([k x] & -> & Hx%elem_of_map_to_list). eauto.
  - intros (k & Hk). exists (k, d). split; [done|by apply elem_of_map_to_list].
Qed.

Lemma fold_delete_lookup (l : list PreviewCarrierDetachment) (m : gmap string PreviewCarrierDetachment) k d :
  List.fold_left (λ m d, delete (detachment_key d) m) l m !! k = Some d → m !! k = Some d ∧ ∀ x, x ∈ l → detachment_key x ≠ k.
Proof.
  revert m. induction l as [|x l IH]; intros m; cbn; [intros ?; split; [done|]; by intros x ?%not_elem_of_nil|].
  intros [[Hne Hm]%lookup_delete_Some Hl]%IH. split; [done|]. intros y [->|Hy]%elem_of_cons; [done|by apply Hl].
Qed.

Lemma flushPending_cases answer w :
  (∀ k d, pw_pending w !! k = Some d → detachment_key d = k) →
  (answer = None ∧ pw_pending (flushPending answer w).2 = ∅ ∨ answer ≠ None ∧ pw_pending (flushPending answer w).2 = pw_pending w)
  ∧ (∀ batch, batch ∈ pw_sent (flushPending answer w).2 → batch ∈ pw_sent w ∨ ∀ d, d ∈ batch ↔ ∃ k, pw_pending w !! k = Some d)
  ∧ ∀ batch, batch ∈ pw_sent w → batch ∈ pw_sent (flushPending answer w).2.
Proof.
  intros Hk. unfold flushPending. case_bool_decide as E; cbn [snd].
  { split_and!; [destruct answer; [right|left]; done|auto|auto]. }
  set (values := sort_by _ _). assert (∀ d, d ∈ values ↔ ∃ k, pw_pending w !! k = Some d) as Hv by apply pending_values. clearbody values.
  destruct answer; cbn -[map_to_list]; (split_and!; [|intros batch [->|Hb]%elem_of_cons; [by right|by left]|intros batch Hb; by right]); [by right|]. left. split; [done|].
  apply map_empty. intros k. apply eq_None_not_Some. intros [d Hd]. apply fold_delete_lookup in Hd as [Hd Hn]. apply (Hn d); [apply Hv; eauto|by apply Hk].
Qed.

Lemma flushed_told l answer w : told_of l w → told_of l (flushPending answer w).2.
Proof.
  intros [Hp Hs]. destruct (flushPending_cases answer w) as (Hc & Hb & _); [intros k d Hd; by apply Hp in Hd as []|]. split.
  - intros k d. destruct Hc as [[_ ->]|[_ ->]]; [by intros ?%lookup_empty_Some|apply Hp].
  - intros batch d [Hin|Hall]%Hb Hd; [by eapply Hs|]. apply Hall in Hd as (k & Hk). by apply Hp in Hk as [].
Qed.

(** What the server's commands do to the reports. *)
Lemma applied_told live answer l' l w : told_of l w → told_of (l' ++ l) (applyServerDetachments live answer l' w).
Proof.
  intros Ht. unfold applyServerDetachments. destruct l' as [|d l']; [done|]. destruct live; cbn [negb]; [|by apply told_more].
  pose proof (commands_reports (d :: l') w) as [E1 E2]. set (w1 := List.fold_left apply_detachment (d :: l') w) in *. clearbody w1. destruct Ht as [Hp Hs].
  assert (∀ batch x, batch ∈ (d :: l') :: pw_sent w → x ∈ batch → x ∈ (d :: l') ++ l) as Hsent.
  { intros batch x [->|Hb]%elem_of_cons Hx; apply elem_of_app; [by left|right; by eapply Hs]. }
  assert (∀ k x, pw_pending w !! k = Some x → detachment_key x = k ∧ x ∈ (d :: l') ++ l) as Hpend by (intros k x [? ?]%Hp; split; [done|]; apply elem_of_app; by right).
  destruct answer; (split; [|cbn -[app]; by rewrite E2]).
  - intros k x Hx. change (pw_pending (_ <| pw_sent := _ |> <| pw_pending := ?m |>)) with m in Hx. apply (proj1 (enter_spec (d :: l') _)) in Hx as [[Hx <-]|Hx].
    + split; [done|]. apply elem_of_app. by left.
    + cbn in Hx. rewrite E1 in Hx. by apply Hpend.
  - intros k x. cbn -[app]. rewrite E1. apply Hpend.
Qed.

Lemma settle_told expected detachments now q l w : told_of l w → told_of (detachments ++ l) (settle expected detachments now q w).
Proof.
  intros Ht. unfold settle. eapply told_same_reports; [apply observed_reports|]. apply flushed_told. eapply told_same_reports; [apply expire_reports|].
  apply applied_told. by eapply told_same_reports; [apply removed_reports|].
Qed.

Lemma round_told l pull now q w ran w' : told_of l w → Worker_reconcile pull now q w = Some (ran, w') → told_of (commands pull ++ l) w'.
Proof.
  intros Ht Hr. pose proof (told_same_reports _ _ _ (expire_reports now w) Ht) as Ht1. apply reconcile_cases in Hr. destruct ran.
  - destruct Hr as (expected & detachments & er & aliases & r & (a & -> & _) & _ & _ & _ & ->). cbn [commands]. apply settle_told. by eapply told_same_reports; [|exact Ht1].
  - destruct Hr as (_ & E1 & E2). apply told_more. by eapply told_same_reports; [|exact Ht1].
Qed.

Lemma shutdown_told l now observed flushed again live w : told_of l w → told_of l (Worker_Shutdown now observed flushed again live w).
Proof.
  intros Ht. unfold Worker_Shutdown. set (w1 := List.fold_left _ _ w). assert (same_reports w w1) as Hs1 by (by apply fold_reports).
  set (w2 := match _ with [] => w1 | _ => _ end). assert (same_reports w1 w2) as Hs2 by (unfold w2; destruct (_ <$> _); [done|]; destruct observed; [|done]; by destruct live).
  apply (told_same_reports _ _ _ Hs1), (told_same_reports _ _ _ Hs2) in Ht. apply (flushed_told _ flushed) in Ht. destruct (flushPending flushed w2) as [[e|] w3]; [done|].
  by eapply told_same_reports; [apply observed_reports|].
Qed.

Lemma worker_told l w : worker_run l w → told_of l w.
Proof.
  induction 1 as [er r nodeID epoch interval timeout w i t E|l w pull now q ran w' _ IH Hr|l w er r _ IH|l w now observed flushed again live _ IH].
  - unfold NewPreviewCarrierWorker in E. destruct (_ || _); [done|]. destruct (_ || _) in E; [done|]. injection E as <- <- <-.
    split; cbn; [by intros k d ?%lookup_empty_Some|by intros batch d ?%not_elem_of_nil].
  - by eapply round_told.
  - by eapply told_same_reports; [|exact IH].
  - by apply shutdown_told.
Qed.


(** ** The handler of a carrier *)

Lemma validateRoute_fields p now r q :
  validateRoute identity_of p now r = inr q →
  ∃ mode host, q = p <| pv_AccessMode := mode |> <| pv_Hostname := host |> <| pv_Identity := identity_of (pv_Server p) |>.
Proof.
  unfold validateRoute. intros Hq. destruct (badID _ || _ || _); [done|]. destruct (_ && _ && _ || _); [done|]. destruct (_ && _) in Hq; [done|].
  destruct (_ && _) in Hq; [done|]. destruct (failed _ || _) in Hq; [done|]. destruct (negb _ || _) in Hq; [done|]. destruct (failed _) in Hq; [done|].
  destruct (_ && _) in Hq; [done|]. destruct (_ && _) in Hq; [done|]. injection Hq as <-. destruct p. cbn.
  case_bool_decide; eexists _, _; reflexivity.
Qed.

(** The route is what [a] admits on the carrier [server]. *)
Definition admits (server : nat) (a : ExpectedAdmission) p : Prop :=
  pv_Server p = server ∧ pv_RouteID p = ea_RouteID a ∧ pv_OperationID p = ea_OperationID a ∧ pv_Identity p = ea_Identity a
  ∧ pv_AttachmentGeneration p = ea_AttachmentGeneration a ∧ pv_Revision p = ea_RouteRevision a ∧ pv_ExpiresAt p = ea_ExpiresAt a.

Lemma attach_current a server now r id x :
  vinv r → current (AttachAdmission identity_of a server now r).2 id = Some x → current r id = Some x ∨ admits server a (pe_route x.2).
Proof.
  intros Hv. unfold AttachAdmission. destruct (failed _); [by left|]. case_bool_decide as Ei; cbn [negb]; [|by left].
  destruct (PreviewAttach_cases identity_of (admitted_route a server) now r Hv) as [->|(q & Hq & _ & -> & _)]; [by left|]. cbn [snd]. rewrite publish_link.
  rewrite (current_same _ _ _ (activate_routes _ _)), (link_current identity_of), (vacate_current identity_of) by (try done; by apply vacate_inv).
  destruct (decide _) as [->|]; [|by left]. intros [= <-]. right. cbn. destruct (validateRoute_fields _ _ _ _ Hq) as (mode & host & ->). unfold admits. cbn. by rewrite Ei.
Qed.

Lemma AttachAdmission_inv a server now r : vinv r → vinv (AttachAdmission identity_of a server now r).2.
Proof. apply (preview_exec_inv identity_of (OAttachAdmission a server now)). Qed.

Lemma detach_current a r id x : vinv r → current (DetachAdmission a r).2 id = Some x → current r id = Some x.
Proof.
  intros Hv. unfold DetachAdmission. destruct (_ || _); [done|]. destruct (pr_closed r); [done|]. destruct (current r (ea_RouteID a)) as [[i e]|] eqn:E; [|done].
  destruct (negb _); [done|]. cbn [snd]. pose proof E as [Eb _]%current_Some. rewrite (drop_current identity_of) by done. by destruct (decide _).
Qed.

(** The routes of [r'] are routes of [r] or admitted by one of [l]. *)
Record granted_from (server : nat) (l : list ExpectedAdmission) r r' : Prop := {
  gf_inv : vinv r';
  gf_current id x : current r' id = Some x → current r id = Some x ∨ ∃ a, a ∈ l ∧ admits server a (pe_route x.2)
}.

Lemma granted_detach server l a r r' : granted_from server l r r' → granted_from server l r (DetachAdmission a r').2.
Proof. intros [Hv Hc]. split; [by apply DetachAdmission_inv|]. intros id x Hx. by apply detach_current, Hc in Hx. Qed.

Lemma granted_attach server l a now r r' : a ∈ l → granted_from server l r r' → granted_from server l r (AttachAdmission identity_of a server now r').2.
Proof. intros Ha [Hv Hc]. split; [by apply AttachAdmission_inv|]. intros id x [Hx|Hx]%attach_current; [by apply Hc|right; by exists a|done]. Qed.

Lemma withdraw_granted server l desired attached r : vinv r → granted_from server l r (withdraw desired attached r).
Proof.
  intros Hv. unfold withdraw. assert (granted_from server l r r) as Hg by (split; [done|by left]). revert Hg. generalize r at 2 4. generalize (range_of attached).
  intros kvs. induction kvs as [|kv kvs IH]; intros r' Hg; [done|]. cbn. apply IH. destruct (_ !! kv.1); [destruct (previewCarrierAdmissionEqual _ _); [done|]|]; by apply granted_detach.
Qed.

Abbreviation same := previewCarrierAdmissionEqual.
Lemma same_refl a : same a a = true.
Proof. by apply bool_decide_eq_true_2. Qed.

(** What the handler remembers is about admissions of [l]. *)
Record wanted_only (l : list ExpectedAdmission) (h : Handler) : Prop := {
  wo_attached k a : hd_attached h !! k = Some a → ∃ b, b ∈ l ∧ key b = k ∧ same a b = true;
  wo_pending k a t : hd_pendingReady h !! k = Some (a, t) → ∃ b, b ∈ l ∧ key b = k ∧ same a b = true
}.

(** The admission is attached, or waits for its next attempt. *)
Definition answered (h : Handler) (b : ExpectedAdmission) : Prop :=
  (∃ a, hd_attached h !! key b = Some a ∧ same a b = true) ∨ ∃ a t, hd_pendingReady h !! key b = Some (a, t) ∧ same a b = true.

(** The state after a failed attempt. *)
Definition waiting (h : Handler) (a : ExpectedAdmission) (t : Time) : Handler := h <| hd_pendingReady := <[key a := (a, t)]> (hd_pendingReady h) |>.

Lemma waiting_ok l a h t :
  a ∈ l → wanted_only l h → wanted_only l (waiting h a t) ∧ answered (waiting h a t) a ∧ ∀ b, b ∈ l → key b ≠ key a → answered h b → answered (waiting h a t) b.
Proof.
  intros Ha [Hat Hpe]. split_and!.
  - split; [done|]. intros k x t'. cbn. rewrite lookup_insert_Some. intros [[<- [= <- <-]]|[_ Hx]]; [exists a; split_and!; [done|done|apply same_refl]|by eapply Hpe].
  - right. exists a, t. cbn. rewrite lookup_insert_eq. split; [done|apply same_refl].
  - intros b _ Hne Hb. unfold answered in *. cbn. by rewrite lookup_insert_ne.
Qed.

Lemma attach_wanted_step server now clock observe l a h r0 r h' r' :
  a ∈ l → granted_from server l r0 r → wanted_only l h → NoDup (key <$> l) → attach_wanted identity_of server now clock observe (h, r) a = (h', r') →
  granted_from server l r0 r' ∧ wanted_only l h' ∧ answered h' a ∧ ∀ b, b ∈ l → key b ≠ key a → answered h b → answered h' b.
Proof.
  intros Ha Hg [Hat Hpe] Hnd. unfold attach_wanted. assert (∀ b, b ∈ l → key b = key a → b = a) as Hone.
  { intros b Hb E. pose proof (proj2 (by_key_lookup l _ b Hnd) (conj Hb E)). pose proof (proj2 (by_key_lookup l _ a Hnd) (conj Ha eq_refl)). congruence. }
  destruct (hd_attached h !! key a) as [c|] eqn:Ea.
  { intros [= <- <-]. split_and!; [done|done| |done]. destruct (Hat _ _ Ea) as (b & Hb & Hk & Hs). apply (Hone b Hb) in Hk as ->. left. eauto. }
  pose proof (λ t, waiting_ok l a h t Ha (Build_wanted_only _ _ Hat Hpe)) as Hw. fold (waiting h a (clock + retryInterval)).
  assert (∀ t, hd_pendingReady h !! key a = Some t → same t.1 a = true) as Hsame.
  { intros [x t] Hx. destruct (Hpe _ _ _ Hx) as (b & Hb & Hk & Hs). by apply (Hone b Hb) in Hk as ->. }
  assert (∀ s h' r', (if s : bool then (h, r)
      else match AttachAdmission identity_of a server now r with
           | (Some _, r) => (waiting h a (clock + retryInterval), r)
           | (None, r) => if failed (observe a) then (waiting h a (clock + retryInterval), (DetachAdmission a r).2)
                          else (h <| hd_attached := <[key a := a]> (hd_attached h) |> <| hd_pendingReady := delete (key a) (hd_pendingReady h) |>, r)
           end) = (h', r') → (s = true → is_Some (hd_pendingReady h !! key a)) →
    granted_from server l r0 r' ∧ wanted_only l h' ∧ answered h' a ∧ ∀ b, b ∈ l → key b ≠ key a → answered h b → answered h' b) as Hmain.
  { intros s h1 r1. destruct s.
    - intros [= <- <-] Hsk. split_and!; [done|done| |done]. destruct (Hsk eq_refl) as [[x t] Hx]. right. exists x, t. split; [done|]. by apply (Hsame (x, t)).
    - intros E _. pose proof (granted_attach server l a now r0 r Ha Hg) as Hg1. destruct (AttachAdmission _ _ _ _ _) as [[e|] r2]; cbn [snd] in Hg1.
      + injection E as <- <-. split; [done|apply Hw].
      + destruct (failed (observe a)); injection E as <- <-; [split; [by apply granted_detach|apply Hw]|]. split_and!; [done| | |].
        * split; cbn.
          -- intros k x. rewrite lookup_insert_Some. intros [[<- <-]|[_ Hx]]; [exists a; split_and!; [done|done|apply same_refl]|by apply Hat].
          -- intros k x t [_ Hx]%lookup_delete_Some. by eapply Hpe.
        * left. exists a. cbn. rewrite lookup_insert_eq. split; [done|apply same_refl].
        * intros b _ Hne Hb. unfold answered in *. cbn. by rewrite lookup_insert_ne, lookup_delete_ne. }
  destruct (hd_pendingReady h !! key a) as [[x t]|] eqn:Ep.
  - pose proof (Hsame (x, t) eq_refl) as Hs. cbn in Hs. rewrite Hs. cbn [negb]. intros E. apply (Hmain _ _ _ E). eauto.
  - intros E. by apply (Hmain false _ _ E).
Qed.

(** Entries that lie under their own key have distinct keys. *)
Lemma keys_distinct (f : ExpectedAdmission → bool) (m : gmap string ExpectedAdmission) :
  (∀ k a, m !! k = Some a → key a = k) → NoDup (key <$> List.filter f (map_to_list m).*2).
Proof.
  intros Hk. assert (∀ kv, kv ∈ map_to_list m → key kv.2 = kv.1) as Hin by (intros [k a] Ha%elem_of_map_to_list; by apply Hk).
  pose proof (NoDup_fst_map_to_list m) as Hnd. revert Hin Hnd. generalize (map_to_list m). intros l. induction l as [|[k a] l IH]; intros Hin Hnd; [constructor|].
  cbn in Hnd. apply NoDup_cons in Hnd as [Hn Hnd]. assert (NoDup (key <$> List.filter f l.*2)) as IH' by (apply IH; [intros kv Hkv; apply Hin; by right|done]).
  cbn. destruct (f a); [|done]. cbn. constructor; [|done]. intros (b & Hb & Hf)%list_elem_of_fmap. apply list_elem_of_In, filter_In in Hf as [Hf%list_elem_of_In _].
  apply list_elem_of_fmap in Hf as ([k' b'] & -> & Hkv). apply Hn. apply list_elem_of_fmap. exists (k', b'). split; [|done]. cbn.
  pose proof (Hin (k', b') ltac:(by right)) as E1. pose proof (Hin (k, a) ltac:(by left)) as E2. cbn in E1, E2, Hb. congruence.
Qed.

Lemma attach_wanted_list server now clock observe l r0 todo h r :
  NoDup (key <$> l) → NoDup (key <$> todo) → (∀ a, a ∈ todo → a ∈ l) → granted_from server l r0 r → wanted_only l h →
  let s := List.fold_left (attach_wanted identity_of server now clock observe) todo (h, r) in
  granted_from server l r0 s.2 ∧ wanted_only l s.1 ∧ (∀ a, a ∈ todo → answered s.1 a)
  ∧ ∀ b, b ∈ l → key b ∉ key <$> todo → answered h b → answered s.1 b.
Proof.
  intros Hl. revert h r. induction todo as [|a todo IH]; intros h r Hnd Hin Hg Hw; cbn [List.fold_left]; [split_and!; [done|done|by intros a ?%not_elem_of_nil|done]|].
  apply NoDup_cons in Hnd as [Hn Hnd]. destruct (attach_wanted identity_of server now clock observe (h, r) a) as [h1 r1] eqn:E.
  destruct (attach_wanted_step server now clock observe l a h r0 r h1 r1) as (Hg1 & Hw1 & Ha & Hb); [apply Hin; by left|done..|].
  destruct (IH h1 r1) as (Hg2 & Hw2 & Ha2 & Hb2); [done|intros b Hb'; apply Hin; by right|done|done|]. split_and!; [done|done| |].
  - intros b [->|Hb']%elem_of_cons; [|by apply Ha2]. apply Hb2; [apply Hin; by left|done|done].
  - intros b Hbl Hne Hans. apply not_elem_of_cons in Hne as [Hne Hnt]. apply Hb2; [done|done|]. by apply Hb.
Qed.


(** What a snapshot brought passes the checks of the report, so the report is sent. *)
Lemma pulled_commands_posted nodeID processEpoch answer now admissions detachments post :
  PreviewDocuments.PreviewCarrierSnapshot nodeID processEpoch answer now = Some (inr (admissions, detachments)) → detachments ≠ [] →
  DetachPreviewCarriers nodeID processEpoch post detachments = post detachments.
Proof.
  unfold PreviewDocuments.PreviewCarrierSnapshot, DetachPreviewCarriers, checked_post. destruct (badID _ || _) eqn:Eb; [done|]. destruct answer as [e|doc]; [done|].
  destruct (sd_Admissions doc) as [l|]; [|done]. destruct (sd_Detachments doc) as [l'|]; [|done]. destruct (_ || (_ <? _)) eqn:El; [done|].
  destruct (admissions_valid _ _ _ _) as [[]|]; [|done|done]. destruct (existsb _ _) eqn:Ee; [done|]. intros [= <- <-] Hne.
  apply orb_false_iff in El as [_ El]. cbn [orb]. rewrite El. assert (first_error (validatePreviewCarrierDetachment nodeID processEpoch) l' = None) as ->.
  - clear El Hne. induction l' as [|d l' IH]; [done|]. cbn in *. apply orb_false_iff in Ee as [Ed Ee]. apply failed_false in Ed. rewrite Ed. by apply IH.
  - by destruct l'.
Qed.

(** ** Team previews *)

Lemma convert_in nodeID now admissions expected a :
  convert nodeID now admissions = Some (inr expected) → a ∈ admissions → ∃ x, x ∈ expected ∧ Expected a nodeID now = Some (inr x).
Proof.
  revert expected. induction admissions as [|b admissions IH]; intros expected; cbn; [by intros _ ?%not_elem_of_nil|].
  destruct (Expected b nodeID now) as [[e|x]|] eqn:E; [done| |done]. destruct (convert nodeID now admissions) as [[e|l]|]; [done| |done]. intros [= <-] [->|Ha]%elem_of_cons.
  - exists x. split; [by left|done].
  - destruct (IH l eq_refl Ha) as (y & Hy & Ey). exists y. split; [by right|done].
Qed.

(** The edge refuses what the control plane's documents allow: as long as one of the pulled
    admissions is for a team preview, no round of the worker runs to its end. *)
Lemma team_preview_blocks admissions detachments a n now q w ran w' :
  a ∈ admissions → Normalize a = inr n → cd_AccessMode n = "team" →
  Worker_reconcile (Some (inr (admissions, detachments))) now q w = Some (ran, w') → ran = false.
Proof.
  intros Ha Hn Hm. unfold Worker_reconcile. destruct (convert _ _ _) as [[e|expected]|] eqn:Ec; [by intros [= <- _]| |done].
  destruct (convert_in _ _ _ _ _ Ec Ha) as (x & Hx & Ex). unfold Expected in Ex. rewrite Hn in Ex.
  destruct (Admission_Validate _ _ _ _) as [[e|]|]; [done| |done]. injection Ex as <-.
  destruct (InstallPending _ _ _) as [[e|] er] eqn:Ei; [by intros [= <- _]|]. apply InstallPending_ok in Ei as (_ & _ & Hok & _). apply Hok in Hx.
  exfalso. revert Hx. unfold check_admission, Expected_Validate. cbn. rewrite Hm. repeat (destruct (_ || _); [done|]). destruct (failed _); [done|].
  destruct (negb _); [done|]. destruct (_ || _); done.
Qed.
End Rounds.

(** ** An edge with two previews *)

Module Edge.

#[local] Instance sample_rotation : RotationLib := {|
  sha256_sum b := take 32 b;
  ed25519_Verify _ _ _ := true;
  url_Parse s := if s == "https://app.preview.example.com" then Some (mkURL "https" "app.preview.example.com" false "" "" "" "")
                 else if s == "https://b.preview.example.com" then Some (mkURL "https" "b.preview.example.com" false "" "" "" "")
                 else if s == "h2://edge.example:443" then Some (mkURL "h2" "edge.example:443" false "" "" "" "")
                 else if s == "h3://edge.example:443" then Some (mkURL "h3" "edge.example:443" false "" "" "" "") else None;
  marshal_plan _ _ _ _ := None;
  marshal_proof _ := None
|}.
#[local] Instance sample_text : TextLib := {| unicode_lower s := s; ToASCII s := Some s; isIP _ := false; ValidUTF8 _ := true |}.
#[local] Instance sample_fold : FoldLib := λ _ _, false.
#[local] Instance sample_range : RangeOrder := {| range_of A m := map_to_list m; range_of_perm A m := Permutation_refl _ |}.
#[local] Instance sample_cert : CertLib := {|
  pem_Decode b := Some ("CERTIFICATE", 0, b, []);
  ParseCertificate _ := Some (mkCert 0 1000 (λ name, name == "edge.example") (replicate 32 x02))
|}.

Definition epoch0 := "epoch-0123456789abcdef0123456789abcdef".
Definition machine : bytes := replicate 32 x01.
Definition pin : string := "sha256:" +:+ hex_EncodeToString (replicate 32 x02).
Definition hash0 : string := "sha256:0000000000000000000000000000000000000000000000000000000000000000".

Definition binding (preview operation route : string) : PreviewCarrierBinding :=
  mkCarrierBinding "acct" preview operation "host" "owner" "host" 5 "tun" "con" "sess" 3 7 route 1 "node" epoch0 pin "pem"
    (EncodeToString machine) (key_thumbprint machine).

Definition document (operation route name mode : string) (endpoints : list string) : PreviewCarrierAdmission :=
  mkAdmission PreviewCarrierSchema PreviewCarrierKind (binding "preview" operation route) 2 hash0 endpoints ("https://" +:+ name +:+ ".preview.example.com")
    100 mode "" "" "" 0 [].

Definition endpoints0 := ["h2://edge.example:443"; "h3://edge.example:443"].
Definition doc1 := document "op1" "route1" "app" "public" endpoints0.
Definition doc2 := document "op2" "route2" "b" "private" endpoints0.
Definition stop2 : PreviewCarrierDetachment := mkDetachment PreviewCarrierSchema PreviewCarrierKind (binding "preview" "op2" "route2") 3 "released" 20.

Definition identity_of (server : nat) : Identity := mkIdentity "acct" "host" "tun" "con" "sess" 3 7.
Definition admitted (d : PreviewCarrierAdmission) : ExpectedAdmission :=
  match Expected d "node" 10 with Some (inr x) => acknowledged x | _ => zeroAdmission end.

Definition expected0 : ExpectedAdmissionRegistry :=
  match NewExpectedAdmissionRegistry "node" epoch0 8 with inr r => r | inl _ => mkRegistry "" 0 "" true ∅ ∅ 0 end.
Definition registry0 : DataCarrierPreviewRegistry := mkPreviewRegistry "preview.example.com" epoch0 8 false ∅ ∅ ∅ ∅ ∅ ∅.
Definition good : answers := mkAnswers None true None None None.
Definition unreported : answers := mkAnswers None true (Some Ingress.ErrControlUnavailable) (Some Ingress.ErrControlUnavailable) None.
Definition rounds (pull : option (err + (list PreviewCarrierAdmission * list PreviewCarrierDetachment))) (now : Time) (q : answers) w : Worker :=
  match Worker_reconcile pull now q w with Some (_, w') => w' | None => w end.

Definition pull1 : option (err + (list PreviewCarrierAdmission * list PreviewCarrierDetachment)) := Some (inr ([doc1; doc2], [])).
Definition pull2 : option (err + (list PreviewCarrierAdmission * list PreviewCarrierDetachment)) := Some (inr ([doc1], [stop2])).
Definition worker0 : Worker := mkWorker "node" expected0 registry0 ∅ ∅ [].
Definition worker1 : Worker := rounds pull1 10 good worker0.
Definition served : Handler * DataCarrierPreviewRegistry :=
  Handler_reconcile identity_of 1 11 11 (λ _, None) (pw_expected worker1) (mkHandler ∅ ∅) (pw_registry worker1).
Definition worker2 : Worker := worker1 <| pw_expected := pw_expected worker1 |> <| pw_registry := served.2 |>.
Definition worker3 : Worker := rounds pull2 20 unreported worker2.

Example edge_runs :
  Worker_reconcile pull1 10 good worker0 = Some (true, worker1) ∧ pv_RouteID <$> Preview_Snapshot served.2 = ["route1"; "route2"]
  ∧ Worker_reconcile pull2 20 unreported worker2 = Some (true, worker3) ∧ pv_RouteID <$> Preview_Snapshot (pw_registry worker3) = ["route1"].
Proof. vm_compute. auto. Qed.

(** A team preview is accepted by the checks of the control plane's documents and stops the
    round, while the same edge without it completes. *)
Example team_document_accepted :
  Admission_Validate (document "op3" "route3" "b" "team" endpoints0) "node" 10 (Some epoch0) = Some None
  ∧ fst <$> Worker_reconcile (Some (inr ([doc1; document "op3" "route3" "b" "team" endpoints0], []))) 10 good worker0 = Some false.
Proof. vm_compute. auto. Qed.

(** An edge endpoint that is no URL stops the process instead of being refused. *)
Example endpoint_panics : Admission_Validate (document "op1" "route1" "app" "public" ["h2 edge"; "h3://edge.example:443"]) "node" 10 (Some epoch0) = None.
Proof. vm_compute. reflexivity. Qed.

Definition ops : list op := [OReconcile []; OAttachAdmission (admitted doc1) 1 11; OAttachAdmission (admitted doc2) 1 11].
Definition after (os : list op) : DataCarrierPreviewRegistry := List.fold_left (λ r o, (exec identity_of o r).2) os registry0.

Lemma edge_run os : preview_run identity_of (λ _, true) "preview.example.com" epoch0 8 (after os).
Proof.
  assert (preview_run identity_of (λ _, true) "preview.example.com" epoch0 8 registry0) as Hr by (apply run_new; vm_compute; reflexivity).
  unfold after. revert Hr. generalize registry0. induction os as [|o os IH]; intros r Hr; [exact Hr|]. cbn. apply IH. by constructor.
Qed.

Lemma served_run : preview_run identity_of (λ _, true) "preview.example.com" epoch0 8 (pw_registry worker2).
Proof. assert (pw_registry worker2 = after ops) as -> by (vm_compute; reflexivity). apply edge_run. Qed.

Lemma worker1_reachable : ∃ acks, PreviewAdmissionProofs.vreachable (PreviewAdmissionProofs.mkVWorld (pw_expected worker1) acks).
Proof.
  set (l := (λ d, admitted d <| ea_Admitted := false |>) <$> [doc1; doc2]). set (r1 := (InstallPending l 10 expected0).2).
  set (r2 := (MarkAdmitted (acknowledged <$> l) r1).2). exists ((acknowledged <$> l) ++ []).
  assert (PreviewAdmissionProofs.vreachable (PreviewAdmissionProofs.mkVWorld expected0 [])) as V0.
  { apply (PreviewAdmissionProofs.vreachable_new "node" epoch0 8). vm_compute. reflexivity. }
  assert (InstallPending l 10 expected0 = (None, r1)) as E1 by (vm_compute; reflexivity).
  pose proof (PreviewAdmissionProofs.vreachable_step _ _ V0 (PreviewAdmissionProofs.v_install (PreviewAdmissionProofs.mkVWorld expected0 []) l 10 None r1 E1)) as V1.
  assert (MarkAdmitted (acknowledged <$> l) r1 = (None, r2)) as E2 by (vm_compute; reflexivity).
  assert (NoDup (key <$> (acknowledged <$> l))) as Hnd by (apply (bool_decide_unpack _); vm_compute; reflexivity).
  pose proof (PreviewAdmissionProofs.vreachable_step _ _ V1 (PreviewAdmissionProofs.v_mark (PreviewAdmissionProofs.mkVWorld r1 []) (acknowledged <$> l) None r2 Hnd E2)) as V2.
  assert (Commit (acknowledged <$> l) r2 = (None, pw_expected worker1)) as E3 by (vm_compute; reflexivity).
  exact (PreviewAdmissionProofs.vreachable_step _ _ V2 (PreviewAdmissionProofs.v_commit (PreviewAdmissionProofs.mkVWorld r2 ((acknowledged <$> l) ++ [])) _ None _ E3)).
Qed.

Definition entry_of r (id : string) : nat * dataCarrierPreviewRouteEntry :=
  default (0%nat, mkPreviewEntry (admitted_route zeroAdmission 0) "" true) (current r id).

Lemma preview_round_exact_witness :
  current (pw_registry worker3) "route1" = Some (entry_of (pw_registry worker2) "route1")
  ∧ ∃ expected detachments, pulled pull2 20 worker2 expected detachments ∧ backed expected 20 (pe_route (entry_of (pw_registry worker2) "route1").2).
Proof.
  destruct (preview_round_exact identity_of (λ _, true) "preview.example.com" epoch0 8 pull2 20 unreported worker2 true worker3 served_run) as [Hc _];
    [vm_compute; reflexivity|].
  assert (current (pw_registry worker3) "route1" = Some (entry_of (pw_registry worker2) "route1")) as E by (vm_compute; reflexivity). split; [exact E|].
  destruct (proj1 (Hc _ _) E) as (_ & _ & Hb). destruct (Hb eq_refl) as (expected & detachments & Hp & Hbk & _). exact (ex_intro _ expected (ex_intro _ detachments (conj Hp Hbk))).
Defined.

Lemma worker2_run : worker_run [] worker2.
Proof.
  apply wr_others. apply (wr_round [] worker0 pull1 10 good true worker1); [|vm_compute; reflexivity].
  apply (wr_new expected0 registry0 "node" epoch0 0 0 _ (15 * Second) (30 * Second)). vm_compute. reflexivity.
Qed.


End Edge.
End PreviewWorkerGuarantees.
